(* ===== verification/_CoqProject ===== *)
-Q . S2P
Prelude.v
Text.v
Regex.v
Float32.v
Document.v
TextSafety.v
Rewrite.v
Claims.v
Evidence.v
TextAdapter.v
Extract.v
Protection.v
Semantic.v
Policy.v
ClaimCompare.v
SpanReport.v
Cancellation.v
Engine.v
EngineProps.v
Json.v
JsonRef.v
Model.v
Inference.v
CandidateOutput.v
LocalJudge.v
Extractor.v
ModelJson.v
StoreDb.v
ModelStore.v
StoreMonad.v
StoreInv.v
StoreSteps.v
StoreOps.v
StoreTheorems.v
StoreInventory.v
StoreRemoval.v
FileSystem.v
StorageIo.v
ArtifactStorage.v
ArtifactRemoval.v
ArtifactImport.v
ArtifactReconciliation.v
ArtifactInventory.v
StorageFacts.v
StorageSpecs.v
StorageVerify.v
StorageSafety.v
StorageTheorems.v
StorageErrors.v
StorageCalm.v
RemovalReady.v
RemovalRetry.v
InventorySpec.v
InventoryCalm.v
Grounded.v
CandidateCheck.v
ClaimExtraction.v
GroundedService.v
LintText.v
Lint.v
LintProps.v
LintRules.v
LintCatalog.v
LintTheorems.v
DocumentReview.v
DocumentReviewOperation.v
ReviewOperationProps.v
ReviewOperationLive.v
DocumentReviewState.v
Profile.v
Witnesses.v
InferenceWitnesses.v
StoreWitnesses.v
ReviewWitnesses.v
StorageWitnesses.v
