(* ===== verification/Prelude.v ===== *)
(** * Verification of the retonr rewrite core

    retonr checks rewritten text against its source.  A caller supplies a
    document and a candidate text; the program either returns the rewritten
    document, or abstains and returns the original bytes, and in both cases
    writes a redacted audit record.  A local model can supply the candidates
    instead, through an inference port.  This library models the crates
    [types], [text-adapter], [engine], [inference] and [grounded], the core
    of [model], the artifact records of [model-store], and the
    candidate-check, claim-extraction, grounded-rewrite, lint, document
    review and artifact services of [app] (under [src/crates]), and proves
    what the program promises.

    ** The parts and how they interact

    [app/src/candidate_check.rs] parses the source with the text adapter,
    wraps the caller's text in a candidate generator, runs the engine on the
    document, applies the accepted edits with the adapter, verifies the
    result and falls back to the original.  The engine ([engine.rs]) walks
    over the rewrite units: it builds a protection plan ([protection.rs],
    [protection/extract.rs]) that replaces protected values by sentinel
    tokens, asks the generator for candidates, sends each one through the
    gates (candidate metadata, sentinel or protected-value integrity,
    structure, layout, semantic fidelity), ranks the eligible ones
    ([selection.rs]) and commits every unit or none.  Gates and records obey
    a validated evidence contract ([types/src/validation.rs]); failed gates
    carry redacted locations ([span_report.rs]); an observer may attach a
    claim comparison ([claim_shadow.rs], [claim_comparison.rs]) for
    information only; a cancellation token ([types/src/cancellation.rs]) is
    polled between the steps.

    [app/src/grounded.rs] drives the same transaction with candidates from a
    model: it masks the source, asks the strategy ([grounded/src]) to render
    a prompt, discover the backend and generate masked candidates over the
    port ([inference/src/port.rs]), optionally extracts claims from the
    source and the restored candidates ([app/src/claim_extraction.rs]) for
    the observer, and attaches the provenance of the generation to the
    record.  Which model may serve is decided by qualification records and
    activation ([model/src]); the in-process conformance backend
    ([inference/src/conformance.rs]) is bound to the recovered artifact.

    [model-store/src] keeps these records in SQLite: manifests,
    installations, qualifications, invalidations, the activation of each
    task and artifact removals in progress.  Every operation is one
    transaction that compares the state with what the caller saw (digests of
    inventories, epochs of bindings, operation identifiers), and the records
    read back are decoded and checked before they are used.

    The bytes of an installed artifact are a file under its digest
    ([app/src/artifact_storage]).  [artifact_import.rs] copies and hashes a
    file of the caller into a staging directory, links it under its digest,
    verifies and synchronizes it and registers it in the store;
    [artifact_reconciliation.rs] registers a file that is already there;
    [artifact_removal.rs] verifies the file, prepares the removal in the
    store, unlinks the file and completes the removal, and resumes one that
    was interrupted.  All of them hold an exclusive lock on the storage.
    [artifact_inventory.rs] compares the records with the files under a
    shared lock and writes nothing.

    [app/src/document_review.rs] inspects, checks and lints one document for
    a presentation layer, without a model.  [document_review_operation.rs]
    runs it on a worker thread behind a mailbox that keeps only the latest
    request, with a supervisor thread that cleans up, and
    [document_review_state.rs] is the reducer an interface polls.

    ** Files

    - [Prelude]: results with panics, machine integers, options, lists,
      sorting, and the automation the other files share.
    - [Text], [Float32], [Regex]: what the sources use of Rust's [str],
      [char] and [f32], and the two search packages.
    - [Document]: [digest.rs], [document.rs] (Modules [Digest],
      [DocumentId], [RewriteUnitId], [SourceSpan], [DocumentIr]).
    - [TextSafety]: [text_safety.rs].
    - [Rewrite]: [rewrite.rs] (options, candidates, edits, reasons).
    - [Claims]: [claim.rs] and [claim_comparison.rs] of [types].
    - [Evidence]: [validation.rs], [validation/semantic.rs],
      [bounded_serde.rs], [record.rs].
    - [TextAdapter]: [text-adapter/src/lib.rs], [inventory.rs], [locate.rs].
    - [Extract], [Protection]: [protection/extract.rs], [protection.rs].
    - [Semantic]: [semantic.rs] of the engine (evaluator port and the literal
      evaluator).
    - [Policy]: [policy.rs], [selection.rs], [generator.rs],
      [structure.rs].
    - [ClaimCompare]: [claim_comparison.rs], [claim_shadow.rs] of the engine.
    - [SpanReport]: [span_report.rs].
    - [Cancellation]: [cancellation.rs] as a step relation on interleaved
      threads.
    - [Engine]: [engine.rs], [engine/support.rs]; [EngineProps]: its
      theorems.
    - [Json]: JSON values, the events of a streaming reader, the class of a
      codec and the derived readers; [JsonRef]: a printer and reader that
      satisfies the class.
    - [Model]: [model/src/artifact.rs], [qualification.rs],
      [activation.rs] (manifests, records, identifiers, activation).
    - [Inference]: [inference/src/contract.rs], [error.rs],
      [structured.rs], [request_identity.rs], [schemas.rs], [port.rs];
      futures, the operation context and the port of a backend.
    - [CandidateOutput]: [candidate.rs], [candidate/parser.rs],
      [single_candidate.rs]; [LocalJudge]: [local_judge.rs].
    - [Extractor]: [types/src/extractor.rs]; [Profile]:
      [types/src/profile.rs].
    - [ModelJson]: the JSON of the records of the model crate and the class
      of types that serialise to it.
    - [StoreDb]: the tables of the model store, its SQL statements with
      their constraints and the monad of SQLite calls; [ModelStore]: the
      operations ([store.rs], [record.rs], [binding.rs], [removal.rs],
      [store/activation_write.rs], [store/removal.rs],
      [store/inventory.rs]).  [StoreMonad]
      is a calculus of calls that read, that write and that roll back;
      [StoreInv] the invariant of a database and what loading from it
      gives; [StoreSteps] the changes a database undergoes; [StoreOps] shows
      that each operation makes such a change or none; [StoreTheorems] and
      [StoreInventory] hold the theorems; [StoreRemoval] shows that the
      removal operations succeed when SQLite does.
    - [FileSystem]: the calls of the operating system the artifact services
      make, on nodes, directories with the changes that wait for
      synchronization, and what a loss of power may leave.  [StorageIo]:
      programs of such calls and of database operations, run by an
      environment.  [ArtifactStorage]: [artifact_storage.rs] with
      [errors.rs], [entry.rs], [existing.rs], [fingerprint.rs],
      [mutation.rs], [mutation/platform.rs], [mutation/sync.rs] and
      [verification.rs].  [ArtifactImport]: [artifact_import.rs] with
      [boundary.rs], [contract.rs], [platform.rs], [staged.rs] and
      [verify.rs].  [ArtifactRemoval]: [artifact_removal.rs],
      [ArtifactReconciliation]: [artifact_reconciliation.rs],
      [ArtifactInventory]: [artifact_inventory.rs], each with its
      [contract.rs].  [StorageFacts] says which entries and bytes outlive a
      loss of power and which calls keep them; [StorageSpecs] and
      [StorageVerify] specify the calls and the verification of an artifact;
      [StorageSafety] shows that each service keeps the bytes of what is
      installed; [StorageTheorems] and [StorageErrors] hold the theorems.
      [StorageCalm] says what the operations return when no call fails,
      [RemovalReady] what a removal needs of the storage, and [RemovalRetry]
      that a removal can be completed.  [InventorySpec] reads a report off
      the file system and the records and shows that the inventory returns
      that one, [InventoryCalm] that it returns one when no call fails.
    - [Grounded]: [grounded/src/policy.rs], [render.rs], [strategy.rs] and
      [inference/src/conformance.rs].
    - [CandidateCheck]: [candidate_check.rs] and the end-to-end theorems.
    - [ClaimExtraction]: [claim_extraction.rs] with [contract.rs],
      [parse.rs] and [shadow.rs]; [GroundedService]: [grounded.rs].
    - [LintText], [Lint]: the editorial lint ([engine/src/lint],
      [types/src/lint.rs]): text helpers and detectors, then the collector,
      the catalog, every rule and the comparison of findings.  [LintProps]
      is a calculus for rules as commands on the bounded collector,
      [LintRules] applies it to each rule, [LintCatalog] to the whole run,
      and [LintTheorems] adds the service of [app/src/lint.rs], the engine's
      interface to the lint and the theorems.
    - [DocumentReview]: [document_review.rs] with its [contract.rs] and
      [source_inspection.rs].  [DocumentReviewOperation]:
      [document_review_operation.rs] with [contract.rs] and [worker.rs], as
      the interleaved steps of three threads; [ReviewOperationProps]: the
      promise to the caller and the simulation; [ReviewOperationLive]: every
      request is answered.  [DocumentReviewState]:
      [document_review_state.rs] and its invariant.
    - [Witnesses], [InferenceWitnesses], [StoreWitnesses],
      [ReviewWitnesses], [StorageWitnesses]: each theorem with hypotheses applied at a concrete input.

    ** How the model follows the code

    A function that cannot fail is a Rocq function; one that returns
    [Result] returns [Prelude.Result], which has a third constructor [Panic]
    for an index or slice that would panic.  A [str] is the list of its
    scalar values with offsets counted in UTF-8 bytes; bytes are integers
    below 256; [u32], [u64] and [usize] values are integers with the checks
    the source makes written out (a saturating conversion, a checked
    addition).  An [f32] is its bit pattern, since the code only compares
    and rounds.  A loop over an index becomes a recursion on the text from
    that index on.  Where the recursion is not structural the function takes
    fuel equal to the length of the text: every round consumes at least one
    character, so the text is exhausted no later than the fuel.  [BTreeMap] and [HashSet]
    values are [gmap] and [gset]; where the code iterates over a map, the
    order of the keys is written out.

    A cancellation token polled by a sequential function is a schedule
    [nat -> bool] of the answers; the number of polls made so far is
    threaded through the engine, so theorems speak about the point at which
    the signal was raised.  The token itself, with its wakers, is the
    transition system of [Cancellation].

    An [async] function is a function of the world its calls share (the
    token, the clock, the backend): it is pending, or done with a result and
    the world after it ([Inference.Async]).  The streaming JSON visitors work
    on the list of events of the text, with fuel equal to the number of
    events; each round consumes at least one.

    A table of the store is a [gmap] from its primary key to its row, with
    the text columns as the code writes them.  A statement checks the
    constraints of the schema and fails as SQLite does when one is violated.
    Any call to SQLite may fail besides: a schedule [nat -> bool] says which,
    and the number of calls made so far is threaded through the operations.
    A transaction keeps the database it started from and returns to it on
    every error.  The callback that verifies an artifact on disk during
    activation and recovery is an argument.

    The background review is a step relation in the way of [Cancellation]:
    one step for each access to what another thread can change at the same
    time.  The review service the worker runs is an argument, as in the code
    ([start]).  A token that has not been cancelled answers every poll with
    no, which is what ties a result that was kept to the review nobody
    cancelled.

    A program of the artifact services is a function of an environment and a
    world: the file system, the database and the number of calls made so
    far ([StorageIo.Io]).  The environment says of each call whether it
    fails, with or without its effect, whether the process ends before it,
    how much a read returns, what the clock says and whether the caller has
    cancelled; the third outcome of a program is the end of the process.
    The host is a Unix one, the storage root has a parent directory, the
    number of a node is not used again, and nobody but the services changes
    the storage while one of them holds its lock.  A committed transaction of
    SQLite outlives a loss of power ([synchronous=FULL]); a file or a
    directory that was not synchronized may be left with any bytes, or with
    any of the values an entry had since.  The loops that read a file take
    fuel for the expected size and two more rounds: every round reads a byte
    at least and one byte too many ends the loop.

    ** Parameters

    Code outside the repository is a class with the documented behaviour the
    proofs use: [Sha256] (sixty-four lowercase hexadecimal digits),
    [UnicodeTables] (alphanumeric, decimal-digit and lowercase data),
    [RegexEngine] (the leftmost match, as long as the documented preference
    says), [AhoCorasick] (leftmost-longest matches), [JsonCodec] (what is
    printed is read back, on one line, within the length of its escapes).
    SQLite's own behaviour (constraints, rollback) is written out in
    [StoreDb] as its documentation states it for the statements the code
    issues.
    The ports of the program (candidate generator, semantic evaluator,
    structure validator, claim observer, inference backend) are arguments,
    as they are in the code; [OperationWorld] is what a future asks of the
    token and the clock, and [ArtifactRepositoryPort] the three reads the
    grounded selection makes of the artifact repository.  The editorial
    lint enters the engine only through the number of its findings, which
    breaks ties between eligible candidates; the class [EditorialLint] is
    that interface, and [LintTheorems.engine_lint] is the lint itself behind
    it.  [Witnesses], [InferenceWitnesses], [StoreWitnesses],
    [ReviewWitnesses] and [StorageWitnesses] instantiate the classes.

    ** What the theorems show

    - The service: a rewritten output is the candidate, faithful to the
      source on every hard gate, and every other outcome is the original
      bytes; identical text is reported as unchanged; reassembly never fails
      on what the engine accepted; a result is only returned for a request
      within its contract, and each error has its cause in the request.
    - The engine: all units or none; cancellation always abstains and is
      never missed; no panic; every assessment it writes meets the evidence
      contract; the reported reason is the most severe one; an observer
      changes no decision.
    - Protection: masking and restoring are inverse; restoring replaces each
      placeholder, once, by its value and nothing else; span selection is
      disjoint, ordered and maximal; the operations are total.
    - Text safety and the adapter: the check decides a policy given by tables
      of code points and positions of runs, the policy is a preorder, where a
      fault is located, parsing without loss, totality with
      the meaning of each error, and the exact inventory of invisible runs.
    - Evidence and claims: decoding accepts exactly the encoding of valid
      assessments, text points follow byte order, evidence sets are canonical
      and bound by their digest, the comparison counts equal a reference
      definition, span reports are present exactly when there is a
      difference.
    - The lint: it is total, each finding is in place and outside
      quotations, a ceiling changes nothing or refuses, a rule left out takes
      only its own findings away, the phrases of [emit_phrases] are not
      missed in any letter case between word boundaries outside quotations
      (the exact, case-sensitive phrases of other rules are not covered), and
      a comparison is the exact difference of two multisets.
    - Cancellation: no wake-up is lost, the signal is sound, no deadlock.
    - The grounded rewrite: whatever a backend returns, the output is the
      source or a text of the backend with each placeholder replaced by its
      protected value, which kept every gate; each error has its cause and cancellation is never one; the
      conformance path never panics and is the identity.
    - Prompts, requests and responses: untrusted text cannot leave its place
      in a prompt, digests bind every field of a request, the candidate
      parser accepts exactly its contract and its ceiling admits every
      allowed batch, judge attempts and manifests round-trip.
    - Models: an identifier binds a whole qualification record, activation
      succeeds exactly for a valid, qualified, not invalidated artifact.
    - The store: any sequence of operations with any failures of SQLite keeps
      every record decodable, consistent with its key and with the records
      it refers to, the activation decisions included; it refines a lifecycle of artifacts and tasks; an
      operation that returns an error has changed nothing; an invalidation
      is never undone; a removal ticket that is out of date has no effect;
      recovery returns every binding the store wrote; the inventory is one
      exact entry for each manifest, or the limit error.
    - Artifact storage: whatever imports, removals, reconciliations, other
      operations of the store and losses of power happen, and wherever they
      fail or the process ends, an artifact the store calls installed has a
      file under its digest with the recorded size and digest, also after one
      more loss of power; a removal that returns an error has changed
      nothing, or says that it must be retried and is prepared in the store;
      after any interruptions a retry in which nothing fails removes the file
      and completes the removal.  An inventory changes nothing, and its report
      is the one that can be read off the files and the records directly; it
      is returned whenever no call fails and the limits suffice, and after any
      history it finds every installed artifact with its exact bytes (or says
      that it has another name too, or is too large to hash).
    - Document review: the evidence is exactly that of the complete inputs,
      previews are the longest beginnings that fit, each error has its cause.
      The background operation refines a sequential object with one current
      request that is answered at most once; every accepted request is
      answered within a bounded number of steps of the worker and the
      supervisor; the reducer describes the latest accepted request only.
    - Claim extraction: the evidence is what the backend answered about the
      texts it was given, claim by claim, and the join records only
      comparisons that belong to its candidates.

    ** Not modelled

    The artifact repository that joins the artifact services, artifact sets
    and leases, the tables of the store for
    artifact sets, packages and generation evidence with its migrations, the
    rest of the model crate (package, runtime and host identities, generation
    qualification), document intake and catalog, the Ollama clients, the command line,
    the evaluation harness and the runtime isolation crates.  They are file,
    process and network orchestration around the core, or separate products
    of their own; the artifact-set tables and the identities of the model
    crate are the next parts to model.  Derived JSON of the evidence records
    is not modelled: their decoders work on the parsed wire values. *)

From Stdlib Require Export ZArith Lia.
From stdpp Require Export base tactics list gmap strings numbers option sorting.

#[global] Open Scope Z_scope.

(** ** Results

    [Result E A] is Rust's [Result<A, E>] with one more constructor for a
    panic (a slice off a character boundary, an index out of range).  A
    definition whose source cannot panic never builds [Panic]; for the ones
    that slice or index, theorems state that [Panic] is not produced. *)
Inductive Result (E A : Type) : Type :=
| Ok (a : A)
| Err (e : E)
| Panic.
Arguments Ok {E A} a.
Arguments Err {E A} e.
Arguments Panic {E A}.

#[global] Instance result_ret {E} : MRet (Result E) := fun A a => Ok a.
#[global] Instance result_bind {E} : MBind (Result E) := fun A B f m =>
  match m with Ok a => f a | Err e => Err e | Panic => Panic end.

(** The question mark with [map_err]: continue with the value or return the mapped error. *)
Definition map_err {E F A} (f : E -> F) (m : Result E A) : Result F A :=
  match m with Ok a => Ok a | Err e => Err (f e) | Panic => Panic end.

(** [Option::ok_or]. *)
Definition ok_or {E A} (o : option A) (e : E) : Result E A :=
  match o with Some a => Ok a | None => Err e end.

(** A slice or index that panics when out of range. *)
Definition expect {E A} (o : option A) : Result E A :=
  match o with Some a => Ok a | None => Panic end.

(** [Result::ok]. *)
Definition result_ok {E A} (m : Result E A) : option A :=
  match m with Ok a => Some a | _ => None end.

Definition is_ok {E A} (m : Result E A) : bool :=
  match m with Ok _ => true | _ => false end.

(** [Iterator::try_for_each]. *)
Fixpoint try_for_each {E A} (f : A -> Result E unit) (l : list A) : Result E unit :=
  match l with
  | [] => Ok tt
  | x :: l' => _ ← f x; try_for_each f l'
  end.

(** [Iterator::try_fold] over a result. *)
Fixpoint try_fold {E A B} (f : B -> A -> Result E B) (b : B) (l : list A) : Result E B :=
  match l with
  | [] => Ok b
  | x :: l' => b' ← f b x; try_fold f b' l'
  end.

(** ** Machine integers: a [w]-bit unsigned integer is a [Z] in [0, 2^w). *)
Definition u8_max : Z := 255.
Definition u16_max : Z := 65535.
Definition u32_max : Z := 4294967295.
Definition u64_max : Z := 18446744073709551615.
Definition usize_max : Z := u64_max.

Definition checked_add (maximum a b : Z) : option Z :=
  if a + b <=? maximum then Some (a + b) else None.
Definition checked_sub (a b : Z) : option Z :=
  if b <=? a then Some (a - b) else None.
Definition saturating_add (maximum a b : Z) : Z := Z.min maximum (a + b).
Definition saturating_sub (a b : Z) : Z := Z.max 0 (a - b).
Definition saturating_mul (maximum a b : Z) : Z := Z.min maximum (a * b).
Definition checked_mul (maximum a b : Z) : option Z :=
  if a * b <=? maximum then Some (a * b) else None.
Definition try_from (maximum a : Z) : option Z :=
  if (0 <=? a) && (a <=? maximum) then Some a else None.

(** The length of a vector as a [usize]. *)
Definition vlen {A} (l : list A) : Z := Z.of_nat (length l).

(** [slice.windows(2).all(..)]. *)
Fixpoint windows_all {A} (test : A -> A -> bool) (l : list A) : bool :=
  match l with
  | x :: ((y :: _) as l') => test x y && windows_all test l'
  | _ => true
  end.

(** Membership in an inclusive range of integers, Rust's [a..=b] pattern. *)
Definition in_range (a b x : Z) : bool := (a <=? x) && (x <=? b).

(** ** Automation *)

Create HintDb retonr.
Create Rewrite HintDb retonr.


(** Turn boolean tests on integers into propositions, everywhere. *)
Ltac zbool :=
  repeat match goal with
  | H : (_ =? _) = true |- _ => apply Z.eqb_eq in H
  | H : (_ =? _) = false |- _ => apply Z.eqb_neq in H
  | H : (_ <? _) = true |- _ => apply Z.ltb_lt in H
  | H : (_ <? _) = false |- _ => apply Z.ltb_ge in H
  | H : (_ <=? _) = true |- _ => apply Z.leb_le in H
  | H : (_ <=? _) = false |- _ => apply Z.leb_gt in H
  | H : _ && _ = true |- _ => apply andb_true_iff in H; destruct H
  | H : _ || _ = false |- _ => apply orb_false_iff in H; destruct H
  | H : negb _ = true |- _ => apply negb_true_iff in H
  | H : negb _ = false |- _ => apply negb_false_iff in H
  | H : bool_decide _ = true |- _ => apply bool_decide_eq_true in H
  | H : bool_decide _ = false |- _ => apply bool_decide_eq_false in H
  end.

(** Case analysis on the tests and results a definition matches on. *)
Ltac step_match :=
  match goal with
  | H : context [match ?x with _ => _ end] |- _ =>
      lazymatch type of x with
      | sumbool _ _ => destruct x
      | _ => let E := fresh "E" in destruct x eqn:E
      end; try discriminate
  end.

Ltac goal_match :=
  match goal with
  | |- context [match ?x with _ => _ end] =>
      lazymatch type of x with
      | sumbool _ _ => destruct x
      | _ => let E := fresh "E" in destruct x eqn:E
      end; try discriminate
  end.

(** Invert a successful bind in a hypothesis. *)
Lemma bind_ok {E A B} (m : Result E A) (f : A -> Result E B) b :
  (m ≫= f) = Ok b -> exists a, m = Ok a /\ f a = Ok b.
Proof. destruct m; cbn; intros; try discriminate; eauto. Qed.

Lemma expect_ok {E A} (o : option A) a : @expect E A o = Ok a -> o = Some a.
Proof. destruct o; cbn; congruence. Qed.

Lemma ok_or_ok {E A} (o : option A) (e : E) a : ok_or o e = Ok a -> o = Some a.
Proof. destruct o; cbn; congruence. Qed.

Lemma map_err_ok {E F A} (f : E -> F) (m : Result E A) a :
  map_err f m = Ok a -> m = Ok a.
Proof. destruct m; cbn; congruence. Qed.

Ltac binds :=
  repeat match goal with
  | H : (_ ≫= _) = Ok _ |- _ =>
      let E1 := fresh "E" in
      apply bind_ok in H; destruct H as (? & E1 & H); cbn beta in H
  | H : expect _ = Ok _ |- _ => apply expect_ok in H
  | H : ok_or _ _ = Ok _ |- _ => apply ok_or_ok in H
  | H : map_err _ _ = Ok _ |- _ => apply map_err_ok in H
  | H : Ok _ = Ok _ |- _ => injection H as H; try subst
  | H : Some _ = Some _ |- _ => injection H as H; try subst
  | H : Err _ = Ok _ |- _ => discriminate H
  | H : Panic = Ok _ |- _ => discriminate H
  end.

Lemma try_for_each_ok {E A} (f : A -> Result E unit) l :
  try_for_each f l = Ok tt <-> Forall (fun x => f x = Ok tt) l.
Proof.
  induction l as [|x l IH]; cbn; [split; auto|].
  rewrite Forall_cons, <- IH. destruct (f x) as [[]| |]; cbn; intuition congruence.
Qed.

Lemma vlen_nonneg {A} (l : list A) : 0 <= vlen l.
Proof. unfold vlen; lia. Qed.

Lemma vlen_app {A} (l k : list A) : vlen (l ++ k) = vlen l + vlen k.
Proof. unfold vlen; rewrite length_app; lia. Qed.

Lemma vlen_cons {A} (x : A) l : vlen (x :: l) = 1 + vlen l.
Proof. unfold vlen; cbn [length]; lia. Qed.

#[export] Hint Resolve vlen_nonneg : retonr.
#[export] Hint Rewrite @vlen_app @vlen_cons : retonr.

Lemma in_range_true a b x : in_range a b x = true <-> a <= x <= b.
Proof. unfold in_range. rewrite andb_true_iff, !Z.leb_le. lia. Qed.

Lemma in_range_false a b x : in_range a b x = false <-> ~ (a <= x <= b).
Proof. rewrite <- not_true_iff_false, in_range_true. tauto. Qed.

Lemma try_from_Some m a b : try_from m a = Some b <-> b = a /\ 0 <= a <= m.
Proof.
  unfold try_from. destruct (Z.leb_spec 0 a), (Z.leb_spec a m); cbn; split; intros;
    simplify_eq; try lia. all: destruct_and?; subst; f_equal; lia.
Qed.

Lemma checked_add_Some m a b c : checked_add m a b = Some c <-> c = a + b /\ a + b <= m.
Proof. unfold checked_add. destruct (Z.leb_spec (a + b) m); split; intros; simplify_eq; lia || naive_solver. Qed.

Lemma checked_mul_Some m a b c : checked_mul m a b = Some c <-> c = a * b /\ a * b <= m.
Proof. unfold checked_mul. destruct (Z.leb_spec (a * b) m); split; intros; simplify_eq; lia || naive_solver. Qed.

Lemma windows_all_sorted {A} (test : A -> A -> bool) l :
  (forall x y z, test x y = true -> test y z = true -> test x z = true) ->
  windows_all test l = true <-> StronglySorted (fun x y => test x y = true) l.
Proof.
  intros Htrans; split.
  - induction l as [|x [|y l] IH]; intros H; [constructor | by repeat constructor |].
    cbn [windows_all] in H; apply andb_true_iff in H as [Hxy H]; specialize (IH H).
    constructor; [done |]; apply StronglySorted_inv in IH as [_ Hy]; constructor; [done |].
    eapply Forall_impl; [exact Hy |]; cbn; eauto.
  - induction 1 as [|x l Hl IH Hx]; [done |]; destruct l as [|y l]; [done |]; cbn [windows_all].
    apply andb_true_iff; split; [by inversion Hx | done].
Qed.

Lemma checked_sub_Some a b c : checked_sub a b = Some c <-> c = a - b /\ b <= a.
Proof. unfold checked_sub. destruct (Z.leb_spec b a); split; intros; simplify_eq; lia || naive_solver. Qed.

(** ** Counting maps

    The sources count keys in a [BTreeMap<K, usize>] with
    [*map.entry(k).or_default() += 1] and consume the counts one by one. *)
Section Tally.
Context {K : Type} `{Countable K}.

Definition bump (m : gmap K Z) (k : K) : gmap K Z := <[k := default 0 (m !! k) + 1]> m.
Definition tally (l : list K) : gmap K Z := foldl bump ∅ l.

(** Take one unit of a count that is present and positive. *)
Definition consume (m : gmap K Z) (k : K) : option (gmap K Z) :=
  match m !! k with
  | Some n => if n =? 0 then None else Some (<[k := n - 1]> m)
  | None => None
  end.

(** The number of occurrences of a key in a list. *)
Fixpoint occ (k : K) (l : list K) : Z :=
  match l with [] => 0 | x :: l' => (if decide (x = k) then 1 else 0) + occ k l' end.

Lemma occ_nonneg k l : 0 <= occ k l.
Proof. induction l; cbn; [|case_decide]; lia. Qed.

Lemma occ_app k l l' : occ k (l ++ l') = occ k l + occ k l'.
Proof. induction l; cbn; lia. Qed.

Lemma occ_pos k l : k ∈ l <-> 1 <= occ k l.
Proof.
  induction l as [|x l IH]; cbn; [rewrite elem_of_nil; lia|].
  rewrite elem_of_cons, IH. pose proof (occ_nonneg k l). case_decide; split.
  all: intuition (subst; try congruence; lia).
Qed.

Lemma foldl_bump_lookup m l k :
  foldl bump m l !! k = if decide (k ∈ l) then Some (default 0 (m !! k) + occ k l) else m !! k.
Proof.
  revert m. induction l as [|x l IH]; intros m; cbn.
  { rewrite decide_False by apply not_elem_of_nil. done. }
  rewrite IH. unfold bump. destruct (decide (x = k)) as [->|Hne].
  - rewrite lookup_insert_eq. rewrite (decide_True (P := k ∈ k :: l)) by left. cbn.
    case_decide as Hin; f_equal; [lia|].
    assert (~ 1 <= occ k l) by by rewrite <- occ_pos. pose proof (occ_nonneg k l). lia.
  - rewrite lookup_insert_ne by done.
    destruct (decide (k ∈ l)), (decide (k ∈ x :: l)); try done; try set_solver.
Qed.

Lemma tally_lookup l k : tally l !! k = if decide (k ∈ l) then Some (occ k l) else None.
Proof. unfold tally. rewrite foldl_bump_lookup, lookup_empty. by case_decide. Qed.

Lemma tally_default l k : default 0 (tally l !! k) = occ k l.
Proof.
  rewrite tally_lookup. case_decide as Hin; cbn; [done|].
  rewrite occ_pos in Hin. pose proof (occ_nonneg k l). lia.
Qed.

(** Two lists have the same counting map exactly when they have the same counts. *)
Lemma tally_eq l l' : tally l = tally l' <-> forall k, occ k l = occ k l'.
Proof.
  split.
  - intros Heq k. by rewrite <- !tally_default, Heq.
  - intros Heq. apply map_eq. intros k. rewrite !tally_lookup.
    destruct (decide (k ∈ l)) as [Hl|Hl], (decide (k ∈ l')) as [Hl'|Hl'];
      rewrite occ_pos in Hl, Hl'; rewrite Heq in *; done || lia.
Qed.

(** Equal counts mean equal lists up to order. *)
Lemma occ_perm l l' : (forall k, occ k l = occ k l') -> l ≡ₚ l'.
Proof.
  revert l'. induction l as [|x l IH]; intros l' Hocc.
  - destruct l' as [|y l']; [done|]. specialize (Hocc y). cbn in Hocc.
    rewrite decide_True in Hocc by done. pose proof (occ_nonneg y l'). lia.
  - assert (Hin : x ∈ l').
    { apply occ_pos. rewrite <- Hocc. cbn. rewrite decide_True by done. pose proof (occ_nonneg x l). lia. }
    apply list_elem_of_split in Hin as (a & b & ->). rewrite <- Permutation_middle. constructor.
    apply IH. intros k. specialize (Hocc k). rewrite occ_app in *. cbn in Hocc. lia.
Qed.

Lemma perm_occ k l l' : l ≡ₚ l' -> occ k l = occ k l'.
Proof. induction 1; cbn; lia. Qed.

(** The count of a key, and maps without negative counts. *)
Definition count_of (m : gmap K Z) (k : K) : Z := default 0 (m !! k).
Definition counts_ok (m : gmap K Z) : Prop := forall k, 0 <= count_of m k.

Lemma tally_ok l : counts_ok (tally l).
Proof. intros k. unfold count_of. rewrite tally_default. apply occ_nonneg. Qed.

Lemma consume_spec m k :
  counts_ok m ->
  match consume m k with
  | Some m' => 1 <= count_of m k /\ counts_ok m' /\
      forall k', count_of m' k' = count_of m k' - (if decide (k = k') then 1 else 0)
  | None => count_of m k = 0
  end.
Proof.
  intros Hok. pose proof (Hok k) as Hk. unfold consume, count_of in *.
  destruct (m !! k) as [n|] eqn:E; cbn in *; [|done].
  destruct (Z.eqb_spec n 0); [done|].
  assert (Hget : forall k', default 0 (<[k:=n - 1]> m !! k')
                            = default 0 (m !! k') - (if decide (k = k') then 1 else 0)).
  { intros k'. rewrite lookup_insert. case_decide; subst; rewrite ?E; cbn; lia. }
  split_and!; [lia| |done]. intros k'. unfold count_of. rewrite Hget. case_decide; subst.
  - rewrite E. cbn. lia.
  - specialize (Hok k'). unfold count_of in Hok. lia.
Qed.
End Tally.

(** ** Computations that do not panic *)

(** The result is a value with the property, or an error; never a panic. *)
Definition safe {E A} (P : A -> Prop) (m : Result E A) : Prop :=
  match m with Ok a => P a | Err _ => True | Panic => False end.

Lemma safe_bind {E A B} (P : A -> Prop) (Q : B -> Prop) (m : Result E A) (f : A -> Result E B) :
  safe P m -> (forall a, P a -> safe Q (f a)) -> safe Q (m ≫= f).
Proof. destruct m; cbn; auto. Qed.

Lemma safe_weaken {E A} (P Q : A -> Prop) (m : Result E A) :
  safe P m -> (forall a, P a -> Q a) -> safe Q m.
Proof. destruct m; cbn; auto. Qed.

Lemma safe_ok {E A} (P : A -> Prop) (m : Result E A) a : safe P m -> m = Ok a -> P a.
Proof. by intros H ->. Qed.

Lemma safe_no_panic {E A} (P : A -> Prop) (m : Result E A) : safe P m -> m <> Panic.
Proof. by destruct m. Qed.

Lemma ok_or_safe {E A} (o : option A) (e : E) : safe (fun _ => True) (ok_or o e).
Proof. by destruct o. Qed.

Lemma map_err_safe {E F A} (P : A -> Prop) (f : E -> F) (m : Result E A) : safe P m -> safe P (map_err f m).
Proof. by destruct m. Qed.

Lemma safe_try_fold {E A B} (P : B -> Prop) (f : B -> A -> Result E B) l b :
  P b -> (forall b x, x ∈ l -> P b -> safe P (f b x)) -> safe P (try_fold f b l).
Proof.
  revert b. induction l as [|x l IH]; intros b Hb Hf; cbn; [done|].
  eapply safe_bind; [apply Hf; [left|done]|]. intros b' Hb'. apply IH; [done|].
  intros b'' y Hy. apply Hf. by right.
Qed.

(** ** Sorting

    [sort_by]: insertion sort by a total preorder, stable.  The unstable
    sorts of the sources agree with it whenever elements with equal keys are
    equal, the only case where their result is observed. *)
Section Sorting.
Context {A : Type} (le : A -> A -> bool).

Fixpoint insert_by (x : A) (l : list A) : list A :=
  match l with
  | [] => [x]
  | y :: l' => if le x y then x :: l else y :: insert_by x l'
  end.
Definition sort_by (l : list A) : list A := foldr insert_by [] l.

Lemma insert_by_perm x l : insert_by x l ≡ₚ x :: l.
Proof.
  induction l as [|y l IH]; cbn; [done|]. destruct (le x y); [done|]. rewrite IH. constructor.
Qed.

Lemma sort_by_perm l : sort_by l ≡ₚ l.
Proof. induction l as [|x l IH]; cbn; [done|]. by rewrite insert_by_perm, IH. Qed.

Context (le_total : forall x y, le x y = true \/ le y x = true).
Context (le_trans : forall x y z, le x y = true -> le y z = true -> le x z = true).

Lemma insert_by_sorted x l :
  StronglySorted (fun a b => le a b = true) l ->
  StronglySorted (fun a b => le a b = true) (insert_by x l).
Proof.
  induction 1 as [|y l Hl IH Hy]; cbn; [repeat constructor|].
  destruct (le x y) eqn:E; constructor; auto.
  - by constructor.
  - constructor; [done|]. eapply Forall_impl; [exact Hy|]. cbn. eauto.
  - rewrite insert_by_perm. constructor; [|done]. destruct (le_total x y); congruence.
Qed.

Lemma sort_by_sorted l : StronglySorted (fun a b => le a b = true) (sort_by l).
Proof. induction l; cbn; [constructor|by apply insert_by_sorted]. Qed.

(** Sorting does not depend on the order of the input when equal keys mean equal elements. *)
Lemma sort_by_unique l k :
  (forall x y, x ∈ l -> y ∈ l -> le x y = true -> le y x = true -> x = y) ->
  l ≡ₚ k -> sort_by l = sort_by k.
Proof.
  intros Hanti Hp.
  assert (Hgen : forall a b, StronglySorted (fun x y => le x y = true) a ->
    StronglySorted (fun x y => le x y = true) b -> a ≡ₚ b ->
    (forall x y, x ∈ a -> y ∈ a -> le x y = true -> le y x = true -> x = y) -> a = b).
  { clear. intros a. induction a as [|x a IH]; intros b Ha Hb Hab Hanti.
    { by apply Permutation_nil_l in Hab as ->. }
    destruct b as [|y b]; [by apply Permutation_nil_r in Hab|].
    apply StronglySorted_inv in Ha as [Ha Hxa]. apply StronglySorted_inv in Hb as [Hb Hyb].
    rewrite Forall_forall in Hxa, Hyb.
    assert (x = y) as ->.
    { assert (Hx : x ∈ y :: b) by (rewrite <- Hab; left).
      assert (Hy : y ∈ x :: a) by (rewrite Hab; left).
      rewrite elem_of_cons in Hx. rewrite elem_of_cons in Hy.
      destruct Hx as [->|Hx]; [done|]. destruct Hy as [->|Hy]; [done|].
      apply Hanti; [left|by right|auto|auto]. }
    f_equal. apply IH; [done|done|by apply Permutation_cons_inv in Hab|].
    intros u v Hu Hv. apply Hanti; by right. }
  apply Hgen; [apply sort_by_sorted..| |].
  - by rewrite !sort_by_perm.
  - intros x y Hx Hy. rewrite sort_by_perm in Hx, Hy. auto.
Qed.
End Sorting.
