(* ===== verification/Text.v ===== *)
(** * Rust strings: scalar values, byte offsets, UTF-8, and the string
    operations of the standard library the sources use.

    A [str] is the list of its Unicode scalar values; every offset and
    length is in UTF-8 bytes, as in Rust, so slicing at an offset can fail
    (off a boundary or past the end), and [as_bytes]/[from_utf8] relate the
    list to the underlying byte buffer. *)

From S2P Require Import Prelude.

(** A [str], as the list of its scalar values. *)
Abbreviation text := (list Z).
(** A [&[u8]] buffer. *)
Abbreviation bytes := (list Z).

(** ** Scalar values and lengths *)

Definition is_scalar (c : Z) : bool := in_range 0 55295 c || in_range 57344 1114111 c.

(** [char::len_utf8]. *)
Definition len_utf8 (c : Z) : Z :=
  if c <? 128 then 1 else if c <? 2048 then 2 else if c <? 65536 then 3 else 4.

(** [str::len], in bytes. *)
Fixpoint slen (s : text) : Z :=
  match s with [] => 0 | c :: s' => len_utf8 c + slen s' end.

(** [str::split_at], [None] off a character boundary or past the end. *)
Fixpoint split_at (s : text) (n : Z) : option (text * text) :=
  if n =? 0 then Some ([], s)
  else match s with
       | [] => None
       | c :: s' =>
           if n <? len_utf8 c then None
           else match split_at s' (n - len_utf8 c) with
                | Some (a, b) => Some (c :: a, b)
                | None => None
                end
       end.

(** [&s[i..j]] and [s.get(i..j)]. *)
Definition slice (s : text) (i j : Z) : option text :=
  match split_at s j with
  | Some (pre, _) => match split_at pre i with Some (_, m) => Some m | None => None end
  | None => None
  end.

(** [&s[i..]] and [s.get(i..)]. *)
Definition get_from (s : text) (i : Z) : option text :=
  match split_at s i with Some (_, r) => Some r | None => None end.

(** [&s[..i]]. *)
Definition get_to (s : text) (i : Z) : option text :=
  match split_at s i with Some (p, _) => Some p | None => None end.

(** [str::is_char_boundary]. *)
Definition is_char_boundary (s : text) (i : Z) : bool :=
  match split_at s i with Some _ => true | None => false end.

(** [str::char_indices]. *)
Fixpoint char_indices_from (off : Z) (s : text) : list (Z * Z) :=
  match s with [] => [] | c :: s' => (off, c) :: char_indices_from (off + len_utf8 c) s' end.
Definition char_indices (s : text) : list (Z * Z) := char_indices_from 0 s.

(** ASCII literals. *)
Definition lit (s : string) : text :=
  map (fun a => Z.of_N (Ascii.N_of_ascii a)) (String.list_ascii_of_string s).

(** Equality of strings as a test. *)
Definition text_eqb (a b : text) : bool := bool_decide (a = b).

(** ** UTF-8 *)

(** [char::encode_utf8]. *)
Definition encode_char (c : Z) : bytes :=
  if c <? 128 then [c]
  else if c <? 2048 then [192 + c / 64; 128 + c mod 64]
  else if c <? 65536 then [224 + c / 4096; 128 + c / 64 mod 64; 128 + c mod 64]
  else [240 + c / 262144; 128 + c / 4096 mod 64; 128 + c / 64 mod 64; 128 + c mod 64].

(** [str::as_bytes]. *)
Definition as_bytes (s : text) : bytes := concat (map encode_char s).

Definition is_cont (b : Z) : bool := in_range 128 191 b.

(** The first scalar value of a buffer and the bytes after it, when the buffer
    starts with a well-formed sequence (Unicode Table 3-7). *)
Definition decode_char (bs : bytes) : option (Z * bytes) :=
  match bs with
  | [] => None
  | b0 :: r0 =>
      if b0 <? 128 then Some (b0, r0)
      else if in_range 194 223 b0 then
        match r0 with
        | b1 :: r1 => if is_cont b1 then Some ((b0 - 192) * 64 + (b1 - 128), r1) else None
        | _ => None
        end
      else if in_range 224 239 b0 then
        match r0 with
        | b1 :: b2 :: r2 =>
            if in_range (if b0 =? 224 then 160 else 128) (if b0 =? 237 then 159 else 191) b1
               && is_cont b2
            then Some ((b0 - 224) * 4096 + (b1 - 128) * 64 + (b2 - 128), r2) else None
        | _ => None
        end
      else if in_range 240 244 b0 then
        match r0 with
        | b1 :: b2 :: b3 :: r3 =>
            if in_range (if b0 =? 240 then 144 else 128) (if b0 =? 244 then 143 else 191) b1
               && is_cont b2 && is_cont b3
            then Some ((b0 - 240) * 262144 + (b1 - 128) * 4096 + (b2 - 128) * 64 + (b3 - 128), r3)
            else None
        | _ => None
        end
      else None
  end.

(** [core::str::from_utf8]: the decoded text, or the length of the valid
    prefix ([valid_up_to]); the fuel is the length of the buffer. *)
Fixpoint from_utf8_loop (fuel : nat) (off : Z) (bs : bytes) : Result Z text :=
  match bs, fuel with
  | [], _ => Ok []
  | _, O => Err off
  | _, S fuel' =>
      match decode_char bs with
      | Some (c, r) => s ← from_utf8_loop fuel' (off + len_utf8 c) r; mret (c :: s)
      | None => Err off
      end
  end.
Definition from_utf8 (bs : bytes) : Result Z text := from_utf8_loop (length bs) 0 bs.

(** ** Searching *)

(** [str::strip_prefix]. *)
Fixpoint strip_prefix (p s : text) : option text :=
  match p, s with
  | [], _ => Some s
  | c :: p', d :: s' => if c =? d then strip_prefix p' s' else None
  | _ :: _, [] => None
  end.
(** [str::starts_with]. *)
Definition starts_with (s p : text) : bool :=
  match strip_prefix p s with Some _ => true | None => false end.

(** [str::find] of a string: the byte offset of the leftmost occurrence. *)
Fixpoint find_str (pat s : text) : option Z :=
  if starts_with s pat then Some 0
  else match s with
       | [] => None
       | c :: s' => match find_str pat s' with Some i => Some (len_utf8 c + i) | None => None end
       end.

(** [str::match_indices] of a nonempty pattern: starts of the successive
    non-overlapping occurrences; the fuel is the number of characters left. *)
Fixpoint match_indices_from (fuel : nat) (pat : text) (off : Z) (s : text) : list Z :=
  match fuel with
  | O => []
  | S fuel' =>
      match s with
      | [] => []
      | c :: s' =>
          match strip_prefix pat s with
          | Some rest => off :: match_indices_from fuel' pat (off + slen pat) rest
          | None => match_indices_from fuel' pat (off + len_utf8 c) s'
          end
      end
  end.
Definition match_indices (s pat : text) : list Z := match_indices_from (length s) pat 0 s.

(** [str::rsplit_once]: split around the rightmost occurrence of [pat]. *)
Fixpoint rsplit_once (s pat : text) : option (text * text) :=
  match s with
  | [] => match strip_prefix pat [] with Some r => Some ([], r) | None => None end
  | c :: s' =>
      match rsplit_once s' pat with
      | Some (a, b) => Some (c :: a, b)
      | None => match strip_prefix pat s with Some r => Some ([], r) | None => None end
      end
  end.

(** [str::cmp].  UTF-8 preserves the order of scalar values, so the byte
    order of two strings is the lexicographic order of their characters. *)
Fixpoint str_cmp (a b : text) : comparison :=
  match a, b with
  | [], [] => Eq
  | [], _ :: _ => Lt
  | _ :: _, [] => Gt
  | c :: a', d :: b' => match c ?= d with Eq => str_cmp a' b' | o => o end
  end.

(** ** Character classes that need no table *)

(** [char::is_control]: general category Cc. *)
Definition is_control (c : Z) : bool := in_range 0 31 c || in_range 127 159 c.
Definition is_ascii_digit (c : Z) : bool := in_range 48 57 c.
Definition is_ascii_lowercase (c : Z) : bool := in_range 97 122 c.
Definition is_ascii_uppercase (c : Z) : bool := in_range 65 90 c.
Definition is_ascii_alphabetic (c : Z) : bool := is_ascii_lowercase c || is_ascii_uppercase c.
Definition is_ascii_alphanumeric (c : Z) : bool := is_ascii_alphabetic c || is_ascii_digit c.
Definition is_ascii_graphic (c : Z) : bool := in_range 33 126 c.
Definition to_ascii_lowercase (c : Z) : Z := if is_ascii_uppercase c then c + 32 else c.
(** [char::is_whitespace], the White_Space property. *)
Definition is_whitespace (c : Z) : bool :=
  in_range 9 13 c || (c =? 32) || (c =? 133) || (c =? 160) || (c =? 5760) ||
  in_range 8192 8202 c || (c =? 8232) || (c =? 8233) || (c =? 8239) || (c =? 8287) || (c =? 12288).

(** ** Unicode tables

    [char::is_alphanumeric], [char::to_lowercase] and the regex class [\d]
    read the Unicode Character Database; they are a parameter of the model,
    known to agree with ASCII below U+0080. *)
Class UnicodeTables := {
  is_alphanumeric : Z -> bool;
  to_lowercase : Z -> text;
  is_decimal_digit : Z -> bool;
  alphanumeric_ascii : forall c, 0 <= c < 128 -> is_alphanumeric c = is_ascii_alphanumeric c;
  lowercase_ascii : forall c, 0 <= c < 128 -> to_lowercase c = [to_ascii_lowercase c];
  digit_ascii : forall c, 0 <= c < 128 -> is_decimal_digit c = is_ascii_digit c
}.

(** Tables of the ASCII block alone: a concrete instance to compute with. *)
Program Definition ascii_tables : UnicodeTables := {|
  is_alphanumeric := is_ascii_alphanumeric;
  to_lowercase := fun c => [to_ascii_lowercase c];
  is_decimal_digit := is_ascii_digit
|}.
Solve All Obligations with done.

(** ** Integers as text *)

Fixpoint dec_digits (fuel : nat) (n : Z) (acc : text) : text :=
  let acc' := (48 + n mod 10) :: acc in
  if n <? 10 then acc'
  else match fuel with O => acc' | S f => dec_digits f (n / 10) acc' end.
(** [usize::to_string]; twenty digits are enough for [u64::MAX]. *)
Definition to_string (n : Z) : text := dec_digits 20 n [].

(** The [{:04}] format. *)
Definition pad4 (s : text) : text := replicate (4 - length s) 48 ++ s.

(** The digits of [str::parse::<usize>], with the overflow check. *)
Fixpoint parse_digits (acc : Z) (s : text) : option Z :=
  match s with
  | [] => Some acc
  | c :: s' =>
      if is_ascii_digit c then
        let n := acc * 10 + (c - 48) in
        if n <=? usize_max then parse_digits n s' else None
      else None
  end.
(** [str::parse::<usize>]: an optional plus sign, then at least one digit. *)
Definition parse_usize (s : text) : option Z :=
  match s with
  | [] => None
  | c :: s' =>
      if c =? 43 then match s' with [] => None | _ => parse_digits 0 s' end
      else parse_digits 0 s
  end.

(** Upper- and lowercase hexadecimal digits of a code point. *)
Definition hex_digit (upper : bool) (d : Z) : Z :=
  if d <? 10 then 48 + d else (if upper then 55 else 87) + d.
Fixpoint hex_digits (upper : bool) (fuel : nat) (n : Z) (acc : text) : text :=
  let acc' := hex_digit upper (n mod 16) :: acc in
  if n <? 16 then acc'
  else match fuel with O => acc' | S f => hex_digits upper f (n / 16) acc' end.
(** The [{:X}] and [{:x}] formats of a [u32]. *)
Definition hex (upper : bool) (n : Z) : text := hex_digits upper 8 n [].

(** ** Lemmas: lengths and slices *)

Lemma len_utf8_bounds c : 1 <= len_utf8 c <= 4.
Proof. unfold len_utf8. repeat case_match; lia. Qed.

Lemma slen_nonneg s : 0 <= slen s.
Proof. induction s as [|c s IH]; cbn; [lia|]. pose proof (len_utf8_bounds c); lia. Qed.

#[export] Hint Resolve len_utf8_bounds slen_nonneg : retonr.

Lemma slen_app a b : slen (a ++ b) = slen a + slen b.
Proof. induction a; cbn; lia. Qed.

Lemma slen_nil_inv s : slen s = 0 -> s = [].
Proof.
  destruct s as [|c s]; cbn; [done|]. pose proof (len_utf8_bounds c).
  pose proof (slen_nonneg s). lia.
Qed.

Lemma slen_pos s : s <> [] -> 1 <= slen s.
Proof.
  destruct s as [|c s]; cbn; [done|]. pose proof (len_utf8_bounds c).
  pose proof (slen_nonneg s). lia.
Qed.

Lemma slen_length s : Z.of_nat (length s) <= slen s <= 4 * Z.of_nat (length s).
Proof.
  induction s as [|c s IH]; [cbn; lia|]. cbn [slen length].
  pose proof (len_utf8_bounds c). lia.
Qed.

(** [split_at] is exactly the decomposition of the text at that byte length. *)
Lemma split_at_app a b : split_at (a ++ b) (slen a) = Some (a, b).
Proof.
  induction a as [|c a IH]; cbn.
  - by destruct b.
  - pose proof (len_utf8_bounds c). pose proof (slen_nonneg a).
    destruct (Z.eqb_spec (len_utf8 c + slen a) 0); [lia|].
    destruct (Z.ltb_spec (len_utf8 c + slen a) (len_utf8 c)); [lia|].
    replace (len_utf8 c + slen a - len_utf8 c) with (slen a) by lia. by rewrite IH.
Qed.

Lemma split_at_Some s n a b : split_at s n = Some (a, b) -> s = a ++ b /\ slen a = n.
Proof.
  revert n a b. induction s as [|c s IH]; intros n a b; cbn;
    destruct (Z.eqb_spec n 0); try (intros; simplify_eq; done).
  destruct (n <? len_utf8 c); [done|].
  destruct (split_at s (n - len_utf8 c)) as [[a' b']|] eqn:E; [|done].
  intros; simplify_eq. apply IH in E as [-> ?]. cbn. split; [done|lia].
Qed.

Lemma split_at_spec s n a b : split_at s n = Some (a, b) <-> s = a ++ b /\ slen a = n.
Proof. split; [apply split_at_Some|]. intros [-> <-]. apply split_at_app. Qed.

Lemma slice_spec s i j m :
  slice s i j = Some m <-> exists a b, s = a ++ m ++ b /\ slen a = i /\ slen m = j - i.
Proof.
  unfold slice. split.
  - destruct (split_at s j) as [[pre post]|] eqn:E; [|done].
    destruct (split_at pre i) as [[a m']|] eqn:E'; [|done]. intros; simplify_eq.
    apply split_at_Some in E as [-> Hj], E' as [-> Hi].
    exists a, post. rewrite slen_app in Hj. rewrite app_assoc. repeat split; lia.
  - intros (a & b & -> & <- & Hm). rewrite app_assoc.
    replace j with (slen (a ++ m)) by (rewrite slen_app; lia).
    by rewrite split_at_app, split_at_app.
Qed.

Lemma get_from_spec s i r : get_from s i = Some r <-> exists a, s = a ++ r /\ slen a = i.
Proof.
  unfold get_from. split.
  - destruct (split_at s i) as [[a b]|] eqn:E; [|done]. intros; simplify_eq.
    apply split_at_Some in E as [-> ?]; eauto.
  - intros (a & -> & <-). by rewrite split_at_app.
Qed.

Lemma is_char_boundary_spec s i :
  is_char_boundary s i = true <-> exists a b, s = a ++ b /\ slen a = i.
Proof.
  unfold is_char_boundary. split.
  - destruct (split_at s i) as [[a b]|] eqn:E; [|done]. apply split_at_Some in E; eauto.
  - intros (a & b & -> & <-). by rewrite split_at_app.
Qed.

(** Two prefixes of one text with the same byte length are equal. *)
Lemma app_slen_inj a b a' b' : a ++ b = a' ++ b' -> slen a = slen a' -> a = a' /\ b = b'.
Proof.
  intros H1 H2. pose proof (split_at_app a b) as E.
  rewrite H1, H2, split_at_app in E. by simplify_eq.
Qed.

Lemma app_slen_le a b a' b' :
  a ++ b = a' ++ b' -> slen a <= slen a' -> exists m, a' = a ++ m /\ b = m ++ b'.
Proof.
  intros H Hle. apply app_eq_app in H as (m & [[-> ->]|[-> ->]]); [|eauto].
  rewrite slen_app in Hle. pose proof (slen_nonneg m).
  assert (m = []) as -> by (apply slen_nil_inv; lia).
  exists []. by rewrite !app_nil_r.
Qed.

(** Prefix tests *)

Lemma strip_prefix_spec p s r : strip_prefix p s = Some r <-> s = p ++ r.
Proof.
  revert s. induction p as [|c p IH]; intros s; cbn; [split; congruence|].
  destruct s as [|d s]; [split; congruence|].
  destruct (Z.eqb_spec c d); [|split; congruence]. subst. rewrite IH. split; congruence.
Qed.

Lemma starts_with_spec s p : starts_with s p = true <-> exists r, s = p ++ r.
Proof.
  unfold starts_with. destruct (strip_prefix p s) eqn:E.
  - apply strip_prefix_spec in E. naive_solver.
  - split; [done|]. intros [r Hr]. apply strip_prefix_spec in Hr. congruence.
Qed.

Lemma find_str_spec pat s i :
  find_str pat s = Some i -> exists a b, s = a ++ pat ++ b /\ slen a = i.
Proof.
  revert i. induction s as [|c s IH]; intros i; cbn.
  - destruct (starts_with [] pat) eqn:E; [|done]. intros; simplify_eq.
    apply starts_with_spec in E as [r Hr]. exists [], r. split; done.
  - destruct (starts_with (c :: s) pat) eqn:E.
    + intros; simplify_eq. apply starts_with_spec in E as [r Hr]. exists [], r. split; done.
    + destruct (find_str pat s) as [k|]; [|done]. intros; simplify_eq.
      destruct (IH _ eq_refl) as (a & b & -> & <-). exists (c :: a), b. split; done.
Qed.

(** Every reported match is an occurrence of the pattern. *)
Lemma match_indices_from_spec fuel pat off s i :
  i ∈ match_indices_from fuel pat off s ->
  exists a b, s = a ++ pat ++ b /\ i = off + slen a.
Proof.
  revert off s. induction fuel as [|n IH]; intros off s; cbn; [by rewrite elem_of_nil|].
  destruct s as [|c s]; [by rewrite elem_of_nil|].
  destruct (strip_prefix pat (c :: s)) as [r|] eqn:E.
  - apply strip_prefix_spec in E. rewrite elem_of_cons. intros [->|Hi].
    + exists [], r. split; [done|]. cbn. lia.
    + apply IH in Hi as (a & b & -> & ->). exists (pat ++ a), b.
      rewrite E, slen_app, <- app_assoc. split; [done|lia].
  - intros Hi. apply IH in Hi as (a & b & -> & ->). exists (c :: a), b. split; [done|]. cbn. lia.
Qed.

Lemma rsplit_once_Some s pat a b : rsplit_once s pat = Some (a, b) -> s = a ++ pat ++ b.
Proof.
  revert a b. induction s as [|c s IH]; intros a b; cbn -[strip_prefix].
  - destruct (strip_prefix pat []) eqn:E; [|done]. intros; simplify_eq.
    by apply strip_prefix_spec in E.
  - destruct (rsplit_once s pat) as [[a' b']|].
    + intros; simplify_eq. cbn. by rewrite (IH _ _ eq_refl).
    + destruct (strip_prefix pat (c :: s)) eqn:E; [|done]. intros; simplify_eq.
      by apply strip_prefix_spec in E.
Qed.

(** ** Lemmas: UTF-8 *)

Lemma as_bytes_app a b : as_bytes (a ++ b) = as_bytes a ++ as_bytes b.
Proof. unfold as_bytes. by rewrite map_app, concat_app. Qed.

Lemma as_bytes_length s : vlen (as_bytes s) = slen s.
Proof.
  induction s as [|c s IH]; [done|]. unfold as_bytes in *. cbn [map concat slen].
  rewrite vlen_app, IH. f_equal. unfold encode_char, len_utf8. repeat case_match; done.
Qed.

Definition is_byte (b : Z) : Prop := 0 <= b < 256.

Lemma is_scalar_spec c :
  is_scalar c = true <-> 0 <= c < 55296 \/ 57344 <= c < 1114112.
Proof. unfold is_scalar. rewrite orb_true_iff, !in_range_true. lia. Qed.

#[local] Ltac Zify.zify_post_hook ::= Z.to_euclidean_division_equations.

Ltac conses := cbn [app]; repeat (apply (f_equal2 cons); [lia|]); done.

Ltac range_solve :=
  repeat match goal with
  | |- context [?x <? ?y] => destruct (Z.ltb_spec x y); [| ]; try lia
  | |- context [?x =? ?y] => destruct (Z.eqb_spec x y); [| ]; try lia
  | |- context [in_range ?a ?b ?x] =>
      let E := fresh "E" in
      destruct (in_range a b x) eqn:E;
      [apply in_range_true in E | apply in_range_false in E]; try lia
  end.

Lemma decode_encode_char c bs :
  is_scalar c = true -> decode_char (encode_char c ++ bs) = Some (c, bs).
Proof.
  rewrite is_scalar_spec. intros Hc. unfold encode_char.
  destruct (Z.ltb_spec c 128); [cbn; range_solve; done|].
  destruct (Z.ltb_spec c 2048).
  { cbn. unfold is_cont. range_solve. repeat f_equal; lia. }
  destruct (Z.ltb_spec c 65536).
  { cbn. unfold is_cont. range_solve; cbn; repeat f_equal; lia. }
  cbn. unfold is_cont. range_solve; cbn; repeat f_equal; lia.
Qed.

Lemma decode_char_sound bs c r :
  Forall is_byte bs -> decode_char bs = Some (c, r) ->
  bs = encode_char c ++ r /\ is_scalar c = true.
Proof.
  intros Hb. destruct bs as [|b0 r0]; [done|]. apply Forall_cons in Hb as [H0 Hb].
  unfold is_byte in H0. rewrite is_scalar_spec. cbn [decode_char]. unfold is_cont.
  destruct (Z.ltb_spec b0 128).
  { intros; simplify_eq. unfold encode_char. range_solve. split; [done|lia]. }
  destruct (in_range 194 223 b0) eqn:E2; [apply in_range_true in E2|].
  { destruct r0 as [|b1 r1]; [done|]. range_solve; [|done]. intros; simplify_eq.
    unfold encode_char. range_solve. split; [conses|lia]. }
  destruct (in_range 224 239 b0) eqn:E3; [apply in_range_true in E3|].
  { destruct r0 as [|b1 [|b2 r2]]; [done..|]. range_solve; cbn [andb]; try done; intros; simplify_eq;
    unfold encode_char; range_solve; (split; [conses|lia]). }
  destruct (in_range 240 244 b0) eqn:E4; [apply in_range_true in E4|done].
  destruct r0 as [|b1 [|b2 [|b3 r3]]]; [done..|]. range_solve; cbn [andb]; try done; intros; simplify_eq;
  unfold encode_char; range_solve; (split; [conses|lia]).
Qed.

Lemma encode_char_nonempty c : (1 <= length (encode_char c))%nat.
Proof. unfold encode_char. repeat case_match; cbn; lia. Qed.

(** The bytes of a character beyond ASCII are beyond ASCII. *)
Lemma encode_char_high (c : Z) : 128 <= c -> Forall (fun b => 128 <= b) (encode_char c).
Proof.
  intros H; unfold encode_char; rewrite (proj2 (Z.ltb_ge c 128)) by lia.
  pose proof (Z.mod_pos_bound c 64 eq_refl); pose proof (Z.mod_pos_bound (c / 64) 64 eq_refl).
  pose proof (Z.mod_pos_bound (c / 4096) 64 eq_refl).
  pose proof (Z.div_pos c 64); pose proof (Z.div_pos c 4096); pose proof (Z.div_pos c 262144).
  destruct (c <? 2048); [repeat constructor; lia |]; destruct (c <? 65536); repeat constructor; lia.
Qed.

Lemma from_utf8_loop_as_bytes s n off :
  Forall (fun c => is_scalar c = true) s -> (length (as_bytes s) <= n)%nat ->
  from_utf8_loop n off (as_bytes s) = Ok s.
Proof.
  intros Hs. revert n off. induction Hs as [|c s Hc Hs IH]; intros n off Hn; [by destruct n|].
  unfold as_bytes in Hn |- *. cbn [map concat] in Hn |- *. rewrite length_app in Hn.
  pose proof (encode_char_nonempty c).
  destruct n as [|n]; [lia|]. cbn [from_utf8_loop].
  rewrite decode_encode_char by done.
  destruct (encode_char c ++ concat (map encode_char s)) eqn:E;
    [apply app_eq_nil in E as [E _]; rewrite E in H; cbn in H; lia|].
  fold (as_bytes s) in *. rewrite IH by lia. done.
Qed.

(** What a [String] holds: Unicode scalar values. *)
Abbreviation scalars := (Forall (fun c => is_scalar c = true)).

(** Decoding the encoding of a text gives the text back. *)
Lemma from_utf8_as_bytes s :
  Forall (fun c => is_scalar c = true) s -> from_utf8 (as_bytes s) = Ok s.
Proof. intros. by apply from_utf8_loop_as_bytes. Qed.

Lemma as_bytes_inj a b : scalars a -> scalars b -> as_bytes a = as_bytes b -> a = b.
Proof.
  intros Ha Hb H. pose proof (from_utf8_as_bytes a Ha) as Ea. rewrite H, from_utf8_as_bytes in Ea by done. congruence.
Qed.

Lemma from_utf8_loop_sound n bs off s :
  Forall is_byte bs -> from_utf8_loop n off bs = Ok s ->
  bs = as_bytes s /\ Forall (fun c => is_scalar c = true) s.
Proof.
  revert bs off s. induction n as [|n IH]; intros bs off s Hb H.
  { destruct bs; cbn in H; by simplify_eq. }
  destruct bs as [|b bs]; [cbn in H; by simplify_eq|]. cbn [from_utf8_loop] in H.
  destruct (decode_char (b :: bs)) as [[c r]|] eqn:E; [|done].
  apply decode_char_sound in E as [E Hc]; [|done]. binds.
  rewrite E in Hb |- *. apply Forall_app in Hb as [_ Hb].
  apply IH in E0 as [-> ?]; [|done]. injection H as <-. split; [done|by constructor].
Qed.

(** A successful decoding is the inverse of the encoding and yields scalar values only. *)
Lemma from_utf8_sound bs s :
  Forall is_byte bs -> from_utf8 bs = Ok s ->
  bs = as_bytes s /\ Forall (fun c => is_scalar c = true) s.
Proof. apply from_utf8_loop_sound. Qed.

Lemma from_utf8_loop_no_panic n off bs : from_utf8_loop n off bs <> Panic.
Proof.
  revert off bs. induction n as [|n IH]; intros off bs;
    destruct bs as [|b bs]; cbn -[decode_char]; try done.
  destruct (decode_char (b :: bs)) as [[c r]|]; [|done].
  destruct (from_utf8_loop n (off + len_utf8 c) r) eqn:E; cbn; try done. by apply IH in E.
Qed.

(** ** Lemmas: decimal integers *)

(** The value of a digit string read after [acc]. *)
Definition dec_value (acc : Z) (s : text) : Z := fold_left (fun a c => a * 10 + (c - 48)) s acc.

Lemma dec_value_app acc a b : dec_value acc (a ++ b) = dec_value (dec_value acc a) b.
Proof. unfold dec_value. apply fold_left_app. Qed.

Lemma dec_digits_app fuel n acc : dec_digits fuel n acc = dec_digits fuel n [] ++ acc.
Proof.
  revert n acc. induction fuel as [|f IH]; intros n acc; cbn; case_match; try done.
  rewrite IH, (IH _ [_]), <- app_assoc. done.
Qed.

Lemma dec_digits_value fuel n :
  0 <= n < 10 ^ (Z.of_nat fuel + 1) -> dec_value 0 (dec_digits fuel n []) = n.
Proof.
  revert n. induction fuel as [|f IH]; intros n Hn; cbn [dec_digits].
  - change (10 ^ (Z.of_nat 0 + 1)) with 10 in Hn.
    destruct (Z.ltb_spec n 10); [|lia]. cbn. lia.
  - destruct (Z.ltb_spec n 10); [cbn; lia|].
    rewrite dec_digits_app, dec_value_app, IH; [cbn; lia|].
    replace (Z.of_nat (S f) + 1) with (Z.succ (Z.of_nat f + 1)) in Hn by lia.
    rewrite Z.pow_succ_r in Hn by lia. lia.
Qed.

Lemma dec_digits_digits fuel n :
  0 <= n -> Forall (fun c => is_ascii_digit c = true) (dec_digits fuel n []).
Proof.
  revert n. induction fuel as [|f IH]; intros n Hn; cbn; unfold is_ascii_digit in *.
  - case_match; repeat constructor; apply in_range_true; lia.
  - case_match; [repeat constructor; apply in_range_true; lia|].
    rewrite dec_digits_app. apply Forall_app. split; [apply IH; lia|].
    repeat constructor; apply in_range_true; lia.
Qed.

Lemma dec_value_ge acc s :
  0 <= acc -> Forall (fun c => is_ascii_digit c = true) s -> acc <= dec_value acc s.
Proof.
  intros Hacc Hs. revert acc Hacc. induction Hs as [|c s Hc Hs IH]; intros; cbn; [lia|].
  apply in_range_true in Hc. fold (dec_value (acc * 10 + (c - 48)) s).
  specialize (IH (acc * 10 + (c - 48))). lia.
Qed.

Lemma parse_digits_value acc s :
  0 <= acc -> Forall (fun c => is_ascii_digit c = true) s -> dec_value acc s <= usize_max ->
  parse_digits acc s = Some (dec_value acc s).
Proof.
  intros Hacc Hs. revert acc Hacc. induction Hs as [|c s Hc Hs IH]; intros acc Hacc Hv; [done|].
  cbn. rewrite Hc. apply in_range_true in Hc.
  pose proof (dec_value_ge (acc * 10 + (c - 48)) s ltac:(lia) Hs).
  cbn in Hv. fold (dec_value (acc * 10 + (c - 48)) s) in Hv |- *.
  destruct (Z.leb_spec (acc * 10 + (c - 48)) usize_max); [|lia]. apply IH; lia.
Qed.

Lemma to_string_digits n : 0 <= n -> Forall (fun c => is_ascii_digit c = true) (to_string n).
Proof. apply dec_digits_digits. Qed.

Lemma to_string_value n : 0 <= n <= usize_max -> dec_value 0 (to_string n) = n.
Proof.
  intros. apply dec_digits_value.
  change (10 ^ (Z.of_nat 20 + 1)) with 1000000000000000000000. unfold usize_max, u64_max in *. lia.
Qed.

Lemma to_string_inj n m :
  0 <= n <= usize_max -> 0 <= m <= usize_max -> to_string n = to_string m -> n = m.
Proof. intros Hn Hm H. by rewrite <- (to_string_value n), H, to_string_value. Qed.

Lemma to_string_nonempty n : to_string n <> [].
Proof.
  unfold to_string. generalize 20%nat. intros [|f]; cbn [dec_digits]; case_match; try done.
  rewrite dec_digits_app. intros E. by apply app_eq_nil in E as [_ E].
Qed.

(** Parsing a printed [usize] gives it back. *)
Lemma parse_to_string n : 0 <= n <= usize_max -> parse_usize (to_string n) = Some n.
Proof.
  intros Hn. pose proof (to_string_digits n ltac:(lia)) as Hd.
  pose proof (to_string_value n Hn) as Hv. pose proof (to_string_nonempty n) as Hne.
  unfold parse_usize. destruct (to_string n) as [|c s]; [done|].
  pose proof (Forall_inv Hd) as Hc. apply in_range_true in Hc.
  destruct (Z.eqb_spec c 43); [lia|].
  rewrite parse_digits_value by (try lia; done). by rewrite Hv.
Qed.

Lemma parse_digits_bounds acc s n :
  0 <= acc <= usize_max -> parse_digits acc s = Some n -> 0 <= n <= usize_max.
Proof.
  revert acc. induction s as [|c s IH]; intros acc Hacc; cbn; [by intros; simplify_eq|].
  destruct (is_ascii_digit c) eqn:Hc; [|done]. apply in_range_true in Hc.
  destruct (Z.leb_spec (acc * 10 + (c - 48)) usize_max); [|done]. apply IH. lia.
Qed.

Lemma parse_usize_bounds s n : parse_usize s = Some n -> 0 <= n <= usize_max.
Proof.
  assert (Hz : 0 <= 0 <= usize_max) by (unfold usize_max, u64_max; lia).
  unfold parse_usize. repeat case_match; try done; by apply parse_digits_bounds.
Qed.

(** Four digits hold every ordinal below ten thousand. *)
Lemma pad4_length n : 0 <= n < 10000 -> length (pad4 (to_string n)) = 4%nat.
Proof.
  intros Hn. unfold pad4. rewrite length_app, length_replicate.
  enough (length (to_string n) <= 4)%nat by lia.
  unfold to_string. do 4 (cbn [dec_digits]; case_match; [cbn; lia|]). zbool. lia.
Qed.

Lemma pad4_value n : 0 <= n < 10000 -> dec_value 0 (pad4 (to_string n)) = n.
Proof.
  intros Hn. unfold pad4. rewrite dec_value_app.
  replace (dec_value 0 (replicate (4 - length (to_string n)) 48)) with 0.
  - apply to_string_value. unfold usize_max, u64_max. lia.
  - generalize (4 - length (to_string n))%nat. intros k. induction k; [done|]. cbn. done.
Qed.
