(* ===== verification/Regex.v ===== *)
(** * Regular expressions and multi-pattern search.

    The sources use two search packages: [regex] (leftmost-first matching)
    and [aho_corasick] in its leftmost-longest mode.  Both are parameters of
    the model: a class per package with one search function and the
    documented rule that says which match it returns.  The syntax and the
    meaning of patterns are defined here, so the patterns of the sources are
    plain data, and a reference searcher instantiates each class. *)

From S2P Require Import Prelude Text.

(** ** Patterns *)

Inductive regex : Type :=
| RChar (p : Z -> bool)
| REps
| RSeq (r1 r2 : regex)
| RAlt (r1 r2 : regex)
| RStar (r : regex).

(** A compiled pattern: an expression, anchored at the start of the text or not. *)
Record Regex := { anchored : bool; body : regex }.

Definition rlit (s : string) : regex :=
  foldr (fun c r => RSeq (RChar (Z.eqb c)) r) REps (lit s).
Definition rplus (r : regex) : regex := RSeq r (RStar r).
Definition ropt (r : regex) : regex := RAlt r REps.
Fixpoint rrep (n : nat) (r : regex) : regex :=
  match n with O => REps | S n' => RSeq r (rrep n' r) end.
(** At most [n] more copies, greedy. *)
Fixpoint rupto (n : nat) (r : regex) : regex :=
  match n with O => REps | S n' => ropt (RSeq r (rupto n' r)) end.

(** The language of a pattern. *)
Inductive matches : regex -> text -> Prop :=
| m_char p c : p c = true -> matches (RChar p) [c]
| m_eps : matches REps []
| m_seq r1 r2 s1 s2 : matches r1 s1 -> matches r2 s2 -> matches (RSeq r1 r2) (s1 ++ s2)
| m_alt_l r1 r2 s : matches r1 s -> matches (RAlt r1 r2) s
| m_alt_r r1 r2 s : matches r2 s -> matches (RAlt r1 r2) s
| m_star_nil r : matches (RStar r) []
| m_star_cons r s1 s2 :
    s1 <> [] -> matches r s1 -> matches (RStar r) s2 -> matches (RStar r) (s1 ++ s2).

(** Every way to match a prefix of the text, in the order a backtracking
    matcher prefers them: the left alternative first, one more iteration
    before none.  Each entry is the matched prefix and the rest. *)
Fixpoint star_parses (f : text -> list (text * text)) (fuel : nat) (s : text)
  : list (text * text) :=
  match fuel with
  | O => [([], s)]
  | S fuel' =>
      concat (map (fun '(m1, r1) =>
        match m1 with
        | [] => []
        | _ => map (fun '(m2, r2) => (m1 ++ m2, r2)) (star_parses f fuel' r1)
        end) (f s)) ++ [([], s)]
  end.

Fixpoint parses (r : regex) (s : text) : list (text * text) :=
  match r with
  | RChar p => match s with c :: s' => if p c then [([c], s')] else [] | [] => [] end
  | REps => [([], s)]
  | RSeq r1 r2 =>
      concat (map (fun '(m1, s1) => map (fun '(m2, s2) => (m1 ++ m2, s2)) (parses r2 s1))
                  (parses r1 s))
  | RAlt r1 r2 => parses r1 s ++ parses r2 s
  | RStar r => star_parses (parses r) (length s) s
  end.

(** The preferred match at the start of the text, as its length in bytes. *)
Definition match_here (r : regex) (s : text) : option Z :=
  match parses r s with (m, _) :: _ => Some (slen m) | [] => None end.

(** The documented rule: the match starts as early as possible and, there,
    is the one the backtracking order prefers. *)
Fixpoint leftmost_first (r : regex) (off : Z) (s : text) : option (Z * Z) :=
  match match_here r s with
  | Some n => Some (off, off + n)
  | None => match s with [] => None | c :: s' => leftmost_first r (off + len_utf8 c) s' end
  end.

(** The [regex] package: [Regex::find], as start and end byte offsets. *)
Class RegexEngine := {
  re_find : Regex -> text -> option (Z * Z);
  re_find_leftmost : forall r s,
    anchored r = false -> re_find r s = leftmost_first (body r) 0 s;
  re_find_anchored : forall r s,
    anchored r = true ->
    re_find r s = match match_here (body r) s with Some n => Some (0, n) | None => None end
}.

(** A reference engine: search by the rule itself. *)
Definition reference_find (r : Regex) (s : text) : option (Z * Z) :=
  if anchored r
  then match match_here (body r) s with Some n => Some (0, n) | None => None end
  else leftmost_first (body r) 0 s.

Lemma reference_find_leftmost r s :
  anchored r = false -> reference_find r s = leftmost_first (body r) 0 s.
Proof. unfold reference_find. by intros ->. Qed.

Lemma reference_find_anchored r s :
  anchored r = true ->
  reference_find r s = match match_here (body r) s with Some n => Some (0, n) | None => None end.
Proof. unfold reference_find. by intros ->. Qed.

Definition reference_regex : RegexEngine := {|
  re_find := reference_find;
  re_find_leftmost := reference_find_leftmost;
  re_find_anchored := reference_find_anchored
|}.

Section Engine.
Context {RE : RegexEngine}.

(** [Regex::is_match]. *)
Definition is_match (r : Regex) (s : text) : bool :=
  match re_find r s with Some _ => true | None => false end.

(** [Regex::find_iter] of a pattern without look-around and without empty
    matches: search again after each match.  The fuel is the number of
    characters, and every match consumes at least one. *)
Fixpoint find_iter_from (fuel : nat) (r : Regex) (off : Z) (s : text) : list (Z * Z) :=
  match fuel with
  | O => []
  | S fuel' =>
      match re_find r s with
      | None => []
      | Some (i, j) =>
          match get_from s j with
          | None => []
          | Some rest => (off + i, off + j) :: find_iter_from fuel' r (off + j) rest
          end
      end
  end.
Definition find_iter (r : Regex) (s : text) : list (Z * Z) := find_iter_from (length s) r 0 s.
End Engine.

(** ** Multi-pattern search *)

(** The longest pattern that is a prefix of the text, with its position in
    the pattern list; the first of equal patterns. *)
Fixpoint longest_here (idx : nat) (pats : list text) (s : text) : option (nat * Z) :=
  match pats with
  | [] => None
  | p :: pats' =>
      let later := longest_here (S idx) pats' s in
      if starts_with s p then
        match later with
        | Some (k, n) => if slen p <? n then Some (k, n) else Some (idx, slen p)
        | None => Some (idx, slen p)
        end
      else later
  end.

(** The documented leftmost-longest rule. *)
Fixpoint leftmost_longest (pats : list text) (off : Z) (s : text) : option (nat * Z * Z) :=
  match longest_here 0 pats s with
  | Some (k, n) => Some (k, off, off + n)
  | None => match s with [] => None | c :: s' => leftmost_longest pats (off + len_utf8 c) s' end
  end.

(** The [aho_corasick] package: whether an automaton can be built for the
    patterns, and the first match of an automaton that was. *)
Class AhoCorasick := {
  ac_build : list text -> bool;
  ac_find : list text -> text -> option (nat * Z * Z);
  ac_find_longest : forall pats s,
    ac_build pats = true -> ac_find pats s = leftmost_longest pats 0 s
}.

Program Definition reference_aho_corasick : AhoCorasick := {|
  ac_build := fun _ => true;
  ac_find := fun pats s => leftmost_longest pats 0 s
|}.
Solve All Obligations with done.

Section Automaton.
Context {AC : AhoCorasick}.

(** [AhoCorasick::find_iter]: pattern index, start and end of the successive
    non-overlapping matches. *)
Fixpoint ac_find_iter_from (fuel : nat) (pats : list text) (off : Z) (s : text)
  : list (nat * Z * Z) :=
  match fuel with
  | O => []
  | S fuel' =>
      match ac_find pats s with
      | None => []
      | Some (k, i, j) =>
          match get_from s j with
          | None => []
          | Some rest => (k, off + i, off + j) :: ac_find_iter_from fuel' pats (off + j) rest
          end
      end
  end.
Definition ac_find_iter (pats : list text) (s : text) : list (nat * Z * Z) :=
  ac_find_iter_from (length s) pats 0 s.
End Automaton.

(** ** Lemmas: the matcher computes the language *)

Lemma star_parses_sound (f : text -> list (text * text)) r fuel :
  (forall s m t, (m, t) ∈ f s -> s = m ++ t /\ matches r m) ->
  forall s m t, (m, t) ∈ star_parses f fuel s -> s = m ++ t /\ matches (RStar r) m.
Proof.
  intros Hf. induction fuel as [|n IH]; intros s m t; cbn.
  - rewrite list_elem_of_singleton. intros; simplify_eq. split; [done|constructor].
  - rewrite elem_of_app, list_elem_of_singleton. intros [H|H].
    2: { simplify_eq. split; [done|constructor]. }
    rewrite list_elem_of_In in H. apply in_concat in H as (l & Hl & H).
    apply in_map_iff in Hl as ([m1 r1] & <- & Hin).
    destruct m1 as [|c m1]; [done|].
    apply in_map_iff in H as ([m2 r2] & H & Hin2). simplify_eq.
    apply list_elem_of_In, Hf in Hin as [-> Hm1].
    apply list_elem_of_In, IH in Hin2 as [-> Hm2].
    split; [by rewrite (app_assoc (c :: m1))|]. by constructor.
Qed.

Lemma parses_sound r s m t : (m, t) ∈ parses r s -> s = m ++ t /\ matches r m.
Proof.
  revert s m t. induction r as [p| |r1 IH1 r2 IH2|r1 IH1 r2 IH2|r IH]; intros s m t; cbn.
  - destruct s as [|c s]; [by rewrite elem_of_nil|].
    destruct (p c) eqn:E; [|by rewrite elem_of_nil].
    rewrite list_elem_of_singleton. intros; simplify_eq. split; [done|by constructor].
  - rewrite list_elem_of_singleton. intros; simplify_eq. split; [done|constructor].
  - rewrite list_elem_of_In. intros H. apply in_concat in H as (l & Hl & H).
    apply in_map_iff in Hl as ([m1 s1] & <- & Hin).
    apply in_map_iff in H as ([m2 s2] & H & Hin2). simplify_eq.
    apply list_elem_of_In, IH1 in Hin as [-> ?]. apply list_elem_of_In, IH2 in Hin2 as [-> ?].
    split; [by rewrite app_assoc|by constructor].
  - rewrite elem_of_app. intros [H|H]; [apply IH1 in H|apply IH2 in H];
      destruct H as [-> ?]; split; try done; by constructor.
  - apply star_parses_sound, IH.
Qed.

Lemma star_parses_complete (f : text -> list (text * text)) r fuel m t :
  (forall m t, matches r m -> (m, t) ∈ f (m ++ t)) ->
  matches (RStar r) m -> (length m <= fuel)%nat -> (m, t) ∈ star_parses f fuel (m ++ t).
Proof.
  intros Hf. revert m. induction fuel as [|n IH]; intros m Hm Hl.
  { destruct m; [cbn; left|cbn in Hl; lia]. }
  cbn [star_parses]. apply elem_of_app. inv Hm; [right; left|left].
  rewrite list_elem_of_In. apply in_concat.
  eexists. split.
  { apply in_map_iff. exists (s1, s2 ++ t). split; [done|].
    apply list_elem_of_In. rewrite <- app_assoc. by apply Hf. }
  destruct s1 as [|c s1]; [done|]. cbn in Hl. rewrite length_app in Hl.
  apply in_map_iff. exists (s2, t). split; [done|]. apply list_elem_of_In, IH; [done|lia].
Qed.

Lemma parses_complete r m t : matches r m -> (m, t) ∈ parses r (m ++ t).
Proof.
  revert m t. induction r as [p| |r1 IH1 r2 IH2|r1 IH1 r2 IH2|r IH]; intros m t Hm.
  - inv Hm. cbn. rewrite H0. left.
  - inv Hm. left.
  - inv Hm. cbn. rewrite list_elem_of_In. apply in_concat. eexists. split.
    { apply in_map_iff. exists (s1, s2 ++ t). split; [done|].
      apply list_elem_of_In. rewrite <- app_assoc. by apply IH1. }
    cbn. apply in_map_iff. exists (s2, t). split; [done|]. by apply list_elem_of_In, IH2.
  - cbn. apply elem_of_app. inv Hm; [left; by apply IH1|right; by apply IH2].
  - cbn. apply star_parses_complete with r; [done|done|]. rewrite length_app. lia.
Qed.

(** Whether a pattern can match the empty text. *)
Fixpoint nullable (r : regex) : bool :=
  match r with
  | RChar _ => false
  | REps | RStar _ => true
  | RSeq r1 r2 => nullable r1 && nullable r2
  | RAlt r1 r2 => nullable r1 || nullable r2
  end.

Lemma matches_nonempty r m : nullable r = false -> matches r m -> m <> [].
Proof.
  intros Hn Hm. induction Hm; cbn in Hn; try done.
  - intros E. apply app_eq_nil in E as [-> ->]. apply andb_false_iff in Hn. naive_solver.
  - zbool. auto.
  - zbool. auto.
Qed.

(** ** Lemmas: what a search returns *)

Ltac some_pair := apply (f_equal Some), (f_equal2 pair); lia.

Lemma match_here_Some r s n :
  match_here r s = Some n -> exists m t, s = m ++ t /\ matches r m /\ slen m = n.
Proof.
  unfold match_here. destruct (parses r s) as [|[m t] l] eqn:E; [done|].
  intros; simplify_eq. destruct (parses_sound r s m t) as [-> ?]; [rewrite E; left|eauto].
Qed.

Lemma match_here_None r s m t : match_here r s = None -> s = m ++ t -> ~ matches r m.
Proof.
  unfold match_here. intros H -> Hm. apply parses_complete with (t := t) in Hm.
  destruct (parses r (m ++ t)) as [|[] ]; [by apply elem_of_nil in Hm|done].
Qed.

Lemma leftmost_first_Some r off s i j :
  leftmost_first r off s = Some (i, j) ->
  exists a m b, s = a ++ m ++ b /\ i = off + slen a /\ j = i + slen m /\ matches r m /\
    match_here r (m ++ b) = Some (slen m) /\
    (forall a1 a2, a = a1 ++ a2 -> a2 <> [] -> match_here r (a2 ++ m ++ b) = None).
Proof.
  revert off. induction s as [|c s IH]; intros off; cbn -[match_here].
  - destruct (match_here r []) as [n|] eqn:E; [|done]. intros; simplify_eq.
    destruct (match_here_Some _ _ _ E) as (m & t & Hs & Hm & Hl).
    exists [], m, t. cbn. rewrite <- Hs, Hl, E. repeat split; try lia; try done.
    intros a1 a2 Ha. symmetry in Ha. by apply app_eq_nil in Ha as [_ ->].
  - destruct (match_here r (c :: s)) as [n|] eqn:E.
    + intros; simplify_eq.
      destruct (match_here_Some _ _ _ E) as (m & t & Hs & Hm & Hl).
      exists [], m, t. cbn. rewrite <- Hs, Hl, E. repeat split; try lia; try done.
      intros a1 a2 Ha. symmetry in Ha. by apply app_eq_nil in Ha as [_ ->].
    + intros H. apply IH in H as (a & m & b & -> & -> & -> & Hm & Hh & Hno).
      exists (c :: a), m, b. cbn [app slen]. repeat split; try lia; try done.
      intros [|c' a1] a2 Ha Hne; cbn in Ha; [subst; done|].
      injection Ha as <- Ha. by apply (Hno a1).
Qed.

Lemma leftmost_first_None r off s :
  leftmost_first r off s = None -> forall a t, s = a ++ t -> match_here r t = None.
Proof.
  revert off. induction s as [|c s IH]; intros off; cbn -[match_here];
    destruct (match_here r _) eqn:E; try done.
  - intros _ a t Ha. symmetry in Ha. by apply app_eq_nil in Ha as [_ ->].
  - intros H [|c' a] t Ha; cbn in Ha; [by subst|]. injection Ha as _ Ha. by apply (IH _ H a).
Qed.

Lemma leftmost_first_intro r off a m b :
  (forall a1 a2, a = a1 ++ a2 -> a2 <> [] -> match_here r (a2 ++ m ++ b) = None) ->
  match_here r (m ++ b) = Some (slen m) ->
  leftmost_first r off (a ++ m ++ b) = Some (off + slen a, off + slen a + slen m).
Proof.
  revert off. induction a as [|c a IH]; intros off Hno Hh.
  - cbn [app slen]. destruct (m ++ b) eqn:E; cbn -[match_here]; rewrite Hh; some_pair.
  - cbn [app leftmost_first]. pose proof (Hno [] (c :: a) eq_refl ltac:(done)) as E.
    cbn [app] in E. rewrite E.
    rewrite IH; [cbn [slen]; some_pair| |done].
    intros a1 a2 -> Hne. by apply (Hno (c :: a1) a2).
Qed.

Lemma leftmost_first_none_intro r off s :
  (forall a t, s = a ++ t -> match_here r t = None) -> leftmost_first r off s = None.
Proof.
  revert off. induction s as [|c s IH]; intros off H; cbn -[match_here].
  - by rewrite (H [] []).
  - rewrite (H [] (c :: s)) by done. apply IH. intros a t ->. by apply (H (c :: a)).
Qed.

Section SearchFacts.
Context {RE : RegexEngine}.

(** A match of [find_iter] is a substring in the language of the pattern. *)
Lemma find_iter_from_spec fuel r off s i j :
  anchored r = false -> (i, j) ∈ find_iter_from fuel r off s ->
  exists a m b, s = a ++ m ++ b /\ i = off + slen a /\ j = i + slen m /\ matches (body r) m.
Proof.
  intros Hr. revert off s. induction fuel as [|n IH]; intros off s; cbn; [by rewrite elem_of_nil|].
  rewrite re_find_leftmost by done.
  destruct (leftmost_first (body r) 0 s) as [[i' j']|] eqn:E; [|by rewrite elem_of_nil].
  apply leftmost_first_Some in E as (a & m & b & -> & -> & -> & Hm & _).
  replace (0 + slen a + slen m) with (slen (a ++ m)) by (rewrite slen_app; lia).
  unfold get_from. rewrite app_assoc, split_at_app.
  rewrite elem_of_cons. intros [Hi|Hi].
  - simplify_eq. exists a, m, b. rewrite slen_app, app_assoc. repeat split; try done; lia.
  - apply IH in Hi as (a' & m' & b' & -> & -> & -> & Hm').
    exists ((a ++ m) ++ a'), m', b'. rewrite !slen_app.
    split_and!; [by rewrite <- !app_assoc|lia|lia|done].
Qed.

(** One step of [find_iter] when the leftmost match is known. *)
Lemma find_iter_from_step fuel r off a m b :
  anchored r = false ->
  (forall a1 a2, a = a1 ++ a2 -> a2 <> [] -> match_here (body r) (a2 ++ m ++ b) = None) ->
  match_here (body r) (m ++ b) = Some (slen m) ->
  find_iter_from (S fuel) r off (a ++ m ++ b) =
    (off + slen a, off + slen a + slen m) ::
    find_iter_from fuel r (off + slen a + slen m) b.
Proof.
  intros Hr Hno Hh. cbn [find_iter_from]. rewrite re_find_leftmost by done.
  rewrite leftmost_first_intro by done.
  replace (0 + slen a + slen m) with (slen (a ++ m)) by (rewrite slen_app; lia).
  unfold get_from. rewrite app_assoc, split_at_app, slen_app.
  apply (f_equal2 cons); [apply (f_equal2 pair); lia|]. f_equal. lia.
Qed.

Lemma find_iter_from_none fuel r off s :
  anchored r = false -> (forall a t, s = a ++ t -> match_here (body r) t = None) ->
  find_iter_from fuel r off s = [].
Proof.
  intros Hr H. destruct fuel; [done|]. cbn [find_iter_from].
  by rewrite re_find_leftmost, leftmost_first_none_intro.
Qed.

Lemma is_match_false r s :
  anchored r = false -> is_match r s = false ->
  forall a t, s = a ++ t -> match_here (body r) t = None.
Proof.
  intros Hr. unfold is_match. rewrite re_find_leftmost by done.
  destruct (leftmost_first (body r) 0 s) eqn:E; [done|]. intros _.
  by eapply leftmost_first_None.
Qed.
End SearchFacts.

(** ** Lemmas: multi-pattern search *)

Lemma longest_here_Some idx pats s k n :
  longest_here idx pats s = Some (k, n) ->
  exists p t, (idx <= k)%nat /\ pats !! (k - idx)%nat = Some p /\ s = p ++ t /\ slen p = n.
Proof.
  revert idx. induction pats as [|p pats IH]; intros idx; [done|]. cbn [longest_here].
  assert (Hlater : longest_here (S idx) pats s = Some (k, n) ->
    exists q t, (idx <= k)%nat /\ (p :: pats) !! (k - idx)%nat = Some q /\ s = q ++ t /\ slen q = n).
  { intros H. apply IH in H as (q & t & Hk & Hq & -> & <-). exists q, t.
    replace (k - idx)%nat with (S (k - S idx)) by lia. repeat split; try done; lia. }
  destruct (starts_with s p) eqn:E; [|done].
  assert (Hhere : Some (idx, slen p) = Some (k, n) ->
    exists q t, (idx <= k)%nat /\ (p :: pats) !! (k - idx)%nat = Some q /\ s = q ++ t /\ slen q = n).
  { intros; simplify_eq. apply starts_with_spec in E as [t ->]. exists p, t.
    rewrite Nat.sub_diag. repeat split; done || lia. }
  destruct (longest_here (S idx) pats s) as [[k' n']|]; [|done].
  destruct (slen p <? n'); [|done]. intros H. by apply Hlater.
Qed.

Lemma leftmost_longest_Some pats off s k i j :
  leftmost_longest pats off s = Some (k, i, j) ->
  exists a p b, s = a ++ p ++ b /\ i = off + slen a /\ j = i + slen p /\ pats !! k = Some p.
Proof.
  revert off. induction s as [|c s IH]; intros off; cbn -[longest_here].
  - destruct (longest_here 0 pats []) as [[k' n]|] eqn:E; [|done]. intros; simplify_eq.
    apply longest_here_Some in E as (p & t & _ & Hp & Hs & <-).
    rewrite Nat.sub_0_r in Hp. exists [], p, t. cbn. repeat split; done || lia.
  - destruct (longest_here 0 pats (c :: s)) as [[k' n]|] eqn:E.
    + intros; simplify_eq. apply longest_here_Some in E as (p & t & _ & Hp & Hs & <-).
      rewrite Nat.sub_0_r in Hp. exists [], p, t. cbn. repeat split; done || lia.
    + intros H. apply IH in H as (a & p & b & -> & -> & -> & ?).
      exists (c :: a), p, b. cbn. repeat split; try done; lia.
Qed.
