(* ===== verification/Float32.v ===== *)
(** * [f32] values as their bit patterns.

    Scores and confidences are only tested for finiteness, compared with
    [<=] and ordered by [f32::total_cmp], so a single-precision value is its
    32-bit pattern and these operations are defined on the pattern. *)

From S2P Require Import Prelude.

(** The bits of an [f32], an integer below [2^32]. *)
Abbreviation f32 := Z.

Definition f32_valid (x : f32) : Prop := 0 <= x < 4294967296.

Definition f32_sign (x : f32) : bool := 2147483648 <=? x.
(** Exponent and significand fields. *)
Definition f32_magnitude (x : f32) : Z := x mod 2147483648.

Definition is_nan (x : f32) : bool := 2139095040 <? f32_magnitude x.
(** [f32::is_finite]. *)
Definition is_finite (x : f32) : bool := f32_magnitude x <? 2139095040.

(** The order of the values: both zeros are equal. *)
Definition value_key (x : f32) : Z := if f32_sign x then - f32_magnitude x else f32_magnitude x.
(** [x <= y] on [f32]: false when either is a NaN. *)
Definition f32_le (x y : f32) : bool :=
  negb (is_nan x) && negb (is_nan y) && (value_key x <=? value_key y).

(** [f32::total_cmp]: the patterns read as signed integers, with the lower
    31 bits of the negative ones flipped. *)
Definition total_key (x : f32) : Z := if f32_sign x then -1 - f32_magnitude x else f32_magnitude x.
Definition total_cmp (x y : f32) : comparison := total_key x ?= total_key y.

Definition f32_zero : f32 := 0.
(** [1.0], [0x3F80_0000]. *)
Definition f32_one : f32 := 1065353216.

(** [x.is_finite() && (0.0..=1.0).contains(&x)]. *)
Definition in_unit_interval (x : f32) : bool :=
  is_finite x && (f32_le f32_zero x && f32_le x f32_one).

(** ** Lemmas *)

Lemma magnitude_bounds x : 0 <= f32_magnitude x < 2147483648.
Proof. unfold f32_magnitude. apply Z.mod_pos_bound. lia. Qed.

Lemma total_key_inj x y : f32_valid x -> f32_valid y -> total_key x = total_key y -> x = y.
Proof.
  unfold f32_valid, total_key, f32_sign, f32_magnitude. intros Hx Hy.
  destruct (Z.leb_spec 2147483648 x), (Z.leb_spec 2147483648 y);
    Z.to_euclidean_division_equations; lia.
Qed.

Lemma total_cmp_eq x y : f32_valid x -> f32_valid y -> total_cmp x y = Eq <-> x = y.
Proof.
  intros Hx Hy. unfold total_cmp. rewrite Z.compare_eq_iff.
  split; [by apply total_key_inj|by intros ->].
Qed.

(** On values of the unit interval [total_cmp] refines the numeric order. *)
Lemma total_cmp_refines x y :
  f32_valid x -> f32_valid y -> f32_le x y = false -> is_nan x = false -> is_nan y = false ->
  total_cmp x y = Gt.
Proof.
  unfold f32_le, total_cmp, total_key, value_key. intros Hx Hy H Hnx Hny.
  rewrite Hnx, Hny in H. cbn in H. apply Z.leb_gt in H. apply Z.compare_gt_iff.
  pose proof (magnitude_bounds x). pose proof (magnitude_bounds y).
  destruct (f32_sign x), (f32_sign y); lia.
Qed.

Lemma in_unit_valid_key x : in_unit_interval x = true -> 0 <= value_key x <= value_key f32_one.
Proof.
  unfold in_unit_interval, f32_le. intros H. zbool.
  change (value_key f32_zero) with 0 in *. lia.
Qed.
