(* ===== verification/Document.v ===== *)
(** * Digests, identifiers and the document representation
    ([types/src/digest.rs], [types/src/document.rs]). *)

From S2P Require Import Prelude Text.

(** ** Digests *)

Module Digest.

Record t := mk { as_str : text }.
#[global] Instance eq_dec : EqDecision t.
Proof. solve_decision. Defined.
#[global] Instance countable : Countable t.
Proof. apply (inj_countable' as_str mk). by intros []. Defined.

Inductive DigestError := InvalidDigest.

(** A lowercase hexadecimal ASCII byte. *)
Definition is_hex_digit (c : Z) : bool := is_ascii_digit c || in_range 97 102 c.

(** [Digest::from_sha256_hex]. *)
Definition from_sha256_hex (value : text) : Result DigestError t :=
  if (slen value =? 64) && forallb is_hex_digit value then Ok (mk value) else Err InvalidDigest.

End Digest.

(** The SHA-256 implementation: sixty-four lowercase hexadecimal digits. *)
Class Sha256 := {
  sha256_hex : bytes -> text;
  sha256_hex_format : forall b,
    length (sha256_hex b) = 64%nat /\ forallb Digest.is_hex_digit (sha256_hex b) = true
}.

(** [Digest::sha256]. *)
Definition sha256 `{Sha256} (b : bytes) : Digest.t := Digest.mk (sha256_hex b).

(** Two inputs on which the digest collides. *)
Definition collision `{Sha256} (x y : bytes) : Prop := x <> y /\ sha256 x = sha256 y.

(** A concrete digest function, to compute with: the length and the sum of
    the bytes in hexadecimal. *)
Definition toy_hex (b : bytes) : text :=
  let h := hex false (vlen b mod 65536 * 65536 + fold_right Z.add 0 b mod 65536) in
  take 64 (h ++ replicate 64 48).

Lemma hex_digits_format fuel n acc :
  forallb Digest.is_hex_digit acc = true ->
  forallb Digest.is_hex_digit (hex_digits false fuel n acc) = true.
Proof.
  revert n acc. induction fuel as [|fuel IH]; intros n acc Hacc; cbn;
  assert (Hd : Digest.is_hex_digit (hex_digit false (n mod 16)) = true)
    by (pose proof (Z.mod_pos_bound n 16 ltac:(lia));
        unfold Digest.is_hex_digit, hex_digit, is_ascii_digit;
        destruct (Z.ltb_spec (n mod 16) 10); apply orb_true_iff; rewrite !in_range_true; lia);
  destruct (n <? 16); try apply IH; cbn; by rewrite Hd.
Qed.

Lemma toy_hex_format b :
  length (toy_hex b) = 64%nat /\ forallb Digest.is_hex_digit (toy_hex b) = true.
Proof.
  unfold toy_hex. rewrite length_take, length_app, length_replicate. split; [lia|].
  assert (Hf : forallb Digest.is_hex_digit (hex false (vlen b mod 65536 * 65536 +
    fold_right Z.add 0 b mod 65536) ++ replicate 64 48) = true).
  { rewrite forallb_app. unfold hex. by rewrite hex_digits_format. }
  revert Hf. generalize (hex false (vlen b mod 65536 * 65536 + fold_right Z.add 0 b mod 65536)
    ++ replicate 64 48). intros l Hf. rewrite <- (take_drop 64 l), forallb_app in Hf. by zbool.
Qed.

(** The class is inhabited: a digest function to compute witnesses with. *)
Definition toy_sha256 : Sha256 := {| sha256_hex := toy_hex; sha256_hex_format := toy_hex_format |}.

(** ** Identifiers *)

Inductive IdentifierError := IdDocument | IdRewriteUnit.

Module DocumentId.

Record t := mk { as_str : text }.
#[global] Instance eq_dec : EqDecision t.
Proof. solve_decision. Defined.

(** [DocumentId::from_digest]. *)
Definition from_digest (d : Digest.t) : t := mk (lit "document:" ++ Digest.as_str d).

(** [DocumentId::from_str]. *)
Definition from_str (value : text) : Result IdentifierError t :=
  match strip_prefix (lit "document:") value with
  | None => Err IdDocument
  | Some digest =>
      _ ← map_err (fun _ => IdDocument) (Digest.from_sha256_hex digest);
      Ok (mk value)
  end.

End DocumentId.

Module RewriteUnitId.

Record t := mk { as_str : text }.
#[global] Instance eq_dec : EqDecision t.
Proof. solve_decision. Defined.

(** [RewriteUnitId::new]. *)
Definition new (document : DocumentId.t) (ordinal : Z) : t :=
  mk (DocumentId.as_str document ++ lit ":unit:" ++ to_string ordinal).

(** [RewriteUnitId::from_str]. *)
Definition from_str (value : text) : Result IdentifierError t :=
  match rsplit_once value (lit ":unit:") with
  | None => Err IdRewriteUnit
  | Some (document, ordinal) =>
      _ ← map_err (fun _ => IdRewriteUnit) (DocumentId.from_str document);
      parsed ← ok_or (parse_usize ordinal) IdRewriteUnit;
      if text_eqb (to_string parsed) ordinal then Ok (mk value) else Err IdRewriteUnit
  end.

End RewriteUnitId.

(** ** Spans *)

Module SourceSpan.

Record t := mk { start : Z; end_ : Z }.
#[global] Instance eq_dec : EqDecision t.
Proof. solve_decision. Defined.

Inductive SpanError := mkSpanError (start end_ : Z).

(** [SourceSpan::new]. *)
Definition new (start end_ : Z) : Result SpanError t :=
  if end_ <? start then Err (mkSpanError start end_) else Ok (mk start end_).

(** [SourceSpan::len]. *)
Definition len (s : t) : Z := end_ s - start s.

(** [SourceSpan::is_empty]. *)
Definition is_empty (s : t) : bool := start s =? end_ s.

End SourceSpan.

(** ** Documents *)

Definition SCHEMA_VERSION : Z := 1.

Inductive MediaType := PlainText.

Record StructuralFingerprint := { fp_kind : text; fp_digest : Digest.t }.
#[global] Instance fingerprint_eq_dec : EqDecision StructuralFingerprint.
Proof. solve_decision. Defined.

Record RewriteUnit := {
  unit_id : RewriteUnitId.t;
  source_span : SourceSpan.t;
  unit_text : text
}.

Inductive DocumentError :=
| UnsupportedSchema (v : Z)
| DocumentIdentifier
| UnitIdentifier (index : Z)
| OverlappingSpan (index : Z)
| SpanLength (index : Z).

Module DocumentIr.

Record t := mk {
  schema_version : Z;
  document_id : DocumentId.t;
  media_type : MediaType;
  source_digest : Digest.t;
  rewrite_units : list RewriteUnit;
  structure : StructuralFingerprint
}.

(** The loop of [DocumentIr::validate] over the remaining units. *)
Fixpoint validate_units (doc : DocumentId.t) (index previous_end : Z) (units : list RewriteUnit)
  : Result DocumentError unit :=
  match units with
  | [] => Ok tt
  | u :: units' =>
      if negb (bool_decide (unit_id u = RewriteUnitId.new doc index)) then Err (UnitIdentifier index)
      else if SourceSpan.start (source_span u) <? previous_end then Err (OverlappingSpan index)
      else if negb (SourceSpan.len (source_span u) =? slen (unit_text u)) then Err (SpanLength index)
      else validate_units doc (index + 1) (SourceSpan.end_ (source_span u)) units'
  end.

(** [DocumentIr::validate]. *)
Definition validate (d : t) : Result DocumentError unit :=
  if negb (schema_version d =? SCHEMA_VERSION) then Err (UnsupportedSchema (schema_version d))
  else if negb (bool_decide (document_id d = DocumentId.from_digest (source_digest d)))
  then Err DocumentIdentifier
  else validate_units (document_id d) 0 0 (rewrite_units d).

(** [DocumentIr::new]. *)
Definition new (source_digest : Digest.t) (media_type : MediaType)
    (rewrite_units : list RewriteUnit) (structure : StructuralFingerprint)
  : Result DocumentError t :=
  let document :=
    mk SCHEMA_VERSION (DocumentId.from_digest source_digest) media_type source_digest
       rewrite_units structure in
  _ ← validate document;
  Ok document.

End DocumentIr.

(** ** Lemmas: identifiers *)

(** The scope separators [":unit:"] and [":candidate:"]: a colon, a word
    that starts with a letter and has no colon, a colon. *)
Definition is_separator (pat : text) : Prop :=
  exists q0 q, pat = 58 :: q0 :: q ++ [58] /\ is_ascii_digit q0 = false /\ q0 <> 58 /\ 58 ∉ q.

#[local] Ltac not_in_list :=
  repeat (apply not_elem_of_cons; split; [done|]); apply not_elem_of_nil.

Lemma unit_separator : is_separator (lit ":unit:").
Proof. exists 117, [110; 105; 116]. split_and!; try done; not_in_list. Qed.

Lemma candidate_separator : is_separator (lit ":candidate:").
Proof.
  exists 99, [97; 110; 100; 105; 100; 97; 116; 101]. split_and!; try done; not_in_list.
Qed.

Lemma rsplit_once_none pat s :
  (forall x y, s = x ++ y -> strip_prefix pat y = None) -> rsplit_once s pat = None.
Proof.
  induction s as [|c s IH]; intros H; cbn -[strip_prefix].
  - by rewrite (H [] []).
  - rewrite IH; [by rewrite (H [] (c :: s))|]. intros x y ->. by apply (H (c :: x)).
Qed.

Lemma rsplit_once_intro pat a b :
  (forall x y, pat ++ b = x ++ y -> x <> [] -> strip_prefix pat y = None) ->
  pat <> [] -> rsplit_once (a ++ pat ++ b) pat = Some (a, b).
Proof.
  intros H Hne. induction a as [|c a IH]; cbn [app].
  - assert (Hp : strip_prefix pat (pat ++ b) = Some b) by by apply strip_prefix_spec.
    destruct (pat ++ b) as [|c s] eqn:E; [by apply app_eq_nil in E as [-> _]|].
    cbn -[strip_prefix]. rewrite rsplit_once_none; [by rewrite Hp|].
    intros x y ->. by apply (H (c :: x)).
  - cbn -[strip_prefix]. by rewrite IH.
Qed.

Lemma split_unique (c : Z) x y l b :
  x ++ c :: y = l ++ c :: b -> c ∉ l -> c ∉ b -> x = l /\ y = b.
Proof.
  intros H Hl Hb. apply app_eq_app in H as (m & [[-> H]|[-> H]]); destruct m as [|d m];
    rewrite ?app_nil_r in *; simplify_eq/=; try done; exfalso.
  - apply Hb, elem_of_app. right. left.
  - apply Hl, elem_of_app. right. left.
Qed.

Lemma digits_no_colon s : Forall (fun c => is_ascii_digit c = true) s -> 58 ∉ s.
Proof. rewrite Forall_forall. intros H Hin. by apply H in Hin. Qed.

(** A printed ordinal cannot contain the separator, so splitting at its
    last occurrence recovers the scope. *)
Lemma rsplit_once_ordinal pat a n :
  is_separator pat -> 0 <= n ->
  rsplit_once (a ++ pat ++ to_string n) pat = Some (a, to_string n).
Proof.
  intros (q0 & q & -> & Hq0 & Hq0' & Hq) Hn.
  apply rsplit_once_intro; [|done].
  pose proof (to_string_digits n Hn) as Hd. revert Hd. generalize (to_string n). intros b Hd x y Hxy Hx.
  destruct (strip_prefix _ y) as [r|] eqn:E; [exfalso|done].
  apply strip_prefix_spec in E. cbn in E. subst y.
  destruct x as [|x0 x]; [done|]. cbn in Hxy. injection Hxy as _ Hxy.
  rewrite <- app_assoc in Hxy. cbn in Hxy. rewrite app_comm_cons in Hxy. symmetry in Hxy.
  apply split_unique in Hxy as [_ Hb].
  - subst b. apply Forall_inv in Hd. congruence.
  - rewrite not_elem_of_cons. done.
  - by apply digits_no_colon.
Qed.

(** ** Lemmas: round trips *)

Lemma slen_ascii s : Forall (fun c => c < 128) s -> slen s = vlen s.
Proof.
  induction 1 as [|c s Hc Hs IH]; [done|]. rewrite vlen_cons, <- IH. cbn. f_equal.
  unfold len_utf8. by destruct (Z.ltb_spec c 128); [|lia].
Qed.

Lemma hex_ascii s : forallb Digest.is_hex_digit s = true -> Forall (fun c => c < 128) s.
Proof.
  rewrite forallb_forall, Forall_forall. intros H c Hc. apply list_elem_of_In, H in Hc.
  unfold Digest.is_hex_digit, is_ascii_digit in Hc. rewrite orb_true_iff, !in_range_true in Hc. lia.
Qed.

(** A computed digest is accepted by the parser of digests. *)
Lemma sha256_canonical `{Sha256} b :
  Digest.from_sha256_hex (Digest.as_str (sha256 b)) = Ok (sha256 b).
Proof.
  destruct (sha256_hex_format b) as [Hl Hx]. unfold Digest.from_sha256_hex, sha256. cbn.
  rewrite Hx, (slen_ascii _ (hex_ascii _ Hx)). unfold vlen. by rewrite Hl.
Qed.

Lemma document_id_parse d :
  Digest.from_sha256_hex (Digest.as_str d) = Ok d ->
  DocumentId.from_str (DocumentId.as_str (DocumentId.from_digest d)) = Ok (DocumentId.from_digest d).
Proof.
  intros Hd. unfold DocumentId.from_str, DocumentId.from_digest. cbn [DocumentId.as_str].
  assert (strip_prefix (lit "document:") (lit "document:" ++ Digest.as_str d)
          = Some (Digest.as_str d)) as -> by by apply strip_prefix_spec.
  by rewrite Hd.
Qed.

Lemma document_id_from_str_inv v d :
  DocumentId.from_str v = Ok d ->
  exists g, Digest.from_sha256_hex (Digest.as_str g) = Ok g /\ d = DocumentId.from_digest g
            /\ v = DocumentId.as_str d.
Proof.
  unfold DocumentId.from_str. destruct (strip_prefix _ v) as [h|] eqn:E; [|done].
  apply strip_prefix_spec in E. intros H. binds.
  exists (Digest.mk h). unfold Digest.from_sha256_hex in *. cbn.
  case_match; simplify_eq. done.
Qed.

(** What the parser of rewrite-unit identifiers accepts: exactly the
    identifiers the constructor prints. *)
Lemma unit_id_from_str_iff v u :
  RewriteUnitId.from_str v = Ok u <->
  exists g n, Digest.from_sha256_hex (Digest.as_str g) = Ok g /\ 0 <= n <= usize_max /\
    u = RewriteUnitId.new (DocumentId.from_digest g) n /\ v = RewriteUnitId.as_str u.
Proof.
  unfold RewriteUnitId.from_str. split.
  - destruct (rsplit_once v _) as [[doc ord]|] eqn:E; [|done]. intros H. binds.
    case_match eqn:Et; simplify_eq. apply bool_decide_eq_true in Et.
    apply document_id_from_str_inv in E0 as (g & Hg & -> & ->).
    apply rsplit_once_Some in E. apply parse_usize_bounds in E1 as Hn.
    exists g, x0. split_and!; try lia; try done. unfold RewriteUnitId.new.
    by rewrite E, <- Et.
  - intros (g & n & Hg & Hn & -> & ->). unfold RewriteUnitId.new. cbn [RewriteUnitId.as_str].
    rewrite rsplit_once_ordinal by (try apply unit_separator; lia).
    rewrite (document_id_parse _ Hg), (parse_to_string _ Hn). cbn -[to_string].
    unfold text_eqb. by rewrite bool_decide_eq_true_2.
Qed.

(** ** Lemmas: documents *)

(** The contract [validate_units] checks, position by position. *)
Inductive units_ok (doc : DocumentId.t) : Z -> Z -> list RewriteUnit -> Prop :=
| units_nil index previous_end : units_ok doc index previous_end []
| units_cons index previous_end u us :
    unit_id u = RewriteUnitId.new doc index ->
    previous_end <= SourceSpan.start (source_span u) ->
    SourceSpan.len (source_span u) = slen (unit_text u) ->
    units_ok doc (index + 1) (SourceSpan.end_ (source_span u)) us ->
    units_ok doc index previous_end (u :: us).

Lemma validate_units_ok doc index previous_end us :
  DocumentIr.validate_units doc index previous_end us = Ok tt <->
  units_ok doc index previous_end us.
Proof.
  revert index previous_end. induction us as [|u us IH]; intros index previous_end; cbn.
  { split; [constructor|done]. }
  split.
  - repeat case_match; try done. zbool. rewrite IH. by constructor.
  - intros H. inv H. rewrite bool_decide_eq_true_2 by done. cbn.
    destruct (Z.ltb_spec (SourceSpan.start (source_span u)) previous_end); [lia|].
    destruct (Z.eqb_spec (SourceSpan.len (source_span u)) (slen (unit_text u))); [|done].
    by apply IH.
Qed.

Lemma validate_ok_iff d :
  DocumentIr.validate d = Ok tt <->
  DocumentIr.schema_version d = SCHEMA_VERSION /\
  DocumentIr.document_id d = DocumentId.from_digest (DocumentIr.source_digest d) /\
  units_ok (DocumentIr.document_id d) 0 0 (DocumentIr.rewrite_units d).
Proof.
  unfold DocumentIr.validate. rewrite <- validate_units_ok.
  destruct (Z.eqb_spec (DocumentIr.schema_version d) SCHEMA_VERSION); cbn; [|naive_solver].
  case_bool_decide; cbn; naive_solver.
Qed.

Lemma document_validate_no_panic d : DocumentIr.validate d <> Panic.
Proof.
  unfold DocumentIr.validate. do 2 (case_match; [done|]). generalize 0 at 1 as i. generalize 0 as e.
  induction (DocumentIr.rewrite_units d) as [|u us IH]; intros e i; cbn; [done|].
  by repeat case_match.
Qed.

(** In a valid document the spans of the units are disjoint and in order. *)
Lemma units_ok_disjoint doc index previous_end us i j u v :
  units_ok doc index previous_end us -> (i < j)%nat -> us !! i = Some u -> us !! j = Some v ->
  SourceSpan.end_ (source_span u) <= SourceSpan.start (source_span v).
Proof.
  intros H. revert i j. induction H as [|index pe w us Hid Hpe Hlen H IH]; intros i j Hij Hi Hj; [done|].
  destruct j as [|j]; [lia|]. cbn in Hj. destruct i as [|i]; [|by apply (IH i j); [lia|..]].
  cbn in Hi. simplify_eq. clear IH.
  assert (Hgen : forall pe idx l k v, units_ok doc idx pe l -> l !! k = Some v ->
    pe <= SourceSpan.start (source_span v)).
  { clear. intros pe idx l k v H. revert k. induction H as [|? ? w l Hid Hpe Hlen H IH]; intros k Hk; [done|].
    destruct k as [|k]; cbn in Hk; simplify_eq; [done|]. apply IH in Hk.
    unfold SourceSpan.len in Hlen. pose proof (slen_nonneg (unit_text w)). lia. }
  by apply (Hgen _ _ _ _ _ H Hj).
Qed.
