(* ===== verification/TextSafety.v ===== *)
(** * Text safety of a replacement ([types/src/text_safety.rs]).

    Hard controls freeze a source; retained invisible characters may be
    kept or dropped but never added.  The theorems give the policy by tables
    of code points and positions of runs, show that the code decides it and
    that it is a preorder. *)

From S2P Require Import Prelude Text.

(** ** Character policy *)

Inductive TextSafetyFault :=
| HardAltered (at_ : Z)
| HardIntroduced (at_ : Z)
| InvisibleIntroduced (at_ : Z).

Definition is_hard_unsafe_text_character (c : Z) : bool :=
  (is_control c && negb ((c =? 10) || (c =? 13) || (c =? 9)))
  || ((c =? 0x061C) || in_range 0x200B 0x200F c || in_range 0x2028 0x202E c
      || in_range 0x2060 0x206F c || (c =? 0xFEFF)).

Definition is_bidi_mark (c : Z) : bool :=
  (c =? 0x061C) || (c =? 0x200E) || (c =? 0x200F) || in_range 0x202A 0x202E c
  || in_range 0x2066 0x2069 c.

Definition is_variation_selector (c : Z) : bool :=
  in_range 0xFE00 0xFE0F c || in_range 0xE0100 0xE01EF c.

Definition is_tag_character (c : Z) : bool := (c =? 0xE0001) || in_range 0xE0020 0xE007F c.

Definition is_zero_width_mark (c : Z) : bool :=
  in_range 0x200B 0x200D c || (c =? 0x2060) || (c =? 0xFEFF) || (c =? 0x180E).

Definition is_other_invisible_mark (c : Z) : bool :=
  (c =? 0x00AD) || (c =? 0x034F) || (c =? 0x115F) || (c =? 0x1160) || (c =? 0x17B4)
  || (c =? 0x17B5) || in_range 0x180B 0x180D c || (c =? 0x2028) || (c =? 0x2029)
  || (c =? 0x202F) || in_range 0x2061 0x2064 c || in_range 0x206A 0x206F c
  || (c =? 0x3164) || (c =? 0xFFA0) || in_range 0xFFF9 0xFFFB c.

Definition is_retained_invisible_character (c : Z) : bool :=
  negb (is_hard_unsafe_text_character c)
  && (is_variation_selector c || is_zero_width_mark c || is_tag_character c
      || is_other_invisible_mark c).

(** ** Carrier runs *)

Record CarrierChar := { character : Z; offset : Z }.
Record LocatedRun := { base : option Z; carriers : list CarrierChar }.

(** [LocatedRun::key]. *)
Definition run_key (r : LocatedRun) : option Z * list Z := (base r, map character (carriers r)).

(** The inner loop: the retained characters from here, the offset after
    them and the text after them. *)
Fixpoint take_carriers (off : Z) (s : text) : list CarrierChar * Z * text :=
  match s with
  | c :: s' =>
      if is_retained_invisible_character c then
        let '(cs, off', rest) := take_carriers (off + len_utf8 c) s' in
        ({| character := c; offset := off |} :: cs, off', rest)
      else ([], off, s)
  | [] => ([], off, [])
  end.

(** [carrier_runs]: the text from offset [off]; each round consumes at
    least one character, so the number of characters is enough fuel. *)
Fixpoint carrier_runs_from (fuel : nat) (off : Z) (s : text) : list LocatedRun :=
  match fuel, s with
  | O, _ | _, [] => []
  | S fuel', c :: s' =>
      if is_retained_invisible_character c then
        let '(cs, off', rest) := take_carriers off s in
        {| base := None; carriers := cs |} :: carrier_runs_from fuel' off' rest
      else
        let '(cs, off', rest) := take_carriers (off + len_utf8 c) s' in
        match cs with
        | [] => carrier_runs_from fuel' off' rest
        | _ => {| base := Some c; carriers := cs |} :: carrier_runs_from fuel' off' rest
        end
  end.
Definition carrier_runs (s : text) : list LocatedRun := carrier_runs_from (length s) 0 s.

(** [consume_run]. *)
Definition consume_run (available : gmap (option Z * list Z) Z) (key : option Z * list Z)
  : option (gmap (option Z * list Z) Z) := consume available key.

(** The number of leading carriers two runs share. *)
Fixpoint shared_carriers (a b : list CarrierChar) : nat :=
  match a, b with
  | x :: a', y :: b' => if character x =? character y then S (shared_carriers a' b') else O
  | _, _ => O
  end.

(** The longest proper prefix of the run that a source run with the same base starts with. *)
Fixpoint introduced_prefix (run : LocatedRun) (source_runs : list LocatedRun) (prefix : nat) : nat :=
  match source_runs with
  | [] => prefix
  | source :: rest =>
      if negb (bool_decide (base source = base run)) then introduced_prefix run rest prefix
      else
        let shared := shared_carriers (carriers source) (carriers run) in
        introduced_prefix run rest
          (if (shared <? length (carriers run))%nat then Nat.max prefix shared else prefix)
  end.

(** [introduced_offset]; the index is in range ([introduced_prefix_in_range] below). *)
Definition introduced_offset (run : LocatedRun) (source_runs : list LocatedRun) : Z :=
  from_option offset 0 (carriers run !! introduced_prefix run source_runs 0%nat).

(** The loop of [first_introduced_carrier] over the candidate runs. *)
Fixpoint first_unavailable (source_runs : list LocatedRun)
    (available : gmap (option Z * list Z) Z) (candidate_runs : list LocatedRun) : option Z :=
  match candidate_runs with
  | [] => None
  | run :: rest =>
      match consume_run available (run_key run) with
      | Some available' => first_unavailable source_runs available' rest
      | None => Some (introduced_offset run source_runs)
      end
  end.

(** [first_introduced_carrier]. *)
Definition first_introduced_carrier (source candidate : text) : option Z :=
  let source_runs := carrier_runs source in
  first_unavailable source_runs (tally (map run_key source_runs)) (carrier_runs candidate).

(** [first_hard_offset]. *)
Fixpoint first_hard_offset_from (off : Z) (s : text) : option Z :=
  match s with
  | [] => None
  | c :: s' =>
      if is_hard_unsafe_text_character c then Some off
      else first_hard_offset_from (off + len_utf8 c) s'
  end.
Definition first_hard_offset (s : text) : option Z := first_hard_offset_from 0 s.

(** The zipped loop of [first_difference]: a difference, or the offset after the shared prefix. *)
Fixpoint first_difference_loop (off : Z) (left right : text) : Z + Z :=
  match left, right with
  | c :: l, d :: r => if c =? d then first_difference_loop (off + len_utf8 c) l r else inl off
  | _, _ => inr off
  end.
(** [first_difference]. *)
Definition first_difference (left right : text) : option Z :=
  match first_difference_loop 0 left right with
  | inl at_ => Some at_
  | inr off =>
      if slen left =? slen right then None
      else Some (Z.min (Z.min off (slen left)) (slen right))
  end.

(** [first_text_safety_fault]. *)
Definition first_text_safety_fault (source replacement : text) : option TextSafetyFault :=
  if existsb is_hard_unsafe_text_character source then
    match first_difference source replacement with Some a => Some (HardAltered a) | None => None end
  else
    match first_hard_offset replacement with
    | Some a => Some (HardIntroduced a)
    | None =>
        match first_introduced_carrier source replacement with
        | Some a => Some (InvisibleIntroduced a)
        | None => None
        end
    end.

(** [replacement_preserves_text_safety]. *)
Definition replacement_preserves_text_safety (source replacement : text) : bool :=
  match first_text_safety_fault source replacement with None => true | Some _ => false end.

(** ** Lemmas *)

Lemma first_difference_loop_spec off left right :
  match first_difference_loop off left right with
  | inl a => exists p c d l r, left = p ++ c :: l /\ right = p ++ d :: r /\ c <> d /\ a = off + slen p
  | inr a => exists p l r, left = p ++ l /\ right = p ++ r /\ (l = [] \/ r = []) /\ a = off + slen p
  end.
Proof.
  revert off right. induction left as [|c left IH]; intros off right; cbn.
  { exists [], [], right. cbn. split_and!; auto; lia. }
  destruct right as [|d right]; cbn.
  { exists [], (c :: left), []. cbn. split_and!; auto; lia. }
  destruct (Z.eqb_spec c d); [subst|].
  - specialize (IH (off + len_utf8 d) right). destruct (first_difference_loop _ _ _).
    + destruct IH as (p & c & d' & l & r & -> & -> & Hne & ->).
      exists (d :: p), c, d', l, r. cbn. split_and!; auto; lia.
    + destruct IH as (p & l & r & -> & -> & Hne & ->).
      exists (d :: p), l, r. cbn. split_and!; auto; lia.
  - exists [], c, d, left, right. cbn. split_and!; auto; lia.
Qed.

(** No difference is reported exactly when the texts are equal. *)
Lemma first_difference_None left right : first_difference left right = None <-> left = right.
Proof.
  unfold first_difference. pose proof (first_difference_loop_spec 0 left right) as H.
  destruct (first_difference_loop 0 left right).
  - destruct H as (p & c & d & l & r & -> & -> & Hne & _). split; [done|].
    intros E. apply app_inv_head in E. congruence.
  - destruct H as (p & l & r & -> & -> & Hor & _). rewrite !slen_app.
    pose proof (slen_nonneg l). pose proof (slen_nonneg r).
    destruct (Z.eqb_spec (slen p + slen l) (slen p + slen r)) as [E|E]; split; try done.
    + intros _. f_equal. destruct Hor as [-> | ->]; cbn in E; [symmetry|]; apply slen_nil_inv; lia.
    + intros E'. apply app_inv_head in E'. subst. lia.
Qed.

Lemma first_hard_offset_from_None off s :
  first_hard_offset_from off s = None <-> existsb is_hard_unsafe_text_character s = false.
Proof.
  revert off. induction s as [|c s IH]; intros off; cbn; [done|].
  destruct (is_hard_unsafe_text_character c); cbn; [done|apply IH].
Qed.

Lemma first_unavailable_None source_runs available runs :
  counts_ok available ->
  first_unavailable source_runs available runs = None <->
  forall k, occ k (map run_key runs) <= count_of available k.
Proof.
  revert available. induction runs as [|r runs IH]; intros available Hok; cbn.
  { split; [intros _ k; apply Hok|done]. }
  pose proof (consume_spec available (run_key r) Hok) as H. unfold consume_run.
  destruct (consume available (run_key r)) as [m|].
  - destruct H as (H1 & Hm & Hget). rewrite IH by done. split; intros Hk k; specialize (Hk k);
      rewrite Hget in *; case_decide; lia.
  - split; [done|]. intros Hk. specialize (Hk (run_key r)). rewrite decide_True in Hk by done.
    pose proof (occ_nonneg (run_key r) (map run_key runs)). lia.
Qed.

(** ** The policy, by code points and positions *)

(** The controls that freeze a source: the C0 and C1 controls other than tab,
    line feed and carriage return, the bidirectional marks, the zero-width
    characters, the line and paragraph separators and the byte-order mark. *)
Definition HARD_RANGES : list (Z * Z) :=
  [(0, 8); (11, 12); (14, 31); (127, 159); (0x061C, 0x061C); (0x200B, 0x200F); (0x2028, 0x202E);
   (0x2060, 0x206F); (0xFEFF, 0xFEFF)].

(** The invisible marks an edit may keep or drop. *)
Definition MARK_RANGES : list (Z * Z) :=
  [(0x00AD, 0x00AD); (0x034F, 0x034F); (0x115F, 0x1160); (0x17B4, 0x17B5); (0x180B, 0x180E);
   (0x202F, 0x202F); (0x3164, 0x3164); (0xFE00, 0xFE0F); (0xFFA0, 0xFFA0); (0xFFF9, 0xFFFB);
   (0xE0001, 0xE0001); (0xE0020, 0xE007F); (0xE0100, 0xE01EF)].

Definition listed (ranges : list (Z * Z)) (c : Z) : bool := existsb (fun '(a, b) => (a <=? c) && (c <=? b)) ranges.
Definition hard : Z -> bool := listed HARD_RANGES.
Definition mark : Z -> bool := listed MARK_RANGES.
#[global] Arguments hard : simpl never.
#[global] Arguments mark : simpl never.
Definition marked (c : option Z) : bool := from_option mark false c.

(** The run [(base, marks)] stands after the character [prev] and before the
    text [s]: some marks and no mark on either side of them, the character
    before them being the base. *)
Definition run_between (prev : option Z) (s : text) (run : option Z * list Z) : bool :=
  bool_decide (prev = run.1) && negb (marked prev) && negb (bool_decide (run.2 = [])) && forallb mark run.2
  && bool_decide (take (length run.2) s = run.2) && negb (marked (s !! length run.2)).

(** The run starts at character [i] of the text. *)
Definition run_at (s : text) (run : option Z * list Z) (i : nat) : bool :=
  run_between (match i with O => None | S j => s !! j end) (drop i s) run.

(** The number of positions of the text where the run starts. *)
Definition run_count (run : option Z * list Z) (s : text) : nat := length (List.filter (run_at s run) (seq 0 (length s))).

(** The policy: a source with a hard control admits only itself; any other
    source admits the texts without a hard control in which no run of marks
    occurs, after its base character, more often than in the source. *)
Definition text_safe (source replacement : text) : Prop :=
  if existsb hard source then replacement = source
  else existsb hard replacement = false /\ forall run, (run_count run replacement <= run_count run source)%nat.

(** ** Lemmas: the code's characters and runs are the policy's *)

Ltac ranges :=
  apply Bool.eq_iff_eq_true; cbn [listed existsb];
  repeat rewrite ?orb_true_iff, ?andb_true_iff, ?negb_true_iff, ?orb_false_iff, ?andb_false_iff, ?negb_false_iff,
    ?Z.eqb_eq, ?Z.eqb_neq, ?Z.leb_le, ?Z.leb_gt; lia.

Lemma hard_correct c : is_hard_unsafe_text_character c = hard c.
Proof. unfold is_hard_unsafe_text_character, is_control, in_range, hard, HARD_RANGES; ranges. Qed.

Lemma mark_correct c : is_retained_invisible_character c = mark c.
Proof.
  unfold is_retained_invisible_character; rewrite hard_correct.
  unfold is_variation_selector, is_zero_width_mark, is_tag_character, is_other_invisible_mark, in_range.
  unfold hard, mark, HARD_RANGES, MARK_RANGES; ranges.
Qed.

Lemma mark_not_hard c : mark c = true -> hard c = false.
Proof. rewrite <- mark_correct, <- hard_correct; unfold is_retained_invisible_character; by intros [?%negb_true_iff _]%andb_true_iff. Qed.

Lemma existsb_hard s : existsb is_hard_unsafe_text_character s = existsb hard s.
Proof. induction s as [|c s IH]; cbn [existsb]; [done | by rewrite hard_correct, IH]. Qed.

(** The count of a run, position by position. *)
Fixpoint runs_after (prev : option Z) (s : text) (run : option Z * list Z) : nat :=
  match s with
  | [] => O
  | c :: s' => ((if run_between prev s run then 1 else 0) + runs_after (Some c) s' run)%nat
  end.

Lemma count_after run pre s :
  length (List.filter (run_at (pre ++ s) run) (seq (length pre) (length s))) = runs_after (last pre) s run.
Proof.
  revert pre; induction s as [|c s IH]; intros pre; cbn [length seq List.filter runs_after]; [done |].
  assert (Hat : run_at (pre ++ c :: s) run (length pre) = run_between (last pre) (c :: s) run).
  { unfold run_at; rewrite drop_app_length; f_equal; destruct pre as [|x pre' _] using rev_ind; [done |].
    rewrite length_app, Nat.add_comm, last_snoc, <- app_assoc; cbn [length Nat.add app]; by rewrite list_lookup_middle. }
  specialize (IH (pre ++ [c])); rewrite length_app, Nat.add_comm, <- app_assoc, last_snoc in IH; cbn [length Nat.add app] in IH.
  rewrite Hat; destruct (run_between _ _ _); cbn [length]; by rewrite IH.
Qed.

Lemma run_count_after run s : run_count run s = runs_after None s run.
Proof. apply (count_after run []). Qed.

(** No run starts at a character that is not a mark, nor after a mark. *)
Lemma run_between_unmarked prev s run : marked (head s) = false -> run_between prev s run = false.
Proof.
  unfold run_between; destruct run as [base [|m marks]]; cbn [fst snd]; intros H.
  { rewrite (bool_decide_true ([] = [])) by done; cbn [negb]; by rewrite andb_false_r. }
  destruct s as [|c s]; cbn [length take]; [by rewrite (bool_decide_false ([] = _)), andb_false_r by done |].
  cbn [head marked from_option] in H; cbn [forallb]; destruct (decide (c = m)) as [->|Hne]; [by rewrite H, andb_false_r |].
  rewrite (bool_decide_false (c :: _ = _)) by congruence; by rewrite andb_false_r.
Qed.
Lemma run_between_after_mark c s run : mark c = true -> run_between (Some c) s run = false.
Proof. intros H; unfold run_between; cbn; by rewrite H, andb_false_r. Qed.

Lemma runs_after_unmarked prev s run : marked (head s) = false -> runs_after prev s run = runs_after None s run.
Proof. intros H; destruct s; cbn [runs_after]; [done |]; by rewrite !run_between_unmarked. Qed.
Lemma runs_after_marks c m rest run :
  mark c = true -> Forall (fun d => mark d = true) m -> marked (head rest) = false ->
  runs_after (Some c) (m ++ rest) run = runs_after None rest run.
Proof.
  intros Hc Hm Hr; revert c Hc; induction Hm as [|d m Hd _ IH]; intros c Hc; cbn [app runs_after].
  { by apply runs_after_unmarked. }
  rewrite run_between_after_mark by done; cbn [Nat.add]; by apply IH.
Qed.

(** Between a character that is not a mark and the end of the marks there is
    exactly one run. *)
Lemma run_between_maximal prev m rest run :
  marked prev = false -> m <> [] -> Forall (fun d => mark d = true) m -> marked (head rest) = false ->
  run_between prev (m ++ rest) run = bool_decide ((prev, m) = run).
Proof.
  intros Hp Hne Hm Hr; destruct run as [base marks]; unfold run_between; cbn [fst snd]; rewrite Hp.
  apply Bool.eq_iff_eq_true; rewrite !andb_true_iff, !negb_true_iff, !bool_decide_eq_true, bool_decide_eq_false, forallb_forall.
  split; [| intros [= <- <-]].
  - intros (((((-> & _) & Hmn) & Hmm) & Ht) & Hn); f_equal.
    destruct (Nat.lt_trichotomy (length marks) (length m)) as [Hl | [Hl | Hl]].
    + rewrite lookup_app_l in Hn by done; destruct (lookup_lt_is_Some_2 _ _ Hl) as [d Hd]; rewrite Hd in Hn.
      eapply Forall_lookup_1 in Hm; [| exact Hd]; cbn in Hn; congruence.
    + by rewrite Hl, take_app_length in Ht.
    + rewrite take_app_ge in Ht by lia; destruct rest as [|d rest]; [rewrite take_nil, app_nil_r in Ht; subst; lia |].
      replace (length marks - length m)%nat with (S (length marks - length m - 1)) in Ht by lia; cbn [take] in Ht.
      cbn in Hr; rewrite Hmm in Hr; [done |]; rewrite <- Ht; apply in_or_app; right; by left.
  - split_and!; try done; [| by rewrite take_app_length |].
    + intros d Hd; rewrite Forall_forall in Hm; by apply Hm, list_elem_of_In.
    + rewrite lookup_app_r, Nat.sub_diag by done; by destruct rest.
Qed.

Lemma take_carriers_maximal off s cs off' rest :
  take_carriers off s = (cs, off', rest) ->
  s = map character cs ++ rest /\ Forall (fun d => mark d = true) (map character cs) /\ marked (head rest) = false.
Proof.
  revert off cs off' rest; induction s as [|c s IH]; intros off cs off' rest; cbn [take_carriers]; [by intros [= <- <- <-] |].
  rewrite mark_correct; destruct (mark c) eqn:Hc; [| by intros [= <- <- <-]].
  destruct (take_carriers (off + len_utf8 c) s) as [[cs1 off1] rest1] eqn:E; intros [= <- <- <-].
  apply IH in E as (-> & Hm & Hr); cbn [map]; split_and!; [done | by constructor | done].
Qed.

Lemma runs_after_maximal prev m rest run :
  marked prev = false -> m <> [] -> Forall (fun d => mark d = true) m -> marked (head rest) = false ->
  runs_after prev (m ++ rest) run = ((if decide ((prev, m) = run) then 1 else 0) + runs_after None rest run)%nat.
Proof.
  intros Hp Hne Hm Hr; pose proof (run_between_maximal prev m rest run Hp Hne Hm Hr) as Hb.
  destruct m as [|d m]; [done |]; cbn [app runs_after] in *; rewrite Hb; apply Forall_cons in Hm as [Hd Hm].
  rewrite (runs_after_marks d m rest run) by done; f_equal; by repeat case_decide || case_bool_decide.
Qed.

(** The runs the code collects are the runs of the text. *)
Lemma carrier_runs_after fuel off s run :
  (length s <= fuel)%nat ->
  occ run (map run_key (carrier_runs_from fuel off s)) = Z.of_nat (runs_after None s run).
Proof.
  revert off s; induction fuel as [|fuel IH]; intros off [|c s] Hl; cbn [carrier_runs_from map occ]; try done; cbn [length] in Hl; [lia |].
  rewrite mark_correct; destruct (mark c) eqn:Hc.
  - destruct (take_carriers off (c :: s)) as [[cs off'] rest] eqn:E; pose proof (take_carriers_maximal _ _ _ _ _ E) as (Hs & Hm & Hr).
    assert (Hne : map character cs <> []) by (intros H; rewrite H in Hs; cbn in Hs; subst rest; cbn in Hr; congruence).
    cbn [map occ]; unfold run_key at 1; cbn [base carriers]; rewrite IH.
    2:{ apply (f_equal length) in Hs; rewrite length_app in Hs; destruct (map character cs); cbn in *; [done | lia]. }
    rewrite Hs, (runs_after_maximal None _ rest) by done; repeat case_decide; done || lia.
  - cbn [runs_after]; rewrite run_between_unmarked by done; cbn [Nat.add].
    destruct (take_carriers _ s) as [[cs off'] rest] eqn:E; apply take_carriers_maximal in E as (Hs & Hm & Hr).
    assert (Hrest : (length rest <= fuel)%nat) by (apply (f_equal length) in Hs; rewrite length_app in Hs; lia).
    destruct cs as [|cc cs]; [cbn [map app] in Hs; subst rest; by rewrite IH, (runs_after_unmarked (Some c)) |].
    cbn [map occ]; unfold run_key at 1; cbn [base carriers]; rewrite IH by done.
    rewrite Hs, (runs_after_maximal (Some c) _ rest) by done; repeat case_decide; done || lia.
Qed.

Lemma carrier_runs_count s run : occ run (map run_key (carrier_runs s)) = Z.of_nat (run_count run s).
Proof. unfold carrier_runs; by rewrite carrier_runs_after, run_count_after. Qed.

Lemma preserves_text_safety_spec source replacement :
  replacement_preserves_text_safety source replacement = true <-> text_safe source replacement.
Proof.
  unfold replacement_preserves_text_safety, first_text_safety_fault, text_safe; rewrite existsb_hard.
  destruct (existsb hard source).
  - pose proof (first_difference_None source replacement) as H.
    destruct (first_difference source replacement) as [d|]; split; try done.
    + intros Heq; by discriminate (proj2 H (eq_sym Heq)).
    + intros _; symmetry; by apply H.
  - pose proof (first_hard_offset_from_None 0 replacement) as H; rewrite existsb_hard in H; unfold first_hard_offset.
    destruct (first_hard_offset_from 0 replacement); [split; [done |]; intros [Hh _]; by apply H in Hh |].
    pose proof (first_unavailable_None (carrier_runs source) (tally (map run_key (carrier_runs source)))
      (carrier_runs replacement) (tally_ok _)) as Hu.
    assert (Hk : (forall k, occ k (map run_key (carrier_runs replacement)) <= count_of (tally (map run_key (carrier_runs source))) k)
      <-> forall run, (run_count run replacement <= run_count run source)%nat).
    { unfold count_of; split; intros Hk k; specialize (Hk k); rewrite tally_default, !carrier_runs_count in *; lia. }
    rewrite Hk in Hu; unfold first_introduced_carrier; destruct (first_unavailable _ _ _); split; try done.
    + intros [_ Hr]; by discriminate (proj2 Hu Hr).
    + intros _; split; [by apply H | by apply Hu].
Qed.

(** A carrier reported at an offset is the retained character found there. *)
Definition located_in (off : Z) (s : text) (cc : CarrierChar) : Prop :=
  exists a b, s = a ++ character cc :: b /\ offset cc = off + slen a /\
              is_retained_invisible_character (character cc) = true.

Lemma located_in_app off pre s cc :
  located_in (off + slen pre) s cc -> located_in off (pre ++ s) cc.
Proof.
  intros (a & b & -> & Ho & H). exists (pre ++ a), b.
  rewrite slen_app, <- app_assoc. split_and!; done || lia.
Qed.

Lemma take_carriers_spec off s cs off' rest :
  take_carriers off s = (cs, off', rest) ->
  exists m, s = m ++ rest /\ off' = off + slen m /\ Forall (located_in off s) cs /\
    map character cs = m /\ Forall (fun c => is_retained_invisible_character c = true) m.
Proof.
  revert off cs off' rest. induction s as [|c s IH]; intros off cs off' rest; cbn.
  { intros; simplify_eq. exists []. cbn. split_and!; auto; lia. }
  destruct (is_retained_invisible_character c) eqn:Hc.
  - destruct (take_carriers (off + len_utf8 c) s) as [[cs1 off1] rest1] eqn:E.
    intros; simplify_eq. apply IH in E as (m & -> & -> & Hl & <- & Hm).
    exists (c :: map character cs1). cbn. split_and!; [done|lia| |done|by constructor].
    constructor.
    + exists [], (map character cs1 ++ rest). cbn. split_and!; done || lia.
    + eapply Forall_impl; [exact Hl|]. intros cc Hcc. apply (located_in_app off [c]).
      cbn. by rewrite Z.add_0_r.
  - intros; simplify_eq. exists []. cbn. split_and!; auto; lia.
Qed.

Lemma carrier_runs_from_spec fuel off s r :
  r ∈ carrier_runs_from fuel off s -> carriers r <> [] /\ Forall (located_in off s) (carriers r).
Proof.
  revert off s. induction fuel as [|n IH]; intros off s; cbn; [by rewrite elem_of_nil|].
  destruct s as [|c s]; [by rewrite elem_of_nil|].
  assert (Hrest : forall pre rest, c :: s = pre ++ rest ->
    r ∈ carrier_runs_from n (off + slen pre) rest ->
    carriers r <> [] /\ Forall (located_in off (c :: s)) (carriers r)).
  { intros pre rest -> Hr. apply IH in Hr as [? Hr]. split; [done|].
    eapply Forall_impl; [exact Hr|]. apply located_in_app. }
  destruct (is_retained_invisible_character c) eqn:Hc.
  - destruct (take_carriers off (c :: s)) as [[cs off'] rest] eqn:E.
    assert (cs <> []). { cbn in E. rewrite Hc in E. repeat case_match; simplify_eq. done. }
    apply take_carriers_spec in E as (m & Hs & -> & Hl & _).
    rewrite elem_of_cons. intros [-> | Hr]; [done|]. by apply (Hrest m rest).
  - destruct (take_carriers (off + len_utf8 c) s) as [[cs off'] rest] eqn:E.
    apply take_carriers_spec in E as (m & -> & -> & Hl & _).
    assert (Hr' : r ∈ carrier_runs_from n (off + len_utf8 c + slen m) rest ->
      carriers r <> [] /\ Forall (located_in off (c :: m ++ rest)) (carriers r)).
    { intros Hr. apply (Hrest (c :: m) rest); [done|]. cbn. by rewrite Z.add_assoc. }
    destruct cs as [|cc cs]; [done|]. rewrite elem_of_cons. intros [-> | Hr]; [|auto].
    cbn. split; [done|]. eapply Forall_impl; [exact Hl|]. intros x Hx.
    apply (located_in_app off [c]). cbn. by rewrite Z.add_0_r.
Qed.

Lemma introduced_prefix_in_range run source_runs prefix :
  (prefix < length (carriers run))%nat ->
  (introduced_prefix run source_runs prefix < length (carriers run))%nat.
Proof.
  revert prefix. induction source_runs as [|r rs IH]; intros prefix Hp;
    cbn [introduced_prefix]; [done|].
  case_match; apply IH; [done|].
  destruct (Nat.ltb_spec (shared_carriers (carriers r) (carriers run)) (length (carriers run))); lia.
Qed.

Lemma first_unavailable_Some source_runs available runs a :
  first_unavailable source_runs available runs = Some a ->
  exists r, r ∈ runs /\ a = introduced_offset r source_runs.
Proof.
  revert available. induction runs as [|r runs IH]; intros available; cbn; [done|].
  destruct (consume_run _ _).
  - intros H. apply IH in H as (r' & ? & ?). exists r'. split; [by right|done].
  - intros; simplify_eq. exists r. split; [left|done].
Qed.

(** The offset of an introduced run points at a retained character of the candidate. *)
Lemma first_introduced_carrier_at source candidate a :
  first_introduced_carrier source candidate = Some a ->
  exists p c t, candidate = p ++ c :: t /\ slen p = a /\ is_retained_invisible_character c = true.
Proof.
  intros H. apply first_unavailable_Some in H as (r & Hr & ->).
  apply carrier_runs_from_spec in Hr as [Hne Hl]. unfold introduced_offset.
  pose proof (introduced_prefix_in_range r (carrier_runs source) 0) as Hi.
  destruct (carriers r !! _) as [cc|] eqn:E; cbn.
  - rewrite Forall_lookup in Hl. apply Hl in E as (p & t & Hs & Ho & Hc).
    exists p, (character cc), t. split_and!; [done|lia|done].
  - apply lookup_ge_None in E. destruct (carriers r); [done|]. cbn in *. lia.
Qed.

Lemma first_hard_offset_from_Some off s a :
  first_hard_offset_from off s = Some a ->
  exists p c t, s = p ++ c :: t /\ a = off + slen p /\ is_hard_unsafe_text_character c = true.
Proof.
  revert off. induction s as [|c s IH]; intros off; cbn; [done|].
  destruct (is_hard_unsafe_text_character c) eqn:E.
  - intros; simplify_eq. exists [], c, s. cbn. split_and!; done || lia.
  - intros H. apply IH in H as (p & d & t & -> & -> & ?). exists (c :: p), d, t.
    cbn. split_and!; done || lia.
Qed.

Lemma fault_located (source replacement : text) (fault : TextSafetyFault) :
  first_text_safety_fault source replacement = Some fault ->
  match fault with
  | HardAltered a => is_char_boundary source a = true /\ is_char_boundary replacement a = true
  | HardIntroduced a => exists p c t, replacement = p ++ c :: t /\ slen p = a /\
      is_hard_unsafe_text_character c = true
  | InvisibleIntroduced a => exists p c t, replacement = p ++ c :: t /\ slen p = a /\
      is_retained_invisible_character c = true
  end.
Proof.
  unfold first_text_safety_fault. destruct (existsb _ source).
  - unfold first_difference. pose proof (first_difference_loop_spec 0 source replacement) as H.
    destruct (first_difference_loop 0 source replacement).
    + destruct H as (p & c & d & l & r & -> & -> & _ & ->). intros; simplify_eq.
      rewrite !is_char_boundary_spec. split; eexists p, _; (split; [done|lia]).
    + destruct H as (p & l & r & -> & -> & Hor & ->). rewrite !slen_app.
      pose proof (slen_nonneg l). pose proof (slen_nonneg r).
      destruct (_ =? _); intros; simplify_eq.
      rewrite !is_char_boundary_spec. split; eexists p, _; (split; [done|lia]).
  - destruct (first_hard_offset replacement) eqn:E.
    + intros; simplify_eq. apply first_hard_offset_from_Some in E as (p & c & t & -> & -> & ?).
      exists p, c, t. split_and!; done || lia.
    + destruct (first_introduced_carrier source replacement) eqn:E'; intros; simplify_eq.
      by apply first_introduced_carrier_at in E'.
Qed.

Lemma carrier_runs_none fuel off s :
  existsb is_retained_invisible_character s = false -> carrier_runs_from fuel off s = [].
Proof.
  revert off s. induction fuel as [|n IH]; intros off s H; [done|].
  destruct s as [|c s]; [done|]. cbn in H |- *. zbool. rewrite H.
  destruct s as [|d s]; cbn; [by apply IH|]. cbn in H0. zbool. rewrite H0.
  apply IH. cbn. by rewrite H0.
Qed.

(** ** Theorems *)

(** C5. The implemented check decides the text-safety policy, given by tables of
    code points and by positions in the texts: a source with a hard control
    (a C0 or C1 control other than tab, line feed and carriage return, a
    bidirectional or zero-width mark, a separator, a byte-order mark) admits
    only itself; any other source admits exactly the texts without a hard
    control in which every maximal run of invisible marks, together with the
    character it follows, starts at no more positions than in the source. *)
Theorem text_safety_policy (source replacement : text) :
  replacement_preserves_text_safety source replacement = true <->
  (if existsb hard source then replacement = source
   else existsb hard replacement = false /\ forall run, (run_count run replacement <= run_count run source)%nat).
Proof. apply preserves_text_safety_spec. Qed.

(** Every text is a safe replacement of itself, and safe replacements
    compose: editing a safe edit again cannot smuggle in a character. *)
Theorem text_safety_preorder (a b c : text) :
  replacement_preserves_text_safety a a = true /\
  (replacement_preserves_text_safety a b = true ->
   replacement_preserves_text_safety b c = true ->
   replacement_preserves_text_safety a c = true).
Proof.
  rewrite !preserves_text_safety_spec. unfold text_safe. split.
  - destruct (existsb _ a) eqn:Ha; [done|]. split; [done|]. intros k. lia.
  - destruct (existsb _ a) eqn:Ha.
    + intros ->. by rewrite Ha.
    + intros [-> Hab] [Hc Hbc]. split; [done|]. intros k. specialize (Hab k). specialize (Hbc k). lia.
Qed.

(** A reported fault points at a character boundary: at a hard control or a
    retained mark of the replacement, or, for a frozen source, inside both
    texts; the index into a carrier run never runs out of range. *)
Theorem text_safety_fault_located (source replacement : text) (fault : TextSafetyFault) :
  first_text_safety_fault source replacement = Some fault ->
  match fault with
  | HardAltered a => is_char_boundary source a = true /\ is_char_boundary replacement a = true
  | HardIntroduced a => exists p c t, replacement = p ++ c :: t /\ slen p = a /\
      is_hard_unsafe_text_character c = true
  | InvisibleIntroduced a => exists p c t, replacement = p ++ c :: t /\ slen p = a /\
      is_retained_invisible_character c = true
  end.
Proof. apply fault_located. Qed.

(** Dropping every retained mark of a source without hard controls is safe. *)
Theorem text_safety_drop_marks (source : text) :
  existsb is_hard_unsafe_text_character source = false ->
  replacement_preserves_text_safety source
    (List.filter (fun c => negb (is_retained_invisible_character c)) source) = true.
Proof.
  intros H. apply preserves_text_safety_spec. unfold text_safe. rewrite <- !existsb_hard, H. split.
  - clear -H. induction source as [|c s IH]; [done|]. cbn in *. zbool.
    destruct (is_retained_invisible_character c); cbn; [auto|]. rewrite H. auto.
  - intros k. enough (run_count k (List.filter (fun c => negb (is_retained_invisible_character c)) source) = 0%nat) by lia.
    apply Nat2Z.inj. rewrite <- carrier_runs_count. unfold carrier_runs. rewrite carrier_runs_none; [done|].
    clear. induction source as [|c s IH]; [done|]. cbn.
    destruct (is_retained_invisible_character c) eqn:E; cbn; [done|]. by rewrite E.
Qed.
