(* ===== verification/Rewrite.v ===== *)
(** * Rewrite options, candidates and outcomes ([types/src/rewrite.rs]). *)

From S2P Require Import Prelude Text Float32 Document.

(** ** Caller options *)

Inductive RewriteMode := Literal | Pure | Balanced | Strong.
#[global] Instance rewrite_mode_eq_dec : EqDecision RewriteMode.
Proof. solve_decision. Defined.

Inductive Atomicity := ADocument | AUnit | ARegion.
#[global] Instance atomicity_eq_dec : EqDecision Atomicity.
Proof. solve_decision. Defined.

Inductive EditLevel := TouchUp | VoicePass | EditRewrite | Reconstruct.

Record CharacterBudget := {
  min_characters : option Z;
  max_characters : option Z;
  max_expansion_percent : option Z
}.

Record LineBudget := {
  max_lines : option Z;
  preserve_line_count : bool
}.

Record LayoutConstraints := {
  character_budget : option CharacterBudget;
  line_budget : option LineBudget
}.

Record RewriteOptions := {
  mode : RewriteMode;
  atomicity : Atomicity;
  protected_terms : list text;
  minimum_semantic_confidence : f32;
  edit_level : option EditLevel;
  layout : option LayoutConstraints
}.

(** [RewriteOptions::default]; the confidence is the bit pattern of [0.95]. *)
Definition default_options : RewriteOptions := {|
  mode := Balanced;
  atomicity := ADocument;
  protected_terms := [];
  minimum_semantic_confidence := 0x3F733333;
  edit_level := None;
  layout := None
|}.

(** ** Candidate identifiers *)

Inductive CandidateIdError := InvalidCandidateId.

Module CandidateId.

Record t := mk { as_str : text }.
#[global] Instance eq_dec : EqDecision t.
Proof. solve_decision. Defined.

(** [CandidateId::new]. *)
Definition new (u : RewriteUnitId.t) (ordinal : Z) : t :=
  mk (RewriteUnitId.as_str u ++ lit ":candidate:" ++ to_string ordinal).

(** [CandidateId::is_scoped_to]. *)
Definition is_scoped_to (c : t) (u : RewriteUnitId.t) : bool :=
  match rsplit_once (as_str c) (lit ":candidate:") with
  | Some (scope, _) => text_eqb scope (RewriteUnitId.as_str u)
  | None => false
  end.

(** [CandidateId::from_str]. *)
Definition from_str (value : text) : Result CandidateIdError t :=
  match rsplit_once value (lit ":candidate:") with
  | None => Err InvalidCandidateId
  | Some (u, ordinal) =>
      _ ← map_err (fun _ => InvalidCandidateId) (RewriteUnitId.from_str u);
      parsed ← ok_or (parse_usize ordinal) InvalidCandidateId;
      if negb (text_eqb (to_string parsed) ordinal) then Err InvalidCandidateId
      else Ok (mk value)
  end.

End CandidateId.

(** ** Candidates, plans and outcomes *)

Inductive CandidateTextKind := Masked | Raw.

Record CandidateRank := {
  style : f32;
  channel : f32;
  fluency : f32;
  editorial_penalty : Z;
  edit_cost : Z
}.

(** [CandidateRank::default]. *)
Definition default_rank : CandidateRank :=
  {| style := 0; channel := 0; fluency := 0; editorial_penalty := 0; edit_cost := 0 |}.

Record GeneratedCandidate := {
  cand_id : CandidateId.t;
  cand_unit_id : RewriteUnitId.t;
  cand_text : text;
  text_kind : CandidateTextKind;
  rank : CandidateRank
}.

Record PlannedUnit := {
  planned_unit_id : RewriteUnitId.t;
  masked_text : text
}.

Module TransformationPlan.

Record t := mk {
  schema_version : Z;
  document_id : DocumentId.t;
  units : list PlannedUnit
}.

(** [TransformationPlan::new]. *)
Definition new (document_id : DocumentId.t) (units : list PlannedUnit) : t :=
  mk SCHEMA_VERSION document_id units.

End TransformationPlan.

Record AcceptedEdit := {
  edit_unit_id : RewriteUnitId.t;
  replacement : text
}.

Inductive RewriteStatus :=
| Rewritten
| UnchangedNoEligibleContent
| Abstained
| Failed
| UnchangedIdentical.
#[global] Instance rewrite_status_eq_dec : EqDecision RewriteStatus.
Proof. solve_decision. Defined.

Inductive ReasonCode :=
| NoCandidate
| InvalidCandidate
| SentinelIntegrity
| ProtectedValueChanged
| StructureChanged
| UnsafeText
| CharacterBudgetExceeded
| LineBudgetExceeded
| SemanticMismatch
| SemanticUncertain
| ReassemblyVerification
| Cancelled
| UnsupportedAtomicity.
#[global] Instance reason_code_eq_dec : EqDecision ReasonCode.
Proof. solve_decision. Defined.

(** ** Lemmas *)

(** A candidate identifier built for a unit is scoped to that unit and to no other. *)
Lemma candidate_scope u v n :
  0 <= n -> CandidateId.is_scoped_to (CandidateId.new u n) v = true <-> u = v.
Proof.
  intros Hn. unfold CandidateId.is_scoped_to, CandidateId.new. cbn [CandidateId.as_str].
  rewrite rsplit_once_ordinal by (try apply candidate_separator; done).
  unfold text_eqb. rewrite bool_decide_eq_true. destruct u, v; cbn. split; congruence.
Qed.

(** The parser accepts exactly the identifiers the constructor prints for a parsed unit. *)
Lemma candidate_id_from_str_iff v c :
  CandidateId.from_str v = Ok c <->
  exists u n, RewriteUnitId.from_str (RewriteUnitId.as_str u) = Ok u /\ 0 <= n <= usize_max /\
    c = CandidateId.new u n /\ v = CandidateId.as_str c.
Proof.
  unfold CandidateId.from_str. split.
  - destruct (rsplit_once v _) as [[s ord]|] eqn:E; [|done]. intros H. binds.
    case_match eqn:Et; simplify_eq. zbool. apply bool_decide_eq_true in Et.
    apply unit_id_from_str_iff in E0 as Hu. destruct Hu as (g & k & Hg & Hk & -> & ->).
    apply rsplit_once_Some in E. apply parse_usize_bounds in E1 as Hn.
    eexists _, x0. split_and!; try lia; try done. unfold CandidateId.new. by rewrite E, <- Et.
  - intros (u & n & Hu & Hn & -> & ->). unfold CandidateId.new. cbn [CandidateId.as_str].
    rewrite rsplit_once_ordinal by (try apply candidate_separator; lia).
    rewrite Hu, (parse_to_string _ Hn). cbn -[to_string].
    unfold text_eqb. by rewrite bool_decide_eq_true_2.
Qed.

(** Distinct ordinals give distinct identifiers, for units and for candidates. *)
Lemma candidate_id_inj u v n m :
  0 <= n <= usize_max -> 0 <= m <= usize_max ->
  CandidateId.new u n = CandidateId.new v m -> u = v /\ n = m.
Proof.
  intros Hn Hm H. apply (f_equal CandidateId.as_str) in H.
  unfold CandidateId.new in H. cbn [CandidateId.as_str] in H.
  pose proof (rsplit_once_ordinal (lit ":candidate:") (RewriteUnitId.as_str u) n
    candidate_separator ltac:(lia)) as E1.
  pose proof (rsplit_once_ordinal (lit ":candidate:") (RewriteUnitId.as_str v) m
    candidate_separator ltac:(lia)) as E2.
  rewrite H in E1. rewrite E1 in E2. injection E2 as Hu Hs.
  split; [destruct u, v; cbn in *; congruence|]. by apply to_string_inj.
Qed.
