(* ===== verification/Claims.v ===== *)
(** * Claim evidence ([types/src/claim.rs], [types/src/claim_comparison.rs]).

    Content-redacted claims, the sets an extractor returns for one text, the
    canonical byte encoding that a set's digest covers, and the counts and
    aggregate of a comparison. *)

From S2P Require Import Prelude Text Float32 Document.

Definition CLAIM_EVIDENCE_SCHEMA_VERSION : Z := 1.
Definition MAX_CLAIMS_PER_UNIT : Z := 256.
Definition MAX_EVIDENCE_SPANS_PER_CLAIM : Z := 16.
Definition MAX_EXTRACTOR_ID_BYTES : Z := 64.
Definition CLAIM_CONFIDENCE_PARTS_PER_MILLION : Z := 1000000.

Inductive ClaimExtractionStatus := Complete | Partial | StatusAbstained | StatusFailed.
#[global] Instance extraction_status_eq_dec : EqDecision ClaimExtractionStatus.
Proof. solve_decision. Defined.

Inductive ClaimPolarity := Affirmed | Negated | PolarityUnknown.
#[global] Instance polarity_eq_dec : EqDecision ClaimPolarity.
Proof. solve_decision. Defined.

Inductive ClaimModality :=
| Asserted | Required | Permitted | Possible | Conditional | ModalityUnknown.
#[global] Instance modality_eq_dec : EqDecision ClaimModality.
Proof. solve_decision. Defined.

Inductive ClaimEvidenceError :=
| InvalidExtractorIdentity
| InvalidConfidenceThreshold
| TooManyClaims
| DuplicateClaim
| InvalidSpanCount
| EmptySpan
| DuplicateSpan
| InvalidSourceSpan
| ClaimInvalidConfidence
| InvalidComparison.

(** ** One claim *)

(** [span.start(), span.end()] compared as a pair. *)
Definition span_le (a b : SourceSpan.t) : bool :=
  (SourceSpan.start a <? SourceSpan.start b)
  || ((SourceSpan.start a =? SourceSpan.start b) && (SourceSpan.end_ a <=? SourceSpan.end_ b)).

(** [windows(2).any(|pair| pair[0] == pair[1])]. *)
Fixpoint has_equal_neighbours (l : list SourceSpan.t) : bool :=
  match l with
  | a :: (b :: _) as l' => bool_decide (a = b) || has_equal_neighbours l'
  | _ => false
  end.

(** [(f64::from(c) * 1e6).round() as u32] for a validated confidence: the
    product of a 24-bit significand and [10^6] is exact in 53 bits, and
    [round] takes halves away from zero. *)
Definition ppm_of_f32 (c : f32) : Z :=
  let m := f32_magnitude c in
  let exponent := m / 8388608 in
  let fraction := m mod 8388608 in
  let significand := if exponent =? 0 then fraction else 8388608 + fraction in
  let k := 150 - Z.max exponent 1 in
  (2 * significand * CLAIM_CONFIDENCE_PARTS_PER_MILLION + 2 ^ k) / 2 ^ (k + 1).

Module ClaimEvidence.

Record t := mk {
  claim_id : Digest.t;
  subject_id : option Digest.t;
  predicate_id : Digest.t;
  object_id : option Digest.t;
  polarity : ClaimPolarity;
  modality : ClaimModality;
  condition_count : Z;
  attributed : bool;
  evidence_spans : list SourceSpan.t;
  confidence_ppm : Z
}.

(** [ClaimEvidence::from_canonical]. *)
Definition from_canonical (claim_id : Digest.t) (subject_id : option Digest.t)
    (predicate_id : Digest.t) (object_id : option Digest.t) (polarity : ClaimPolarity)
    (modality : ClaimModality) (condition_count : Z) (attributed : bool)
    (evidence_spans : list SourceSpan.t) (confidence_ppm : Z) : Result ClaimEvidenceError t :=
  if CLAIM_CONFIDENCE_PARTS_PER_MILLION <? confidence_ppm then Err ClaimInvalidConfidence
  else if (vlen evidence_spans =? 0) || (MAX_EVIDENCE_SPANS_PER_CLAIM <? vlen evidence_spans)
  then Err InvalidSpanCount
  else if existsb SourceSpan.is_empty evidence_spans then Err EmptySpan
  else
    let evidence_spans := sort_by span_le evidence_spans in
    if has_equal_neighbours evidence_spans then Err DuplicateSpan
    else Ok (mk claim_id subject_id predicate_id object_id polarity modality condition_count
               attributed evidence_spans confidence_ppm).

(** [ClaimEvidence::new]. *)
Definition new (claim_id : Digest.t) (subject_id : option Digest.t)
    (predicate_id : Digest.t) (object_id : option Digest.t) (polarity : ClaimPolarity)
    (modality : ClaimModality) (condition_count : Z) (attributed : bool)
    (evidence_spans : list SourceSpan.t) (confidence : f32) : Result ClaimEvidenceError t :=
  if negb (in_unit_interval confidence) then Err ClaimInvalidConfidence
  else from_canonical claim_id subject_id predicate_id object_id polarity modality
         condition_count attributed evidence_spans (ppm_of_f32 confidence).

End ClaimEvidence.

(** ** The canonical encoding *)

(** [to_be_bytes] of an integer of [n] bytes. *)
Fixpoint be_bytes (n : nat) (v : Z) : bytes :=
  match n with O => [] | S n' => be_bytes n' (v / 256) ++ [v mod 256] end.

(** The bytes [append_part] appends. *)
Definition append_part (value : bytes) : bytes := be_bytes 8 (vlen value) ++ value.

(** The bytes [append_digest] appends. *)
Definition append_digest (value : option Digest.t) : bytes :=
  match value with
  | Some d => 1 :: append_part (as_bytes (Digest.as_str d))
  | None => [0]
  end.

Definition status_byte (s : ClaimExtractionStatus) : Z :=
  match s with Complete => 0 | Partial => 1 | StatusAbstained => 2 | StatusFailed => 3 end.
Definition polarity_byte (p : ClaimPolarity) : Z :=
  match p with Affirmed => 0 | Negated => 1 | PolarityUnknown => 2 end.
Definition modality_byte (m : ClaimModality) : Z :=
  match m with
  | Asserted => 0 | Required => 1 | Permitted => 2 | Possible => 3 | Conditional => 4
  | ModalityUnknown => 5
  end.

Definition span_bytes (s : SourceSpan.t) : bytes :=
  be_bytes 8 (SourceSpan.start s) ++ be_bytes 8 (SourceSpan.end_ s).

(** The body of the loop over the claims. *)
Definition claim_bytes (c : ClaimEvidence.t) : bytes :=
  append_part (as_bytes (Digest.as_str (ClaimEvidence.claim_id c)))
  ++ append_digest (ClaimEvidence.subject_id c)
  ++ append_part (as_bytes (Digest.as_str (ClaimEvidence.predicate_id c)))
  ++ append_digest (ClaimEvidence.object_id c)
  ++ [polarity_byte (ClaimEvidence.polarity c)]
  ++ [modality_byte (ClaimEvidence.modality c)]
  ++ be_bytes 2 (ClaimEvidence.condition_count c)
  ++ [if ClaimEvidence.attributed c then 1 else 0]
  ++ be_bytes 4 (ClaimEvidence.confidence_ppm c)
  ++ be_bytes 8 (vlen (ClaimEvidence.evidence_spans c))
  ++ concat (map span_bytes (ClaimEvidence.evidence_spans c)).

(** The buffer [evidence_digest] hashes. *)
Definition evidence_bytes (manifest : Digest.t) (status : ClaimExtractionStatus)
    (confidence_ppm : Z) (u : RewriteUnitId.t) (text_digest : Digest.t) (text_bytes : Z)
    (claims : list ClaimEvidence.t) : bytes :=
  be_bytes 4 CLAIM_EVIDENCE_SCHEMA_VERSION
  ++ append_part (as_bytes (Digest.as_str manifest))
  ++ [status_byte status]
  ++ be_bytes 4 confidence_ppm
  ++ append_part (as_bytes (RewriteUnitId.as_str u))
  ++ append_part (as_bytes (Digest.as_str text_digest))
  ++ be_bytes 8 text_bytes
  ++ be_bytes 8 (vlen claims)
  ++ concat (map claim_bytes claims).

(** [evidence_digest]. *)
Definition evidence_digest_of `{Sha256} (manifest : Digest.t) (status : ClaimExtractionStatus)
    (confidence_ppm : Z) (u : RewriteUnitId.t) (text_digest : Digest.t) (text_bytes : Z)
    (claims : list ClaimEvidence.t) : Digest.t :=
  sha256 (evidence_bytes manifest status confidence_ppm u text_digest text_bytes claims).

(** ** Evidence sets *)

(** [valid_component]. *)
Definition valid_component (value : text) : bool :=
  negb (slen value =? 0) && (slen value <=? MAX_EXTRACTOR_ID_BYTES)
  && forallb (fun b => is_ascii_alphanumeric b
                       || ((b =? 46) || (b =? 45) || (b =? 95) || (b =? 43) || (b =? 58)))
       (as_bytes value).

Definition claim_le (a b : ClaimEvidence.t) : bool :=
  match str_cmp (Digest.as_str (ClaimEvidence.claim_id a))
                (Digest.as_str (ClaimEvidence.claim_id b)) with
  | Gt => false | _ => true
  end.

Definition invalid_source_span (s : text) (span : SourceSpan.t) : bool :=
  (slen s <? SourceSpan.end_ span)
  || negb (is_char_boundary s (SourceSpan.start span))
  || negb (is_char_boundary s (SourceSpan.end_ span)).

(** The loop of [ClaimEvidenceSet::new] over the sorted claims. *)
Fixpoint check_claims (s : text) (identities : gset Digest.t) (claims : list ClaimEvidence.t)
  : Result ClaimEvidenceError unit :=
  match claims with
  | [] => Ok tt
  | c :: claims' =>
      if bool_decide (ClaimEvidence.claim_id c ∈ identities) then Err DuplicateClaim
      else if existsb (invalid_source_span s) (ClaimEvidence.evidence_spans c)
      then Err InvalidSourceSpan
      else check_claims s ({[ClaimEvidence.claim_id c]} ∪ identities) claims'
  end.

Module ClaimEvidenceSet.

Record t := mk {
  schema_version : Z;
  extractor_id : text;
  extractor_version : text;
  extractor_manifest_digest : Digest.t;
  extraction_status : ClaimExtractionStatus;
  minimum_confidence_ppm : Z;
  unit_id : RewriteUnitId.t;
  text_digest : Digest.t;
  text_bytes : Z;
  evidence_digest : Digest.t;
  claims : list ClaimEvidence.t
}.

(** [ClaimEvidenceSet::new]. *)
Definition new `{Sha256} (extractor_id extractor_version : text)
    (extractor_manifest_digest : Digest.t) (extraction_status : ClaimExtractionStatus)
    (minimum_confidence_ppm : Z) (unit_id : RewriteUnitId.t) (s : text)
    (claims : list ClaimEvidence.t) : Result ClaimEvidenceError t :=
  if negb (valid_component extractor_id) || negb (valid_component extractor_version)
  then Err InvalidExtractorIdentity
  else if CLAIM_CONFIDENCE_PARTS_PER_MILLION <? minimum_confidence_ppm
  then Err InvalidConfidenceThreshold
  else if MAX_CLAIMS_PER_UNIT <? vlen claims then Err TooManyClaims
  else
    let claims := sort_by claim_le claims in
    _ ← check_claims s ∅ claims;
    let text_digest := sha256 (as_bytes s) in
    Ok (mk CLAIM_EVIDENCE_SCHEMA_VERSION extractor_id extractor_version
          extractor_manifest_digest extraction_status minimum_confidence_ppm unit_id
          text_digest (slen s)
          (evidence_digest_of extractor_manifest_digest extraction_status
             minimum_confidence_ppm unit_id text_digest (slen s) claims)
          claims).

End ClaimEvidenceSet.

(** ** Comparison counts *)

Definition CLAIM_COMPARISON_SCHEMA_VERSION : Z := 1.
Definition CLAIM_COMPARATOR_VERSION : Z := 1.

Module ClaimComparisonCounts.

Record t := mk {
  source_claims : Z;
  candidate_claims : Z;
  aligned_claims : Z;
  missing_claims : Z;
  novel_claims : Z;
  polarity_conflicts : Z;
  modality_conflicts : Z;
  relationship_conflicts : Z;
  source_unknown_polarity : Z;
  candidate_unknown_polarity : Z;
  source_unknown_modality : Z;
  candidate_unknown_modality : Z;
  source_below_confidence : Z;
  candidate_below_confidence : Z
}.

(** [ClaimComparisonCounts::validate]. *)
Definition validate (c : t) : Result ClaimEvidenceError t :=
  maximum ← ok_or (try_from u32_max MAX_CLAIMS_PER_UNIT) InvalidComparison;
  source_accounted ←
    ok_or (checked_add u32_max (aligned_claims c) (missing_claims c)) InvalidComparison;
  candidate_accounted ←
    ok_or (checked_add u32_max (aligned_claims c) (novel_claims c)) InvalidComparison;
  let source_subsets :=
    [source_unknown_polarity c; source_unknown_modality c; source_below_confidence c] in
  let candidate_subsets :=
    [candidate_unknown_polarity c; candidate_unknown_modality c; candidate_below_confidence c] in
  if (maximum <? source_claims c)
     || (maximum <? candidate_claims c)
     || negb (source_accounted =? source_claims c)
     || negb (candidate_accounted =? candidate_claims c)
     || (aligned_claims c <? polarity_conflicts c)
     || (aligned_claims c <? modality_conflicts c)
     || (aligned_claims c <? relationship_conflicts c)
     || existsb (fun count => source_claims c <? count) source_subsets
     || existsb (fun count => candidate_claims c <? count) candidate_subsets
  then Err InvalidComparison
  else Ok c.

(** [ClaimComparisonCounts::has_uncertainty]. *)
Definition has_uncertainty (c : t) : bool :=
  (0 <? source_unknown_polarity c) || (0 <? candidate_unknown_polarity c)
  || (0 <? source_unknown_modality c) || (0 <? candidate_unknown_modality c)
  || (0 <? source_below_confidence c) || (0 <? candidate_below_confidence c).

(** [ClaimComparisonCounts::has_difference]. *)
Definition has_difference (c : t) : bool :=
  (0 <? missing_claims c) || (0 <? novel_claims c) || (0 <? polarity_conflicts c)
  || (0 <? modality_conflicts c) || (0 <? relationship_conflicts c).

End ClaimComparisonCounts.

Module ClaimComparisonEvidence.

Record t := mk {
  schema_version : Z;
  claim_schema_version : Z;
  comparator_version : Z;
  extractor_manifest_digest : Digest.t;
  unit_id : RewriteUnitId.t;
  source_text_digest : Digest.t;
  source_text_bytes : Z;
  candidate_text_digest : Digest.t;
  candidate_text_bytes : Z;
  source_evidence_digest : Digest.t;
  candidate_evidence_digest : Digest.t;
  minimum_confidence_ppm : Z;
  counts : ClaimComparisonCounts.t
}.

(** [ClaimComparisonEvidence::validate]. *)
Definition validate (e : t) : Result ClaimEvidenceError unit :=
  if negb (schema_version e =? CLAIM_COMPARISON_SCHEMA_VERSION)
     || negb (claim_schema_version e =? CLAIM_EVIDENCE_SCHEMA_VERSION)
     || negb (comparator_version e =? CLAIM_COMPARATOR_VERSION)
     || (CLAIM_CONFIDENCE_PARTS_PER_MILLION <? minimum_confidence_ppm e)
     || ((0 <? source_text_bytes e) && (ClaimComparisonCounts.source_claims (counts e) =? 0))
  then Err InvalidComparison
  else
    _ ← ClaimComparisonCounts.validate (counts e);
    Ok tt.

(** [ClaimComparisonEvidence::new]. *)
Definition new (extractor_manifest_digest : Digest.t) (unit_id : RewriteUnitId.t)
    (source_text_digest : Digest.t) (source_text_bytes : Z)
    (candidate_text_digest : Digest.t) (candidate_text_bytes : Z)
    (source_evidence_digest candidate_evidence_digest : Digest.t)
    (minimum_confidence_ppm : Z) (counts : ClaimComparisonCounts.t)
  : Result ClaimEvidenceError t :=
  let evidence :=
    mk CLAIM_COMPARISON_SCHEMA_VERSION CLAIM_EVIDENCE_SCHEMA_VERSION CLAIM_COMPARATOR_VERSION
       extractor_manifest_digest unit_id source_text_digest source_text_bytes
       candidate_text_digest candidate_text_bytes source_evidence_digest
       candidate_evidence_digest minimum_confidence_ppm counts in
  _ ← validate evidence;
  Ok evidence.

End ClaimComparisonEvidence.

(** ** Lemmas: encodings that can be read back *)

(** An encoder whose output determines its input and where it ends. *)
Definition decodable {A} (P : A -> Prop) (enc : A -> bytes) : Prop :=
  forall a b x y, P a -> P b -> enc a ++ x = enc b ++ y -> a = b /\ x = y.

Lemma be_bytes_length n v : length (be_bytes n v) = n.
Proof. revert v. induction n as [|n IH]; intros v; cbn; [done|]. rewrite length_app, IH. cbn. lia. Qed.

Lemma be_bytes_inj n v w :
  0 <= v < 256 ^ Z.of_nat n -> 0 <= w < 256 ^ Z.of_nat n -> be_bytes n v = be_bytes n w -> v = w.
Proof.
  revert v w. induction n as [|n IH]; intros v w Hv Hw; cbn [be_bytes]; [cbn in *; lia|].
  rewrite Nat2Z.inj_succ, Z.pow_succ_r in Hv, Hw by lia.
  intros H. apply app_inj_tail in H as [H Hm].
  apply IH in H; [|split; [apply Z.div_pos|apply Z.div_lt_upper_bound]; lia..].
  rewrite (Z.div_mod v 256), (Z.div_mod w 256) by lia. by rewrite H, Hm.
Qed.

Lemma be_bytes_decodable n : decodable (fun v => 0 <= v < 256 ^ Z.of_nat n) (be_bytes n).
Proof.
  intros v w x y Hv Hw H. apply app_inj_1 in H as [H ->]; [|by rewrite !be_bytes_length].
  split; [by apply (be_bytes_inj n)|done].
Qed.

Lemma append_part_decodable : decodable (fun v => vlen v < 2 ^ 64) append_part.
Proof.
  intros v w x y Hv Hw. unfold append_part. rewrite <- !app_assoc. intros H.
  pose proof (vlen_nonneg v). pose proof (vlen_nonneg w).
  apply be_bytes_decodable in H as [Hl H]; [|cbn; lia..].
  apply app_inj_1 in H; [done|]. unfold vlen in Hl. lia.
Qed.

Lemma concat_decodable {A} (P : A -> Prop) (enc : A -> bytes) l k x y :
  decodable P enc -> Forall P l -> Forall P k -> length l = length k ->
  concat (map enc l) ++ x = concat (map enc k) ++ y -> l = k /\ x = y.
Proof.
  intros Hd Hl. revert k. induction Hl as [|a l Ha Hl IH]; intros k Hk Hlen; destruct k as [|b k];
    try done. cbn. rewrite <- !app_assoc. inv Hk. intros H.
  apply Hd in H as [-> H]; [|done..]. apply IH in H as [-> ->]; [done|done|]. cbn in Hlen. lia.
Qed.

(** ASCII text is its own encoding. *)
Definition is_ascii_text (s : text) : Prop := Forall (fun c => 0 <= c < 128) s.

Lemma as_bytes_ascii s : is_ascii_text s -> as_bytes s = s.
Proof.
  induction 1 as [|c s Hc Hs IH]; [done|]. unfold as_bytes in *. cbn. rewrite IH.
  unfold encode_char. by destruct (Z.ltb_spec c 128); [|lia].
Qed.

(** The invariants of the Rust types that occur in an encoded claim. *)
Definition digest_ok (d : Digest.t) : Prop :=
  is_ascii_text (Digest.as_str d) /\ vlen (Digest.as_str d) = 64.
Definition unit_ok (u : RewriteUnitId.t) : Prop :=
  is_ascii_text (RewriteUnitId.as_str u) /\ vlen (RewriteUnitId.as_str u) < 2 ^ 64.
Definition is_u64 (v : Z) : Prop := 0 <= v < 2 ^ 64.
Definition span_typed (s : SourceSpan.t) : Prop :=
  is_u64 (SourceSpan.start s) /\ is_u64 (SourceSpan.end_ s).

Record claim_typed (c : ClaimEvidence.t) : Prop := {
  ct_claim : digest_ok (ClaimEvidence.claim_id c);
  ct_subject : from_option digest_ok True (ClaimEvidence.subject_id c);
  ct_predicate : digest_ok (ClaimEvidence.predicate_id c);
  ct_object : from_option digest_ok True (ClaimEvidence.object_id c);
  ct_conditions : 0 <= ClaimEvidence.condition_count c < 2 ^ 16;
  ct_confidence : 0 <= ClaimEvidence.confidence_ppm c < 2 ^ 32;
  ct_count : vlen (ClaimEvidence.evidence_spans c) < 2 ^ 64;
  ct_spans : Forall span_typed (ClaimEvidence.evidence_spans c)
}.

Lemma digest_decodable : decodable digest_ok (fun d => append_part (as_bytes (Digest.as_str d))).
Proof.
  intros [a] [b] x y [Ha La] [Hb Lb]. cbn [Digest.as_str RewriteUnitId.as_str] in *. rewrite !as_bytes_ascii by done. intros H.
  apply append_part_decodable in H as [-> ->]; [done|lia..].
Qed.

Lemma unit_decodable : decodable unit_ok (fun u => append_part (as_bytes (RewriteUnitId.as_str u))).
Proof.
  intros [a] [b] x y [Ha La] [Hb Lb]. cbn [Digest.as_str RewriteUnitId.as_str] in *. rewrite !as_bytes_ascii by done. intros H.
  apply append_part_decodable in H as [-> ->]; done.
Qed.

Lemma byte_decodable (v w : Z) x y : [v] ++ x = [w] ++ y -> v = w /\ x = y.
Proof. cbn. intros H. by injection H. Qed.

Lemma append_digest_decodable : decodable (from_option digest_ok True) append_digest.
Proof.
  intros [a|] [b|] x y Ha Hb; cbn [append_digest app]; intros H; try done.
  - apply (byte_decodable 1 1) in H as [_ H]. apply digest_decodable in H as [-> ->]; done.
  - by apply (byte_decodable 0 0) in H as [_ ->].
Qed.

Lemma span_decodable : decodable span_typed span_bytes.
Proof.
  intros [a1 a2] [b1 b2] x y [Ha1 Ha2] [Hb1 Hb2] H. unfold span_bytes, is_u64 in *.
  cbn [SourceSpan.start SourceSpan.end_] in *. rewrite <- !app_assoc in H. apply be_bytes_decodable in H as [-> H]; [|cbn; lia..].
  apply be_bytes_decodable in H as [-> ->]; [done|cbn; lia..].
Qed.

(** Split an equality of encodings at its first field. *)
#[local] Ltac read_field L :=
  match goal with
  | H : _ ++ _ = _ ++ _ |- _ =>
      let E := fresh "E" in apply L in H as [E H]; [|try done; cbn; lia..]
  end.

Lemma claim_decodable : decodable claim_typed claim_bytes.
Proof.
  intros a b x y [] [] H. unfold claim_bytes in H. rewrite <- !app_assoc in H.
  destruct a, b.
  cbn [ClaimEvidence.claim_id ClaimEvidence.subject_id ClaimEvidence.predicate_id
    ClaimEvidence.object_id ClaimEvidence.polarity ClaimEvidence.modality
    ClaimEvidence.condition_count ClaimEvidence.attributed ClaimEvidence.evidence_spans
    ClaimEvidence.confidence_ppm] in *.
  read_field digest_decodable. read_field append_digest_decodable.
  read_field digest_decodable. read_field append_digest_decodable.
  apply byte_decodable in H as [Ep H]. apply byte_decodable in H as [Em H].
  read_field (be_bytes_decodable 2). apply byte_decodable in H as [Ea H].
  read_field (be_bytes_decodable 4).
  apply be_bytes_decodable in H as [El H];
    [|pose proof (vlen_nonneg evidence_spans); cbn; lia|pose proof (vlen_nonneg evidence_spans0); cbn; lia].
  apply (concat_decodable span_typed) in H as [-> ->];
    [|apply span_decodable|done|done|unfold vlen in El; lia].
  destruct polarity, polarity0; try done; destruct modality, modality0; try done;
    destruct attributed, attributed0; try done; by subst.
Qed.

(** The buffer that is hashed determines everything it covers. *)
Lemma evidence_bytes_inj m m' s s' p p' u u' d d' n n' cs cs' :
  digest_ok m -> digest_ok m' -> 0 <= p < 2 ^ 32 -> 0 <= p' < 2 ^ 32 -> unit_ok u -> unit_ok u' ->
  digest_ok d -> digest_ok d' -> is_u64 n -> is_u64 n' ->
  Forall claim_typed cs -> Forall claim_typed cs' -> vlen cs < 2 ^ 64 -> vlen cs' < 2 ^ 64 ->
  evidence_bytes m s p u d n cs = evidence_bytes m' s' p' u' d' n' cs' ->
  m = m' /\ s = s' /\ p = p' /\ u = u' /\ d = d' /\ n = n' /\ cs = cs'.
Proof.
  intros Hm Hm' Hp Hp' Hu Hu' Hd Hd' Hn Hn' Hc Hc' Hl Hl' H. unfold evidence_bytes, is_u64 in *.
  apply be_bytes_decodable in H as [_ H]; [|done..].
  read_field digest_decodable. apply byte_decodable in H as [Es H].
  read_field (be_bytes_decodable 4). read_field unit_decodable. read_field digest_decodable.
  read_field (be_bytes_decodable 8).
  pose proof (vlen_nonneg cs). pose proof (vlen_nonneg cs').
  read_field (be_bytes_decodable 8).
  rewrite <- (app_nil_r (concat (map claim_bytes cs))), <- (app_nil_r (concat (map claim_bytes cs'))) in H.
  apply (concat_decodable claim_typed) in H as [-> _];
    [|apply claim_decodable|done|done|unfold vlen in *; lia].
  split_and!; try done. by destruct s, s'.
Qed.

(** ** Lemmas: construction *)

Lemma str_cmp_refl a : str_cmp a a = Eq.
Proof. induction a as [|c a IH]; cbn; [done|]. by rewrite Z.compare_refl. Qed.

Lemma str_cmp_eq a b : str_cmp a b = Eq -> a = b.
Proof.
  revert b. induction a as [|c a IH]; intros [|d b]; cbn; try done.
  destruct (c ?= d) eqn:E; try done. apply Z.compare_eq in E as ->. intros H. f_equal. auto.
Qed.

Lemma str_cmp_antisym a b : str_cmp b a = CompOpp (str_cmp a b).
Proof.
  revert b. induction a as [|c a IH]; intros [|d b]; cbn; try done.
  rewrite Z.compare_antisym. destruct (c ?= d); cbn; auto.
Qed.

Lemma str_cmp_trans a b c : str_cmp a b <> Gt -> str_cmp b c <> Gt -> str_cmp a c <> Gt.
Proof.
  revert b c. induction a as [|x a IH]; intros [|y b] [|z c]; cbn; try done.
  destruct (Z.compare_spec x y), (Z.compare_spec y z), (Z.compare_spec x z); subst; try done; try lia.
  apply IH.
Qed.

Lemma claim_le_total a b : claim_le a b = true \/ claim_le b a = true.
Proof.
  unfold claim_le. rewrite (str_cmp_antisym (Digest.as_str (ClaimEvidence.claim_id a))).
  destruct (str_cmp _ _); cbn; auto.
Qed.

Lemma claim_le_trans a b c : claim_le a b = true -> claim_le b c = true -> claim_le a c = true.
Proof.
  unfold claim_le. pose proof (str_cmp_trans (Digest.as_str (ClaimEvidence.claim_id a))
    (Digest.as_str (ClaimEvidence.claim_id b)) (Digest.as_str (ClaimEvidence.claim_id c))).
  repeat case_match; naive_solver.
Qed.

Lemma check_claims_ok s seen cs :
  check_claims s seen cs = Ok tt <->
  NoDup (map ClaimEvidence.claim_id cs) /\
  Forall (fun c => ClaimEvidence.claim_id c ∉ seen /\
    existsb (invalid_source_span s) (ClaimEvidence.evidence_spans c) = false) cs.
Proof.
  revert seen. induction cs as [|c cs IH]; intros seen; cbn.
  { split; [split; constructor|done]. }
  rewrite NoDup_cons, Forall_cons. case_bool_decide; [naive_solver|].
  destruct (existsb _ _) eqn:E; [naive_solver|]. rewrite IH.
  assert (Hmap : ClaimEvidence.claim_id c ∉ map ClaimEvidence.claim_id cs <->
    Forall (fun d => ClaimEvidence.claim_id d <> ClaimEvidence.claim_id c) cs).
  { rewrite Forall_forall, list_elem_of_fmap. naive_solver. }
  rewrite Hmap, !Forall_forall. split.
  - intros (Hnd & Hall). split_and!; try done; intros d Hd; destruct (Hall d Hd); set_solver.
  - intros ((Hne & Hnd) & _ & Hall). split; [done|]. intros d Hd.
    destruct (Hall d Hd). specialize (Hne d Hd). set_solver.
Qed.

Lemma check_claims_no_panic s seen cs : check_claims s seen cs <> Panic.
Proof. revert seen. induction cs as [|c cs IH]; intros seen; cbn; [done|]. by repeat case_match. Qed.

Lemma span_le_total a b : span_le a b = true \/ span_le b a = true.
Proof. unfold span_le. destruct a, b; cbn. rewrite !orb_true_iff, !andb_true_iff. lia. Qed.

Lemma span_le_trans a b c : span_le a b = true -> span_le b c = true -> span_le a c = true.
Proof. unfold span_le. destruct a, b, c; cbn. rewrite !orb_true_iff, !andb_true_iff. lia. Qed.

Lemma span_le_antisym a b : span_le a b = true -> span_le b a = true -> a = b.
Proof.
  unfold span_le. destruct a, b; cbn. rewrite !orb_true_iff, !andb_true_iff. intros.
  f_equal; lia.
Qed.

(** In a sorted list equal spans are neighbours. *)
Lemma equal_neighbours_spec l :
  StronglySorted (fun a b => span_le a b = true) l ->
  has_equal_neighbours l = false <-> NoDup l.
Proof.
  induction 1 as [|a l Hl IH Ha]; [split; [constructor|done]|].
  rewrite NoDup_cons, <- IH. destruct l as [|b l].
  { cbn. split; [|done]. split; [apply not_elem_of_nil|done]. }
  change (has_equal_neighbours (a :: b :: l))
    with (bool_decide (a = b) || has_equal_neighbours (b :: l)).
  rewrite orb_false_iff, bool_decide_eq_false.
  inv Ha. apply StronglySorted_inv in Hl as [_ Hb]. rewrite Forall_forall in Hb.
  split; [|set_solver]. intros [Hab ?]. split; [|done].
  rewrite elem_of_cons. intros [->|Hin]; [done|]. apply Hab, span_le_antisym; auto.
Qed.

(** A canonical confidence is at most one million parts. *)
Lemma ppm_of_f32_bounds c :
  in_unit_interval c = true -> 0 <= ppm_of_f32 c <= CLAIM_CONFIDENCE_PARTS_PER_MILLION.
Proof.
  intros H. apply in_unit_valid_key in H.
  assert (Hm : 0 <= f32_magnitude c <= f32_one).
  { unfold value_key in H. change (f32_sign f32_one) with false in H.
    change (f32_magnitude f32_one) with f32_one in H.
    pose proof (magnitude_bounds c). unfold f32_one in *. destruct (f32_sign c); lia. }
  unfold ppm_of_f32, CLAIM_CONFIDENCE_PARTS_PER_MILLION, f32_one in *.
  set (m := f32_magnitude c) in *. set (e := m / 8388608). set (f := m mod 8388608).
  assert (He : 0 <= e <= 127 /\ 0 <= f < 8388608 /\ (e = 127 -> f = 0)).
  { subst e f. Z.to_euclidean_division_equations. lia. }
  assert (Hk : 23 <= 150 - Z.max e 1) by lia.
  assert (Hs : 0 <= (if e =? 0 then f else 8388608 + f) <= 2 ^ (150 - Z.max e 1)).
  { destruct (Z.eqb_spec e 0).
    - assert (2 ^ 23 <= 2 ^ (150 - Z.max e 1)) by (apply Z.pow_le_mono_r; lia). lia.
    - destruct (decide (e = 127)) as [E|]; [rewrite E; destruct He as (_ & _ & ->); [done|cbn; lia]|].
      assert (2 ^ 24 <= 2 ^ (150 - Z.max e 1)) by (apply Z.pow_le_mono_r; lia). lia. }
  revert Hs. generalize (if e =? 0 then f else 8388608 + f). intros g Hg.
  rewrite Z.pow_add_r by lia. change (2 ^ 1) with 2.
  assert (0 < 2 ^ (150 - Z.max e 1)) by (apply Z.pow_pos_nonneg; lia).
  revert Hg H0. generalize (2 ^ (150 - Z.max e 1)). intros q Hg Hq. split.
  - apply Z.div_pos; nia.
  - apply Z.lt_succ_r, Z.div_lt_upper_bound; [lia|]. nia.
Qed.

(** What a constructed set guarantees: the claims of the caller in the
    order of their identities, without repetition, each span of each claim
    inside the text on character boundaries. *)
Lemma set_new_ok `{Sha256} eid ev m st p u s cs set :
  ClaimEvidenceSet.new eid ev m st p u s cs = Ok set ->
  valid_component eid = true /\ valid_component ev = true /\
  p <= CLAIM_CONFIDENCE_PARTS_PER_MILLION /\ vlen cs <= MAX_CLAIMS_PER_UNIT /\
  NoDup (map ClaimEvidence.claim_id cs) /\
  Forall (fun c => existsb (invalid_source_span s) (ClaimEvidence.evidence_spans c) = false) cs /\
  let cs' := sort_by claim_le cs in let d := sha256 (as_bytes s) in
  set = ClaimEvidenceSet.mk CLAIM_EVIDENCE_SCHEMA_VERSION eid ev m st p u d (slen s)
          (evidence_digest_of m st p u d (slen s) cs') cs'.
Proof.
  unfold ClaimEvidenceSet.new.
  destruct (valid_component eid), (valid_component ev); cbn [negb orb]; try done.
  destruct (Z.ltb_spec CLAIM_CONFIDENCE_PARTS_PER_MILLION p); [done|].
  destruct (Z.ltb_spec MAX_CLAIMS_PER_UNIT (vlen cs)); [done|]. intros E. binds.
  destruct x. apply check_claims_ok in E0 as [Hnd Hall].
  pose proof (sort_by_perm claim_le cs) as Hp.
  split_and!; try done.
  - by rewrite <- Hp.
  - rewrite Hp in Hall. eapply Forall_impl; [exact Hall|]. by intros c [].
Qed.

Lemma set_new_perm `{Sha256} eid ev m st p u s cs cs' set :
  cs ≡ₚ cs' -> ClaimEvidenceSet.new eid ev m st p u s cs = Ok set ->
  ClaimEvidenceSet.new eid ev m st p u s cs' = Ok set.
Proof.
  intros Hp Hset. destruct (set_new_ok _ _ _ _ _ _ _ _ _ Hset) as (_ & _ & _ & _ & Hnd & _).
  rewrite <- Hset. unfold ClaimEvidenceSet.new. unfold vlen. rewrite <- (Permutation_length Hp).
  rewrite (sort_by_unique claim_le claim_le_total claim_le_trans cs cs'); [done| |done].
  intros x y Hx Hy Hxy Hyx. unfold claim_le in *.
  rewrite (str_cmp_antisym (Digest.as_str (ClaimEvidence.claim_id x))) in Hyx.
  destruct (str_cmp _ _) eqn:E; try done. apply str_cmp_eq in E.
  assert (Hid : ClaimEvidence.claim_id x = ClaimEvidence.claim_id y).
  { destruct (ClaimEvidence.claim_id x), (ClaimEvidence.claim_id y). cbn in E. congruence. }
  apply list_elem_of_lookup in Hx as [i Hi]. apply list_elem_of_lookup in Hy as [j Hj].
  assert (i = j) as ->.
  { apply (NoDup_lookup _ i j (ClaimEvidence.claim_id x) Hnd); rewrite list_lookup_fmap.
    - by rewrite Hi.
    - rewrite Hj. cbn. by rewrite Hid. }
  congruence.
Qed.

(** ** Theorems *)

(** Building a set does not depend on the order in which the extractor
    lists its claims: whenever one order is accepted every other order gives
    the same set, byte for byte, and with it the same evidence digest. *)
Theorem evidence_set_canonical `{Sha256} (extractor_id extractor_version : text)
    (manifest : Digest.t) (status : ClaimExtractionStatus) (ppm : Z) (u : RewriteUnitId.t)
    (s : text) (claims claims' : list ClaimEvidence.t) (set : ClaimEvidenceSet.t) :
  claims ≡ₚ claims' ->
  ClaimEvidenceSet.new extractor_id extractor_version manifest status ppm u s claims = Ok set ->
  ClaimEvidenceSet.new extractor_id extractor_version manifest status ppm u s claims' = Ok set /\
  StronglySorted (fun a b => claim_le a b = true) (ClaimEvidenceSet.claims set) /\
  NoDup (map ClaimEvidence.claim_id (ClaimEvidenceSet.claims set)).
Proof.
  intros Hp Hset. split; [by apply (set_new_perm _ _ _ _ _ _ _ claims)|].
  apply set_new_ok in Hset as (_ & _ & _ & _ & Hnd & _ & ->). cbn. split.
  - apply sort_by_sorted; [apply claim_le_total|apply claim_le_trans].
  - by rewrite sort_by_perm.
Qed.

(** The bytes a set's digest was computed from. *)
Definition set_bytes (s : ClaimEvidenceSet.t) : bytes :=
  evidence_bytes (ClaimEvidenceSet.extractor_manifest_digest s) (ClaimEvidenceSet.extraction_status s)
    (ClaimEvidenceSet.minimum_confidence_ppm s) (ClaimEvidenceSet.unit_id s)
    (ClaimEvidenceSet.text_digest s) (ClaimEvidenceSet.text_bytes s) (ClaimEvidenceSet.claims s).

(** The evidence digest of a set binds it to everything it was built
    from: two sets with the same digest have the same extractor manifest,
    status, threshold, unit, text digest, text length and claims, unless
    their two encodings are distinct inputs on which SHA-256 collides. *)
Theorem evidence_digest_binds `{Sha256} (i1 v1 i2 v2 : text) (m1 m2 : Digest.t)
    (st1 st2 : ClaimExtractionStatus) (p1 p2 : Z) (u1 u2 : RewriteUnitId.t) (t1 t2 : text)
    (c1 c2 : list ClaimEvidence.t) (s1 s2 : ClaimEvidenceSet.t) :
  ClaimEvidenceSet.new i1 v1 m1 st1 p1 u1 t1 c1 = Ok s1 ->
  ClaimEvidenceSet.new i2 v2 m2 st2 p2 u2 t2 c2 = Ok s2 ->
  digest_ok m1 -> digest_ok m2 -> 0 <= p1 -> 0 <= p2 -> unit_ok u1 -> unit_ok u2 ->
  is_u64 (slen t1) -> is_u64 (slen t2) -> Forall claim_typed c1 -> Forall claim_typed c2 ->
  ClaimEvidenceSet.evidence_digest s1 = ClaimEvidenceSet.evidence_digest s2 ->
  (m1 = m2 /\ st1 = st2 /\ p1 = p2 /\ u1 = u2 /\ slen t1 = slen t2 /\
   ClaimEvidenceSet.text_digest s1 = ClaimEvidenceSet.text_digest s2 /\
   ClaimEvidenceSet.claims s1 = ClaimEvidenceSet.claims s2 /\ c1 ≡ₚ c2) \/
  collision (set_bytes s1) (set_bytes s2).
Proof.
  intros Hs1 Hs2 Hm1 Hm2 Hp1 Hp2 Hu1 Hu2 Hl1 Hl2 Hc1 Hc2.
  apply set_new_ok in Hs1 as (_ & _ & Hq1 & Hn1 & _ & _ & ->).
  apply set_new_ok in Hs2 as (_ & _ & Hq2 & Hn2 & _ & _ & ->). cbn.
  unfold evidence_digest_of. set (b1 := evidence_bytes m1 _ _ _ _ _ _).
  set (b2 := evidence_bytes m2 _ _ _ _ _ _). intros Heq.
  destruct (decide (b1 = b2)) as [E|]; [left|right; split; done].
  unfold CLAIM_CONFIDENCE_PARTS_PER_MILLION, MAX_CLAIMS_PER_UNIT in *.
  assert (Hsha : forall b, digest_ok (sha256 b)).
  { intros b. destruct (sha256_hex_format b) as [Hl Hx]. unfold digest_ok, sha256, vlen. cbn.
    split; [|lia]. unfold is_ascii_text. rewrite forallb_forall in Hx. rewrite Forall_forall.
    intros c Hc. apply list_elem_of_In, Hx in Hc. unfold Digest.is_hex_digit, is_ascii_digit in Hc.
    rewrite orb_true_iff, !in_range_true in Hc. lia. }
  apply evidence_bytes_inj in E as (-> & -> & -> & -> & -> & -> & Hcs);
    try done; try lia; try by rewrite sort_by_perm.
  - split_and!; try done. by rewrite <- (sort_by_perm claim_le c1), Hcs, sort_by_perm.
  - unfold vlen in *. rewrite sort_by_perm. lia.
  - unfold vlen in *. rewrite sort_by_perm. lia.
Qed.

(** The canonical confidence of a claim is a whole number of parts per
    million between zero and one million, so a confidence that passes the
    unit-interval test never fails the canonical bound, and every accepted
    claim has between one and sixteen distinct nonempty spans in order. *)
Theorem claim_new_spans (claim_id : Digest.t) (subject_id : option Digest.t)
    (predicate_id : Digest.t) (object_id : option Digest.t) (polarity : ClaimPolarity)
    (modality : ClaimModality) (condition_count : Z) (attributed : bool)
    (spans : list SourceSpan.t) (confidence : f32) :
  match ClaimEvidence.new claim_id subject_id predicate_id object_id polarity modality
          condition_count attributed spans confidence with
  | Ok c => 0 <= ClaimEvidence.confidence_ppm c <= 1000000 /\
      1 <= vlen (ClaimEvidence.evidence_spans c) <= 16 /\
      ClaimEvidence.evidence_spans c ≡ₚ spans /\ NoDup spans /\
      StronglySorted (fun a b => span_le a b = true) (ClaimEvidence.evidence_spans c) /\
      Forall (fun sp => SourceSpan.is_empty sp = false) spans
  | Err ClaimInvalidConfidence => in_unit_interval confidence = false
  | Err InvalidSpanCount => spans = [] \/ 16 < vlen spans
  | Err EmptySpan => exists sp, sp ∈ spans /\ SourceSpan.is_empty sp = true
  | Err DuplicateSpan => ~ NoDup spans
  | Err _ | Panic => False
  end.
Proof.
  unfold ClaimEvidence.new. destruct (in_unit_interval confidence) eqn:Hc; cbn [negb]; [|done].
  apply ppm_of_f32_bounds in Hc. unfold ClaimEvidence.from_canonical.
  destruct (Z.ltb_spec CLAIM_CONFIDENCE_PARTS_PER_MILLION (ppm_of_f32 confidence)); [lia|].
  destruct (Z.eqb_spec (vlen spans) 0) as [E|]; cbn [orb].
  { left. by destruct spans. }
  destruct (Z.ltb_spec MAX_EVIDENCE_SPANS_PER_CLAIM (vlen spans)) as [Hlt|]; [by right|].
  pose proof (vlen_nonneg spans). unfold MAX_EVIDENCE_SPANS_PER_CLAIM in *.
  destruct (existsb _ spans) eqn:E.
  { apply existsb_exists in E as (sp & Hin & ?). exists sp. by rewrite list_elem_of_In. }
  pose proof (sort_by_perm span_le spans) as Hp.
  pose proof (equal_neighbours_spec _ (sort_by_sorted span_le span_le_total span_le_trans spans)) as Hn.
  destruct (has_equal_neighbours _); rewrite Hp in Hn.
  - intros Hnd. by apply Hn in Hnd.
  - cbn. unfold CLAIM_CONFIDENCE_PARTS_PER_MILLION in *. unfold vlen in *.
    split_and!; try (rewrite Hp; lia); try lia; [done | by apply Hn
      | apply sort_by_sorted; [exact span_le_total | exact span_le_trans] |].
    rewrite Forall_forall. intros sp Hin. apply not_true_iff_false. intros Hsp.
    apply not_true_iff_false in E. apply E, existsb_exists. exists sp. by rewrite <- list_elem_of_In.
Qed.
