(* ===== verification/Evidence.v ===== *)
(** * Gate results, assessments and records ([types/src/validation.rs],
    [types/src/validation/semantic.rs], [types/src/bounded_serde.rs],
    [types/src/record.rs]).

    The evidence attached to a gate, the contract each layer validates, and
    the bounded decoders that rebuild a value from its wire form. *)

From S2P Require Import Prelude Text Float32 Document Rewrite Claims.

Definition MAX_SEMANTIC_EVIDENCE_ITEMS : Z := 32.
Definition MAX_GATES_PER_CANDIDATE : Z := 64.
Definition MAX_GATE_EVIDENCE_CODE_BYTES : Z := 64.
Definition MAX_GATE_EVIDENCE_MESSAGE_BYTES : Z := 256.
Definition MAX_SPAN_FAILURES : Z := 32.

Inductive GateStatus := Pass | Fail | Uncertain | NotApplicable.
#[global] Instance gate_status_eq_dec : EqDecision GateStatus.
Proof. solve_decision. Defined.

Inductive Severity := Info | Warning | Error.
#[global] Instance severity_eq_dec : EqDecision Severity.
Proof. solve_decision. Defined.

Inductive EvidenceContractError :=
| InvalidCode
| InvalidVersion
| InvalidMessage
| InvalidConfidence
| TooManyFindings
| TooManyGates
| InvalidCandidateScope
| InconsistentEligibility
| InvalidClaimComparison (e : ClaimEvidenceError)
| InvalidInvariantSummary
| InvalidSpanFailure
| InconsistentSemanticFinding.

(** ** Invariant counts *)

Module InvariantEvidenceSummary.

Record t := mk {
  declared_terms : Z;
  urls : Z;
  emails : Z;
  numbers : Z;
  total : Z
}.

(** [InvariantEvidenceSummary::validate]. *)
Definition validate (s : t) : Result EvidenceContractError t :=
  observed ← ok_or
    (a ← checked_add u32_max (declared_terms s) (urls s);
     b ← checked_add u32_max a (emails s);
     checked_add u32_max b (numbers s)) InvalidInvariantSummary;
  if negb (observed =? total s) then Err InvalidInvariantSummary else Ok s.

End InvariantEvidenceSummary.

(** ** Text points *)

Inductive SpanChange := Altered | Missing | Added | Moved | Introduced.

(** [str::rfind] of one character: the offset of its last occurrence. *)
Fixpoint rfind_char_from (off c : Z) (s : text) : option Z :=
  match s with
  | [] => None
  | d :: s' =>
      match rfind_char_from (off + len_utf8 d) c s' with
      | Some i => Some i
      | None => if d =? c then Some off else None
      end
  end.
Definition rfind_char (c : Z) (s : text) : option Z := rfind_char_from 0 c s.

Module TextPoint.

Record t := mk { line : Z; column : Z }.
#[global] Instance eq_dec : EqDecision t.
Proof. solve_decision. Defined.

(** [TextPoint::from_byte_index]. *)
Definition from_byte_index (s : text) (byte_index : Z) : option t :=
  if (slen s <? byte_index) || negb (is_char_boundary s byte_index) then None
  else
    prefix ← get_to s byte_index;
    newlines ← try_from u32_max (vlen (List.filter (Z.eqb 10) (as_bytes prefix)));
    line ← checked_add u32_max newlines 1;
    let line_start := from_option (fun index => index + 1) 0 (rfind_char 10 prefix) in
    distance ← try_from u32_max (byte_index - line_start);
    column ← checked_add u32_max distance 1;
    Some (mk line column).

End TextPoint.

Record SpanFailure := {
  failure_kind : text;
  ordinal : option Z;
  failure_source : option TextPoint.t;
  failure_candidate : option TextPoint.t;
  change : SpanChange
}.

Inductive GateEvidenceDetails :=
| InvariantSummary (s : InvariantEvidenceSummary.t)
| ClaimComparison (e : ClaimComparisonEvidence.t)
| SpanFailures (failures : list SpanFailure).

(** ** Field validators *)

(** [is_span_kind]. *)
Definition is_span_kind (kind : text) : bool :=
  existsb (text_eqb kind)
    [lit "number"; lit "url"; lit "email"; lit "declared_term"; lit "unsafe_text";
     lit "structure"; lit "word_changed"].

(** [validate_point]. *)
Definition validate_point (point : option TextPoint.t) : Result EvidenceContractError unit :=
  match point with
  | Some p => if (TextPoint.line p =? 0) || (TextPoint.column p =? 0)
              then Err InvalidSpanFailure else Ok tt
  | None => Ok tt
  end.

(** [validate_span_failure]. *)
Definition validate_span_failure (f : SpanFailure) : Result EvidenceContractError unit :=
  if negb (is_span_kind (failure_kind f)) then Err InvalidSpanFailure
  else
    _ ← match ordinal f with
        | Some o => if text_eqb (failure_kind f) (lit "declared_term") && (0 <? o)
                    then Ok tt else Err InvalidSpanFailure
        | None => Ok tt
        end;
    match failure_source f, failure_candidate f with
    | None, None => Err InvalidSpanFailure
    | source, candidate => _ ← validate_point source; validate_point candidate
    end.

(** [validate_span_failures]. *)
Definition validate_span_failures (failures : list SpanFailure) : Result EvidenceContractError unit :=
  if (vlen failures =? 0) || (MAX_SPAN_FAILURES <? vlen failures) then Err InvalidSpanFailure
  else try_for_each validate_span_failure failures.

(** [validate_gate_details]. *)
Definition validate_gate_details (details : option GateEvidenceDetails)
  : Result EvidenceContractError unit :=
  match details with
  | Some (InvariantSummary s) => _ ← InvariantEvidenceSummary.validate s; Ok tt
  | Some (ClaimComparison e) => map_err InvalidClaimComparison (ClaimComparisonEvidence.validate e)
  | Some (SpanFailures failures) => validate_span_failures failures
  | None => Ok tt
  end.

(** [validate_code]. *)
Definition validate_code (code : text) : Result EvidenceContractError unit :=
  if (slen code =? 0) || (MAX_GATE_EVIDENCE_CODE_BYTES <? slen code)
     || negb (forallb (fun b => is_ascii_lowercase b || is_ascii_digit b || (b =? 95))
                (as_bytes code))
  then Err InvalidCode else Ok tt.

(** [validate_version]. *)
Definition validate_version (version : text) : Result EvidenceContractError unit :=
  if (slen version =? 0) || (MAX_GATE_EVIDENCE_CODE_BYTES <? slen version)
     || negb (forallb (fun b => is_ascii_alphanumeric b
                                || ((b =? 46) || (b =? 45) || (b =? 95) || (b =? 43)))
                (as_bytes version))
  then Err InvalidVersion else Ok tt.

(** [validate_confidence]. *)
Definition validate_confidence (confidence : option f32) : Result EvidenceContractError unit :=
  match confidence with
  | Some c => if in_unit_interval c then Ok tt else Err InvalidConfidence
  | None => Ok tt
  end.

(** ** Gate evidence *)

Module GateEvidence.

Record t := mk {
  code : text;
  message : text;
  details : option GateEvidenceDetails
}.

(** [GateEvidence::validate]. *)
Definition validate (e : t) : Result EvidenceContractError unit :=
  _ ← validate_code (code e);
  if (slen (message e) =? 0) || (MAX_GATE_EVIDENCE_MESSAGE_BYTES <? slen (message e))
     || existsb is_control (message e)
  then Err InvalidMessage
  else validate_gate_details (details e).

(** [GateEvidence::new]. *)
Definition new (code message : text) (details : option GateEvidenceDetails)
  : Result EvidenceContractError t :=
  let evidence := mk code message details in
  _ ← validate evidence;
  Ok evidence.

End GateEvidence.

Module GateResult.

Record t := mk {
  gate_id : text;
  gate_version : text;
  status : GateStatus;
  severity : Severity;
  evidence : list GateEvidence.t;
  confidence : option f32
}.

(** [GateResult::pass]. *)
Definition pass (gate_id : text) : t := mk gate_id (lit "1") Pass Error [] None.

(** [GateResult::fail]. *)
Definition fail (gate_id code message : text) : t :=
  mk gate_id (lit "1") Fail Error [GateEvidence.mk code message None] None.

(** [GateResult::validate]. *)
Definition validate (g : t) : Result EvidenceContractError unit :=
  _ ← validate_code (gate_id g);
  _ ← validate_version (gate_version g);
  _ ← validate_confidence (confidence g);
  if MAX_SEMANTIC_EVIDENCE_ITEMS <? vlen (evidence g) then Err TooManyFindings
  else try_for_each GateEvidence.validate (evidence g).

End GateResult.

(** ** Candidate assessments *)

Module CandidateAssessment.

Record t := mk {
  candidate_id : CandidateId.t;
  unit_id : RewriteUnitId.t;
  eligible : bool;
  gates : list GateResult.t
}.

(** The test on one gate inside [CandidateAssessment::validate]. *)
Definition gate_allows (g : GateResult.t) : bool :=
  negb (bool_decide (GateResult.severity g = Error))
  || match GateResult.status g with Pass | NotApplicable => true | _ => false end.

(** [CandidateAssessment::validate]. *)
Definition validate (a : t) : Result EvidenceContractError unit :=
  if negb (CandidateId.is_scoped_to (candidate_id a) (unit_id a)) then Err InvalidCandidateScope
  else if MAX_GATES_PER_CANDIDATE <? vlen (gates a) then Err TooManyGates
  else
    _ ← try_for_each GateResult.validate (gates a);
    let hard_gates_pass := negb (vlen (gates a) =? 0) && forallb gate_allows (gates a) in
    if negb (Bool.eqb (eligible a) hard_gates_pass) then Err InconsistentEligibility
    else Ok tt.

End CandidateAssessment.

(** ** Semantic evidence *)

Inductive SemanticEvidenceCode :=
| LiteralTokensEqual
| LiteralTokensChanged
| UnsupportedMode
| ClaimComparisonPreserved
| ClaimComparisonConflict
| ClaimComparisonUncertain.

(** [SemanticEvidenceCode::as_str]. *)
Definition semantic_code_str (c : SemanticEvidenceCode) : text :=
  match c with
  | LiteralTokensEqual => lit "literal_tokens_equal"
  | LiteralTokensChanged => lit "literal_tokens_changed"
  | UnsupportedMode => lit "unsupported_mode"
  | ClaimComparisonPreserved => lit "claim_comparison_preserved"
  | ClaimComparisonConflict => lit "claim_comparison_conflict"
  | ClaimComparisonUncertain => lit "claim_comparison_uncertain"
  end.

Inductive SemanticEvidenceDetails := SemanticClaimComparison (e : ClaimComparisonEvidence.t).

Module SemanticEvidence.

Record t := mk {
  code : SemanticEvidenceCode;
  details : option SemanticEvidenceDetails
}.

(** [SemanticEvidence::validate]. *)
Definition validate (e : t) : Result EvidenceContractError unit :=
  match code e, details e with
  | (LiteralTokensEqual | LiteralTokensChanged | UnsupportedMode | ClaimComparisonUncertain), None =>
      Ok tt
  | ClaimComparisonPreserved, Some (SemanticClaimComparison c) =>
      _ ← map_err InvalidClaimComparison (ClaimComparisonEvidence.validate c);
      if ClaimComparisonCounts.has_uncertainty (ClaimComparisonEvidence.counts c)
         || ClaimComparisonCounts.has_difference (ClaimComparisonEvidence.counts c)
      then Err InconsistentSemanticFinding else Ok tt
  | ClaimComparisonConflict, Some (SemanticClaimComparison c) =>
      _ ← map_err InvalidClaimComparison (ClaimComparisonEvidence.validate c);
      if negb (ClaimComparisonCounts.has_difference (ClaimComparisonEvidence.counts c))
      then Err InconsistentSemanticFinding else Ok tt
  | ClaimComparisonUncertain, Some (SemanticClaimComparison c) =>
      _ ← map_err InvalidClaimComparison (ClaimComparisonEvidence.validate c);
      if negb (ClaimComparisonCounts.has_uncertainty (ClaimComparisonEvidence.counts c))
      then Err InconsistentSemanticFinding else Ok tt
  | _, _ => Err InconsistentSemanticFinding
  end.

End SemanticEvidence.

Module SemanticAssessment.

Record t := mk {
  status : GateStatus;
  confidence : option f32;
  evidence : list SemanticEvidence.t
}.

(** The finding categories that may support a pass. *)
Definition supports_pass (f : SemanticEvidence.t) : bool :=
  match SemanticEvidence.code f with
  | LiteralTokensEqual | ClaimComparisonPreserved => true
  | _ => false
  end.

(** [SemanticAssessment::validate]. *)
Definition validate (a : t) : Result EvidenceContractError unit :=
  _ ← validate_confidence (confidence a);
  if MAX_SEMANTIC_EVIDENCE_ITEMS <? vlen (evidence a) then Err TooManyFindings
  else
    _ ← try_for_each SemanticEvidence.validate (evidence a);
    if bool_decide (status a = Pass)
       && ((vlen (evidence a) =? 0) || existsb (fun f => negb (supports_pass f)) (evidence a))
    then Err InconsistentSemanticFinding else Ok tt.

End SemanticAssessment.

(** ** Decoding

    The [Deserialize] implementations after the field decoding of the serde
    derive: a wire record of decoded fields, the bounds of [BoundedString]
    and [BoundedVec], and the validation of the rebuilt value. *)

Inductive DecodeError :=
| BoundExceeded
| InvalidIdentifier
| Contract (e : EvidenceContractError).

(** [BoundedString::deserialize]. *)
Definition bounded_string (maximum : Z) (value : text) : Result DecodeError text :=
  if maximum <? slen value then Err BoundExceeded else Ok value.

(** [BoundedVec::deserialize]: [room] elements are decoded one by one, and
    one more element after them is refused without decoding it. *)
Fixpoint bounded_vec {W T} (decode : W -> Result DecodeError T) (room : nat) (sequence : list W)
    {struct sequence} : Result DecodeError (list T) :=
  match sequence, room with
  | [], _ => Ok []
  | _ :: _, O => Err BoundExceeded
  | w :: sequence', S room' =>
      value ← decode w;
      values ← bounded_vec decode room' sequence';
      Ok (value :: values)
  end.

(** The details of a finding: typed counts are validated as they are decoded. *)
Definition decode_details (d : GateEvidenceDetails) : Result DecodeError GateEvidenceDetails :=
  match d with
  | InvariantSummary s =>
      s' ← map_err Contract (InvariantEvidenceSummary.validate s); Ok (InvariantSummary s')
  | ClaimComparison e =>
      _ ← map_err (fun x => Contract (InvalidClaimComparison x))
            (ClaimComparisonCounts.validate (ClaimComparisonEvidence.counts e));
      _ ← map_err (fun x => Contract (InvalidClaimComparison x))
            (ClaimComparisonEvidence.validate e);
      Ok d
  | SpanFailures _ => Ok d
  end.

(** [GateEvidence::deserialize]. *)
Definition decode_gate_evidence (w : GateEvidence.t) : Result DecodeError GateEvidence.t :=
  code ← bounded_string MAX_GATE_EVIDENCE_CODE_BYTES (GateEvidence.code w);
  message ← bounded_string MAX_GATE_EVIDENCE_MESSAGE_BYTES (GateEvidence.message w);
  details ← match GateEvidence.details w with
            | Some d => d' ← decode_details d; Ok (Some d')
            | None => Ok None
            end;
  map_err Contract (GateEvidence.new code message details).

(** [GateResult::deserialize]. *)
Definition decode_gate_result (w : GateResult.t) : Result DecodeError GateResult.t :=
  gate_id ← bounded_string MAX_GATE_EVIDENCE_CODE_BYTES (GateResult.gate_id w);
  gate_version ← bounded_string MAX_GATE_EVIDENCE_CODE_BYTES (GateResult.gate_version w);
  evidence ← bounded_vec decode_gate_evidence (Z.to_nat MAX_SEMANTIC_EVIDENCE_ITEMS)
               (GateResult.evidence w);
  let result := GateResult.mk gate_id gate_version (GateResult.status w) (GateResult.severity w)
                  evidence (GateResult.confidence w) in
  _ ← map_err Contract (GateResult.validate result);
  Ok result.

(** The wire form of an assessment: identifiers as strings. *)
Record AssessmentWire := {
  wire_candidate_id : text;
  wire_unit_id : text;
  wire_eligible : bool;
  wire_gates : list GateResult.t
}.

(** The serialised form of an assessment. *)
Definition encode_assessment (a : CandidateAssessment.t) : AssessmentWire := {|
  wire_candidate_id := CandidateId.as_str (CandidateAssessment.candidate_id a);
  wire_unit_id := RewriteUnitId.as_str (CandidateAssessment.unit_id a);
  wire_eligible := CandidateAssessment.eligible a;
  wire_gates := CandidateAssessment.gates a
|}.

(** [CandidateAssessment::deserialize]. *)
Definition decode_assessment (w : AssessmentWire) : Result DecodeError CandidateAssessment.t :=
  candidate_id ← map_err (fun _ => InvalidIdentifier) (CandidateId.from_str (wire_candidate_id w));
  unit_id ← map_err (fun _ => InvalidIdentifier) (RewriteUnitId.from_str (wire_unit_id w));
  gates ← bounded_vec decode_gate_result (Z.to_nat MAX_GATES_PER_CANDIDATE) (wire_gates w);
  let assessment := CandidateAssessment.mk candidate_id unit_id (wire_eligible w) gates in
  _ ← map_err Contract (CandidateAssessment.validate assessment);
  Ok assessment.

(** ** Rewrite records *)

Definition REWRITE_RECORD_SCHEMA_VERSION : Z := 2.

(** The redacted provenance of one generation call. *)
Record GenerationProvenance := {
  gp_schema_version : Z;
  strategy_id : text;
  runtime_backend : text;
  runtime_version : text;
  runtime_digest : option Digest.t;
  artifact_id : Digest.t;
  artifact_digest : Digest.t;
  prompt_template_digest : Digest.t;
  input_digest : Digest.t;
  output_schema_digest : Digest.t;
  candidate_count : Z;
  usage_input_tokens : option Z;
  usage_output_tokens : option Z;
  usage_generation_micros : option Z
}.

Module RewriteRecord.

Record t := mk {
  schema_version : Z;
  document_id : DocumentId.t;
  source_digest : Digest.t;
  output_digest : Digest.t;
  status : RewriteStatus;
  reason : option ReasonCode;
  selected_candidates : list CandidateId.t;
  assessments : list CandidateAssessment.t;
  generation : option GenerationProvenance
}.

(** [RewriteRecord::new]. *)
Definition new (document_id : DocumentId.t) (source_digest output_digest : Digest.t)
    (status : RewriteStatus) (reason : option ReasonCode)
    (selected_candidates : list CandidateId.t) (assessments : list CandidateAssessment.t) : t :=
  mk REWRITE_RECORD_SCHEMA_VERSION document_id source_digest output_digest status reason
     selected_candidates assessments None.

(** [RewriteRecord::with_generation]. *)
Definition with_generation (r : t) (g : GenerationProvenance) : t :=
  mk (schema_version r) (document_id r) (source_digest r) (output_digest r) (status r)
     (reason r) (selected_candidates r) (assessments r) (Some g).

End RewriteRecord.

(** ** Lemmas: text points *)

Lemma rfind_char_from_app off c a b :
  rfind_char_from off c (a ++ b) =
  match rfind_char_from (off + slen a) c b with
  | Some i => Some i
  | None => rfind_char_from off c a
  end.
Proof.
  revert off. induction a as [|d a IH]; intros off; cbn.
  { rewrite Z.add_0_r. by case_match. }
  rewrite IH, <- Z.add_assoc. by destruct (rfind_char_from (off + _) c b).
Qed.

Lemma rfind_char_from_None off c s : rfind_char_from off c s = None <-> c ∉ s.
Proof.
  revert off. induction s as [|d s IH]; intros off; cbn; [split; [intros _; apply not_elem_of_nil|done]|].
  specialize (IH (off + len_utf8 d)). rewrite not_elem_of_cons.
  destruct (rfind_char_from _ c s); [naive_solver|].
  destruct (Z.eqb_spec d c); naive_solver.
Qed.

Lemma rfind_char_from_bounds off c s i :
  rfind_char_from off c s = Some i -> off <= i < off + slen s.
Proof.
  revert off. induction s as [|d s IH]; intros off; cbn; [done|].
  pose proof (len_utf8_bounds d). pose proof (slen_nonneg s).
  destruct (rfind_char_from _ c s) eqn:E; [intros; simplify_eq; apply IH in E; lia|].
  destruct (d =? c); intros; simplify_eq. lia.
Qed.

(** The number of newline bytes. *)
Definition newlines (s : text) : Z := vlen (List.filter (Z.eqb 10) (as_bytes s)).

Lemma newlines_app a b : newlines (a ++ b) = newlines a + newlines b.
Proof. unfold newlines. by rewrite as_bytes_app, List.filter_app, vlen_app. Qed.

Lemma newlines_pos s : 10 ∈ s -> 1 <= newlines s.
Proof.
  intros H. apply list_elem_of_split in H as (a & b & ->).
  rewrite newlines_app. change (10 :: b) with ([10] ++ b). rewrite newlines_app.
  change (newlines [10]) with 1. unfold newlines.
  pose proof (vlen_nonneg (List.filter (Z.eqb 10) (as_bytes a))).
  pose proof (vlen_nonneg (List.filter (Z.eqb 10) (as_bytes b))). lia.
Qed.

(** The start of the line a prefix ends in. *)
Definition line_start (prefix : text) : Z := from_option (fun i => i + 1) 0 (rfind_char 10 prefix).

Lemma line_start_bounds a : 0 <= line_start a <= slen a.
Proof.
  unfold line_start, rfind_char. destruct (rfind_char_from 0 10 a) eqn:E; cbn.
  - apply rfind_char_from_bounds in E. lia.
  - pose proof (slen_nonneg a). lia.
Qed.

Lemma from_byte_index_inv s i p :
  TextPoint.from_byte_index s i = Some p ->
  exists a b, s = a ++ b /\ slen a = i /\
    TextPoint.line p = 1 + newlines a /\ TextPoint.column p = 1 + (slen a - line_start a).
Proof.
  unfold TextPoint.from_byte_index. case_match; [done|].
  destruct (get_to s i) as [a|] eqn:E; [|done].
  unfold get_to in E. destruct (split_at s i) as [[a' b]|] eqn:E'; [|done]. cbn in E. simplify_eq.
  apply split_at_Some in E' as [-> <-]. intros Hp. exists a, b.
  rewrite !bind_Some in Hp. destruct Hp as (? & [= <-] & Hp).
  apply bind_Some in Hp as (n & Hn & Hp). apply bind_Some in Hp as (l & Hl & Hp).
  apply bind_Some in Hp as (d & Hd & Hp). apply bind_Some in Hp as (k & Hk & [= <-]).
  apply try_from_Some in Hn as [-> _], Hd as [-> _].
  apply checked_add_Some in Hl as [-> _], Hk as [-> _]. cbn [TextPoint.line TextPoint.column].
  fold (newlines a) (line_start a). split_and!; done || lia.
Qed.

(** ** Lemmas: decoding *)

Lemma bounded_vec_ok {W T} (decode : W -> Result DecodeError T) room ws vs :
  bounded_vec decode room ws = Ok vs <->
  (length ws <= room)%nat /\ Forall2 (fun w v => decode w = Ok v) ws vs.
Proof.
  revert room vs. induction ws as [|w ws IH]; intros room vs; cbn.
  { destruct vs as [|v vs].
    - split; intros; [split; [lia|apply List.Forall2_nil]|done].
    - split; [done|]. intros [_ H]. inversion H. }
  destruct room as [|room]; [split; [done|lia]|]. split.
  - intros H. binds. apply IH in E0 as [??]. split; [lia|by constructor].
  - intros [Hl H]. inv H. rewrite H2. cbn. assert (bounded_vec decode room ws = Ok l') as ->; [|done].
    apply IH. split; [lia|done].
Qed.

Lemma validate_code_ok c : validate_code c = Ok tt -> slen c <= MAX_GATE_EVIDENCE_CODE_BYTES.
Proof. unfold validate_code. case_match; [done|]. zbool. done. Qed.

Lemma validate_version_ok c : validate_version c = Ok tt -> slen c <= MAX_GATE_EVIDENCE_CODE_BYTES.
Proof. unfold validate_version. case_match; [done|]. zbool. done. Qed.

Lemma bounded_string_ok maximum v w : bounded_string maximum v = Ok w <-> v = w /\ slen v <= maximum.
Proof.
  unfold bounded_string. destruct (Z.ltb_spec maximum (slen v)); split; try naive_solver; lia.
Qed.

Lemma decode_details_ok d d' :
  decode_details d = Ok d' -> d = d'.
Proof.
  destruct d; cbn; intros H; binds; try done.
  unfold InvariantEvidenceSummary.validate in E. binds. case_match; by simplify_eq.
Qed.

Lemma decode_details_valid d :
  validate_gate_details (Some d) = Ok tt -> decode_details d = Ok d.
Proof.
  destruct d as [s|e|l]; cbn [decode_details validate_gate_details]; intros H; [| |done].
  - destruct (InvariantEvidenceSummary.validate s) as [s'| |] eqn:E; try done. cbn.
    unfold InvariantEvidenceSummary.validate in E. binds. case_match; by simplify_eq.
  - apply map_err_ok in H. rewrite H. unfold ClaimComparisonEvidence.validate in H.
    case_match; [done|]. binds. by rewrite E.
Qed.

(** The decoders accept exactly the values that validate. *)
Lemma decode_gate_evidence_ok w e :
  decode_gate_evidence w = Ok e <-> w = e /\ GateEvidence.validate e = Ok tt.
Proof.
  destruct w as [c m d]. unfold decode_gate_evidence.
  cbn [GateEvidence.code GateEvidence.message GateEvidence.details]. split.
  - intros H. binds. apply bounded_string_ok in E as [-> _], E0 as [-> _].
    assert (d = x1) as ->.
    { destruct d; binds; [|done]. f_equal. by apply decode_details_ok. }
    unfold GateEvidence.new in H. binds. by destruct x2.
  - intros [<- Hv]. pose proof Hv as Hw. unfold GateEvidence.new.
    unfold GateEvidence.validate in Hv.
    cbn [GateEvidence.code GateEvidence.message GateEvidence.details] in Hv. binds. destruct x.
    case_match; [done|]. zbool. apply validate_code_ok in E.
    assert (bounded_string MAX_GATE_EVIDENCE_CODE_BYTES c = Ok c) as ->
      by by apply bounded_string_ok.
    assert (bounded_string MAX_GATE_EVIDENCE_MESSAGE_BYTES m = Ok m) as ->
      by (apply bounded_string_ok; split; [done|lia]).
    cbn [mbind result_bind]. destruct d as [d|].
    + rewrite (decode_details_valid _ Hv). cbn [mbind result_bind]. by rewrite Hw.
    + cbn [mbind result_bind]. by rewrite Hw.
Qed.

Lemma Forall2_decode_same {A} (decode : A -> Result DecodeError A) (P : A -> Prop) l k :
  (forall x y, decode x = Ok y <-> x = y /\ P y) ->
  Forall2 (fun w v => decode w = Ok v) l k <-> l = k /\ Forall P k.
Proof.
  intros Hd. split.
  - induction 1 as [|x y l k Hxy H [-> ?]]; [done|]. apply Hd in Hxy as [-> ?]. by repeat constructor.
  - intros [-> H]. induction H; constructor; [by apply Hd|done].
Qed.

Lemma decode_gate_result_ok w g :
  decode_gate_result w = Ok g <-> w = g /\ GateResult.validate g = Ok tt.
Proof.
  destruct w as [i v st se ev c]. unfold decode_gate_result. cbn [GateResult.gate_id
    GateResult.gate_version GateResult.evidence GateResult.status GateResult.severity
    GateResult.confidence].
  set (P := fun e => GateEvidence.validate e = Ok tt). split.
  - intros H. binds. apply bounded_string_ok in E as [-> _], E0 as [-> _].
    apply bounded_vec_ok in E1 as [_ E1].
    apply (Forall2_decode_same _ P) in E1 as [-> _]; [|apply decode_gate_evidence_ok].
    by destruct x2.
  - intros [<- Hv]. pose proof Hv as Hw. unfold GateResult.validate in Hv.
    cbn [GateResult.gate_id GateResult.gate_version GateResult.evidence GateResult.confidence] in Hv.
    binds.
    destruct x, x0. case_match; [done|]. zbool.
    apply validate_code_ok in E. apply validate_version_ok in E0.
    assert (bounded_string MAX_GATE_EVIDENCE_CODE_BYTES i = Ok i) as -> by by apply bounded_string_ok.
    assert (bounded_string MAX_GATE_EVIDENCE_CODE_BYTES v = Ok v) as -> by by apply bounded_string_ok.
    assert (bounded_vec decode_gate_evidence (Z.to_nat MAX_SEMANTIC_EVIDENCE_ITEMS) ev = Ok ev) as ->;
      [|cbn [mbind result_bind]; by rewrite Hw].
    apply bounded_vec_ok. split; [unfold vlen, MAX_SEMANTIC_EVIDENCE_ITEMS in *; lia|].
    apply (Forall2_decode_same _ P); [apply decode_gate_evidence_ok|]. split; [done|].
    by apply try_for_each_ok.
Qed.

(** ** Theorems *)

(** Decoding an assessment accepts exactly the assessments that satisfy
    the contract and returns what was encoded: no decoded assessment breaks
    a bound, scope or eligibility rule, and no valid one is refused by the
    bounds of the decoders. *)
Theorem assessment_wire_roundtrip (w : AssessmentWire) (a : CandidateAssessment.t) :
  decode_assessment w = Ok a <->
  w = encode_assessment a /\ CandidateAssessment.validate a = Ok tt /\
  CandidateId.from_str (wire_candidate_id w) = Ok (CandidateAssessment.candidate_id a) /\
  RewriteUnitId.from_str (wire_unit_id w) = Ok (CandidateAssessment.unit_id a).
Proof.
  destruct w as [c u el gs]. unfold decode_assessment, encode_assessment. cbn [wire_candidate_id
    wire_unit_id wire_gates wire_eligible].
  set (P := fun e => GateResult.validate e = Ok tt). split.
  - intros H. binds. apply bounded_vec_ok in E1 as [_ E1].
    apply (Forall2_decode_same _ P) in E1 as [-> _]; [|apply decode_gate_result_ok].
    apply candidate_id_from_str_iff in E as Ec. destruct Ec as (uu & n & _ & _ & _ & ->).
    apply unit_id_from_str_iff in E0 as Eu. destruct Eu as (g & k & _ & _ & _ & ->).
    by destruct x2.
  - intros (Hw & Hv & Hc & Hu). injection Hw as -> -> -> ->. rewrite Hc, Hu. cbn [map_err].
    destruct a as [ci ui e gs]. cbn in *. unfold CandidateAssessment.validate in Hv. cbn in Hv.
    repeat (case_match; [done|]). binds. destruct x. case_match eqn:He; [done|]. zbool.
    assert (bounded_vec decode_gate_result (Z.to_nat MAX_GATES_PER_CANDIDATE) gs = Ok gs) as ->.
    { apply bounded_vec_ok. split; [unfold vlen, MAX_GATES_PER_CANDIDATE in *; lia|].
      apply (Forall2_decode_same _ P); [apply decode_gate_result_ok|]. split; [done|].
      by apply try_for_each_ok. }
    cbn. unfold CandidateAssessment.validate. cbn.
    destruct (CandidateId.is_scoped_to ci ui); [|done]. cbn.
    destruct (Z.ltb_spec MAX_GATES_PER_CANDIDATE (vlen gs)); [lia|]. rewrite E. cbn. by rewrite He.
Qed.

(** Text points order like byte offsets: a later character boundary has
    a later line, or the same line and a later column; in particular a point
    names one boundary only. *)
Theorem text_point_order (s : text) (i j : Z) (p q : TextPoint.t) :
  TextPoint.from_byte_index s i = Some p -> TextPoint.from_byte_index s j = Some q -> i < j ->
  TextPoint.line p < TextPoint.line q \/
  (TextPoint.line p = TextPoint.line q /\ TextPoint.column p < TextPoint.column q).
Proof.
  intros Hp Hq Hij.
  apply from_byte_index_inv in Hp as (a & b & -> & <- & -> & ->).
  apply from_byte_index_inv in Hq as (a' & b' & Hs & <- & -> & ->).
  destruct (app_slen_le _ _ _ _ Hs ltac:(lia)) as (m & -> & _).
  rewrite newlines_app, slen_app in *.
  assert (Hm : 10 ∈ m \/ 10 ∉ m) by (destruct (decide (10 ∈ m)); auto).
  destruct Hm as [Hm|Hm]; [left; apply newlines_pos in Hm; lia|].
  pose proof (vlen_nonneg (List.filter (Z.eqb 10) (as_bytes m))) as Hn. fold (newlines m) in Hn.
  assert (Hl : line_start (a ++ m) = line_start a).
  { unfold line_start, rfind_char. rewrite rfind_char_from_app.
    by apply (rfind_char_from_None (0 + slen a)) in Hm as ->. }
  rewrite Hl. lia.
Qed.
