(* ===== verification/TextAdapter.v ===== *)
(** * The plain-text adapter ([text-adapter/src/lib.rs], [inventory.rs], [locate.rs]).

    Parsing source bytes into a document of at most one unit, applying an
    accepted edit, verifying the result, and the inventory of invisible
    characters with their bounded locations. *)

From S2P Require Import Prelude Text Document TextSafety Rewrite Claims Evidence.

Definition UTF8_BOM : bytes := [0xEF; 0xBB; 0xBF].
Definition UTF16_LE_BOM : bytes := [0xFF; 0xFE].
Definition UTF16_BE_BOM : bytes := [0xFE; 0xFF].
Definition MAX_PLAIN_TEXT_BYTES : Z := 16 * 1024 * 1024.

Inductive LineEndingKind := LineNone | Lf | CrLf | Cr | Mixed.

Record TextMetadata := {
  has_utf8_bom : bool;
  line_endings : LineEndingKind;
  has_final_newline : bool;
  source_byte_len : Z
}.

Record ParsedTextDocument := {
  document : DocumentIr.t;
  original : bytes;
  body_offset : Z;
  meta : TextMetadata
}.

Record VerificationReport := { valid : bool; diagnostics : list text }.

Inductive TextAdapterError :=
| InputTooLarge (actual maximum : Z)
| UnsupportedUtf16
| InvalidUtf8 (valid_up_to : Z)
| UnknownUnit
| TooManyEdits
| InvalidSpan.

(** ** The newline skeleton *)

(** [newline_signature] over the bytes of the text: [C] for CRLF, [R] for a
    lone CR, [L] for LF. *)
Fixpoint newline_kinds (bs : bytes) : bytes :=
  match bs with
  | [] => []
  | b :: rest =>
      if b =? 13 then
        match rest with
        | c :: rest' => if c =? 10 then 67 :: newline_kinds rest' else 82 :: newline_kinds rest
        | [] => [82]
        end
      else if b =? 10 then 76 :: newline_kinds rest
      else newline_kinds rest
  end.
Definition newline_signature (s : text) : bytes := newline_kinds (as_bytes s).

(** [structural_fingerprint]. *)
Definition structural_fingerprint `{Sha256} (s : text) (bom : bool) : StructuralFingerprint := {|
  fp_kind := lit "plain-text-newline-skeleton-v1";
  fp_digest := sha256 ((if bom then 1 else 0) :: newline_signature s)
|}.

(** [text.ends_with(c)]. *)
Definition ends_with_char (s : text) (c : Z) : bool := bool_decide (last s = Some c).

(** [metadata]. *)
Definition metadata (input : bytes) (s : text) (bom : bool) : TextMetadata :=
  let signature := newline_signature s in
  let saw_lf := existsb (Z.eqb 76) signature in
  let saw_crlf := existsb (Z.eqb 67) signature in
  let saw_cr := existsb (Z.eqb 82) signature in
  let kinds := Z.b2z saw_lf + Z.b2z saw_crlf + Z.b2z saw_cr in
  let line_endings :=
    if kinds =? 0 then LineNone
    else if (kinds =? 1) && saw_lf then Lf
    else if (kinds =? 1) && saw_crlf then CrLf
    else if (kinds =? 1) && saw_cr then Cr
    else Mixed in
  {| has_utf8_bom := bom;
     line_endings := line_endings;
     has_final_newline := ends_with_char s 10 || ends_with_char s 13;
     source_byte_len := vlen input |}.

(** ** Parsing, editing and verifying *)

Section Adapter.
Context {SHA : Sha256}.

(** [TextAdapter::parse]. *)
Definition parse (input : bytes) : Result TextAdapterError ParsedTextDocument :=
  if MAX_PLAIN_TEXT_BYTES <? vlen input then Err (InputTooLarge (vlen input) MAX_PLAIN_TEXT_BYTES)
  else if starts_with input UTF16_LE_BOM || starts_with input UTF16_BE_BOM
  then Err UnsupportedUtf16
  else
    let has_utf8_bom := starts_with input UTF8_BOM in
    let body_offset := Z.b2z has_utf8_bom * vlen UTF8_BOM in
    let body := drop (Z.to_nat body_offset) input in
    s ← map_err (fun valid_up_to => InvalidUtf8 (body_offset + valid_up_to)) (from_utf8 body);
    let source_digest := sha256 input in
    let document_id := DocumentId.from_digest source_digest in
    rewrite_units ←
      (if slen s =? 0 then Ok []
       else
         source_span ← map_err (fun _ => InvalidSpan) (SourceSpan.new 0 (vlen body));
         Ok [{| unit_id := RewriteUnitId.new document_id 0;
                source_span := source_span;
                unit_text := s |}]);
    let meta := metadata input s has_utf8_bom in
    let structure := structural_fingerprint s has_utf8_bom in
    document ← map_err (fun _ => InvalidSpan)
                 (DocumentIr.new source_digest PlainText rewrite_units structure);
    Ok {| document := document; original := input; body_offset := body_offset; meta := meta |}.

(** [TextAdapter::apply]. *)
Definition apply (parsed : ParsedTextDocument) (edits : list AcceptedEdit)
  : Result TextAdapterError bytes :=
  match edits with
  | [] => Ok (original parsed)
  | _ :: _ :: _ => Err TooManyEdits
  | [edit] =>
      expected ← ok_or (head (DocumentIr.rewrite_units (document parsed))) UnknownUnit;
      if negb (bool_decide (edit_unit_id edit = unit_id expected)) then Err UnknownUnit
      else Ok (take (Z.to_nat (body_offset parsed)) (original parsed)
               ++ as_bytes (replacement edit))
  end.

(** [TextAdapter::verify]. *)
Definition verify (before : ParsedTextDocument) (output : bytes) (edits : list AcceptedEdit)
  : VerificationReport :=
  match edits with
  | [] =>
      if bool_decide (output = original before) then {| valid := true; diagnostics := [] |}
      else {| valid := false; diagnostics := [lit "original_bytes_changed_without_edit"] |}
  | _ =>
      match parse output with
      | Ok after =>
          let diagnostics :=
            (if Bool.eqb (has_utf8_bom (meta before)) (has_utf8_bom (meta after)) then []
             else [lit "utf8_bom_changed"])
            ++ (if bool_decide (DocumentIr.structure (document before)
                                = DocumentIr.structure (document after)) then []
                else [lit "text_structure_changed"]) in
          {| valid := vlen diagnostics =? 0; diagnostics := diagnostics |}
      | _ => {| valid := false; diagnostics := [lit "output_reparse_failed"] |}
      end
  end.

(** [TextAdapter::replacement_preserves_structure]. *)
Definition replacement_preserves_structure (parsed : ParsedTextDocument) (replacement : text) : bool :=
  bool_decide (structural_fingerprint replacement (has_utf8_bom (meta parsed))
               = DocumentIr.structure (document parsed)).

End Adapter.

(** ** Inventory *)

Inductive TextEncoding := Utf8 | Utf16Le | Utf16Be | EncInvalidUtf8.
Inductive CarrierPresence := Absent | CarrierPossible | NotDecoded.

Inductive ControlClass := C0 | C1 | Bidi | VariationSelector | ZeroWidth | Tag | OtherFormat.
#[global] Instance control_class_eq_dec : EqDecision ControlClass.
Proof. solve_decision. Defined.

(** [ControlClass::as_str]. *)
Definition control_class_str (c : ControlClass) : text :=
  match c with
  | C0 => lit "c0"
  | C1 => lit "c1"
  | Bidi => lit "bidi"
  | VariationSelector => lit "variation_selectors"
  | ZeroWidth => lit "zero_width"
  | Tag => lit "tag"
  | OtherFormat => lit "other_format"
  end.

(** [control_class]. *)
Definition control_class (c : Z) : option ControlClass :=
  if (c =? 9) || (c =? 10) || (c =? 13) then None
  else if is_bidi_mark c then Some Bidi
  else if is_variation_selector c then Some VariationSelector
  else if is_zero_width_mark c then Some ZeroWidth
  else if in_range 0x80 0x9F c then Some C1
  else if is_control c || (c =? 0x7F) then Some C0
  else if is_tag_character c then Some Tag
  else if is_other_invisible_mark c then Some OtherFormat
  else None.

Record ControlCounts := {
  c0 : Z;
  c1 : Z;
  bidi : Z;
  variation_selectors : Z;
  zero_width : Z;
  tag : Z;
  other_format : Z
}.

Definition no_controls : ControlCounts :=
  {| c0 := 0; c1 := 0; bidi := 0; variation_selectors := 0; zero_width := 0; tag := 0;
     other_format := 0 |}.

(** The match in the loop of [count_controls]. *)
Definition count_control (n : ControlCounts) (c : Z) : ControlCounts :=
  match control_class c with
  | Some C0 => {| c0 := c0 n + 1; c1 := c1 n; bidi := bidi n;
      variation_selectors := variation_selectors n; zero_width := zero_width n; tag := tag n;
      other_format := other_format n |}
  | Some C1 => {| c0 := c0 n; c1 := c1 n + 1; bidi := bidi n;
      variation_selectors := variation_selectors n; zero_width := zero_width n; tag := tag n;
      other_format := other_format n |}
  | Some Bidi => {| c0 := c0 n; c1 := c1 n; bidi := bidi n + 1;
      variation_selectors := variation_selectors n; zero_width := zero_width n; tag := tag n;
      other_format := other_format n |}
  | Some VariationSelector => {| c0 := c0 n; c1 := c1 n; bidi := bidi n;
      variation_selectors := variation_selectors n + 1; zero_width := zero_width n; tag := tag n;
      other_format := other_format n |}
  | Some ZeroWidth => {| c0 := c0 n; c1 := c1 n; bidi := bidi n;
      variation_selectors := variation_selectors n; zero_width := zero_width n + 1; tag := tag n;
      other_format := other_format n |}
  | Some Tag => {| c0 := c0 n; c1 := c1 n; bidi := bidi n;
      variation_selectors := variation_selectors n; zero_width := zero_width n; tag := tag n + 1;
      other_format := other_format n |}
  | Some OtherFormat => {| c0 := c0 n; c1 := c1 n; bidi := bidi n;
      variation_selectors := variation_selectors n; zero_width := zero_width n; tag := tag n;
      other_format := other_format n + 1 |}
  | None => n
  end.

(** [count_controls]. *)
Definition count_controls (s : text) : ControlCounts := foldl count_control no_controls s.

Record PlainTextInventory := {
  encoding : TextEncoding;
  inv_valid_up_to : option Z;
  utf8_bom : bool;
  byte_size : Z;
  inv_digest : Digest.t;
  inv_line_endings : option LineEndingKind;
  final_newline : option bool;
  controls : ControlCounts;
  c2pa_unstructured_text : CarrierPresence
}.

(** [undecoded]. *)
Definition undecoded (encoding : TextEncoding) (utf8_bom : bool) (byte_size : Z) (digest : Digest.t)
  : PlainTextInventory :=
  {| encoding := encoding; inv_valid_up_to := None; utf8_bom := utf8_bom; byte_size := byte_size;
     inv_digest := digest; inv_line_endings := None; final_newline := None;
     controls := no_controls; c2pa_unstructured_text := NotDecoded |}.

(** [TextAdapter::inventory]. *)
Definition inventory `{Sha256} (input : bytes) : Result TextAdapterError PlainTextInventory :=
  if MAX_PLAIN_TEXT_BYTES <? vlen input then Err (InputTooLarge (vlen input) MAX_PLAIN_TEXT_BYTES)
  else
    let digest := sha256 input in
    let byte_size := default u64_max (try_from u64_max (vlen input)) in
    if starts_with input UTF16_LE_BOM then Ok (undecoded Utf16Le false byte_size digest)
    else if starts_with input UTF16_BE_BOM then Ok (undecoded Utf16Be false byte_size digest)
    else
      let utf8_bom := starts_with input UTF8_BOM in
      let body_offset := Z.b2z utf8_bom * vlen UTF8_BOM in
      let body := drop (Z.to_nat body_offset) input in
      match from_utf8 body with
      | Ok s =>
          let m := metadata input s utf8_bom in
          let controls := count_controls s in
          Ok {| encoding := Utf8; inv_valid_up_to := None; utf8_bom := utf8_bom;
                byte_size := byte_size; inv_digest := digest;
                inv_line_endings := Some (line_endings m);
                final_newline := Some (has_final_newline m);
                controls := controls;
                c2pa_unstructured_text :=
                  if utf8_bom && (0 <? variation_selectors controls)
                  then CarrierPossible else Absent |}
      | Err valid_up_to =>
          Ok {| encoding := EncInvalidUtf8;
                inv_valid_up_to :=
                  Some (default u64_max (try_from u64_max (body_offset + valid_up_to)));
                utf8_bom := utf8_bom; byte_size := byte_size; inv_digest := digest;
                inv_line_endings := None; final_newline := None; controls := no_controls;
                c2pa_unstructured_text := NotDecoded |}
      | Panic => Panic
      end.

(** ** Locations of invisible runs *)

Record InvisibleLocation := {
  loc_class : text;
  loc_line : Z;
  loc_column : Z;
  code_points : text
}.

Record DecodedTagMapping := {
  map_line : Z;
  map_column : Z;
  ascii : text
}.

Record InvisibleInventoryDetail := {
  locations : list InvisibleLocation;
  locations_truncated : bool;
  decoded_tags : list DecodedTagMapping;
  decoded_tags_truncated : bool
}.

Record PendingRun := { run_class : ControlClass; run_offset : Z; run_chars : list Z }.

(** The [{:04X}] format. *)
Definition format_code_point (c : Z) : text := lit "U+" ++ pad4 (hex true c).

(** [windows(2).all(|pair| test pair[0] pair[1])]. *)
Fixpoint all_neighbours (test : Z -> Z -> bool) (l : list Z) : bool :=
  match l with
  | a :: (b :: _) as l' => test a b && all_neighbours test l'
  | _ => true
  end.

(** The code points joined by spaces. *)
Fixpoint join_code_points (first : bool) (codes : list Z) : text :=
  match codes with
  | [] => []
  | c :: codes' => (if first then [] else [32]) ++ format_code_point c ++ join_code_points false codes'
  end.

(** The note on omitted elements. *)
Definition extra_note (extra : Z) : text := lit " (+" ++ to_string extra ++ lit ")".

(** [format_code_points]. *)
Definition format_code_points (chars : list Z) : text :=
  match chars with
  | [] => []
  | [first] => format_code_point first
  | first :: _ =>
      let contiguous :=
        all_neighbours (fun a b => b =? saturating_add u32_max a 1) chars
        || all_neighbours (fun a b => a =? saturating_add u32_max b 1) chars in
      if contiguous then
        format_code_point first ++ lit ".." ++ format_code_point (List.last chars first)
      else
        let shown := Z.min (vlen chars) MAX_SPAN_FAILURES in
        join_code_points true (take (Z.to_nat shown) chars)
        ++ (if shown <? vlen chars then extra_note (vlen chars - shown) else [])
  end.

(** [decode_tag_character]; the subtraction underflows below the tag block. *)
Definition decode_tag_character (c : Z) : Result unit text :=
  code ← expect (checked_sub c 0xE0000);
  Ok (if in_range 0xE0020 0xE007E c && is_scalar code && (is_ascii_graphic code || (code =? 32))
      then [code]
      else lit "\u{" ++ hex false c ++ lit "}").

Fixpoint decode_tag_characters (chars : list Z) : Result unit text :=
  match chars with
  | [] => Ok []
  | c :: chars' =>
      d ← decode_tag_character c;
      rest ← decode_tag_characters chars';
      Ok (d ++ rest)
  end.

(** [decode_tag_run]. *)
Definition decode_tag_run (chars : list Z) : Result unit text :=
  decoded ← decode_tag_characters (take (Z.to_nat MAX_SPAN_FAILURES) chars);
  Ok (decoded ++ (if MAX_SPAN_FAILURES <? vlen chars
                  then extra_note (vlen chars - MAX_SPAN_FAILURES) else [])).

(** [finish]. *)
Definition finish (run : option PendingRun) (s : text) (decode_tags : bool)
    (detail : InvisibleInventoryDetail) : Result unit InvisibleInventoryDetail :=
  match run with
  | None => Ok detail
  | Some run =>
      match TextPoint.from_byte_index s (run_offset run) with
      | None => Ok detail
      | Some point =>
          let full := negb (vlen (locations detail) <? MAX_SPAN_FAILURES) in
          let located :=
            if full then locations detail
            else locations detail ++
              [{| loc_class := control_class_str (run_class run);
                  loc_line := TextPoint.line point;
                  loc_column := TextPoint.column point;
                  code_points := format_code_points (run_chars run) |}] in
          let truncated := full || locations_truncated detail in
          if negb decode_tags || negb (bool_decide (run_class run = Tag)) then
            Ok {| locations := located; locations_truncated := truncated;
                  decoded_tags := decoded_tags detail;
                  decoded_tags_truncated := decoded_tags_truncated detail |}
          else if vlen (decoded_tags detail) <? MAX_SPAN_FAILURES then
            ascii ← decode_tag_run (run_chars run);
            Ok {| locations := located; locations_truncated := truncated;
                  decoded_tags := decoded_tags detail ++
                    [{| map_line := TextPoint.line point; map_column := TextPoint.column point;
                        ascii := ascii |}];
                  decoded_tags_truncated := decoded_tags_truncated detail |}
          else
            Ok {| locations := located; locations_truncated := truncated;
                  decoded_tags := decoded_tags detail; decoded_tags_truncated := true |}
      end
  end.

(** The loop of [locate_invisible] from one character on, with the pending run. *)
Fixpoint locate_loop (s : text) (decode_tags : bool) (run : option PendingRun)
    (detail : InvisibleInventoryDetail) (chars : list (Z * Z)) : Result unit InvisibleInventoryDetail :=
  match chars with
  | [] => finish run s decode_tags detail
  | (offset, c) :: chars' =>
      match control_class c with
      | None =>
          detail' ← finish run s decode_tags detail;
          locate_loop s decode_tags None detail' chars'
      | Some class =>
          let fresh := Some {| run_class := class; run_offset := offset; run_chars := [c] |} in
          match run with
          | Some current =>
              if bool_decide (run_class current = class) then
                locate_loop s decode_tags
                  (Some {| run_class := run_class current; run_offset := run_offset current;
                           run_chars := run_chars current ++ [c] |}) detail chars'
              else
                detail' ← finish run s decode_tags detail;
                locate_loop s decode_tags fresh detail' chars'
          | None => locate_loop s decode_tags fresh detail chars'
          end
      end
  end.

(** [locate_invisible]. *)
Definition locate_invisible (s : text) (decode_tags : bool) : Result unit InvisibleInventoryDetail :=
  locate_loop s decode_tags None
    {| locations := []; locations_truncated := false; decoded_tags := [];
       decoded_tags_truncated := false |}
    (char_indices s).

(** ** Lemmas: bytes of a text *)

Lemma encode_char_head c rest b bs :
  is_scalar c = true -> encode_char c ++ rest = b :: bs -> b <= 244.
Proof.
  rewrite is_scalar_spec. intros Hc. unfold encode_char.
  destruct (Z.ltb_spec c 128), (Z.ltb_spec c 2048), (Z.ltb_spec c 65536); cbn; intros [= <- _];
    try lia; Z.to_euclidean_division_equations; lia.
Qed.

Lemma as_bytes_head s b bs : scalars s -> as_bytes s = b :: bs -> b <= 244.
Proof. intros [|c s' Hc Hs]; [done|]. unfold as_bytes. cbn [map concat]. by apply encode_char_head. Qed.

(** The byte order mark a document keeps. *)
Definition bom_bytes (bom : bool) : bytes := if bom then UTF8_BOM else [].

Lemma starts_with_nil s : starts_with s [] = true.
Proof. by destruct s. Qed.

Lemma not_utf16 bom s :
  scalars s ->
  starts_with (bom_bytes bom ++ as_bytes s) UTF16_LE_BOM
  || starts_with (bom_bytes bom ++ as_bytes s) UTF16_BE_BOM = false.
Proof.
  intros Hs. apply orb_false_iff. destruct bom; [done|]. cbn [bom_bytes app].
  split; apply not_true_iff_false; rewrite starts_with_spec; intros [r Hr];
    apply as_bytes_head in Hr; done.
Qed.

(** Only a text that starts with U+FEFF encodes to bytes that start with the mark. *)
Lemma starts_with_bom s :
  scalars s -> starts_with (as_bytes s) UTF8_BOM = true <-> head s = Some 0xFEFF.
Proof.
  intros Hs. rewrite starts_with_spec. split.
  - intros [r Hr]. destruct Hs as [|c s Hc Hs]; [done|].
    pose proof (decode_encode_char c (as_bytes s) Hc) as Hd.
    change (encode_char c ++ as_bytes s) with (as_bytes (c :: s)) in Hd. rewrite Hr in Hd.
    change (decode_char (UTF8_BOM ++ r)) with (Some (0xFEFF, r)) in Hd.
    injection Hd as <- _. done.
  - destruct s as [|c s]; [done|]. cbn [head]. intros [= ->]. exists (as_bytes s). done.
Qed.

Lemma starts_with_bom_prefix s : starts_with (UTF8_BOM ++ s) UTF8_BOM = true.
Proof. apply starts_with_spec. by exists s. Qed.

(** ** Lemmas: parsing *)

Section AdapterLemmas.
Context {SHA : Sha256}.

(** The unit a parsed text has. *)
Definition parsed_units (input : bytes) (s : text) : list RewriteUnit :=
  match s with
  | [] => []
  | _ => [{| unit_id := RewriteUnitId.new (DocumentId.from_digest (sha256 input)) 0;
             source_span := SourceSpan.mk 0 (slen s);
             unit_text := s |}]
  end.

Lemma parsed_units_some input s :
  s <> [] -> parsed_units input s =
    [{| unit_id := RewriteUnitId.new (DocumentId.from_digest (sha256 input)) 0;
        source_span := SourceSpan.mk 0 (slen s); unit_text := s |}].
Proof. destruct s; done. Qed.

(** The document [parse] builds for a mark and a text. *)
Definition parsed_text (bom : bool) (s : text) : ParsedTextDocument :=
  let input := bom_bytes bom ++ as_bytes s in
  {| document := {|
       DocumentIr.schema_version := SCHEMA_VERSION;
       DocumentIr.document_id := DocumentId.from_digest (sha256 input);
       DocumentIr.media_type := PlainText;
       DocumentIr.source_digest := sha256 input;
       DocumentIr.rewrite_units := parsed_units input s;
       DocumentIr.structure := structural_fingerprint s bom |};
     original := input;
     body_offset := vlen (bom_bytes bom);
     meta := metadata input s bom |}.

Lemma parsed_text_valid bom s : DocumentIr.validate (document (parsed_text bom s)) = Ok tt.
Proof.
  apply validate_ok_iff. cbn. split_and!; [done..|]. destruct s as [|c s]; [constructor|].
  cbn [parsed_units]. constructor; cbn; [done|lia| |constructor].
  unfold SourceSpan.len. cbn. lia.
Qed.

(** The rest of [parse] after decoding the body. *)
Lemma parse_decoded bom s :
  vlen (bom_bytes bom ++ as_bytes s) <= MAX_PLAIN_TEXT_BYTES -> scalars s ->
  starts_with (bom_bytes bom ++ as_bytes s) UTF8_BOM = bom ->
  parse (bom_bytes bom ++ as_bytes s) = Ok (parsed_text bom s).
Proof.
  intros Hsize Hs Hbom. pose proof (parsed_text_valid bom s) as Hv. unfold parse.
  destruct (Z.ltb_spec MAX_PLAIN_TEXT_BYTES (vlen (bom_bytes bom ++ as_bytes s))); [lia|].
  rewrite (not_utf16 bom s Hs), Hbom.
  assert (Z.b2z bom * vlen UTF8_BOM = vlen (bom_bytes bom)) as -> by by destruct bom.
  assert (drop (Z.to_nat (vlen (bom_bytes bom))) (bom_bytes bom ++ as_bytes s) = as_bytes s) as ->.
  { unfold vlen. rewrite Nat2Z.id. apply drop_app_length. }
  rewrite (from_utf8_as_bytes s Hs). cbn [map_err mbind result_bind].
  assert (Hu : (if slen s =? 0 then Ok []
    else source_span ← map_err (fun _ => InvalidSpan) (SourceSpan.new 0 (vlen (as_bytes s)));
         Ok [{| unit_id := RewriteUnitId.new
                  (DocumentId.from_digest (sha256 (bom_bytes bom ++ as_bytes s))) 0;
                source_span := source_span; unit_text := s |}])
    = @Ok TextAdapterError _ (parsed_units (bom_bytes bom ++ as_bytes s) s)).
  { rewrite as_bytes_length. destruct s as [|c s]; [done|].
    pose proof (slen_pos (c :: s) ltac:(done)). unfold parsed_units.
    destruct (Z.eqb_spec (slen (c :: s)) 0); [lia|]. unfold SourceSpan.new.
    destruct (Z.ltb_spec (slen (c :: s)) 0); [lia|]. done. }
  rewrite Hu. cbn [mbind result_bind]. unfold DocumentIr.new.
  cbn [document parsed_text] in Hv. rewrite Hv. done.
Qed.

(** The body [parse] decodes. *)
Definition body_of (input : bytes) : bytes :=
  drop (Z.to_nat (Z.b2z (starts_with input UTF8_BOM) * vlen UTF8_BOM)) input.

Lemma body_split input : input = bom_bytes (starts_with input UTF8_BOM) ++ body_of input.
Proof.
  unfold body_of. destruct (starts_with input UTF8_BOM) eqn:E; [|done].
  apply starts_with_spec in E as [r ->]. done.
Qed.

Lemma parse_body input s :
  Forall is_byte input -> vlen input <= MAX_PLAIN_TEXT_BYTES -> from_utf8 (body_of input) = Ok s ->
  scalars s /\ input = bom_bytes (starts_with input UTF8_BOM) ++ as_bytes s /\
  parse input = Ok (parsed_text (starts_with input UTF8_BOM) s).
Proof.
  intros Hb Hl Hs. pose proof (body_split input) as Hin.
  apply from_utf8_sound in Hs as [Hs Hsc];
    [|rewrite Hin in Hb; by apply Forall_app in Hb as [_ Hb]].
  rewrite Hs in Hin. split_and!; [done..|]. rewrite Hin at 1. apply parse_decoded; by rewrite <- ?Hin.
Qed.

(** What [parse] accepts, and what it returns. *)
Lemma parse_ok_iff input p :
  Forall is_byte input ->
  parse input = Ok p <->
  vlen input <= MAX_PLAIN_TEXT_BYTES /\
  exists s, scalars s /\ input = bom_bytes (starts_with input UTF8_BOM) ++ as_bytes s /\
    p = parsed_text (starts_with input UTF8_BOM) s.
Proof.
  intros Hb. split.
  - intros Hp. pose proof Hp as Hp'. unfold parse in Hp.
    destruct (Z.ltb_spec MAX_PLAIN_TEXT_BYTES (vlen input)); [done|].
    destruct (_ || _) in Hp; [done|]. apply bind_ok in Hp as (s & Hs & _). apply map_err_ok in Hs.
    apply parse_body in Hs as (? & ? & Hd); [|done..]. split; [done|]. exists s.
    split_and!; [done..|]. congruence.
  - intros (Hl & s & Hs & Hin & ->). rewrite Hin at 1. apply parse_decoded; rewrite <- ?Hin; done.
Qed.

Lemma parse_no_panic input : parse input <> Panic.
Proof.
  unfold parse. do 2 (case_match; [done|]).
  destruct (from_utf8 _) eqn:E; cbn [map_err mbind result_bind]; [|done|by apply from_utf8_loop_no_panic in E].
  assert (Hn : forall us st, DocumentIr.new (sha256 input) PlainText us st <> Panic).
  { intros us st. unfold DocumentIr.new.
    match goal with |- context [DocumentIr.validate ?d] => destruct (DocumentIr.validate d) eqn:Ev end;
      try done. by apply document_validate_no_panic in Ev. }
  unfold SourceSpan.new. destruct (slen a =? 0); [|destruct (_ <? 0)];
    cbn [map_err mbind result_bind]; try done.
  all: match goal with |- context [DocumentIr.new ?d ?m ?us ?st] =>
         specialize (Hn us st); by destruct (DocumentIr.new d m us st) end.
Qed.

(** Applying an edit for the unit of a parsed text. *)
Lemma apply_parsed bom s e :
  s <> [] -> edit_unit_id e = RewriteUnitId.new
    (DocumentId.from_digest (sha256 (bom_bytes bom ++ as_bytes s))) 0 ->
  apply (parsed_text bom s) [e] = Ok (bom_bytes bom ++ as_bytes (replacement e)).
Proof.
  intros Hs He. destruct s as [|c s]; [done|]. unfold apply. cbn -[as_bytes].
  rewrite bool_decide_eq_true_2 by done. cbn [negb]. unfold vlen. rewrite Nat2Z.id.
  f_equal. f_equal. apply take_app_length.
Qed.

(** A mark is neither gained nor lost by a replacement that does not start with one. *)
Lemma bom_kept bom r :
  scalars r -> bom = true \/ head r <> Some 0xFEFF ->
  starts_with (bom_bytes bom ++ as_bytes r) UTF8_BOM = bom.
Proof.
  intros Hr Hor. destruct bom; [apply starts_with_bom_prefix|]. destruct Hor as [|Hh]; [done|].
  apply not_true_iff_false. cbn [bom_bytes app]. by rewrite starts_with_bom.
Qed.

Lemma parse_replacement bom r :
  vlen (bom_bytes bom ++ as_bytes r) <= MAX_PLAIN_TEXT_BYTES -> scalars r ->
  bom = true \/ head r <> Some 0xFEFF ->
  parse (bom_bytes bom ++ as_bytes r) = Ok (parsed_text bom r).
Proof. intros. apply parse_decoded; [done..|]. by apply bom_kept. Qed.

(** Verification of an applied edit succeeds when the skeleton is kept. *)
Lemma verify_applied bom s e :
  vlen (bom_bytes bom ++ as_bytes (replacement e)) <= MAX_PLAIN_TEXT_BYTES ->
  scalars (replacement e) -> bom = true \/ head (replacement e) <> Some 0xFEFF ->
  replacement_preserves_structure (parsed_text bom s) (replacement e) = true ->
  valid (verify (parsed_text bom s) (bom_bytes bom ++ as_bytes (replacement e)) [e]) = true.
Proof.
  intros Hl Hr Hb Hst. unfold verify. rewrite parse_replacement by done.
  unfold replacement_preserves_structure in Hst. apply bool_decide_eq_true in Hst.
  cbn in Hst |- *. rewrite eqb_reflx, <- Hst, bool_decide_eq_true_2 by done. done.
Qed.

(** A document too large to parse again does not verify. *)
Lemma verify_too_large p output e :
  MAX_PLAIN_TEXT_BYTES < vlen output -> valid (verify p output [e]) = false.
Proof. intros H. unfold verify, parse. by rewrite (proj2 (Z.ltb_lt _ _) H). Qed.

(** The bytes the structural fingerprint hashes. *)
Definition skeleton (bom : bool) (s : text) : bytes := (if bom then 1 else 0) :: newline_signature s.

(** Equal fingerprints: the same mark and newline skeleton, or these two collide. *)
Lemma fingerprint_eq s s' b b' :
  structural_fingerprint s b = structural_fingerprint s' b' ->
  (newline_signature s = newline_signature s' /\ b = b') \/ collision (skeleton b s) (skeleton b' s').
Proof.
  unfold structural_fingerprint, skeleton. set (x := _ :: newline_signature s).
  set (y := _ :: newline_signature s'). intros [= H].
  destruct (decide (x = y)) as [E|]; [left|].
  - subst x y. injection E as Hb ->. split; [done|]. by destruct b, b'.
  - right. split; [done|]. unfold sha256. by rewrite H.
Qed.

End AdapterLemmas.

(** ** Lemmas: locations *)

(** A boundary of a text below the 32-bit limit has a point. *)
Lemma from_byte_index_Some a b :
  slen (a ++ b) < u32_max -> exists p, TextPoint.from_byte_index (a ++ b) (slen a) = Some p.
Proof.
  intros Hl. rewrite slen_app in Hl. pose proof (slen_nonneg b). unfold TextPoint.from_byte_index.
  assert (is_char_boundary (a ++ b) (slen a) = true) as ->.
  { apply is_char_boundary_spec. by exists a, b. }
  destruct (Z.ltb_spec (slen (a ++ b)) (slen a)); [rewrite slen_app in *; lia|]. cbn [orb negb].
  unfold get_to. rewrite split_at_app. cbn [mbind option_bind fmap option_fmap option_map fst].
  fold (newlines a) (line_start a).
  assert (0 <= newlines a <= slen a).
  { unfold newlines. split; [apply vlen_nonneg|]. rewrite <- as_bytes_length. unfold vlen.
    pose proof (List.filter_length_le (Z.eqb 10) (as_bytes a)). lia. }
  pose proof (line_start_bounds a).
  assert (try_from u32_max (newlines a) = Some (newlines a)) as -> by (apply try_from_Some; lia).
  cbn [mbind option_bind].
  assert (checked_add u32_max (newlines a) 1 = Some (newlines a + 1)) as ->
    by (apply checked_add_Some; lia).
  cbn [mbind option_bind].
  assert (try_from u32_max (slen a - line_start a) = Some (slen a - line_start a)) as ->
    by (apply try_from_Some; lia).
  cbn [mbind option_bind].
  assert (checked_add u32_max (slen a - line_start a) 1 = Some (slen a - line_start a + 1)) as ->
    by (apply checked_add_Some; lia).
  eauto.
Qed.

(** The reference: maximal runs of adjacent characters of one class, from the right. *)
Definition cons_run (offset : Z) (c : Z) (class : ControlClass) (runs : list PendingRun)
  : list PendingRun :=
  match runs with
  | r :: rs =>
      if bool_decide (run_class r = class) && (run_offset r =? offset + len_utf8 c)
      then {| run_class := class; run_offset := offset; run_chars := c :: run_chars r |} :: rs
      else {| run_class := class; run_offset := offset; run_chars := [c] |} :: runs
  | [] => [{| run_class := class; run_offset := offset; run_chars := [c] |}]
  end.
Fixpoint class_runs (offset : Z) (s : text) : list PendingRun :=
  match s with
  | [] => []
  | c :: s' =>
      match control_class c with
      | None => class_runs (offset + len_utf8 c) s'
      | Some class => cons_run offset c class (class_runs (offset + len_utf8 c) s')
      end
  end.

(** A pending run put before the runs of the rest. *)
Definition merge_run (run : option PendingRun) (runs : list PendingRun) : list PendingRun :=
  match run with
  | None => runs
  | Some r =>
      match runs with
      | r' :: rs =>
          if bool_decide (run_class r' = run_class r)
             && (run_offset r' =? run_offset r + slen (run_chars r))
          then {| run_class := run_class r; run_offset := run_offset r;
                  run_chars := run_chars r ++ run_chars r' |} :: rs
          else r :: runs
      | [] => [r]
      end
  end.

Fixpoint finish_all (s : text) (decode_tags : bool) (detail : InvisibleInventoryDetail)
    (runs : list PendingRun) : Result unit InvisibleInventoryDetail :=
  match runs with
  | [] => Ok detail
  | r :: rs => detail' ← finish (Some r) s decode_tags detail; finish_all s decode_tags detail' rs
  end.

Lemma class_runs_head off s r rs : class_runs off s = r :: rs -> off <= run_offset r.
Proof.
  revert off r rs. induction s as [|c s IH]; intros off r rs; cbn; [done|].
  pose proof (len_utf8_bounds c). destruct (control_class c) as [k|].
  - unfold cons_run. repeat case_match; intros; simplify_eq; cbn; lia.
  - intros E. apply IH in E. lia.
Qed.

Lemma merge_far r runs off :
  run_offset r + slen (run_chars r) < off -> (forall r' rs, runs = r' :: rs -> off <= run_offset r') ->
  merge_run (Some r) runs = r :: runs.
Proof.
  intros Hr Hruns. destruct runs as [|r' rs]; [done|]. specialize (Hruns r' rs eq_refl). cbn.
  destruct (Z.eqb_spec (run_offset r') (run_offset r + slen (run_chars r))); [lia|].
  by rewrite andb_false_r.
Qed.

(** Extending a pending run by one character of its class. *)
Lemma merge_extend r c k off runs :
  run_class r = k -> run_offset r + slen (run_chars r) = off ->
  merge_run (Some {| run_class := run_class r; run_offset := run_offset r;
                     run_chars := run_chars r ++ [c] |}) runs
  = merge_run (Some r) (cons_run off c k runs).
Proof.
  intros <- Hoff. unfold cons_run. destruct runs as [|r' rs]; cbn.
  - rewrite bool_decide_eq_true_2 by done. by rewrite Hoff, Z.eqb_refl.
  - rewrite slen_app. cbn [slen]. rewrite Z.add_0_r, Z.add_assoc, Hoff.
    destruct (bool_decide (run_class r' = run_class r) && (run_offset r' =? off + len_utf8 c)); cbn.
    + rewrite ?Hoff, bool_decide_eq_true_2, Z.eqb_refl by done. cbn. by rewrite <- app_assoc.
    + rewrite ?Hoff, bool_decide_eq_true_2, Z.eqb_refl by done. done.
Qed.

(** The loop finishes the maximal runs, in order. *)
Lemma locate_loop_runs s d t off run detail :
  (forall r, run = Some r -> run_offset r + slen (run_chars r) = off) ->
  locate_loop s d run detail (char_indices_from off t)
  = finish_all s d detail (merge_run run (class_runs off t)).
Proof.
  revert off run detail. induction t as [|c t IH]; intros off run detail Hrun;
    cbn [char_indices_from locate_loop class_runs].
  { destruct run as [r|]; cbn [merge_run finish_all]; [|done]. by destruct (finish (Some r) s d detail). }
  pose proof (len_utf8_bounds c) as Hc. destruct (control_class c) as [k|].
  - assert (Hfresh : forall detail, locate_loop s d
        (Some {| run_class := k; run_offset := off; run_chars := [c] |}) detail
        (char_indices_from (off + len_utf8 c) t)
      = finish_all s d detail (cons_run off c k (class_runs (off + len_utf8 c) t))).
    { intros detail'. rewrite IH by (intros r [= <-]; cbn; lia). f_equal. cbn.
      rewrite Z.add_0_r. unfold cons_run. by destruct (class_runs _ t). }
    destruct run as [r|]; [|apply Hfresh]. specialize (Hrun r eq_refl).
    case_bool_decide as Hk.
    + rewrite IH by (intros ? [= <-]; cbn; rewrite slen_app; cbn; lia).
      by rewrite (merge_extend r c k off).
    + assert (Hm : merge_run (Some r) (cons_run off c k (class_runs (off + len_utf8 c) t))
        = r :: cons_run off c k (class_runs (off + len_utf8 c) t)).
      { unfold cons_run. repeat case_match; cbn; by rewrite bool_decide_eq_false_2 by congruence. }
      rewrite Hm. cbn [finish_all]. destruct (finish (Some r) s d detail); cbn [mbind result_bind]; [apply Hfresh|done..].
  - destruct run as [r|].
    + specialize (Hrun r eq_refl).
      rewrite (merge_far r _ (off + len_utf8 c)); [|lia|apply class_runs_head].
      cbn [finish_all]. destruct (finish (Some r) s d detail) as [detail'| |];
        cbn [mbind result_bind]; [|done..]. by rewrite IH.
    + cbn [finish mbind result_bind merge_run]. by rewrite IH.
Qed.

Lemma class_runs_spec off s r :
  r ∈ class_runs off s ->
  run_chars r <> [] /\ Forall (fun c => control_class c = Some (run_class r)) (run_chars r) /\
  exists p t, s = p ++ run_chars r ++ t /\ run_offset r = off + slen p.
Proof.
  revert off r. induction s as [|c s IH]; intros off r; cbn [class_runs]; [by rewrite elem_of_nil|].
  assert (Hrest : r ∈ class_runs (off + len_utf8 c) s ->
    run_chars r <> [] /\ Forall (fun c => control_class c = Some (run_class r)) (run_chars r) /\
    exists p t, c :: s = p ++ run_chars r ++ t /\ run_offset r = off + slen p).
  { intros H. apply IH in H as (? & ? & p & t & -> & ?). split_and!; [done..|].
    exists (c :: p), t. cbn. split; [done|lia]. }
  destruct (control_class c) as [k|] eqn:Ek; [|done]. unfold cons_run.
  destruct (class_runs (off + len_utf8 c) s) as [|r' rs] eqn:E.
  - rewrite list_elem_of_singleton. intros ->. cbn. split_and!; [done|by repeat constructor|].
    exists [], s. cbn. split; [done|lia].
  - destruct (bool_decide _ && _) eqn:Eb; rewrite elem_of_cons; (intros [->|Hin]; [|apply Hrest; set_solver]).
    + zbool. cbn. specialize (IH (off + len_utf8 c) r'). rewrite E in IH.
      destruct IH as (? & Hk & p & t & Hs & Ho); [left|]. rewrite H in Hk.
      split_and!; [done|by constructor|]. assert (p = []) as -> by (apply slen_nil_inv; lia).
      exists [], t. cbn in *. rewrite Hs. split; [done|lia].
    + cbn. split_and!; [done|by repeat constructor|]. exists [], s. cbn. split; [done|lia].
Qed.

Lemma decode_tags_ok chars :
  Forall (fun c => control_class c = Some Tag) chars -> exists d, decode_tag_characters chars = Ok d.
Proof.
  induction 1 as [|c chars Hc H [d Hd]]; [by exists []|]. cbn [decode_tag_characters].
  assert (0xE0000 <= c).
  { unfold control_class in Hc. repeat (case_match; [done|]). case_match eqn:Et; [|by case_match].
    unfold is_tag_character in Et. rewrite orb_true_iff, in_range_true, Z.eqb_eq in Et. lia. }
  unfold decode_tag_character. rewrite (proj2 (checked_sub_Some c 0xE0000 (c - 0xE0000))) by lia.
  cbn [expect mbind result_bind]. rewrite Hd. eauto.
Qed.

(** The location reported for a run. *)
Definition run_location (s : text) (r : PendingRun) : InvisibleLocation :=
  let p := default (TextPoint.mk 0 0) (TextPoint.from_byte_index s (run_offset r)) in
  {| loc_class := control_class_str (run_class r); loc_line := TextPoint.line p;
     loc_column := TextPoint.column p; code_points := format_code_points (run_chars r) |}.
Definition run_mapping (s : text) (r : PendingRun) : DecodedTagMapping :=
  let p := default (TextPoint.mk 0 0) (TextPoint.from_byte_index s (run_offset r)) in
  {| map_line := TextPoint.line p; map_column := TextPoint.column p;
     ascii := default [] (result_ok (decode_tag_run (run_chars r))) |}.
Definition is_tag_run (r : PendingRun) : bool := bool_decide (run_class r = Tag).

(** Appending to a list that stops at a budget of thirty-two. *)
Lemma take_snoc_budget {A} (l : list A) x k :
  vlen l <= 32 ->
  take 32 ((if vlen l <? 32 then l ++ [x] else l) ++ k) = take 32 (l ++ x :: k).
Proof.
  intros Hl. unfold vlen in *. destruct (Z.ltb_spec (Z.of_nat (length l)) 32).
  - by rewrite <- app_assoc.
  - rewrite !take_app_ge by lia. replace (32 - length l)%nat with 0%nat by lia. done.
Qed.

Lemma truncated_budget {A} (l : list A) x k b :
  vlen l <= 32 ->
  (negb (vlen l <? 32) || b) || (32 <? vlen ((if vlen l <? 32 then l ++ [x] else l) ++ k))
  = b || (32 <? vlen (l ++ x :: k)).
Proof.
  intros Hl. pose proof (vlen_nonneg k). destruct (Z.ltb_spec (vlen l) 32); cbn [negb orb].
  - rewrite <- app_assoc. done.
  - rewrite vlen_app, vlen_cons. rewrite (proj2 (Z.ltb_lt 32 (vlen l + (1 + vlen k)))) by lia.
    by destruct b.
Qed.

Lemma budget_kept {A} (l : list A) x : vlen l <= 32 -> vlen (if vlen l <? 32 then l ++ [x] else l) <= 32.
Proof. intros Hl. destruct (Z.ltb_spec (vlen l) 32); [|done]. rewrite vlen_app. change (vlen [x]) with 1. lia. Qed.

(** What one run adds to the detail. *)
Lemma finish_step s d r detail :
  is_Some (TextPoint.from_byte_index s (run_offset r)) ->
  (run_class r = Tag -> exists a, decode_tag_run (run_chars r) = Ok a) ->
  finish (Some r) s d detail = Ok {|
    locations := (if vlen (locations detail) <? 32
                  then locations detail ++ [run_location s r] else locations detail);
    locations_truncated := negb (vlen (locations detail) <? 32) || locations_truncated detail;
    decoded_tags := (if d && is_tag_run r then
      if vlen (decoded_tags detail) <? 32 then decoded_tags detail ++ [run_mapping s r]
      else decoded_tags detail else decoded_tags detail);
    decoded_tags_truncated := (if d && is_tag_run r
      then negb (vlen (decoded_tags detail) <? 32) || decoded_tags_truncated detail
      else decoded_tags_truncated detail) |}.
Proof.
  intros [p Hp] Ht. unfold finish, run_location, run_mapping, is_tag_run, MAX_SPAN_FAILURES.
  rewrite Hp. cbn [default from_option]. destruct (vlen (locations detail) <? 32); cbn [negb orb];
    (destruct d; cbn [negb orb andb]; [|done]);
    (case_bool_decide as Hk; cbn [negb]; [|done]); destruct (Ht Hk) as [a Ha]; rewrite Ha;
    by destruct (vlen (decoded_tags detail) <? 32).
Qed.

(** What finishing a list of runs leaves in the detail. *)
Lemma finish_all_spec s d runs detail :
  Forall (fun r => is_Some (TextPoint.from_byte_index s (run_offset r)) /\
    (run_class r = Tag -> exists a, decode_tag_run (run_chars r) = Ok a)) runs ->
  vlen (locations detail) <= 32 -> vlen (decoded_tags detail) <= 32 ->
  finish_all s d detail runs = Ok {|
    locations := take 32 (locations detail ++ map (run_location s) runs);
    locations_truncated := locations_truncated detail
      || (32 <? vlen (locations detail ++ map (run_location s) runs));
    decoded_tags := take 32 (decoded_tags detail ++
      (if d then map (run_mapping s) (List.filter is_tag_run runs) else []));
    decoded_tags_truncated := decoded_tags_truncated detail
      || (32 <? vlen (decoded_tags detail ++
          (if d then map (run_mapping s) (List.filter is_tag_run runs) else []))) |}.
Proof.
  intros H. revert detail. induction H as [|r runs [Hp Ht] H IH]; intros detail Hl Hd.
  { destruct detail as [l lt g gt]. cbn [finish_all map List.filter locations decoded_tags
      locations_truncated decoded_tags_truncated] in *.
    assert ((if d then [] else []) = @nil DecodedTagMapping) as -> by by destruct d.
    rewrite !app_nil_r, !firstn_all2 by (unfold vlen in *; lia).
    destruct (Z.ltb_spec 32 (vlen l)); [lia|]. destruct (Z.ltb_spec 32 (vlen g)); [lia|].
    by rewrite !orb_false_r. }
  cbn [finish_all]. rewrite finish_step by done. cbn [mbind result_bind]. rewrite IH;
    cbn [locations decoded_tags locations_truncated decoded_tags_truncated];
    [|by apply budget_kept|destruct (d && is_tag_run r); [by apply budget_kept|done]].
  cbn [map List.filter]. rewrite (take_snoc_budget _ (run_location s r)) by done.
  rewrite truncated_budget by done.
  destruct d; cbn [andb]; [|done]. destruct (is_tag_run r); [|done]. cbn [map].
  rewrite (take_snoc_budget _ (run_mapping s r)) by done. by rewrite truncated_budget.
Qed.

(** ** Theorems: the adapter *)

(** Parsing loses nothing: a parsed document is valid, its units carry
    the whole decoded body after the byte order mark, committing no edit
    gives the input back byte for byte, and that output verifies. *)
Theorem parse_lossless {SHA : Sha256} (input : bytes) (p : ParsedTextDocument) :
  Forall is_byte input -> parse input = Ok p ->
  DocumentIr.validate (document p) = Ok tt /\
  input = bom_bytes (has_utf8_bom (meta p))
          ++ concat (map (fun u => as_bytes (unit_text u)) (DocumentIr.rewrite_units (document p))) /\
  apply p [] = Ok input /\ valid (verify p input []) = true.
Proof.
  intros Hb Hp. apply parse_ok_iff in Hp as (_ & s & Hs & Hin & ->); [|done].
  split_and!.
  - apply parsed_text_valid.
  - cbn. rewrite Hin at 1. f_equal. destruct s; [done|]. cbn [parsed_units map concat unit_text].
    by rewrite app_nil_r.
  - cbn. by rewrite <- Hin.
  - cbn. rewrite <- Hin. by rewrite bool_decide_eq_true_2.
Qed.

(** Every refusal of the parser has its cause: too large, a UTF-16
    mark, or bytes that are not UTF-8; the span error and a panic cannot
    happen, and what is neither refused is accepted. *)
Theorem parse_total {SHA : Sha256} (input : bytes) :
  Forall is_byte input ->
  match parse input with
  | Ok p => original p = input
  | Err (InputTooLarge actual maximum) =>
      actual = vlen input /\ maximum = MAX_PLAIN_TEXT_BYTES /\ maximum < actual
  | Err UnsupportedUtf16 =>
      exists r, input = UTF16_LE_BOM ++ r \/ input = UTF16_BE_BOM ++ r
  | Err (InvalidUtf8 _) =>
      forall s, scalars s -> input <> as_bytes s /\ input <> UTF8_BOM ++ as_bytes s
  | Err _ | Panic => False
  end.
Proof.
  intros Hb. destruct (parse input) as [p|e|] eqn:E; [| |by apply parse_no_panic in E].
  { by apply parse_ok_iff in E as (_ & s & _ & Hin & ->). }
  pose proof E as Ep. unfold parse in E.
  destruct (Z.ltb_spec MAX_PLAIN_TEXT_BYTES (vlen input)); [by simplify_eq|].
  destruct (_ || _) eqn:Eu in E; simplify_eq.
  { rewrite orb_true_iff, !starts_with_spec in Eu. destruct Eu as [[r ->]|[r ->]]; eauto. }
  fold (body_of input) in E. destruct (from_utf8 (body_of input)) as [s|v|] eqn:Es.
  { apply parse_body in Es as (_ & _ & Hok); [|done..]. congruence. }
  - cbn in E. simplify_eq. intros s Hs.
    assert (Hmark : forall t, scalars t -> body_of input <> as_bytes t).
    { intros t Ht Hbt. rewrite Hbt, (from_utf8_as_bytes t Ht) in Es. done. }
    split; intros ->.
    + destruct (starts_with (as_bytes s) UTF8_BOM) eqn:Em.
      * apply starts_with_bom in Em; [|done]. destruct s as [|c s]; [done|].
        injection Em as ->. inv Hs. by apply (Hmark s).
      * apply (Hmark s); [done|]. unfold body_of. by rewrite Em.
    + apply (Hmark s); [done|]. unfold body_of. by rewrite starts_with_bom_prefix.
  - by apply from_utf8_loop_no_panic in Es.
Qed.

(** An accepted edit survives the trip through bytes: the output of
    [apply] parses again to a document with the same mark whose text is the
    replacement, unless the output exceeds the size limit.  The condition on
    U+FEFF is real: without a source mark, a replacement that starts with
    one would be read back as a mark. *)
Theorem apply_reparses {SHA : Sha256} (input output : bytes) (p : ParsedTextDocument)
    (edit : AcceptedEdit) :
  Forall is_byte input -> parse input = Ok p -> apply p [edit] = Ok output ->
  scalars (replacement edit) ->
  has_utf8_bom (meta p) = true \/ head (replacement edit) <> Some 0xFEFF ->
  vlen output <= MAX_PLAIN_TEXT_BYTES ->
  exists q, parse output = Ok q /\ has_utf8_bom (meta q) = has_utf8_bom (meta p) /\
    concat (map unit_text (DocumentIr.rewrite_units (document q))) = replacement edit /\
    valid (verify p output [edit]) = replacement_preserves_structure p (replacement edit).
Proof.
  intros Hb Hp Ha Hr Hbom Hl. apply parse_ok_iff in Hp as (_ & s & Hs & Hin & ->); [|done].
  set (bom := starts_with input UTF8_BOM) in *. cbn [meta parsed_text has_utf8_bom metadata] in *.
  assert (Hout : output = bom_bytes bom ++ as_bytes (replacement edit)).
  { destruct s as [|c s]; [done|]. destruct (decide (edit_unit_id edit = RewriteUnitId.new
      (DocumentId.from_digest (sha256 (bom_bytes bom ++ as_bytes (c :: s)))) 0)) as [Hu|Hu].
    - rewrite apply_parsed in Ha by done. congruence.
    - unfold apply in Ha. cbn -[as_bytes] in Ha. by rewrite bool_decide_eq_false_2 in Ha. }
  subst output. exists (parsed_text bom (replacement edit)).
  rewrite parse_replacement by done. split_and!; [done..| |].
  - cbn. destruct (replacement edit); [done|]. cbn. by rewrite app_nil_r.
  - unfold verify. rewrite parse_replacement by done. cbn. rewrite eqb_reflx. cbn.
    unfold replacement_preserves_structure. cbn.
    rewrite (bool_decide_ext (structural_fingerprint s bom = structural_fingerprint (replacement edit) bom)
      (structural_fingerprint (replacement edit) bom = structural_fingerprint s bom)) by naive_solver.
    by case_bool_decide.
Qed.

(** The bounded location report agrees with the reference grouping: it
    never panics, names the first thirty-two maximal runs of one class in
    order, decodes the first thirty-two tag runs when asked and only then,
    and each truncation flag is set exactly when something was left out. *)
Theorem locate_invisible_spec (s : text) (decode_tags : bool) :
  slen s < u32_max ->
  let runs := class_runs 0 s in
  let tags := if decode_tags then map (run_mapping s) (List.filter is_tag_run runs) else [] in
  locate_invisible s decode_tags = Ok {|
    locations := take 32 (map (run_location s) runs);
    locations_truncated := 32 <? vlen runs;
    decoded_tags := take 32 tags;
    decoded_tags_truncated := 32 <? vlen tags |}.
Proof.
  intros Hl. unfold locate_invisible, char_indices. rewrite locate_loop_runs by done. cbn [merge_run].
  rewrite finish_all_spec;
    [cbn [locations locations_truncated decoded_tags decoded_tags_truncated app orb];
     unfold vlen; by rewrite length_map| |done|done].
  rewrite Forall_forall. intros r Hr. apply class_runs_spec in Hr as (_ & Hk & p & t & Hs & Ho).
  split.
  - subst s. destruct (from_byte_index_Some p (run_chars r ++ t) Hl) as [q Hq].
    exists q. rewrite Ho. done.
  - intros Ht. rewrite Ht in Hk. unfold decode_tag_run.
    destruct (decode_tags_ok (take (Z.to_nat MAX_SPAN_FAILURES) (run_chars r))) as [d Hd].
    { by apply Forall_take. }
    rewrite Hd. cbn [mbind result_bind]. eauto.
Qed.

Lemma control_class_iff c :
  control_class c <> None <->
  ~ (c = 9 \/ c = 10 \/ c = 13) /\
  (is_bidi_mark c = true \/ is_variation_selector c = true \/ is_zero_width_mark c = true \/
   is_control c = true \/ is_tag_character c = true \/ is_other_invisible_mark c = true).
Proof.
  unfold control_class.
  assert (Hc1 : in_range 0x80 0x9F c = true -> is_control c = true).
  { unfold is_control. rewrite orb_true_iff, !in_range_true. lia. }
  assert (Hd : (c =? 0x7F) = true -> is_control c = true).
  { unfold is_control. rewrite orb_true_iff, !in_range_true, Z.eqb_eq. lia. }
  destruct (Z.eqb_spec c 9), (Z.eqb_spec c 10), (Z.eqb_spec c 13); cbn [orb];
    try (split; [done|intros [Hn _]; exfalso; apply Hn; tauto]).
  destruct (is_bidi_mark c), (is_variation_selector c), (is_zero_width_mark c),
    (in_range 0x80 0x9F c), (is_control c), (c =? 0x7F), (is_tag_character c),
    (is_other_invisible_mark c); cbn [orb];
    try (discriminate Hc1; reflexivity); try (discriminate Hd; reflexivity);
    first [split; [intros _; split; [tauto|auto 7]|done]
          |split; [done|intros [_ Hor]; exfalso; by decompose [or] Hor]].
Qed.

(** The inventory and the safety policy name the same characters: every
    hard-unsafe or retained invisible character has a control class, except
    U+2065, which the policy forbids and no class counts; and every classed
    character is one of the two. *)
Theorem control_class_coverage (c : Z) :
  0 <= c ->
  (is_hard_unsafe_text_character c || is_retained_invisible_character c = true <->
   control_class c <> None \/ c = 0x2065).
Proof.
  intros Hc. rewrite control_class_iff.
  unfold is_retained_invisible_character, is_hard_unsafe_text_character.
  rewrite !orb_true_iff, !andb_true_iff, !negb_true_iff, !orb_true_iff.
  rewrite <- !not_true_iff_false. rewrite !orb_true_iff, !andb_true_iff, !negb_true_iff.
  rewrite <- !not_true_iff_false. rewrite !orb_true_iff.
  unfold is_bidi_mark, is_variation_selector, is_zero_width_mark, is_tag_character,
    is_other_invisible_mark, is_control.
  rewrite !orb_true_iff, !in_range_true, !Z.eqb_eq. lia.
Qed.
