(* ===== verification/Extract.v ===== *)
(** * Extraction of protected spans ([engine/src/protection/extract.rs]).

    Declared terms, URLs, email addresses, numbers and comparison operators
    of a text, and the selection of non-overlapping spans.  A scanner of the
    source that walks an index through the text is written here over the
    text from that index on. *)

From S2P Require Import Prelude Text Regex.

(** The limits and types of [protection.rs] that extraction needs. *)
Definition MAX_PROTECTED_OCCURRENCES : Z := 4096.
Definition MAX_PROTECTION_MATCH_SPANS : Z := MAX_PROTECTED_OCCURRENCES * 4.

Inductive ProtectedKind := DeclaredTerm | Url | Email | Number.
#[global] Instance protected_kind_eq_dec : EqDecision ProtectedKind.
Proof. solve_decision. Defined.

(** The derived order of the kinds. *)
Definition kind_rank (k : ProtectedKind) : Z :=
  match k with DeclaredTerm => 0 | Url => 1 | Email => 2 | Number => 3 end.
#[global] Instance protected_kind_countable : Countable ProtectedKind.
Proof.
  apply (inj_countable' kind_rank
    (fun z => if z =? 0 then DeclaredTerm else if z =? 1 then Url
              else if z =? 2 then Email else Number)).
  by intros [].
Defined.

Inductive ProtectionError :=
| ReservedTokenInSource
| ProtectedOccurrenceCount
| SentinelOccurrenceCount
| UnknownSentinel
| MatcherBuild
| ResourceLimit
| InvalidDeclaredTerms
| AmbiguousSurfaceMapping.

Record MatchSpan := { start : Z; end_ : Z; kind : ProtectedKind }.

(** ** Patterns *)

Section Extract.
Context {UT : UnicodeTables} {RE : RegexEngine}.

(** [https?://] and then characters that are no white space, angle bracket or quote. *)
Definition is_url_char (c : Z) : bool :=
  negb (is_whitespace c || (c =? 60) || (c =? 62) || (c =? 34) || (c =? 39)).
Definition URL_PATTERN : Regex := {|
  anchored := false;
  body := RSeq (rlit "http") (RSeq (ropt (rlit "s")) (RSeq (rlit "://") (rplus (RChar is_url_char))))
|}.

(** [[A-Za-z0-9._%+-]+@[A-Za-z0-9.-]+\.[A-Za-z]{2,}]. *)
Definition is_local_char (c : Z) : bool :=
  is_ascii_alphanumeric c || (c =? 46) || (c =? 95) || (c =? 37) || (c =? 43) || (c =? 45).
Definition is_domain_char (c : Z) : bool :=
  is_ascii_alphanumeric c || (c =? 46) || (c =? 45).
Definition EMAIL_PATTERN : Regex := {|
  anchored := false;
  body := RSeq (rplus (RChar is_local_char)) (RSeq (rlit "@")
           (RSeq (rplus (RChar is_domain_char)) (RSeq (rlit ".")
             (RSeq (rrep 2 (RChar is_ascii_alphabetic)) (RStar (RChar is_ascii_alphabetic))))))
|}.

(** [^(?:[$€£])?(?:\.\d+|(?:\d{1,3}(?:,\d{3})+|\d+)(?:\.\d+)?)]. *)
Definition is_currency (c : Z) : bool := (c =? 36) || (c =? 0x20AC) || (c =? 0xA3).
Definition rdigit : regex := RChar is_decimal_digit.
Definition rfraction : regex := RSeq (rlit ".") (rplus rdigit).
Definition rgrouped : regex :=
  RSeq (RSeq rdigit (rupto 2 rdigit)) (rplus (RSeq (rlit ",") (rrep 3 rdigit))).
Definition NUMBER_BODY : Regex := {|
  anchored := true;
  body := RSeq (ropt (RChar is_currency))
            (RAlt rfraction (RSeq (RAlt rgrouped (rplus rdigit)) (ropt rfraction)))
|}.

(** ["!=", "==", "<=", ">=", "<", ">", "="]. *)
Definition COMPARISON_OPERATORS : list text :=
  [lit "!="; lit "=="; lit "<="; lit ">="; lit "<"; lit ">"; lit "="].

(** ** Adding spans *)

(** [add_match_span]. *)
Definition add_match_span (spans : list MatchSpan) (span : MatchSpan)
  : Result ProtectionError (list MatchSpan) :=
  if vlen spans =? MAX_PROTECTION_MATCH_SPANS then Err ResourceLimit
  else Ok (spans ++ [span]).

(** [add_regex_matches]. *)
Definition add_regex_matches (spans : list MatchSpan) (source : text) (pattern : Regex)
    (kind : ProtectedKind) : Result ProtectionError (list MatchSpan) :=
  try_fold (fun spans '(i, j) => add_match_span spans {| start := i; end_ := j; kind := kind |})
    spans (find_iter pattern source).

(** ** URLs *)

(** [span_has_opener]. *)
Definition span_has_opener (span : text) (closer : Z) : bool :=
  let without_closer := removelast span in
  if closer =? 41 then existsb (Z.eqb 40) without_closer
  else if closer =? 93 then existsb (Z.eqb 91) without_closer
  else if closer =? 125 then existsb (Z.eqb 123) without_closer
  else false.

(** The test of [trim_url_end] on the last character of the span. *)
Definition trims (span : text) (c : Z) : bool :=
  ((c =? 46) || (c =? 44) || (c =? 59) || (c =? 58) || (c =? 33) || (c =? 63))
  || (((c =? 41) || (c =? 93) || (c =? 125)) && negb (span_has_opener span c)).

(** [trim_url_end] as the span it leaves; each round drops a character, so
    the number of characters is enough fuel. *)
Fixpoint trim_url (fuel : nat) (span : text) : text :=
  match fuel with
  | O => span
  | S fuel' =>
      match last span with
      | None => span
      | Some c => if trims span c then trim_url fuel' (removelast span) else span
      end
  end.

(** [add_url_matches]. *)
Definition add_url_match (source : text) (spans : list MatchSpan) (matched : Z * Z)
  : Result ProtectionError (list MatchSpan) :=
  let (i, j) := matched in
  span ← expect (slice source i j);
  let trimmed := trim_url (length span) span in
  let e := i + slen trimmed in
  if e <=? i then Ok spans
  else
    match re_find URL_PATTERN trimmed with
    | Some (s, t) =>
        if (s =? 0) && (t =? slen trimmed)
        then add_match_span spans {| start := i; end_ := e; kind := Url |}
        else Ok spans
    | None => Ok spans
    end.
Definition add_url_matches (spans : list MatchSpan) (source : text)
  : Result ProtectionError (list MatchSpan) :=
  try_fold (add_url_match source) spans (find_iter URL_PATTERN source).

(** ** Numbers *)

(** [is_number_sign]. *)
Definition is_number_sign (c : Z) : bool := (c =? 45) || (c =? 43) || (c =? 0x2212).

(** The end of [NUMBER_BODY.find] at the start of the text. *)
Definition number_body (s : text) : option Z :=
  match re_find NUMBER_BODY s with Some (_, e) => Some e | None => None end.

(** The loop over [/] and further bodies: [end] is the length matched so
    far in [rest].  Each round adds at least the slash. *)
Fixpoint number_slashes (fuel : nat) (rest : text) (e : Z) : option Z :=
  match fuel with
  | O => Some e
  | S fuel' =>
      after ← get_from rest e;
      match after with
      | slash :: after' =>
          if negb (slash =? 47) then Some e
          else
            match number_body after' with
            | None => Some e
            | Some n => if n =? 0 then Some e else number_slashes fuel' rest (e + (1 + n))
            end
      | [] => Some e
      end
  end.

(** [number_span_end] relative to the index: [previous] is the character
    before it and [rest] the text from it on. *)
Definition number_span_len (previous : option Z) (rest : text) : option Z :=
  match rest with
  | [] => None
  | first :: tail =>
      if is_number_sign first && from_option is_alphanumeric false previous then None
      else
        let (body_offset, after_sign) :=
          if is_number_sign first then (len_utf8 first, tail) else (0, rest) in
        n ← number_body after_sign;
        e ← number_slashes (length rest) rest (body_offset + n);
        match get_from rest e with
        | Some (percent :: _) => if percent =? 37 then Some (e + 1) else Some e
        | _ => Some e
        end
  end.

(** [add_number_matches] from an index on. *)
Fixpoint add_numbers (fuel : nat) (spans : list MatchSpan) (previous : option Z) (index : Z)
    (rest : text) : Result ProtectionError (list MatchSpan) :=
  match fuel, rest with
  | O, _ | _, [] => Ok spans
  | S fuel', c :: tail =>
      match number_span_len previous rest with
      | Some n =>
          spans' ← add_match_span spans {| start := index; end_ := index + n; kind := Number |};
          '(matched, rest') ← expect (split_at rest n);
          add_numbers fuel' spans' (last matched) (index + n) rest'
      | None => add_numbers fuel' spans (Some c) (index + len_utf8 c) tail
      end
  end.
Definition add_number_matches (spans : list MatchSpan) (source : text)
  : Result ProtectionError (list MatchSpan) :=
  add_numbers (length source) spans None 0 source.

(** ** Comparison operators *)

(** [add_comparison_matches] from an index on. *)
Fixpoint add_comparisons (fuel : nat) (spans : list MatchSpan) (index : Z) (rest : text)
  : Result ProtectionError (list MatchSpan) :=
  match fuel, rest with
  | O, _ | _, [] => Ok spans
  | S fuel', c :: tail =>
      match List.find (starts_with rest) COMPARISON_OPERATORS with
      | Some operator =>
          let e := index + slen operator in
          spans' ← add_match_span spans {| start := index; end_ := e; kind := Number |};
          rest' ← expect (get_from rest (slen operator));
          add_comparisons fuel' spans' e rest'
      | None => add_comparisons fuel' spans (index + len_utf8 c) tail
      end
  end.
Definition add_comparison_matches (spans : list MatchSpan) (source : text)
  : Result ProtectionError (list MatchSpan) :=
  add_comparisons (length source) spans 0 source.

(** ** Collection and selection *)

(** [add_typed_spans]. *)
Definition add_typed_spans (spans : list MatchSpan) (source : text)
  : Result ProtectionError (list MatchSpan) :=
  spans ← add_url_matches spans source;
  spans ← add_regex_matches spans source EMAIL_PATTERN Email;
  spans ← add_number_matches spans source;
  add_comparison_matches spans source.

(** The occurrences of one declared term. *)
Definition add_term_matches (source : text) (spans : list MatchSpan) (term : text)
  : Result ProtectionError (list MatchSpan) :=
  try_fold (fun spans i =>
      add_match_span spans {| start := i; end_ := i + slen term; kind := DeclaredTerm |})
    spans (match_indices source term).

(** [collect_source_spans]. *)
Definition collect_source_spans (source : text) (declared_terms : list text)
  : Result ProtectionError (list MatchSpan) :=
  spans ← try_fold (add_term_matches source) []
            (List.filter (fun term => negb (slen term =? 0)) declared_terms);
  add_typed_spans spans source.

(** The comparison of [select_non_overlapping]: earlier start, then longer, then kind. *)
Definition match_le (a b : MatchSpan) : bool :=
  (start a <? start b)
  || ((start a =? start b)
      && ((end_ b <? end_ a)
          || ((end_ a =? end_ b) && (kind_rank (kind a) <=? kind_rank (kind b))))).

(** The loop of [select_non_overlapping]. *)
Fixpoint select_loop (selected : list MatchSpan) (spans : list MatchSpan)
  : Result ProtectionError (list MatchSpan) :=
  match spans with
  | [] => Ok selected
  | span :: spans' =>
      if from_option (fun previous => end_ previous <=? start span) true (last selected) then
        if vlen selected =? MAX_PROTECTED_OCCURRENCES then Err ResourceLimit
        else select_loop (selected ++ [span]) spans'
      else select_loop selected spans'
  end.

(** [select_non_overlapping]. *)
Definition select_non_overlapping (spans : list MatchSpan) : Result ProtectionError (list MatchSpan) :=
  select_loop [] (sort_by match_le spans).

(** [selected_typed_spans]. *)
Definition selected_typed_spans (s : text) : Result ProtectionError (list MatchSpan) :=
  spans ← add_typed_spans [] s;
  select_non_overlapping spans.

(** The counting loop of [typed_counts] and of [mask_raw_candidate]. *)
Definition count_spans (s : text) (spans : list MatchSpan)
  : Result ProtectionError (gmap (ProtectedKind * text) Z) :=
  try_fold (fun counts span =>
      surface ← expect (slice s (start span) (end_ span));
      Ok (bump counts (kind span, surface)))
    ∅ spans.

(** [typed_counts]. *)
Definition typed_counts (s : text) : Result ProtectionError (gmap (ProtectedKind * text) Z) :=
  spans ← selected_typed_spans s;
  count_spans s spans.

(** [is_exact_typed_span]. *)
Definition is_exact_typed_span (spans : list MatchSpan) (i j : Z) (k : ProtectedKind) : bool :=
  existsb (fun span => (start span =? i) && (end_ span =? j) && bool_decide (kind span = k)) spans.

End Extract.

(** ** Lemmas: every span is a nonempty slice on character boundaries *)

Definition span_in (s : text) (sp : MatchSpan) : Prop :=
  exists a m b, s = a ++ m ++ b /\ start sp = slen a /\ end_ sp = slen a + slen m /\ m <> [].

Lemma span_in_slice s sp : span_in s sp -> exists m, slice s (start sp) (end_ sp) = Some m /\ m <> [].
Proof.
  intros (a & m & b & -> & -> & -> & Hm). exists m. split; [|done]. apply slice_spec.
  exists a, b. split_and!; done || lia.
Qed.

Lemma span_in_bounds s sp : span_in s sp -> 0 <= start sp < end_ sp /\ end_ sp <= slen s.
Proof.
  intros (a & m & b & -> & -> & -> & Hm). rewrite !slen_app. apply slen_pos in Hm.
  pose proof (slen_nonneg a). pose proof (slen_nonneg b). lia.
Qed.

Lemma add_match_span_safe s spans sp :
  Forall (span_in s) spans -> span_in s sp -> safe (Forall (span_in s)) (add_match_span spans sp).
Proof.
  intros Hs Hsp. unfold add_match_span. case_match; cbn; [done|].
  apply Forall_app. by repeat constructor.
Qed.

Section ExtractLemmas.
Context {UT : UnicodeTables} {RE : RegexEngine}.

Lemma find_iter_in pattern s i j :
  anchored pattern = false -> nullable (body pattern) = false -> (i, j) ∈ find_iter pattern s ->
  exists a m b, s = a ++ m ++ b /\ i = slen a /\ j = slen a + slen m /\ m <> [] /\
    matches (body pattern) m.
Proof.
  intros Ha Hn H. apply find_iter_from_spec in H as (a & m & b & -> & -> & -> & Hm); [|done].
  exists a, m, b. split_and!; try done; [by apply (matches_nonempty (body pattern))].
Qed.

Lemma add_regex_matches_safe s spans pattern k :
  anchored pattern = false -> nullable (body pattern) = false ->
  Forall (span_in s) spans -> safe (Forall (span_in s)) (add_regex_matches spans s pattern k).
Proof.
  intros Ha Hn Hs. apply safe_try_fold; [done|]. intros sp [i j] Hij Hsp.
  apply find_iter_in in Hij as (a & m & b & Hs' & -> & -> & Hm & _); [|done..].
  apply add_match_span_safe; [done|]. by exists a, m, b.
Qed.

Lemma removelast_prefix (l : text) : exists r, l = removelast l ++ r.
Proof.
  destruct l as [|x l] using rev_ind; [by exists []|]. exists [x]. by rewrite removelast_last.
Qed.

Lemma trim_url_prefix fuel span : exists r, span = trim_url fuel span ++ r.
Proof.
  revert span. induction fuel as [|n IH]; intros span; cbn; [exists []; by rewrite app_nil_r|].
  destruct (last span); [|exists []; by rewrite app_nil_r].
  destruct (trims _ _); [|exists []; by rewrite app_nil_r].
  destruct (IH (removelast span)) as [r Hr]. destruct (removelast_prefix span) as [r' Hr'].
  exists (r ++ r'). rewrite app_assoc, <- Hr. done.
Qed.

Lemma add_url_matches_safe s spans :
  Forall (span_in s) spans -> safe (Forall (span_in s)) (add_url_matches spans s).
Proof.
  intros Hs. apply safe_try_fold; [done|]. intros sps [i j] Hij Hsps.
  apply find_iter_in in Hij as (a & m & b & -> & -> & -> & Hm & _); [|done..].
  unfold add_url_match.
  rewrite (proj2 (slice_spec (a ++ m ++ b) (slen a) (slen a + slen m) m))
    by (exists a, b; split_and!; done || lia).
  cbn [expect mbind result_bind]. destruct (trim_url_prefix (length m) m) as [r Hr].
  set (t := trim_url (length m) m) in *.
  destruct (Z.leb_spec (slen a + slen t) (slen a)); [done|].
  destruct (re_find URL_PATTERN t) as [[x y]|]; [|done].
  destruct (_ && _); [|done]. apply add_match_span_safe; [done|].
  exists a, t, (r ++ b). cbn. split_and!; try done.
  - rewrite Hr at 1. by rewrite <- app_assoc.
  - intros E. rewrite E in *. cbn in *. lia.
Qed.

Lemma number_body_Some s n :
  number_body s = Some n -> exists m t, s = m ++ t /\ slen m = n /\ m <> [].
Proof.
  unfold number_body. rewrite re_find_anchored by done.
  destruct (match_here (body NUMBER_BODY) s) as [k|] eqn:E; [|done]. intros; simplify_eq.
  apply match_here_Some in E as (m & t & -> & Hm & <-). exists m, t. split_and!; try done.
  by apply (matches_nonempty (body NUMBER_BODY)).
Qed.

Lemma number_slashes_Some fuel rest e n :
  (exists m t, rest = m ++ t /\ slen m = e) -> number_slashes fuel rest e = Some n ->
  e <= n /\ exists m t, rest = m ++ t /\ slen m = n.
Proof.
  revert e. induction fuel as [|f IH]; intros e He; cbn [number_slashes];
    [intros; simplify_eq; split; [lia|done]|].
  destruct (get_from rest e) as [after|] eqn:Eg; cbn [mbind option_bind]; [|done].
  assert (Hstop : Some e = Some n -> e <= n /\ exists m t, rest = m ++ t /\ slen m = n)
    by (intros; simplify_eq; split; [lia|done]).
  destruct after as [|c after']; [done|]. destruct (Z.eqb_spec c 47) as [->|]; cbn [negb]; [|done].
  destruct (number_body after') as [k|] eqn:En; [|done].
  destruct (k =? 0); [done|]. intros H.
  apply get_from_spec in Eg as (a & -> & <-).
  apply number_body_Some in En as (m & t & -> & <- & Hm).
  apply IH in H as [Hle Hex].
  - split; [|done]. pose proof (slen_nonneg m). lia.
  - exists (a ++ 47 :: m), t. split; [by rewrite <- app_assoc|]. rewrite slen_app. done.
Qed.

Lemma number_span_len_Some previous rest n :
  number_span_len previous rest = Some n -> exists m t, rest = m ++ t /\ slen m = n /\ m <> [].
Proof.
  unfold number_span_len. destruct rest as [|c tail]; [done|]. case_match; [done|].
  assert (Hgen : forall k after pre, c :: tail = pre ++ after -> slen pre = k ->
    (n' ← number_body after;
     e ← number_slashes (length (c :: tail)) (c :: tail) (k + n');
     match get_from (c :: tail) e with
     | Some (percent :: _) => if percent =? 37 then Some (e + 1) else Some e
     | _ => Some e
     end) = Some n -> exists m t, c :: tail = m ++ t /\ slen m = n /\ m <> []).
  { intros k after pre Heq <-. destruct (number_body after) as [b|] eqn:Eb; cbn [mbind option_bind]; [|done].
    apply number_body_Some in Eb as (bm & bt & -> & <- & Hbm).
    destruct (number_slashes _ _ _) as [e|] eqn:Es; cbn [mbind option_bind]; [|done].
    apply number_slashes_Some in Es as [Hle (m & t & Hr & <-)];
      [|exists (pre ++ bm), bt; split; [by rewrite <- app_assoc|by rewrite slen_app]].
    apply slen_pos in Hbm. pose proof (slen_nonneg pre).
    assert (Hm : m <> []) by (intros ->; cbn in Hle; lia).
    rewrite Hr. unfold get_from. rewrite split_at_app. cbn [fmap option_fmap option_map snd].
    destruct t as [|p t]; [intros; simplify_eq; by exists m, []|].
    destruct (Z.eqb_spec p 37) as [->|]; intros; simplify_eq; [|by exists m, (p :: t)].
    exists (m ++ [37]), t. rewrite <- app_assoc, slen_app. split_and!; try done. by destruct m. }
  destruct (is_number_sign c).
  - apply (Hgen (len_utf8 c) tail [c]); [done|cbn; lia].
  - by apply (Hgen 0 (c :: tail) []).
Qed.

(** A scan over the text from an index on. *)
Lemma add_numbers_safe fuel s spans previous pre rest :
  s = pre ++ rest -> Forall (span_in s) spans ->
  safe (Forall (span_in s)) (add_numbers fuel spans previous (slen pre) rest).
Proof.
  revert spans previous pre rest. induction fuel as [|f IH]; intros spans previous pre rest -> Hs;
    destruct rest as [|c tail]; try done. cbn [add_numbers].
  destruct (number_span_len previous (c :: tail)) as [n|] eqn:En.
  - apply number_span_len_Some in En as (m & t & Hr & <- & Hm). rewrite Hr in *.
    eapply safe_bind; [apply (add_match_span_safe (pre ++ m ++ t)); [done|by exists pre, m, t]|].
    intros spans' Hs'. rewrite split_at_app. cbn [expect mbind result_bind].
    rewrite <- slen_app. apply (IH _ _ (pre ++ m)); [by rewrite <- app_assoc|done].
  - specialize (IH spans (Some c) (pre ++ [c]) tail). rewrite slen_app in IH. cbn in IH.
    rewrite Z.add_0_r, <- app_assoc in IH. by apply IH.
Qed.

Lemma add_comparisons_safe fuel s spans pre rest :
  s = pre ++ rest -> Forall (span_in s) spans ->
  safe (Forall (span_in s)) (add_comparisons fuel spans (slen pre) rest).
Proof.
  revert spans pre rest. induction fuel as [|f IH]; intros spans pre rest -> Hs;
    destruct rest as [|c tail]; try done. cbn [add_comparisons].
  destruct (List.find _ _) as [op|] eqn:Eo.
  - apply List.find_some in Eo as [Hin Hop]. apply starts_with_spec in Hop as [t Ht].
    assert (Hne : op <> []) by (intros ->; cbn in Hin; intuition done). rewrite Ht in *.
    eapply safe_bind; [apply (add_match_span_safe (pre ++ op ++ t)); [done|by exists pre, op, t]|].
    intros spans' Hs'. unfold get_from. rewrite split_at_app. cbn [fmap option_fmap option_map snd expect mbind result_bind].
    rewrite <- slen_app. apply (IH _ (pre ++ op)); [by rewrite <- app_assoc|done].
  - specialize (IH spans (pre ++ [c]) tail). rewrite slen_app in IH. cbn in IH.
    rewrite Z.add_0_r, <- app_assoc in IH. by apply IH.
Qed.

Lemma add_typed_spans_safe s spans :
  Forall (span_in s) spans -> safe (Forall (span_in s)) (add_typed_spans spans s).
Proof.
  intros Hs. unfold add_typed_spans.
  eapply safe_bind; [by apply add_url_matches_safe|]. intros l1 H1.
  eapply safe_bind; [by apply add_regex_matches_safe|]. intros l2 H2.
  eapply safe_bind; [by apply (add_numbers_safe _ s _ None [])|]. intros l3 H3.
  by apply (add_comparisons_safe _ s _ []).
Qed.

Lemma collect_source_spans_safe s terms :
  safe (Forall (span_in s)) (collect_source_spans s terms).
Proof.
  unfold collect_source_spans. eapply safe_bind; [|apply add_typed_spans_safe].
  apply safe_try_fold; [done|]. intros spans term Hterm Hs.
  apply list_elem_of_In, List.filter_In in Hterm as [_ Hne]. zbool.
  apply safe_try_fold; [done|]. intros spans' i Hi Hs'. apply add_match_span_safe; [done|].
  apply match_indices_from_spec in Hi as (a & b & -> & Hi).
  exists a, term, b. cbn. split_and!; try done; try lia. by intros ->.
Qed.
End ExtractLemmas.

(** ** Lemmas: selection *)

(** Spans in text order without overlap. *)
Definition disjoint_spans : list MatchSpan -> Prop := StronglySorted (fun a b => end_ a <= start b).

Definition proper (sp : MatchSpan) : Prop := start sp < end_ sp.

Lemma StronglySorted_snoc {A} (R : A -> A -> Prop) l x :
  StronglySorted R l -> Forall (fun y => R y x) l -> StronglySorted R (l ++ [x]).
Proof.
  induction 1 as [|y l Hl IH Hy]; cbn; intros Hx; [by repeat constructor|]. inv Hx.
  constructor; [auto|]. apply Forall_app. by repeat constructor.
Qed.

(** The last selected span ends last. *)
Lemma disjoint_last l p q :
  disjoint_spans l -> Forall proper l -> last l = Some p -> q ∈ l -> end_ q <= end_ p.
Proof.
  intros Hd Hp. revert p q. induction Hd as [|x l Hl IH Hx]; intros p q Hlast Hq; [done|]. inv Hp.
  destruct l as [|y l].
  - cbn in Hlast. simplify_eq. apply list_elem_of_singleton in Hq as ->. lia.
  - change (last (x :: y :: l)) with (last (y :: l)) in Hlast. apply elem_of_cons in Hq as [->|Hq].
    + assert (Hin : p ∈ y :: l) by (by apply last_Some_elem_of).
      rewrite Forall_forall in Hx, H2. specialize (Hx p Hin). specialize (H2 p Hin).
      unfold proper in H2. lia.
    + by apply IH.
Qed.

Lemma select_loop_spec selected spans :
  disjoint_spans selected -> Forall proper selected -> Forall proper spans ->
  vlen selected <= MAX_PROTECTED_OCCURRENCES ->
  StronglySorted (fun a b => match_le a b = true) spans ->
  Forall (fun a => Forall (fun b => start a <= start b) spans) selected ->
  safe (fun r => disjoint_spans r /\ vlen r <= MAX_PROTECTED_OCCURRENCES /\
    (forall x, x ∈ r -> x ∈ selected ++ spans) /\ (forall x, x ∈ selected -> x ∈ r) /\
    (forall x, x ∈ spans -> x ∈ r \/ exists q, q ∈ r /\ start q <= start x < end_ q))
    (select_loop selected spans).
Proof.
  intros Hd Hps Hp Hn Hsort Hle. revert selected Hd Hps Hn Hle.
  induction Hsort as [|sp spans Hsort IH Hsp]; intros selected Hd Hps Hn Hle; cbn [select_loop].
  { cbn. rewrite app_nil_r. split_and!; auto. intros x Hx. by apply elem_of_nil in Hx. }
  inv Hp. assert (Hstart : Forall (fun b => start sp <= start b) spans).
  { eapply Forall_impl; [exact Hsp|]. intros b Hb. unfold match_le in Hb.
    rewrite orb_true_iff, andb_true_iff in Hb. destruct Hb as [Hb|[Hb _]]; zbool; lia. }
  assert (Hle' : Forall (fun a => Forall (fun b => start a <= start b) spans) selected).
  { eapply Forall_impl; [exact Hle|]. intros a Ha. by inv Ha. }
  destruct (from_option _ true (last selected)) eqn:El.
  - case_match eqn:Em; [done|]. zbool.
    assert (Hends : Forall (fun y => end_ y <= start sp) selected).
    { rewrite Forall_forall. intros q Hq. destruct (last selected) as [p|] eqn:Ep; cbn in El.
      - zbool. pose proof (disjoint_last _ _ _ Hd Hps Ep Hq). lia.
      - apply last_None in Ep. subst. by apply elem_of_nil in Hq. }
    eapply safe_weaken.
    + apply (IH H2); [by apply StronglySorted_snoc|by apply Forall_app; repeat constructor| |].
      * rewrite vlen_app. change (vlen [sp]) with 1. unfold MAX_PROTECTED_OCCURRENCES in *. lia.
      * apply Forall_app. by repeat constructor.
    + cbn. intros r (? & ? & Hsub & Hin & Hcov). split_and!; try done.
      * intros x Hx. apply Hsub in Hx. set_solver.
      * intros x Hx. apply Hin. set_solver.
      * intros x Hx. apply elem_of_cons in Hx as [->|Hx]; [|auto]. left. apply Hin. set_solver.
  - eapply safe_weaken; [by apply (IH H2)|]. cbn. intros r (? & ? & Hsub & Hin & Hcov).
    split_and!; try done.
    + intros x Hx. apply Hsub in Hx. set_solver.
    + intros x Hx. apply elem_of_cons in Hx as [->|Hx]; [|auto]. right.
      destruct (last selected) as [p|] eqn:Ep; cbn in El; [|done]. zbool.
      assert (Hpin : p ∈ selected) by (by apply last_Some_elem_of). exists p. split; [auto|].
      rewrite Forall_forall in Hle. specialize (Hle p Hpin). inv Hle. lia.
Qed.

Lemma match_le_total a b : match_le a b = true \/ match_le b a = true.
Proof. unfold match_le. rewrite !orb_true_iff, !andb_true_iff, !orb_true_iff, !andb_true_iff. lia. Qed.

Lemma match_le_trans a b c : match_le a b = true -> match_le b c = true -> match_le a c = true.
Proof. unfold match_le. rewrite !orb_true_iff, !andb_true_iff, !orb_true_iff, !andb_true_iff. lia. Qed.

Lemma select_non_overlapping_spec spans :
  Forall proper spans ->
  safe (fun r => disjoint_spans r /\ vlen r <= MAX_PROTECTED_OCCURRENCES /\
    (forall x, x ∈ r -> x ∈ spans) /\
    (forall x, x ∈ spans -> x ∈ r \/ exists q, q ∈ r /\ start q <= start x < end_ q))
    (select_non_overlapping spans).
Proof.
  intros Hp. unfold select_non_overlapping. eapply safe_weaken.
  - apply select_loop_spec; [constructor|done| |done| |done].
    + by rewrite sort_by_perm.
    + apply sort_by_sorted; [apply match_le_total|apply match_le_trans].
  - cbn. intros r (? & ? & Hsub & _ & Hcov). split_and!; try done.
    + intros x Hx. apply Hsub in Hx. by rewrite sort_by_perm in Hx.
    + intros x Hx. apply Hcov. by rewrite sort_by_perm.
Qed.

(** The spans of a text that are selected: boundaries, disjoint, few. *)
Definition selection_of (s : text) (r : list MatchSpan) : Prop :=
  Forall (span_in s) r /\ disjoint_spans r /\ vlen r <= MAX_PROTECTED_OCCURRENCES.

Lemma select_safe s spans :
  Forall (span_in s) spans -> safe (selection_of s) (select_non_overlapping spans).
Proof.
  intros Hs. eapply safe_weaken.
  - apply select_non_overlapping_spec. eapply Forall_impl; [exact Hs|].
    intros sp Hsp. apply span_in_bounds in Hsp. unfold proper. lia.
  - cbn. intros r (? & ? & Hsub & _). split_and!; try done. rewrite Forall_forall in *. eauto.
Qed.

(** ** Theorems *)

(** Selection keeps a maximal set of disjoint spans in text order: every
    selected span was offered, and every offered span is selected or starts
    inside a selected one.  At most 4096 spans are returned, otherwise the
    resource error; spans are never dropped silently. *)
Theorem select_non_overlapping_maximal (spans selected : list MatchSpan) :
  Forall proper spans -> select_non_overlapping spans = Ok selected ->
  StronglySorted (fun a b => end_ a <= start b) selected /\ vlen selected <= 4096 /\
  (forall x, x ∈ selected -> x ∈ spans) /\
  (forall x, x ∈ spans -> x ∈ selected \/ exists q, q ∈ selected /\ start q <= start x < end_ q).
Proof. intros Hp Hs. by apply (safe_ok _ _ _ (select_non_overlapping_spec spans Hp)). Qed.

Section ExtractTheorems.
Context {UT : UnicodeTables} {RE : RegexEngine}.

(** The typed literals of a text: kind and surface of each selected span. *)
Definition typed_literals (s : text) (spans : list MatchSpan) : list (ProtectedKind * text) :=
  map (fun sp => (kind sp, default [] (slice s (start sp) (end_ sp)))) spans.

Lemma selected_typed_spans_safe s : safe (selection_of s) (selected_typed_spans s).
Proof.
  unfold selected_typed_spans. eapply safe_bind; [by apply add_typed_spans_safe|].
  intros spans Hs. by apply select_safe.
Qed.

Lemma count_spans_eq s spans :
  Forall (span_in s) spans ->
  count_spans s spans =
    Ok (tally (typed_literals s spans)).
Proof.
  unfold count_spans, tally, typed_literals. generalize (∅ : gmap (ProtectedKind * text) Z) as m.
  intros m H. revert m. induction H as [|sp spans Hsp H IH]; intros m; [done|].
  cbn [try_fold map foldl]. apply span_in_slice in Hsp as (x & Hx & _). rewrite Hx.
  cbn [expect mbind result_bind default from_option]. apply IH.
Qed.

Lemma typed_counts_no_panic s : typed_counts s <> Panic.
Proof.
  unfold typed_counts. pose proof (selected_typed_spans_safe s) as H.
  destruct (selected_typed_spans s) as [l| |]; cbn in *; try done.
  destruct H as (H & _). by rewrite count_spans_eq.
Qed.
End ExtractTheorems.
