(* ===== verification/Protection.v ===== *)
(** * Masking and restoring protected values ([engine/src/protection.rs]).

    A plan replaces protected spans of a source by numbered sentinel tokens;
    a candidate is masked with the same tokens or brought back to surfaces.
    The theorems show that masking and restoring are inverse. *)

From S2P Require Import Prelude Text Regex Claims Extract.

Definition MAX_PROTECTED_TEXT_BYTES : Z := 16 * 1024 * 1024.
Definition MAX_PROTECTED_TERMS : Z := 32.
Definition MAX_PROTECTED_TERM_BYTES : Z := 256.
Definition MAX_PROTECTED_TERM_TOTAL_BYTES : Z := 2 * 1024.

(** [ProtectedKind::token_label]. *)
Definition token_label (k : ProtectedKind) : text :=
  match k with
  | DeclaredTerm => lit "TERM"
  | Url => lit "URL"
  | Email => lit "EMAIL"
  | Number => lit "NUMBER"
  end.

(** The sentinel token of a kind and an ordinal. *)
Definition sentinel_token (k : ProtectedKind) (ordinal : Z) : text :=
  lit "{{PROTECTED_" ++ token_label k ++ lit "_" ++ pad4 (to_string ordinal) ++ lit "}}".

Record ProtectedValue := { token : text; surface : text; value_kind : ProtectedKind }.

Record ProtectionPlan := {
  masked_source : text;
  values : list ProtectedValue;
  plan_typed_counts : gmap (ProtectedKind * text) Z
}.

(** ** Declared terms *)

(** [is_disallowed_policy_character]. *)
Definition is_disallowed_policy_character (c : Z) : bool :=
  is_control c
  || ((c =? 0x061C) || in_range 0x200B 0x200F c || in_range 0x2028 0x202E c
      || in_range 0x2060 0x206F c || (c =? 0xFEFF)).

(** The loop of [protected_terms_are_valid]. *)
Fixpoint terms_loop (total : Z) (unique : gset text) (terms : list text) : bool :=
  match terms with
  | [] => total <=? MAX_PROTECTED_TERM_TOTAL_BYTES
  | term :: terms' =>
      if (slen term =? 0) || (MAX_PROTECTED_TERM_BYTES <? slen term)
         || existsb is_disallowed_policy_character term || bool_decide (term ∈ unique)
      then false
      else
        match checked_add usize_max total (slen term) with
        | None => false
        | Some next_total => terms_loop next_total ({[term]} ∪ unique) terms'
        end
  end.

(** [protected_terms_are_valid]. *)
Definition protected_terms_are_valid (terms : list text) : bool :=
  if MAX_PROTECTED_TERMS <? vlen terms then false else terms_loop 0 ∅ terms.

(** ** Splicing

    The three loops that copy the text between replaced spans and put a
    token or a surface in place of each span. *)
Fixpoint splice (s : text) (cursor : Z) (replacements : list (Z * Z * text))
  : Result ProtectionError text :=
  match replacements with
  | [] => expect (get_from s cursor)
  | (i, j, t) :: replacements' =>
      before ← expect (slice s cursor i);
      after ← splice s j replacements';
      Ok (before ++ t ++ after)
  end.

(** The length of a spliced text, computed before it is built. *)
Fixpoint spliced_len (length : Z) (replacements : list (Z * Z * text)) : option Z :=
  match replacements with
  | [] => Some length
  | (i, j, t) :: replacements' =>
      shorter ← checked_sub length (j - i);
      longer ← checked_add usize_max shorter (slen t);
      spliced_len longer replacements'
  end.

Section Protection.
Context {UT : UnicodeTables} {RE : RegexEngine} {AC : AhoCorasick}.

(** [\{\{PROTECTED_[A-Z_]+_\d{4}\}\}]. *)
Definition is_label_char (c : Z) : bool := is_ascii_uppercase c || (c =? 95).
Definition SENTINEL_PATTERN : Regex := {|
  anchored := false;
  body := RSeq (rlit "{{PROTECTED_") (RSeq (rplus (RChar is_label_char))
            (RSeq (rlit "_") (RSeq (rrep 4 rdigit) (rlit "}}"))))
|}.

(** [protected_occurrences]. *)
Definition protected_occurrences (s : text) (declared_terms : list text)
  : Result ProtectionError (list MatchSpan) :=
  spans ← collect_source_spans s declared_terms;
  select_non_overlapping spans.

(** ** Masking a raw candidate *)

(** The tokens of each surface, in source order. *)
Definition push_token (grouped : gmap text (list text)) (v : ProtectedValue) : gmap text (list text) :=
  <[surface v := default [] (grouped !! surface v) ++ [token v]]> grouped.
Definition group_tokens (values : list ProtectedValue) : gmap text (list text) :=
  foldl push_token ∅ values.

Definition text_le (a b : text) : bool := match str_cmp a b with Gt => false | _ => true end.

(** [grouped.keys()]: the surfaces in the order of the map. *)
Definition grouped_keys (grouped : gmap text (list text)) : list text :=
  sort_by text_le (map fst (map_to_list grouped)).

(** One match: the next token of its surface, which for a typed value must
    stand on a span of its kind. *)
Definition mask_match (values : list ProtectedValue) (grouped : gmap text (list text))
    (patterns : list text) (typed_spans : list MatchSpan)
    (state : list nat * list (Z * Z * text)) (matched : nat * Z * Z)
  : Result ProtectionError (list nat * list (Z * Z * text)) :=
  let '(counts, replacements) := state in
  let '(pattern_index, i, j) := matched in
  s ← ok_or (patterns !! pattern_index) MatcherBuild;
  tokens ← ok_or (grouped !! s) MatcherBuild;
  token_index ← ok_or (counts !! pattern_index) MatcherBuild;
  t ← ok_or (tokens !! token_index) ProtectedOccurrenceCount;
  v ← ok_or (List.find (fun v => text_eqb (token v) t) values) MatcherBuild;
  if negb (bool_decide (value_kind v = DeclaredTerm))
     && negb (is_exact_typed_span typed_spans i j (value_kind v))
  then Err ProtectedOccurrenceCount
  else Ok (<[pattern_index := S token_index]> counts, replacements ++ [(i, j, t)]).

(** Whether some surface was not matched as often as it has tokens. *)
Fixpoint miscounted (grouped : gmap text (list text)) (patterns : list text) (counts : list nat)
  : bool :=
  match patterns, counts with
  | s :: patterns', n :: counts' =>
      match grouped !! s with
      | None => true
      | Some tokens => negb (length tokens =? n)%nat
      end || miscounted grouped patterns' counts'
  | _, _ => false
  end.

(** [ProtectionPlan::mask_raw_candidate]. *)
Definition mask_raw_candidate (plan : ProtectionPlan) (candidate : text)
  : Result ProtectionError text :=
  if (MAX_PROTECTED_TEXT_BYTES <? slen candidate)
     || (MAX_PROTECTED_OCCURRENCES <? vlen (values plan))
  then Err ResourceLimit
  else if is_match SENTINEL_PATTERN candidate then Err UnknownSentinel
  else
    typed_spans ← selected_typed_spans candidate;
    candidate_counts ← count_spans candidate typed_spans;
    if negb (bool_decide (candidate_counts = plan_typed_counts plan))
    then Err ProtectedOccurrenceCount
    else
      let grouped := group_tokens (values plan) in
      if bool_decide (grouped = ∅) then Ok candidate
      else
        let patterns := grouped_keys grouped in
        if negb (ac_build patterns) then Err MatcherBuild
        else
          '(counts, replacements) ←
            try_fold (mask_match (values plan) grouped patterns typed_spans)
              (replicate (length patterns) 0%nat, []) (ac_find_iter patterns candidate);
          if miscounted grouped patterns counts then Err ProtectedOccurrenceCount
          else
            match spliced_len (slen candidate) replacements with
            | Some masked_len =>
                if masked_len <=? MAX_PROTECTED_TEXT_BYTES
                then splice candidate 0 replacements
                else Err ResourceLimit
            | None => Err ResourceLimit
            end.

(** ** Building a plan *)

(** The loop of [build] over the selected spans. *)
Fixpoint mask_spans (source : text) (cursor ordinal : Z) (selected : list MatchSpan)
  : Result ProtectionError (text * list ProtectedValue) :=
  match selected with
  | [] =>
      rest ← expect (get_from source cursor);
      Ok (rest, [])
  | span :: selected' =>
      before ← expect (slice source cursor (start span));
      surface ← expect (slice source (start span) (end_ span));
      let token := sentinel_token (kind span) (ordinal + 1) in
      '(masked, values) ← mask_spans source (end_ span) (ordinal + 1) selected';
      Ok (before ++ token ++ masked,
          {| token := token; surface := surface; value_kind := kind span |} :: values)
  end.

(** [ProtectionPlan::build]. *)
Definition build (source : text) (declared_terms : list text) : Result ProtectionError ProtectionPlan :=
  if MAX_PROTECTED_TEXT_BYTES <? slen source then Err ResourceLimit
  else if negb (protected_terms_are_valid declared_terms) then Err InvalidDeclaredTerms
  else if is_match SENTINEL_PATTERN source then Err ReservedTokenInSource
  else
    spans ← collect_source_spans source declared_terms;
    selected ← select_non_overlapping spans;
    typed_counts ← typed_counts source;
    '(masked, values) ← mask_spans source 0 0 selected;
    if MAX_PROTECTED_TEXT_BYTES <? slen masked then Err ResourceLimit
    else
      let plan := {| masked_source := masked; values := values;
                     plan_typed_counts := typed_counts |} in
      match mask_raw_candidate plan source with
      | Ok remasked =>
          if text_eqb remasked (masked_source plan) then Ok plan else Err AmbiguousSurfaceMapping
      | Err ProtectedOccurrenceCount => Err AmbiguousSurfaceMapping
      | Err error => Err error
      | Panic => Panic
      end.

(** ** Restoring a masked candidate *)

(** The table of issued tokens; a repeated token is an error. *)
Fixpoint issue_tokens (issued : gmap text nat) (index : nat) (values : list ProtectedValue)
  : Result ProtectionError (gmap text nat) :=
  match values with
  | [] => Ok issued
  | v :: values' =>
      match issued !! token v with
      | Some _ => Err SentinelOccurrenceCount
      | None => issue_tokens (<[token v := index]> issued) (S index) values'
      end
  end.

(** One sentinel of the candidate: issued, and not seen before. *)
Definition index_match (candidate : text) (issued : gmap text nat)
    (state : list Z * list (Z * Z * nat)) (matched : Z * Z)
  : Result ProtectionError (list Z * list (Z * Z * nat)) :=
  let '(counts, matches) := state in
  let '(i, j) := matched in
  matched_str ← expect (slice candidate i j);
  value_index ← ok_or (issued !! matched_str) UnknownSentinel;
  count ← ok_or (counts !! value_index) MatcherBuild;
  if negb (count =? 0) then Err SentinelOccurrenceCount
  else Ok (<[value_index := 1]> counts, matches ++ [(i, j, value_index)]).

(** [ProtectionPlan::indexed_sentinel_matches]. *)
Definition indexed_sentinel_matches (plan : ProtectionPlan) (candidate : text)
  : Result ProtectionError (list (Z * Z * nat)) :=
  if (MAX_PROTECTED_TEXT_BYTES <? slen candidate)
     || (MAX_PROTECTED_OCCURRENCES <? vlen (values plan))
  then Err ResourceLimit
  else
    issued ← issue_tokens ∅ 0 (values plan);
    '(counts, matches) ←
      try_fold (index_match candidate issued) (replicate (length (values plan)) 0, [])
        (find_iter SENTINEL_PATTERN candidate);
    if existsb (fun count => negb (count =? 1)) counts then Err SentinelOccurrenceCount
    else Ok matches.

(** [ProtectionPlan::validate_masked]. *)
Definition validate_masked (plan : ProtectionPlan) (candidate : text) : Result ProtectionError unit :=
  _ ← indexed_sentinel_matches plan candidate;
  Ok tt.

(** [self.values[value_index].surface] for each match. *)
Fixpoint surfaces_of (values : list ProtectedValue) (matches : list (Z * Z * nat))
  : Result ProtectionError (list (Z * Z * text)) :=
  match matches with
  | [] => Ok []
  | (i, j, value_index) :: matches' =>
      v ← expect (values !! value_index);
      rest ← surfaces_of values matches';
      Ok ((i, j, surface v) :: rest)
  end.

(** [ProtectionPlan::restore]. *)
Definition restore (plan : ProtectionPlan) (candidate : text) : Result ProtectionError text :=
  matches ← indexed_sentinel_matches plan candidate;
  replacements ← surfaces_of (values plan) matches;
  match spliced_len (slen candidate) replacements with
  | Some restored_len =>
      if restored_len <=? MAX_PROTECTED_TEXT_BYTES then splice candidate 0 replacements
      else Err ResourceLimit
  | None => Err ResourceLimit
  end.

End Protection.

(** ** Lemmas: the sentinel language *)

Lemma seq_inv r1 r2 m :
  matches (RSeq r1 r2) m -> exists s1 s2, m = s1 ++ s2 /\ matches r1 s1 /\ matches r2 s2.
Proof. inversion 1; subst. eauto. Qed.

Lemma char_inv p m : matches (RChar p) m -> exists c, m = [c] /\ p c = true.
Proof. inversion 1; subst. eauto. Qed.

Lemma rlit_matches (s : string) m : matches (rlit s) m <-> m = lit s.
Proof.
  unfold rlit. generalize (lit s). intros l. revert m. induction l as [|c l IH]; intros m; cbn.
  - split; [intros H; by inv H|intros ->; constructor].
  - split.
    + intros H. apply seq_inv in H as (s1 & s2 & -> & H1 & H2).
      apply char_inv in H1 as (d & -> & Hd). apply Z.eqb_eq in Hd as ->. cbn. f_equal. by apply IH.
    + intros ->. apply (m_seq _ _ [c] l); [constructor; apply Z.eqb_refl|by apply IH].
Qed.

Lemma rrep_matches n p m :
  matches (rrep n (RChar p)) m <-> length m = n /\ Forall (fun c => p c = true) m.
Proof.
  revert m. induction n as [|n IH]; intros m; cbn; split.
  - intros H. inv H. done.
  - intros [Hl _]. destruct m; [constructor|done].
  - intros H. apply seq_inv in H as (s1 & s2 & -> & H1 & H2).
    apply char_inv in H1 as (d & -> & Hd). apply IH in H2 as [<- ?]. cbn. split; [done|by constructor].
  - intros [Hl Hf]. destruct m as [|c m]; [done|]. inv Hf. apply (m_seq _ _ [c] m); [by constructor|].
    apply IH. cbn in Hl. split; [lia|done].
Qed.

Lemma rstar_char_matches p m : matches (RStar (RChar p)) m <-> Forall (fun c => p c = true) m.
Proof.
  split.
  - remember (RStar (RChar p)) as r eqn:Er. induction 1; simplify_eq; [done|].
    apply Forall_app. split; [|auto]. apply char_inv in H0 as (c & -> & Hc). by repeat constructor.
  - induction 1 as [|c m Hc Hm IH]; [constructor|].
    apply (m_star_cons _ [c] m); [done|by constructor|done].
Qed.

Lemma rplus_char_matches p m :
  matches (rplus (RChar p)) m <-> m <> [] /\ Forall (fun c => p c = true) m.
Proof.
  split.
  - intros H. apply seq_inv in H as (s1 & s2 & -> & H1 & H2).
    apply char_inv in H1 as (d & -> & Hd). apply rstar_char_matches in H2. split; [done|by constructor].
  - intros [Hne Hf]. destruct m as [|c m]; [done|]. inv Hf.
    apply (m_seq _ _ [c] m); [by constructor|by apply rstar_char_matches].
Qed.

(** The longest run of characters with a property is determined by the text. *)
Lemma run_unique (P : Z -> Prop) y1 r1 y2 r2 :
  y1 ++ r1 = y2 ++ r2 -> Forall P y1 -> Forall P y2 ->
  (forall c, head r1 = Some c -> ~ P c) -> (forall c, head r2 = Some c -> ~ P c) -> y1 = y2 /\ r1 = r2.
Proof.
  intros Heq H1. revert y2 Heq. induction H1 as [|c y1 Hc H1 IH]; intros y2 Heq H2 Hn1 Hn2.
  - destruct H2 as [|d y2 Hd H2]; [done|]. cbn in Heq. subst. by apply (Hn1 d) in Hd.
  - destruct H2 as [|d y2 Hd H2]; cbn in Heq.
    + subst. by apply (Hn2 c) in Hc.
    + injection Heq as -> Heq. destruct (IH _ Heq H2 Hn1 Hn2) as [-> ->]. done.
Qed.

Section SentinelLemmas.
Context {UT : UnicodeTables} {RE : RegexEngine}.

Abbreviation sentinel := (matches (body SENTINEL_PATTERN)).

Lemma sentinel_iff m :
  sentinel m <-> exists x d, m = lit "{{PROTECTED_" ++ x ++ lit "_" ++ d ++ lit "}}" /\
    x <> [] /\ Forall (fun c => is_label_char c = true) x /\
    length d = 4%nat /\ Forall (fun c => is_decimal_digit c = true) d.
Proof.
  split.
  - intros H. apply seq_inv in H as (s1 & r1 & -> & H1 & H). apply rlit_matches in H1 as ->.
    apply seq_inv in H as (x & r2 & -> & H1 & H). apply rplus_char_matches in H1 as [Hx Hl].
    apply seq_inv in H as (s3 & r3 & -> & H1 & H). apply rlit_matches in H1 as ->.
    apply seq_inv in H as (d & r4 & -> & H1 & H). apply rrep_matches in H1 as [Hd Hf].
    apply rlit_matches in H as ->. exists x, d. done.
  - intros (x & d & -> & Hx & Hl & Hd & Hf). apply m_seq; [by apply rlit_matches|].
    apply m_seq; [by apply rplus_char_matches|]. apply m_seq; [by apply rlit_matches|].
    apply m_seq; [by apply rrep_matches|by apply rlit_matches].
Qed.

Lemma label_ascii c : is_label_char c = true -> 0 <= c < 128 /\ is_ascii_digit c = false /\ c <> 123.
Proof.
  unfold is_label_char, is_ascii_uppercase, is_ascii_digit.
  rewrite orb_true_iff, in_range_true, in_range_false, Z.eqb_eq. lia.
Qed.

Lemma digit_not_label c : is_decimal_digit c = true -> is_label_char c <> true.
Proof. intros Hd Hl. apply label_ascii in Hl as (Hc & Hn & _). rewrite digit_ascii in Hd by done. congruence. Qed.

(** Two sentinels at the start of the same text are the same. *)
Lemma sentinel_unique m1 t1 m2 t2 : sentinel m1 -> sentinel m2 -> m1 ++ t1 = m2 ++ t2 -> m1 = m2.
Proof.
  rewrite !sentinel_iff. intros (x1 & d1 & -> & _ & Hx1 & Hl1 & Hd1) (x2 & d2 & -> & _ & Hx2 & Hl2 & Hd2) H.
  rewrite <- !app_assoc in H. apply app_inv_head in H. rewrite !(app_assoc _ (lit "_")) in H.
  apply (run_unique (fun c => is_label_char c = true)) in H as [Hx H].
  - rewrite !(app_assoc _ (lit "_")), Hx. f_equal. f_equal.
    apply app_inj_1 in H as [-> _]; [done|congruence].
  - apply Forall_app. by repeat constructor.
  - apply Forall_app. by repeat constructor.
  - destruct Hd1; [done|]. cbn. intros c [= <-]. by apply digit_not_label.
  - destruct Hd2; [done|]. cbn. intros c [= <-]. by apply digit_not_label.
Qed.

Lemma sentinel_here m t : sentinel m -> match_here (body SENTINEL_PATTERN) (m ++ t) = Some (slen m).
Proof.
  intros Hm. destruct (match_here _ (m ++ t)) as [n|] eqn:E.
  - apply match_here_Some in E as (m' & t' & Heq & Hm' & <-).
    by rewrite (sentinel_unique m t m' t' Hm Hm' Heq).
  - by apply (match_here_None _ _ m t) in E.
Qed.

(** A sentinel starts with two braces and has no other opening brace. *)
Lemma sentinel_braces m : sentinel m -> exists c m', m = 123 :: 123 :: c :: m' /\ 123 ∉ c :: m'.
Proof.
  rewrite sentinel_iff. intros (x & d & -> & _ & Hx & _ & Hd).
  eexists _, _. split; [cbn; reflexivity|]. rewrite !not_elem_of_cons.
  split_and!; try done. rewrite !not_elem_of_app. split_and!.
  - intros Hin. rewrite Forall_forall in Hx. apply Hx in Hin. by apply label_ascii in Hin as (_ & _ & []).
  - rewrite not_elem_of_cons, not_elem_of_app. split_and!; [done| |cbn; set_solver].
    intros Hin. rewrite Forall_forall in Hd. apply Hd in Hin. by rewrite digit_ascii in Hin.
Qed.

(** No sentinel starts in a text without sentinels that is followed by one. *)
Lemma no_sentinel_before a1 a2 m b :
  (forall u v w, a1 ++ a2 = u ++ v ++ w -> ~ sentinel v) -> a2 <> [] -> sentinel m ->
  match_here (body SENTINEL_PATTERN) (a2 ++ m ++ b) = None.
Proof.
  intros Hno Hne Hm. destruct (match_here _ _) as [n|] eqn:E; [exfalso|done].
  apply match_here_Some in E as (x & t & Heq & Hx & _).
  symmetry in Heq. apply app_eq_app in Heq as (k & [[-> Hk]|[-> Hk]]).
  - destruct k as [|c k].
    + rewrite app_nil_r in Hx. apply (Hno a1 a2 []); [by rewrite app_nil_r|done].
    + apply sentinel_braces in Hm as (c3 & m' & -> & Hm').
      apply sentinel_braces in Hx as (c3' & x' & Hx & Hx').
      cbn in Hk. injection Hk as <- Hk.
      destruct a2 as [|e1 [|e2 a2]]; [done| |].
      * cbn in Hx. injection Hx as _ ->. cbn in Hk. injection Hk as <- _. apply Hx'. left.
      * cbn in Hx. injection Hx as _ _ Hx. apply Hx'. rewrite <- Hx. apply elem_of_app. right. left.
  - apply (Hno a1 x k); done.
Qed.
End SentinelLemmas.

(** ** Lemmas: splicing

    A text cut into plain parts and holes: each entry is the plain text
    before a hole, what the hole holds and what replaces it. *)

Abbreviation hole := (text * text * text)%type.

Definition old_text (l : list hole) (tail : text) : text :=
  foldr (fun '(p, o, _) rest => p ++ o ++ rest) tail l.
Definition new_text (l : list hole) (tail : text) : text :=
  foldr (fun '(p, _, n) rest => p ++ n ++ rest) tail l.
(** The replacements, from an offset on. *)
Fixpoint holes_at (off : Z) (l : list hole) : list (Z * Z * text) :=
  match l with
  | [] => []
  | (p, o, n) :: l' => (off + slen p, off + slen p + slen o, n) :: holes_at (off + slen p + slen o) l'
  end.

Lemma splice_holes pre l tail :
  splice (pre ++ old_text l tail) (slen pre) (holes_at (slen pre) l) = Ok (new_text l tail).
Proof.
  revert pre. induction l as [|[[p o] n] l IH]; intros pre; cbn [holes_at splice old_text new_text foldr].
  { unfold get_from. by rewrite split_at_app. }
  rewrite (proj2 (slice_spec _ (slen pre) (slen pre + slen p) p))
    by (exists pre, (o ++ old_text l tail); split_and!; done || lia).
  cbn [expect mbind result_bind]. specialize (IH (pre ++ p ++ o)).
  rewrite !slen_app, <- !app_assoc, Z.add_assoc in IH. unfold old_text in IH. rewrite IH. done.
Qed.

Lemma spliced_len_sound base off l tail n :
  spliced_len (base + slen (old_text l tail)) (holes_at off l) = Some n ->
  n = base + slen (new_text l tail).
Proof.
  revert base off. induction l as [|[[p o] x] l IH]; intros base off; cbn [holes_at spliced_len];
    [cbn; congruence|].
  cbn [old_text new_text foldr]. fold (old_text l tail). fold (new_text l tail). intros H.
  apply bind_Some in H as (y & Hy & H). apply bind_Some in H as (z & Hz & H).
  apply checked_sub_Some in Hy as [-> _]. apply checked_add_Some in Hz as [-> _].
  rewrite !slen_app in *.
  replace (base + (slen p + (slen o + slen (old_text l tail))) -
    (off + slen p + slen o - (off + slen p)) + slen x)
    with (base + slen p + slen x + slen (old_text l tail)) in H by lia.
  apply IH in H. lia.
Qed.

Lemma spliced_len_complete base off l tail :
  0 <= base -> base + slen (old_text l tail) + slen (new_text l tail) <= usize_max ->
  spliced_len (base + slen (old_text l tail)) (holes_at off l) = Some (base + slen (new_text l tail)).
Proof.
  revert base off. induction l as [|[[p o] x] l IH]; intros base off Hb Hmax;
    cbn [holes_at spliced_len]; [done|].
  cbn [old_text new_text foldr] in *. fold (old_text l tail) in *. fold (new_text l tail) in *.
  rewrite !slen_app in *.
  pose proof (slen_nonneg p). pose proof (slen_nonneg o). pose proof (slen_nonneg x).
  pose proof (slen_nonneg (old_text l tail)). pose proof (slen_nonneg (new_text l tail)).
  rewrite (proj2 (checked_sub_Some _ _ (base + slen p + slen (old_text l tail)))) by lia.
  cbn [mbind option_bind].
  rewrite (proj2 (checked_add_Some _ _ _ (base + slen p + slen x + slen (old_text l tail)))) by lia.
  cbn [mbind option_bind]. rewrite IH by lia. f_equal. lia.
Qed.

(** Swapping what the holes hold and what replaces it. *)
Definition swap_hole (h : hole) : hole := let '(p, o, n) := h in (p, n, o).
Lemma old_swap l tail : old_text (map swap_hole l) tail = new_text l tail.
Proof. induction l as [|[[p o] n] l IH]; cbn; [done|]. unfold old_text in IH. by rewrite IH. Qed.
Lemma new_swap l tail : new_text (map swap_hole l) tail = old_text l tail.
Proof. induction l as [|[[p o] n] l IH]; cbn; [done|]. unfold new_text in IH. by rewrite IH. Qed.

Lemma holes_slice off pre l tail i j n :
  off = slen pre -> (i, j, n) ∈ holes_at off l ->
  exists p o, (p, o, n) ∈ l /\ slice (pre ++ old_text l tail) i j = Some o.
Proof.
  revert off pre. induction l as [|[[p o] x] l IH]; intros off pre -> ; cbn [holes_at]; [by rewrite elem_of_nil|].
  rewrite elem_of_cons. intros [H|H].
  - simplify_eq. exists p, o. split; [left|]. apply slice_spec. cbn [old_text foldr].
    exists (pre ++ p), (old_text l tail). rewrite slen_app. split_and!; try lia. by rewrite <- app_assoc.
  - apply (IH _ (pre ++ p ++ o)) in H as (p' & o' & Hin & Hs);
      [|rewrite !slen_app; lia]. exists p', o'. split; [by right|].
    cbn [old_text foldr]. fold (old_text l tail). rewrite <- !app_assoc in Hs. done.
Qed.

(** ** Lemmas: the sentinels of a woven text *)

Section Weave.
Context {UT : UnicodeTables} {RE : RegexEngine}.
Abbreviation sentinel := (matches (body SENTINEL_PATTERN)).

(** No part of the text is a sentinel. *)
Definition sentinel_free (s : text) : Prop := forall u v w, s = u ++ v ++ w -> ~ sentinel v.

Lemma is_match_free s : is_match SENTINEL_PATTERN s = false -> sentinel_free s.
Proof.
  intros H u v w -> Hv. apply (is_match_false SENTINEL_PATTERN) with (a := u) (t := v ++ w) in H;
    [|done..]. by apply (match_here_None _ _ v w) in H.
Qed.

Lemma sentinel_free_nil : sentinel_free [].
Proof. intros u v w H Hv; destruct u, v; try done; by apply sentinel_braces in Hv as (? & ? & ? & _). Qed.

Lemma sentinel_free_app a b : sentinel_free (a ++ b) -> sentinel_free a /\ sentinel_free b.
Proof.
  intros H. split; intros u v w ->; [apply (H u v (w ++ b))|apply (H (a ++ u) v w)];
    by rewrite <- !app_assoc.
Qed.

(** When the holes hold sentinels and the plain parts none, the search finds the holes. *)
Lemma find_sentinels fuel off l tail :
  Forall (fun '(p, o, _) => sentinel_free p /\ sentinel o) l -> sentinel_free tail ->
  (length l <= fuel)%nat ->
  find_iter_from fuel SENTINEL_PATTERN off (old_text l tail)
  = map (fun '(i, j, _) => (i, j)) (holes_at off l).
Proof.
  intros H Htail. revert fuel off. induction H as [|[[p o] n] l [Hp Ho] H IH]; intros fuel off Hf.
  - cbn [holes_at map old_text foldr]. apply find_iter_from_none; [done|].
    intros a t ->. destruct (match_here _ t) as [k|] eqn:E; [|done].
    apply match_here_Some in E as (m & b & -> & Hm & _). by apply (Htail a m b) in Hm.
  - destruct fuel as [|fuel]; [cbn in Hf; lia|]. cbn [old_text foldr]. fold (old_text l tail).
    rewrite find_iter_from_step; [|done| |by apply sentinel_here].
    + cbn [holes_at map]. f_equal. apply IH. cbn in Hf. lia.
    + intros a1 a2 -> Hne. apply (no_sentinel_before a1); [|done..]. exact Hp.
Qed.

Lemma old_text_length l tail :
  Forall (fun '(p, o, _) => o <> []) l -> (length l <= length (old_text l tail))%nat.
Proof.
  induction 1 as [|[[p o] n] l Ho H IH]; cbn; [lia|]. rewrite !length_app.
  destruct o; [done|]. cbn. unfold old_text in IH. lia.
Qed.

End Weave.

(** ** Lemmas: masking *)

Lemma list_choice {A B} (R : A -> B -> Prop) l :
  (forall x, x ∈ l -> exists y, R x y) -> exists k, Forall2 R l k.
Proof.
  induction l as [|x l IH]; intros H; [exists []; constructor|].
  destruct (H x) as [y Hy]; [left|]. destruct IH as [k Hk]; [intros z Hz; apply H; by right|].
  exists (y :: k). by constructor.
Qed.

Lemma Forall2_elem_l {A B} (R : A -> B -> Prop) l k x :
  Forall2 R l k -> x ∈ l -> exists y, y ∈ k /\ R x y.
Proof.
  intros H Hx. apply list_elem_of_lookup in Hx as [i Hi].
  destruct (Forall2_lookup_l _ _ _ _ _ H Hi) as (y & Hy & ?). exists y.
  split; [by eapply list_elem_of_lookup_2|done].
Qed.

(** Entries that determine their value have distinct images when their keys are distinct. *)
Lemma NoDup_image {A B C} (R : A -> B -> Prop) (f : A -> C) l k :
  Forall2 R l k -> (forall x x' y, R x y -> R x' y -> f x = f x') -> NoDup (map f l) -> NoDup k.
Proof.
  intros H Hf. induction H as [|x y l k Hxy H IH]; cbn; [constructor|].
  rewrite !NoDup_cons. intros [Hx Hnd]. split; [|auto]. intros Hy. apply Hx.
  apply list_elem_of_lookup in Hy as [i Hi].
  destruct (Forall2_lookup_r _ _ _ _ _ H Hi) as (x' & Hx' & HR).
  rewrite (Hf x x' y Hxy HR). apply list_elem_of_fmap. exists x'. split; [done|].
  by eapply list_elem_of_lookup_2.
Qed.

Section Automata.
Context {AC : AhoCorasick}.

(** The matches of the automaton cut the text at occurrences of patterns. *)
Lemma ac_find_iter_holes fuel pats off s :
  ac_build pats = true ->
  exists (l : list hole) ks tail,
    s = old_text l tail /\ length ks = length l /\
    ac_find_iter_from fuel pats off s = zip_with (fun k '(i, j, _) => (k, i, j)) ks (holes_at off l) /\
    Forall2 (fun (h : hole) k => pats !! k = Some (h.1.2)) l ks.
Proof.
  intros Hb. revert off s. induction fuel as [|n IH]; intros off s.
  { by exists [], [], s. }
  cbn [ac_find_iter_from]. rewrite ac_find_longest by done.
  destruct (leftmost_longest pats 0 s) as [[[k i] j]|] eqn:E;
    [|by exists [], [], s].
  apply leftmost_longest_Some in E as (a & p & b & -> & -> & -> & Hk).
  replace (0 + slen a + slen p) with (slen (a ++ p)) by (rewrite slen_app; lia).
  unfold get_from. rewrite app_assoc, split_at_app. cbn [fmap option_fmap option_map snd].
  destruct (IH (off + slen (a ++ p)) b) as (l & ks & tail & -> & Hlen & Hm & Hf).
  exists ((a, p, []) :: l), (k :: ks), tail.
  split_and!; [by rewrite <- app_assoc|cbn; lia| |by constructor].
  rewrite Hm. cbn [holes_at zip_with]. rewrite slen_app.
  replace (off + (slen a + slen p)) with (off + slen a + slen p) by lia.
  apply (f_equal2 cons); [|done]. apply (f_equal2 pair); [apply (f_equal2 pair); [done|lia]|lia].
Qed.
End Automata.

Lemma group_lookup_from m values s :
  foldl push_token m values !! s =
  match map token (filter (fun v => surface v = s) values) with
  | [] => m !! s
  | ts => Some (default [] (m !! s) ++ ts)
  end.
Proof.
  revert m. induction values as [|v values IH]; intros m; [done|]. cbn [foldl]. rewrite IH.
  unfold push_token. rewrite filter_cons. case_decide as Hs.
  - subst s. rewrite lookup_insert_eq. cbn. destruct (map token _); cbn; [done|].
    by rewrite <- app_assoc.
  - by rewrite lookup_insert_ne.
Qed.

Lemma group_lookup values s ts :
  group_tokens values !! s = Some ts ->
  ts = map token (filter (fun v => surface v = s) values).
Proof.
  unfold group_tokens. rewrite group_lookup_from, lookup_empty. case_match; [done|]. cbn. congruence.
Qed.

Lemma group_lookup_value values v :
  v ∈ values -> exists ts, group_tokens values !! surface v = Some ts /\ token v ∈ ts.
Proof.
  intros Hv. unfold group_tokens. rewrite group_lookup_from, lookup_empty.
  assert (Hin : token v ∈ map token (filter (fun w => surface w = surface v) values)).
  { apply list_elem_of_fmap. exists v. split; [done|]. by apply list_elem_of_filter. }
  destruct (map token _); [by apply elem_of_nil in Hin|]. cbn. eauto.
Qed.

Lemma grouped_keys_elem g s : s ∈ grouped_keys g <-> is_Some (g !! s).
Proof.
  unfold grouped_keys. rewrite sort_by_perm, list_elem_of_fmap. split.
  - intros ([s' ts] & -> & H). apply elem_of_map_to_list in H. cbn. eauto.
  - intros [ts Hts]. exists (s, ts). split; [done|]. by apply elem_of_map_to_list.
Qed.

Lemma grouped_keys_NoDup g : NoDup (grouped_keys g).
Proof. unfold grouped_keys. rewrite sort_by_perm. apply NoDup_fst_map_to_list. Qed.

(** The tokens taken for a sequence of matches, with the counts before and after. *)
Inductive uses (grouped : gmap text (list text)) (patterns : list text)
  : list nat -> list (nat * text) -> list nat -> Prop :=
| uses_nil counts : uses grouped patterns counts [] counts
| uses_cons counts k t us counts' s toks n :
    patterns !! k = Some s -> grouped !! s = Some toks -> counts !! k = Some n ->
    toks !! n = Some t -> uses grouped patterns (<[k := S n]> counts) us counts' ->
    uses grouped patterns counts ((k, t) :: us) counts'.

(** For each pattern the tokens are taken in order. *)
Lemma uses_take grouped patterns counts us counts' k s toks n :
  uses grouped patterns counts us counts' ->
  patterns !! k = Some s -> grouped !! s = Some toks -> counts !! k = Some n ->
  exists n', counts' !! k = Some n' /\
    take n' toks = take n toks ++ map snd (filter (fun u => u.1 = k) us).
Proof.
  intros H Hk Hs. revert n. induction H as [counts|counts k0 t us counts' s0 toks0 n0 Hk0 Hs0 Hn0 Ht0 H IH];
    intros n Hn.
  - exists n. cbn. by rewrite app_nil_r.
  - rewrite filter_cons. cbn [fst]. case_decide as Heq.
    + subst k0. simplify_eq. destruct (IH (S n0)) as (n' & Hn' & Htake).
      { apply list_lookup_insert_eq. by eapply lookup_lt_Some. }
      exists n'. split; [done|]. rewrite Htake, (take_S_r _ _ t) by done. cbn. by rewrite <- app_assoc.
    + apply IH. by rewrite list_lookup_insert_ne.
Qed.

Lemma uses_length grouped patterns counts us counts' :
  uses grouped patterns counts us counts' -> length counts' = length counts.
Proof. induction 1; [done|]. by rewrite IHuses, length_insert. Qed.

Lemma uses_token grouped patterns counts us counts' k t :
  uses grouped patterns counts us counts' -> (k, t) ∈ us ->
  exists s toks, patterns !! k = Some s /\ grouped !! s = Some toks /\ t ∈ toks.
Proof.
  induction 1 as [|counts k0 t0 us counts' s0 toks0 n0 Hk0 Hs0 Hn0 Ht0 H IH];
    [by rewrite elem_of_nil|].
  rewrite elem_of_cons. intros [Heq|Hin]; [|auto]. simplify_eq. exists s0, toks0.
  split_and!; try done. by eapply list_elem_of_lookup_2.
Qed.

Lemma mask_fold values grouped patterns typed ks (l : list hole) off counts reps counts' reps' :
  length ks = length l ->
  try_fold (mask_match values grouped patterns typed) (counts, reps)
    (zip_with (fun k '(i, j, _) => (k, i, j)) ks (holes_at off l)) = Ok (counts', reps') ->
  exists l' : list hole, map fst l' = map fst l /\ reps' = reps ++ holes_at off l' /\
    uses grouped patterns counts (zip ks (map snd l')) counts'.
Proof.
  revert l off counts reps. induction ks as [|k ks IH]; intros [|[[p o] x] l] off counts reps Hlen;
    try done; cbn [holes_at zip_with try_fold].
  - intros [= -> ->]. exists []. rewrite app_nil_r. split_and!; try done. constructor.
  - intros H. apply bind_ok in H as ([counts1 reps1] & Hm & H). unfold mask_match in Hm. binds.
    case_match; [done|]. simplify_eq.
    apply IH in H as (l' & Hl' & -> & Hu); [|cbn in Hlen; lia].
    exists ((p, o, x3) :: l'). cbn [map]. rewrite Hl'. split_and!; [done| |].
    + cbn [holes_at]. by rewrite <- app_assoc.
    + cbn. by eapply uses_cons.
Qed.

Lemma miscounted_false grouped patterns counts k s :
  length counts = length patterns -> miscounted grouped patterns counts = false ->
  patterns !! k = Some s -> exists toks, grouped !! s = Some toks /\ counts !! k = Some (length toks).
Proof.
  revert counts k. induction patterns as [|s0 patterns IH]; intros [|n counts] k Hlen Hm Hk; try done.
  cbn in Hm. zbool. destruct k as [|k]; cbn in Hk |- *.
  - simplify_eq. destruct (grouped !! s) as [toks|]; [|done]. zbool. apply Nat.eqb_eq in H as <-. eauto.
  - apply (IH counts); [cbn in Hlen; lia|done|done].
Qed.

(** Distinct keys have disjoint token lists, so all tokens taken are distinct. *)
Lemma NoDup_by_key (us : list (nat * text)) :
  (forall k, NoDup (map snd (filter (fun u => u.1 = k) us))) ->
  (forall k k' t, (k, t) ∈ us -> (k', t) ∈ us -> k = k') -> NoDup (map snd us).
Proof.
  induction us as [|[k t] us IH]; intros Hk Hdis; [constructor|]. cbn. apply NoDup_cons. split.
  - intros Hin. apply list_elem_of_fmap in Hin as ([k' t'] & Ht & Hin). cbn [snd] in Ht. subst t'.
    assert (k = k') as -> by (apply (Hdis k k' t); [left|by right]).
    specialize (Hk k'). rewrite filter_cons, decide_True in Hk by done. cbn in Hk.
    apply NoDup_cons in Hk as [Hk _]. apply Hk, list_elem_of_fmap. exists (k', t).
    split; [done|]. by apply list_elem_of_filter.
  - apply IH.
    + intros k0. specialize (Hk k0). rewrite filter_cons in Hk. case_decide; [|done].
      cbn in Hk. by apply NoDup_cons in Hk as [_ Hk].
    + intros k1 k2 t0 H1 H2. apply (Hdis k1 k2 t0); by right.
Qed.

Lemma NoDup_map_filter {A B} (f : A -> B) (P : A -> Prop) `{forall x, Decision (P x)} l :
  NoDup (map f l) -> NoDup (map f (filter P l)).
Proof.
  induction l as [|x l IH]; cbn [map]; [done|]. rewrite NoDup_cons, filter_cons. intros [Hx Hnd].
  case_decide; [|auto]. cbn [map]. rewrite NoDup_cons. split; [|auto]. intros Hin. apply Hx.
  apply list_elem_of_fmap in Hin as (y & -> & Hy). apply list_elem_of_filter in Hy as [_ Hy].
  apply list_elem_of_fmap. eauto.
Qed.

(** A token stands for one value. *)
Definition stands_for (values : list ProtectedValue) (h : hole) (i : nat) : Prop :=
  exists v, values !! i = Some v /\ h.2 = token v /\ h.1.2 = surface v.

(** Indices of values, each once and all of them. *)
Lemma all_indices values (l : list hole) idx :
  Forall2 (stands_for values) l idx -> NoDup idx -> (forall i, (i < length values)%nat -> i ∈ idx) ->
  idx ≡ₚ seq 0 (length values).
Proof.
  intros Hf Hnd Hall; apply NoDup_Permutation; [done | apply NoDup_seq |]; intros i; rewrite elem_of_seq.
  split; [| intros; apply Hall; lia]; intros [k Hk]%list_elem_of_lookup.
  destruct (Forall2_lookup_r _ _ _ _ _ Hf Hk) as (h & _ & v & Hv & _).
  apply lookup_lt_Some in Hv; lia.
Qed.

Lemma token_index values i j v w :
  NoDup (map token values) -> values !! i = Some v -> values !! j = Some w -> token v = token w -> i = j.
Proof.
  intros Hnd Hi Hj Ht. apply (NoDup_lookup _ i j (token v) Hnd); rewrite list_lookup_fmap.
  - by rewrite Hi.
  - rewrite Hj. cbn. by rewrite Ht.
Qed.

(** The tokens of a whole use of the groups are the tokens of all values, once each. *)
Lemma uses_all values (l : list hole) ks counts' :
  NoDup (map token values) -> length ks = length l ->
  let grouped := group_tokens values in let patterns := grouped_keys grouped in
  Forall2 (fun (h : hole) k => patterns !! k = Some (h.1.2)) l ks ->
  uses grouped patterns (replicate (length patterns) 0%nat) (zip ks (map snd l)) counts' ->
  miscounted grouped patterns counts' = false ->
  exists idx, Forall2 (stands_for values) l idx /\ NoDup idx /\
    forall i, (i < length values)%nat -> i ∈ idx.
Proof.
  intros Hnd Hlen grouped patterns Hpat Hu Hmis.
  set (us := zip ks (map snd l)) in *.
  assert (Hfull : forall k s, patterns !! k = Some s -> exists toks, grouped !! s = Some toks /\
    toks = map snd (filter (fun u => u.1 = k) us)).
  { intros k s Hk. pose proof (uses_length _ _ _ _ _ Hu) as Hl. rewrite length_replicate in Hl.
    destruct (miscounted_false grouped patterns counts' k s Hl Hmis Hk) as (toks & Htoks & Hc).
    exists toks. split; [done|].
    destruct (uses_take _ _ _ _ _ k s toks 0 Hu Hk Htoks) as (n' & Hn' & Htake).
    { apply lookup_replicate. split; [done|by eapply lookup_lt_Some]. }
    rewrite Hc in Hn'. simplify_eq. by rewrite firstn_all in Htake. }
  assert (Hvalue : forall k t, (k, t) ∈ us -> exists v, v ∈ values /\ token v = t /\ patterns !! k = Some (surface v)).
  { intros k t Hin. destruct (uses_token _ _ _ _ _ _ _ Hu Hin) as (s & toks & Hk & Htoks & Ht).
    apply group_lookup in Htoks. subst toks. apply list_elem_of_fmap in Ht as (v & -> & Hv).
    apply list_elem_of_filter in Hv as [<- Hv]. exists v. done. }
  assert (Hzip : map snd us = map snd l).
  { unfold us. apply snd_zip. rewrite length_map, Hlen. done. }
  assert (Hnd' : NoDup (map snd l)).
  { rewrite <- Hzip. apply NoDup_by_key.
    - intros k. destruct (patterns !! k) as [s|] eqn:Hk.
      + destruct (Hfull k s Hk) as (toks & Htoks & <-). apply group_lookup in Htoks. subst toks.
        by apply NoDup_map_filter.
      + assert (filter (fun u => u.1 = k) us = []) as ->; [|constructor].
        destruct (filter _ us) as [|[k0 t] r] eqn:Ef; [done|].
        assert (Hin : (k0, t) ∈ filter (fun u => u.1 = k) us) by (rewrite Ef; left).
        apply list_elem_of_filter in Hin as [Hk0 Hin]. cbn in Hk0. subst k0.
        apply Hvalue in Hin as (v & _ & _ & Hv). congruence.
    - intros k k' t H1 H2. apply Hvalue in H1 as (v & Hv & Htv & Hk), H2 as (w & Hw & Htw & Hk').
      apply list_elem_of_lookup in Hv as [i Hi], Hw as [j Hj].
      assert (i = j) as -> by (apply (token_index values i j v w Hnd); congruence).
      simplify_eq. eapply NoDup_lookup; [apply grouped_keys_NoDup|exact Hk|exact Hk']. }
  destruct (list_choice (stands_for values) l) as [idx Hidx].
  { intros h Hh. apply list_elem_of_lookup in Hh as [n Hn].
    destruct (Forall2_lookup_l _ _ _ _ _ Hpat Hn) as (k & Hk & Hp).
    assert (Hin : (k, h.2) ∈ us).
    { unfold us. apply list_elem_of_lookup. exists n. apply lookup_zip_with_Some.
      exists k, h.2. split_and!; [done|done|]. rewrite list_lookup_fmap. by rewrite Hn. }
    apply Hvalue in Hin as (v & Hv & Ht & Hs). apply list_elem_of_lookup in Hv as [i Hi].
    exists i, v. split_and!; [done..|]. congruence. }
  exists idx. split_and!; [done| |].
  - eapply (NoDup_image (stands_for values) snd); [exact Hidx| |exact Hnd'].
    intros x x' y (v & Hv & -> & _) (w & Hw & -> & _). congruence.
  - intros i Hi. apply lookup_lt_is_Some in Hi as [v Hv].
    destruct (group_lookup_value values v) as (toks & Htoks & Hin);
      [by eapply list_elem_of_lookup_2|].
    assert (Hkey : surface v ∈ patterns) by (apply grouped_keys_elem; eauto).
    apply list_elem_of_lookup in Hkey as [k Hk].
    destruct (Hfull k _ Hk) as (toks' & Htoks' & ->).
    assert (Ht : token v ∈ map snd l).
    { fold grouped in Htoks. rewrite Htoks' in Htoks. injection Htoks as <-.
      rewrite <- Hzip. apply list_elem_of_fmap in Hin as (u & -> & Hu').
      apply list_elem_of_filter in Hu' as [_ Hu']. apply list_elem_of_fmap. eauto. }
    apply list_elem_of_fmap in Ht as (h & Ht & Hh).
    destruct (Forall2_elem_l _ _ _ _ Hidx Hh) as (j & Hj & w & Hw & Htw & _).
    by rewrite (token_index values i j v w Hnd Hv Hw) by congruence.
Qed.

Section MaskRestore.
Context {UT : UnicodeTables} {RE : RegexEngine} {AC : AhoCorasick}.
Abbreviation sentinel := (matches (body SENTINEL_PATTERN)).

(** The tokens of the values, each in its own hole. *)
Definition accounts_for (values : list ProtectedValue) (l : list hole) : Prop :=
  exists idx, Forall2 (stands_for values) l idx /\ NoDup idx /\
    forall i, (i < length values)%nat -> i ∈ idx.

(** What a successful masking did. *)
Lemma mask_spec plan candidate m :
  NoDup (map token (values plan)) -> mask_raw_candidate plan candidate = Ok m ->
  is_match SENTINEL_PATTERN candidate = false /\ vlen (values plan) <= MAX_PROTECTED_OCCURRENCES /\
  slen candidate <= MAX_PROTECTED_TEXT_BYTES /\ slen m <= MAX_PROTECTED_TEXT_BYTES /\
  exists l tail, candidate = old_text l tail /\ m = new_text l tail /\ accounts_for (values plan) l.
Proof.
  intros Hnd. unfold mask_raw_candidate. case_match eqn:Esize; [done|]. zbool.
  destruct (is_match _ _); [done|]. intros Hm. binds. case_match; [done|].
  case_bool_decide as Hempty.
  { injection Hm as <-. split_and!; try done; try lia. exists [], candidate. split_and!; [done..|].
    exists []. split_and!; [constructor|constructor|]. intros i Hi.
    apply lookup_lt_is_Some in Hi as [v Hv].
    destruct (group_lookup_value (values plan) v) as (ts & Hts & _);
      [by eapply list_elem_of_lookup_2|]. rewrite Hempty in Hts. by rewrite lookup_empty in Hts. }
  destruct (ac_build _) eqn:Eb; [|done]. cbn [negb] in Hm.
  apply bind_ok in Hm as ([counts' reps] & Hfold & Hm).
  destruct (miscounted _ _ counts') eqn:Emis; [done|].
  destruct (ac_find_iter_holes (length candidate) _ 0 candidate Eb) as (l & ks & tail & Hc & Hlen & Hms & Hpat).
  unfold ac_find_iter in Hfold. rewrite Hms in Hfold.
  apply mask_fold in Hfold as (l' & Hl' & -> & Hu); [|done]. cbn [app] in Hm.
  assert (Hlen' : length l' = length l) by (apply (f_equal length) in Hl'; by rewrite !length_map in Hl').
  assert (Hold : candidate = old_text l' tail).
  { rewrite Hc. clear -Hl'. revert l' Hl'. induction l as [|[[p o] x] l IH]; intros [|[[p' o'] x'] l'] H;
      try done. cbn in H. injection H as -> -> H. cbn. f_equal. f_equal. by apply IH. }
  assert (Hpat' : Forall2 (fun (h : hole) k => grouped_keys (group_tokens (values plan)) !! k = Some h.1.2) l' ks).
  { clear -Hpat Hl'. revert l' Hl'. induction Hpat as [|h k l ks Hh Hf IH]; intros [|h' l'] Hl'; try done.
    cbn in Hl'. injection Hl' as H1 H2. constructor; [by rewrite H1|by apply IH]. }
  destruct (spliced_len _ _) as [n|] eqn:En; [|done].
  rewrite Hold in En. rewrite <- (Z.add_0_l (slen (old_text l' tail))) in En.
  apply spliced_len_sound in En. destruct (Z.leb_spec n MAX_PROTECTED_TEXT_BYTES); [|done].
  rewrite Hold in Hm. pose proof (splice_holes [] l' tail) as Hsp. cbn [app slen] in Hsp.
  rewrite Hsp in Hm. injection Hm as <-.
  split_and!; try done; try lia. exists l', tail. split_and!; [done..|].
  apply (uses_all _ l' ks counts'); [done|congruence|done|done|done].
Qed.

Lemma issue_tokens_spec issued n vs :
  NoDup (map token vs) -> Forall (fun v => issued !! token v = None) vs ->
  exists issued', issue_tokens issued n vs = Ok issued' /\
    (forall i v, vs !! i = Some v -> issued' !! token v = Some (n + i)%nat) /\
    (forall t, t ∉ map token vs -> issued' !! t = issued !! t).
Proof.
  revert issued n. induction vs as [|v vs IH]; intros issued n Hnd Hf; cbn [issue_tokens map].
  { exists issued. split_and!; done. }
  inv Hf. cbn in Hnd. apply NoDup_cons in Hnd as [Hv Hnd]. rewrite H1.
  destruct (IH (<[token v := n]> issued) (S n)) as (issued' & Hi & Hin & Hout); [done| |].
  { rewrite Forall_forall in *. intros w Hw. rewrite lookup_insert_ne; [auto|].
    intros Heq. apply Hv. rewrite Heq. apply list_elem_of_fmap. eauto. }
  exists issued'. split_and!; [done| |].
  - intros [|i] w Hw; cbn in Hw; simplify_eq.
    + rewrite Hout by done. rewrite lookup_insert_eq, Nat.add_0_r. done.
    + rewrite (Hin i) by done. f_equal. lia.
  - intros t Ht. rewrite not_elem_of_cons in Ht. destruct Ht as [Hne Ht].
    rewrite Hout by done. by rewrite lookup_insert_ne.
Qed.

Lemma index_match_step cand issued counts ms i j t k :
  slice cand i j = Some t -> issued !! t = Some k -> counts !! k = Some 0 ->
  index_match cand issued (counts, ms) (i, j) = Ok (<[k := 1]> counts, ms ++ [(i, j, k)]).
Proof. intros H1 H2 H3. unfold index_match. rewrite H1. cbn. rewrite H2. cbn. by rewrite H3. Qed.

(** Indexing the sentinels of a woven text gives the index of each hole. *)
Lemma index_fold vs issued pre (l : list hole) tail idx counts ms :
  Forall2 (stands_for vs) (map swap_hole l) idx -> NoDup idx ->
  (forall i v, vs !! i = Some v -> issued !! token v = Some i) ->
  (forall i, i ∈ idx -> counts !! i = Some 0) ->
  exists counts', try_fold (index_match (pre ++ old_text l tail) issued) (counts, ms)
      (map (fun '(i, j, _) => (i, j)) (holes_at (slen pre) l))
    = Ok (counts', ms ++ zip_with (fun '(i, j, _) k => (i, j, k)) (holes_at (slen pre) l) idx) /\
    length counts' = length counts /\
    (forall i, counts' !! i = if decide (i ∈ idx) then Some 1 else counts !! i).
Proof.
  revert pre idx counts ms. induction l as [|[[p o] n] l IH]; intros pre idx counts ms Hf Hnd Hi Hc.
  { inv Hf. exists counts. cbn. rewrite app_nil_r. done. }
  cbn [map swap_hole] in Hf. inv Hf. destruct H1 as (v & Hv & Ho & Hn). cbn in Ho, Hn.
  apply NoDup_cons in Hnd as [Hy Hnd].
  cbn [holes_at map try_fold].
  rewrite (index_match_step _ _ _ _ _ _ o y); [|apply slice_spec|by rewrite Ho; apply Hi|apply Hc; left].
  2: { exists (pre ++ p), (old_text l tail). rewrite slen_app. cbn [old_text foldr].
       rewrite <- app_assoc. split_and!; done || lia. }
  cbn [mbind result_bind].
  specialize (IH (pre ++ p ++ o) l' (<[y := 1]> counts) (ms ++ [(slen pre + slen p, slen pre + slen p + slen o, y)])).
  destruct IH as (counts' & Hfold & Hlen & Hcs); [done|done|done| |].
  { intros i Hin. rewrite list_lookup_insert_ne by (intros ->; done). apply Hc. by right. }
  exists counts'. rewrite !slen_app, <- !app_assoc, Z.add_assoc in Hfold. cbn [old_text foldr].
  unfold old_text in Hfold. rewrite Hfold. split_and!.
  - cbn [app zip_with holes_at]. done.
  - by rewrite Hlen, length_insert.
  - intros i. rewrite Hcs. destruct (decide (i = y)) as [->|Hne].
    + rewrite decide_False by done. rewrite decide_True by left.
      apply list_lookup_insert_eq. by eapply lookup_lt_Some, Hc; left.
    + rewrite list_lookup_insert_ne by done. destruct (decide (i ∈ l')), (decide (i ∈ y :: l')); set_solver.
Qed.

Lemma surfaces_of_spec vs (l : list hole) idx off :
  Forall2 (stands_for vs) (map swap_hole l) idx ->
  surfaces_of vs (zip_with (fun '(i, j, _) k => (i, j, k)) (holes_at off l) idx) = Ok (holes_at off l).
Proof.
  revert off idx. induction l as [|[[p o] n] l IH]; intros off idx Hf; [by inv Hf|].
  cbn [map swap_hole] in Hf. inv Hf. destruct H1 as (v & Hv & Ho & Hn). cbn in Hn. subst n.
  cbn [holes_at zip_with surfaces_of]. rewrite Hv. cbn [expect mbind result_bind].
  by rewrite IH.
Qed.

(** Restoring a text whose sentinels are those of the plan, once each. *)
Lemma restore_holes plan (l : list hole) tail :
  NoDup (map token (values plan)) -> Forall (fun v => sentinel (token v)) (values plan) ->
  vlen (values plan) <= MAX_PROTECTED_OCCURRENCES ->
  slen (old_text l tail) <= MAX_PROTECTED_TEXT_BYTES ->
  slen (new_text l tail) <= MAX_PROTECTED_TEXT_BYTES ->
  accounts_for (values plan) (map swap_hole l) ->
  Forall (fun '(p, _, _) => sentinel_free p) l -> sentinel_free tail ->
  restore plan (old_text l tail) = Ok (new_text l tail).
Proof.
  intros Hnd Hsent Hn Hold Hnew (idx & Hf & Hndi & Hcov) Hfree Htail. unfold restore, indexed_sentinel_matches.
  destruct (Z.ltb_spec MAX_PROTECTED_TEXT_BYTES (slen (old_text l tail))); [lia|].
  destruct (Z.ltb_spec MAX_PROTECTED_OCCURRENCES (vlen (values plan))); [lia|]. cbn [orb].
  destruct (issue_tokens_spec ∅ 0 (values plan) Hnd) as (issued & -> & Hi & _).
  { apply Forall_forall. intros v _. apply lookup_empty. }
  cbn [mbind result_bind].
  assert (Hsl : Forall (fun '(p, o, _) => sentinel_free p /\ sentinel o) l).
  { rewrite Forall_forall. intros [[p o] n] Hin. rewrite Forall_forall in Hfree.
    split; [by apply (Hfree (p, o, n))|].
    destruct (Forall2_elem_l _ _ _ (swap_hole (p, o, n)) Hf) as (i & _ & v & Hv & Ho & _).
    { apply list_elem_of_fmap. eauto. }
    cbn in Ho. rewrite Ho. by apply (Forall_lookup_1 _ _ _ _ Hsent Hv). }
  unfold find_iter. rewrite (find_sentinels _ 0 l tail); [|done|done|].
  2: { apply old_text_length. eapply Forall_impl; [exact Hsl|]. intros [[p o] n] [_ Ho].
       apply sentinel_braces in Ho as (? & ? & -> & _). done. }
  destruct (index_fold (values plan) issued [] l tail idx (replicate (length (values plan)) 0) [])
    as (counts & Hfold & Hlen & Hcs); [done|done|done| |].
  { intros i Hin. apply lookup_replicate. split; [done|].
    apply list_elem_of_lookup in Hin as [n Hin].
    destruct (Forall2_lookup_r _ _ _ _ _ Hf Hin) as (h & _ & v & Hv & _). by eapply lookup_lt_Some. }
  cbn [app slen] in Hfold. rewrite Hfold. cbn [mbind result_bind].
  assert (existsb (fun c => negb (c =? 1)) counts = false) as ->.
  { apply not_true_iff_false. rewrite existsb_exists. intros (c & Hc & Hne).
    apply list_elem_of_In, list_elem_of_lookup in Hc as [i Hi'].
    pose proof (lookup_lt_Some _ _ _ Hi') as Hlt. rewrite Hlen, length_replicate in Hlt.
    rewrite Hcs, decide_True in Hi' by auto. simplify_eq. }
  cbn [mbind result_bind]. rewrite surfaces_of_spec by done. cbn [mbind result_bind].
  rewrite <- (Z.add_0_l (slen (old_text l tail))).
  rewrite spliced_len_complete; [|lia|unfold MAX_PROTECTED_TEXT_BYTES, usize_max, u64_max in *; lia].
  destruct (Z.leb_spec (0 + slen (new_text l tail)) MAX_PROTECTED_TEXT_BYTES); [|lia].
  apply (splice_holes [] l tail).
Qed.

(** What [build] establishes about a plan. *)
Record plan_ok (plan : ProtectionPlan) : Prop := {
  po_tokens : NoDup (map token (values plan));
  po_sentinels : Forall (fun v => sentinel (token v)) (values plan)
}.

(** Masking and restoring: whatever a plan masks, it restores. *)
Lemma mask_restore plan candidate m :
  plan_ok plan -> mask_raw_candidate plan candidate = Ok m -> restore plan m = Ok candidate.
Proof.
  intros [Hnd Hs] Hm. apply mask_spec in Hm as (Hfree & Hn & Hc & Hl & l & tail & -> & -> & Hacc); [|done].
  apply is_match_free in Hfree. rewrite <- old_swap, <- (new_swap l tail) in *.
  assert (Hparts : Forall (fun '(p, _, _) => sentinel_free p) l /\ sentinel_free tail).
  { rewrite new_swap in Hfree. clear -Hfree. revert Hfree.
    induction l as [|[[p o] n] l IH]; cbn; intros H; [split; [constructor|done]|].
    apply sentinel_free_app in H as [Hp H]. apply sentinel_free_app in H as [_ H].
    destruct (IH H). split; [by constructor|done]. }
  destruct Hparts as [Hp Ht]. apply restore_holes; [done..| | |done].
  - rewrite map_map. assert (map (fun x => swap_hole (swap_hole x)) l = l) as ->; [|done].
    clear. induction l as [|[[p o] n] l IH]; cbn; by rewrite ?IH.
  - clear -Hp. induction Hp as [|[[p o] n] l Hh H IH]; cbn; by constructor.
Qed.

(** Tokens of [build]: four digits, so they are sentinels and differ by their ordinal. *)
Lemma sentinel_token_ok k n : 0 <= n < 10000 -> sentinel (sentinel_token k n).
Proof.
  intros Hn. apply sentinel_iff. exists (token_label k), (pad4 (to_string n)).
  split_and!; [done|by destruct k|by destruct k; repeat constructor|by apply pad4_length|].
  unfold pad4. apply Forall_app. split; [apply Forall_replicate; by rewrite digit_ascii|].
  eapply Forall_impl; [apply to_string_digits; lia|]. intros c Hc. cbn in Hc.
  rewrite digit_ascii; [done|]. unfold is_ascii_digit in Hc. apply in_range_true in Hc. lia.
Qed.

Lemma sentinel_token_inj k n k' n' :
  0 <= n < 10000 -> 0 <= n' < 10000 -> sentinel_token k n = sentinel_token k' n' -> n = n'.
Proof.
  intros Hn Hn' H. rewrite <- (pad4_value n Hn), <- (pad4_value n' Hn').
  unfold sentinel_token in H. rewrite !app_assoc in H.
  apply app_inj_2 in H as [H _]; [|done]. f_equal.
  apply app_inj_2 in H as [_ H]; [done|]. by rewrite !pad4_length.
Qed.

Lemma mask_spans_values source cursor n selected masked vs :
  0 <= n -> n + vlen selected < 10000 ->
  mask_spans source cursor n selected = Ok (masked, vs) ->
  length vs = length selected /\
  Forall (fun v => exists k i, token v = sentinel_token k i /\ n < i < 10000) vs /\
  NoDup (map token vs).
Proof.
  revert cursor n masked vs. induction selected as [|sp selected IH]; intros cursor n masked vs Hn Hlt;
    cbn [mask_spans]; intros H; binds.
  { simplify_eq. split_and!; constructor. }
  destruct x1 as [masked' vs']. rewrite vlen_cons in Hlt. simplify_eq.
  pose proof (vlen_nonneg selected).
  apply IH in E1 as (Hl & Hf & Hnd); [|lia..]. cbn. split_and!; [lia| |].
  - constructor; [exists (kind sp), (n + 1); cbn; split; [done|lia]|].
    eapply Forall_impl; [exact Hf|]. intros v (k & i & ? & ?). exists k, i. split; [done|lia].
  - apply NoDup_cons. split; [|done]. intros Hin. apply list_elem_of_fmap in Hin as (v & Ht & Hv).
    rewrite Forall_forall in Hf. apply Hf in Hv as (k & i & Hi & ?). rewrite Hi in Ht.
    apply sentinel_token_inj in Ht; lia.
Qed.

(** The token of each value names its kind and its place in the list. *)
Lemma mask_spans_tokens source cursor n selected masked vs i v :
  mask_spans source cursor n selected = Ok (masked, vs) -> vs !! i = Some v ->
  token v = sentinel_token (value_kind v) (n + Z.of_nat i + 1).
Proof.
  revert cursor n masked vs i. induction selected as [|sp selected IH]; intros cursor n masked vs i;
    cbn [mask_spans]; intros H Hv; binds; [simplify_eq; by rewrite lookup_nil in Hv|].
  destruct x1 as [masked' vs']. simplify_eq. destruct i as [|i]; cbn in Hv; simplify_eq; cbn [token value_kind].
  - by replace (n + Z.of_nat 0 + 1) with (n + 1) by lia.
  - rewrite (IH _ _ _ _ _ E1 Hv). by replace (n + 1 + Z.of_nat i + 1) with (n + Z.of_nat (S i) + 1) by lia.
Qed.

(** [build] answers with a plan that masks its source to the masked source. *)
Lemma build_ok source terms plan :
  build source terms = Ok plan ->
  plan_ok plan /\ mask_raw_candidate plan source = Ok (masked_source plan) /\
  typed_counts source = Ok (plan_typed_counts plan) /\ protected_terms_are_valid terms = true.
Proof.
  unfold build. case_match; [done|]. case_match eqn:Et; [done|]. zbool. case_match; [done|].
  intros Hb. binds. destruct x2 as [masked vs]. case_match; [done|].
  assert (Hplan : plan = {| masked_source := masked; values := vs; plan_typed_counts := x1 |} /\
    mask_raw_candidate {| masked_source := masked; values := vs; plan_typed_counts := x1 |} source = Ok masked).
  { destruct (mask_raw_candidate _ source) as [r|[]|] eqn:Em; simplify_eq.
    cbn in Hb. unfold text_eqb in Hb. case_bool_decide; simplify_eq. done. }
  destruct Hplan as [-> Hm]. split_and!; [|done..].
  assert (Hsel : vlen x0 <= MAX_PROTECTED_OCCURRENCES).
  { pose proof (collect_source_spans_safe source terms) as Hc. rewrite E in Hc. cbn in Hc.
    pose proof (select_safe source x Hc) as Hs. rewrite E0 in Hs. by destruct Hs as (_ & _ & ?). }
  unfold MAX_PROTECTED_OCCURRENCES in Hsel.
  apply mask_spans_values in E2 as (_ & Hf & Hnd); [|lia..]. split; [done|]. cbn.
  eapply Forall_impl; [exact Hf|]. intros v (k & i & -> & ?). apply sentinel_token_ok. lia.
Qed.

Lemma build_tokens source terms plan i v :
  build source terms = Ok plan -> values plan !! i = Some v ->
  token v = sentinel_token (value_kind v) (Z.of_nat i + 1).
Proof.
  unfold build. repeat (case_match; [done|]). intros Hb. binds. destruct x2 as [masked vs]. case_match; [done|].
  intros Hv. assert (values plan = vs) as Hvs.
  { destruct (mask_raw_candidate _ source) as [r|[]|]; simplify_eq. case_match; simplify_eq. done. }
  rewrite Hvs in Hv. by rewrite (mask_spans_tokens _ _ _ _ _ _ _ _ E2 Hv).
Qed.

End MaskRestore.

(** ** Lemmas: no panic *)

Section Safety.
Context {UT : UnicodeTables} {RE : RegexEngine} {AC : AhoCorasick}.
Abbreviation sentinel := (matches (body SENTINEL_PATTERN)).

(** The matches of a search cut the text into holes. *)
Lemma find_iter_holes fuel r off s :
  anchored r = false ->
  exists (l : list hole) tail, s = old_text l tail /\
    find_iter_from fuel r off s = map (fun '(i, j, _) => (i, j)) (holes_at off l) /\
    Forall (fun '(_, o, _) => matches (body r) o) l.
Proof.
  intros Hr. revert off s. induction fuel as [|n IH]; intros off s; [by exists [], s|].
  cbn [find_iter_from]. rewrite re_find_leftmost by done.
  destruct (leftmost_first (body r) 0 s) as [[i j]|] eqn:E; [|by exists [], s].
  apply leftmost_first_Some in E as (a & m & b & -> & -> & -> & Hm & _).
  replace (0 + slen a + slen m) with (slen (a ++ m)) by (rewrite slen_app; lia).
  unfold get_from. rewrite app_assoc, split_at_app. cbn [fmap option_fmap option_map snd].
  destruct (IH (off + slen (a ++ m)) b) as (l & tail & -> & Hf & Hall).
  exists ((a, m, []) :: l), tail. split_and!; [by rewrite <- app_assoc| |by constructor].
  rewrite Hf. cbn [holes_at map]. rewrite slen_app.
  replace (off + (slen a + slen m)) with (off + slen a + slen m) by lia.
  apply (f_equal2 cons); [apply (f_equal2 pair); lia|done].
Qed.

Lemma issue_tokens_inv issued n vs issued' t k :
  issue_tokens issued n vs = Ok issued' -> issued' !! t = Some k ->
  issued !! t = Some k \/ exists i v, vs !! i = Some v /\ token v = t /\ k = (n + i)%nat.
Proof.
  revert issued n. induction vs as [|v vs IH]; intros issued n; cbn [issue_tokens]; [intros [= <-]; auto|].
  destruct (issued !! token v); [done|]. intros H Ht.
  destruct (IH _ _ H Ht) as [Hn|(i & w & Hw & Hwt & ->)].
  - rewrite lookup_insert in Hn. case_decide; simplify_eq; [|auto]. right. exists 0%nat, v. split_and!; done || lia.
  - right. exists (S i), w. split_and!; done || lia.
Qed.

Lemma issued_value vs issued t k :
  issue_tokens ∅ 0 vs = Ok issued -> issued !! t = Some k -> exists v, vs !! k = Some v /\ token v = t.
Proof.
  intros Hi Hk. destruct (issue_tokens_inv _ _ _ _ _ _ Hi Hk) as [Hn|(i & v & Hv & Ht & ->)]; [|by exists v].
  by rewrite lookup_empty in Hn.
Qed.

(** With enough fuel the parts between the sentinels it finds hold none. *)
Lemma sentinel_holes fuel off s :
  (length s <= fuel)%nat ->
  exists (l : list hole) tail, s = old_text l tail /\
    find_iter_from fuel SENTINEL_PATTERN off s = map (fun '(i, j, _) => (i, j)) (holes_at off l) /\
    Forall (fun h : hole => sentinel_free h.1.1) l /\ sentinel_free tail.
Proof.
  revert off s; induction fuel as [|n IH]; intros off s Hl.
  { destruct s; [| cbn in Hl; lia]; exists [], []; split_and!; [done | done | constructor | by apply sentinel_free_nil]. }
  cbn [find_iter_from]; rewrite re_find_leftmost by done.
  destruct (leftmost_first (body SENTINEL_PATTERN) 0 s) as [[i j]|] eqn:E.
  - apply leftmost_first_Some in E as (a & m & b & -> & -> & -> & Hm & _ & Hbefore).
    replace (0 + slen a + slen m) with (slen (a ++ m)) by (rewrite slen_app; lia).
    unfold get_from; rewrite app_assoc, split_at_app; cbn [fmap option_fmap option_map snd].
    destruct (IH (off + slen (a ++ m)) b) as (l & tail & -> & Hf & Hgaps & Htail).
    { apply sentinel_braces in Hm as (c & m' & -> & _); rewrite !length_app in Hl; cbn in Hl; lia. }
    exists ((a, m, []) :: l), tail; rewrite <- app_assoc in *; split_and!; [done | | | done].
    + rewrite Hf; cbn [holes_at map]; rewrite slen_app.
      replace (off + (slen a + slen m)) with (off + slen a + slen m) by lia.
      apply (f_equal2 cons); [apply (f_equal2 pair); lia | done].
    + constructor; [| done]; cbn [fst]; intros u v w -> Hv.
      specialize (Hbefore u (v ++ w) eq_refl); rewrite <- app_assoc, sentinel_here in Hbefore by done.
      apply sentinel_braces in Hv as (c & v' & -> & _); by discriminate Hbefore.
  - exists [], s; split_and!; [done | done | constructor |]; intros u v w -> Hv.
    pose proof (leftmost_first_None _ _ _ E u (v ++ w) eq_refl) as Hn; by rewrite sentinel_here in Hn.
Qed.

Lemma old_text_fst (l l' : list hole) tail : map fst l' = map fst l -> old_text l' tail = old_text l tail.
Proof.
  revert l'; induction l as [|[[p o] n] l IH]; intros [|[[p' o'] n'] l']; cbn [map fst]; try done.
  intros [= -> -> H]; cbn [old_text foldr]; fold (old_text l' tail) (old_text l tail); by rewrite (IH l').
Qed.

(** Indexing the matches of a search: a sequence of holes whose contents were
    issued, no one of them twice. *)
Lemma index_fold_inv vs issued pre (l : list hole) tail counts ms counts' ms' :
  (forall t k, issued !! t = Some k -> exists v, vs !! k = Some v /\ token v = t) ->
  try_fold (index_match (pre ++ old_text l tail) issued) (counts, ms)
    (map (fun '(i, j, _) => (i, j)) (holes_at (slen pre) l)) = Ok (counts', ms') ->
  exists (l' : list hole) idx, map fst l' = map fst l /\
    surfaces_of vs (drop (length ms) ms') = Ok (holes_at (slen pre) l') /\
    take (length ms) ms' = ms /\
    Forall2 (stands_for vs) (map swap_hole l') idx /\ NoDup idx /\
    (forall i, i ∈ idx -> counts !! i = Some 0) /\
    (forall i, counts' !! i = if decide (i ∈ idx) then Some 1 else counts !! i).
Proof.
  intros Hi. revert pre counts ms. induction l as [|[[p o] n] l IH]; intros pre counts ms;
    cbn [holes_at map try_fold].
  { intros [= -> ->]. exists [], []. rewrite drop_all, firstn_all. split_and!; try done; [constructor|].
    intros i Hin; inversion Hin. }
  intros H. apply bind_ok in H as ([c1 ms1] & Hm & H). unfold index_match in Hm. binds.
  case_match eqn:Hz; [done|]. simplify_eq. destruct (Hi _ _ E0) as (v & Hv & Htok).
  apply negb_false_iff, Z.eqb_eq in Hz. subst x1.
  assert (x = o) as ->.
  { assert (Ho : slice (pre ++ old_text ((p, o, n) :: l) tail) (slen pre + slen p) (slen pre + slen p + slen o) = Some o).
    { apply slice_spec. exists (pre ++ p), (old_text l tail). rewrite slen_app. cbn [old_text foldr].
      rewrite <- app_assoc. split_and!; done || lia. }
    congruence. }
  specialize (IH (pre ++ p ++ o) (<[x0 := 1]> counts)
    (ms ++ [(slen pre + slen p, slen pre + slen p + slen o, x0)])).
  rewrite !slen_app, <- !app_assoc, Z.add_assoc in IH. cbn [old_text foldr] in H.
  apply IH in H as (l' & idx & Hl' & Hsur & Htake & Hst & Hnd & Hz & Hc). clear IH.
  exists ((p, o, surface v) :: l'), (x0 :: idx). cbn [map fst]. rewrite Hl'.
  split; [done|]. rewrite length_app in *. cbn [length] in *.
  assert (Hms : ms' = (ms ++ [(slen pre + slen p, slen pre + slen p + slen o, x0)])
    ++ drop (length ms + 1) ms') by (rewrite <- Htake at 1; by rewrite take_drop).
  assert (Hnew : x0 ∉ idx).
  { intros Hin. apply Hz in Hin. rewrite list_lookup_insert_eq in Hin; [done | by eapply lookup_lt_Some]. }
  rewrite Hms, <- app_assoc. split_and!.
  - rewrite drop_app_length. cbn [app surfaces_of]. rewrite Hv. cbn [expect mbind result_bind].
    by rewrite Hsur.
  - by rewrite take_app_length.
  - cbn [map swap_hole]. constructor; [|done]. exists v. done.
  - by constructor.
  - intros i [->|Hin]%elem_of_cons; [done|]. pose proof (Hz _ Hin) as Hzi.
    rewrite list_lookup_insert_ne in Hzi by (intros ->; done). done.
  - intros i. rewrite Hc. destruct (decide (i = x0)) as [->|Hne].
    + rewrite decide_False by done. rewrite decide_True by left.
      apply list_lookup_insert_eq. by eapply lookup_lt_Some.
    + rewrite list_lookup_insert_ne by done. destruct (decide (i ∈ idx)), (decide (i ∈ x0 :: idx)); set_solver.
Qed.

(** What a successful restoration did: each hole held an issued token, every
    value of the plan came back exactly once, and there is no sentinel
    between the holes. *)
Lemma restore_pieces plan c r :
  restore plan c = Ok r ->
  exists l tail, c = old_text l tail /\ r = new_text l tail /\ accounts_for (values plan) (map swap_hole l) /\
    Forall (fun h : hole => sentinel_free h.1.1) l /\ sentinel_free tail.
Proof.
  unfold restore. intros H. apply bind_ok in H as (ms & Hms & H). apply bind_ok in H as (reps & Hr & H).
  unfold indexed_sentinel_matches in Hms. destruct (_ || _) in Hms; [done|].
  apply bind_ok in Hms as (issued & Hi & Hms).
  apply bind_ok in Hms as ([counts ms'] & Hf & Hms). destruct (existsb _ _) eqn:Hones in Hms; [done|]. simplify_eq.
  destruct (sentinel_holes (length c) 0 c (le_n _)) as (l & tail & Hc & Hm & Hgaps & Htail).
  unfold find_iter in Hf. rewrite Hm, Hc in Hf.
  apply (index_fold_inv (values plan) issued [] l tail) in Hf as (l' & idx & Hfst & Hs & _ & Hst & Hnd & _ & Hcs).
  - pose proof (old_text_fst l l' tail Hfst) as Hl'.
    cbn [length slen] in Hs. rewrite drop_0 in Hs. rewrite Hs in Hr. injection Hr as <-.
    destruct (spliced_len _ _); [|done]. case_match; [|done].
    rewrite Hc, <- Hl' in H. pose proof (splice_holes [] l' tail) as Hsp. cbn [app slen] in Hsp.
    rewrite Hsp in H. injection H as <-. exists l', tail. rewrite Hc, Hl'. split_and!; [done..| | |done].
    + exists idx. split_and!; [done..|]. intros i Hlt. specialize (Hcs i).
      destruct (decide (i ∈ idx)); [done|]. rewrite lookup_replicate_2 in Hcs by done.
      exfalso. apply not_true_iff_false in Hones. apply Hones, existsb_exists. exists 0.
      split; [|done]. by eapply list_elem_of_In, list_elem_of_lookup_2.
    + rewrite <- (Forall_map fst (fun ho => sentinel_free ho.1)) in Hgaps |- *. by rewrite Hfst.
  - intros t k. by apply issued_value.
Qed.

Lemma restore_inv plan c r :
  restore plan c = Ok r ->
  exists l tail, c = old_text l tail /\ r = new_text l tail /\ accounts_for (values plan) (map swap_hole l).
Proof. intros (l & tail & ? & ? & ? & _)%restore_pieces; eauto. Qed.

(** A text in which values stand between the given parts, each value written
    as [f] writes it. *)
Definition written (f : ProtectedValue -> text) (l : list (text * ProtectedValue)) (tail : text) : text :=
  foldr (fun '(p, v) rest => p ++ f v ++ rest) tail l.

(** [r] is the masked text with its placeholders replaced: every value of the
    plan has its own placeholder, in the masked text at exactly one place,
    there is no other placeholder in it, and [r] differs from it in nothing
    but that each placeholder is the value it stands for. *)
Definition substituted (plan : ProtectionPlan) (masked r : text) : Prop :=
  NoDup (map token (values plan)) /\
  exists l tail, masked = written token l tail /\ r = written surface l tail /\ map snd l ≡ₚ values plan /\
    Forall (fun '(p, _) => sentinel_free p) l /\ sentinel_free tail.

Lemma omap_lookup_seq {A} (l : list A) : omap (fun i => l !! i) (seq 0 (length l)) = l.
Proof.
  induction l as [|x l IH]; cbn [length seq omap list_omap lookup list_lookup]; [done |]; f_equal.
  rewrite <- fmap_S_seq; rewrite <- IH at 2; clear; induction (seq 0 (length l)) as [|i js IH]; [done |].
  cbn [fmap list_fmap omap list_omap lookup list_lookup]; by rewrite IH.
Qed.

Lemma restore_substituted plan c r :
  NoDup (map token (values plan)) -> restore plan c = Ok r -> substituted plan c r.
Proof.
  intros Htok H; split; [done |]; apply restore_pieces in H as (l & tail & -> & -> & (idx & Hf & Hnd & Hall) & Hgaps & Htail).
  pose proof (all_indices _ _ _ Hf Hnd Hall) as Hidx.
  assert (exists vs : list (text * ProtectedValue), old_text l tail = written token vs tail /\ new_text l tail = written surface vs tail /\
    map fst vs = map (fun h : hole => h.1.1) l /\ Forall2 (fun i pv => values plan !! i = Some pv.2) idx vs) as (vs & -> & -> & Hp & Hv).
  { clear Hnd Hall Hgaps Htail Hidx; revert idx Hf; induction l as [|[[p o] n] l IH]; intros idx Hf; cbn [map] in Hf.
    - apply Forall2_nil_inv_l in Hf as ->; exists []; split_and!; done || constructor.
    - apply Forall2_cons_inv_l in Hf as (i & idx' & (v & Hv & Ht & Hs) & Hf & ->); cbn in Ht, Hs; subst o n.
      apply IH in Hf as (vs & Ho & Hn & Hp & Hv'); exists ((p, v) :: vs); unfold old_text, new_text, written in *; cbn [foldr map fst].
      rewrite Ho, Hn, Hp; split_and!; try done; by constructor. }
  exists vs, tail; split_and!; [done | done | | | done].
  - apply (Permutation_trans (l' := omap (fun i => values plan !! i) idx)).
    + clear Hnd Hall Hp Hidx Hf; induction Hv as [|i [p v] idx vs Hi Hv IH]; [done |]; cbn [map snd omap list_omap]; cbn in Hi; rewrite Hi.
      by constructor.
    + by rewrite Hidx, omap_lookup_seq.
  - rewrite <- (Forall_map (fun h : hole => h.1.1) sentinel_free), <- Hp, Forall_map in Hgaps; eapply Forall_impl; [exact Hgaps |]; by intros [p v].
Qed.

Lemma try_fold_safe_index issued pre (l : list hole) tail counts ms :
  safe (fun _ => True) (try_fold (index_match (pre ++ old_text l tail) issued) (counts, ms)
    (map (fun '(i, j, _) => (i, j)) (holes_at (slen pre) l))).
Proof.
  apply safe_try_fold; [done|]. intros [c m] [i j] Hin _. unfold index_match.
  apply list_elem_of_fmap in Hin as ([[i' j'] n] & Heq & Hin). simplify_eq.
  destruct (holes_slice (slen pre) pre l tail i' j' n eq_refl Hin) as (p & o & _ & ->).
  cbn [expect mbind result_bind]. destruct (issued !! o); cbn [ok_or mbind result_bind]; [|done].
  destruct (c !! n0); cbn [ok_or mbind result_bind]; [|done]. by case_match.
Qed.

Lemma restore_no_panic plan c : restore plan c <> Panic.
Proof.
  unfold restore, indexed_sentinel_matches. case_match; [done|].
  destruct (issue_tokens ∅ 0 (values plan)) as [issued|e|] eqn:Ei; cbn [mbind result_bind]; [|done|].
  2: { exfalso. clear -Ei. revert Ei. generalize (∅ : gmap text nat) as m. generalize 0%nat.
       induction (values plan) as [|v vs IH]; intros n m; cbn; [done|]. case_match; [done|apply IH]. }
  destruct (find_iter_holes (length c) SENTINEL_PATTERN 0 c eq_refl) as (l & tail & -> & Hm & _).
  unfold find_iter. rewrite Hm.
  pose proof (try_fold_safe_index issued [] l tail
    (replicate (length (values plan)) 0) []) as Hsafe. cbn [app slen] in Hsafe.
  destruct (try_fold _ _ _) as [[counts ms]|e|] eqn:Ef; cbn [mbind result_bind]; [|done|done].
  case_match; [done|]. cbn [mbind result_bind].
  apply (index_fold_inv (values plan) issued [] l tail) in Ef as (l' & idx & Hl' & Hs & _);
    [|intros t k; by apply issued_value].
  cbn [length slen] in Hs. rewrite drop_0 in Hs. rewrite Hs. cbn [mbind result_bind].
  destruct (spliced_len _ _); [|done]. case_match; [|done].
  pose proof (splice_holes [] l' tail) as Hsp. cbn [app slen] in Hsp. by rewrite <- (old_text_fst l l' tail Hl'), Hsp.
Qed.

Lemma mask_match_safe vs grouped patterns typed st x :
  safe (fun _ => True) (mask_match vs grouped patterns typed st x).
Proof.
  destruct st as [counts reps], x as [[k i] j]. unfold mask_match.
  destruct (patterns !! k) as [s|]; cbn [ok_or mbind result_bind]; [|done].
  destruct (grouped !! s) as [toks|]; cbn [ok_or mbind result_bind]; [|done].
  destruct (counts !! k) as [n|]; cbn [ok_or mbind result_bind]; [|done].
  destruct (toks !! n) as [t|]; cbn [ok_or mbind result_bind]; [|done].
  destruct (List.find _ vs); cbn [ok_or mbind result_bind]; [|done]. by case_match.
Qed.

Lemma mask_no_panic plan c : mask_raw_candidate plan c <> Panic.
Proof.
  unfold mask_raw_candidate. case_match; [done|]. case_match; [done|].
  pose proof (selected_typed_spans_safe c) as Ht.
  destruct (selected_typed_spans c) as [typed| |]; cbn [mbind result_bind]; [|done|done].
  destruct Ht as (Ht & _). rewrite count_spans_eq by done. cbn [mbind result_bind].
  destruct (negb _); [done|]. destruct (bool_decide _); [done|].
  destruct (ac_build _) eqn:Eb; [|done]. cbn [negb].
  destruct (ac_find_iter_holes (length c) _ 0 c Eb) as (l & ks & tail & Hc & Hlen & Hms & _).
  unfold ac_find_iter. rewrite Hms.
  match goal with |- context [try_fold ?f ?a ?b] =>
    pose proof (safe_try_fold (fun _ => True) f b a) as Hsafe;
    destruct (try_fold f a b) as [[counts reps]|e|] eqn:Ef end; cbn [mbind result_bind].
  - apply mask_fold in Ef as (l' & Hl' & -> & _); [|done]. cbn [app].
    case_match; [done|]. destruct (spliced_len _ _); [|done]. case_match; [|done].
    assert (Hold : c = old_text l' tail).
    { rewrite Hc. clear -Hl'. revert l' Hl'. induction l as [|[[p o] x] l IH]; intros [|[[p' o'] x'] l'] H;
        try done. cbn in H. injection H as -> -> H. cbn. f_equal. f_equal. by apply IH. }
    rewrite Hold. pose proof (splice_holes [] l' tail) as Hsp. cbn [app slen] in Hsp. by rewrite Hsp.
  - done.
  - exfalso. apply Hsafe; [done|]. intros. apply mask_match_safe.
Qed.

(** The spans of a selection, in order from a cursor on. *)
Lemma mask_spans_safe source cursor n selected :
  Forall (span_in source) selected -> disjoint_spans selected ->
  is_char_boundary source cursor = true -> Forall (fun sp => cursor <= start sp) selected ->
  safe (fun _ => True) (mask_spans source cursor n selected).
Proof.
  intros Hin Hd. revert cursor n. induction Hd as [|sp selected Hd IH Hsp]; intros cursor n Hb Hc;
    cbn [mask_spans].
  { apply is_char_boundary_spec in Hb as (a & b & -> & <-). unfold get_from. by rewrite split_at_app. }
  inv Hin. inv Hc. destruct H1 as (a & m & b & -> & Ha & He & Hm).
  apply is_char_boundary_spec in Hb as (a' & b' & Hs & <-).
  destruct (app_slen_le a' b' a (m ++ b)) as (x & -> & _); [done|lia|].
  rewrite slen_app in Ha.
  rewrite (proj2 (slice_spec _ (slen a') (start sp) x))
    by (exists a', (m ++ b); rewrite <- app_assoc; split_and!; done || lia).
  rewrite (proj2 (slice_spec _ (start sp) (end_ sp) m))
    by (exists (a' ++ x), b; rewrite slen_app in *; split_and!; done || lia).
  cbn [expect mbind result_bind]. eapply safe_bind; [|by intros [] _].
  apply IH; [done| |].
  - apply is_char_boundary_spec. exists (a' ++ x ++ m), b. rewrite slen_app in He.
    rewrite !slen_app, <- !app_assoc. split; [done|lia].
  - exact Hsp.
Qed.

Lemma build_no_panic source terms : build source terms <> Panic.
Proof.
  unfold build. do 3 (case_match; [done|]).
  pose proof (collect_source_spans_safe source terms) as Hc.
  destruct (collect_source_spans source terms) as [spans| |]; cbn [mbind result_bind]; [|done..].
  pose proof (select_safe source spans Hc) as Hs.
  destruct (select_non_overlapping spans) as [sel| |]; cbn [mbind result_bind]; [|done..].
  destruct Hs as (Hin & Hd & _). pose proof (typed_counts_no_panic source) as Ht.
  destruct (typed_counts source) as [tc| |]; cbn [mbind result_bind]; [|done..].
  pose proof (mask_spans_safe source 0 0 sel Hin Hd) as Hm.
  destruct (mask_spans source 0 0 sel) as [[masked vs]| |]; cbn [mbind result_bind]; [|done|].
  - case_match; [done|]. match goal with |- context [mask_raw_candidate ?p ?c] =>
      pose proof (mask_no_panic p c); destruct (mask_raw_candidate p c) as [r|[]|] end; try done.
    by case_match.
  - exfalso. apply Hm.
    + apply is_char_boundary_spec. by exists [], source.
    + rewrite Forall_forall in *. intros sp Hsp. apply Hin, span_in_bounds in Hsp. lia.
Qed.

End Safety.

(** ** Theorems *)

Section Theorems.
Context {UT : UnicodeTables} {RE : RegexEngine} {AC : AhoCorasick}.

Lemma literals_preserved (source candidate masked : text) (terms : list text)
    (plan : ProtectionPlan) :
  build source terms = Ok plan -> mask_raw_candidate plan candidate = Ok masked ->
  exists source_spans candidate_spans,
    selected_typed_spans source = Ok source_spans /\
    selected_typed_spans candidate = Ok candidate_spans /\
    typed_literals candidate candidate_spans ≡ₚ typed_literals source source_spans.
Proof.
  intros Hb Hm. apply build_ok in Hb as (_ & _ & Ht & _).
  unfold typed_counts in Ht. apply bind_ok in Ht as (ss & Hss & Hct).
  unfold mask_raw_candidate in Hm. destruct (_ || _) in Hm; [done|].
  destruct (is_match _ _) in Hm; [done|]. apply bind_ok in Hm as (cs & Hcs & Hm).
  apply bind_ok in Hm as (cc & Hcc & Hm). destruct (bool_decide (cc = plan_typed_counts plan)) eqn:Heq; [|done]. zbool. clear Hm.
  pose proof (safe_ok _ _ _ (selected_typed_spans_safe source) Hss) as (Hss' & _).
  pose proof (safe_ok _ _ _ (selected_typed_spans_safe candidate) Hcs) as (Hcs' & _).
  rewrite count_spans_eq in Hct, Hcc by done. injection Hct as Hct. injection Hcc as Hcc.
  exists ss, cs. split_and!; [done..|]. apply occ_perm. apply tally_eq. congruence.
Qed.

(** C4. Masking and restoring are inverse: a candidate that a plan masks is
    restored to itself, character by character, and in particular the masked
    source is restored to the source.  No token can be confused with the
    text around it, whatever that text is. *)
Theorem protection_roundtrip (source candidate masked : text) (terms : list text)
    (plan : ProtectionPlan) :
  build source terms = Ok plan ->
  restore plan (masked_source plan) = Ok source /\
  (mask_raw_candidate plan candidate = Ok masked -> restore plan masked = Ok candidate).
Proof.
  intros Hb. apply build_ok in Hb as (Hok & Hs & _ & _).
  split; [by apply mask_restore|by apply mask_restore].
Qed.

(** Building, masking and restoring always return: every slice they take
    lies on character boundaries and every index is in range. *)
Theorem protection_total (source candidate : text) (terms : list text) (plan : ProtectionPlan) :
  build source terms <> Panic /\ mask_raw_candidate plan candidate <> Panic /\
  restore plan candidate <> Panic.
Proof. split_and!; [apply build_no_panic|apply mask_no_panic|apply restore_no_panic]. Qed.

End Theorems.
