(* ===== verification/Semantic.v ===== *)
(** * Semantic evaluation ([engine/src/semantic.rs]).

    The evaluator port, the binding of evidence to exact texts, and the
    literal evaluator that compares sequences of lexical tokens. *)

From S2P Require Import Prelude Text Float32 Document Rewrite Claims Evidence.

(** ** The port *)

(** [SemanticEvaluator]: an identifier and an assessment of two texts. *)
Record SemanticEvaluator := {
  evaluator_id : text;
  evaluate : text -> text -> RewriteMode -> SemanticAssessment.t
}.

(** [evidence_matches]. *)
Definition evidence_matches `{Sha256} (assessment : SemanticAssessment.t) (u : RewriteUnitId.t)
    (source candidate : text) : bool :=
  let source_digest := sha256 (as_bytes source) in
  let candidate_digest := sha256 (as_bytes candidate) in
  forallb (fun evidence =>
    match SemanticEvidence.details evidence with
    | None => true
    | Some (SemanticClaimComparison c) =>
        bool_decide (ClaimComparisonEvidence.unit_id c = u)
        && bool_decide (ClaimComparisonEvidence.source_text_digest c = source_digest)
        && bool_decide (ClaimComparisonEvidence.candidate_text_digest c = candidate_digest)
        && (ClaimComparisonEvidence.source_text_bytes c =? slen source)
        && (ClaimComparisonEvidence.candidate_text_bytes c =? slen candidate)
    end) (SemanticAssessment.evidence assessment).

(** ** Lexical tokens *)

Record LexicalToken := { token_text : text; at_ : Z }.

Section Tokens.
Context {UT : UnicodeTables}.

(** The pending token, when there is one. *)
Definition flush (current : text) (current_at : Z) : list LexicalToken :=
  match current with
  | [] => []
  | _ => [{| token_text := current; at_ := current_at |}]
  end.

(** [char_at(text, index).is_some_and(|(next, _)| test next)] at the start of the rest. *)
Definition next_is (test : Z -> bool) (rest : text) : bool :=
  match rest with c :: _ => test c | [] => false end.

(** The loop of [lexical_token_spans]: [rest] is the text from [index] on. *)
Fixpoint token_spans (index : Z) (current : text) (current_at : Z) (rest : text)
  : list LexicalToken :=
  match rest with
  | [] => flush current current_at
  | c :: tail =>
      let index' := index + len_utf8 c in
      if is_alphanumeric c then
        token_spans index' (current ++ to_lowercase c)
          (match current with [] => index | _ => current_at end) tail
      else if (c =? 46) && bool_decide (current = []) && next_is is_ascii_digit tail then
        token_spans index' [46] index tail
      else
        flush current current_at ++
        (if (c =? 13) || (c =? 10) then
           {| token_text := [10]; at_ := index |} ::
           (if (c =? 13) && next_is (Z.eqb 10) tail then
              match tail with
              | _ :: tail' => token_spans (index' + 1) [] current_at tail'
              | [] => token_spans index' [] current_at tail
              end
            else token_spans index' [] current_at tail)
         else token_spans index' [] current_at tail)
  end.

(** [lexical_token_spans]. *)
Definition lexical_token_spans (s : text) : list LexicalToken := token_spans 0 [] 0 s.

(** [lexical_tokens]. *)
Definition lexical_tokens (s : text) : list text := map token_text (lexical_token_spans s).

Inductive LiteralTokenChange :=
| TokenAltered (source_at candidate_at : Z)
| TokenMissing (source_at : Z)
| TokenAdded (candidate_at : Z).

(** The loop of [first_literal_token_change] over both token lists. *)
Fixpoint first_token_change (left right : list LexicalToken) : option LiteralTokenChange :=
  match left, right with
  | l :: left', r :: right' =>
      if negb (text_eqb (token_text l) (token_text r)) then Some (TokenAltered (at_ l) (at_ r))
      else first_token_change left' right'
  | l :: _, [] => Some (TokenMissing (at_ l))
  | [], r :: _ => Some (TokenAdded (at_ r))
  | [], [] => None
  end.

(** [first_literal_token_change]. *)
Definition first_literal_token_change (source candidate : text) : option LiteralTokenChange :=
  first_token_change (lexical_token_spans source) (lexical_token_spans candidate).

(** ** The literal evaluator *)

(** [evidence(code)]. *)
Definition bare_evidence (code : SemanticEvidenceCode) : SemanticEvidence.t :=
  SemanticEvidence.mk code None.

(** [LiteralSemanticEvaluator::evaluate]. *)
Definition literal_evaluate (source candidate : text) (mode : RewriteMode) : SemanticAssessment.t :=
  if negb (bool_decide (mode = Literal)) then
    SemanticAssessment.mk Uncertain None [bare_evidence UnsupportedMode]
  else if bool_decide (lexical_tokens source = lexical_tokens candidate) then
    SemanticAssessment.mk Pass (Some f32_one) [bare_evidence LiteralTokensEqual]
  else
    SemanticAssessment.mk Uncertain None [bare_evidence LiteralTokensChanged].

(** [LiteralSemanticEvaluator]. *)
Definition LiteralSemanticEvaluator : SemanticEvaluator := {|
  evaluator_id := lit "literal-token-sequence-v1";
  evaluate := literal_evaluate
|}.

(** ** Lemmas *)

Lemma first_token_change_None l r :
  first_token_change l r = None <-> map token_text l = map token_text r.
Proof.
  revert r. induction l as [|x l IH]; intros [|y r]; cbn; try (split; done).
  unfold text_eqb. case_bool_decide as E; cbn.
  - rewrite IH, E. split; [by intros ->|]. intros H. by injection H.
  - split; [done|]. intros H. injection H as H _. done.
Qed.

(** What the offsets of a token list point at: a boundary of the text, in order. *)
Lemma token_spans_at s pre cur cur_at rest :
  s = pre ++ rest -> is_char_boundary s cur_at = true ->
  Forall (fun t => is_char_boundary s (at_ t) = true) (token_spans (slen pre) cur cur_at rest).
Proof.
  assert (Hgen : forall n rest pre cur cur_at, (length rest <= n)%nat -> s = pre ++ rest ->
    is_char_boundary s cur_at = true ->
    Forall (fun t => is_char_boundary s (at_ t) = true) (token_spans (slen pre) cur cur_at rest)).
  2: { intros Hs Hb. by apply (Hgen (length rest)). }
  induction n as [|n IH]; intros rest' pre' cur' cur_at' Hn Hs Hb.
  { destruct rest'; [|cbn in Hn; lia]. cbn. destruct cur'; by repeat constructor. }
  destruct rest' as [|c tail]; cbn [token_spans].
  { destruct cur'; by repeat constructor. }
  assert (Hbi : is_char_boundary s (slen pre') = true).
  { apply is_char_boundary_spec. by exists pre', (c :: tail). }
  assert (Hnext : forall cur cur_at, is_char_boundary s cur_at = true ->
    Forall (fun t => is_char_boundary s (at_ t) = true)
      (token_spans (slen pre' + len_utf8 c) cur cur_at tail)).
  { intros cu ca Hca. replace (slen pre' + len_utf8 c) with (slen (pre' ++ [c]))
      by (rewrite slen_app; cbn; lia).
    apply IH; [cbn in Hn; lia|by rewrite <- app_assoc|done]. }
  assert (Hflush : Forall (fun t => is_char_boundary s (at_ t) = true) (flush cur' cur_at'))
    by (destruct cur'; by repeat constructor).
  destruct (is_alphanumeric c); [apply Hnext; by destruct cur'|].
  destruct (_ && _ && _); [by apply Hnext|]. apply Forall_app. split; [done|].
  destruct (_ || _); [|by apply Hnext]. constructor; [done|].
  destruct tail as [|d tail]; cbn [next_is]; [rewrite andb_false_r; by apply Hnext|].
  destruct (Z.eqb_spec c 13) as [->|]; cbn [andb]; [|by apply Hnext].
  destruct (Z.eqb_spec 10 d) as [<-|]; [|by apply Hnext].
  replace (slen pre' + len_utf8 13 + 1) with (slen (pre' ++ [13; 10])) by (rewrite slen_app; cbn; lia).
  apply IH; [cbn in Hn; lia|by rewrite <- app_assoc|done].
Qed.

Lemma lexical_token_spans_at s :
  Forall (fun t => is_char_boundary s (at_ t) = true) (lexical_token_spans s).
Proof. apply (token_spans_at s [] [] 0 s); [done|]. apply is_char_boundary_spec. by exists [], s. Qed.

Lemma first_token_change_at s c l r ch :
  Forall (fun t => is_char_boundary s (at_ t) = true) l ->
  Forall (fun t => is_char_boundary c (at_ t) = true) r -> first_token_change l r = Some ch ->
  match ch with
  | TokenAltered i j => is_char_boundary s i = true /\ is_char_boundary c j = true
  | TokenMissing i => is_char_boundary s i = true
  | TokenAdded j => is_char_boundary c j = true
  end.
Proof.
  intros Hl. revert r. induction Hl as [|x l Hx Hl IH]; intros r Hr;
    destruct Hr as [|y r Hy Hr]; cbn; [done|by intros [= <-]|by intros [= <-]|].
  destruct (text_eqb _ _); cbn; [by apply IH|]. intros [= <-]. done.
Qed.

Lemma literal_assessment_valid source candidate m :
  SemanticAssessment.validate (literal_evaluate source candidate m) = Ok tt.
Proof.
  unfold literal_evaluate. destruct (negb _); [done|]. by destruct (bool_decide _).
Qed.

(** ** Theorems *)

(** The literal evaluator passes a candidate exactly when the mode is
    literal and both texts have the same token sequence, that is when no
    token is reported altered, missing or added; every assessment it returns
    meets the evidence contract. *)
Theorem literal_evaluator_exact (source candidate : text) (m : RewriteMode) :
  SemanticAssessment.validate (literal_evaluate source candidate m) = Ok tt /\
  (SemanticAssessment.status (literal_evaluate source candidate m) = Pass <->
   m = Literal /\ first_literal_token_change source candidate = None).
Proof.
  split; [apply literal_assessment_valid|].
  unfold first_literal_token_change. rewrite first_token_change_None. unfold literal_evaluate.
  fold (lexical_tokens source) (lexical_tokens candidate).
  case_bool_decide as Hm; cbn [negb]; [|split; [done|naive_solver]].
  case_bool_decide as Ht; cbn; naive_solver.
Qed.

End Tokens.
