(* ===== verification/Policy.v ===== *)
(** * Engine policy, selection and ports ([engine/src/policy.rs],
    [selection.rs], [generator.rs], [structure.rs]). *)

From S2P Require Import Prelude Text Float32 Document TextSafety Rewrite Claims Evidence Extract Protection.

Definition MAX_GENERATED_CANDIDATES : Z := 16.
Definition MAX_GENERATED_TEXT_BYTES : Z := 16 * 1024 * 1024.

Inductive GenerationError := GenCancelled | Provider (message : text).

Inductive EngineError :=
| InvalidSemanticConfidence
| InvalidProtectedTerms
| InvalidLayoutBudget
| InvalidDocument (e : DocumentError)
| Generation (e : GenerationError)
| ProtectionFailed (e : ProtectionError).

(** ** Options *)

(** [validate_rewrite_options]. *)
Definition validate_rewrite_options (options : RewriteOptions) : Result EngineError unit :=
  if negb (in_unit_interval (minimum_semantic_confidence options)) then Err InvalidSemanticConfidence
  else if negb (protected_terms_are_valid (protected_terms options)) then Err InvalidProtectedTerms
  else
    match (l ← layout options; character_budget l) with
    | Some budget =>
        match min_characters budget, max_characters budget with
        | Some minimum, Some maximum =>
            if maximum <? minimum then Err InvalidLayoutBudget else Ok tt
        | _, _ => Ok tt
        end
    | None => Ok tt
    end.

(** ** Candidate batches *)

(** [candidate_rank_is_valid]. *)
Definition candidate_rank_is_valid (r : CandidateRank) : bool :=
  forallb in_unit_interval [style r; channel r; fluency r].

(** [candidate_contract_is_valid]. *)
Definition candidate_contract_is_valid (c : GeneratedCandidate) : bool :=
  CandidateId.is_scoped_to (cand_id c) (cand_unit_id c)
  && (slen (cand_text c) <=? MAX_GENERATED_TEXT_BYTES)
  && candidate_rank_is_valid (rank c).

(** [candidate_batch_identity_is_valid], with the identities seen so far. *)
Fixpoint batch_identity_loop (u : RewriteUnitId.t) (identities : gset text)
    (candidates : list GeneratedCandidate) : bool :=
  match candidates with
  | [] => true
  | c :: candidates' =>
      let id := CandidateId.as_str (cand_id c) in
      bool_decide (cand_unit_id c = u)
      && CandidateId.is_scoped_to (cand_id c) u
      && bool_decide (id ∉ identities)
      && batch_identity_loop u ({[id]} ∪ identities) candidates'
  end.
Definition candidate_batch_identity_is_valid (u : RewriteUnitId.t)
    (candidates : list GeneratedCandidate) : bool := batch_identity_loop u ∅ candidates.

(** [candidate_count_reason]. *)
Definition candidate_count_reason (count : Z) : option ReasonCode :=
  if count =? 0 then Some NoCandidate
  else if MAX_GENERATED_CANDIDATES <? count then Some InvalidCandidate
  else None.

(** [candidate_batch_reason]. *)
Definition candidate_batch_reason (u : RewriteUnitId.t) (candidates : list GeneratedCandidate)
  : option ReasonCode :=
  match candidate_count_reason (vlen candidates) with
  | Some reason => Some reason
  | None => if negb (candidate_batch_identity_is_valid u candidates) then Some InvalidCandidate
            else None
  end.

(** [reason_priority]. *)
Definition reason_priority (r : ReasonCode) : Z :=
  match r with
  | SentinelIntegrity => 0
  | ProtectedValueChanged => 1
  | UnsafeText => 2
  | StructureChanged => 3
  | CharacterBudgetExceeded => 4
  | LineBudgetExceeded => 5
  | SemanticMismatch => 6
  | SemanticUncertain => 7
  | InvalidCandidate => 8
  | NoCandidate => 9
  | ReassemblyVerification => 10
  | Cancelled => 11
  | UnsupportedAtomicity => 12
  end.

(** [preferred_reason]. *)
Definition preferred_reason (current : option ReasonCode) (candidate : ReasonCode) : ReasonCode :=
  match current with
  | Some c => if reason_priority c <=? reason_priority candidate then c else candidate
  | None => candidate
  end.

(** ** Selection *)

(** [Ordering::then_with]. *)
Definition then_with (o next : comparison) : comparison :=
  match o with Eq => next | _ => o end.

(** [compare_candidates]. *)
Definition compare_candidates (left right : GeneratedCandidate) : comparison :=
  then_with (total_cmp (style (rank left)) (style (rank right)))
  (then_with (total_cmp (channel (rank left)) (channel (rank right)))
  (then_with (editorial_penalty (rank right) ?= editorial_penalty (rank left))
  (then_with (total_cmp (fluency (rank left)) (fluency (rank right)))
  (then_with (edit_cost (rank right) ?= edit_cost (rank left))
    (str_cmp (CandidateId.as_str (cand_id right)) (CandidateId.as_str (cand_id left))))))).

(** [Iterator::max_by]: a later element replaces the current one unless it is smaller. *)
Definition max_by {A} (cmp : A -> A -> comparison) (l : list A) : option A :=
  match l with
  | [] => None
  | x :: l' => Some (foldl (fun best y => match cmp best y with Gt => best | _ => y end) x l')
  end.

(** [select_best]. *)
Definition select_best (candidates : list GeneratedCandidate) : option GeneratedCandidate :=
  max_by compare_candidates candidates.

(** ** Ports *)

(** A cooperative cancellation signal as its observer sees it: the answer to
    the [n]-th poll.  It is never withdrawn ([Cancellation.v]). *)
Definition Schedule : Type := nat -> bool.
Definition monotone (sched : Schedule) : Prop := forall i j, (i <= j)%nat -> sched i = true -> sched j = true.

Record GenerationRequest := {
  req_unit_id : RewriteUnitId.t;
  req_masked_source : text;
  protected_values : list ProtectedValue;
  req_mode : RewriteMode
}.

(** [CandidateGenerator]: generation may poll the signal itself; it returns
    the number of polls made so far. *)
Record CandidateGenerator := {
  generator_id : text;
  generate : GenerationRequest -> Schedule -> nat ->
    Result GenerationError (list GeneratedCandidate) * nat
}.

(** [PreparedCandidateGenerator]. *)
Definition PreparedCandidateGenerator (candidates : list GeneratedCandidate) : CandidateGenerator := {|
  generator_id := lit "prepared-candidate-v1";
  generate := fun _ sched n =>
    if sched n then (Err GenCancelled, S n) else (Ok candidates, S n)
|}.

(** The candidates the provided generator builds, from an ordinal on. *)
Fixpoint provided_candidates (u : RewriteUnitId.t) (ordinal : Z) (texts : list text)
  : list GeneratedCandidate :=
  match texts with
  | [] => []
  | t :: texts' =>
      {| cand_id := CandidateId.new u ordinal; cand_unit_id := u; cand_text := t;
         text_kind := Raw; rank := default_rank |}
      :: provided_candidates u (ordinal + 1) texts'
  end.

(** [ProvidedCandidateGenerator]. *)
Definition ProvidedCandidateGenerator (candidates : list text) : CandidateGenerator := {|
  generator_id := lit "provided-candidate-v1";
  generate := fun request sched n =>
    if sched n then (Err GenCancelled, S n)
    else (Ok (provided_candidates (req_unit_id request) 0 candidates), S n)
|}.

Inductive StructureAssessment := Preserved | StructureUnsafeText | Changed.
#[global] Instance structure_assessment_eq_dec : EqDecision StructureAssessment.
Proof. solve_decision. Defined.

(** [StructureValidator]. *)
Definition StructureValidator : Type := RewriteUnit -> text -> StructureAssessment.

(** [retained_gate]. *)
Definition retained_gate (assessment : StructureAssessment) : GateResult.t * ReasonCode :=
  match assessment with
  | Preserved => (GateResult.pass (lit "structure"), StructureChanged)
  | StructureUnsafeText =>
      (GateResult.fail (lit "structure") (lit "unsafe_text_control")
         (lit "candidate introduced an unsafe text control"), UnsafeText)
  | Changed =>
      (GateResult.fail (lit "structure") (lit "structure_changed")
         (lit "candidate changed a source structural invariant"), StructureChanged)
  end.

(** ** Lemmas: comparisons *)

(** A comparison that is antisymmetric and transitive. *)
Record cmp_ok {A} (cmp : A -> A -> comparison) : Prop := {
  cmp_anti : forall x y, cmp y x = CompOpp (cmp x y);
  cmp_trans : forall x y z, cmp x y <> Gt -> cmp y z <> Gt -> cmp x z <> Gt
}.

Lemma cmp_ok_key {A B} (f : A -> B) cmp : cmp_ok cmp -> cmp_ok (fun x y => cmp (f x) (f y)).
Proof. intros [Ha Ht]. split; eauto. Qed.

Lemma cmp_ok_flip {A} (cmp : A -> A -> comparison) : cmp_ok cmp -> cmp_ok (fun x y => cmp y x).
Proof. intros [Ha Ht]. split; [intros; apply Ha|]. intros x y z H1 H2. by apply (Ht z y x). Qed.

Lemma cmp_ok_Z : cmp_ok Z.compare.
Proof.
  split; [intros; apply Z.compare_antisym|]. intros x y z.
  rewrite !Z.compare_gt_iff. lia.
Qed.

Lemma cmp_ok_str : cmp_ok str_cmp.
Proof. split; [intros; apply str_cmp_antisym|intros x y z; apply str_cmp_trans]. Qed.

Lemma cmp_ok_then {A} (c1 c2 : A -> A -> comparison) :
  cmp_ok c1 -> cmp_ok c2 -> cmp_ok (fun x y => then_with (c1 x y) (c2 x y)).
Proof.
  intros [A1 T1] [A2 T2]. split.
  - intros x y. rewrite A1, (A2 x y). by destruct (c1 x y).
  - intros x y z. pose proof (T1 x y z) as H1. pose proof (T1 y z x) as H2. pose proof (T1 z x y) as H3.
    pose proof (T1 z y x) as H4. pose proof (T1 y x z) as H5. pose proof (T1 x z y) as H6.
    rewrite (A1 x y), (A1 x z), (A1 y z) in *. pose proof (T2 x y z) as H7.
    destruct (c1 x y), (c1 y z), (c1 x z); cbn in *; intros Hxy Hyz;
      first [done | by apply H7
        | exfalso; first [by apply H1 | by apply H2 | by apply H3 | by apply H4 | by apply H5 | by apply H6]].
Qed.

Lemma compare_candidates_ok : cmp_ok compare_candidates.
Proof.
  unfold compare_candidates, total_cmp.
  repeat apply (cmp_ok_then (A := GeneratedCandidate)).
  - apply (cmp_ok_key (fun c => total_key (style (rank c))) _ cmp_ok_Z).
  - apply (cmp_ok_key (fun c => total_key (channel (rank c))) _ cmp_ok_Z).
  - apply (cmp_ok_key (fun c => editorial_penalty (rank c)) _ (cmp_ok_flip _ cmp_ok_Z)).
  - apply (cmp_ok_key (fun c => total_key (fluency (rank c))) _ cmp_ok_Z).
  - apply (cmp_ok_key (fun c => edit_cost (rank c)) _ (cmp_ok_flip _ cmp_ok_Z)).
  - apply (cmp_ok_key (fun c => CandidateId.as_str (cand_id c)) _ (cmp_ok_flip _ cmp_ok_str)).
Qed.

Lemma compare_candidates_eq a b : compare_candidates a b = Eq -> cand_id a = cand_id b.
Proof.
  unfold compare_candidates, then_with. repeat case_match; try done. intros H'.
  apply str_cmp_eq in H'. destruct (cand_id a), (cand_id b). cbn in *. congruence.
Qed.

Lemma max_by_spec {A} (cmp : A -> A -> comparison) l x :
  cmp_ok cmp -> max_by cmp l = Some x -> x ∈ l /\ forall y, y ∈ l -> cmp y x <> Gt.
Proof.
  intros [Ha Ht]. destruct l as [|a l]; [done|]. cbn. intros [= <-].
  assert (Hrefl : forall y, cmp y y <> Gt).
  { intros y Hy. specialize (Ha y y). rewrite Hy in Ha. done. }
  revert a. induction l as [|b l IH]; intros a; cbn.
  { split; [left|]. intros y Hy. apply list_elem_of_singleton in Hy as ->. apply Hrefl. }
  set (best := match cmp a b with Gt => a | _ => b end).
  destruct (IH best) as [Hin Hmax]. split.
  - apply elem_of_cons in Hin as [Hin|Hin]; [|set_solver]. rewrite Hin. subst best. case_match; set_solver.
  - assert (Hbest : cmp best (foldl (fun best y => match cmp best y with Gt => best | _ => y end) best l) <> Gt)
      by (apply Hmax; left).
    intros y Hy. rewrite !elem_of_cons in Hy. destruct Hy as [->|[->|Hy]].
    + apply (Ht a best); [|done]. subst best. case_match eqn:E; [congruence..|]. apply Hrefl.
    + apply (Ht b best); [|done]. subst best. case_match eqn:E; [apply Hrefl..|].
      rewrite Ha, E. done.
    + apply Hmax. by right.
Qed.

Lemma max_by_Some {A} (cmp : A -> A -> comparison) l : l <> [] -> exists x, max_by cmp l = Some x.
Proof. destruct l; [done|]. cbn. eauto. Qed.

Lemma batch_identity_ok u seen cs :
  batch_identity_loop u seen cs = true ->
  Forall (fun c => cand_unit_id c = u /\ CandidateId.is_scoped_to (cand_id c) u = true) cs /\
  NoDup (map cand_id cs) /\ Forall (fun c => CandidateId.as_str (cand_id c) ∉ seen) cs.
Proof.
  revert seen. induction cs as [|c cs IH]; intros seen; cbn; [repeat constructor|].
  intros H. zbool. apply IH in H0 as (Hf & Hnd & Hs). rewrite !Forall_cons, NoDup_cons.
  split_and!; try done.
  - intros Hin. apply list_elem_of_fmap in Hin as (d & Hd & Hin). rewrite Forall_forall in Hs.
    apply Hs in Hin. rewrite <- Hd in Hin. set_solver.
  - rewrite Forall_forall in *. intros d Hd. specialize (Hs d Hd). set_solver.
Qed.

Lemma candidate_batch_reason_None u cs :
  candidate_batch_reason u cs = None ->
  cs <> [] /\ vlen cs <= MAX_GENERATED_CANDIDATES /\
  Forall (fun c => cand_unit_id c = u /\ CandidateId.is_scoped_to (cand_id c) u = true) cs /\
  NoDup (map cand_id cs).
Proof.
  unfold candidate_batch_reason, candidate_count_reason.
  destruct (Z.eqb_spec (vlen cs) 0); [done|]. destruct (Z.ltb_spec MAX_GENERATED_CANDIDATES (vlen cs)); [done|].
  destruct (candidate_batch_identity_is_valid u cs) eqn:E; [|done]. intros _.
  apply batch_identity_ok in E as (? & ? & _). split_and!; try done. by intros ->.
Qed.

(** The identifiers the provided generator issues are distinct and scoped. *)
Lemma provided_candidates_spec u n texts :
  0 <= n -> n + vlen texts <= usize_max ->
  map cand_text (provided_candidates u n texts) = texts /\
  Forall (fun c => cand_unit_id c = u /\ text_kind c = Raw /\ rank c = default_rank /\
    exists k, n <= k < n + vlen texts /\ cand_id c = CandidateId.new u k)
    (provided_candidates u n texts).
Proof.
  revert n. induction texts as [|t texts IH]; intros n Hn Hmax; cbn; [split; constructor|].
  rewrite vlen_cons in *. pose proof (vlen_nonneg texts).
  destruct (IH (n + 1)) as [-> Hf]; [lia..|]. split; [done|]. constructor.
  - split_and!; try done. exists n. split; [lia|done].
  - eapply Forall_impl; [exact Hf|]. intros c (? & ? & ? & k & ? & ?). split_and!; try done.
    exists k. split; [lia|done].
Qed.

(** ** The contract of the caller's options *)

(** The characters a declared term may not have: the controls, the
    bidirectional and zero-width marks, the separators, the byte-order mark. *)
Definition TERM_RANGES : list (Z * Z) :=
  [(0, 31); (127, 159); (0x061C, 0x061C); (0x200B, 0x200F); (0x2028, 0x202E); (0x2060, 0x206F); (0xFEFF, 0xFEFF)].

(** At most 32 terms, no two equal, each of 1 to 256 bytes without such a
    character, 2048 bytes in all. *)
Definition terms_contract (terms : list text) : Prop :=
  (length terms <= 32)%nat /\ NoDup terms /\
  Forall (fun term => 1 <= slen term <= 256 /\ existsb (listed TERM_RANGES) term = false) terms /\
  slen (concat terms) <= 2048.

(** A character budget with both limits has them in order. *)
Definition budget_contract (limits : option LayoutConstraints) : Prop :=
  forall constraints budget minimum maximum,
    limits = Some constraints -> character_budget constraints = Some budget ->
    min_characters budget = Some minimum -> max_characters budget = Some maximum -> minimum <= maximum.

Lemma disallowed_listed term : existsb is_disallowed_policy_character term = existsb (listed TERM_RANGES) term.
Proof.
  induction term as [|c term IH]; cbn [existsb]; [done |]; rewrite IH; f_equal; clear.
  unfold is_disallowed_policy_character, is_control, in_range, TERM_RANGES; ranges.
Qed.

Lemma terms_loop_contract total unique terms :
  0 <= total ->
  terms_loop total unique terms = true <->
  NoDup terms /\ (forall t, t ∈ terms -> t ∉ unique) /\
  Forall (fun term => 1 <= slen term <= 256 /\ existsb (listed TERM_RANGES) term = false) terms /\
  total + slen (concat terms) <= 2048.
Proof.
  revert total unique; induction terms as [|t terms IH]; intros total unique H0; cbn [terms_loop concat].
  { change MAX_PROTECTED_TERM_TOTAL_BYTES with 2048; rewrite Z.leb_le; cbn [slen].
    split; [intros ?; split_and!; [constructor | by intros t Ht%elem_of_nil | constructor | lia] | intros (_ & _ & _ & ?); lia]. }
  rewrite disallowed_listed, slen_app, NoDup_cons, Forall_cons; pose proof (slen_nonneg t); pose proof (slen_nonneg (concat terms)).
  change MAX_PROTECTED_TERM_BYTES with 256.
  destruct (Z.eqb_spec (slen t) 0); cbn [orb]; [split; [done |]; intros (_ & _ & [? _] & _); lia |].
  destruct (Z.ltb_spec 256 (slen t)); cbn [orb]; [split; [done |]; intros (_ & _ & [? _] & _); lia |].
  destruct (existsb _ t) eqn:Ht; cbn [orb]; [split; [done |]; intros (_ & _ & [[_ ?] _] & _); done |].
  case_bool_decide as Hu; cbn [orb].
  { split; [done |]; intros (_ & Hn & _); exfalso; apply (Hn t); [left | done]. }
  unfold checked_add; destruct (Z.leb_spec (total + slen t) usize_max) as [|Hbig].
  2:{ split; [done |]; intros (_ & _ & _ & ?); assert (2048 < usize_max) by done; lia. }
  rewrite IH by lia; split.
  - intros (Hnd & Hnot & Hf & Hsum); split_and!; try done || lia.
    + intros Hin; apply Hnot in Hin; set_solver.
    + intros t' [-> | Hin]%elem_of_cons; [done |]; apply Hnot in Hin; set_solver.
  - intros ([Hnin Hnd] & Hnot & [_ Hf] & Hsum); split_and!; try done || lia.
    intros t' Hin [->%elem_of_singleton | Hin']%elem_of_union; [done |]; apply (Hnot t'); [by right | done].
Qed.

Lemma terms_valid_iff terms : protected_terms_are_valid terms = true <-> terms_contract terms.
Proof.
  unfold protected_terms_are_valid, terms_contract; change MAX_PROTECTED_TERMS with 32; unfold vlen.
  destruct (Z.ltb_spec 32 (Z.of_nat (length terms))); [split; [done |]; intros [? _]; lia |].
  rewrite terms_loop_contract by done; split.
  - intros (? & _ & ? & ?); split_and!; done || lia.
  - intros (_ & ? & ? & ?); split_and!; try done || lia; set_solver.
Qed.

(** What the checks of the options answer. *)
Lemma validate_rewrite_options_cases options :
  match validate_rewrite_options options with
  | Ok _ => terms_contract (protected_terms options) /\ budget_contract (layout options)
  | Err InvalidSemanticConfidence => in_unit_interval (minimum_semantic_confidence options) = false
  | Err InvalidProtectedTerms => ~ terms_contract (protected_terms options)
  | Err InvalidLayoutBudget => ~ budget_contract (layout options)
  | _ => False
  end.
Proof.
  unfold validate_rewrite_options; destruct (in_unit_interval _) eqn:Hc; cbn [negb]; [| done].
  pose proof (terms_valid_iff (protected_terms options)) as Hterms.
  destruct (protected_terms_are_valid _); cbn [negb]; [| by intros H%Hterms].
  assert (Hok : terms_contract (protected_terms options)) by by apply Hterms.
  unfold budget_contract; destruct (layout options) as [l|]; cbn [mbind option_bind]; [| done].
  destruct (character_budget l) as [budget|] eqn:Hb; [| split; [done | intros; simplify_eq]].
  destruct (min_characters budget) as [mn|] eqn:Hmn, (max_characters budget) as [mx|] eqn:Hmx;
    try (split; [done |]; intros ? ? ? ? [= <-]; rewrite Hb; intros [= <-]; congruence).
  destruct (Z.ltb_spec mx mn).
  - intros Hlim; specialize (Hlim l budget mn mx eq_refl Hb Hmn Hmx); lia.
  - split; [done |]; intros ? ? ? ? [= <-]; rewrite Hb; intros [= <-]; rewrite Hmn, Hmx; intros [= <-] [= <-]; done.
Qed.

(** ** Theorems *)

(** Selection is deterministic: among candidates with distinct
    identifiers exactly one is maximal, it is the one selected, and the
    choice does not depend on the order in which they are offered. *)
Theorem select_best_canonical (candidates candidates' : list GeneratedCandidate) :
  NoDup (map cand_id candidates) -> candidates ≡ₚ candidates' ->
  select_best candidates' = select_best candidates /\
  (forall best, select_best candidates = Some best ->
    best ∈ candidates /\
    forall c, c ∈ candidates -> c = best \/ compare_candidates c best = Lt) /\
  (candidates <> [] -> is_Some (select_best candidates)).
Proof.
  intros Hnd Hp. unfold select_best.
  assert (Hinj : forall a b, a ∈ candidates -> b ∈ candidates -> cand_id a = cand_id b -> a = b).
  { intros a b Ha Hb Hid. apply list_elem_of_lookup in Ha as [i Hi], Hb as [j Hj].
    assert (i = j) as ->; [|congruence]. apply (NoDup_lookup _ i j (cand_id a) Hnd);
      rewrite list_lookup_fmap; [by rewrite Hi|]. rewrite Hj. cbn. by rewrite Hid. }
  pose proof compare_candidates_ok as [Ha _].
  split_and!.
  - destruct candidates as [|a l]; [by apply Permutation_nil_l in Hp as ->|].
    destruct (max_by_Some compare_candidates (a :: l)) as [x Hx]; [done|].
    destruct (max_by_Some compare_candidates candidates') as [y Hy].
    { intros ->. by apply Permutation_nil_r in Hp. }
    rewrite Hx, Hy. f_equal.
    apply max_by_spec in Hx as [Hxin Hxmax]; [|apply compare_candidates_ok].
    apply max_by_spec in Hy as [Hyin Hymax]; [|apply compare_candidates_ok].
    rewrite <- Hp in Hyin. apply Hinj; [done..|]. apply compare_candidates_eq.
    specialize (Hxmax y Hyin). specialize (Hymax x). rewrite <- Hp in Hymax. specialize (Hymax Hxin).
    rewrite (Ha y x) in Hymax. by destruct (compare_candidates y x).
  - intros best Hb. apply max_by_spec in Hb as [Hin Hmax]; [|apply compare_candidates_ok].
    split; [done|]. intros c Hc. specialize (Hmax c Hc).
    destruct (compare_candidates c best) eqn:E; [|by right|done].
    left. apply Hinj; [done..|]. by apply compare_candidates_eq.
  - intros Hne. apply (max_by_Some compare_candidates) in Hne as [x ->]. eauto.
Qed.
