(* ===== verification/ClaimCompare.v ===== *)
(** * Claim comparison ([engine/src/claim_comparison.rs], [claim_shadow.rs]).

    The comparator of two evidence sets of one extractor and the
    informational gate a shadow observer may add to an assessment. *)

From S2P Require Import Prelude Text Float32 Document Rewrite Claims Evidence.

Inductive ClaimComparisonError :=
| ExtractorMismatch
| UnitMismatch
| IncompleteExtraction
| InsufficientEvidence
| AmbiguousAlignment
| CountOverflow
| InvalidAggregate.

Import ClaimComparisonCounts.

(** [count]. *)
Definition count (value : Z) : Result ClaimComparisonError Z :=
  ok_or (try_from u32_max value) CountOverflow.

(** [increment]. *)
Definition increment (value : Z) : Result ClaimComparisonError Z :=
  ok_or (checked_add u32_max value 1) CountOverflow.

(** [same_relation]. *)
Definition same_relation (s c : ClaimEvidence.t) : bool :=
  bool_decide (ClaimEvidence.subject_id s = ClaimEvidence.subject_id c)
  && bool_decide (ClaimEvidence.predicate_id s = ClaimEvidence.predicate_id c)
  && bool_decide (ClaimEvidence.object_id s = ClaimEvidence.object_id c).

(** [validate_compatible_sets]. *)
Definition validate_compatible_sets (s c : ClaimEvidenceSet.t) : Result ClaimComparisonError unit :=
  if negb (text_eqb (ClaimEvidenceSet.extractor_id s) (ClaimEvidenceSet.extractor_id c))
     || negb (text_eqb (ClaimEvidenceSet.extractor_version s) (ClaimEvidenceSet.extractor_version c))
     || negb (bool_decide (ClaimEvidenceSet.extractor_manifest_digest s
                           = ClaimEvidenceSet.extractor_manifest_digest c))
     || negb (ClaimEvidenceSet.schema_version s =? ClaimEvidenceSet.schema_version c)
     || negb (ClaimEvidenceSet.minimum_confidence_ppm s =? ClaimEvidenceSet.minimum_confidence_ppm c)
  then Err ExtractorMismatch
  else if negb (bool_decide (ClaimEvidenceSet.unit_id s = ClaimEvidenceSet.unit_id c))
  then Err UnitMismatch
  else if negb (bool_decide (ClaimEvidenceSet.extraction_status s = Complete))
          || negb (bool_decide (ClaimEvidenceSet.extraction_status c = Complete))
  then Err IncompleteExtraction
  else if (0 <? ClaimEvidenceSet.text_bytes s) && (vlen (ClaimEvidenceSet.claims s) =? 0)
  then Err InsufficientEvidence
  else Ok tt.

(** An increment when a condition holds. *)
Definition increment_if (b : bool) (value : Z) : Result ClaimComparisonError Z :=
  if b then increment value else Ok value.

(** [count_uncertainty]. *)
Definition count_uncertainty (claim : ClaimEvidence.t) (threshold_ppm : Z) (is_source : bool)
    (n : t) : Result ClaimComparisonError t :=
  let unknown_polarity := bool_decide (ClaimEvidence.polarity claim = PolarityUnknown) in
  let unknown_modality := bool_decide (ClaimEvidence.modality claim = ModalityUnknown) in
  let below := ClaimEvidence.confidence_ppm claim <? threshold_ppm in
  if is_source then
    p ← increment_if unknown_polarity (source_unknown_polarity n);
    m ← increment_if unknown_modality (source_unknown_modality n);
    b ← increment_if below (source_below_confidence n);
    Ok (mk (source_claims n) (candidate_claims n) (aligned_claims n) (missing_claims n)
          (novel_claims n) (polarity_conflicts n) (modality_conflicts n) (relationship_conflicts n)
          p (candidate_unknown_polarity n) m (candidate_unknown_modality n)
          b (candidate_below_confidence n))
  else
    p ← increment_if unknown_polarity (candidate_unknown_polarity n);
    m ← increment_if unknown_modality (candidate_unknown_modality n);
    b ← increment_if below (candidate_below_confidence n);
    Ok (mk (source_claims n) (candidate_claims n) (aligned_claims n) (missing_claims n)
          (novel_claims n) (polarity_conflicts n) (modality_conflicts n) (relationship_conflicts n)
          (source_unknown_polarity n) p (source_unknown_modality n) m
          (source_below_confidence n) b).

(** [base_counts]. *)
Definition base_counts (s c : ClaimEvidenceSet.t) : Result ClaimComparisonError t :=
  sn ← count (vlen (ClaimEvidenceSet.claims s));
  cn ← count (vlen (ClaimEvidenceSet.claims c));
  let n := mk sn cn 0 0 0 0 0 0 0 0 0 0 0 0 in
  n ← try_fold (fun n claim =>
        count_uncertainty claim (ClaimEvidenceSet.minimum_confidence_ppm s) true n)
      n (ClaimEvidenceSet.claims s);
  try_fold (fun n claim =>
      count_uncertainty claim (ClaimEvidenceSet.minimum_confidence_ppm c) false n)
    n (ClaimEvidenceSet.claims c).

(** [compare_aligned]. *)
Definition compare_aligned (s c : ClaimEvidence.t) (n : t) : Result ClaimComparisonError t :=
  let known_polarity :=
    negb (bool_decide (ClaimEvidence.polarity s = PolarityUnknown))
    && negb (bool_decide (ClaimEvidence.polarity c = PolarityUnknown)) in
  let polarity_changed :=
    known_polarity && negb (bool_decide (ClaimEvidence.polarity s = ClaimEvidence.polarity c)) in
  let known_modality :=
    negb (bool_decide (ClaimEvidence.modality s = ModalityUnknown))
    && negb (bool_decide (ClaimEvidence.modality c = ModalityUnknown)) in
  let modality_changed :=
    known_modality && negb (bool_decide (ClaimEvidence.modality s = ClaimEvidence.modality c)) in
  p ← increment_if polarity_changed (polarity_conflicts n);
  m ← increment_if modality_changed (modality_conflicts n);
  r ← increment_if
        (negb (ClaimEvidence.condition_count s =? ClaimEvidence.condition_count c)
         || negb (Bool.eqb (ClaimEvidence.attributed s) (ClaimEvidence.attributed c))
         || (negb (bool_decide (ClaimEvidence.claim_id s = ClaimEvidence.claim_id c))
             && negb polarity_changed && negb modality_changed))
        (relationship_conflicts n);
  Ok (mk (source_claims n) (candidate_claims n) (aligned_claims n) (missing_claims n)
        (novel_claims n) p m r
        (source_unknown_polarity n) (candidate_unknown_polarity n)
        (source_unknown_modality n) (candidate_unknown_modality n)
        (source_below_confidence n) (candidate_below_confidence n)).

Definition with_missing (n : t) (v : Z) : t :=
  mk (source_claims n) (candidate_claims n) (aligned_claims n) v
     (novel_claims n) (polarity_conflicts n) (modality_conflicts n) (relationship_conflicts n)
     (source_unknown_polarity n) (candidate_unknown_polarity n)
     (source_unknown_modality n) (candidate_unknown_modality n)
     (source_below_confidence n) (candidate_below_confidence n).
Definition with_aligned (n : t) (v : Z) : t :=
  mk (source_claims n) (candidate_claims n) v (missing_claims n)
     (novel_claims n) (polarity_conflicts n) (modality_conflicts n) (relationship_conflicts n)
     (source_unknown_polarity n) (candidate_unknown_polarity n)
     (source_unknown_modality n) (candidate_unknown_modality n)
     (source_below_confidence n) (candidate_below_confidence n).
Definition with_novel (n : t) (v : Z) : t :=
  mk (source_claims n) (candidate_claims n) (aligned_claims n) (missing_claims n)
     v (polarity_conflicts n) (modality_conflicts n) (relationship_conflicts n)
     (source_unknown_polarity n) (candidate_unknown_polarity n)
     (source_unknown_modality n) (candidate_unknown_modality n)
     (source_below_confidence n) (candidate_below_confidence n).

(** The candidate claims with the relation of a source claim, with their index. *)
Fixpoint relation_matches (s : ClaimEvidence.t) (index : nat) (cs : list ClaimEvidence.t)
  : list (nat * ClaimEvidence.t) :=
  match cs with
  | [] => []
  | c :: cs' =>
      if same_relation s c then (index, c) :: relation_matches s (S index) cs'
      else relation_matches s (S index) cs'
  end.

(** One round of the loop of [compare]: the used flags and the counts. *)
Definition compare_claim (candidate : list ClaimEvidence.t) (state : list bool * t)
    (source_claim : ClaimEvidence.t) : Result ClaimComparisonError (list bool * t) :=
  let '(used, n) := state in
  match relation_matches source_claim 0 candidate with
  | [] =>
      v ← increment (missing_claims n);
      Ok (used, with_missing n v)
  | (index, candidate_claim) :: more =>
      already ← expect (used !! index);
      if negb (bool_decide (more = [])) || already then Err AmbiguousAlignment
      else
        v ← increment (aligned_claims n);
        n' ← compare_aligned source_claim candidate_claim (with_aligned n v);
        Ok (<[index := true]> used, n')
  end.

(** [ClaimEvidenceComparator::compare]. *)
Definition compare (s c : ClaimEvidenceSet.t) : Result ClaimComparisonError ClaimComparisonEvidence.t :=
  _ ← validate_compatible_sets s c;
  n ← base_counts s c;
  '(used, n) ← try_fold (compare_claim (ClaimEvidenceSet.claims c))
                 (replicate (length (ClaimEvidenceSet.claims c)) false, n)
                 (ClaimEvidenceSet.claims s);
  novel ← try_fold (fun k (u : bool) => if u then Ok k else increment k) 0 used;
  map_err (fun _ => InvalidAggregate)
    (ClaimComparisonEvidence.new
       (ClaimEvidenceSet.extractor_manifest_digest s) (ClaimEvidenceSet.unit_id s)
       (ClaimEvidenceSet.text_digest s) (ClaimEvidenceSet.text_bytes s)
       (ClaimEvidenceSet.text_digest c) (ClaimEvidenceSet.text_bytes c)
       (ClaimEvidenceSet.evidence_digest s) (ClaimEvidenceSet.evidence_digest c)
       (ClaimEvidenceSet.minimum_confidence_ppm s) (with_novel n novel)).

(** ** The shadow gate *)

(** [ClaimShadowObserver]. *)
Definition ClaimShadowObserver : Type :=
  RewriteUnitId.t -> text -> text -> option ClaimComparisonEvidence.t.

Definition CLAIM_SHADOW_GATE : text := lit "claim_comparison_shadow".

(** [shadow_gate_version]. *)
Definition shadow_gate_version : text := lit "claim-comparator-v" ++ to_string CLAIM_COMPARATOR_VERSION.

(** [mismatched_shadow_gate]. *)
Definition mismatched_shadow_gate : GateResult.t :=
  GateResult.mk CLAIM_SHADOW_GATE shadow_gate_version Uncertain Info
    [GateEvidence.mk (lit "invalid_shadow_claim_evidence")
       (lit "shadow claim comparison was malformed or bound to other text") None] None.

Section Shadow.
Context {SHA : Sha256}.

(** [comparison_matches]. *)
Definition comparison_matches (c : ClaimComparisonEvidence.t) (u : RewriteUnitId.t)
    (source candidate : text) : bool :=
  bool_decide (ClaimComparisonEvidence.unit_id c = u)
  && bool_decide (ClaimComparisonEvidence.source_text_digest c = sha256 (as_bytes source))
  && bool_decide (ClaimComparisonEvidence.candidate_text_digest c = sha256 (as_bytes candidate))
  && (ClaimComparisonEvidence.source_text_bytes c =? slen source)
  && (ClaimComparisonEvidence.candidate_text_bytes c =? slen candidate).

(** [gate_from_comparison]. *)
Definition gate_from_comparison (comparison : ClaimComparisonEvidence.t) (u : RewriteUnitId.t)
    (source candidate : text) : GateResult.t :=
  if negb (comparison_matches comparison u source candidate)
     || negb (is_ok (ClaimComparisonEvidence.validate comparison))
  then mismatched_shadow_gate
  else
    let counts := ClaimComparisonEvidence.counts comparison in
    let '(status, code, message) :=
      if has_difference counts then
        (Fail, ClaimComparisonConflict, lit "typed claim comparison found a conflict")
      else if has_uncertainty counts then
        (Uncertain, ClaimComparisonUncertain, lit "typed claim comparison retained uncertainty")
      else (Pass, ClaimComparisonPreserved, lit "typed claim comparison found no conflict") in
    let gate :=
      GateResult.mk CLAIM_SHADOW_GATE shadow_gate_version status Info
        [GateEvidence.mk (semantic_code_str code) message (Some (ClaimComparison comparison))] None in
    if is_ok (GateResult.validate gate) then gate else mismatched_shadow_gate.

(** [shadow_gate]. *)
Definition shadow_gate (observer : ClaimShadowObserver) (u : RewriteUnitId.t)
    (source candidate : text) : option GateResult.t :=
  comparison ← observer u source candidate;
  Some (gate_from_comparison comparison u source candidate).

End Shadow.

(** ** What the comparator computes

    [reference_counts] states each count by itself over the two claim lists;
    [one_to_one] is the condition under which exact relation identities
    align the two lists. *)

Definition cnt {A} (p : A -> bool) (l : list A) : Z := vlen (List.filter p l).

Definition has_match (cs : list ClaimEvidence.t) (x : ClaimEvidence.t) : bool :=
  existsb (same_relation x) cs.

Definition matched_by (ss : list ClaimEvidence.t) (c : ClaimEvidence.t) : bool :=
  existsb (fun x => same_relation x c) ss.

(** Every source claim has at most one counterpart and every candidate claim
    is the counterpart of at most one source claim. *)
Definition one_to_one (ss cs : list ClaimEvidence.t) : bool :=
  forallb (fun x => cnt (same_relation x) cs <=? 1) ss
  && forallb (fun c => cnt (fun x => same_relation x c) ss <=? 1) cs.

(** A test on a source claim and its counterpart, false without one. *)
Definition on_match (cs : list ClaimEvidence.t) (test : ClaimEvidence.t -> ClaimEvidence.t -> bool)
    (x : ClaimEvidence.t) : bool :=
  match List.filter (same_relation x) cs with c :: _ => test x c | [] => false end.

Definition polarity_flips (x c : ClaimEvidence.t) : bool :=
  match ClaimEvidence.polarity x, ClaimEvidence.polarity c with
  | Affirmed, Negated | Negated, Affirmed => true
  | _, _ => false
  end.

Definition modality_flips (x c : ClaimEvidence.t) : bool :=
  negb (bool_decide (ClaimEvidence.modality x = ModalityUnknown))
  && negb (bool_decide (ClaimEvidence.modality c = ModalityUnknown))
  && negb (bool_decide (ClaimEvidence.modality x = ClaimEvidence.modality c)).

Definition relation_differs (x c : ClaimEvidence.t) : bool :=
  negb (ClaimEvidence.condition_count x =? ClaimEvidence.condition_count c)
  || negb (Bool.eqb (ClaimEvidence.attributed x) (ClaimEvidence.attributed c))
  || (negb (bool_decide (ClaimEvidence.claim_id x = ClaimEvidence.claim_id c))
      && negb (polarity_flips x c) && negb (modality_flips x c)).

Definition unknown_polarity (x : ClaimEvidence.t) : bool :=
  bool_decide (ClaimEvidence.polarity x = PolarityUnknown).
Definition unknown_modality (x : ClaimEvidence.t) : bool :=
  bool_decide (ClaimEvidence.modality x = ModalityUnknown).
Definition below (threshold : Z) (x : ClaimEvidence.t) : bool :=
  ClaimEvidence.confidence_ppm x <? threshold.

Definition reference_counts (s c : ClaimEvidenceSet.t) : t :=
  let ss := ClaimEvidenceSet.claims s in
  let cs := ClaimEvidenceSet.claims c in
  let ts := ClaimEvidenceSet.minimum_confidence_ppm s in
  let tc := ClaimEvidenceSet.minimum_confidence_ppm c in
  mk (vlen ss) (vlen cs)
     (cnt (has_match cs) ss) (cnt (fun x => negb (has_match cs x)) ss)
     (cnt (fun y => negb (matched_by ss y)) cs)
     (cnt (on_match cs polarity_flips) ss) (cnt (on_match cs modality_flips) ss)
     (cnt (on_match cs relation_differs) ss)
     (cnt unknown_polarity ss) (cnt unknown_polarity cs)
     (cnt unknown_modality ss) (cnt unknown_modality cs)
     (cnt (below ts) ss) (cnt (below tc) cs).

Lemma cnt_nil {A} (p : A -> bool) : cnt p [] = 0.
Proof. reflexivity. Qed.

Lemma cnt_cons {A} (p : A -> bool) (x : A) (l : list A) : cnt p (x :: l) = Z.b2z (p x) + cnt p l.
Proof. unfold cnt, vlen; cbn [List.filter]; destruct (p x); cbn [length Z.b2z]; lia. Qed.

Lemma cnt_app {A} (p : A -> bool) (l k : list A) : cnt p (l ++ k) = cnt p l + cnt p k.
Proof. unfold cnt, vlen; rewrite List.filter_app, length_app; lia. Qed.

Lemma cnt_bounds {A} (p : A -> bool) (l : list A) : 0 <= cnt p l <= vlen l.
Proof. unfold cnt, vlen; pose proof (List.filter_length_le p l); lia. Qed.

Lemma cnt_negb {A} (p : A -> bool) (l : list A) : cnt p l + cnt (fun x => negb (p x)) l = vlen l.
Proof.
  induction l as [|x l IH]; [reflexivity |].
  rewrite !cnt_cons; unfold vlen in *; cbn [length]; destruct (p x); cbn; lia.
Qed.

Lemma cnt_zero {A} (p : A -> bool) (l : list A) : existsb p l = false <-> cnt p l = 0.
Proof.
  induction l as [|x l IH]; [done |]; rewrite cnt_cons; cbn [existsb].
  pose proof (cnt_bounds p l); destruct (p x); cbn; [split; [done | lia] | rewrite IH; lia].
Qed.

Lemma cnt_map {A B} (f : A -> B) (p : B -> bool) (l : list A) :
  cnt p (map f l) = cnt (fun x => p (f x)) l.
Proof. induction l as [|x l IH]; [reflexivity |]; cbn [map]; rewrite !cnt_cons, IH; reflexivity. Qed.

Lemma cnt_le {A} (p q : A -> bool) (l : list A) :
  (forall x, p x = true -> q x = true) -> cnt p l <= cnt q l.
Proof.
  intros H; induction l as [|x l IH]; [reflexivity |]; rewrite !cnt_cons.
  specialize (H x); destruct (p x); [rewrite H by done | destruct (q x)]; cbn; lia.
Qed.

Lemma cnt_set (l : list bool) (i : nat) :
  l !! i = Some false -> cnt id (<[i := true]> l) = cnt id l + 1.
Proof.
  revert i; induction l as [|b l IH]; intros [|i] H; [done | done | |].
  - injection H as ->; change (<[0%nat := true]> (false :: l)) with (true :: l).
    rewrite !cnt_cons; cbn; lia.
  - change (<[S i := true]> (b :: l)) with (b :: <[i := true]> l).
    rewrite !cnt_cons, (IH _ H); lia.
Qed.

Lemma increment_if_ok (b : bool) (v : Z) :
  0 <= v < u32_max -> increment_if b v = Ok (v + Z.b2z b).
Proof.
  intros H; unfold increment_if, increment, checked_add; destruct b; cbn [Z.b2z].
  - replace (v + 1 <=? u32_max) with true by lia; reflexivity.
  - f_equal; lia.
Qed.

Lemma increment_ok (v : Z) : 0 <= v < u32_max -> increment v = Ok (v + 1).
Proof. exact (increment_if_ok true v). Qed.

(** The counts after the uncertainty loop over one side. *)
Definition with_uncertainty (is_source : bool) (l : list ClaimEvidence.t) (threshold : Z) (n : t) : t :=
  if is_source then
    mk (source_claims n) (candidate_claims n) (aligned_claims n) (missing_claims n)
       (novel_claims n) (polarity_conflicts n) (modality_conflicts n) (relationship_conflicts n)
       (source_unknown_polarity n + cnt unknown_polarity l) (candidate_unknown_polarity n)
       (source_unknown_modality n + cnt unknown_modality l) (candidate_unknown_modality n)
       (source_below_confidence n + cnt (below threshold) l) (candidate_below_confidence n)
  else
    mk (source_claims n) (candidate_claims n) (aligned_claims n) (missing_claims n)
       (novel_claims n) (polarity_conflicts n) (modality_conflicts n) (relationship_conflicts n)
       (source_unknown_polarity n) (candidate_unknown_polarity n + cnt unknown_polarity l)
       (source_unknown_modality n) (candidate_unknown_modality n + cnt unknown_modality l)
       (source_below_confidence n) (candidate_below_confidence n + cnt (below threshold) l).

Definition room (maximum : Z) (l : list Z) : Prop := Forall (fun v => 0 <= v <= u32_max - maximum) l.

Definition uncertainty_fields (is_source : bool) (n : t) : list Z :=
  if is_source then [source_unknown_polarity n; source_unknown_modality n; source_below_confidence n]
  else [candidate_unknown_polarity n; candidate_unknown_modality n; candidate_below_confidence n].

Lemma count_uncertainty_ok (is_source : bool) (claim : ClaimEvidence.t) (threshold : Z) (n : t) :
  room 1 (uncertainty_fields is_source n) ->
  count_uncertainty claim threshold is_source n = Ok (with_uncertainty is_source [claim] threshold n).
Proof.
  unfold room, count_uncertainty, with_uncertainty; destruct is_source; cbn [uncertainty_fields];
    rewrite !Forall_cons; intros (? & ? & ? & _);
    rewrite !increment_if_ok by lia; cbn [mbind result_bind]; rewrite !cnt_cons, !cnt_nil, !Z.add_0_r;
    reflexivity.
Qed.

Lemma uncertainty_loop (is_source : bool) (l : list ClaimEvidence.t) (threshold : Z) (n : t) :
  room (vlen l) (uncertainty_fields is_source n) ->
  try_fold (fun n claim => count_uncertainty claim threshold is_source n) n l
  = Ok (with_uncertainty is_source l threshold n).
Proof.
  revert n; induction l as [|x l IH]; intros n Hroom.
  - destruct n, is_source; cbn [try_fold with_uncertainty]; rewrite !cnt_nil; cbn; rewrite !Z.add_0_r;
      reflexivity.
  - cbn [try_fold]; rewrite count_uncertainty_ok.
    + cbn [mbind result_bind]; rewrite IH; [f_equal |].
      * destruct is_source; cbn [with_uncertainty]; rewrite !cnt_cons, !cnt_nil; cbn; f_equal; lia.
      * revert Hroom; unfold room, vlen; cbn [length]; destruct is_source;
          cbn [uncertainty_fields with_uncertainty]; rewrite !Forall_cons, !cnt_cons, !cnt_nil;
          intros (? & ? & ? & _); cbn;
          repeat apply conj; try lia; try constructor;
          destruct (unknown_polarity x), (unknown_modality x), (below threshold x); cbn; lia.
    + eapply Forall_impl; [exact Hroom |]; unfold vlen; cbn [length]; intros v ?; lia.
Qed.

(** The used flags after some source claims, and the counts they add. *)
Definition used_after (done cs : list ClaimEvidence.t) : list bool := map (matched_by done) cs.

Definition with_alignment (cs rest : list ClaimEvidence.t) (n : t) : t :=
  mk (source_claims n) (candidate_claims n)
     (aligned_claims n + cnt (has_match cs) rest)
     (missing_claims n + cnt (fun x => negb (has_match cs x)) rest)
     (novel_claims n)
     (polarity_conflicts n + cnt (on_match cs polarity_flips) rest)
     (modality_conflicts n + cnt (on_match cs modality_flips) rest)
     (relationship_conflicts n + cnt (on_match cs relation_differs) rest)
     (source_unknown_polarity n) (candidate_unknown_polarity n)
     (source_unknown_modality n) (candidate_unknown_modality n)
     (source_below_confidence n) (candidate_below_confidence n).

Definition alignment_fields (n : t) : list Z :=
  [aligned_claims n; missing_claims n; polarity_conflicts n; modality_conflicts n;
   relationship_conflicts n].

(** What the loop tests before it aligns one more claim. *)
Definition aligns (cs done : list ClaimEvidence.t) (x : ClaimEvidence.t) : bool :=
  (cnt (same_relation x) cs <=? 1)
  && negb (existsb (fun c => same_relation x c && matched_by done c) cs).

Fixpoint aligns_all (cs done rest : list ClaimEvidence.t) : bool :=
  match rest with
  | [] => true
  | x :: rest' => aligns cs done x && aligns_all cs (done ++ [x]) rest'
  end.

Lemma relation_matches_filter (x : ClaimEvidence.t) (k : nat) (cs : list ClaimEvidence.t) :
  map snd (relation_matches x k cs) = List.filter (same_relation x) cs.
Proof.
  revert k; induction cs as [|c cs IH]; intros k; [reflexivity |].
  cbn [relation_matches List.filter]; destruct (same_relation x c); cbn [map snd]; rewrite IH; reflexivity.
Qed.

Lemma relation_matches_first (x c : ClaimEvidence.t) (k i : nat) (cs : list ClaimEvidence.t) more :
  relation_matches x k cs = (i, c) :: more ->
  exists before after, cs = before ++ c :: after /\ i = (k + length before)%nat
    /\ same_relation x c = true /\ existsb (same_relation x) before = false
    /\ map snd more = List.filter (same_relation x) after.
Proof.
  revert k; induction cs as [|c' cs IH]; intros k; [done |].
  cbn [relation_matches]; destruct (same_relation x c') eqn:E.
  - intros [= <- <- <-]; exists [], cs; rewrite relation_matches_filter; cbn.
    repeat apply conj; try done; lia.
  - intros H; destruct (IH _ H) as (b & a & -> & -> & ? & Hb & ?).
    exists (c' :: b), a; cbn [existsb length app]; rewrite E, Hb; repeat apply conj; try done; lia.
Qed.

Lemma filter_nil_existsb {A} (p : A -> bool) (l : list A) :
  List.filter p l = [] <-> existsb p l = false.
Proof.
  induction l as [|x l IH]; [done |]; cbn [List.filter existsb].
  destruct (p x); cbn; [split; done | exact IH].
Qed.

Lemma matched_by_snoc (done : list ClaimEvidence.t) (x c : ClaimEvidence.t) :
  matched_by (done ++ [x]) c = matched_by done c || same_relation x c.
Proof. unfold matched_by; rewrite existsb_app; cbn [existsb]; rewrite orb_false_r; reflexivity. Qed.

Lemma used_unmatched (done cs : list ClaimEvidence.t) (x : ClaimEvidence.t) :
  existsb (same_relation x) cs = false -> used_after (done ++ [x]) cs = used_after done cs.
Proof.
  unfold used_after; induction cs as [|c cs IH]; [done |]; cbn [existsb map].
  destruct (same_relation x c) eqn:E; [done |]; intros H; rewrite matched_by_snoc, E, orb_false_r, IH;
    done.
Qed.

Lemma compare_aligned_ok (x c : ClaimEvidence.t) (n : t) :
  room 1 (alignment_fields n) ->
  compare_aligned x c n
  = Ok (mk (source_claims n) (candidate_claims n) (aligned_claims n) (missing_claims n)
          (novel_claims n) (polarity_conflicts n + Z.b2z (polarity_flips x c))
          (modality_conflicts n + Z.b2z (modality_flips x c))
          (relationship_conflicts n + Z.b2z (relation_differs x c))
          (source_unknown_polarity n) (candidate_unknown_polarity n)
          (source_unknown_modality n) (candidate_unknown_modality n)
          (source_below_confidence n) (candidate_below_confidence n)).
Proof.
  unfold room, alignment_fields; rewrite !Forall_cons; intros (? & ? & ? & ? & ? & _).
  unfold compare_aligned; rewrite !increment_if_ok by lia; cbn [mbind result_bind].
  unfold relation_differs.
  replace (polarity_flips x c) with
    (negb (bool_decide (ClaimEvidence.polarity x = PolarityUnknown))
     && negb (bool_decide (ClaimEvidence.polarity c = PolarityUnknown))
     && negb (bool_decide (ClaimEvidence.polarity x = ClaimEvidence.polarity c))); [reflexivity |].
  unfold polarity_flips; destruct (ClaimEvidence.polarity x), (ClaimEvidence.polarity c); reflexivity.
Qed.

Lemma used_insert (done before after : list ClaimEvidence.t) (x c : ClaimEvidence.t) :
  same_relation x c = true ->
  existsb (same_relation x) before = false -> existsb (same_relation x) after = false ->
  used_after (done ++ [x]) (before ++ c :: after)
  = <[length before := true]> (used_after done (before ++ c :: after)).
Proof.
  intros Hc Hb Ha; unfold used_after; rewrite !map_app; cbn [map].
  fold (used_after (done ++ [x]) before) (used_after (done ++ [x]) after).
  rewrite !used_unmatched by done; rewrite matched_by_snoc, Hc, orb_true_r.
  rewrite <- (length_map (matched_by done) before), <- (Nat.add_0_r (length (map _ before))).
  rewrite insert_app_r; reflexivity.
Qed.

Lemma existsb_first (x c : ClaimEvidence.t) (before after : list ClaimEvidence.t) (q : ClaimEvidence.t -> bool) :
  same_relation x c = true ->
  existsb (same_relation x) before = false -> existsb (same_relation x) after = false ->
  existsb (fun y => same_relation x y && q y) (before ++ c :: after) = q c.
Proof.
  intros Hc Hb Ha.
  assert (Hnone : forall l, existsb (same_relation x) l = false ->
                            existsb (fun y => same_relation x y && q y) l = false).
  { induction l as [|y l IH]; [done |]; cbn [existsb]; destruct (same_relation x y); [done | exact IH]. }
  rewrite existsb_app; cbn [existsb]; rewrite (Hnone _ Hb), (Hnone _ Ha), Hc.
  destruct (q c); reflexivity.
Qed.

Lemma matches_split (x c : ClaimEvidence.t) (before after : list ClaimEvidence.t) :
  same_relation x c = true -> existsb (same_relation x) before = false ->
  List.filter (same_relation x) (before ++ c :: after) = c :: List.filter (same_relation x) after.
Proof.
  intros Hc Hb; apply filter_nil_existsb in Hb.
  rewrite List.filter_app, Hb; cbn [app List.filter]; rewrite Hc; reflexivity.
Qed.

Lemma with_alignment_unmatched (cs : list ClaimEvidence.t) (x : ClaimEvidence.t) (n : t) :
  existsb (same_relation x) cs = false ->
  with_alignment cs [x] n = with_missing n (missing_claims n + 1).
Proof.
  intros H; unfold with_alignment, with_missing, has_match, on_match.
  rewrite !cnt_cons, !cnt_nil, H; apply filter_nil_existsb in H; rewrite H; cbn; rewrite !Z.add_0_r.
  reflexivity.
Qed.

(** One round of the loop. *)
Lemma compare_claim_spec (cs done : list ClaimEvidence.t) (x : ClaimEvidence.t) (n : t) :
  room 2 (alignment_fields n) ->
  compare_claim cs (used_after done cs, n) x
  = (if aligns cs done x then Ok (used_after (done ++ [x]) cs, with_alignment cs [x] n)
     else Err AmbiguousAlignment)
  /\ (aligns cs done x = true ->
      cnt id (used_after (done ++ [x]) cs)
      = cnt id (used_after done cs) + Z.b2z (has_match cs x)).
Proof.
  intros Hroom; pose proof Hroom as Hr; unfold room, alignment_fields in Hr; rewrite !Forall_cons in Hr;
    destruct Hr as (? & ? & ? & ? & ? & _); unfold compare_claim.
  destruct (relation_matches x 0 cs) as [|[i c] more] eqn:E.
  - assert (Hnone : existsb (same_relation x) cs = false).
    { apply filter_nil_existsb; rewrite <- (relation_matches_filter x 0), E; reflexivity. }
    assert (Hal : aligns cs done x = true).
    { unfold aligns; rewrite (proj1 (cnt_zero _ _) Hnone); cbn [Z.leb andb]; apply negb_true_iff.
      apply not_true_iff_false; intros (c & Hc & Hs)%existsb_exists.
      apply andb_true_iff in Hs as [Hs _]; apply not_true_iff_false in Hnone; apply Hnone, existsb_exists; eauto. }
    rewrite increment_ok by lia; rewrite Hal, used_unmatched, with_alignment_unmatched by done.
    unfold has_match; rewrite Hnone; cbn; split; [done | intros; lia].
  - destruct (relation_matches_first _ _ _ _ _ _ E) as (b & a & -> & -> & Hc & Hb & Hm); cbn [Nat.add].
    assert (Hl : used_after done (b ++ c :: a) !! length b = Some (matched_by done c)).
    { unfold used_after; rewrite map_app, lookup_app_r, length_map, Nat.sub_diag by (rewrite length_map; lia).
      reflexivity. }
    rewrite Hl; cbn [expect mbind result_bind]; unfold aligns.
    assert (Hcnt : cnt (same_relation x) (b ++ c :: a) = 1 + vlen more).
    { rewrite cnt_app, cnt_cons, Hc, (proj1 (cnt_zero _ _) Hb); unfold cnt; rewrite <- Hm.
      unfold vlen; rewrite length_map; reflexivity. }
    rewrite Hcnt; destruct more as [|m more].
    + symmetry in Hm; apply filter_nil_existsb in Hm; change (1 + vlen [] <=? 1) with true.
      rewrite existsb_first by done; cbn [andb negb orb bool_decide].
      destruct (matched_by done c) eqn:Ed; [split; done |].
      rewrite used_insert, cnt_set by done.
      assert (Hhas : has_match (b ++ c :: a) x = true).
      { unfold has_match; rewrite existsb_app; cbn [existsb]; rewrite Hc, orb_true_r; reflexivity. }
      split; [| rewrite Hhas; done].
      change (negb (bool_decide ([] = [])) || false) with false; cbn [negb].
      rewrite increment_ok by lia; cbn [mbind result_bind].
      rewrite compare_aligned_ok by (unfold room, alignment_fields; cbn; repeat constructor; lia).
      unfold with_alignment, with_aligned, on_match; cbn [mbind result_bind]; cbn.
      rewrite !cnt_cons, !cnt_nil, Hhas, matches_split by done; cbn; rewrite !Z.add_0_r; reflexivity.
    + rewrite bool_decide_eq_false_2 by done; cbn [orb negb].
      assert (1 + vlen (m :: more) <=? 1 = false) as -> by (apply Z.leb_gt; unfold vlen; cbn [length]; lia).
      split; done.
Qed.

Lemma alignment_loop (cs done rest : list ClaimEvidence.t) (n : t) :
  room (1 + vlen rest) (alignment_fields n) ->
  try_fold (compare_claim cs) (used_after done cs, n) rest
  = (if aligns_all cs done rest then Ok (used_after (done ++ rest) cs, with_alignment cs rest n)
     else Err AmbiguousAlignment)
  /\ (aligns_all cs done rest = true ->
      cnt id (used_after (done ++ rest) cs)
      = cnt id (used_after done cs) + cnt (has_match cs) rest).
Proof.
  revert done n; induction rest as [|x rest IH]; intros done n Hroom.
  - rewrite app_nil_r; cbn [try_fold aligns_all]; unfold with_alignment; rewrite !cnt_nil, !Z.add_0_r.
    destruct n; split; [reflexivity | intros; lia].
  - destruct (compare_claim_spec cs done x n) as [Hstep Hcnt].
    { eapply Forall_impl; [exact Hroom |]; unfold vlen; cbn [length]; intros v ?; lia. }
    cbn [try_fold aligns_all]; rewrite Hstep; destruct (aligns cs done x); [| split; done].
    cbn [mbind result_bind andb]; destruct (IH (done ++ [x]) (with_alignment cs [x] n)) as [IH1 IH2].
    { revert Hroom; unfold room, alignment_fields, with_alignment, vlen; cbn [length]; cbn.
      rewrite !Forall_cons; intros (? & ? & ? & ? & ? & _).
      repeat match goal with |- context [cnt ?p [x]] =>
        pose proof (cnt_bounds p [x]); generalize dependent (cnt p [x]) end.
      unfold vlen; cbn [length]; intros; repeat apply conj; try lia; constructor. }
    rewrite IH1; replace ((done ++ [x]) ++ rest) with (done ++ x :: rest) in *
      by (rewrite <- app_assoc; reflexivity).
    split.
    + destruct (aligns_all cs (done ++ [x]) rest); [| reflexivity]; do 2 f_equal.
      unfold with_alignment; cbn; rewrite !cnt_cons, !cnt_nil; f_equal; lia.
    + intros H; rewrite (IH2 H), Hcnt, cnt_cons by done; lia.
Qed.

Lemma aligns_all_iff (cs done rest : list ClaimEvidence.t) :
  aligns_all cs done rest = true <->
  (forall x, x ∈ rest -> cnt (same_relation x) cs <= 1)
  /\ (forall c, c ∈ cs -> matched_by rest c = true ->
        cnt (fun x => same_relation x c) (done ++ rest) <= 1).
Proof.
  revert done; induction rest as [|x rest IH]; intros done.
  { cbn [aligns_all]; split; [intros _; split; [intros x Hx; inversion Hx | done] | done]. }
  cbn [aligns_all]; rewrite andb_true_iff, IH; unfold aligns; rewrite andb_true_iff, Z.leb_le.
  replace ((done ++ [x]) ++ rest) with (done ++ x :: rest) by (rewrite <- app_assoc; reflexivity).
  assert (Hused : negb (existsb (fun c => same_relation x c && matched_by done c) cs) = true <->
                  forall c, c ∈ cs -> same_relation x c = true -> cnt (fun y => same_relation y c) done = 0).
  { rewrite negb_true_iff, <- not_true_iff_false, existsb_exists; split.
    - intros H c Hc Hs; apply cnt_zero, not_true_iff_false; intros Hd; apply H; exists c.
      split; [by apply list_elem_of_In | rewrite Hs; exact Hd].
    - intros H (c & Hc & Hs); apply andb_true_iff in Hs as [Hs Hd].
      apply list_elem_of_In in Hc; specialize (H c Hc Hs); apply cnt_zero in H; unfold matched_by in Hd;
        congruence. }
  rewrite Hused; setoid_rewrite elem_of_cons; setoid_rewrite cnt_app; setoid_rewrite cnt_cons.
  unfold matched_by; cbn [existsb]; setoid_rewrite orb_true_iff; split.
  - intros [[Hx Hd] [Hr Hm]]; split; [intros y [-> | Hy]; auto |].
    intros c Hc Hor; destruct (existsb (fun y => same_relation y c) rest) eqn:E; [apply Hm; done |].
    destruct Hor as [Hs | ?]; [| done]; rewrite (Hd c Hc Hs), (proj1 (cnt_zero _ _) E), Hs; cbn; lia.
  - intros [Hr Hm]; repeat split; auto.
    intros c Hc Hs; specialize (Hm c Hc (or_introl Hs)); rewrite Hs in Hm; cbn in Hm.
    pose proof (cnt_bounds (fun y => same_relation y c) done).
    pose proof (cnt_bounds (fun y => same_relation y c) rest); lia.
Qed.

Lemma aligns_all_one_to_one (ss cs : list ClaimEvidence.t) : aligns_all cs [] ss = one_to_one ss cs.
Proof.
  apply eq_true_iff_eq; rewrite aligns_all_iff; unfold one_to_one; rewrite andb_true_iff, !forallb_forall.
  setoid_rewrite Z.leb_le; setoid_rewrite <- list_elem_of_In; cbn [app].
  split; intros [H1 H2]; (split; [exact H1 |]); [| intros; apply H2; done].
  intros c Hc; destruct (matched_by ss c) eqn:E; [auto |].
  apply cnt_zero in E; rewrite E; lia.
Qed.

Lemma novel_loop (used : list bool) (k : Z) :
  0 <= k -> k + vlen used < u32_max ->
  try_fold (fun k (u : bool) => if u then Ok k else increment k) k used = Ok (k + cnt negb used).
Proof.
  revert k; induction used as [|b used IH]; intros k Hk Hroom.
  - cbn; f_equal; rewrite cnt_nil; lia.
  - unfold vlen in *; cbn [length] in Hroom; cbn [try_fold]; rewrite cnt_cons.
    destruct b; [| rewrite increment_ok by lia]; cbn [mbind result_bind]; rewrite IH by lia; f_equal;
      cbn; lia.
Qed.

Lemma on_match_le (cs : list ClaimEvidence.t) test (ss : list ClaimEvidence.t) :
  cnt (on_match cs test) ss <= cnt (has_match cs) ss.
Proof.
  apply cnt_le; intros x; unfold on_match, has_match; destruct (List.filter _ cs) eqn:E; [done |].
  intros _; destruct (existsb _ cs) eqn:E'; [done |]; apply filter_nil_existsb in E'; congruence.
Qed.

(** The bounds [ClaimEvidenceSet::new] establishes. *)
Record set_bounded (s : ClaimEvidenceSet.t) : Prop := {
  bounded_claims : vlen (ClaimEvidenceSet.claims s) <= MAX_CLAIMS_PER_UNIT;
  bounded_threshold : ClaimEvidenceSet.minimum_confidence_ppm s <= CLAIM_CONFIDENCE_PARTS_PER_MILLION
}.

Lemma set_new_bounded {SHA : Sha256} extractor_id extractor_version manifest status threshold unit_id s claims set :
  ClaimEvidenceSet.new extractor_id extractor_version manifest status threshold unit_id s claims = Ok set ->
  set_bounded set.
Proof.
  unfold ClaimEvidenceSet.new; destruct (negb _ || negb _); [done |].
  destruct (_ <? threshold) eqn:E1; [done |]; destruct (_ <? vlen claims) eqn:E2; [done |].
  destruct (check_claims _ _ _); cbn; [| done | done]; intros [= <-]; zbool.
  split; cbn; [| lia]; unfold vlen in *; rewrite (Permutation_length (sort_by_perm claim_le claims)); lia.
Qed.

Lemma base_counts_ok (s c : ClaimEvidenceSet.t) :
  set_bounded s -> set_bounded c ->
  base_counts s c
  = Ok (mk (vlen (ClaimEvidenceSet.claims s)) (vlen (ClaimEvidenceSet.claims c)) 0 0 0 0 0 0
          (cnt unknown_polarity (ClaimEvidenceSet.claims s))
          (cnt unknown_polarity (ClaimEvidenceSet.claims c))
          (cnt unknown_modality (ClaimEvidenceSet.claims s))
          (cnt unknown_modality (ClaimEvidenceSet.claims c))
          (cnt (below (ClaimEvidenceSet.minimum_confidence_ppm s)) (ClaimEvidenceSet.claims s))
          (cnt (below (ClaimEvidenceSet.minimum_confidence_ppm c)) (ClaimEvidenceSet.claims c))).
Proof.
  intros [Hs _] [Hc _]; unfold base_counts, count.
  assert (Hcount : forall l : list ClaimEvidence.t, vlen l <= MAX_CLAIMS_PER_UNIT ->
            ok_or (try_from u32_max (vlen l)) CountOverflow = Ok (vlen l)).
  { intros l Hl; rewrite (proj2 (try_from_Some u32_max (vlen l) (vlen l))); [done |].
    unfold MAX_CLAIMS_PER_UNIT, u32_max, vlen in *; lia. }
  rewrite !Hcount by done; cbn [mbind result_bind].
  rewrite uncertainty_loop; [| unfold room; repeat constructor; cbn; unfold MAX_CLAIMS_PER_UNIT, u32_max in *; lia].
  cbn [mbind result_bind]; rewrite uncertainty_loop;
    [| unfold room; repeat constructor; cbn; unfold MAX_CLAIMS_PER_UNIT, u32_max in *; lia].
  reflexivity.
Qed.

Lemma existsb_above (bound : Z) (l : list Z) :
  Forall (fun v => v <= bound) l -> existsb (fun v => bound <? v) l = false.
Proof.
  induction 1 as [|v l Hv _ IH]; [reflexivity |]; cbn [existsb]; rewrite IH, orb_false_r.
  apply Z.ltb_ge; exact Hv.
Qed.

Lemma reference_counts_valid (s c : ClaimEvidenceSet.t) :
  set_bounded s -> set_bounded c ->
  cnt (has_match (ClaimEvidenceSet.claims c)) (ClaimEvidenceSet.claims s)
  = cnt (matched_by (ClaimEvidenceSet.claims s)) (ClaimEvidenceSet.claims c) ->
  validate (reference_counts s c) = Ok (reference_counts s c).
Proof.
  intros [Hs _] [Hc _] Hal; set (ss := ClaimEvidenceSet.claims s) in *; set (cs := ClaimEvidenceSet.claims c) in *.
  pose proof (cnt_negb (has_match cs) ss) as H1; pose proof (cnt_negb (matched_by ss) cs) as H2.
  unfold MAX_CLAIMS_PER_UNIT in *; unfold validate.
  change (try_from u32_max MAX_CLAIMS_PER_UNIT) with (Some 256); cbn [ok_or mbind result_bind].
  unfold checked_add, reference_counts; fold ss cs.
  cbn [aligned_claims missing_claims novel_claims source_claims candidate_claims polarity_conflicts
       modality_conflicts relationship_conflicts source_unknown_polarity source_unknown_modality
       source_below_confidence candidate_unknown_polarity candidate_unknown_modality
       candidate_below_confidence].
  rewrite !(proj2 (Z.leb_le _ _)) by (unfold u32_max; lia); cbn [ok_or mbind result_bind].
  rewrite !(proj2 (Z.eqb_eq _ _)) by lia; pose proof (on_match_le cs).
  rewrite !(proj2 (Z.ltb_ge _ _)) by (auto || lia).
  rewrite !existsb_above by (repeat constructor; apply cnt_bounds); reflexivity.
Qed.

Lemma used_after_nil (cs : list ClaimEvidence.t) : used_after [] cs = replicate (length cs) false.
Proof. induction cs as [|c cs IH]; [reflexivity |]; cbn; f_equal; exact IH. Qed.

Lemma unmatched_nil (cs : list ClaimEvidence.t) : existsb (fun y => id (matched_by [] y)) cs = false.
Proof. induction cs as [|c cs IH]; [reflexivity | exact IH]. Qed.

Lemma compatible_nonempty (s c : ClaimEvidenceSet.t) (a : unit) :
  validate_compatible_sets s c = Ok a ->
  (0 <? ClaimEvidenceSet.text_bytes s) && (vlen (ClaimEvidenceSet.claims s) =? 0) = false.
Proof. unfold validate_compatible_sets; intros H; repeat step_match; done. Qed.

(** C13. The comparator computes its specification: for compatible evidence
    sets it returns the counts defined claim by claim over both lists when
    exact relation identities align them one to one, and the ambiguity error
    exactly otherwise.  No counter overflows, no index is out of range and
    the aggregate always meets its own contract. *)
Theorem claim_compare_exact (s c : ClaimEvidenceSet.t) :
  set_bounded s -> set_bounded c ->
  compare s c =
    _ ← validate_compatible_sets s c;
    if one_to_one (ClaimEvidenceSet.claims s) (ClaimEvidenceSet.claims c)
    then Ok (ClaimComparisonEvidence.mk CLAIM_COMPARISON_SCHEMA_VERSION CLAIM_EVIDENCE_SCHEMA_VERSION
               CLAIM_COMPARATOR_VERSION
               (ClaimEvidenceSet.extractor_manifest_digest s) (ClaimEvidenceSet.unit_id s)
               (ClaimEvidenceSet.text_digest s) (ClaimEvidenceSet.text_bytes s)
               (ClaimEvidenceSet.text_digest c) (ClaimEvidenceSet.text_bytes c)
               (ClaimEvidenceSet.evidence_digest s) (ClaimEvidenceSet.evidence_digest c)
               (ClaimEvidenceSet.minimum_confidence_ppm s) (reference_counts s c))
    else Err AmbiguousAlignment.
Proof.
  intros Hs Hc; unfold compare; destruct (validate_compatible_sets s c) as [[]|e|] eqn:Ev; [| done | done].
  cbn [mbind result_bind]; rewrite base_counts_ok by done; cbn [mbind result_bind].
  pose proof (bounded_claims _ Hs) as Hsn; pose proof (bounded_claims _ Hc) as Hcn.
  unfold MAX_CLAIMS_PER_UNIT in *.
  match goal with |- context [try_fold _ (_, ?n) _] =>
    destruct (alignment_loop (ClaimEvidenceSet.claims c) [] (ClaimEvidenceSet.claims s) n) as [Hloop Hused] end.
  { unfold room; repeat constructor; cbn; unfold u32_max; lia. }
  rewrite <- used_after_nil, Hloop; rewrite aligns_all_one_to_one in *; cbn [app] in *.
  destruct (one_to_one _ _); [| reflexivity]; specialize (Hused eq_refl); cbn [mbind result_bind].
  rewrite novel_loop by (unfold used_after, vlen in *; rewrite ?length_map; unfold u32_max; lia).
  cbn [mbind result_bind]; unfold used_after in *; rewrite !cnt_map in *.
  rewrite (proj1 (cnt_zero (fun y => id (matched_by [] y)) _) (unmatched_nil _)) in Hused.
  replace (with_novel _ _) with (reference_counts s c) by reflexivity.
  unfold ClaimComparisonEvidence.new, ClaimComparisonEvidence.validate.
  cbn [ClaimComparisonEvidence.schema_version ClaimComparisonEvidence.claim_schema_version
       ClaimComparisonEvidence.comparator_version ClaimComparisonEvidence.minimum_confidence_ppm
       ClaimComparisonEvidence.source_text_bytes ClaimComparisonEvidence.counts].
  rewrite !Z.eqb_refl, (proj2 (Z.ltb_ge _ _)) by apply (bounded_threshold _ Hs); cbn [negb orb].
  change (source_claims (reference_counts s c)) with (vlen (ClaimEvidenceSet.claims s)).
  rewrite (compatible_nonempty _ _ _ Ev).
  rewrite reference_counts_valid; [reflexivity | done | done |].
  rewrite Z.add_0_l in Hused; symmetry; exact Hused.
Qed.

(** ** The shadow gate is advisory *)

Lemma mismatched_shadow_gate_valid : GateResult.validate mismatched_shadow_gate = Ok tt.
Proof. vm_compute; reflexivity. Qed.

Lemma gate_from_comparison_info {SHA : Sha256} comparison u source candidate :
  let gate := gate_from_comparison comparison u source candidate in
  GateResult.severity gate = Info /\ GateResult.validate gate = Ok tt.
Proof.
  cbv zeta; unfold gate_from_comparison.
  destruct (negb _ || negb _); [split; [reflexivity | apply mismatched_shadow_gate_valid] |].
  destruct (if has_difference _ then _ else _) as [[status code] message].
  destruct (is_ok _) eqn:E; [| split; [reflexivity | apply mismatched_shadow_gate_valid]].
  split; [reflexivity |]; destruct (GateResult.validate _) as [[]| |]; done.
Qed.

Lemma shadow_gate_info {SHA : Sha256} observer u source candidate gate :
  shadow_gate observer u source candidate = Some gate ->
  GateResult.severity gate = Info /\ GateResult.validate gate = Ok tt.
Proof.
  unfold shadow_gate; destruct (observer u source candidate) as [comparison|]; [| done].
  intros [= <-]; apply gate_from_comparison_info.
Qed.
