(* ===== verification/SpanReport.v ===== *)
(** * Redacted failure locations ([engine/src/span_report.rs]).

    When a gate fails, the engine attaches the line and column of what was
    lost, added, altered or moved, never the text itself.  The module holds
    the four reports and what they guarantee: a report is present exactly
    when there is something to report, and it always meets the evidence
    contract, so no location is dropped by the validating constructor. *)

From S2P Require Import Prelude Text Regex Document TextSafety Rewrite Claims Evidence TextAdapter.
From S2P Require Import Extract Protection Semantic.

Definition MAX_FAILURES : Z := MAX_SPAN_FAILURES.

(** [point_at]. *)
Definition point_at (s : text) (byte_index : Z) : option TextPoint.t :=
  TextPoint.from_byte_index s byte_index.

(** [details]. *)
Definition details (failures : list SpanFailure) : option GateEvidenceDetails :=
  if vlen failures =? 0 then None
  else
    evidence ← result_ok (GateEvidence.new (lit "span_failures") (lit "redacted span locations")
                            (Some (SpanFailures failures)));
    GateEvidence.details evidence.

(** A failure with a location on at least one side. *)
Definition located (f : SpanFailure) : bool :=
  negb (bool_decide (failure_source f = None)) || negb (bool_decide (failure_candidate f = None)).

(** ** Protected occurrences *)

Record Side := { side_kind : ProtectedKind; side_surface : text; side_start : Z }.

(** [sides]. *)
Definition sides (s : text) (spans : list MatchSpan) : list Side :=
  omap (fun span =>
      surface ← slice s (start span) (end_ span);
      Some {| side_kind := kind span; side_surface := surface; side_start := start span |})
    spans.

(** [kind_name]. *)
Definition kind_name (k : ProtectedKind) : text :=
  match k with
  | DeclaredTerm => lit "declared_term"
  | Url => lit "url"
  | Email => lit "email"
  | Number => lit "number"
  end.

(** [Iterator::position]. *)
Fixpoint position (term : text) (terms : list text) : option Z :=
  match terms with
  | [] => None
  | t :: terms' => if text_eqb t term then Some 0 else i ← position term terms'; Some (i + 1)
  end.

(** [push_failure]. *)
Definition push_failure (failures : list SpanFailure) (source candidate : text)
    (declared_terms : list text) (k : ProtectedKind) (source_side candidate_side : option Side)
    (change : SpanChange) : list SpanFailure :=
  let ordinal :=
    if bool_decide (k = DeclaredTerm) then
      side ← (match source_side with Some s => Some s | None => candidate_side end);
      index ← position (side_surface side) declared_terms;
      try_from u32_max (saturating_add usize_max index 1)
    else None in
  if bool_decide (k = DeclaredTerm) && bool_decide (ordinal = None) then failures
  else
    let failure := {|
      failure_kind := kind_name k;
      Evidence.ordinal := ordinal;
      failure_source := side ← source_side; point_at source (side_start side);
      failure_candidate := side ← candidate_side; point_at candidate (side_start side);
      Evidence.change := change
    |} in
    if located failure then failures ++ [failure] else failures.

(** The two loops of [pair_unmatched] over one kind.  [inl] is the early
    return at the limit, [inr] the failures so far. *)
Fixpoint pair_right (source candidate : text) (terms : list text) (k : ProtectedKind)
    (failures : list SpanFailure) (right : list Side) : list SpanFailure + list SpanFailure :=
  match right with
  | [] => inr failures
  | c :: right' =>
      if vlen failures =? MAX_FAILURES then inl failures
      else pair_right source candidate terms k
             (push_failure failures source candidate terms k None (Some c) Added) right'
  end.

Fixpoint pair_left (source candidate : text) (terms : list text) (k : ProtectedKind)
    (failures : list SpanFailure) (left right : list Side) : list SpanFailure + list SpanFailure :=
  match left with
  | [] => pair_right source candidate terms k failures right
  | s :: left' =>
      if vlen failures =? MAX_FAILURES then inl failures
      else
        let candidate_side := head right in
        let change := if bool_decide (candidate_side = None) then Missing else Altered in
        pair_left source candidate terms k
          (push_failure failures source candidate terms k (Some s) candidate_side change)
          left' (tail right)
  end.

Definition of_kind (k : ProtectedKind) (side : Side) : bool := bool_decide (side_kind side = k).

(** [pair_unmatched]. *)
Fixpoint pair_kinds (source candidate : text) (terms : list text) (left right : list Side)
    (failures : list SpanFailure) (kinds : list ProtectedKind) : list SpanFailure :=
  match kinds with
  | [] => failures
  | k :: kinds' =>
      match pair_left source candidate terms k failures
              (List.filter (of_kind k) left) (List.filter (of_kind k) right) with
      | inl failures' => failures'
      | inr failures' => pair_kinds source candidate terms left right failures' kinds'
      end
  end.
Definition pair_unmatched (source candidate : text) (declared_terms : list text)
    (unmatched_source unmatched_candidate : list Side) : list SpanFailure :=
  pair_kinds source candidate declared_terms unmatched_source unmatched_candidate []
    [DeclaredTerm; Url; Email; Number].

(** The queues of [diff_occurrences]: the candidate indexes of each literal. *)
Fixpoint build_queues (queues : gmap (ProtectedKind * text) (list nat)) (index : nat)
    (candidate_sides : list Side) : gmap (ProtectedKind * text) (list nat) :=
  match candidate_sides with
  | [] => queues
  | c :: candidate_sides' =>
      let key := (side_kind c, side_surface c) in
      build_queues (<[key := default [] (queues !! key) ++ [index]]> queues) (S index) candidate_sides'
  end.

(** The matching loop: pop a queue or keep the source side. *)
Fixpoint match_sides {E : Type} (queues : gmap (ProtectedKind * text) (list nat)) (matched : list bool)
    (unmatched_source : list Side) (source_sides : list Side) : Result E (list bool * list Side) :=
  match source_sides with
  | [] => Ok (matched, unmatched_source)
  | s :: source_sides' =>
      let key := (side_kind s, side_surface s) in
      match queues !! key with
      | Some (index :: queue) =>
          _ ← expect (matched !! index);
          match_sides (<[key := queue]> queues) (<[index := true]> matched) unmatched_source
            source_sides'
      | _ => match_sides queues matched (unmatched_source ++ [s]) source_sides'
      end
  end.

(** [diff_occurrences]; the flags are as many as the candidate sides, so the
    final filter reads each side with its own flag. *)
Definition diff_occurrences {E : Type} (source candidate : text) (declared_terms : list text)
    (source_spans candidate_spans : list MatchSpan) : Result E (list SpanFailure) :=
  let source_sides := sides source source_spans in
  let candidate_sides := sides candidate candidate_spans in
  let queues := build_queues ∅ 0 candidate_sides in
  '(matched, unmatched_source) ←
    match_sides queues (replicate (length candidate_sides) false) [] source_sides;
  let unmatched_candidate :=
    map fst (List.filter (fun p => negb (snd p)) (zip candidate_sides matched)) in
  Ok (pair_unmatched source candidate declared_terms unmatched_source unmatched_candidate).

(** [.ok()?] in a function that returns an option: an error is no report. *)
Definition ok_opt {E F A B : Type} (m : Result E A) (f : A -> Result F (option B)) : Result F (option B) :=
  match m with Ok a => f a | Err _ => Ok None | Panic => Panic end.

Section Reports.
Context {UT : UnicodeTables} {RE : RegexEngine}.

(** [protection_details]. *)
Definition protection_details {E : Type} (source candidate : text) (declared_terms : list text)
  : Result E (option GateEvidenceDetails) :=
  ok_opt (protected_occurrences source declared_terms) (fun source_spans =>
  ok_opt (protected_occurrences candidate declared_terms) (fun candidate_spans =>
  failures ← diff_occurrences source candidate declared_terms source_spans candidate_spans;
  Ok (details failures))).

(** [literal_token_details]. *)
Definition literal_token_details (source candidate : text) : option GateEvidenceDetails :=
  change ← first_literal_token_change source candidate;
  let word source_at candidate_at change := {|
    failure_kind := lit "word_changed"; Evidence.ordinal := None;
    failure_source := i ← source_at; point_at source i;
    failure_candidate := i ← candidate_at; point_at candidate i;
    Evidence.change := change |} in
  let failure :=
    match change with
    | TokenAltered source_at candidate_at => word (Some source_at) (Some candidate_at) Altered
    | TokenMissing source_at => word (Some source_at) None Missing
    | TokenAdded candidate_at => word None (Some candidate_at) Added
    end in
  if bool_decide (failure_source failure = None) && bool_decide (failure_candidate failure = None)
  then None
  else details [failure].

End Reports.

(** ** Newline structure *)

(** [one_structure] and [one_unsafe]. *)
Definition one_failure (kind : string) (source candidate : text) (change : SpanChange)
    (source_at candidate_at : option Z) : list SpanFailure :=
  let failure := {|
    failure_kind := lit kind; Evidence.ordinal := None;
    failure_source := i ← source_at; point_at source i;
    failure_candidate := i ← candidate_at; point_at candidate i;
    Evidence.change := change |} in
  if located failure then [failure] else [].
Definition one_structure : text -> text -> SpanChange -> option Z -> option Z -> list SpanFailure :=
  one_failure "structure".
Definition one_unsafe : text -> text -> SpanChange -> option Z -> option Z -> list SpanFailure :=
  one_failure "unsafe_text".

Record NewlineEvent := { event_at : Z; event_kind : Z }.

(** The loop of [newline_events] over the bytes from an index on. *)
Fixpoint events_from (index : Z) (bs : bytes) : list NewlineEvent :=
  match bs with
  | [] => []
  | b :: rest =>
      if b =? 13 then
        match rest with
        | c :: rest' =>
            if c =? 10
            then {| event_at := index; event_kind := 67 |} :: events_from (index + 2) rest'
            else {| event_at := index; event_kind := 82 |} :: events_from (index + 1) rest
        | [] => [{| event_at := index; event_kind := 82 |}]
        end
      else if b =? 10 then {| event_at := index; event_kind := 76 |} :: events_from (index + 1) rest
      else events_from (index + 1) rest
  end.
(** [newline_events]. *)
Definition newline_events (s : text) : list NewlineEvent := events_from 0 (as_bytes s).

(** [first_difference] of the report module. *)
Definition report_first_difference (left right : text) : option Z :=
  match first_difference_loop 0 left right with
  | inl offset => Some offset
  | inr offset =>
      if slen left =? slen right then None
      else Some (Z.min (Z.min offset (slen left)) (slen right))
  end.

(** The comparison of the two event lists of [structure_failures]. *)
Fixpoint event_failures (source candidate : text) (left right : list NewlineEvent)
  : list SpanFailure :=
  match left, right with
  | l :: left', r :: right' =>
      if negb (event_kind l =? event_kind r) || negb (event_at l =? event_at r) then
        one_structure source candidate
          (if event_kind l =? event_kind r then Moved else Altered)
          (Some (event_at l)) (Some (event_at r))
      else event_failures source candidate left' right'
  | l :: _, [] => one_structure source candidate Missing (Some (event_at l)) None
  | [], r :: _ => one_structure source candidate Added None (Some (event_at r))
  | [], [] =>
      match report_first_difference source candidate with
      | Some at_ => one_structure source candidate Altered (Some at_) (Some at_)
      | None => []
      end
  end.
(** [structure_failures]. *)
Definition structure_failures (source candidate : text) : list SpanFailure :=
  event_failures source candidate (newline_events source) (newline_events candidate).

(** [structure_details]. *)
Definition structure_details (source candidate : text) : option GateEvidenceDetails :=
  details (structure_failures source candidate).

(** ** Unsafe text *)

(** [unsafe_failures]. *)
Definition unsafe_failures (source candidate : text) : list SpanFailure :=
  match first_text_safety_fault source candidate with
  | Some (HardIntroduced at_) | Some (InvisibleIntroduced at_) =>
      one_unsafe source candidate Introduced None (Some at_)
  | Some (HardAltered at_) => one_unsafe source candidate Altered (Some at_) (Some at_)
  | None => []
  end.

(** [unsafe_details]. *)
Definition unsafe_details (source candidate : text) : option GateEvidenceDetails :=
  details (unsafe_failures source candidate).

(** ** Lemmas: a report passes the validating constructor *)

Abbreviation failure_ok := (fun f => validate_span_failure f = Ok tt).

Lemma details_nil (failures : list SpanFailure) : failures = [] -> details failures = None.
Proof. intros ->; reflexivity. Qed.

Lemma details_Some (failures : list SpanFailure) :
  failures <> [] -> vlen failures <= MAX_FAILURES -> Forall failure_ok failures ->
  details failures = Some (SpanFailures failures) /\
  validate_gate_details (Some (SpanFailures failures)) = Ok tt.
Proof.
  intros Hne Hlen Hok.
  assert (Hz : vlen failures =? 0 = false).
  { apply Z.eqb_neq; unfold vlen; destruct failures; cbn [length]; [done | lia]. }
  assert (Hv : validate_gate_details (Some (SpanFailures failures)) = Ok tt).
  { cbn [validate_gate_details]; unfold validate_span_failures; rewrite Hz, (proj2 (Z.ltb_ge _ _)) by exact Hlen.
    apply try_for_each_ok; exact Hok. }
  split; [| exact Hv]; unfold details; rewrite Hz.
  unfold GateEvidence.new, GateEvidence.validate; cbn [GateEvidence.code GateEvidence.message GateEvidence.details].
  change (validate_code (lit "span_failures")) with (@Ok EvidenceContractError unit tt).
  cbn [mbind result_bind].
  change ((slen (lit "redacted span locations") =? 0)
          || (MAX_GATE_EVIDENCE_MESSAGE_BYTES <? slen (lit "redacted span locations"))
          || existsb is_control (lit "redacted span locations")) with false.
  cbv iota; rewrite Hv; reflexivity.
Qed.

Lemma point_valid (s : text) (i : Z) (p : option TextPoint.t) :
  p = point_at s i -> validate_point p = Ok tt.
Proof.
  intros ->; unfold validate_point, point_at; destruct (TextPoint.from_byte_index s i) as [p|] eqn:E; [| done].
  apply from_byte_index_inv in E as (a & b & -> & <- & -> & ->).
  pose proof (line_start_bounds a); unfold newlines; pose proof (vlen_nonneg (List.filter (Z.eqb 10) (as_bytes a))).
  destruct (Z.eqb_spec (1 + vlen (List.filter (Z.eqb 10) (as_bytes a))) 0); [lia |].
  destruct (Z.eqb_spec (1 + (slen a - line_start a)) 0); [lia | reflexivity].
Qed.

Lemma side_point_valid {A} (s : text) (side : option A) (f : A -> Z) :
  validate_point (x ← side; point_at s (f x)) = Ok tt.
Proof. destruct side as [x|]; [| reflexivity]; exact (point_valid s (f x) _ eq_refl). Qed.

(** A located failure with a known kind and a permitted ordinal is valid. *)
Lemma located_ok (f : SpanFailure) :
  is_span_kind (failure_kind f) = true ->
  match ordinal f with Some o => failure_kind f = lit "declared_term" /\ 0 < o | None => True end ->
  validate_point (failure_source f) = Ok tt -> validate_point (failure_candidate f) = Ok tt ->
  located f = true -> failure_ok f.
Proof.
  intros Hk Ho Hs Hc Hl; unfold validate_span_failure; rewrite Hk; cbn [negb].
  assert (Hord : match ordinal f with
                 | Some o => if text_eqb (failure_kind f) (lit "declared_term") && (0 <? o)
                             then Ok tt else Err InvalidSpanFailure
                 | None => Ok tt end = @Ok EvidenceContractError unit tt).
  { destruct (ordinal f) as [o|]; [| done]; destruct Ho as [-> Ho].
    unfold text_eqb; rewrite bool_decide_eq_true_2, (proj2 (Z.ltb_lt 0 o)) by done; done. }
  rewrite Hord; cbn [mbind result_bind]; unfold located in Hl.
  destruct (failure_source f), (failure_candidate f); try (rewrite Hs; exact Hc); done.
Qed.

Lemma one_failure_ok (k : string) (source candidate : text) (ch : SpanChange) (i j : option Z) :
  is_span_kind (lit k) = true ->
  Forall failure_ok (one_failure k source candidate ch i j) /\
  vlen (one_failure k source candidate ch i j) <= MAX_FAILURES.
Proof.
  intros Hk; unfold one_failure; destruct (located _) eqn:E; [| split; [constructor | vm_compute; done]].
  split; [| vm_compute; done]; repeat constructor.
  apply located_ok; cbn [failure_kind ordinal failure_source failure_candidate]; try done;
    apply (side_point_valid _ _ id).
Qed.

Lemma one_failure_some (k : string) (source candidate : text) (ch : SpanChange) (i j : option Z) :
  is_Some (i' ← i; point_at source i') \/ is_Some (j' ← j; point_at candidate j') ->
  one_failure k source candidate ch i j <> [].
Proof.
  intros H; unfold one_failure, located; cbn [failure_source failure_candidate].
  destruct H as [[p ->] | [p ->]]; [rewrite (bool_decide_eq_false_2 (Some p = None)) by done; done |].
  rewrite (bool_decide_eq_false_2 (Some p = None)) by done; rewrite orb_true_r; done.
Qed.

Lemma boundary_point (s : text) (i : Z) :
  slen s < u32_max -> is_char_boundary s i = true -> is_Some (point_at s i).
Proof. intros Hl H; apply is_char_boundary_spec in H as (a & b & -> & <-); by apply from_byte_index_Some. Qed.

(** ** Lemmas: newline events lie on character boundaries *)

Lemma events_skip_high (bs rest : bytes) (i : Z) :
  Forall (fun b => 128 <= b) bs -> events_from i (bs ++ rest) = events_from (i + vlen bs) rest.
Proof.
  intros H; revert i; induction H as [|b bs Hb H IH]; intros i; cbn [app].
  - unfold vlen; cbn; rewrite Z.add_0_r; reflexivity.
  - cbn [events_from]; rewrite !(proj2 (Z.eqb_neq b _)) by lia; rewrite IH; f_equal.
    unfold vlen; cbn [length]; lia.
Qed.

Lemma events_skip (c : Z) (rest : bytes) (i : Z) :
  c <> 13 -> c <> 10 -> events_from i (encode_char c ++ rest) = events_from (i + len_utf8 c) rest.
Proof.
  intros H13 H10; destruct (Z.ltb_spec c 128) as [Hc | Hc].
  - unfold encode_char, len_utf8; rewrite (proj2 (Z.ltb_lt c 128)) by lia; cbn [app events_from].
    rewrite !(proj2 (Z.eqb_neq c _)) by lia; reflexivity.
  - rewrite events_skip_high by (apply encode_char_high; lia); f_equal; f_equal.
    pose proof (as_bytes_length [c]) as H; unfold as_bytes in H; cbn [map concat slen] in H.
    rewrite app_nil_r, Z.add_0_r in H; exact H.
Qed.

Lemma as_bytes_cons (c : Z) (s : text) : as_bytes (c :: s) = encode_char c ++ as_bytes s.
Proof. reflexivity. Qed.

Lemma as_bytes_newline (s : text) (bs : bytes) :
  as_bytes s = 10 :: bs -> exists t, s = 10 :: t /\ bs = as_bytes t.
Proof.
  destruct s as [|c s]; [done |]; rewrite as_bytes_cons; destruct (Z.ltb_spec c 128) as [Hc | Hc].
  - unfold encode_char; rewrite (proj2 (Z.ltb_lt c 128)) by lia; cbn [app]; intros [= -> <-]; eauto.
  - pose proof (encode_char_high c Hc) as Hh; pose proof (encode_char_nonempty c) as Hn.
    destruct (encode_char c) as [|b l]; [cbn in Hn; lia |]; cbn [app]; intros [= -> _].
    inversion Hh; lia.
Qed.

Lemma newline_events_at (s : text) :
  Forall (fun e => is_char_boundary s (event_at e) = true) (newline_events s).
Proof.
  enough (Hgen : forall n rest pre, (length rest <= n)%nat -> s = pre ++ rest ->
    Forall (fun e => is_char_boundary s (event_at e) = true) (events_from (slen pre) (as_bytes rest)))
    by exact (Hgen _ s [] (Nat.le_refl _) eq_refl).
  induction n as [|n IH]; intros rest pre Hn Hs; (destruct rest as [|c rest]; [constructor |]);
    cbn [length] in Hn; [lia |].
  assert (Hhere : is_char_boundary s (slen pre) = true) by (apply is_char_boundary_spec; eauto).
  assert (Hnext : forall d t, rest = d ++ t -> (length t <= n)%nat ->
    Forall (fun e => is_char_boundary s (event_at e) = true)
      (events_from (slen pre + slen (c :: d)) (as_bytes t))).
  { intros d t -> Ht; rewrite <- slen_app; apply IH; [lia |].
    rewrite Hs, <- app_assoc; reflexivity. }
  destruct (Z.eq_dec c 13) as [-> | H13]; [| destruct (Z.eq_dec c 10) as [-> | H10]].
  - rewrite as_bytes_cons; change (encode_char 13) with [13]; cbn [app events_from Z.eqb Pos.eqb].
    destruct (as_bytes rest) as [|b bs] eqn:E; [repeat constructor; exact Hhere |].
    destruct (Z.eqb_spec b 10) as [-> | Hb].
    + apply as_bytes_newline in E as (t & -> & ->); constructor; [exact Hhere |].
      apply (Hnext [10] t eq_refl); cbn [length] in Hn; lia.
    + constructor; [exact Hhere |]; rewrite <- E; apply (Hnext [] rest eq_refl); lia.
  - rewrite as_bytes_cons; change (encode_char 10) with [10]; cbn [app events_from Z.eqb Pos.eqb].
    constructor; [exact Hhere |]; apply (Hnext [] rest eq_refl); lia.
  - rewrite as_bytes_cons, events_skip by done.
    replace (len_utf8 c) with (slen [c]) by (cbn; lia); apply (Hnext [] rest eq_refl); lia.
Qed.

(** The events are those of the newline skeleton the adapter hashes. *)
Lemma newline_events_signature (s : text) : map event_kind (newline_events s) = newline_signature s.
Proof.
  unfold newline_events, newline_signature; generalize 0 as i; generalize (as_bytes s) as bs.
  enough (Hgen : forall n bs i, (length bs <= n)%nat -> map event_kind (events_from i bs) = newline_kinds bs)
    by (intros; apply (Hgen (length bs)); done).
  induction n as [|n IH]; intros [|b bs] i Hn; try done; cbn [length] in Hn; [lia |].
  cbn [events_from newline_kinds]; destruct (b =? 13); [destruct bs as [|c bs]; [done |]; destruct (c =? 10) |
    destruct (b =? 10)]; cbn [map event_kind length] in *; rewrite ?IH by (cbn [length]; lia); reflexivity.
Qed.

Lemma report_first_difference_at (left right : text) (a : Z) :
  report_first_difference left right = Some a ->
  is_char_boundary left a = true /\ is_char_boundary right a = true.
Proof.
  unfold report_first_difference; pose proof (first_difference_loop_spec 0 left right) as H.
  destruct (first_difference_loop 0 left right).
  - destruct H as (p & c & d & l & r & -> & -> & _ & ->); intros [= <-].
    rewrite !is_char_boundary_spec; split; eexists p, _; (split; [done | lia]).
  - destruct H as (p & l & r & -> & -> & Hor & ->); rewrite !slen_app.
    pose proof (slen_nonneg l); pose proof (slen_nonneg r); destruct (_ =? _); intros [= <-].
    rewrite !is_char_boundary_spec; split; eexists p, _; (split; [done | lia]).
Qed.

Lemma report_first_difference_None (left right : text) :
  report_first_difference left right = None <-> left = right.
Proof. exact (first_difference_None left right). Qed.

Lemma event_failures_spec (source candidate : text) (left right : list NewlineEvent) :
  slen source < u32_max -> slen candidate < u32_max ->
  Forall (fun e => is_char_boundary source (event_at e) = true) left ->
  Forall (fun e => is_char_boundary candidate (event_at e) = true) right ->
  (source = candidate -> left = right) ->
  let fs := event_failures source candidate left right in
  (Forall failure_ok fs /\ vlen fs <= MAX_FAILURES) /\ (fs = [] <-> source = candidate).
Proof.
  intros Hs Hc Hl Hr; cbv zeta; revert right Hr; induction Hl as [|l left Hll Hl IH]; intros right Hr Heq;
    destruct right as [|r right].
  - cbn [event_failures]; pose proof (report_first_difference_None source candidate) as Hn.
    destruct (report_first_difference source candidate) as [a|] eqn:E.
    + apply report_first_difference_at in E as [Ha _]; split; [apply one_failure_ok; done |]; split.
      * intros Hf; apply one_failure_some in Hf; [done |]; left; by apply boundary_point.
      * intros Hsc; discriminate (proj2 Hn Hsc).
    + split; [split; [constructor | vm_compute; done] |]; split; [intros _; by apply Hn | done].
  - inversion_clear Hr as [| ? ? Hrr _]; cbn [event_failures]; split; [apply one_failure_ok; done |]; split.
    + intros Hf; apply one_failure_some in Hf; [done |]; right; by apply boundary_point.
    + intros E; discriminate (Heq E).
  - cbn [event_failures]; split; [apply one_failure_ok; done |]; split.
    + intros Hf; apply one_failure_some in Hf; [done |]; left; by apply boundary_point.
    + intros E; discriminate (Heq E).
  - inversion_clear Hr as [| ? ? Hrr Hr']; cbn [event_failures].
    destruct (negb _ || negb _) eqn:E.
    + split; [apply one_failure_ok; done |]; split.
      * intros Hf; apply one_failure_some in Hf; [done |]; left; by apply boundary_point.
      * intros Hsc; specialize (Heq Hsc); injection Heq as -> _; rewrite !Z.eqb_refl in E; done.
    + apply IH; [done |]; intros Hsc; specialize (Heq Hsc); congruence.
Qed.

(** ** Lemmas: pairing protected occurrences *)

Definition side_key (side : Side) : ProtectedKind * text := (side_kind side, side_surface side).

(** A side the report can name: its start is a boundary of the text and a
    declared term is one of the declared terms. *)
Definition side_ok (s : text) (terms : list text) (side : Side) : Prop :=
  is_char_boundary s (side_start side) = true /\
  (side_kind side = DeclaredTerm -> side_surface side ∈ terms).

Lemma position_Some (term : text) (terms : list text) :
  term ∈ terms -> exists i, position term terms = Some i /\ 0 <= i < vlen terms.
Proof.
  induction terms as [|t terms IH]; [rewrite elem_of_nil; done |]; rewrite elem_of_cons; intros Hin.
  cbn [position]; unfold vlen in *; cbn [length]; unfold text_eqb; case_bool_decide as E.
  - exists 0; split; [done | lia].
  - destruct Hin as [-> | Hin]; [done |]; destruct (IH Hin) as (i & -> & ?); cbn.
    exists (i + 1); split; [done | lia].
Qed.

Lemma position_nonneg (term : text) (terms : list text) (i : Z) : position term terms = Some i -> 0 <= i.
Proof.
  revert i; induction terms as [|t terms IH]; intros i; cbn [position]; [done |].
  destruct (text_eqb t term); [intros [= <-]; lia |].
  destruct (position term terms) as [j|]; [| done]; cbn; intros [= <-]; specialize (IH j eq_refl); lia.
Qed.

Lemma push_failure_ok (failures : list SpanFailure) source candidate terms k ss cs ch :
  Forall failure_ok failures -> Forall failure_ok (push_failure failures source candidate terms k ss cs ch).
Proof.
  intros H; unfold push_failure; cbv zeta; set (o := if bool_decide (k = DeclaredTerm) then _ else _).
  destruct (_ && _) eqn:E; [done |]; destruct (located _) eqn:El; [| done].
  apply Forall_app; split; [done |]; repeat constructor.
  apply located_ok; cbn [failure_kind ordinal failure_source failure_candidate]; try done.
  - destruct k; reflexivity.
  - destruct o as [o'|] eqn:Eo; [| done]; subst o; destruct (bool_decide (k = DeclaredTerm)) eqn:Ek; [| done].
    apply bool_decide_eq_true in Ek as ->; split; [done |].
    destruct (match ss with Some s => Some s | None => cs end) as [side|]; [| done].
    cbn [mbind option_bind] in Eo; destruct (position _ terms) as [i|] eqn:Ep; [| done].
    apply position_nonneg in Ep; cbn [mbind option_bind] in Eo; apply try_from_Some in Eo as [-> _].
    unfold saturating_add, usize_max, u64_max; lia.
  - exact (side_point_valid source ss side_start).
  - exact (side_point_valid candidate cs side_start).
Qed.

Lemma push_failure_len (failures : list SpanFailure) source candidate terms k ss cs ch :
  vlen failures <= vlen (push_failure failures source candidate terms k ss cs ch) <= vlen failures + 1.
Proof.
  unfold push_failure; cbv zeta; destruct (_ && _); [lia |]; destruct (located _); [| lia].
  unfold vlen; rewrite length_app; cbn [length]; lia.
Qed.

(** A nameable side is reported. *)
Lemma push_failure_some (failures : list SpanFailure) source candidate terms k ss cs ch :
  slen source < u32_max -> slen candidate < u32_max -> vlen terms < u32_max ->
  match ss with Some s => side_ok source terms s /\ side_kind s = k | None => True end ->
  match cs with Some c => side_ok candidate terms c /\ side_kind c = k | None => True end ->
  (ss <> None \/ cs <> None) ->
  push_failure failures source candidate terms k ss cs ch <> [].
Proof.
  intros Hs Hc Ht Hss Hcs Hor; unfold push_failure; cbv zeta.
  set (o := if bool_decide (k = DeclaredTerm) then _ else _).
  assert (Ho : bool_decide (k = DeclaredTerm) && bool_decide (o = None) = false).
  { subst o; case_bool_decide as Ek; [| done]; subst k; cbn [andb]; apply bool_decide_eq_false.
    assert (Hside : exists side, match ss with Some s => Some s | None => cs end = Some side /\
                                 side_surface side ∈ terms).
    { destruct ss as [s|]; [| destruct cs as [c|]].
      - exists s; destruct Hss as [[_ H] Hk]; auto.
      - exists c; destruct Hcs as [[_ H] Hk]; auto.
      - destruct Hor; done. }
    destruct Hside as (side & -> & Hin); cbn [mbind option_bind].
    destruct (position_Some _ _ Hin) as (i & -> & Hi); cbn [mbind option_bind].
    assert (try_from u32_max (saturating_add usize_max i 1) = Some (saturating_add usize_max i 1)) as ->;
      [| done]; apply try_from_Some; split; [reflexivity |].
    unfold saturating_add, usize_max, u64_max, u32_max in *; lia. }
  rewrite Ho; unfold located; cbn [failure_source failure_candidate].
  assert (Hl : negb (bool_decide ((side ← ss; point_at source (side_start side)) = None))
               || negb (bool_decide ((side ← cs; point_at candidate (side_start side)) = None)) = true).
  { destruct ss as [s|]; [| destruct cs as [c|]; [| destruct Hor; done]].
    - destruct Hss as [[Hb _] _]; destruct (boundary_point _ _ Hs Hb) as [p Hp]; cbn [mbind option_bind].
      rewrite Hp; reflexivity.
    - destruct Hcs as [[Hb _] _]; destruct (boundary_point _ _ Hc Hb) as [p Hp]; cbn [mbind option_bind].
      rewrite Hp; apply orb_true_r. }
  rewrite Hl; destruct failures; done.
Qed.

Section Pairing.
Variables (source candidate : text) (terms : list text).
Hypothesis Hsource : slen source < u32_max.
Hypothesis Hcandidate : slen candidate < u32_max.
Hypothesis Hterms : vlen terms < u32_max.

Definition either {A} (r : A + A) : A := match r with inl a => a | inr a => a end.

(** Whatever was collected stays within the bounds and is valid. *)
Definition collected (fs : list SpanFailure) : Prop := Forall failure_ok fs /\ vlen fs <= MAX_FAILURES.

Lemma collected_nil : collected [].
Proof. split; [constructor | vm_compute; done]. Qed.

Lemma push_collected fs k ss cs ch :
  collected fs -> vlen fs =? MAX_FAILURES = false ->
  collected (push_failure fs source candidate terms k ss cs ch).
Proof.
  intros [Hok Hlen] Hlt; split; [by apply push_failure_ok |].
  pose proof (push_failure_len fs source candidate terms k ss cs ch); apply Z.eqb_neq in Hlt; lia.
Qed.

Lemma push_nonempty fs k ss cs ch :
  fs <> [] -> push_failure fs source candidate terms k ss cs ch <> [].
Proof.
  intros H Hnil; pose proof (push_failure_len fs source candidate terms k ss cs ch) as Hl.
  rewrite Hnil in Hl; destruct fs; [done |]; unfold vlen in Hl; cbn [length] in Hl; lia.
Qed.

Lemma pair_right_collected k fs right :
  collected fs -> collected (either (pair_right source candidate terms k fs right)) /\
  (fs <> [] -> either (pair_right source candidate terms k fs right) <> []).
Proof.
  revert fs; induction right as [|c right IH]; intros fs H; cbn [pair_right]; [done |].
  destruct (vlen fs =? MAX_FAILURES) eqn:E; [done |].
  destruct (IH _ (push_collected fs k None (Some c) Added H E)) as [IH1 IH2].
  split; [done |]; intros Hne; apply IH2, push_nonempty; done.
Qed.

Lemma pair_left_collected k fs left right :
  collected fs -> collected (either (pair_left source candidate terms k fs left right)) /\
  (fs <> [] -> either (pair_left source candidate terms k fs left right) <> []).
Proof.
  revert fs right; induction left as [|s left IH]; intros fs right H; cbn [pair_left];
    [by apply pair_right_collected |].
  destruct (vlen fs =? MAX_FAILURES) eqn:E; [done |]; cbv zeta.
  match goal with |- context [pair_left _ _ _ _ (push_failure ?f _ _ _ _ ?a ?b ?c)] =>
    destruct (IH _ (tail right) (push_collected f k a b c H E)) as [IH1 IH2] end.
  split; [done |]; intros Hne; apply IH2, push_nonempty; done.
Qed.

(** A side of the kind makes the report nonempty. *)
Lemma pair_left_reports k left right :
  Forall (fun s => side_ok source terms s /\ side_kind s = k) left ->
  Forall (fun c => side_ok candidate terms c /\ side_kind c = k) right ->
  match pair_left source candidate terms k [] left right with
  | inl fs => fs <> [] /\ ~ (left = [] /\ right = [])
  | inr fs => fs = [] <-> left = [] /\ right = []
  end.
Proof.
  intros Hl Hr; destruct left as [|s left]; cbn [pair_left].
  - destruct right as [|c right]; cbn [pair_right]; [done |].
    inversion_clear Hr as [| ? ? Hc _]; change (vlen [] =? MAX_FAILURES) with false; cbv iota.
    match goal with |- context [pair_right _ _ _ _ ?fs _] => assert (Hne : fs <> []);
      [apply push_failure_some; [done | done | done | done | done | right; done] |] end.
    destruct (pair_right_collected k _ right
      (push_collected [] k None (Some c) Added collected_nil eq_refl)) as [_ H].
    specialize (H Hne); destruct (pair_right _ _ _ _ _ _); cbn in H; (split; [done | intros [_ ?]; done]).
  - inversion_clear Hl as [| ? ? Hs _]; change (vlen [] =? MAX_FAILURES) with false; cbv iota zeta.
    match goal with |- context [pair_left _ _ _ _ ?fs _ _] => assert (Hne : fs <> []);
      [apply push_failure_some; [done | done | done | done | destruct Hr; cbn [head]; done | left; done] |] end.
    match goal with |- context [push_failure ?f _ _ _ _ ?a ?b ?c] =>
      destruct (pair_left_collected k _ left (tail right)
        (push_collected [] k a b c collected_nil eq_refl)) as [_ H] end.
    specialize (H Hne); destruct (pair_left _ _ _ _ _ _ _); cbn in H; (split; [done | intros [? _]; done]).
Qed.

Definition kind_free (kinds : list ProtectedKind) (l : list Side) : Prop :=
  forall side, side ∈ l -> side_kind side ∉ kinds.

Lemma filter_kind_nil k (l : list Side) : List.filter (of_kind k) l = [] <-> kind_free [k] l.
Proof.
  unfold kind_free; induction l as [|s l IH]; cbn [List.filter].
  { split; [intros _ ? H; inversion H | done]. }
  unfold of_kind at 1; case_bool_decide as E.
  - split; [done |]; intros H; destruct (H s); [left |]; rewrite E; left.
  - rewrite IH; split; intros H side; [| intros Hin; apply H; right; done].
    rewrite elem_of_cons; intros [-> | Hin]; [| auto]; rewrite list_elem_of_singleton; done.
Qed.

Lemma pair_kinds_collected left right fs kinds :
  collected fs -> collected (pair_kinds source candidate terms left right fs kinds) /\
  (fs <> [] -> pair_kinds source candidate terms left right fs kinds <> []).
Proof.
  revert fs; induction kinds as [|k kinds IH]; intros fs H; cbn [pair_kinds]; [done |].
  destruct (pair_left_collected k fs (List.filter (of_kind k) left) (List.filter (of_kind k) right) H) as [H1 H2].
  destruct (pair_left _ _ _ _ _ _ _) as [fs' | fs']; cbn [either] in *; [done |].
  destruct (IH _ H1) as [IH1 IH2]; split; [done |]; auto.
Qed.

Lemma filter_kind_ok s k (l : list Side) :
  Forall (side_ok s terms) l ->
  Forall (fun side => side_ok s terms side /\ side_kind side = k) (List.filter (of_kind k) l).
Proof.
  induction 1 as [|side l Hs _ IH]; cbn [List.filter]; [constructor |].
  unfold of_kind at 1; case_bool_decide; [constructor; done | done].
Qed.

Lemma pair_kinds_reports left right kinds :
  Forall (side_ok source terms) left -> Forall (side_ok candidate terms) right ->
  pair_kinds source candidate terms left right [] kinds = [] <->
  kind_free kinds left /\ kind_free kinds right.
Proof.
  intros Hl Hr; induction kinds as [|k kinds IH]; cbn [pair_kinds].
  { split; [intros _; split; intros ? _ H; inversion H | done]. }
  pose proof (pair_left_reports k _ _ (filter_kind_ok source k left Hl) (filter_kind_ok candidate k right Hr)) as H.
  destruct (pair_left_collected k [] (List.filter (of_kind k) left) (List.filter (of_kind k) right)
    collected_nil) as [Hcol _].
  destruct (pair_left _ _ _ _ _ _ _) as [fs | fs]; cbn [either] in Hcol; rewrite !filter_kind_nil in H;
    unfold kind_free in *; setoid_rewrite list_elem_of_singleton in H; setoid_rewrite elem_of_cons.
  - destruct H as [Hne H]; split; [done |]; intros [HL HR]; exfalso; apply H.
    split; intros side Hin Hk; [apply (HL side) | apply (HR side)]; auto.
  - destruct fs as [|f fs].
    + rewrite IH; destruct H as [H _]; specialize (H eq_refl); destruct H as [H1 H2].
      split; [intros [H3 H4]; split; intros side Hin [Heq | Hk]; [apply (H1 side) | apply (H3 side) | apply (H2 side) | apply (H4 side)]; done |].
      intros [H3 H4]; split; intros side Hin Hk; [apply (H3 side) | apply (H4 side)]; auto.
    + destruct (pair_kinds_collected left right (f :: fs) kinds Hcol) as [_ Hne].
      split; [intros Hnil; destruct Hne; done |]; intros [HL HR]; exfalso.
      assert (f :: fs = []) by (apply H; split; intros side Hin Hk; [apply (HL side) | apply (HR side)]; auto).
      done.
Qed.
End Pairing.

(** ** Lemmas: matching equal occurrences *)

Definition unmatched (cs : list Side) (matched : list bool) : list Side :=
  map fst (List.filter (fun p => negb (snd p)) (zip cs matched)).

Lemma unmatched_elem (cs : list Side) (matched : list bool) (side : Side) :
  length matched = length cs ->
  side ∈ unmatched cs matched <-> exists i, cs !! i = Some side /\ matched !! i = Some false.
Proof.
  revert matched; induction cs as [|c cs IH]; intros [|b matched] Hlen; try done.
  { cbn; split; [intros H; inversion H | intros (i & Hi & _); destruct i; done]. }
  cbn in Hlen; injection Hlen as Hlen; unfold unmatched; cbn [zip zip_with List.filter snd].
  fold (unmatched cs matched); assert (Htail : side ∈ unmatched cs matched <->
    exists i, (c :: cs) !! S i = Some side /\ (b :: matched) !! S i = Some false) by exact (IH matched Hlen).
  destruct b; cbn [negb map fst].
  - change (map fst _) with (unmatched cs matched); rewrite Htail; split; [intros (i & ?); eauto |].
    intros ([|i] & Hi & Hb); [done | eauto].
  - change (map fst _) with (unmatched cs matched); rewrite elem_of_cons, Htail; split.
    + intros [-> | (i & ?)]; [exists 0%nat; done | eauto].
    + intros ([|i] & Hi & Hb); [injection Hi as ->; auto | eauto].
Qed.

Lemma unmatched_insert (cs : list Side) (matched : list bool) (i : nat) (c : Side) k :
  cs !! i = Some c -> matched !! i = Some false ->
  occ k (map side_key (unmatched cs matched))
  = (if decide (side_key c = k) then 1 else 0) + occ k (map side_key (unmatched cs (<[i := true]> matched))).
Proof.
  revert matched i; induction cs as [|x cs IH]; intros [|b matched] [|i] Hc Hm; try done.
  - injection Hc as ->; injection Hm as ->; reflexivity.
  - change (<[S i := true]> (b :: matched)) with (b :: <[i := true]> matched).
    specialize (IH matched i Hc Hm); unfold unmatched in *; cbn [zip zip_with List.filter snd].
    destruct b; cbn [negb map fst occ]; [exact IH |]; rewrite IH; lia.
Qed.

Lemma unmatched_all (cs : list Side) : unmatched cs (replicate (length cs) false) = cs.
Proof.
  induction cs as [|c cs IH]; [reflexivity |]; unfold unmatched in *; cbn [length replicate zip zip_with List.filter snd negb map fst].
  f_equal; exact IH.
Qed.

Record queues_ok (cs : list Side) (queues : gmap (ProtectedKind * text) (list nat)) (matched : list bool)
  : Prop := {
  queues_len : length matched = length cs;
  queues_nodup : forall key, NoDup (default [] (queues !! key));
  queues_elem : forall key i, i ∈ default [] (queues !! key) <->
    exists c, cs !! i = Some c /\ side_key c = key /\ matched !! i = Some false
}.

Lemma queues_pop (cs : list Side) queues matched key index queue :
  queues_ok cs queues matched -> queues !! key = Some (index :: queue) ->
  matched !! index = Some false /\ queues_ok cs (<[key := queue]> queues) (<[index := true]> matched)
  /\ exists c, cs !! index = Some c /\ side_key c = key.
Proof.
  intros [Hlen Hnd Hel] Hq.
  assert (Hin : index ∈ default [] (queues !! key)) by (rewrite Hq; left).
  destruct (proj1 (Hel key index) Hin) as (c & Hc & Hk & Hm); split_and!; [done | | eauto].
  pose proof (Hnd key) as Hnd'; rewrite Hq in Hnd'; cbn in Hnd'; apply NoDup_cons in Hnd' as [Hni Hnd'].
  split; [rewrite length_insert; done | |].
  - intros key'; rewrite lookup_insert; case_decide; [done | apply Hnd].
  - intros key' i; rewrite lookup_insert; case_decide as Hkk; cbn [default from_option id].
    + subst key'; specialize (Hel key i); rewrite Hq in Hel; cbn [default from_option id] in Hel.
      rewrite elem_of_cons in Hel; split.
      * intros Hi; destruct (proj1 Hel (or_intror Hi)) as (c' & ? & ? & ?); exists c'; split_and!; try done.
        rewrite list_lookup_insert_ne by (intros ->; done); done.
      * intros (c' & ? & ? & Hi); destruct (decide (i = index)) as [-> | Hne].
        { rewrite list_lookup_insert_eq in Hi by (apply lookup_lt_Some in Hm; done); done. }
        rewrite list_lookup_insert_ne in Hi by done.
        destruct (proj2 Hel) as [? | ?]; [eauto | done | done].
    + rewrite Hel; split; intros (c' & Hc' & Hk' & Hi); exists c'; split_and!; try done.
      * rewrite list_lookup_insert_ne; [done |]; intros ->; rewrite Hc in Hc'; congruence.
      * destruct (decide (i = index)) as [-> | Hne]; [rewrite Hc in Hc'; congruence |].
        rewrite list_lookup_insert_ne in Hi by done; done.
Qed.

Lemma match_sides_spec {E} (cs : list Side) queues matched us rest :
  queues_ok cs queues matched ->
  (forall s, s ∈ us -> default [] (queues !! side_key s) = []) ->
  exists matched' us', @match_sides E queues matched us rest = Ok (matched', us') /\
    length matched' = length cs /\ (forall s, s ∈ us' -> s ∈ us \/ s ∈ rest) /\
    (forall s c, s ∈ us' -> c ∈ unmatched cs matched' -> side_key s <> side_key c) /\
    (forall k, occ k (map side_key rest) + occ k (map side_key us) + occ k (map side_key (unmatched cs matched'))
               = occ k (map side_key us') + occ k (map side_key (unmatched cs matched))).
Proof.
  revert queues matched us; induction rest as [|s rest IH]; intros queues matched us Hq Hus; cbn [match_sides].
  - exists matched, us; split_and!; [done | apply Hq | auto | | intros k; cbn; lia].
    intros s c Hs Hc Heq; apply unmatched_elem in Hc as (i & Hi & Hm); [| apply Hq].
    assert (Hin : i ∈ default [] (queues !! side_key s)) by (apply (queues_elem _ _ _ Hq); eauto).
    rewrite (Hus s Hs) in Hin; inversion Hin.
  - fold (side_key s); destruct (queues !! side_key s) as [[|index queue]|] eqn:Eq.
    2:{ destruct (queues_pop _ _ _ _ _ _ Hq Eq) as (Hm & Hq' & c & Hc & Hk).
        rewrite Hm; cbn [expect mbind result_bind].
        destruct (IH _ _ us Hq') as (m' & us' & -> & Hlen & Hsub & Hdis & Hocc).
        { intros s' Hs'; rewrite lookup_insert; case_decide as Hkk; [| auto].
          specialize (Hus s' Hs'); rewrite <- Hkk, Eq in Hus; done. }
        exists m', us'; split_and!; try done.
        - intros s' Hs'; destruct (Hsub s' Hs'); [auto | right; right; done].
        - intros k; specialize (Hocc k); pose proof (unmatched_insert cs matched index c k Hc Hm) as Hi.
          cbn [map occ]; rewrite Hk in Hi; lia. }
    all: destruct (IH _ _ (us ++ [s]) Hq) as (m' & us' & -> & Hlen & Hsub & Hdis & Hocc);
      [intros s' Hs'; apply elem_of_app in Hs' as [Hs' | Hs'];
         [auto | apply list_elem_of_singleton in Hs' as ->; rewrite Eq; reflexivity] |];
      exists m', us'; split_and!; try done;
      [intros s' Hs'; destruct (Hsub s' Hs') as [Ha | Ha];
         [apply elem_of_app in Ha as [Ha | Ha]; [auto | apply list_elem_of_singleton in Ha as ->; right; left] |
          right; right; done] |
       intros k; specialize (Hocc k); rewrite map_app, occ_app in Hocc; cbn [map occ] in *; lia].
Qed.

Lemma build_queues_lookup (cs : list Side) queues (n : nat) key :
  NoDup (default [] (queues !! key)) ->
  (forall i, i ∈ default [] (queues !! key) -> (i < n)%nat) ->
  let q := default [] (build_queues queues n cs !! key) in
  NoDup q /\ forall i, i ∈ q <-> i ∈ default [] (queues !! key) \/
    exists j c, i = (n + j)%nat /\ cs !! j = Some c /\ side_key c = key.
Proof.
  revert queues n; induction cs as [|c cs IH]; intros queues n Hnd Hlt; cbv zeta; cbn [build_queues].
  { split; [done |]; intros i; split; [auto |]; intros [? | (j & c & _ & Hj & _)]; [done | destruct j; done]. }
  fold (side_key c).
  assert (Hget : default [] (<[side_key c := default [] (queues !! side_key c) ++ [n]]> queues !! key)
                 = default [] (queues !! key) ++ (if decide (side_key c = key) then [n] else [])).
  { rewrite lookup_insert; case_decide as Hk; cbn [default from_option id]; [subst; done | rewrite app_nil_r; done]. }
  destruct (IH (<[side_key c := default [] (queues !! side_key c) ++ [n]]> queues) (S n)) as [IHn IHe].
  - rewrite Hget; apply NoDup_app; split_and!; [done | | case_decide; repeat constructor; set_solver].
    intros i Hi Hn; specialize (Hlt i Hi); case_decide; [apply list_elem_of_singleton in Hn; lia | inversion Hn].
  - intros i; rewrite Hget, elem_of_app; intros [Hi | Hi]; [specialize (Hlt i Hi); lia |].
    case_decide; [apply list_elem_of_singleton in Hi; lia | inversion Hi].
  - split; [exact IHn |]; intros i; rewrite IHe, Hget, elem_of_app; split.
    + intros [[Hi | Hi] | (j & c' & -> & Hj & Hk)]; [auto | | right; exists (S j), c'; split_and!; [lia | done | done]].
      case_decide; [apply list_elem_of_singleton in Hi as ->; right; exists 0%nat, c; split_and!; [lia | done | done] | inversion Hi].
    + intros [Hi | ([|j] & c' & -> & Hj & Hk)]; [auto | |].
      * injection Hj as ->; left; right; rewrite decide_True by done; apply list_elem_of_singleton; lia.
      * right; exists j, c'; split_and!; [lia | done | done].
Qed.

Lemma build_queues_ok (cs : list Side) : queues_ok cs (build_queues ∅ 0 cs) (replicate (length cs) false).
Proof.
  split; [apply length_replicate | |].
  - intros key; destruct (build_queues_lookup cs ∅ 0 key) as [H _]; rewrite ?lookup_empty; try done.
    + constructor.
    + intros i Hi; inversion Hi.
  - intros key i; destruct (build_queues_lookup cs ∅ 0 key) as [_ H]; rewrite ?lookup_empty; try done.
    + constructor.
    + intros j Hj; inversion Hj.
    + rewrite H, lookup_empty; cbn [default from_option]; split.
      * intros [Hi | (j & c & -> & Hj & Hk)]; [inversion Hi |]; exists c; split_and!; try done.
        apply lookup_replicate; split; [done |]; apply lookup_lt_Some in Hj; done.
      * intros (c & Hc & Hk & _); right; exists i, c; done.
Qed.

(** ** Lemmas: the spans of declared terms are declared terms *)

Section Declared.
Context {UT : UnicodeTables} {RE : RegexEngine}.
Variables (s : text) (terms : list text).

Definition declared (sp : MatchSpan) : Prop :=
  kind sp = DeclaredTerm -> exists m, slice s (start sp) (end_ sp) = Some m /\ m ∈ terms.

Definition keeps (m : Result ProtectionError (list MatchSpan)) : Prop :=
  forall r, m = Ok r -> Forall declared r.

Lemma keeps_add spans sp : Forall declared spans -> declared sp -> keeps (add_match_span spans sp).
Proof.
  intros Hs Hsp r; unfold add_match_span; destruct (_ =? _); [done |]; intros [= <-].
  apply Forall_app; split; [done | repeat constructor; done].
Qed.

Lemma keeps_bind {A} (m : Result ProtectionError A) (f : A -> Result ProtectionError (list MatchSpan)) :
  (forall a, m = Ok a -> keeps (f a)) -> keeps (m ≫= f).
Proof. intros H r Hr; apply bind_ok in Hr as (a & Ha & Hr); exact (H a Ha r Hr). Qed.

Lemma keeps_fold {A} (f : list MatchSpan -> A -> Result ProtectionError (list MatchSpan)) l spans :
  (forall spans x, x ∈ l -> Forall declared spans -> keeps (f spans x)) ->
  Forall declared spans -> keeps (try_fold f spans l).
Proof.
  intros Hf; revert spans; induction l as [|x l IH]; intros spans Hs; cbn [try_fold].
  { intros r [= <-]; done. }
  apply keeps_bind; intros spans' Hs'; apply IH; [intros ? ? ?; apply Hf; right; done |].
  apply (Hf spans x); [left | done | done].
Qed.

Lemma keeps_numbers fuel spans previous index rest :
  Forall declared spans -> keeps (add_numbers fuel spans previous index rest).
Proof.
  revert spans previous index rest; induction fuel as [|f IH]; intros spans previous index rest Hs;
    (destruct rest as [|c tail]; cbn [add_numbers]; try (intros r [= <-]; done)).
  destruct (number_span_len previous (c :: tail)); [| by apply IH].
  apply keeps_bind; intros spans' Hs'; apply keeps_bind; intros [m r'] _; apply IH.
  eapply keeps_add; [exact Hs | | exact Hs']; done.
Qed.

Lemma keeps_comparisons fuel spans index rest :
  Forall declared spans -> keeps (add_comparisons fuel spans index rest).
Proof.
  revert spans index rest; induction fuel as [|f IH]; intros spans index rest Hs;
    (destruct rest as [|c tail]; cbn [add_comparisons]; try (intros r [= <-]; done)).
  destruct (List.find _ _) as [op|]; [| by apply IH].
  apply keeps_bind; intros spans' Hs'; apply keeps_bind; intros r' _; apply IH.
  eapply keeps_add; [exact Hs | | exact Hs']; done.
Qed.

Lemma keeps_typed spans : Forall declared spans -> keeps (add_typed_spans spans s).
Proof.
  intros Hs; unfold add_typed_spans; apply keeps_bind; intros s1 H1; apply keeps_bind; intros s2 H2;
    apply keeps_bind; intros s3 H3.
  assert (Hs1 : Forall declared s1).
  { revert H1; apply keeps_fold; [| done]; intros spans' [i j] _ Hs'; unfold add_url_match.
    apply keeps_bind; intros span _; destruct (_ <=? i); [intros r [= <-]; done |].
    destruct (re_find _ _) as [[a b]|]; [| intros r [= <-]; done].
    destruct (_ && _); [by apply keeps_add | intros r [= <-]; done]. }
  assert (Hs2 : Forall declared s2).
  { revert H2; apply keeps_fold; [| done]; intros spans' [i j] _ Hs'; apply keeps_add; done. }
  apply keeps_comparisons; revert H3; apply keeps_numbers; done.
Qed.

Lemma collect_declared spans : collect_source_spans s terms = Ok spans -> Forall declared spans.
Proof.
  revert spans; change (keeps (collect_source_spans s terms)); unfold collect_source_spans.
  apply keeps_bind; intros spans Hs; apply keeps_typed; revert Hs; apply keeps_fold; [| constructor].
  intros spans' term Ht Hs; apply list_elem_of_In, List.filter_In in Ht as [Ht _].
  apply keeps_fold; [| done]; intros spans'' i Hi Hs'; apply keeps_add; [done |]; intros _.
  apply match_indices_from_spec in Hi as (a & b & -> & Hi); exists term.
  split; [| by apply list_elem_of_In]; apply slice_spec; cbn; exists a, b; split_and!; done || lia.
Qed.

(** The sides of selected occurrences: their literals, and nameable. *)
Lemma occurrences_sides spans :
  protected_occurrences s terms = Ok spans ->
  map side_key (sides s spans) = typed_literals s spans /\ Forall (side_ok s terms) (sides s spans).
Proof.
  unfold protected_occurrences; intros H; apply bind_ok in H as (all & Hall & Hsel).
  pose proof (safe_ok _ _ _ (collect_source_spans_safe s terms) Hall) as Hin.
  pose proof (collect_declared _ Hall) as Hdec.
  assert (Hprop : Forall proper all).
  { eapply Forall_impl; [exact Hin |]; intros sp Hsp; apply span_in_bounds in Hsp; unfold proper; lia. }
  pose proof (safe_ok _ _ _ (select_non_overlapping_spec all Hprop) Hsel) as (_ & _ & Hsub & _).
  assert (Hboth : Forall (fun sp => span_in s sp /\ declared sp) spans).
  { rewrite Forall_forall in *; intros sp Hsp; auto. }
  clear - Hboth; induction Hboth as [|sp spans [Hsp Hd] _ [IH1 IH2]]; [split; [done | constructor] |].
  cbn [sides typed_literals omap list_omap map]; destruct (span_in_slice _ _ Hsp) as (m & Hm & _).
  rewrite Hm; cbn [mbind option_bind default from_option id map]; split.
  - f_equal; exact IH1.
  - constructor; [| exact IH2]; split; cbn [side_start side_kind side_surface].
    + destruct Hsp as (a & x & b & -> & -> & _); apply is_char_boundary_spec; eauto.
    + intros Hk; destruct (Hd Hk) as (m' & Hm' & ?); congruence.
Qed.
End Declared.

(** ** Theorems *)

(** A report: nothing, or between one and thirty-two failures that validate. *)
Definition valid_report (report : option GateEvidenceDetails) : Prop :=
  match report with
  | None => True
  | Some d => validate_gate_details (Some d) = Ok tt /\
      exists fs, d = SpanFailures fs /\ 1 <= vlen fs <= MAX_SPAN_FAILURES
  end.

Lemma details_valid (fs : list SpanFailure) :
  collected fs -> valid_report (details fs) /\ (details fs = None <-> fs = []).
Proof.
  intros [Hok Hlen]; destruct (decide (fs = [])) as [-> | Hne]; [done |].
  destruct (details_Some fs Hne Hlen Hok) as [-> Hv]; split; [| done]; split; [done |].
  exists fs; split; [done |]; split; [| exact Hlen]; unfold vlen; destruct fs; [done |]; cbn [length]; lia.
Qed.

Lemma kind_free_all (l : list Side) : kind_free [DeclaredTerm; Url; Email; Number] l <-> l = [].
Proof.
  split; [| intros -> ? H; inversion H]; intros H; destruct l as [|s l]; [done |].
  destruct (H s); [left |]; destruct (side_kind s); set_solver.
Qed.

Section OtherReports.
Context {UT : UnicodeTables}.

Lemma unsafe_report (source candidate : text) :
  slen source < u32_max -> slen candidate < u32_max ->
  valid_report (unsafe_details source candidate) /\
  (unsafe_details source candidate = None <-> replacement_preserves_text_safety source candidate = true).
Proof.
  intros Hs Hc; unfold unsafe_details, unsafe_failures, replacement_preserves_text_safety.
  destruct (first_text_safety_fault source candidate) as [fault|] eqn:E; [| done].
  apply fault_located in E; split.
  - destruct fault; apply details_valid, one_failure_ok; done.
  - destruct fault as [a | a | a];
      (match goal with |- details ?l = None <-> _ => assert (Hd : details l = None <-> l = []) end;
       [apply details_valid, one_failure_ok; done |];
       rewrite Hd; split; [| done]; intros Hf; apply one_failure_some in Hf; [done |]).
    all: try (destruct E as (p & c & t & -> & <- & _); right; apply boundary_point; [done |];
              apply is_char_boundary_spec; eauto).
    destruct E as [E _]; left; by apply boundary_point.
Qed.

Lemma token_report (source candidate : text) :
  slen source < u32_max -> slen candidate < u32_max ->
  valid_report (literal_token_details source candidate) /\
  (literal_token_details source candidate = None <-> lexical_tokens source = lexical_tokens candidate).
Proof.
  intros Hs Hc; unfold literal_token_details, lexical_tokens, first_literal_token_change.
  rewrite <- first_token_change_None.
  destruct (first_token_change _ _) as [ch|] eqn:E; [| done]; cbn [mbind option_bind].
  apply (first_token_change_at source candidate) in E; [| apply lexical_token_spans_at ..].
  set (f := match ch with TokenAltered _ _ => _ | _ => _ end).
  assert (Hl : located f = true /\ failure_ok f).
  { assert (Hloc : located f = true).
    { unfold located; subst f; destruct ch as [i j | i | j]; cbn [failure_source failure_candidate mbind option_bind].
      - destruct E as [Hi _]; destruct (boundary_point source i Hs Hi) as [p ->]; reflexivity.
      - destruct (boundary_point source i Hs E) as [p ->]; reflexivity.
      - destruct (boundary_point candidate j Hc E) as [p ->]; reflexivity. }
    split; [done |]; apply located_ok; try done; subst f; destruct ch;
      cbn [failure_kind ordinal failure_source failure_candidate]; try done;
      first [exact (side_point_valid source (Some _) id) | exact (side_point_valid candidate (Some _) id)]. }
  destruct Hl as [Hloc Hok].
  assert (bool_decide (failure_source f = None) && bool_decide (failure_candidate f = None) = false) as ->.
  { unfold located in Hloc; destruct (bool_decide _), (bool_decide _); done. }
  destruct (details_valid [f]) as [Hv Hd]; [split; [by repeat constructor | vm_compute; done] |].
  rewrite Hd; done.
Qed.
End OtherReports.

Section ReportTheorems.
Context {UT : UnicodeTables} {RE : RegexEngine}.

(** The protection report is exact: for texts whose literals can be
    extracted it never panics, it is absent exactly when source and
    candidate have the same declared terms, URLs, email addresses and
    numbers, each as often, and a report holds one to thirty-two locations
    that meet the evidence contract. *)
Theorem protection_report_exact {E : Type} (source candidate : text) (terms : list text)
    (ss cs : list MatchSpan) :
  slen source < u32_max -> slen candidate < u32_max -> vlen terms < u32_max ->
  protected_occurrences source terms = Ok ss -> protected_occurrences candidate terms = Ok cs ->
  exists report, @protection_details _ _ E source candidate terms = Ok report /\ valid_report report /\
    (report = None <-> typed_literals source ss ≡ₚ typed_literals candidate cs).
Proof.
  intros Hs Hc Ht Hss Hcs; unfold protection_details; rewrite Hss, Hcs; cbn [ok_opt].
  destruct (occurrences_sides _ _ _ Hss) as [<- Hsok]; destruct (occurrences_sides _ _ _ Hcs) as [<- Hcok].
  unfold diff_occurrences; cbv zeta; set (l := sides source ss) in *; set (r := sides candidate cs) in *.
  destruct (@match_sides_spec E r _ _ [] l (build_queues_ok r)) as (m & us & -> & Hlen & Hsub & Hdis & Hocc);
    [intros s H; inversion H |].
  cbn [mbind result_bind]; fold (unmatched r m); unfold pair_unmatched.
  assert (Hus : Forall (side_ok source terms) us).
  { rewrite Forall_forall in *; intros s Hin; destruct (Hsub s Hin) as [H | H]; [inversion H | auto]. }
  assert (Hur : Forall (side_ok candidate terms) (unmatched r m)).
  { rewrite Forall_forall in *; intros s Hin; apply unmatched_elem in Hin as (i & Hi & _); [| done].
    apply Hcok, list_elem_of_lookup; eauto. }
  destruct (pair_kinds_collected source candidate terms us (unmatched r m) [] [DeclaredTerm; Url; Email; Number]
    collected_nil) as [Hcol _].
  pose proof (pair_kinds_reports source candidate terms Hs Hc Ht us (unmatched r m)
    [DeclaredTerm; Url; Email; Number] Hus Hur) as Hnil.
  rewrite !kind_free_all in Hnil; destruct (details_valid _ Hcol) as [Hv Hd].
  eexists; split; [reflexivity |]; split; [exact Hv |]; rewrite Hd, Hnil.
  setoid_rewrite unmatched_all in Hocc; cbn [map occ] in Hocc; split.
  - intros [Hu Hm]; apply occ_perm; intros k; specialize (Hocc k); rewrite Hu, Hm in Hocc; cbn [map occ] in Hocc; lia.
  - intros Hp; assert (Heq : forall k, occ k (map side_key us) = occ k (map side_key (unmatched r m))).
    { intros k; specialize (Hocc k); assert (occ k (map side_key l) = occ k (map side_key r)); [| lia].
      apply perm_occ; exact Hp. }
    split.
    + destruct us as [|s us]; [done |]; exfalso.
      assert (Hin : side_key s ∈ map side_key (unmatched r m)).
      { apply occ_pos; rewrite <- Heq; apply occ_pos; left. }
      apply list_elem_of_In, in_map_iff in Hin as (c & Hk & Hin); apply list_elem_of_In in Hin.
      apply (Hdis s c); [left | done | done].
    + destruct (unmatched r m) as [|c um]; [done |]; exfalso.
      assert (Hin : side_key c ∈ map side_key us).
      { apply occ_pos; rewrite Heq; apply occ_pos; left. }
      apply list_elem_of_In, in_map_iff in Hin as (s & Hk & Hin); apply list_elem_of_In in Hin.
      apply (Hdis s c); [done | left | done].
Qed.

(** The other reports are exact too: the structure report is absent
    exactly when the texts are equal, the unsafe-text report exactly when
    the candidate is a safe replacement, and the token report exactly when
    the token sequences agree.  Every location lies on a character boundary
    and every report meets the evidence contract. *)
Theorem change_reports_exact (source candidate : text) :
  slen source < u32_max -> slen candidate < u32_max ->
  (valid_report (structure_details source candidate) /\
   (structure_details source candidate = None <-> source = candidate)) /\
  (valid_report (unsafe_details source candidate) /\
   (unsafe_details source candidate = None <->
    replacement_preserves_text_safety source candidate = true)) /\
  (valid_report (literal_token_details source candidate) /\
   (literal_token_details source candidate = None <->
    lexical_tokens source = lexical_tokens candidate)).
Proof.
  intros Hs Hc; split; [| split; [by apply unsafe_report | by apply token_report]].
  unfold structure_details, structure_failures.
  destruct (event_failures_spec source candidate _ _ Hs Hc (newline_events_at source)
    (newline_events_at candidate)) as [Hcol Hnil]; [by intros -> |].
  destruct (details_valid _ Hcol) as [Hv Hd]; rewrite Hd, Hnil; done.
Qed.
End ReportTheorems.
