(* ===== verification/Cancellation.v ===== *)
(** * The cancellation token ([types/src/cancellation.rs]).

    Threads share one atomic flag and a list of wakers behind a mutex.  The
    steps are those of [cancel] and of [Cancelled::poll]; each step is one
    atomic access, so all interleavings are covered.  The swap and the loads
    act on one atomic location and the list is touched under the mutex only,
    so the release and acquire orderings of the source give this
    interleaving semantics. *)

From S2P Require Import Prelude.

Abbreviation Waker := Z.
Abbreviation Tid := Z.

(** Where a thread stands. *)
Inductive Thread :=
| CancelStart                  (** about to swap the flag *)
| CancelLock                   (** set the flag first, about to lock *)
| CancelDrain                  (** holds the lock, about to drain and wake *)
| CancelDone
| PollStart (w : Waker)        (** about to load the flag *)
| PollLock (w : Waker)         (** saw no cancellation, about to lock *)
| PollRecheck (w : Waker)      (** holds the lock, about to load again *)
| PollPush (w : Waker)         (** holds the lock, saw no cancellation again *)
| PollPending (w : Waker)      (** returned [Pending] *)
| PollReady (w : Waker).       (** returned [Ready] *)
#[global] Instance thread_eq_dec : EqDecision Thread.
Proof. solve_decision. Defined.

Record State := {
  cancelled : bool;
  waiters : list Waker;
  locked : option Tid;         (** the holder of the mutex *)
  poisoned : bool;             (** a holder panicked *)
  woken : list Waker;          (** every waker woken so far *)
  threads : gmap Tid Thread
}.

Definition set_thread (s : State) (t : Tid) (th : Thread) : State := {|
  cancelled := cancelled s; waiters := waiters s; locked := locked s; poisoned := poisoned s;
  woken := woken s; threads := <[t := th]> (threads s) |}.
Definition set_lock (s : State) (l : option Tid) : State := {|
  cancelled := cancelled s; waiters := waiters s; locked := l; poisoned := poisoned s;
  woken := woken s; threads := threads s |}.

(** [self.state.cancelled.swap(true)]: the next step of the canceller
    depends on the flag it replaced. *)
Definition swap_flag (s : State) (t : Tid) : State := {|
  cancelled := true; waiters := waiters s; locked := locked s; poisoned := poisoned s; woken := woken s;
  threads := <[t := if cancelled s then CancelDone else CancelLock]> (threads s) |}.

(** [waiters.drain(..)] with a wake for each, then the guard is dropped. *)
Definition drain_waiters (s : State) (t : Tid) : State := {|
  cancelled := cancelled s; waiters := []; locked := None; poisoned := poisoned s;
  woken := woken s ++ waiters s; threads := <[t := CancelDone]> (threads s) |}.

(** A wake panics after [n] wakers: dropping the drain empties the list and
    the guard poisons the mutex. *)
Definition drain_panics (s : State) (t : Tid) (n : nat) : State := {|
  cancelled := cancelled s; waiters := []; locked := None; poisoned := true;
  woken := woken s ++ take n (waiters s); threads := <[t := CancelDone]> (threads s) |}.

(** The push of [poll], unless a registered waker would wake the same task. *)
Definition push_waker (s : State) (t : Tid) (w : Waker) : State := {|
  cancelled := cancelled s;
  waiters := if existsb (Z.eqb w) (waiters s) then waiters s else waiters s ++ [w];
  locked := None; poisoned := poisoned s; woken := woken s;
  threads := <[t := PollPending w]> (threads s) |}.

Inductive step : State -> State -> Prop :=
| StepSwap s t :
    threads s !! t = Some CancelStart -> step s (swap_flag s t)
| StepCancelLock s t :
    threads s !! t = Some CancelLock -> locked s = None -> poisoned s = false ->
    step s (set_lock (set_thread s t CancelDrain) (Some t))
| StepCancelPoisoned s t :
    threads s !! t = Some CancelLock -> locked s = None -> poisoned s = true ->
    step s (set_thread s t CancelDone)
| StepDrain s t :
    threads s !! t = Some CancelDrain -> step s (drain_waiters s t)
| StepDrainPanics s t n :
    threads s !! t = Some CancelDrain -> (n < length (waiters s))%nat -> step s (drain_panics s t n)
| StepPollCheck s t w :
    threads s !! t = Some (PollStart w) ->
    step s (set_thread s t (if cancelled s then PollReady w else PollLock w))
| StepPollLock s t w :
    threads s !! t = Some (PollLock w) -> locked s = None -> poisoned s = false ->
    step s (set_lock (set_thread s t (PollRecheck w)) (Some t))
| StepPollPoisoned s t w :
    threads s !! t = Some (PollLock w) -> locked s = None -> poisoned s = true ->
    step s (set_thread s t (PollReady w))
| StepPollRecheck s t w :
    threads s !! t = Some (PollRecheck w) ->
    step s (if cancelled s then set_lock (set_thread s t (PollReady w)) None
            else set_thread s t (PollPush w))
| StepPollPush s t w :
    threads s !! t = Some (PollPush w) -> step s (push_waker s t w)
| StepPollAgain s t w w' :
    threads s !! t = Some (PollPending w) -> step s (set_thread s t (PollStart w')).

(** Any number of cancellers and pollers that have not started. *)
Definition fresh (s : State) : Prop :=
  cancelled s = false /\ waiters s = [] /\ locked s = None /\ poisoned s = false /\ woken s = [] /\
  forall t th, threads s !! t = Some th -> th = CancelStart \/ exists w, th = PollStart w.

Inductive reachable : State -> Prop :=
| ReachFresh s : fresh s -> reachable s
| ReachStep s s' : reachable s -> step s s' -> reachable s'.

(** ** The invariant *)

(** The steps a thread takes inside the mutex. *)
Definition holds_lock (th : Thread) : bool :=
  match th with CancelDrain | PollRecheck _ | PollPush _ => true | _ => false end.

(** A canceller that set the flag and has not drained yet. *)
Definition will_drain (s : State) : Prop :=
  exists t, threads s !! t = Some CancelLock \/ threads s !! t = Some CancelDrain.

Record token_inv (s : State) : Prop := {
  inv_mutex : forall t th, threads s !! t = Some th -> holds_lock th = true -> locked s = Some t;
  inv_held : forall t, locked s = Some t -> exists th, threads s !! t = Some th /\ holds_lock th = true;
  inv_push : forall t w, threads s !! t = Some (PollPush w) -> cancelled s = true -> poisoned s = false -> will_drain s;
  inv_flag : forall t th, threads s !! t = Some th -> th = CancelLock \/ th = CancelDrain -> cancelled s = true;
  inv_pending : forall t w, threads s !! t = Some (PollPending w) -> poisoned s = false ->
    w ∈ woken s \/ (w ∈ waiters s /\ (cancelled s = true -> will_drain s));
  inv_ready : forall t w, threads s !! t = Some (PollReady w) -> cancelled s = true \/ poisoned s = true;
  inv_poison : poisoned s = true -> cancelled s = true
}.

(** ** Lemmas *)

Lemma fresh_inv s : fresh s -> token_inv s.
Proof.
  intros (Hc & Hw & Hl & Hp & _ & Ht); split.
  - intros t th Hth Hh; destruct (Ht t th Hth) as [-> | [w ->]]; done.
  - intros t H; congruence.
  - intros t w H; destruct (Ht _ _ H) as [? | [? ?]]; done.
  - intros t th H Hth; destruct (Ht _ _ H) as [-> | [w ->]]; destruct Hth; done.
  - intros t w H; destruct (Ht _ _ H) as [? | [? ?]]; done.
  - intros t w H; destruct (Ht _ _ H) as [? | [? ?]]; done.
  - congruence.
Qed.

(** A draining canceller stays one while another thread moves. *)
Lemma will_drain_other s s' t th :
  threads s !! t = Some th -> (th <> CancelLock /\ th <> CancelDrain) ->
  (forall t', t' <> t -> threads s' !! t' = threads s !! t') -> will_drain s -> will_drain s'.
Proof.
  intros Ht [H1 H2] Hsame (d & Hd); exists d; rewrite Hsame; [done |].
  intros ->; rewrite Ht in Hd; destruct Hd; congruence.
Qed.

Lemma insert_other (m : gmap Tid Thread) t th t' : t' <> t -> <[t := th]> m !! t' = m !! t'.
Proof. intros; apply lookup_insert_ne; done. Qed.

(** The thread that moved, or another one. *)
Ltac moved :=
  match goal with
  | H : <[?t := ?th]> ?m !! ?t' = Some ?x |- _ =>
      rewrite lookup_insert in H; destruct (decide (t = t'));
      [subst t'; injection H as H; try (subst x) |]
  end.

(** A thread that moves outside the mutex, without touching the flag, the
    list or the lock, keeps the invariant when its new place asks for nothing. *)
Lemma move_inv s t old new :
  token_inv s -> threads s !! t = Some old ->
  holds_lock old = false -> holds_lock new = false ->
  (old <> CancelLock /\ old <> CancelDrain) \/ poisoned s = true ->
  (new <> CancelLock /\ new <> CancelDrain) ->
  (forall w, new <> PollPending w) ->
  (forall w, new = PollReady w -> cancelled s = true \/ poisoned s = true) ->
  token_inv (set_thread s t new).
Proof.
  intros [I1 I2 I3 I4 I5 I6 I7] Hold Ho Hn Hd [Hn1 Hn2] Hpend Hready.
  assert (Hwd : poisoned s = false -> will_drain s -> will_drain (set_thread s t new)).
  { intros Hp; destruct Hd as [Hd | Hd]; [| congruence].
    apply (will_drain_other s _ t old Hold Hd); intros; cbn; apply insert_other; done. }
  split; cbn [set_thread cancelled waiters locked poisoned woken threads].
  - intros t' th H Hh; moved; [congruence | eauto].
  - intros t' H; destruct (I2 t' H) as (th & Hth & Hh); exists th; split; [| done].
    rewrite lookup_insert_ne; [done |]; intros ->; congruence.
  - intros t' w H Hc Hp; moved; [subst new; done |]; apply Hwd; [done |]; eapply I3; eauto.
  - intros t' th H Hth; moved; [destruct Hth; done | eauto].
  - intros t' w H Hp; moved; [exfalso; eapply Hpend; eauto |].
    destruct (I5 t' w H Hp) as [? | [? Hw]]; [auto | right; split; [done |]; intros Hc; apply Hwd; auto].
  - intros t' w H; moved; [eauto | eauto].
  - exact I7.
Qed.

(** The holder of the mutex is the only thread inside it. *)
Lemma mutex_unique s t t' th th' :
  token_inv s -> threads s !! t = Some th -> holds_lock th = true ->
  threads s !! t' = Some th' -> holds_lock th' = true -> t = t'.
Proof.
  intros I H Hh H' Hh'; apply (inv_mutex s I) in H; [| done]; apply (inv_mutex s I) in H'; [| done]; congruence.
Qed.

Lemma acquire_inv s t old new :
  token_inv s -> threads s !! t = Some old -> locked s = None -> poisoned s = false ->
  holds_lock new = true ->
  (old = CancelLock /\ new = CancelDrain) \/ (exists w, old = PollLock w /\ new = PollRecheck w) ->
  token_inv (set_lock (set_thread s t new) (Some t)).
Proof.
  intros [I1 I2 I3 I4 I5 I6 I7] Hold Hl Hp Hh Hcase.
  assert (Hwd : will_drain s -> will_drain (set_lock (set_thread s t new) (Some t))).
  { intros (d & Hd); exists (d); cbn; destruct (decide (d = t)) as [-> | Hne].
    - rewrite lookup_insert_eq; rewrite Hold in Hd.
      destruct Hcase as [[-> ->] | (w & -> & ->)]; [auto | destruct Hd; done].
    - rewrite lookup_insert_ne by done; done. }
  split; cbn [set_lock set_thread cancelled waiters locked poisoned woken threads].
  - intros t' th H Hth; moved; [done |]; specialize (I1 t' th H Hth); congruence.
  - intros t' [= <-]; exists new; rewrite lookup_insert_eq; done.
  - intros t' w H Hc _; moved; [destruct Hcase as [[_ ?] | (? & _ & ?)]; congruence |].
    apply Hwd; eauto.
  - intros t' th H Hth; moved; [| eauto].
    destruct Hcase as [[-> _] | (? & _ & ->)]; [eapply I4; eauto | destruct Hth; done].
  - intros t' w H _; moved; [destruct Hcase as [[_ ?] | (? & _ & ?)]; congruence |].
    destruct (I5 t' w H Hp) as [? | [? Hw]]; [auto | right; split; [done |]; intros; apply Hwd; auto].
  - intros t' w H; moved; [destruct Hcase as [[_ ?] | (? & _ & ?)]; congruence | eauto].
  - exact I7.
Qed.

Lemma swap_inv s t : token_inv s -> threads s !! t = Some CancelStart -> token_inv (swap_flag s t).
Proof.
  intros [I1 I2 I3 I4 I5 I6 I7] Hold.
  assert (Hwd : cancelled s = false \/ will_drain s -> will_drain (swap_flag s t)).
  { intros [Hc | Hd].
    - exists t; cbn; rewrite Hc, lookup_insert_eq; auto.
    - apply (will_drain_other s _ t CancelStart Hold); [done | | done].
      intros; cbn; apply insert_other; done. }
  split; cbn [swap_flag cancelled waiters locked poisoned woken threads].
  - intros t' th H Hh; moved; [destruct (cancelled s); done | eauto].
  - intros t' H; destruct (I2 t' H) as (th & Hth & Hh); exists th; split; [| done].
    rewrite lookup_insert_ne; [done |]; intros ->; rewrite Hold in Hth; injection Hth as <-; done.
  - intros t' w H _ Hp; moved; [destruct (cancelled s); done |].
    apply Hwd; destruct (cancelled s) eqn:Hc; [right; eapply I3; eauto | auto].
  - done.
  - intros t' w H Hp; moved; [destruct (cancelled s); done |].
    destruct (I5 t' w H Hp) as [? | [? Hw]]; [auto | right; split; [done |]; intros _; apply Hwd].
    destruct (cancelled s); auto.
  - auto.
  - done.
Qed.

Lemma drain_inv s t : token_inv s -> threads s !! t = Some CancelDrain -> token_inv (drain_waiters s t).
Proof.
  intros I Hold; pose proof I as [I1 I2 I3 I4 I5 I6 I7].
  assert (Hothers : forall t' th, t' <> t -> threads s !! t' = Some th -> holds_lock th = false).
  { intros t' th Hne H; destruct (holds_lock th) eqn:E; [| done]; destruct Hne.
    eapply mutex_unique; eauto. }
  split; cbn [drain_waiters cancelled waiters locked poisoned woken threads].
  - intros t' th H Hh; moved; [done |]; specialize (Hothers t' th ltac:(done) H); congruence.
  - done.
  - intros t' w H _ _; moved; [done |]; specialize (Hothers t' _ ltac:(done) H); done.
  - intros t' th H Hth; moved; [destruct Hth; done | eauto].
  - intros t' w H Hp; moved; [done |]; left; apply elem_of_app.
    destruct (I5 t' w H Hp) as [? | [? _]]; auto.
  - intros t' w H; moved; [done | eauto].
  - exact I7.
Qed.

Lemma drain_panics_inv s t n : token_inv s -> threads s !! t = Some CancelDrain -> token_inv (drain_panics s t n).
Proof.
  intros I Hold; pose proof I as [I1 I2 I3 I4 I5 I6 I7].
  assert (Hc : cancelled s = true) by (eapply I4; eauto).
  assert (Hothers : forall t' th, t' <> t -> threads s !! t' = Some th -> holds_lock th = false).
  { intros t' th Hne H; destruct (holds_lock th) eqn:E; [| done]; destruct Hne.
    eapply mutex_unique; eauto. }
  split; cbn [drain_panics cancelled waiters locked poisoned woken threads].
  - intros t' th H Hh; moved; [done |]; specialize (Hothers t' th ltac:(done) H); congruence.
  - done.
  - done.
  - done.
  - done.
  - auto.
  - done.
Qed.

Lemma push_inv s t w : token_inv s -> threads s !! t = Some (PollPush w) -> token_inv (push_waker s t w).
Proof.
  intros I Hold; pose proof I as [I1 I2 I3 I4 I5 I6 I7].
  assert (Hothers : forall t' th, t' <> t -> threads s !! t' = Some th -> holds_lock th = false).
  { intros t' th Hne H; destruct (holds_lock th) eqn:E; [| done]; destruct Hne.
    eapply mutex_unique; eauto. }
  assert (Hwd : will_drain s -> will_drain (push_waker s t w)).
  { apply (will_drain_other s _ t (PollPush w) Hold); [done |]; intros; cbn; apply insert_other; done. }
  assert (Hin : forall x, x ∈ waiters s -> x ∈ (if existsb (Z.eqb w) (waiters s) then waiters s else waiters s ++ [w])).
  { intros x Hx; destruct (existsb _ _); [done | apply elem_of_app; auto]. }
  assert (Hw : w ∈ (if existsb (Z.eqb w) (waiters s) then waiters s else waiters s ++ [w])).
  { destruct (existsb (Z.eqb w) (waiters s)) eqn:E; [| apply elem_of_app; right; left].
    apply existsb_exists in E as (x & Hx & Heq); apply Z.eqb_eq in Heq as ->; apply list_elem_of_In; done. }
  split; cbn [push_waker cancelled waiters locked poisoned woken threads].
  - intros t' th H Hh; moved; [done |]; specialize (Hothers t' th ltac:(done) H); congruence.
  - done.
  - intros t' w' H _ _; moved; [done |]; specialize (Hothers t' _ ltac:(done) H); done.
  - intros t' th H Hth; moved; [destruct Hth; done | eauto].
  - intros t' w' H Hp; moved.
    + subst w'; right; split; [done |]; intros Hc; apply Hwd; eauto.
    + destruct (I5 t' w' H Hp) as [? | [? Hd]]; [auto | right; split; auto].
  - intros t' w' H; moved; [done | eauto].
  - exact I7.
Qed.

Lemma recheck_inv s t w :
  token_inv s -> threads s !! t = Some (PollRecheck w) ->
  token_inv (if cancelled s then set_lock (set_thread s t (PollReady w)) None
             else set_thread s t (PollPush w)).
Proof.
  intros I Hold; pose proof I as [I1 I2 I3 I4 I5 I6 I7].
  assert (Hothers : forall t' th, t' <> t -> threads s !! t' = Some th -> holds_lock th = false).
  { intros t' th Hne H; destruct (holds_lock th) eqn:E; [| done]; destruct Hne.
    eapply mutex_unique; eauto. }
  assert (Hwd : forall s' th, threads s' = <[t := th]> (threads s) -> will_drain s -> will_drain s').
  { intros s' th Hs'; apply (will_drain_other s _ t (PollRecheck w) Hold); [done |].
    intros; rewrite Hs'; apply insert_other; done. }
  destruct (cancelled s) eqn:Hc; split;
    cbn [set_lock set_thread cancelled waiters locked poisoned woken threads]; rewrite ?Hc.
  - intros t' th H Hh; moved; [done |]; specialize (Hothers t' th ltac:(done) H); congruence.
  - done.
  - intros t' w' H _ _; moved; [done |]; specialize (Hothers t' _ ltac:(done) H); done.
  - done.
  - intros t' w' H Hp; moved; [done |].
    destruct (I5 t' w' H Hp) as [? | [? Hd]]; [auto | right; split; [done |]; intros _].
    eapply Hwd; [reflexivity | auto].
  - auto.
  - done.
  - intros t' th H Hh; moved; [eauto | eauto].
  - intros t' H; destruct (I2 t' H) as (th & Hth & Hh); destruct (decide (t = t')) as [<- | Hne].
    + eexists; rewrite lookup_insert_eq; done.
    + exists th; rewrite lookup_insert_ne; done.
  - done.
  - intros t' th H Hth; moved; [destruct Hth; done |]; specialize (I4 t' th H Hth); congruence.
  - intros t' w' H Hp; moved; [done |]; destruct (I5 t' w' H Hp) as [? | [? _]]; [auto | right; done].
  - intros t' w' H; moved; [done |]; exact (I6 t' w' H).
  - exact I7.
Qed.

Lemma step_inv s s' : token_inv s -> step s s' -> token_inv s'.
Proof.
  intros I Hstep; pose proof I as [I1 I2 I3 I4 I5 I6 I7]; destruct Hstep as
    [s t H | s t H Hl Hp | s t H Hl Hp | s t H | s t n H Hn | s t w H | s t w H Hl Hp | s t w H Hl Hp
    | s t w H | s t w H | s t w w' H].
  - by apply swap_inv.
  - apply (acquire_inv s t CancelLock); auto.
  - apply (move_inv s t CancelLock); try done; auto.
  - by apply drain_inv.
  - by apply drain_panics_inv.
  - destruct (cancelled s) eqn:Hc; (apply (move_inv s t (PollStart w)); try done; auto).
  - apply (acquire_inv s t (PollLock w)); eauto.
  - apply (move_inv s t (PollLock w)); try done; auto.
  - by apply recheck_inv.
  - by apply push_inv.
  - apply (move_inv s t (PollPending w)); try done; left; done.
Qed.

Lemma reachable_inv s : reachable s -> token_inv s.
Proof. induction 1 as [s Hf | s s' _ IH Hs]; [by apply fresh_inv | by apply (step_inv s)]. Qed.

(** ** Theorems *)

(** C38. No wake-up is lost.  In every reachable state in which cancellation
    was requested, no canceller is still on its way to the waiters and no
    waker panicked, every task that was told to wait has been woken,
    whatever the interleaving of cancellers and pollers was. *)
Theorem cancel_no_lost_wakeup (s : State) (t : Tid) (w : Waker) :
  reachable s -> cancelled s = true -> poisoned s = false ->
  (forall d, threads s !! d <> Some CancelLock /\ threads s !! d <> Some CancelDrain) ->
  threads s !! t = Some (PollPending w) -> w ∈ woken s.
Proof.
  intros Hr Hc Hp Hd Ht; apply reachable_inv in Hr.
  destruct (inv_pending s Hr t w Ht Hp) as [? | [_ Hw]]; [done |].
  destruct (Hw Hc) as (d & Hdd); specialize (Hd d); intuition congruence.
Qed.

(** The signal is never withdrawn and a task is told to go on only for
    cause: once set the flag stays set, [Ready] is returned only after
    cancellation was requested, and at any time at most one thread is inside
    the mutex. *)
Theorem cancel_signal_sound (s s' : State) :
  reachable s -> step s s' ->
  (cancelled s = true -> cancelled s' = true) /\
  (forall t w, threads s' !! t = Some (PollReady w) -> cancelled s' = true) /\
  (forall t t' th th', threads s' !! t = Some th -> threads s' !! t' = Some th' ->
     holds_lock th = true -> holds_lock th' = true -> t = t').
Proof.
  intros Hr Hs; pose proof (reachable_inv _ (ReachStep _ _ Hr Hs)) as I; split_and!.
  - destruct Hs; cbn; try done; destruct (cancelled s) eqn:Hc; cbn; congruence.
  - intros t w Ht; destruct (inv_ready s' I t w Ht) as [? | Hp]; [done | by apply (inv_poison s' I)].
  - intros t t' th th' H H' Hh Hh'; exact (mutex_unique s' t t' th th' I H Hh H' Hh').
Qed.

(** The lock is free, or its holder can take a step that releases it. *)
Definition can_step (s : State) (t : Tid) : Prop :=
  exists s', step s s' /\ threads s' !! t <> threads s !! t.

(** Nobody deadlocks on the token: a thread that is neither finished nor
    waiting can move, unless it waits for the mutex, and then the thread
    that holds the mutex can move. *)
Theorem cancel_no_deadlock (s : State) (t : Tid) (th : Thread) :
  reachable s -> threads s !! t = Some th ->
  match th with
  | CancelDone | PollReady _ => True
  | _ => can_step s t \/ exists holder, holder <> t /\ locked s = Some holder /\ can_step s holder
  end.
Proof.
  intros Hr Ht; apply reachable_inv in Hr.
  assert (Hheld : forall h th', threads s !! h = Some th' -> holds_lock th' = true -> can_step s h).
  { intros h th' Hh Hl; destruct th' as [| | | | | | w | w | |]; try done.
    - exists (drain_waiters s h); split; [by apply StepDrain |]; cbn; rewrite lookup_insert_eq; congruence.
    - eexists; split; [by apply (StepPollRecheck s h w) |].
      destruct (cancelled s); cbn; rewrite lookup_insert_eq; congruence.
    - exists (push_waker s h w); split; [by apply StepPollPush |]; cbn; rewrite lookup_insert_eq; congruence. }
  assert (Hlock : holds_lock th = false -> locked s <> None ->
    exists holder, holder <> t /\ locked s = Some holder /\ can_step s holder).
  { intros Hn Hl; destruct (locked s) as [h|] eqn:El; [| done].
    destruct (inv_held s Hr h El) as (th' & Hh & Hhl); exists h; split_and!; [| done | eauto].
    intros ->; congruence. }
  destruct th as [| | | | w | w | w | w | w | w]; try done.
  - left; eexists; split; [by apply StepSwap |]; cbn; rewrite lookup_insert_eq; destruct (cancelled s); congruence.
  - destruct (locked s) eqn:El; [right; by apply Hlock |]; left; destruct (poisoned s) eqn:Ep.
    + eexists; split; [by apply (StepCancelPoisoned s t) |]; cbn; rewrite lookup_insert_eq; congruence.
    + eexists; split; [by apply (StepCancelLock s t) |]; cbn; rewrite lookup_insert_eq; congruence.
  - left; eauto.
  - left; eexists; split; [by apply (StepPollCheck s t w) |]; cbn; rewrite lookup_insert_eq.
    destruct (cancelled s); congruence.
  - destruct (locked s) eqn:El; [right; by apply Hlock |]; left; destruct (poisoned s) eqn:Ep.
    + eexists; split; [by apply (StepPollPoisoned s t w) |]; cbn; rewrite lookup_insert_eq; congruence.
    + eexists; split; [by apply (StepPollLock s t w) |]; cbn; rewrite lookup_insert_eq; congruence.
  - left; eauto.
  - left; eauto.
  - left; eexists; split; [by apply (StepPollAgain s t w w) |]; cbn; rewrite lookup_insert_eq; congruence.
Qed.
