(* ===== verification/Engine.v ===== *)
(** * The rewrite engine ([engine/src/engine.rs], [engine/support.rs]).

    One pass over the units of a document: plan protection, generate,
    assess every candidate through the gates in order, select, and commit
    all units or none.  The cancellation signal is a schedule of answers;
    the number of polls made so far is threaded through the run. *)

From S2P Require Import Prelude Text Regex Float32 Document TextSafety Rewrite Claims Evidence.
From S2P Require Import TextAdapter Extract Protection Semantic Policy ClaimCompare SpanReport.

(** The number of editorial findings in a text, which only ranks candidates. *)
Class EditorialLint := {
  lint_count : text -> Z;
  lint_count_nonneg : forall s, 0 <= lint_count s
}.

(** ** Gate identifiers and values ([engine/support.rs]) *)

Definition UNIT_GATE : text := lit "candidate_unit".
Definition CANDIDATE_GATE : text := lit "candidate_contract".
Definition SENTINEL_GATE : text := lit "sentinel_integrity".
Definition PROTECTED_GATE : text := lit "protected_values".
Definition LAYOUT_GATE : text := lit "layout_constraints".
Definition SEMANTIC_GATE : text := lit "semantic_fidelity".

Record UnitProgress := {
  selected : CandidateId.t;
  progress_replacement : option text;
  progress_assessments : list CandidateAssessment.t
}.

Record EligibleCandidate := { generated : GeneratedCandidate; restored : text }.

Record EvaluatedCandidate := {
  assessment : CandidateAssessment.t;
  candidate : EligibleCandidate;
  eval_reason : option ReasonCode
}.

(** [semantic_evidence]. *)
Definition semantic_evidence (evidence : SemanticEvidence.t) : GateEvidence.t :=
  let message :=
    match SemanticEvidence.code evidence with
    | LiteralTokensEqual => lit "literal token sequence was preserved"
    | LiteralTokensChanged => lit "literal token sequence changed"
    | UnsupportedMode => lit "semantic evaluator does not support this mode"
    | ClaimComparisonPreserved => lit "typed claim comparison found no conflict"
    | ClaimComparisonConflict => lit "typed claim comparison found a conflict"
    | ClaimComparisonUncertain => lit "typed claim comparison retained uncertainty"
    end in
  GateEvidence.mk (semantic_code_str (SemanticEvidence.code evidence)) message
    (match SemanticEvidence.details evidence with
     | Some (SemanticClaimComparison comparison) => Some (ClaimComparison comparison)
     | None => None
     end).

(** [invalid_semantic_gate]. *)
Definition invalid_semantic_gate : GateResult.t * bool * ReasonCode :=
  (GateResult.mk SEMANTIC_GATE (lit "semantic-evidence-contract-v1") Uncertain Error
     [GateEvidence.mk (lit "invalid_evaluator_evidence")
        (lit "semantic evaluator returned malformed or unbounded evidence") None] None,
   false, SemanticUncertain).

(** The loop of [protected_values_pass]: one more value of a kind, saturating. *)
Definition count_value (s : InvariantEvidenceSummary.t) (v : ProtectedValue) : InvariantEvidenceSummary.t :=
  let '(InvariantEvidenceSummary.mk terms urls emails numbers total) := s in
  let more n := saturating_add u32_max n 1 in
  match value_kind v with
  | DeclaredTerm => InvariantEvidenceSummary.mk (more terms) urls emails numbers (more total)
  | Url => InvariantEvidenceSummary.mk terms (more urls) emails numbers (more total)
  | Email => InvariantEvidenceSummary.mk terms urls (more emails) numbers (more total)
  | Number => InvariantEvidenceSummary.mk terms urls emails (more numbers) (more total)
  end.

(** [protected_values_pass]. *)
Definition protected_values_pass (protection : ProtectionPlan) : GateResult.t :=
  let summary := foldl count_value (InvariantEvidenceSummary.mk 0 0 0 0 0) (values protection) in
  GateResult.mk PROTECTED_GATE (lit "1") Pass Error
    [GateEvidence.mk (lit "invariant_counts") (lit "exact protected invariant counts were preserved")
       (Some (InvariantSummary summary))] None.

(** [ineligible]. *)
Definition ineligible (c : GeneratedCandidate) (assessed_unit_id : RewriteUnitId.t) (restored : text)
    (gates : list GateResult.t) (reason : ReasonCode) : EvaluatedCandidate := {|
  assessment := CandidateAssessment.mk (cand_id c) assessed_unit_id false gates;
  candidate := {| generated := c; restored := restored |};
  eval_reason := Some reason
|}.

(** [validate_candidate_metadata]: the gates after it, or the rejection. *)
Definition validate_candidate_metadata (u : RewriteUnit) (c : GeneratedCandidate)
    (gates : list GateResult.t) : list GateResult.t + EvaluatedCandidate :=
  if negb (bool_decide (cand_unit_id c = unit_id u)) then
    inr (ineligible c (unit_id u) []
           (gates ++ [GateResult.fail UNIT_GATE (lit "unit_mismatch")
                        (lit "candidate targets a different rewrite unit")])
           StructureChanged)
  else
    let gates := gates ++ [GateResult.pass UNIT_GATE] in
    if negb (candidate_contract_is_valid c) then
      inr (ineligible c (unit_id u) []
             (gates ++ [GateResult.fail CANDIDATE_GATE (lit "invalid_candidate_contract")
                          (lit "candidate size, identity, or ranking metadata violates engine limits")])
             InvalidCandidate)
    else inl (gates ++ [GateResult.pass CANDIDATE_GATE]).

(** [protection_failure]. *)
Definition protection_failure (gate_id : text) (error : ProtectionError) : GateResult.t :=
  let code :=
    match error with
    | ReservedTokenInSource => lit "reserved_token"
    | ProtectedOccurrenceCount => lit "protected_occurrence_count"
    | SentinelOccurrenceCount => lit "sentinel_occurrence_count"
    | UnknownSentinel => lit "unknown_sentinel"
    | MatcherBuild => lit "matcher_build"
    | ResourceLimit => lit "protection_resource_limit"
    | InvalidDeclaredTerms => lit "invalid_declared_terms"
    | AmbiguousSurfaceMapping => lit "ambiguous_surface_mapping"
    end in
  GateResult.fail gate_id code (lit "candidate did not preserve protected-value integrity").

(** [protection_reason]. *)
Definition protection_reason (error : ProtectionError) : ReasonCode :=
  match error with
  | ProtectedOccurrenceCount => ProtectedValueChanged
  | _ => SentinelIntegrity
  end.

(** [surface_edit_cost]. *)
Definition surface_edit_cost (source candidate : text) : Z :=
  let substitutions :=
    vlen (List.filter (fun p => negb (fst p =? snd p)) (zip source candidate)) in
  let length_delta := Z.abs (vlen source - vlen candidate) in
  default u64_max (try_from u64_max (saturating_add usize_max substitutions length_delta)).

(** [count_lines]. *)
Definition count_lines (s : text) : Z :=
  match s with [] => 0 | _ => vlen (List.filter (Z.eqb 10) s) + 1 end.

(** The test of one optional bound. *)
Definition over (bound : option Z) (test : Z -> bool) : bool :=
  match bound with Some b => test b | None => false end.

(** [validate_layout_constraints]. *)
Definition validate_layout_constraints (u : RewriteUnit) (restored : text) (options : RewriteOptions)
  : option (GateResult.t * ReasonCode) :=
  layout ← layout options;
  let fail code message reason :=
    Some (GateResult.fail LAYOUT_GATE (lit code) (lit message), reason) in
  let restored_chars := vlen restored in
  let source_chars := vlen (unit_text u) in
  let restored_lines := count_lines restored in
  let source_lines := count_lines (unit_text u) in
  let lines :=
    match line_budget layout with
    | Some budget =>
        if over (max_lines budget) (fun maximum => maximum <? restored_lines) then
          fail "line_budget_exceeded" "candidate line count exceeds maximum line budget"
            LineBudgetExceeded
        else if preserve_line_count budget && negb (restored_lines =? source_lines) then
          fail "line_count_mismatch" "candidate line count does not match source line count"
            LineBudgetExceeded
        else Some (GateResult.pass LAYOUT_GATE, CharacterBudgetExceeded)
    | None => Some (GateResult.pass LAYOUT_GATE, CharacterBudgetExceeded)
    end in
  match character_budget layout with
  | Some budget =>
      if over (min_characters budget) (fun minimum => restored_chars <? minimum) then
        fail "character_budget_underflow" "candidate character count is below minimum budget"
          CharacterBudgetExceeded
      else if over (max_characters budget) (fun maximum => maximum <? restored_chars) then
        fail "character_budget_exceeded" "candidate character count exceeds maximum budget"
          CharacterBudgetExceeded
      else if over (max_expansion_percent budget) (fun expansion_pct =>
                saturating_mul usize_max source_chars (100 + expansion_pct) / 100 <? restored_chars) then
        fail "character_expansion_exceeded" "candidate character expansion exceeds allowed percentage"
          CharacterBudgetExceeded
      else lines
  | None => lines
  end.

(** ** Assessment of one candidate ([engine.rs]) *)

Record EngineOutcome := {
  out_status : RewriteStatus;
  out_reason : option ReasonCode;
  edits : list AcceptedEdit;
  assessments : list CandidateAssessment.t;
  selected_candidates : list CandidateId.t
}.

(** [EngineOutcome::abstained]. *)
Definition abstained (reason : ReasonCode) (assessments : list CandidateAssessment.t) : EngineOutcome := {|
  out_status := Abstained;
  out_reason := Some reason;
  edits := [];
  assessments := assessments;
  selected_candidates := []
|}.

(** [attach_span_details]. *)
Definition attach_span_details (gate : GateResult.t) (details : option GateEvidenceDetails) : GateResult.t :=
  match details, GateResult.evidence gate with
  | Some d, e :: rest =>
      GateResult.mk (GateResult.gate_id gate) (GateResult.gate_version gate) (GateResult.status gate)
        (GateResult.severity gate)
        (GateEvidence.mk (GateEvidence.code e) (GateEvidence.message e) (Some d) :: rest)
        (GateResult.confidence gate)
  | _, _ => gate
  end.

(** [annotate_structure_gate]. *)
Definition annotate_structure_gate (gate : GateResult.t) (structure : StructureAssessment)
    (source restored : text) : GateResult.t :=
  match structure with
  | Preserved => gate
  | StructureUnsafeText => attach_span_details gate (unsafe_details source restored)
  | Changed => attach_span_details gate (structure_details source restored)
  end.

Record RewriteEngine := {
  generator : CandidateGenerator;
  semantic : SemanticEvaluator;
  structure : StructureValidator;
  claim_shadow : option ClaimShadowObserver
}.

(** [RewriteEngine::with_claim_shadow]. *)
Definition with_claim_shadow (e : RewriteEngine) (observer : ClaimShadowObserver) : RewriteEngine := {|
  generator := generator e; semantic := semantic e; structure := structure e;
  claim_shadow := Some observer
|}.

Section Engine.
Context {UT : UnicodeTables} {RE : RegexEngine} {AC : AhoCorasick} {SHA : Sha256} {LINT : EditorialLint}.
Variable engine : RewriteEngine.

(** [attach_claim_shadow]. *)
Definition attach_claim_shadow (u : RewriteUnitId.t) (source candidate : text)
    (gates : list GateResult.t) : list GateResult.t :=
  match claim_shadow engine with
  | Some observer =>
      match shadow_gate observer u source candidate with
      | Some gate => gates ++ [gate]
      | None => gates
      end
  | None => gates
  end.

(** [semantic_gate]: the gate, whether it passed and the reason otherwise. *)
Definition semantic_gate (u : RewriteUnitId.t) (source candidate : text) (options : RewriteOptions)
  : GateResult.t * bool * ReasonCode :=
  let assessed := evaluate (semantic engine) source candidate (mode options) in
  if negb (is_ok (SemanticAssessment.validate assessed))
     || negb (evidence_matches assessed u source candidate)
  then invalid_semantic_gate
  else
    let confidence_passed :=
      match SemanticAssessment.confidence assessed with
      | Some value => f32_le (minimum_semantic_confidence options) value
      | None => false
      end in
    let is_pass := bool_decide (SemanticAssessment.status assessed = Pass) in
    let passed := is_pass && confidence_passed in
    let status :=
      if is_pass && negb confidence_passed then Uncertain else SemanticAssessment.status assessed in
    let reason := if bool_decide (status = Fail) then SemanticMismatch else SemanticUncertain in
    let gate :=
      GateResult.mk SEMANTIC_GATE (evaluator_id (semantic engine)) status Error
        (map semantic_evidence (SemanticAssessment.evidence assessed))
        (SemanticAssessment.confidence assessed) in
    let gate :=
      if negb passed
         && existsb (fun item => text_eqb (GateEvidence.code item) (lit "literal_tokens_changed"))
              (GateResult.evidence gate)
      then attach_span_details gate (literal_token_details source candidate)
      else gate in
    if negb (is_ok (GateResult.validate gate)) then invalid_semantic_gate
    else (gate, passed, reason).

(** [reject_unprotected]. *)
Definition reject_unprotected (c : GeneratedCandidate) (u : RewriteUnit) (options : RewriteOptions)
    (error : ProtectionError) (gates : list GateResult.t) : Result EngineError EvaluatedCandidate :=
  let gate := protection_failure SENTINEL_GATE error in
  gate ←
    (match error, text_kind c with
     | ProtectedOccurrenceCount, Raw =>
         details ← protection_details (unit_text u) (cand_text c) (protected_terms options);
         Ok (attach_span_details gate details)
     | _, _ => Ok gate
     end);
  Ok (ineligible c (unit_id u) [] (gates ++ [gate]) (protection_reason error)).

(** The rank a passing candidate is selected by. *)
Definition final_rank (c : GeneratedCandidate) (source restored : text) : GeneratedCandidate := {|
  cand_id := cand_id c; cand_unit_id := cand_unit_id c; cand_text := cand_text c;
  text_kind := text_kind c;
  rank := {|
    style := style (rank c); channel := channel (rank c); fluency := fluency (rank c);
    editorial_penalty := default u32_max (try_from u32_max (lint_count restored));
    edit_cost := surface_edit_cost source restored |}
|}.

(** [assess_candidate] from the restored text on: structure, layout, meaning. *)
Definition assess_restored (u : RewriteUnit) (c : GeneratedCandidate) (restored : text)
    (options : RewriteOptions) (gates : list GateResult.t) : EvaluatedCandidate :=
  let structured := structure engine u restored in
  let '(structure_gate, structure_reason) := retained_gate structured in
  let gates := gates ++ [annotate_structure_gate structure_gate structured (unit_text u) restored] in
  if negb (bool_decide (structured = Preserved)) then
    ineligible c (unit_id u) restored
      (attach_claim_shadow (unit_id u) (unit_text u) restored gates) structure_reason
  else
    let layout_result := validate_layout_constraints u restored options in
    let gates := match layout_result with Some (g, _) => gates ++ [g] | None => gates end in
    let rejected :=
      match layout_result with
      | Some (layout_gate, layout_reason) =>
          if negb (bool_decide (GateResult.status layout_gate = Pass))
          then Some layout_reason else None
      | None => None
      end in
    match rejected with
    | Some layout_reason => ineligible c (unit_id u) restored gates layout_reason
    | None =>
        let '(gate, semantic_passed, semantic_reason) :=
          semantic_gate (unit_id u) (unit_text u) restored options in
        let gates :=
          attach_claim_shadow (unit_id u) (unit_text u) restored (gates ++ [gate]) in
        if negb semantic_passed then ineligible c (unit_id u) restored gates semantic_reason
        else
          let ranked := final_rank c (unit_text u) restored in
          {| assessment := CandidateAssessment.mk (cand_id ranked) (cand_unit_id ranked) true gates;
             candidate := {| generated := ranked; restored := restored |};
             eval_reason := None |}
    end.

(** [assess_candidate]. *)
Definition assess_candidate (u : RewriteUnit) (c : GeneratedCandidate) (protection : ProtectionPlan)
    (options : RewriteOptions) : Result EngineError EvaluatedCandidate :=
  match validate_candidate_metadata u c [] with
  | inr evaluated => Ok evaluated
  | inl gates =>
      let masked :=
        match text_kind c with
        | Masked => _ ← validate_masked protection (cand_text c); Ok (cand_text c)
        | Raw => mask_raw_candidate protection (cand_text c)
        end in
      match masked with
      | Panic => Panic
      | Err error => reject_unprotected c u options error gates
      | Ok masked =>
          let gates := gates ++ [GateResult.pass SENTINEL_GATE] in
          match restore protection masked with
          | Panic => Panic
          | Err error =>
              Ok (ineligible c (unit_id u) [] (gates ++ [protection_failure PROTECTED_GATE error])
                    (protection_reason error))
          | Ok restored =>
              Ok (assess_restored u c restored options (gates ++ [protected_values_pass protection]))
          end
      end
  end.

(** ** One unit *)

Record UnitState := {
  eligible : list EligibleCandidate;
  unit_reason : option ReasonCode;
  unit_assessments : list CandidateAssessment.t
}.

(** One round of the candidate loop. *)
Definition record_candidate (state : UnitState) (evaluated : EvaluatedCandidate) : UnitState := {|
  eligible :=
    if CandidateAssessment.eligible (assessment evaluated)
    then eligible state ++ [candidate evaluated] else eligible state;
  unit_reason :=
    if CandidateAssessment.eligible (assessment evaluated) then unit_reason state
    else match eval_reason evaluated with
         | Some reason => Some (preferred_reason (unit_reason state) reason)
         | None => unit_reason state
         end;
  unit_assessments := unit_assessments state ++ [assessment evaluated]
|}.

Variable sched : Schedule.

(** The candidate loop of [evaluate_unit]; [None] when cancellation was seen. *)
Fixpoint candidate_loop (u : RewriteUnit) (protection : ProtectionPlan) (options : RewriteOptions)
    (state : UnitState) (polls : nat) (candidates : list GeneratedCandidate)
  : Result EngineError (UnitState * bool * nat) :=
  match candidates with
  | [] => Ok (state, false, polls)
  | c :: candidates' =>
      evaluated ← assess_candidate u c protection options;
      let state := record_candidate state evaluated in
      if sched polls then Ok (state, true, S polls)
      else candidate_loop u protection options state (S polls) candidates'
  end.

(** The request [evaluate_unit] sends to the generator. *)
Definition unit_request (u : RewriteUnit) (protection : ProtectionPlan) (options : RewriteOptions)
  : GenerationRequest := {|
  req_unit_id := unit_id u;
  req_masked_source := masked_source protection;
  protected_values := values protection;
  req_mode := mode options
|}.

(** [evaluate_unit]: the progress of the unit, or the outcome that ends the run. *)
Definition evaluate_unit (u : RewriteUnit) (options : RewriteOptions)
    (assessments : list CandidateAssessment.t) (polls : nat)
  : Result EngineError ((UnitProgress + EngineOutcome) * nat) :=
  if sched polls then Ok (inr (abstained Cancelled assessments), S polls)
  else
    match build (unit_text u) (protected_terms options) with
    | Panic => Panic
    | Err (ReservedTokenInSource | AmbiguousSurfaceMapping) =>
        Ok (inr (abstained SentinelIntegrity assessments), S polls)
    | Err error => Err (ProtectionFailed error)
    | Ok protection =>
        if sched (S polls) then Ok (inr (abstained Cancelled assessments), S (S polls))
        else
          let request := unit_request u protection options in
          let '(result, polls) := generate (generator engine) request sched (S (S polls)) in
          match result with
          | Panic => Panic
          | Err GenCancelled => Ok (inr (abstained Cancelled assessments), polls)
          | Err error => Err (Generation error)
          | Ok candidates =>
              if sched polls then Ok (inr (abstained Cancelled assessments), S polls)
              else
                match candidate_batch_reason (unit_id u) candidates with
                | Some reason => Ok (inr (abstained reason assessments), S polls)
                | None =>
                    '(state, cancelled, polls) ←
                      candidate_loop u protection options
                        {| eligible := []; unit_reason := None; unit_assessments := assessments |}
                        (S polls) candidates;
                    if (cancelled : bool)
                    then Ok (inr (abstained Cancelled (unit_assessments state)), polls)
                    else
                      match max_by (fun l r => compare_candidates (generated l) (generated r))
                              (eligible state) with
                      | None =>
                          Ok (inr (abstained (default NoCandidate (unit_reason state))
                                     (unit_assessments state)), polls)
                      | Some item =>
                          Ok (inl {|
                            selected := cand_id (generated item);
                            progress_replacement :=
                              if text_eqb (restored item) (unit_text u) then None
                              else Some (restored item);
                            progress_assessments := unit_assessments state |}, polls)
                      end
                end
          end
    end.

(** ** The run *)

Record RunState := {
  run_edits : list AcceptedEdit;
  run_assessments : list CandidateAssessment.t;
  run_selected : list CandidateId.t
}.

(** The loop of [run] over the units. *)
Fixpoint unit_loop (options : RewriteOptions) (state : RunState) (polls : nat) (units : list RewriteUnit)
  : Result EngineError ((RunState + EngineOutcome) * nat) :=
  match units with
  | [] => Ok (inl state, polls)
  | u :: units' =>
      '(result, polls) ← evaluate_unit u options (run_assessments state) polls;
      match result with
      | inr outcome => Ok (inr outcome, polls)
      | inl progress =>
          unit_loop options {|
            run_edits :=
              match progress_replacement progress with
              | Some replacement =>
                  run_edits state ++ [{| edit_unit_id := unit_id u; replacement := replacement |}]
              | None => run_edits state
              end;
            run_assessments := progress_assessments progress;
            run_selected := run_selected state ++ [selected progress] |} polls units'
      end
  end.

(** [RewriteEngine::run], with the number of polls made. *)
Definition run_counted (document : DocumentIr.t) (options : RewriteOptions)
  : Result EngineError (EngineOutcome * nat) :=
  _ ← validate_rewrite_options options;
  _ ← map_err InvalidDocument (DocumentIr.validate document);
  if negb (bool_decide (atomicity options = ADocument))
  then Ok (abstained UnsupportedAtomicity [], 0%nat)
  else if sched 0%nat then Ok (abstained Cancelled [], 1%nat)
  else
    let units := DocumentIr.rewrite_units document in
    if vlen units =? 0 then
      Ok ({| out_status := UnchangedNoEligibleContent; out_reason := None; edits := [];
             assessments := []; selected_candidates := [] |}, 1%nat)
    else
      '(result, polls) ←
        unit_loop options {| run_edits := []; run_assessments := []; run_selected := [] |} 1 units;
      match result with
      | inr outcome => Ok (outcome, polls)
      | inl state =>
          if sched polls then Ok (abstained Cancelled (run_assessments state), S polls)
          else
            Ok ({| out_status :=
                     if negb (vlen (run_edits state) =? 0) then Rewritten
                     else if vlen units =? 0 then UnchangedNoEligibleContent
                     else UnchangedIdentical;
                   out_reason := None; edits := run_edits state;
                   assessments := run_assessments state;
                   selected_candidates := run_selected state |}, S polls)
      end.
Definition run (document : DocumentIr.t) (options : RewriteOptions) : Result EngineError EngineOutcome :=
  '(outcome, _) ← run_counted document options;
  Ok outcome.

End Engine.

(** ** What a gate sequence accepts *)

(** The layout constraints of the options, as stated. *)
Definition layout_met (source restored : text) (options : RewriteOptions) : Prop :=
  forall l, layout options = Some l ->
  (forall b, character_budget l = Some b ->
     (forall minimum, min_characters b = Some minimum -> minimum <= vlen restored) /\
     (forall maximum, max_characters b = Some maximum -> vlen restored <= maximum) /\
     (forall pct, max_expansion_percent b = Some pct ->
        vlen restored <= vlen source * (100 + pct) / 100)) /\
  (forall b, line_budget l = Some b ->
     (forall maximum, max_lines b = Some maximum -> count_lines restored <= maximum) /\
     (preserve_line_count b = true -> count_lines restored = count_lines source)).

Lemma over_false (bound : option Z) (test : Z -> bool) (b : Z) :
  over bound test = false -> bound = Some b -> test b = false.
Proof. intros H ->; exact H. Qed.

(** A layout gate that does not reject means the constraints are met. *)
Lemma layout_gate_met (u : RewriteUnit) (restored : text) (options : RewriteOptions) :
  match validate_layout_constraints u restored options with
  | Some (gate, _) => GateResult.status gate = Pass
  | None => True
  end -> layout_met (unit_text u) restored options.
Proof.
  unfold validate_layout_constraints, layout_met; intros H l Hl; rewrite Hl in H; cbn [mbind option_bind] in H.
  assert (Hlines : (match line_budget l with
    | Some budget =>
        over (max_lines budget) (fun maximum => maximum <? count_lines restored) = false /\
        preserve_line_count budget && negb (count_lines restored =? count_lines (unit_text u)) = false
    | None => True end)).
  { destruct (character_budget l) as [b|];
      repeat (destruct (over _ _) in H; [discriminate H |]);
      (destruct (line_budget l) as [lb|]; [| done];
       destruct (over _ _) eqn:E1 in H; [discriminate H |];
       destruct (preserve_line_count lb && _) eqn:E2 in H; [discriminate H | done]). }
  split.
  - intros b Hb; rewrite Hb in H.
    destruct (over (min_characters b) _) eqn:E1; [discriminate H |].
    destruct (over (max_characters b) _) eqn:E2; [discriminate H |].
    destruct (over (max_expansion_percent b) _) eqn:E3; [discriminate H |]; clear H.
    split_and!; intros v Hv.
    + apply (over_false _ _ v) in E1; [| done]; apply Z.ltb_ge in E1; exact E1.
    + apply (over_false _ _ v) in E2; [| done]; apply Z.ltb_ge in E2; exact E2.
    + apply (over_false _ _ v) in E3; [| done]; apply Z.ltb_ge in E3; etrans; [exact E3 |].
      apply Z.div_le_mono; [lia |]; unfold saturating_mul; lia.
  - intros b Hb; rewrite Hb in Hlines; destruct Hlines as [E1 E2]; split.
    + intros v Hv; apply (over_false _ _ v) in E1; [| done]; apply Z.ltb_ge in E1; exact E1.
    + intros Hp; rewrite Hp in E2; cbn in E2; zbool; done.
Qed.

Section Accepted.
Context {UT : UnicodeTables} {RE : RegexEngine} {AC : AhoCorasick} {SHA : Sha256} {LINT : EditorialLint}.
Variables (engine : RewriteEngine) (sched : Schedule).

(** The evaluator assessed exactly these texts, passed them, and was
    confident enough. *)
Definition meaning_kept (u : RewriteUnit) (restored : text) (options : RewriteOptions) : Prop :=
  let a := evaluate (semantic engine) (unit_text u) restored (mode options) in
  SemanticAssessment.validate a = Ok tt /\
  evidence_matches a (unit_id u) (unit_text u) restored = true /\
  SemanticAssessment.status a = Pass /\
  exists v, SemanticAssessment.confidence a = Some v /\
            f32_le (minimum_semantic_confidence options) v = true.

(** The restored text came from this candidate through the protection plan. *)
Definition came_from (plan : ProtectionPlan) (c : GeneratedCandidate) (restored : text) : Prop :=
  match text_kind c with
  | Raw => restored = cand_text c /\ exists masked, mask_raw_candidate plan restored = Ok masked
  | Masked => restore plan (cand_text c) = Ok restored
  end.

(** The generator offered this candidate for the unit. *)
Definition offered (options : RewriteOptions) (u : RewriteUnit) (plan : ProtectionPlan)
    (c : GeneratedCandidate) : Prop :=
  exists n n' cs, generate (generator engine) (unit_request u plan options) sched n = (Ok cs, n') /\ c ∈ cs.

(** What it takes for a candidate to be eligible for a unit. *)
Record accepted (options : RewriteOptions) (u : RewriteUnit) (restored : text) : Prop := {
  acc_protection : exists plan c,
    build (unit_text u) (protected_terms options) = Ok plan /\ offered options u plan c /\
    candidate_contract_is_valid c = true /\ cand_unit_id c = unit_id u /\ came_from plan c restored;
  acc_structure : structure engine u restored = Preserved;
  acc_layout : layout_met (unit_text u) restored options;
  acc_meaning : meaning_kept u restored options
}.

Lemma semantic_gate_passed (u : RewriteUnit) (restored : text) (options : RewriteOptions) gate reason :
  semantic_gate engine (unit_id u) (unit_text u) restored options = (gate, true, reason) ->
  meaning_kept u restored options /\ GateResult.status gate = Pass.
Proof.
  unfold semantic_gate, meaning_kept, invalid_semantic_gate; cbv zeta; set (a := evaluate _ _ _ _).
  destruct (negb _ || negb _) eqn:E; [intros H; discriminate H |].
  set (g := if negb _ && _ then _ else _).
  destruct (negb (is_ok (GateResult.validate g))); [intros H; discriminate H |]; intros H; injection H as Hg Hp _.
  apply orb_false_iff in E as [E1 E2]; apply negb_false_iff in E1, E2.
  apply andb_true_iff in Hp as [Hs Hc].
  assert (Hgate : GateResult.status g = SemanticAssessment.status a).
  { subst g; rewrite Hs, Hc; reflexivity. }
  apply bool_decide_eq_true in Hs; split; [| rewrite <- Hg, Hgate; exact Hs]; split_and!; try done.
  - destruct (SemanticAssessment.validate a) as [[]| |]; done.
  - destruct (SemanticAssessment.confidence a) as [v|]; [| done]; eauto.
Qed.

Lemma assess_restored_cases (u : RewriteUnit) (c : GeneratedCandidate) (r : text) (options : RewriteOptions)
    (gates : list GateResult.t) :
  let ev := assess_restored engine u c r options gates in
  restored (candidate ev) = r /\
  CandidateAssessment.candidate_id (assessment ev) = cand_id c /\
  cand_id (generated (candidate ev)) = cand_id c /\
  (CandidateAssessment.eligible (assessment ev) = true ->
   structure engine u r = Preserved /\ layout_met (unit_text u) r options /\ meaning_kept u r options) /\
  (CandidateAssessment.eligible (assessment ev) = false -> is_Some (eval_reason ev)).
Proof.
  cbv zeta; unfold assess_restored; destruct (retained_gate _) as [sg sr].
  destruct (bool_decide (structure engine u r = Preserved)) eqn:Es; cbn [negb];
    [| split_and!; try done; cbn; eauto]; apply bool_decide_eq_true in Es.
  pose proof (layout_gate_met u r options) as Hl.
  assert (Hsem : forall gates', let '(gate, passed, reason) :=
      semantic_gate engine (unit_id u) (unit_text u) r options in
    let ev := if negb passed then ineligible c (unit_id u) r (gates' gate) reason
      else {| assessment := CandidateAssessment.mk (cand_id (final_rank c (unit_text u) r))
                (cand_unit_id (final_rank c (unit_text u) r)) true (gates' gate);
              candidate := {| generated := final_rank c (unit_text u) r; restored := r |};
              eval_reason := None |} in
    restored (candidate ev) = r /\ CandidateAssessment.candidate_id (assessment ev) = cand_id c /\
    cand_id (generated (candidate ev)) = cand_id c /\
    (CandidateAssessment.eligible (assessment ev) = true -> meaning_kept u r options) /\
    (CandidateAssessment.eligible (assessment ev) = false -> is_Some (eval_reason ev))).
  { intros gates'; destruct (semantic_gate _ _ _ _ _) as [[gate passed] reason] eqn:Eg.
    destruct passed; cbn [negb]; split_and!; try done; cbn; eauto.
    intros _; eapply semantic_gate_passed; exact Eg. }
  destruct (validate_layout_constraints u r options) as [[lg lr]|].
  - destruct (bool_decide (GateResult.status lg = Pass)) eqn:El; cbn [negb];
      [| split_and!; try done; cbn; eauto]; apply bool_decide_eq_true in El.
    specialize (Hsem (fun gate => attach_claim_shadow engine (unit_id u) (unit_text u) r
      (((gates ++ [annotate_structure_gate sg (structure engine u r) (unit_text u) r]) ++ [lg]) ++ [gate]))).
    destruct (semantic_gate _ _ _ _ _) as [[gate passed] reason]; destruct Hsem as (? & ? & ? & Hm & ?).
    split_and!; try done; intros He; split_and!; auto.
  - specialize (Hsem (fun gate => attach_claim_shadow engine (unit_id u) (unit_text u) r
      ((gates ++ [annotate_structure_gate sg (structure engine u r) (unit_text u) r]) ++ [gate]))).
    destruct (semantic_gate _ _ _ _ _) as [[gate passed] reason]; destruct Hsem as (? & ? & ? & Hm & ?).
    split_and!; try done; intros He; split_and!; auto.
Qed.

Lemma metadata_cases (u : RewriteUnit) (c : GeneratedCandidate) :
  match validate_candidate_metadata u c [] with
  | inl gates => cand_unit_id c = unit_id u /\ candidate_contract_is_valid c = true /\
      gates = [GateResult.pass UNIT_GATE; GateResult.pass CANDIDATE_GATE]
  | inr ev => CandidateAssessment.eligible (assessment ev) = false /\ is_Some (eval_reason ev) /\
      CandidateAssessment.candidate_id (assessment ev) = cand_id c
  end.
Proof.
  unfold validate_candidate_metadata; destruct (bool_decide _) eqn:E1; cbn [negb]; [| cbn; eauto].
  destruct (candidate_contract_is_valid c) eqn:E2; cbn [negb]; [| cbn; eauto].
  apply bool_decide_eq_true in E1; done.
Qed.

(** An eligible candidate passed every gate; any other has a reason. *)
Lemma assess_candidate_cases (u : RewriteUnit) (c : GeneratedCandidate) (plan : ProtectionPlan)
    (options : RewriteOptions) (ev : EvaluatedCandidate) :
  build (unit_text u) (protected_terms options) = Ok plan -> offered options u plan c ->
  assess_candidate engine u c plan options = Ok ev ->
  CandidateAssessment.candidate_id (assessment ev) = cand_id c /\
  (CandidateAssessment.eligible (assessment ev) = true ->
     cand_id (generated (candidate ev)) = cand_id c /\ accepted options u (restored (candidate ev)) /\
     came_from plan c (restored (candidate ev))) /\
  (CandidateAssessment.eligible (assessment ev) = false -> is_Some (eval_reason ev)).
Proof.
  intros Hb Hoff; pose proof (build_ok _ _ _ Hb) as (Hok & _).
  unfold assess_candidate; pose proof (metadata_cases u c) as Hm.
  destruct (validate_candidate_metadata u c []) as [gates | ev']; [| intros [= <-];
    destruct Hm as (-> & ? & ?); done].
  destruct Hm as (Hu & Hc & _).
  assert (Hgoal : forall masked r, came_from plan c r ->
    restore plan masked = Ok r -> forall gates',
    let ev := assess_restored engine u c r options gates' in
    CandidateAssessment.candidate_id (assessment ev) = cand_id c /\
    (CandidateAssessment.eligible (assessment ev) = true ->
     cand_id (generated (candidate ev)) = cand_id c /\ accepted options u (restored (candidate ev)) /\
     came_from plan c (restored (candidate ev))) /\
    (CandidateAssessment.eligible (assessment ev) = false -> is_Some (eval_reason ev))).
  { intros masked r Hfrom Hr gates'; cbv zeta.
    destruct (assess_restored_cases u c r options gates') as (Hres & Hid & Hgid & Helig & Hreason).
    rewrite Hres; split_and!; try done; intros He; split_and!; try done.
    destruct (Helig He) as (? & ? & ?); split; try done; exists plan, c; done. }
  destruct (text_kind c) eqn:Ek.
  - destruct (validate_masked plan (cand_text c)) as [[]|e|]; cbn [mbind result_bind];
      [| unfold reject_unprotected; intros H; apply bind_ok in H as (g & _ & [= <-]); cbn; split_and!; [done | done | eauto] |].
    + destruct (restore plan (cand_text c)) as [r|e|] eqn:Er; intros H; try discriminate H;
        injection H as <-; [| cbn; split_and!; [done | done | eauto]].
      apply (Hgoal (cand_text c)); [unfold came_from; rewrite Ek; done | done].
    + done.
  - destruct (mask_raw_candidate plan (cand_text c)) as [m|e|] eqn:Em; [| | done].
    + rewrite (mask_restore _ _ _ Hok Em); intros [= <-].
      apply (Hgoal m); [unfold came_from; rewrite Ek; split; [done | eauto] |].
      exact (mask_restore _ _ _ Hok Em).
    + unfold reject_unprotected; rewrite Ek; intros H; apply bind_ok in H as (g & _ & [= <-]); cbn; split_and!; [done | done | eauto].
Qed.
End Accepted.

(** The edits that replace each unit by its restored text, where it differs. *)
Fixpoint changed (units : list RewriteUnit) (rs : list text) : list AcceptedEdit :=
  match units, rs with
  | u :: units', r :: rs' =>
      (if text_eqb r (unit_text u) then [] else [{| edit_unit_id := unit_id u; replacement := r |}])
      ++ changed units' rs'
  | _, _ => []
  end.

(** A generator that polls the signal never un-polls it. *)
Definition polls_forward (g : CandidateGenerator) : Prop :=
  forall request sched n, (n <= snd (generate g request sched n))%nat.

Section Runs.
Context {UT : UnicodeTables} {RE : RegexEngine} {AC : AhoCorasick} {SHA : Sha256} {LINT : EditorialLint}.
Variables (engine : RewriteEngine) (sched : Schedule).

Lemma candidate_loop_spec u plan options st polls cs st' cancelled polls' :
  build (unit_text u) (protected_terms options) = Ok plan -> Forall (offered engine sched options u plan) cs ->
  Forall (fun e => accepted engine sched options u (restored e)) (eligible st) ->
  candidate_loop engine sched u plan options st polls cs = Ok (st', cancelled, polls') ->
  Forall (fun e => accepted engine sched options u (restored e)) (eligible st') /\
  (polls + length (unit_assessments st') = polls' + length (unit_assessments st))%nat /\
  (length (unit_assessments st) <= length (unit_assessments st'))%nat.
Proof.
  intros Hb Hoff; revert st polls; induction Hoff as [|c cs Hc Hoff IH]; intros st polls Hst; cbn [candidate_loop].
  { intros [= <- <- <-]; split_and!; done || lia. }
  intros H; apply bind_ok in H as (ev & Hev & H).
  destruct (assess_candidate_cases engine sched u c plan options ev Hb Hc Hev) as (_ & Helig & _).
  assert (Hst' : Forall (fun e => accepted engine sched options u (restored e)) (eligible (record_candidate st ev))).
  { unfold record_candidate; cbn [eligible]; destruct (CandidateAssessment.eligible _) eqn:E; [| done].
    apply Forall_app; split; [done |]; constructor; [apply Helig; done | constructor]. }
  assert (Hlen : length (unit_assessments (record_candidate st ev)) = S (length (unit_assessments st))).
  { cbn [record_candidate unit_assessments]; rewrite length_app; cbn; lia. }
  destruct (sched polls).
  - injection H as <- <- <-; split_and!; [done | lia | lia].
  - destruct (IH _ _ Hst' H) as (? & ? & ?); split_and!; [done | lia | lia].
Qed.

Definition is_abstention (o : EngineOutcome) : Prop :=
  out_status o = Abstained /\ is_Some (out_reason o) /\ edits o = [] /\ selected_candidates o = [].

Lemma abstained_spec r l : is_abstention (abstained r l).
Proof. split_and!; cbn; eauto. Qed.

Lemma evaluate_unit_spec u options asm polls result polls' :
  evaluate_unit engine sched u options asm polls = Ok (result, polls') ->
  match result with
  | inr outcome => is_abstention outcome
  | inl progress =>
      (exists r, accepted engine sched options u r /\
        progress_replacement progress = if text_eqb r (unit_text u) then None else Some r) /\
      (polls_forward (generator engine) ->
       polls + 3 + length (progress_assessments progress) <= polls' + length asm)%nat
  end.
Proof.
  unfold evaluate_unit; destruct (sched polls); [intros [= <- <-]; apply abstained_spec |].
  destruct (build _ _) as [plan|e|] eqn:Hb; [| destruct e; try done; intros [= <- <-]; apply abstained_spec | done].
  destruct (sched (S polls)); [intros [= <- <-]; apply abstained_spec |].
  destruct (generate _ _ _ _) as [res polls1] eqn:Hg; destruct res as [cs|e|]; [| | done].
  2:{ destruct e; [| done]; intros [= <- <-]; apply abstained_spec. }
  destruct (sched polls1); [intros [= <- <-]; apply abstained_spec |].
  destruct (candidate_batch_reason _ _); [intros [= <- <-]; apply abstained_spec |].
  intros H; apply bind_ok in H as ([[st cancelled] polls2] & Hl & H).
  apply candidate_loop_spec in Hl as (Hel & Hpolls & Hmore);
    [| done | apply Forall_forall; intros c Hc; unfold offered; eauto | constructor].
  cbn [unit_assessments] in *; destruct cancelled; [injection H as <- <-; apply abstained_spec |].
  destruct (max_by _ _) as [item|] eqn:Hmax; injection H as <- <-; [| apply abstained_spec].
  split; cbn [progress_replacement progress_assessments].
  - apply max_by_spec in Hmax as [Hin _]; [| apply (cmp_ok_key generated), compare_candidates_ok].
    rewrite Forall_forall in Hel; exists (restored item); split; [auto | done].
  - intros Hf; match type of Hg with generate _ ?req _ _ = _ => pose proof (Hf req sched (S (S polls))) as Hp end.
    rewrite Hg in Hp; cbn [snd] in Hp; lia.
Qed.

Lemma unit_loop_spec options st polls units result polls' :
  unit_loop engine sched options st polls units = Ok (result, polls') ->
  match result with
  | inr outcome => is_abstention outcome
  | inl st' =>
      (exists rs, Forall2 (accepted engine sched options) units rs /\
        run_edits st' = run_edits st ++ changed units rs) /\
      length (run_selected st') = (length (run_selected st) + length units)%nat /\
      (polls_forward (generator engine) ->
       polls + 3 * length units + length (run_assessments st')
       <= polls' + length (run_assessments st))%nat
  end.
Proof.
  revert st polls; induction units as [|u units IH]; intros st polls; cbn [unit_loop].
  { intros [= <- <-]; split_and!; [| cbn; lia | intros; cbn; lia].
    exists []; split; [constructor | cbn [changed]; rewrite app_nil_r; done]. }
  intros H; apply bind_ok in H as ([res polls1] & Hu & H).
  apply evaluate_unit_spec in Hu; destruct res as [progress | outcome]; [| injection H as <- <-; done].
  destruct Hu as [(r & Hacc & Hrep) Hpolls]; apply IH in H; destruct result as [st' | outcome]; [| done].
  cbn [run_edits run_assessments run_selected] in H; destruct H as ((rs & Hrs & Hed) & Hsel & Hp).
  split_and!.
  - exists (r :: rs); split; [constructor; done |]; rewrite Hed, Hrep; cbn [changed].
    destruct (text_eqb r (unit_text u)); [reflexivity | rewrite <- app_assoc; reflexivity].
  - rewrite Hsel, length_app; cbn [length]; lia.
  - intros Hf; specialize (Hpolls Hf); specialize (Hp Hf); cbn [length]; lia.
Qed.

(** The two shapes of an outcome. *)
Lemma run_cases document options outcome polls :
  run_counted engine sched document options = Ok (outcome, polls) ->
  is_abstention outcome \/
  (out_reason outcome = None /\
   (exists rs, Forall2 (accepted engine sched options) (DocumentIr.rewrite_units document) rs /\
      edits outcome = changed (DocumentIr.rewrite_units document) rs) /\
   length (selected_candidates outcome) = length (DocumentIr.rewrite_units document) /\
   out_status outcome = (if negb (vlen (edits outcome) =? 0) then Rewritten
                         else if vlen (DocumentIr.rewrite_units document) =? 0
                         then UnchangedNoEligibleContent else UnchangedIdentical) /\
   (0 < polls)%nat /\ sched (pred polls) = false /\
   (polls_forward (generator engine) -> DocumentIr.rewrite_units document <> [] ->
    2 + 3 * length (DocumentIr.rewrite_units document) + length (assessments outcome) <= polls)%nat).
Proof.
  unfold run_counted; intros H; apply bind_ok in H as (_ & _ & H); apply bind_ok in H as (_ & _ & H).
  destruct (negb _); [injection H as <- <-; left; apply abstained_spec |].
  destruct (sched 0%nat) eqn:E0; [injection H as <- <-; left; apply abstained_spec |].
  destruct (Z.eqb_spec (vlen (DocumentIr.rewrite_units document)) 0) as [Hz | Hz].
  - injection H as <- <-; right; destruct (DocumentIr.rewrite_units document) as [|u units];
      [| unfold vlen in Hz; cbn [length] in Hz; lia].
    split_and!; try done; [| lia]; exists []; split; [constructor | done].
  - apply bind_ok in H as ([res polls1] & Hl & H); apply unit_loop_spec in Hl.
    destruct res as [st | o]; [| injection H as <- <-; left; done].
    destruct Hl as ((rs & Hrs & Hed) & Hsel & Hp); cbn [run_edits run_selected run_assessments app length] in *.
    destruct (sched polls1) eqn:E1; injection H as <- <-; [left; apply abstained_spec | right].
    cbn [out_reason edits selected_candidates out_status assessments pred].
    split_and!; [done | exists rs; done | lia | reflexivity | lia | done |].
    intros Hf _; specialize (Hp Hf); lia.
Qed.
End Runs.

(** ** Lemmas: every gate the engine builds meets the evidence contract *)

Abbreviation valid_gate := (fun g => GateResult.validate g = Ok tt).
Abbreviation allows := CandidateAssessment.gate_allows.

Lemma details_checked (fs : list SpanFailure) d :
  details fs = Some d -> validate_gate_details (Some d) = Ok tt.
Proof.
  unfold details; destruct (_ =? 0); [done |]; unfold GateEvidence.new, GateEvidence.validate.
  cbn [GateEvidence.code GateEvidence.message GateEvidence.details].
  change (validate_code (lit "span_failures")) with (@Ok EvidenceContractError unit tt); cbn [mbind result_bind].
  change ((slen (lit "redacted span locations") =? 0)
          || (MAX_GATE_EVIDENCE_MESSAGE_BYTES <? slen (lit "redacted span locations"))
          || existsb is_control (lit "redacted span locations")) with false.
  cbv iota; destruct (validate_gate_details (Some (SpanFailures fs))) as [[]| |] eqn:E; cbn; [| done | done].
  intros [= <-]; exact E.
Qed.

Lemma attach_valid (g : GateResult.t) (d : option GateEvidenceDetails) :
  valid_gate g -> (forall x, d = Some x -> validate_gate_details (Some x) = Ok tt) ->
  valid_gate (attach_span_details g d).
Proof.
  intros Hg Hd; unfold attach_span_details; destruct d as [x|]; [| done].
  destruct (GateResult.evidence g) as [|e rest] eqn:Ee; [done |].
  unfold GateResult.validate in *; cbn [GateResult.gate_id GateResult.gate_version GateResult.confidence GateResult.evidence].
  apply bind_ok in Hg as (? & -> & Hg); apply bind_ok in Hg as (? & -> & Hg); apply bind_ok in Hg as (? & -> & Hg).
  cbn [mbind result_bind]; rewrite Ee in Hg.
  assert (Hlen : forall y, vlen (y :: rest) = vlen (e :: rest)) by done; rewrite Hlen.
  destruct (_ <? _); [done |]; apply try_for_each_ok in Hg; apply try_for_each_ok.
  inversion_clear Hg as [| ? ? He Hrest]; constructor; [| done].
  unfold GateEvidence.validate in *; cbn [GateEvidence.code GateEvidence.message GateEvidence.details].
  apply bind_ok in He as (? & -> & He); cbn [mbind result_bind].
  destruct (_ || _); [done |]; apply Hd; reflexivity.
Qed.

Lemma attach_allows (g : GateResult.t) (d : option GateEvidenceDetails) :
  allows (attach_span_details g d) = allows g.
Proof. unfold attach_span_details; destruct d, (GateResult.evidence g); reflexivity. Qed.

Lemma summary_counts (vs : list ProtectedValue) (a b c d n : Z) :
  0 <= a -> 0 <= b -> 0 <= c -> 0 <= d -> n = a + b + c + d -> n + vlen vs <= u32_max ->
  exists a' b' c' d', 0 <= a' /\ 0 <= b' /\ 0 <= c' /\ 0 <= d' /\ a' + b' + c' + d' <= u32_max /\
    foldl count_value (InvariantEvidenceSummary.mk a b c d n) vs
    = InvariantEvidenceSummary.mk a' b' c' d' (a' + b' + c' + d').
Proof.
  revert a b c d n; induction vs as [|v vs IH]; intros a b c d n Ha Hb Hc Hd -> Hn.
  { exists a, b, c, d; split_and!; try done; unfold vlen in Hn; cbn in Hn; lia. }
  pose proof (vlen_nonneg vs); rewrite vlen_cons in Hn; cbn [foldl count_value].
  unfold saturating_add; destruct (value_kind v); rewrite !Z.min_r by lia; apply IH; lia.
Qed.

Lemma protected_gate_valid (plan : ProtectionPlan) :
  vlen (values plan) <= MAX_PROTECTED_OCCURRENCES -> valid_gate (protected_values_pass plan).
Proof.
  intros H; unfold protected_values_pass.
  destruct (summary_counts (values plan) 0 0 0 0 0) as (a & b & c & d & Ha & Hb & Hc & Hd & Hs & ->);
    [lia | lia | lia | lia | lia | unfold MAX_PROTECTED_OCCURRENCES, u32_max in *; lia |].
  unfold GateResult.validate; cbn [GateResult.gate_id GateResult.gate_version GateResult.confidence GateResult.evidence].
  change (validate_code PROTECTED_GATE) with (@Ok EvidenceContractError unit tt).
  change (validate_version (lit "1")) with (@Ok EvidenceContractError unit tt); cbn [mbind result_bind validate_confidence].
  match goal with |- (if ?b then _ else _) = _ => change b with false end; cbn [try_for_each].
  unfold GateEvidence.validate; cbn [GateEvidence.code GateEvidence.message GateEvidence.details].
  change (validate_code (lit "invariant_counts")) with (@Ok EvidenceContractError unit tt); cbn [mbind result_bind].
  match goal with |- context [if ?b then _ else _] => change b with false end.
  cbn [validate_gate_details]; unfold InvariantEvidenceSummary.validate.
  cbn [InvariantEvidenceSummary.declared_terms InvariantEvidenceSummary.urls InvariantEvidenceSummary.emails
       InvariantEvidenceSummary.numbers InvariantEvidenceSummary.total].
  unfold checked_add; rewrite (proj2 (Z.leb_le (a + b) _)) by lia; cbn [mbind option_bind].
  rewrite (proj2 (Z.leb_le (a + b + c) _)) by lia; cbn [mbind option_bind].
  rewrite (proj2 (Z.leb_le (a + b + c + d) _)) by lia; cbn [ok_or mbind result_bind].
  rewrite Z.eqb_refl; reflexivity.
Qed.

Lemma assessment_valid_true id u gates :
  CandidateId.is_scoped_to id u = true -> gates <> [] -> vlen gates <= MAX_GATES_PER_CANDIDATE ->
  Forall (fun g => valid_gate g /\ allows g = true) gates ->
  CandidateAssessment.validate (CandidateAssessment.mk id u true gates) = Ok tt.
Proof.
  intros Hs Hne Hlen Hg; unfold CandidateAssessment.validate.
  cbn [CandidateAssessment.candidate_id CandidateAssessment.unit_id CandidateAssessment.gates CandidateAssessment.eligible].
  rewrite Hs, (proj2 (Z.ltb_ge _ _) Hlen); cbn [negb].
  rewrite (proj2 (try_for_each_ok _ _)) by (eapply Forall_impl; [exact Hg |]; intros g [? _]; done).
  cbn [mbind result_bind].
  rewrite (proj2 (forallb_forall _ _)).
  - destruct gates; [done |]; rewrite vlen_cons.
    pose proof (vlen_nonneg gates); rewrite (proj2 (Z.eqb_neq _ _)) by lia; reflexivity.
  - intros g Hin; rewrite Forall_forall in Hg; apply Hg, list_elem_of_In; done.
Qed.

Lemma assessment_valid_false id u pre g post :
  CandidateId.is_scoped_to id u = true -> vlen (pre ++ g :: post) <= MAX_GATES_PER_CANDIDATE ->
  Forall valid_gate (pre ++ g :: post) -> allows g = false ->
  CandidateAssessment.validate (CandidateAssessment.mk id u false (pre ++ g :: post)) = Ok tt.
Proof.
  intros Hs Hlen Hv Hg; unfold CandidateAssessment.validate.
  cbn [CandidateAssessment.candidate_id CandidateAssessment.unit_id CandidateAssessment.gates CandidateAssessment.eligible].
  rewrite Hs, (proj2 (Z.ltb_ge _ _) Hlen); cbn [negb].
  rewrite (proj2 (try_for_each_ok _ _) Hv); cbn [mbind result_bind].
  rewrite forallb_app; cbn [forallb]; rewrite Hg, !andb_false_r; reflexivity.
Qed.

Lemma rejected_valid id u pre g :
  CandidateId.is_scoped_to id u = true -> vlen pre <= 10 -> Forall valid_gate pre ->
  valid_gate g /\ allows g = false ->
  CandidateAssessment.validate (CandidateAssessment.mk id u false (pre ++ [g])) = Ok tt.
Proof.
  intros Hs Hl Hp [Hv Ha]; apply assessment_valid_false; try done.
  - rewrite vlen_app; change (vlen [g]) with 1; unfold MAX_GATES_PER_CANDIDATE; lia.
  - apply Forall_app; split; [done | repeat constructor; done].
Qed.

Section Validity.
Context {UT : UnicodeTables} {RE : RegexEngine} {AC : AhoCorasick} {SHA : Sha256} {LINT : EditorialLint}.
Variable engine : RewriteEngine.

Lemma shadow_gates u source candidate gates :
  exists shadow, attach_claim_shadow engine u source candidate gates = gates ++ shadow /\
    vlen shadow <= 1 /\ Forall (fun g => valid_gate g /\ allows g = true) shadow.
Proof.
  unfold attach_claim_shadow; destruct (claim_shadow engine) as [o|];
    [| exists []; rewrite app_nil_r; split_and!; [done | vm_compute; done | constructor]].
  destruct (shadow_gate o u source candidate) as [g|] eqn:E;
    [| exists []; rewrite app_nil_r; split_and!; [done | vm_compute; done | constructor]].
  apply shadow_gate_info in E as [Hi Hv]; exists [g]; split_and!; [done | vm_compute; done |].
  repeat constructor; [done |]; unfold CandidateAssessment.gate_allows; rewrite Hi; reflexivity.
Qed.

Lemma structure_gate_spec structured source restored :
  let g := annotate_structure_gate (fst (retained_gate structured)) structured source restored in
  valid_gate g /\ allows g = bool_decide (structured = Preserved).
Proof.
  cbv zeta; destruct structured; cbn [retained_gate fst annotate_structure_gate].
  - split; vm_compute; reflexivity.
  - rewrite attach_allows; split; [| reflexivity]; apply attach_valid; [vm_compute; reflexivity |].
    intros x Hx; exact (details_checked _ _ Hx).
  - rewrite attach_allows; split; [| reflexivity]; apply attach_valid; [vm_compute; reflexivity |].
    intros x Hx; exact (details_checked _ _ Hx).
Qed.

Lemma layout_gate_valid u restored options gate reason :
  validate_layout_constraints u restored options = Some (gate, reason) ->
  valid_gate gate /\ allows gate = bool_decide (GateResult.status gate = Pass).
Proof.
  unfold validate_layout_constraints; destruct (layout options) as [l|]; [| done].
  cbn [mbind option_bind]; intros H.
  repeat (match type of H with
    | context [match ?x with Some _ => _ | None => _ end] => destruct x
    | context [if ?x then _ else _] => destruct x
    end); injection H as <- <-; (split; vm_compute; reflexivity).
Qed.

Lemma invalid_semantic_valid : valid_gate (fst (fst invalid_semantic_gate)).
Proof. vm_compute; reflexivity. Qed.

Lemma semantic_gate_valid u source candidate options :
  SemanticAssessment.status (evaluate (semantic engine) source candidate (mode options)) <> NotApplicable ->
  let '(gate, passed, _) := semantic_gate engine u source candidate options in
  valid_gate gate /\ allows gate = passed.
Proof.
  intros Hna; unfold semantic_gate; cbv zeta; set (a := evaluate _ _ _ _) in *.
  destruct (negb _ || negb _); [split; [apply invalid_semantic_valid | reflexivity] |].
  set (passed := bool_decide (SemanticAssessment.status a = Pass) && _).
  set (g0 := GateResult.mk SEMANTIC_GATE _ _ _ _ _); set (g := if negb passed && _ then _ else g0).
  destruct (is_ok (GateResult.validate g)) eqn:Ev; cbn [negb];
    [| split; [apply invalid_semantic_valid | reflexivity]].
  split; [destruct (GateResult.validate g) as [[]| |]; done |].
  assert (Hg : allows g = allows g0) by (subst g; destruct (negb passed && _); [apply attach_allows | reflexivity]).
  rewrite Hg; subst g0; unfold CandidateAssessment.gate_allows; cbn [GateResult.severity GateResult.status].
  rewrite bool_decide_eq_true_2 by done; cbn [negb orb]; subst passed.
  destruct (SemanticAssessment.status a); try done; cbn [bool_decide andb negb];
    destruct (match SemanticAssessment.confidence a with Some _ => _ | None => _ end); try done.
Qed.

Lemma assess_restored_valid u c r options plan :
  CandidateId.is_scoped_to (cand_id c) (unit_id u) = true -> cand_unit_id c = unit_id u ->
  vlen (values plan) <= MAX_PROTECTED_OCCURRENCES ->
  SemanticAssessment.status (evaluate (semantic engine) (unit_text u) r (mode options)) <> NotApplicable ->
  CandidateAssessment.validate (assessment (assess_restored engine u c r options
    [GateResult.pass UNIT_GATE; GateResult.pass CANDIDATE_GATE; GateResult.pass SENTINEL_GATE;
     protected_values_pass plan])) = Ok tt.
Proof.
  intros Hscope Hunit Hvals Hna; unfold assess_restored.
  set (G := [GateResult.pass UNIT_GATE; _; _; _]).
  assert (HG : Forall (fun g => valid_gate g /\ allows g = true) G /\ vlen G = 4).
  { split; [| reflexivity]; subst G; do 3 (constructor; [split; vm_compute; reflexivity |]).
    constructor; [split; [apply protected_gate_valid; done | reflexivity] | constructor]. }
  destruct HG as [HG Hlen]; clearbody G.
  assert (HGv : Forall valid_gate G) by (eapply Forall_impl; [exact HG |]; intros g [? _]; done).
  pose proof (structure_gate_spec (structure engine u r) (unit_text u) r) as Hst.
  destruct (retained_gate (structure engine u r)) as [sg sr]; cbn [fst] in Hst.
  set (st := annotate_structure_gate _ _ _ _) in *; destruct Hst as [Hsv Hsa].
  destruct (bool_decide (structure engine u r = Preserved)) eqn:Es; cbn [negb].
  2:{ destruct (shadow_gates (unit_id u) (unit_text u) r (G ++ [st])) as (sh & -> & Hsl & Hsh).
      rewrite <- app_assoc; apply assessment_valid_false; try done.
      - rewrite vlen_app, vlen_cons, Hlen; unfold MAX_GATES_PER_CANDIDATE; lia.
      - apply Forall_app; split; [done |]; constructor; [done |].
        eapply Forall_impl; [exact Hsh |]; intros g [? _]; done. }
  assert (HG1 : Forall (fun g => valid_gate g /\ allows g = true) (G ++ [st])).
  { apply Forall_app; split; [done | repeat constructor; done]. }
  assert (Hfin : forall G', Forall (fun g => valid_gate g /\ allows g = true) G' -> vlen G' <= 6 ->
    CandidateAssessment.validate (assessment (let '(gate, passed, reason) :=
        semantic_gate engine (unit_id u) (unit_text u) r options in
      let gates := attach_claim_shadow engine (unit_id u) (unit_text u) r (G' ++ [gate]) in
      if negb passed then ineligible c (unit_id u) r gates reason
      else {| assessment := CandidateAssessment.mk (cand_id (final_rank c (unit_text u) r))
                (cand_unit_id (final_rank c (unit_text u) r)) true gates;
              candidate := {| generated := final_rank c (unit_text u) r; restored := r |};
              eval_reason := None |})) = Ok tt).
  { intros G' HG' Hl'; pose proof (semantic_gate_valid (unit_id u) (unit_text u) r options Hna) as Hsem.
    destruct (semantic_gate _ _ _ _ _) as [[gate passed] reason]; destruct Hsem as [Hgv Hga].
    destruct (shadow_gates (unit_id u) (unit_text u) r (G' ++ [gate])) as (sh & Heq & Hsl & Hsh); cbv zeta; rewrite Heq.
    rewrite <- app_assoc; destruct passed; cbn [negb].
    - cbn [assessment final_rank cand_id cand_unit_id]; rewrite Hunit; apply assessment_valid_true; try done.
      + destruct G'; done.
      + rewrite vlen_app, vlen_app; unfold MAX_GATES_PER_CANDIDATE; change (vlen [gate]) with 1; lia.
      + apply Forall_app; split; [done |]; constructor; done.
    - apply assessment_valid_false; try done.
      + rewrite vlen_app, vlen_cons; unfold MAX_GATES_PER_CANDIDATE; lia.
      + apply Forall_app; split; [eapply Forall_impl; [exact HG' |]; intros g [? _]; done |].
        constructor; [done |]; eapply Forall_impl; [exact Hsh |]; intros g [? _]; done. }
  destruct (validate_layout_constraints u r options) as [[lg lr]|] eqn:El;
    [| apply Hfin; [done |]; rewrite vlen_app, Hlen; change (vlen [st]) with 1; lia].
  apply layout_gate_valid in El as [Hlv Hla].
  destruct (bool_decide (GateResult.status lg = Pass)) eqn:Ep; cbn [negb].
  - apply Hfin; [apply Forall_app; split; [done | repeat constructor; done] |].
    rewrite !vlen_app, Hlen; change (vlen [st]) with 1; change (vlen [lg]) with 1; lia.
  - apply (assessment_valid_false _ _ (G ++ [st]) lg []); try done.
    + rewrite !vlen_app, Hlen; change (vlen [st]) with 1; change (vlen [lg]) with 1; vm_compute; done.
    + apply Forall_app; split; [eapply Forall_impl; [exact HG1 |]; intros g [? _]; done | repeat constructor; done].
Qed.

Lemma protection_failure_valid id error :
  id = SENTINEL_GATE \/ id = PROTECTED_GATE ->
  valid_gate (protection_failure id error) /\ allows (protection_failure id error) = false.
Proof. intros [-> | ->]; destruct error; split; vm_compute; reflexivity. Qed.

Lemma protection_details_checked {E} source candidate terms d x :
  @protection_details _ _ E source candidate terms = Ok d -> d = Some x ->
  validate_gate_details (Some x) = Ok tt.
Proof.
  unfold protection_details, ok_opt; intros H ->.
  destruct (protected_occurrences source terms); [| done | done].
  destruct (protected_occurrences candidate terms); [| done | done].
  apply bind_ok in H as (fs & _ & [= H]); exact (details_checked _ _ H).
Qed.

Lemma assess_candidate_valid u c plan options ev :
  CandidateId.is_scoped_to (cand_id c) (unit_id u) = true -> cand_unit_id c = unit_id u ->
  vlen (values plan) <= MAX_PROTECTED_OCCURRENCES ->
  (forall s r m, SemanticAssessment.status (evaluate (semantic engine) s r m) <> NotApplicable) ->
  assess_candidate engine u c plan options = Ok ev ->
  CandidateAssessment.validate (assessment ev) = Ok tt.
Proof.
  intros Hscope Hunit Hvals Hna; unfold assess_candidate, validate_candidate_metadata.
  rewrite (bool_decide_eq_true_2 _ Hunit); cbn [negb app].
  set (U := GateResult.pass UNIT_GATE); assert (HU : valid_gate U) by (vm_compute; reflexivity).
  set (F := GateResult.fail CANDIDATE_GATE _ _).
  assert (HF : valid_gate F /\ allows F = false) by (split; vm_compute; reflexivity).
  destruct (candidate_contract_is_valid c); cbn [negb].
  2:{ intros [= <-]; apply (rejected_valid _ _ [U]); try done; repeat constructor; done. }
  set (K := GateResult.pass CANDIDATE_GATE); assert (HK : valid_gate K) by (vm_compute; reflexivity).
  assert (Hrej : forall e ev', reject_unprotected c u options e [U; K] = Ok ev' ->
            CandidateAssessment.validate (assessment ev') = Ok tt).
  { intros e ev' H; unfold reject_unprotected in H; apply bind_ok in H as (g & Hg & [= <-]).
    destruct (protection_failure_valid SENTINEL_GATE e (or_introl eq_refl)) as [Hfv Hfa].
    assert (Hgate : valid_gate g /\ allows g = false).
    { assert (Hcase : g = protection_failure SENTINEL_GATE e \/
        exists d, @protection_details _ _ EngineError (unit_text u) (cand_text c) (protected_terms options) = Ok d /\
                  g = attach_span_details (protection_failure SENTINEL_GATE e) d).
      { destruct e, (text_kind c); try (injection Hg as <-; left; reflexivity).
        apply bind_ok in Hg as (d & Hd & [= <-]); eauto. }
      destruct Hcase as [-> | (d & Hd & ->)]; [done |].
      rewrite attach_allows; split; [| done]; apply attach_valid; [done |].
      intros x Hx; exact (protection_details_checked _ _ _ _ _ Hd Hx). }
    apply (rejected_valid _ _ [U; K]); try done; repeat constructor; done. }
  assert (Hres : forall m, match restore plan m with
      | Ok r => Ok (assess_restored engine u c r options
                      ([U; K; GateResult.pass SENTINEL_GATE] ++ [protected_values_pass plan]))
      | Err error => Ok (ineligible c (unit_id u) []
          ([U; K; GateResult.pass SENTINEL_GATE] ++ [protection_failure PROTECTED_GATE error])
          (protection_reason error))
      | Panic => Panic end = @Ok EngineError _ ev ->
    CandidateAssessment.validate (assessment ev) = Ok tt).
  { intros m; destruct (restore plan m) as [r|e|]; [| | done]; intros [= <-].
    - apply assess_restored_valid; done.
    - apply (rejected_valid _ _ [U; K; GateResult.pass SENTINEL_GATE]); try done;
        [repeat constructor; done | apply protection_failure_valid; right; done]. }
  destruct (text_kind c).
  - destruct (validate_masked plan (cand_text c)) as [[]|e|]; cbn [mbind result_bind]; [apply Hres | apply Hrej | done].
  - destruct (mask_raw_candidate plan (cand_text c)) as [m|e|]; [apply Hres | apply Hrej | done].
Qed.

Variable sched : Schedule.
Hypothesis evaluates : forall s r m, SemanticAssessment.status (evaluate (semantic engine) s r m) <> NotApplicable.

Abbreviation all_valid := (Forall (fun a => CandidateAssessment.validate a = Ok tt)).

Lemma candidate_loop_valid u plan options st polls cs st' cancelled polls' :
  vlen (values plan) <= MAX_PROTECTED_OCCURRENCES ->
  Forall (fun c => cand_unit_id c = unit_id u /\ CandidateId.is_scoped_to (cand_id c) (unit_id u) = true) cs ->
  all_valid (unit_assessments st) ->
  candidate_loop engine sched u plan options st polls cs = Ok (st', cancelled, polls') ->
  all_valid (unit_assessments st').
Proof.
  intros Hv Hcs; revert st polls; induction Hcs as [|c cs [Hc1 Hc2] Hcs IH]; intros st polls Hst;
    cbn [candidate_loop]; [intros [= <- <- <-]; done |].
  intros H; apply bind_ok in H as (ev & Hev & H).
  assert (Hst' : all_valid (unit_assessments (record_candidate st ev))).
  { cbn [record_candidate unit_assessments]; apply Forall_app; split; [done |].
    constructor; [eapply assess_candidate_valid; eauto | constructor]. }
  destruct (sched polls); [injection H as <- <- <-; done | exact (IH _ _ Hst' H)].
Qed.

Lemma evaluate_unit_valid u options asm polls result polls' :
  all_valid asm -> evaluate_unit engine sched u options asm polls = Ok (result, polls') ->
  match result with inl p => all_valid (progress_assessments p) | inr o => all_valid (assessments o) end.
Proof.
  intros Ha; unfold evaluate_unit; destruct (sched polls); [intros [= <- <-]; done |].
  destruct (build _ _) as [plan|e|] eqn:Hb; [| destruct e; try done; intros [= <- <-]; done | done].
  destruct (sched (S polls)); [intros [= <- <-]; done |].
  destruct (generate _ _ _ _) as [[cs|e|] polls1]; [| destruct e; [| done]; intros [= <- <-]; done | done].
  destruct (sched polls1); [intros [= <- <-]; done |].
  destruct (candidate_batch_reason _ _) eqn:Hr; [intros [= <- <-]; done |].
  apply candidate_batch_reason_None in Hr as (_ & _ & Hcs & _).
  intros H; apply bind_ok in H as ([[st cancelled] polls2] & Hl & H).
  apply build_ok in Hb as ([Hnd _] & Hm & _); apply mask_spec in Hm as (_ & Hv & _); [| done].
  apply candidate_loop_valid in Hl; [| done | done | done].
  destruct cancelled; [injection H as <- <-; done |].
  destruct (max_by _ _); injection H as <- <-; done.
Qed.

Lemma unit_loop_valid options st polls units result polls' :
  all_valid (run_assessments st) -> unit_loop engine sched options st polls units = Ok (result, polls') ->
  match result with inl s => all_valid (run_assessments s) | inr o => all_valid (assessments o) end.
Proof.
  revert st polls; induction units as [|u units IH]; intros st polls Ha; cbn [unit_loop]; [intros [= <- <-]; done |].
  intros H; apply bind_ok in H as ([res polls1] & Hu & H); apply evaluate_unit_valid in Hu; [| done].
  destruct res as [progress | outcome]; [| injection H as <- <-; done].
  eapply IH; [| exact H]; exact Hu.
Qed.

Lemma run_valid document options outcome polls :
  run_counted engine sched document options = Ok (outcome, polls) -> all_valid (assessments outcome).
Proof.
  unfold run_counted; intros H; apply bind_ok in H as (_ & _ & H); apply bind_ok in H as (_ & _ & H).
  destruct (negb _); [injection H as <- <-; constructor |].
  destruct (sched 0%nat); [injection H as <- <-; constructor |].
  destruct (_ =? 0); [injection H as <- <-; constructor |].
  apply bind_ok in H as ([res polls1] & Hl & H); apply unit_loop_valid in Hl; [| constructor].
  destruct res as [st | o]; [| injection H as <- <-; done].
  destruct (sched polls1); injection H as <- <-; done.
Qed.
End Validity.
