(* ===== verification/EngineProps.v ===== *)
(** * What the engine guarantees.

    Totality, transaction atomicity, cancellation, the validity of the audit
    records, and that a claim observer cannot influence a decision. *)

From S2P Require Import Prelude Text Regex Float32 Document TextSafety Rewrite Claims Evidence.
From S2P Require Import TextAdapter Extract Protection Semantic Policy ClaimCompare SpanReport Engine.

(** ** Lemmas: no panic *)

Section Total.
Context {UT : UnicodeTables} {RE : RegexEngine} {AC : AhoCorasick} {SHA : Sha256} {LINT : EditorialLint}.
Variables (engine : RewriteEngine) (sched : Schedule).
Hypothesis generates : forall request n, fst (generate (generator engine) request sched n) <> Panic.

Lemma bind_no_panic {E A B} (m : Result E A) (f : A -> Result E B) :
  m <> Panic -> (forall a, m = Ok a -> f a <> Panic) -> (m ≫= f) <> Panic.
Proof. destruct m; cbn; auto. Qed.

Lemma validate_masked_no_panic plan c : validate_masked plan c <> Panic.
Proof.
  pose proof (restore_no_panic plan c) as H; unfold validate_masked; unfold restore in H.
  destruct (indexed_sentinel_matches plan c); done.
Qed.

Lemma protected_occurrences_no_panic s terms : protected_occurrences s terms <> Panic.
Proof.
  unfold protected_occurrences; pose proof (collect_source_spans_safe s terms) as Hc.
  destruct (collect_source_spans s terms) as [spans| |]; [| done | done].
  exact (safe_no_panic _ _ (select_safe s spans Hc)).
Qed.

Lemma protection_details_no_panic {E} source candidate terms :
  @protection_details _ _ E source candidate terms <> Panic.
Proof.
  unfold protection_details, ok_opt.
  pose proof (protected_occurrences_no_panic source terms); destruct (protected_occurrences source terms) as [ss| |]; [| done | done].
  pose proof (protected_occurrences_no_panic candidate terms); destruct (protected_occurrences candidate terms) as [cs| |]; [| done | done].
  unfold diff_occurrences; cbv zeta.
  destruct (@match_sides_spec E (sides candidate cs) _ _ [] (sides source ss) (build_queues_ok _))
    as (m & us & -> & _); [intros s Hs; inversion Hs | done].
Qed.

Lemma assess_candidate_no_panic u c plan options : assess_candidate engine u c plan options <> Panic.
Proof.
  unfold assess_candidate; destruct (validate_candidate_metadata u c []) as [gates|]; [| done].
  assert (Hrej : forall e, reject_unprotected c u options e gates <> Panic).
  { intros e; unfold reject_unprotected; apply bind_no_panic; [| done].
    destruct e, (text_kind c); try done; apply bind_no_panic; [apply protection_details_no_panic | done]. }
  destruct (text_kind c).
  - pose proof (validate_masked_no_panic plan (cand_text c)).
    destruct (validate_masked plan (cand_text c)); cbn [mbind result_bind]; [| apply Hrej | done].
    pose proof (restore_no_panic plan (cand_text c)); destruct (restore plan (cand_text c)); done.
  - pose proof (mask_no_panic plan (cand_text c)); destruct (mask_raw_candidate plan (cand_text c)) as [m| |]; [| apply Hrej | done].
    pose proof (restore_no_panic plan m); destruct (restore plan m); done.
Qed.

Lemma candidate_loop_no_panic u plan options st polls cs :
  candidate_loop engine sched u plan options st polls cs <> Panic.
Proof.
  revert st polls; induction cs as [|c cs IH]; intros st polls; cbn [candidate_loop]; [done |].
  apply bind_no_panic; [apply assess_candidate_no_panic |]; intros ev _; destruct (sched polls); done || apply IH.
Qed.

Lemma evaluate_unit_no_panic u options asm polls : evaluate_unit engine sched u options asm polls <> Panic.
Proof.
  unfold evaluate_unit; destruct (sched polls); [done |].
  pose proof (build_no_panic (unit_text u) (protected_terms options)).
  destruct (build _ _) as [plan|[]|]; try done; destruct (sched (S polls)); [done |].
  match goal with |- context [generate _ ?req _ ?n] => pose proof (generates req n) as Hg end.
  destruct (generate _ _ _ _) as [[cs|[]|] polls1]; cbn [fst] in Hg; try done.
  destruct (sched polls1); [done |]; destruct (candidate_batch_reason _ _); [done |].
  apply bind_no_panic; [apply candidate_loop_no_panic |]; intros [[st cancelled] polls2] _.
  destruct cancelled; [done |]; destruct (max_by _ _); done.
Qed.

Lemma unit_loop_no_panic options st polls units : unit_loop engine sched options st polls units <> Panic.
Proof.
  revert st polls; induction units as [|u units IH]; intros st polls; cbn [unit_loop]; [done |].
  apply bind_no_panic; [apply evaluate_unit_no_panic |]; intros [[p|o] polls1] _; [apply IH | done].
Qed.

Lemma run_no_panic document options : run engine sched document options <> Panic.
Proof.
  unfold run; apply bind_no_panic; [| intros [o n] _; done]; unfold run_counted.
  apply bind_no_panic; [unfold validate_rewrite_options; repeat goal_match; done |]; intros _ _.
  apply bind_no_panic; [| intros _ _].
  { pose proof (document_validate_no_panic document); destruct (DocumentIr.validate document); done. }
  destruct (negb _); [done |]; destruct (sched 0%nat); [done |]; destruct (_ =? 0); [done |].
  apply bind_no_panic; [apply unit_loop_no_panic |]; intros [[st|o] polls] _; [| done].
  destruct (sched polls); done.
Qed.
End Total.

(** ** Lemmas: two engines that differ in their observer only *)

(** The gates that decide eligibility. *)
Definition hard_gates (a : CandidateAssessment.t) : list GateResult.t :=
  List.filter (fun g => bool_decide (GateResult.severity g = Error)) (CandidateAssessment.gates a).

Definition same_assessment (a b : CandidateAssessment.t) : Prop :=
  CandidateAssessment.candidate_id a = CandidateAssessment.candidate_id b /\
  CandidateAssessment.unit_id a = CandidateAssessment.unit_id b /\
  CandidateAssessment.eligible a = CandidateAssessment.eligible b /\
  hard_gates a = hard_gates b.

Section Observer.
Context {UT : UnicodeTables} {RE : RegexEngine} {AC : AhoCorasick} {SHA : Sha256} {LINT : EditorialLint}.
Variables (generator : CandidateGenerator) (semantic : SemanticEvaluator) (structure : StructureValidator).
Variables (o1 o2 : option ClaimShadowObserver) (sched : Schedule).

Let e1 : RewriteEngine :=
  {| Engine.generator := generator; Engine.semantic := semantic; Engine.structure := structure; claim_shadow := o1 |}.
Let e2 : RewriteEngine :=
  {| Engine.generator := generator; Engine.semantic := semantic; Engine.structure := structure; claim_shadow := o2 |}.

Lemma shadow_soft e u source candidate gates :
  List.filter (fun g => bool_decide (GateResult.severity g = Error))
    (attach_claim_shadow e u source candidate gates)
  = List.filter (fun g => bool_decide (GateResult.severity g = Error)) gates.
Proof.
  unfold attach_claim_shadow; destruct (claim_shadow e) as [o|]; [| done].
  destruct (shadow_gate o u source candidate) as [g|] eqn:E; [| done].
  apply shadow_gate_info in E as [Hi _]; rewrite List.filter_app; cbn [List.filter].
  rewrite Hi, app_nil_r; reflexivity.
Qed.

Definition same_evaluated (a b : EvaluatedCandidate) : Prop :=
  candidate a = candidate b /\ eval_reason a = eval_reason b /\ same_assessment (assessment a) (assessment b).

Lemma assess_restored_same u c r options gates :
  same_evaluated (assess_restored e1 u c r options gates) (assess_restored e2 u c r options gates).
Proof.
  unfold assess_restored; change (Engine.structure e2) with (Engine.structure e1).
  change (semantic_gate e2) with (semantic_gate e1).
  destruct (retained_gate _) as [sg sr]; destruct (negb _).
  { split_and!; try done; unfold same_assessment, hard_gates; split_and!; try done;
      cbn [ineligible assessment CandidateAssessment.gates];
      rewrite !shadow_soft; done. }
  destruct (validate_layout_constraints u r options) as [[lg lr]|]; [destruct (negb _) |].
  { split_and!; try done. }
  all: destruct (semantic_gate e1 _ _ _ _) as [[g p] reason]; destruct p; cbn [negb];
    (split_and!; try done; unfold same_assessment, hard_gates; split_and!; try done;
      cbn [ineligible assessment CandidateAssessment.gates];
      rewrite !shadow_soft; done).
Qed.

Definition lift_same {A} (R : A -> A -> Prop) (a b : Result EngineError A) : Prop :=
  match a, b with
  | Ok x, Ok y => R x y
  | Err x, Err y => x = y
  | Panic, Panic => True
  | _, _ => False
  end.

Lemma lift_bind {A B} (R : A -> A -> Prop) (S : B -> B -> Prop) (m n : Result EngineError A) f g :
  lift_same R m n -> (forall a b, R a b -> lift_same S (f a) (g b)) -> lift_same S (m ≫= f) (n ≫= g).
Proof. destruct m, n; cbn; intros H Hf; auto; done. Qed.

Lemma lift_refl {A} (R : A -> A -> Prop) (m : Result EngineError A) : (forall a, R a a) -> lift_same R m m.
Proof. destruct m; cbn; auto. Qed.

Lemma same_assessment_refl a : same_assessment a a.
Proof. done. Qed.

Lemma same_evaluated_refl a : same_evaluated a a.
Proof. done. Qed.

Lemma assess_candidate_same u c plan options :
  lift_same same_evaluated (assess_candidate e1 u c plan options) (assess_candidate e2 u c plan options).
Proof.
  unfold assess_candidate; destruct (validate_candidate_metadata u c []) as [gates|]; [| done].
  destruct (match text_kind c with Masked => _ | Raw => _ end) as [m|e|];
    [| apply lift_refl, same_evaluated_refl | done].
  destruct (restore plan m) as [r|e|]; [| done | done]; apply assess_restored_same.
Qed.

Definition same_state (a b : UnitState) : Prop :=
  eligible a = eligible b /\ unit_reason a = unit_reason b /\
  Forall2 same_assessment (unit_assessments a) (unit_assessments b).

Lemma candidate_loop_same u plan options st1 st2 polls cs :
  same_state st1 st2 ->
  lift_same (fun a b => same_state (fst (fst a)) (fst (fst b)) /\ snd (fst a) = snd (fst b) /\ snd a = snd b)
    (candidate_loop e1 sched u plan options st1 polls cs) (candidate_loop e2 sched u plan options st2 polls cs).
Proof.
  revert st1 st2 polls; induction cs as [|c cs IH]; intros st1 st2 polls Hst; cbn [candidate_loop]; [done |].
  eapply lift_bind; [apply assess_candidate_same |]; intros v1 v2 (Hc & Hr & Ha).
  assert (Hst' : same_state (record_candidate st1 v1) (record_candidate st2 v2)).
  { destruct Hst as (He & Hu & Hf); pose proof Ha as (_ & _ & Hel & _).
    unfold record_candidate; split_and!; cbn [eligible unit_reason unit_assessments]; rewrite ?Hel, ?Hc, ?He, ?Hr, ?Hu; try done.
    apply Forall2_app; [done |]; repeat constructor; apply Ha. }
  destruct (sched polls); [done | apply IH; done].
Qed.

Definition same_outcome (a b : EngineOutcome) : Prop :=
  out_status a = out_status b /\ out_reason a = out_reason b /\ edits a = edits b /\
  selected_candidates a = selected_candidates b /\ Forall2 same_assessment (assessments a) (assessments b).

Lemma abstained_same r l1 l2 : Forall2 same_assessment l1 l2 -> same_outcome (abstained r l1) (abstained r l2).
Proof. done. Qed.

Definition same_progress (a b : UnitProgress + EngineOutcome) : Prop :=
  match a, b with
  | inl p, inl q => selected p = selected q /\ progress_replacement p = progress_replacement q /\
      Forall2 same_assessment (progress_assessments p) (progress_assessments q)
  | inr p, inr q => same_outcome p q
  | _, _ => False
  end.

Lemma evaluate_unit_same u options l1 l2 polls :
  Forall2 same_assessment l1 l2 ->
  lift_same (fun a b => same_progress (fst a) (fst b) /\ snd a = snd b)
    (evaluate_unit e1 sched u options l1 polls) (evaluate_unit e2 sched u options l2 polls).
Proof.
  intros Hl; unfold evaluate_unit; destruct (sched polls); [done |].
  destruct (build _ _) as [plan|e|]; [| destruct e; done | done]; destruct (sched (S polls)); [done |].
  change (Engine.generator e2) with (Engine.generator e1).
  destruct (generate _ _ _ _) as [[cs|e|] polls1]; [| destruct e; done | done].
  destruct (sched polls1); [done |]; destruct (candidate_batch_reason _ _); [done |].
  eapply lift_bind; [apply candidate_loop_same; done |].
  intros [[s1 c1] p1] [[s2 c2] p2] ((He & Hu & Hf) & Hc & Hp); cbn [fst snd] in *; subst c2 p2.
  destruct c1; [done |]; rewrite He; destruct (max_by _ _); cbn; [done |]; rewrite Hu; done.
Qed.

Definition same_run (a b : RunState + EngineOutcome) : Prop :=
  match a, b with
  | inl p, inl q => run_edits p = run_edits q /\ run_selected p = run_selected q /\
      Forall2 same_assessment (run_assessments p) (run_assessments q)
  | inr p, inr q => same_outcome p q
  | _, _ => False
  end.

Lemma unit_loop_same options s1 s2 polls units :
  same_run (inl s1) (inl s2) ->
  lift_same (fun a b => same_run (fst a) (fst b) /\ snd a = snd b)
    (unit_loop e1 sched options s1 polls units) (unit_loop e2 sched options s2 polls units).
Proof.
  revert s1 s2 polls; induction units as [|u units IH]; intros s1 s2 polls Hs; cbn [unit_loop]; [done |].
  destruct Hs as (He & Hsel & Ha); eapply lift_bind; [apply evaluate_unit_same; done |].
  intros [[p|o] n] [[q|o'] n'] [Hp Hn]; cbn [fst snd same_progress] in *; subst n'; try done.
  destruct Hp as (Hq & Hr & Hpa); apply IH; cbn [same_run run_edits run_selected run_assessments].
  rewrite Hq, Hr, He, Hsel; done.
Qed.

Lemma run_same document options :
  lift_same same_outcome (run e1 sched document options) (run e2 sched document options).
Proof.
  unfold run; eapply (lift_bind (fun a b => same_outcome (fst a) (fst b))); [| intros [] []; done].
  unfold run_counted; eapply (lift_bind eq); [apply lift_refl; done |]; intros _ _ _.
  eapply (lift_bind eq); [apply lift_refl; done |]; intros _ _ _.
  destruct (negb _); [done |]; destruct (sched 0%nat); [done |]; destruct (_ =? 0); [done |].
  eapply lift_bind; [apply unit_loop_same; cbn; split_and!; try done; constructor |].
  intros [[p|o] n] [[q|o'] n'] [Hp Hn]; cbn [fst snd same_run] in *; subst n'; try done.
  destruct Hp as (He & Hs & Ha); destruct (sched n); [done |]; rewrite He, Hs; done.
Qed.
End Observer.

(** ** Lemmas: the reported reason *)

(** The reason of least priority number among some reasons. *)
Definition most_severe (reasons : list ReasonCode) (r : option ReasonCode) : Prop :=
  match r with
  | None => reasons = []
  | Some r => r ∈ reasons /\ forall r', r' ∈ reasons -> reason_priority r <= reason_priority r'
  end.

Lemma preferred_most_severe reasons current r :
  most_severe reasons current -> most_severe (reasons ++ [r]) (Some (preferred_reason current r)).
Proof.
  unfold most_severe, preferred_reason; destruct current as [c|].
  - intros [Hin Hmin]; destruct (Z.leb_spec (reason_priority c) (reason_priority r)); split.
    + apply elem_of_app; auto.
    + intros r'; rewrite elem_of_app, list_elem_of_singleton; intros [H' | ->]; [auto | lia].
    + apply elem_of_app; right; left.
    + intros r'; rewrite elem_of_app, list_elem_of_singleton; intros [H' | ->]; [| lia].
      specialize (Hmin r' H'); lia.
  - intros ->; cbn; split; [left |]; intros r'; rewrite list_elem_of_singleton; intros ->; lia.
Qed.

Section Reasons.
Context {UT : UnicodeTables} {RE : RegexEngine} {AC : AhoCorasick} {SHA : Sha256} {LINT : EditorialLint}.
Variables (engine : RewriteEngine) (sched : Schedule).

(** A rejected candidate has a reason. *)
Lemma assess_candidate_reason u c plan options ev :
  assess_candidate engine u c plan options = Ok ev ->
  CandidateAssessment.eligible (assessment ev) = false -> is_Some (eval_reason ev).
Proof.
  unfold assess_candidate; pose proof (metadata_cases u c) as Hm.
  destruct (validate_candidate_metadata u c []) as [gates | ev']; [| intros [= <-]; destruct Hm as (_ & ? & _); done].
  destruct (match text_kind c with Masked => _ | Raw => _ end) as [m|e|]; [| | done].
  - destruct (restore plan m) as [r|e|]; [| | done]; intros [= <-]; [| cbn; eauto].
    apply (assess_restored_cases engine u c r options).
  - unfold reject_unprotected; intros H; apply bind_ok in H as (g & _ & [= <-]); cbn; eauto.
Qed.

Definition rejection (ev : EvaluatedCandidate) : option ReasonCode :=
  if CandidateAssessment.eligible (assessment ev) then None else eval_reason ev.

Lemma candidate_loop_reasons u plan options st polls cs st' polls' reasons :
  most_severe reasons (unit_reason st) ->
  candidate_loop engine sched u plan options st polls cs = Ok (st', false, polls') ->
  exists evs, Forall2 (fun c ev => assess_candidate engine u c plan options = Ok ev) cs evs /\
    most_severe (reasons ++ omap rejection evs) (unit_reason st') /\
    eligible st' = eligible st ++ map candidate (List.filter (fun ev => CandidateAssessment.eligible (assessment ev)) evs).
Proof.
  revert st polls reasons; induction cs as [|c cs IH]; intros st polls reasons Hr; cbn [candidate_loop].
  { intros [= <- <-]; exists []; cbn; rewrite !app_nil_r; split_and!; [constructor | done | done]. }
  intros H; apply bind_ok in H as (ev & Hev & H); destruct (sched polls); [done |].
  assert (Hr' : most_severe (reasons ++ omap rejection [ev]) (unit_reason (record_candidate st ev))).
  { cbn [omap list_omap record_candidate unit_reason]; unfold rejection.
    destruct (CandidateAssessment.eligible (assessment ev)); [rewrite app_nil_r; done |].
    destruct (eval_reason ev) as [r|]; [by apply preferred_most_severe | rewrite app_nil_r; done]. }
  destruct (IH _ _ _ Hr' H) as (evs & Hf & Hs & He); exists (ev :: evs); split_and!.
  - constructor; done.
  - rewrite <- app_assoc, <- omap_app in Hs; exact Hs.
  - rewrite He; cbn [record_candidate eligible List.filter map].
    destruct (CandidateAssessment.eligible (assessment ev)); cbn [map]; rewrite <- ?app_assoc; reflexivity.
Qed.
End Reasons.

(** ** Theorems *)

Section EngineTheorems.
Context {UT : UnicodeTables} {RE : RegexEngine} {AC : AhoCorasick} {SHA : Sha256} {LINT : EditorialLint}.
Variables (engine : RewriteEngine) (sched : Schedule).

(** C3. A run is all or nothing.  It either abstains, with a reason, no edit
    and no selected candidate, or it names one restored text for every unit
    of the document, each of which came from a contract-abiding candidate
    through the protection plan of its unit and passed the structure, layout
    and meaning gates; the edits are exactly the units whose text differs,
    and the status says which of the cases holds. *)
Theorem engine_all_or_nothing (document : DocumentIr.t) (options : RewriteOptions) (outcome : EngineOutcome) :
  run engine sched document options = Ok outcome ->
  (out_status outcome = Abstained /\ is_Some (out_reason outcome) /\
   edits outcome = [] /\ selected_candidates outcome = []) \/
  (out_reason outcome = None /\
   length (selected_candidates outcome) = length (DocumentIr.rewrite_units document) /\
   out_status outcome = (if negb (vlen (edits outcome) =? 0) then Rewritten
                         else if vlen (DocumentIr.rewrite_units document) =? 0
                         then UnchangedNoEligibleContent else UnchangedIdentical) /\
   exists rs, Forall2 (accepted engine sched options) (DocumentIr.rewrite_units document) rs /\
     edits outcome = changed (DocumentIr.rewrite_units document) rs).
Proof.
  unfold run; intros H; apply bind_ok in H as ([o polls] & H & [= <-]).
  apply run_cases in H as [H | (Hr & Hrs & Hsel & Hst & _)]; [left; exact H | right; done].
Qed.

(** C6. Cancellation always wins.  Under a signal that is never withdrawn, a
    run that does not abstain polled it at least twice plus three times per
    unit plus once per assessed candidate, and every one of its polls said
    not cancelled; and a run whose first poll is cancelled abstains at once. *)
Theorem engine_cancellation (document : DocumentIr.t) (options : RewriteOptions)
    (outcome : EngineOutcome) (polls : nat) :
  monotone sched -> polls_forward (generator engine) ->
  run_counted engine sched document options = Ok (outcome, polls) ->
  (out_status outcome <> Abstained ->
   (forall i, (i < polls)%nat -> sched i = false) /\
   (DocumentIr.rewrite_units document <> [] ->
    2 + 3 * length (DocumentIr.rewrite_units document) + length (assessments outcome) <= polls)%nat) /\
  (sched 0%nat = true -> atomicity options = ADocument -> outcome = abstained Cancelled []).
Proof.
  intros Hmono Hf Hrun; split.
  - intros Hst; apply run_cases in Hrun as [[Ha _] | (_ & _ & _ & _ & Hpos & Hlast & Hcount)]; [done |].
    split; [| auto]; intros i Hi; destruct (sched i) eqn:E; [| done].
    rewrite (Hmono i (pred polls)) in Hlast; [done | lia | done].
  - intros H0 Hatom; unfold run_counted in Hrun; apply bind_ok in Hrun as (_ & _ & Hrun).
    apply bind_ok in Hrun as (_ & _ & Hrun); rewrite (bool_decide_eq_true_2 _ Hatom), H0 in Hrun; cbn in Hrun; congruence.
Qed.

(** C7. The audit trail is sound: every assessment a run returns is scoped to
    its unit, stays within the bounds of the evidence contract and agrees
    with its own gates on eligibility, as long as the evaluator never calls
    a candidate not applicable. *)
Theorem engine_records_valid (document : DocumentIr.t) (options : RewriteOptions) (outcome : EngineOutcome) :
  (forall s r m, SemanticAssessment.status (evaluate (semantic engine) s r m) <> NotApplicable) ->
  run engine sched document options = Ok outcome ->
  Forall (fun a => CandidateAssessment.validate a = Ok tt) (assessments outcome).
Proof.
  unfold run; intros Hna H; apply bind_ok in H as ([o polls] & H & [= <-]).
  exact (run_valid engine sched Hna _ _ _ _ H).
Qed.

(** C12. The engine always returns: no slice, index or arithmetic step in
    planning, masking, restoring, reporting or selection can panic, for any
    document, options and signal, when the generator itself does not. *)
Theorem engine_total (document : DocumentIr.t) (options : RewriteOptions) :
  (forall request n, fst (generate (generator engine) request sched n) <> Panic) ->
  run engine sched document options <> Panic.
Proof. intros Hg; exact (run_no_panic engine sched Hg document options). Qed.

(** When no candidate of a unit is eligible the reported reason is the
    most severe one: some candidate was rejected for it and no candidate was
    rejected for one of higher priority. *)
Theorem rejection_reason_most_severe (u : RewriteUnit) (plan : ProtectionPlan) (options : RewriteOptions)
    (candidates : list GeneratedCandidate) (asm : list CandidateAssessment.t) (st : UnitState) (n n' : nat) :
  candidates <> [] ->
  candidate_loop engine sched u plan options
    {| eligible := []; unit_reason := None; unit_assessments := asm |} n candidates = Ok (st, false, n') ->
  eligible st = [] ->
  exists evs r, Forall2 (fun c ev => assess_candidate engine u c plan options = Ok ev) candidates evs /\
    unit_reason st = Some r /\ Exists (fun ev => eval_reason ev = Some r) evs /\
    Forall (fun ev => forall r', eval_reason ev = Some r' -> reason_priority r <= reason_priority r') evs.
Proof.
  intros Hne Hl Hel.
  apply (candidate_loop_reasons engine sched u plan options _ _ _ _ _ []) in Hl as (evs & Hf & Hs & He); [| reflexivity].
  rewrite Hel in He; cbn [eligible app] in *; symmetry in He; apply map_eq_nil in He.
  assert (Hall : Forall (fun ev => CandidateAssessment.eligible (assessment ev) = false /\ is_Some (eval_reason ev)) evs).
  { clear - Hf He; revert He; induction Hf as [|c ev cs evs Hev Hf IH]; [constructor |]; cbn [List.filter].
    destruct (CandidateAssessment.eligible (assessment ev)) eqn:E; [done |]; intros He; constructor; [| auto].
    split; [done |]; exact (assess_candidate_reason engine u c plan options ev Hev E). }
  assert (Hrej : omap rejection evs = omap eval_reason evs).
  { clear - Hall; induction Hall as [|ev evs [He _] _ IH]; [done |]; cbn [omap list_omap]; unfold rejection at 1.
    rewrite He, IH; reflexivity. }
  rewrite Hrej in Hs; destruct (unit_reason st) as [r|].
  - destruct Hs as [Hin Hmin]; exists evs, r; split_and!; try done.
    + apply list_elem_of_omap in Hin as (ev & Hev & Hr); apply Exists_exists; eauto.
    + apply Forall_forall; intros ev Hev r' Hr'; apply Hmin, list_elem_of_omap; eauto.
  - exfalso; destruct Hf as [|c ev cs evs' Hev Hf]; [done |].
    inversion_clear Hall as [| ? ? [_ [r Hr]] _]; cbn [most_severe omap list_omap] in Hs; rewrite Hr in Hs; done.
Qed.
End EngineTheorems.

(** C9. A claim observer only comments.  Whatever observer is attached, and
    whether one is attached at all, a run has the same result: the same
    error, or the same status, reason, edits, selected candidates and, per
    assessment, the same eligibility and the same deciding gates. *)
Theorem claim_shadow_inert {UT : UnicodeTables} {RE : RegexEngine} {AC : AhoCorasick} {SHA : Sha256}
    {LINT : EditorialLint} (engine : RewriteEngine) (observer : ClaimShadowObserver) (sched : Schedule)
    (document : DocumentIr.t) (options : RewriteOptions) :
  lift_same same_outcome (run engine sched document options)
    (run (with_claim_shadow engine observer) sched document options).
Proof. destruct engine as [g sem str o]; exact (run_same g sem str o (Some observer) sched document options). Qed.
