(* ===== verification/Json.v ===== *)
(** * JSON as the services use it.

    The sources print and read JSON through [serde_json], a package outside
    the repository.  The class [JsonCodec] states what they rely on: the
    compact printer of [to_string] and the pull parser that drives every
    [Deserialize] implementation.  The parser is a stream of events, because
    a visitor may stop with an error of its own before the text turns out to
    be malformed further on.  Decoding into a derived type is a function of
    the value read; what [derive(Deserialize)] accepts (objects in any order
    of fields, arrays in field order, unit variants as strings or as
    one-entry objects) is written out. *)

From S2P Require Import Prelude Text.

(** ** Values and events *)

(** [AUint] is a number literal that fits [u64]; any other number literal is
    [ANumber] with its text. *)
Inductive Atom :=
| ANull | ABool (b : bool) | AUint (n : Z) | ANumber (literal : text) | AString (s : text).

Inductive Json :=
| JAtom (a : Atom)
| JArray (items : list Json)
| JObject (members : list (text * Json)).

Inductive JsonEvent :=
| EvAtom (a : Atom) | EvArray | EvEndArray | EvObject | EvEndObject | EvKey (k : text).

(** Induction over the nested lists. *)
Section JsonInd.
Variable P : Json -> Prop.
Hypothesis atom_case : forall a, P (JAtom a).
Hypothesis array_case : forall items, Forall P items -> P (JArray items).
Hypothesis object_case : forall members, Forall (fun m => P (snd m)) members -> P (JObject members).

Fixpoint json_nested_ind (v : Json) : P v :=
  match v with
  | JAtom a => atom_case a
  | JArray items =>
      array_case items
        ((fix go (l : list Json) : Forall P l :=
            match l with
            | [] => List.Forall_nil P
            | x :: l' => List.Forall_cons P x l' (json_nested_ind x) (go l')
            end) items)
  | JObject members =>
      object_case members
        ((fix go (l : list (text * Json)) : Forall (fun m => P (snd m)) l :=
            match l with
            | [] => List.Forall_nil _
            | m :: l' => List.Forall_cons _ m l' (json_nested_ind (snd m)) (go l')
            end) members)
  end.
End JsonInd.

(** The events of a value. *)
Fixpoint flatten (v : Json) : list JsonEvent :=
  match v with
  | JAtom a => [EvAtom a]
  | JArray items => EvArray :: concat (map flatten items) ++ [EvEndArray]
  | JObject members => EvObject :: concat (map (fun m => EvKey (fst m) :: flatten (snd m)) members) ++ [EvEndObject]
  end.

(** The values the services print: unsigned integers, no other number. *)
Fixpoint printable (v : Json) : bool :=
  match v with
  | JAtom (AUint n) => (0 <=? n) && (n <=? u64_max)
  | JAtom (ANumber _) => false
  | JAtom _ => true
  | JArray items => forallb printable items
  | JObject members => forallb (fun m => printable (snd m)) members
  end.

(** The strings and names of a value are Rust strings. *)
Fixpoint scalar_strings (v : Json) : bool :=
  match v with
  | JAtom (AString s) => forallb is_scalar s
  | JAtom _ => true
  | JArray items => forallb scalar_strings items
  | JObject members => forallb (fun m => forallb is_scalar (fst m) && scalar_strings (snd m)) members
  end.

(** Nesting; [serde_json] reads up to 127 levels. *)
Fixpoint depth (v : Json) : Z :=
  match v with
  | JAtom _ => 0
  | JArray items => 1 + foldr Z.max 0 (map depth items)
  | JObject members => 1 + foldr Z.max 0 (map (fun m => depth (snd m)) members)
  end.

(** The bytes a character takes in a string of the compact text: the quote,
    the backslash and the control characters with a short escape take two,
    the other control characters six, and any other character its own. *)
Definition escaped_len (c : Z) : Z :=
  if existsb (Z.eqb c) [34; 92; 8; 9; 10; 12; 13] then 2 else if c <? 32 then 6 else len_utf8 c.
Fixpoint string_len (s : text) : Z := match s with [] => 0 | c :: s' => escaped_len c + string_len s' end.

(** The commas between the entries of a list. *)
Definition commas {A} (l : list A) : Z := Z.max 0 (vlen l - 1).

(** An upper bound for the length of the compact text. *)
Fixpoint print_bound (v : Json) : Z :=
  match v with
  | JAtom ANull => 4
  | JAtom (ABool _) => 5
  | JAtom (AUint _) => 20
  | JAtom (ANumber l) => slen l
  | JAtom (AString s) => 2 + string_len s
  | JArray items => 2 + foldr Z.add 0 (map print_bound items) + commas items
  | JObject members =>
      2 + foldr Z.add 0 (map (fun m => 3 + string_len (fst m) + print_bound (snd m)) members) + commas members
  end.

(** ** The codec *)

Class JsonCodec := {
  (** [serde_json::to_string]. *)
  json_print : Json -> text;
  (** The events of [serde_json::Deserializer::from_str] up to the first
      error, and whether the text is one complete value and nothing else. *)
  json_events : text -> list JsonEvent * bool;
  (** Whether [IgnoredAny] takes the whole text; it skips more than a value
      can hold (a number no type holds, an escape of half a pair, any depth). *)
  json_ignored : text -> bool;
  (** What is printed is read back. *)
  json_print_events : forall v, printable v = true -> depth v <= 127 -> json_events (json_print v) = (flatten v, true);
  json_events_ignored : forall s evs, json_events s = (evs, true) -> json_ignored s = true;
  (** A text read to its end is a value. *)
  json_events_value : forall s evs, json_events s = (evs, true) -> exists v, evs = flatten v;
  (** The compact form has no line feed: a control character in a string is
      escaped. *)
  json_print_line : forall v, printable v = true -> 10 ∉ json_print v;
  (** The text is a Rust string. *)
  json_print_scalars : forall v, printable v = true -> scalar_strings v = true -> scalars (json_print v);
  (** Nothing but the escapes and the punctuation is added. *)
  json_print_length : forall v, printable v = true -> slen (json_print v) <= print_bound v
}.

(** ** Reading a value *)

Fixpoint read_value (fuel : nat) (evs : list JsonEvent) : option (Json * list JsonEvent) :=
  match fuel with
  | O => None
  | S fuel' =>
      match evs with
      | EvAtom a :: evs' => Some (JAtom a, evs')
      | EvArray :: evs' => '(items, evs') ← read_items fuel' evs'; Some (JArray items, evs')
      | EvObject :: evs' => '(members, evs') ← read_members fuel' evs'; Some (JObject members, evs')
      | _ => None
      end
  end
with read_items (fuel : nat) (evs : list JsonEvent) : option (list Json * list JsonEvent) :=
  match fuel with
  | O => None
  | S fuel' =>
      match evs with
      | EvEndArray :: evs' => Some ([], evs')
      | _ =>
          '(v, evs') ← read_value fuel' evs;
          '(items, evs') ← read_items fuel' evs';
          Some (v :: items, evs')
      end
  end
with read_members (fuel : nat) (evs : list JsonEvent) : option (list (text * Json) * list JsonEvent) :=
  match fuel with
  | O => None
  | S fuel' =>
      match evs with
      | EvEndObject :: evs' => Some ([], evs')
      | EvKey k :: evs' =>
          '(v, evs') ← read_value fuel' evs';
          '(members, evs') ← read_members fuel' evs';
          Some ((k, v) :: members, evs')
      | _ => None
      end
  end.

Section Codec.
Context {JSON : JsonCodec}.

(** [serde_json::from_str] into a value: the whole text is one value. *)
Definition from_str (s : text) : option Json :=
  match json_events s with
  | (evs, true) =>
      match read_value (S (length evs)) evs with
      | Some (v, []) => Some v
      | _ => None
      end
  | _ => None
  end.

End Codec.

(** ** Lemmas: reading what was flattened *)

Lemma flatten_length v : (1 <= length (flatten v))%nat.
Proof. destruct v; cbn; lia. Qed.

Lemma read_items_flatten items fuel rest :
  Forall (fun v => forall fuel rest, (length (flatten v) <= fuel)%nat -> read_value fuel (flatten v ++ rest) = Some (v, rest)) items ->
  (length (concat (map flatten items)) < fuel)%nat ->
  read_items fuel (concat (map flatten items) ++ EvEndArray :: rest) = Some (items, rest).
Proof.
  intros Hi; revert fuel; induction Hi as [|v items Hv _ IH]; intros fuel Hf; (destruct fuel as [|fuel]; [lia |]);
    cbn [map concat app read_items]; [done |].
  cbn [map concat] in Hf; rewrite length_app in Hf; pose proof (flatten_length v) as Hl.
  rewrite <- app_assoc.
  assert (Hread : read_value fuel (flatten v ++ concat (map flatten items) ++ EvEndArray :: rest) =
    Some (v, concat (map flatten items) ++ EvEndArray :: rest)) by (apply Hv; lia).
  assert (Hnext : read_items fuel (concat (map flatten items) ++ EvEndArray :: rest) = Some (items, rest)) by (apply IH; lia).
  destruct v; cbn [flatten app] in *; rewrite Hread; cbn [mbind option_bind]; by rewrite Hnext.
Qed.

Lemma read_members_flatten members fuel rest :
  Forall (fun m => forall fuel rest, (length (flatten (snd m)) <= fuel)%nat ->
    read_value fuel (flatten (snd m) ++ rest) = Some (snd m, rest)) members ->
  (length (concat (map (fun m => EvKey (fst m) :: flatten (snd m)) members)) < fuel)%nat ->
  read_members fuel (concat (map (fun m => EvKey (fst m) :: flatten (snd m)) members) ++ EvEndObject :: rest)
  = Some (members, rest).
Proof.
  intros Hi; revert fuel; induction Hi as [|[k v] members Hv _ IH]; intros fuel Hf; (destruct fuel as [|fuel]; [lia |]);
    cbn [map concat app read_members fst snd]; [done |].
  cbn [map concat fst snd length app] in Hf; rewrite length_app in Hf; cbn [fst snd] in Hv; rewrite <- app_assoc.
  rewrite Hv by lia; cbn [mbind option_bind]; by rewrite IH by lia.
Qed.

Lemma read_value_flatten v fuel rest :
  (length (flatten v) <= fuel)%nat -> read_value fuel (flatten v ++ rest) = Some (v, rest).
Proof.
  revert fuel rest; induction v as [a|items Hi|members Hm] using json_nested_ind; intros fuel rest Hf;
    (destruct fuel as [|fuel]; [cbn in Hf; lia |]); cbn [flatten app read_value]; [done | |];
    cbn [flatten length] in Hf; rewrite length_app in Hf; cbn [length] in Hf; rewrite <- app_assoc; cbn [app].
  - rewrite read_items_flatten by (done || lia); done.
  - rewrite read_members_flatten by (done || lia); done.
Qed.

Section CodecLemmas.
Context {JSON : JsonCodec}.

Lemma from_str_events s v : json_events s = (flatten v, true) -> from_str s = Some v.
Proof.
  intros H; unfold from_str; rewrite H; rewrite <- (app_nil_r (flatten v)) at 2; by rewrite read_value_flatten by lia.
Qed.

Lemma from_str_print v : printable v = true -> depth v <= 127 -> from_str (json_print v) = Some v.
Proof. intros Hp Hd; apply from_str_events; by apply json_print_events. Qed.

End CodecLemmas.

(** ** What [derive(Deserialize)] accepts *)

Definition decode_string (v : Json) : option text := match v with JAtom (AString s) => Some s | _ => None end.
Definition decode_uint (maximum : Z) (v : Json) : option Z :=
  match v with JAtom (AUint n) => if n <=? maximum then Some n else None | _ => None end.
Definition decode_bool (v : Json) : option bool := match v with JAtom (ABool b) => Some b | _ => None end.
Definition decode_option {A} (decode : Json -> option A) (v : Json) : option (option A) :=
  match v with JAtom ANull => Some None | _ => a ← decode v; Some (Some a) end.
Definition decode_vec {A} (decode : Json -> option A) (v : Json) : option (list A) :=
  match v with JArray items => mapM decode items | _ => None end.

(** A unit variant: its name, or an object from its name to null. *)
Definition decode_variant {A} (variants : list (text * A)) (v : Json) : option A :=
  name ← match v with
         | JAtom (AString s) => Some s
         | JObject [(s, JAtom ANull)] => Some s
         | _ => None
         end;
  snd <$> find (fun x => text_eqb (fst x) name) variants.

(** The members of an object under one name. *)
Definition members_named (name : text) (members : list (text * Json)) : list Json :=
  map snd (List.filter (fun m => text_eqb (fst m) name) members).

(** The values of the named fields of a struct; an object may leave a field
    out but not repeat it, and with [deny_unknown_fields] has no other
    member; an array has exactly the fields in order. *)
Definition decode_fields (deny_unknown : bool) (names : list text) (v : Json) : option (list (option Json)) :=
  match v with
  | JObject members =>
      if deny_unknown && negb (forallb (fun m => existsb (text_eqb (fst m)) names) members) then None
      else mapM (fun name =>
             match members_named name members with
             | [] => Some None
             | [value] => Some (Some value)
             | _ => None
             end) names
  | JArray items => if (length items =? length names)%nat then Some (map Some items) else None
  | JAtom _ => None
  end.

(** A field that must be there, and one of type [Option]. *)
Definition required {A} (decode : Json -> option A) (field : option Json) : option A := v ← field; decode v.
Definition optional {A} (decode : Json -> option A) (field : option Json) : option (option A) :=
  match field with None => Some None | Some v => decode_option decode v end.

Lemma string_len_bounds s : 0 <= string_len s <= 6 * slen s.
Proof.
  induction s as [|c s IH]; cbn [string_len slen]; [lia |]; pose proof (len_utf8_bounds c).
  unfold escaped_len; destruct (existsb _ _); [lia |]; destruct (c <? 32); lia.
Qed.

(** ** Lemmas: reading back what [derive(Serialize)] writes *)

Lemma members_named_app name a b : members_named name (a ++ b) = members_named name a ++ members_named name b.
Proof. unfold members_named; by rewrite List.filter_app, map_app. Qed.

Lemma members_named_none name members : name ∉ map fst members -> members_named name members = [].
Proof.
  induction members as [|[k v] members IH]; [done |]; cbn [map fst]; rewrite not_elem_of_cons; intros [Hk Hm].
  unfold members_named in *; cbn [List.filter fst]; unfold text_eqb; rewrite bool_decide_eq_false_2 by congruence; by apply IH.
Qed.

(** An object with exactly the fields of a struct. *)
Lemma decode_fields_object deny names members :
  names = map fst members -> bool_decide (NoDup names) = true ->
  decode_fields deny names (JObject members) = Some (map (fun m => Some (snd m)) members).
Proof.
  intros -> Hnd; apply bool_decide_eq_true in Hnd; cbn [decode_fields].
  assert (Hknown : forallb (fun m => existsb (text_eqb (fst m)) (map fst members)) members = true).
  { apply forallb_forall; intros m Hm; apply existsb_exists; exists (fst m); split; [by apply in_map |].
    by apply bool_decide_eq_true. }
  rewrite Hknown, andb_false_r.
  enough (Hgen : forall pre post, members = pre ++ post ->
    mapM (fun name => match members_named name members with [] => Some None | [value] => Some (Some value) | _ => None end)
      (map fst post) = Some (map (fun m => Some (snd m)) post)) by by apply (Hgen []).
  intros pre post; revert pre; induction post as [|[k v] post IH]; intros pre Hm; [done |]; cbn [map fst snd mapM].
  rewrite (IH (pre ++ [(k, v)])) by (rewrite <- app_assoc; exact Hm).
  subst members; rewrite map_app in Hnd; cbn [map fst] in Hnd; apply NoDup_app in Hnd as (_ & Hpre & Hpost).
  apply NoDup_cons in Hpost as [Hk _]; change ((k, v) :: post) with ([(k, v)] ++ post); rewrite !members_named_app.
  rewrite (members_named_none k pre), (members_named_none k post); [| done | intros H; apply (Hpre k H); left].
  unfold members_named; cbn [List.filter fst]; unfold text_eqb; by rewrite bool_decide_eq_true_2.
Qed.

Lemma decode_vec_map {A} (encode : A -> Json) decode (l : list A) :
  Forall (fun a => decode (encode a) = Some a) l -> decode_vec decode (JArray (map encode l)) = Some l.
Proof. cbn [decode_vec]; induction 1 as [|a l Ha _ IH]; [done |]; cbn [map mapM]; rewrite Ha, IH; done. Qed.
