(* ===== verification/JsonRef.v ===== *)
(** * A reference JSON codec.

    An executable implementation of the interface [JsonCodec]: the compact
    printer, and a reader in two passes, characters to tokens and tokens to
    events.  It discharges every law of the class, so the theorems about
    services that exchange JSON are about something that exists, and gives
    the witnesses something to compute with. *)

From S2P Require Import Prelude Text Json.

(** ** Printing *)

Definition hex_lower (d : Z) : Z := if d <? 10 then 48 + d else 87 + d.

(** A character of a string. *)
Definition escape (c : Z) : text :=
  if c =? 34 then [92; 34] else if c =? 92 then [92; 92]
  else if c =? 8 then [92; 98] else if c =? 9 then [92; 116] else if c =? 10 then [92; 110]
  else if c =? 12 then [92; 102] else if c =? 13 then [92; 114]
  else if in_range 0 31 c then [92; 117; 48; 48; hex_lower (c / 16); hex_lower (c mod 16)]
  else [c].
Definition print_string (s : text) : text := 34 :: concat (map escape s) ++ [34].

Definition print_atom (a : Atom) : text :=
  match a with
  | ANull => lit "null"
  | ABool true => lit "true"
  | ABool false => lit "false"
  | AUint n => Text.to_string n
  | ANumber l => l
  | AString s => print_string s
  end.

(** Entries with a separator between them. *)
Fixpoint separate {A} (sep : A) (l : list (list A)) : list A :=
  match l with
  | [] => []
  | [x] => x
  | x :: l' => x ++ sep :: separate sep l'
  end.

Fixpoint print (v : Json) : text :=
  match v with
  | JAtom a => print_atom a
  | JArray items => 91 :: separate 44 (map print items) ++ [93]
  | JObject members => 123 :: separate 44 (map (fun m => print_string (fst m) ++ 58 :: print (snd m)) members) ++ [125]
  end.

(** ** Tokens *)

Inductive Token := TMark (c : Z) | TString (s : text) | TWord (w : text).

Inductive LexState :=
| LPlain
| LWord (w : text)
| LString (acc : text)
| LEscape (acc : text)
| LHex (acc : text) (high : option Z) (digits : nat) (value : Z)
| LPair (acc : text) (high : Z)
| LPairU (acc : text) (high : Z).

Definition is_mark (c : Z) : bool := existsb (Z.eqb c) [123; 125; 91; 93; 58; 44].
Definition is_blank (c : Z) : bool := existsb (Z.eqb c) [32; 9; 10; 13].
(** Characters of numbers and of the three names. *)
Definition is_word (c : Z) : bool := in_range 48 57 c || in_range 97 122 c || existsb (Z.eqb c) [43; 45; 46; 69].

Definition unescape (c : Z) : option Z :=
  if c =? 34 then Some 34 else if c =? 92 then Some 92 else if c =? 47 then Some 47
  else if c =? 98 then Some 8 else if c =? 116 then Some 9 else if c =? 110 then Some 10
  else if c =? 102 then Some 12 else if c =? 114 then Some 13 else None.

Definition hex_value (c : Z) : option Z :=
  if in_range 48 57 c then Some (c - 48)
  else if in_range 97 102 c then Some (c - 87)
  else if in_range 65 70 c then Some (c - 55)
  else None.

(** After the last digit of an escape: a character, the first half of a pair
    of surrogates, or an error. *)
Definition finish_hex (acc : text) (high : option Z) (value : Z) : option LexState :=
  match high with
  | Some h => if in_range 0xDC00 0xDFFF value
              then Some (LString (acc ++ [0x10000 + (h - 0xD800) * 1024 + (value - 0xDC00)])) else None
  | None => if in_range 0xD800 0xDBFF value then Some (LPair acc value)
            else if in_range 0xDC00 0xDFFF value then None
            else Some (LString (acc ++ [value]))
  end.

(** The tokens up to the first error, and whether there was none. *)
Fixpoint lex (state : LexState) (s : text) : list Token * bool :=
  match s with
  | [] =>
      match state with
      | LPlain => ([], true)
      | LWord w => ([TWord w], true)
      | _ => ([], false)
      end
  | c :: s' =>
      match state with
      | LPlain | LWord _ =>
          let pending := match state with LWord w => [TWord w] | _ => [] end in
          let emit tokens next := let '(rest, ok) := lex next s' in (pending ++ tokens ++ rest, ok) in
          if is_word c then
            match state with LWord w => lex (LWord (w ++ [c])) s' | _ => lex (LWord [c]) s' end
          else if is_mark c then emit [TMark c] LPlain
          else if is_blank c then emit [] LPlain
          else if c =? 34 then emit [] (LString [])
          else (pending, false)
      | LString acc =>
          if c =? 34 then let '(rest, ok) := lex LPlain s' in (TString acc :: rest, ok)
          else if c =? 92 then lex (LEscape acc) s'
          else if in_range 0 31 c then ([], false)
          else lex (LString (acc ++ [c])) s'
      | LEscape acc =>
          if c =? 117 then lex (LHex acc None 4 0) s'
          else match unescape c with Some d => lex (LString (acc ++ [d])) s' | None => ([], false) end
      | LHex acc high digits value =>
          match hex_value c, digits with
          | Some d, S (S more) => lex (LHex acc high (S more) (value * 16 + d)) s'
          | Some d, _ => match finish_hex acc high (value * 16 + d) with
                         | Some next => lex next s'
                         | None => ([], false)
                         end
          | None, _ => ([], false)
          end
      | LPair acc high => if c =? 92 then lex (LPairU acc high) s' else ([], false)
      | LPairU acc high => if c =? 117 then lex (LHex acc (Some high) 4 0) s' else ([], false)
      end
  end.

(** The number grammar: a sign, an integer part without leading zeros, a
    fraction and an exponent. *)
Fixpoint skip_digits (s : text) : text :=
  match s with c :: s' => if is_ascii_digit c then skip_digits s' else s | [] => [] end.
Definition some_digits (s : text) : option text :=
  match s with c :: s' => if is_ascii_digit c then Some (skip_digits s') else None | [] => None end.
Definition number_exponent (s : text) : bool :=
  match s with
  | [] => true
  | e :: s' =>
      if (e =? 101) || (e =? 69) then
        match some_digits (match s' with c :: s'' => if (c =? 43) || (c =? 45) then s'' else s' | [] => [] end) with
        | Some [] => true
        | _ => false
        end
      else false
  end.
Definition number_fraction (s : text) : bool :=
  match s with
  | c :: s' => if c =? 46 then match some_digits s' with Some rest => number_exponent rest | None => false end
               else number_exponent s
  | [] => true
  end.
Definition is_number (w : text) : bool :=
  let unsigned := match w with c :: w' => if c =? 45 then w' else w | [] => [] end in
  match unsigned with
  | c :: rest => if c =? 48 then number_fraction rest
                 else match some_digits unsigned with Some rest => number_fraction rest | None => false end
  | [] => false
  end.

(** The atom a word stands for. *)
Definition word_atom (w : text) : option Atom :=
  if text_eqb w (lit "null") then Some ANull
  else if text_eqb w (lit "true") then Some (ABool true)
  else if text_eqb w (lit "false") then Some (ABool false)
  else if is_number w then
    match (if forallb is_ascii_digit w then parse_usize w else None) with
    | Some n => Some (AUint n)
    | None => Some (ANumber w)
    end
  else None.

(** ** Events *)

Inductive Expect := XValue | XFirstItem | XFirstKey | XKey | XColon | XAfter.

(** The pushdown reader; [stack] has [true] for an open object. *)
Fixpoint parse (stack : list bool) (expect : Expect) (tokens : list Token) : list JsonEvent * bool :=
  let push ev rest := let '(evs, ok) := rest in (ev :: evs, ok) in
  match tokens with
  | [] => ([], match stack, expect with [], XAfter => true | _, _ => false end)
  | t :: tokens' =>
      let value (_ : unit) :=
        match t with
        | TString s => push (EvAtom (AString s)) (parse stack XAfter tokens')
        | TWord w => match word_atom w with
                     | Some a => push (EvAtom a) (parse stack XAfter tokens')
                     | None => ([], false)
                     end
        | TMark c =>
            if c =? 91 then push EvArray (parse (false :: stack) XFirstItem tokens')
            else if c =? 123 then push EvObject (parse (true :: stack) XFirstKey tokens')
            else ([], false)
        end in
      let key (_ : unit) :=
        match t with TString s => push (EvKey s) (parse stack XColon tokens') | _ => ([], false) end in
      let close (_ : unit) :=
        match stack, t with
        | false :: stack', TMark c => if c =? 93 then push EvEndArray (parse stack' XAfter tokens') else ([], false)
        | true :: stack', TMark c => if c =? 125 then push EvEndObject (parse stack' XAfter tokens') else ([], false)
        | _, _ => ([], false)
        end in
      match expect with
      | XValue => value tt
      | XFirstItem => match t with TMark c => if c =? 93 then close tt else value tt | _ => value tt end
      | XFirstKey => match t with TMark c => close tt | _ => key tt end
      | XKey => key tt
      | XColon => match t with TMark c => if c =? 58 then parse stack XValue tokens' else ([], false) | _ => ([], false) end
      | XAfter =>
          match t, stack with
          | TMark c, false :: _ => if c =? 44 then parse stack XValue tokens' else close tt
          | TMark c, true :: _ => if c =? 44 then parse stack XKey tokens' else close tt
          | _, _ => ([], false)
          end
      end
  end.

(** The events of a text: a lexical error ends the stream early. *)
Definition events (s : text) : list JsonEvent * bool :=
  let '(tokens, ok) := lex LPlain s in
  let '(evs, complete) := parse [] XValue tokens in
  (evs, ok && complete).

Example events_sample :
  events (lit " {'k' : [1, null], 'x':'a'} ") = ([EvObject], false) /\
  events (print (JObject [(lit "k", JArray [JAtom (AUint 10); JAtom ANull]); (lit "x", JAtom (AString [34; 10; 7; 0xE9]))]))
  = (flatten (JObject [(lit "k", JArray [JAtom (AUint 10); JAtom ANull]); (lit "x", JAtom (AString [34; 10; 7; 0xE9]))]), true).
Proof. vm_compute; split; reflexivity. Qed.

(** ** Lemmas: the tokens of a printed value *)

Fixpoint tokens (v : Json) : list Token :=
  match v with
  | JAtom (AString s) => [TString s]
  | JAtom a => [TWord (print_atom a)]
  | JArray items => TMark 91 :: separate (TMark 44) (map tokens items) ++ [TMark 93]
  | JObject members =>
      TMark 123 :: separate (TMark 44) (map (fun m => TString (fst m) :: TMark 58 :: tokens (snd m)) members) ++ [TMark 125]
  end.

Definition prepend {A} (l : list A) (r : list A * bool) : list A * bool := (l ++ fst r, snd r).

Lemma prepend_app {A} (l k : list A) r : prepend (l ++ k) r = prepend l (prepend k r).
Proof. unfold prepend; cbn; by rewrite app_assoc. Qed.

Definition delimited (rest : text) : Prop := match rest with [] => True | c :: _ => is_mark c = true end.

(** The text is read as the tokens wherever a mark or the end follows. *)
Definition lexes (s : text) (ts : list Token) : Prop :=
  forall rest, delimited rest -> lex LPlain (s ++ rest) = prepend ts (lex LPlain rest).

Lemma mark_not_word c : is_mark c = true -> is_word c = false.
Proof.
  unfold is_mark; cbn [existsb]; rewrite !orb_true_iff, !Z.eqb_eq; intros H.
  repeat destruct H as [-> | H]; try done.
Qed.

Lemma lex_mark c rest : is_mark c = true -> lex LPlain (c :: rest) = prepend [TMark c] (lex LPlain rest).
Proof. intros Hc; cbn [lex]; rewrite (mark_not_word c Hc), Hc; by destruct (lex LPlain rest). Qed.

Lemma lex_word w rest :
  Forall (fun c => is_word c = true) w -> forall acc, lex (LWord acc) (w ++ rest) = lex (LWord (acc ++ w)) rest.
Proof.
  induction 1 as [|c w Hc _ IH]; intros acc; cbn [app]; [by rewrite app_nil_r |].
  cbn [lex]; rewrite Hc, IH; by rewrite <- app_assoc.
Qed.

Lemma lexes_word w : w <> [] -> Forall (fun c => is_word c = true) w -> lexes w [TWord w].
Proof.
  intros Hne Hw rest Hr; destruct w as [|c w]; [done |]; inversion Hw as [|? ? Hc Hw']; subst.
  cbn [app lex]; rewrite Hc, lex_word by done; cbn [app].
  destruct rest as [|d rest]; [done |]; cbn [delimited] in Hr; cbn [lex]; rewrite (mark_not_word d Hr), Hr.
  by destruct (lex LPlain rest).
Qed.

Lemma hex_lower_value d : 0 <= d < 16 -> hex_value (hex_lower d) = Some d.
Proof.
  intros Hd; unfold hex_value, hex_lower; destruct (Z.ltb_spec d 10) as [H|H].
  - assert (in_range 48 57 (48 + d) = true) as -> by (apply in_range_true; lia); f_equal; lia.
  - assert (in_range 48 57 (87 + d) = false) as -> by (apply not_true_is_false; rewrite in_range_true; lia).
    assert (in_range 97 102 (87 + d) = true) as -> by (apply in_range_true; lia); f_equal; lia.
Qed.

Lemma lex_escape c acc rest : lex (LString acc) (escape c ++ rest) = lex (LString (acc ++ [c])) rest.
Proof.
  unfold escape; repeat match goal with |- context [c =? ?k] => destruct (Z.eqb_spec c k) as [-> |]; [done |] end.
  destruct (in_range 0 31 c) eqn:E.
  - apply in_range_true in E; pose proof (Z.mod_pos_bound c 16 ltac:(lia)); pose proof (Z_div_mod_eq_full c 16) as Hc.
    assert (0 <= c / 16 < 16) by lia; cbn [app lex]; change (92 =? 34) with false; change (92 =? 92) with true.
    change (117 =? 117) with true; change (hex_value 48) with (Some 0); cbn [lex].
    rewrite !hex_lower_value by lia; cbn [lex]; unfold finish_hex.
    replace (((0 * 16 + 0) * 16 + 0) * 16 + c / 16) with (c / 16) by lia.
    replace (c / 16 * 16 + c mod 16) with c by lia.
    assert (in_range 0xD800 0xDBFF c = false) as -> by (apply not_true_is_false; rewrite in_range_true; lia).
    assert (in_range 0xDC00 0xDFFF c = false) as -> by (apply not_true_is_false; rewrite in_range_true; lia). done.
  - cbn [app lex]; rewrite (proj2 (Z.eqb_neq c 34)), (proj2 (Z.eqb_neq c 92)), E by done; done.
Qed.

Lemma lex_string s acc rest :
  lex (LString acc) (concat (map escape s) ++ 34 :: rest) = prepend [TString (acc ++ s)] (lex LPlain rest).
Proof.
  revert acc; induction s as [|c s IH]; intros acc; cbn [map concat app].
  - rewrite app_nil_r; cbn [lex]; change (34 =? 34) with true; by destruct (lex LPlain rest).
  - rewrite <- app_assoc, lex_escape, IH; by rewrite <- app_assoc.
Qed.

Lemma lex_quoted s rest : lex LPlain (print_string s ++ rest) = prepend [TString s] (lex LPlain rest).
Proof.
  unfold print_string; cbn [app]; rewrite <- app_assoc; cbn [app lex].
  change (is_word 34) with false; change (is_mark 34) with false; change (is_blank 34) with false.
  change (34 =? 34) with true; cbn iota; rewrite lex_string; by destruct (lex LPlain rest).
Qed.

Lemma lexes_separate ss ts :
  Forall2 lexes ss ts -> lexes (separate 44 ss) (separate (TMark 44) ts).
Proof.
  induction 1 as [|s t ss ts Hs Hf IH]; intros rest Hr; [cbn [separate app]; by destruct (lex LPlain rest) |].
  destruct Hf as [|s' t' ss ts Hs' Hf]; [by apply Hs |]; cbn [separate] in *.
  rewrite <- app_assoc, Hs by done; cbn [app]; rewrite lex_mark, IH by done; by rewrite prepend_app.
Qed.

Lemma digit_word c : is_ascii_digit c = true -> is_word c = true.
Proof. unfold is_word, is_ascii_digit; by intros ->. Qed.

Lemma lexes_print v : printable v = true -> lexes (print v) (tokens v).
Proof.
  induction v as [a|items Hi|members Hm] using json_nested_ind; cbn [printable print tokens].
  - destruct a as [|b|n|l|s]; try done; intros Hp.
    + apply lexes_word; [done | repeat constructor].
    + destruct b; (apply lexes_word; [done | repeat constructor]).
    + apply andb_true_iff in Hp as [Hn _]; apply Z.leb_le in Hn; apply lexes_word; [apply to_string_nonempty |].
      eapply Forall_impl; [by apply to_string_digits |]; intros c; apply digit_word.
    + intros rest _; apply lex_quoted.
  - rewrite forallb_forall; intros Hp rest Hr; cbn [app]; rewrite <- app_assoc, lex_mark by done.
    rewrite (lexes_separate (map print items) (map tokens items)); [| | done].
    + cbn [app]; rewrite lex_mark by done; by rewrite (app_comm_cons _ [TMark 93]), !prepend_app.
    + clear Hr; induction Hi as [|v items Hv _ IH]; [constructor |]; constructor; [apply Hv, Hp; by left |].
      apply IH; intros x Hx; apply Hp; by right.
  - rewrite forallb_forall; intros Hp rest Hr; cbn [app]; rewrite <- app_assoc, lex_mark by done.
    rewrite (lexes_separate _ (map (fun m => TString (fst m) :: TMark 58 :: tokens (snd m)) members)); [| | done].
    + cbn [app]; rewrite lex_mark by done; by rewrite (app_comm_cons _ [TMark 125]), !prepend_app.
    + clear Hr; induction Hm as [|[k v] members Hv _ IH]; [constructor |]; constructor.
      * cbn [fst snd]; intros r Hr; rewrite <- app_assoc, lex_quoted; cbn [app]; rewrite lex_mark by done.
        rewrite Hv by (done || (apply (Hp (k, v)); by left)); by rewrite <- !prepend_app.
      * apply IH; intros x Hx; apply Hp; by right.
Qed.

(** ** Lemmas: the events of the tokens *)

Lemma parse_separate_items items stack ts :
  Forall (fun v => forall stack ts, parse stack XValue (tokens v ++ ts) = prepend (flatten v) (parse stack XAfter ts)) items ->
  items <> [] ->
  parse (false :: stack) XValue (separate (TMark 44) (map tokens items) ++ TMark 93 :: ts) =
  prepend (concat (map flatten items) ++ [EvEndArray]) (parse stack XAfter ts).
Proof.
  induction 1 as [|v items Hv Hf IH]; [done |]; intros _; destruct items as [|w items].
  - cbn [map separate concat]; rewrite Hv, app_nil_r, prepend_app; f_equal; cbn [parse].
    change (93 =? 44) with false; change (93 =? 93) with true; by destruct (parse stack XAfter ts).
  - specialize (IH ltac:(done)).
    change (separate (TMark 44) (map tokens (v :: w :: items))) with (tokens v ++ TMark 44 :: separate (TMark 44) (map tokens (w :: items))).
    change (concat (map flatten (v :: w :: items))) with (flatten v ++ concat (map flatten (w :: items))).
    rewrite <- !app_assoc, Hv, prepend_app; f_equal; exact IH.
Qed.

Definition member_tokens (m : text * Json) : list Token := TString (fst m) :: TMark 58 :: tokens (snd m).
Definition member_events (m : text * Json) : list JsonEvent := EvKey (fst m) :: flatten (snd m).

Lemma parse_separate_members members stack ts :
  Forall (fun m => forall stack ts, parse stack XValue (tokens (snd m) ++ ts) = prepend (flatten (snd m)) (parse stack XAfter ts)) members ->
  members <> [] ->
  parse (true :: stack) XKey (separate (TMark 44) (map member_tokens members) ++ TMark 125 :: ts) =
  prepend (concat (map member_events members) ++ [EvEndObject]) (parse stack XAfter ts).
Proof.
  assert (Hone : forall k v ts', (forall stack ts, parse stack XValue (tokens v ++ ts) = prepend (flatten v) (parse stack XAfter ts)) ->
    parse (true :: stack) XKey (member_tokens (k, v) ++ ts') = prepend (member_events (k, v)) (parse (true :: stack) XAfter ts')).
  { intros k v ts' Hv; unfold member_tokens, member_events; cbn [fst snd app parse]; change (58 =? 58) with true; cbn iota.
    rewrite Hv; by destruct (parse _ XAfter ts'). }
  induction 1 as [|[k v] members Hv Hf IH]; [done |]; intros _; destruct members as [|w members].
  - cbn [map separate concat]; rewrite Hone, app_nil_r, prepend_app by done; f_equal; cbn [parse].
    change (125 =? 44) with false; change (125 =? 125) with true; by destruct (parse stack XAfter ts).
  - specialize (IH ltac:(done)).
    change (separate (TMark 44) (map member_tokens ((k, v) :: w :: members)))
      with (member_tokens (k, v) ++ TMark 44 :: separate (TMark 44) (map member_tokens (w :: members))).
    change (concat (map member_events ((k, v) :: w :: members))) with (member_events (k, v) ++ concat (map member_events (w :: members))).
    rewrite <- !app_assoc, Hone, prepend_app by done; f_equal; exact IH.
Qed.

(** A value does not start with the mark that closes an array. *)
Lemma parse_first_item v stack ts : parse (false :: stack) XFirstItem (tokens v ++ ts) = parse (false :: stack) XValue (tokens v ++ ts).
Proof. destruct v as [a| |]; [destruct a | |]; reflexivity. Qed.

Lemma separate_first {A} (sep : A) x l : exists r, separate sep (x :: l) = x ++ r.
Proof. destruct l as [|y l]; [exists []; by rewrite app_nil_r | by eexists]. Qed.

Lemma dec_digits_head fuel n : 0 < n < 10 ^ (Z.of_nat fuel + 1) -> exists c s, dec_digits fuel n [] = c :: s /\ 48 < c <= 57.
Proof.
  revert n; induction fuel as [|f IH]; intros n Hn; cbn [dec_digits].
  - change (10 ^ (Z.of_nat 0 + 1)) with 10 in Hn; rewrite (proj2 (Z.ltb_lt n 10)) by lia.
    exists (48 + n mod 10), []; rewrite Z.mod_small by lia; split; [done | lia].
  - destruct (Z.ltb_spec n 10) as [H|H]; [exists (48 + n mod 10), []; rewrite Z.mod_small by lia; split; [done | lia] |].
    replace (Z.of_nat (S f) + 1) with (Z.succ (Z.of_nat f + 1)) in Hn by lia; rewrite Z.pow_succ_r in Hn by lia.
    pose proof (Z_div_mod_eq_full n 10); pose proof (Z.mod_pos_bound n 10 ltac:(lia)).
    destruct (IH (n / 10)) as (c & s & Hs & Hc); [lia |].
    rewrite dec_digits_app, Hs; by exists c, (s ++ [48 + n mod 10]).
Qed.

Lemma skip_digits_all s : Forall (fun c => is_ascii_digit c = true) s -> skip_digits s = [].
Proof. induction 1 as [|c s Hc _ IH]; cbn; [done | by rewrite Hc]. Qed.

Lemma printed_number n : 0 <= n <= u64_max -> is_number (Text.to_string n) = true.
Proof.
  intros Hn; destruct (decide (n = 0)) as [-> |Hne]; [done |].
  pose proof (to_string_digits n ltac:(lia)) as Hd.
  destruct (dec_digits_head 20 n) as (c & s & Hs & Hc).
  { change (10 ^ (Z.of_nat 20 + 1)) with 1000000000000000000000; unfold u64_max in Hn; lia. }
  unfold Text.to_string in *; rewrite Hs in *; inversion Hd as [|? ? Hcd Hsd]; subst.
  unfold is_number; rewrite (proj2 (Z.eqb_neq c 45)), (proj2 (Z.eqb_neq c 48)) by lia; cbn [some_digits].
  by rewrite Hcd, skip_digits_all.
Qed.

Lemma word_atom_printed a : printable (JAtom a) = true -> (forall s, a <> AString s) -> word_atom (print_atom a) = Some a.
Proof.
  destruct a as [|[|]|n|l|s]; try done; [| intros _ H; by destruct (H s)]; cbn [printable print_atom].
  rewrite andb_true_iff, !Z.leb_le; intros Hn _; pose proof (to_string_digits n ltac:(lia)) as Hd.
  pose proof (to_string_nonempty n) as Hne; unfold word_atom.
  assert (Hword : forall c w, is_ascii_digit c = false -> text_eqb (Text.to_string n) (c :: w) = false).
  { intros c w Hc; apply bool_decide_eq_false_2; intros H; rewrite H in Hd; inversion Hd; congruence. }
  change (lit "null") with (110 :: lit "ull"); change (lit "true") with (116 :: lit "rue"); change (lit "false") with (102 :: lit "alse").
  rewrite !Hword, printed_number by done.
  assert (forallb is_ascii_digit (Text.to_string n) = true) as ->.
  { apply forallb_forall; intros c Hc; rewrite Forall_forall in Hd; by apply Hd, list_elem_of_In. }
  by rewrite parse_to_string.
Qed.

Lemma parse_tokens v stack ts :
  printable v = true -> parse stack XValue (tokens v ++ ts) = prepend (flatten v) (parse stack XAfter ts).
Proof.
  revert stack ts; induction v as [a|items Hi|members Hm] using json_nested_ind; intros stack ts; cbn [printable tokens flatten].
  - intros Hp; destruct a as [|b|n|l|s]; try done; cbn [app parse]; try rewrite word_atom_printed by done;
      by destruct (parse stack XAfter ts).
  - rewrite forallb_forall; intros Hp; cbn [app parse]; change (91 =? 91) with true; cbn iota; rewrite <- app_assoc.
    destruct items as [|v items]; [cbn; by destruct (parse stack XAfter ts) |].
    assert (Hall : Forall (fun v => forall stack ts, parse stack XValue (tokens v ++ ts) = prepend (flatten v) (parse stack XAfter ts)) (v :: items)).
    { apply Forall_forall; intros x Hx; rewrite Forall_forall in Hi; intros st t; apply Hi; [done | by apply Hp, list_elem_of_In]. }
    pose proof (parse_separate_items (v :: items) stack ts Hall ltac:(done)) as H; cbn [map] in H |- *.
    destruct (separate_first (TMark 44) (tokens v) (map tokens items)) as [r Hr]; rewrite Hr in *; cbn [app].
    rewrite <- app_assoc in *; rewrite parse_first_item, H; by destruct (parse stack XAfter ts).
  - rewrite forallb_forall; intros Hp; cbn [app parse]; change (123 =? 91) with false; change (123 =? 123) with true; cbn iota.
    rewrite <- app_assoc; destruct members as [|m members]; [cbn; by destruct (parse stack XAfter ts) |].
    assert (Hall : Forall (fun m => forall stack ts, parse stack XValue (tokens (snd m) ++ ts) =
      prepend (flatten (snd m)) (parse stack XAfter ts)) (m :: members)).
    { apply Forall_forall; intros x Hx; rewrite Forall_forall in Hm; intros st t; apply Hm; [done | by apply (Hp x), list_elem_of_In]. }
    pose proof (parse_separate_members (m :: members) stack ts Hall ltac:(done)) as H.
    fold member_tokens; fold member_events; cbn [app] in H |- *.
    destruct (separate_first (TMark 44) (member_tokens m) (map member_tokens members)) as [r Hr].
    cbn [map] in *; rewrite Hr in *; unfold member_tokens at 1 in H; unfold member_tokens at 1.
    cbn [app parse] in H |- *; rewrite H; by destruct (parse stack XAfter ts).
Qed.

(** ** Lemmas: a complete stream is a value *)

(** The events that finish what is open. *)
Fixpoint finishes (stack : list bool) (evs : list JsonEvent) : Prop :=
  match stack with
  | [] => evs = []
  | false :: stack' => exists items evs', evs = concat (map flatten items) ++ EvEndArray :: evs' /\ finishes stack' evs'
  | true :: stack' => exists members evs', evs = concat (map member_events members) ++ EvEndObject :: evs' /\ finishes stack' evs'
  end.

Definition expected (stack : list bool) (x : Expect) (evs : list JsonEvent) : Prop :=
  match x with
  | XAfter | XFirstItem | XFirstKey => finishes stack evs
  | XValue | XColon => exists v evs', evs = flatten v ++ evs' /\ finishes stack evs'
  | XKey => exists m evs', evs = member_events m ++ evs' /\ finishes stack evs'
  end.

Definition allowed (stack : list bool) (x : Expect) : Prop :=
  match x with
  | XFirstItem => exists st, stack = false :: st
  | XFirstKey | XKey | XColon => exists st, stack = true :: st
  | XValue | XAfter => True
  end.

Lemma finishes_item stack v evs : finishes (false :: stack) evs -> finishes (false :: stack) (flatten v ++ evs).
Proof. intros (items & evs' & -> & H); exists (v :: items), evs'; cbn [map concat]; by rewrite <- app_assoc. Qed.

Lemma finishes_member stack m evs : finishes (true :: stack) evs -> finishes (true :: stack) (member_events m ++ evs).
Proof. intros (members & evs' & -> & H); exists (m :: members), evs'; cbn [map concat]; by rewrite <- app_assoc. Qed.

Lemma push_event (ev : JsonEvent) r evs :
  (let '(es, ok) := r in (ev :: es, ok)) = (evs, true) -> exists es : list JsonEvent, r = (es, true) /\ evs = ev :: es.
Proof. destruct r as [es ok]; intros [= <- ->]; eauto. Qed.

Lemma parse_sound ts stack x evs :
  parse stack x ts = (evs, true) -> allowed stack x -> expected stack x evs.
Proof.
  revert stack x evs; induction ts as [|t ts IH]; intros stack x evs.
  { cbn [parse]; destruct stack, x; try done; by intros [= <-]. }
  assert (Hvalue : forall stack evs,
    match t with
    | TString s => let '(es, ok) := parse stack XAfter ts in (EvAtom (AString s) :: es, ok)
    | TWord w => match word_atom w with
                 | Some a => let '(es, ok) := parse stack XAfter ts in (EvAtom a :: es, ok)
                 | None => ([], false)
                 end
    | TMark c => if c =? 91 then let '(es, ok) := parse (false :: stack) XFirstItem ts in (EvArray :: es, ok)
                 else if c =? 123 then let '(es, ok) := parse (true :: stack) XFirstKey ts in (EvObject :: es, ok)
                 else ([], false)
    end = (evs, true) -> expected stack XValue evs).
  { clear stack evs; intros stack evs; destruct t as [c|s|w].
    - destruct (c =? 91); [| destruct (c =? 123); [| done]]; intros H; apply push_event in H as (es & H & ->).
      + apply IH in H as (items & evs' & -> & H'); [| cbn; eauto]; exists (JArray items), evs'; cbn [flatten app]; by rewrite <- app_assoc.
      + apply IH in H as (members & evs' & -> & H'); [| cbn; eauto]; exists (JObject members), evs'; cbn [flatten app]; by rewrite <- app_assoc.
    - intros H; apply push_event in H as (es & H & ->); apply IH in H; [| done]; by exists (JAtom (AString s)), es.
    - destruct (word_atom w) as [a|]; [| done]; intros H; apply push_event in H as (es & H & ->); apply IH in H; [| done].
      by exists (JAtom a), es. }
  assert (Hkey : forall st evs,
    match t with TString s => let '(es, ok) := parse (true :: st) XColon ts in (EvKey s :: es, ok) | _ => ([], false) end = (evs, true) ->
    expected (true :: st) XKey evs).
  { clear stack evs; intros st evs; destruct t as [c|s|w]; try done; intros H; apply push_event in H as (es & H & ->).
    apply IH in H as (v & evs' & -> & H'); [| cbn; eauto]; by exists (s, v), evs'. }
  assert (Hclose : forall stack evs,
    match stack, t with
    | false :: stack', TMark c => if c =? 93 then let '(es, ok) := parse stack' XAfter ts in (EvEndArray :: es, ok) else ([], false)
    | true :: stack', TMark c => if c =? 125 then let '(es, ok) := parse stack' XAfter ts in (EvEndObject :: es, ok) else ([], false)
    | _, _ => ([], false)
    end = (evs, true) -> finishes stack evs).
  { clear stack evs; intros [|[|] stack] evs; [done | |]; (destruct t as [c|s|w]; try done);
      (match goal with |- (if ?b then _ else _) = _ -> _ => destruct b; [| done] end);
      intros H; apply push_event in H as (es & H & ->); apply IH in H; try done; by exists [], es. }
  cbn [parse]; destruct x; intros H Hal; cbn [expected].
  - by apply Hvalue.
  - destruct Hal as [st ->]; assert (Hv : expected (false :: st) XValue evs -> finishes (false :: st) evs).
    { intros (v & evs' & -> & Hf); by apply finishes_item. }
    destruct t as [c|s|w]; [destruct (c =? 93) |..]; auto; by apply Hclose.
  - destruct Hal as [st ->]; destruct t as [c|s|w]; [by apply Hclose | | done].
    destruct (Hkey st evs H) as (m & evs' & -> & Hf); by apply finishes_member.
  - destruct Hal as [st ->]; by apply Hkey.
  - destruct Hal as [st ->]; destruct t as [c|s|w]; try done; destruct (c =? 58); [| done]; by apply IH in H.
  - destruct t as [c|s|w]; [| by destruct stack as [|[|]] | by destruct stack as [|[|]]].
    destruct stack as [|[|] st]; [done | |]; (destruct (c =? 44); [| by apply Hclose]); apply IH in H; cbn; eauto.
    + destruct H as (m & evs' & -> & Hf); by apply finishes_member.
    + destruct H as (v & evs' & -> & Hf); by apply finishes_item.
Qed.

Lemma events_value s evs : events s = (evs, true) -> exists v, evs = flatten v.
Proof.
  unfold events; destruct (lex LPlain s) as [ts ok]; destruct (parse [] XValue ts) as [es complete] eqn:E.
  intros [= <- H]; apply andb_true_iff in H as [_ ->]; apply parse_sound in E as (v & evs' & -> & ->); [| done].
  exists v; by rewrite app_nil_r.
Qed.

(** ** Lemmas: the printed text *)

Lemma events_print v : printable v = true -> events (print v) = (flatten v, true).
Proof.
  intros Hp; unfold events; pose proof (lexes_print v Hp [] I) as H; rewrite app_nil_r in H; rewrite H; cbn [lex prepend fst snd].
  by rewrite app_nil_r, <- (app_nil_r (tokens v)), (parse_tokens v [] [] Hp); cbn [parse prepend fst snd]; rewrite app_nil_r.
Qed.

Lemma separate_elem {A} (sep x : A) l : x ∈ separate sep l -> x = sep \/ exists s, s ∈ l /\ x ∈ s.
Proof.
  induction l as [|s l IH]; [by rewrite elem_of_nil |]; destruct l as [|s' l].
  - cbn; intros H; right; exists s; split; [left | done].
  - change (separate sep (s :: s' :: l)) with (s ++ sep :: separate sep (s' :: l)); rewrite elem_of_app, elem_of_cons.
    intros [H | [-> | H]]; [right; exists s; split; [left | done] | auto |].
    destruct (IH H) as [-> | (y & Hy & Hx)]; [auto | right; exists y; split; [by right | done]].
Qed.

Lemma escape_line c : 10 ∉ escape c.
Proof.
  unfold escape; repeat match goal with |- context [c =? ?k] => destruct (Z.eqb_spec c k) as [-> |]; [rewrite !elem_of_cons, elem_of_nil; lia |] end.
  destruct (in_range 0 31 c) eqn:E; rewrite !elem_of_cons, elem_of_nil; [| lia].
  apply in_range_true in E; pose proof (Z_div_mod_eq_full c 16); pose proof (Z.mod_pos_bound c 16 ltac:(lia)).
  unfold hex_lower; destruct (c / 16 <? 10), (c mod 16 <? 10); lia.
Qed.

Lemma print_string_line s : 10 ∉ print_string s.
Proof.
  unfold print_string; rewrite elem_of_cons, elem_of_app, list_elem_of_singleton; intros [H | [H | H]]; [done | | done].
  apply list_elem_of_In, in_concat in H as (x & Hx & H); apply in_map_iff in Hx as (c & <- & _).
  apply list_elem_of_In in H; by apply escape_line in H.
Qed.

Lemma print_line v : printable v = true -> 10 ∉ print v.
Proof.
  induction v as [a|items Hi|members Hm] using json_nested_ind; cbn [printable print].
  - destruct a as [|[|]|n|l|s]; try done; cbn [print_atom].
    1-3: intros _; apply (bool_decide_eq_true_1 _); vm_compute; reflexivity.
    + rewrite andb_true_iff, !Z.leb_le; intros [Hn _] H; pose proof (to_string_digits n Hn) as Hd.
      rewrite Forall_forall in Hd; apply Hd in H; discriminate H.
    + intros _; apply print_string_line.
  - rewrite forallb_forall; intros Hp; rewrite elem_of_cons, elem_of_app, list_elem_of_singleton.
    intros [H | [H | H]]; [done | | done]; apply separate_elem in H as [H | (x & Hx & H)]; [done |].
    apply list_elem_of_fmap in Hx as (v & -> & Hv); rewrite Forall_forall in Hi; apply (Hi v Hv); [by apply Hp, list_elem_of_In | done].
  - rewrite forallb_forall; intros Hp; rewrite elem_of_cons, elem_of_app, list_elem_of_singleton.
    intros [H | [H | H]]; [done | | done]; apply separate_elem in H as [H | (x & Hx & H)]; [done |].
    apply list_elem_of_fmap in Hx as (m & -> & Hmem); rewrite elem_of_app, elem_of_cons in H.
    destruct H as [H | [H | H]]; [by apply print_string_line in H | done |].
    rewrite Forall_forall in Hm; apply (Hm m Hmem); [by apply (Hp m), list_elem_of_In | done].
Qed.

Lemma escape_scalars c d : is_scalar c = true -> d ∈ escape c -> is_scalar d = true.
Proof.
  intros Hc; unfold escape.
  repeat match goal with |- context [if c =? ?k then _ else _] =>
    destruct (c =? k); [rewrite !elem_of_cons, elem_of_nil; intros [-> | [-> | []]]; done |] end.
  destruct (in_range 0 31 c) eqn:E; [| by rewrite list_elem_of_singleton; intros ->].
  apply in_range_true in E; pose proof (Z_div_mod_eq_full c 16); pose proof (Z.mod_pos_bound c 16 ltac:(lia)).
  assert (Hh : forall x, 0 <= x < 16 -> is_scalar (hex_lower x) = true).
  { intros x Hx; unfold is_scalar, hex_lower; apply orb_true_iff; left; apply in_range_true; destruct (x <? 10); lia. }
  rewrite !elem_of_cons, elem_of_nil; intros H'; destruct_or? H'; subst; try done; apply Hh; lia.
Qed.

Lemma print_string_scalars s c : forallb is_scalar s = true -> c ∈ print_string s -> is_scalar c = true.
Proof.
  rewrite forallb_forall; intros Hs; unfold print_string; rewrite elem_of_cons, elem_of_app, list_elem_of_singleton.
  intros [-> | [H | ->]]; [done | | done]; apply list_elem_of_In, in_concat in H as (l & Hl & Hin).
  apply in_map_iff in Hl as (d & <- & Hd); apply (escape_scalars d c); [by apply Hs | by apply list_elem_of_In].
Qed.

Lemma print_scalars v : printable v = true -> scalar_strings v = true -> scalars (print v).
Proof.
  intros Hp Hs; apply Forall_forall; revert Hp Hs.
  induction v as [a|items Hi|members Hm] using json_nested_ind; cbn [printable scalar_strings print].
  - destruct a as [|[|]|n|l|s]; try done; cbn [print_atom].
    1-3: intros _ _; apply Forall_forall, (bool_decide_eq_true_1 _); vm_compute; reflexivity.
    + rewrite andb_true_iff, !Z.leb_le; intros [Hn _] _ c H; pose proof (to_string_digits n Hn) as Hd.
      rewrite Forall_forall in Hd; apply Hd in H; apply in_range_true in H.
      unfold is_scalar; apply orb_true_iff; left; apply in_range_true; lia.
    + intros _ Hs c; by apply print_string_scalars.
  - rewrite !forallb_forall; intros Hp Hs c; rewrite elem_of_cons, elem_of_app, list_elem_of_singleton.
    intros [-> | [H | ->]]; [done | | done]; apply separate_elem in H as [-> | (x & Hx & H)]; [done |].
    apply list_elem_of_fmap in Hx as (v & -> & Hv); rewrite Forall_forall in Hi.
    apply (Hi v Hv); [by apply Hp, list_elem_of_In | by apply Hs, list_elem_of_In | done].
  - rewrite !forallb_forall; intros Hp Hs c; rewrite elem_of_cons, elem_of_app, list_elem_of_singleton.
    intros [-> | [H | ->]]; [done | | done]; apply separate_elem in H as [-> | (x & Hx & H)]; [done |].
    apply list_elem_of_fmap in Hx as (m & -> & Hmem); rewrite elem_of_app, elem_of_cons in H.
    apply list_elem_of_In in Hmem as Hin; apply Hs in Hin as Hsm; apply andb_true_iff in Hsm as [Hk Hv].
    destruct H as [H | [-> | H]]; [by apply print_string_scalars in H | done |].
    rewrite Forall_forall in Hm; apply (Hm m Hmem); [by apply (Hp m) | done | done].
Qed.

Lemma escape_length c : slen (escape c) <= escaped_len c.
Proof.
  unfold escape, escaped_len; cbn [existsb].
  repeat match goal with |- context [if c =? ?k then _ else _] => destruct (Z.eqb_spec c k) as [-> |]; [done |] end.
  repeat match goal with H : c <> ?k |- _ => rewrite (proj2 (Z.eqb_neq c k) H); clear H end; cbn [orb].
  destruct (in_range 0 31 c) eqn:E.
  - apply in_range_true in E; rewrite (proj2 (Z.ltb_lt c 32)) by lia.
    assert (Hone : forall d, 0 <= d < 16 -> len_utf8 (hex_lower d) = 1).
    { intros d Hd; unfold len_utf8, hex_lower; destruct (d <? 10); rewrite (proj2 (Z.ltb_lt _ _)) by lia; done. }
    pose proof (Z_div_mod_eq_full c 16); pose proof (Z.mod_pos_bound c 16 ltac:(lia)).
    cbn [slen]; rewrite !Hone by lia; done.
  - cbn [slen]; destruct (Z.ltb_spec c 32); [| lia]; unfold len_utf8; rewrite (proj2 (Z.ltb_lt _ _)) by lia; lia.
Qed.

Lemma slen_cons c s : slen (c :: s) = len_utf8 c + slen s.
Proof. done. Qed.

Lemma print_string_length s : slen (print_string s) <= 2 + string_len s.
Proof.
  unfold print_string; rewrite slen_cons, slen_app; change (len_utf8 34) with 1; change (slen [34]) with 1.
  assert (slen (concat (map escape s)) <= string_len s); [| lia].
  induction s as [|c s IH]; cbn [map concat string_len]; [done |]; rewrite slen_app; pose proof (escape_length c); lia.
Qed.

Lemma to_string_length n : 0 <= n <= u64_max -> slen (Text.to_string n) <= 20.
Proof.
  intros Hn; assert (Hd : slen (Text.to_string n) = vlen (Text.to_string n)).
  { pose proof (to_string_digits n ltac:(lia)) as Hd; induction Hd as [|c s Hc _ IH]; [done |]; rewrite slen_cons, vlen_cons, IH.
    apply in_range_true in Hc; unfold len_utf8; rewrite (proj2 (Z.ltb_lt _ _)) by lia; lia. }
  rewrite Hd; unfold Text.to_string, vlen.
  assert (Hlen : forall f k, 0 <= k < 10 ^ (Z.of_nat f + 1) -> forall g, (f <= g)%nat -> (length (dec_digits g k []) <= S f)%nat).
  { induction f as [|f IH]; intros k Hk g Hg.
    - change (10 ^ (Z.of_nat 0 + 1)) with 10 in Hk; destruct g; cbn [dec_digits]; rewrite (proj2 (Z.ltb_lt k 10)) by lia; done.
    - destruct g as [|g]; [lia |]; cbn [dec_digits]; destruct (Z.ltb_spec k 10) as [H|H]; [cbn; lia |].
      replace (Z.of_nat (S f) + 1) with (Z.succ (Z.of_nat f + 1)) in Hk by lia; rewrite Z.pow_succ_r in Hk by lia.
      pose proof (Z_div_mod_eq_full k 10); pose proof (Z.mod_pos_bound k 10 ltac:(lia)).
      rewrite dec_digits_app, length_app; specialize (IH (k / 10) ltac:(lia) g ltac:(lia)); cbn [length]; lia. }
  specialize (Hlen 19%nat n); change (10 ^ (Z.of_nat 19 + 1)) with 100000000000000000000 in Hlen.
  specialize (Hlen ltac:(unfold u64_max in Hn; lia) 20%nat ltac:(lia)); lia.
Qed.

Lemma separate_length (l : list text) : slen (separate 44 l) = foldr Z.add 0 (map slen l) + commas l.
Proof.
  induction l as [|s l IH]; [done |]; destruct l as [|s' l]; [cbn; unfold commas, vlen; cbn; lia |].
  change (separate 44 (s :: s' :: l)) with (s ++ 44 :: separate 44 (s' :: l)); rewrite slen_app, slen_cons, IH.
  change (len_utf8 44) with 1; unfold commas; rewrite !vlen_cons; cbn [map foldr]; pose proof (vlen_nonneg l); lia.
Qed.

Lemma sum_le {A} (f g : A -> Z) l : Forall (fun x => f x <= g x) l -> foldr Z.add 0 (map f l) <= foldr Z.add 0 (map g l).
Proof. induction 1; cbn; lia. Qed.

Lemma commas_map {A B} (f : A -> B) l : commas (map f l) = commas l.
Proof. unfold commas, vlen; by rewrite length_map. Qed.

Lemma print_length v : printable v = true -> slen (print v) <= print_bound v.
Proof.
  induction v as [a|items Hi|members Hm] using json_nested_ind; cbn [printable print print_bound].
  - destruct a as [|[|]|n|l|s]; try done; cbn [print_atom].
    + rewrite andb_true_iff, !Z.leb_le; apply to_string_length.
    + intros _; apply print_string_length.
  - rewrite forallb_forall; intros Hp; rewrite slen_cons, slen_app, separate_length, map_map, commas_map.
    change (len_utf8 91) with 1; change (slen [93]) with 1; enough (foldr Z.add 0 (map (fun x => slen (print x)) items)
      <= foldr Z.add 0 (map print_bound items)) by lia.
    apply sum_le, Forall_forall; intros v Hv; rewrite Forall_forall in Hi; apply (Hi v Hv); by apply Hp, list_elem_of_In.
  - rewrite forallb_forall; intros Hp; rewrite slen_cons, slen_app, separate_length, map_map, commas_map.
    change (len_utf8 123) with 1; change (slen [125]) with 1.
    enough (foldr Z.add 0 (map (fun m => slen (print_string (fst m) ++ 58 :: print (snd m))) members)
      <= foldr Z.add 0 (map (fun m => 3 + string_len (fst m) + print_bound (snd m)) members)) by lia.
    apply sum_le, Forall_forall; intros m Hmem; rewrite Forall_forall in Hm.
    assert (slen (print (snd m)) <= print_bound (snd m)) by (apply (Hm m Hmem); by apply (Hp m), list_elem_of_In).
    pose proof (print_string_length (fst m)); rewrite slen_app, slen_cons; change (len_utf8 58) with 1; lia.
Qed.

(** ** The instance *)

Definition reference_json : JsonCodec := {|
  json_print := print;
  json_events := events;
  json_ignored := fun s => snd (events s);
  json_events_ignored := fun s evs H => f_equal snd H;
  json_print_events := fun v Hp _ => events_print v Hp;
  json_events_value := events_value;
  json_print_line := print_line;
  json_print_scalars := print_scalars;
  json_print_length := print_length
|}.
