(* ===== verification/Model.v ===== *)
(** * Artifacts, qualification and activation ([model/src/artifact.rs],
    [qualification.rs], [activation.rs]).

    The manifest of an artifact, the record that qualifies it for roles on a
    runtime, what is installed, and the decision that binds an installed and
    qualified artifact to a role. *)

From S2P Require Import Prelude Text Float32 Document Claims.

(** The strict order of strings. *)
Definition str_lt (a b : text) : bool := match str_cmp a b with Lt => true | _ => false end.

(** ** Identities *)

Module ArtifactId.

Record t := mk { digest : Digest.t }.
#[global] Instance eq_dec : EqDecision t.
Proof. solve_decision. Defined.

(** [ArtifactId::from_digest]. *)
Definition from_digest (d : Digest.t) : t := mk d.

End ArtifactId.

Inductive ArtifactRole :=
| RoleGeneration | Embedding | SpeechRecognition | VoiceActivityDetection | SpeechSynthesis | Voice | ClaimExtractionRole.
#[global] Instance artifact_role_eq_dec : EqDecision ArtifactRole.
Proof. solve_decision. Defined.

(** [ArtifactRole::ALL], in the order of the derived [Ord]. *)
Definition ALL_ROLES : list ArtifactRole :=
  [RoleGeneration; Embedding; SpeechRecognition; VoiceActivityDetection; SpeechSynthesis; Voice; ClaimExtractionRole].

Definition role_index (r : ArtifactRole) : Z :=
  match r with
  | RoleGeneration => 0 | Embedding => 1 | SpeechRecognition => 2 | VoiceActivityDetection => 3
  | SpeechSynthesis => 4 | Voice => 5 | ClaimExtractionRole => 6
  end.

(** [ArtifactRole::machine_name]. *)
Definition machine_name (r : ArtifactRole) : text :=
  match r with
  | RoleGeneration => lit "generation" | Embedding => lit "embedding"
  | SpeechRecognition => lit "speech_recognition" | VoiceActivityDetection => lit "voice_activity_detection"
  | SpeechSynthesis => lit "speech_synthesis" | Voice => lit "voice"
  | ClaimExtractionRole => lit "claim_extraction"
  end.

Module RuntimeIdentity.

Record t := mk { backend : text; version : text; digest : option Digest.t }.
#[global] Instance eq_dec : EqDecision t.
Proof. solve_decision. Defined.

End RuntimeIdentity.


(** [valid_bounded_text]. *)
Definition valid_bounded_text (value : text) (maximum : Z) : bool :=
  negb (slen value =? 0) && (slen value <=? maximum) && negb (existsb is_control value).

(** ** Manifests *)

Definition ARTIFACT_MANIFEST_SCHEMA_VERSION : Z := 1.

Record ArtifactSource := { origin : text; revision : text }.
Record TokenizerIdentity := { tokenizer_family : text; tokenizer_digest : Digest.t }.
Record LicenseRecord := { license_component : text; license_identifier : text; license_text_digest : Digest.t }.
Record DeclaredCapabilities := {
  declared_roles : list ArtifactRole;
  declared_languages : list text;
  declared_context_tokens : option Z
}.

Inductive ManifestError :=
| ManifestUnsupportedSchema (version : Z) | ManifestIdentityMismatch | EmptyArtifact | ManifestInvalidMetadata
| InvalidLicenses | ManifestInvalidCapabilities.

(** [validate_declared_capabilities]; a set has as many elements as the list
    when the list has no repetition. *)
Definition validate_declared_capabilities (v : DeclaredCapabilities) : Result ManifestError unit :=
  if (vlen (declared_roles v) =? 0) || (16 <? vlen (declared_roles v)) || (128 <? vlen (declared_languages v))
  then Err ManifestInvalidCapabilities
  else if negb (bool_decide (NoDup (declared_roles v))) || negb (bool_decide (NoDup (declared_languages v)))
     || bool_decide (declared_context_tokens v = Some 0)
     || existsb (fun language => negb (valid_bounded_text language 64)) (declared_languages v)
  then Err ManifestInvalidCapabilities
  else Ok tt.

(** The loop over the licenses, with the components seen so far. *)
Fixpoint validate_licenses (components : gset text) (licenses : list LicenseRecord) : bool :=
  match licenses with
  | [] => true
  | license :: licenses' =>
      valid_bounded_text (license_component license) 128 && valid_bounded_text (license_identifier license) 256
      && bool_decide (license_component license ∉ components)
      && validate_licenses ({[license_component license]} ∪ components) licenses'
  end.

Module ArtifactManifest.

Record t := mk {
  schema_version : Z;
  artifact_id : ArtifactId.t;
  source : ArtifactSource;
  artifact_digest : Digest.t;
  byte_size : Z;
  format : text;
  family : text;
  architecture : option text;
  quantization : option text;
  tokenizer : option TokenizerIdentity;
  licenses : list LicenseRecord;
  declared_capabilities : DeclaredCapabilities
}.

(** [ArtifactManifest::validate]. *)
Definition validate (m : t) : Result ManifestError unit :=
  if negb (schema_version m =? ARTIFACT_MANIFEST_SCHEMA_VERSION) then Err (ManifestUnsupportedSchema (schema_version m))
  else if negb (bool_decide (ArtifactId.digest (artifact_id m) = artifact_digest m)) then Err ManifestIdentityMismatch
  else if byte_size m =? 0 then Err EmptyArtifact
  else if existsb (fun value => negb (valid_bounded_text value 256))
            [origin (source m); revision (source m); format m; family m]
  then Err ManifestInvalidMetadata
  else if existsb (fun value => negb (valid_bounded_text value 256)) (option_list (architecture m) ++ option_list (quantization m))
     || match tokenizer m with Some t => negb (valid_bounded_text (tokenizer_family t) 256) | None => false end
  then Err ManifestInvalidMetadata
  else if (vlen (licenses m) =? 0) || (32 <? vlen (licenses m)) then Err InvalidLicenses
  else if negb (validate_licenses ∅ (licenses m)) then Err InvalidLicenses
  else validate_declared_capabilities (declared_capabilities m).

End ArtifactManifest.

(** ** Qualification *)

Definition QUALIFICATION_SCHEMA_VERSION : Z := 1.

Module QualificationId.

Record t := mk { digest : Digest.t }.
#[global] Instance eq_dec : EqDecision t.
Proof. solve_decision. Defined.

End QualificationId.

Record HardwareTier := { tier_id : text; memory_mib : Z; accelerator : text }.

Inductive LicenseDecision := LocalUseOnly | RedistributionApproved | LicenseRejected.
#[global] Instance license_decision_eq_dec : EqDecision LicenseDecision.
Proof. solve_decision. Defined.

Inductive QualificationStatus := Qualified | QualificationRejected.
#[global] Instance qualification_status_eq_dec : EqDecision QualificationStatus.
Proof. solve_decision. Defined.

Inductive QualificationRecordError :=
| RecordUnsupportedSchema (version : Z) | RecordArtifactMismatch | RecordInvalidMetadata | InvalidRoles
| UnsupportedRole | RecordInvalidPolicy.

(** [append_text], [append_digest] and [append_optional_digest]. *)
Definition append_text (value : text) : bytes := be_bytes 8 (slen value) ++ as_bytes value.
Definition append_record_digest (value : Digest.t) : bytes := as_bytes (Digest.as_str value).
Definition append_optional_digest (value : option Digest.t) : bytes :=
  match value with Some value => [1] ++ append_record_digest value | None => [0] end.
Definition license_identity_byte (d : LicenseDecision) : Z :=
  match d with LocalUseOnly => 0 | RedistributionApproved => 1 | LicenseRejected => 2 end.
Definition status_identity_byte (s : QualificationStatus) : Z :=
  match s with Qualified => 0 | QualificationRejected => 1 end.

Module QualificationRecord.

Record t := mk {
  schema_version : Z;
  artifact_id : ArtifactId.t;
  artifact_digest : Digest.t;
  runtime : RuntimeIdentity.t;
  operating_system : text;
  hardware_tier : HardwareTier;
  supported_roles : list ArtifactRole;
  source_byte_limit : Z;
  context_token_limit : Z;
  prompt_template_digest : Digest.t;
  request_policy_digest : Digest.t;
  threshold_policy_digest : Digest.t;
  license_decision : LicenseDecision;
  status : QualificationStatus
}.

(** [QualificationRecord::validate]; [role_index] is [role_identity_byte]. *)
Definition validate (q : t) : Result QualificationRecordError unit :=
  if negb (schema_version q =? QUALIFICATION_SCHEMA_VERSION) then Err (RecordUnsupportedSchema (schema_version q))
  else if negb (bool_decide (ArtifactId.digest (artifact_id q) = artifact_digest q)) then Err RecordArtifactMismatch
  else if existsb (fun value => negb (valid_bounded_text value 128))
            [RuntimeIdentity.backend (runtime q); RuntimeIdentity.version (runtime q); operating_system q;
             tier_id (hardware_tier q); accelerator (hardware_tier q)]
  then Err RecordInvalidMetadata
  else if (16 <? vlen (supported_roles q))
     || negb (windows_all (fun a b => role_index a <? role_index b) (supported_roles q))
     || (bool_decide (status q = Qualified) && (vlen (supported_roles q) =? 0))
  then Err InvalidRoles
  else if existsb (fun r => bool_decide (r = ClaimExtractionRole)) (supported_roles q) then Err UnsupportedRole
  else if (source_byte_limit q =? 0) || (context_token_limit q =? 0) || (memory_mib (hardware_tier q) =? 0)
     || (bool_decide (status q = Qualified) && bool_decide (license_decision q = LicenseRejected))
  then Err RecordInvalidPolicy
  else Ok tt.

(** The identity material of [QualificationRecord::qualification_id]. *)
Definition material (q : t) : bytes :=
  as_bytes (lit "retonr:qualification-record:v1" ++ [0])
  ++ be_bytes 4 (schema_version q)
  ++ append_record_digest (ArtifactId.digest (artifact_id q))
  ++ append_record_digest (artifact_digest q)
  ++ append_text (RuntimeIdentity.backend (runtime q))
  ++ append_text (RuntimeIdentity.version (runtime q))
  ++ append_optional_digest (RuntimeIdentity.digest (runtime q))
  ++ append_text (operating_system q)
  ++ append_text (tier_id (hardware_tier q))
  ++ be_bytes 8 (memory_mib (hardware_tier q))
  ++ append_text (accelerator (hardware_tier q))
  ++ be_bytes 8 (vlen (supported_roles q))
  ++ map role_index (supported_roles q)
  ++ be_bytes 8 (source_byte_limit q)
  ++ be_bytes 4 (context_token_limit q)
  ++ append_record_digest (prompt_template_digest q)
  ++ append_record_digest (request_policy_digest q)
  ++ append_record_digest (threshold_policy_digest q)
  ++ [license_identity_byte (license_decision q)]
  ++ [status_identity_byte (status q)].

(** [QualificationRecord::qualification_id]. *)
Definition qualification_id `{SHA : Sha256} (q : t) : Result QualificationRecordError QualificationId.t :=
  _ ← validate q; Ok (QualificationId.mk (sha256 (material q))).

(** [QualificationRecord::authorizes]. *)
Definition authorizes (q : t) (artifact : ArtifactId.t) (role : ArtifactRole) : bool :=
  is_ok (validate q)
  && bool_decide (status q = Qualified)
  && negb (bool_decide (license_decision q = LicenseRejected))
  && bool_decide (artifact_id q = artifact)
  && bool_decide (ArtifactId.digest (artifact_id q) = artifact_digest q)
  && (0 <? source_byte_limit q)
  && (0 <? context_token_limit q)
  && existsb (fun r => bool_decide (r = role)) (supported_roles q).

End QualificationRecord.

(** ** Activation *)

Module ActivationId.

Record t := mk { digest : Digest.t }.
#[global] Instance eq_dec : EqDecision t.
Proof. solve_decision. Defined.

End ActivationId.

Inductive InstallationError := InvalidState | IdentityMismatch.

(** [str::split] on a character. *)
Fixpoint split_on (c : Z) (s : text) : list text :=
  match s with
  | [] => [[]]
  | d :: s' =>
      if d =? c then [] :: split_on c s'
      else match split_on c s' with [] => [[d]] | first :: rest => (d :: first) :: rest end
  end.

(** [valid_storage_key]. *)
Definition valid_storage_key (value : text) : bool :=
  negb (slen value =? 0) && (slen value <=? 128) &&
  forallb (fun segment =>
    negb (slen segment =? 0) && negb (text_eqb segment (lit ".")) && negb (text_eqb segment (lit ".."))
    && forallb (fun b => is_ascii_alphanumeric b || existsb (Z.eqb b) [45; 95; 46]) (as_bytes segment))
    (split_on 47 value).

Module InstalledArtifact.

Record t := mk {
  artifact_id : ArtifactId.t;
  artifact_digest : Digest.t;
  byte_size : Z;
  storage_key : text
}.
#[global] Instance eq_dec : EqDecision t.
Proof. solve_decision. Defined.

(** [InstalledArtifact::validate]. *)
Definition validate (i : t) : Result InstallationError unit :=
  if (byte_size i =? 0) || negb (valid_storage_key (storage_key i)) then Err InvalidState
  else if negb (bool_decide (ArtifactId.digest (artifact_id i) = artifact_digest i)) then Err IdentityMismatch
  else Ok tt.

End InstalledArtifact.

Module QualificationInvalidation.

Record t := mk { qualification_id : QualificationId.t; reason_code : text }.

Inductive QualificationInvalidationError := InvalidReasonCode.

(** [QualificationInvalidation::validate]. *)
Definition validate (i : t) : Result QualificationInvalidationError unit :=
  if negb (slen (reason_code i) =? 0) && (slen (reason_code i) <=? 64)
     && forallb (fun b => is_ascii_lowercase b || is_ascii_digit b || (b =? 95)) (as_bytes (reason_code i))
  then Ok tt else Err InvalidReasonCode.

End QualificationInvalidation.

Inductive ActivationAction := Activate | Deactivate.
#[global] Instance activation_action_eq_dec : EqDecision ActivationAction.
Proof. solve_decision. Defined.

Module ActivationDecision.

Record t := mk {
  activation_id : ActivationId.t;
  action : ActivationAction;
  role : ArtifactRole;
  artifact_id : option ArtifactId.t;
  qualification_id : option QualificationId.t
}.
#[global] Instance eq_dec : EqDecision t.
Proof. solve_decision. Defined.

Inductive ActivationDecisionError := InvalidDecision.

(** [ActivationDecision::validate]. *)
Definition validate (d : t) : Result ActivationDecisionError unit :=
  let valid := match action d, artifact_id d, qualification_id d with
               | Activate, Some _, Some _ => true
               | Deactivate, None, None => true
               | _, _, _ => false
               end in
  if valid then Ok tt else Err InvalidDecision.

End ActivationDecision.

Module ActiveArtifactBinding.

Record t := mk {
  role : ArtifactRole;
  artifact_id : ArtifactId.t;
  qualification_id : QualificationId.t;
  artifact_digest : Digest.t
}.
#[global] Instance eq_dec : EqDecision t.
Proof. solve_decision. Defined.

End ActiveArtifactBinding.

Inductive ActivationError := InvalidInstallation | ActivationArtifactMismatch | InvalidatedQualification | UnqualifiedRole.

(** [activate]. *)
Definition activate `{SHA : Sha256} (installed : InstalledArtifact.t) (qualification : QualificationRecord.t)
    (invalidations : list QualificationInvalidation.t) (role : ArtifactRole)
  : Result ActivationError ActiveArtifactBinding.t :=
  _ ← map_err (fun e => match e with InvalidState => InvalidInstallation | IdentityMismatch => ActivationArtifactMismatch end)
        (InstalledArtifact.validate installed);
  if negb (bool_decide (ArtifactId.digest (InstalledArtifact.artifact_id installed) = InstalledArtifact.artifact_digest installed))
     || negb (bool_decide (InstalledArtifact.artifact_id installed = QualificationRecord.artifact_id qualification))
     || negb (bool_decide (InstalledArtifact.artifact_digest installed = QualificationRecord.artifact_digest qualification))
  then Err ActivationArtifactMismatch
  else
    id ← map_err (fun _ => UnqualifiedRole) (QualificationRecord.qualification_id qualification);
    if existsb (fun item => bool_decide (QualificationInvalidation.qualification_id item = id)) invalidations
    then Err InvalidatedQualification
    else if negb (QualificationRecord.authorizes qualification (InstalledArtifact.artifact_id installed) role)
    then Err UnqualifiedRole
    else Ok (ActiveArtifactBinding.mk role (InstalledArtifact.artifact_id installed) id
               (InstalledArtifact.artifact_digest installed)).

(** ** Lemmas: the encodings can be read back *)

Definition is_u32 (v : Z) : Prop := 0 <= v < 2 ^ 32.

Lemma record_digest_decodable : decodable digest_ok append_record_digest.
Proof.
  intros [a] [b] x y [Ha La] [Hb Lb]; unfold append_record_digest; cbn [Digest.as_str] in *.
  rewrite !as_bytes_ascii by done; intros H; apply app_inj_1 in H as [-> ->]; [done |].
  unfold vlen in *; lia.
Qed.

(** A text as Rust holds it. *)
Definition string_ok (s : text) : Prop := scalars s /\ slen s < 2 ^ 64.

Lemma text_decodable : decodable string_ok append_text.
Proof.
  intros a b x y [Ha La] [Hb Lb] H; unfold append_text in H; rewrite <- !as_bytes_length in H.
  apply append_part_decodable in H as [E ->]; [| by rewrite as_bytes_length ..].
  split; [by apply as_bytes_inj | done].
Qed.

Lemma optional_digest_decodable : decodable (from_option digest_ok True) append_optional_digest.
Proof.
  intros [a|] [b|] x y Ha Hb; cbn [append_optional_digest app from_option] in *; intros H; try done.
  - apply (byte_decodable 1 1) in H as [_ H]; by apply record_digest_decodable in H as [-> ->].
  - by apply (byte_decodable 0 0) in H as [_ ->].
Qed.

Lemma role_index_inj a b : role_index a = role_index b -> a = b.
Proof. by destruct a, b. Qed.

Lemma roles_inj (k l : list ArtifactRole) x y :
  vlen k = vlen l -> map role_index k ++ x = map role_index l ++ y -> k = l /\ x = y.
Proof.
  intros Hl H; apply app_inj_1 in H as [H ->]; [| rewrite !length_map; unfold vlen in Hl; lia]; split; [| done].
  clear Hl; revert l H; induction k as [|a k IH]; intros [|b l]; try done; intros [= Hi H]; f_equal; [by apply role_index_inj | by apply IH].
Qed.

(** Split an equality of encodings at its first field. *)
Ltac read_part L :=
  match goal with
  | H : _ ++ _ = _ ++ _ |- _ =>
      let E := fresh "E" in apply L in H as [E H]; [| (try done); unfold is_u32, is_u64, f32_valid in *; cbn; lia ..]
  end.


(** The fields of a record at their Rust types. *)
Record record_ok (q : QualificationRecord.t) : Prop := {
  ro_version : is_u32 (QualificationRecord.schema_version q);
  ro_id : digest_ok (ArtifactId.digest (QualificationRecord.artifact_id q));
  ro_digest : digest_ok (QualificationRecord.artifact_digest q);
  ro_backend : string_ok (RuntimeIdentity.backend (QualificationRecord.runtime q));
  ro_runtime : string_ok (RuntimeIdentity.version (QualificationRecord.runtime q));
  ro_runtime_digest : from_option digest_ok True (RuntimeIdentity.digest (QualificationRecord.runtime q));
  ro_system : string_ok (QualificationRecord.operating_system q);
  ro_tier : string_ok (tier_id (QualificationRecord.hardware_tier q));
  ro_memory : is_u64 (memory_mib (QualificationRecord.hardware_tier q));
  ro_accelerator : string_ok (accelerator (QualificationRecord.hardware_tier q));
  ro_roles : vlen (QualificationRecord.supported_roles q) < 2 ^ 64;
  ro_source : is_u64 (QualificationRecord.source_byte_limit q);
  ro_context : is_u32 (QualificationRecord.context_token_limit q);
  ro_prompt : digest_ok (QualificationRecord.prompt_template_digest q);
  ro_request : digest_ok (QualificationRecord.request_policy_digest q);
  ro_threshold : digest_ok (QualificationRecord.threshold_policy_digest q)
}.

Lemma qualification_material_inj a b :
  record_ok a -> record_ok b -> QualificationRecord.material a = QualificationRecord.material b -> a = b.
Proof.
  intros [] [] H; unfold QualificationRecord.material in H; apply app_inv_head in H.
  destruct a as [? [?] ? [? ? ?] ? [? ? ?] ? ? ? ? ? ? ? ?], b as [? [?] ? [? ? ?] ? [? ? ?] ? ? ? ? ? ? ? ?].
  cbn -[be_bytes append_text append_optional_digest append_record_digest app role_index license_identity_byte status_identity_byte map] in *.
  read_part (be_bytes_decodable 4). do 2 read_part record_digest_decodable. do 2 read_part text_decodable.
  read_part optional_digest_decodable. do 2 read_part text_decodable. read_part (be_bytes_decodable 8).
  read_part text_decodable. pose proof (vlen_nonneg supported_roles); pose proof (vlen_nonneg supported_roles0).
  read_part (be_bytes_decodable 8). apply roles_inj in H as [Er H]; [| done].
  read_part (be_bytes_decodable 8). read_part (be_bytes_decodable 4). do 3 read_part record_digest_decodable.
  apply byte_decodable in H as [El H]; injection H as Es.
  assert (license_decision = license_decision0) by by destruct license_decision, license_decision0.
  assert (status = status0) by by destruct status, status0.
  by subst.
Qed.

(** ** Theorems *)

(** C20. The identifier of a qualification record binds the whole record: two
    valid records with the same identifier are equal, unless SHA-256 collides
    on their encodings; an invalid record has no identifier. *)
Theorem qualification_id_binds `{SHA : Sha256} (a b : QualificationRecord.t) (id : QualificationId.t) :
  record_ok a -> record_ok b ->
  QualificationRecord.qualification_id a = Ok id -> QualificationRecord.qualification_id b = Ok id ->
  QualificationRecord.validate a = Ok tt /\ QualificationRecord.validate b = Ok tt /\
  (a = b \/ collision (QualificationRecord.material a) (QualificationRecord.material b)).
Proof.
  intros Ha Hb; unfold QualificationRecord.qualification_id; intros H H'; apply bind_ok in H as ([] & Va & [= <-]).
  apply bind_ok in H' as ([] & Vb & [= Hd]); split_and!; [done | done |].
  destruct (decide (QualificationRecord.material a = QualificationRecord.material b)) as [E|E];
    [left; by apply qualification_material_inj | right; split; [done |]].
  unfold sha256; by rewrite Hd.
Qed.

(** What makes an artifact fit for a role. *)
Record fit (installed : InstalledArtifact.t) (q : QualificationRecord.t) (role : ArtifactRole) : Prop := {
  ft_installed : InstalledArtifact.validate installed = Ok tt;
  ft_record : QualificationRecord.validate q = Ok tt;
  ft_artifact : InstalledArtifact.artifact_id installed = QualificationRecord.artifact_id q;
  ft_digest : InstalledArtifact.artifact_digest installed = QualificationRecord.artifact_digest q;
  ft_status : QualificationRecord.status q = Qualified;
  ft_role : role ∈ QualificationRecord.supported_roles q
}.

Lemma existsb_decide {A} `{EqDecision A} (x : A) l : existsb (fun y => bool_decide (y = x)) l = true <-> x ∈ l.
Proof.
  rewrite existsb_exists; split.
  - intros (y & Hy & E); apply bool_decide_eq_true in E as ->; by apply list_elem_of_In.
  - intros H; exists x; split; [by apply list_elem_of_In | by apply bool_decide_eq_true].
Qed.

Lemma validate_limits q :
  QualificationRecord.validate q = Ok tt ->
  QualificationRecord.source_byte_limit q <> 0 /\ QualificationRecord.context_token_limit q <> 0 /\
  ArtifactId.digest (QualificationRecord.artifact_id q) = QualificationRecord.artifact_digest q /\
  ClaimExtractionRole ∉ QualificationRecord.supported_roles q /\
  (QualificationRecord.status q = Qualified -> QualificationRecord.license_decision q <> LicenseRejected).
Proof.
  unfold QualificationRecord.validate; destruct (negb (_ =? _)); [done |].
  destruct (negb (bool_decide (ArtifactId.digest _ = _))) eqn:Ha; [done |]; destruct (existsb _ (_ :: _)); [done |].
  destruct (_ || _); [done |]; destruct (existsb _ (QualificationRecord.supported_roles q)) eqn:Hc; [done |].
  destruct (_ || _) eqn:Hp; [done |]; zbool; intros _; split_and!; try done.
  - rewrite <- existsb_decide, Hc; done.
  - intros Hq Hr; rewrite Hq, Hr in *; done.
Qed.

Lemma authorizes_iff q artifact role :
  0 <= QualificationRecord.source_byte_limit q -> 0 <= QualificationRecord.context_token_limit q ->
  QualificationRecord.authorizes q artifact role = true <->
  QualificationRecord.validate q = Ok tt /\ QualificationRecord.status q = Qualified /\
  QualificationRecord.artifact_id q = artifact /\ role ∈ QualificationRecord.supported_roles q.
Proof.
  intros Hs Hc; unfold QualificationRecord.authorizes; rewrite !andb_true_iff, !bool_decide_eq_true, existsb_decide.
  rewrite negb_true_iff, bool_decide_eq_false, !Z.ltb_lt; split.
  - intros (((((((Hv & Hq) & _) & Ha) & _) & _) & _) & Hr); split_and!; try done.
    destruct (QualificationRecord.validate q) as [[]| |]; done.
  - intros (Hv & Hq & Ha & Hr); destruct (validate_limits q Hv) as (H1 & H2 & H3 & _ & H4).
    rewrite Hv; split_and!; try done; try lia; by apply H4.
Qed.

(** An activation succeeds exactly when the installed artifact is valid,
    the qualification record is valid, has passed, covers that very artifact
    and digest and lists the role, and no invalidation names the record; the
    binding then carries the role, the artifact and the identifier of the
    record.  No record ever authorizes claim extraction. *)
Theorem activation_exact `{SHA : Sha256} (installed : InstalledArtifact.t) (q : QualificationRecord.t)
    (invalidations : list QualificationInvalidation.t) (role : ArtifactRole) (b : ActiveArtifactBinding.t) :
  0 <= QualificationRecord.source_byte_limit q -> 0 <= QualificationRecord.context_token_limit q ->
  (activate installed q invalidations role = Ok b <->
   fit installed q role /\
   exists id, QualificationRecord.qualification_id q = Ok id /\
     Forall (fun i => QualificationInvalidation.qualification_id i <> id) invalidations /\
     b = ActiveArtifactBinding.mk role (InstalledArtifact.artifact_id installed) id
           (InstalledArtifact.artifact_digest installed)) /\
  (activate installed q invalidations role = Ok b -> role <> ClaimExtractionRole).
Proof.
  intros Hs Hc.
  assert (Hiff : activate installed q invalidations role = Ok b <->
   fit installed q role /\ exists id, QualificationRecord.qualification_id q = Ok id /\
     Forall (fun i => QualificationInvalidation.qualification_id i <> id) invalidations /\
     b = ActiveArtifactBinding.mk role (InstalledArtifact.artifact_id installed) id (InstalledArtifact.artifact_digest installed)).
  { unfold activate; split.
    - intros H; apply bind_ok in H as ([] & Hi & H); apply map_err_ok in Hi; destruct (_ || _) eqn:Em; [done |]; zbool.
      apply bind_ok in H as (id & Hid & H); apply map_err_ok in Hid; destruct (existsb _ invalidations) eqn:Ei; [done |].
      destruct (QualificationRecord.authorizes _ _ _) eqn:Ea; [| done]; cbn [negb] in H; injection H as <-.
      apply authorizes_iff in Ea as (Hv & Hq & _ & Hr); [| done ..]; split; [by split |]; exists id; split_and!; [done | | done].
      apply Forall_forall; intros i Hin E; apply not_true_iff_false in Ei; apply Ei, existsb_exists.
      exists i; split; [by apply list_elem_of_In | by apply bool_decide_eq_true].
    - intros [[Hi Hv Ha Hd Hq Hr] (id & Hid & Hall & ->)]; rewrite Hi; cbn [map_err mbind result_bind].
      destruct (validate_limits q Hv) as (_ & _ & He & _); rewrite Ha, Hd, He, !bool_decide_eq_true_2 by done; cbn [negb orb].
      rewrite Hid; cbn [map_err mbind result_bind]; destruct (existsb _ invalidations) eqn:Ei.
      { exfalso; apply existsb_exists in Ei as (i & Hin & E); apply bool_decide_eq_true in E; rewrite Forall_forall in Hall.
        by apply (Hall i); [apply list_elem_of_In |]. }
      assert (QualificationRecord.authorizes q (QualificationRecord.artifact_id q) role = true) as -> by (by apply authorizes_iff).
      done. }
  split; [done |]; rewrite Hiff; intros [[_ Hv _ _ _ Hr] _] ->; by destruct (validate_limits q Hv) as (_ & _ & _ & Hno & _).
Qed.
