(* ===== verification/Inference.v ===== *)
(** * The inference port ([inference/src]).

    Identities and limits of a generation request, the structured completion
    request derived from it, the digests that bind them, and the port itself:
    discovery, generation and structured completion behind a cancellation
    token and a deadline.  The schemas are constants of the sources and kept
    whole, because their digests are what a backend admits. *)

From S2P Require Import Prelude Text Float32 Document Claims Json Model.

(** ** Errors *)

Inductive ContractError :=
| InvalidCapabilities | UnsupportedSchema | ArtifactMismatch | InvalidLimits | InvalidCandidateCount
| InvalidSampling | InvalidOutputContract | InvalidStructuredResponse.

Inductive InferenceErrorKind :=
| KindCancelled | KindDeadline | KindRetryable | KindCompatibility | KindPolicy
| KindMalformedResponse | KindPermanent.
#[global] Instance inference_error_kind_eq_dec : EqDecision InferenceErrorKind.
Proof. solve_decision. Defined.

Record InferenceError := { error_kind : InferenceErrorKind; error_code : text }.

(** [InferenceError::new]. *)
Definition inference_error (kind : InferenceErrorKind) (code : text) : InferenceError :=
  {| error_kind := kind; error_code := code |}.

(** ** Labels *)

(** A lowercase machine label: not empty, bounded, of [a-z], [0-9], the
    hyphen and the underscore.  The test is on bytes; a byte of a longer
    character is none of these. *)
Definition machine_label (maximum : Z) (value : text) : bool :=
  negb (slen value =? 0) && (slen value <=? maximum) &&
  forallb (fun b => is_ascii_lowercase b || is_ascii_digit b || (b =? 45) || (b =? 95)) (as_bytes value).

Module BackendId.

Record t := mk { as_str : text }.
#[global] Instance eq_dec : EqDecision t.
Proof. solve_decision. Defined.

Inductive BackendIdError := InvalidBackendId.

(** [BackendId::from_str]. *)
Definition from_str (value : text) : Result BackendIdError t :=
  if machine_label 64 value then Ok (mk value) else Err InvalidBackendId.

(** [BackendId::new]. *)
Definition new (value : text) : Result BackendIdError t := from_str value.

(** The [Deserialize] implementation. *)
Definition decode (v : Json) : option t := value ← decode_string v; result_ok (from_str value).

End BackendId.

(** ** Output contracts *)

Definition GENERATION_REQUEST_SCHEMA_VERSION : Z := 1.
Definition MAX_INFERENCE_CANDIDATES : Z := 16.
Definition MAX_DISCOVERED_OUTPUT_CONTRACTS : Z := 64.
Definition MAX_OUTPUT_SCHEMA_BYTES : Z := 65536.

(** A byte count as a [u64]. *)
Definition len_u64 (s : text) : Z := default u64_max (try_from u64_max (slen s)).

Module OutputContract.

Record t := mk { schema_digest : Digest.t; schema_json : text }.
#[global] Instance eq_dec : EqDecision t.
Proof. solve_decision. Defined.

(** [OutputContract::validate]: the text is one complete JSON object. *)
Definition validate `{SHA : Sha256} `{JSON : JsonCodec} (o : t) : Result ContractError unit :=
  if (slen (schema_json o) =? 0) || (MAX_OUTPUT_SCHEMA_BYTES <? slen (schema_json o))
     || negb (bool_decide (sha256 (as_bytes (schema_json o)) = schema_digest o))
  then Err InvalidOutputContract
  else match Json.from_str (schema_json o) with
       | Some (JObject _) => Ok tt
       | _ => Err InvalidOutputContract
       end.

End OutputContract.

(** ** Capabilities and discovery *)

Module InferenceCapabilities.

Record t := mk {
  roles : list ArtifactRole;
  admitted_output_contract_digests : list Digest.t;
  seed : bool;
  disable_reasoning : bool
}.

(** [InferenceCapabilities::validate]. *)
Definition validate (c : t) : Result ContractError unit :=
  if (vlen ALL_ROLES <? vlen (roles c))
     || (MAX_DISCOVERED_OUTPUT_CONTRACTS <? vlen (admitted_output_contract_digests c))
     || negb (windows_all (fun a b => role_index a <? role_index b) (roles c))
     || negb (windows_all (fun a b => str_lt (Digest.as_str a) (Digest.as_str b)) (admitted_output_contract_digests c))
  then Err InvalidCapabilities
  else Ok tt.

(** [InferenceCapabilities::admits_output]. *)
Definition admits_output (c : t) (output : OutputContract.t) : bool :=
  is_ok (validate c) &&
  existsb (fun d => bool_decide (d = OutputContract.schema_digest output)) (admitted_output_contract_digests c).

End InferenceCapabilities.

Module InventoryEntry.

Record t := mk {
  reference : text;
  artifact_id : ArtifactId.t;
  artifact_digest : Digest.t;
  byte_size : option Z
}.

End InventoryEntry.

Module BackendDiscovery.

Record t := mk {
  backend_id : BackendId.t;
  runtime : RuntimeIdentity.t;
  capabilities : InferenceCapabilities.t;
  inventory : list InventoryEntry.t
}.

End BackendDiscovery.

(** ** Sampling and reasoning *)

Inductive ReasoningPolicy := Disabled | Discard.
#[global] Instance reasoning_policy_eq_dec : EqDecision ReasoningPolicy.
Proof. solve_decision. Defined.

Module SamplingParameters.

Record t := mk { temperature : f32; top_p : f32; seed : option Z }.
#[global] Instance eq_dec : EqDecision t.
Proof. solve_decision. Defined.

End SamplingParameters.

(** [2.0], [0x4000_0000]. *)
Definition f32_two : f32 := 1073741824.

(** The sampling test of both requests, of the grounded policy and of claim
    extraction. *)
Definition valid_sampling (s : SamplingParameters.t) : bool :=
  let t := SamplingParameters.temperature s in
  is_finite t && (f32_le f32_zero t && f32_le t f32_two) && in_unit_interval (SamplingParameters.top_p s).

(** ** The schemas

    Written with the apostrophe for the quotation mark. *)
Definition json_lit (s : string) : text := map (fun c => if c =? 39 then 34 else c) (lit s).

Definition CANDIDATE_SCHEMA : text :=
  json_lit "{'$schema':'https://json-schema.org/draft/2020-12/schema','type':'object','additionalProperties':fal"
  ++ json_lit "se,'required':['candidates'],'properties':{'candidates':{'type':'array','minItems':1,'maxItems':16,'"
  ++ json_lit "items':{'type':'object','additionalProperties':false,'required':['text'],'properties':{'text':{'type"
  ++ json_lit "':'string'}}}}}}".

Definition CLAIM_SCHEMA : text :=
  json_lit "{'$schema':'https://json-schema.org/draft/2020-12/schema','type':'object','additionalProperties':fal"
  ++ json_lit "se,'required':['status','unit_id','text_digest','claims'],'properties':{'status':{'type':'string','e"
  ++ json_lit "num':['complete','partial','abstained','failed']},'unit_id':{'type':'string','minLength':1,'maxLengt"
  ++ json_lit "h':128},'text_digest':{'type':'string','pattern':'^[0-9a-f]{64}$'},'claims':{'type':'array','maxItem"
  ++ json_lit "s':256,'items':{'type':'object','additionalProperties':false,'required':['claim_id','predicate_id','"
  ++ json_lit "polarity','modality','condition_count','attributed','evidence_spans','confidence_ppm'],'properties':"
  ++ json_lit "{'claim_id':{'type':'string','pattern':'^[0-9a-f]{64}$'},'subject_id':{'type':['string','null'],'pat"
  ++ json_lit "tern':'^[0-9a-f]{64}$'},'predicate_id':{'type':'string','pattern':'^[0-9a-f]{64}$'},'object_id':{'ty"
  ++ json_lit "pe':['string','null'],'pattern':'^[0-9a-f]{64}$'},'polarity':{'type':'string','enum':['affirmed','ne"
  ++ json_lit "gated','unknown']},'modality':{'type':'string','enum':['asserted','required','permitted','possible',"
  ++ json_lit "'conditional','unknown']},'condition_count':{'type':'integer','minimum':0,'maximum':65535},'attribut"
  ++ json_lit "ed':{'type':'boolean'},'evidence_spans':{'type':'array','minItems':1,'maxItems':16,'items':{'type':'"
  ++ json_lit "object','additionalProperties':false,'required':['start','end'],'properties':{'start':{'type':'integ"
  ++ json_lit "er','minimum':0},'end':{'type':'integer','minimum':0}}}},'confidence_ppm':{'type':'integer','minimum"
  ++ json_lit "':0,'maximum':1000000}}}}}}".

(** [candidate_output_contract]. *)
Definition candidate_output_contract `{SHA : Sha256} : OutputContract.t := {|
  OutputContract.schema_digest := sha256 (as_bytes CANDIDATE_SCHEMA);
  OutputContract.schema_json := CANDIDATE_SCHEMA |}.

(** [claim_output_contract]. *)
Definition claim_output_contract `{SHA : Sha256} : OutputContract.t := {|
  OutputContract.schema_digest := sha256 (as_bytes CLAIM_SCHEMA);
  OutputContract.schema_json := CLAIM_SCHEMA |}.

(** ** Requests *)

(** Both requests hash their fields one after the other: integers big-endian
    at their width, texts after their length, digests as their sixty-four
    characters, an absent seed as a zero byte. *)
Definition append_optional_u64 (value : option Z) : bytes :=
  match value with Some value => [1] ++ be_bytes 8 value | None => [0] end.
Definition reasoning_byte (r : ReasoningPolicy) : Z := match r with Disabled => 0 | Discard => 1 end.

Module GenerationRequest.

Record t := mk {
  schema_version : Z;
  artifact_id : ArtifactId.t;
  artifact_digest : Digest.t;
  input : text;
  output : OutputContract.t;
  candidate_count : Z;
  source_byte_count : Z;
  source_byte_limit : Z;
  input_byte_limit : Z;
  context_token_limit : Z;
  output_token_limit : Z;
  candidate_byte_limit : Z;
  sampling : SamplingParameters.t;
  reasoning : ReasoningPolicy
}.

(** [GenerationRequest::validate]. *)
Definition validate `{SHA : Sha256} `{JSON : JsonCodec} (r : t) : Result ContractError unit :=
  if negb (schema_version r =? GENERATION_REQUEST_SCHEMA_VERSION) then Err UnsupportedSchema
  else if negb (bool_decide (ArtifactId.digest (artifact_id r) = artifact_digest r)) then Err ArtifactMismatch
  else
    let input_byte_count := len_u64 (input r) in
    if (source_byte_limit r <? source_byte_count r) || (source_byte_limit r =? 0) || (input_byte_limit r =? 0)
       || (context_token_limit r =? 0) || (output_token_limit r =? 0) || (candidate_byte_limit r =? 0)
       || (input_byte_limit r <? input_byte_count)
    then Err InvalidLimits
    else if (candidate_count r =? 0) || (MAX_INFERENCE_CANDIDATES <? candidate_count r) then Err InvalidCandidateCount
    else if negb (valid_sampling (sampling r)) then Err InvalidSampling
    else OutputContract.validate (output r).

(** The bytes [GenerationRequest::binding_digest] hashes. *)
Definition material (r : t) : bytes :=
  as_bytes (lit "retonr:generation-request:v1" ++ [0])
  ++ be_bytes 4 (schema_version r)
  ++ append_record_digest (ArtifactId.digest (artifact_id r))
  ++ append_record_digest (artifact_digest r)
  ++ append_text (input r)
  ++ append_record_digest (OutputContract.schema_digest (output r))
  ++ append_text (OutputContract.schema_json (output r))
  ++ [candidate_count r]
  ++ be_bytes 8 (source_byte_count r)
  ++ be_bytes 8 (source_byte_limit r)
  ++ be_bytes 8 (input_byte_limit r)
  ++ be_bytes 4 (context_token_limit r)
  ++ be_bytes 4 (output_token_limit r)
  ++ be_bytes 8 (candidate_byte_limit r)
  ++ be_bytes 4 (SamplingParameters.temperature (sampling r))
  ++ be_bytes 4 (SamplingParameters.top_p (sampling r))
  ++ append_optional_u64 (SamplingParameters.seed (sampling r))
  ++ [reasoning_byte (reasoning r)].

(** [GenerationRequest::binding_digest]. *)
Definition binding_digest `{SHA : Sha256} (r : t) : Digest.t := sha256 (material r).

End GenerationRequest.

Definition STRUCTURED_COMPLETION_REQUEST_SCHEMA_VERSION : Z := 1.

Module StructuredCompletionRequest.

Record t := mk {
  schema_version : Z;
  artifact_id : ArtifactId.t;
  artifact_digest : Digest.t;
  input : text;
  output : OutputContract.t;
  source_byte_count : Z;
  source_byte_limit : Z;
  input_byte_limit : Z;
  context_token_limit : Z;
  output_token_limit : Z;
  output_byte_limit : Z;
  sampling : SamplingParameters.t;
  reasoning : ReasoningPolicy
}.

(** [StructuredCompletionRequest::validate]. *)
Definition validate `{SHA : Sha256} `{JSON : JsonCodec} (r : t) : Result ContractError unit :=
  if negb (schema_version r =? STRUCTURED_COMPLETION_REQUEST_SCHEMA_VERSION) then Err UnsupportedSchema
  else if negb (bool_decide (ArtifactId.digest (artifact_id r) = artifact_digest r)) then Err ArtifactMismatch
  else
    let input_byte_count := len_u64 (input r) in
    if (source_byte_limit r <? source_byte_count r) || (source_byte_limit r =? 0) || (input_byte_limit r =? 0)
       || (context_token_limit r =? 0) || (output_token_limit r =? 0) || (output_byte_limit r =? 0)
       || (input_byte_limit r <? input_byte_count)
    then Err InvalidLimits
    else if negb (valid_sampling (sampling r)) then Err InvalidSampling
    else OutputContract.validate (output r).

(** The bytes [StructuredCompletionRequest::binding_digest] hashes. *)
Definition material (r : t) : bytes :=
  as_bytes (lit "retonr:structured-completion-request:v1" ++ [0])
  ++ be_bytes 4 (schema_version r)
  ++ append_record_digest (ArtifactId.digest (artifact_id r))
  ++ append_record_digest (artifact_digest r)
  ++ append_text (input r)
  ++ append_record_digest (OutputContract.schema_digest (output r))
  ++ append_text (OutputContract.schema_json (output r))
  ++ be_bytes 8 (source_byte_count r)
  ++ be_bytes 8 (source_byte_limit r)
  ++ be_bytes 8 (input_byte_limit r)
  ++ be_bytes 4 (context_token_limit r)
  ++ be_bytes 4 (output_token_limit r)
  ++ be_bytes 8 (output_byte_limit r)
  ++ be_bytes 4 (SamplingParameters.temperature (sampling r))
  ++ be_bytes 4 (SamplingParameters.top_p (sampling r))
  ++ append_optional_u64 (SamplingParameters.seed (sampling r))
  ++ [reasoning_byte (reasoning r)].

(** [StructuredCompletionRequest::binding_digest]. *)
Definition binding_digest `{SHA : Sha256} (r : t) : Digest.t := sha256 (material r).

End StructuredCompletionRequest.

(** ** Responses *)

Record GenerationCandidate := { ordinal : Z; gen_text : text }.

Record UsageObservation := {
  input_tokens : option Z;
  output_tokens : option Z;
  generation_micros : option Z
}.

Module GenerationResponse.

Record t := mk {
  runtime : RuntimeIdentity.t;
  artifact_id : ArtifactId.t;
  artifact_digest : Digest.t;
  candidates : list GenerationCandidate;
  usage : UsageObservation
}.

End GenerationResponse.

Inductive StructuredCompletionFinish := FinishComplete.

Module StructuredCompletionResponse.

Record t := mk {
  runtime : RuntimeIdentity.t;
  artifact_id : ArtifactId.t;
  artifact_digest : Digest.t;
  request_binding_digest : Digest.t;
  output_json : text;
  usage : UsageObservation;
  finish : StructuredCompletionFinish
}.

(** [is_complete_json]. *)
Definition is_complete_json `{JSON : JsonCodec} (value : text) : bool := json_ignored value.

(** [StructuredCompletionResponse::complete]. *)
Definition complete `{SHA : Sha256} `{JSON : JsonCodec} (request : StructuredCompletionRequest.t)
    (runtime : RuntimeIdentity.t) (artifact_id : ArtifactId.t) (artifact_digest : Digest.t)
    (output_json : text) (usage : UsageObservation) : Result ContractError t :=
  _ ← StructuredCompletionRequest.validate request;
  let output_bytes := len_u64 output_json in
  if negb (bool_decide (artifact_id = StructuredCompletionRequest.artifact_id request))
     || negb (bool_decide (artifact_digest = StructuredCompletionRequest.artifact_digest request))
     || (StructuredCompletionRequest.output_byte_limit request <? output_bytes)
     || negb (is_complete_json output_json)
  then Err InvalidStructuredResponse
  else Ok (mk runtime artifact_id artifact_digest (StructuredCompletionRequest.binding_digest request)
             output_json usage FinishComplete).

End StructuredCompletionResponse.

(** ** The port

    A backend call is a future.  Polled, it is pending or done with a
    result; a service that awaits it is pending with it.  The world [W] is
    what the calls share: the cancellation token, the clock, the backend. *)
Definition Async (W E A : Type) : Type := W -> option (Result E A * W).

#[global] Instance async_ret {W E} : MRet (Async W E) := fun A a w => Some (Ok a, w).
#[global] Instance async_bind {W E} : MBind (Async W E) := fun A B f m w =>
  match m w with
  | Some (Ok a, w') => f a w'
  | Some (Err e, w') => Some (Err e, w')
  | Some (Panic, w') => Some (Panic, w')
  | None => None
  end.

(** A computation that does not await. *)
Definition immediate {W E A} (r : Result E A) : Async W E A := fun w => Some (r, w).
Definition await_map_err {W E F A} (f : E -> F) (m : Async W E A) : Async W F A := fun w =>
  match m w with Some (r, w') => Some (map_err f r, w') | None => None end.

(** The token and the clock: [CancellationToken::is_cancelled], the answers
    the token will give from here on, and [Instant::now]. *)
Class OperationWorld (W : Type) := {
  token_is_cancelled : W -> bool * W;
  token_answers : W -> nat -> bool;
  instant_now : W -> Z * W
}.

Record OperationContext := { deadline : option Z }.

(** [OperationContext::is_cancelled] and [OperationContext::is_expired]. *)
Definition is_cancelled {W E} `{OperationWorld W} : Async W E bool := fun w =>
  let '(answer, w) := token_is_cancelled w in Some (Ok answer, w).
Definition is_expired {W E} `{OperationWorld W} (context : OperationContext) : Async W E bool := fun w =>
  match deadline context with
  | None => Some (Ok false, w)
  | Some deadline => let '(now, w) := instant_now w in Some (Ok (deadline <=? now), w)
  end.

(** [InferenceBackend]. *)
Record InferenceBackend (W : Type) := {
  discover : OperationContext -> Async W InferenceError BackendDiscovery.t;
  generate_candidates : GenerationRequest.t -> OperationContext -> Async W InferenceError GenerationResponse.t;
  complete_structured :
    StructuredCompletionRequest.t -> OperationContext -> Async W InferenceError StructuredCompletionResponse.t
}.
Arguments discover {W} _ _.
Arguments generate_candidates {W} _ _ _.
Arguments complete_structured {W} _ _ _.

(** ** Lemmas: awaiting *)

Lemma async_bind_ok {W E A B} (m : Async W E A) (f : A -> Async W E B) b w w' :
  (m ≫= f) w = Some (Ok b, w') -> exists a w1, m w = Some (Ok a, w1) /\ f a w1 = Some (Ok b, w').
Proof.
  unfold mbind, async_bind; destruct (m w) as [[[a|e|] w1]|]; intros H; try discriminate; eauto.
Qed.

Lemma async_bind_err {W E A B} (m : Async W E A) (f : A -> Async W E B) e w w' :
  (m ≫= f) w = Some (Err e, w') ->
  m w = Some (Err e, w') \/ exists a w1, m w = Some (Ok a, w1) /\ f a w1 = Some (Err e, w').
Proof.
  unfold mbind, async_bind; destruct (m w) as [[[a|e'|] w1]|]; intros H; try discriminate; [right; eauto |].
  injection H as -> ->; by left.
Qed.

Lemma await_err {W E F A} (f : E -> F) (m : Async W E A) e w w' :
  await_map_err f m w = Some (Err e, w') -> exists e', m w = Some (Err e', w') /\ e = f e'.
Proof. unfold await_map_err; destruct (m w) as [[[b|e'|] w1]|]; intros H; inversion H; subst; eauto. Qed.

Lemma async_bind_step {W E A B} (m : Async W E A) (f : A -> Async W E B) w r w1 :
  m w = Some (r, w1) ->
  (m ≫= f) w = match r with Ok a => f a w1 | Err e => Some (Err e, w1) | Panic => Some (Panic, w1) end.
Proof. unfold mbind, async_bind; intros ->; by destruct r. Qed.

Lemma await_ok {W E F A} (f : E -> F) (m : Async W E A) a w w' :
  await_map_err f m w = Some (Ok a, w') -> m w = Some (Ok a, w').
Proof. unfold await_map_err; destruct (m w) as [[[b|e|] w1]|]; intros H; inversion H; done. Qed.

(** A future that never panics, and one that is never pending. *)
Definition steady {W E A} (m : Async W E A) : Prop := forall w w', m w <> Some (Panic, w').
Definition ready {W E A} (m : Async W E A) : Prop := forall w, m w <> None.

Lemma steady_bind {W E A B} (m : Async W E A) (f : A -> Async W E B) :
  steady m -> (forall a, steady (f a)) -> steady (m ≫= f).
Proof.
  unfold steady, mbind, async_bind; intros Hm Hf w w'; specialize (Hm w).
  destruct (m w) as [[[a|e|] w1]|]; [apply Hf | done | exfalso; by eapply Hm | done].
Qed.
Lemma ready_bind {W E A B} (m : Async W E A) (f : A -> Async W E B) :
  ready m -> (forall a, ready (f a)) -> ready (m ≫= f).
Proof.
  unfold ready, mbind, async_bind; intros Hm Hf w; specialize (Hm w).
  destruct (m w) as [[[a|e|] w1]|]; [apply Hf | done | done | done].
Qed.
Lemma steady_immediate {W E A} (r : Result E A) : r <> Panic -> @steady W E A (immediate r).
Proof. unfold immediate; intros Hr w w' H; by injection H as -> _. Qed.
Lemma ready_immediate {W E A} (r : Result E A) : @ready W E A (immediate r).
Proof. done. Qed.
Lemma steady_await {W E F A} (f : E -> F) (m : Async W E A) : steady m -> steady (await_map_err f m).
Proof.
  unfold steady, await_map_err; intros Hm w w'; specialize (Hm w).
  destruct (m w) as [[[a|e|] w1]|]; cbn; [done | done | exfalso; by eapply Hm | done].
Qed.
Lemma ready_await {W E F A} (f : E -> F) (m : Async W E A) : ready m -> ready (await_map_err f m).
Proof. unfold ready, await_map_err; intros Hm w; specialize (Hm w); by destruct (m w) as [[r w1]|]. Qed.

(** A backend whose calls do not panic, and one whose calls answer at once. *)
Record steady_backend {W} (b : InferenceBackend W) : Prop := {
  steady_discover : forall context, steady (discover b context);
  steady_generate : forall request context, steady (generate_candidates b request context);
  steady_complete : forall request context, steady (complete_structured b request context)
}.
Record ready_backend {W} (b : InferenceBackend W) : Prop := {
  ready_discover : forall context, ready (discover b context);
  ready_generate : forall request context, ready (generate_candidates b request context);
  ready_complete : forall request context, ready (complete_structured b request context)
}.

Create HintDb futures.
#[export] Hint Resolve steady_bind ready_bind steady_immediate ready_immediate steady_await ready_await : futures.
#[export] Hint Resolve steady_discover steady_generate steady_complete ready_discover ready_generate ready_complete : futures.

Section Polls.
Context {W E : Type} `{OperationWorld W}.
Lemma steady_is_cancelled : @steady W E bool is_cancelled.
Proof. intros w w'; unfold is_cancelled; by destruct (token_is_cancelled w). Qed.
Lemma ready_is_cancelled : @ready W E bool is_cancelled.
Proof. intros w; unfold is_cancelled; by destruct (token_is_cancelled w). Qed.
Lemma steady_is_expired context : @steady W E bool (is_expired context).
Proof. intros w w'; unfold is_expired; destruct (deadline context); [by destruct (instant_now w) | done]. Qed.
Lemma ready_is_expired context : @ready W E bool (is_expired context).
Proof. intros w; unfold is_expired; destruct (deadline context); [by destruct (instant_now w) | done]. Qed.
End Polls.
#[export] Hint Resolve steady_is_cancelled ready_is_cancelled steady_is_expired ready_is_expired : futures.

(** Go through a computation await by await. *)
Ltac futures :=
  repeat match goal with
  | |- steady (_ ≫= _) => apply steady_bind; [| intros ?]
  | |- ready (_ ≫= _) => apply ready_bind; [| intros ?]
  | |- steady (if ?b then _ else _) => destruct b
  | |- ready (if ?b then _ else _) => destruct b
  end;
  try (apply steady_immediate; (done || by eapply safe_no_panic; eauto)); eauto with futures.

(** Split a completed computation at its awaits. *)
Ltac awaits :=
  repeat match goal with
  | H : (_ ≫= _) _ = Some (Ok _, _) |- _ =>
      let a := fresh "a" in let w := fresh "w" in let E := fresh "E" in
      apply async_bind_ok in H; destruct H as (a & w & E & H); cbn beta in H
  | H : await_map_err _ _ _ = Some (Ok _, _) |- _ => apply await_ok in H
  | H : immediate _ ?w = Some (Ok _, ?w') |- _ => unfold immediate in H; injection H as H <-
  end.

(** ** Lemmas: the digests bind the requests *)

Lemma optional_u64_decodable : decodable (from_option is_u64 True) append_optional_u64.
Proof.
  intros [a|] [b|] x y Ha Hb; cbn [append_optional_u64 app from_option] in *; intros H; try done.
  - apply (byte_decodable 1 1) in H as [_ H]; apply be_bytes_decodable in H as [-> ->]; [done | unfold is_u64 in *; cbn; lia ..].
  - by apply (byte_decodable 0 0) in H as [_ ->].
Qed.

Definition contract_ok (o : OutputContract.t) : Prop :=
  digest_ok (OutputContract.schema_digest o) /\ string_ok (OutputContract.schema_json o).
Record sampling_ok (s : SamplingParameters.t) : Prop := {
  so_temperature : f32_valid (SamplingParameters.temperature s);
  so_top_p : f32_valid (SamplingParameters.top_p s);
  so_seed : from_option is_u64 True (SamplingParameters.seed s)
}.

(** The fields of a request at their Rust types. *)
Record generation_request_ok (r : GenerationRequest.t) : Prop := {
  gr_version : is_u32 (GenerationRequest.schema_version r);
  gr_id : digest_ok (ArtifactId.digest (GenerationRequest.artifact_id r));
  gr_digest : digest_ok (GenerationRequest.artifact_digest r);
  gr_input : string_ok (GenerationRequest.input r);
  gr_output : contract_ok (GenerationRequest.output r);
  gr_source : is_u64 (GenerationRequest.source_byte_count r);
  gr_source_limit : is_u64 (GenerationRequest.source_byte_limit r);
  gr_input_limit : is_u64 (GenerationRequest.input_byte_limit r);
  gr_context : is_u32 (GenerationRequest.context_token_limit r);
  gr_tokens : is_u32 (GenerationRequest.output_token_limit r);
  gr_candidate : is_u64 (GenerationRequest.candidate_byte_limit r);
  gr_sampling : sampling_ok (GenerationRequest.sampling r)
}.

Record structured_request_ok (r : StructuredCompletionRequest.t) : Prop := {
  sr_version : is_u32 (StructuredCompletionRequest.schema_version r);
  sr_id : digest_ok (ArtifactId.digest (StructuredCompletionRequest.artifact_id r));
  sr_digest : digest_ok (StructuredCompletionRequest.artifact_digest r);
  sr_input : string_ok (StructuredCompletionRequest.input r);
  sr_output : contract_ok (StructuredCompletionRequest.output r);
  sr_source : is_u64 (StructuredCompletionRequest.source_byte_count r);
  sr_source_limit : is_u64 (StructuredCompletionRequest.source_byte_limit r);
  sr_input_limit : is_u64 (StructuredCompletionRequest.input_byte_limit r);
  sr_context : is_u32 (StructuredCompletionRequest.context_token_limit r);
  sr_tokens : is_u32 (StructuredCompletionRequest.output_token_limit r);
  sr_output_limit : is_u64 (StructuredCompletionRequest.output_byte_limit r);
  sr_sampling : sampling_ok (StructuredCompletionRequest.sampling r)
}.

Lemma reasoning_byte_inj a b : reasoning_byte a = reasoning_byte b -> a = b.
Proof. by destruct a, b. Qed.

Lemma generation_material_inj a b :
  generation_request_ok a -> generation_request_ok b ->
  GenerationRequest.material a = GenerationRequest.material b -> a = b.
Proof.
  intros [] [] H; unfold GenerationRequest.material in H; apply app_inv_head in H.
  destruct a as [? [?] ? ? [? ?] ? ? ? ? ? ? ? [? ? ?] ?], b as [? [?] ? ? [? ?] ? ? ? ? ? ? ? [? ? ?] ?].
  destruct gr_output0 as [? ?], gr_output1 as [? ?], gr_sampling0, gr_sampling1.
  cbn -[be_bytes append_optional_u64 app reasoning_byte] in *.
  read_part (be_bytes_decodable 4). do 2 read_part record_digest_decodable. read_part text_decodable.
  read_part record_digest_decodable. read_part text_decodable. apply byte_decodable in H as [? H].
  do 3 read_part (be_bytes_decodable 8). do 2 read_part (be_bytes_decodable 4). read_part (be_bytes_decodable 8).
  do 2 read_part (be_bytes_decodable 4). read_part optional_u64_decodable.
  injection H as H; apply reasoning_byte_inj in H; by subst.
Qed.

Lemma structured_material_inj a b :
  structured_request_ok a -> structured_request_ok b ->
  StructuredCompletionRequest.material a = StructuredCompletionRequest.material b -> a = b.
Proof.
  intros [] [] H; unfold StructuredCompletionRequest.material in H; apply app_inv_head in H.
  destruct a as [? [?] ? ? [? ?] ? ? ? ? ? ? [? ? ?] ?], b as [? [?] ? ? [? ?] ? ? ? ? ? ? [? ? ?] ?].
  destruct sr_output0 as [? ?], sr_output1 as [? ?], sr_sampling0, sr_sampling1.
  cbn -[be_bytes append_optional_u64 app reasoning_byte] in *.
  read_part (be_bytes_decodable 4). do 2 read_part record_digest_decodable. read_part text_decodable.
  read_part record_digest_decodable. read_part text_decodable.
  do 3 read_part (be_bytes_decodable 8). do 2 read_part (be_bytes_decodable 4). read_part (be_bytes_decodable 8).
  do 2 read_part (be_bytes_decodable 4). read_part optional_u64_decodable.
  injection H as H; apply reasoning_byte_inj in H; by subst.
Qed.

(** The two request formats never hash the same bytes. *)
Lemma material_domains a b : GenerationRequest.material a <> StructuredCompletionRequest.material b.
Proof.
  unfold GenerationRequest.material, StructuredCompletionRequest.material; intros H.
  apply (f_equal (take 8)) in H; vm_compute in H; discriminate.
Qed.

(** C19. The digest that binds a request to its responses binds every field
    of it: two generation requests with the same digest are the same request,
    two structured requests with the same digest are the same request, and a
    generation request never shares its digest with a structured one, unless
    SHA-256 collides on the encodings. *)
Theorem request_binding_exact `{SHA : Sha256} (a b : GenerationRequest.t) (s t : StructuredCompletionRequest.t) :
  generation_request_ok a -> generation_request_ok b -> structured_request_ok s -> structured_request_ok t ->
  (GenerationRequest.binding_digest a = GenerationRequest.binding_digest b ->
   a = b \/ collision (GenerationRequest.material a) (GenerationRequest.material b)) /\
  (StructuredCompletionRequest.binding_digest s = StructuredCompletionRequest.binding_digest t ->
   s = t \/ collision (StructuredCompletionRequest.material s) (StructuredCompletionRequest.material t)) /\
  (GenerationRequest.binding_digest a = StructuredCompletionRequest.binding_digest s ->
   collision (GenerationRequest.material a) (StructuredCompletionRequest.material s)).
Proof.
  intros Ha Hb Hs Ht; split_and!; intros H.
  - destruct (decide (GenerationRequest.material a = GenerationRequest.material b)) as [E|E];
      [left; by apply generation_material_inj | by right].
  - destruct (decide (StructuredCompletionRequest.material s = StructuredCompletionRequest.material t)) as [E|E];
      [left; by apply structured_material_inj | by right].
  - split; [apply material_domains | done].
Qed.
