(* ===== verification/CandidateOutput.v ===== *)
(** * Candidate envelopes ([inference/src/candidate.rs], [candidate/parser.rs]
    and [single_candidate.rs]).

    The policy that bounds one envelope, the streaming parser that stops at
    the first candidate past a bound, and the mapping of a one-candidate
    request onto a structured one. *)

From S2P Require Import Prelude Text Float32 Document Claims Json Model Inference.

Definition MAX_JSON_BYTES_PER_DECODED_BYTE : Z := 6.
Definition MAX_ENVELOPE_FRAMING_BYTES : Z := 16.
Definition MAX_CANDIDATE_FRAMING_BYTES : Z := 12.
Definition RAW_ENVELOPE_ALLOWANCE_BYTES : Z := 256.

Inductive CandidateOutputError :=
| OutputInvalidPolicy | EnvelopeTooLarge | OutputInvalidUtf8 | InvalidEnvelope | CountMismatch
| OutputCandidateTooLarge | AggregateByteCountOverflow | AggregateTooLarge.

(** [CandidateOutputError::code]. *)
Definition output_error_code (e : CandidateOutputError) : text :=
  match e with
  | OutputInvalidPolicy => lit "invalid_candidate_output_policy"
  | EnvelopeTooLarge => lit "candidate_envelope_too_large"
  | OutputInvalidUtf8 => lit "invalid_candidate_output_utf8"
  | InvalidEnvelope => lit "invalid_candidate_envelope"
  | CountMismatch => lit "candidate_count_mismatch"
  | OutputCandidateTooLarge => lit "candidate_too_large"
  | AggregateByteCountOverflow => lit "candidate_byte_count_overflow"
  | AggregateTooLarge => lit "candidate_aggregate_too_large"
  end.

Module CandidateOutputPolicy.

Record t := mk {
  expected_count : Z;
  maximum_candidate_bytes : Z;
  maximum_aggregate_candidate_bytes : Z;
  maximum_envelope_bytes : Z
}.

(** [CandidateOutputPolicy::new]. *)
Definition new (expected_count maximum_candidate_bytes maximum_aggregate_candidate_bytes : Z)
  : Result CandidateOutputError t :=
  if (expected_count =? 0) || (MAX_INFERENCE_CANDIDATES <? expected_count) || (maximum_candidate_bytes =? 0)
     || (maximum_aggregate_candidate_bytes =? 0)
  then Err OutputInvalidPolicy
  else
    useful_aggregate_ceiling ← ok_or (checked_mul u64_max maximum_candidate_bytes expected_count) OutputInvalidPolicy;
    if useful_aggregate_ceiling <? maximum_aggregate_candidate_bytes then Err OutputInvalidPolicy
    else
      escaped_candidate_bytes ←
        ok_or (checked_mul u64_max maximum_aggregate_candidate_bytes MAX_JSON_BYTES_PER_DECODED_BYTE) OutputInvalidPolicy;
      let framing_bytes :=
        expected_count * MAX_CANDIDATE_FRAMING_BYTES + MAX_ENVELOPE_FRAMING_BYTES + RAW_ENVELOPE_ALLOWANCE_BYTES in
      maximum_envelope_bytes ← ok_or (checked_add u64_max escaped_candidate_bytes framing_bytes) OutputInvalidPolicy;
      Ok (mk expected_count maximum_candidate_bytes maximum_aggregate_candidate_bytes maximum_envelope_bytes).

End CandidateOutputPolicy.

Abbreviation Policy := CandidateOutputPolicy.t.

(** ** The visitors

    An error of the parser, or of a visitor that names no bound, is
    [Err None]; [fail] keeps the bound that was passed in the captured cell,
    [Err (Some e)]. *)
Abbreviation Visit A := (Result (option CandidateOutputError) (A * list JsonEvent)).

(** [CandidateItemVisitor::visit_map], for an object with one [text]. *)
Definition visit_item (evs : list JsonEvent) : Visit text :=
  match evs with
  | EvObject :: EvKey key :: evs =>
      if negb (text_eqb key (lit "text")) then Err None
      else match evs with
           | EvAtom (AString text) :: EvEndObject :: evs => Ok (text, evs)
           | _ => Err None
           end
  | _ => Err None
  end.

(** [checked_aggregate_byte_count]. *)
Definition checked_aggregate_byte_count (current next : Z) : Result CandidateOutputError Z :=
  ok_or (checked_add u64_max current next) AggregateByteCountOverflow.

(** [CandidateSequenceVisitor::visit_seq]: the loop over the elements. *)
Fixpoint visit_candidates (fuel : nat) (policy : Policy) (candidates : list GenerationCandidate)
    (aggregate_bytes : Z) (evs : list JsonEvent) : Visit (list GenerationCandidate) :=
  match fuel with
  | O => Err None
  | S fuel' =>
      match evs with
      | EvEndArray :: evs => Ok (candidates, evs)
      | _ =>
          '(candidate, evs) ← visit_item evs;
          if vlen candidates =? CandidateOutputPolicy.expected_count policy then Err (Some CountMismatch)
          else
            let byte_count := len_u64 candidate in
            if CandidateOutputPolicy.maximum_candidate_bytes policy <? byte_count then Err (Some OutputCandidateTooLarge)
            else match checked_aggregate_byte_count aggregate_bytes byte_count with
                 | Ok next_aggregate_bytes =>
                     if CandidateOutputPolicy.maximum_aggregate_candidate_bytes policy <? next_aggregate_bytes
                     then Err (Some AggregateTooLarge)
                     else match try_from u8_max (vlen candidates) with
                          | None => Err None
                          | Some ordinal =>
                              visit_candidates fuel' policy
                                (candidates ++ [{| ordinal := ordinal; gen_text := candidate |}])
                                next_aggregate_bytes evs
                          end
                 | _ => Err (Some AggregateByteCountOverflow)
                 end
      end
  end.

(** [CandidateSequenceVisitor::visit_seq] at the start of the array; an
    element takes four events, so the events bound the loop. *)
Definition visit_seq (policy : Policy) (evs : list JsonEvent) : Visit (list GenerationCandidate) :=
  match evs with
  | EvArray :: evs => visit_candidates (S (length evs)) policy [] 0 evs
  | _ => Err None
  end.

(** [CandidateEnvelopeVisitor::visit_map]: an object with one [candidates]. *)
Definition visit_envelope (policy : Policy) (evs : list JsonEvent) : Visit (list GenerationCandidate) :=
  match evs with
  | EvObject :: EvKey key :: evs =>
      if negb (text_eqb key (lit "candidates")) then Err None
      else
        '(candidates, evs) ← visit_seq policy evs;
        match evs with
        | EvEndObject :: evs => Ok (candidates, evs)
        | _ => Err None
        end
  | _ => Err None
  end.

Section Parse.
Context {JSON : JsonCodec}.

(** [parser::parse]. *)
Definition parse_candidate_output (bytes : bytes) (policy : Policy)
  : Result CandidateOutputError (list GenerationCandidate) :=
  policy ← CandidateOutputPolicy.new (CandidateOutputPolicy.expected_count policy)
             (CandidateOutputPolicy.maximum_candidate_bytes policy)
             (CandidateOutputPolicy.maximum_aggregate_candidate_bytes policy);
  let byte_count := default u64_max (try_from u64_max (vlen bytes)) in
  if CandidateOutputPolicy.maximum_envelope_bytes policy <? byte_count then Err EnvelopeTooLarge
  else
    input ← map_err (fun _ => OutputInvalidUtf8) (from_utf8 bytes);
    let '(evs, whole) := json_events input in
    '(candidates, rest) ← map_err (fun captured => default InvalidEnvelope captured) (visit_envelope policy evs);
    (* [Deserializer::end]: nothing follows the value *)
    if negb (match rest with [] => whole | _ => false end) then Err InvalidEnvelope
    else if negb (vlen candidates =? CandidateOutputPolicy.expected_count policy) then Err CountMismatch
    else Ok candidates.

End Parse.

(** ** The single-candidate mapping *)

Inductive SingleCandidateRequestMappingError :=
| InvalidGenerationRequest (e : ContractError) | CandidateCountUnsupported | OutputPolicyMismatch
| InvalidStructuredRequest (e : ContractError) | StructuredRequestMismatch.

Section SingleCandidate.
Context {SHA : Sha256} {JSON : JsonCodec}.

(** The fields [derive_single_candidate_structured_request] copies. *)
Definition structured_of (request : GenerationRequest.t) (output_policy : Policy) : StructuredCompletionRequest.t := {|
  StructuredCompletionRequest.schema_version := STRUCTURED_COMPLETION_REQUEST_SCHEMA_VERSION;
  StructuredCompletionRequest.artifact_id := GenerationRequest.artifact_id request;
  StructuredCompletionRequest.artifact_digest := GenerationRequest.artifact_digest request;
  StructuredCompletionRequest.input := GenerationRequest.input request;
  StructuredCompletionRequest.output := GenerationRequest.output request;
  StructuredCompletionRequest.source_byte_count := GenerationRequest.source_byte_count request;
  StructuredCompletionRequest.source_byte_limit := GenerationRequest.source_byte_limit request;
  StructuredCompletionRequest.input_byte_limit := GenerationRequest.input_byte_limit request;
  StructuredCompletionRequest.context_token_limit := GenerationRequest.context_token_limit request;
  StructuredCompletionRequest.output_token_limit := GenerationRequest.output_token_limit request;
  StructuredCompletionRequest.output_byte_limit := CandidateOutputPolicy.maximum_envelope_bytes output_policy;
  StructuredCompletionRequest.sampling := GenerationRequest.sampling request;
  StructuredCompletionRequest.reasoning := GenerationRequest.reasoning request |}.

(** [derive_single_candidate_structured_request]. *)
Definition derive_single_candidate_structured_request (request : GenerationRequest.t) (output_policy : Policy)
  : Result SingleCandidateRequestMappingError StructuredCompletionRequest.t :=
  _ ← map_err InvalidGenerationRequest (GenerationRequest.validate request);
  if negb (GenerationRequest.candidate_count request =? 1) then Err CandidateCountUnsupported
  else if negb (CandidateOutputPolicy.expected_count output_policy =? GenerationRequest.candidate_count request)
          || negb (CandidateOutputPolicy.maximum_candidate_bytes output_policy
                   =? GenerationRequest.candidate_byte_limit request)
  then Err OutputPolicyMismatch
  else
    let structured := structured_of request output_policy in
    _ ← map_err InvalidStructuredRequest (StructuredCompletionRequest.validate structured);
    Ok structured.

(** [validate_single_candidate_structured_request]. *)
Definition validate_single_candidate_structured_request (request : GenerationRequest.t) (output_policy : Policy)
    (structured : StructuredCompletionRequest.t) : Result SingleCandidateRequestMappingError unit :=
  _ ← map_err InvalidGenerationRequest (GenerationRequest.validate request);
  if negb (GenerationRequest.candidate_count request =? 1) then Err CandidateCountUnsupported
  else if negb (CandidateOutputPolicy.expected_count output_policy =? GenerationRequest.candidate_count request)
          || negb (CandidateOutputPolicy.maximum_candidate_bytes output_policy
                   =? GenerationRequest.candidate_byte_limit request)
  then Err OutputPolicyMismatch
  else
    _ ← map_err InvalidStructuredRequest (StructuredCompletionRequest.validate structured);
    if (StructuredCompletionRequest.schema_version structured =? STRUCTURED_COMPLETION_REQUEST_SCHEMA_VERSION)
       && bool_decide (StructuredCompletionRequest.artifact_id structured = GenerationRequest.artifact_id request)
       && bool_decide (StructuredCompletionRequest.artifact_digest structured = GenerationRequest.artifact_digest request)
       && text_eqb (StructuredCompletionRequest.input structured) (GenerationRequest.input request)
       && bool_decide (StructuredCompletionRequest.output structured = GenerationRequest.output request)
       && (StructuredCompletionRequest.source_byte_count structured =? GenerationRequest.source_byte_count request)
       && (StructuredCompletionRequest.source_byte_limit structured =? GenerationRequest.source_byte_limit request)
       && (StructuredCompletionRequest.input_byte_limit structured =? GenerationRequest.input_byte_limit request)
       && (StructuredCompletionRequest.context_token_limit structured =? GenerationRequest.context_token_limit request)
       && (StructuredCompletionRequest.output_token_limit structured =? GenerationRequest.output_token_limit request)
       && (StructuredCompletionRequest.output_byte_limit structured
           =? CandidateOutputPolicy.maximum_envelope_bytes output_policy)
       && (SamplingParameters.temperature (StructuredCompletionRequest.sampling structured)
           =? SamplingParameters.temperature (GenerationRequest.sampling request))
       && (SamplingParameters.top_p (StructuredCompletionRequest.sampling structured)
           =? SamplingParameters.top_p (GenerationRequest.sampling request))
       && bool_decide (SamplingParameters.seed (StructuredCompletionRequest.sampling structured)
                       = SamplingParameters.seed (GenerationRequest.sampling request))
       && bool_decide (StructuredCompletionRequest.reasoning structured = GenerationRequest.reasoning request)
    then Ok tt
    else Err StructuredRequestMismatch.

End SingleCandidate.

(** ** What an envelope is *)

Definition item_json (t : text) : Json := JObject [(lit "text", JAtom (AString t))].
Definition envelope_json (texts : list text) : Json := JObject [(lit "candidates", JArray (map item_json texts))].

(** Candidates in the order of the array, numbered from [k]. *)
Fixpoint numbered (k : Z) (texts : list text) : list GenerationCandidate :=
  match texts with
  | [] => []
  | t :: texts' => {| ordinal := k; gen_text := t |} :: numbered (k + 1) texts'
  end.

Definition total_bytes (texts : list text) : Z := foldr Z.add 0 (map slen texts).

Record conforms (policy : Policy) (texts : list text) : Prop := {
  cf_count : vlen texts = CandidateOutputPolicy.expected_count policy;
  cf_each : Forall (fun t => slen t <= CandidateOutputPolicy.maximum_candidate_bytes policy) texts;
  cf_total : total_bytes texts <= CandidateOutputPolicy.maximum_aggregate_candidate_bytes policy
}.

(** ** Lemmas: the policy *)

(** A policy that [new] made. *)
Definition made (policy : Policy) : Prop :=
  CandidateOutputPolicy.new (CandidateOutputPolicy.expected_count policy)
    (CandidateOutputPolicy.maximum_candidate_bytes policy)
    (CandidateOutputPolicy.maximum_aggregate_candidate_bytes policy) = Ok policy.

(** [checked_mul] and [checked_add] succeed exactly on what fits. *)
Lemma policy_new_ok n c a policy :
  CandidateOutputPolicy.new n c a = Ok policy ->
  policy = CandidateOutputPolicy.mk n c a (6 * a + 12 * n + 272) /\
  n <> 0 /\ n <= 16 /\ c <> 0 /\ a <> 0 /\ a <= c * n /\ 6 * a + 12 * n + 272 <= u64_max.
Proof.
  unfold CandidateOutputPolicy.new; destruct (_ || _) eqn:E; [done |]; zbool; intros Hnew.
  apply bind_ok in Hnew as (u & Hu & Hnew); apply ok_or_ok, checked_mul_Some in Hu as [-> Hm].
  destruct (Z.ltb_spec (c * n) a) as [|Hle]; [done |]; apply bind_ok in Hnew as (e & He & Hnew).
  apply ok_or_ok, checked_mul_Some in He as [-> _]; apply bind_ok in Hnew as (m & Hs & [= <-]).
  apply ok_or_ok, checked_add_Some in Hs as [-> Ha].
  unfold MAX_INFERENCE_CANDIDATES, MAX_JSON_BYTES_PER_DECODED_BYTE, MAX_CANDIDATE_FRAMING_BYTES,
    MAX_ENVELOPE_FRAMING_BYTES, RAW_ENVELOPE_ALLOWANCE_BYTES in *; split_and!; try lia; f_equal; lia.
Qed.

Lemma made_bounds policy :
  made policy ->
  CandidateOutputPolicy.maximum_envelope_bytes policy =
    6 * CandidateOutputPolicy.maximum_aggregate_candidate_bytes policy
    + 12 * CandidateOutputPolicy.expected_count policy + 272 /\
  CandidateOutputPolicy.expected_count policy <= 16 /\
  CandidateOutputPolicy.maximum_envelope_bytes policy <= u64_max.
Proof.
  intros H; apply policy_new_ok in H as (Hp & _ & Hn & _ & _ & _ & Hb).
  apply (f_equal CandidateOutputPolicy.maximum_envelope_bytes) in Hp; cbn in Hp; lia.
Qed.

(** ** Lemmas: the visitors *)

Lemma visit_item_ok evs t rest : visit_item evs = Ok (t, rest) <-> evs = flatten (item_json t) ++ rest.
Proof.
  split.
  - destruct evs as [|[] [|[] evs]]; try done; cbn [visit_item]; unfold text_eqb.
    destruct (bool_decide (k = lit "text")) eqn:E; [| done]; apply bool_decide_eq_true in E as ->; cbn [negb].
    destruct evs as [|[[]| | | | |] [|[] evs]]; try done; intros [= -> ->]; done.
  - intros ->; done.
Qed.

Lemma len_u64_exact s : len_u64 s < u64_max -> len_u64 s = slen s.
Proof.
  unfold len_u64; destruct (try_from u64_max (slen s)) as [n|] eqn:E; [| cbn; lia].
  by apply try_from_Some in E as [-> _].
Qed.

Lemma len_u64_le s m : slen s <= m -> m <= u64_max -> len_u64 s = slen s.
Proof.
  intros H Hm; unfold len_u64; pose proof (slen_nonneg s).
  assert (try_from u64_max (slen s) = Some (slen s)) as -> by (apply try_from_Some; lia); done.
Qed.

Definition items (texts : list text) : list JsonEvent := concat (map (fun t => flatten (item_json t)) texts).

Lemma vlen_snoc {A} (l : list A) x : vlen (l ++ [x]) = vlen l + 1.
Proof. by rewrite vlen_app. Qed.

Lemma numbered_app k a b : numbered k (a ++ b) = numbered k a ++ numbered (k + vlen a) b.
Proof.
  revert k; induction a as [|t a IH]; intros k; cbn [app numbered]; [f_equal; unfold vlen; cbn; lia |].
  rewrite IH, vlen_cons; do 3 f_equal; lia.
Qed.

Lemma numbered_length k texts : vlen (numbered k texts) = vlen texts.
Proof. revert k; induction texts as [|t texts IH]; intros k; cbn [numbered]; [done |]; by rewrite !vlen_cons, IH. Qed.

Lemma total_bytes_nonneg texts : 0 <= total_bytes texts.
Proof. induction texts as [|t texts IH]; cbn in *; [lia |]; pose proof (slen_nonneg t); unfold total_bytes in *; lia. Qed.

Lemma total_bytes_cons t texts : total_bytes (t :: texts) = slen t + total_bytes texts.
Proof. done. Qed.

Section Visitors.
Variable policy : Policy.
Hypothesis Hpolicy : made policy.

(** One round of the loop on an element. *)
Lemma visit_candidates_step fuel acc agg t evs :
  visit_candidates (S fuel) policy acc agg (flatten (item_json t) ++ evs) =
  if vlen acc =? CandidateOutputPolicy.expected_count policy then Err (Some CountMismatch)
  else if CandidateOutputPolicy.maximum_candidate_bytes policy <? len_u64 t then Err (Some OutputCandidateTooLarge)
  else match checked_aggregate_byte_count agg (len_u64 t) with
       | Ok next =>
           if CandidateOutputPolicy.maximum_aggregate_candidate_bytes policy <? next then Err (Some AggregateTooLarge)
           else match try_from u8_max (vlen acc) with
                | None => Err None
                | Some o => visit_candidates fuel policy (acc ++ [{| ordinal := o; gen_text := t |}]) next evs
                end
       | _ => Err (Some AggregateByteCountOverflow)
       end.
Proof. done. Qed.

(** The loop only goes on from the end of the array or an element. *)
Lemma visit_candidates_head fuel acc agg evs r :
  visit_candidates (S fuel) policy acc agg evs = Ok r ->
  (exists rest, evs = EvEndArray :: rest) \/ (exists t rest, evs = flatten (item_json t) ++ rest).
Proof.
  cbn [visit_candidates]; destruct evs as [|[] evs]; try done; [eauto |].
  intros H; apply bind_ok in H as ([t rest] & H & _); apply visit_item_ok in H; right; eauto.
Qed.

(** What the loop accepts. *)
Lemma visit_candidates_sound fuel acc agg evs cs rest :
  visit_candidates fuel policy acc agg evs = Ok (cs, rest) ->
  vlen acc <= CandidateOutputPolicy.expected_count policy ->
  0 <= agg <= CandidateOutputPolicy.maximum_aggregate_candidate_bytes policy ->
  exists texts, evs = items texts ++ EvEndArray :: rest /\ cs = acc ++ numbered (vlen acc) texts /\
    Forall (fun t => slen t <= CandidateOutputPolicy.maximum_candidate_bytes policy) texts /\
    agg + total_bytes texts <= CandidateOutputPolicy.maximum_aggregate_candidate_bytes policy.
Proof.
  destruct (made_bounds _ Hpolicy) as (He & Hn & Hm).
  revert acc agg evs; induction fuel as [|fuel IH]; intros acc agg evs H Ha Hg; [done |].
  pose proof (vlen_nonneg acc); apply visit_candidates_head in H as Hh; destruct Hh as [(r & ->) | (t & r & ->)].
  { injection H as <- <-; exists []; cbn [numbered]; rewrite app_nil_r; split_and!; [done | done | constructor | cbn; lia]. }
  rewrite visit_candidates_step in H.
  destruct (Z.eqb_spec (vlen acc) (CandidateOutputPolicy.expected_count policy)) as [|Hne]; [done |].
  destruct (Z.ltb_spec (CandidateOutputPolicy.maximum_candidate_bytes policy) (len_u64 t)) as [|Hc]; [done |].
  destruct (checked_aggregate_byte_count agg (len_u64 t)) as [next| |] eqn:Hagg; [| done | done].
  apply ok_or_ok, checked_add_Some in Hagg as [-> Hover].
  destruct (Z.ltb_spec (CandidateOutputPolicy.maximum_aggregate_candidate_bytes policy) (agg + len_u64 t)) as [|Hle]; [done |].
  destruct (try_from u8_max (vlen acc)) as [o|] eqn:Ho; [| done]; apply try_from_Some in Ho as [-> _].
  assert (Hl : len_u64 t = slen t) by (apply len_u64_exact; unfold u64_max in *; lia).
  rewrite Hl in *; pose proof (slen_nonneg t).
  apply IH in H as (texts & -> & -> & Hall & Htot); [| rewrite vlen_snoc; lia | lia].
  exists (t :: texts); rewrite vlen_snoc, <- !app_assoc; cbn [numbered].
  split_and!; [unfold items; cbn [map concat]; by rewrite <- app_assoc | done | by constructor | rewrite total_bytes_cons; lia].
Qed.

(** A conforming rest of the array is accepted. *)
Lemma visit_candidates_complete fuel acc agg texts rest :
  (length (items texts) < fuel)%nat ->
  vlen acc + vlen texts <= CandidateOutputPolicy.expected_count policy ->
  Forall (fun t => slen t <= CandidateOutputPolicy.maximum_candidate_bytes policy) texts ->
  0 <= agg -> agg + total_bytes texts <= CandidateOutputPolicy.maximum_aggregate_candidate_bytes policy ->
  visit_candidates fuel policy acc agg (items texts ++ EvEndArray :: rest) = Ok (acc ++ numbered (vlen acc) texts, rest).
Proof.
  destruct (made_bounds _ Hpolicy) as (He & Hn & Hm).
  revert fuel acc agg; induction texts as [|t texts IH]; intros fuel acc agg Hf Hc Hall Hg Ht;
    (destruct fuel as [|fuel]; [lia |]).
  { cbn; by rewrite app_nil_r. }
  inversion Hall as [|? ? Hs Hall']; subst; rewrite total_bytes_cons in Ht; rewrite vlen_cons in Hc.
  pose proof (vlen_nonneg acc); pose proof (vlen_nonneg texts); pose proof (slen_nonneg t).
  pose proof (total_bytes_nonneg texts); unfold items in *; cbn [map concat] in *; rewrite length_app in Hf.
  rewrite <- app_assoc, visit_candidates_step, (proj2 (Z.eqb_neq _ _)) by lia.
  rewrite (len_u64_le t (CandidateOutputPolicy.maximum_aggregate_candidate_bytes policy)) by (unfold u64_max in *; lia).
  rewrite (proj2 (Z.ltb_ge _ _)) by done; unfold checked_aggregate_byte_count.
  assert (checked_add u64_max agg (slen t) = Some (agg + slen t)) as -> by (apply checked_add_Some; unfold u64_max in *; lia).
  cbn [ok_or]; rewrite (proj2 (Z.ltb_ge _ _)) by lia.
  assert (try_from u8_max (vlen acc) = Some (vlen acc)) as -> by (apply try_from_Some; unfold u8_max; lia).
  rewrite IH; [| change (length (flatten (item_json t))) with 4%nat in Hf; lia | rewrite vlen_snoc; lia | done | lia | lia].
  by rewrite <- app_assoc, vlen_snoc.
Qed.

Lemma visit_envelope_sound evs cs rest :
  0 <= CandidateOutputPolicy.expected_count policy ->
  0 <= CandidateOutputPolicy.maximum_aggregate_candidate_bytes policy ->
  visit_envelope policy evs = Ok (cs, rest) ->
  exists texts, evs = flatten (envelope_json texts) ++ rest /\ cs = numbered 0 texts /\
    Forall (fun t => slen t <= CandidateOutputPolicy.maximum_candidate_bytes policy) texts /\
    total_bytes texts <= CandidateOutputPolicy.maximum_aggregate_candidate_bytes policy.
Proof.
  intros Hn Hg; destruct evs as [|[] [|[] evs]]; try done; cbn [visit_envelope]; unfold text_eqb.
  destruct (bool_decide (k = lit "candidates")) eqn:E; [| done]; apply bool_decide_eq_true in E as ->; cbn [negb].
  intros H; apply bind_ok in H as ([cs' rest'] & H & Hend); destruct evs as [|[] evs]; try done.
  destruct rest' as [|[] rest']; try done; injection Hend as -> ->.
  apply visit_candidates_sound in H as (texts & -> & -> & Hall & Ht); [| exact Hn | lia].
  exists texts; split_and!; [| done | done | lia]; cbn [envelope_json flatten map concat fst snd app].
  unfold items; by rewrite map_map, app_nil_r, <- !app_assoc.
Qed.

Lemma visit_envelope_complete texts rest :
  conforms policy texts -> visit_envelope policy (flatten (envelope_json texts) ++ rest) = Ok (numbered 0 texts, rest).
Proof.
  intros [Hc Hall Ht]; cbn [envelope_json flatten map concat fst snd app visit_envelope visit_seq].
  rewrite app_nil_r, map_map, <- !app_assoc; cbn [app].
  change (concat (map (fun x => flatten (item_json x)) texts)) with (items texts).
  change (negb _) with false; cbn match; rewrite visit_candidates_complete; [done | rewrite length_app; lia | exact (Z.eq_le_incl _ _ Hc) | done | lia | exact Ht].
Qed.

End Visitors.

(** ** Theorems *)

Lemma envelope_printable texts : printable (envelope_json texts) = true /\ depth (envelope_json texts) <= 127.
Proof.
  cbn -[Z.max Z.add]; rewrite andb_true_r; split.
  - rewrite forallb_forall; intros v Hv; by apply in_map_iff in Hv as (t & <- & _).
  - assert (H : foldr Z.max 0 (map depth (map item_json texts)) <= 1); [| lia].
    induction texts as [|t texts IH]; cbn -[Z.max Z.add] in *; lia.
Qed.

Lemma envelope_scalar_strings texts : Forall scalars texts -> scalar_strings (envelope_json texts) = true.
Proof.
  intros H; cbn [envelope_json scalar_strings forallb fst snd]; rewrite andb_true_r; apply andb_true_iff; split; [done |].
  rewrite forallb_forall; intros v Hv; apply in_map_iff in Hv as (t & <- & Ht); cbn; rewrite !andb_true_r.
  rewrite Forall_forall in H; apply list_elem_of_In, H in Ht; apply forallb_forall.
  rewrite Forall_forall in Ht; intros c Hc; by apply Ht, list_elem_of_In.
Qed.

(** The framing constants are the lengths of the punctuation. *)
Lemma envelope_bound texts :
  texts <> [] -> print_bound (envelope_json texts) <= 6 * total_bytes texts + 12 * vlen texts + 16.
Proof.
  intros Hne; assert (Hsum : foldr Z.add 0 (map print_bound (map item_json texts)) <= 6 * total_bytes texts + 11 * vlen texts).
  { clear Hne; induction texts as [|t texts IH]; [done |]; rewrite total_bytes_cons, vlen_cons; cbn [map foldr].
    assert (print_bound (item_json t) = 11 + string_len t) as ->.
    { unfold item_json; cbn [print_bound map foldr fst snd]; change (string_len (lit "text")) with 4.
      change (commas [(lit "text", JAtom (AString t))]) with 0; lia. }
    pose proof (string_len_bounds t); lia. }
  unfold envelope_json; cbn [print_bound map foldr fst snd]; unfold commas, vlen in *; rewrite length_map; cbn [length].
  change (string_len (lit "candidates")) with 10; destruct texts; [done |]; cbn [length] in *; lia.
Qed.

Lemma scalars_of_bytes b s : Forall is_byte b -> from_utf8 b = Ok s -> vlen b = slen s.
Proof. intros Hb H; apply from_utf8_sound in H as [-> _]; [by rewrite as_bytes_length | done]. Qed.

Section Exact.
Context {JSON : JsonCodec}.
Variable policy : Policy.
Hypothesis Hpolicy : made policy.
Hypothesis Hcount : 0 <= CandidateOutputPolicy.expected_count policy.
Hypothesis Haggregate : 0 <= CandidateOutputPolicy.maximum_aggregate_candidate_bytes policy.

Lemma parse_output_iff (b : bytes) cs :
  parse_candidate_output b policy = Ok cs <->
  exists input texts, vlen b <= CandidateOutputPolicy.maximum_envelope_bytes policy /\ from_utf8 b = Ok input /\
    json_events input = (flatten (envelope_json texts), true) /\ conforms policy texts /\ cs = numbered 0 texts.
Proof.
  destruct (made_bounds _ Hpolicy) as (He & Hn & Hm); pose proof (vlen_nonneg b).
  unfold parse_candidate_output; rewrite Hpolicy; cbn [mbind result_bind].
  assert (Hsize : CandidateOutputPolicy.maximum_envelope_bytes policy <? default u64_max (try_from u64_max (vlen b)) = false
    <-> vlen b <= CandidateOutputPolicy.maximum_envelope_bytes policy).
  { rewrite Z.ltb_ge; unfold try_from; destruct (Z.leb_spec 0 (vlen b)), (Z.leb_spec (vlen b) u64_max); cbn; try lia.
    unfold u64_max in *; lia. }
  destruct (_ <? _) eqn:E.
  { split; [done |]; intros (? & ? & Hb & _); apply Hsize in Hb; done. }
  destruct Hsize as [Hb _]; specialize (Hb eq_refl); destruct (from_utf8 b) as [input|e|] eqn:Hu;
    [| split; [done | by intros (? & ? & ? & ? & _)] ..]; cbn [map_err mbind result_bind].
  destruct (json_events input) as [evs whole] eqn:Hj; split.
  - intros H'; apply bind_ok in H' as ([cs' rest] & Hv & H'); apply map_err_ok, visit_envelope_sound in Hv; [| done ..].
    destruct Hv as (texts & -> & -> & Hall & Ht); destruct rest; [| done]; destruct whole; [| done]; cbn [negb] in H'.
    destruct (Z.eqb_spec (vlen (numbered 0 texts)) (CandidateOutputPolicy.expected_count policy)) as [Hc|]; [| done].
    injection H' as <-; rewrite numbered_length in Hc; rewrite app_nil_r in Hj; exists input, texts; by split_and!.
  - intros (input' & texts & _ & [= <-] & Hj' & Hc & ->); assert (evs = flatten (envelope_json texts) /\ whole = true) as [-> ->] by (split; congruence).
    pose proof (visit_envelope_complete policy Hpolicy texts [] Hc) as Hv; rewrite app_nil_r in Hv; rewrite Hv; cbn [map_err mbind result_bind negb].
    rewrite numbered_length; destruct Hc as [-> _ _]; by rewrite Z.eqb_refl.
Qed.

End Exact.

(** C17. The candidate parser accepts exactly the envelopes of the contract:
    bytes within the raw ceiling that are UTF-8 and one complete JSON object
    whose only member is [candidates], an array of exactly the expected
    number of objects whose only member is the string [text], each within its
    ceiling and together within the aggregate ceiling; the candidates it
    returns are those texts, numbered from zero in order. *)
Theorem candidate_output_exact `{JSON : JsonCodec} (n each total : Z) (policy : CandidateOutputPolicy.t) (b : bytes)
    (cs : list GenerationCandidate) :
  0 <= n -> 0 <= each -> 0 <= total -> CandidateOutputPolicy.new n each total = Ok policy ->
  parse_candidate_output b policy = Ok cs <->
  exists input texts, vlen b <= CandidateOutputPolicy.maximum_envelope_bytes policy /\ from_utf8 b = Ok input /\
    json_events input = (flatten (envelope_json texts), true) /\ conforms policy texts /\ cs = numbered 0 texts.
Proof.
  intros Hn He Ht H; pose proof (policy_new_ok _ _ _ _ H) as (-> & _); by apply parse_output_iff.
Qed.

(** C18. Every batch of candidates the policy allows fits the ceiling
    derived from the policy, with the 256-byte allowance to spare even when
    every character needs the longest escape, and comes back unchanged:
    printed as the compact envelope it parses to the same texts, numbered
    from zero. *)
Theorem candidate_envelope_roundtrip `{JSON : JsonCodec} (n each total : Z) (policy : CandidateOutputPolicy.t)
    (texts : list text) :
  0 <= n -> 0 <= each -> 0 <= total -> CandidateOutputPolicy.new n each total = Ok policy ->
  Forall scalars texts -> conforms policy texts ->
  let printed := as_bytes (json_print (envelope_json texts)) in
  vlen printed + RAW_ENVELOPE_ALLOWANCE_BYTES <= CandidateOutputPolicy.maximum_envelope_bytes policy /\
  parse_candidate_output printed policy = Ok (numbered 0 texts).
Proof.
  intros Hn He Ht H Hs Hc printed; pose proof (policy_new_ok _ _ _ _ H) as (Hp & Hn0 & _ & _ & _ & _ & Hb).
  assert (Hmade : made policy) by (rewrite Hp in H |- *; exact H).
  destruct (envelope_printable texts) as [Hpr Hd].
  assert (Hlen : vlen printed + RAW_ENVELOPE_ALLOWANCE_BYTES <= CandidateOutputPolicy.maximum_envelope_bytes policy).
  { unfold printed; rewrite as_bytes_length; pose proof (json_print_length _ Hpr) as Hl.
    destruct Hc as [Hc _ Hct]; rewrite Hp in Hc, Hct |- *; cbn in Hc, Hct |- *.
    pose proof (envelope_bound texts) as Hbd; unfold RAW_ENVELOPE_ALLOWANCE_BYTES.
    destruct texts; [unfold vlen in Hc; cbn in Hc; lia |]; specialize (Hbd ltac:(done)); lia. }
  split; [done |]; apply parse_output_iff; [done | rewrite Hp; done | rewrite Hp; done |].
  exists (json_print (envelope_json texts)), texts; split_and!; [unfold RAW_ENVELOPE_ALLOWANCE_BYTES in *; lia | | | done | done].
  - apply from_utf8_as_bytes, json_print_scalars; [done | by apply envelope_scalar_strings].
  - by apply json_print_events.
Qed.

(** ** The single-candidate mapping is one function *)

Section Mapping.
Context {SHA : Sha256} {JSON : JsonCodec}.

(** The fields a request has in both forms are valid in both. *)
Lemma structured_of_valid request policy :
  GenerationRequest.validate request = Ok tt ->
  CandidateOutputPolicy.maximum_envelope_bytes policy <> 0 ->
  StructuredCompletionRequest.validate (structured_of request policy) = Ok tt.
Proof.
  unfold GenerationRequest.validate, StructuredCompletionRequest.validate, structured_of; intros H Hm.
  cbn -[len_u64 valid_sampling] in *; destruct (negb (GenerationRequest.schema_version request =? _)); [done |].
  destruct (negb (bool_decide _)); [done |]; destruct (_ || (_ <? len_u64 _)) eqn:E; [done |].
  destruct (_ || (MAX_INFERENCE_CANDIDATES <? _)); [done |]; zbool.
  rewrite !(proj2 (Z.eqb_neq _ _)) by done; rewrite !(proj2 (Z.ltb_ge _ _)) by done; done.
Qed.

Lemma structured_eq (request : GenerationRequest.t) policy (s : StructuredCompletionRequest.t) :
  s = structured_of request policy <->
  (StructuredCompletionRequest.schema_version s =? STRUCTURED_COMPLETION_REQUEST_SCHEMA_VERSION)
  && bool_decide (StructuredCompletionRequest.artifact_id s = GenerationRequest.artifact_id request)
  && bool_decide (StructuredCompletionRequest.artifact_digest s = GenerationRequest.artifact_digest request)
  && text_eqb (StructuredCompletionRequest.input s) (GenerationRequest.input request)
  && bool_decide (StructuredCompletionRequest.output s = GenerationRequest.output request)
  && (StructuredCompletionRequest.source_byte_count s =? GenerationRequest.source_byte_count request)
  && (StructuredCompletionRequest.source_byte_limit s =? GenerationRequest.source_byte_limit request)
  && (StructuredCompletionRequest.input_byte_limit s =? GenerationRequest.input_byte_limit request)
  && (StructuredCompletionRequest.context_token_limit s =? GenerationRequest.context_token_limit request)
  && (StructuredCompletionRequest.output_token_limit s =? GenerationRequest.output_token_limit request)
  && (StructuredCompletionRequest.output_byte_limit s =? CandidateOutputPolicy.maximum_envelope_bytes policy)
  && (SamplingParameters.temperature (StructuredCompletionRequest.sampling s)
      =? SamplingParameters.temperature (GenerationRequest.sampling request))
  && (SamplingParameters.top_p (StructuredCompletionRequest.sampling s)
      =? SamplingParameters.top_p (GenerationRequest.sampling request))
  && bool_decide (SamplingParameters.seed (StructuredCompletionRequest.sampling s)
                  = SamplingParameters.seed (GenerationRequest.sampling request))
  && bool_decide (StructuredCompletionRequest.reasoning s = GenerationRequest.reasoning request) = true.
Proof.
  unfold text_eqb; rewrite !andb_true_iff, !bool_decide_eq_true, !Z.eqb_eq; split; [by intros -> |].
  destruct s as [? ? ? ? ? ? ? ? ? ? ? [? ? ?] ?], request as [? ? ? ? ? ? ? ? ? ? ? ? [? ? ?] ?]; unfold structured_of; cbn.
  intros H; destruct_and? H; by subst.
Qed.

(** Deriving stops with one of the errors. *)
#[local] Ltac refused := split; [done |]; intros e; destruct e; split; intros H; simplify_eq; try done; naive_solver.

(** Checking a structured request against the generation request it
    claims to carry accepts exactly the request that deriving it gives: no
    field may differ, and nothing that derivation would refuse passes.  With
    a policy that [new] made, derivation fails only for an invalid
    generation request, for more or fewer than one candidate, or for a policy
    with other bounds. *)
Theorem single_candidate_mapping_exact (request : GenerationRequest.t) (n each total : Z)
    (policy : CandidateOutputPolicy.t) (structured : StructuredCompletionRequest.t) :
  0 <= n -> 0 <= each -> 0 <= total -> CandidateOutputPolicy.new n each total = Ok policy ->
  (validate_single_candidate_structured_request request policy structured = Ok tt <->
   derive_single_candidate_structured_request request policy = Ok structured) /\
  (forall e, derive_single_candidate_structured_request request policy = Err e <->
     match e with
     | InvalidGenerationRequest c => GenerationRequest.validate request = Err c
     | CandidateCountUnsupported =>
         GenerationRequest.validate request = Ok tt /\ GenerationRequest.candidate_count request <> 1
     | OutputPolicyMismatch =>
         GenerationRequest.validate request = Ok tt /\ GenerationRequest.candidate_count request = 1 /\
         (n <> 1 \/ each <> GenerationRequest.candidate_byte_limit request)
     | InvalidStructuredRequest _ | StructuredRequestMismatch => False
     end).
Proof.
  intros Hn He Ht Hp; apply policy_new_ok in Hp as (-> & _ & _ & _ & _ & _ & Hb).
  unfold validate_single_candidate_structured_request, derive_single_candidate_structured_request.
  destruct (GenerationRequest.validate request) as [[]|c|] eqn:Hv; cbn [map_err mbind result_bind].
  2: refused.
  2: refused.
  destruct (Z.eqb_spec (GenerationRequest.candidate_count request) 1) as [Hc|Hc]; cbn [negb].
  2: refused.
  cbn [CandidateOutputPolicy.expected_count CandidateOutputPolicy.maximum_candidate_bytes]; rewrite Hc.
  destruct (Z.eqb_spec n 1) as [Hn1|Hn1]; cbn [negb orb].
  2: refused.
  destruct (Z.eqb_spec each (GenerationRequest.candidate_byte_limit request)) as [He1|He1]; cbn [negb].
  2: refused.
  set (policy := CandidateOutputPolicy.mk _ _ _ _); pose proof (structured_eq request policy structured) as Heq.
  assert (Hs : StructuredCompletionRequest.validate (structured_of request policy) = Ok tt)
    by (apply structured_of_valid; [done | cbn; lia]).
  rewrite Hs; cbn [map_err mbind result_bind]; split; [split |].
  - intros H; apply bind_ok in H as ([] & _ & H); step_match; f_equal; symmetry; by apply Heq.
  - intros H; assert (E : structured = structured_of request policy) by congruence; pose proof (proj1 Heq E) as Hif.
    rewrite E at 1; rewrite Hs; cbn [map_err mbind result_bind]; by rewrite Hif.
  - intros e; destruct e; split; intros H; simplify_eq; try done; naive_solver.
Qed.
End Mapping.
