(* ===== verification/LocalJudge.v ===== *)
(** * Local-judge attempts ([inference/src/local_judge.rs]). *)

From S2P Require Import Prelude Text Document Claims Json Model Inference.

Definition LOCAL_JUDGE_ATTEMPT_OUTPUT_SCHEMA_VERSION : Z := 1.
Definition MAX_LOCAL_JUDGE_ATTEMPT_OUTPUT_BYTES : Z := 65536.
Definition MAX_LOCAL_JUDGE_LABEL_BYTES : Z := 64.
Definition MAX_LOCAL_JUDGE_RUBRIC_CLAUSES : Z := 32.
Definition MAX_LOCAL_JUDGE_BYTE_SPANS : Z := 32.

Definition LOCAL_JUDGE_ATTEMPT_SCHEMA : text :=
  json_lit "{'$schema':'https://json-schema.org/draft/2020-12/schema','$id':'urn:retonr:local-judge-attempt-outp"
  ++ json_lit "ut:v1','type':'object','additionalProperties':false,'required':['schema_version','case_id','choice',"
  ++ json_lit "'rubric_clauses','source_spans','first_candidate_spans','second_candidate_spans'],'properties':{'sch"
  ++ json_lit "ema_version':{'type':'integer','const':1},'case_id':{'type':'string','minLength':1,'maxLength':64,'p"
  ++ json_lit "attern':'^[a-z0-9_-]+$'},'choice':{'type':'string','enum':['first','second','tie','abstain']},'rubri"
  ++ json_lit "c_clauses':{'type':'array','minItems':1,'maxItems':32,'uniqueItems':true,'items':{'type':'string','m"
  ++ json_lit "inLength':1,'maxLength':64,'pattern':'^[a-z0-9_-]+$'}},'source_spans':{'$ref':'#/$defs/spans'},'firs"
  ++ json_lit "t_candidate_spans':{'$ref':'#/$defs/spans'},'second_candidate_spans':{'$ref':'#/$defs/spans'}},'$def"
  ++ json_lit "s':{'spans':{'type':'array','maxItems':32,'items':{'$ref':'#/$defs/span'}},'span':{'type':'object','"
  ++ json_lit "additionalProperties':false,'required':['start','end'],'properties':{'start':{'type':'integer','mini"
  ++ json_lit "mum':0,'maximum':4294967295},'end':{'type':'integer','minimum':0,'maximum':4294967295}}}}}".

Inductive LocalJudgeChoice := First | Second | Tie | Abstain.

Record LocalJudgeByteSpan := { span_start : Z; span_end : Z }.

Record LocalJudgeAttemptOutput := {
  attempt_version : Z;
  case_id : text;
  choice : LocalJudgeChoice;
  rubric_clauses : list text;
  source_spans : list LocalJudgeByteSpan;
  first_candidate_spans : list LocalJudgeByteSpan;
  second_candidate_spans : list LocalJudgeByteSpan
}.

Inductive LocalJudgeAttemptOutputError :=
| JudgeTooLarge | JudgeInvalidJson | JudgeUnsupportedSchema (version : Z) | InvalidCaseId | InvalidRubricClauses
| InvalidSourceSpans | InvalidFirstCandidateSpans | InvalidSecondCandidateSpans.

(** [local_judge_attempt_output_contract]. *)
Definition local_judge_attempt_output_contract `{SHA : Sha256} : OutputContract.t := {|
  OutputContract.schema_digest := sha256 (as_bytes LOCAL_JUDGE_ATTEMPT_SCHEMA);
  OutputContract.schema_json := LOCAL_JUDGE_ATTEMPT_SCHEMA |}.

(** ** The derived codec *)

Definition choice_names : list (text * LocalJudgeChoice) :=
  [(lit "first", First); (lit "second", Second); (lit "tie", Tie); (lit "abstain", Abstain)].
Definition choice_name (c : LocalJudgeChoice) : text :=
  match c with First => lit "first" | Second => lit "second" | Tie => lit "tie" | Abstain => lit "abstain" end.

Definition encode_span (s : LocalJudgeByteSpan) : Json :=
  JObject [(lit "start", JAtom (AUint (span_start s))); (lit "end", JAtom (AUint (span_end s)))].
Definition decode_span (v : Json) : option LocalJudgeByteSpan :=
  fields ← decode_fields true [lit "start"; lit "end"] v;
  match fields with
  | [start; end_] =>
      start ← required (decode_uint u32_max) start;
      end_ ← required (decode_uint u32_max) end_;
      Some {| span_start := start; span_end := end_ |}
  | _ => None
  end.

Definition attempt_members (a : LocalJudgeAttemptOutput) : list (text * Json) :=
  [(lit "schema_version", JAtom (AUint (attempt_version a)));
   (lit "case_id", JAtom (AString (case_id a)));
   (lit "choice", JAtom (AString (choice_name (choice a))));
   (lit "rubric_clauses", JArray (map (fun c => JAtom (AString c)) (rubric_clauses a)));
   (lit "source_spans", JArray (map encode_span (source_spans a)));
   (lit "first_candidate_spans", JArray (map encode_span (first_candidate_spans a)));
   (lit "second_candidate_spans", JArray (map encode_span (second_candidate_spans a)))].
Definition encode_attempt (a : LocalJudgeAttemptOutput) : Json := JObject (attempt_members a).

Definition attempt_fields : list text :=
  [lit "schema_version"; lit "case_id"; lit "choice"; lit "rubric_clauses"; lit "source_spans";
   lit "first_candidate_spans"; lit "second_candidate_spans"].
Definition decode_attempt (v : Json) : option LocalJudgeAttemptOutput :=
  fields ← decode_fields true attempt_fields v;
  match fields with
  | [version; case_id; choice; clauses; source; first; second] =>
      version ← required (decode_uint u32_max) version;
      case_id ← required decode_string case_id;
      choice ← required (decode_variant choice_names) choice;
      clauses ← required (decode_vec decode_string) clauses;
      source ← required (decode_vec decode_span) source;
      first ← required (decode_vec decode_span) first;
      second ← required (decode_vec decode_span) second;
      Some {| attempt_version := version; case_id := case_id; choice := choice; rubric_clauses := clauses;
              source_spans := source; first_candidate_spans := first; second_candidate_spans := second |}
  | _ => None
  end.

(** ** Parsing *)

(** [valid_label]. *)
Definition valid_label (value : text) : bool := machine_label MAX_LOCAL_JUDGE_LABEL_BYTES value.

(** [validate_spans]. *)
Definition validate_spans (spans : list LocalJudgeByteSpan) : Result unit unit :=
  if (MAX_LOCAL_JUDGE_BYTE_SPANS <? vlen spans) || existsb (fun s => span_end s <=? span_start s) spans
     || negb (windows_all (fun a b => span_end a <=? span_start b) spans)
  then Err tt else Ok tt.

(** [parse_local_judge_attempt_output]. *)
Definition parse_local_judge_attempt_output `{JSON : JsonCodec} (input : text)
  : Result LocalJudgeAttemptOutputError LocalJudgeAttemptOutput :=
  if MAX_LOCAL_JUDGE_ATTEMPT_OUTPUT_BYTES <? slen input then Err JudgeTooLarge
  else
    output ← ok_or (v ← from_str input; decode_attempt v) JudgeInvalidJson;
    if negb (attempt_version output =? LOCAL_JUDGE_ATTEMPT_OUTPUT_SCHEMA_VERSION)
    then Err (JudgeUnsupportedSchema (attempt_version output))
    else if negb (valid_label (case_id output)) then Err InvalidCaseId
    else if (vlen (rubric_clauses output) =? 0) || (MAX_LOCAL_JUDGE_RUBRIC_CLAUSES <? vlen (rubric_clauses output))
            || existsb (fun clause => negb (valid_label clause)) (rubric_clauses output)
            || negb (windows_all str_lt (rubric_clauses output))
    then Err InvalidRubricClauses
    else
      _ ← map_err (fun _ => InvalidSourceSpans) (validate_spans (source_spans output));
      _ ← map_err (fun _ => InvalidFirstCandidateSpans) (validate_spans (first_candidate_spans output));
      _ ← map_err (fun _ => InvalidSecondCandidateSpans) (validate_spans (second_candidate_spans output));
      Ok output.

(** ** What a valid attempt is *)

Record spans_ok (l : list LocalJudgeByteSpan) : Prop := {
  sp_count : vlen l <= MAX_LOCAL_JUDGE_BYTE_SPANS;
  sp_nonempty : Forall (fun s => span_start s < span_end s) l;
  sp_disjoint : StronglySorted (fun a b => span_end a <= span_start b) l
}.

Record attempt_ok (a : LocalJudgeAttemptOutput) : Prop := {
  ao_version : attempt_version a = LOCAL_JUDGE_ATTEMPT_OUTPUT_SCHEMA_VERSION;
  ao_case : valid_label (case_id a) = true;
  ao_clauses : rubric_clauses a <> [] /\ vlen (rubric_clauses a) <= MAX_LOCAL_JUDGE_RUBRIC_CLAUSES;
  ao_labels : Forall (fun c => valid_label c = true) (rubric_clauses a);
  ao_sorted : StronglySorted (fun x y => str_cmp x y = Lt) (rubric_clauses a);
  ao_source : spans_ok (source_spans a);
  ao_first : spans_ok (first_candidate_spans a);
  ao_second : spans_ok (second_candidate_spans a)
}.

(** ** Lemmas: the checks *)

Lemma str_cmp_lt_trans a b c : str_cmp a b = Lt -> str_cmp b c = Lt -> str_cmp a c = Lt.
Proof.
  revert b c; induction a as [|x a IH]; intros [|y b] [|z c]; cbn; try done.
  destruct (Z.compare_spec x y), (Z.compare_spec y z), (Z.compare_spec x z); try done; try lia; subst; eauto; lia.
Qed.

Lemma str_lt_iff a b : str_lt a b = true <-> str_cmp a b = Lt.
Proof. unfold str_lt; by destruct (str_cmp a b). Qed.

Lemma StronglySorted_impl {A} (R S : A -> A -> Prop) l :
  (forall x y, R x y -> S x y) -> StronglySorted R l -> StronglySorted S l.
Proof. intros HRS; induction 1 as [|x l Hl IH Hx]; constructor; [done |]; eapply Forall_impl; [exact Hx |]; auto. Qed.

Lemma windows_disjoint l :
  Forall (fun s => span_start s < span_end s) l ->
  windows_all (fun a b => span_end a <=? span_start b) l = true <->
  StronglySorted (fun a b => span_end a <= span_start b) l.
Proof.
  intros Hne; split.
  - induction Hne as [|x l Hx Hne IH]; [constructor |]; destruct l as [|y l]; [by repeat constructor |].
    cbn [windows_all]; intros H; zbool; specialize (IH H0); constructor; [done |].
    inversion Hne; subst; apply StronglySorted_inv in IH as [_ Hy]; constructor; [done |].
    eapply Forall_impl; [exact Hy |]; cbn; lia.
  - clear Hne; induction 1 as [|x l Hl IH Hx]; [done |]; destruct l as [|y l]; [done |]; cbn [windows_all].
    inversion Hx; subst; apply andb_true_iff; split; [by apply Z.leb_le | done].
Qed.

Lemma existsb_none {A} (f : A -> bool) l : existsb f l = false <-> Forall (fun x => f x = false) l.
Proof. induction l as [|x l IH]; cbn; [done |]; rewrite orb_false_iff, IH, Forall_cons; done. Qed.

Lemma validate_spans_ok l : validate_spans l = Ok tt <-> spans_ok l.
Proof.
  unfold validate_spans; destruct (_ || _) eqn:E.
  - split; [done |]; intros [Hc Hn Hd]; exfalso; apply not_false_iff_true in E; apply E.
    rewrite !orb_false_iff, negb_false_iff, existsb_none, windows_disjoint by done; split_and!; [by apply Z.ltb_ge | | done].
    eapply Forall_impl; [exact Hn |]; intros; by apply Z.leb_gt.
  - split; [intros _ | done]; rewrite !orb_false_iff, negb_false_iff, existsb_none in E; destruct E as [[Hc Hn] Hd].
    assert (Forall (fun s => span_start s < span_end s) l) by (eapply Forall_impl; [exact Hn |]; intros; by apply Z.leb_gt).
    split; [by apply Z.ltb_ge | done | by apply windows_disjoint].
Qed.

Lemma clauses_ok l :
  (vlen l =? 0) || (MAX_LOCAL_JUDGE_RUBRIC_CLAUSES <? vlen l) || existsb (fun clause => negb (valid_label clause)) l
  || negb (windows_all str_lt l) = false <->
  (l <> [] /\ vlen l <= MAX_LOCAL_JUDGE_RUBRIC_CLAUSES) /\ Forall (fun c => valid_label c = true) l /\
  StronglySorted (fun x y => str_cmp x y = Lt) l.
Proof.
  rewrite !orb_false_iff, negb_false_iff, existsb_none, Z.eqb_neq, Z.ltb_ge.
  rewrite windows_all_sorted by (intros x y z; rewrite !str_lt_iff; apply str_cmp_lt_trans).
  assert (Hs : StronglySorted (fun x y => str_lt x y = true) l <-> StronglySorted (fun x y => str_cmp x y = Lt) l)
    by (split; apply StronglySorted_impl; intros x y; apply str_lt_iff).
  assert (Hl : Forall (fun c => negb (valid_label c) = false) l <-> Forall (fun c => valid_label c = true) l)
    by (apply Forall_iff; intros c; apply negb_false_iff).
  assert (Hn : vlen l <> 0 <-> l <> []) by (unfold vlen; destruct l; cbn [length]; split; try done; lia).
  rewrite Hs, Hl, Hn; tauto.
Qed.

Section Judge.
Context {JSON : JsonCodec}.

Lemma parse_judge_iff input a :
  parse_local_judge_attempt_output input = Ok a <->
  slen input <= MAX_LOCAL_JUDGE_ATTEMPT_OUTPUT_BYTES /\
  (exists v, from_str input = Some v /\ decode_attempt v = Some a) /\ attempt_ok a.
Proof.
  unfold parse_local_judge_attempt_output; destruct (Z.ltb_spec MAX_LOCAL_JUDGE_ATTEMPT_OUTPUT_BYTES (slen input)) as [Hl|Hl].
  { split; [done | intros [? _]; lia]. }
  destruct (v ← from_str input; decode_attempt v) as [o|] eqn:Ed; cbn [ok_or mbind result_bind].
  2:{ split; [done |]; intros (_ & (v & Hv & Hd) & _); rewrite Hv in Ed; cbn in Ed; congruence. }
  assert (Hex : (exists v, from_str input = Some v /\ decode_attempt v = Some a) <-> o = a).
  { apply bind_Some in Ed as (v & Hv & Hd); rewrite Hv; split; [intros (v' & [= <-] & Hd'); congruence | intros ->; eauto]. }
  rewrite Hex; split.
  - intros H; destruct (Z.eqb_spec (attempt_version o) LOCAL_JUDGE_ATTEMPT_OUTPUT_SCHEMA_VERSION) as [Hv|]; [| done].
    cbn [negb] in H; destruct (valid_label (case_id o)) eqn:Hcase; [| done]; cbn [negb] in H.
    destruct (_ || negb (windows_all str_lt (rubric_clauses o))) eqn:Hc; [done |].
    apply clauses_ok in Hc as (Hr & Hlab & Hso); apply bind_ok in H as ([] & H1 & H); apply bind_ok in H as ([] & H2 & H).
    apply bind_ok in H as ([] & H3 & [= ->]); apply map_err_ok, validate_spans_ok in H1, H2, H3; by split_and!.
  - intros (_ & -> & [Hv Hcase Hc Hlab Hs H1 H2 H3]); rewrite Hv, Hcase; cbn [Z.eqb Pos.eqb negb LOCAL_JUDGE_ATTEMPT_OUTPUT_SCHEMA_VERSION].
    rewrite (proj2 (clauses_ok _)) by done; apply validate_spans_ok in H1, H2, H3; by rewrite H1, H2, H3.
Qed.

End Judge.

(** ** Lemmas: printing an attempt *)

Definition span_u32 (s : LocalJudgeByteSpan) : Prop := 0 <= span_start s <= u32_max /\ 0 <= span_end s <= u32_max.

Lemma decode_uint_ok maximum n : n <= maximum -> decode_uint maximum (JAtom (AUint n)) = Some n.
Proof. intros H; cbn [decode_uint]; by rewrite (proj2 (Z.leb_le _ _)). Qed.

Lemma decode_encode_span s : span_u32 s -> decode_span (encode_span s) = Some s.
Proof.
  intros [Hs He]; unfold decode_span, encode_span.
  rewrite decode_fields_object by reflexivity.
  cbn [map snd mbind option_bind required]; rewrite !decode_uint_ok by lia; by destruct s.
Qed.

Lemma decode_encode_attempt a :
  0 <= attempt_version a <= u32_max ->
  Forall span_u32 (source_spans a) -> Forall span_u32 (first_candidate_spans a) ->
  Forall span_u32 (second_candidate_spans a) -> decode_attempt (encode_attempt a) = Some a.
Proof.
  intros Hv H1 H2 H3; unfold decode_attempt, encode_attempt.
  rewrite decode_fields_object by reflexivity.
  unfold attempt_members; cbn [map snd mbind option_bind required]; rewrite decode_uint_ok by lia; cbn [mbind option_bind decode_string].
  assert (decode_variant choice_names (JAtom (AString (choice_name (choice a)))) = Some (choice a)) as -> by by destruct (choice a).
  cbn [mbind option_bind]; rewrite (decode_vec_map (fun c => JAtom (AString c)) decode_string) by (by apply Forall_forall).
  cbn [mbind option_bind]; rewrite !(decode_vec_map encode_span decode_span)
    by (eapply Forall_impl; [eassumption | apply decode_encode_span]); by destruct a.
Qed.

Lemma sum_bound (l : list Z) m : Forall (fun x => x <= m) l -> foldr Z.add 0 l <= m * vlen l.
Proof. induction 1; rewrite ?vlen_cons; cbn [foldr]; [unfold vlen; cbn; lia | lia]. Qed.

Lemma spans_bound l : spans_ok l -> print_bound (JArray (map encode_span l)) <= 2 + 58 * 32.
Proof.
  intros [Hc _ _]; cbn [print_bound]; assert (H : foldr Z.add 0 (map print_bound (map encode_span l)) <= 57 * vlen l).
  { etransitivity; [apply (sum_bound _ 57) |].
    - apply Forall_forall; intros x Hx; rewrite map_map in Hx; apply list_elem_of_fmap in Hx as (s & -> & _); done.
    - unfold vlen; by rewrite !length_map. }
  unfold commas, vlen in *; rewrite length_map; unfold MAX_LOCAL_JUDGE_BYTE_SPANS in Hc; lia.
Qed.

Lemma clauses_bound l :
  vlen l <= MAX_LOCAL_JUDGE_RUBRIC_CLAUSES -> Forall (fun c => valid_label c = true) l ->
  print_bound (JArray (map (fun c => JAtom (AString c)) l)) <= 2 + 387 * 32.
Proof.
  intros Hc Hl; cbn [print_bound].
  assert (H : foldr Z.add 0 (map print_bound (map (fun c => JAtom (AString c)) l)) <= 386 * vlen l).
  { etransitivity; [apply (sum_bound _ 386) |].
    - apply Forall_forall; intros x Hx; rewrite map_map in Hx; apply list_elem_of_fmap in Hx as (c & -> & Hin).
      rewrite Forall_forall in Hl; apply Hl in Hin; unfold valid_label, machine_label in Hin; zbool.
      cbn [print_bound]; pose proof (string_len_bounds c); unfold MAX_LOCAL_JUDGE_LABEL_BYTES in *; lia.
    - unfold vlen; by rewrite !length_map. }
  unfold commas, vlen in *; rewrite length_map; unfold MAX_LOCAL_JUDGE_RUBRIC_CLAUSES in Hc; lia.
Qed.

Lemma attempt_bound a : attempt_ok a -> print_bound (encode_attempt a) <= MAX_LOCAL_JUDGE_ATTEMPT_OUTPUT_BYTES.
Proof.
  intros [_ Hcase [_ Hc] Hl _ H1 H2 H3]; apply spans_bound in H1, H2, H3; apply clauses_bound in Hc; [| done].
  unfold valid_label, machine_label in Hcase; zbool; unfold encode_attempt, attempt_members.
  assert (Hname : string_len (choice_name (choice a)) <= 7) by by destruct (choice a).
  pose proof (string_len_bounds (case_id a)); cbn [print_bound map foldr fst snd] in *.
  match goal with |- context [commas (?m :: ?l)] => change (commas (m :: l)) with 6 end.
  repeat match goal with |- context [string_len (lit ?s)] => let n := eval vm_compute in (string_len (lit s)) in
    change (string_len (lit s)) with n end.
  unfold MAX_LOCAL_JUDGE_LABEL_BYTES, MAX_LOCAL_JUDGE_ATTEMPT_OUTPUT_BYTES in *; lia.
Qed.

Lemma attempt_printable a :
  0 <= attempt_version a <= u32_max ->
  Forall span_u32 (source_spans a) -> Forall span_u32 (first_candidate_spans a) ->
  Forall span_u32 (second_candidate_spans a) ->
  printable (encode_attempt a) = true /\ depth (encode_attempt a) <= 127.
Proof.
  intros Hv H1 H2 H3.
  assert (Hspans : forall l, Forall span_u32 l -> forallb printable (map encode_span l) = true /\
    foldr Z.max 0 (map depth (map encode_span l)) <= 1).
  { clear; induction 1 as [|s l [Hs He] _ [IHp IHd]]; [done |]; cbn -[Z.max Z.add u64_max]; unfold u32_max, u64_max in *.
    split; [rewrite IHp, !(proj2 (Z.leb_le _ _)) by lia; done | lia]. }
  assert (Hc : forall l : list text, forallb printable (map (fun c => JAtom (AString c)) l) = true /\
    foldr Z.max 0 (map depth (map (fun c => JAtom (AString c)) l)) <= 0) by (induction l as [|c l [IHp IHd]]; cbn; [done | split; [done | lia]]).
  destruct (Hspans _ H1) as [P1 D1], (Hspans _ H2) as [P2 D2], (Hspans _ H3) as [P3 D3], (Hc (rubric_clauses a)) as [P4 D4].
  unfold encode_attempt, attempt_members; cbn [printable depth forallb map foldr fst snd]; rewrite P1, P2, P3, P4.
  unfold u32_max, u64_max in *; rewrite !(proj2 (Z.leb_le _ _)) by lia; split; [done | lia].
Qed.

(** A judge attempt is accepted exactly when it is within the byte
    limit, decodes, and has the current version, a valid case label, one to
    thirty-two distinct valid clause labels in order, and three lists of at
    most thirty-two spans that are non-empty, in order and disjoint.  Every
    such attempt, printed, is within the limit and parses back to itself. *)
Theorem local_judge_exact `{JSON : JsonCodec} (input : text) (a : LocalJudgeAttemptOutput) :
  (parse_local_judge_attempt_output input = Ok a <->
   slen input <= MAX_LOCAL_JUDGE_ATTEMPT_OUTPUT_BYTES /\
   (exists v, from_str input = Some v /\ decode_attempt v = Some a) /\ attempt_ok a) /\
  (attempt_ok a -> Forall span_u32 (source_spans a) -> Forall span_u32 (first_candidate_spans a) ->
   Forall span_u32 (second_candidate_spans a) ->
   parse_local_judge_attempt_output (json_print (encode_attempt a)) = Ok a).
Proof.
  split; [apply parse_judge_iff |]; intros Hok H1 H2 H3.
  assert (Hv : 0 <= attempt_version a <= u32_max) by by rewrite (ao_version _ Hok).
  destruct (attempt_printable a Hv H1 H2 H3) as [Hp Hd]; apply parse_judge_iff; split_and!; [| | done].
  - pose proof (json_print_length _ Hp); pose proof (attempt_bound a Hok); lia.
  - exists (encode_attempt a); split; [by apply from_str_print | by apply decode_encode_attempt].
Qed.
