(* ===== verification/Extractor.v ===== *)
(** * Extractor manifests ([types/src/extractor.rs]). *)

From S2P Require Import Prelude Text Document Claims Json.

Definition EXTRACTOR_MANIFEST_SCHEMA_VERSION : Z := 1.
Definition MAX_EXTRACTOR_MANIFEST_JSON_BYTES : Z := 16384.

Inductive ExtractorManifestError :=
| EncodedManifestTooLarge | InvalidEncoding | UnsupportedManifestSchema (version : Z) | InvalidIdentity.

(** [valid_extractor_component]. *)
Definition valid_extractor_component (value : text) : bool :=
  negb (slen value =? 0) && (slen value <=? MAX_EXTRACTOR_ID_BYTES) &&
  forallb (fun b => is_ascii_alphanumeric b || existsb (Z.eqb b) [46; 45; 95; 43; 58]) (as_bytes value).

(** The [Deserialize] implementation of [Digest]. *)
Definition decode_digest (v : Json) : option Digest.t :=
  value ← decode_string v; result_ok (Digest.from_sha256_hex value).
Definition encode_digest (d : Digest.t) : Json := JAtom (AString (Digest.as_str d)).

Module ExtractorManifest.

Record t := mk {
  schema_version : Z;
  extractor_id : text;
  extractor_version : text;
  subject_digest : Digest.t;
  prompt_digest : Digest.t;
  claim_output_contract_digest : Digest.t;
  claim_operation_contract_digest : Digest.t;
  confidence_policy_digest : Digest.t;
  language_policy_digest : Digest.t
}.

(** [ExtractorManifest::from_wire]. *)
Definition from_wire (schema_version : Z) (extractor_id extractor_version : text)
    (subject_digest prompt_digest claim_output_contract_digest claim_operation_contract_digest
     confidence_policy_digest language_policy_digest : Digest.t) : Result ExtractorManifestError t :=
  if negb (schema_version =? EXTRACTOR_MANIFEST_SCHEMA_VERSION) then Err (UnsupportedManifestSchema schema_version)
  else if negb (valid_extractor_component extractor_id) || negb (valid_extractor_component extractor_version)
  then Err InvalidIdentity
  else Ok (mk schema_version extractor_id extractor_version subject_digest prompt_digest claim_output_contract_digest
             claim_operation_contract_digest confidence_policy_digest language_policy_digest).

(** [ExtractorManifest::new]. *)
Definition new (extractor_id extractor_version : text)
    (subject_digest prompt_digest claim_output_contract_digest claim_operation_contract_digest
     confidence_policy_digest language_policy_digest : Digest.t) : Result ExtractorManifestError t :=
  from_wire EXTRACTOR_MANIFEST_SCHEMA_VERSION extractor_id extractor_version subject_digest prompt_digest
    claim_output_contract_digest claim_operation_contract_digest confidence_policy_digest language_policy_digest.

(** The derived [Serialize]. *)
Definition members (m : t) : list (text * Json) :=
  [(lit "schema_version", JAtom (AUint (schema_version m)));
   (lit "extractor_id", JAtom (AString (extractor_id m)));
   (lit "extractor_version", JAtom (AString (extractor_version m)));
   (lit "subject_digest", encode_digest (subject_digest m));
   (lit "prompt_digest", encode_digest (prompt_digest m));
   (lit "claim_output_contract_digest", encode_digest (claim_output_contract_digest m));
   (lit "claim_operation_contract_digest", encode_digest (claim_operation_contract_digest m));
   (lit "confidence_policy_digest", encode_digest (confidence_policy_digest m));
   (lit "language_policy_digest", encode_digest (language_policy_digest m))].
Definition encode (m : t) : Json := JObject (members m).

Definition wire_fields : list text :=
  [lit "schema_version"; lit "extractor_id"; lit "extractor_version"; lit "subject_digest"; lit "prompt_digest";
   lit "claim_output_contract_digest"; lit "claim_operation_contract_digest"; lit "confidence_policy_digest";
   lit "language_policy_digest"].

(** The [Wire] struct of [from_json_bytes]; [None] is an encoding error. *)
Definition decode_wire (v : Json) : option (Result ExtractorManifestError t) :=
  fields ← decode_fields true wire_fields v;
  match fields with
  | [version; id; extractor_version; subject; prompt; output; operation; confidence; language] =>
      version ← required (decode_uint u32_max) version;
      id ← required decode_string id;
      extractor_version ← required decode_string extractor_version;
      subject ← required decode_digest subject;
      prompt ← required decode_digest prompt;
      output ← required decode_digest output;
      operation ← required decode_digest operation;
      confidence ← required decode_digest confidence;
      language ← required decode_digest language;
      Some (from_wire version id extractor_version subject prompt output operation confidence language)
  | _ => None
  end.

Section Codec.
Context {SHA : Sha256} {JSON : JsonCodec}.

(** [ExtractorManifest::from_json_bytes]. *)
Definition from_json_bytes (b : bytes) : Result ExtractorManifestError t :=
  if MAX_EXTRACTOR_MANIFEST_JSON_BYTES <? vlen b then Err EncodedManifestTooLarge
  else
    input ← map_err (fun _ => InvalidEncoding) (from_utf8 b);
    wire ← ok_or (v ← from_str input; decode_wire v) InvalidEncoding;
    wire.

(** [ExtractorManifest::manifest_digest]. *)
Definition manifest_digest (m : t) : Digest.t := sha256 (as_bytes (json_print (encode m))).

End Codec.

End ExtractorManifest.

(** ** Lemmas *)

(** A manifest that [new] returned, with digests as [Digest] holds them. *)
Record manifest_ok (m : ExtractorManifest.t) : Prop := {
  mo_version : ExtractorManifest.schema_version m = EXTRACTOR_MANIFEST_SCHEMA_VERSION;
  mo_id : valid_extractor_component (ExtractorManifest.extractor_id m) = true;
  mo_extractor : valid_extractor_component (ExtractorManifest.extractor_version m) = true;
  mo_strings : scalars (ExtractorManifest.extractor_id m) /\ scalars (ExtractorManifest.extractor_version m);
  mo_digests : Forall (fun d => Digest.from_sha256_hex (Digest.as_str d) = Ok d)
    [ExtractorManifest.subject_digest m; ExtractorManifest.prompt_digest m;
     ExtractorManifest.claim_output_contract_digest m; ExtractorManifest.claim_operation_contract_digest m;
     ExtractorManifest.confidence_policy_digest m; ExtractorManifest.language_policy_digest m]
}.

Lemma decode_encode_digest d : Digest.from_sha256_hex (Digest.as_str d) = Ok d -> decode_digest (encode_digest d) = Some d.
Proof. unfold decode_digest, encode_digest; cbn; by intros ->. Qed.

Lemma digest_shape d :
  Digest.from_sha256_hex (Digest.as_str d) = Ok d ->
  slen (Digest.as_str d) = 64 /\ forallb Digest.is_hex_digit (Digest.as_str d) = true.
Proof. unfold Digest.from_sha256_hex; destruct (_ && _) eqn:E; [| done]; intros _; by zbool. Qed.

Lemma forallb_scalars s : scalars s -> forallb is_scalar s = true.
Proof. rewrite Forall_forall; intros H; apply forallb_forall; intros c Hc; by apply H, list_elem_of_In. Qed.

Lemma digest_scalars d : Digest.from_sha256_hex (Digest.as_str d) = Ok d -> forallb is_scalar (Digest.as_str d) = true.
Proof.
  intros H; apply digest_shape in H as [_ H]; rewrite forallb_forall in *; intros c Hc; apply H in Hc.
  unfold Digest.is_hex_digit, is_ascii_digit, is_scalar in *; rewrite orb_true_iff, !in_range_true in *; lia.
Qed.

Lemma component_bound s : valid_extractor_component s = true -> string_len s <= 384.
Proof.
  unfold valid_extractor_component, MAX_EXTRACTOR_ID_BYTES; intros H; zbool; pose proof (string_len_bounds s); lia.
Qed.

Lemma digest_bound d : Digest.from_sha256_hex (Digest.as_str d) = Ok d -> string_len (Digest.as_str d) <= 384.
Proof. intros H; apply digest_shape in H as [H _]; pose proof (string_len_bounds (Digest.as_str d)); lia. Qed.

Section Manifest.
Context {SHA : Sha256} {JSON : JsonCodec}.
Variable m : ExtractorManifest.t.
Hypothesis Hm : manifest_ok m.

Lemma decode_wire_encode : ExtractorManifest.decode_wire (ExtractorManifest.encode m) = Some (Ok m).
Proof.
  destruct Hm as [Hv Hid Hver _ Hd]; rewrite !Forall_cons in Hd; destruct Hd as (D1 & D2 & D3 & D4 & D5 & D6 & _).
  unfold ExtractorManifest.decode_wire, ExtractorManifest.encode; rewrite decode_fields_object by reflexivity.
  unfold ExtractorManifest.members; rewrite Hv; cbn [map snd mbind option_bind required decode_uint decode_string].
  rewrite !decode_encode_digest by done; unfold ExtractorManifest.from_wire; cbn; rewrite Hid, Hver; cbn.
  rewrite <- Hv; by destruct m.
Qed.

Lemma manifest_printable :
  printable (ExtractorManifest.encode m) = true /\ depth (ExtractorManifest.encode m) <= 127 /\
  scalar_strings (ExtractorManifest.encode m) = true /\
  print_bound (ExtractorManifest.encode m) <= MAX_EXTRACTOR_MANIFEST_JSON_BYTES.
Proof.
  destruct Hm as [Hv Hid Hver [Hs1 Hs2] Hd]; rewrite !Forall_cons in Hd; destruct Hd as (D1 & D2 & D3 & D4 & D5 & D6 & _).
  unfold ExtractorManifest.encode, ExtractorManifest.members; rewrite Hv; split_and!.
  - done.
  - cbn; lia.
  - cbn -[is_scalar]; rewrite !digest_scalars by done; by rewrite !forallb_scalars.
  - apply digest_bound in D1, D2, D3, D4, D5, D6; apply component_bound in Hid, Hver.
    unfold encode_digest; cbn [print_bound map foldr fst snd].
    repeat match goal with |- context [string_len (lit ?x)] => let n := eval vm_compute in (string_len (lit x)) in
      change (string_len (lit x)) with n end.
    match goal with |- context [commas (?x :: ?l)] => change (commas (x :: l)) with 8 end.
    unfold MAX_EXTRACTOR_MANIFEST_JSON_BYTES; lia.
Qed.

Lemma manifest_decodes :
  ExtractorManifest.from_json_bytes (as_bytes (json_print (ExtractorManifest.encode m))) = Ok m.
Proof.
  destruct manifest_printable as (Hp & Hd & Hs & Hb); unfold ExtractorManifest.from_json_bytes; rewrite as_bytes_length.
  pose proof (json_print_length _ Hp); rewrite (proj2 (Z.ltb_ge _ _)) by lia.
  rewrite from_utf8_as_bytes by (by apply json_print_scalars); cbn [map_err mbind result_bind].
  rewrite from_str_print by done; cbn [mbind option_bind]; by rewrite decode_wire_encode.
Qed.

End Manifest.

(** An extractor manifest is what its encoding says.  Decoding accepts
    only bytes within the limit and only a manifest of the current version
    with two valid components; every manifest encodes within the limit and
    decodes to itself; and two manifests with the same digest are the same
    manifest, unless SHA-256 collides on their encodings. *)
Theorem extractor_manifest_roundtrip `{SHA : Sha256} `{JSON : JsonCodec} :
  (forall b m, ExtractorManifest.from_json_bytes b = Ok m ->
     vlen b <= MAX_EXTRACTOR_MANIFEST_JSON_BYTES /\
     ExtractorManifest.schema_version m = EXTRACTOR_MANIFEST_SCHEMA_VERSION /\
     valid_extractor_component (ExtractorManifest.extractor_id m) = true /\
     valid_extractor_component (ExtractorManifest.extractor_version m) = true) /\
  (forall m, manifest_ok m ->
     ExtractorManifest.from_json_bytes (as_bytes (json_print (ExtractorManifest.encode m))) = Ok m) /\
  (forall m m', manifest_ok m -> manifest_ok m' ->
     ExtractorManifest.manifest_digest m = ExtractorManifest.manifest_digest m' ->
     m = m' \/ collision (as_bytes (json_print (ExtractorManifest.encode m)))
                        (as_bytes (json_print (ExtractorManifest.encode m')))).
Proof.
  split_and!.
  - intros b m; unfold ExtractorManifest.from_json_bytes; destruct (Z.ltb_spec MAX_EXTRACTOR_MANIFEST_JSON_BYTES (vlen b)); [done |].
    intros Hb; apply bind_ok in Hb as (input & _ & Hb); apply bind_ok in Hb as (wire & Hw & ->); apply ok_or_ok in Hw.
    apply bind_Some in Hw as (v & _ & Hw); unfold ExtractorManifest.decode_wire in Hw.
    apply bind_Some in Hw as (fields & _ & Hw); do 10 (destruct fields as [|? fields]; try done).
    repeat (apply bind_Some in Hw as (? & _ & Hw)); injection Hw as Hw; unfold ExtractorManifest.from_wire in Hw.
    destruct (negb (_ =? _)) eqn:Ev; [done |]; destruct (_ || _) eqn:Ec; [done |]; zbool; injection Hw as <-; done.
  - apply manifest_decodes.
  - intros m m' Hm Hm' H; destruct (decide (as_bytes (json_print (ExtractorManifest.encode m))
      = as_bytes (json_print (ExtractorManifest.encode m')))) as [E|E]; [left | by right].
    apply manifest_decodes in Hm; apply manifest_decodes in Hm'; congruence.
Qed.
