(* ===== verification/ModelJson.v ===== *)
(** * The stored form of the model records.

    The store keeps a record as the JSON text that its derived [Serialize]
    prints and reads it back with its derived [Deserialize].  The class
    [Serde] is what the store relies on; the instances write out the derived
    implementations of [model/src/artifact.rs], [qualification.rs] and
    [activation.rs]. *)

From S2P Require Import Prelude Text Document Claims Json Extractor Model.

(** A value whose numbers are unsigned and whose nesting is at most [k]. *)
Definition fits (k : Z) (v : Json) : Prop := printable v = true /\ depth v <= k.

(** ** The interface of a serializable record *)

Class Serde (T : Type) := {
  encode : T -> Json;
  decode : Json -> option T;
  (** The values of the Rust type: widths of integers, shapes of digests. *)
  typed : T -> Prop;
  decode_encode : forall x, typed x -> decode (encode x) = Some x;
  encode_fits : forall x, typed x -> fits 127 (encode x)
}.

(** ** Fields *)

Definition encode_uint (n : Z) : Json := JAtom (AUint n).
Definition encode_text (s : text) : Json := JAtom (AString s).
Definition encode_option {A} (encode : A -> Json) (o : option A) : Json :=
  match o with Some a => encode a | None => JAtom ANull end.
Definition encode_vec {A} (encode : A -> Json) (l : list A) : Json := JArray (map encode l).

(** The derived names of the variants. *)
Definition role_variants : list (text * ArtifactRole) := map (fun r => (machine_name r, r)) ALL_ROLES.
Definition encode_role (r : ArtifactRole) : Json := encode_text (machine_name r).
Definition decode_role : Json -> option ArtifactRole := decode_variant role_variants.

Definition encode_artifact_id (i : ArtifactId.t) : Json := encode_digest (ArtifactId.digest i).
Definition decode_artifact_id (v : Json) : option ArtifactId.t := ArtifactId.mk <$> decode_digest v.
Definition encode_qualification_id (i : QualificationId.t) : Json := encode_digest (QualificationId.digest i).
Definition decode_qualification_id (v : Json) : option QualificationId.t := QualificationId.mk <$> decode_digest v.
Definition encode_activation_id (i : ActivationId.t) : Json := encode_digest (ActivationId.digest i).
Definition decode_activation_id (v : Json) : option ActivationId.t := ActivationId.mk <$> decode_digest v.

(** ** Manifests *)

Definition encode_source (s : ArtifactSource) : Json :=
  JObject [(lit "origin", encode_text (origin s)); (lit "revision", encode_text (revision s))].
Definition decode_source (v : Json) : option ArtifactSource :=
  fields ← decode_fields true [lit "origin"; lit "revision"] v;
  match fields with
  | [origin; revision] =>
      origin ← required decode_string origin;
      revision ← required decode_string revision;
      Some {| origin := origin; revision := revision |}
  | _ => None
  end.

Definition encode_tokenizer (t : TokenizerIdentity) : Json :=
  JObject [(lit "family", encode_text (tokenizer_family t)); (lit "digest", encode_digest (tokenizer_digest t))].
Definition decode_tokenizer (v : Json) : option TokenizerIdentity :=
  fields ← decode_fields true [lit "family"; lit "digest"] v;
  match fields with
  | [family; digest] =>
      family ← required decode_string family;
      digest ← required decode_digest digest;
      Some {| tokenizer_family := family; tokenizer_digest := digest |}
  | _ => None
  end.

Definition encode_license (l : LicenseRecord) : Json :=
  JObject [(lit "component", encode_text (license_component l));
           (lit "identifier", encode_text (license_identifier l));
           (lit "text_digest", encode_digest (license_text_digest l))].
Definition decode_license (v : Json) : option LicenseRecord :=
  fields ← decode_fields true [lit "component"; lit "identifier"; lit "text_digest"] v;
  match fields with
  | [component; identifier; digest] =>
      component ← required decode_string component;
      identifier ← required decode_string identifier;
      digest ← required decode_digest digest;
      Some {| license_component := component; license_identifier := identifier; license_text_digest := digest |}
  | _ => None
  end.

Definition encode_capabilities (c : DeclaredCapabilities) : Json :=
  JObject [(lit "roles", encode_vec encode_role (declared_roles c));
           (lit "languages", encode_vec encode_text (declared_languages c));
           (lit "context_tokens", encode_option encode_uint (declared_context_tokens c))].
Definition decode_capabilities (v : Json) : option DeclaredCapabilities :=
  fields ← decode_fields true [lit "roles"; lit "languages"; lit "context_tokens"] v;
  match fields with
  | [roles; languages; tokens] =>
      roles ← required (decode_vec decode_role) roles;
      languages ← required (decode_vec decode_string) languages;
      tokens ← optional (decode_uint u32_max) tokens;
      Some {| declared_roles := roles; declared_languages := languages; declared_context_tokens := tokens |}
  | _ => None
  end.

Definition encode_manifest (m : ArtifactManifest.t) : Json :=
  JObject [(lit "schema_version", encode_uint (ArtifactManifest.schema_version m));
           (lit "artifact_id", encode_artifact_id (ArtifactManifest.artifact_id m));
           (lit "source", encode_source (ArtifactManifest.source m));
           (lit "artifact_digest", encode_digest (ArtifactManifest.artifact_digest m));
           (lit "byte_size", encode_uint (ArtifactManifest.byte_size m));
           (lit "format", encode_text (ArtifactManifest.format m));
           (lit "family", encode_text (ArtifactManifest.family m));
           (lit "architecture", encode_option encode_text (ArtifactManifest.architecture m));
           (lit "quantization", encode_option encode_text (ArtifactManifest.quantization m));
           (lit "tokenizer", encode_option encode_tokenizer (ArtifactManifest.tokenizer m));
           (lit "licenses", encode_vec encode_license (ArtifactManifest.licenses m));
           (lit "declared_capabilities", encode_capabilities (ArtifactManifest.declared_capabilities m))].
Definition manifest_fields : list text :=
  [lit "schema_version"; lit "artifact_id"; lit "source"; lit "artifact_digest"; lit "byte_size"; lit "format";
   lit "family"; lit "architecture"; lit "quantization"; lit "tokenizer"; lit "licenses"; lit "declared_capabilities"].
Definition decode_manifest (v : Json) : option ArtifactManifest.t :=
  fields ← decode_fields true manifest_fields v;
  match fields with
  | [version; id; source; digest; size; format; family; architecture; quantization; tokenizer; licenses; capabilities] =>
      version ← required (decode_uint u32_max) version;
      id ← required decode_artifact_id id;
      source ← required decode_source source;
      digest ← required decode_digest digest;
      size ← required (decode_uint u64_max) size;
      format ← required decode_string format;
      family ← required decode_string family;
      architecture ← optional decode_string architecture;
      quantization ← optional decode_string quantization;
      tokenizer ← optional decode_tokenizer tokenizer;
      licenses ← required (decode_vec decode_license) licenses;
      capabilities ← required decode_capabilities capabilities;
      Some (ArtifactManifest.mk version id source digest size format family architecture quantization tokenizer
              licenses capabilities)
  | _ => None
  end.

(** ** Qualification records *)

Definition encode_runtime (r : RuntimeIdentity.t) : Json :=
  JObject [(lit "backend", encode_text (RuntimeIdentity.backend r));
           (lit "version", encode_text (RuntimeIdentity.version r));
           (lit "digest", encode_option encode_digest (RuntimeIdentity.digest r))].
Definition decode_runtime (v : Json) : option RuntimeIdentity.t :=
  fields ← decode_fields true [lit "backend"; lit "version"; lit "digest"] v;
  match fields with
  | [backend; version; digest] =>
      backend ← required decode_string backend;
      version ← required decode_string version;
      digest ← optional decode_digest digest;
      Some (RuntimeIdentity.mk backend version digest)
  | _ => None
  end.

Definition encode_tier (t : HardwareTier) : Json :=
  JObject [(lit "id", encode_text (tier_id t)); (lit "memory_mib", encode_uint (memory_mib t));
           (lit "accelerator", encode_text (accelerator t))].
Definition decode_tier (v : Json) : option HardwareTier :=
  fields ← decode_fields true [lit "id"; lit "memory_mib"; lit "accelerator"] v;
  match fields with
  | [id; memory; accelerator] =>
      id ← required decode_string id;
      memory ← required (decode_uint u64_max) memory;
      accelerator ← required decode_string accelerator;
      Some {| tier_id := id; memory_mib := memory; accelerator := accelerator |}
  | _ => None
  end.

Definition license_decision_variants : list (text * LicenseDecision) :=
  [(lit "local_use_only", LocalUseOnly); (lit "redistribution_approved", RedistributionApproved);
   (lit "rejected", LicenseRejected)].
Definition license_decision_name (d : LicenseDecision) : text :=
  match d with
  | LocalUseOnly => lit "local_use_only" | RedistributionApproved => lit "redistribution_approved"
  | LicenseRejected => lit "rejected"
  end.
Definition status_variants : list (text * QualificationStatus) :=
  [(lit "qualified", Qualified); (lit "rejected", QualificationRejected)].
Definition status_name (s : QualificationStatus) : text :=
  match s with Qualified => lit "qualified" | QualificationRejected => lit "rejected" end.

Definition encode_qualification (q : QualificationRecord.t) : Json :=
  JObject [(lit "schema_version", encode_uint (QualificationRecord.schema_version q));
           (lit "artifact_id", encode_artifact_id (QualificationRecord.artifact_id q));
           (lit "artifact_digest", encode_digest (QualificationRecord.artifact_digest q));
           (lit "runtime", encode_runtime (QualificationRecord.runtime q));
           (lit "operating_system", encode_text (QualificationRecord.operating_system q));
           (lit "hardware_tier", encode_tier (QualificationRecord.hardware_tier q));
           (lit "supported_roles", encode_vec encode_role (QualificationRecord.supported_roles q));
           (lit "source_byte_limit", encode_uint (QualificationRecord.source_byte_limit q));
           (lit "context_token_limit", encode_uint (QualificationRecord.context_token_limit q));
           (lit "prompt_template_digest", encode_digest (QualificationRecord.prompt_template_digest q));
           (lit "request_policy_digest", encode_digest (QualificationRecord.request_policy_digest q));
           (lit "threshold_policy_digest", encode_digest (QualificationRecord.threshold_policy_digest q));
           (lit "license_decision", encode_text (license_decision_name (QualificationRecord.license_decision q)));
           (lit "status", encode_text (status_name (QualificationRecord.status q)))].
Definition qualification_fields : list text :=
  [lit "schema_version"; lit "artifact_id"; lit "artifact_digest"; lit "runtime"; lit "operating_system";
   lit "hardware_tier"; lit "supported_roles"; lit "source_byte_limit"; lit "context_token_limit";
   lit "prompt_template_digest"; lit "request_policy_digest"; lit "threshold_policy_digest"; lit "license_decision";
   lit "status"].
Definition decode_qualification (v : Json) : option QualificationRecord.t :=
  fields ← decode_fields true qualification_fields v;
  match fields with
  | [version; id; digest; runtime; system; tier; roles; bytes; tokens; prompt; request; threshold; license; status] =>
      version ← required (decode_uint u32_max) version;
      id ← required decode_artifact_id id;
      digest ← required decode_digest digest;
      runtime ← required decode_runtime runtime;
      system ← required decode_string system;
      tier ← required decode_tier tier;
      roles ← required (decode_vec decode_role) roles;
      bytes ← required (decode_uint u64_max) bytes;
      tokens ← required (decode_uint u32_max) tokens;
      prompt ← required decode_digest prompt;
      request ← required decode_digest request;
      threshold ← required decode_digest threshold;
      license ← required (decode_variant license_decision_variants) license;
      status ← required (decode_variant status_variants) status;
      Some (QualificationRecord.mk version id digest runtime system tier roles bytes tokens prompt request threshold
              license status)
  | _ => None
  end.

(** ** Installation, invalidation, decisions and bindings *)

Definition encode_installed (i : InstalledArtifact.t) : Json :=
  JObject [(lit "artifact_id", encode_artifact_id (InstalledArtifact.artifact_id i));
           (lit "artifact_digest", encode_digest (InstalledArtifact.artifact_digest i));
           (lit "byte_size", encode_uint (InstalledArtifact.byte_size i));
           (lit "storage_key", encode_text (InstalledArtifact.storage_key i))].
Definition decode_installed (v : Json) : option InstalledArtifact.t :=
  fields ← decode_fields true [lit "artifact_id"; lit "artifact_digest"; lit "byte_size"; lit "storage_key"] v;
  match fields with
  | [id; digest; size; key] =>
      id ← required decode_artifact_id id;
      digest ← required decode_digest digest;
      size ← required (decode_uint u64_max) size;
      key ← required decode_string key;
      Some (InstalledArtifact.mk id digest size key)
  | _ => None
  end.

Definition encode_invalidation (i : QualificationInvalidation.t) : Json :=
  JObject [(lit "qualification_id", encode_qualification_id (QualificationInvalidation.qualification_id i));
           (lit "reason_code", encode_text (QualificationInvalidation.reason_code i))].
Definition decode_invalidation (v : Json) : option QualificationInvalidation.t :=
  fields ← decode_fields true [lit "qualification_id"; lit "reason_code"] v;
  match fields with
  | [id; reason] =>
      id ← required decode_qualification_id id;
      reason ← required decode_string reason;
      Some (QualificationInvalidation.mk id reason)
  | _ => None
  end.

Definition action_variants : list (text * ActivationAction) :=
  [(lit "activate", Activate); (lit "deactivate", Deactivate)].
Definition action_name (a : ActivationAction) : text :=
  match a with Activate => lit "activate" | Deactivate => lit "deactivate" end.

Definition encode_decision (d : ActivationDecision.t) : Json :=
  JObject [(lit "activation_id", encode_activation_id (ActivationDecision.activation_id d));
           (lit "action", encode_text (action_name (ActivationDecision.action d)));
           (lit "role", encode_role (ActivationDecision.role d));
           (lit "artifact_id", encode_option encode_artifact_id (ActivationDecision.artifact_id d));
           (lit "qualification_id", encode_option encode_qualification_id (ActivationDecision.qualification_id d))].
Definition decode_decision (v : Json) : option ActivationDecision.t :=
  fields ← decode_fields true
    [lit "activation_id"; lit "action"; lit "role"; lit "artifact_id"; lit "qualification_id"] v;
  match fields with
  | [id; action; role; artifact; qualification] =>
      id ← required decode_activation_id id;
      action ← required (decode_variant action_variants) action;
      role ← required decode_role role;
      artifact ← optional decode_artifact_id artifact;
      qualification ← optional decode_qualification_id qualification;
      Some (ActivationDecision.mk id action role artifact qualification)
  | _ => None
  end.

Definition encode_binding (b : ActiveArtifactBinding.t) : Json :=
  JObject [(lit "role", encode_role (ActiveArtifactBinding.role b));
           (lit "artifact_id", encode_artifact_id (ActiveArtifactBinding.artifact_id b));
           (lit "qualification_id", encode_qualification_id (ActiveArtifactBinding.qualification_id b));
           (lit "artifact_digest", encode_digest (ActiveArtifactBinding.artifact_digest b))].
Definition decode_binding (v : Json) : option ActiveArtifactBinding.t :=
  fields ← decode_fields true [lit "role"; lit "artifact_id"; lit "qualification_id"; lit "artifact_digest"] v;
  match fields with
  | [role; artifact; qualification; digest] =>
      role ← required decode_role role;
      artifact ← required decode_artifact_id artifact;
      qualification ← required decode_qualification_id qualification;
      digest ← required decode_digest digest;
      Some (ActiveArtifactBinding.mk role artifact qualification digest)
  | _ => None
  end.

(** ** The values of the Rust types *)

Definition digest_typed (d : Digest.t) : Prop := Digest.from_sha256_hex (Digest.as_str d) = Ok d.
Definition u32_typed (n : Z) : Prop := 0 <= n <= u32_max.
Definition u64_typed (n : Z) : Prop := 0 <= n <= u64_max.

Record capabilities_typed (c : DeclaredCapabilities) : Prop := {
  ct_tokens : from_option u32_typed True (declared_context_tokens c)
}.

Record manifest_typed (m : ArtifactManifest.t) : Prop := {
  mt_version : u32_typed (ArtifactManifest.schema_version m);
  mt_id : digest_typed (ArtifactId.digest (ArtifactManifest.artifact_id m));
  mt_digest : digest_typed (ArtifactManifest.artifact_digest m);
  mt_size : u64_typed (ArtifactManifest.byte_size m);
  mt_tokenizer : from_option (fun t => digest_typed (tokenizer_digest t)) True (ArtifactManifest.tokenizer m);
  mt_licenses : Forall (fun l => digest_typed (license_text_digest l)) (ArtifactManifest.licenses m);
  mt_capabilities : capabilities_typed (ArtifactManifest.declared_capabilities m)
}.

Record qualification_typed (q : QualificationRecord.t) : Prop := {
  qt_version : u32_typed (QualificationRecord.schema_version q);
  qt_id : digest_typed (ArtifactId.digest (QualificationRecord.artifact_id q));
  qt_digest : digest_typed (QualificationRecord.artifact_digest q);
  qt_runtime : from_option digest_typed True (RuntimeIdentity.digest (QualificationRecord.runtime q));
  qt_memory : u64_typed (memory_mib (QualificationRecord.hardware_tier q));
  qt_source : u64_typed (QualificationRecord.source_byte_limit q);
  qt_context : u32_typed (QualificationRecord.context_token_limit q);
  qt_prompt : digest_typed (QualificationRecord.prompt_template_digest q);
  qt_request : digest_typed (QualificationRecord.request_policy_digest q);
  qt_threshold : digest_typed (QualificationRecord.threshold_policy_digest q)
}.

Record installed_typed (i : InstalledArtifact.t) : Prop := {
  it_id : digest_typed (ArtifactId.digest (InstalledArtifact.artifact_id i));
  it_digest : digest_typed (InstalledArtifact.artifact_digest i);
  it_size : u64_typed (InstalledArtifact.byte_size i)
}.

Definition invalidation_typed (i : QualificationInvalidation.t) : Prop :=
  digest_typed (QualificationId.digest (QualificationInvalidation.qualification_id i)).

Record decision_typed (d : ActivationDecision.t) : Prop := {
  dt_id : digest_typed (ActivationId.digest (ActivationDecision.activation_id d));
  dt_artifact : from_option (fun a => digest_typed (ArtifactId.digest a)) True (ActivationDecision.artifact_id d);
  dt_qualification :
    from_option (fun q => digest_typed (QualificationId.digest q)) True (ActivationDecision.qualification_id d)
}.

Record binding_typed (b : ActiveArtifactBinding.t) : Prop := {
  bt_artifact : digest_typed (ArtifactId.digest (ActiveArtifactBinding.artifact_id b));
  bt_qualification : digest_typed (QualificationId.digest (ActiveArtifactBinding.qualification_id b));
  bt_digest : digest_typed (ActiveArtifactBinding.artifact_digest b)
}.

(** ** Lemmas: what is written is read *)

Lemma decode_uint_encode maximum n : n <= maximum -> decode_uint maximum (encode_uint n) = Some n.
Proof. intros H; cbn; by rewrite (proj2 (Z.leb_le _ _) H). Qed.

Lemma decode_role_encode r : decode_role (encode_role r) = Some r.
Proof. by destruct r. Qed.

Lemma decode_option_encode {A} (enc : A -> Json) dec o :
  (forall a, enc a <> JAtom ANull) -> from_option (fun a => dec (enc a) = Some a) True o ->
  optional dec (Some (encode_option enc o)) = Some o.
Proof.
  intros Hn; destruct o as [a|]; cbn [from_option encode_option optional]; [| done]; intros Ha.
  unfold decode_option; rewrite Ha; destruct (enc a) as [[]| |] eqn:E; try done; by destruct (Hn a).
Qed.

Lemma from_option_impl {A} (P Q : A -> Prop) o :
  (forall a, P a -> Q a) -> from_option P True o -> from_option Q True o.
Proof. destruct o; cbn; auto. Qed.

Create HintDb serde.
#[export] Hint Resolve decode_encode_digest : serde.

(** Read the fields of an object back, one after the other. *)
Ltac read_back :=
  rewrite decode_fields_object by reflexivity; cbn [map snd mbind option_bind required decode_string encode_text].

Lemma decode_source_encode s : decode_source (encode_source s) = Some s.
Proof. unfold decode_source, encode_source; read_back; by destruct s. Qed.

Lemma decode_tokenizer_encode t :
  digest_typed (tokenizer_digest t) -> decode_tokenizer (encode_tokenizer t) = Some t.
Proof.
  intros H; unfold decode_tokenizer, encode_tokenizer; read_back; rewrite decode_encode_digest by done; by destruct t.
Qed.

Lemma decode_license_encode l :
  digest_typed (license_text_digest l) -> decode_license (encode_license l) = Some l.
Proof.
  intros H; unfold decode_license, encode_license; read_back; rewrite decode_encode_digest by done; by destruct l.
Qed.

Lemma decode_capabilities_encode c : capabilities_typed c -> decode_capabilities (encode_capabilities c) = Some c.
Proof.
  intros [Ht]; unfold decode_capabilities, encode_capabilities; read_back.
  unfold encode_vec; rewrite !decode_vec_map by (apply Forall_true; intros; apply decode_role_encode || done).
  cbn [mbind option_bind]; rewrite decode_option_encode; [by destruct c | done |].
  revert Ht; apply from_option_impl; intros n [_ Hn]; by apply decode_uint_encode.
Qed.

Lemma decode_ids d :
  digest_typed d ->
  decode_artifact_id (encode_digest d) = Some (ArtifactId.mk d) /\
  decode_qualification_id (encode_digest d) = Some (QualificationId.mk d) /\
  decode_activation_id (encode_digest d) = Some (ActivationId.mk d).
Proof.
  intros H; unfold decode_artifact_id, decode_qualification_id, decode_activation_id; by rewrite decode_encode_digest.
Qed.

Lemma decode_artifact_id_encode i :
  digest_typed (ArtifactId.digest i) -> decode_artifact_id (encode_artifact_id i) = Some i.
Proof. destruct i; intros H; by apply decode_ids. Qed.
Lemma decode_qualification_id_encode i :
  digest_typed (QualificationId.digest i) -> decode_qualification_id (encode_qualification_id i) = Some i.
Proof. destruct i; intros H; by apply decode_ids. Qed.
Lemma decode_activation_id_encode i :
  digest_typed (ActivationId.digest i) -> decode_activation_id (encode_activation_id i) = Some i.
Proof. destruct i; intros H; by apply decode_ids. Qed.

Lemma decode_manifest_encode m : manifest_typed m -> decode_manifest (encode_manifest m) = Some m.
Proof.
  intros [[_ Hv] Hi Hd [_ Hs] Ht Hl Hc]; unfold decode_manifest, encode_manifest; read_back.
  rewrite !decode_uint_encode by done; cbn [mbind option_bind].
  rewrite decode_artifact_id_encode by done; cbn [mbind option_bind].
  rewrite decode_source_encode, decode_encode_digest by done; cbn [mbind option_bind].
  assert (Htext : forall o, optional decode_string (Some (encode_option encode_text o)) = Some o)
    by (intros o; apply decode_option_encode; [done | by destruct o]).
  rewrite !Htext; cbn [mbind option_bind]; rewrite decode_option_encode; [| done |].
  - cbn [mbind option_bind]; unfold encode_vec; rewrite decode_vec_map.
    + cbn [mbind option_bind]; rewrite decode_capabilities_encode by done; by destruct m.
    + eapply Forall_impl; [exact Hl |]; intros l; apply decode_license_encode.
  - revert Ht; apply from_option_impl; intros t; apply decode_tokenizer_encode.
Qed.

Lemma decode_runtime_encode r :
  from_option digest_typed True (RuntimeIdentity.digest r) -> decode_runtime (encode_runtime r) = Some r.
Proof.
  intros H; unfold decode_runtime, encode_runtime; read_back; rewrite decode_option_encode; [by destruct r | done |].
  revert H; apply from_option_impl; auto with serde.
Qed.

Lemma decode_tier_encode t : u64_typed (memory_mib t) -> decode_tier (encode_tier t) = Some t.
Proof. intros [_ H]; unfold decode_tier, encode_tier; read_back; rewrite decode_uint_encode by done; by destruct t. Qed.

Lemma decode_license_decision d :
  decode_variant license_decision_variants (encode_text (license_decision_name d)) = Some d.
Proof. by destruct d. Qed.
Lemma decode_status s : decode_variant status_variants (encode_text (status_name s)) = Some s.
Proof. by destruct s. Qed.
Lemma decode_action a : decode_variant action_variants (encode_text (action_name a)) = Some a.
Proof. by destruct a. Qed.

Lemma decode_qualification_encode q :
  qualification_typed q -> decode_qualification (encode_qualification q) = Some q.
Proof.
  intros [[_ Hv] Hi Hd Hr Hm [_ Hs] [_ Hc] Hp Hq Ht]; unfold decode_qualification, encode_qualification.
  rewrite decode_fields_object by reflexivity; cbn [map snd mbind option_bind required].
  rewrite !decode_uint_encode by done; cbn [mbind option_bind].
  rewrite decode_artifact_id_encode by done; cbn [mbind option_bind].
  rewrite !decode_encode_digest, decode_runtime_encode, decode_tier_encode by done; cbn [mbind option_bind decode_string encode_text].
  unfold encode_vec; rewrite decode_vec_map by (apply Forall_true; intros; apply decode_role_encode).
  cbn [mbind option_bind]; fold (encode_text (license_decision_name (QualificationRecord.license_decision q))).
  fold (encode_text (status_name (QualificationRecord.status q))).
  rewrite decode_license_decision; cbn [mbind option_bind]; rewrite decode_status; by destruct q.
Qed.

Lemma decode_installed_encode i : installed_typed i -> decode_installed (encode_installed i) = Some i.
Proof.
  intros [Hi Hd [_ Hs]]; unfold decode_installed, encode_installed; read_back.
  rewrite decode_artifact_id_encode, decode_encode_digest, decode_uint_encode by done; by destruct i.
Qed.

Lemma decode_invalidation_encode i : invalidation_typed i -> decode_invalidation (encode_invalidation i) = Some i.
Proof.
  intros H; unfold decode_invalidation, encode_invalidation; read_back.
  rewrite decode_qualification_id_encode by done; by destruct i.
Qed.

Lemma decode_decision_encode d : decision_typed d -> decode_decision (encode_decision d) = Some d.
Proof.
  intros [Hi Ha Hq]; unfold decode_decision, encode_decision.
  rewrite decode_fields_object by reflexivity; cbn [map snd mbind option_bind required].
  rewrite decode_activation_id_encode by done; cbn [mbind option_bind].
  rewrite decode_action; cbn [mbind option_bind]; rewrite decode_role_encode; cbn [mbind option_bind].
  rewrite !decode_option_encode; [by destruct d | done | | done |].
  - revert Ha; apply from_option_impl; intros; by apply decode_artifact_id_encode.
  - revert Hq; apply from_option_impl; intros; by apply decode_qualification_id_encode.
Qed.

Lemma decode_binding_encode b : binding_typed b -> decode_binding (encode_binding b) = Some b.
Proof.
  intros [Ha Hq Hd]; unfold decode_binding, encode_binding.
  rewrite decode_fields_object by reflexivity; cbn [map snd mbind option_bind required].
  rewrite decode_role_encode; cbn [mbind option_bind].
  rewrite decode_artifact_id_encode by done; cbn [mbind option_bind].
  rewrite decode_qualification_id_encode, decode_encode_digest by done; by destruct b.
Qed.

(** ** Lemmas: the nesting of what is written *)

Lemma fits_weaken k l v : k <= l -> fits k v -> fits l v.
Proof. intros Hk [Hp Hd]; split; [done | lia]. Qed.

Lemma fits_object k members : 0 <= k -> Forall (fun m => fits k (snd m)) members -> fits (1 + k) (JObject members).
Proof.
  intros Hk H; split; cbn [printable depth].
  - apply forallb_forall; intros m Hm; rewrite Forall_forall in H; by apply H, list_elem_of_In.
  - enough (foldr Z.max 0 (map (fun m => depth (snd m)) members) <= k) by lia.
    induction H as [|m members [_ Hd] _ IH]; cbn; lia.
Qed.

Lemma fits_array {A} k (enc : A -> Json) l : 0 <= k -> Forall (fun a => fits k (enc a)) l -> fits (1 + k) (encode_vec enc l).
Proof.
  intros Hk H; split; cbn [encode_vec printable depth].
  - apply forallb_forall; intros v Hv; apply in_map_iff in Hv as (a & <- & Ha); rewrite Forall_forall in H.
    by apply H, list_elem_of_In.
  - enough (foldr Z.max 0 (map depth (map enc l)) <= k) by lia.
    induction H as [|a l [_ Hd] _ IH]; cbn; lia.
Qed.

Lemma fits_text k s : 0 <= k -> fits k (encode_text s).
Proof. by split. Qed.
Lemma fits_digest k d : 0 <= k -> fits k (encode_digest d).
Proof. by split. Qed.
Lemma fits_uint k n : 0 <= k -> u64_typed n -> fits k (encode_uint n).
Proof. intros Hk [H1 H2]; split; [cbn; by rewrite !(proj2 (Z.leb_le _ _)) | done]. Qed.
Lemma fits_option {A} k (enc : A -> Json) o : 0 <= k -> from_option (fun a => fits k (enc a)) True o -> fits k (encode_option enc o).
Proof. intros Hk; destruct o; cbn; [done |]; by split. Qed.
Lemma u32_u64 n : u32_typed n -> u64_typed n.
Proof. unfold u32_typed, u64_typed, u32_max, u64_max; lia. Qed.

(** Walk down an encoding, level by level. *)
Ltac fit :=
  repeat first
    [ assumption | apply u32_u64; assumption
    | match goal with
      | |- fits ?k (JObject _) => let j := eval vm_compute in (k - 1) in apply (fits_object j); [lia |]
      | |- fits ?k (encode_vec _ _) => let j := eval vm_compute in (k - 1) in apply (fits_array j); [lia |]
      | |- Forall _ (_ :: _) => apply Forall_cons; split
      | |- Forall _ [] => constructor
      | |- fits _ (encode_text _) => apply fits_text; lia
      | |- fits _ (encode_role _) => apply fits_text; lia
      | |- fits _ (encode_digest _) => apply fits_digest; lia
      | |- fits _ (encode_artifact_id _) => apply fits_digest; lia
      | |- fits _ (encode_qualification_id _) => apply fits_digest; lia
      | |- fits _ (encode_activation_id _) => apply fits_digest; lia
      | |- fits _ (encode_uint _) => apply fits_uint; [lia |]
      | |- fits _ (encode_option _ _) => apply fits_option; [lia |]
      | |- Forall _ _ => apply Forall_true; intros
      | |- from_option (fun a => fits _ (encode_text _)) True ?o => destruct o; cbn [from_option]; [| exact I]
      | |- from_option (fun a => fits _ (encode_digest _)) True ?o => destruct o; cbn [from_option]; [| exact I]
      | |- from_option (fun a => fits _ (encode_artifact_id _)) True ?o => destruct o; cbn [from_option]; [| exact I]
      | |- from_option (fun a => fits _ (encode_qualification_id _)) True ?o => destruct o; cbn [from_option]; [| exact I]
      end
    | progress cbn [snd] ].

Lemma fits_capabilities c : capabilities_typed c -> fits 100 (encode_capabilities c).
Proof.
  intros [Ht]; unfold encode_capabilities; fit.
  revert Ht; apply from_option_impl; intros n Hn; fit.
Qed.

Lemma fits_manifest m : manifest_typed m -> fits 127 (encode_manifest m).
Proof.
  intros [Hv Hi Hd Hs Ht Hl Hc]; unfold encode_manifest; fit.
  - unfold encode_source; fit.
  - destruct (ArtifactManifest.tokenizer m); cbn [from_option]; [| done]; unfold encode_tokenizer; fit.
  - unfold encode_license; fit.
  - apply (fits_weaken 100); [lia | by apply fits_capabilities].
Qed.

Lemma fits_qualification q : qualification_typed q -> fits 127 (encode_qualification q).
Proof.
  intros [Hv Hi Hd Hr Hm Hs Hc Hp Hq Ht]; unfold encode_qualification; fit.
  - unfold encode_runtime; fit.
  - unfold encode_tier; fit.
Qed.

Lemma fits_installed k i : 1 <= k -> installed_typed i -> fits k (encode_installed i).
Proof. intros Hk [Hi Hd Hs]; apply (fits_weaken 1); [done |]; unfold encode_installed; fit. Qed.

Lemma fits_binding b : fits 127 (encode_binding b).
Proof. unfold encode_binding; fit. Qed.
Lemma fits_invalidation i : fits 127 (encode_invalidation i).
Proof. unfold encode_invalidation; fit. Qed.
Lemma fits_decision d : fits 127 (encode_decision d).
Proof. unfold encode_decision; fit. Qed.

(** ** Instances *)

#[export] Instance manifest_serde : Serde ArtifactManifest.t := {
  encode := encode_manifest; decode := decode_manifest; typed := manifest_typed;
  decode_encode := decode_manifest_encode; encode_fits := fits_manifest }.
#[export] Instance qualification_serde : Serde QualificationRecord.t := {
  encode := encode_qualification; decode := decode_qualification; typed := qualification_typed;
  decode_encode := decode_qualification_encode; encode_fits := fits_qualification }.
#[export] Instance installed_serde : Serde InstalledArtifact.t := {
  encode := encode_installed; decode := decode_installed; typed := installed_typed;
  decode_encode := decode_installed_encode; encode_fits := fun i => fits_installed 127 i ltac:(lia) }.
#[export] Instance invalidation_serde : Serde QualificationInvalidation.t := {
  encode := encode_invalidation; decode := decode_invalidation; typed := invalidation_typed;
  decode_encode := decode_invalidation_encode; encode_fits := fun i _ => fits_invalidation i }.
#[export] Instance decision_serde : Serde ActivationDecision.t := {
  encode := encode_decision; decode := decode_decision; typed := decision_typed;
  decode_encode := decode_decision_encode; encode_fits := fun d _ => fits_decision d }.
#[export] Instance binding_serde : Serde ActiveArtifactBinding.t := {
  encode := encode_binding; decode := decode_binding; typed := binding_typed;
  decode_encode := decode_binding_encode; encode_fits := fun b _ => fits_binding b }.
