(* ===== verification/StoreDb.v ===== *)
(** * The database of the model store ([model-store/src/schema.rs]).

    The tables of the artifact lifecycle, the SQL statements of the store as
    operations on them, and computations that run statements.  SQLite is used
    as its documentation describes it: a statement takes effect in full or
    fails, [CHECK], key and foreign-key constraints are enforced on the row a
    statement touches, and a transaction that is not committed leaves nothing
    behind.  Every call into SQLite may also fail for a reason outside the
    data (a full disk, a lock held too long); a schedule says which calls do. *)

From S2P Require Import Prelude Text Document Claims Json Extractor Model ModelJson.

(** ** Errors ([error.rs])

    The variants the operations of this library can return; a source error of
    SQLite or of the codec is not kept. *)
Module StoreError.

Inductive t :=
| Database | Serialization
| InvalidManifest (e : ManifestError) | InvalidInstallation (e : InstallationError)
| InvalidQualification (e : QualificationRecordError)
| InvalidInvalidation (e : QualificationInvalidation.QualificationInvalidationError)
| InvalidDecision (e : ActivationDecision.ActivationDecisionError)
| RecordTooLarge | InvalidLimit | InventoryLimitExceeded | CorruptRecord | ImmutableConflict | MissingRecord
| ActiveArtifact | RemovalPending | StaleInstallation | InstallationEpochExhausted | InvalidActiveBinding
| VerificationFailed.

End StoreError.

Abbreviation StoreResult := (Result StoreError.t).

(** ** Tables ([create_schema_two]) *)

Definition MAX_RECORD_BYTES : Z := 1048576.
Definition i64_max : Z := 9223372036854775807.

Record InstalledRow := { in_epoch : Z; in_record : text }.
Record QualificationRow := { qr_artifact_id : text; qr_record : text }.
Record InvalidationRow := { iv_qualification_id : text; iv_reason_code : text; iv_record : text }.
Record DecisionRow := { dr_role : text; dr_record : text }.
Record BindingRow := { br_artifact_id : text; br_qualification_id : text; br_record : text }.
Record RemovalRow := { rm_epoch : Z; rm_phase : text; rm_record : text }.

(** Rows by primary key; the invalidations in the order of their sequence
    number, which grows with every row. *)
Record Db := {
  artifact_manifests : gmap text text;
  installed_artifacts : gmap text InstalledRow;
  qualification_records : gmap text QualificationRow;
  qualification_invalidations : list InvalidationRow;
  activation_decisions : gmap text DecisionRow;
  active_bindings : gmap text BindingRow;
  artifact_removals : gmap text RemovalRow
}.

Definition empty_db : Db :=
  {| artifact_manifests := ∅; installed_artifacts := ∅; qualification_records := ∅; qualification_invalidations := [];
     activation_decisions := ∅; active_bindings := ∅; artifact_removals := ∅ |}.

(** The [CHECK] constraints of the columns. *)
Definition check_id (id : text) : bool := vlen id =? 64.
Definition check_record (record : text) : bool := slen record <=? MAX_RECORD_BYTES.
Definition check_epoch (epoch : Z) : bool := in_range 1 i64_max epoch.
Definition check_short (value : text) : bool := in_range 1 64 (vlen value).
Definition check_phase (phase : text) : bool := existsb (text_eqb phase) [lit "prepared"; lit "completed"].

Definition has {A} (table : gmap text A) (key : text) : bool := bool_decide (is_Some (table !! key)).

(** Replace one table. *)
Definition set_manifests v (d : Db) : Db :=
  {| artifact_manifests := v; installed_artifacts := installed_artifacts d; qualification_records := qualification_records d;
     qualification_invalidations := qualification_invalidations d; activation_decisions := activation_decisions d;
     active_bindings := active_bindings d; artifact_removals := artifact_removals d |}.
Definition set_installed v (d : Db) : Db :=
  {| artifact_manifests := artifact_manifests d; installed_artifacts := v; qualification_records := qualification_records d;
     qualification_invalidations := qualification_invalidations d; activation_decisions := activation_decisions d;
     active_bindings := active_bindings d; artifact_removals := artifact_removals d |}.
Definition set_qualifications v (d : Db) : Db :=
  {| artifact_manifests := artifact_manifests d; installed_artifacts := installed_artifacts d; qualification_records := v;
     qualification_invalidations := qualification_invalidations d; activation_decisions := activation_decisions d;
     active_bindings := active_bindings d; artifact_removals := artifact_removals d |}.
Definition set_invalidations v (d : Db) : Db :=
  {| artifact_manifests := artifact_manifests d; installed_artifacts := installed_artifacts d;
     qualification_records := qualification_records d; qualification_invalidations := v;
     activation_decisions := activation_decisions d; active_bindings := active_bindings d;
     artifact_removals := artifact_removals d |}.
Definition set_decisions v (d : Db) : Db :=
  {| artifact_manifests := artifact_manifests d; installed_artifacts := installed_artifacts d;
     qualification_records := qualification_records d; qualification_invalidations := qualification_invalidations d;
     activation_decisions := v; active_bindings := active_bindings d; artifact_removals := artifact_removals d |}.
Definition set_bindings v (d : Db) : Db :=
  {| artifact_manifests := artifact_manifests d; installed_artifacts := installed_artifacts d;
     qualification_records := qualification_records d; qualification_invalidations := qualification_invalidations d;
     activation_decisions := activation_decisions d; active_bindings := v; artifact_removals := artifact_removals d |}.
Definition set_removals v (d : Db) : Db :=
  {| artifact_manifests := artifact_manifests d; installed_artifacts := installed_artifacts d;
     qualification_records := qualification_records d; qualification_invalidations := qualification_invalidations d;
     activation_decisions := activation_decisions d; active_bindings := active_bindings d; artifact_removals := v |}.

(** ** Statements: the database after one and the number of rows changed, or
    nothing when a constraint refuses it *)

(** [INSERT INTO artifact_manifests .. ON CONFLICT DO NOTHING]. *)
Definition insert_manifest_row (key record : text) (d : Db) : option (Db * Z) :=
  if negb (check_id key && check_record record) then None
  else if has (artifact_manifests d) key then Some (d, 0)
  else Some (set_manifests (<[key := record]> (artifact_manifests d)) d, 1).

(** [INSERT INTO installed_artifacts]. *)
Definition insert_installed_row (key : text) (row : InstalledRow) (d : Db) : option (Db * Z) :=
  if negb (check_id key && check_epoch (in_epoch row) && check_record (in_record row))
     || has (installed_artifacts d) key || negb (has (artifact_manifests d) key) then None
  else Some (set_installed (<[key := row]> (installed_artifacts d)) d, 1).

(** [DELETE FROM installed_artifacts WHERE artifact_id = .. AND installation_epoch = ..];
    a binding refers to its installation. *)
Definition delete_installed_row (key : text) (epoch : Z) (d : Db) : option (Db * Z) :=
  match installed_artifacts d !! key with
  | Some row =>
      if negb (in_epoch row =? epoch) then Some (d, 0)
      else if existsb (fun b => text_eqb (br_artifact_id (snd b)) key) (map_to_list (active_bindings d)) then None
      else Some (set_installed (delete key (installed_artifacts d)) d, 1)
  | None => Some (d, 0)
  end.

(** [INSERT INTO qualification_records .. ON CONFLICT DO NOTHING]. *)
Definition insert_qualification_row (key : text) (row : QualificationRow) (d : Db) : option (Db * Z) :=
  if negb (check_id key && check_id (qr_artifact_id row) && check_record (qr_record row)) then None
  else if has (qualification_records d) key then Some (d, 0)
  else if negb (has (artifact_manifests d) (qr_artifact_id row)) then None
  else Some (set_qualifications (<[key := row]> (qualification_records d)) d, 1).

(** [INSERT INTO qualification_invalidations]. *)
Definition insert_invalidation_row (row : InvalidationRow) (d : Db) : option (Db * Z) :=
  if negb (check_id (iv_qualification_id row) && check_short (iv_reason_code row) && check_record (iv_record row))
     || negb (has (qualification_records d) (iv_qualification_id row)) then None
  else Some (set_invalidations (qualification_invalidations d ++ [row]) d, 1).

(** [INSERT INTO activation_decisions]. *)
Definition insert_decision_row (key : text) (row : DecisionRow) (d : Db) : option (Db * Z) :=
  if negb (check_id key && check_short (dr_role row) && check_record (dr_record row))
     || has (activation_decisions d) key then None
  else Some (set_decisions (<[key := row]> (activation_decisions d)) d, 1).

(** [INSERT INTO active_bindings .. ON CONFLICT(role) DO UPDATE]. *)
Definition upsert_binding_row (role : text) (row : BindingRow) (d : Db) : option (Db * Z) :=
  if negb (check_short role && check_id (br_artifact_id row) && check_id (br_qualification_id row) && check_record (br_record row))
     || negb (has (installed_artifacts d) (br_artifact_id row))
     || negb (has (qualification_records d) (br_qualification_id row)) then None
  else Some (set_bindings (<[role := row]> (active_bindings d)) d, 1).

(** [DELETE FROM active_bindings WHERE ..]; nothing refers to a binding. *)
Definition delete_binding_rows (test : text -> BindingRow -> bool) (d : Db) : option (Db * Z) :=
  let kept := filter (fun b : text * BindingRow => test (fst b) (snd b) = false) (active_bindings d) in
  Some (set_bindings kept d, Z.of_nat (size (active_bindings d) - size kept)).

(** [INSERT INTO artifact_removals .. ON CONFLICT(artifact_id) DO UPDATE]. *)
Definition upsert_removal_row (key : text) (row : RemovalRow) (d : Db) : option (Db * Z) :=
  if negb (check_id key && check_epoch (rm_epoch row) && check_phase (rm_phase row) && check_record (rm_record row))
     || negb (has (artifact_manifests d) key) then None
  else Some (set_removals (<[key := row]> (artifact_removals d)) d, 1).

(** [ORDER BY <primary key> ASC]. *)
Definition rows_by_key {A} (table : gmap text A) : list (text * A) :=
  sort_by (fun a b => match str_cmp (fst a) (fst b) with Gt => false | _ => true end) (map_to_list table).

(** ** Computations on a connection *)

(** The database and the number of calls made, under a schedule of failures. *)
Definition Sql (A : Type) : Type := (nat -> bool) -> Db * nat -> StoreResult A * (Db * nat).

#[export] Instance sql_ret : MRet Sql := fun A a _ s => (Ok a, s).
#[export] Instance sql_bind : MBind Sql := fun A B f m fails s =>
  match m fails s with
  | (Ok a, s') => f a fails s'
  | (Err e, s') => (Err e, s')
  | (Panic, s') => (Panic, s')
  end.

(** A result that does not come from the database. *)
Definition lift {A} (r : StoreResult A) : Sql A := fun _ s => (r, s).
Definition throw {A} (e : StoreError.t) : Sql A := lift (Err e).

(** A query. *)
Definition query {A} (f : Db -> A) : Sql A := fun fails '(d, n) =>
  if fails n then (Err StoreError.Database, (d, S n)) else (Ok (f d), (d, S n)).

(** A statement. *)
Definition execute (f : Db -> option (Db * Z)) : Sql Z := fun fails '(d, n) =>
  if fails n then (Err StoreError.Database, (d, S n))
  else match f d with
       | Some (d', changed) => (Ok changed, (d', S n))
       | None => (Err StoreError.Database, (d, S n))
       end.

(** How the body of a transaction ends: with [commit], or by returning while
    the transaction is dropped. *)
Inductive Outcome (A : Type) := Commit (a : A) | Dropped (a : A).
Arguments Commit {A} a.
Arguments Dropped {A} a.

(** [transaction_with_behavior], the body and [commit]; a transaction that is
    dropped rolls back. *)
Definition transaction {A} (body : Sql (Outcome A)) : Sql A := fun fails '(d, n) =>
  if fails n then (Err StoreError.Database, (d, S n))
  else match body fails (d, S n) with
       | (Ok (Commit a), (d', n')) => if fails n' then (Err StoreError.Database, (d, S n')) else (Ok a, (d', S n'))
       | (Ok (Dropped a), (_, n')) => (Ok a, (d, n'))
       | (Err e, (_, n')) => (Err e, (d, n'))
       | (Panic, (_, n')) => (Panic, (d, n'))
       end.

(** Visit the entries of a list in order. *)
Fixpoint for_each {A B} (f : B -> A -> Sql B) (b : B) (l : list A) : Sql B :=
  match l with
  | [] => mret b
  | x :: l' => b' ← f b x; for_each f b' l'
  end.
