(* ===== verification/ModelStore.v ===== *)
(** * The artifact state store ([model-store/src]).

    Manifests, installations, qualification records, invalidations, active
    bindings and the journal of removals, in one database: [store.rs],
    [record.rs], [binding.rs], [removal.rs], [store/removal.rs],
    [store/activation_write.rs] and [store/inventory.rs]. *)

From S2P Require Import Prelude Text Document Claims Json Extractor Model ModelJson StoreDb.

#[export] Instance artifact_source_eq_dec : EqDecision ArtifactSource.
Proof. solve_decision. Defined.
#[export] Instance tokenizer_identity_eq_dec : EqDecision TokenizerIdentity.
Proof. solve_decision. Defined.
#[export] Instance license_record_eq_dec : EqDecision LicenseRecord.
Proof. solve_decision. Defined.
#[export] Instance declared_capabilities_eq_dec : EqDecision DeclaredCapabilities.
Proof. solve_decision. Defined.
#[export] Instance artifact_manifest_eq_dec : EqDecision ArtifactManifest.t.
Proof. solve_decision. Defined.

(** The text under which an identifier is a key. *)
Definition artifact_key (i : ArtifactId.t) : text := Digest.as_str (ArtifactId.digest i).
Definition qualification_key (i : QualificationId.t) : text := Digest.as_str (QualificationId.digest i).
Definition activation_key (i : ActivationId.t) : text := Digest.as_str (ActivationId.digest i).

(** ** Epochs and removals ([removal.rs]) *)

Definition REMOVAL_RECORD_SCHEMA_VERSION : Z := 1.

Module Epoch.

(** [ArtifactInstallationEpoch]. *)
Record t := mk { get : Z }.
#[global] Instance eq_dec : EqDecision t.
Proof. solve_decision. Defined.

(** [first], [from_database], [next] and [database_value]. *)
Definition first : t := mk 1.
Definition from_database (value : Z) : StoreResult t :=
  value ← ok_or (try_from u64_max value) StoreError.CorruptRecord;
  if value =? 0 then Err StoreError.CorruptRecord else Ok (mk value).
Definition next (e : t) : StoreResult t :=
  ok_or (value ← checked_add u64_max (get e) 1; value ← try_from i64_max value; Some (mk value))
    StoreError.InstallationEpochExhausted.
Definition database_value (e : t) : StoreResult Z := ok_or (try_from i64_max (get e)) StoreError.InstallationEpochExhausted.

End Epoch.

Module StoredArtifactInstallation.

Record t := mk { installed : InstalledArtifact.t; epoch : Epoch.t }.
#[global] Instance eq_dec : EqDecision t.
Proof. solve_decision. Defined.

End StoredArtifactInstallation.

Inductive ArtifactRemovalPhase := Prepared | Completed.
#[export] Instance removal_phase_eq_dec : EqDecision ArtifactRemovalPhase.
Proof. solve_decision. Defined.

(** [ArtifactRemovalPhase::key]. *)
Definition phase_key (p : ArtifactRemovalPhase) : text :=
  match p with Prepared => lit "prepared" | Completed => lit "completed" end.

Module ArtifactRemovalRecord.

Record t := mk {
  schema_version : Z;
  installed : InstalledArtifact.t;
  installation_epoch : Z;
  phase : ArtifactRemovalPhase
}.

(** The derived [Serialize] and [Deserialize]. *)
Definition to_json (r : t) : Json :=
  JObject [(lit "schema_version", encode_uint (schema_version r)); (lit "installed", encode_installed (installed r));
           (lit "installation_epoch", encode_uint (installation_epoch r)); (lit "phase", encode_text (phase_key (phase r)))].
Definition phase_variants : list (text * ArtifactRemovalPhase) := [(lit "prepared", Prepared); (lit "completed", Completed)].
Definition of_json (v : Json) : option t :=
  fields ← decode_fields true [lit "schema_version"; lit "installed"; lit "installation_epoch"; lit "phase"] v;
  match fields with
  | [version; installed; epoch; phase] =>
      version ← required (decode_uint u32_max) version;
      installed ← required decode_installed installed;
      epoch ← required (decode_uint u64_max) epoch;
      phase ← required (decode_variant phase_variants) phase;
      Some (mk version installed epoch phase)
  | _ => None
  end.

Record is_typed (r : t) : Prop := {
  rt_version : u32_typed (schema_version r);
  rt_installed : installed_typed (installed r);
  rt_epoch : u64_typed (installation_epoch r)
}.

Lemma of_to_json r : is_typed r -> of_json (to_json r) = Some r.
Proof.
  intros [[_ Hv] Hi [_ He]]; unfold of_json, to_json; read_back.
  rewrite decode_uint_encode by done; cbn [mbind option_bind]; rewrite decode_installed_encode by done.
  cbn [mbind option_bind]; rewrite decode_uint_encode by done; destruct r as [? ? ? []]; done.
Qed.

Lemma to_json_fits r : is_typed r -> fits 127 (to_json r).
Proof.
  intros [Hv Hi He]; unfold to_json; fit. apply fits_installed; [lia | done].
Qed.

End ArtifactRemovalRecord.

#[export] Instance removal_serde : Serde ArtifactRemovalRecord.t := {
  encode := ArtifactRemovalRecord.to_json; decode := ArtifactRemovalRecord.of_json;
  typed := ArtifactRemovalRecord.is_typed; decode_encode := ArtifactRemovalRecord.of_to_json;
  encode_fits := ArtifactRemovalRecord.to_json_fits }.

Module StoredArtifactRemoval.

Record t := mk { selection : StoredArtifactInstallation.t; phase : ArtifactRemovalPhase }.
#[global] Instance eq_dec : EqDecision t.
Proof. solve_decision. Defined.

End StoredArtifactRemoval.

Inductive WriteDisposition := Inserted | AlreadyPresent.

Record InstallationWriteDisposition := {
  manifest_disposition : WriteDisposition;
  installed_disposition : WriteDisposition;
  installation : StoredArtifactInstallation.t
}.

Inductive RemovalPreparationDisposition := PreparationPrepared | PreparationAlreadyPrepared | PreparationAlreadyCompleted.
Inductive RemovalCompletionDisposition := CompletionCompleted | CompletionAlreadyCompleted.

Definition MAX_ACTIVE_BINDINGS : Z := vlen ALL_ROLES.

Section Store.
Context {SHA : Sha256} {JSON : JsonCodec}.

(** ** Records ([record.rs]) *)

(** [encode_record] and [decode_record]. *)
Definition encode_record {T} `{Serde T} (record : T) : StoreResult text :=
  let encoded := json_print (encode record) in
  if MAX_RECORD_BYTES <? slen encoded then Err StoreError.RecordTooLarge else Ok encoded.
Definition decode_record {T} `{Serde T} (encoded : text) : StoreResult T :=
  if MAX_RECORD_BYTES <? slen encoded then Err StoreError.RecordTooLarge
  else ok_or (v ← from_str encoded; decode v) StoreError.Serialization.

(** [immutable_disposition]; [select] reads the record under a key. *)
Definition immutable_disposition (select : Db -> text -> option text) (key encoded : text) (changed : Z)
  : Sql WriteDisposition :=
  if changed =? 1 then mret Inserted
  else
    existing ← query (fun d => select d key);
    existing ← lift (ok_or existing StoreError.Database);
    if text_eqb existing encoded then mret AlreadyPresent else throw StoreError.ImmutableConflict.

(** [insert_immutable]. *)
Definition insert_immutable (insert : text -> text -> Db -> option (Db * Z)) (select : Db -> text -> option text)
    (key encoded : text) : Sql WriteDisposition :=
  changed ← execute (insert key encoded);
  immutable_disposition select key encoded changed.

(** [load_record]. *)
Definition load_record {T} `{Serde T} (select : Db -> text -> option text) (key : text) : Sql (option T) :=
  encoded ← query (fun d => select d key);
  match encoded with
  | Some value => record ← lift (decode_record value); mret (Some record)
  | None => mret None
  end.

Definition select_manifest (d : Db) (key : text) : option text := artifact_manifests d !! key.
Definition select_qualification (d : Db) (key : text) : option text := qr_record <$> qualification_records d !! key.
Definition load_manifest (key : text) : Sql (option ArtifactManifest.t) := load_record select_manifest key.

Definition corrupt {E A} (m : Result E A) : StoreResult A := map_err (fun _ => StoreError.CorruptRecord) m.

(** [validate_existing_installation]. *)
Definition validate_existing_installation (indexed_id : text) (manifest : option ArtifactManifest.t)
    (installed : option InstalledArtifact.t) : StoreResult unit :=
  if bool_decide (is_Some installed) && bool_decide (manifest = None) then Err StoreError.CorruptRecord
  else
    _ ← match manifest with
        | Some manifest =>
            _ ← corrupt (ArtifactManifest.validate manifest);
            if negb (text_eqb (artifact_key (ArtifactManifest.artifact_id manifest)) indexed_id)
            then Err StoreError.CorruptRecord else Ok tt
        | None => Ok tt
        end;
    match installed with
    | Some installed =>
        _ ← corrupt (InstalledArtifact.validate installed);
        if negb (text_eqb (artifact_key (InstalledArtifact.artifact_id installed)) indexed_id)
        then Err StoreError.CorruptRecord
        else
          manifest ← ok_or manifest StoreError.CorruptRecord;
          if negb (bool_decide (InstalledArtifact.artifact_id installed = ArtifactManifest.artifact_id manifest))
             || negb (bool_decide (InstalledArtifact.artifact_digest installed = ArtifactManifest.artifact_digest manifest))
             || negb (InstalledArtifact.byte_size installed =? ArtifactManifest.byte_size manifest)
          then Err StoreError.CorruptRecord else Ok tt
    | None => Ok tt
    end.

(** ** Loading ([removal.rs], [binding.rs]) *)

(** [decode_removal]. *)
Definition decode_removal (indexed_id : text) (row : RemovalRow) : StoreResult StoredArtifactRemoval.t :=
  record ← decode_record (T := ArtifactRemovalRecord.t) (rm_record row);
  epoch ← Epoch.from_database (rm_epoch row);
  _ ← corrupt (InstalledArtifact.validate (ArtifactRemovalRecord.installed record));
  if negb (ArtifactRemovalRecord.schema_version record =? REMOVAL_RECORD_SCHEMA_VERSION)
     || negb (text_eqb (artifact_key (InstalledArtifact.artifact_id (ArtifactRemovalRecord.installed record))) indexed_id)
     || negb (ArtifactRemovalRecord.installation_epoch record =? Epoch.get epoch)
     || negb (text_eqb (phase_key (ArtifactRemovalRecord.phase record)) (rm_phase row))
  then Err StoreError.CorruptRecord
  else Ok (StoredArtifactRemoval.mk
             (StoredArtifactInstallation.mk (ArtifactRemovalRecord.installed record) epoch)
             (ArtifactRemovalRecord.phase record)).

(** [load_removal]. *)
Definition load_removal (artifact_id : ArtifactId.t) : Sql (option StoredArtifactRemoval.t) :=
  row ← query (fun d => artifact_removals d !! artifact_key artifact_id);
  match row with
  | Some row => removal ← lift (decode_removal (artifact_key artifact_id) row); mret (Some removal)
  | None => mret None
  end.

(** The decoding of [load_installation]. *)
Definition decode_installation (artifact_id : ArtifactId.t) (row : InstalledRow) : StoreResult StoredArtifactInstallation.t :=
  installed ← decode_record (in_record row);
  _ ← corrupt (InstalledArtifact.validate installed);
  if negb (bool_decide (InstalledArtifact.artifact_id installed = artifact_id)) then Err StoreError.CorruptRecord
  else
    epoch ← Epoch.from_database (in_epoch row);
    Ok (StoredArtifactInstallation.mk installed epoch).

(** [load_installation]. *)
Definition load_installation (artifact_id : ArtifactId.t) : Sql (option StoredArtifactInstallation.t) :=
  row ← query (fun d => installed_artifacts d !! artifact_key artifact_id);
  match row with
  | Some row => selection ← lift (decode_installation artifact_id row); mret (Some selection)
  | None => mret None
  end.

(** [StoredArtifactRemoval::encode]. *)
Definition encode_removal (r : StoredArtifactRemoval.t) : StoreResult text :=
  encode_record
    (ArtifactRemovalRecord.mk REMOVAL_RECORD_SCHEMA_VERSION
       (StoredArtifactInstallation.installed (StoredArtifactRemoval.selection r))
       (Epoch.get (StoredArtifactInstallation.epoch (StoredArtifactRemoval.selection r)))
       (StoredArtifactRemoval.phase r)).

(** [write_removal]. *)
Definition write_removal (r : StoredArtifactRemoval.t) : Sql unit :=
  let selection := StoredArtifactRemoval.selection r in
  epoch ← lift (Epoch.database_value (StoredArtifactInstallation.epoch selection));
  encoded ← lift (encode_removal r);
  _ ← execute (upsert_removal_row
        (artifact_key (InstalledArtifact.artifact_id (StoredArtifactInstallation.installed selection)))
        {| rm_epoch := epoch; rm_phase := phase_key (StoredArtifactRemoval.phase r); rm_record := encoded |});
  mret tt.

(** [decode_stored_binding]. *)
Definition decode_stored_binding (role : text) (row : BindingRow) : StoreResult ActiveArtifactBinding.t :=
  binding ← decode_record (br_record row);
  if negb (text_eqb role (machine_name (ActiveArtifactBinding.role binding)))
     || negb (text_eqb (br_artifact_id row) (artifact_key (ActiveArtifactBinding.artifact_id binding)))
     || negb (text_eqb (br_qualification_id row) (qualification_key (ActiveArtifactBinding.qualification_id binding)))
  then Err StoreError.CorruptRecord else Ok binding.

(** [load_active_binding]. *)
Definition load_active_binding (role : ArtifactRole) : Sql (option ActiveArtifactBinding.t) :=
  row ← query (fun d => active_bindings d !! machine_name role);
  match row with
  | Some row => binding ← lift (decode_stored_binding (machine_name role) row); mret (Some binding)
  | None => mret None
  end.

(** The loop of [load_active_bindings]. *)
Fixpoint decode_bindings (bindings : list ActiveArtifactBinding.t) (rows : list (text * BindingRow))
  : StoreResult (list ActiveArtifactBinding.t) :=
  match rows with
  | [] => Ok bindings
  | row :: rows' =>
      if vlen bindings =? MAX_ACTIVE_BINDINGS then Err StoreError.CorruptRecord
      else
        binding ← decode_stored_binding (fst row) (snd row);
        decode_bindings (bindings ++ [binding]) rows'
  end.

(** [load_active_bindings]. *)
Definition load_active_bindings : Sql (list ActiveArtifactBinding.t) :=
  rows ← query (fun d => take (Z.to_nat (MAX_ACTIVE_BINDINGS + 1)) (rows_by_key (active_bindings d)));
  lift (decode_bindings [] rows).

(** ** Integrity of the loaded state *)

(** [validate_removal_state]. *)
Definition validate_removal_state (indexed_id : text) (manifest : option ArtifactManifest.t)
    (installation : option StoredArtifactInstallation.t) (removal : option StoredArtifactRemoval.t) : StoreResult unit :=
  _ ← validate_existing_installation indexed_id manifest (StoredArtifactInstallation.installed <$> installation);
  match removal with
  | Some removal =>
      _ ← validate_existing_installation indexed_id manifest
            (Some (StoredArtifactInstallation.installed (StoredArtifactRemoval.selection removal)));
      if bool_decide (StoredArtifactRemoval.phase removal = Prepared) && bool_decide (is_Some installation)
      then Err StoreError.CorruptRecord
      else
        match installation with
        | Some installation =>
            if negb (bool_decide (StoredArtifactRemoval.phase removal = Completed)) then Err StoreError.CorruptRecord
            else
              next ← Epoch.next (StoredArtifactInstallation.epoch (StoredArtifactRemoval.selection removal));
              if negb (bool_decide (next = StoredArtifactInstallation.epoch installation))
              then Err StoreError.CorruptRecord else Ok tt
        | None => Ok tt
        end
  | None =>
      match installation with
      | Some value =>
          if negb (bool_decide (StoredArtifactInstallation.epoch value = Epoch.first))
          then Err StoreError.CorruptRecord else Ok tt
      | None => Ok tt
      end
  end.

(** [validate_installation_input]. *)
Definition validate_installation_input (manifest : ArtifactManifest.t) (installed : InstalledArtifact.t) : StoreResult unit :=
  _ ← map_err StoreError.InvalidManifest (ArtifactManifest.validate manifest);
  _ ← map_err StoreError.InvalidInstallation (InstalledArtifact.validate installed);
  if negb (bool_decide (ArtifactManifest.artifact_id manifest = InstalledArtifact.artifact_id installed))
     || negb (bool_decide (ArtifactManifest.artifact_digest manifest = InstalledArtifact.artifact_digest installed))
     || negb (ArtifactManifest.byte_size manifest =? InstalledArtifact.byte_size installed)
  then Err StoreError.ImmutableConflict else Ok tt.

(** [load_invalidations]. *)
Fixpoint decode_invalidations (id : QualificationId.t) (rows : list InvalidationRow)
  : StoreResult (list QualificationInvalidation.t) :=
  match rows with
  | [] => Ok []
  | row :: rows' =>
      invalidation ← decode_record (iv_record row);
      _ ← map_err StoreError.InvalidInvalidation (QualificationInvalidation.validate invalidation);
      if negb (bool_decide (QualificationInvalidation.qualification_id invalidation = id))
         || negb (text_eqb (QualificationInvalidation.reason_code invalidation) (iv_reason_code row))
      then Err StoreError.CorruptRecord
      else
        rest ← decode_invalidations id rows';
        Ok (invalidation :: rest)
  end.
Definition load_invalidations (id : QualificationId.t) : Sql (list QualificationInvalidation.t) :=
  rows ← query (fun d => take 1 (List.filter (fun row => text_eqb (iv_qualification_id row) (qualification_key id))
                                  (qualification_invalidations d)));
  lift (decode_invalidations id rows).

(** [load_qualification]. *)
Definition load_qualification (id : QualificationId.t) : Sql (option QualificationRecord.t) :=
  qualification ← load_record select_qualification (qualification_key id);
  match qualification with
  | Some qualification =>
      _ ← lift (map_err StoreError.InvalidQualification (QualificationRecord.validate qualification));
      derived ← lift (map_err StoreError.InvalidQualification (QualificationRecord.qualification_id qualification));
      if bool_decide (derived = id) then mret (Some qualification) else throw StoreError.CorruptRecord
  | None => mret None
  end.

(** [validate_binding]; the caller's check of the installed bytes is a
    function of the installation. *)
Definition validate_binding (binding : ActiveArtifactBinding.t) (verify_installed : InstalledArtifact.t -> bool)
  : Sql ActiveArtifactBinding.t :=
  let artifact_id := ActiveArtifactBinding.artifact_id binding in
  manifest ← load_manifest (artifact_key artifact_id);
  installation ← load_installation artifact_id;
  removal ← load_removal artifact_id;
  _ ← lift (validate_removal_state (artifact_key artifact_id) manifest installation removal);
  installed ← lift (ok_or (StoredArtifactInstallation.installed <$> installation) StoreError.InvalidActiveBinding);
  if negb (verify_installed installed) then throw StoreError.VerificationFailed
  else
    qualification ← load_qualification (ActiveArtifactBinding.qualification_id binding);
    qualification ← lift (ok_or qualification StoreError.InvalidActiveBinding);
    invalidations ← load_invalidations (ActiveArtifactBinding.qualification_id binding);
    recovered ← lift (map_err (fun _ => StoreError.InvalidActiveBinding)
                        (Model.activate installed qualification invalidations (ActiveArtifactBinding.role binding)));
    if bool_decide (recovered = binding) then mret recovered else throw StoreError.InvalidActiveBinding.

(** [validate_no_active_binding]. *)
Definition validate_no_active_binding (selection : StoredArtifactInstallation.t) : Sql unit :=
  bindings ← load_active_bindings;
  for_each (fun _ binding =>
    _ ← validate_binding binding (fun _ => true);
    if bool_decide (ActiveArtifactBinding.artifact_id binding
                    = InstalledArtifact.artifact_id (StoredArtifactInstallation.installed selection))
    then throw StoreError.ActiveArtifact else mret tt) tt bindings.

(** [require_absent_activation] and [insert_decision]. *)
Definition require_absent_activation (id : ActivationId.t) : Sql unit :=
  exists_ ← query (fun d => has (activation_decisions d) (activation_key id));
  if (exists_ : bool) then throw StoreError.ImmutableConflict else mret tt.
Definition insert_decision (decision : ActivationDecision.t) : Sql unit :=
  encoded ← lift (encode_record decision);
  _ ← execute (insert_decision_row (activation_key (ActivationDecision.activation_id decision))
        {| dr_role := machine_name (ActivationDecision.role decision); dr_record := encoded |});
  mret tt.

(** ** Operations ([store.rs]) *)

(** [put_manifest]. *)
Definition put_manifest (manifest : ArtifactManifest.t) : Sql WriteDisposition :=
  _ ← lift (map_err StoreError.InvalidManifest (ArtifactManifest.validate manifest));
  encoded ← lift (encode_record manifest);
  insert_immutable insert_manifest_row select_manifest (artifact_key (ArtifactManifest.artifact_id manifest)) encoded.

(** [manifest]. *)
Definition manifest (artifact_id : ArtifactId.t) : Sql (option ArtifactManifest.t) :=
  manifest ← load_manifest (artifact_key artifact_id);
  match manifest with
  | Some manifest =>
      _ ← lift (map_err StoreError.InvalidManifest (ArtifactManifest.validate manifest));
      if bool_decide (ArtifactManifest.artifact_id manifest = artifact_id) then mret (Some manifest)
      else throw StoreError.CorruptRecord
  | None => mret None
  end.

(** [put_installation]. *)
Definition put_installation (manifest : ArtifactManifest.t) (installed : InstalledArtifact.t)
  : Sql InstallationWriteDisposition :=
  _ ← lift (validate_installation_input manifest installed);
  let artifact_id := ArtifactManifest.artifact_id manifest in
  let manifest_key := artifact_key artifact_id in
  manifest_record ← lift (encode_record manifest);
  installed_record ← lift (encode_record installed);
  transaction (
    existing_manifest ← load_manifest manifest_key;
    existing_installation ← load_installation artifact_id;
    let existing_installed := StoredArtifactInstallation.installed <$> existing_installation in
    removal ← load_removal artifact_id;
    _ ← lift (validate_removal_state manifest_key existing_manifest existing_installation removal);
    if match removal with Some r => bool_decide (StoredArtifactRemoval.phase r = Prepared) | None => false end
    then
      if bool_decide (is_Some existing_installation) then throw StoreError.CorruptRecord
      else throw StoreError.RemovalPending
    else if match existing_installation, removal with
            | Some existing, Some removal =>
                Epoch.get (StoredArtifactInstallation.epoch existing)
                <=? Epoch.get (StoredArtifactInstallation.epoch (StoredArtifactRemoval.selection removal))
            | _, _ => false
            end
    then throw StoreError.CorruptRecord
    else
      _ ← lift (validate_existing_installation manifest_key existing_manifest existing_installed);
      bound ← (if bool_decide (existing_installed = None) then
                 bindings ← load_active_bindings;
                 mret (existsb (fun b => bool_decide (ActiveArtifactBinding.artifact_id b = artifact_id)) bindings)
               else mret false);
      if (bound : bool) then throw StoreError.CorruptRecord
      else if match existing_manifest with Some existing => negb (bool_decide (existing = manifest)) | None => false end
              || match existing_installed with Some existing => negb (bool_decide (existing = installed)) | None => false end
      then throw StoreError.ImmutableConflict
      else
        manifest_disposition ← match existing_manifest with
                               | Some _ => mret AlreadyPresent
                               | None => insert_immutable insert_manifest_row select_manifest manifest_key manifest_record
                               end;
        written ← match existing_installation with
                  | Some existing => mret (AlreadyPresent, StoredArtifactInstallation.epoch existing)
                  | None =>
                      epoch ← match removal with
                              | Some record => lift (Epoch.next (StoredArtifactInstallation.epoch (StoredArtifactRemoval.selection record)))
                              | None => mret Epoch.first
                              end;
                      value ← lift (Epoch.database_value epoch);
                      _ ← execute (insert_installed_row manifest_key {| in_epoch := value; in_record := installed_record |});
                      mret (Inserted, epoch)
                  end;
        mret (Commit {| manifest_disposition := manifest_disposition; installed_disposition := fst written;
                        installation := StoredArtifactInstallation.mk installed (snd written) |})).

(** [put_qualification]. *)
Definition put_qualification (qualification : QualificationRecord.t) : Sql WriteDisposition :=
  _ ← lift (map_err StoreError.InvalidQualification (QualificationRecord.validate qualification));
  manifest ← manifest (QualificationRecord.artifact_id qualification);
  manifest ← lift (ok_or manifest StoreError.MissingRecord);
  if negb (bool_decide (ArtifactManifest.artifact_digest manifest = QualificationRecord.artifact_digest qualification))
  then throw StoreError.ImmutableConflict
  else
    id ← lift (map_err StoreError.InvalidQualification (QualificationRecord.qualification_id qualification));
    encoded ← lift (encode_record qualification);
    changed ← execute (insert_qualification_row (qualification_key id)
                {| qr_artifact_id := artifact_key (QualificationRecord.artifact_id qualification); qr_record := encoded |});
    immutable_disposition select_qualification (qualification_key id) encoded changed.

(** [invalidate]. *)
Definition invalidate (invalidation : QualificationInvalidation.t) : Sql unit :=
  _ ← lift (map_err StoreError.InvalidInvalidation (QualificationInvalidation.validate invalidation));
  encoded ← lift (encode_record invalidation);
  let id := QualificationInvalidation.qualification_id invalidation in
  transaction (
    qualification ← load_qualification id;
    _ ← lift (ok_or qualification StoreError.MissingRecord);
    _ ← execute (insert_invalidation_row
          {| iv_qualification_id := qualification_key id;
             iv_reason_code := QualificationInvalidation.reason_code invalidation; iv_record := encoded |});
    _ ← execute (delete_binding_rows (fun _ row => text_eqb (br_qualification_id row) (qualification_key id)));
    mret (Commit tt)).

(** [activate]. *)
Definition activate (activation_id : ActivationId.t) (role : ArtifactRole) (verified_installed : InstalledArtifact.t)
    (qualification_id : QualificationId.t) : Sql ActiveArtifactBinding.t :=
  _ ← lift (map_err StoreError.InvalidInstallation (InstalledArtifact.validate verified_installed));
  transaction (
    _ ← require_absent_activation activation_id;
    let artifact_id := InstalledArtifact.artifact_id verified_installed in
    manifest ← load_manifest (artifact_key artifact_id);
    installation ← load_installation artifact_id;
    removal ← load_removal artifact_id;
    _ ← lift (validate_removal_state (artifact_key artifact_id) manifest installation removal);
    if match removal with Some r => bool_decide (StoredArtifactRemoval.phase r = Prepared) | None => false end
    then throw StoreError.RemovalPending
    else
      installed ← lift (ok_or (StoredArtifactInstallation.installed <$> installation) StoreError.MissingRecord);
      if negb (bool_decide (installed = verified_installed)) then throw StoreError.VerificationFailed
      else
        qualification ← load_qualification qualification_id;
        qualification ← lift (ok_or qualification StoreError.MissingRecord);
        invalidations ← load_invalidations qualification_id;
        binding ← lift (map_err (fun _ => StoreError.InvalidActiveBinding)
                          (Model.activate installed qualification invalidations role));
        let decision := ActivationDecision.mk activation_id Activate role
          (Some (ActiveArtifactBinding.artifact_id binding)) (Some (ActiveArtifactBinding.qualification_id binding)) in
        _ ← lift (map_err StoreError.InvalidDecision (ActivationDecision.validate decision));
        _ ← insert_decision decision;
        binding_json ← lift (encode_record binding);
        _ ← execute (upsert_binding_row (machine_name role)
              {| br_artifact_id := artifact_key (ActiveArtifactBinding.artifact_id binding);
                 br_qualification_id := qualification_key (ActiveArtifactBinding.qualification_id binding);
                 br_record := binding_json |});
        mret (Commit binding)).

(** [deactivate]; [require_record] asks whether the row exists. *)
Definition deactivate (activation_id : ActivationId.t) (role : ArtifactRole) : Sql unit :=
  transaction (
    _ ← require_absent_activation activation_id;
    exists_ ← query (fun d => has (active_bindings d) (machine_name role));
    _ ← (if (exists_ : bool) then mret tt else throw StoreError.MissingRecord);
    let decision := ActivationDecision.mk activation_id Deactivate role None None in
    _ ← lift (map_err StoreError.InvalidDecision (ActivationDecision.validate decision));
    _ ← insert_decision decision;
    _ ← execute (delete_binding_rows (fun key _ => text_eqb key (machine_name role)));
    mret (Commit tt)).

(** [active_binding]. *)
Definition active_binding (role : ArtifactRole) (verify_installed : InstalledArtifact.t -> bool)
  : Sql (option ActiveArtifactBinding.t) :=
  binding ← load_active_binding role;
  match binding with
  | Some binding => recovered ← validate_binding binding verify_installed; mret (Some recovered)
  | None => mret None
  end.

(** [recover_active_bindings]. *)
Definition recover_active_bindings (verify_installed : InstalledArtifact.t -> bool) : Sql (list ActiveArtifactBinding.t) :=
  bindings ← load_active_bindings;
  for_each (fun recovered binding =>
    validated ← validate_binding binding verify_installed; mret (recovered ++ [validated])) [] bindings.

(** ** Removal ([store/removal.rs]) *)

(** The part of [prepare_artifact_removal] that revokes the installation. *)
Definition revoke_installation (current : option StoredArtifactInstallation.t) (selection : StoredArtifactInstallation.t)
  : Sql (Outcome RemovalPreparationDisposition) :=
  if negb (bool_decide (current = Some selection)) then throw StoreError.StaleInstallation
  else
    _ ← validate_no_active_binding selection;
    _ ← write_removal (StoredArtifactRemoval.mk selection Prepared);
    epoch ← lift (Epoch.database_value (StoredArtifactInstallation.epoch selection));
    changed ← execute (delete_installed_row
                (artifact_key (InstalledArtifact.artifact_id (StoredArtifactInstallation.installed selection))) epoch);
    if negb (changed =? 1) then throw StoreError.StaleInstallation
    else mret (Commit PreparationPrepared).

(** [prepare_artifact_removal]; the lifecycle lock is a capability with no
    content. *)
Definition prepare_artifact_removal (selection : StoredArtifactInstallation.t) : Sql RemovalPreparationDisposition :=
  let installed := StoredArtifactInstallation.installed selection in
  _ ← lift (map_err StoreError.InvalidInstallation (InstalledArtifact.validate installed));
  let artifact_id := InstalledArtifact.artifact_id installed in
  transaction (
    manifest ← load_manifest (artifact_key artifact_id);
    current ← load_installation artifact_id;
    removal ← load_removal artifact_id;
    _ ← lift (validate_removal_state (artifact_key artifact_id) manifest current removal);
    match removal with
    | Some removal =>
        if bool_decide (StoredArtifactRemoval.selection removal = selection) then
          if bool_decide (StoredArtifactRemoval.phase removal = Completed) then mret (Dropped PreparationAlreadyCompleted)
          else
            _ ← validate_no_active_binding selection;
            mret (Dropped PreparationAlreadyPrepared)
        else revoke_installation current selection
    | None => revoke_installation current selection
    end).

(** [complete_artifact_removal]. *)
Definition complete_artifact_removal (selection : StoredArtifactInstallation.t) : Sql RemovalCompletionDisposition :=
  let artifact_id := InstalledArtifact.artifact_id (StoredArtifactInstallation.installed selection) in
  transaction (
    manifest ← load_manifest (artifact_key artifact_id);
    current ← load_installation artifact_id;
    removal ← load_removal artifact_id;
    removal ← lift (ok_or removal StoreError.MissingRecord);
    _ ← lift (validate_removal_state (artifact_key artifact_id) manifest current (Some removal));
    if negb (bool_decide (StoredArtifactRemoval.selection removal = selection)) then throw StoreError.StaleInstallation
    else if bool_decide (StoredArtifactRemoval.phase removal = Completed) then mret (Dropped CompletionAlreadyCompleted)
    else if bool_decide (is_Some current) then throw StoreError.CorruptRecord
    else
      _ ← validate_no_active_binding selection;
      _ ← write_removal (StoredArtifactRemoval.mk selection Completed);
      mret (Commit CompletionCompleted)).

(** [artifact_removal_state]. *)
Definition artifact_removal_state (artifact_id : ArtifactId.t)
  : Sql (option StoredArtifactInstallation.t * option StoredArtifactRemoval.t) :=
  transaction (
    manifest ← load_manifest (artifact_key artifact_id);
    installation ← load_installation artifact_id;
    removal ← load_removal artifact_id;
    _ ← lift (validate_removal_state (artifact_key artifact_id) manifest installation removal);
    mret (Commit (installation, removal))).

(** The row limit of the listings. *)
Definition query_limit (maximum_entries : Z) : StoreResult Z :=
  if maximum_entries =? 0 then Err StoreError.InvalidLimit
  else ok_or (value ← checked_add usize_max maximum_entries 1; try_from i64_max value) StoreError.InvalidLimit.

(** [pending_artifact_removals]. *)
Definition pending_artifact_removals (maximum_entries : Z) : Sql (list StoredArtifactInstallation.t) :=
  limit ← lift (query_limit maximum_entries);
  transaction (
    rows ← query (fun d => take (Z.to_nat limit) (rows_by_key (artifact_removals d)));
    visited ← for_each (fun '(inspected, pending) row =>
      if inspected =? maximum_entries then throw StoreError.InventoryLimitExceeded
      else
        removal ← lift (decode_removal (fst row) (snd row));
        let selection := StoredArtifactRemoval.selection removal in
        manifest ← load_manifest (fst row);
        installation ← load_installation (InstalledArtifact.artifact_id (StoredArtifactInstallation.installed selection));
        _ ← lift (validate_removal_state (fst row) manifest installation (Some removal));
        if bool_decide (StoredArtifactRemoval.phase removal = Prepared) then
          if bool_decide (is_Some installation) then throw StoreError.CorruptRecord
          else
            _ ← validate_no_active_binding selection;
            mret (inspected + 1, pending ++ [selection])
        else mret (inspected + 1, pending)) (0, []) rows;
    mret (Commit (snd visited))).

(** ** Inventory ([store/inventory.rs]) *)

Record StoredArtifactState := {
  state_manifest : ArtifactManifest.t;
  state_installed : option StoredArtifactInstallation.t;
  state_removal : option StoredArtifactRemoval.t;
  state_bindings : list ActiveArtifactBinding.t
}.

(** A row of the joined tables. *)
Record InventoryRow := {
  row_id : text;
  row_manifest : text;
  row_installed : option InstalledRow;
  row_removal : option RemovalRow
}.
Definition inventory_rows (d : Db) : list InventoryRow :=
  map (fun m => {| row_id := fst m; row_manifest := snd m; row_installed := installed_artifacts d !! fst m;
                   row_removal := artifact_removals d !! fst m |}) (rows_by_key (artifact_manifests d)).

(** One round of [load_artifact_states]; the joined columns are null
    together, because they are not null in their tables. *)
Definition decode_state (row : InventoryRow) : StoreResult StoredArtifactState :=
  manifest ← decode_record (row_manifest row);
  _ ← map_err StoreError.InvalidManifest (ArtifactManifest.validate manifest);
  if negb (text_eqb (artifact_key (ArtifactManifest.artifact_id manifest)) (row_id row)) then Err StoreError.CorruptRecord
  else
    installed ← match row_installed row with
                | Some stored =>
                    installed ← decode_record (in_record stored);
                    _ ← map_err StoreError.InvalidInstallation (InstalledArtifact.validate installed);
                    if negb (bool_decide (ArtifactManifest.artifact_id manifest = InstalledArtifact.artifact_id installed))
                       || negb (bool_decide (ArtifactManifest.artifact_digest manifest = InstalledArtifact.artifact_digest installed))
                       || negb (ArtifactManifest.byte_size manifest =? InstalledArtifact.byte_size installed)
                    then Err StoreError.CorruptRecord
                    else
                      epoch ← Epoch.from_database (in_epoch stored);
                      Ok (Some (StoredArtifactInstallation.mk installed epoch))
                | None => Ok None
                end;
    removal ← match row_removal row with
              | Some stored => removal ← decode_removal (row_id row) stored; Ok (Some removal)
              | None => Ok None
              end;
    _ ← validate_removal_state (row_id row) (Some manifest) installed removal;
    Ok {| state_manifest := manifest; state_installed := installed; state_removal := removal; state_bindings := [] |}.

(** The loop of [load_artifact_states]. *)
Fixpoint decode_states (maximum_entries : Z) (states : list StoredArtifactState) (rows : list InventoryRow)
  : StoreResult (list StoredArtifactState) :=
  match rows with
  | [] => Ok states
  | row :: rows' =>
      if vlen states =? maximum_entries then Err StoreError.InventoryLimitExceeded
      else
        state ← decode_state row;
        decode_states maximum_entries (states ++ [state]) rows'
  end.

(** [reject_installed_without_manifest] and [reject_removal_without_manifest]. *)
Definition reject_without_manifest {A} (table : Db -> gmap text A) : Sql unit :=
  exists_ ← query (fun d => existsb (fun row => negb (has (artifact_manifests d) (fst row))) (map_to_list (table d)));
  if (exists_ : bool) then throw StoreError.MissingRecord else mret tt.

(** [load_artifact_states]. *)
Definition load_artifact_states (maximum_entries limit : Z) : Sql (list StoredArtifactState) :=
  rows ← query (fun d => take (Z.to_nat limit) (inventory_rows d));
  states ← lift (decode_states maximum_entries [] rows);
  _ ← reject_without_manifest installed_artifacts;
  _ ← reject_without_manifest artifact_removals;
  mret states.

(** Whether a state is the one of a binding, and the state with the binding. *)
Definition state_of (binding : ActiveArtifactBinding.t) (state : StoredArtifactState) : bool :=
  bool_decide (ArtifactManifest.artifact_id (state_manifest state) = ActiveArtifactBinding.artifact_id binding).
Definition push_binding (binding : ActiveArtifactBinding.t) (state : StoredArtifactState) : StoredArtifactState :=
  {| state_manifest := state_manifest state; state_installed := state_installed state; state_removal := state_removal state;
     state_bindings := state_bindings state ++ [binding] |}.

(** Attach a binding to the first state with its artifact. *)
Fixpoint attach_binding (binding : ActiveArtifactBinding.t) (states : list StoredArtifactState)
  : StoreResult (list StoredArtifactState) :=
  match states with
  | [] => Err StoreError.CorruptRecord
  | state :: states' =>
      if state_of binding state then
        if bool_decide (state_installed state = None) then Err StoreError.CorruptRecord
        else Ok (push_binding binding state :: states')
      else
        rest ← attach_binding binding states';
        Ok (state :: rest)
  end.

Definition sort_bindings (state : StoredArtifactState) : StoredArtifactState :=
  {| state_manifest := state_manifest state; state_installed := state_installed state; state_removal := state_removal state;
     state_bindings :=
       sort_by (fun a b => role_index (ActiveArtifactBinding.role a) <=? role_index (ActiveArtifactBinding.role b))
         (state_bindings state) |}.

(** [artifact_inventory]. *)
Definition artifact_inventory (maximum_entries : Z) : Sql (list StoredArtifactState) :=
  limit ← lift (query_limit maximum_entries);
  transaction (
    states ← load_artifact_states maximum_entries limit;
    bindings ← load_active_bindings;
    validated ← for_each (fun validated binding =>
      verified ← validate_binding binding (fun candidate =>
        existsb (fun item => bool_decide (StoredArtifactInstallation.installed <$> state_installed item = Some candidate)) states);
      mret (validated ++ [verified])) [] bindings;
    states ← lift (try_fold (fun states binding => attach_binding binding states) states validated);
    mret (Commit (map sort_bindings states))).

End Store.
