(* ===== verification/StoreMonad.v ===== *)
(** * Reasoning about computations on the database.

    A computation is tame when a failure of SQLite can only make it return a
    database error: otherwise it does what it does on a database that never
    fails, its pure meaning.  It is atomic when an error leaves the database
    as it was, and read-only when nothing changes it. *)

From S2P Require Import Prelude Text Document Claims Json Extractor Model ModelJson StoreDb ModelStore.

(** The meaning of a computation when no call fails. *)
Definition pure {A} (m : Sql A) (d : Db) : StoreResult A * Db :=
  let '(r, (d', _)) := m (fun _ => false) (d, O) in (r, d').

Definition agrees {A} (m : Sql A) (fails : nat -> bool) (d : Db) (n : nat) : Prop :=
  exists n', m fails (d, n) = (fst (pure m d), (snd (pure m d), n')).

Record tame {A} (m : Sql A) : Prop := {
  tame_clock : forall d n, agrees m (fun _ => false) d n;
  tame_fails : forall fails d n, fst (m fails (d, n)) = Err StoreError.Database \/ agrees m fails d n
}.

Definition readonly {A} (m : Sql A) : Prop := forall fails s, fst (snd (m fails s)) = fst s.
Definition atomic {A} (m : Sql A) : Prop :=
  forall fails s, match fst (m fails s) with Ok _ => True | _ => fst (snd (m fails s)) = fst s end.

Create HintDb sql.

(** ** Pure meanings *)

Lemma pure_ret {A} (a : A) d : pure (mret a) d = (Ok a, d).
Proof. done. Qed.
Lemma pure_lift {A} (r : StoreResult A) d : pure (lift r) d = (r, d).
Proof. done. Qed.
Lemma pure_throw {A} e d : pure (throw (A := A) e) d = (Err e, d).
Proof. done. Qed.
Lemma pure_query {A} (f : Db -> A) d : pure (query f) d = (Ok (f d), d).
Proof. done. Qed.
Lemma pure_execute f d :
  pure (execute f) d = match f d with Some (d', changed) => (Ok changed, d') | None => (Err StoreError.Database, d) end.
Proof. unfold pure, execute; by destruct (f d) as [[]|]. Qed.

Lemma pure_bind {A B} (m : Sql A) (f : A -> Sql B) d :
  tame m -> (forall a, tame (f a)) ->
  pure (m ≫= f) d = match pure m d with
                    | (Ok a, d') => pure (f a) d'
                    | (Err e, d') => (Err e, d')
                    | (Panic, d') => (Panic, d')
                    end.
Proof.
  intros Hm Hf; destruct (tame_clock _ Hm d O) as [n H]; unfold pure at 1, mbind, sql_bind; rewrite H.
  destruct (pure m d) as [[a|e|] d']; cbn [fst snd]; [| done ..].
  destruct (tame_clock _ (Hf a) d' n) as [n' ->]; by destruct (pure (f a) d').
Qed.

Lemma pure_transaction {A} (body : Sql (Outcome A)) d :
  tame body ->
  pure (transaction body) d = match pure body d with
                              | (Ok (Commit a), d') => (Ok a, d')
                              | (Ok (Dropped a), _) => (Ok a, d)
                              | (Err e, _) => (Err e, d)
                              | (Panic, _) => (Panic, d)
                              end.
Proof.
  intros Hb; destruct (tame_clock _ Hb d 1) as [n H]; unfold pure at 1, transaction; rewrite H.
  by destruct (pure body d) as [[[]| |] d'].
Qed.

(** ** Computations that are tame *)

Lemma tame_lift {A} (r : StoreResult A) : tame (lift r).
Proof. split; intros; [by exists n | right; by exists n]. Qed.
Lemma tame_ret {A} (a : A) : tame (mret a).
Proof. apply (tame_lift (Ok a)). Qed.
Lemma tame_throw {A} e : tame (throw (A := A) e).
Proof. apply tame_lift. Qed.

Lemma tame_query {A} (f : Db -> A) : tame (query f).
Proof.
  split; intros; [by exists (S n) |]; unfold agrees, query; destruct (fails n); [by left | right; by exists (S n)].
Qed.

Lemma tame_execute f : tame (execute f).
Proof.
  split; intros; unfold agrees; rewrite pure_execute; unfold execute; [| destruct (fails n); [by left | right]];
    exists (S n); by destruct (f d) as [[]|].
Qed.

Lemma tame_bind {A B} (m : Sql A) (f : A -> Sql B) : tame m -> (forall a, tame (f a)) -> tame (m ≫= f).
Proof.
  intros Hm Hf; split.
  - intros d n; unfold agrees; rewrite pure_bind by done; unfold mbind, sql_bind.
    destruct (tame_clock _ Hm d n) as [n1 ->]; destruct (pure m d) as [[a|e|] d']; cbn [fst snd]; [| by exists n1 ..].
    apply (tame_clock _ (Hf a)).
  - intros fails d n; unfold agrees; rewrite pure_bind by done; unfold mbind, sql_bind.
    destruct (tame_fails _ Hm fails d n) as [H|[n1 ->]].
    { left; destruct (m fails (d, n)) as [r s]; cbn in H; by subst r. }
    destruct (pure m d) as [[a|e|] d']; cbn [fst snd]; [| right; by exists n1 ..].
    apply (tame_fails _ (Hf a)).
Qed.

Lemma tame_transaction {A} (body : Sql (Outcome A)) : tame body -> tame (transaction body).
Proof.
  intros Hb; split.
  - intros d n; unfold agrees; rewrite pure_transaction by done; unfold transaction.
    destruct (tame_clock _ Hb d (S n)) as [n1 ->]; destruct (pure body d) as [[[]| |] d']; cbn [fst snd]; eauto.
  - intros fails d n; unfold agrees; rewrite pure_transaction by done; unfold transaction.
    destruct (fails n); [by left |]; destruct (tame_fails _ Hb fails d (S n)) as [H|[n1 ->]].
    { left; destruct (body fails (d, S n)) as [r [d' n']]; cbn in H; by subst r. }
    destruct (pure body d) as [[[]| |] d']; cbn [fst snd]; try (right; eauto; fail).
    destruct (fails n1); [by left | right; eauto].
Qed.

Lemma tame_for_each {A B} (f : B -> A -> Sql B) l : forall b, (forall b x, tame (f b x)) -> tame (for_each f b l).
Proof. induction l as [|x l IH]; intros b Hf; cbn [for_each]; [apply tame_ret | apply tame_bind; auto]. Qed.

#[export] Hint Resolve tame_lift tame_ret tame_throw tame_query tame_execute tame_bind tame_transaction tame_for_each : sql.

(** Split a computation into its statements. *)
Ltac tame :=
  cbv zeta;
  repeat first
    [ solve [eauto 2 with sql nocore]
    | apply tame_bind | apply tame_transaction | apply tame_for_each
    | match goal with
      | |- tame (match ?x with _ => _ end) => destruct x
      | |- forall _, _ => intros
      end ].

(** ** Computations that do not write *)

Lemma readonly_lift {A} (r : StoreResult A) : readonly (lift r).
Proof. done. Qed.
Lemma readonly_ret {A} (a : A) : readonly (mret a).
Proof. done. Qed.
Lemma readonly_throw {A} e : readonly (throw (A := A) e).
Proof. done. Qed.
Lemma readonly_query {A} (f : Db -> A) : readonly (query f).
Proof. intros fails [d n]; unfold query; by destruct (fails n). Qed.
Lemma readonly_bind {A B} (m : Sql A) (f : A -> Sql B) : readonly m -> (forall a, readonly (f a)) -> readonly (m ≫= f).
Proof.
  intros Hm Hf fails s; unfold mbind, sql_bind; specialize (Hm fails s).
  destruct (m fails s) as [[a|e|] s']; cbn in *; [| done ..]; by rewrite Hf.
Qed.
Lemma readonly_transaction {A} (body : Sql (Outcome A)) : readonly body -> readonly (transaction body).
Proof.
  intros Hb fails [d n]; unfold transaction; destruct (fails n); [done |]; specialize (Hb fails (d, S n)).
  destruct (body fails (d, S n)) as [[[]| |] [d' n']]; cbn in *; try done; by destruct (fails n').
Qed.
Lemma readonly_for_each {A B} (f : B -> A -> Sql B) l : forall b, (forall b x, readonly (f b x)) -> readonly (for_each f b l).
Proof. induction l as [|x l IH]; intros b Hf; cbn [for_each]; [done | apply readonly_bind; auto]. Qed.

#[export] Hint Resolve readonly_lift readonly_ret readonly_throw readonly_query : sql.

Ltac readonly :=
  cbv zeta;
  repeat first
    [ solve [eauto 2 with sql nocore]
    | apply readonly_bind | apply readonly_transaction | apply readonly_for_each
    | match goal with
      | |- readonly (match ?x with _ => _ end) => destruct x
      | |- forall _, _ => intros
      end ].

Lemma readonly_pure {A} (m : Sql A) d : readonly m -> snd (pure m d) = d.
Proof.
  intros H; specialize (H (fun _ => false) (d, O)); unfold pure; destruct (m _ _) as [r [d' n]]; cbn in *; done.
Qed.

Lemma readonly_atomic {A} (m : Sql A) : readonly m -> atomic m.
Proof. intros H fails s; rewrite H; by destruct (fst _). Qed.

Lemma atomic_transaction {A} (body : Sql (Outcome A)) : atomic (transaction body).
Proof.
  intros fails [d n]; unfold transaction; destruct (fails n); [done |].
  destruct (body fails (d, S n)) as [[[]| |] [d' n']]; cbn; try done; by destruct (fails n').
Qed.

Lemma atomic_bind {A B} (m : Sql A) (f : A -> Sql B) : readonly m -> (forall a, atomic (f a)) -> atomic (m ≫= f).
Proof.
  intros Hm Hf fails s; unfold mbind, sql_bind; specialize (Hm fails s).
  destruct (m fails s) as [[a|e|] s'] eqn:E; cbn in *; [| done ..]; rewrite <- Hm; apply Hf.
Qed.

(** ** Reading the result of a computation that succeeds *)

Lemma pure_bind_ok {A B} (m : Sql A) (f : A -> Sql B) d b d' :
  tame m -> (forall a, tame (f a)) -> pure (m ≫= f) d = (Ok b, d') ->
  exists a d1, pure m d = (Ok a, d1) /\ pure (f a) d1 = (Ok b, d').
Proof. intros Hm Hf; rewrite pure_bind by done; destruct (pure m d) as [[a|e|] d1]; [eauto | done ..]. Qed.

(** A successful run under any schedule is the pure one. *)
Lemma run_ok {A} (m : Sql A) fails d n a d' n' : tame m -> m fails (d, n) = (Ok a, (d', n')) -> pure m d = (Ok a, d').
Proof.
  intros Hm H; destruct (tame_fails _ Hm fails d n) as [Hf|[k Hk]]; rewrite H in *; [done |].
  destruct (pure m d) as [r d1]; cbn [fst snd] in Hk; congruence.
Qed.

(** Whatever the schedule, an atomic computation leaves the database as it
    was or does what it does when nothing fails. *)
Lemma sql_run_cases {A} (m : Sql A) fails d n :
  tame m -> atomic m ->
  fst (snd (m fails (d, n))) = d \/ exists a d', pure m d = (Ok a, d') /\ fst (snd (m fails (d, n))) = d'.
Proof.
  intros Hm Ha; specialize (Ha fails (d, n)); destruct (m fails (d, n)) as [[a|e|] [d' n']] eqn:E; cbn in *; try (by left).
  right; apply run_ok in E; eauto.
Qed.
