(* ===== verification/StoreInv.v ===== *)
(** * The invariant of the model store.

    What the loading functions return on a database, the invariant every
    operation keeps, and that each operation keeps it. *)

From S2P Require Import Prelude Text Document Claims Json Extractor Model ModelJson StoreDb ModelStore StoreMonad.

Section Store.
Context {SHA : Sha256} {JSON : JsonCodec}.

(** ** The computations are tame, the loads read only *)

Lemma tame_immutable select key encoded changed : tame (immutable_disposition select key encoded changed).
Proof. unfold immutable_disposition; tame. Qed.
Lemma tame_insert_immutable insert select key encoded : tame (insert_immutable insert select key encoded).
Proof. unfold insert_immutable; tame; apply tame_immutable. Qed.
Lemma tame_load_record {T} `{Serde T} select key : tame (load_record (T := T) select key).
Proof. unfold load_record; tame. Qed.
Lemma tame_load_removal id : tame (load_removal id).
Proof. unfold load_removal; tame. Qed.
Lemma tame_load_installation id : tame (load_installation id).
Proof. unfold load_installation; tame. Qed.
Lemma tame_load_active_binding role : tame (load_active_binding role).
Proof. unfold load_active_binding; tame. Qed.
Lemma tame_load_active_bindings : tame load_active_bindings.
Proof. unfold load_active_bindings; tame. Qed.
Lemma tame_load_invalidations id : tame (load_invalidations id).
Proof. unfold load_invalidations; tame. Qed.
Lemma tame_write_removal r : tame (write_removal r).
Proof. unfold write_removal; tame. Qed.
Lemma tame_insert_decision decision : tame (insert_decision decision).
Proof. unfold insert_decision; tame. Qed.
Lemma tame_require_absent id : tame (require_absent_activation id).
Proof. unfold require_absent_activation; tame. Qed.
Hint Resolve tame_immutable tame_insert_immutable tame_load_record tame_load_removal tame_load_installation
  tame_load_active_binding tame_load_active_bindings tame_load_invalidations tame_write_removal tame_insert_decision
  tame_require_absent : sql.
Lemma tame_load_manifest key : tame (load_manifest key).
Proof. unfold load_manifest; tame. Qed.
Lemma tame_load_qualification id : tame (load_qualification id).
Proof. unfold load_qualification; tame. Qed.
Hint Resolve tame_load_manifest tame_load_qualification : sql.
Lemma tame_manifest id : tame (manifest id).
Proof. unfold manifest; tame. Qed.
Lemma tame_validate_binding binding verify : tame (validate_binding binding verify).
Proof. unfold validate_binding; tame. Qed.
Hint Resolve tame_manifest tame_validate_binding : sql.
Lemma tame_no_binding selection : tame (validate_no_active_binding selection).
Proof. unfold validate_no_active_binding; tame. Qed.
Hint Resolve tame_no_binding : sql.
Lemma tame_revoke current selection : tame (revoke_installation current selection).
Proof. unfold revoke_installation; tame. Qed.
Hint Resolve tame_revoke : sql.

Lemma tame_operations :
  (forall m, tame (put_manifest m)) /\ (forall m i, tame (put_installation m i)) /\ (forall q, tame (put_qualification q)) /\
  (forall i, tame (invalidate i)) /\ (forall a r i q, tame (activate a r i q)) /\ (forall a r, tame (deactivate a r)) /\
  (forall s, tame (prepare_artifact_removal s)) /\ (forall s, tame (complete_artifact_removal s)) /\
  (forall r v, tame (active_binding r v)) /\ (forall v, tame (recover_active_bindings v)) /\
  (forall i, tame (artifact_removal_state i)).
Proof.
  split_and!; intros;
    unfold put_manifest, put_installation, put_qualification, invalidate, activate, deactivate, prepare_artifact_removal,
      complete_artifact_removal, active_binding, recover_active_bindings, artifact_removal_state; tame.
Qed.

Lemma readonly_load_record {T} `{Serde T} select key : readonly (load_record (T := T) select key).
Proof. unfold load_record; readonly. Qed.
Lemma readonly_load_removal id : readonly (load_removal id).
Proof. unfold load_removal; readonly. Qed.
Lemma readonly_load_installation id : readonly (load_installation id).
Proof. unfold load_installation; readonly. Qed.
Lemma readonly_load_active_binding role : readonly (load_active_binding role).
Proof. unfold load_active_binding; readonly. Qed.
Lemma readonly_load_active_bindings : readonly load_active_bindings.
Proof. unfold load_active_bindings; readonly. Qed.
Lemma readonly_load_invalidations id : readonly (load_invalidations id).
Proof. unfold load_invalidations; readonly. Qed.
Lemma readonly_require_absent id : readonly (require_absent_activation id).
Proof. unfold require_absent_activation; readonly. Qed.
Hint Resolve readonly_load_record readonly_load_removal readonly_load_installation readonly_load_active_binding
  readonly_load_active_bindings readonly_load_invalidations readonly_require_absent : sql.
Lemma readonly_load_manifest key : readonly (load_manifest key).
Proof. unfold load_manifest; readonly. Qed.
Lemma readonly_load_qualification id : readonly (load_qualification id).
Proof. unfold load_qualification; readonly. Qed.
Hint Resolve readonly_load_manifest readonly_load_qualification : sql.
Lemma readonly_manifest id : readonly (manifest id).
Proof. unfold manifest; readonly. Qed.
Lemma readonly_validate_binding binding verify : readonly (validate_binding binding verify).
Proof. unfold validate_binding; readonly. Qed.
Hint Resolve readonly_manifest readonly_validate_binding : sql.
Lemma readonly_no_binding selection : readonly (validate_no_active_binding selection).
Proof. unfold validate_no_active_binding; readonly. Qed.
Hint Resolve readonly_no_binding : sql.
Lemma readonly_active_binding role verify : readonly (active_binding role verify).
Proof. unfold active_binding; readonly. Qed.
Lemma readonly_recover verify : readonly (recover_active_bindings verify).
Proof. unfold recover_active_bindings; readonly. Qed.

(** ** What the loads return *)

(** A record and the text it is stored as. *)
Definition stored {T} `{Serde T} (x : T) (row : text) : Prop := typed x /\ encode_record x = Ok row.

Lemma encode_record_print {T} `{Serde T} (x : T) row :
  encode_record x = Ok row -> row = json_print (encode x) /\ slen row <= MAX_RECORD_BYTES.
Proof. unfold encode_record; destruct (Z.ltb_spec MAX_RECORD_BYTES (slen (json_print (encode x)))); [done |]; by intros [= <-]. Qed.

Lemma stored_decode {T} `{Serde T} (x : T) row : stored x row -> decode_record row = Ok x.
Proof.
  intros [Ht He]; apply encode_record_print in He as [-> Hl]; unfold decode_record; rewrite (proj2 (Z.ltb_ge _ _)) by done.
  destruct (encode_fits x Ht) as [Hp Hd]; rewrite from_str_print by done; cbn; by rewrite decode_encode.
Qed.

Lemma stored_inj {T} `{Serde T} (x y : T) row : stored x row -> stored y row -> x = y.
Proof. intros Hx Hy; apply stored_decode in Hx, Hy; congruence. Qed.

Lemma stored_size {T} `{Serde T} (x : T) row : stored x row -> check_record row = true.
Proof. intros [_ He]; apply encode_record_print in He as [_ Hl]; by apply Z.leb_le. Qed.

Definition read_option {A B} (f : A -> StoreResult B) (o : option A) : StoreResult (option B) :=
  match o with Some a => b ← f a; Ok (Some b) | None => Ok None end.

Lemma pure_load_record {T} `{Serde T} select key d :
  pure (load_record (T := T) select key) d = (read_option decode_record (select d key), d).
Proof. unfold pure, load_record, query, mbind, sql_bind; destruct (select d key) as [row|]; [cbn; by destruct (decode_record row) | done]. Qed.

Lemma pure_load_manifest key d :
  pure (load_manifest key) d = (read_option decode_record (artifact_manifests d !! key), d).
Proof. apply pure_load_record. Qed.

Lemma pure_load_removal id d :
  pure (load_removal id) d = (read_option (decode_removal (artifact_key id)) (artifact_removals d !! artifact_key id), d).
Proof.
  unfold pure, load_removal, query, mbind, sql_bind; destruct (artifact_removals d !! artifact_key id) as [row|]; [| done].
  cbn; by destruct (decode_removal _ row).
Qed.

Lemma pure_load_installation id d :
  pure (load_installation id) d = (read_option (decode_installation id) (installed_artifacts d !! artifact_key id), d).
Proof.
  unfold pure, load_installation, query, mbind, sql_bind; destruct (installed_artifacts d !! artifact_key id) as [row|]; [| done].
  cbn; by destruct (decode_installation _ row).
Qed.

Lemma pure_load_active_bindings d :
  pure load_active_bindings d =
  (decode_bindings [] (take (Z.to_nat (MAX_ACTIVE_BINDINGS + 1)) (rows_by_key (active_bindings d))), d).
Proof. done. Qed.

Lemma pure_load_invalidations id d :
  pure (load_invalidations id) d =
  (decode_invalidations id (take 1 (List.filter (fun row => text_eqb (iv_qualification_id row) (qualification_key id))
                                      (qualification_invalidations d))), d).
Proof. done. Qed.

(** The record under an identifier, checked. *)
Definition check_qualification (id : QualificationId.t) (q : QualificationRecord.t) : StoreResult QualificationRecord.t :=
  _ ← map_err StoreError.InvalidQualification (QualificationRecord.validate q);
  derived ← map_err StoreError.InvalidQualification (QualificationRecord.qualification_id q);
  if bool_decide (derived = id) then Ok q else Err StoreError.CorruptRecord.

Lemma pure_load_qualification id d :
  pure (load_qualification id) d =
  (read_option (fun row => q ← decode_record (qr_record row); check_qualification id q)
     (qualification_records d !! qualification_key id), d).
Proof.
  unfold load_qualification; rewrite pure_bind by tame; rewrite pure_load_record; unfold select_qualification.
  destruct (qualification_records d !! qualification_key id) as [row|]; [| done]; cbn [fmap option_fmap option_map read_option].
  destruct (decode_record (qr_record row)) as [q| |]; [| done ..]; cbn [mbind result_bind].
  unfold check_qualification; rewrite pure_bind by tame; rewrite pure_lift.
  destruct (map_err _ (QualificationRecord.validate q)); [| done ..]; cbn [mbind result_bind].
  rewrite pure_bind by tame; rewrite pure_lift.
  destruct (map_err _ (QualificationRecord.qualification_id q)); [| done ..]; cbn [mbind result_bind].
  by destruct (bool_decide _).
Qed.

(** ** The invariant *)

Definition matches (i : InstalledArtifact.t) (m : ArtifactManifest.t) : Prop :=
  InstalledArtifact.artifact_id i = ArtifactManifest.artifact_id m /\
  InstalledArtifact.artifact_digest i = ArtifactManifest.artifact_digest m /\
  InstalledArtifact.byte_size i = ArtifactManifest.byte_size m.

Definition epoch_ok (e : Z) : Prop := 1 <= e <= i64_max.

(** The manifest under a key. *)
Definition manifest_at (d : Db) (k : text) (m : ArtifactManifest.t) : Prop :=
  exists row, artifact_manifests d !! k = Some row /\ stored m row /\
    ArtifactManifest.validate m = Ok tt /\ artifact_key (ArtifactManifest.artifact_id m) = k.

(** An artifact that belongs under a key. *)
Record artifact_at (d : Db) (k : text) (i : InstalledArtifact.t) (e : Z) : Prop := {
  aa_epoch : epoch_ok e;
  aa_valid : InstalledArtifact.validate i = Ok tt;
  aa_key : artifact_key (InstalledArtifact.artifact_id i) = k;
  aa_manifest : exists m, manifest_at d k m /\ matches i m
}.

(** The installation, and the entry of the removal journal, under a key. *)
Definition installed_at (d : Db) (k : text) (i : InstalledArtifact.t) (e : Z) : Prop :=
  exists row, installed_artifacts d !! k = Some row /\ stored i (in_record row) /\ in_epoch row = e /\ artifact_at d k i e.
Definition removal_at (d : Db) (k : text) (i : InstalledArtifact.t) (e : Z) (p : ArtifactRemovalPhase) : Prop :=
  exists row, artifact_removals d !! k = Some row /\
    stored (ArtifactRemovalRecord.mk REMOVAL_RECORD_SCHEMA_VERSION i e p) (rm_record row) /\
    rm_epoch row = e /\ rm_phase row = phase_key p /\ artifact_at d k i e.

(** The qualification record under an identifier, and what invalidates it. *)
Definition qualification_at (d : Db) (id : QualificationId.t) (q : QualificationRecord.t) : Prop :=
  exists row, qualification_records d !! qualification_key id = Some row /\ stored q (qr_record row) /\
    QualificationRecord.qualification_id q = Ok id.
Definition invalidated (d : Db) (id : QualificationId.t) : Prop :=
  exists row, row ∈ qualification_invalidations d /\ iv_qualification_id row = qualification_key id.

(** A binding under a role: the installed artifact it names is current, and
    its record still authorizes the role. *)
Definition binding_at (d : Db) (k : text) (b : ActiveArtifactBinding.t) : Prop :=
  exists row, active_bindings d !! k = Some row /\ stored b (br_record row) /\
    k = machine_name (ActiveArtifactBinding.role b) /\
    br_artifact_id row = artifact_key (ActiveArtifactBinding.artifact_id b) /\
    br_qualification_id row = qualification_key (ActiveArtifactBinding.qualification_id b) /\
    ~ invalidated d (ActiveArtifactBinding.qualification_id b) /\
    exists i e q, installed_at d (artifact_key (ActiveArtifactBinding.artifact_id b)) i e /\
      qualification_at d (ActiveArtifactBinding.qualification_id b) q /\
      Model.activate i q [] (ActiveArtifactBinding.role b) = Ok b.

(** The artifact column of a qualification record: the artifact it is about,
    which has a manifest with the digest the record names. *)
Definition qualification_row (d : Db) (row : QualificationRow) (q : QualificationRecord.t) : Prop :=
  qr_artifact_id row = artifact_key (QualificationRecord.artifact_id q) /\
  exists m, manifest_at d (qr_artifact_id row) m /\ ArtifactManifest.artifact_digest m = QualificationRecord.artifact_digest q.

Definition invalidation_row (row : InvalidationRow) : Prop :=
  exists i, stored i (iv_record row) /\ QualificationInvalidation.validate i = Ok tt /\
    iv_qualification_id row = qualification_key (QualificationInvalidation.qualification_id i) /\
    iv_reason_code row = QualificationInvalidation.reason_code i.

(** What an activation on record is about: a manifest and a qualification
    record that are still there, and the record authorized the role for an
    installation of that artifact. *)
Definition decision_backed (d : Db) (decision : ActivationDecision.t) : Prop :=
  match ActivationDecision.artifact_id decision, ActivationDecision.qualification_id decision with
  | Some artifact, Some id => exists i m q b,
      InstalledArtifact.artifact_id i = artifact /\ manifest_at d (artifact_key artifact) m /\ matches i m /\
      qualification_at d id q /\ Model.activate i q [] (ActivationDecision.role decision) = Ok b
  | _, _ => True
  end.

(** A row of the decisions: the text of a valid decision under its own
    identifier and role, which reads back as that decision when the
    identifier is a digest. *)
Definition decision_row (d : Db) (k : text) (row : DecisionRow) : Prop :=
  exists decision, k = activation_key (ActivationDecision.activation_id decision) /\
    dr_role row = machine_name (ActivationDecision.role decision) /\
    ActivationDecision.validate decision = Ok tt /\ encode_record decision = Ok (dr_record row) /\
    (digest_typed (ActivationId.digest (ActivationDecision.activation_id decision)) -> stored decision (dr_record row)) /\
    decision_backed d decision.

(** The epoch of an installation follows the journal. *)
Definition epoch_follows (removal : option RemovalRow) (e : Z) : Prop :=
  match removal with
  | None => e = 1
  | Some r => rm_phase r = phase_key Completed /\ e = rm_epoch r + 1
  end.

Record inv (d : Db) : Prop := {
  inv_manifest : forall k row, artifact_manifests d !! k = Some row -> exists m, manifest_at d k m;
  inv_installed : forall k row, installed_artifacts d !! k = Some row ->
    epoch_follows (artifact_removals d !! k) (in_epoch row) /\ exists i, installed_at d k i (in_epoch row);
  inv_removal : forall k row, artifact_removals d !! k = Some row -> exists i p, removal_at d k i (rm_epoch row) p;
  inv_qualification : forall k row, qualification_records d !! k = Some row ->
    exists id q, k = qualification_key id /\ qualification_at d id q /\ qualification_row d row q;
  inv_invalidation : Forall (fun row => invalidation_row row /\ is_Some (qualification_records d !! iv_qualification_id row))
    (qualification_invalidations d);
  inv_binding : forall k row, active_bindings d !! k = Some row -> exists b, binding_at d k b;
  inv_decision : forall k row, activation_decisions d !! k = Some row -> decision_row d k row
}.

Lemma inv_empty : inv empty_db.
Proof. split; cbn; try (intros ? ?; rewrite lookup_empty; done). constructor. Qed.

(** ** Keys *)

Lemma artifact_key_inj i j : artifact_key i = artifact_key j -> i = j.
Proof. destruct i as [[]], j as [[]]; cbn; by intros ->. Qed.
Lemma qualification_key_inj i j : qualification_key i = qualification_key j -> i = j.
Proof. destruct i as [[]], j as [[]]; cbn; by intros ->. Qed.
Lemma machine_name_inj r s : machine_name r = machine_name s -> r = s.
Proof. destruct r, s; done. Qed.
Lemma phase_key_inj p q : phase_key p = phase_key q -> p = q.
Proof. destruct p, q; done. Qed.

Lemma text_eqb_refl s : text_eqb s s = true.
Proof. by apply bool_decide_eq_true. Qed.

(** ** Loading under the invariant *)

Section Loads.
Context (d : Db) (Hd : inv d).

Lemma load_manifest_inv k :
  exists o, pure (load_manifest k) d = (Ok o, d) /\
    match o with Some m => manifest_at d k m | None => artifact_manifests d !! k = None end.
Proof.
  rewrite pure_load_manifest; destruct (artifact_manifests d !! k) as [row|] eqn:E; [| by exists None].
  destruct (inv_manifest d Hd k row E) as [m Hm]; exists (Some m); split; [| done].
  destruct Hm as (row' & E' & Hs & _); cbn; rewrite E in E'; injection E' as <-; by rewrite (stored_decode m).
Qed.

Lemma epoch_decode e : epoch_ok e -> Epoch.from_database e = Ok (Epoch.mk e).
Proof.
  intros [H1 H2]; unfold Epoch.from_database, try_from, i64_max, u64_max in *.
  rewrite (proj2 (Z.leb_le 0 e)), (proj2 (Z.leb_le e _)) by lia; cbn; by rewrite (proj2 (Z.eqb_neq e 0)) by lia.
Qed.

Lemma decode_installation_ok id row i :
  stored i (in_record row) -> artifact_at d (artifact_key id) i (in_epoch row) ->
  decode_installation id row = Ok (StoredArtifactInstallation.mk i (Epoch.mk (in_epoch row))).
Proof.
  intros Hs [He Hv Hk _]; unfold decode_installation; rewrite (stored_decode i) by done; cbn [mbind result_bind].
  apply artifact_key_inj in Hk; unfold corrupt; rewrite Hv, Hk, bool_decide_eq_true_2 by done; cbn; by rewrite epoch_decode.
Qed.

Lemma load_installation_inv id :
  exists o, pure (load_installation id) d = (Ok o, d) /\
    match o with
    | Some s => installed_at d (artifact_key id) (StoredArtifactInstallation.installed s)
                  (Epoch.get (StoredArtifactInstallation.epoch s)) /\
                epoch_follows (artifact_removals d !! artifact_key id) (Epoch.get (StoredArtifactInstallation.epoch s))
    | None => installed_artifacts d !! artifact_key id = None
    end.
Proof.
  rewrite pure_load_installation; destruct (installed_artifacts d !! artifact_key id) as [row|] eqn:E; [| by exists None].
  destruct (inv_installed d Hd _ row E) as (Hf & i & Hi).
  exists (Some (StoredArtifactInstallation.mk i (Epoch.mk (in_epoch row)))); split; [| done].
  destruct Hi as (row' & E' & Hs & He & Ha); rewrite E in E'; injection E' as <-.
  cbn; by rewrite (decode_installation_ok id row i).
Qed.

Lemma decode_removal_ok k row i p :
  stored (ArtifactRemovalRecord.mk REMOVAL_RECORD_SCHEMA_VERSION i (rm_epoch row) p) (rm_record row) ->
  rm_phase row = phase_key p -> artifact_at d k i (rm_epoch row) ->
  decode_removal k row =
  Ok (StoredArtifactRemoval.mk (StoredArtifactInstallation.mk i (Epoch.mk (rm_epoch row))) p).
Proof.
  intros Hs Hp [He Hv Hk _]; unfold decode_removal; rewrite (stored_decode _ _ Hs); cbn [mbind result_bind].
  rewrite epoch_decode by done; cbn -[text_eqb]; unfold corrupt; rewrite Hv; cbn -[text_eqb].
  by rewrite Hk, Hp, Z.eqb_refl, !text_eqb_refl.
Qed.

Lemma load_removal_inv id :
  exists o, pure (load_removal id) d = (Ok o, d) /\
    match o with
    | Some r => removal_at d (artifact_key id) (StoredArtifactInstallation.installed (StoredArtifactRemoval.selection r))
                  (Epoch.get (StoredArtifactInstallation.epoch (StoredArtifactRemoval.selection r)))
                  (StoredArtifactRemoval.phase r)
    | None => artifact_removals d !! artifact_key id = None
    end.
Proof.
  rewrite pure_load_removal; destruct (artifact_removals d !! artifact_key id) as [row|] eqn:E; [| by exists None].
  destruct (inv_removal d Hd _ row E) as (i & p & Hr).
  exists (Some (StoredArtifactRemoval.mk (StoredArtifactInstallation.mk i (Epoch.mk (rm_epoch row))) p)); split; [| done].
  destruct Hr as (row' & E' & Hs & He & Hp & Ha); rewrite E in E'; injection E' as <-.
  cbn; by rewrite (decode_removal_ok _ row i p).
Qed.

Lemma load_qualification_inv id :
  exists o, pure (load_qualification id) d = (Ok o, d) /\
    match o with
    | Some q => qualification_at d id q
    | None => qualification_records d !! qualification_key id = None
    end.
Proof.
  rewrite pure_load_qualification; destruct (qualification_records d !! qualification_key id) as [row|] eqn:E; [| by exists None].
  destruct (inv_qualification d Hd _ row E) as (id' & q & Hk & Hq & _); apply qualification_key_inj in Hk as <-.
  exists (Some q); split; [| done]; destruct Hq as (row' & E' & Hs & Hid); rewrite E in E'; injection E' as <-.
  cbn [read_option]; rewrite (stored_decode q) by done; cbn [mbind result_bind]; unfold check_qualification.
  pose proof Hid as Hid'; unfold QualificationRecord.qualification_id in Hid; apply bind_ok in Hid as ([] & Hv & _).
  rewrite Hv, Hid'; cbn; by rewrite bool_decide_eq_true_2.
Qed.

Lemma load_invalidations_inv id :
  exists l, pure (load_invalidations id) d = (Ok l, d) /\
    Forall (fun i => QualificationInvalidation.qualification_id i = id) l /\ (l = [] <-> ~ invalidated d id).
Proof.
  rewrite pure_load_invalidations; pose proof (inv_invalidation d Hd) as Hall; unfold invalidated.
  induction Hall as [|row rows [(i & Hs & Hv & Hk & Hr) _] Hall IH].
  { exists []; split_and!; [done | constructor |]; split; [| done]; intros _ (row & Hin & _); by apply elem_of_nil in Hin. }
  cbn [List.filter]; destruct (text_eqb (iv_qualification_id row) (qualification_key id)) eqn:E.
  - apply bool_decide_eq_true in E; rewrite Hk in E; apply qualification_key_inj in E.
    exists [i]; cbn [take decode_invalidations]; split_and!; [| by repeat constructor |].
    + rewrite (stored_decode i) by done; cbn [mbind result_bind]; rewrite Hv; cbn -[text_eqb].
      by rewrite bool_decide_eq_true_2, Hr, text_eqb_refl by done.
    + split; [done |]; intros Hn; destruct Hn; exists row; split; [left | by rewrite Hk, E].
  - destruct IH as (l & Hl & Hf & Hn); exists l; split_and!; [done | done |]; rewrite Hn.
    apply not_iff_compat; split; intros (r & Hin & He); [exists r; split; [by right | done] |].
    apply elem_of_cons in Hin as [->|Hin]; [| by exists r]; rewrite He, text_eqb_refl in E; done.
Qed.

End Loads.

(** ** The state of one artifact *)

Record loaded (d : Db) (id : ArtifactId.t) (om : option ArtifactManifest.t) (oi : option StoredArtifactInstallation.t)
    (orm : option StoredArtifactRemoval.t) : Prop := {
  lo_manifest : match om with
                | Some m => manifest_at d (artifact_key id) m
                | None => artifact_manifests d !! artifact_key id = None
                end;
  lo_installed : match oi with
    | Some s => installed_at d (artifact_key id) (StoredArtifactInstallation.installed s)
                  (Epoch.get (StoredArtifactInstallation.epoch s)) /\
                epoch_follows (artifact_removals d !! artifact_key id) (Epoch.get (StoredArtifactInstallation.epoch s))
    | None => installed_artifacts d !! artifact_key id = None
    end;
  lo_removal : match orm with
    | Some r => removal_at d (artifact_key id) (StoredArtifactInstallation.installed (StoredArtifactRemoval.selection r))
                  (Epoch.get (StoredArtifactInstallation.epoch (StoredArtifactRemoval.selection r)))
                  (StoredArtifactRemoval.phase r)
    | None => artifact_removals d !! artifact_key id = None
    end
}.

Lemma manifest_at_fun d k m m' : manifest_at d k m -> manifest_at d k m' -> m = m'.
Proof. intros (r & E & Hs & _) (r' & E' & Hs' & _); rewrite E in E'; injection E' as <-; by apply (stored_inj m m' r). Qed.

Lemma existing_ok d k m i e :
  manifest_at d k m -> artifact_at d k i e -> validate_existing_installation k (Some m) (Some i) = Ok tt.
Proof.
  intros Hm [He Hv Hk (m' & Hm' & H1 & H2 & H3)]; rewrite <- (manifest_at_fun d k m m') in * by done.
  destruct Hm as (row & _ & _ & Hvm & Hkm); unfold validate_existing_installation, corrupt; cbn -[text_eqb].
  rewrite Hvm, Hkm, text_eqb_refl; cbn -[text_eqb]; rewrite Hv, Hk, text_eqb_refl; cbn -[text_eqb].
  by rewrite H1, H2, H3, !bool_decide_eq_true_2, Z.eqb_refl.
Qed.

Lemma existing_none d k om :
  match om with Some m => manifest_at d k m | None => artifact_manifests d !! k = None end ->
  validate_existing_installation k om None = Ok tt.
Proof.
  destruct om as [m|]; [| done]; intros (row & _ & _ & Hvm & Hkm); unfold validate_existing_installation, corrupt.
  cbn -[text_eqb]; by rewrite Hvm, Hkm, text_eqb_refl.
Qed.

Lemma epoch_next e e' : epoch_ok e' -> e' = e + 1 -> Epoch.next (Epoch.mk e) = Ok (Epoch.mk e').
Proof.
  intros [H1 H2] ->; unfold Epoch.next, checked_add, try_from, u64_max, i64_max in *; cbn [Epoch.get].
  rewrite (proj2 (Z.leb_le (e + 1) 18446744073709551615)) by lia; cbn [mbind option_bind].
  by rewrite !(proj2 (Z.leb_le _ _)) by lia.
Qed.

Lemma manifest_needed d id om oi orm i e :
  loaded d id om oi orm -> artifact_at d (artifact_key id) i e -> exists m, om = Some m /\ manifest_at d (artifact_key id) m.
Proof.
  intros [Hm _ _] [_ _ _ (m & Hm' & _)]; destruct om as [m'|]; [by exists m' |].
  destruct Hm' as (row & E & _); rewrite Hm in E; done.
Qed.

Lemma integrity d id om oi orm :
  loaded d id om oi orm -> validate_removal_state (artifact_key id) om oi orm = Ok tt.
Proof.
  intros Hl; pose proof Hl as [Hm Hi Hr]; unfold validate_removal_state.
  assert (Hfirst : validate_existing_installation (artifact_key id) om (StoredArtifactInstallation.installed <$> oi) = Ok tt).
  { destruct oi as [s|]; cbn; [| by apply (existing_none d)]; destruct Hi as [(row & _ & _ & _ & Ha) _].
    destruct (manifest_needed _ _ _ _ _ _ _ Hl Ha) as (m & -> & Hm'); by eapply existing_ok. }
  rewrite Hfirst; cbn [mbind result_bind]; destruct orm as [[[ri [re]] rp]|]; cbn [StoredArtifactRemoval.selection
    StoredArtifactRemoval.phase StoredArtifactInstallation.installed StoredArtifactInstallation.epoch Epoch.get] in *.
  - destruct Hr as (row & E & Hs & He & Hp & Ha); destruct (manifest_needed _ _ _ _ _ _ _ Hl Ha) as (m & -> & Hm').
    rewrite (existing_ok d _ m ri re) by done; cbn [mbind result_bind]; destruct oi as [[i [e]]|].
    + cbn [StoredArtifactInstallation.epoch StoredArtifactInstallation.installed Epoch.get] in Hi.
      destruct Hi as [(irow & _ & _ & _ & Hai) Hf]; rewrite E in Hf; destruct Hf as [Hc Hn]; rewrite Hp in Hc.
      apply phase_key_inj in Hc as ->; change (bool_decide (Completed = Prepared)) with false.
      change (bool_decide (Completed = Completed)) with true; cbn [andb negb]; rewrite (epoch_next re e); [| by destruct Hai | congruence].
      cbn [mbind result_bind StoredArtifactInstallation.epoch]; by rewrite bool_decide_eq_true_2.
    + rewrite (bool_decide_eq_false_2 (is_Some None)) by (by intros [? ?]); by rewrite andb_false_r.
  - destruct oi as [[i [e]]|]; [| done]; cbn [StoredArtifactInstallation.epoch Epoch.get] in *.
    destruct Hi as [_ Hf]; rewrite Hr in Hf; cbn in Hf; subst e; done.
Qed.

(** The four steps with which most operations start. *)
Definition with_state {A} (id : ArtifactId.t)
    (f : option ArtifactManifest.t -> option StoredArtifactInstallation.t -> option StoredArtifactRemoval.t -> Sql A) : Sql A :=
  manifest ← load_manifest (artifact_key id);
  installation ← load_installation id;
  removal ← load_removal id;
  _ ← lift (validate_removal_state (artifact_key id) manifest installation removal);
  f manifest installation removal.

Lemma with_state_inv {A} d id (f : _ -> _ -> _ -> Sql A) :
  inv d -> (forall a b c, tame (f a b c)) ->
  exists om oi orm, loaded d id om oi orm /\ pure (with_state id f) d = pure (f om oi orm) d.
Proof.
  intros Hd Hf; destruct (load_manifest_inv d Hd (artifact_key id)) as (om & Em & Hm).
  destruct (load_installation_inv d Hd id) as (oi & Ei & Hi); destruct (load_removal_inv d Hd id) as (orm & Er & Hr).
  assert (Hl : loaded d id om oi orm) by done; exists om, oi, orm; split; [done |].
  unfold with_state; rewrite pure_bind by (tame; done); rewrite Em, pure_bind by (tame; done).
  rewrite Ei, pure_bind by (tame; done); rewrite Er, pure_bind by (tame; done); by rewrite pure_lift, (integrity d) by done.
Qed.

Lemma with_state_ok {A} d id (f : _ -> _ -> _ -> Sql A) r :
  inv d -> (forall a b c, tame (f a b c)) -> pure (with_state id f) d = r ->
  exists om oi orm, loaded d id om oi orm /\ pure (f om oi orm) d = r.
Proof. intros Hd Hf <-; destruct (with_state_inv d id f Hd Hf) as (om & oi & orm & Hl & E); by exists om, oi, orm. Qed.

(** ** Bindings *)

Lemma activate_irrelevant i q l role :
  QualificationRecord.qualification_id q <> Panic ->
  (forall id, QualificationRecord.qualification_id q = Ok id ->
     Forall (fun x => QualificationInvalidation.qualification_id x <> id) l) ->
  Model.activate i q l role = Model.activate i q [] role.
Proof.
  intros _ H; unfold Model.activate; destruct (map_err _ (InstalledArtifact.validate i)); cbn [mbind result_bind]; [| done ..].
  destruct (_ || _); [done |]; destruct (QualificationRecord.qualification_id q) as [id| |] eqn:E; cbn [map_err mbind result_bind]; [| done ..].
  specialize (H id eq_refl); assert (existsb (fun item => bool_decide (QualificationInvalidation.qualification_id item = id)) l = false) as ->;
    [| done].
  apply not_true_iff_false; rewrite existsb_exists; intros (x & Hx & Hb); apply bool_decide_eq_true in Hb.
  rewrite Forall_forall in H; by apply (H x); [apply list_elem_of_In |].
Qed.

Lemma binding_at_qualified d k b :
  binding_at d k b ->
  exists i e q, installed_at d (artifact_key (ActiveArtifactBinding.artifact_id b)) i e /\
    qualification_at d (ActiveArtifactBinding.qualification_id b) q /\
    forall l, Forall (fun x => QualificationInvalidation.qualification_id x <> ActiveArtifactBinding.qualification_id b) l ->
      Model.activate i q l (ActiveArtifactBinding.role b) = Ok b.
Proof.
  intros (row & _ & _ & _ & _ & _ & _ & i & e & q & Hi & Hq & Ha); exists i, e, q; split_and!; [done | done |].
  intros l Hl; rewrite activate_irrelevant; [done | |]; destruct Hq as (qrow & _ & _ & Hid); rewrite Hid; [done |].
  by intros id [= <-].
Qed.

Lemma installed_at_fun d k i e i' e' : installed_at d k i e -> installed_at d k i' e' -> i = i' /\ e = e'.
Proof.
  intros (r & E & Hs & He & _) (r' & E' & Hs' & He' & _); rewrite E in E'; injection E' as <-.
  split; [by apply (stored_inj i i' (in_record r)) | congruence].
Qed.

Lemma qualification_at_fun d id q q' : qualification_at d id q -> qualification_at d id q' -> q = q'.
Proof. intros (r & E & Hs & _) (r' & E' & Hs' & _); rewrite E in E'; injection E' as <-; by apply (stored_inj q q' (qr_record r)). Qed.

Lemma removal_at_fun d k i e p i' e' p' :
  removal_at d k i e p -> removal_at d k i' e' p' -> i = i' /\ e = e' /\ p = p'.
Proof.
  intros (r & E & Hs & He & _) (r' & E' & Hs' & He' & _); rewrite E in E'; injection E' as <-.
  pose proof (stored_inj _ _ _ Hs Hs') as [= -> ->]; split_and!; congruence.
Qed.

(** The binding of a role is the only one with that role. *)
Lemma binding_at_fun d k b b' : binding_at d k b -> binding_at d k b' -> b = b'.
Proof. intros (r & E & Hs & _) (r' & E' & Hs' & _); rewrite E in E'; injection E' as <-; by apply (stored_inj b b' (br_record r)). Qed.

Lemma validate_binding_inv d k b verify :
  inv d -> binding_at d k b ->
  exists i e, installed_at d (artifact_key (ActiveArtifactBinding.artifact_id b)) i e /\
    pure (validate_binding b verify) d = (if verify i then Ok b else Err StoreError.VerificationFailed, d).
Proof.
  intros Hd Hb; destruct (binding_at_qualified d k b Hb) as (i & e & q & Hi & Hq & Ha); exists i, e; split; [done |].
  destruct (pure (validate_binding b verify) d) as [r d'] eqn:E; apply with_state_ok in E as (om & oi & orm & Hl & <-); [| done | tame].
  destruct Hl as [_ Hoi _]; destruct oi as [[i' [e']]|]; cycle 1.
  { destruct Hi as (row & E & _); rewrite Hoi in E; done. }
  destruct Hoi as [Hi' _]; cbn [StoredArtifactInstallation.installed StoredArtifactInstallation.epoch Epoch.get] in Hi'.
  destruct (installed_at_fun d _ _ _ _ _ Hi Hi') as [<- <-]; rewrite pure_bind by tame; rewrite pure_lift; cbn [fmap option_fmap
    option_map ok_or StoredArtifactInstallation.installed]; destruct (verify i); [| done]; cbn [negb].
  destruct (load_qualification_inv d Hd (ActiveArtifactBinding.qualification_id b)) as (oq & Eq & Hoq).
  rewrite pure_bind by tame; rewrite Eq; destruct oq as [q'|]; cycle 1.
  { destruct Hq as (row & E & _); rewrite Hoq in E; done. }
  rewrite (qualification_at_fun d _ q' q) by done; rewrite pure_bind by tame; rewrite pure_lift; cbn [ok_or].
  destruct (load_invalidations_inv d Hd (ActiveArtifactBinding.qualification_id b)) as (l & El & _ & Hl).
  rewrite pure_bind by tame; rewrite El; destruct Hb as (row & _ & _ & _ & _ & _ & Hn & _); apply Hl in Hn as ->.
  rewrite (Ha []) by constructor; rewrite pure_bind by tame; rewrite pure_lift; cbn [map_err].
  by rewrite bool_decide_eq_true_2.
Qed.

Lemma rows_by_key_elem {A} (t : gmap text A) k a : (k, a) ∈ rows_by_key t <-> t !! k = Some a.
Proof. unfold rows_by_key; by rewrite sort_by_perm, elem_of_map_to_list. Qed.

Lemma rows_by_key_NoDup {A} (t : gmap text A) : NoDup (map fst (rows_by_key t)).
Proof. unfold rows_by_key; rewrite sort_by_perm; apply NoDup_fst_map_to_list. Qed.

Lemma bindings_bound d : inv d -> (length (rows_by_key (active_bindings d)) <= 7)%nat.
Proof.
  intros Hd; rewrite <- (length_map fst); change 7%nat with (length (map machine_name ALL_ROLES)).
  apply submseteq_length, NoDup_submseteq; [apply rows_by_key_NoDup |]; intros k Hk.
  apply list_elem_of_fmap in Hk as ([k' row] & -> & Hin); apply rows_by_key_elem in Hin.
  destruct (inv_binding d Hd k' row Hin) as (b & row' & _ & _ & -> & _); cbn; destruct (ActiveArtifactBinding.role b); set_solver.
Qed.

Lemma decode_stored_binding_ok d k row b :
  active_bindings d !! k = Some row -> binding_at d k b -> decode_stored_binding k row = Ok b.
Proof.
  intros E (row' & E' & Hs & Hk & Ha & Hq & _); rewrite E in E'; injection E' as <-; unfold decode_stored_binding.
  rewrite (stored_decode b) by done; cbn [mbind result_bind]; by rewrite Hk, Ha, Hq, !text_eqb_refl.
Qed.

Lemma decode_bindings_inv d rows : inv d -> forall done,
  Forall (fun row => active_bindings d !! fst row = Some (snd row)) rows -> (length done + length rows <= 7)%nat ->
  exists bs, decode_bindings done rows = Ok (done ++ bs) /\ Forall2 (fun row b => binding_at d (fst row) b) rows bs.
Proof.
  intros Hd; induction rows as [|[k row] rows IH]; intros done Hr Hl.
  { exists []; cbn; by rewrite app_nil_r. }
  apply Forall_cons in Hr as [E Hr]; cbn [fst snd] in E; destruct (inv_binding d Hd k row E) as [b Hb].
  cbn [length] in Hl; destruct (IH (done ++ [b]) Hr) as (bs & Ebs & HF); [rewrite length_app; cbn; lia |].
  exists (b :: bs); split; [| by constructor]; cbn [decode_bindings fst snd]; unfold vlen.
  rewrite (proj2 (Z.eqb_neq _ _)) by (unfold MAX_ACTIVE_BINDINGS, vlen; cbn; lia).
  rewrite (decode_stored_binding_ok d k row b) by done; cbn [mbind result_bind]; by rewrite Ebs, <- app_assoc.
Qed.

Lemma load_active_bindings_inv d :
  inv d -> exists bs, pure load_active_bindings d = (Ok bs, d) /\
    Forall2 (fun row b => binding_at d (fst row) b) (rows_by_key (active_bindings d)) bs.
Proof.
  intros Hd; rewrite pure_load_active_bindings; pose proof (bindings_bound d Hd) as Hl.
  rewrite take_ge by (change (Z.to_nat (MAX_ACTIVE_BINDINGS + 1)) with 8%nat; lia).
  destruct (decode_bindings_inv d (rows_by_key (active_bindings d)) Hd []) as (bs & E & HF); [| cbn; lia |].
  - apply Forall_forall; intros [k row] Hin; by apply rows_by_key_elem.
  - rewrite E; by exists bs.
Qed.

(** Each loaded binding is the one of its role, and none is left out. *)
Lemma bindings_elem d bs b :
  inv d -> Forall2 (fun row b => binding_at d (fst row) b) (rows_by_key (active_bindings d)) bs ->
  b ∈ bs <-> exists k, binding_at d k b.
Proof.
  intros Hd HF; split.
  - intros Hb; apply list_elem_of_lookup in Hb as [n Hn]; destruct (Forall2_lookup_r _ _ _ _ _ HF Hn) as ([k row] & _ & H); eauto.
  - intros [k Hb]; pose proof Hb as (row & E & _); apply rows_by_key_elem in E; apply list_elem_of_lookup in E as [n Hn].
    destruct (Forall2_lookup_l _ _ _ _ _ HF Hn) as (b' & Hb' & H); rewrite (binding_at_fun d k b b') by done.
    apply list_elem_of_lookup; eauto.
Qed.

Lemma no_binding_ok d selection :
  inv d -> pure (validate_no_active_binding selection) d = (Ok tt, d) ->
  forall k b, binding_at d k b ->
    ActiveArtifactBinding.artifact_id b <> InstalledArtifact.artifact_id (StoredArtifactInstallation.installed selection).
Proof.
  intros Hd H k b Hb; unfold validate_no_active_binding in H.
  apply pure_bind_ok in H as (bs & d1 & E1 & H); [| tame ..].
  destruct (load_active_bindings_inv d Hd) as (bs' & E & HF); rewrite E in E1; injection E1 as <- <-.
  assert (Hin : b ∈ bs') by (apply (bindings_elem d); eauto).
  assert (Hall : Forall (fun b => exists k, binding_at d k b) bs')
    by (apply Forall_forall; intros x; by apply (bindings_elem d)).
  clear HF E; induction Hall as [|b' bs' [k' Hb'] _ IH]; [by apply elem_of_nil in Hin |]; cbn [for_each] in H.
  apply pure_bind_ok in H as ([] & d1 & E1 & H); [| tame ..].
  apply pure_bind_ok in E1 as (b1 & d2 & E2 & E1); [| tame ..].
  destruct (validate_binding_inv d k' b' (fun _ => true) Hd Hb') as (i & e & _ & Ev); rewrite Ev in E2; injection E2 as <- <-.
  case_bool_decide as Hne; [done |]; rewrite pure_ret in E1; injection E1 as <-.
  apply elem_of_cons in Hin as [->|Hin]; [done | by apply IH].
Qed.

End Store.

#[export] Hint Resolve tame_immutable tame_insert_immutable tame_load_record tame_load_removal tame_load_installation
  tame_load_active_binding tame_load_active_bindings tame_load_invalidations tame_write_removal tame_insert_decision
  tame_require_absent tame_load_manifest tame_load_qualification tame_manifest tame_validate_binding tame_no_binding
  tame_revoke : sql.
#[export] Hint Resolve readonly_load_record readonly_load_removal readonly_load_installation readonly_load_active_binding
  readonly_load_active_bindings readonly_load_invalidations readonly_require_absent readonly_load_manifest
  readonly_load_qualification readonly_manifest readonly_validate_binding readonly_no_binding : sql.
