(* ===== verification/StoreSteps.v ===== *)
(** * The transitions of the model store.

    What an operation that succeeds does to the tables, as a relation of
    elementary changes, and that every change keeps the invariant. *)

From S2P Require Import Prelude Text Document Claims Json Extractor Model ModelJson StoreDb ModelStore StoreMonad StoreInv.

Section Store.
Context {SHA : Sha256} {JSON : JsonCodec}.

(** ** Changes *)

Definition without_bindings (test : text -> BindingRow -> bool) (d : Db) : Db :=
  set_bindings (filter (fun b : text * BindingRow => test (fst b) (snd b) = false) (active_bindings d)) d.

Inductive change (d : Db) : Db -> Prop :=
| change_manifest k m row :
    artifact_manifests d !! k = None -> stored m row -> ArtifactManifest.validate m = Ok tt ->
    artifact_key (ArtifactManifest.artifact_id m) = k ->
    change d (set_manifests (<[k := row]> (artifact_manifests d)) d)
| change_install k i row :
    installed_artifacts d !! k = None -> stored i (in_record row) -> artifact_at d k i (in_epoch row) ->
    epoch_follows (artifact_removals d !! k) (in_epoch row) ->
    change d (set_installed (<[k := row]> (installed_artifacts d)) d)
| change_qualification id q row :
    qualification_records d !! qualification_key id = None -> stored q (qr_record row) ->
    QualificationRecord.qualification_id q = Ok id -> qualification_row d row q ->
    change d (set_qualifications (<[qualification_key id := row]> (qualification_records d)) d)
| change_invalidate id row :
    invalidation_row row -> iv_qualification_id row = qualification_key id ->
    is_Some (qualification_records d !! qualification_key id) ->
    change d (without_bindings (fun _ b => text_eqb (br_qualification_id b) (qualification_key id))
                (set_invalidations (qualification_invalidations d ++ [row]) d))
| change_decision k row :
    activation_decisions d !! k = None -> decision_row d k row ->
    change d (set_decisions (<[k := row]> (activation_decisions d)) d)
| change_bind b row i e q :
    stored b (br_record row) -> br_artifact_id row = artifact_key (ActiveArtifactBinding.artifact_id b) ->
    br_qualification_id row = qualification_key (ActiveArtifactBinding.qualification_id b) ->
    ~ invalidated d (ActiveArtifactBinding.qualification_id b) ->
    installed_at d (artifact_key (ActiveArtifactBinding.artifact_id b)) i e ->
    qualification_at d (ActiveArtifactBinding.qualification_id b) q ->
    Model.activate i q [] (ActiveArtifactBinding.role b) = Ok b ->
    change d (set_bindings (<[machine_name (ActiveArtifactBinding.role b) := row]> (active_bindings d)) d)
| change_unbind role :
    change d (without_bindings (fun k _ => text_eqb k (machine_name role)) d)
| change_prepare k i e row :
    installed_at d k i e ->
    stored (ArtifactRemovalRecord.mk REMOVAL_RECORD_SCHEMA_VERSION i e Prepared) (rm_record row) ->
    rm_epoch row = e -> rm_phase row = phase_key Prepared ->
    (forall r b, binding_at d r b -> artifact_key (ActiveArtifactBinding.artifact_id b) <> k) ->
    change d (set_installed (delete k (installed_artifacts d)) (set_removals (<[k := row]> (artifact_removals d)) d))
| change_complete k i e row :
    removal_at d k i e Prepared -> installed_artifacts d !! k = None ->
    stored (ArtifactRemovalRecord.mk REMOVAL_RECORD_SCHEMA_VERSION i e Completed) (rm_record row) ->
    rm_epoch row = e -> rm_phase row = phase_key Completed ->
    change d (set_removals (<[k := row]> (artifact_removals d)) d).

(** ** Facts that survive a change of other tables *)

Section Mono.
Context (d d' : Db) (Hm : artifact_manifests d ⊆ artifact_manifests d').

Lemma manifest_at_mono k m : manifest_at d k m -> manifest_at d' k m.
Proof. intros (row & E & H); exists row; split; [by eapply lookup_weaken | done]. Qed.

Lemma artifact_at_mono k i e : artifact_at d k i e -> artifact_at d' k i e.
Proof. intros [He Hv Hk (m & H & Hx)]; split; try done; exists m; split; [by apply manifest_at_mono | done]. Qed.

Lemma installed_at_mono k i e :
  installed_artifacts d' !! k = installed_artifacts d !! k -> installed_at d k i e -> installed_at d' k i e.
Proof. intros Hi (row & E & Hs & He & Ha); exists row; rewrite Hi; split_and!; try done; by apply artifact_at_mono. Qed.

Lemma removal_at_mono k i e p :
  artifact_removals d' !! k = artifact_removals d !! k -> removal_at d k i e p -> removal_at d' k i e p.
Proof. intros Hi (row & E & Hs & He & Hp & Ha); exists row; rewrite Hi; split_and!; try done; by apply artifact_at_mono. Qed.

Lemma qualification_row_mono row q : qualification_row d row q -> qualification_row d' row q.
Proof. intros (Hk & m & Hr & Hd); split; [done |]; exists m; split; [by apply manifest_at_mono | done]. Qed.

Context (Hq : qualification_records d ⊆ qualification_records d').

Lemma invalidations_mono rows :
  Forall (fun row => invalidation_row row /\ is_Some (qualification_records d !! iv_qualification_id row)) rows ->
  Forall (fun row => invalidation_row row /\ is_Some (qualification_records d' !! iv_qualification_id row)) rows.
Proof. intros H; eapply Forall_impl; [exact H |]; intros row [Hr [x Hx]]; split; [done |]; exists x; by eapply lookup_weaken. Qed.

Lemma qualification_at_mono id q : qualification_at d id q -> qualification_at d' id q.
Proof. intros (row & E & H); exists row; split; [by eapply lookup_weaken | done]. Qed.

Lemma decision_row_mono k row : decision_row d k row -> decision_row d' k row.
Proof.
  intros (decision & Hk & Hr & Hv & He & Hs & Hb); exists decision; split_and!; try done; unfold decision_backed in *.
  destruct (ActivationDecision.artifact_id decision), (ActivationDecision.qualification_id decision); [| done ..].
  destruct Hb as (i & m & q & b & ? & ? & ? & ? & ?); exists i, m, q, b; split_and!; try done;
    [by apply manifest_at_mono | by apply qualification_at_mono].
Qed.

Lemma binding_at_mono k b :
  active_bindings d' !! k = active_bindings d !! k ->
  installed_artifacts d' !! artifact_key (ActiveArtifactBinding.artifact_id b)
    = installed_artifacts d !! artifact_key (ActiveArtifactBinding.artifact_id b) ->
  (invalidated d' (ActiveArtifactBinding.qualification_id b) -> invalidated d (ActiveArtifactBinding.qualification_id b)) ->
  binding_at d k b -> binding_at d' k b.
Proof.
  intros Hb Hi Hv (row & E & Hs & Hk & Ha & Hqk & Hn & i & e & q & Hi' & Hq' & Hac); exists row; rewrite Hb.
  split_and!; try done; [by intros H; apply Hn, Hv |]; exists i, e, q; split_and!; [| by apply qualification_at_mono | done].
  by apply installed_at_mono.
Qed.

End Mono.

Lemma elem_without test d k row :
  active_bindings (without_bindings test d) !! k = Some row <-> active_bindings d !! k = Some row /\ test k row = false.
Proof. cbn; apply map_lookup_filter_Some. Qed.
(** ** The invariant survives every change *)

(** The clauses whose tables did not change. *)
Ltac unchanged Hd :=
  first
  [ let H := fresh in pose proof (inv_invalidation _ Hd) as H; eapply invalidations_mono; [| exact H]; done
  | let k := fresh "k" in let row := fresh "row" in let H := fresh "H" in
    intros k row H;
    match type of H with
    | artifact_manifests _ !! _ = _ => destruct (inv_manifest _ Hd _ _ H) as [? ?]; eexists; by eapply manifest_at_mono
    | installed_artifacts _ !! _ = _ =>
        let Hf := fresh in destruct (inv_installed _ Hd _ _ H) as (Hf & ? & ?); split; [exact Hf |]; eexists;
        eapply installed_at_mono; [| | eassumption]; done
    | artifact_removals _ !! _ = _ =>
        destruct (inv_removal _ Hd _ _ H) as (? & ? & ?); do 2 eexists; eapply removal_at_mono; [| | eassumption]; done
    | qualification_records _ !! _ = _ =>
        destruct (inv_qualification _ Hd _ _ H) as (? & ? & ? & ? & ?); do 2 eexists; split; [eassumption |]; split;
        [eapply qualification_at_mono; [| eassumption] | eapply qualification_row_mono; [| eassumption]]; done
    | active_bindings _ !! _ = _ =>
        destruct (inv_binding _ Hd _ _ H) as [? ?]; eexists; eapply binding_at_mono; [| | | | | eassumption]; done
    | activation_decisions _ !! _ = _ =>
        let Hr := fresh in pose proof (inv_decision _ Hd _ _ H) as Hr; eapply decision_row_mono; [| | exact Hr]; done
    end ].

Section Preserved.
Context (d : Db) (Hd : inv d).

Lemma inv_add_manifest k m row :
  artifact_manifests d !! k = None -> stored m row -> ArtifactManifest.validate m = Ok tt ->
  artifact_key (ArtifactManifest.artifact_id m) = k -> inv (set_manifests (<[k := row]> (artifact_manifests d)) d).
Proof.
  intros Hn Hs Hv Hk; assert (Hsub : artifact_manifests d ⊆ <[k := row]> (artifact_manifests d)) by by apply insert_subseteq.
  split; [| unchanged Hd ..]; cbn; intros k' row'; rewrite lookup_insert; case_decide as E; [subst; intros [= <-] |].
  - exists m, row; split_and!; try done; cbn; by rewrite lookup_insert, decide_True.
  - intros H; destruct (inv_manifest d Hd _ _ H) as [m' Hm]; exists m'; by apply (manifest_at_mono d).
Qed.

Lemma inv_add_installed k i row :
  installed_artifacts d !! k = None -> stored i (in_record row) -> artifact_at d k i (in_epoch row) ->
  epoch_follows (artifact_removals d !! k) (in_epoch row) ->
  inv (set_installed (<[k := row]> (installed_artifacts d)) d).
Proof.
  intros Hn Hs Ha Hf; split; [unchanged Hd | | unchanged Hd | unchanged Hd | unchanged Hd | | unchanged Hd].
  - cbn; intros k' row'; rewrite lookup_insert; case_decide as E; [subst; intros [= <-] |].
    + split; [done |]; exists i, row; split_and!; try done; [cbn; by rewrite lookup_insert, decide_True | by apply (artifact_at_mono d)].
    + intros H; destruct (inv_installed d Hd _ _ H) as (Hf' & i' & Hi'); split; [done |]; exists i'.
      apply (installed_at_mono d); [done | cbn; by rewrite lookup_insert_ne | done].
  - intros k' row' H; destruct (inv_binding d Hd _ _ H) as [b Hb]; exists b.
    apply (binding_at_mono d); try done; cbn; rewrite lookup_insert_ne; [done |]; intros ->.
    destruct Hb as (? & _ & _ & _ & _ & _ & _ & i' & e' & q' & (? & E & _) & _); rewrite Hn in E; done.
Qed.

Lemma inv_add_qualification id q row :
  qualification_records d !! qualification_key id = None -> stored q (qr_record row) ->
  QualificationRecord.qualification_id q = Ok id -> qualification_row d row q ->
  inv (set_qualifications (<[qualification_key id := row]> (qualification_records d)) d).
Proof.
  intros Hn Hs Hid Hrow.
  assert (Hsub : qualification_records d ⊆ <[qualification_key id := row]> (qualification_records d)) by by apply insert_subseteq.
  split; [unchanged Hd | unchanged Hd | unchanged Hd | | unchanged Hd | unchanged Hd | unchanged Hd].
  cbn; intros k' row'; rewrite lookup_insert; case_decide as E; [subst; intros [= <-] |].
  - exists id, q; split_and!; [done | | by apply (qualification_row_mono d)].
    exists row; split_and!; try done; cbn; by rewrite lookup_insert, decide_True.
  - intros H; destruct (inv_qualification d Hd _ _ H) as (id' & q' & E' & Hq & Hr); exists id', q'.
    split_and!; [done | by apply (qualification_at_mono d) | by apply (qualification_row_mono d)].
Qed.

Lemma inv_add_invalidation id row :
  invalidation_row row -> iv_qualification_id row = qualification_key id ->
  is_Some (qualification_records d !! qualification_key id) ->
  inv (without_bindings (fun _ b => text_eqb (br_qualification_id b) (qualification_key id))
         (set_invalidations (qualification_invalidations d ++ [row]) d)).
Proof.
  intros Hr Hk Hq; split; [unchanged Hd | unchanged Hd | unchanged Hd | unchanged Hd | | | unchanged Hd].
  - cbn; apply Forall_app; split; [apply (inv_invalidation d Hd) |]; constructor; [| constructor]; by rewrite Hk.
  - intros k' row' H; apply elem_without in H as [H Ht]; cbn [active_bindings set_invalidations] in H.
    destruct (inv_binding d Hd _ _ H) as [b Hb]; exists b; apply (binding_at_mono d); try done.
    + rewrite H; apply elem_without; done.
    + intros (r & Hr' & E); cbn in Hr'; apply elem_of_app in Hr' as [Hr'|Hr']; [by exists r |].
      apply list_elem_of_singleton in Hr' as ->; destruct Hb as (row'' & E' & _ & _ & _ & Eq & _).
      rewrite H in E'; injection E' as <-; rewrite Eq, <- E, Hk, text_eqb_refl in Ht; done.
Qed.

Lemma inv_prepare k i e row :
  installed_at d k i e ->
  stored (ArtifactRemovalRecord.mk REMOVAL_RECORD_SCHEMA_VERSION i e Prepared) (rm_record row) ->
  rm_epoch row = e -> rm_phase row = phase_key Prepared ->
  (forall r b, binding_at d r b -> artifact_key (ActiveArtifactBinding.artifact_id b) <> k) ->
  inv (set_installed (delete k (installed_artifacts d)) (set_removals (<[k := row]> (artifact_removals d)) d)).
Proof.
  intros Hi Hs He Hp Hb; assert (Hart : artifact_at d k i e) by (by destruct Hi as (? & _ & _ & _ & ?)).
  split; [unchanged Hd | | | unchanged Hd | unchanged Hd | | unchanged Hd].
  - cbn; intros k' row'; rewrite lookup_delete; case_decide as E; [done |]; intros H.
    destruct (inv_installed d Hd _ _ H) as (Hf & i' & Hi'); rewrite lookup_insert_ne by done; split; [done |]; exists i'.
    apply (installed_at_mono d); [done | cbn; by rewrite lookup_delete_ne | done].
  - cbn; intros k' row'; rewrite lookup_insert; case_decide as E; [subst; intros [= <-] |].
    + exists i, Prepared, row; cbn; rewrite lookup_insert, decide_True by done; split_and!; try done; by apply (artifact_at_mono d).
    + intros H; destruct (inv_removal d Hd _ _ H) as (i' & p & Hr); exists i', p.
      apply (removal_at_mono d); [done | cbn; by rewrite lookup_insert_ne | done].
  - intros k' row' H; destruct (inv_binding d Hd _ _ H) as [b Hb']; exists b; apply (binding_at_mono d); try done.
    cbn; rewrite lookup_delete_ne; [done |]; intros E; by apply (Hb k' b).
Qed.

Lemma inv_complete k i e row :
  removal_at d k i e Prepared -> installed_artifacts d !! k = None ->
  stored (ArtifactRemovalRecord.mk REMOVAL_RECORD_SCHEMA_VERSION i e Completed) (rm_record row) ->
  rm_epoch row = e -> rm_phase row = phase_key Completed ->
  inv (set_removals (<[k := row]> (artifact_removals d)) d).
Proof.
  intros Hrm Hi Hs He Hp; assert (Hart : artifact_at d k i e) by (by destruct Hrm as (? & _ & _ & _ & _ & ?)).
  split; [unchanged Hd | | | unchanged Hd | unchanged Hd | unchanged Hd | unchanged Hd].
  - cbn; intros k' row' H; destruct (inv_installed d Hd _ _ H) as (Hf & i' & Hi').
    rewrite lookup_insert_ne by congruence; split; [done |]; exists i'; by apply (installed_at_mono d).
  - cbn; intros k' row'; rewrite lookup_insert; case_decide as E; [subst; intros [= <-] |].
    + exists i, Completed, row; cbn; rewrite lookup_insert, decide_True by done; split_and!; try done; by apply (artifact_at_mono d).
    + intros H; destruct (inv_removal d Hd _ _ H) as (i' & p & Hr); exists i', p.
      apply (removal_at_mono d); [done | cbn; by rewrite lookup_insert_ne | done].
Qed.

Lemma inv_change d' : change d d' -> inv d'.
Proof.
  intros [| | | |k row Hn Hrow|b row i e q Hs Ha Hq Hni Hi Hqa Hac|role| |].
  - by eapply inv_add_manifest.
  - by eapply inv_add_installed.
  - by eapply inv_add_qualification.
  - by apply inv_add_invalidation.
  - split; [unchanged Hd .. |]; cbn; intros k' row'; rewrite lookup_insert; case_decide as E; [subst; intros [= <-] |].
    + by apply (decision_row_mono d).
    + intros H; apply (decision_row_mono d); [done | done |]; by apply (inv_decision d Hd).
  - split; [unchanged Hd | unchanged Hd | unchanged Hd | unchanged Hd | unchanged Hd | | unchanged Hd].
    cbn; intros k' row'; rewrite lookup_insert; case_decide as E; [subst; intros [= <-] |].
    + exists b, row; split_and!; try done; [cbn; by rewrite lookup_insert, decide_True |]; exists i, e, q; split_and!; try done.
      by apply (installed_at_mono d).
    + intros H; destruct (inv_binding d Hd _ _ H) as [b' Hb]; exists b'; apply (binding_at_mono d); try done.
      cbn; by rewrite lookup_insert_ne.
  - split; [unchanged Hd | unchanged Hd | unchanged Hd | unchanged Hd | unchanged Hd | | unchanged Hd].
    intros k' row' H; pose proof H as H'; apply elem_without in H' as [H' _].
    destruct (inv_binding d Hd _ _ H') as [b' Hb]; exists b'; apply (binding_at_mono d); try done; by rewrite H.
  - by eapply inv_prepare.
  - by eapply inv_complete.
Qed.

End Preserved.

End Store.
