(* ===== verification/StoreOps.v ===== *)
(** * What the operations of the model store do.

    Every operation that succeeds is a sequence of the changes of
    [StoreSteps]; with any other outcome the database is as it was. *)

From S2P Require Import Prelude Text Document Claims Json Extractor Model ModelJson StoreDb ModelStore StoreMonad StoreInv StoreSteps.

Section Store.
Context {SHA : Sha256} {JSON : JsonCodec}.

(** Follow a computation that succeeds through its first step. *)
Ltac step H :=
  let a := fresh "a" in let d1 := fresh "d" in let E := fresh "E" in
  apply pure_bind_ok in H as (a & d1 & E & H); [| tame ..].
Ltac step_lift H :=
  let a := fresh "a" in let d1 := fresh "d" in let E := fresh "E" in
  apply pure_bind_ok in H as (a & d1 & E & H); [| tame ..]; rewrite pure_lift in E; injection E as E <-.
Ltac step_query H :=
  let E := fresh "E" in
  apply pure_bind_ok in H as (? & ? & E & H); [| tame ..]; rewrite pure_query in E; injection E as <- <-.

(** Changes that touch neither installations nor removals, and at most one
    change after them. *)
Definition quiet (d d' : Db) : Prop :=
  rtc change d d' /\ installed_artifacts d' = installed_artifacts d /\ artifact_removals d' = artifact_removals d.
Definition effect (d d' : Db) : Prop := exists d1, quiet d d1 /\ (d' = d1 \/ change d1 d').

Lemma effect_refl d : effect d d.
Proof. by exists d; split; [| left]. Qed.
Lemma effect_once d d' : change d d' -> effect d d'.
Proof. by exists d; split; [| right]. Qed.
Lemma effect_changes d d' : effect d d' -> rtc change d d'.
Proof. intros (d1 & [H _] & [->|H']); [done | by eapply rtc_r]. Qed.

(** ** Single statements *)

Lemma execute_ok f d a d' : pure (execute f) d = (Ok a, d') -> f d = Some (d', a).
Proof. rewrite pure_execute; destruct (f d) as [[d1 c]|]; [| done]; by intros [= -> ->]. Qed.

Lemma has_true {A} (t : gmap text A) k : has t k = true <-> is_Some (t !! k).
Proof. apply bool_decide_eq_true. Qed.
Lemma has_false {A} (t : gmap text A) k : has t k = false <-> t !! k = None.
Proof. unfold has; rewrite bool_decide_eq_false, eq_None_not_Some; done. Qed.

Lemma insert_manifest_ok key encoded d w d' :
  pure (insert_immutable insert_manifest_row select_manifest key encoded) d = (Ok w, d') ->
  (artifact_manifests d !! key = None /\ d' = set_manifests (<[key := encoded]> (artifact_manifests d)) d /\ w = Inserted) \/
  (artifact_manifests d !! key = Some encoded /\ d' = d /\ w = AlreadyPresent).
Proof.
  unfold insert_immutable; intros H; step H; apply execute_ok in E; unfold insert_manifest_row in E.
  destruct (negb _); [done |]; destruct (has (artifact_manifests d) key) eqn:Eh; injection E as <- <-; unfold immutable_disposition in H.
  - right; cbn [Z.eqb] in H; step_query H; step_lift H; unfold select_manifest in E; apply ok_or_ok in E.
    destruct (text_eqb a encoded) eqn:Et; [| done]; apply bool_decide_eq_true in Et as ->; rewrite pure_ret in H.
    injection H as <- <-; done.
  - left; apply has_false in Eh; cbn [Z.eqb Pos.eqb] in H; rewrite pure_ret in H; injection H as <- <-; done.
Qed.

Lemma put_manifest_changes m d w d' :
  typed m -> pure (put_manifest m) d = (Ok w, d') -> effect d d'.
Proof.
  intros Ht H; unfold put_manifest in H; step_lift H; apply map_err_ok in E; destruct a; step_lift H.
  apply insert_manifest_ok in H as [(Hn & -> & _)|(_ & -> & _)]; [| apply effect_refl].
  by apply effect_once, (change_manifest d _ m).
Qed.

(** A transaction that succeeds. *)
Lemma transaction_ok {A} (body : Sql (Outcome A)) d a d' :
  tame body -> pure (transaction body) d = (Ok a, d') ->
  exists o d1, pure body d = (Ok o, d1) /\
    match o with Commit b => a = b /\ d' = d1 | Dropped b => a = b /\ d' = d end.
Proof.
  intros Hb; rewrite pure_transaction by done; destruct (pure body d) as [[[b|b]| |] d1]; try done; intros [= -> ->]; by do 2 eexists.
Qed.

Lemma readonly_ok {A} (m : Sql A) d a d' : readonly m -> pure m d = (Ok a, d') -> d' = d.
Proof. intros Hm H; pose proof (readonly_pure m d Hm) as Hr; by rewrite H in Hr. Qed.

(** Through a step that reads only. *)
Ltac step_read H :=
  let a := fresh "a" in let d1 := fresh "d" in let E := fresh "E" in
  apply pure_bind_ok in H as (a & d1 & E & H); [| tame ..];
  let Hr := fresh in assert (Hr := E); apply readonly_ok in Hr; [| readonly]; subst d1.

(** A manifest that was read is in its table. *)
Lemma manifest_read id d m d' :
  inv d -> pure (manifest id) d = (Ok (Some m), d') -> manifest_at d (artifact_key id) m.
Proof.
  intros Hd H; unfold manifest in H; step_read H; destruct (load_manifest_inv d Hd (artifact_key id)) as (o & Eo & Ho).
  rewrite Eo in E; injection E as ->; destruct a as [m'|]; [| done]; step_lift H; destruct (bool_decide _); [| done].
  rewrite pure_ret in H; by injection H as -> _.
Qed.

Lemma put_qualification_changes q d w d' :
  inv d -> typed q -> pure (put_qualification q) d = (Ok w, d') -> effect d d'.
Proof.
  intros Hd Ht H; unfold put_qualification in H; step_lift H; step_read H; step_lift H.
  apply ok_or_ok in E1; subst; apply manifest_read in E0; [| done]; destruct (negb _) eqn:Edig; [done |]; apply negb_false_iff, bool_decide_eq_true in Edig.
  step_lift H; apply map_err_ok in E1; step_lift H; step H; apply execute_ok in E3.
  unfold insert_qualification_row in E3; destruct (negb _); [done |]; destruct (has (qualification_records d) _) eqn:Eh.
  - injection E3 as <- <-; unfold immutable_disposition in H; cbn [Z.eqb] in H; step_query H; step_lift H.
    destruct (text_eqb _ _); [| done]; rewrite pure_ret in H; injection H as <- <-; apply effect_refl.
  - destruct (negb _); [done |]; injection E3 as <- <-; unfold immutable_disposition in H; cbn [Z.eqb Pos.eqb] in H.
    rewrite pure_ret in H; injection H as <- <-; apply has_false in Eh; apply effect_once, (change_qualification d _ q); try done.
    split; [done |]; eexists; split; [exact E0 | done].
Qed.

Lemma delete_bindings_ok test d c d' : delete_binding_rows test d = Some (d', c) -> d' = without_bindings test d.
Proof. by intros [= <- _]. Qed.

Lemma invalidate_changes i d w d' :
  typed i -> pure (invalidate i) d = (Ok w, d') ->
  exists row, iv_qualification_id row = qualification_key (QualificationInvalidation.qualification_id i) /\
    invalidation_row row /\ is_Some (qualification_records d !! iv_qualification_id row) /\
    d' = without_bindings (fun _ b => text_eqb (br_qualification_id b)
                                       (qualification_key (QualificationInvalidation.qualification_id i)))
           (set_invalidations (qualification_invalidations d ++ [row]) d).
Proof.
  intros Ht H; unfold invalidate in H; step_lift H; apply map_err_ok in E; destruct a; step_lift H.
  apply transaction_ok in H as (o & d1 & H & Ho); [| tame]; step_read H; step_lift H; step H; apply execute_ok in E3.
  unfold insert_invalidation_row in E3; destruct (_ || _) eqn:Eq; [done |]; apply orb_false_iff in Eq as [_ Eq]; injection E3 as <- <-; step H.
  apply execute_ok, delete_bindings_ok in E3; rewrite pure_ret in H; injection H as <- <-; destruct Ho as [_ ->]; subst.
  eexists; split; [| split; [| split; [| reflexivity]]]; [done | exists i; split_and!; done |].
  apply negb_false_iff in Eq; unfold has in Eq; cbn [iv_qualification_id] in *; by destruct (qualification_records d !! _).
Qed.

(** ** Activation *)

Lemma sha256_typed b : digest_typed (sha256 b).
Proof.
  destruct (sha256_hex_format b) as [Hl Hh]; unfold digest_typed, Digest.from_sha256_hex, sha256; cbn [Digest.as_str].
  rewrite Hh; assert (slen (sha256_hex b) = 64) as ->; [| done].
  enough (H : forall s, forallb Digest.is_hex_digit s = true -> slen s = vlen s) by (rewrite H by done; unfold vlen; lia).
  clear; induction s as [|c s IH]; [done |]; cbn [forallb slen]; intros H; apply andb_true_iff in H as [Hc Hs].
  rewrite IH by done; unfold vlen; cbn [length]; unfold Digest.is_hex_digit, is_ascii_digit in Hc.
  rewrite orb_true_iff, !in_range_true in Hc; unfold len_utf8; rewrite (proj2 (Z.ltb_lt c 128)) by lia; lia.
Qed.

Lemma activate_shape i q l role b :
  Model.activate i q l role = Ok b ->
  exists id, QualificationRecord.qualification_id q = Ok id /\
    b = ActiveArtifactBinding.mk role (InstalledArtifact.artifact_id i) id (InstalledArtifact.artifact_digest i) /\
    Forall (fun x => QualificationInvalidation.qualification_id x <> id) l.
Proof.
  unfold Model.activate; intros H; apply bind_ok in H as ([] & _ & H); destruct (_ || _); [done |].
  apply bind_ok in H as (id & Hid & H); apply map_err_ok in Hid; destruct (existsb _ l) eqn:E; [done |].
  destruct (QualificationRecord.authorizes _ _ _); [| done]; cbn in H; injection H as <-; exists id; split_and!; [done | done |].
  apply Forall_forall; intros x Hx Hn; apply not_true_iff_false in E; apply E, existsb_exists; exists x.
  split; [by apply list_elem_of_In | by apply bool_decide_eq_true].
Qed.

Lemma binding_is_typed i q l role b : installed_typed i -> Model.activate i q l role = Ok b -> binding_typed b.
Proof.
  intros [Hi Hd _] H; apply activate_shape in H as (id & Hid & -> & _); split; cbn; try done.
  unfold QualificationRecord.qualification_id in Hid; apply bind_ok in Hid as (_ & _ & [= <-]); apply sha256_typed.
Qed.

(** Nothing is written before the decision and the binding. *)
Lemma insert_decision_ok decision d w d' :
  pure (insert_decision decision) d = (Ok w, d') ->
  exists record, activation_decisions d !! activation_key (ActivationDecision.activation_id decision) = None /\
    encode_record decision = Ok record /\
    d' = set_decisions (<[activation_key (ActivationDecision.activation_id decision) :=
           {| dr_role := machine_name (ActivationDecision.role decision); dr_record := record |}]> (activation_decisions d)) d.
Proof.
  intros H; unfold insert_decision in H; step_lift H; step H; apply execute_ok in E0; unfold insert_decision_row in E0.
  destruct (_ || _) eqn:Ec; [done |]; apply orb_false_iff in Ec as [_ Eh]; apply has_false in Eh; injection E0 as <- <-.
  rewrite pure_ret in H; injection H as <- <-; eauto.
Qed.

(** The decision an activation puts on record. *)
Definition activation_of (a : ActivationId.t) (b : ActiveArtifactBinding.t) : ActivationDecision.t :=
  ActivationDecision.mk a Activate (ActiveArtifactBinding.role b) (Some (ActiveArtifactBinding.artifact_id b))
    (Some (ActiveArtifactBinding.qualification_id b)).

(** What an activation read and wrote. *)
Lemma activate_ok a role i id d b d' :
  inv d -> pure (activate a role i id) d = (Ok b, d') ->
  exists e q drec brec, installed_at d (artifact_key (InstalledArtifact.artifact_id i)) i e /\ qualification_at d id q /\
    ~ invalidated d id /\ Model.activate i q [] role = Ok b /\ activation_decisions d !! activation_key a = None /\
    encode_record b = Ok brec /\ encode_record (activation_of a b) = Ok drec /\
    d' = set_bindings (<[machine_name role :=
           {| br_artifact_id := artifact_key (ActiveArtifactBinding.artifact_id b);
              br_qualification_id := qualification_key (ActiveArtifactBinding.qualification_id b);
              br_record := brec |}]> (active_bindings d))
           (set_decisions (<[activation_key a := {| dr_role := machine_name role; dr_record := drec |}]> (activation_decisions d)) d).
Proof.
  intros Hd H; unfold activate in H; step_lift H; apply transaction_ok in H as (o & d1 & H & Ho); [| tame]; step_read H.
  apply with_state_ok in H as (om & oi & orm & Hl & H); [| done | tame].
  destruct (match orm with Some r => bool_decide (StoredArtifactRemoval.phase r = Prepared) | None => false end); [done |].
  step_lift H; apply ok_or_ok in E1; destruct oi as [[i' [e]]|]; [| done]; injection E1 as <-.
  cbn [StoredArtifactInstallation.installed] in H; destruct (bool_decide (i' = i)) eqn:Ei; [| done]; apply bool_decide_eq_true in Ei as ->.
  cbn [negb] in H; step_read H; step_lift H; apply ok_or_ok in E2 as ->.
  destruct (load_qualification_inv _ Hd id) as (oq & Eq & Hq); rewrite Eq in E1; injection E1 as ->.
  step_read H; destruct (load_invalidations_inv _ Hd id) as (l & El & Hli & Hn); rewrite El in E1; injection E1 as <-.
  step_lift H; apply map_err_ok in E1; step_lift H; step H; apply insert_decision_ok in E3 as (drec & Hdn & Hdr & ->).
  step_lift H; step H; apply execute_ok in E4; rewrite pure_ret in H; injection H as <- <-; destruct Ho as [-> ->].
  unfold upsert_binding_row in E4; destruct (_ || _); [done |]; injection E4 as <- _.
  assert (l = []) as ->.
  { destruct (activate_shape _ _ _ _ _ E1) as (id' & Hid & _ & Hf); destruct Hq as (_ & _ & _ & Hqid); rewrite Hid in Hqid.
    injection Hqid as ->; destruct l as [|x l]; [done |]; apply Forall_cons in Hf as [Hf _]; by apply Forall_cons in Hli as [? _]. }
  destruct Hl as [_ [Hi _] _]; do 4 eexists; split_and!; [exact Hi | exact Hq | by apply Hn | exact E1 | exact Hdn | exact E3 | | done].
  unfold activation_of; destruct (activate_shape _ _ _ _ _ E1) as (? & _ & -> & _); exact Hdr.
Qed.

Lemma activate_changes a role i id d b d' :
  inv d -> pure (activate a role i id) d = (Ok b, d') ->
  effect d d' /\ binding_at d' (machine_name role) b /\ ActiveArtifactBinding.qualification_id b = id.
Proof.
  intros Hd H; apply activate_ok in H as (e & q & drec & brec & Hi & Hq & Hn & Ha & Hdn & Hb & Hdr & ->); [| done].
  set (row := {| br_record := brec |}); set (d1 := set_decisions _ d).
  assert (Hst : stored b brec).
  { split; [| done]; eapply binding_is_typed; [| exact Ha]; destruct Hi as (? & _ & [? _] & _); done. }
  destruct (activate_shape _ _ _ _ _ Ha) as (id' & Hid & Eb & _).
  assert (id' = id) as -> by (destruct Hq as (_ & _ & _ & Hqid); congruence).
  assert (Hc : change d1 (set_bindings (<[machine_name role := row]> (active_bindings d1)) d1)).
  { replace role with (ActiveArtifactBinding.role b) by by rewrite Eb.
    subst b; eapply (change_bind d1 _ row i e q); [done .. | by apply (installed_at_mono d) | done | done]. }
  assert (Hdec : change d d1).
  { apply change_decision; [done |]; exists (activation_of a b); rewrite Eb in *; cbn [activation_of ActivationDecision.activation_id
      ActivationDecision.role ActiveArtifactBinding.role dr_role dr_record]; split_and!; try done.
    - intros Hda; split; [| done]; destruct Hst as [[? ? ?] _]; split; done.
    - destruct Hi as (row' & _ & _ & _ & [_ _ _ (m & Hm & Hmatch)]); exists i, m, q; eexists; split_and!; done. }
  split; [by eexists; split; [split; [by apply rtc_once | done] | right] |]; split; [| by rewrite Eb].
  assert (Hd' : inv (set_bindings (<[machine_name role := row]> (active_bindings d1)) d1)) by (apply (inv_change d1); [by apply (inv_change d) | done]).
  edestruct (inv_binding _ Hd' (machine_name role)) as [b' Hb']; [cbn; by rewrite lookup_insert, decide_True |].
  assert (b' = b) as <-; [| done]; destruct Hb' as (r & Er & Hs & _); cbn in Er; rewrite lookup_insert, decide_True in Er by done.
  injection Er as <-; by apply (stored_inj _ _ brec).
Qed.

Lemma deactivate_changes a role d w d' :
  pure (deactivate a role) d = (Ok w, d') ->
  effect d d' /\ active_bindings d' !! machine_name role = None.
Proof.
  intros H; unfold deactivate in H; apply transaction_ok in H as (o & d1 & H & Ho); [| tame].
  step_read H; step_query H; step_read H; step_lift H; step H; apply insert_decision_ok in E2 as (drec & Hn & Hdr & ->).
  step H; apply execute_ok, delete_bindings_ok in E2; rewrite pure_ret in H; injection H as <- <-; destruct Ho as [_ ->]; subst.
  split.
  - eexists; split; [split; [apply rtc_once, change_decision | done] | right; apply (change_unbind _ role)]; [done |].
    exists (ActivationDecision.mk a Deactivate role None None); split_and!; try done; by intros Hda; split.
  - apply eq_None_not_Some; intros [row' Hr]; apply elem_without in Hr as [_ Hr]; by rewrite text_eqb_refl in Hr.
Qed.

(** ** Installation *)

Lemma installation_input_ok m i :
  validate_installation_input m i = Ok tt ->
  ArtifactManifest.validate m = Ok tt /\ InstalledArtifact.validate i = Ok tt /\ matches i m.
Proof.
  unfold validate_installation_input; intros H; apply bind_ok in H as ([] & Hm & H); apply bind_ok in H as ([] & Hi & H).
  apply map_err_ok in Hm, Hi; destruct (_ || _) eqn:E; [done |]; zbool; split_and!; try done.
Qed.

(** The manifest is in place after the first write. *)
Lemma ensure_manifest m row om d w d' :
  stored m row -> ArtifactManifest.validate m = Ok tt ->
  match om with
  | Some existing => manifest_at d (artifact_key (ArtifactManifest.artifact_id m)) existing /\ existing = m
  | None => True
  end ->
  pure (match om with
        | Some _ => mret AlreadyPresent
        | None => insert_immutable insert_manifest_row select_manifest (artifact_key (ArtifactManifest.artifact_id m)) row
        end) d = (Ok w, d') ->
  rtc change d d' /\ manifest_at d' (artifact_key (ArtifactManifest.artifact_id m)) m /\
  installed_artifacts d' = installed_artifacts d /\ artifact_removals d' = artifact_removals d /\
  active_bindings d' = active_bindings d.
Proof.
  intros Hs Hv Hom H; destruct om as [existing|].
  - rewrite pure_ret in H; injection H as <- <-; destruct Hom as [Hm ->]; done.
  - apply insert_manifest_ok in H as [(Hn & -> & _)|(E & -> & _)].
    + split; [by apply rtc_once, (change_manifest d _ m) |]; split; [| done]; exists row; split_and!; try done.
      cbn; by rewrite lookup_insert, decide_True.
    + split_and!; try done; by exists row.
Qed.

(** The epoch after the last removal. *)
Lemma next_epoch_ok d k orm e d' :
  match orm with
  | Some r => removal_at d k (StoredArtifactInstallation.installed (StoredArtifactRemoval.selection r))
                (Epoch.get (StoredArtifactInstallation.epoch (StoredArtifactRemoval.selection r)))
                (StoredArtifactRemoval.phase r)
  | None => artifact_removals d !! k = None
  end ->
  match orm with Some r => bool_decide (StoredArtifactRemoval.phase r = Prepared) | None => false end = false ->
  forall d1, pure (match orm with
        | Some record => lift (Epoch.next (StoredArtifactInstallation.epoch (StoredArtifactRemoval.selection record)))
        | None => mret Epoch.first
        end) d1 = (Ok e, d') ->
  d' = d1 /\ epoch_follows (artifact_removals d !! k) (Epoch.get e).
Proof.
  intros Hr Hp d1 H; destruct orm as [[[i [e0]] p]|]; cbn [StoredArtifactRemoval.selection StoredArtifactRemoval.phase
    StoredArtifactInstallation.installed StoredArtifactInstallation.epoch Epoch.get] in *.
  - rewrite pure_lift in H; injection H as H <-; split; [done |]; destruct Hr as (row & -> & _ & He & Hph & _).
    apply bool_decide_eq_false in Hp; unfold Epoch.next in H; apply ok_or_ok, bind_Some in H as (v & Hv & H).
    apply bind_Some in H as (v' & Hv' & [= <-]); unfold checked_add, try_from in *; cbn [Epoch.get] in *.
    destruct (e0 + 1 <=? u64_max); [| done]; injection Hv as <-; destruct (_ && _); [| done]; injection Hv' as <-.
    cbn; rewrite Hph, He; split; [by destruct p | done].
  - rewrite pure_ret in H; injection H as <- <-; by rewrite Hr.
Qed.

Lemma database_value_ok e v : Epoch.database_value e = Ok v -> v = Epoch.get e.
Proof. unfold Epoch.database_value; intros H; apply ok_or_ok in H; unfold try_from in H; destruct (_ && _); [by injection H | done]. Qed.

Lemma put_installation_changes m i d w d' :
  typed m -> typed i -> inv d -> pure (put_installation m i) d = (Ok w, d') ->
  effect d d' /\ StoredArtifactInstallation.installed (installation w) = i /\
  installed_at d' (artifact_key (InstalledArtifact.artifact_id i)) i (Epoch.get (StoredArtifactInstallation.epoch (installation w))) /\
  forall k, k <> artifact_key (InstalledArtifact.artifact_id i) -> installed_artifacts d' !! k = installed_artifacts d !! k.
Proof.
  intros Htm Hti Hd H; unfold put_installation in H; step_lift H; destruct a; apply installation_input_ok in E as (Hvm & Hvi & Hma).
  step_lift H; step_lift H; apply transaction_ok in H as (o & d1 & H & Ho); [| tame].
  apply with_state_ok in H as (om & oi & orm & Hl & H); [| done | tame].
  destruct (match orm with Some r => bool_decide (StoredArtifactRemoval.phase r = Prepared) | None => false end) eqn:Hp.
  { by destruct (bool_decide (is_Some oi)). }
  destruct (match oi with Some _ => _ | None => _ end); [done |]; step_lift H; step_read H.
  destruct a2; [done |]; destruct (_ || _) eqn:Ec; [done |]; apply orb_false_iff in Ec as [Ecm Eci]; step H.
  pose proof Hl as [Hlm Hli Hlr]; destruct Hma as (Ha1 & Ha2 & Ha3).
  assert (Hem := ensure_manifest m a om d a2 d0 (conj Htm E) Hvm); destruct Hem as (Hrtc & Hmd & Ein & Erm & Ebn); [| done |].
  { destruct om as [existing|]; [| done]; split; [done |]; apply negb_false_iff, bool_decide_eq_true in Ecm; done. }
  rewrite Ha1 in *; step H; rewrite pure_ret in H; injection H as <- <-; destruct Ho as [-> ->]; cbn [installation StoredArtifactInstallation.installed
    StoredArtifactInstallation.epoch].
  destruct oi as [[i' [e']]|]; cbn [StoredArtifactInstallation.installed StoredArtifactInstallation.epoch fmap option_fmap option_map Epoch.get] in *.
  - rewrite pure_ret in E4; injection E4 as <- <-; apply negb_false_iff, bool_decide_eq_true in Eci as ->; cbn [snd].
    destruct Hli as [(row & Er & Hs & He & Hat) _]; split_and!; [by exists d0; split; [| left] | done | | by rewrite Ein]; exists row; rewrite Ein; split_and!; try done.
    destruct Hat as [He' Hv' Hk' _]; split; try done; exists m; split; [done | by split_and!].
  - step E4; destruct (next_epoch_ok d _ orm _ _ Hlr Hp _ E5) as [-> Hfol]; step_lift E4; apply database_value_ok in E6 as ->.
    step E4; rewrite pure_ret in E4; injection E4 as <- <-; cbn [snd]; apply execute_ok in E6; unfold insert_installed_row in E6.
    destruct (_ || _) eqn:Eck; [done |]; injection E6 as <- _; cbn [in_epoch in_record] in Eck.
    apply orb_false_iff in Eck as [Eck _]; apply orb_false_iff in Eck as [Eck Hno]; apply has_false in Hno.
    apply negb_false_iff in Eck; rewrite !andb_true_iff in Eck; destruct Eck as [[_ Hep] _].
    assert (Hat : artifact_at d0 (artifact_key (ArtifactManifest.artifact_id m)) i (Epoch.get a4)).
    { split; [| done | by rewrite Ha1 | exists m; split; [done | by split_and!]].
      by apply in_range_true in Hep. }
    split_and!; [| done | |].
    + exists d0; split; [done | right]; apply (change_install d0 _ i); cbn [in_epoch in_record]; [done | by split | done | by rewrite Erm].
    + eexists; split; [cbn; by rewrite lookup_insert, decide_True |]; split_and!; try done; by apply (artifact_at_mono d0).
    + intros k Hk; cbn [installed_artifacts set_installed]; by rewrite lookup_insert_ne, Ein by (by intros E'; apply Hk).
Qed.

(** ** Removal *)

(** The identifier under which a selection is stored, and its epoch. *)
Definition selection_key (s : StoredArtifactInstallation.t) : text :=
  artifact_key (InstalledArtifact.artifact_id (StoredArtifactInstallation.installed s)).
Definition selection_epoch (s : StoredArtifactInstallation.t) : Z := Epoch.get (StoredArtifactInstallation.epoch s).

Lemma write_removal_ok r d w d' :
  installed_typed (StoredArtifactInstallation.installed (StoredArtifactRemoval.selection r)) ->
  pure (write_removal r) d = (Ok w, d') ->
  exists row, epoch_ok (rm_epoch row) /\ rm_epoch row = selection_epoch (StoredArtifactRemoval.selection r) /\
    rm_phase row = phase_key (StoredArtifactRemoval.phase r) /\
    stored (ArtifactRemovalRecord.mk REMOVAL_RECORD_SCHEMA_VERSION
              (StoredArtifactInstallation.installed (StoredArtifactRemoval.selection r))
              (selection_epoch (StoredArtifactRemoval.selection r)) (StoredArtifactRemoval.phase r)) (rm_record row) /\
    d' = set_removals (<[selection_key (StoredArtifactRemoval.selection r) := row]> (artifact_removals d)) d.
Proof.
  intros Ht H; unfold write_removal in H; step_lift H; apply database_value_ok in E as ->; step_lift H; step H.
  rewrite pure_ret in H; injection H as <- <-; apply execute_ok in E0; unfold upsert_removal_row in E0.
  destruct (_ || _) eqn:Ec; [done |]; injection E0 as <- _; apply orb_false_iff in Ec as [Ec _].
  apply negb_false_iff in Ec; rewrite !andb_true_iff in Ec; destruct Ec as [[[_ He] _] _]; apply in_range_true in He; cbn [rm_epoch] in He.
  eexists; split_and!; cycle 4; [reflexivity | exact He | done | done |]; split; [| exact E].
  split; cbn; [unfold u32_typed, u32_max, REMOVAL_RECORD_SCHEMA_VERSION; lia | done |].
  unfold u64_typed, u64_max, i64_max, selection_epoch in *; lia.
Qed.

Lemma selection_eta s : s = StoredArtifactInstallation.mk (StoredArtifactInstallation.installed s) (Epoch.mk (selection_epoch s)).
Proof. by destruct s as [i [e]]. Qed.

Lemma revoke_changes oi s d o d' :
  inv d ->
  match oi with
  | Some s => installed_at d (selection_key s) (StoredArtifactInstallation.installed s) (selection_epoch s)
  | None => True
  end ->
  pure (revoke_installation oi s) d = (Ok o, d') ->
  o = Commit PreparationPrepared /\ change d d' /\
  installed_at d (selection_key s) (StoredArtifactInstallation.installed s) (selection_epoch s) /\
  removal_at d' (selection_key s) (StoredArtifactInstallation.installed s) (selection_epoch s) Prepared.
Proof.
  intros Hd Hoi H; unfold revoke_installation in H; destruct (bool_decide (oi = Some s)) eqn:Eo; [| done].
  apply bool_decide_eq_true in Eo as ->; cbn [negb] in H; step_read H; destruct a; pose proof (no_binding_ok d s Hd E) as Hnb.
  pose proof Hoi as (irow & Ei & [Hti _] & He & Hat); step H; apply write_removal_ok in E0 as (row & Hep & Hre & Hrp & Hrs & ->); [| done].
  step_lift H; apply database_value_ok in E0 as ->; step H; apply execute_ok in E0; unfold delete_installed_row in E0.
  cbn [installed_artifacts set_removals active_bindings] in E0; fold (selection_key s) in E0; rewrite Ei in E0.
  rewrite He in E0; unfold selection_epoch in E0; rewrite Z.eqb_refl in E0; cbn [negb] in E0; destruct (existsb _ _); [done |].
  injection E0 as <- <-; cbn [Z.eqb Pos.eqb negb] in H; rewrite pure_ret in H; injection H as <- <-.
  cbn [StoredArtifactRemoval.selection StoredArtifactRemoval.phase] in *; split_and!; [done | | done |].
  - apply (change_prepare d _ (StoredArtifactInstallation.installed s) (selection_epoch s) row); try done.
    intros r b Hb Hk; unfold selection_key in Hk; apply artifact_key_inj in Hk; by apply (Hnb r b).
  - exists row; cbn [artifact_removals set_installed set_removals]; rewrite lookup_insert, decide_True by done.
    split_and!; try done; by apply (artifact_at_mono d).
Qed.

Lemma loaded_selection d id om s orm :
  loaded d id om (Some s) orm ->
  installed_at d (selection_key s) (StoredArtifactInstallation.installed s) (selection_epoch s) /\ selection_key s = artifact_key id.
Proof. intros [_ [Hi _] _]; pose proof Hi as (row & _ & _ & _ & [_ _ Hk _]); unfold selection_key; by rewrite Hk. Qed.

Lemma prepare_changes s d w d' :
  inv d -> pure (prepare_artifact_removal s) d = (Ok w, d') ->
  exists p, removal_at d' (selection_key s) (StoredArtifactInstallation.installed s) (selection_epoch s) p /\
  match w with
  | PreparationPrepared =>
      change d d' /\ p = Prepared /\ installed_at d (selection_key s) (StoredArtifactInstallation.installed s) (selection_epoch s)
  | PreparationAlreadyPrepared => d' = d /\ p = Prepared
  | PreparationAlreadyCompleted => d' = d /\ p = Completed
  end.
Proof.
  intros Hd H; unfold prepare_artifact_removal in H; step_lift H; apply transaction_ok in H as (o & d1 & H & Ho); [| tame].
  apply with_state_ok in H as (om & oi & orm & Hl & H); [| done | tame].
  assert (Hrev : pure (revoke_installation oi s) d = (Ok o, d1) ->
    exists p, removal_at d' (selection_key s) (StoredArtifactInstallation.installed s) (selection_epoch s) p /\
    match w with
    | PreparationPrepared => change d d' /\ p = Prepared /\ installed_at d (selection_key s) (StoredArtifactInstallation.installed s) (selection_epoch s)
    | PreparationAlreadyPrepared => d' = d /\ p = Prepared | PreparationAlreadyCompleted => d' = d /\ p = Completed end).
  { intros Hr; apply revoke_changes in Hr as (-> & Hc & Hi & Hrm); [| done |].
    - destruct Ho as [-> ->]; by exists Prepared.
    - destruct oi as [s'|]; [| done]; by apply loaded_selection in Hl as [? _]. }
  destruct orm as [[s' p]|]; [| by apply Hrev]; cbn [StoredArtifactRemoval.selection StoredArtifactRemoval.phase] in H.
  destruct (bool_decide (s' = s)) eqn:Es; [| by apply Hrev]; apply bool_decide_eq_true in Es as ->.
  destruct Hl as [_ _ Hlr]; cbn [StoredArtifactRemoval.selection StoredArtifactRemoval.phase] in Hlr.
  destruct (bool_decide (p = Completed)) eqn:Ep.
  - apply bool_decide_eq_true in Ep as ->; rewrite pure_ret in H; injection H as <- <-; destruct Ho as [-> ->]; by exists Completed.
  - apply bool_decide_eq_false in Ep; step_read H; rewrite pure_ret in H; injection H as <- <-; destruct Ho as [-> ->].
    exists p; split; [done |]; by destruct p.
Qed.

Lemma complete_changes s d w d' :
  inv d -> pure (complete_artifact_removal s) d = (Ok w, d') ->
  (exists p, removal_at d (selection_key s) (StoredArtifactInstallation.installed s) (selection_epoch s) p) /\
  removal_at d' (selection_key s) (StoredArtifactInstallation.installed s) (selection_epoch s) Completed /\
  match w with
  | CompletionCompleted => change d d' /\ installed_artifacts d' = installed_artifacts d /\ active_bindings d' = active_bindings d
  | CompletionAlreadyCompleted => d' = d
  end.
Proof.
  intros Hd H; unfold complete_artifact_removal in H; apply transaction_ok in H as (o & d1 & H & Ho); [| tame].
  destruct (load_manifest_inv d Hd (selection_key s)) as (om & Em & Hm).
  destruct (load_installation_inv d Hd (InstalledArtifact.artifact_id (StoredArtifactInstallation.installed s))) as (oi & Ei & Hi).
  destruct (load_removal_inv d Hd (InstalledArtifact.artifact_id (StoredArtifactInstallation.installed s))) as (orm & Er & Hr).
  step_read H; step_read H; step_read H; rewrite Ei in E0; injection E0 as <-; rewrite Er in E1; injection E1 as <-.
  step_lift H; apply ok_or_ok in E0 as ->; step_lift H.
  match goal with r : StoredArtifactRemoval.t |- _ => destruct r as [s' p] end.
  cbn [StoredArtifactRemoval.selection StoredArtifactRemoval.phase] in *.
  destruct (bool_decide (s' = s)) eqn:Es; [| done]; apply bool_decide_eq_true in Es as ->; cbn [negb] in H.
  destruct (bool_decide (p = Completed)) eqn:Ep.
  { apply bool_decide_eq_true in Ep as ->; rewrite pure_ret in H; injection H as <- <-; destruct Ho as [-> ->]; split_and!; [by exists Completed | done | done]. }
  assert (p = Prepared) as -> by (apply bool_decide_eq_false in Ep; by destruct p).
  destruct (bool_decide (is_Some oi)) eqn:Eo; [done |]; step_read H; step H.
  pose proof Hr as (rrow & Err & [Hrt _] & Hre & Hrp & Hat); rewrite pure_ret in H; injection H as <- <-; destruct Ho as [-> ->].
  apply write_removal_ok in E2 as (row & Hep & Hne & Hnp & Hns & ->); [| by destruct Hrt].
  cbn [StoredArtifactRemoval.selection StoredArtifactRemoval.phase] in *; split; [by exists Prepared |]; split.
  - exists row; cbn [artifact_removals set_removals]; rewrite lookup_insert, decide_True by done; split_and!; try done.
    by apply (artifact_at_mono d).
  - split; [| done]; apply (change_complete d _ (StoredArtifactInstallation.installed s) (selection_epoch s) row); try done.
    destruct oi as [?|]; [apply bool_decide_eq_false in Eo; destruct Eo; eauto | done].
Qed.
End Store.
