(* ===== verification/StoreTheorems.v ===== *)
(** * The guarantees of the model store.

    Histories of operations from an empty database, run under any schedule of
    failures of SQLite, and what holds in all of them. *)

From S2P Require Import Prelude Text Document Claims Json Extractor Model ModelJson StoreDb ModelStore StoreMonad StoreInv StoreSteps StoreOps.

(** ** Histories *)

(** The operations of the store that write. *)
Module StoreOp.

Inductive t :=
| PutManifest (m : ArtifactManifest.t)
| PutInstallation (m : ArtifactManifest.t) (i : InstalledArtifact.t)
| PutQualification (q : QualificationRecord.t)
| Invalidate (i : QualificationInvalidation.t)
| Activate (a : ActivationId.t) (role : ArtifactRole) (i : InstalledArtifact.t) (q : QualificationId.t)
| Deactivate (a : ActivationId.t) (role : ArtifactRole)
| PrepareRemoval (s : StoredArtifactInstallation.t)
| CompleteRemoval (s : StoredArtifactInstallation.t).

(** The arguments are values of their Rust types. *)
Definition typed (o : t) : Prop :=
  match o with
  | PutManifest m => manifest_typed m
  | PutInstallation m i => manifest_typed m /\ installed_typed i
  | PutQualification q => qualification_typed q
  | Invalidate i => invalidation_typed i
  | _ => True
  end.

Definition run `{SHA : Sha256} `{JSON : JsonCodec} (o : t) : Sql unit :=
  match o with
  | PutManifest m => _ ← put_manifest m; mret tt
  | PutInstallation m i => _ ← put_installation m i; mret tt
  | PutQualification q => _ ← put_qualification q; mret tt
  | Invalidate i => invalidate i
  | Activate a role i q => _ ← activate a role i q; mret tt
  | Deactivate a role => deactivate a role
  | PrepareRemoval s => _ ← prepare_artifact_removal s; mret tt
  | CompleteRemoval s => _ ← complete_artifact_removal s; mret tt
  end.

End StoreOp.

(** ** The life of an artifact *)

Inductive Lifecycle := Absent | Installed (epoch : Z) | Removing (epoch : Z) | Removed (epoch : Z).

Inductive life_step : Lifecycle -> Lifecycle -> Prop :=
| life_install : life_step Absent (Installed 1)
| life_prepare e : life_step (Installed e) (Removing e)
| life_complete e : life_step (Removing e) (Removed e)
| life_reinstall e : e < i64_max -> life_step (Removed e) (Installed (e + 1)).

(** What the tables say about the artifact under a key. *)
Definition status (d : Db) (k : text) : Lifecycle :=
  match installed_artifacts d !! k, artifact_removals d !! k with
  | Some row, _ => Installed (in_epoch row)
  | None, Some row => if text_eqb (rm_phase row) (lit "prepared") then Removing (rm_epoch row) else Removed (rm_epoch row)
  | None, None => Absent
  end.

(** The place of a state in the life of an artifact. *)
Definition rank (l : Lifecycle) : Z :=
  match l with Absent => 0 | Installed e => 3 * e | Removing e => 3 * e + 1 | Removed e => 3 * e + 2 end.

Section Theorems.
Context {SHA : Sha256} {JSON : JsonCodec}.

(** An operation with any outcome, under any schedule of failures. *)
Definition store_step (d d' : Db) : Prop :=
  exists o fails n, StoreOp.typed o /\ d' = fst (snd (StoreOp.run o fails (d, n))).
Definition reachable : Db -> Prop := rtc store_step empty_db.

(** ** Lemmas *)

Lemma tame_run o : tame (StoreOp.run o).
Proof.
  destruct tame_operations as (H1 & H2 & H3 & H4 & H5 & H6 & H7 & H8 & _).
  destruct o; cbn [StoreOp.run]; first [apply H4 | apply H6 | apply tame_bind; [auto | intros; apply tame_ret]].
Qed.

Lemma atomic_last {A} (m : Sql A) : atomic m -> atomic (_ ← m; mret tt).
Proof.
  intros Hm fails s; specialize (Hm fails s); unfold mbind, sql_bind; by destruct (m fails s) as [[a|e|] s'].
Qed.

(** A guarded insertion writes only when nothing can fail after it. *)
Lemma atomic_insert f (g : Z -> Sql WriteDisposition) :
  (forall d d' c, f d = Some (d', c) -> (c = 1) \/ (c = 0 /\ d' = d)) ->
  (forall c, readonly (g c)) -> g 1 = mret Inserted -> atomic (changed ← execute f; g changed).
Proof.
  intros Hf Hr H1 fails [d n]; unfold mbind, sql_bind, execute; destruct (fails n); [done |].
  destruct (f d) as [[d' c]|] eqn:E; [| done]; apply Hf in E as [->|[-> ->]]; [by rewrite H1 |].
  specialize (Hr 0 fails (d, S n)); destruct (g 0 fails (d, S n)) as [[] [? ?]]; done.
Qed.

Lemma readonly_disposition select key encoded c : readonly (immutable_disposition select key encoded c).
Proof. unfold immutable_disposition; readonly. Qed.

Lemma manifest_counts key record d d' c : insert_manifest_row key record d = Some (d', c) -> c = 1 \/ c = 0 /\ d' = d.
Proof. unfold insert_manifest_row; destruct (negb _); [done |]; destruct (has _ _); intros [= <- <-]; auto. Qed.
Lemma qualification_counts key row d d' c : insert_qualification_row key row d = Some (d', c) -> c = 1 \/ c = 0 /\ d' = d.
Proof.
  unfold insert_qualification_row; destruct (negb _); [done |]; destruct (has _ _); [intros [= <- <-]; auto |].
  destruct (negb _); [done |]; intros [= <- <-]; auto.
Qed.

Lemma atomic_run o : atomic (StoreOp.run o).
Proof.
  destruct o; cbn [StoreOp.run]; try apply atomic_last;
    unfold put_manifest, put_installation, put_qualification, invalidate, activate, deactivate, prepare_artifact_removal,
      complete_artifact_removal; cbv zeta; repeat (apply atomic_bind; [by readonly | intros]); try apply atomic_transaction.
  - apply atomic_insert; [apply manifest_counts | intros; apply readonly_disposition | done].
  - destruct (negb _); [apply readonly_atomic; readonly |]; repeat (apply atomic_bind; [by readonly | intros]).
    apply atomic_insert; [apply qualification_counts | intros; apply readonly_disposition | done].
Qed.

Lemma pure_last {A} (m : Sql A) d u d' : tame m -> pure (_ ← m; mret tt) d = (Ok u, d') -> exists a, pure m d = (Ok a, d').
Proof. intros Hm H; apply pure_bind_ok in H as (a & d1 & E & H); [| tame ..]; rewrite pure_ret in H; injection H as _ <-; eauto. Qed.

Lemma run_effect o d d' : StoreOp.typed o -> inv d -> pure (StoreOp.run o) d = (Ok tt, d') -> effect d d'.
Proof.
  destruct tame_operations as (H1 & H2 & H3 & H4 & H5 & H6 & H7 & H8 & _).
  destruct o; cbn [StoreOp.run StoreOp.typed]; intros Ht Hd H; try (apply pure_last in H as [w H]; [| done]).
  - by eapply put_manifest_changes.
  - destruct Ht; by eapply put_installation_changes.
  - by eapply put_qualification_changes.
  - apply invalidate_changes in H as (row & Hk & Hr & Hs & ->); [| done]; apply effect_once, change_invalidate; try done; by rewrite <- Hk.
  - by eapply activate_changes.
  - by eapply deactivate_changes.
  - apply prepare_changes in H as (p & _ & H); [| done]; destruct w; destruct H as [H _]; [by apply effect_once | subst; apply effect_refl ..].
  - apply complete_changes in H as (_ & _ & H); [| done]; destruct w; [destruct H as [H _]; by apply effect_once | subst; apply effect_refl].
Qed.

Lemma step_effect d d' : inv d -> store_step d d' -> effect d d'.
Proof.
  intros Hd (o & fails & n & Ht & ->).
  destruct (sql_run_cases (StoreOp.run o) fails d n (tame_run o) (atomic_run o)) as [->|([] & d' & H & ->)]; [apply effect_refl |].
  by eapply run_effect.
Qed.

Lemma changes_inv d d' : inv d -> rtc change d d' -> inv d'.
Proof. intros Hd H; induction H as [|d d1 d' Hc _ IH]; [done |]; by apply IH, (inv_change d). Qed.

Lemma steps_inv d d' : inv d -> rtc store_step d d' -> inv d'.
Proof.
  intros Hd H; induction H as [|d d1 d' Hs _ IH]; [done |]; apply IH.
  by apply (changes_inv d), effect_changes, step_effect.
Qed.

Lemma store_reachable_inv d : reachable d -> inv d.
Proof. apply steps_inv, inv_empty. Qed.

(** One step of one operation, seen from the whole history. *)
Lemma run_step o fails d n r d' n' :
  StoreOp.typed o -> StoreOp.run o fails (d, n) = (r, (d', n')) -> store_step d d'.
Proof. intros Ht H; exists o, fails, n; split; [done |]; by rewrite H. Qed.

(** *** Invalidations stay *)

Lemma change_invalidated d d' id : change d d' -> invalidated d id -> invalidated d' id.
Proof. intros [] (r & Hr & E); exists r; split; try done; cbn; apply elem_of_app; by left. Qed.

Lemma steps_invalidated d d' id : inv d -> rtc store_step d d' -> invalidated d id -> invalidated d' id.
Proof.
  intros Hd H; induction H as [|d d1 d' Hs _ IH]; [done |]; intros Hi.
  pose proof (effect_changes _ _ (step_effect _ _ Hd Hs)) as Hc; apply IH; [by apply (changes_inv d) |].
  clear -Hc Hi; induction Hc as [|d d2 d1 Hc _ IH]; [done | by apply IH, (change_invalidated d)].
Qed.

(** *** The status follows the lifecycle *)

Lemma status_change d d' k : inv d -> change d d' -> status d' k = status d k \/ life_step (status d k) (status d' k).
Proof.
  intros Hd Hc; assert (Hd' := inv_change d Hd d' Hc); destruct Hc as [| k0 i row Hn Hs Ha Hf| | | | | | k0 i e row Hi Hs He Hp _| k0 i e row Hr Hi Hs He Hp];
    try (by left); destruct (decide (k0 = k)) as [->|Hne];
    try (left; unfold status; cbn; by rewrite ?lookup_insert_ne, ?lookup_delete_ne by done).
  - right; unfold status; cbn [installed_artifacts artifact_removals set_installed]; rewrite lookup_insert, decide_True, Hn by done.
    destruct (artifact_removals d !! k) as [r|]; cbn in Hf; [| rewrite Hf; constructor].
    destruct Hf as [Hph He]; rewrite Hph, He; cbn; constructor; destruct Ha as [[_ Hle] _ _ _]; lia.
  - right; unfold status; cbn [installed_artifacts artifact_removals set_installed set_removals].
    destruct Hi as (irow & -> & _ & <- & _); rewrite lookup_delete, lookup_insert, !decide_True by done; rewrite Hp, He; constructor.
  - right; unfold status; cbn [installed_artifacts artifact_removals set_removals]; rewrite Hi, lookup_insert, decide_True by done.
    destruct Hr as (rrow & -> & _ & <- & -> & _); rewrite Hp, He; constructor.
Qed.

Lemma life_rank l l' : life_step l l' -> rank l < rank l'.
Proof. destruct 1; cbn; lia. Qed.

Lemma effect_status d d' k : inv d -> effect d d' -> status d' k = status d k \/ life_step (status d k) (status d' k).
Proof.
  intros Hd (d1 & (Hq & Hi & Hr) & Hc); assert (status d1 k = status d k) as Es by (unfold status; by rewrite Hi, Hr).
  destruct Hc as [->|Hc]; [by left |]; rewrite <- Es; apply status_change; [by apply (changes_inv d) | done].
Qed.

Lemma steps_rank d d' k : inv d -> rtc store_step d d' -> rank (status d k) <= rank (status d' k).
Proof.
  intros Hd H; induction H as [|d d1 d' Hs _ IH]; [lia |].
  assert (inv d1) by (by apply (steps_inv d), rtc_once); specialize (IH H).
  destruct (effect_status d d1 k Hd (step_effect _ _ Hd Hs)) as [E|E]; [rewrite E in IH; done | apply life_rank in E; lia].
Qed.

Lemma status_installed d k i e : installed_at d k i e -> status d k = Installed e.
Proof. intros (row & E & _ & <- & _); unfold status; by rewrite E. Qed.

Lemma status_removing d k i e : inv d -> removal_at d k i e Prepared -> status d k = Removing e.
Proof.
  intros Hd (row & E & _ & <- & Hp & _); unfold status; rewrite E; destruct (installed_artifacts d !! k) as [ir|] eqn:Ei.
  - destruct (inv_installed d Hd k ir Ei) as [Hf _]; rewrite E in Hf; destruct Hf as [Hf _]; rewrite Hp in Hf; done.
  - by rewrite Hp.
Qed.

(** A property of the database before and after a run under any schedule. *)
Lemma run_post {A} (P : Db -> Prop) (m : Sql A) fails d n :
  tame m -> atomic m -> P d -> (forall a d', pure m d = (Ok a, d') -> P d') -> P (fst (snd (m fails (d, n)))).
Proof. intros Hm Ha Hd H; by destruct (sql_run_cases m fails d n Hm Ha) as [->|(a & d' & E & ->)]; [| apply (H a)]. Qed.

Lemma atomic_removal s : atomic (prepare_artifact_removal s) /\ atomic (complete_artifact_removal s).
Proof.
  split; unfold prepare_artifact_removal, complete_artifact_removal; cbv zeta; [apply atomic_bind; [by readonly | intros] |];
    apply atomic_transaction.
Qed.

Lemma active_binding_ok role verify d ob d' :
  inv d -> pure (active_binding role verify) d = (Ok ob, d') ->
  d' = d /\ match ob with
            | Some b => binding_at d (machine_name role) b
            | None => active_bindings d !! machine_name role = None
            end.
Proof.
  intros Hd H; split; [eapply readonly_ok, H; apply readonly_active_binding |]; unfold active_binding in H.
  apply pure_bind_ok in H as (ob' & d1 & E & H); [| tame ..].
  unfold load_active_binding in E; apply pure_bind_ok in E as (row & d2 & E2 & E); [| tame ..].
  rewrite pure_query in E2; injection E2 as <- <-; destruct (active_bindings d !! machine_name role) as [row|] eqn:Er.
  - destruct (inv_binding d Hd _ _ Er) as [b Hb]; apply pure_bind_ok in E as (b' & d2 & E2 & E); [| tame ..].
    rewrite pure_lift, (decode_stored_binding_ok d _ row b) in E2 by done; injection E2 as <- <-.
    rewrite pure_ret in E; injection E as <- <-; apply pure_bind_ok in H as (b' & d2 & E2 & H); [| tame ..].
    destruct (validate_binding_inv d _ b verify Hd Hb) as (i & e & _ & Ev); rewrite Ev in E2; destruct (verify i); [| done].
    injection E2 as <- <-; rewrite pure_ret in H; injection H as <- <-; done.
  - rewrite pure_ret in E; injection E as <- <-; rewrite pure_ret in H; injection H as <- <-; done.
Qed.

Lemma recover_fold d verify bs : inv d -> forall done,
  Forall (fun b => exists k, binding_at d k b) bs ->
  (forall b i e, b ∈ bs -> installed_at d (artifact_key (ActiveArtifactBinding.artifact_id b)) i e -> verify i = true) ->
  pure (for_each (fun recovered binding =>
    validated ← validate_binding binding verify; mret (recovered ++ [validated])) done bs) d = (Ok (done ++ bs), d).
Proof.
  intros Hd; induction bs as [|b bs IH]; intros done Hall Hv; cbn [for_each].
  { by rewrite pure_ret, app_nil_r. }
  apply Forall_cons in Hall as [[k Hb] Hall]; destruct (validate_binding_inv d k b verify Hd Hb) as (i & e & Hi & Ev).
  rewrite pure_bind by tame; rewrite pure_bind by tame; rewrite Ev, (Hv b i e) by (by left || done).
  rewrite pure_ret, IH; [by rewrite <- app_assoc | done |]; intros b' i' e' Hb'; apply Hv; by right.
Qed.

(** ** Theorems *)

(** C21. Whatever operations ran, with whatever arguments, errors and
    failures of SQLite between and inside them, the tables are consistent:
    every row is the text of a valid record of its table under its own key,
    an installation has its manifest and the epoch after the last completed
    removal, a qualification record stands under the artifact it is about,
    which has a manifest with its digest, an invalidation is of a record that
    is there, every active binding names an installed artifact with a record
    that authorizes the role and that nothing has invalidated, and every row
    of the activation decisions is a valid decision under its own identifier
    and role which, for an activation, names a manifest and a qualification
    record that are still there and that authorized the role for the
    artifact. *)
Theorem store_invariant (d : Db) : reachable d -> inv d.
Proof. apply store_reachable_inv. Qed.

(** C25. Every operation is all or nothing: when it returns an error, because
    of its arguments, of what is stored or of any call into SQLite that
    failed, the database is exactly what it was. *)
Theorem store_atomic (o : StoreOp.t) (fails : nat -> bool) (d : Db) (n : nat) (e : StoreError.t) (s : Db * nat) :
  StoreOp.run o fails (d, n) = (Err e, s) -> fst s = d.
Proof. intros H; pose proof (atomic_run o fails (d, n)) as Ha; by rewrite H in Ha. Qed.

(** C22. The store implements the lifecycle of an artifact.  Whatever an
    operation does, each artifact keeps its state or makes one step of the
    abstract machine: it is installed with epoch one, prepared for removal,
    removed, and only then installed again with the next epoch; and an
    artifact with an active binding is always an installed one. *)
Theorem lifecycle_refinement (d d' : Db) (k : text) :
  reachable d -> store_step d d' ->
  (status d' k = status d k \/ life_step (status d k) (status d' k)) /\
  (forall role b, binding_at d' role b -> exists e, status d' (artifact_key (ActiveArtifactBinding.artifact_id b)) = Installed e).
Proof.
  intros Hr Hs; pose proof (store_reachable_inv d Hr) as Hd; split; [by apply effect_status, step_effect |].
  intros role b (row & _ & _ & _ & _ & _ & _ & i & e & q & Hi & _); exists e; by eapply status_installed.
Qed.

(** C23. A stale removal cannot touch a reinstalled artifact.  Once a selected
    installation has been prepared for removal, in every later state
    preparing the same selection again changes nothing, and completing it
    changes no installation and no binding, however often the artifact was
    installed again in between. *)
Theorem stale_removal_inert (s : StoredArtifactInstallation.t) (fails : nat -> bool) (d d1 d2 : Db) (n n1 : nat) :
  reachable d -> prepare_artifact_removal s fails (d, n) = (Ok PreparationPrepared, (d1, n1)) -> rtc store_step d1 d2 ->
  forall fails' m,
    fst (snd (prepare_artifact_removal s fails' (d2, m))) = d2 /\
    (forall s', prepare_artifact_removal s fails' (d2, m) <> (Ok PreparationPrepared, s')) /\
    installed_artifacts (fst (snd (complete_artifact_removal s fails' (d2, m)))) = installed_artifacts d2 /\
    active_bindings (fst (snd (complete_artifact_removal s fails' (d2, m)))) = active_bindings d2.
Proof.
  intros Hr Hp Hs fails' m; pose proof (store_reachable_inv d Hr) as Hd.
  destruct tame_operations as (_ & _ & _ & _ & _ & _ & Hprep & Hcomp & _).
  assert (Hstep : store_step d d1).
  { exists (StoreOp.PrepareRemoval s), fails, n; split; [done |]; cbn; unfold mbind, sql_bind; by rewrite Hp. }
  apply run_ok in Hp; [| done]; apply prepare_changes in Hp as (p & Hrm & Hc & -> & Hi); [| done].
  assert (Hd1 : inv d1) by (by apply (steps_inv d), rtc_once); assert (Hd2 : inv d2) by (by apply (steps_inv d1)).
  assert (Hrank : 3 * selection_epoch s + 1 <= rank (status d2 (selection_key s))).
  { pose proof (steps_rank d1 d2 (selection_key s) Hd1 Hs) as H; rewrite (status_removing d1 _ _ _ Hd1 Hrm) in H; done. }
  assert (Hnot : forall s' n', prepare_artifact_removal s fails' (d2, m) <> (Ok PreparationPrepared, (s', n'))).
  { intros s' n' H; apply run_ok in H; [| done]; apply prepare_changes in H as (p & _ & _ & _ & H); [| done].
    rewrite (status_installed d2 _ _ _ H) in Hrank; cbn in Hrank; lia. }
  split_and!.
  - destruct (prepare_artifact_removal s fails' (d2, m)) as [r [s' n']] eqn:E; cbn [fst snd].
    pose proof (proj1 (atomic_removal s) fails' (d2, m)) as Ha; rewrite E in Ha; cbn [fst snd] in Ha; destruct r as [w| |]; [| done ..].
    apply run_ok in E as E'; [| done]; apply prepare_changes in E' as (p & _ & E'); [| done].
    destruct w; [by destruct (Hnot s' n') | by destruct E' ..].
  - intros [s' n']; apply Hnot.
  - apply (run_post (fun x => installed_artifacts x = installed_artifacts d2)); [done | apply atomic_removal | done |].
    intros w d' H; apply complete_changes in H as (_ & _ & H); [| done]; destruct w; [by destruct H as (_ & ? & _) | by subst].
  - apply (run_post (fun x => active_bindings x = active_bindings d2)); [done | apply atomic_removal | done |].
    intros w d' H; apply complete_changes in H as (_ & _ & H); [| done]; destruct w; [by destruct H as (_ & _ & ?) | by subst].
Qed.

(** C24. An invalidation is final.  After a qualification record has been
    invalidated, in every later state no role is served under it, and no
    activation with it succeeds, whatever SQLite does. *)
Theorem invalidation_final (i : QualificationInvalidation.t) (fails : nat -> bool) (d d1 d2 : Db) (n n1 : nat) :
  reachable d -> invalidation_typed i -> invalidate i fails (d, n) = (Ok tt, (d1, n1)) -> rtc store_step d1 d2 ->
  (forall role verify fails' m b s, active_binding role verify fails' (d2, m) = (Ok (Some b), s) ->
     ActiveArtifactBinding.qualification_id b <> QualificationInvalidation.qualification_id i) /\
  (forall a role installed fails' m b s,
     activate a role installed (QualificationInvalidation.qualification_id i) fails' (d2, m) <> (Ok b, s)).
Proof.
  intros Hr Ht Hi Hs; pose proof (store_reachable_inv d Hr) as Hd; assert (Hstep : store_step d d1) by (by apply (run_step (StoreOp.Invalidate i) fails d n (Ok tt) d1 n1)).
  assert (Hd1 : inv d1) by (by apply (steps_inv d), rtc_once); assert (Hd2 : inv d2) by (by apply (steps_inv d1)).
  destruct tame_operations as (_ & _ & _ & H4 & H5 & _ & _ & _ & H9 & _).
  assert (Hin : invalidated d2 (QualificationInvalidation.qualification_id i)).
  { apply (steps_invalidated d1); [done | done |]; apply run_ok in Hi; [| done].
    apply invalidate_changes in Hi as (row & Hk & _ & _ & ->); [| done]; exists row; split; [| done]; cbn; apply elem_of_app; right; left. }
  split.
  - intros role verify fails' m b [s' n'] H E; apply run_ok in H; [| done]; apply active_binding_ok in H as [-> Hb]; [| done].
    destruct Hb as (row & _ & _ & _ & _ & _ & Hn & _); rewrite E in Hn; done.
  - intros a role installed fails' m b [s' n'] H; assert (store_step d2 s') as Hstep'.
    { exists (StoreOp.Activate a role installed (QualificationInvalidation.qualification_id i)), fails', m; split; [done |].
      cbn; unfold mbind, sql_bind; by rewrite H. }
    apply run_ok in H; [| done]; apply activate_changes in H as (_ & Hb & E); [| done].
    destruct Hb as (row & _ & _ & _ & _ & _ & Hn & _); rewrite E in Hn; apply Hn.
    by apply (steps_invalidated d2); [| apply rtc_once |].
Qed.

(** C26. What the store wrote, it recovers.  In every state a history can
    reach, when SQLite does not fail, recovery returns the bindings of all
    rows in the order of the roles as soon as the caller accepts the installed
    artifacts they name: no integrity check refuses a state the store itself
    produced. *)
Theorem recovery_total (d : Db) (verify : InstalledArtifact.t -> bool) (n : nat) :
  reachable d ->
  (forall k i e, installed_at d k i e -> verify i = true) ->
  exists bs n', recover_active_bindings verify (fun _ => false) (d, n) = (Ok bs, (d, n')) /\
    Forall2 (fun row b => binding_at d (fst row) b) (rows_by_key (active_bindings d)) bs.
Proof.
  intros Hr Hv; pose proof (store_reachable_inv d Hr) as Hd; destruct (load_active_bindings_inv d Hd) as (bs & E & HF).
  assert (Hp : pure (recover_active_bindings verify) d = (Ok bs, d)).
  { unfold recover_active_bindings; rewrite pure_bind by tame; rewrite E; apply (recover_fold d verify bs Hd []); [| eauto].
    apply Forall_forall; intros b Hb; by apply (bindings_elem d bs b Hd HF). }
  destruct tame_operations as (_ & _ & _ & _ & _ & _ & _ & _ & _ & H10 & _).
  destruct (tame_clock _ (H10 verify) d n) as [n' Hn]; rewrite Hp in Hn; by exists bs, n'.
Qed.

End Theorems.
