(* ===== verification/StoreInventory.v ===== *)
(** * The inventory of the model store is exact. *)

From S2P Require Import Prelude Text Document Claims Json Extractor Model ModelJson StoreDb ModelStore StoreMonad StoreInv StoreSteps StoreOps StoreTheorems.

Section Inventory.
Context {SHA : Sha256} {JSON : JsonCodec}.

(** A state lists what the tables hold under its key. *)
Record state_at (d : Db) (k : text) (st : StoredArtifactState) : Prop := {
  sa_manifest : manifest_at d k (state_manifest st);
  sa_installed : match state_installed st with
    | Some s => installed_at d k (StoredArtifactInstallation.installed s) (Epoch.get (StoredArtifactInstallation.epoch s))
    | None => installed_artifacts d !! k = None
    end;
  sa_removal : match state_removal st with
    | Some r => removal_at d k (StoredArtifactInstallation.installed (StoredArtifactRemoval.selection r))
                  (Epoch.get (StoredArtifactInstallation.epoch (StoredArtifactRemoval.selection r))) (StoredArtifactRemoval.phase r)
    | None => artifact_removals d !! k = None
    end
}.

Definition inventory_row (d : Db) (m : text * text) : InventoryRow :=
  {| row_id := fst m; row_manifest := snd m; row_installed := installed_artifacts d !! fst m;
     row_removal := artifact_removals d !! fst m |}.

Section Decode.
Context (d : Db) (Hd : inv d).

Lemma installation_part id m oi :
  manifest_at d (artifact_key id) m -> pure (load_installation id) d = (Ok oi, d) ->
  match installed_artifacts d !! artifact_key id with
  | Some stored =>
      installed ← decode_record (in_record stored);
      _ ← map_err StoreError.InvalidInstallation (InstalledArtifact.validate installed);
      if negb (bool_decide (ArtifactManifest.artifact_id m = InstalledArtifact.artifact_id installed))
         || negb (bool_decide (ArtifactManifest.artifact_digest m = InstalledArtifact.artifact_digest installed))
         || negb (ArtifactManifest.byte_size m =? InstalledArtifact.byte_size installed)
      then Err StoreError.CorruptRecord
      else
        epoch ← Epoch.from_database (in_epoch stored);
        Ok (Some (StoredArtifactInstallation.mk installed epoch))
  | None => Ok None
  end = Ok oi.
Proof.
  intros Hm H; rewrite pure_load_installation in H; injection H as H.
  destruct (installed_artifacts d !! artifact_key id) as [row|] eqn:E; cbn [read_option] in H; [| done].
  destruct (inv_installed d Hd _ row E) as (_ & i & row' & E' & Hs & He & Ha); rewrite E in E'; injection E' as <-.
  rewrite (decode_installation_ok d id row i) in H by done; cbn in H; injection H as <-.
  destruct Ha as [Hep Hv Hk (m' & Hm' & H1 & H2 & H3)]; rewrite (manifest_at_fun d _ m m') by done.
  rewrite (stored_decode i) by done; cbn [mbind result_bind]; rewrite Hv; cbn [map_err mbind result_bind].
  rewrite H1, H2, H3, !bool_decide_eq_true_2, Z.eqb_refl by done; cbn [negb orb]; by rewrite epoch_decode.
Qed.

Lemma decode_state_ok k row :
  artifact_manifests d !! k = Some row ->
  exists st, decode_state (inventory_row d (k, row)) = Ok st /\ state_at d k st /\ state_bindings st = [].
Proof.
  intros E; destruct (inv_manifest d Hd k row E) as [m Hm]; pose proof Hm as (row' & E' & Hs & Hv & Hk).
  rewrite E in E'; injection E' as <-; set (id := ArtifactManifest.artifact_id m) in Hk; rewrite <- Hk in *.
  destruct (load_installation_inv d Hd id) as (oi & Ei & Hi); destruct (load_removal_inv d Hd id) as (orm & Er & Hr).
  exists {| state_manifest := m; state_installed := oi; state_removal := orm; state_bindings := [] |}; split_and!; [| | done].
  - unfold decode_state, inventory_row; cbn [row_id row_manifest row_installed row_removal fst snd].
    rewrite (stored_decode m) by done; cbn [mbind result_bind]; rewrite Hv; cbn [map_err mbind result_bind].
    change (artifact_key (ArtifactManifest.artifact_id m)) with (artifact_key id); rewrite text_eqb_refl; cbn [negb]; rewrite (installation_part id m oi) by done; cbn [mbind result_bind].
    rewrite pure_load_removal in Er; injection Er as Er.
    assert (Hrem : match artifact_removals d !! artifact_key id with
      | Some stored => removal ← decode_removal (artifact_key id) stored; Ok (Some removal) | None => Ok None end = Ok orm) by exact Er.
    rewrite Hrem; cbn [mbind result_bind]; by rewrite (integrity d id (Some m) oi orm).
  - split; cbn; [done | by destruct oi; [destruct Hi |] | done].
Qed.

Lemma decode_states_ok rows maximum : forall done,
  Forall (fun m => artifact_manifests d !! fst m = Some (snd m)) rows ->
  (vlen done + vlen rows <= maximum ->
   exists sts, decode_states maximum done (map (inventory_row d) rows) = Ok (done ++ sts) /\
     Forall2 (fun m st => state_at d (fst m) st /\ state_bindings st = []) rows sts) /\
  (vlen done <= maximum < vlen done + vlen rows ->
   decode_states maximum done (map (inventory_row d) rows) = Err StoreError.InventoryLimitExceeded).
Proof.
  induction rows as [|[k row] rows IH]; intros done Hr.
  { unfold vlen; cbn; split; [intros _; exists []; by rewrite app_nil_r | lia]. }
  apply Forall_cons in Hr as [E Hr]; destruct (decode_state_ok k row E) as (st & Hst & Hat & Hb).
  destruct (IH (done ++ [st]) Hr) as [IH1 IH2]; unfold vlen in *; rewrite length_app in *; cbn [length map decode_states] in *.
  unfold vlen; split; intros Hl.
  - rewrite (proj2 (Z.eqb_neq _ _)) by lia; rewrite Hst; cbn [mbind result_bind].
    destruct IH1 as (sts & -> & HF); [lia |]; exists (st :: sts); rewrite <- app_assoc; split; [done | by constructor].
  - destruct (Z.eqb_spec (Z.of_nat (length done)) maximum); [done |]; rewrite Hst; cbn [mbind result_bind]; apply IH2; lia.
Qed.

(** No installation or removal is without its manifest. *)
Lemma no_orphans {A} (table : Db -> gmap text A) :
  (forall k a, table d !! k = Some a -> exists m, manifest_at d k m) -> pure (reject_without_manifest table) d = (Ok tt, d).
Proof.
  intros H; unfold reject_without_manifest; rewrite pure_bind by tame; rewrite pure_query.
  assert (existsb (fun row => negb (has (artifact_manifests d) (fst row))) (map_to_list (table d)) = false) as ->; [| done].
  apply not_true_iff_false; rewrite existsb_exists; intros ([k a] & Hin & Hn); apply list_elem_of_In, elem_of_map_to_list in Hin.
  destruct (H k a Hin) as (m & row & E & _); apply negb_true_iff, has_false in Hn; cbn in Hn; rewrite E in Hn; done.
Qed.

End Decode.

(** ** Attaching the bindings *)

Definition attach_all (bs : list ActiveArtifactBinding.t) (st : StoredArtifactState) : StoredArtifactState :=
  {| state_manifest := state_manifest st; state_installed := state_installed st; state_removal := state_removal st;
     state_bindings := state_bindings st ++ List.filter (fun b => state_of b st) bs |}.

Lemma attach_one b sts :
  NoDup (map (fun st => ArtifactManifest.artifact_id (state_manifest st)) sts) ->
  (exists st, st ∈ sts /\ state_of b st = true) ->
  (forall st, st ∈ sts -> state_of b st = true -> state_installed st <> None) ->
  attach_binding b sts = Ok (map (attach_all [b]) sts).
Proof.
  induction sts as [|st sts IH]; intros Hnd [st' [Hin Hst']] Hi; [by apply elem_of_nil in Hin |]; cbn [attach_binding map].
  apply NoDup_cons in Hnd as [Hnew Hnd]; destruct (state_of b st) eqn:Eb.
  - rewrite bool_decide_eq_false_2 by (apply (Hi st); [left | done]); f_equal; f_equal.
    + unfold attach_all, push_binding; cbn; by rewrite Eb.
    + rewrite <- (map_id sts) at 1; apply map_ext_in; intros x Hx; unfold attach_all; cbn.
      assert (state_of b x = false) as ->; [| rewrite app_nil_r; by destruct x].
      apply not_true_iff_false; intros Ex; apply Hnew; apply bool_decide_eq_true in Eb, Ex; rewrite Eb, <- Ex.
      apply (list_elem_of_fmap_2 (fun st => ArtifactManifest.artifact_id (state_manifest st))); by apply list_elem_of_In.
  - apply elem_of_cons in Hin as [->|Hin]; [congruence |]; rewrite IH; [cbn | done | by exists st' |].
    + f_equal; f_equal; unfold attach_all; cbn; rewrite Eb, app_nil_r; by destruct st.
    + intros x Hx; apply Hi; by right.
Qed.

Lemma attach_fold bs : forall sts,
  NoDup (map (fun st => ArtifactManifest.artifact_id (state_manifest st)) sts) ->
  (forall b, b ∈ bs -> exists st, st ∈ sts /\ state_of b st = true) ->
  (forall b st, b ∈ bs -> st ∈ sts -> state_of b st = true -> state_installed st <> None) ->
  try_fold (fun states binding => attach_binding binding states) sts bs = Ok (map (attach_all bs) sts).
Proof.
  induction bs as [|b bs IH]; intros sts Hnd Hex Hi; cbn [try_fold].
  { f_equal; rewrite <- (map_id sts) at 1; apply map_ext; intros x; unfold attach_all; cbn; rewrite app_nil_r; by destruct x. }
  rewrite attach_one; [| done | apply Hex; left | intros st; apply Hi; left]; cbn [mbind result_bind]; rewrite IH.
  - f_equal; rewrite map_map; apply map_ext; intros st; unfold attach_all; cbn; unfold state_of; cbn.
    rewrite <- app_assoc; f_equal; by destruct (bool_decide _).
  - by rewrite map_map.
  - intros b' Hb'; destruct (Hex b') as (st & Hst & Es); [by right |]; exists (attach_all [b] st).
    split; [by apply list_elem_of_fmap_2 | done].
  - intros b' st Hb' Hst Es; apply list_elem_of_fmap in Hst as (st' & -> & Hst'); cbn in *; apply (Hi b'); [by right | done | done].
Qed.

(** What the inventory says of one artifact. *)
Definition entry_exact (d : Db) (m : text * text) (st : StoredArtifactState) : Prop :=
  state_at d (fst m) st /\
  forall b, b ∈ state_bindings st <->
    (exists role, binding_at d role b) /\ artifact_key (ActiveArtifactBinding.artifact_id b) = fst m.

Lemma entries_exact d bs rows sts :
  inv d -> (forall b, b ∈ bs <-> exists k, binding_at d k b) ->
  Forall2 (fun m st => state_at d (fst m) st /\ state_bindings st = []) rows sts ->
  Forall2 (entry_exact d) rows (map sort_bindings (map (attach_all bs) sts)).
Proof.
  intros Hd Hbs HF; induction HF as [|m st rows sts [Hat Hb] _ IH]; [constructor |]; cbn [map]; constructor; [| done].
  split; [by destruct Hat |]; intros b; unfold sort_bindings, attach_all; cbn [state_bindings]; rewrite sort_by_perm, Hb.
  cbn [app]; rewrite list_elem_of_In, filter_In, <- list_elem_of_In, Hbs; destruct Hat as [Hm _ _].
  destruct Hm as (row & _ & _ & _ & Hk); unfold state_of; rewrite bool_decide_eq_true, <- Hk.
  split; intros [? E]; split; try done; [by rewrite E | by apply artifact_key_inj].
Qed.

Lemma tame_inventory maximum : tame (artifact_inventory maximum).
Proof. unfold artifact_inventory, load_artifact_states, reject_without_manifest; tame. Qed.

Lemma limit_ok maximum : 0 < maximum < i64_max -> query_limit maximum = Ok (maximum + 1).
Proof.
  intros Hm; unfold query_limit, checked_add, try_from, usize_max, u64_max, i64_max in *.
  rewrite (proj2 (Z.eqb_neq _ _)) by lia; rewrite (proj2 (Z.leb_le (maximum + 1) 18446744073709551615)) by lia.
  cbn [mbind option_bind]; by rewrite !(proj2 (Z.leb_le _ _)) by lia.
Qed.

Lemma rows_lookup d : Forall (fun m => artifact_manifests d !! fst m = Some (snd m)) (rows_by_key (artifact_manifests d)).
Proof. apply Forall_forall; intros [k row] Hin; by apply rows_by_key_elem. Qed.

Lemma rows_size {A} (t : gmap text A) : length (rows_by_key t) = size t.
Proof. unfold rows_by_key; rewrite sort_by_perm; apply length_map_to_list. Qed.

Section Run.
Context (d : Db) (Hd : inv d) (maximum : Z) (Hm : 0 < maximum < i64_max).

Lemma load_states_over :
  maximum < Z.of_nat (size (artifact_manifests d)) ->
  pure (load_artifact_states maximum (maximum + 1)) d = (Err StoreError.InventoryLimitExceeded, d).
Proof.
  intros Hs; unfold load_artifact_states; rewrite pure_bind by (unfold reject_without_manifest; tame).
  rewrite pure_query, pure_bind by (unfold reject_without_manifest; tame); rewrite pure_lift.
  unfold inventory_rows; change (map _ (rows_by_key (artifact_manifests d))) with (map (inventory_row d) (rows_by_key (artifact_manifests d))); rewrite firstn_map.
  assert (Hl : length (take (Z.to_nat (maximum + 1)) (rows_by_key (artifact_manifests d))) = Z.to_nat (maximum + 1))
    by (rewrite length_take, rows_size; lia).
  destruct (decode_states_ok d Hd (take (Z.to_nat (maximum + 1)) (rows_by_key (artifact_manifests d))) maximum []) as [_ H].
  { apply Forall_take, rows_lookup. }
  rewrite H; [done |]; unfold vlen; rewrite Hl; cbn; lia.
Qed.

Lemma load_states_ok :
  Z.of_nat (size (artifact_manifests d)) <= maximum ->
  exists sts, pure (load_artifact_states maximum (maximum + 1)) d = (Ok sts, d) /\
    Forall2 (fun m st => state_at d (fst m) st /\ state_bindings st = []) (rows_by_key (artifact_manifests d)) sts.
Proof.
  intros Hs; unfold load_artifact_states.
  destruct (decode_states_ok d Hd (rows_by_key (artifact_manifests d)) maximum []) as [H _]; [apply rows_lookup |].
  destruct H as (sts & E & HF); [unfold vlen; rewrite rows_size; cbn; lia |]; exists sts; split; [| done].
  rewrite pure_bind by (unfold reject_without_manifest; tame); rewrite pure_query.
  rewrite take_ge by (unfold inventory_rows; rewrite length_map, rows_size; lia).
  rewrite pure_bind by (unfold reject_without_manifest; tame); rewrite pure_lift.
  assert (Hrows : inventory_rows d = map (inventory_row d) (rows_by_key (artifact_manifests d))) by done; rewrite Hrows, E.
  rewrite pure_bind by (unfold reject_without_manifest; tame); rewrite no_orphans.
  - rewrite pure_bind by (unfold reject_without_manifest; tame); rewrite no_orphans; [done |].
    intros k row Er; destruct (inv_removal d Hd k row Er) as (i & p & _ & _ & _ & _ & _ & [_ _ _ (m & ? & _)]); eauto.
  - intros k row Er; destruct (inv_installed d Hd k row Er) as (_ & i & _ & _ & _ & _ & [_ _ _ (m & ? & _)]); eauto.
Qed.

(** Every binding has its state in the list, with an installation. *)
Lemma states_cover sts b :
  Forall2 (fun m st => state_at d (fst m) st /\ state_bindings st = []) (rows_by_key (artifact_manifests d)) sts ->
  (exists k, binding_at d k b) ->
  exists st, st ∈ sts /\ state_of b st = true /\
    exists i e s, state_installed st = Some s /\ StoredArtifactInstallation.installed s = i /\
      installed_at d (artifact_key (ActiveArtifactBinding.artifact_id b)) i e.
Proof.
  intros HF (k & row & _ & _ & _ & _ & _ & _ & i & e & q & Hi & _); pose proof Hi as (irow & Ei & _ & _ & [_ _ _ (m & Hman & _)]).
  destruct Hman as (mrow & Em & _); apply rows_by_key_elem, list_elem_of_lookup in Em as [j Hj].
  destruct (Forall2_lookup_l _ _ _ _ _ HF Hj) as (st & Hst & [[Hsm Hsi _] _]); exists st; cbn [fst] in *.
  split; [apply list_elem_of_lookup; eauto |]; destruct Hsm as (? & _ & _ & _ & Hk); apply artifact_key_inj in Hk.
  split; [by apply bool_decide_eq_true |]; destruct (state_installed st) as [s|]; [| congruence].
  destruct (installed_at_fun d _ _ _ _ _ Hi Hsi) as [-> _]; by do 3 eexists.
Qed.

Lemma states_distinct sts :
  Forall2 (fun m st => state_at d (fst m) st /\ state_bindings st = []) (rows_by_key (artifact_manifests d)) sts ->
  NoDup (map (fun st => ArtifactManifest.artifact_id (state_manifest st)) sts).
Proof.
  intros HF; apply (NoDup_fmap_1 artifact_key); pose proof (rows_by_key_NoDup (artifact_manifests d)) as Hnd.
  enough (artifact_key <$> map (fun st => ArtifactManifest.artifact_id (state_manifest st)) sts
          = map fst (rows_by_key (artifact_manifests d))) as -> by done.
  induction HF as [|m st rows sts [[Hsm _ _] _] _ IH]; [done |]; cbn [map fmap list_fmap].
  apply NoDup_cons in Hnd as [_ Hnd]; destruct Hsm as (? & _ & _ & _ & ->); f_equal; by apply IH.
Qed.

Lemma states_inj sts st st' :
  Forall2 (fun m st => state_at d (fst m) st /\ state_bindings st = []) (rows_by_key (artifact_manifests d)) sts ->
  st ∈ sts -> st' ∈ sts ->
  ArtifactManifest.artifact_id (state_manifest st) = ArtifactManifest.artifact_id (state_manifest st') -> st = st'.
Proof.
  intros HF H H' E; apply states_distinct in HF; apply list_elem_of_lookup in H as [i Hi], H' as [j Hj].
  assert (i = j) as ->; [| congruence].
  apply (NoDup_lookup _ i j (ArtifactManifest.artifact_id (state_manifest st)) HF);
    change (map ?f sts) with (f <$> sts); rewrite list_lookup_fmap; [by rewrite Hi | by rewrite Hj, E].
Qed.

Lemma inventory_run :
  Z.of_nat (size (artifact_manifests d)) <= maximum ->
  exists sts, pure (artifact_inventory maximum) d = (Ok sts, d) /\
    Forall2 (entry_exact d) (rows_by_key (artifact_manifests d)) sts.
Proof.
  intros Hs; destruct (load_states_ok Hs) as (sts & El & HF); destruct (load_active_bindings_inv d Hd) as (bs & Eb & HB).
  assert (Hbs : forall b, b ∈ bs <-> exists k, binding_at d k b) by (intros b; by apply bindings_elem).
  exists (map sort_bindings (map (attach_all bs) sts)); split; [| by apply entries_exact].
  assert (Ht : forall m l, tame (load_artifact_states m l)) by (intros; unfold load_artifact_states, reject_without_manifest; tame).
  unfold artifact_inventory; rewrite pure_bind by (tame; apply Ht); rewrite pure_lift, limit_ok by done.
  rewrite pure_transaction by (tame; apply Ht); rewrite pure_bind by (tame; apply Ht); rewrite El, pure_bind by tame; rewrite Eb.
  rewrite pure_bind by tame; rewrite (recover_fold d _ bs Hd []).
  - rewrite pure_bind by tame; rewrite pure_lift; cbn [app]; rewrite attach_fold; [done | by apply states_distinct | |].
    + intros b Hb; destruct (states_cover sts b HF) as (st & H1 & H2 & _); [by apply Hbs | by exists st].
    + intros b st Hb Hst Es Hnone; destruct (states_cover sts b HF) as (st' & H1 & H2 & i & e & s & H3 & _); [by apply Hbs |].
      assert (st' = st) as -> by (apply bool_decide_eq_true in Es, H2; eapply states_inj; [exact HF | done | done | congruence]).
      congruence.
  - apply Forall_forall; intros b Hb; by apply Hbs.
  - intros b i e Hb Hi; destruct (states_cover sts b HF) as (st & H1 & H2 & i' & e' & s & H3 & <- & H4); [by apply Hbs |].
    apply existsb_exists; exists st; split; [by apply list_elem_of_In |]; apply bool_decide_eq_true; rewrite H3; cbn.
    by destruct (installed_at_fun d _ _ _ _ _ Hi H4) as [-> _].
Qed.

Lemma inventory_over :
  maximum < Z.of_nat (size (artifact_manifests d)) -> pure (artifact_inventory maximum) d = (Err StoreError.InventoryLimitExceeded, d).
Proof.
  intros Hs; assert (Ht : forall m l, tame (load_artifact_states m l)) by (intros; unfold load_artifact_states, reject_without_manifest; tame).
  unfold artifact_inventory; rewrite pure_bind by (tame; apply Ht); rewrite pure_lift, limit_ok by done.
  rewrite pure_transaction by (tame; apply Ht); rewrite pure_bind by (tame; apply Ht); by rewrite load_states_over.
Qed.

Lemma inventory_states sts :
  pure (artifact_inventory maximum) d = (Ok sts, d) -> Forall2 (entry_exact d) (rows_by_key (artifact_manifests d)) sts.
Proof.
  intros E; destruct (Z.le_gt_cases (Z.of_nat (size (artifact_manifests d))) maximum) as [Hs|Hs].
  - destruct (inventory_run Hs) as (sts' & E' & HF); congruence.
  - rewrite inventory_over in E by lia; done.
Qed.

End Run.

(** C27. The inventory is exact and bounded.  In every state a history can
    reach and without a failure of SQLite, the inventory has one entry for
    each manifest, in the order of the identifiers: with its installation and
    its removal journal as stored, and with exactly the active bindings of
    that artifact; when there are more manifests than the caller allows it
    returns the limit error and nothing else. *)
Theorem inventory_exact (d : Db) (maximum : Z) (n : nat) :
  reachable d -> 0 < maximum < i64_max ->
  (Z.of_nat (size (artifact_manifests d)) <= maximum ->
   exists sts n', artifact_inventory maximum (fun _ => false) (d, n) = (Ok sts, (d, n')) /\
     Forall2 (entry_exact d) (rows_by_key (artifact_manifests d)) sts) /\
  (maximum < Z.of_nat (size (artifact_manifests d)) ->
   exists n', artifact_inventory maximum (fun _ => false) (d, n) = (Err StoreError.InventoryLimitExceeded, (d, n'))).
Proof.
  intros Hr Hm; pose proof (store_reachable_inv d Hr) as Hd; destruct (tame_clock _ (tame_inventory maximum) d n) as [n' Hn]; split; intros Hs.
  - destruct (inventory_run d Hd maximum Hm Hs) as (sts & E & HF); rewrite E in Hn; by exists sts, n'.
  - rewrite (inventory_over d Hd maximum Hm Hs) in Hn; by exists n'.
Qed.

End Inventory.
