(* ===== verification/StoreRemoval.v ===== *)
(** * The removal operations of the store succeed.

    When no call to SQLite fails: reading the state of an artifact, preparing
    the removal of an installation that serves no task, and completing a
    removal that was prepared. *)

From S2P Require Import Prelude Text Document Claims Json Extractor Model ModelJson StoreDb ModelStore StoreMonad StoreInv StoreSteps StoreOps StoreTheorems.

(** ** The record of a removal fits its column *)

Lemma digest_text d : digest_typed d -> slen (Digest.as_str d) = 64 /\ vlen (Digest.as_str d) = 64.
Proof.
  unfold digest_typed, Digest.from_sha256_hex; destruct (_ && _) eqn:E; [| done]; intros _; apply andb_true_iff in E as [E H].
  apply Z.eqb_eq in E; split; [done |]; by rewrite <- slen_ascii by (by apply hex_ascii).
Qed.

Section Store.
Context {SHA : Sha256} {JSON : JsonCodec}.

(** An artifact stored under the key of its digest. *)
Definition plain_artifact (i : InstalledArtifact.t) : Prop :=
  installed_typed i /\ slen (InstalledArtifact.storage_key i) <= 1000.

Lemma removal_fits i e p :
  plain_artifact i -> epoch_ok e ->
  exists row, stored (ArtifactRemovalRecord.mk REMOVAL_RECORD_SCHEMA_VERSION i e p) row.
Proof.
  intros [Ht Hk] He; set (r := ArtifactRemovalRecord.mk REMOVAL_RECORD_SCHEMA_VERSION i e p).
  assert (Hr : ArtifactRemovalRecord.is_typed r).
  { split; cbn; [unfold u32_typed, u32_max, REMOVAL_RECORD_SCHEMA_VERSION; lia | done | unfold u64_typed, u64_max, epoch_ok, i64_max in *; lia]. }
  exists (json_print (encode r)); split; [done |]; unfold encode_record.
  destruct (ArtifactRemovalRecord.to_json_fits r Hr) as [Hp _]; pose proof (json_print_length _ Hp) as Hl.
  rewrite (proj2 (Z.ltb_ge _ _)); [done |]; etransitivity; [exact Hl |].
  destruct Ht as [H1 H2 H3]; apply digest_text in H1 as [H1 _]; apply digest_text in H2 as [H2 _].
  pose proof (string_len_bounds (Digest.as_str (ArtifactId.digest (InstalledArtifact.artifact_id i)))).
  pose proof (string_len_bounds (Digest.as_str (InstalledArtifact.artifact_digest i))).
  pose proof (string_len_bounds (InstalledArtifact.storage_key i)).
  assert (string_len (phase_key p) <= 100) by (by destruct p).
  unfold MAX_RECORD_BYTES, ArtifactRemovalRecord.to_json, encode_installed, encode_text, encode_uint, encode_artifact_id, encode_digest.
  cbn [print_bound map foldr fst snd ArtifactRemovalRecord.installed ArtifactRemovalRecord.phase r]; unfold commas, vlen; cbn [length].
  repeat match goal with |- context [string_len (lit ?s)] => let v := eval vm_compute in (string_len (lit s)) in change (string_len (lit s)) with v end.
  lia.
Qed.

(** ** Reading the state *)

Lemma state_total id d :
  inv d -> exists om oi orm, loaded d id om oi orm /\ pure (artifact_removal_state id) d = (Ok (oi, orm), d).
Proof.
  intros Hd; destruct (with_state_inv d id (fun _ oi orm => mret (Commit (oi, orm))) Hd) as (om & oi & orm & Hl & E); [intros; tame |].
  exists om, oi, orm; split; [done |]; unfold artifact_removal_state; rewrite pure_transaction by tame.
  fold (with_state id (fun _ oi orm => mret (Commit (oi, orm)))); by rewrite E, pure_ret.
Qed.

(** ** No active binding *)

Definition unbound (d : Db) (s : StoredArtifactInstallation.t) : Prop :=
  forall k b, binding_at d k b -> ActiveArtifactBinding.artifact_id b <> InstalledArtifact.artifact_id (StoredArtifactInstallation.installed s).

Lemma no_binding_total d s : inv d -> unbound d s -> pure (validate_no_active_binding s) d = (Ok tt, d).
Proof.
  intros Hd Hu; unfold validate_no_active_binding; destruct (load_active_bindings_inv d Hd) as (bs & E & HF).
  rewrite pure_bind by tame; rewrite E.
  assert (Hall : Forall (fun b => exists k, binding_at d k b) bs) by (apply Forall_forall; intros x; by apply (bindings_elem d)).
  clear HF E; induction Hall as [|b bs [k Hb] _ IH]; cbn [for_each]; [done |].
  rewrite pure_bind by tame; rewrite pure_bind by tame.
  destruct (validate_binding_inv d k b (fun _ => true) Hd Hb) as (i & e & _ & ->).
  rewrite bool_decide_eq_false_2 by (by apply (Hu k)); by rewrite pure_ret.
Qed.

(** An artifact that is not installed serves no task. *)
Lemma removed_unbound d s : installed_artifacts d !! selection_key s = None -> unbound d s.
Proof.
  intros Hn k b Hb E; destruct (binding_at_qualified d k b Hb) as (i & e & q & (row & Er & _) & _).
  unfold selection_key in Hn; rewrite E in Er; congruence.
Qed.

(** ** Writing the journal *)

Lemma write_removal_total s p d :
  plain_artifact (StoredArtifactInstallation.installed s) -> epoch_ok (selection_epoch s) ->
  is_Some (artifact_manifests d !! selection_key s) ->
  exists d', pure (write_removal (StoredArtifactRemoval.mk s p)) d = (Ok tt, d').
Proof.
  intros Hp He [m Hm]; destruct (removal_fits _ _ p Hp He) as (row & Hrow); pose proof Hrow as [_ Erow].
  unfold write_removal; cbn [StoredArtifactRemoval.selection StoredArtifactRemoval.phase].
  assert (Edb : Epoch.database_value (StoredArtifactInstallation.epoch s) = Ok (selection_epoch s)).
  { unfold Epoch.database_value, try_from, selection_epoch, epoch_ok in *; by rewrite !(proj2 (Z.leb_le _ _)) by lia. }
  rewrite pure_bind by tame; rewrite pure_lift, Edb, pure_bind by tame; rewrite pure_lift.
  unfold encode_removal; cbn [StoredArtifactRemoval.selection StoredArtifactRemoval.phase]; fold (selection_epoch s); rewrite Erow.
  rewrite pure_bind by tame; rewrite pure_execute; unfold upsert_removal_row; fold (selection_key s).
  cbn [rm_epoch rm_phase rm_record]; rewrite (proj2 (has_true (artifact_manifests d) (selection_key s))) by eauto.
  assert (check_id (selection_key s) = true) as ->.
  { destruct Hp as [[Hi _ _] _]; apply digest_text in Hi as [_ Hi]; unfold check_id, selection_key, artifact_key; by apply Z.eqb_eq. }
  assert (check_epoch (selection_epoch s) = true) as -> by (apply in_range_true; unfold epoch_ok in He; lia).
  rewrite (stored_size _ _ Hrow); destruct p; cbn; eauto.
Qed.

Section Selection.
Context (s : StoredArtifactInstallation.t) (d : Db) (Hd : inv d) (Hplain : plain_artifact (StoredArtifactInstallation.installed s)).
Abbreviation installed := (StoredArtifactInstallation.installed s).

Lemma manifest_present i e : artifact_at d (selection_key s) i e -> is_Some (artifact_manifests d !! selection_key s).
Proof. intros [_ _ _ (m & (row & E & _) & _)]; eauto. Qed.

Lemma delete_installed_total d' row :
  installed_artifacts d' !! selection_key s = Some row -> in_epoch row = selection_epoch s -> active_bindings d' = active_bindings d -> unbound d s ->
  exists d1, delete_installed_row (selection_key s) (selection_epoch s) d' = Some (d1, 1).
Proof.
  intros Er He Hb Hu; unfold delete_installed_row; rewrite Er, He, Z.eqb_refl; cbn [negb].
  destruct (existsb _ _) eqn:Ex; [| eauto]; apply existsb_exists in Ex as ([k b] & Hin & Ht); apply list_elem_of_In, elem_of_map_to_list in Hin.
  rewrite Hb in Hin; destruct (inv_binding d Hd k b Hin) as (bd & Hbd); cbn [snd] in Ht; exfalso; apply (Hu k bd Hbd).
  apply bool_decide_eq_true in Ht; destruct Hbd as (row' & E' & Hx); rewrite Hin in E'; injection E' as <-.
  destruct Hx as (_ & _ & Hk & _); unfold selection_key in Ht; rewrite Hk in Ht; by apply artifact_key_inj in Ht.
Qed.

Lemma loaded_installed om oi orm :
  loaded d (InstalledArtifact.artifact_id installed) om oi orm ->
  installed_at d (selection_key s) installed (selection_epoch s) -> oi = Some s.
Proof.
  intros [_ Hi _] Hs; destruct oi as [[i [e]]|]; [| destruct Hs as (row & E & _); unfold selection_key in E; congruence].
  destruct Hi as [Hi _]; destruct (installed_at_fun _ _ _ _ _ _ Hs Hi) as [H1 H2]; cbn in H1, H2; rewrite (selection_eta s); congruence.
Qed.
Lemma loaded_removal om oi orm p :
  loaded d (InstalledArtifact.artifact_id installed) om oi orm ->
  removal_at d (selection_key s) installed (selection_epoch s) p -> orm = Some (StoredArtifactRemoval.mk s p).
Proof.
  intros [_ _ Hr] Hs; destruct orm as [[[i [e]] q]|]; [| destruct Hs as (row & E & _); unfold selection_key in E; congruence].
  destruct (removal_at_fun _ _ _ _ _ _ _ _ Hs Hr) as (H1 & H2 & H3); cbn in H1, H2, H3; rewrite (selection_eta s); congruence.
Qed.
Lemma loaded_earlier om oi r :
  loaded d (InstalledArtifact.artifact_id installed) om oi (Some r) ->
  installed_at d (selection_key s) installed (selection_epoch s) -> StoredArtifactRemoval.selection r <> s.
Proof.
  intros [_ _ Hr] (row & E & _ & He & _) Heq; destruct (inv_installed d Hd _ _ E) as [Hf _].
  destruct Hr as (rrow & Er & _ & Hre & _ & _); unfold selection_key in Hf; rewrite Er in Hf; destruct Hf as [_ Hf].
  rewrite Heq in Hre; unfold selection_epoch in He; lia.
Qed.

(** [prepare_artifact_removal] of an installation that serves no task. *)
Lemma revoke_total : installed_at d (selection_key s) installed (selection_epoch s) -> unbound d s ->
  exists d', pure (revoke_installation (Some s) s) d = (Ok (Commit PreparationPrepared), d').
Proof.
  intros Hi Hu; pose proof Hi as (row & Er & _ & He & Ha); unfold revoke_installation; rewrite bool_decide_eq_true_2 by done; cbn [negb].
  pose proof Ha as [Hep _ _ _]; destruct (write_removal_total s Prepared d Hplain Hep (manifest_present _ _ Ha)) as [d1 E1].
  rewrite pure_bind by tame; rewrite (no_binding_total d s Hd Hu), pure_bind by tame; rewrite E1.
  pose proof E1 as E2; apply write_removal_ok in E2 as (rrow & _ & _ & _ & _ & ->); [| by destruct Hplain].
  assert (Edb : Epoch.database_value (StoredArtifactInstallation.epoch s) = Ok (selection_epoch s)).
  { unfold Epoch.database_value, try_from, selection_epoch, epoch_ok in *; by rewrite !(proj2 (Z.leb_le _ _)) by lia. }
  rewrite pure_bind by tame; rewrite pure_lift, Edb, pure_bind by tame; rewrite pure_execute; fold (selection_key s); cbn [StoredArtifactRemoval.selection].
  edestruct (delete_installed_total (set_removals (<[selection_key s := rrow]> (artifact_removals d)) d) row) as [d2 ->]; [done .. |].
  cbn [Z.eqb Pos.eqb negb]; rewrite pure_ret; eauto.
Qed.

Lemma prepare_total : installed_at d (selection_key s) installed (selection_epoch s) -> unbound d s ->
  exists d', pure (prepare_artifact_removal s) d = (Ok PreparationPrepared, d').
Proof.
  intros Hi Hu; unfold prepare_artifact_removal; pose proof Hi as (row & _ & _ & _ & [_ Hv _ _]).
  rewrite pure_bind by tame; rewrite pure_lift, Hv; cbn [map_err]; rewrite pure_transaction by tame.
  match goal with |- context [pure (load_manifest _ ≫= fun m => load_installation _ ≫= fun c => load_removal _ ≫= fun r => lift _ ≫= fun _ => @?g m c r) d] =>
    destruct (with_state_inv d (InstalledArtifact.artifact_id installed) g Hd) as (om & oi & orm & Hl & E); [intros; cbn beta; tame |] end.
  unfold with_state in E; cbn beta in E; rewrite E, (loaded_installed _ _ _ Hl Hi); destruct (revoke_total Hi Hu) as [d' Er].
  destruct orm as [r|]; [rewrite bool_decide_eq_false_2 by (by apply (loaded_earlier _ _ _ Hl)) |]; rewrite Er; eauto.
Qed.

(** The removal was prepared already. *)
Lemma prepare_again : removal_at d (selection_key s) installed (selection_epoch s) Prepared ->
  installed_artifacts d !! selection_key s = None ->
  pure (prepare_artifact_removal s) d = (Ok PreparationAlreadyPrepared, d).
Proof.
  intros Hr Hn; unfold prepare_artifact_removal; pose proof Hr as (row & _ & _ & _ & _ & [_ Hv _ _]).
  rewrite pure_bind by tame; rewrite pure_lift, Hv; cbn [map_err]; rewrite pure_transaction by tame.
  match goal with |- context [pure (load_manifest _ ≫= fun m => load_installation _ ≫= fun c => load_removal _ ≫= fun r => lift _ ≫= fun _ => @?g m c r) d] =>
    destruct (with_state_inv d (InstalledArtifact.artifact_id installed) g Hd) as (om & oi & orm & Hl & E); [intros; cbn beta; tame |] end.
  unfold with_state in E; cbn beta in E; rewrite E, (loaded_removal _ _ _ _ Hl Hr); cbn [StoredArtifactRemoval.selection StoredArtifactRemoval.phase].
  rewrite bool_decide_eq_true_2, bool_decide_eq_false_2 by done; rewrite pure_bind by tame.
  by rewrite (no_binding_total d s Hd (removed_unbound d s Hn)), pure_ret.
Qed.

(** [complete_artifact_removal]. *)
Lemma complete_total : removal_at d (selection_key s) installed (selection_epoch s) Prepared ->
  installed_artifacts d !! selection_key s = None ->
  exists d', pure (complete_artifact_removal s) d = (Ok CompletionCompleted, d').
Proof.
  intros Hr Hn; unfold complete_artifact_removal; rewrite pure_transaction by tame.
  destruct (load_manifest_inv d Hd (selection_key s)) as (om & Em & Hm).
  destruct (load_installation_inv d Hd (InstalledArtifact.artifact_id installed)) as (oi & Ei & Hi).
  destruct (load_removal_inv d Hd (InstalledArtifact.artifact_id installed)) as (orm & Er & Hrm).
  assert (Hl : loaded d (InstalledArtifact.artifact_id installed) om oi orm) by done.
  pose proof (loaded_removal _ _ _ _ Hl Hr) as ->; assert (oi = None) as ->.
  { destruct oi as [x|]; [| done]; destruct Hi as [(row & E & _) _]; unfold selection_key in Hn; congruence. }
  fold (selection_key s); rewrite pure_bind by tame; rewrite Em, pure_bind by tame; rewrite Ei, pure_bind by tame; rewrite Er, pure_bind by tame.
  rewrite pure_lift; cbn [ok_or]; rewrite pure_bind by tame; rewrite pure_lift; unfold selection_key at 1; rewrite (integrity d) by done.
  cbn [StoredArtifactRemoval.selection StoredArtifactRemoval.phase]; rewrite bool_decide_eq_true_2, bool_decide_eq_false_2 by done; cbn [negb].
  rewrite bool_decide_eq_false_2 by (by intros [? ?]); rewrite pure_bind by tame.
  rewrite (no_binding_total d s Hd (removed_unbound d s Hn)); pose proof Hr as (row & _ & _ & _ & _ & Ha); pose proof Ha as [Hep _ _ _].
  destruct (write_removal_total s Completed d Hplain Hep (manifest_present _ _ Ha)) as [d1 E1].
  rewrite pure_bind by tame; rewrite E1, pure_ret; eauto.
Qed.

End Selection.
End Store.
