(* ===== verification/FileSystem.v ===== *)
(** * The file system under the artifact storage.

    What the storage of [app/src/artifact_storage] asks of the operating
    system on a Unix host: files and directories by number, the calls the
    source makes on them, and what a loss of power leaves behind.  POSIX
    describes the calls; nothing is assumed durable that was not
    synchronized.  A directory entry that changed since its directory was
    last synchronized may come back with any of its earlier values, and the
    content of a file that was not synchronized may be anything. *)

From S2P Require Import Prelude Text Document.

(** ** Errors ([std::io::Error]) *)

(** An error of the operating system with its number, or one the program
    made with a kind. *)
Inductive IoErrorKind := NotFound | NotADirectory | AlreadyExists | WouldBlock | FilesystemLoop | OtherKind.
Inductive IoError := Os (number : Z) | Custom (kind : IoErrorKind).
Abbreviation IoResult := (Result IoError).

#[export] Instance io_error_kind_eq_dec : EqDecision IoErrorKind.
Proof. solve_decision. Defined.
#[export] Instance io_error_eq_dec : EqDecision IoError.
Proof. solve_decision. Defined.

Definition EPERM : Z := 1.
Definition ENOENT : Z := 2.
Definition EBADF : Z := 9.
Definition EAGAIN : Z := 11.
Definition EEXIST : Z := 17.
Definition ENOTDIR : Z := 20.
Definition EISDIR : Z := 21.
Definition ELOOP : Z := 40.

(** [io::Error::kind] and [io::Error::raw_os_error]. *)
Definition kind (e : IoError) : IoErrorKind :=
  match e with
  | Custom k => k
  | Os n =>
      if n =? ENOENT then NotFound
      else if n =? ENOTDIR then NotADirectory
      else if n =? EEXIST then AlreadyExists
      else if n =? EAGAIN then WouldBlock
      else if n =? ELOOP then FilesystemLoop
      else OtherKind
  end.
Definition raw_os_error (e : IoError) : option Z := match e with Os n => Some n | Custom _ => None end.

(** ** Nodes *)

(** Seconds and nanoseconds. *)
Definition Time : Type := Z * Z.

(** A file with its bytes and whether they were synchronized since they last
    changed; a directory with its entries and the values they had since the
    directory was last synchronized. *)
Inductive Node :=
| RegularFile (content : bytes) (synced : bool)
| DirectoryNode (entries : gmap text Z) (pending : list (text * option Z))
| SymbolicLink
| OtherNode.

Record Inode := { node : Node; mode : Z; modified : Time; changed : Time }.

(** The nodes, the node the storage root path leads to, and whether the
    directory that holds the root was synchronized since that last changed. *)
Record Fs := { inodes : gmap Z Inode; device : Z; root : option Z; root_synced : bool }.

Definition node_at (f : Fs) (n : Z) : option Node := node <$> inodes f !! n.
Definition with_inodes (f : Fs) (v : gmap Z Inode) : Fs :=
  {| inodes := v; device := device f; root := root f; root_synced := root_synced f |}.

(** The entries of a directory. *)
Definition entries_of (f : Fs) (d : Z) : gmap text Z :=
  match node_at f d with Some (DirectoryNode e _) => e | _ => ∅ end.
Definition pending_of (f : Fs) (d : Z) : list (text * option Z) :=
  match node_at f d with Some (DirectoryNode _ p) => p | _ => [] end.
Definition is_directory (f : Fs) (d : Z) : bool :=
  match node_at f d with Some (DirectoryNode _ _) => true | _ => false end.

(** The number of directory entries that lead to a node. *)
Definition links_in (n : Z) (i : Inode) : Z :=
  match node i with
  | DirectoryNode e _ => Z.of_nat (length (List.filter (fun x => snd x =? n) (map_to_list e)))
  | _ => 0
  end.
Definition link_count (f : Fs) (n : Z) : Z := foldr (fun i total => links_in n (snd i) + total) 0 (map_to_list (inodes f)).

(** ** Metadata ([std::fs::Metadata], [rustix::fs::Stat]) *)

Inductive FileType := TypeFile | TypeDirectory | TypeSymlink | TypeOther.
#[export] Instance file_type_eq_dec : EqDecision FileType.
Proof. solve_decision. Defined.

Record Metadata := {
  md_type : FileType;
  md_len : Z;
  md_dev : Z;
  md_ino : Z;
  md_mode : Z;
  md_mtime : Time;
  md_ctime : Time;
  md_nlink : Z
}.

Definition node_type (v : Node) : FileType :=
  match v with
  | RegularFile _ _ => TypeFile
  | DirectoryNode _ _ => TypeDirectory
  | SymbolicLink => TypeSymlink
  | OtherNode => TypeOther
  end.
Definition node_len (v : Node) : Z := match v with RegularFile c _ => vlen c | _ => 0 end.

Definition metadata_of (f : Fs) (n : Z) (i : Inode) : Metadata :=
  {| md_type := node_type (node i); md_len := node_len (node i); md_dev := device f; md_ino := n; md_mode := mode i;
     md_mtime := modified i; md_ctime := changed i; md_nlink := link_count f n |}.

(** ** Calls: the result and the file system after it *)

Definition stat_node (f : Fs) (n : Z) : IoResult Metadata :=
  match inodes f !! n with Some i => Ok (metadata_of f n i) | None => Err (Os EBADF) end.

(** The node under a name of a directory. *)
Definition lookup_name (f : Fs) (d : Z) (name : text) : IoResult Z :=
  if negb (is_directory f d) then Err (Os ENOTDIR) else ok_or (entries_of f d !! name) (Os ENOENT).

(** [statat] without following a link. *)
Definition statat (d : Z) (name : text) (f : Fs) : IoResult Metadata :=
  n ← lookup_name f d name; stat_node f n.

(** [open] and [openat] with [O_NOFOLLOW]; [directory] is [O_DIRECTORY] and
    [write] is [O_RDWR]. *)
Definition open_node (f : Fs) (directory write : bool) (n : Z) : IoResult Z :=
  match node_at f n with
  | None => Err (Os ENOENT)
  | Some (DirectoryNode _ _) => if write then Err (Os EISDIR) else Ok n
  | Some SymbolicLink => Err (Os (if directory then ENOTDIR else ELOOP))
  | Some _ => if directory then Err (Os ENOTDIR) else Ok n
  end.
Definition openat (directory write : bool) (d : Z) (name : text) (f : Fs) : IoResult Z :=
  n ← lookup_name f d name; open_node f directory write n.

(** The names of a directory as they are listed. *)
Definition read_dir (d : Z) (f : Fs) : IoResult (list text) :=
  if negb (is_directory f d) then Err (Os ENOTDIR)
  else Ok ([lit "."; lit ".."] ++ map fst (map_to_list (entries_of f d))).

(** Bytes of a file from a position on. *)
Definition read_at (n position count : Z) (f : Fs) : IoResult bytes :=
  match node_at f n with
  | Some (RegularFile c _) => Ok (take (Z.to_nat count) (drop (Z.to_nat position) c))
  | Some (DirectoryNode _ _) => Err (Os EISDIR)
  | _ => Err (Os EBADF)
  end.

(** Change the content of a node, with the time of the change. *)
Definition set_node (t : Time) (v : Node) (i : Inode) : Inode :=
  {| node := v; mode := mode i; modified := t; changed := t |}.
Definition touch_inode (t : Time) (i : Inode) : Inode :=
  {| node := node i; mode := mode i; modified := modified i; changed := t |}.
Definition set_entry (t : Time) (f : Fs) (d : Z) (name : text) (value : option Z) : Fs :=
  with_inodes f (alter (fun i =>
    match node i with
    | DirectoryNode e p =>
        set_node t (DirectoryNode (partial_alter (fun _ => value) name e) ((name, e !! name) :: p)) i
    | _ => i
    end) d (inodes f)).
Definition add_inode (f : Fs) (n : Z) (i : Inode) : Fs := with_inodes f (<[n := i]> (inodes f)).
Definition new_number (f : Fs) : Z := fresh (dom (inodes f)).

Definition private_directory : Z := 16832.
Definition private_file : Z := 33152.
Definition new_directory (t : Time) : Inode :=
  {| node := DirectoryNode ∅ []; mode := private_directory; modified := t; changed := t |}.
Definition new_file (t : Time) : Inode :=
  {| node := RegularFile [] false; mode := private_file; modified := t; changed := t |}.

(** Add a node under a new name. *)
Definition create_at (t : Time) (d : Z) (name : text) (i : Inode) (f : Fs) : IoResult Z * Fs :=
  if negb (is_directory f d) then (Err (Os ENOTDIR), f)
  else match entries_of f d !! name with
       | Some _ => (Err (Os EEXIST), f)
       | None => let n := new_number f in (Ok n, set_entry t (add_inode f n i) d name (Some n))
       end.

(** [mkdirat], [openat] with [O_CREAT | O_EXCL] and with [O_CREAT]. *)
Definition mkdirat (t : Time) (d : Z) (name : text) (f : Fs) : IoResult unit * Fs :=
  let '(r, f') := create_at t d name (new_directory t) f in (_ ← r; Ok tt, f').
Definition create_new (t : Time) (d : Z) (name : text) (f : Fs) : IoResult Z * Fs := create_at t d name (new_file t) f.
Definition open_or_create (t : Time) (d : Z) (name : text) (f : Fs) : IoResult Z * Fs :=
  match entries_of f d !! name with
  | Some n => (open_node f false true n, f)
  | None => create_at t d name (new_file t) f
  end.

(** [linkat] and [unlinkat] without flags. *)
Definition linkat (t : Time) (d : Z) (name : text) (d' : Z) (name' : text) (f : Fs) : IoResult unit * Fs :=
  match lookup_name f d name with
  | Ok n =>
      if is_directory f n then (Err (Os EPERM), f)
      else if negb (is_directory f d') then (Err (Os ENOTDIR), f)
      else match entries_of f d' !! name' with
           | Some _ => (Err (Os EEXIST), f)
           | None => (Ok tt, set_entry t (with_inodes f (alter (touch_inode t) n (inodes f))) d' name' (Some n))
           end
  | Err e => (Err e, f)
  | Panic => (Panic, f)
  end.
Definition unlinkat (t : Time) (d : Z) (name : text) (f : Fs) : IoResult unit * Fs :=
  match lookup_name f d name with
  | Ok n =>
      if is_directory f n then (Err (Os EISDIR), f)
      else (Ok tt, set_entry t (with_inodes f (alter (touch_inode t) n (inodes f))) d name None)
  | Err e => (Err e, f)
  | Panic => (Panic, f)
  end.

(** [fsync]. *)
Definition sync_node (v : Node) : Node :=
  match v with
  | RegularFile c _ => RegularFile c true
  | DirectoryNode e _ => DirectoryNode e []
  | _ => v
  end.
Definition fsync (n : Z) (f : Fs) : IoResult unit * Fs :=
  match inodes f !! n with
  | Some i =>
      (Ok tt, add_inode f n {| node := sync_node (node i); mode := mode i; modified := modified i; changed := changed i |})
  | None => (Err (Os EBADF), f)
  end.

(** [fchmod]. *)
Definition fchmod (t : Time) (m : Z) (n : Z) (f : Fs) : IoResult unit * Fs :=
  match inodes f !! n with
  | Some i => (Ok tt, add_inode f n {| node := node i; mode := m; modified := modified i; changed := t |})
  | None => (Err (Os EBADF), f)
  end.

(** [write] at the end of a file. *)
Definition append (t : Time) (n : Z) (b : bytes) (f : Fs) : IoResult unit * Fs :=
  match inodes f !! n with
  | Some i =>
      match node i with
      | RegularFile c _ => (Ok tt, add_inode f n (set_node t (RegularFile (c ++ b) false) i))
      | _ => (Err (Os EBADF), f)
      end
  | None => (Err (Os EBADF), f)
  end.

(** The root path: [create_dir_all], the synchronization of its parent, and
    opening it as a directory. *)
Definition create_root (t : Time) (f : Fs) : IoResult unit * Fs :=
  match root f with
  | Some n => (if is_directory f n then Ok tt else Err (Os EEXIST), f)
  | None =>
      let n := new_number f in
      (Ok tt, {| inodes := <[n := new_directory t]> (inodes f); device := device f; root := Some n; root_synced := false |})
  end.
Definition sync_root_parent (f : Fs) : IoResult unit * Fs :=
  (Ok tt, {| inodes := inodes f; device := device f; root := root f; root_synced := true |}).
Definition stat_root (f : Fs) : IoResult Metadata := n ← ok_or (root f) (Os ENOENT); stat_node f n.
Definition open_root (f : Fs) : IoResult Z := n ← ok_or (root f) (Os ENOENT); open_node f true false n.

(** ** Loss of power *)

(** What may be left of a node. *)
Inductive node_survives : Node -> Node -> Prop :=
| survives_synced c : node_survives (RegularFile c true) (RegularFile c true)
| survives_unsynced c c' : node_survives (RegularFile c false) (RegularFile c' true)
| survives_directory e p e' :
    (forall name, e' !! name = e !! name \/ (name, e' !! name) ∈ p) -> node_survives (DirectoryNode e p) (DirectoryNode e' [])
| survives_symlink : node_survives SymbolicLink SymbolicLink
| survives_other : node_survives OtherNode OtherNode.

(** A node something leads to. *)
Definition referenced (f : Fs) (n : Z) : Prop :=
  root f = Some n \/ exists d name, entries_of f d !! name = Some n.

(** The file system after the loss: what something still leads to is there. *)
Record survives (f f' : Fs) : Prop := {
  sv_root : root f' = root f \/ (root_synced f = false /\ root f' = None);
  sv_root_synced : root_synced f' = true;
  sv_nodes : forall n v', node_at f' n = Some v' -> exists v, node_at f n = Some v /\ node_survives v v';
  sv_referenced : forall n, referenced f' n -> is_Some (inodes f !! n) -> is_Some (inodes f' !! n)
}.
