(* ===== verification/StorageIo.v ===== *)
(** * Programs on the artifact storage.

    A program runs against the file system and the database of the model
    store.  It is a sequence of calls, numbered as they are made, and the
    environment answers each of them: a call may fail, with or without its
    effect, the process may end instead of making it, a read may be short and
    a poll of the caller's token may find it cancelled.  The end of a run is
    the state at the moment the process returned or ended, so a statement
    about every environment speaks of a crash at every point. *)

From S2P Require Import Prelude Text Document Claims Json Extractor Model ModelJson StoreDb ModelStore FileSystem.

(** ** Progress of the services *)

Inductive ArtifactImportStage := InspectingSource | StagingAndVerifying | VerifyingSource | CommittingFile | Finalizing.

Module ArtifactRemovalStage.

Inductive t := InspectingSelection | VerifyingInactiveBytes | PreparingRemoval.

End ArtifactRemovalStage.

Module ArtifactOrphanReconciliationStage.

Inductive t := InspectingSelection | VerifyingOrphan.

End ArtifactOrphanReconciliationStage.

Inductive ArtifactInventoryStage :=
| OpeningStorage | LoadingState | FreezingStorage | InspectingState | VerifyingUninstalled | RecheckingStorageAndState.

(** A stage, the bytes processed in it and the total; for an inventory the
    entries and the bytes inspected so far. *)
Inductive Report :=
| ArtifactImportProgress (stage : ArtifactImportStage) (completed_bytes total_bytes : Z)
| ArtifactRemovalProgress (stage : ArtifactRemovalStage.t) (completed_bytes total_bytes : Z)
| ArtifactOrphanReconciliationProgress (stage : ArtifactOrphanReconciliationStage.t) (completed_bytes total_bytes : Z)
| ArtifactInventoryProgress (stage : ArtifactInventoryStage) (completed_entries verified_bytes : Z).

(** ** The world and the environment *)

Record World := { fs : Fs; db : Db; calls : nat; reports : list Report }.

(** The tokens of a run: the caller's, or one nobody can cancel. *)
Inductive Token := CallerToken | FreshToken.

(** [ends]: the process ends before the call; [fails]: the call fails with an
    error, after its effect when the flag says so; [sql_fails]: the failures
    inside a database operation; [short]: the bytes a read or a failing write
    moves; [random]: the bytes of [getrandom::fill].  The file a caller
    imports is not under the program's control: [source_metadata] and
    [source_read], from a position on, are what the calls on it return.  [parent_direct]: the
    directory that holds the storage root is one, and not a link. *)
Record Environment := {
  ends : nat -> bool;
  fails : nat -> option (IoError * bool);
  sql_fails : nat -> nat -> bool;
  cancels : nat -> bool;
  now : nat -> Time;
  short : nat -> Z;
  random : nat -> option bytes;
  source_metadata : nat -> IoResult Metadata;
  source_read : nat -> Z -> IoResult bytes;
  parent_direct : nat -> bool
}.

(** ** Programs *)

Definition Io (E A : Type) : Type := Environment -> World -> Result E A * World.

#[export] Instance io_ret {E} : MRet (Io E) := fun A a _ w => (Ok a, w).
#[export] Instance io_bind {E} : MBind (Io E) := fun A B f m env w =>
  match m env w with
  | (Ok a, w') => f a env w'
  | (Err e, w') => (Err e, w')
  | (Panic, w') => (Panic, w')
  end.

(** A result that needs no call, and the error of one. *)
Definition value {E A} (r : Result E A) : Io E A := fun _ w => (r, w).
Definition raise {E A} (e : E) : Io E A := value (Err e).

(** [Result::map_err]; a result that is looked at instead of returned. *)
Definition map_error {E F A} (g : E -> F) (m : Io E A) : Io F A := fun env w =>
  let '(r, w') := m env w in (map_err g r, w').
Definition attempt {E F A} (m : Io E A) : Io F (Result E A) := fun env w =>
  match m env w with
  | (Panic, w') => (Panic, w')
  | (r, w') => (Ok r, w')
  end.

Definition advance (w : World) (f : Fs) (d : Db) : World :=
  {| fs := f; db := d; calls := S (calls w); reports := reports w |}.

(** A call of the operating system, and one that only looks. *)
Definition call {A} (effect : Environment -> nat -> Fs -> IoResult A * Fs) : Io IoError A := fun env w =>
  let n := calls w in
  if ends env n then (Panic, w)
  else
    let '(r, f) := effect env n (fs w) in
    match fails env n with
    | Some (e, taken) => (Err e, advance w (if (taken : bool) then f else fs w) (db w))
    | None => (r, advance w f (db w))
    end.
Definition look {A} (effect : Environment -> nat -> Fs -> IoResult A) : Io IoError A :=
  call (fun env n f => (effect env n f, f)).

(** A database operation. *)
Definition sql {A} (m : Sql A) : Io StoreError.t A := fun env w =>
  let n := calls w in
  if ends env n then (Panic, w)
  else let '(r, (d, _)) := m (sql_fails env n) (db w, O) in (r, advance w (fs w) d).

(** [CancellationToken::is_cancelled]. *)
Definition is_cancelled {E} (token : Token) : Io E bool := fun env w =>
  (Ok match token with CallerToken => cancels env (calls w) | FreshToken => false end, advance w (fs w) (db w)).

(** The progress callback. *)
Definition report {E} (r : Report) : Io E unit := fun _ w =>
  (Ok tt, {| fs := fs w; db := db w; calls := calls w; reports := reports w ++ [r] |}).

(** Visit the entries of a list in order. *)
Fixpoint visit {E A B} (f : B -> A -> Io E B) (b : B) (l : list A) : Io E B :=
  match l with
  | [] => mret b
  | x :: l' => b' ← f b x; visit f b' l'
  end.

(** ** Programs that only look *)

(** The same files and records. *)
Definition same (w w' : World) : Prop := fs w' = fs w /\ db w' = db w.
Definition looks {E A} (m : Io E A) : Prop := forall env w, same w (snd (m env w)).

#[export] Instance same_equivalence : Equivalence same.
Proof. split; red; unfold same; [done | intros ? ? []; done | intros ? ? ? [] []; split; congruence]. Qed.

Create HintDb io.

Lemma same_advance w : same w (advance w (fs w) (db w)).
Proof. done. Qed.
Lemma looks_ret {E A} (a : A) : looks (E := E) (mret a).
Proof. done. Qed.
Lemma looks_value {E A} (r : Result E A) : looks (value r).
Proof. done. Qed.
Lemma looks_raise {E A} (e : E) : looks (raise (A := A) e).
Proof. done. Qed.
Lemma looks_look {A} (effect : Environment -> nat -> Fs -> IoResult A) : looks (look effect).
Proof.
  intros env w; unfold look, call; destruct (ends env _); [done |].
  destruct (fails env _) as [[e []]|]; done.
Qed.
Lemma looks_cancelled {E} token : looks (E := E) (is_cancelled token).
Proof. done. Qed.
Lemma looks_report {E} r : looks (E := E) (report r).
Proof. done. Qed.
Lemma looks_bind {E A B} (m : Io E A) (f : A -> Io E B) : looks m -> (forall a, looks (f a)) -> looks (m ≫= f).
Proof.
  intros Hm Hf env w; unfold mbind, io_bind; specialize (Hm env w).
  destruct (m env w) as [[a|e|] w']; cbn in *; [| done ..]; by etransitivity; [| apply Hf].
Qed.
Lemma looks_map_error {E F A} (g : E -> F) (m : Io E A) : looks m -> looks (map_error g m).
Proof. intros H env w; unfold map_error; specialize (H env w); by destruct (m env w). Qed.
Lemma looks_attempt {E F A} (m : Io E A) : looks m -> looks (attempt (F := F) m).
Proof. intros H env w; unfold attempt; specialize (H env w); by destruct (m env w) as [[] w']. Qed.
Lemma looks_visit {E A B} (f : B -> A -> Io E B) l : forall b, (forall b x, looks (f b x)) -> looks (visit f b l).
Proof. induction l as [|x l IH]; intros b Hf; cbn [visit]; [done | apply looks_bind; auto]. Qed.

#[export] Hint Resolve looks_ret looks_value looks_raise looks_look looks_cancelled looks_report : io.

(** Split a program into its calls. *)
Ltac looks :=
  cbv zeta;
  repeat first
    [ solve [eauto 2 with io nocore]
    | apply looks_bind | apply looks_map_error | apply looks_attempt | apply looks_visit
    | match goal with
      | |- looks (match ?x with _ => _ end) => destruct x
      | |- forall _, _ => intros
      end ].

(** What holds of the value a program returns that only looks. *)
Definition yields {E A} (m : Io E A) (F : Fs -> A -> Prop) : Prop :=
  looks m /\ forall env w a w', m env w = (Ok a, w') -> F (fs w) a.

Section Yields.
Context {E : Type}.

Lemma yields_looks {A} (m : Io E A) F : yields m F -> looks m.
Proof. by intros []. Qed.
Lemma yields_any {A} (m : Io E A) : looks m -> yields m (fun _ _ => True).
Proof. done. Qed.
Lemma yields_weaken {A} (m : Io E A) (F G : Fs -> A -> Prop) : yields m F -> (forall f a, F f a -> G f a) -> yields m G.
Proof. intros [Hl H] HG; split; [done | eauto]. Qed.
Lemma yields_ret {A} (a : A) (F : Fs -> A -> Prop) : (forall f, F f a) -> yields (E := E) (mret a) F.
Proof. intros H; split; [done |]; intros env w b w' [= <- <-]; done. Qed.
Lemma yields_value {A} (r : Result E A) (F : Fs -> A -> Prop) : (forall f a, r = Ok a -> F f a) -> yields (value r) F.
Proof. intros H; split; [done |]; intros env w b w' [= -> <-]; auto. Qed.
Lemma yields_raise {A} (e : E) (F : Fs -> A -> Prop) : yields (raise e) F.
Proof. by apply yields_value. Qed.
Lemma yields_bind {A B} (m : Io E A) (g : A -> Io E B) (F : Fs -> A -> Prop) (G : Fs -> B -> Prop) :
  yields m F -> (forall a, yields (g a) (fun f b => F f a -> G f b)) -> yields (m ≫= g) G.
Proof.
  intros [Hl Hm] Hg; split; [apply looks_bind; [done | intros a; apply (yields_looks _ _ (Hg a))] |].
  intros env w b w' H; unfold mbind, io_bind in H; specialize (Hl env w); destruct (m env w) as [[a|e|] w1] eqn:E1; try done.
  destruct Hl as [Hf _]; cbn in Hf; specialize (Hg a) as [_ Hg]; specialize (Hg env w1 b w' H); rewrite Hf in Hg; eauto.
Qed.
Lemma yields_map_error {F A} (g : F -> E) (m : Io F A) (G : Fs -> A -> Prop) : yields m G -> yields (map_error g m) G.
Proof.
  intros [Hl H]; split; [by apply looks_map_error |]; intros env w a w' E1; unfold map_error in E1.
  destruct (m env w) as [[b|e|] w1] eqn:E2; try done; injection E1 as -> ->; eauto.
Qed.
Lemma yields_attempt {F A} (m : Io F A) (G : Fs -> A -> Prop) :
  yields m G -> yields (E := E) (attempt m) (fun f r => forall a, r = Ok a -> G f a).
Proof.
  intros [Hl H]; split; [by apply looks_attempt |]; intros env w r w' E1 a ->; unfold attempt in E1.
  destruct (m env w) as [[b|e|] w1] eqn:E2; try done; injection E1 as <- <-; eauto.
Qed.

End Yields.

Lemma yields_look {A} (effect : Environment -> nat -> Fs -> IoResult A) (F : Fs -> A -> Prop) :
  (forall env n f a, effect env n f = Ok a -> F f a) -> yields (look effect) F.
Proof.
  intros H; split; [apply looks_look |]; intros env w a w' E1; unfold look, call in E1.
  destruct (ends env _); [done |]; destruct (fails env _) as [[e []]|]; try done; injection E1 as E1 _; eauto.
Qed.

(** ** Specifications

    For every environment of a class, from a state the first predicate
    describes: the second describes the state and the value a program
    returns, the third the state when it returns an error and the last the
    state in which the process ended. *)
Definition spec {E A} (K : Environment -> Prop) (P : Fs -> Db -> Prop) (m : Io E A) (Q : A -> Fs -> Db -> Prop)
    (R : E -> Fs -> Db -> Prop) (C : Fs -> Db -> Prop) : Prop :=
  forall env w, K env -> P (fs w) (db w) ->
    match m env w with
    | (Ok a, w') => Q a (fs w') (db w')
    | (Err e, w') => R e (fs w') (db w')
    | (Panic, w') => C (fs w') (db w')
    end.

Section Spec.
Context {E : Type} (K : Environment -> Prop).
Implicit Types (P C : Fs -> Db -> Prop) (R : E -> Fs -> Db -> Prop).

Lemma spec_weaken {A} P P' (m : Io E A) (Q Q' : A -> Fs -> Db -> Prop) R C :
  spec K P m Q R C -> (forall f d, P' f d -> P f d) -> (forall a f d, Q a f d -> Q' a f d) -> spec K P' m Q' R C.
Proof. intros H HP HQ env w HK Hw; specialize (H env w HK (HP _ _ Hw)); destruct (m env w) as [[] w']; auto. Qed.
Lemma spec_ret {A} (a : A) P (Q : A -> Fs -> Db -> Prop) R C : (forall f d, P f d -> Q a f d) -> spec K P (mret a) Q R C.
Proof. intros H env w _ Hw; by apply H. Qed.
Lemma spec_value {A} (r : Result E A) P (Q : A -> Fs -> Db -> Prop) R C :
  (forall f d, P f d -> match r with Ok a => Q a f d | Err e => R e f d | Panic => C f d end) -> spec K P (value r) Q R C.
Proof. intros H env w _ Hw; specialize (H _ _ Hw); by destruct r. Qed.
Lemma spec_raise {A} (e : E) P (Q : A -> Fs -> Db -> Prop) R C : (forall f d, P f d -> R e f d) -> spec K P (raise e) Q R C.
Proof. apply (spec_value (Err e)). Qed.
Lemma spec_bind {A B} (m : Io E A) (g : A -> Io E B) P (Q : A -> Fs -> Db -> Prop) (Q' : B -> Fs -> Db -> Prop) R C :
  spec K P m Q R C -> (forall a, spec K (Q a) (g a) Q' R C) -> spec K P (m ≫= g) Q' R C.
Proof.
  intros Hm Hg env w HK Hw; unfold mbind, io_bind; specialize (Hm env w HK Hw).
  destruct (m env w) as [[a|e|] w']; [by apply (Hg a) | done ..].
Qed.
Lemma spec_map_error {F A} (g : F -> E) (m : Io F A) P (Q : A -> Fs -> Db -> Prop) R C :
  spec K P m Q (fun e => R (g e)) C -> spec K P (map_error g m) Q R C.
Proof. intros H env w HK Hw; unfold map_error; specialize (H env w HK Hw); by destruct (m env w) as [[] w']. Qed.
Lemma spec_attempt {F A} (m : Io F A) P (Q : A -> Fs -> Db -> Prop) (R' : F -> Fs -> Db -> Prop) R C :
  spec K P m Q R' C ->
  spec K P (attempt m) (fun r f d => match r with Ok a => Q a f d | Err e => R' e f d | Panic => False end) R C.
Proof. intros H env w HK Hw; unfold attempt; specialize (H env w HK Hw); by destruct (m env w) as [[] w']. Qed.
Lemma spec_exists {A X} (P : X -> Fs -> Db -> Prop) (m : Io E A) (Q : A -> Fs -> Db -> Prop) R C :
  (forall x, spec K (P x) m Q R C) -> spec K (fun f d => exists x, P x f d) m Q R C.
Proof. intros H env w HK [x Hw]; by apply (H x). Qed.
Lemma spec_pure {A} (p : Prop) P (m : Io E A) (Q : A -> Fs -> Db -> Prop) R C :
  (p -> spec K P m Q R C) -> spec K (fun f d => p /\ P f d) m Q R C.
Proof. intros H env w HK [Hp Hw]; by apply (H Hp). Qed.

(** A program that only looks keeps what is known, and what it returns
    holds. *)
Lemma spec_yields {A} (m : Io E A) (F : Fs -> A -> Prop) P R C :
  yields m F -> (forall e f d, P f d -> R e f d) -> (forall f d, P f d -> C f d) ->
  spec K P m (fun a f d => P f d /\ F f a) R C.
Proof.
  intros [Hl H] HR HC env w _ Hw; specialize (Hl env w); destruct (m env w) as [[a|e|] w'] eqn:E1; destruct Hl as [Hf Hd]; cbn in Hf, Hd;
    rewrite Hf, Hd; auto; split; eauto.
Qed.
Lemma spec_looks {A} (m : Io E A) P R C :
  looks m -> (forall e f d, P f d -> R e f d) -> (forall f d, P f d -> C f d) -> spec K P m (fun _ => P) R C.
Proof. intros Hl HR HC; eapply spec_weaken; [by apply (spec_yields m (fun _ _ => True)) | done |]; by intros a f d []. Qed.

End Spec.

(** A call in any environment: its effect may be taken or not. *)
Lemma spec_call {A} K (effect : Environment -> nat -> Fs -> IoResult A * Fs) P (Q : A -> Fs -> Db -> Prop) R C :
  (forall f d, P f d -> C f d) -> (forall e f d, P f d -> R e f d) ->
  (forall env n e f d, P f d -> R e (snd (effect env n f)) d) ->
  (forall env n f d, P f d -> match effect env n f with (Ok a, f') => Q a f' d | (Err _, _) => True | (Panic, f') => C f' d end) ->
  spec K P (call effect) Q R C.
Proof.
  intros HC HR HE HQ env w _ Hw; unfold call; destruct (ends env (calls w)); [by apply HC |].
  pose proof (HE env (calls w)) as HE'; specialize (HQ env (calls w) (fs w) (db w) Hw).
  destruct (effect env (calls w) (fs w)) as [r f] eqn:Ef; destruct (fails env (calls w)) as [[e []]|].
  - specialize (HE' e (fs w) (db w) Hw); rewrite Ef in HE'; done.
  - by apply HR.
  - destruct r as [a|e|]; [done | | done]; specialize (HE' e (fs w) (db w) Hw); rewrite Ef in HE'; done.
Qed.

(** ** Environments in which nothing goes wrong *)

Record calm (env : Environment) : Prop := {
  calm_ends : forall n, ends env n = false;
  calm_fails : forall n, fails env n = None;
  calm_sql : forall n, sql_fails env n = fun _ => false;
  calm_cancels : forall n, cancels env n = false;
  calm_parent : forall n, parent_direct env n = true;
  calm_random : forall n, is_Some (random env n)
}.

(** A program that returns a value in every such environment. *)
Definition total {E A} (P : Fs -> Db -> Prop) (m : Io E A) (Q : A -> Fs -> Db -> Prop) : Prop :=
  spec calm P m Q (fun _ _ _ => False) (fun _ _ => False).

Lemma total_call {A} (effect : Environment -> nat -> Fs -> IoResult A * Fs) P (Q : A -> Fs -> Db -> Prop) :
  (forall env n f d, calm env -> P f d -> exists a, fst (effect env n f) = Ok a /\ Q a (snd (effect env n f)) d) ->
  total P (call effect) Q.
Proof.
  intros H env w Hc Hw; unfold call; rewrite calm_ends by done; destruct (H env (calls w) (fs w) (db w) Hc Hw) as (a & Ea & Hq).
  destruct (effect env (calls w) (fs w)) as [r f]; rewrite calm_fails by done; cbn in Ea; subst r; done.
Qed.
Lemma total_look {A} (effect : Environment -> nat -> Fs -> IoResult A) (P : Fs -> Db -> Prop) (Q : A -> Fs -> Db -> Prop) :
  (forall env n f d, calm env -> P f d -> exists a, effect env n f = Ok a /\ Q a f d) -> total P (look effect) Q.
Proof. intros H; apply total_call; cbn; auto. Qed.
