(* ===== verification/ArtifactStorage.v ===== *)
(** * Pinned directories and exact artifacts ([app/src/artifact_storage]).

    [artifact_storage.rs], [existing.rs], [mutation.rs],
    [mutation/platform.rs], [verification.rs], [fingerprint.rs] and
    [errors.rs] on a Unix host.  An open file or a pinned directory is the
    number of its node; every call of the operating system is a call of the
    program. *)

From S2P Require Import Prelude Text Document Claims Json Extractor Model ModelJson StoreDb ModelStore FileSystem StorageIo.

(** ** Errors *)

Module ArtifactInventoryError.

Inductive t :=
| InvalidLimits | StorageNotInitialized | UnsafeStorageLayout | StorageInUse | StateEntryLimitExceeded
| StorageEntryLimitExceeded | TotalVerificationLimitExceeded | ConcurrentModification | Cancelled
| StorageIo (e : IoError) | State (e : StoreError.t).

End ArtifactInventoryError.
Import ArtifactInventoryError (ConcurrentModification, UnsafeStorageLayout, StorageEntryLimitExceeded).

Abbreviation Storage := (Io ArtifactInventoryError.t).

(** [is_link_error], [map_initial_error], [map_active_error] and
    [is_unsafe_entry_error]; a sharing violation is an error of Windows. *)
Definition is_link_error (e : IoError) : bool := bool_decide (raw_os_error e = Some ELOOP).
Definition map_initial_error (e : IoError) : ArtifactInventoryError.t :=
  if bool_decide (kind e = NotFound) then ArtifactInventoryError.StorageNotInitialized
  else if bool_decide (kind e = NotADirectory) || is_link_error e then UnsafeStorageLayout
  else ArtifactInventoryError.StorageIo e.
Definition map_active_error (e : IoError) : ArtifactInventoryError.t :=
  if bool_decide (kind e = NotFound) || bool_decide (kind e = NotADirectory) || is_link_error e
  then ConcurrentModification
  else ArtifactInventoryError.StorageIo e.
Definition is_unsafe_entry_error (e : IoError) : bool :=
  bool_decide (kind e = NotADirectory) || bool_decide (raw_os_error e = Some ELOOP).

(** The call with its error as [StorageIo], or mapped while the storage is
    opened or in use. *)
Definition io {A} (m : Io IoError A) : Storage A := map_error ArtifactInventoryError.StorageIo m.
Definition initial {A} (m : Io IoError A) : Storage A := map_error map_initial_error m.
Definition active {A} (m : Io IoError A) : Storage A := map_error map_active_error m.

(** [ensure_not_cancelled]. *)
Definition ensure_not_cancelled {E} (cancelled : E) (token : Token) : Io E unit :=
  b ← is_cancelled token; if (b : bool) then raise cancelled else mret tt.

(** ** Metadata ([fingerprint.rs], [entry.rs]) *)

Definition is_indirect (m : Metadata) : bool := bool_decide (md_type m = TypeSymlink).
Definition is_file (m : Metadata) : bool := bool_decide (md_type m = TypeFile).
Definition is_dir (m : Metadata) : bool := bool_decide (md_type m = TypeDirectory).

Module MetadataFingerprint.

Record t := mk {
  file_type : FileType;
  length : Z;
  device : Z;
  inode : Z;
  mode : Z;
  modified : Time;
  changed : Time;
  link_count : Z
}.
#[global] Instance eq_dec : EqDecision t.
Proof. solve_decision. Defined.

(** [file_type]. *)
Definition file_type_of (m : Metadata) : FileType :=
  if is_indirect m then TypeSymlink
  else if is_file m then TypeFile
  else if is_dir m then TypeDirectory
  else TypeOther.

Definition of_metadata (m : Metadata) : t :=
  mk (file_type_of m) (md_len m) (md_dev m) (md_ino m) (md_mode m) (md_mtime m) (md_ctime m) (md_nlink m).

(** [from_file], [has_single_link] and [same_identity]. *)
Definition from_file (file : Z) : Io IoError t :=
  metadata ← look (fun _ _ f => stat_node f file); mret (of_metadata metadata).
Definition has_single_link (p : t) : bool := link_count p =? 1.
Definition same_identity (p other : t) : bool := (device p =? device other) && (inode p =? inode other).

End MetadataFingerprint.

(** [fingerprint_std_file]. *)
Definition fingerprint_std_file (file : Z) : Storage MetadataFingerprint.t := io (MetadataFingerprint.from_file file).

(** [validate_directory_handle] and [validate_regular_file]. *)
Definition validate_handle (test : Metadata -> bool) (file : Z) (opening : bool) : Storage unit :=
  metadata ← io (look (fun _ _ f => stat_node f file));
  if test metadata && negb (is_indirect metadata) then mret tt
  else if opening then raise UnsafeStorageLayout
  else raise ConcurrentModification.
Definition validate_directory_handle : Z -> bool -> Storage unit := validate_handle is_dir.
Definition validate_regular_file : Z -> bool -> Storage unit := validate_handle is_file.

(** ** Entries *)

(** On Unix only [FileShare::Sync] changes how a file is opened. *)
Inductive FileShare := ShareLifecycle | ShareVerification | ShareSync | ShareRemoval.

(** [open_directory_path], [PinnedDirectory::open_directory] and [open_file]. *)
Definition open_directory_path : Io IoError Z := look (fun _ _ f => open_root f).
Definition open_directory (d : Z) (name : text) : Io IoError Z := look (fun _ _ f => openat true false d name f).
Definition open_file (d : Z) (name : text) (share : FileShare) : Io IoError Z :=
  look (fun _ _ f => openat false match share with ShareSync => true | _ => false end d name f).

Record RawDirectoryEntry := { re_name : text; re_direct_regular_file : bool; re_indirect : bool; re_byte_size : Z }.
Record EntryStatus := { es_direct_regular_file : bool; es_indirect : bool; es_byte_size : Z }.

(** [raw_entries]. *)
Definition raw_entries (d : Z) (maximum_entries : Z) (token : Token) : Storage (list RawDirectoryEntry) :=
  names ← active (look (fun _ _ f => read_dir d f));
  visit (fun result name =>
    _ ← ensure_not_cancelled ArtifactInventoryError.Cancelled token;
    name ← active (look (fun _ _ _ => Ok name));
    if existsb (text_eqb name) [lit "."; lit ".."] then mret result
    else if vlen result =? maximum_entries then raise StorageEntryLimitExceeded
    else
      stat ← active (look (fun _ _ f => statat d name f));
      size ← value (ok_or (try_from u64_max (md_len stat)) ConcurrentModification);
      mret (result ++ [{| re_name := name; re_direct_regular_file := bool_decide (md_type stat = TypeFile);
                          re_indirect := bool_decide (md_type stat = TypeSymlink); re_byte_size := size |}])) [] names.

(** [inspect_entry]. *)
Definition inspect_entry (d : Z) (name : text) : Storage (option EntryStatus) :=
  stat ← attempt (look (fun _ _ f => statat d name f));
  match stat with
  | Ok stat =>
      size ← value (ok_or (try_from u64_max (md_len stat)) ConcurrentModification);
      mret (Some {| es_direct_regular_file := bool_decide (md_type stat = TypeFile);
                    es_indirect := bool_decide (md_type stat = TypeSymlink); es_byte_size := size |})
  | Err e => if bool_decide (e = Os ENOENT) then mret None else raise (map_active_error e)
  | Panic => value Panic
  end.

(** [has_exact_entry_name]. *)
Definition has_exact_entry_name (d : Z) (expected : text) (maximum_entries : Z) (token : Token) : Storage (bool * bool) :=
  entries ← raw_entries d maximum_entries token;
  mret (existsb (fun entry => text_eqb (re_name entry) expected) entries, vlen entries =? maximum_entries).

Inductive ExactEntryCapacity := Present | Available | Full.

(** [exact_entry_capacity]. *)
Definition exact_entry_capacity (d : Z) (expected : text) (maximum_entries : Z) (token : Token) : Storage ExactEntryCapacity :=
  '(present, full) ← has_exact_entry_name d expected maximum_entries token;
  mret (if (present : bool) then Present else if (full : bool) then Full else Available).

(** ** Managed files *)

Record ManagedFile := { mf_file : Z; mf_fingerprint : MetadataFingerprint.t; mf_byte_size : Z }.

(** [open_managed_file_by_name_with_entry]. *)
Definition open_managed_file_by_name_with_entry (d : Z) (name : text) (share : FileShare) (entry : EntryStatus)
  : Storage (option ManagedFile) :=
  if es_indirect entry || negb (es_direct_regular_file entry) then raise UnsafeStorageLayout
  else
    opened ← attempt (open_file d name share);
    match opened with
    | Ok file =>
        _ ← validate_regular_file file true;
        fingerprint ← io (MetadataFingerprint.from_file file);
        if negb (MetadataFingerprint.length fingerprint =? es_byte_size entry) then raise ConcurrentModification
        else mret (Some {| mf_file := file; mf_fingerprint := fingerprint; mf_byte_size := MetadataFingerprint.length fingerprint |})
    | Err e =>
        if bool_decide (kind e = NotFound) then mret None
        else if is_unsafe_entry_error e then raise UnsafeStorageLayout
        else raise (ArtifactInventoryError.StorageIo e)
    | Panic => value Panic
    end.

(** [open_managed_file_by_name]. *)
Definition open_managed_file_by_name (d : Z) (name : text) (share : FileShare) : Storage (option ManagedFile) :=
  entry ← inspect_entry d name;
  match entry with
  | Some entry => open_managed_file_by_name_with_entry d name share entry
  | None => mret None
  end.

(** [open_managed_file_with_share]; [open_managed_file],
    [open_managed_file_for_sync] and [open_managed_file_for_removal] differ in
    the share. *)
Definition open_managed_file_with_share (d : Z) (name : text) (share : FileShare) (maximum_entries : Z) (token : Token)
  : Storage (option ManagedFile) :=
  '(has_exact_name, at_capacity) ← has_exact_entry_name d name maximum_entries token;
  if negb has_exact_name then
    if (at_capacity : bool) then raise StorageEntryLimitExceeded
    else
      entry ← inspect_entry d name;
      match entry with
      | Some _ => raise ConcurrentModification
      | None => mret None
      end
  else
    entry ← inspect_entry d name;
    match entry with
    | Some entry => open_managed_file_by_name_with_entry d name share entry
    | None => raise ConcurrentModification
    end.

(** [recheck_managed_file_with_share], under the names
    [recheck_managed_file_for_lifecycle] and [recheck_managed_file_for_removal]. *)
Definition recheck_managed_file_with_share (d : Z) (name : text) (expected : MetadataFingerprint.t) (share : FileShare)
    (maximum_entries : Z) (token : Token) : Storage unit :=
  current ← open_managed_file_with_share d name share maximum_entries token;
  current ← value (ok_or current ConcurrentModification);
  if bool_decide (mf_fingerprint current = expected) then mret tt else raise ConcurrentModification.

(** [PinnedDirectory::remove_file], [child_file_fingerprint],
    [child_directory_fingerprint], [fingerprint] and [fingerprint_path]. *)
Definition remove_file (d : Z) (name : text) : Storage unit := active (call (fun env n f => unlinkat (now env n) d name f)).
Definition child_file_fingerprint (d : Z) (name : text) : Storage MetadataFingerprint.t :=
  file ← active (open_file d name ShareLifecycle);
  _ ← validate_regular_file file false;
  io (MetadataFingerprint.from_file file).
Definition child_directory_fingerprint (d : Z) (name : text) : Storage MetadataFingerprint.t :=
  directory ← active (open_directory d name);
  _ ← validate_directory_handle directory false;
  io (MetadataFingerprint.from_file directory).
Definition directory_fingerprint (d : Z) : Storage MetadataFingerprint.t :=
  _ ← validate_directory_handle d false;
  io (MetadataFingerprint.from_file d).
Definition fingerprint_path : Storage MetadataFingerprint.t :=
  directory ← active open_directory_path;
  _ ← validate_directory_handle directory false;
  io (MetadataFingerprint.from_file directory).

(** [PinnedDirectory::sync] and [File::sync_all]. *)
Definition sync_all (file : Z) : Io IoError unit := call (fun _ _ f => fsync file f).
Definition sync (d : Z) : Storage unit := io (sync_all d).

(** [remove_verified_file] on Unix. *)
Definition remove_verified_file (d : Z) (name : text) (held : Z) : Storage unit :=
  expected ← fingerprint_std_file held;
  current ← child_file_fingerprint d name;
  if negb (MetadataFingerprint.same_identity current expected) then raise ConcurrentModification
  else remove_file d name.

(** [remove_held_managed_file]. *)
Definition remove_held_managed_file (d : Z) (name : text) (held : Z) (expected : MetadataFingerprint.t) (maximum_entries : Z)
  : Storage unit :=
  current ← io (MetadataFingerprint.from_file held);
  if negb (bool_decide (current = expected)) || negb (MetadataFingerprint.has_single_link current)
  then raise ConcurrentModification
  else
    reopened ← open_managed_file_with_share d name ShareRemoval maximum_entries FreshToken;
    reopened ← value (ok_or reopened ConcurrentModification);
    if negb (bool_decide (mf_fingerprint reopened = expected)) then raise ConcurrentModification
    else
      _ ← remove_verified_file d name held;
      left ← open_managed_file_by_name d name ShareRemoval;
      match left with
      | Some _ => raise ConcurrentModification
      | None => mret tt
      end.

(** [confirm_managed_file_absent]. *)
Definition confirm_managed_file_absent (d : Z) (name : text) (maximum_entries : Z) : Storage unit :=
  '(has_exact_name, _) ← has_exact_entry_name d name maximum_entries FreshToken;
  if (has_exact_name : bool) then raise ConcurrentModification
  else
    entry ← inspect_entry d name;
    match entry with
    | Some _ => raise ConcurrentModification
    | None => mret tt
    end.

(** [remove_file_if_same_identity]. *)
Definition remove_file_if_same_identity (d : Z) (name : text) (held : Z) : Storage unit :=
  expected ← io (MetadataFingerprint.from_file held);
  current ← open_managed_file_by_name d name ShareLifecycle;
  current ← value (ok_or current ConcurrentModification);
  if negb (MetadataFingerprint.same_identity (mf_fingerprint current) expected) then raise ConcurrentModification
  else remove_file d name.

(** ** Staging *)

Definition TEMP_NAME_ATTEMPTS : nat := 1024.

(** [random_staging_name]. *)
Definition hex_byte (b : Z) : text := map (hex_digit false) [b / 16; b mod 16].
Definition random_staging_name (prefix : text) : Storage text := fun env w =>
  (match random env (calls w) with
   | Some b => Ok (prefix ++ concat (map hex_byte b))
   | None => Err (ArtifactInventoryError.StorageIo (Custom OtherKind))
   end, advance w (fs w) (db w)).

(** [create_new_file], and the attempts of [create_staging_file_with]. *)
Definition create_new_file (d : Z) (name : text) : Io IoError Z := call (fun env n f => create_new (now env n) d name f).
Fixpoint create_staging_file_with (attempts : nat) (d : Z) (prefix : text) : Storage (text * Z) :=
  match attempts with
  | O => raise (ArtifactInventoryError.StorageIo (Custom AlreadyExists))
  | S attempts' =>
      name ← random_staging_name prefix;
      created ← attempt (create_new_file d name);
      match created with
      | Ok file => mret (name, file)
      | Err e =>
          if bool_decide (kind e = AlreadyExists) then create_staging_file_with attempts' d prefix
          else raise (ArtifactInventoryError.StorageIo e)
      | Panic => value Panic
      end
  end.

(** [create_staging_file]. *)
Definition create_staging_file (d : Z) (prefix : text) (maximum_entries : Z) (token : Token) : Storage (text * Z) :=
  entries ← raw_entries d maximum_entries token;
  if vlen entries =? maximum_entries then raise StorageEntryLimitExceeded
  else create_staging_file_with TEMP_NAME_ATTEMPTS d prefix.

(** [recover_owned_staging]. *)
Definition recover_owned_staging (d : Z) (prefix : text) (maximum_entries : Z) : Storage unit :=
  query_limit ← value (ok_or (checked_add usize_max maximum_entries 1) StorageEntryLimitExceeded);
  entries ← raw_entries d query_limit FreshToken;
  if maximum_entries <? vlen entries then raise StorageEntryLimitExceeded
  else
    let reserved := List.filter (fun entry => starts_with (re_name entry) prefix) entries in
    if existsb (fun entry => re_indirect entry || negb (re_direct_regular_file entry)) reserved then raise UnsafeStorageLayout
    else
      _ ← visit (fun _ entry => remove_file d (re_name entry)) tt reserved;
      if bool_decide (reserved = []) then mret tt else sync d.

(** ** Directories of the layout *)

Definition LIFECYCLE_LOCK_FILE : text := lit ".artifact-import.lock".

(** [require_direct_directory_name]. *)
Definition require_direct_directory_name (d : Z) (name : text) : Storage unit :=
  entry ← inspect_entry d name;
  match entry with
  | None => mret tt
  | Some entry =>
      if negb (es_indirect entry) && negb (es_direct_regular_file entry) then mret tt else raise UnsafeStorageLayout
  end.

(** [PinnedDirectory::open_existing], [open_child_directory] and
    [open_lock_file]; [absolute] asks for the working directory. *)
Definition absolute : Io IoError unit := look (fun _ _ _ => Ok tt).
Definition open_existing_directory : Storage Z :=
  _ ← io absolute;
  directory ← initial open_directory_path;
  _ ← validate_directory_handle directory true;
  mret directory.
Definition open_child_directory (d : Z) (name : text) : Storage Z :=
  _ ← require_direct_directory_name d name;
  directory ← initial (open_directory d name);
  _ ← validate_directory_handle directory true;
  mret directory.
Definition open_lock_file (d : Z) (name : text) : Storage (Z * MetadataFingerprint.t) :=
  file ← initial (open_file d name ShareLifecycle);
  _ ← validate_regular_file file true;
  fingerprint ← io (MetadataFingerprint.from_file file);
  mret (file, fingerprint).

(** [create_directory], [set_private_permissions] and
    [ensure_child_directory]. *)
Definition create_directory (d : Z) (name : text) : Storage unit :=
  created ← attempt (call (fun env n f => mkdirat (now env n) d name f));
  match created with
  | Ok _ => mret tt
  | Err e => if bool_decide (e = Os EEXIST) then mret tt else raise (map_initial_error e)
  | Panic => value Panic
  end.
Definition set_private_permissions (d : Z) : Storage unit :=
  io (call (fun env n f => fchmod (now env n) private_directory d f)).
Definition ensure_child_directory (d : Z) (name : text) : Storage Z :=
  _ ← create_directory d name;
  _ ← require_direct_directory_name d name;
  directory ← initial (open_directory d name);
  _ ← validate_directory_handle directory true;
  _ ← set_private_permissions directory;
  mret directory.

(** [open_or_create_lock_file]. *)
Definition open_or_create_lock_file (d : Z) (name : text) : Storage (Z * MetadataFingerprint.t) :=
  entry ← inspect_entry d name;
  if match entry with Some entry => es_indirect entry || negb (es_direct_regular_file entry) | None => false end
  then raise UnsafeStorageLayout
  else
    file ← initial (call (fun env n f => open_or_create (now env n) d name f));
    _ ← validate_regular_file file true;
    fingerprint ← io (MetadataFingerprint.from_file file);
    mret (file, fingerprint).

(** ** Existing storage ([existing.rs]) *)

Inductive LifecycleLockMode := Shared | Exclusive.

(** The open files; the exclusive lock is a capability with no content. *)
Record ExistingArtifactStorage := {
  es_root : Z;
  es_artifacts : Z;
  es_lock : Z;
  es_exclusive_lock : bool
}.

(** [lock_shared] and [ExclusiveArtifactLifecycleLock::try_acquire]; the
    environment decides whether somebody holds the lock. *)
Definition try_lock {E} (in_use : E) (storage_io : IoError -> E) : Io E unit :=
  map_error (fun e => if bool_decide (kind e = WouldBlock) then in_use else storage_io e) (look (fun _ _ _ => Ok tt)).
Definition lock_storage : Storage unit := try_lock ArtifactInventoryError.StorageInUse ArtifactInventoryError.StorageIo.

Record ArtifactStorageLayoutFingerprint := {
  lf_root : MetadataFingerprint.t;
  lf_lock_path : MetadataFingerprint.t;
  lf_artifacts : MetadataFingerprint.t
}.
#[export] Instance layout_fingerprint_eq_dec : EqDecision ArtifactStorageLayoutFingerprint.
Proof. solve_decision. Defined.

(** [validate_layout]. *)
Definition validate_layout (s : ExistingArtifactStorage) : Storage ArtifactStorageLayoutFingerprint :=
  root ← directory_fingerprint (es_root s);
  path ← fingerprint_path;
  if negb (bool_decide (root = path)) then raise ConcurrentModification
  else
    lock_path ← child_file_fingerprint (es_root s) LIFECYCLE_LOCK_FILE;
    lock ← fingerprint_std_file (es_lock s);
    if negb (bool_decide (lock_path = lock)) then raise ConcurrentModification
    else
      artifacts ← directory_fingerprint (es_artifacts s);
      child ← child_directory_fingerprint (es_root s) (lit "artifacts");
      if negb (bool_decide (artifacts = child)) then raise ConcurrentModification
      else mret {| lf_root := root; lf_lock_path := lock_path; lf_artifacts := artifacts |}.

(** [ExistingArtifactStorage::open]. *)
Definition open_storage (lock_mode : LifecycleLockMode) : Storage ExistingArtifactStorage :=
  _ ← io absolute;
  root ← open_existing_directory;
  '(lock, _) ← open_lock_file root LIFECYCLE_LOCK_FILE;
  exclusive ← match lock_mode with
              | Shared => _ ← lock_storage; mret false
              | Exclusive => _ ← io (look (fun _ _ _ => Ok tt)); _ ← lock_storage; mret true
              end;
  artifacts ← open_child_directory root (lit "artifacts");
  let storage := {| es_root := root; es_artifacts := artifacts; es_lock := lock; es_exclusive_lock := exclusive |} in
  _ ← validate_layout storage;
  mret storage.

(** [exclusive_lifecycle_lock]. *)
Definition exclusive_lifecycle_lock (s : ExistingArtifactStorage) : Storage unit :=
  if es_exclusive_lock s then mret tt else raise UnsafeStorageLayout.

(** ** Exact artifacts ([verification.rs]) *)

Definition VERIFY_BUFFER_BYTES : Z := 1048576.

Inductive ExactArtifactVerificationError :=
| Boundary (e : ArtifactInventoryError.t) | Missing | SizeMismatch | DigestMismatch | Aliased.

Record ExactArtifactExpectation := { ea_byte_size : Z; ea_digest : Digest.t; ea_maximum_entries : Z }.
Record VerifiedManagedArtifact := { vm_file : Z; vm_fingerprint : MetadataFingerprint.t }.
Inductive VerificationMode := Synchronized | RemovalMode | ReadOnly.

(** [Read::read] with a buffer: one byte at least unless the file is at its
    end. *)
Definition read_count (env : Environment) (n : nat) (buffer left : Z) : Z := Z.min (Z.max 1 (short env n)) (Z.min buffer left).
Definition read_file (file position buffer : Z) : Io IoError bytes :=
  look (fun env n f =>
    match node_at f file with
    | Some (RegularFile c _) => read_at file position (read_count env n buffer (vlen c - position)) f
    | _ => read_at file position 0 f
    end).

Section Exact.
Context {SHA : Sha256}.

(** [Digest::from_sha256_hex] on the digest of the bytes that were read. *)
Definition finish_hash {E} (mismatch : E) (b : bytes) : Result E Digest.t :=
  map_err (fun _ => mismatch) (Digest.from_sha256_hex (sha256_hex b)).

(** The loop of [hash_exact]; [hashed] is what the hasher was given. *)
Fixpoint hash_loop (fuel : nat) (file expected_size : Z) (token : Token) (progress : Z -> Io ExactArtifactVerificationError unit)
    (hashed : bytes) (observed_size : Z) : Io ExactArtifactVerificationError Digest.t :=
  match fuel with
  | O => value Panic
  | S fuel' =>
      _ ← ensure_not_cancelled (Boundary ArtifactInventoryError.Cancelled) token;
      chunk ← map_error (fun e => Boundary (ArtifactInventoryError.StorageIo e)) (read_file file observed_size VERIFY_BUFFER_BYTES);
      if vlen chunk =? 0 then
        if negb (observed_size =? expected_size) then raise SizeMismatch
        else value (finish_hash DigestMismatch hashed)
      else
        count ← value (ok_or (try_from u64_max (vlen chunk)) SizeMismatch);
        observed_size ← value (ok_or (checked_add u64_max observed_size count) SizeMismatch);
        if expected_size <? observed_size then raise SizeMismatch
        else
          _ ← progress observed_size;
          _ ← ensure_not_cancelled (Boundary ArtifactInventoryError.Cancelled) token;
          hash_loop fuel' file expected_size token progress (hashed ++ chunk) observed_size
  end.

(** [hash_exact]; every round but the last reads a byte, and no more than one
    byte too many is read. *)
Definition hash_exact (file expected_size : Z) (token : Token) (progress : Z -> Io ExactArtifactVerificationError unit)
  : Io ExactArtifactVerificationError Digest.t :=
  hash_loop (S (S (Z.to_nat expected_size))) file expected_size token progress [] 0.

(** [verify_exact_artifact_with], under the names [verify_exact_artifact],
    [verify_exact_artifact_for_removal] and
    [verify_exact_artifact_for_runtime]. *)
Definition verify_exact_artifact_with (artifacts : Z) (name : text) (expectation : ExactArtifactExpectation) (token : Token)
    (progress : Z -> Io ExactArtifactVerificationError unit) (mode : VerificationMode)
  : Io ExactArtifactVerificationError VerifiedManagedArtifact :=
  managed ← map_error Boundary
    (open_managed_file_with_share artifacts name
       match mode with Synchronized => ShareSync | RemovalMode => ShareRemoval | ReadOnly => ShareVerification end
       (ea_maximum_entries expectation) token);
  managed ← value (ok_or managed Missing);
  if negb (mf_byte_size managed =? ea_byte_size expectation) then raise SizeMismatch
  else if negb (MetadataFingerprint.has_single_link (mf_fingerprint managed)) then raise Aliased
  else
    let file := mf_file managed in
    observed ← attempt (hash_exact file (ea_byte_size expectation) token progress);
    after_hash ← map_error Boundary (io (MetadataFingerprint.from_file file));
    if negb (bool_decide (after_hash = mf_fingerprint managed)) || negb (MetadataFingerprint.has_single_link after_hash)
    then raise (Boundary ConcurrentModification)
    else
      observed ← value observed;
      if negb (bool_decide (observed = ea_digest expectation)) then raise DigestMismatch
      else
        _ ← match mode with Synchronized => map_error Boundary (io (sync_all file)) | _ => mret tt end;
        _ ← map_error Boundary
              (recheck_managed_file_with_share artifacts name (mf_fingerprint managed)
                 match mode with RemovalMode => ShareRemoval | _ => ShareLifecycle end (ea_maximum_entries expectation) token);
        _ ← match mode with ReadOnly => mret tt | _ => map_error Boundary (sync artifacts) end;
        mret {| vm_file := file; vm_fingerprint := mf_fingerprint managed |}.

End Exact.

(** [recheck_for_removal] and [recheck_and_remove]. *)
Definition recheck_for_removal (v : VerifiedManagedArtifact) (artifacts : Z) (name : text) (maximum_entries : Z) : Storage unit :=
  current ← io (MetadataFingerprint.from_file (vm_file v));
  if negb (bool_decide (current = vm_fingerprint v)) || negb (MetadataFingerprint.has_single_link current)
  then raise ConcurrentModification
  else recheck_managed_file_with_share artifacts name (vm_fingerprint v) ShareRemoval maximum_entries FreshToken.
Definition recheck_and_remove (v : VerifiedManagedArtifact) (artifacts : Z) (name : text) (maximum_entries : Z) : Storage unit :=
  current ← io (MetadataFingerprint.from_file (vm_file v));
  if negb (bool_decide (current = vm_fingerprint v)) || negb (MetadataFingerprint.has_single_link current)
  then raise ConcurrentModification
  else remove_held_managed_file artifacts name (vm_file v) (vm_fingerprint v) maximum_entries.
