(* ===== verification/ArtifactRemoval.v ===== *)
(** * Removal of one artifact ([app/src/artifact_removal.rs]).

    The service removes the bytes of one exact inactive installation: it
    verifies them, prepares the removal in the database, unlinks the file,
    synchronizes the directory and completes the removal.  A retry of the same
    selection resumes a removal that was prepared. *)

From S2P Require Import Prelude Text Document Claims Json Extractor Model ModelJson StoreDb ModelStore FileSystem StorageIo ArtifactStorage.

(** ** Contract ([contract.rs]) *)

Record ArtifactRemovalLimits := { rl_maximum_artifact_bytes : Z; rl_maximum_storage_entries : Z }.
Inductive ArtifactRemovalDisposition := Removed | Recovered | AlreadyRemoved.
Record ArtifactRemovalResult := {
  rr_selection : StoredArtifactInstallation.t;
  rr_disposition : ArtifactRemovalDisposition
}.

Module ArtifactRemovalError.

(** [ArtifactRemovalRecoveryError]. *)
Inductive Recovery := RecoveryStorage | RecoveryStorageIo (e : IoError) | RecoveryState (e : StoreError.t).

Inductive t :=
| InvalidLimits | InvalidSelection | ArtifactTooLarge (actual maximum : Z) | StorageNotInitialized | UnsafeStorageLayout
| StorageInUse | StorageEntryLimitExceeded | StaleSelection | ActiveArtifact | BytesMissing | StorageConflict
| StorageChanged | Cancelled | StorageIo (e : IoError) | StateCorrupt (e : StoreError.t) | State (e : StoreError.t)
| RecoveryRequired (e : Recovery).

End ArtifactRemovalError.

Abbreviation Removal := (Io ArtifactRemovalError.t).

(** [map_open_error], [map_storage_error] and [map_verification_error]. *)
Definition removal_open_error (e : ArtifactInventoryError.t) : ArtifactRemovalError.t :=
  match e with
  | ArtifactInventoryError.StorageNotInitialized => ArtifactRemovalError.StorageNotInitialized
  | ArtifactInventoryError.UnsafeStorageLayout | ArtifactInventoryError.InvalidLimits
  | ArtifactInventoryError.StateEntryLimitExceeded | ArtifactInventoryError.TotalVerificationLimitExceeded
  | ArtifactInventoryError.State _ => ArtifactRemovalError.UnsafeStorageLayout
  | ArtifactInventoryError.StorageInUse => ArtifactRemovalError.StorageInUse
  | ArtifactInventoryError.StorageEntryLimitExceeded => ArtifactRemovalError.StorageEntryLimitExceeded
  | ArtifactInventoryError.Cancelled => ArtifactRemovalError.Cancelled
  | ArtifactInventoryError.StorageIo e => ArtifactRemovalError.StorageIo e
  | ArtifactInventoryError.ConcurrentModification => ArtifactRemovalError.StorageChanged
  end.
Definition removal_storage_error (e : ArtifactInventoryError.t) : ArtifactRemovalError.t :=
  match e with
  | ArtifactInventoryError.ConcurrentModification | ArtifactInventoryError.StorageNotInitialized
  | ArtifactInventoryError.UnsafeStorageLayout => ArtifactRemovalError.StorageChanged
  | other => removal_open_error other
  end.
Definition removal_verification_error (e : ExactArtifactVerificationError) : ArtifactRemovalError.t :=
  match e with
  | Boundary e => removal_storage_error e
  | Missing => ArtifactRemovalError.BytesMissing
  | SizeMismatch | DigestMismatch => ArtifactRemovalError.StorageConflict
  | Aliased => ArtifactRemovalError.StorageChanged
  end.

(** [map_store_error]. *)
Definition removal_store_error (e : StoreError.t) : ArtifactRemovalError.t :=
  match e with
  | StoreError.ActiveArtifact => ArtifactRemovalError.ActiveArtifact
  | StoreError.StaleInstallation | StoreError.MissingRecord => ArtifactRemovalError.StaleSelection
  | StoreError.Serialization | StoreError.InvalidManifest _ | StoreError.InvalidInstallation _ | StoreError.RecordTooLarge
  | StoreError.CorruptRecord | StoreError.InvalidActiveBinding => ArtifactRemovalError.StateCorrupt e
  | other => ArtifactRemovalError.State other
  end.

(** [map_recovery_storage_error], [map_prepared_error] and
    [annotate_storage_error]; an annotated error keeps only its kind. *)
Definition recovery_storage_error (e : ArtifactInventoryError.t) : ArtifactRemovalError.Recovery :=
  match e with
  | ArtifactInventoryError.StorageIo e => ArtifactRemovalError.RecoveryStorageIo e
  | _ => ArtifactRemovalError.RecoveryStorage
  end.
Definition map_prepared_error (e : ArtifactRemovalError.t) : ArtifactRemovalError.t :=
  match e with
  | ArtifactRemovalError.StorageIo source => ArtifactRemovalError.RecoveryRequired (ArtifactRemovalError.RecoveryStorageIo source)
  | _ => ArtifactRemovalError.RecoveryRequired ArtifactRemovalError.RecoveryStorage
  end.
Definition annotate_storage_error (e : ArtifactInventoryError.t) : ArtifactInventoryError.t :=
  match e with
  | ArtifactInventoryError.StorageIo source => ArtifactInventoryError.StorageIo (Custom (kind source))
  | other => other
  end.

(** [validate_limits]. *)
Definition valid_limits (maximum_artifact_bytes maximum_storage_entries : Z) : bool :=
  negb ((maximum_artifact_bytes =? 0) || (maximum_storage_entries =? 0)
        || bool_decide (checked_add usize_max maximum_storage_entries 1 = None)).

(** [managed_storage_key]. *)
Definition managed_storage_key (d : Digest.t) : text := lit "artifacts/" ++ Digest.as_str d.

(** [validate_request]. *)
Definition validate_removal_request (selection : StoredArtifactInstallation.t) : Result ArtifactRemovalError.t unit :=
  let installed := StoredArtifactInstallation.installed selection in
  _ ← map_err (fun _ => ArtifactRemovalError.InvalidSelection) (InstalledArtifact.validate installed);
  if Epoch.get (StoredArtifactInstallation.epoch selection) =? 0 then Err ArtifactRemovalError.InvalidSelection
  else if negb (text_eqb (InstalledArtifact.storage_key installed) (lit "artifacts/" ++ Digest.as_str (InstalledArtifact.artifact_digest installed)))
  then Err ArtifactRemovalError.InvalidSelection
  else Ok tt.

(** Whether the journal holds the selection in a phase. *)
Definition removal_in (phase : ArtifactRemovalPhase) (selection : StoredArtifactInstallation.t) (removal : option StoredArtifactRemoval.t)
  : bool :=
  match removal with
  | Some value =>
      bool_decide (StoredArtifactRemoval.selection value = selection) && bool_decide (StoredArtifactRemoval.phase value = phase)
  | None => false
  end.

Section Service.
Context {SHA : Sha256} {JSON : JsonCodec}.

Record ArtifactRemovalService := { rs_storage : ExistingArtifactStorage; rs_limits : ArtifactRemovalLimits }.

(** [open_existing]. *)
Definition open_removal (limits : ArtifactRemovalLimits) : Removal ArtifactRemovalService :=
  if negb (valid_limits (rl_maximum_artifact_bytes limits) (rl_maximum_storage_entries limits))
  then raise ArtifactRemovalError.InvalidLimits
  else
    storage ← map_error removal_open_error (open_storage Exclusive);
    mret {| rs_storage := storage; rs_limits := limits |}.

(** [report_progress]. *)
Definition report_removal {E} (stage : ArtifactRemovalStage.t) (completed_bytes total_bytes : Z) : Io E unit :=
  report (ArtifactRemovalProgress stage completed_bytes total_bytes).

Definition not_cancelled : Removal unit := ensure_not_cancelled ArtifactRemovalError.Cancelled CallerToken.

(** [prepare_state]. *)
Definition prepare_state (s : ArtifactRemovalService) (selection : StoredArtifactInstallation.t) : Removal RemovalPreparationDisposition :=
  _ ← map_error removal_storage_error (exclusive_lifecycle_lock (rs_storage s));
  map_error removal_store_error (sql (prepare_artifact_removal selection)).

(** [verify]. *)
Definition verify_removal (s : ArtifactRemovalService) (name : text) (selection : StoredArtifactInstallation.t) (token : Token)
    (recovering : bool) : Removal (option VerifiedManagedArtifact) :=
  let installed := StoredArtifactInstallation.installed selection in
  let total := InstalledArtifact.byte_size installed in
  _ ← (if recovering then mret tt else report_removal ArtifactRemovalStage.VerifyingInactiveBytes 0 total);
  verified ← attempt (verify_exact_artifact_with (es_artifacts (rs_storage s)) name
    {| ea_byte_size := total; ea_digest := InstalledArtifact.artifact_digest installed;
       ea_maximum_entries := rl_maximum_storage_entries (rs_limits s) |} token
    (fun completed => if recovering then mret tt else report_removal ArtifactRemovalStage.VerifyingInactiveBytes completed total) RemovalMode);
  match verified with
  | Ok verified => mret (Some verified)
  | Err Missing => if recovering then mret None else raise (removal_verification_error Missing)
  | Err error => raise (removal_verification_error error)
  | Panic => value Panic
  end.

(** [finish_prepared]. *)
Definition finish_prepared (s : ArtifactRemovalService) (name : text) (selection : StoredArtifactInstallation.t)
    (verified : option VerifiedManagedArtifact) : Removal unit :=
  let artifacts := es_artifacts (rs_storage s) in
  let maximum := rl_maximum_storage_entries (rs_limits s) in
  let recovery e := ArtifactRemovalError.RecoveryRequired (recovery_storage_error e) in
  _ ← map_error recovery
        (_ ← match verified with
             | Some verified => map_error annotate_storage_error (recheck_and_remove verified artifacts name maximum)
             | None => confirm_managed_file_absent artifacts name maximum
             end;
         _ ← map_error annotate_storage_error (sync artifacts);
         _ ← map_error annotate_storage_error (validate_layout (rs_storage s));
         mret tt);
  _ ← map_error recovery (exclusive_lifecycle_lock (rs_storage s));
  _ ← map_error (fun e => ArtifactRemovalError.RecoveryRequired (ArtifactRemovalError.RecoveryState e))
        (sql (complete_artifact_removal selection));
  mret tt.

(** [remove]. *)
Definition remove (s : ArtifactRemovalService) (selection : StoredArtifactInstallation.t) : Removal ArtifactRemovalResult :=
  let installed := StoredArtifactInstallation.installed selection in
  let result disposition := {| rr_selection := selection; rr_disposition := disposition |} in
  _ ← value (validate_removal_request selection);
  _ ← map_error removal_storage_error (validate_layout (rs_storage s));
  let total := InstalledArtifact.byte_size installed in
  '(current, removal) ← map_error removal_store_error (sql (artifact_removal_state (InstalledArtifact.artifact_id installed)));
  if removal_in Completed selection removal then mret (result AlreadyRemoved)
  else
    let recovering := removal_in Prepared selection removal in
    if rl_maximum_artifact_bytes (rs_limits s) <? total then
      if recovering then raise (ArtifactRemovalError.RecoveryRequired ArtifactRemovalError.RecoveryStorage)
      else raise (ArtifactRemovalError.ArtifactTooLarge total (rl_maximum_artifact_bytes (rs_limits s)))
    else if negb recovering && negb (bool_decide (current = Some selection)) then raise ArtifactRemovalError.StaleSelection
    else
      _ ← (if recovering then mret tt
           else _ ← not_cancelled; _ ← report_removal ArtifactRemovalStage.InspectingSelection 0 total; not_cancelled);
      let name := Digest.as_str (InstalledArtifact.artifact_digest installed) in
      verified ← map_error (fun e => if recovering then map_prepared_error e else e)
                   (verify_removal s name selection (if recovering then FreshToken else CallerToken) recovering);
      _ ← (if recovering then mret tt
           else
             _ ← report_removal ArtifactRemovalStage.PreparingRemoval 0 total;
             _ ← not_cancelled;
             _ ← map_error removal_storage_error (validate_layout (rs_storage s));
             match verified with
             | Some verified =>
                 map_error removal_storage_error
                   (recheck_for_removal verified (es_artifacts (rs_storage s)) name (rl_maximum_storage_entries (rs_limits s)))
             | None => mret tt
             end);
      prepared ← prepare_state s selection;
      match prepared with
      | PreparationAlreadyCompleted => mret (result AlreadyRemoved)
      | _ =>
          _ ← finish_prepared s name selection verified;
          mret (result (if recovering then Recovered else Removed))
      end.

(** Open the service and remove a selection. *)
Definition remove_selection (limits : ArtifactRemovalLimits) (selection : StoredArtifactInstallation.t) : Removal ArtifactRemovalResult :=
  s ← open_removal limits; remove s selection.

End Service.
