(* ===== verification/ArtifactImport.v ===== *)
(** * Import of one artifact ([app/src/artifact_import.rs]).

    Import copies and hashes a file of the caller into a staging directory,
    links it under its digest, verifies and synchronizes the final file and
    registers it. *)

From S2P Require Import Prelude Text Document Claims Json Extractor Model ModelJson StoreDb ModelStore FileSystem StorageIo ArtifactStorage.
From S2P Require Import ArtifactRemoval.

(** ** Contract of the import *)

Record OfflineArtifactImportRequest := { ir_manifest : ArtifactManifest.t }.
Record ArtifactImportLimits := { il_maximum_artifact_bytes : Z; il_maximum_storage_entries : Z }.
Record ArtifactImportResult := { ires_installed : InstalledArtifact.t; ires_state : InstallationWriteDisposition }.

Module ArtifactImportError.

Inductive t :=
| InvalidLimits | InvalidManifest (e : ManifestError) | SourceIo (e : IoError) | IndirectSource | SourceNotRegular
| ArtifactTooLarge (actual maximum : Z) | SizeMismatch | DigestMismatch | Cancelled | UnsafeStorageLayout | StorageInUse
| StorageChanged | StagingEntryLimitExceeded | StorageEntryLimitExceeded | StorageIo (e : IoError) | StorageConflict
| State (e : StoreError.t) | RemovalPending (selection : option StoredArtifactInstallation.t).

End ArtifactImportError.

Abbreviation Import_ := (Io ArtifactImportError.t).

(** ** Errors of the boundary ([boundary.rs], [verify.rs]) *)

(** [map_open_error], [map_recovery_error], [map_storage_error],
    [map_verification_error] and [map_state_error]. *)
Definition import_open_error (e : ArtifactInventoryError.t) : ArtifactImportError.t :=
  match e with
  | ArtifactInventoryError.InvalidLimits => ArtifactImportError.InvalidLimits
  | ArtifactInventoryError.StorageNotInitialized | ArtifactInventoryError.UnsafeStorageLayout => ArtifactImportError.UnsafeStorageLayout
  | ArtifactInventoryError.StorageInUse => ArtifactImportError.StorageInUse
  | ArtifactInventoryError.StorageEntryLimitExceeded => ArtifactImportError.StagingEntryLimitExceeded
  | ArtifactInventoryError.Cancelled => ArtifactImportError.Cancelled
  | ArtifactInventoryError.StorageIo e => ArtifactImportError.StorageIo e
  | ArtifactInventoryError.State e => ArtifactImportError.State e
  | ArtifactInventoryError.StateEntryLimitExceeded | ArtifactInventoryError.TotalVerificationLimitExceeded =>
      ArtifactImportError.StorageConflict
  | ArtifactInventoryError.ConcurrentModification => ArtifactImportError.StorageChanged
  end.
Definition import_recovery_error (e : ArtifactInventoryError.t) : ArtifactImportError.t :=
  match e with
  | ArtifactInventoryError.StorageEntryLimitExceeded => ArtifactImportError.StagingEntryLimitExceeded
  | other => import_open_error other
  end.
Definition import_storage_error (e : ArtifactInventoryError.t) : ArtifactImportError.t :=
  match e with
  | ArtifactInventoryError.StorageEntryLimitExceeded => ArtifactImportError.StorageEntryLimitExceeded
  | ArtifactInventoryError.StorageNotInitialized | ArtifactInventoryError.StateEntryLimitExceeded
  | ArtifactInventoryError.TotalVerificationLimitExceeded => ArtifactImportError.StorageConflict
  | ArtifactInventoryError.ConcurrentModification => ArtifactImportError.StorageChanged
  | other => import_open_error other
  end.
Definition import_verification_error (e : ExactArtifactVerificationError) : ArtifactImportError.t :=
  match e with
  | Boundary e => import_storage_error e
  | Missing | Aliased => ArtifactImportError.StorageChanged
  | SizeMismatch | DigestMismatch => ArtifactImportError.StorageConflict
  end.
Definition import_state_error (e : StoreError.t) : ArtifactImportError.t :=
  match e with
  | StoreError.RemovalPending => ArtifactImportError.RemovalPending None
  | other => ArtifactImportError.State other
  end.

Definition COPY_BUFFER_BYTES : Z := 1048576.
Definition STAGING_PREFIX : text := lit ".import-".
Definition MAX_RECOVERY_ENTRIES : Z := 1024.

(** The calls whose errors are [StorageIo]. *)
Definition import_io {A} (m : Io IoError A) : Import_ A := map_error ArtifactImportError.StorageIo m.
Definition import_not_cancelled : Import_ unit := ensure_not_cancelled ArtifactImportError.Cancelled CallerToken.

(** [report_progress]. *)
Definition report_import {E} (stage : ArtifactImportStage) (completed_bytes total_bytes : Z) : Io E unit :=
  report (ArtifactImportProgress stage completed_bytes total_bytes).

(** ** Opening the storage *)

(** [ensure_root_directory] with [set_private_directory_permissions], and
    [sync_parent_directory] with [sync_directory]; the root path is one with a
    parent. *)
Definition ensure_root_directory : Import_ unit :=
  created ← attempt (call (fun env n f => create_root (now env n) f));
  _ ← match created with
      | Ok _ => mret tt
      | Err e => if bool_decide (kind e = AlreadyExists) then mret tt else raise (ArtifactImportError.StorageIo e)
      | Panic => value Panic
      end;
  metadata ← import_io (look (fun _ _ f => stat_root f));
  if negb (is_dir metadata) || is_indirect metadata then raise ArtifactImportError.UnsafeStorageLayout
  else import_io (call (fun env n f => match root f with
                                       | Some d => fchmod (now env n) private_directory d f
                                       | None => (Err (Os ENOENT), f)
                                       end)).
Definition sync_parent_directory : Import_ unit :=
  direct ← import_io (look (fun env n _ => Ok (parent_direct env n)));
  if negb direct then raise ArtifactImportError.UnsafeStorageLayout
  else
    _ ← import_io (look (fun _ _ _ => Ok tt));
    import_io (call (fun _ _ f => sync_root_parent f)).

Record OfflineArtifactImportService := {
  is_root : Z;
  is_artifacts : Z;
  is_staging : Z;
  is_limits : ArtifactImportLimits;
  is_lock : Z
}.

(** [validate_storage_layout]. *)
Definition validate_storage_layout (s : OfflineArtifactImportService) : Import_ unit :=
  root ← map_error import_storage_error (directory_fingerprint (is_root s));
  path_root ← map_error import_storage_error fingerprint_path;
  if negb (bool_decide (root = path_root)) then raise ArtifactImportError.StorageChanged
  else
    lock_path ← map_error import_storage_error (child_file_fingerprint (is_root s) LIFECYCLE_LOCK_FILE);
    lock_handle ← map_error import_storage_error (fingerprint_std_file (is_lock s));
    if negb (bool_decide (lock_path = lock_handle)) then raise ArtifactImportError.StorageChanged
    else
      artifacts ← map_error import_storage_error (directory_fingerprint (is_artifacts s));
      child ← map_error import_storage_error (child_directory_fingerprint (is_root s) (lit "artifacts"));
      if negb (bool_decide (artifacts = child)) then raise ArtifactImportError.StorageChanged
      else
        staging ← map_error import_storage_error (directory_fingerprint (is_staging s));
        child ← map_error import_storage_error (child_directory_fingerprint (is_root s) (lit ".staging"));
        if negb (bool_decide (staging = child)) then raise ArtifactImportError.StorageChanged
        else mret tt.

(** [open]. *)
Definition open_import (limits : ArtifactImportLimits) : Import_ OfflineArtifactImportService :=
  if negb (valid_limits (il_maximum_artifact_bytes limits) (il_maximum_storage_entries limits))
  then raise ArtifactImportError.InvalidLimits
  else
    _ ← import_io absolute;
    _ ← ensure_root_directory;
    _ ← sync_parent_directory;
    root ← map_error import_open_error open_existing_directory;
    '(lock, _) ← map_error import_open_error (open_or_create_lock_file root LIFECYCLE_LOCK_FILE);
    _ ← try_lock ArtifactImportError.StorageInUse ArtifactImportError.StorageIo;
    staging ← map_error import_open_error (ensure_child_directory root (lit ".staging"));
    artifacts ← map_error import_open_error (ensure_child_directory root (lit "artifacts"));
    _ ← map_error import_open_error (sync root);
    _ ← map_error import_recovery_error (recover_owned_staging staging STAGING_PREFIX MAX_RECOVERY_ENTRIES);
    let service := {| is_root := root; is_artifacts := artifacts; is_staging := staging; is_limits := limits; is_lock := lock |} in
    _ ← validate_storage_layout service;
    mret service.

(** ** The staged file ([staged.rs]) *)

Record StagedArtifact := {
  sa_directory : Z;
  sa_name : text;
  sa_file : Z;
  sa_frozen : option MetadataFingerprint.t
}.

(** [freeze_single_link] and [recheck_frozen_single_link]. *)
Definition freeze_single_link (s : StagedArtifact) : Import_ StagedArtifact :=
  fingerprint ← map_error import_storage_error (fingerprint_std_file (sa_file s));
  if negb (MetadataFingerprint.has_single_link fingerprint) then raise ArtifactImportError.StorageChanged
  else mret {| sa_directory := sa_directory s; sa_name := sa_name s; sa_file := sa_file s; sa_frozen := Some fingerprint |}.
Definition recheck_frozen_single_link (s : StagedArtifact) : Import_ unit :=
  frozen ← value (ok_or (sa_frozen s) ArtifactImportError.StorageChanged);
  _ ← map_error import_recovery_error
        (recheck_managed_file_with_share (sa_directory s) (sa_name s) frozen ShareLifecycle MAX_RECOVERY_ENTRIES CallerToken);
  if MetadataFingerprint.has_single_link frozen then mret tt else raise ArtifactImportError.StorageChanged.

(** [Drop] on a staged file that is still open: a removal that succeeds is
    synchronized; no error is returned. *)
Definition drop_staged {E} (s : StagedArtifact) : Io E unit :=
  removed ← attempt (remove_file_if_same_identity (sa_directory s) (sa_name s) (sa_file s));
  match removed with
  | Ok _ => _ ← attempt (sync (sa_directory s)); mret tt
  | Err _ => mret tt
  | Panic => value Panic
  end.

(** [cleanup]; when the removal fails the file is still open and [Drop] tries
    once more, when the synchronization fails it is closed. *)
Definition cleanup (s : StagedArtifact) : Import_ unit :=
  removed ← attempt (remove_file_if_same_identity (sa_directory s) (sa_name s) (sa_file s));
  match removed with
  | Ok _ => map_error import_storage_error (sync (sa_directory s))
  | Err e => _ ← drop_staged s; raise (import_storage_error e)
  | Panic => value Panic
  end.

(** A computation that owns a staged file: when it returns an error the file
    is dropped. *)
Definition or_drop {A} (s : StagedArtifact) (m : Import_ A) : Import_ A :=
  r ← attempt m;
  match r with
  | Ok a => mret a
  | Err e => _ ← drop_staged s; raise e
  | Panic => value Panic
  end.

(** ** The source *)

(** [open_source]; the file is what the environment says. *)
Definition open_source : Import_ Metadata :=
  path_metadata ← map_error ArtifactImportError.SourceIo (look (fun env n _ => source_metadata env n));
  if is_indirect path_metadata then raise ArtifactImportError.IndirectSource
  else if negb (is_file path_metadata) then raise ArtifactImportError.SourceNotRegular
  else
    _ ← map_error ArtifactImportError.SourceIo (look (fun _ _ _ => Ok tt));
    opened_metadata ← map_error ArtifactImportError.SourceIo (look (fun env n _ => source_metadata env n));
    if is_indirect opened_metadata then raise ArtifactImportError.IndirectSource
    else if negb (is_file opened_metadata) then raise ArtifactImportError.SourceNotRegular
    else mret opened_metadata.

(** [Read::read] on the source and [Write::write_all] on the staged file; a
    write that fails may have written a part. *)
Definition clip (maximum : Z) (b : bytes) : bytes := if maximum <? vlen b then take (Z.to_nat maximum) b else b.
Definition read_source (position : Z) : Io IoError bytes :=
  look (fun env n _ => b ← source_read env n position; Ok (clip COPY_BUFFER_BYTES b)).
Definition write_all (file : Z) (b : bytes) : Io IoError unit := call (fun env n f =>
  match fails env n with
  | Some _ => append (now env n) file (take (Z.to_nat (short env n)) b) f
  | None => append (now env n) file b f
  end).

Section Service.
Context {SHA : Sha256} {JSON : JsonCodec}.

(** The loop of [copy_and_hash]; without a staged file the bytes go to
    [io::sink]. *)
Fixpoint copy_loop (fuel : nat) (staged : option Z) (expected_size : Z) (progress : Z -> Import_ unit) (hashed : bytes)
    (observed_size : Z) : Import_ Digest.t :=
  match fuel with
  | O => value Panic
  | S fuel' =>
      _ ← import_not_cancelled;
      chunk ← map_error ArtifactImportError.SourceIo (read_source observed_size);
      if vlen chunk =? 0 then
        if negb (observed_size =? expected_size) then raise ArtifactImportError.SizeMismatch
        else value (finish_hash ArtifactImportError.DigestMismatch hashed)
      else
        count ← value (ok_or (try_from u64_max (vlen chunk)) ArtifactImportError.SizeMismatch);
        observed_size ← value (ok_or (checked_add u64_max observed_size count) ArtifactImportError.SizeMismatch);
        if expected_size <? observed_size then raise ArtifactImportError.SizeMismatch
        else
          _ ← match staged with Some file => import_io (write_all file chunk) | None => mret tt end;
          _ ← progress observed_size;
          copy_loop fuel' staged expected_size progress (hashed ++ chunk) observed_size
  end.

(** [verify_source_bytes] with [copy_and_hash]. *)
Definition verify_source_bytes (staged : option Z) (manifest : ArtifactManifest.t) : Import_ Digest.t :=
  let stage := match staged with Some _ => StagingAndVerifying | None => VerifyingSource end in
  let total := ArtifactManifest.byte_size manifest in
  _ ← report_import stage 0 total;
  copy_loop (S (S (Z.to_nat total))) staged total (fun completed => report_import stage completed total) [] 0.

(** [verify_source_after_read] and the checks that follow it in [import]. *)
Definition check_source (staged : option Z) (manifest : ArtifactManifest.t) : Import_ unit :=
  observed ← verify_source_bytes staged manifest;
  final_metadata ← map_error ArtifactImportError.SourceIo (look (fun env n _ => source_metadata env n));
  if negb (md_len final_metadata =? ArtifactManifest.byte_size manifest) then raise ArtifactImportError.SizeMismatch
  else if negb (bool_decide (observed = ArtifactManifest.artifact_digest manifest)) then raise ArtifactImportError.DigestMismatch
  else import_not_cancelled.

(** The commit of [commit_staged]. *)
Definition commit_file (s : OfflineArtifactImportService) (staged : StagedArtifact) (destination_name : text) (total_bytes : Z)
  : Import_ unit :=
  _ ← report_import CommittingFile total_bytes total_bytes;
  _ ← import_not_cancelled;
  _ ← recheck_frozen_single_link staged;
  capacity ← map_error import_storage_error
    (exact_entry_capacity (is_artifacts s) destination_name (il_maximum_storage_entries (is_limits s)) CallerToken);
  match capacity with
  | Present => raise ArtifactImportError.StorageChanged
  | Full => raise ArtifactImportError.StorageEntryLimitExceeded
  | Available =>
      _ ← import_io (sync_all (sa_file staged));
      linked ← attempt (call (fun env n f =>
        linkat (now env n) (is_staging s) (sa_name staged) (is_artifacts s) destination_name f));
      match linked with
      | Ok _ => map_error import_storage_error (sync (is_artifacts s))
      | Err e =>
          if bool_decide (kind e = AlreadyExists) then raise ArtifactImportError.StorageChanged
          else raise (ArtifactImportError.StorageIo e)
      | Panic => value Panic
      end
  end.

(** [commit_staged]: the commit, then the cleanup whatever it returned. *)
Definition commit_staged (s : OfflineArtifactImportService) (staged : StagedArtifact) (destination_name : text) (total_bytes : Z)
  : Import_ unit :=
  commit ← attempt (commit_file s staged destination_name total_bytes);
  cleaned ← attempt (cleanup staged);
  _ ← value commit;
  value cleaned.

(** [validate_request]. *)
Definition validate_import_request (s : OfflineArtifactImportService) (manifest : ArtifactManifest.t) : Result ArtifactImportError.t unit :=
  _ ← map_err ArtifactImportError.InvalidManifest (ArtifactManifest.validate manifest);
  if il_maximum_artifact_bytes (is_limits s) <? ArtifactManifest.byte_size manifest
  then Err (ArtifactImportError.ArtifactTooLarge (ArtifactManifest.byte_size manifest) (il_maximum_artifact_bytes (is_limits s)))
  else Ok tt.

(** A removal that was prepared and not completed. *)
Definition pending_removal (current : option StoredArtifactInstallation.t) (removal : option StoredArtifactRemoval.t)
  : option StoredArtifactInstallation.t :=
  match current, removal with
  | None, Some value =>
      if bool_decide (StoredArtifactRemoval.phase value = Prepared) then Some (StoredArtifactRemoval.selection value) else None
  | _, _ => None
  end.

(** The installation a manifest describes ([installed_from]). *)
Definition installed_from (manifest : ArtifactManifest.t) : InstalledArtifact.t := {|
  InstalledArtifact.artifact_id := ArtifactManifest.artifact_id manifest;
  InstalledArtifact.artifact_digest := ArtifactManifest.artifact_digest manifest;
  InstalledArtifact.byte_size := ArtifactManifest.byte_size manifest;
  InstalledArtifact.storage_key := managed_storage_key (ArtifactManifest.artifact_digest manifest) |}.

(** The part of [import] that places the bytes under their digest. *)
Definition place_bytes (s : OfflineArtifactImportService) (manifest : ArtifactManifest.t) (destination_name : text) : Import_ unit :=
  destination ← map_error import_storage_error
    (open_managed_file_with_share (is_artifacts s) destination_name ShareVerification
       (il_maximum_storage_entries (is_limits s)) CallerToken);
  match destination with
  | Some _ => check_source None manifest
  | None =>
      '(name, file) ← map_error import_recovery_error
        (create_staging_file (is_staging s) STAGING_PREFIX MAX_RECOVERY_ENTRIES CallerToken);
      let staged := {| sa_directory := is_staging s; sa_name := name; sa_file := file; sa_frozen := None |} in
      staged ← or_drop staged (_ ← check_source (Some file) manifest; freeze_single_link staged);
      commit_staged s staged destination_name (ArtifactManifest.byte_size manifest)
  end.

(** [verify_stored_file]. *)
Definition verify_stored_file (directory : Z) (name : text) (manifest : ArtifactManifest.t) (maximum_storage_entries : Z)
  : Import_ VerifiedManagedArtifact :=
  map_error import_verification_error
    (verify_exact_artifact_with directory name
       {| ea_byte_size := ArtifactManifest.byte_size manifest; ea_digest := ArtifactManifest.artifact_digest manifest;
          ea_maximum_entries := maximum_storage_entries |} CallerToken (fun _ => mret tt) Synchronized).

(** [import]. *)
Definition import (s : OfflineArtifactImportService) (request : OfflineArtifactImportRequest) : Import_ ArtifactImportResult :=
  let manifest := ir_manifest request in
  _ ← import_not_cancelled;
  _ ← validate_storage_layout s;
  _ ← value (validate_import_request s manifest);
  '(current, removal) ← map_error ArtifactImportError.State (sql (artifact_removal_state (ArtifactManifest.artifact_id manifest)));
  match pending_removal current removal with
  | Some selection => raise (ArtifactImportError.RemovalPending (Some selection))
  | None =>
      _ ← report_import InspectingSource 0 (ArtifactManifest.byte_size manifest);
      initial_metadata ← open_source;
      if negb (md_len initial_metadata =? ArtifactManifest.byte_size manifest) then raise ArtifactImportError.SizeMismatch
      else
        let destination_name := Digest.as_str (ArtifactManifest.artifact_digest manifest) in
        _ ← place_bytes s manifest destination_name;
        let installed := installed_from manifest in
        _ ← report_import Finalizing 0 (ArtifactManifest.byte_size manifest);
        _ ← import_not_cancelled;
        _ ← verify_stored_file (is_artifacts s) destination_name manifest (il_maximum_storage_entries (is_limits s));
        _ ← validate_storage_layout s;
        _ ← import_not_cancelled;
        state ← map_error import_state_error (sql (put_installation manifest installed));
        mret {| ires_installed := installed; ires_state := state |}
  end.

(** Open the service and import a file. *)
Definition import_artifact (limits : ArtifactImportLimits) (request : OfflineArtifactImportRequest) : Import_ ArtifactImportResult :=
  s ← open_import limits; import s request.

End Service.
