(* ===== verification/ArtifactReconciliation.v ===== *)
(** * Registration of an orphan ([app/src/artifact_reconciliation.rs]).

    Reconciliation registers one file that is already under its digest, after
    it has verified and synchronized the file.  It changes no bytes. *)

From S2P Require Import Prelude Text Document Claims Json Extractor Model ModelJson StoreDb ModelStore FileSystem StorageIo ArtifactStorage.
From S2P Require Import ArtifactRemoval ArtifactImport.

(** ** Contract ([contract.rs]) *)

Record ArtifactReconciliationLimits := { cl_maximum_artifact_bytes : Z; cl_maximum_storage_entries : Z }.
Inductive ArtifactReconciliationDisposition := Registered | AlreadyRegistered.
Record ArtifactOrphanReconciliationResult := {
  cr_installed : InstalledArtifact.t;
  cr_installation : StoredArtifactInstallation.t;
  cr_disposition : ArtifactReconciliationDisposition
}.

Module ArtifactReconciliationError.

Inductive t :=
| InvalidLimits | InvalidManifest (e : ManifestError) | ArtifactTooLarge (actual maximum : Z) | StorageNotInitialized
| UnsafeStorageLayout | StorageInUse | StorageEntryLimitExceeded | OrphanNotFound | StorageChanged | StorageConflict
| Cancelled | StorageIo (e : IoError) | StateConflict | StateCorrupt (e : StoreError.t) | State (e : StoreError.t)
| RemovalPending (selection : option StoredArtifactInstallation.t).

End ArtifactReconciliationError.

Abbreviation Reconciliation := (Io ArtifactReconciliationError.t).

(** [map_open_error], [map_storage_error], [map_verification_error] and
    [map_store_error]. *)
Definition reconciliation_open_error (e : ArtifactInventoryError.t) : ArtifactReconciliationError.t :=
  match e with
  | ArtifactInventoryError.StorageNotInitialized => ArtifactReconciliationError.StorageNotInitialized
  | ArtifactInventoryError.UnsafeStorageLayout => ArtifactReconciliationError.UnsafeStorageLayout
  | ArtifactInventoryError.StorageInUse => ArtifactReconciliationError.StorageInUse
  | ArtifactInventoryError.StorageIo e => ArtifactReconciliationError.StorageIo e
  | ArtifactInventoryError.ConcurrentModification => ArtifactReconciliationError.StorageChanged
  | ArtifactInventoryError.StorageEntryLimitExceeded => ArtifactReconciliationError.StorageEntryLimitExceeded
  | ArtifactInventoryError.Cancelled => ArtifactReconciliationError.Cancelled
  | ArtifactInventoryError.InvalidLimits | ArtifactInventoryError.StateEntryLimitExceeded
  | ArtifactInventoryError.TotalVerificationLimitExceeded | ArtifactInventoryError.State _ =>
      ArtifactReconciliationError.UnsafeStorageLayout
  end.
Definition reconciliation_storage_error (e : ArtifactInventoryError.t) : ArtifactReconciliationError.t :=
  match e with
  | ArtifactInventoryError.UnsafeStorageLayout | ArtifactInventoryError.ConcurrentModification
  | ArtifactInventoryError.StorageNotInitialized => ArtifactReconciliationError.StorageChanged
  | other => reconciliation_open_error other
  end.
Definition reconciliation_verification_error (e : ExactArtifactVerificationError) : ArtifactReconciliationError.t :=
  match e with
  | Boundary e => reconciliation_storage_error e
  | Missing => ArtifactReconciliationError.OrphanNotFound
  | SizeMismatch | DigestMismatch => ArtifactReconciliationError.StorageConflict
  | Aliased => ArtifactReconciliationError.StorageChanged
  end.
Definition reconciliation_store_error (e : StoreError.t) : ArtifactReconciliationError.t :=
  match e with
  | StoreError.ImmutableConflict => ArtifactReconciliationError.StateConflict
  | StoreError.RemovalPending => ArtifactReconciliationError.RemovalPending None
  | StoreError.Serialization | StoreError.InvalidManifest _ | StoreError.InvalidInstallation _ | StoreError.RecordTooLarge
  | StoreError.CorruptRecord | StoreError.MissingRecord | StoreError.InvalidActiveBinding =>
      ArtifactReconciliationError.StateCorrupt e
  | other => ArtifactReconciliationError.State other
  end.

Section Service.
Context {SHA : Sha256} {JSON : JsonCodec}.

Record ArtifactOrphanReconciliationService := {
  cs_storage : ExistingArtifactStorage;
  cs_limits : ArtifactReconciliationLimits
}.

(** [open_existing]. *)
Definition open_reconciliation (limits : ArtifactReconciliationLimits) : Reconciliation ArtifactOrphanReconciliationService :=
  if negb (valid_limits (cl_maximum_artifact_bytes limits) (cl_maximum_storage_entries limits))
  then raise ArtifactReconciliationError.InvalidLimits
  else
    storage ← map_error reconciliation_open_error (open_storage Exclusive);
    mret {| cs_storage := storage; cs_limits := limits |}.

(** [validate_manifest]. *)
Definition validate_reconciliation (manifest : ArtifactManifest.t) (limits : ArtifactReconciliationLimits)
  : Result ArtifactReconciliationError.t unit :=
  _ ← map_err ArtifactReconciliationError.InvalidManifest (ArtifactManifest.validate manifest);
  if cl_maximum_artifact_bytes limits <? ArtifactManifest.byte_size manifest
  then Err (ArtifactReconciliationError.ArtifactTooLarge (ArtifactManifest.byte_size manifest) (cl_maximum_artifact_bytes limits))
  else Ok tt.

(** [report_progress]. *)
Definition report_reconciliation {E} (stage : ArtifactOrphanReconciliationStage.t) (completed_bytes total_bytes : Z) : Io E unit :=
  report (ArtifactOrphanReconciliationProgress stage completed_bytes total_bytes).

Definition reconciliation_not_cancelled : Reconciliation unit :=
  ensure_not_cancelled ArtifactReconciliationError.Cancelled CallerToken.

(** [reconcile]. *)
Definition reconcile (s : ArtifactOrphanReconciliationService) (manifest : ArtifactManifest.t)
  : Reconciliation ArtifactOrphanReconciliationResult :=
  _ ← reconciliation_not_cancelled;
  _ ← value (validate_reconciliation manifest (cs_limits s));
  _ ← map_error reconciliation_storage_error (validate_layout (cs_storage s));
  '(current, removal) ← map_error reconciliation_store_error (sql (artifact_removal_state (ArtifactManifest.artifact_id manifest)));
  match pending_removal current removal with
  | Some selection => raise (ArtifactReconciliationError.RemovalPending (Some selection))
  | None =>
      let total := ArtifactManifest.byte_size manifest in
      _ ← report_reconciliation ArtifactOrphanReconciliationStage.InspectingSelection 0 total;
      _ ← reconciliation_not_cancelled;
      let name := Digest.as_str (ArtifactManifest.artifact_digest manifest) in
      _ ← report_reconciliation ArtifactOrphanReconciliationStage.VerifyingOrphan 0 total;
      _ ← reconciliation_not_cancelled;
      _ ← map_error reconciliation_verification_error
            (verify_exact_artifact_with (es_artifacts (cs_storage s)) name
               {| ea_byte_size := total; ea_digest := ArtifactManifest.artifact_digest manifest;
                  ea_maximum_entries := cl_maximum_storage_entries (cs_limits s) |} CallerToken
               (fun completed => report_reconciliation ArtifactOrphanReconciliationStage.VerifyingOrphan completed total) Synchronized);
      _ ← map_error reconciliation_storage_error (validate_layout (cs_storage s));
      _ ← reconciliation_not_cancelled;
      let installed := installed_from manifest in
      state ← map_error reconciliation_store_error (sql (put_installation manifest installed));
      mret {| cr_installed := installed; cr_installation := installation state;
              cr_disposition := match installed_disposition state with Inserted => Registered | AlreadyPresent => AlreadyRegistered end |}
  end.

(** Open the service and register an orphan. *)
Definition reconcile_artifact (limits : ArtifactReconciliationLimits) (manifest : ArtifactManifest.t)
  : Reconciliation ArtifactOrphanReconciliationResult :=
  s ← open_reconciliation limits; reconcile s manifest.

End Service.
