(* ===== verification/ArtifactInventory.v ===== *)
(** * The inventory of the storage ([app/src/artifact_inventory.rs]).

    The service compares the records of the store with the files of the
    artifact directory, hashes what it may hash, and checks at the end that
    neither has changed meanwhile.  It writes nothing.  The names of the
    directory are UTF-8. *)

From S2P Require Import Prelude Text Document Claims Json Extractor Model ModelJson StoreDb ModelStore FileSystem StorageIo ArtifactStorage.
From S2P Require Import ArtifactRemoval.
Import ArtifactInventoryError (ConcurrentModification, Cancelled).

(** ** Contract ([contract.rs]) *)

Record ArtifactInventoryLimits := {
  vl_maximum_state_entries : Z;
  vl_maximum_storage_entries : Z;
  vl_maximum_artifact_bytes : Z;
  vl_maximum_total_verification_bytes : Z
}.

Module RegisteredArtifactBytes.

Inductive t :=
| Verified | Missing | UnsafeEntry | AliasedEntry | StateLayoutConflict | SizeConflict (observed_bytes : Z)
| DigestConflict (observed_digest : Digest.t) | TooLargeToVerify (observed_bytes : Z).

End RegisteredArtifactBytes.

(** [ArtifactInstallationKey] with [from_stored]. *)
Module ArtifactInstallationKey.

Record t := mk { artifact_id : ArtifactId.t; installation_generation : Z }.
Definition from_stored (value : StoredArtifactInstallation.t) : t :=
  mk (InstalledArtifact.artifact_id (StoredArtifactInstallation.installed value)) (Epoch.get (StoredArtifactInstallation.epoch value)).

End ArtifactInstallationKey.

Record RegisteredArtifactInspection := {
  ri_manifest : ArtifactManifest.t;
  ri_installation : ArtifactInstallationKey.t;
  ri_active_bindings : list ActiveArtifactBinding.t;
  ri_bytes : RegisteredArtifactBytes.t
}.
Record PendingArtifactRemovalInspection := { pi_selection : ArtifactInstallationKey.t; pi_bytes : RegisteredArtifactBytes.t }.
Inductive OrphanManifestAssociation :=
| NoManifest | MatchingManifest (manifest : ArtifactManifest.t) | ManifestSizeConflict (manifest : ArtifactManifest.t).
Record VerifiedArtifactOrphan := { vo_artifact_id : ArtifactId.t; vo_byte_size : Z; vo_manifest : OrphanManifestAssociation }.
Record ContentAddressConflict := { cc_claimed_artifact_id : ArtifactId.t; cc_observed_digest : Digest.t; cc_byte_size : Z }.
Record OversizedArtifactFile := { of_claimed_artifact_id : ArtifactId.t; of_byte_size : Z }.
Record UnexpectedArtifactEntryCounts := {
  uc_malformed_names : Z;
  uc_indirect_entries : Z;
  uc_non_regular_entries : Z;
  uc_empty_files : Z;
  uc_aliased_files : Z
}.
Record ArtifactInventoryReport := {
  ar_registered : list RegisteredArtifactInspection;
  ar_pending_removals : list PendingArtifactRemovalInspection;
  ar_manifest_only : list ArtifactManifest.t;
  ar_verified_orphans : list VerifiedArtifactOrphan;
  ar_content_address_conflicts : list ContentAddressConflict;
  ar_oversized_files : list OversizedArtifactFile;
  ar_unexpected_entries : UnexpectedArtifactEntryCounts;
  ar_storage_entry_count : Z;
  ar_verified_bytes : Z
}.

(** ** The frozen directory ([artifact_storage.rs]) *)

Record DirectoryEntrySnapshot := {
  ds_name : text;
  ds_metadata : option MetadataFingerprint.t;
  ds_direct_regular_file : bool;
  ds_indirect : bool;
  ds_byte_size : Z
}.
#[export] Instance snapshot_eq_dec : EqDecision DirectoryEntrySnapshot.
Proof. solve_decision. Defined.

(** [DirectoryEntrySnapshot::has_single_link]. *)
Definition entry_has_single_link (e : DirectoryEntrySnapshot) : bool :=
  match ds_metadata e with Some p => MetadataFingerprint.has_single_link p | None => false end.

(** The order of the names. *)
Definition name_le (a b : DirectoryEntrySnapshot) : bool := match str_cmp (ds_name a) (ds_name b) with Gt => false | _ => true end.

(** [PinnedDirectory::snapshot]. *)
Definition snapshot (d maximum_entries : Z) (token : Token) : Storage (list DirectoryEntrySnapshot) :=
  raw_entries ← raw_entries d maximum_entries token;
  entries ← visit (fun entries raw =>
    _ ← ensure_not_cancelled Cancelled token;
    metadata ← (if re_direct_regular_file raw then
                  file ← active (open_file d (re_name raw) ShareVerification);
                  _ ← validate_regular_file file false;
                  fingerprint ← io (MetadataFingerprint.from_file file);
                  if negb (MetadataFingerprint.length fingerprint =? re_byte_size raw) then raise ConcurrentModification
                  else mret (Some fingerprint)
                else mret None);
    mret (entries ++ [{| ds_name := re_name raw; ds_metadata := metadata; ds_direct_regular_file := re_direct_regular_file raw;
                         ds_indirect := re_indirect raw; ds_byte_size := re_byte_size raw |}])) [] raw_entries;
  mret (sort_by name_le entries).

#[export] Instance stored_state_eq_dec : EqDecision StoredArtifactState.
Proof. solve_decision. Defined.

Section Service.
Context {SHA : Sha256} {JSON : JsonCodec}.

(** The loop of [hash_exact_bytes] and the byte after it. *)
Fixpoint hash_bytes_loop (fuel : nat) (file expected_size : Z) (token : Token) (hashed : bytes) (observed : Z) : Storage Digest.t :=
  if observed <? expected_size then
    match fuel with
    | O => value Panic
    | S fuel' =>
        _ ← ensure_not_cancelled Cancelled token;
        chunk ← io (read_file file observed (Z.min (expected_size - observed) 1048576));
        if vlen chunk =? 0 then raise ConcurrentModification
        else
          count ← value (ok_or (try_from u64_max (vlen chunk)) ConcurrentModification);
          observed ← value (ok_or (checked_add u64_max observed count) ConcurrentModification);
          hash_bytes_loop fuel' file expected_size token (hashed ++ chunk) observed
    end
  else
    trailing ← io (read_file file observed 1);
    if negb (vlen trailing =? 0) then raise ConcurrentModification
    else value (finish_hash ConcurrentModification hashed).

(** [hash_exact_bytes]; every round reads a byte at least. *)
Definition hash_exact_bytes (file expected_size : Z) (token : Token) : Storage Digest.t :=
  hash_bytes_loop (Z.to_nat expected_size) file expected_size token [] 0.

(** [PinnedDirectory::hash_entry]. *)
Definition hash_entry (d : Z) (entry : DirectoryEntrySnapshot) (token : Token) : Storage Digest.t :=
  file ← active (open_file d (ds_name entry) ShareVerification);
  _ ← validate_regular_file file false;
  opened ← io (MetadataFingerprint.from_file file);
  if negb (bool_decide (Some opened = ds_metadata entry)) then raise ConcurrentModification
  else
    observed ← hash_exact_bytes file (ds_byte_size entry) token;
    final_handle ← io (MetadataFingerprint.from_file file);
    if negb (bool_decide (final_handle = opened)) then raise ConcurrentModification
    else
      final_file ← active (open_file d (ds_name entry) ShareVerification);
      final_entry ← io (MetadataFingerprint.from_file final_file);
      if negb (bool_decide (final_entry = opened)) then raise ConcurrentModification
      else mret observed.

(** ** The builder *)

(** What a builder reads, and what it has found so far. *)
Record InventoryInput := {
  ii_states : list StoredArtifactState;
  ii_entries : list DirectoryEntrySnapshot;
  ii_limits : ArtifactInventoryLimits;
  ii_manifests : gmap text ArtifactManifest.t;
  ii_installed : gset text
}.
Record InventoryBuilder := {
  ib_registered : list RegisteredArtifactInspection;
  ib_pending_removals : list PendingArtifactRemovalInspection;
  ib_manifest_only : list ArtifactManifest.t;
  ib_verified_orphans : list VerifiedArtifactOrphan;
  ib_content_address_conflicts : list ContentAddressConflict;
  ib_oversized_files : list OversizedArtifactFile;
  ib_unexpected_entries : UnexpectedArtifactEntryCounts;
  ib_completed_entries : Z;
  ib_verified_bytes : Z
}.

(** The digest an installation or a prepared removal holds. *)
Definition held_selection (state : StoredArtifactState) : option StoredArtifactInstallation.t :=
  match state_installed state with
  | Some selection => Some selection
  | None =>
      match state_removal state with
      | Some removal => if bool_decide (StoredArtifactRemoval.phase removal = Prepared) then Some (StoredArtifactRemoval.selection removal) else None
      | None => None
      end
  end.
Definition canonical_key (installed : InstalledArtifact.t) : bool :=
  text_eqb (InstalledArtifact.storage_key installed) (lit "artifacts/" ++ Digest.as_str (InstalledArtifact.artifact_digest installed)).
Definition held_digest (state : StoredArtifactState) : option text :=
  selection ← held_selection state;
  let installed := StoredArtifactInstallation.installed selection in
  if canonical_key installed then Some (Digest.as_str (InstalledArtifact.artifact_digest installed)) else None.

(** [InventoryBuilder::new]. *)
Definition new_input (states : list StoredArtifactState) (entries : list DirectoryEntrySnapshot) (limits : ArtifactInventoryLimits) : InventoryInput := {|
  ii_states := states; ii_entries := entries; ii_limits := limits;
  ii_manifests := foldl (fun m state => <[Digest.as_str (ArtifactManifest.artifact_digest (state_manifest state)) := state_manifest state]> m) ∅ states;
  ii_installed := list_to_set (omap held_digest states) |}.
Definition new_builder : InventoryBuilder := {|
  ib_registered := []; ib_pending_removals := []; ib_manifest_only := []; ib_verified_orphans := []; ib_content_address_conflicts := [];
  ib_oversized_files := [];
  ib_unexpected_entries := {| uc_malformed_names := 0; uc_indirect_entries := 0; uc_non_regular_entries := 0; uc_empty_files := 0; uc_aliased_files := 0 |};
  ib_completed_entries := 0; ib_verified_bytes := 0 |}.

(** Add a finding. *)
Definition push_registered (i : RegisteredArtifactInspection) (b : InventoryBuilder) : InventoryBuilder :=
  {| ib_registered := ib_registered b ++ [i]; ib_pending_removals := ib_pending_removals b; ib_manifest_only := ib_manifest_only b;
     ib_verified_orphans := ib_verified_orphans b; ib_content_address_conflicts := ib_content_address_conflicts b;
     ib_oversized_files := ib_oversized_files b; ib_unexpected_entries := ib_unexpected_entries b; ib_completed_entries := ib_completed_entries b;
     ib_verified_bytes := ib_verified_bytes b |}.
Definition push_pending (i : PendingArtifactRemovalInspection) (b : InventoryBuilder) : InventoryBuilder :=
  {| ib_registered := ib_registered b; ib_pending_removals := ib_pending_removals b ++ [i]; ib_manifest_only := ib_manifest_only b;
     ib_verified_orphans := ib_verified_orphans b; ib_content_address_conflicts := ib_content_address_conflicts b;
     ib_oversized_files := ib_oversized_files b; ib_unexpected_entries := ib_unexpected_entries b; ib_completed_entries := ib_completed_entries b;
     ib_verified_bytes := ib_verified_bytes b |}.
Definition push_manifest (m : ArtifactManifest.t) (b : InventoryBuilder) : InventoryBuilder :=
  {| ib_registered := ib_registered b; ib_pending_removals := ib_pending_removals b; ib_manifest_only := ib_manifest_only b ++ [m];
     ib_verified_orphans := ib_verified_orphans b; ib_content_address_conflicts := ib_content_address_conflicts b;
     ib_oversized_files := ib_oversized_files b; ib_unexpected_entries := ib_unexpected_entries b; ib_completed_entries := ib_completed_entries b;
     ib_verified_bytes := ib_verified_bytes b |}.
Definition push_orphan (o : VerifiedArtifactOrphan) (b : InventoryBuilder) : InventoryBuilder :=
  {| ib_registered := ib_registered b; ib_pending_removals := ib_pending_removals b; ib_manifest_only := ib_manifest_only b;
     ib_verified_orphans := ib_verified_orphans b ++ [o]; ib_content_address_conflicts := ib_content_address_conflicts b;
     ib_oversized_files := ib_oversized_files b; ib_unexpected_entries := ib_unexpected_entries b; ib_completed_entries := ib_completed_entries b;
     ib_verified_bytes := ib_verified_bytes b |}.
Definition push_conflict (x : ContentAddressConflict) (b : InventoryBuilder) : InventoryBuilder :=
  {| ib_registered := ib_registered b; ib_pending_removals := ib_pending_removals b; ib_manifest_only := ib_manifest_only b;
     ib_verified_orphans := ib_verified_orphans b; ib_content_address_conflicts := ib_content_address_conflicts b ++ [x];
     ib_oversized_files := ib_oversized_files b; ib_unexpected_entries := ib_unexpected_entries b; ib_completed_entries := ib_completed_entries b;
     ib_verified_bytes := ib_verified_bytes b |}.
Definition push_oversized (o : OversizedArtifactFile) (b : InventoryBuilder) : InventoryBuilder :=
  {| ib_registered := ib_registered b; ib_pending_removals := ib_pending_removals b; ib_manifest_only := ib_manifest_only b;
     ib_verified_orphans := ib_verified_orphans b; ib_content_address_conflicts := ib_content_address_conflicts b;
     ib_oversized_files := ib_oversized_files b ++ [o]; ib_unexpected_entries := ib_unexpected_entries b;
     ib_completed_entries := ib_completed_entries b; ib_verified_bytes := ib_verified_bytes b |}.
Definition set_unexpected (u : UnexpectedArtifactEntryCounts) (b : InventoryBuilder) : InventoryBuilder :=
  {| ib_registered := ib_registered b; ib_pending_removals := ib_pending_removals b; ib_manifest_only := ib_manifest_only b;
     ib_verified_orphans := ib_verified_orphans b; ib_content_address_conflicts := ib_content_address_conflicts b;
     ib_oversized_files := ib_oversized_files b; ib_unexpected_entries := u; ib_completed_entries := ib_completed_entries b;
     ib_verified_bytes := ib_verified_bytes b |}.
Definition set_completed (n : Z) (b : InventoryBuilder) : InventoryBuilder :=
  {| ib_registered := ib_registered b; ib_pending_removals := ib_pending_removals b; ib_manifest_only := ib_manifest_only b;
     ib_verified_orphans := ib_verified_orphans b; ib_content_address_conflicts := ib_content_address_conflicts b;
     ib_oversized_files := ib_oversized_files b; ib_unexpected_entries := ib_unexpected_entries b; ib_completed_entries := n;
     ib_verified_bytes := ib_verified_bytes b |}.
Definition set_verified (n : Z) (b : InventoryBuilder) : InventoryBuilder :=
  {| ib_registered := ib_registered b; ib_pending_removals := ib_pending_removals b; ib_manifest_only := ib_manifest_only b;
     ib_verified_orphans := ib_verified_orphans b; ib_content_address_conflicts := ib_content_address_conflicts b;
     ib_oversized_files := ib_oversized_files b; ib_unexpected_entries := ib_unexpected_entries b; ib_completed_entries := ib_completed_entries b;
     ib_verified_bytes := n |}.

(** Count an entry. *)
Inductive Unexpected := MalformedName | IndirectEntry | NonRegularEntry | EmptyFile | AliasedFile.
Definition count (k : Unexpected) (u : UnexpectedArtifactEntryCounts) : UnexpectedArtifactEntryCounts :=
  let more n := saturating_add u64_max n 1 in
  match k with
  | MalformedName => {| uc_malformed_names := more (uc_malformed_names u); uc_indirect_entries := uc_indirect_entries u;
     uc_non_regular_entries := uc_non_regular_entries u; uc_empty_files := uc_empty_files u; uc_aliased_files := uc_aliased_files u |}
  | IndirectEntry => {| uc_malformed_names := uc_malformed_names u; uc_indirect_entries := more (uc_indirect_entries u);
     uc_non_regular_entries := uc_non_regular_entries u; uc_empty_files := uc_empty_files u; uc_aliased_files := uc_aliased_files u |}
  | NonRegularEntry => {| uc_malformed_names := uc_malformed_names u; uc_indirect_entries := uc_indirect_entries u;
     uc_non_regular_entries := more (uc_non_regular_entries u); uc_empty_files := uc_empty_files u; uc_aliased_files := uc_aliased_files u |}
  | EmptyFile => {| uc_malformed_names := uc_malformed_names u; uc_indirect_entries := uc_indirect_entries u;
     uc_non_regular_entries := uc_non_regular_entries u; uc_empty_files := more (uc_empty_files u); uc_aliased_files := uc_aliased_files u |}
  | AliasedFile => {| uc_malformed_names := uc_malformed_names u; uc_indirect_entries := uc_indirect_entries u;
     uc_non_regular_entries := uc_non_regular_entries u; uc_empty_files := uc_empty_files u; uc_aliased_files := more (uc_aliased_files u) |}
  end.
Definition count_unexpected (k : Unexpected) (b : InventoryBuilder) : InventoryBuilder := set_unexpected (count k (ib_unexpected_entries b)) b.

(** [report_progress], [complete_registered] and [complete_uninstalled]. *)
Definition report_inventory (stage : ArtifactInventoryStage) (completed_entries verified_bytes : Z) : Storage unit :=
  report (ArtifactInventoryProgress stage completed_entries verified_bytes).
Definition complete (stage : ArtifactInventoryStage) (b : InventoryBuilder) : Storage InventoryBuilder :=
  let b := set_completed (saturating_add u64_max (ib_completed_entries b) 1) b in
  _ ← report_inventory stage (ib_completed_entries b) (ib_verified_bytes b);
  mret b.

(** [InventoryBuilder::hash_entry]. *)
Definition builder_hash (input : InventoryInput) (d : Z) (entry : DirectoryEntrySnapshot) (token : Token) (b : InventoryBuilder)
  : Storage (Digest.t * InventoryBuilder) :=
  next_total ← value (ok_or (total ← checked_add u64_max (ib_verified_bytes b) (ds_byte_size entry);
                             if total <=? vl_maximum_total_verification_bytes (ii_limits input) then Some total else None)
                            ArtifactInventoryError.TotalVerificationLimitExceeded);
  observed ← hash_entry d entry token;
  mret (observed, set_verified next_total b).

(** [find_exact_entry]. *)
Definition find_exact_entry (entries : list DirectoryEntrySnapshot) (name : text) : option DirectoryEntrySnapshot :=
  List.find (fun entry => text_eqb (ds_name entry) name) entries.

(** [classify_registered]. *)
Definition classify_registered (input : InventoryInput) (d : Z) (installed : InstalledArtifact.t) (token : Token) (b : InventoryBuilder)
  : Storage (RegisteredArtifactBytes.t * InventoryBuilder) :=
  let digest := Digest.as_str (InstalledArtifact.artifact_digest installed) in
  if negb (text_eqb (InstalledArtifact.storage_key installed) (lit "artifacts/" ++ digest))
  then mret (RegisteredArtifactBytes.StateLayoutConflict, b)
  else
    match find_exact_entry (ii_entries input) digest with
    | None => mret (RegisteredArtifactBytes.Missing, b)
    | Some entry =>
        if ds_indirect entry || negb (ds_direct_regular_file entry) then mret (RegisteredArtifactBytes.UnsafeEntry, b)
        else if negb (entry_has_single_link entry) then mret (RegisteredArtifactBytes.AliasedEntry, b)
        else if negb (ds_byte_size entry =? InstalledArtifact.byte_size installed)
        then mret (RegisteredArtifactBytes.SizeConflict (ds_byte_size entry), b)
        else if vl_maximum_artifact_bytes (ii_limits input) <? ds_byte_size entry
        then mret (RegisteredArtifactBytes.TooLargeToVerify (ds_byte_size entry), b)
        else
          '(observed, b) ← builder_hash input d entry token b;
          mret (if bool_decide (observed = InstalledArtifact.artifact_digest installed) then RegisteredArtifactBytes.Verified
                else RegisteredArtifactBytes.DigestConflict observed, b)
    end.

(** One round of [inspect_registered]. *)
Definition inspect_state (input : InventoryInput) (d : Z) (token : Token) (b : InventoryBuilder) (state : StoredArtifactState)
  : Storage InventoryBuilder :=
  _ ← ensure_not_cancelled Cancelled token;
  match match state_removal state with
        | Some value => if bool_decide (StoredArtifactRemoval.phase value = Prepared) then Some value else None
        | None => None
        end with
  | Some removal =>
      if bool_decide (is_Some (state_installed state)) then raise (ArtifactInventoryError.State StoreError.CorruptRecord)
      else
        let selection := StoredArtifactRemoval.selection removal in
        '(bytes, b) ← classify_registered input d (StoredArtifactInstallation.installed selection) token b;
        complete InspectingState (push_pending {| pi_selection := ArtifactInstallationKey.from_stored selection; pi_bytes := bytes |} b)
  | None =>
      match state_installed state with
      | None => complete InspectingState (push_manifest (state_manifest state) b)
      | Some installed =>
          '(bytes, b) ← classify_registered input d (StoredArtifactInstallation.installed installed) token b;
          complete InspectingState
            (push_registered {| ri_manifest := state_manifest state; ri_installation := ArtifactInstallationKey.from_stored installed;
                                ri_active_bindings := state_bindings state; ri_bytes := bytes |} b)
      end
  end.
Definition inspect_registered (input : InventoryInput) (d : Z) (token : Token) (b : InventoryBuilder) : Storage InventoryBuilder :=
  visit (inspect_state input d token) b (ii_states input).

(** [manifest_association]. *)
Definition manifest_association (input : InventoryInput) (digest : text) (byte_size : Z) : OrphanManifestAssociation :=
  match ii_manifests input !! digest with
  | None => NoManifest
  | Some manifest => if ArtifactManifest.byte_size manifest =? byte_size then MatchingManifest manifest else ManifestSizeConflict manifest
  end.

(** One round of [inspect_uninstalled]. *)
Definition inspect_entry_snapshot (input : InventoryInput) (d : Z) (token : Token) (b : InventoryBuilder) (entry : DirectoryEntrySnapshot)
  : Storage InventoryBuilder :=
  _ ← ensure_not_cancelled Cancelled token;
  let name := ds_name entry in
  match Digest.from_sha256_hex name with
  | Ok claimed_digest =>
      if bool_decide (name ∈ ii_installed input) then mret b
      else
        let claimed_artifact_id := ArtifactId.mk claimed_digest in
        b ← (if ds_indirect entry then mret (count_unexpected IndirectEntry b)
             else if negb (ds_direct_regular_file entry) then mret (count_unexpected NonRegularEntry b)
             else if ds_byte_size entry =? 0 then mret (count_unexpected EmptyFile b)
             else if negb (entry_has_single_link entry) then mret (count_unexpected AliasedFile b)
             else if vl_maximum_artifact_bytes (ii_limits input) <? ds_byte_size entry then
               mret (push_oversized {| of_claimed_artifact_id := claimed_artifact_id; of_byte_size := ds_byte_size entry |} b)
             else
               '(observed, b) ← builder_hash input d entry token b;
               mret (if bool_decide (observed = claimed_digest) then
                       push_orphan {| vo_artifact_id := claimed_artifact_id; vo_byte_size := ds_byte_size entry;
                                      vo_manifest := manifest_association input name (ds_byte_size entry) |} b
                     else push_conflict {| cc_claimed_artifact_id := claimed_artifact_id; cc_observed_digest := observed;
                                           cc_byte_size := ds_byte_size entry |} b));
        complete VerifyingUninstalled b
  | _ => complete VerifyingUninstalled (count_unexpected MalformedName b)
  end.
Definition inspect_uninstalled (input : InventoryInput) (d : Z) (token : Token) (b : InventoryBuilder) : Storage InventoryBuilder :=
  visit (inspect_entry_snapshot input d token) b (ii_entries input).

(** [finish]. *)
Definition finish (b : InventoryBuilder) (storage_entry_count : Z) : ArtifactInventoryReport := {|
  ar_registered := ib_registered b; ar_pending_removals := ib_pending_removals b; ar_manifest_only := ib_manifest_only b;
  ar_verified_orphans := ib_verified_orphans b; ar_content_address_conflicts := ib_content_address_conflicts b;
  ar_oversized_files := ib_oversized_files b; ar_unexpected_entries := ib_unexpected_entries b;
  ar_storage_entry_count := storage_entry_count; ar_verified_bytes := ib_verified_bytes b |}.

(** ** The service *)

(** [validate_limits], [map_store_error] and [map_final_store_error]. *)
Definition valid_inventory_limits (l : ArtifactInventoryLimits) : bool :=
  (0 <? vl_maximum_state_entries l) && (0 <? vl_maximum_storage_entries l) && (0 <? vl_maximum_artifact_bytes l)
  && (0 <? vl_maximum_total_verification_bytes l)
  && bool_decide (is_Some (v ← checked_add usize_max (vl_maximum_state_entries l) 1; try_from i64_max v))
  && bool_decide (is_Some (checked_add usize_max (vl_maximum_storage_entries l) 1))
  && bool_decide (is_Some (try_from u64_max (vl_maximum_storage_entries l))).
Definition inventory_store_error (e : StoreError.t) : ArtifactInventoryError.t :=
  match e with
  | StoreError.InvalidLimit => ArtifactInventoryError.InvalidLimits
  | StoreError.InventoryLimitExceeded => ArtifactInventoryError.StateEntryLimitExceeded
  | other => ArtifactInventoryError.State other
  end.
Definition inventory_final_store_error (e : StoreError.t) : ArtifactInventoryError.t :=
  match e with
  | StoreError.InvalidLimit => ArtifactInventoryError.InvalidLimits
  | StoreError.InventoryLimitExceeded => ConcurrentModification
  | other => ArtifactInventoryError.State other
  end.

Record ArtifactInventoryService := { vs_storage : ExistingArtifactStorage; vs_limits : ArtifactInventoryLimits }.

(** [open]. *)
Definition open_inventory (limits : ArtifactInventoryLimits) : Storage ArtifactInventoryService :=
  if negb (valid_inventory_limits limits) then raise ArtifactInventoryError.InvalidLimits
  else
    storage ← open_storage Shared;
    mret {| vs_storage := storage; vs_limits := limits |}.

(** [inventory]. *)
Definition inventory (s : ArtifactInventoryService) (token : Token) : Storage ArtifactInventoryReport :=
  let artifacts := es_artifacts (vs_storage s) in
  let limits := vs_limits s in
  let not_cancelled := ensure_not_cancelled Cancelled token in
  _ ← not_cancelled;
  _ ← report_inventory OpeningStorage 0 0;
  initial_layout ← validate_layout (vs_storage s);
  _ ← not_cancelled;
  _ ← report_inventory LoadingState 0 0;
  states ← map_error inventory_store_error (sql (artifact_inventory (vl_maximum_state_entries limits)));
  _ ← not_cancelled;
  _ ← report_inventory FreezingStorage 0 0;
  _ ← not_cancelled;
  initial_entries ← snapshot artifacts (vl_maximum_storage_entries limits) token;
  let input := new_input states initial_entries limits in
  b ← inspect_registered input artifacts token new_builder;
  b ← inspect_uninstalled input artifacts token b;
  _ ← not_cancelled;
  _ ← report_inventory RecheckingStorageAndState (ib_completed_entries b) (ib_verified_bytes b);
  _ ← not_cancelled;
  final_entries ← snapshot artifacts (vl_maximum_storage_entries limits) token;
  if negb (bool_decide (initial_entries = final_entries)) then raise ConcurrentModification
  else
    final_layout ← validate_layout (vs_storage s);
    if negb (bool_decide (initial_layout = final_layout)) then raise ConcurrentModification
    else
      final_states ← map_error inventory_final_store_error (sql (artifact_inventory (vl_maximum_state_entries limits)));
      if negb (bool_decide (states = final_states)) then raise ConcurrentModification
      else
        _ ← not_cancelled;
        count ← value (ok_or (try_from u64_max (vlen initial_entries)) ArtifactInventoryError.StorageEntryLimitExceeded);
        mret (finish b count).

(** Open the service and take an inventory. *)
Definition inventory_storage (limits : ArtifactInventoryLimits) (token : Token) : Storage ArtifactInventoryReport :=
  s ← open_inventory limits; inventory s token.

End Service.
