(* ===== verification/StorageFacts.v ===== *)
(** * Durable files.

    What it means that a file is durable under a name of the artifact
    directory, and which calls leave that so. *)

From S2P Require Import Prelude Text Document FileSystem.

(** ** Nodes after a call *)

Lemma node_at_add f n i m : node_at (add_inode f n i) m = if decide (m = n) then Some (node i) else node_at f m.
Proof.
  unfold node_at, add_inode; cbn; destruct (decide (m = n)) as [->|Hne]; [by rewrite lookup_insert, decide_True |].
  by rewrite lookup_insert_ne.
Qed.

Lemma node_at_touch t f n m : node_at (with_inodes f (alter (touch_inode t) n (inodes f))) m = node_at f m.
Proof.
  unfold node_at; cbn; destruct (decide (m = n)) as [->|Hne]; [| by rewrite lookup_alter_ne].
  rewrite lookup_alter, decide_True by done; by destruct (inodes f !! n).
Qed.

(** A directory entry set to a value. *)
Definition entry_set (name : text) (v : option Z) (o : option Node) : option Node :=
  match o with
  | Some (DirectoryNode e p) => Some (DirectoryNode (partial_alter (fun _ => v) name e) ((name, e !! name) :: p))
  | _ => o
  end.

Lemma node_at_set_entry t f d name v m :
  node_at (set_entry t f d name v) m = if decide (m = d) then entry_set name v (node_at f d) else node_at f m.
Proof.
  unfold node_at, set_entry; cbn; destruct (decide (m = d)) as [->|Hne]; [| by rewrite lookup_alter_ne].
  rewrite lookup_alter, decide_True by done; destruct (inodes f !! d) as [i|]; cbn; [| done].
  destruct i as [[] ? ? ?]; done.
Qed.

Lemma new_number_fresh f : inodes f !! new_number f = None.
Proof. apply (not_elem_of_dom (D := gset Z)); unfold new_number; apply (is_fresh (dom (inodes f) : gset Z)). Qed.
Lemma new_node_fresh f : node_at f (new_number f) = None.
Proof. unfold node_at; by rewrite new_number_fresh. Qed.

Lemma entries_node f d e p : node_at f d = Some (DirectoryNode e p) -> entries_of f d = e /\ pending_of f d = p.
Proof. unfold entries_of, pending_of; by intros ->. Qed.
Lemma entries_some f d name n : entries_of f d !! name = Some n -> exists e p, node_at f d = Some (DirectoryNode e p) /\ e !! name = Some n.
Proof. unfold entries_of; destruct (node_at f d) as [[]|]; try done; eauto. Qed.
Lemma directory_some f d : is_directory f d = true -> exists e p, node_at f d = Some (DirectoryNode e p).
Proof. unfold is_directory; destruct (node_at f d) as [[]|]; try done; eauto. Qed.

(** ** Durable entries *)

(** An entry whose directory was synchronized since it last changed. *)
Definition durable_entry (f : Fs) (d : Z) (name : text) (n : Z) : Prop :=
  exists e p, node_at f d = Some (DirectoryNode e p) /\ e !! name = Some n /\ forall v, (name, v) ∉ p.

(** The artifact directory, reached through durable entries. *)
Definition anchor (f : Fs) (a : Z) : Prop :=
  exists r, root f = Some r /\ root_synced f = true /\ durable_entry f r (lit "artifacts") a.

(** The bytes that are durable under a name of the artifact directory. *)
Definition holds (f : Fs) (name : text) (c : bytes) : Prop :=
  exists a n, anchor f a /\ durable_entry f a name n /\ node_at f n = Some (RegularFile c true).

(** The artifact directory, durable or not. *)
Definition artifacts_at (f : Fs) (a : Z) : Prop :=
  exists r, root f = Some r /\ entries_of f r !! lit "artifacts" = Some a.

(** Nothing is in the artifact directory before its own entry is durable. *)
Definition anchored (f : Fs) : Prop := forall a, artifacts_at f a -> entries_of f a <> ∅ -> anchor f a.

Lemma durable_entry_some f d name n : durable_entry f d name n -> entries_of f d !! name = Some n.
Proof. intros (e & p & E & H & _); by rewrite (proj1 (entries_node _ _ _ _ E)). Qed.
Lemma anchor_at f a : anchor f a -> artifacts_at f a.
Proof. intros (r & H & _ & He); exists r; split; [done | by apply durable_entry_some]. Qed.
Lemma artifacts_at_fun f a b : artifacts_at f a -> artifacts_at f b -> a = b.
Proof. intros (r & Hr & H) (r' & Hr' & H'); congruence. Qed.

(** ** Calls that leave the nodes as they are *)

Definition same_nodes (f f' : Fs) : Prop :=
  (forall n, node_at f' n = node_at f n) /\ root f' = root f /\ root_synced f' = root_synced f.

Lemma same_entries f f' d : same_nodes f f' -> entries_of f' d = entries_of f d.
Proof. intros (H & _); unfold entries_of; by rewrite H. Qed.
Lemma same_durable f f' d name n : same_nodes f f' -> durable_entry f d name n -> durable_entry f' d name n.
Proof. intros (H & _) (e & p & E); exists e, p; by rewrite H. Qed.
Lemma same_anchor f f' a : same_nodes f f' -> anchor f a -> anchor f' a.
Proof. intros Hs (r & Hr & Hy & He); exists r; split_and!; [by destruct Hs as (_ & -> & _) | by destruct Hs as (_ & _ & ->) | by apply (same_durable f)]. Qed.
Lemma same_artifacts f f' a : same_nodes f f' -> artifacts_at f' a <-> artifacts_at f a.
Proof. intros Hs; unfold artifacts_at; pose proof Hs as (_ & -> & _); split; intros (r & H1 & H2); exists r; rewrite (same_entries f f') in *; done. Qed.

(** The two facts about the file system that calls must leave alone. *)
Definition kept (excluded : text -> Prop) (f f' : Fs) : Prop :=
  (forall name c, ~ excluded name -> holds f name c -> holds f' name c) /\ (anchored f -> anchored f').

Lemma kept_refl excluded f : kept excluded f f.
Proof. done. Qed.
Lemma kept_trans excluded f1 f2 f3 : kept excluded f1 f2 -> kept excluded f2 f3 -> kept excluded f1 f3.
Proof. intros [H1 H2] [H3 H4]; split; auto. Qed.

Lemma kept_same excluded f f' : same_nodes f f' -> kept excluded f f'.
Proof.
  intros Hs; split.
  - intros name c _ (a & n & Ha & Hd & Hn); exists a, n; split_and!; [by apply (same_anchor f) | by apply (same_durable f) |].
    by destruct Hs as (-> & _).
  - intros H a Ha He; apply (same_anchor f); [done |]; apply H; [by apply (same_artifacts f f') | by rewrite <- (same_entries f f')].
Qed.

Lemma same_touch t f n : same_nodes f (with_inodes f (alter (touch_inode t) n (inodes f))).
Proof. split_and!; try done; intros m; apply node_at_touch. Qed.
Lemma same_chmod t m n f : same_nodes f (snd (fchmod t m n f)).
Proof.
  unfold fchmod; destruct (inodes f !! n) as [i|] eqn:E; [| done]; split_and!; try done; intros k; cbn [snd].
  rewrite node_at_add; destruct (decide (k = n)) as [->|]; [| done]; unfold node_at; by rewrite E.
Qed.

(** ** Synchronization *)

Lemma node_at_fsync n f m : node_at (snd (fsync n f)) m = if decide (m = n) then sync_node <$> node_at f n else node_at f m.
Proof.
  unfold fsync; destruct (inodes f !! n) as [i|] eqn:E; cbn [snd].
  - rewrite node_at_add; destruct (decide (m = n)) as [->|]; [| done]; unfold node_at; by rewrite E.
  - destruct (decide (m = n)) as [->|]; [| done]; unfold node_at; by rewrite E.
Qed.

Lemma fsync_entries n f d : entries_of (snd (fsync n f)) d = entries_of f d.
Proof. unfold entries_of; rewrite node_at_fsync; destruct (decide (d = n)) as [->|]; [| done]; by destruct (node_at f n) as [[]|]. Qed.
Lemma fsync_root n f : root (snd (fsync n f)) = root f /\ root_synced (snd (fsync n f)) = root_synced f.
Proof. unfold fsync; by destruct (inodes f !! n). Qed.

Lemma fsync_durable n f d name m : durable_entry f d name m -> durable_entry (snd (fsync n f)) d name m.
Proof.
  intros (e & p & E & H & Hp); unfold durable_entry; rewrite node_at_fsync; destruct (decide (d = n)) as [->|]; [| eauto].
  rewrite E; exists e, []; split_and!; try done; intros v Hv; by apply elem_of_nil in Hv.
Qed.
Lemma fsync_makes_durable f d name m : entries_of f d !! name = Some m -> durable_entry (snd (fsync d f)) d name m.
Proof.
  intros H; apply entries_some in H as (e & p & E & H); exists e, []; rewrite node_at_fsync, decide_True, E by done.
  split_and!; try done; intros v Hv; by apply elem_of_nil in Hv.
Qed.
Lemma fsync_anchor n f a : anchor f a -> anchor (snd (fsync n f)) a.
Proof. intros (r & Hr & Hy & He); destruct (fsync_root n f) as [E1 E2]; exists r; rewrite E1, E2; split_and!; try done; by apply fsync_durable. Qed.
Lemma fsync_artifacts n f a : artifacts_at (snd (fsync n f)) a <-> artifacts_at f a.
Proof. unfold artifacts_at; destruct (fsync_root n f) as [-> _]; split; intros (r & H1 & H2); exists r; rewrite fsync_entries in *; done. Qed.
Lemma fsync_file n f m c : node_at f m = Some (RegularFile c true) -> node_at (snd (fsync n f)) m = Some (RegularFile c true).
Proof. intros H; rewrite node_at_fsync; destruct (decide (m = n)) as [->|]; [by rewrite H | done]. Qed.

Lemma kept_fsync excluded n f : kept excluded f (snd (fsync n f)).
Proof.
  split.
  - intros name c _ (a & m & Ha & Hd & Hm); exists a, m; split_and!; [by apply fsync_anchor | by apply fsync_durable | by apply fsync_file].
  - intros H a Ha He; apply fsync_anchor, H; [by apply fsync_artifacts in Ha | by rewrite fsync_entries in He].
Qed.

(** ** New content and new nodes *)

Lemma durable_other f f' d name n :
  node_at f' d = node_at f d -> durable_entry f d name n -> durable_entry f' d name n.
Proof. intros E (e & p & H); exists e, p; by rewrite E. Qed.

(** Bytes are appended to a file that is not synchronized. *)
Lemma node_at_append t n b f m c s :
  node_at f n = Some (RegularFile c s) ->
  node_at (snd (append t n b f)) m = if decide (m = n) then Some (RegularFile (c ++ b) false) else node_at f m.
Proof.
  intros H; unfold append; unfold node_at in H; destruct (inodes f !! n) as [i|] eqn:E; [| done]; cbn in H.
  injection H as H; rewrite H; cbn [snd]; rewrite node_at_add; by destruct (decide (m = n)).
Qed.

Lemma kept_append excluded t n b f c :
  node_at f n = Some (RegularFile c false) -> kept excluded f (snd (append t n b f)).
Proof.
  intros Hn; assert (Hr : root (snd (append t n b f)) = root f /\ root_synced (snd (append t n b f)) = root_synced f).
  { unfold append; destruct (inodes f !! n) as [i|]; [| done]; by destruct (node i). }
  assert (Ho : forall m, m <> n -> node_at (snd (append t n b f)) m = node_at f m).
  { intros m Hm; by rewrite (node_at_append t n b f m c false), decide_False. }
  assert (Hd : forall d name k, durable_entry f d name k -> durable_entry (snd (append t n b f)) d name k).
  { intros d name k Hk; apply (durable_other f); [| done]; apply Ho; intros ->; destruct Hk as (e & p & E & _); congruence. }
  assert (He : forall d, entries_of (snd (append t n b f)) d = entries_of f d).
  { intros d; unfold entries_of; destruct (decide (d = n)) as [->|Hne]; [| by rewrite Ho].
    by rewrite (node_at_append t n b f n c false), decide_True, Hn. }
  assert (Ha : forall a, anchor f a -> anchor (snd (append t n b f)) a).
  { intros a (r & H1 & H2 & H3); destruct Hr as [E1 E2]; exists r; rewrite E1, E2; auto. }
  split.
  - intros name k _ (a & m & H1 & H2 & H3); exists a, m; split_and!; auto; rewrite Ho; [done |]; intros ->; congruence.
  - intros H a (r & H1 & H2) H3; apply Ha, H; [| by rewrite <- He]; exists r; destruct Hr as [E1 _]; by rewrite <- E1, <- (He r).
Qed.

Lemma add_fresh f n i m : inodes f !! n = None -> is_Some (node_at f m) -> node_at (add_inode f n i) m = node_at f m.
Proof. intros H [v Hm]; rewrite node_at_add, decide_False; [done |]; intros ->; unfold node_at in Hm; by rewrite H in Hm. Qed.
Lemma add_durable f n i d name m :
  inodes f !! n = None -> durable_entry f d name m -> durable_entry (add_inode f n i) d name m.
Proof. intros Hn Hd; apply (durable_other f); [| done]; apply add_fresh; [done |]; destruct Hd as (e & p & E & _); eauto. Qed.

(** The new node is a file or an empty directory. *)
Definition bare (v : Node) : Prop := match v with DirectoryNode e _ => e = ∅ | _ => True end.
Lemma add_entries f n i d : inodes f !! n = None -> bare (node i) -> entries_of (add_inode f n i) d = entries_of f d.
Proof.
  intros Hn Hi; unfold entries_of; rewrite node_at_add; destruct (decide (d = n)) as [->|]; [| done].
  unfold node_at; rewrite Hn; cbn; destruct (node i); try done.
Qed.

Lemma kept_add excluded f n i : inodes f !! n = None -> bare (node i) -> kept excluded f (add_inode f n i).
Proof.
  intros Hn Hi.
  assert (Ha : forall a, anchor f a -> anchor (add_inode f n i) a).
  { intros a (r & H1 & H2 & H3); exists r; split_and!; try done; by apply add_durable. }
  split.
  - intros name c _ (a & m & H1 & H2 & H3); exists a, m; split_and!; [auto | by apply add_durable |].
    rewrite add_fresh by eauto; done.
  - intros H a (r & H1 & H2) H3; apply Ha, H; [exists r; by rewrite <- (add_entries f n i r) | by rewrite <- (add_entries f n i a)].
Qed.

(** ** Entries that change *)

Lemma set_entry_entries t f d name v m :
  entries_of (set_entry t f d name v) m =
  if decide (m = d) then if is_directory f d then partial_alter (fun _ => v) name (entries_of f d) else ∅ else entries_of f m.
Proof.
  unfold entries_of, is_directory; rewrite node_at_set_entry; destruct (decide (m = d)) as [->|]; [| done].
  by destruct (node_at f d) as [[]|].
Qed.

Lemma set_entry_durable t f d name v m x n :
  durable_entry f m x n -> (m, x) <> (d, name) -> durable_entry (set_entry t f d name v) m x n.
Proof.
  intros (e & p & E & H & Hp) Hne; destruct (decide (m = d)) as [->|Hmd].
  - assert (x <> name) by congruence; exists (partial_alter (fun _ => v) name e), ((name, e !! name) :: p).
    rewrite node_at_set_entry, decide_True, E by done; split_and!; [done | by rewrite lookup_partial_alter_ne |].
    intros u Hu; apply elem_of_cons in Hu as [?|?]; [congruence | by apply (Hp u)].
  - exists e, p; by rewrite node_at_set_entry, decide_False.
Qed.

Lemma set_entry_file t f d name v m c s :
  node_at f m = Some (RegularFile c s) -> node_at (set_entry t f d name v) m = Some (RegularFile c s).
Proof. intros H; rewrite node_at_set_entry; destruct (decide (m = d)) as [->|]; [by rewrite H | done]. Qed.

(** An entry is added, changed or removed: what is durable under other names
    stays, when the entry of the artifact directory is not the one. *)
Lemma kept_set_entry (excluded : text -> Prop) t f d name v :
  (forall a, anchor f a -> entries_of f a <> ∅ -> root f <> Some d \/ name <> lit "artifacts") ->
  (forall a x c, anchor f a -> holds f x c -> ~ excluded x -> (a, x) <> (d, name)) ->
  (forall a, artifacts_at (set_entry t f d name v) a -> entries_of (set_entry t f d name v) a <> ∅ ->
     artifacts_at f a /\ (entries_of f a <> ∅ \/ anchor f a /\ (root f <> Some d \/ name <> lit "artifacts"))) ->
  kept excluded f (set_entry t f d name v).
Proof.
  intros H1 H2 H3.
  assert (Ha : forall a, anchor f a -> root f <> Some d \/ name <> lit "artifacts" -> anchor (set_entry t f d name v) a).
  { intros a (r & E1 & E2 & E3) Hs; exists r; split_and!; try done; apply set_entry_durable; [done |].
    intros Heq; injection Heq as -> <-; by destruct Hs. }
  split.
  - intros x c Hx Hh; pose proof Hh as (a & n & A1 & A2 & A3); exists a, n; split_and!; [| | by apply set_entry_file].
    + apply Ha; [done |]; apply (H1 a A1); intros E; apply durable_entry_some in A2; by rewrite E, lookup_empty in A2.
    + apply set_entry_durable; [done |]; by apply (H2 a x c).
  - intros H a Haa Hne; destruct (H3 a Haa Hne) as [Hat [He|[He Hs]]]; [| by apply Ha].
    pose proof (H a Hat He); apply Ha; [done |]; by apply (H1 a).
Qed.

Lemma set_entry_root t f d name v : root (set_entry t f d name v) = root f /\ root_synced (set_entry t f d name v) = root_synced f.
Proof. done. Qed.

(** An entry is added where there was none, in a directory that is the root
    itself or that may hold something. *)
Lemma kept_new_entry excluded t f d name n :
  entries_of f d !! name = None -> (artifacts_at f d -> anchor f d \/ root f = Some d) ->
  (root f = Some d -> name = lit "artifacts" -> entries_of f n = ∅ /\ n <> d) ->
  kept excluded f (set_entry t f d name (Some n)).
Proof.
  intros Hn Hd Hx; apply kept_set_entry.
  - intros a Ha _; destruct (decide (root f = Some d)) as [Hr|]; [| by left]; right; intros ->.
    destruct Ha as (r & Hr' & _ & He); apply durable_entry_some in He; congruence.
  - intros a x c Ha (a' & m & Ha' & He & _) _ [= -> ->]; rewrite (artifacts_at_fun f a' d) in He by (by apply anchor_at).
    apply durable_entry_some in He; congruence.
  - intros a (r & Hr & Ha) He; rewrite set_entry_entries in Ha, He; destruct (decide (r = d)) as [->|Hrd].
    + destruct (is_directory f d) eqn:Hdir; [| by rewrite lookup_empty in Ha].
      destruct (decide (name = lit "artifacts")) as [->|Hne].
      * rewrite lookup_partial_alter, decide_True in Ha by done; injection Ha as <-; destruct (Hx Hr eq_refl) as [E Hne].
        rewrite decide_False in He by done; done.
      * rewrite lookup_partial_alter_ne in Ha by done; assert (Hat : artifacts_at f a) by (by exists d).
        split; [done |]; destruct (decide (a = d)) as [->|]; [| by left]; left; intros E; rewrite E, lookup_empty in Ha; done.
    + assert (Hat : artifacts_at f a) by (by exists r); split; [done |]; destruct (decide (a = d)) as [->|]; [| by left].
      destruct (Hd Hat) as [?|E]; [right; split; [done | left; cbn in Hr; congruence] |]; cbn in Hr; congruence.
Qed.

(** The directory a node is created in. *)
Definition may_hold (f : Fs) (d : Z) : Prop := artifacts_at f d -> anchor f d \/ root f = Some d.

Lemma may_hold_add f n i d : inodes f !! n = None -> bare (node i) -> may_hold f d -> may_hold (add_inode f n i) d.
Proof.
  intros Hn Hi H (r & Hr & He); rewrite add_entries in He by done; destruct (H (ex_intro _ r (conj Hr He))) as [(r' & H1 & H2 & H3)|E]; [| by right].
  left; exists r'; split_and!; try done; by apply add_durable.
Qed.

Lemma kept_create excluded t d name i f :
  bare (node i) -> may_hold f d -> kept excluded f (snd (create_at t d name i f)).
Proof.
  intros Hi Hd; unfold create_at; destruct (is_directory f d) eqn:Hdir; [| done]; cbn [negb].
  destruct (entries_of f d !! name) eqn:E; [done |]; cbn [snd]; pose proof (new_number_fresh f) as Hn.
  apply (kept_trans _ _ (add_inode f (new_number f) i)); [by apply kept_add |]; apply kept_new_entry.
  - by rewrite add_entries.
  - by apply may_hold_add.
  - intros _ _; rewrite add_entries by done; split.
    + unfold entries_of; by rewrite new_node_fresh.
    + intros E'; apply directory_some in Hdir as (e & p & Hdir); rewrite <- E', new_node_fresh in Hdir; done.
Qed.

Lemma kept_link excluded t d name d' name' f : may_hold f d' -> kept excluded f (snd (linkat t d name d' name' f)).
Proof.
  intros Hd; unfold linkat; destruct (lookup_name f d name) as [n| |] eqn:En; try done.
  destruct (is_directory f n) eqn:Hdir; [done |]; destruct (is_directory f d') eqn:Hd'; [| done]; cbn [negb].
  destruct (entries_of f d' !! name') eqn:E; [done |]; cbn [snd]; pose proof (same_touch t f n) as Hs.
  apply (kept_trans _ _ (with_inodes f (alter (touch_inode t) n (inodes f)))); [by apply kept_same |]; apply kept_new_entry.
  - by rewrite (same_entries f).
  - intros Ha; apply (same_artifacts _ _ _ Hs) in Ha; destruct (Hd Ha) as [?|?]; [left; by apply (same_anchor f) | by right].
  - intros Hr ->; rewrite (same_entries f) by done; split.
    + unfold entries_of; unfold is_directory in Hdir; by destruct (node_at f n) as [[]|].
    + intros ->; congruence.
Qed.

(** Removing a name that nothing relies on. *)
Lemma kept_unlink (excluded : text -> Prop) t d name f : excluded name -> kept excluded f (snd (unlinkat t d name f)).
Proof.
  intros Hx; unfold unlinkat; destruct (lookup_name f d name) as [n| |] eqn:En; try done.
  destruct (is_directory f n) eqn:Hdir; [done |]; cbn [snd]; pose proof (same_touch t f n) as Hs.
  set (f' := with_inodes f (alter (touch_inode t) n (inodes f))) in *.
  apply (kept_trans _ _ f'); [by apply kept_same |]; apply kept_set_entry.
  - intros a (r & Hr & _ & Ha) Hne; destruct (decide (root f' = Some d)) as [Hrd|]; [| by left]; right; intros ->.
    cbn in Hr, Hrd; assert (r = d) as -> by congruence.
    apply durable_entry_some in Ha; rewrite (same_entries f) in Ha by done; unfold lookup_name in En.
    destruct (is_directory f d); [| done]; rewrite Ha in En; cbn in En; injection En as ->.
    apply Hne; unfold entries_of; destruct Hs as (-> & _); unfold is_directory in Hdir; by destruct (node_at f n) as [[]|].
  - intros a x c Ha Hh Hne [= -> ->]; done.
  - intros a Ha He; unfold artifacts_at in *; rewrite set_entry_entries in He.
    destruct Ha as (r & Hr & Ha); rewrite set_entry_entries in Ha; cbn in Hr.
    assert (Hat : artifacts_at f' a).
    { exists r; split; [done |]; destruct (decide (r = d)) as [->|]; [| done]; destruct (is_directory f' d); [| by rewrite lookup_empty in Ha].
      destruct (decide (name = lit "artifacts")) as [->|]; [by rewrite lookup_partial_alter, decide_True in Ha | by rewrite lookup_partial_alter_ne in Ha]. }
    split; [done |]; left; intros E; destruct (decide (a = d)) as [->|]; [| done]; destruct (is_directory f' d); [| done].
    apply He; rewrite E; apply map_eq; intros k; rewrite lookup_empty; destruct (decide (k = name)) as [->|];
      [by rewrite lookup_partial_alter, decide_True | by rewrite lookup_partial_alter_ne].
Qed.

(** ** The root *)

Lemma kept_create_root excluded t f : kept excluded f (snd (create_root t f)).
Proof.
  unfold create_root; destruct (root f) as [n|] eqn:E; [done |]; cbn [snd]; split.
  - intros name c _ (a & n & (r & Hr & _) & _); congruence.
  - intros _ a (r & Hr & Ha); cbn in Hr; injection Hr as <-; revert Ha; unfold entries_of, node_at; cbn.
    by rewrite lookup_insert, decide_True.
Qed.

Lemma kept_sync_root excluded f : kept excluded f (snd (sync_root_parent f)).
Proof.
  split.
  - intros name c _ (a & n & (r & Hr & _ & Ha) & Hd & Hn); exists a, n; split_and!; try done; by exists r.
  - intros H a Ha He; destruct (H a Ha He) as (r & Hr & _ & Hd); by exists r.
Qed.

(** ** Loss of power *)

Section Survives.
Context (f f' : Fs) (Hs : survives f f').

Lemma survives_directory_pending d e p : node_at f' d = Some (DirectoryNode e p) -> p = [].
Proof. intros E; destruct (sv_nodes _ _ Hs d _ E) as (v & _ & Hv); by inversion Hv. Qed.

Lemma survives_entry d name n :
  referenced f' d -> durable_entry f d name n -> durable_entry f' d name n.
Proof.
  intros Hr (e & p & E & He & Hp); unfold node_at in E; destruct (inodes f !! d) as [i|] eqn:Ei; [| done].
  destruct (sv_referenced _ _ Hs d Hr (ex_intro _ i Ei)) as [i' Ei'].
  destruct (sv_nodes _ _ Hs d (node i')) as (v & Ev & Hv); [unfold node_at; by rewrite Ei' |].
  unfold node_at in Ev; rewrite Ei in Ev; cbn in E, Ev; rewrite E in Ev; injection Ev as <-; inversion Hv as [| |e0 p0 e' Hx| |]; subst.
  exists e', []; unfold node_at; rewrite Ei'; cbn; split_and!; [congruence | | intros u Hu; by apply elem_of_nil in Hu].
  destruct (Hx name) as [->|Hin]; [done |]; by apply Hp in Hin.
Qed.

Lemma survives_anchor a : anchor f a -> anchor f' a.
Proof.
  intros (r & Hr & Hy & Ha); assert (Hr' : root f' = Some r) by (destruct (sv_root _ _ Hs) as [->|[? _]]; congruence).
  exists r; split_and!; [done | apply (sv_root_synced _ _ Hs) |]; apply survives_entry; [by left | done].
Qed.

Lemma survives_holds name c : holds f name c -> holds f' name c.
Proof.
  intros (a & n & Ha & Hd & Hn); pose proof (survives_anchor a Ha) as Ha'.
  assert (Hd' : durable_entry f' a name n).
  { apply survives_entry; [| done]; right; destruct Ha' as (r & _ & _ & Hx); exists r, (lit "artifacts"); by apply durable_entry_some. }
  exists a, n; split_and!; try done; unfold node_at in Hn; destruct (inodes f !! n) as [i|] eqn:Ei; [| done].
  destruct (sv_referenced _ _ Hs n) as [i' Ei']; [right; exists a, name; by apply durable_entry_some | by exists i |].
  destruct (sv_nodes _ _ Hs n (node i')) as (v & Ev & Hv); [unfold node_at; by rewrite Ei' |].
  unfold node_at in *; rewrite Ei in Ev; rewrite Ei'; cbn in *; rewrite Hn in Ev; injection Ev as <-; inversion Hv; congruence.
Qed.

Lemma survives_anchored : anchored f'.
Proof.
  intros a (r & Hr & Ha) _; apply entries_some in Ha as (e & p & E & Ha); exists r; split_and!; [done | apply (sv_root_synced _ _ Hs) |].
  exists e, p; split_and!; try done; intros v Hv; rewrite (survives_directory_pending _ _ _ E) in Hv; by apply elem_of_nil in Hv.
Qed.

End Survives.
