(* ===== verification/StorageSpecs.v ===== *)
(** * What the operations on pinned directories find out.

    In any environment: the value an operation returns is true of the file
    system it looked at. *)

From S2P Require Import Prelude Text Document Claims Json Extractor Model ModelJson StoreDb ModelStore FileSystem StorageIo ArtifactStorage StorageFacts.

(** ** Programs that only look *)

Lemma looks_io {A} (m : Io IoError A) : looks m -> looks (io m).
Proof. apply looks_map_error. Qed.
Lemma looks_initial {A} (m : Io IoError A) : looks m -> looks (initial m).
Proof. apply looks_map_error. Qed.
Lemma looks_active {A} (m : Io IoError A) : looks m -> looks (active m).
Proof. apply looks_map_error. Qed.
Lemma looks_not_cancelled {E} (e : E) token : looks (ensure_not_cancelled e token).
Proof. unfold ensure_not_cancelled; looks. Qed.
Lemma looks_absolute : looks absolute.
Proof. apply looks_look. Qed.
#[export] Hint Resolve looks_absolute looks_io looks_initial looks_active looks_not_cancelled : io.

(** Take a program apart that only looks. *)
Ltac found :=
  repeat match goal with
  | |- yields (mret _) _ => apply yields_ret; intros
  | |- yields (raise _) _ => apply yields_raise
  | |- yields (value _) _ => apply yields_value; intros
  | |- yields (map_error _ _) _ => apply yields_map_error
  | |- yields (io _) _ => apply yields_map_error
  | |- yields (initial _) _ => apply yields_map_error
  | |- yields (active _) _ => apply yields_map_error
  | |- yields (match ?x with _ => _ end) _ => destruct x eqn:?
  | |- yields (look _) _ => apply yields_look; intros
  end.

Lemma yields_token {E} (e : E) token : yields (ensure_not_cancelled e token) (fun _ _ => True).
Proof. apply yields_any; auto with io. Qed.

(** ** Metadata *)

Definition fingerprint_of (f : Fs) (n : Z) (p : MetadataFingerprint.t) : Prop :=
  exists i, inodes f !! n = Some i /\ p = MetadataFingerprint.of_metadata (metadata_of f n i).

Lemma fingerprint_inode f n p : fingerprint_of f n p -> MetadataFingerprint.inode p = n.
Proof. by intros (i & _ & ->). Qed.
Lemma fingerprint_fun f n p q : fingerprint_of f n p -> fingerprint_of f n q -> p = q.
Proof. intros (i & E & ->) (j & E' & ->); congruence. Qed.
Lemma fingerprint_links f n p : fingerprint_of f n p -> MetadataFingerprint.link_count p = link_count f n.
Proof. by intros (i & _ & ->). Qed.

Lemma yields_fingerprint n : yields (MetadataFingerprint.from_file n) (fun f p => fingerprint_of f n p).
Proof.
  unfold MetadataFingerprint.from_file; eapply yields_bind with (F := fun f m => exists i, inodes f !! n = Some i /\ m = metadata_of f n i).
  - found; unfold stat_node in H; destruct (inodes f !! n) as [i|] eqn:Ei; [| done]; injection H as <-; eauto.
  - intros m; found; destruct H as (i & Ei & ->); exists i; done.
Qed.

(** What a node was checked to be. *)
Definition is_type (t : FileType) (f : Fs) (n : Z) : Prop := exists v, node_at f n = Some v /\ node_type v = t.

Lemma yields_handle test t n opening :
  (forall m, test m = bool_decide (md_type m = t)) -> yields (validate_handle test n opening) (fun f _ => is_type t f n).
Proof.
  intros Ht; unfold validate_handle; eapply yields_bind with (F := fun f m => exists i, inodes f !! n = Some i /\ m = metadata_of f n i).
  - found; unfold stat_node in H; destruct (inodes f !! n) as [i|] eqn:Ei; [| done]; injection H as <-; eauto.
  - intros m; found; destruct H as (i & Ei & ->); apply andb_true_iff in Heqb as [H _]; rewrite Ht in H.
    apply bool_decide_eq_true in H; exists (node i); unfold node_at; by rewrite Ei.
Qed.
Lemma yields_directory n opening : yields (validate_directory_handle n opening) (fun f _ => is_type TypeDirectory f n).
Proof. by apply yields_handle. Qed.
Lemma yields_regular n opening : yields (validate_regular_file n opening) (fun f _ => is_type TypeFile f n).
Proof. by apply yields_handle. Qed.
Lemma yields_file_fingerprint n : yields (fingerprint_std_file n) (fun f p => fingerprint_of f n p).
Proof. apply yields_map_error, yields_fingerprint. Qed.

(** ** Names *)

Lemma lookup_name_ok f d name n : lookup_name f d name = Ok n -> entries_of f d !! name = Some n.
Proof. unfold lookup_name; destruct (is_directory f d); [| done]; cbn; by destruct (entries_of f d !! name); [intros [= ->] |]. Qed.
Lemma openat_ok directory write d name f n : openat directory write d name f = Ok n -> entries_of f d !! name = Some n.
Proof.
  unfold openat; destruct (lookup_name f d name) as [m| |] eqn:E; [| done ..]; apply lookup_name_ok in E; cbn.
  unfold open_node; destruct (node_at f m) as [[]|]; destruct directory, write; intros [= <-]; done.
Qed.
Lemma yields_open_file d name share : yields (open_file d name share) (fun f n => entries_of f d !! name = Some n).
Proof. unfold open_file; found; by eapply openat_ok. Qed.
Lemma yields_open_directory d name : yields (open_directory d name) (fun f n => entries_of f d !! name = Some n).
Proof. unfold open_directory; found; by eapply openat_ok. Qed.
Lemma yields_open_path : yields open_directory_path (fun f n => root f = Some n).
Proof.
  unfold open_directory_path; found; unfold open_root in H; destruct (root f) as [k|]; [| done]; cbn in H.
  unfold open_node in H; destruct (node_at f k) as [[]|]; try done; congruence.
Qed.

Lemma yields_then {E A B} (m : Io E A) (g : A -> Io E B) (G : Fs -> B -> Prop) :
  looks m -> (forall a, yields (g a) G) -> yields (m ≫= g) G.
Proof. intros Hm Hg; eapply yields_bind; [by apply yields_any |]; intros a; eapply yields_weaken; [apply Hg | done]. Qed.

Lemma yields_child_file d name :
  yields (child_file_fingerprint d name) (fun f p => exists n, entries_of f d !! name = Some n /\ is_type TypeFile f n /\ fingerprint_of f n p).
Proof.
  unfold child_file_fingerprint; eapply yields_bind; [apply yields_map_error, yields_open_file |]; intros n.
  eapply yields_bind; [apply yields_regular |]; intros u; eapply yields_weaken; [apply yields_map_error, yields_fingerprint |].
  cbn; intros f p H1 H2 H3; eauto.
Qed.
Lemma yields_child_directory d name :
  yields (child_directory_fingerprint d name)
    (fun f p => exists n, entries_of f d !! name = Some n /\ is_type TypeDirectory f n /\ fingerprint_of f n p).
Proof.
  unfold child_directory_fingerprint; eapply yields_bind; [apply yields_map_error, yields_open_directory |]; intros n.
  eapply yields_bind; [apply yields_directory |]; intros u; eapply yields_weaken; [apply yields_map_error, yields_fingerprint |].
  cbn; intros f p H1 H2 H3; eauto.
Qed.
Lemma yields_directory_fingerprint d : yields (directory_fingerprint d) (fun f p => fingerprint_of f d p).
Proof.
  unfold directory_fingerprint; apply yields_then; [apply (yields_looks _ _ (yields_directory d false)) |]; intros u.
  apply yields_map_error, yields_fingerprint.
Qed.
Lemma yields_fingerprint_path : yields fingerprint_path (fun f p => exists n, root f = Some n /\ fingerprint_of f n p).
Proof.
  unfold fingerprint_path; eapply yields_bind; [apply yields_map_error, yields_open_path |]; intros n.
  apply yields_then; [apply (yields_looks _ _ (yields_directory n false)) |]; intros u.
  eapply yields_weaken; [apply yields_map_error, yields_fingerprint |]; cbn; eauto.
Qed.

Lemma looks_fingerprints :
  (forall n, looks (fingerprint_std_file n)) /\ (forall n, looks (MetadataFingerprint.from_file n)) /\
  (forall d name, looks (child_file_fingerprint d name)) /\ (forall d name, looks (child_directory_fingerprint d name)) /\
  (forall d, looks (directory_fingerprint d)) /\ looks fingerprint_path /\
  (forall n b, looks (validate_directory_handle n b)) /\ (forall n b, looks (validate_regular_file n b)) /\
  (forall d name, looks (open_directory d name)) /\ (forall d name share, looks (open_file d name share)) /\ looks open_directory_path.
Proof.
  split_and!; intros; eapply yields_looks;
    auto using yields_file_fingerprint, yields_fingerprint, yields_child_file, yields_child_directory, yields_directory_fingerprint,
      yields_fingerprint_path, yields_directory, yields_regular, yields_open_directory, yields_open_file, yields_open_path.
Qed.
#[export] Hint Extern 1 (looks _) => apply looks_fingerprints : io.

(** ** The layout *)

Lemma yields_layout s :
  yields (validate_layout s) (fun f _ =>
    root f = Some (es_root s) /\ entries_of f (es_root s) !! lit "artifacts" = Some (es_artifacts s)).
Proof.
  unfold validate_layout; eapply yields_bind; [apply yields_directory_fingerprint |]; intros p.
  eapply yields_bind; [apply yields_fingerprint_path |]; intros q; destruct (negb _) eqn:E1; [apply yields_raise |].
  apply negb_false_iff, bool_decide_eq_true in E1 as <-; apply yields_then; [apply (yields_looks _ _ (yields_child_file _ _)) |]; intros lp.
  apply yields_then; [apply (yields_looks _ _ (yields_file_fingerprint _)) |]; intros lk; destruct (negb _); [apply yields_raise |].
  eapply yields_bind; [apply yields_directory_fingerprint |]; intros p1.
  eapply yields_bind; [apply yields_child_directory |]; intros p2; destruct (negb _) eqn:E2; [apply yields_raise |].
  apply negb_false_iff, bool_decide_eq_true in E2 as <-; apply yields_ret; intros f (n & Hn & _ & Hp2) Hp1 (r & Hr & Hq) Hp.
  apply fingerprint_inode in Hp, Hq, Hp1, Hp2; split; congruence.
Qed.

(** ** Entries *)

Definition not_dot (name : text) : bool := negb (existsb (text_eqb name) [lit "."; lit ".."]).

Lemma yields_raw_entries d maximum token :
  yields (raw_entries d maximum token) (fun f l =>
    map re_name l = List.filter not_dot (map fst (map_to_list (entries_of f d)))).
Proof.
  unfold raw_entries; eapply yields_bind with (F := fun f names => names = [lit "."; lit ".."] ++ map fst (map_to_list (entries_of f d))).
  { found; unfold read_dir in H; destruct (is_directory f d); [| done]; cbn [negb] in H; congruence. }
  intros names; eapply yields_weaken with (F := fun f l => map re_name l = map re_name [] ++ List.filter not_dot names).
  2: { cbn; intros f l -> ->; done. }
  match goal with |- yields (visit ?g _ _) _ =>
    enough (H : forall result, yields (visit g result names) (fun f l => map re_name l = map re_name result ++ List.filter not_dot names))
      by apply H end.
  induction names as [|name names IH]; intros result.
  { cbn; apply yields_ret; intros f; by rewrite app_nil_r. }
  cbn [visit]; eapply yields_bind with (F := fun f l => map re_name l = map re_name result ++ List.filter not_dot [name]).
  - apply yields_then; [auto with io |]; intros u; eapply yields_bind with (F := fun _ x => x = name); [found; congruence |]; intros x.
    destruct (existsb _ _) eqn:Ed; [apply yields_ret; intros f ->; cbn [List.filter]; unfold not_dot; rewrite Ed; by rewrite app_nil_r |].
    destruct (vlen result =? maximum); [apply yields_raise |]; apply yields_then; [auto with io |]; intros stat.
    apply yields_then; [auto with io |]; intros size; apply yields_ret; intros f ->; rewrite map_app; cbn [List.filter]; unfold not_dot; rewrite Ed; done.
  - intros l; eapply yields_weaken; [apply IH |]; cbn beta; intros f l' E1 Hl; rewrite E1, Hl, <- app_assoc.
    change (name :: names) with ([name] ++ names); by rewrite List.filter_app.
Qed.

Lemma yields_exact_name d name maximum token :
  not_dot name = true ->
  yields (has_exact_entry_name d name maximum token) (fun f r => fst r = true <-> is_Some (entries_of f d !! name)).
Proof.
  intros Hd; unfold has_exact_entry_name; eapply yields_bind; [apply yields_raw_entries |]; intros l; apply yields_ret; intros f Hl; cbn [fst].
  rewrite existsb_exists; setoid_rewrite bool_decide_eq_true; split.
  - intros (x & Hx & <-); assert (Hin : In (re_name x) (map re_name l)) by (apply in_map_iff; eauto); rewrite Hl in Hin.
    apply filter_In in Hin as [Hin _]; apply in_map_iff in Hin as ([k v] & <- & Hin); apply list_elem_of_In, elem_of_map_to_list in Hin; by exists v.
  - intros [v Hv]; assert (Hin : In name (map re_name l)).
    { rewrite Hl; apply filter_In; split; [| done]; apply in_map_iff; exists (name, v); split; [done |]; by apply list_elem_of_In, elem_of_map_to_list. }
    apply in_map_iff in Hin as (x & Hx & Hin); eauto.
Qed.

Lemma looks_inspect d name : looks (inspect_entry d name).
Proof. unfold inspect_entry; looks. Qed.
#[export] Hint Resolve looks_inspect : io.

(** ** Managed files *)

Definition managed (f : Fs) (d : Z) (name : text) (m : ManagedFile) : Prop :=
  entries_of f d !! name = Some (mf_file m) /\ is_type TypeFile f (mf_file m) /\
  fingerprint_of f (mf_file m) (mf_fingerprint m) /\ mf_byte_size m = MetadataFingerprint.length (mf_fingerprint m).

Lemma yields_open_with_entry d name share entry :
  yields (open_managed_file_by_name_with_entry d name share entry) (fun f o => forall m, o = Some m -> managed f d name m).
Proof.
  unfold open_managed_file_by_name_with_entry; destruct (_ || _); [apply yields_raise |].
  eapply yields_bind; [apply yields_attempt, yields_open_file |]; intros [n|e|].
  - eapply yields_bind; [apply yields_regular |]; intros u.
    eapply yields_bind; [apply yields_map_error, yields_fingerprint |]; intros p; destruct (negb _); [apply yields_raise |].
    apply yields_ret; intros f Hp Hr Hn m [= <-]; split_and!; [by apply Hn | done ..].
  - destruct (bool_decide _); [by apply yields_ret |]; destruct (is_unsafe_entry_error e); apply yields_raise.
  - by apply yields_value.
Qed.

Lemma looks_open_managed_by_name d name share : looks (open_managed_file_by_name d name share).
Proof. unfold open_managed_file_by_name; looks; apply (yields_looks _ _ (yields_open_with_entry _ _ _ _)). Qed.

Lemma yields_open_by_name d name share :
  yields (open_managed_file_by_name d name share) (fun f o => forall m, o = Some m -> managed f d name m).
Proof.
  unfold open_managed_file_by_name; apply yields_then; [auto with io |]; intros [entry|]; [apply yields_open_with_entry | by apply yields_ret].
Qed.

Lemma looks_exact_name d name maximum token : looks (has_exact_entry_name d name maximum token).
Proof. unfold has_exact_entry_name; looks; apply (yields_looks _ _ (yields_raw_entries _ _ _)). Qed.
#[export] Hint Resolve looks_open_managed_by_name looks_exact_name : io.

Lemma yields_open_managed d name share maximum token :
  yields (open_managed_file_with_share d name share maximum token) (fun f o => forall m, o = Some m -> managed f d name m).
Proof.
  unfold open_managed_file_with_share; apply yields_then; [auto with io |]; intros [has cap]; destruct (negb has).
  - destruct cap; [apply yields_raise |]; apply yields_then; [auto with io |]; intros [entry|]; [apply yields_raise | by apply yields_ret].
  - apply yields_then; [auto with io |]; intros [entry|]; [apply yields_open_with_entry | apply yields_raise].
Qed.

Lemma yields_absent d name maximum :
  not_dot name = true -> yields (confirm_managed_file_absent d name maximum) (fun f _ => entries_of f d !! name = None).
Proof.
  intros Hd; unfold confirm_managed_file_absent; eapply yields_bind; [by apply yields_exact_name |]; intros [[] cap]; [apply yields_raise |].
  apply yields_then; [auto with io |]; intros [entry|]; [apply yields_raise |]; apply yields_ret; cbn; intros f H.
  apply eq_None_not_Some; intros Hs; by apply H in Hs.
Qed.

Lemma yields_recheck d name p share maximum token :
  yields (recheck_managed_file_with_share d name p share maximum token) (fun f _ =>
    exists n, entries_of f d !! name = Some n /\ is_type TypeFile f n /\ fingerprint_of f n p).
Proof.
  unfold recheck_managed_file_with_share; eapply yields_bind; [apply yields_open_managed |]; intros o.
  eapply yields_bind with (F := fun _ m => o = Some m); [apply yields_value; intros f m; by destruct o; [intros [= ->] |] |].
  intros m; destruct (bool_decide _) eqn:E; [| apply yields_raise]; apply bool_decide_eq_true in E as <-; apply yields_ret.
  intros f -> H; destruct (H m eq_refl) as (H1 & H2 & H3 & _); eauto.
Qed.

(** ** Hashing *)

Section Exact.
Context {SHA : Sha256}.

(** The bytes read so far are the first ones of the file. *)
Definition read_prefix (f : Fs) (file : Z) (hashed : bytes) (observed : Z) : Prop :=
  exists c s, node_at f file = Some (RegularFile c s) /\ hashed = take (Z.to_nat observed) c /\ observed = vlen hashed.
(** The file has a size and a digest. *)
Definition exact_file (f : Fs) (file size : Z) (d : Digest.t) : Prop :=
  exists c s, node_at f file = Some (RegularFile c s) /\ vlen c = size /\ sha256 c = d.

Lemma finish_hash_ok {E} (e : E) b d : finish_hash e b = Ok d -> d = sha256 b.
Proof.
  unfold finish_hash; intros H; apply map_err_ok in H; unfold Digest.from_sha256_hex in H.
  destruct (_ && _); [by injection H as <- | done].
Qed.

Lemma take_length_take {A} (k : nat) (l : list A) : take k l = take (length (take k l)) l.
Proof.
  rewrite length_take; destruct (Nat.le_ge_cases k (length l)); [by rewrite Nat.min_l | by rewrite Nat.min_r, firstn_all, take_ge].
Qed.

Lemma yields_read file position buffer :
  0 < buffer ->
  yields (read_file file position buffer) (fun f b => exists c s, node_at f file = Some (RegularFile c s) /\
    b = take (length b) (drop (Z.to_nat position) c) /\ (0 <= position -> b = [] -> vlen c <= position)).
Proof.
  intros Hb; unfold read_file; found.
  destruct (node_at f file) as [[c s| | |]|] eqn:En; unfold read_at in H; rewrite En in H; try done; injection H as <-.
  exists c, s; split; [done |]; split; [apply take_length_take |].
  intros Hp E; unfold read_count, vlen in *; apply (f_equal length) in E; rewrite length_take, length_drop in E; cbn in E; lia.
Qed.

Lemma yields_hash_loop file size token progress : (forall n, looks (progress n)) ->
  forall fuel hashed observed, yields (hash_loop fuel file size token progress hashed observed) (fun f d =>
    read_prefix f file hashed observed -> exact_file f file size d).
Proof.
  intros Hp fuel; induction fuel as [|fuel IH]; intros hashed observed; cbn [hash_loop]; [by apply yields_value |].
  apply yields_then; [auto with io |]; intros u.
  eapply yields_bind; [apply yields_map_error, yields_read; done |]; intros chunk; destruct (vlen chunk =? 0) eqn:Ec.
  - destruct (negb _) eqn:Es; [apply yields_raise |]; apply yields_value; intros f d Hd (c & s & En & _ & Hend) (c' & s' & En' & Hh & Hobs).
    rewrite En in En'; injection En' as <- <-; apply finish_hash_ok in Hd as ->; apply Z.eqb_eq in Ec; unfold vlen in *.
    assert (chunk = []) as -> by (destruct chunk; [done | cbn in Ec; lia]); specialize (Hend ltac:(lia) eq_refl).
    assert (hashed = c) as -> by (rewrite Hh; apply take_ge; lia).
    exists c, s; split; [done |]; apply negb_false_iff, Z.eqb_eq in Es; unfold vlen; split; [lia | done].
  - eapply yields_bind with (F := fun _ n => n = vlen chunk).
    { apply yields_value; intros f n; unfold try_from; destruct (_ && _); cbn; congruence. }
    intros count; eapply yields_bind with (F := fun _ n => n = observed + count).
    { apply yields_value; intros f n; unfold checked_add; destruct (_ <=? _); cbn; congruence. }
    intros observed'; destruct (size <? observed'); [apply yields_raise |]; apply yields_then; [apply Hp |]; intros u'.
    apply yields_then; [auto with io |]; intros u''; eapply yields_weaken; [apply IH |].
    intros f d H Hn Hc (c & s & En & Hchunk & _) (c' & s' & En' & Hh & Hobs); rewrite En in En'; injection En' as <- <-.
    apply H; exists c, s; split; [done |]; subst observed' count; unfold vlen in *; rewrite length_app.
    split; [| lia]; rewrite Z2Nat.inj_add, Nat2Z.id, <- take_take_drop by lia; by rewrite <- Hh, <- Hchunk.
Qed.

Lemma yields_hash file size token progress : (forall n, looks (progress n)) ->
  yields (hash_exact file size token progress) (fun f d => is_type TypeFile f file -> exact_file f file size d).
Proof.
  intros Hp; eapply yields_weaken; [by apply yields_hash_loop |]; cbn beta; intros f d H (v & Hv & Ht); apply H.
  destruct v as [c s| | |]; try done; by exists c, s.
Qed.

End Exact.
