(* ===== verification/StorageVerify.v ===== *)
(** * What verification establishes.

    Specifications of the operations that change the file system, for every
    environment. *)

From S2P Require Import Prelude Text Document Claims Json Extractor Model ModelJson StoreDb ModelStore FileSystem StorageIo ArtifactStorage StorageFacts StorageSpecs.

(** ** Synchronization *)

Lemma spec_sync_all K n (P : Fs -> Db -> Prop) (Q : unit -> Fs -> Db -> Prop) (R : IoError -> Fs -> Db -> Prop) C :
  (forall f d, P f d -> C f d) -> (forall e f d, P f d -> R e f d) -> (forall e f d, P f d -> R e (snd (fsync n f)) d) ->
  (forall f d, P f d -> Q tt (snd (fsync n f)) d) -> spec K P (sync_all n) Q R C.
Proof.
  intros HC HR HE HQ; apply spec_call; [done | done | auto |].
  intros env k f d Hp; specialize (HQ f d Hp); unfold fsync in *; by destruct (inodes f !! n).
Qed.

Lemma fsync_exact `{Sha256} n f file size d : exact_file f file size d -> exact_file (snd (fsync n f)) file size d.
Proof.
  intros (c & s & E & Hx); unfold exact_file; rewrite node_at_fsync; destruct (decide (file = n)) as [->|]; [| eauto].
  rewrite E; cbn; eauto.
Qed.
Lemma fsync_type t n f m : is_type t f m -> is_type t (snd (fsync n f)) m.
Proof.
  intros (v & E & Hv); unfold is_type; rewrite node_at_fsync; destruct (decide (m = n)) as [->|]; [| eauto].
  rewrite E; cbn; exists (sync_node v); split; [done |]; by destruct v.
Qed.

(** A predicate that synchronization cannot falsify. *)
Definition sync_closed (P : Fs -> Db -> Prop) : Prop := forall n f d, P f d -> P (snd (fsync n f)) d.

Section Verify.
Context {SHA : Sha256} (K : Environment -> Prop).

(** What a verified file is. *)
Definition verified_file (mode : VerificationMode) (f : Fs) (a : Z) (name : text) (size : Z) (d : Digest.t) (file : Z) : Prop :=
  entries_of f a !! name = Some file /\ exact_file f file size d /\
  (mode = Synchronized -> durable_entry f a name file /\ exists c, node_at f file = Some (RegularFile c true)).

Lemma spec_verify a name expectation token progress mode (P : Fs -> Db -> Prop) (R : ExactArtifactVerificationError -> Fs -> Db -> Prop) C :
  sync_closed P -> (forall n, looks (progress n)) -> (forall f d, P f d -> C f d) -> (forall e f d, P f d -> R e f d) ->
  spec K P (verify_exact_artifact_with a name expectation token progress mode)
    (fun v f d => P f d /\ verified_file mode f a name (ea_byte_size expectation) (ea_digest expectation) (vm_file v)) R C.
Proof.
  intros Hs Hp HC HR; set (size := ea_byte_size expectation); set (digest := ea_digest expectation); unfold verify_exact_artifact_with.
  eapply spec_bind; [apply spec_yields; [apply yields_map_error, yields_open_managed | done ..] |]; intros o.
  eapply spec_bind with (Q := fun m f d => P f d /\ managed f a name m).
  { apply spec_value; intros f d [H1 H2]; destruct o as [m|]; cbn; [split; auto | auto]. }
  intros m; destruct (negb (_ =? _)); [apply spec_raise; intros f d []; auto |].
  destruct (negb (MetadataFingerprint.has_single_link _)); [apply spec_raise; intros f d []; auto |].
  eapply spec_bind.
  { apply spec_yields; [apply yields_attempt, yields_hash; done | intros e f d []; auto | intros f d []; auto]. }
  intros observed; eapply spec_bind.
  { apply spec_looks; [apply looks_map_error, looks_io, (yields_looks _ _ (yields_fingerprint _)) | intros e f d [[] _]; auto | intros f d [[] _]; auto]. }
  intros p; destruct (_ || _); [apply spec_raise; intros f d [[] _]; auto |].
  eapply spec_bind with (Q := fun digest' f d => P f d /\ entries_of f a !! name = Some (mf_file m) /\ exact_file f (mf_file m) size digest').
  { apply spec_value; intros f d [[H1 (H2 & H3 & H4 & H5)] H6]; destruct observed as [x|e|]; [| by apply HR | by apply HC].
    split_and!; [done | done |]; by apply H6. }
  intros digest'; destruct (negb (bool_decide _)) eqn:E3; [apply spec_raise; intros f d []; auto |]; apply negb_false_iff, bool_decide_eq_true in E3 as ->.
  eapply spec_bind with (Q := fun _ f d => P f d /\ entries_of f a !! name = Some (mf_file m) /\ exact_file f (mf_file m) size digest /\
    (mode = Synchronized -> exists c, node_at f (mf_file m) = Some (RegularFile c true))).
  { destruct mode; [| apply spec_ret; intros f d (? & ? & ?); split_and!; done ..].
    apply spec_map_error, spec_map_error, spec_sync_all.
    - intros f d []; auto.
    - intros e f d []; auto.
    - intros e f d []; auto.
    - intros f d (H1 & H2 & H3); split_and!; [auto | by rewrite fsync_entries | by apply fsync_exact |].
      intros _; destruct H3 as (c & s & Ec & _); exists c; by rewrite node_at_fsync, decide_True, Ec. }
  intros u; eapply spec_bind; [apply spec_looks |].
  { apply looks_map_error, (yields_looks _ _ (yields_recheck _ _ _ _ _ _)). }
  { intros e f d []; auto. }
  { intros f d []; auto. }
  intros u'; eapply spec_bind with (Q := fun _ f d => P f d /\ verified_file mode f a name size digest (mf_file m)).
  - destruct mode; try (apply spec_map_error, spec_map_error, spec_sync_all; [intros f d []; auto | intros e f d []; auto | intros e f d []; auto |];
      intros f d (H1 & H2 & H3 & H4); split; [auto |]; split_and!; [by rewrite fsync_entries | by apply fsync_exact |]; intros E; try discriminate E).
    + split; [by apply fsync_makes_durable |]; destruct (H4 eq_refl) as [c Hc]; exists c; by apply fsync_file.
    + apply spec_ret; intros f d (H1 & H2 & H3 & H4); split; [done |]; by split_and!.
  - intros u''; by apply spec_ret.
Qed.

End Verify.
