(* ===== verification/StorageSafety.v ===== *)
(** * The services keep every installed artifact durable.

    In every environment, whatever fails and wherever the process ends, an
    installed artifact has its exact bytes under its digest, and a loss of
    power cannot take them away. *)

From S2P Require Import Prelude Text Document Claims Json Extractor Model ModelJson StoreDb ModelStore StoreMonad StoreInv StoreSteps StoreOps StoreTheorems.
From S2P Require Import FileSystem StorageIo ArtifactStorage ArtifactRemoval ArtifactImport ArtifactReconciliation StorageFacts StorageSpecs StorageVerify.

(** ** The artifact directory stays anchored *)

Lemma anchor_set_entry t f d name v a :
  anchor f a -> root f <> Some d \/ name <> lit "artifacts" -> anchor (set_entry t f d name v) a.
Proof.
  intros (r & E1 & E2 & E3) Hs; exists r; split_and!; try done; apply set_entry_durable; [done |].
  intros Heq; injection Heq as -> <-; by destruct Hs.
Qed.
Lemma anchor_new_entry t f d name v a : anchor f a -> entries_of f d !! name = None -> anchor (set_entry t f d name v) a.
Proof.
  intros Ha Hn; apply anchor_set_entry; [done |]; destruct (decide (root f = Some d)) as [Hr|]; [| by left]; right; intros ->.
  destruct Ha as (r & Hr' & _ & He); apply durable_entry_some in He; congruence.
Qed.
Lemma anchor_add f n i a : inodes f !! n = None -> anchor f a -> anchor (add_inode f n i) a.
Proof. intros Hn (r & H1 & H2 & H3); exists r; split_and!; try done; by apply add_durable. Qed.
Lemma anchor_create t d name i f a : bare (node i) -> anchor f a -> anchor (snd (create_at t d name i f)) a.
Proof.
  intros Hi Ha; unfold create_at; destruct (negb _); [done |]; destruct (entries_of f d !! name) eqn:E; [done |]; cbn [snd].
  apply anchor_new_entry; [apply anchor_add; [apply new_number_fresh | done] |]; by rewrite add_entries by (done || apply new_number_fresh).
Qed.
Lemma anchor_link t d name d' name' f a : anchor f a -> anchor (snd (linkat t d name d' name' f)) a.
Proof.
  intros Ha; unfold linkat; destruct (lookup_name f d name) as [n| |]; try done; destruct (is_directory f n); [done |].
  destruct (negb _); [done |]; destruct (entries_of f d' !! name') eqn:E; [done |]; cbn [snd].
  pose proof (same_touch t f n) as Hs; apply anchor_new_entry; [by apply (same_anchor f) | by rewrite (same_entries f)].
Qed.
Lemma anchor_unlink t d name f a : name <> lit "artifacts" -> anchor f a -> anchor (snd (unlinkat t d name f)) a.
Proof.
  intros Hne Ha; unfold unlinkat; destruct (lookup_name f d name) as [n| |]; try done; destruct (is_directory f n); [done |].
  cbn [snd]; apply anchor_set_entry; [| by right]; by apply (same_anchor f), Ha; [apply same_touch].
Qed.
Lemma anchor_append t n b f c a : node_at f n = Some (RegularFile c false) -> anchor f a -> anchor (snd (append t n b f)) a.
Proof.
  intros Hn (r & H1 & H2 & H3); exists r; split_and!.
  - unfold append; destruct (inodes f !! n) as [i|]; [| done]; by destruct (node i).
  - unfold append; destruct (inodes f !! n) as [i|]; [| done]; by destruct (node i).
  - apply (durable_other f); [| done]; rewrite (node_at_append t n b f r c false), decide_False by done || (intros ->; destruct H3 as (e & p & E & _); congruence); done.
Qed.
Lemma anchor_may_hold f a d : anchor f a -> may_hold f d.
Proof. intros Ha Hd; left; by rewrite (artifacts_at_fun f d a) by (done || by apply anchor_at). Qed.

(** ** Names *)

(** The names the import stages files under. *)
Definition staging_name (name : text) : Prop := starts_with name STAGING_PREFIX = true.

Lemma starts_with_app p s : starts_with (p ++ s) p = true.
Proof.
  unfold starts_with; enough (strip_prefix p (p ++ s) = Some s) as -> by done.
  induction p as [|c p IH]; [done |]; cbn; by rewrite Z.eqb_refl.
Qed.

Lemma staging_not_artifacts name : staging_name name -> name <> lit "artifacts".
Proof. by intros H ->. Qed.

Definition hex_name (name : text) : Prop := name <> [] /\ forallb Digest.is_hex_digit name = true.

Lemma hex_not_staging name : hex_name name -> ~ staging_name name.
Proof.
  intros [Hn Hh] Hs; destruct name as [|c name]; [done |]; apply andb_true_iff in Hh as [Hc _].
  assert (Hne : c =? 46 = false) by (apply Z.eqb_neq; intros ->; done).
  revert Hs; unfold staging_name, starts_with; change STAGING_PREFIX with (46 :: drop 1 STAGING_PREFIX).
  cbn [strip_prefix]; by rewrite (Z.eqb_sym 46 c), Hne.
Qed.
Lemma hex_not_dot name : hex_name name -> not_dot name = true.
Proof.
  intros [_ Hh]; unfold not_dot; apply negb_true_iff; apply not_true_iff_false; intros H; apply existsb_exists in H as (x & Hx & H).
  apply bool_decide_eq_true in H as ->; destruct Hx as [<-|[<-|[]]]; done.
Qed.
Lemma typed_hex d : digest_typed d -> hex_name (Digest.as_str d).
Proof.
  unfold digest_typed, Digest.from_sha256_hex; destruct (_ && _) eqn:E; [| done]; intros _; apply andb_true_iff in E as [E1 E2]; split; [| done].
  intros Hn; rewrite Hn in E1; done.
Qed.

Section Safety.
Context {SHA : Sha256} {JSON : JsonCodec}.

(** ** The invariant *)

(** The bytes of an installation. *)
Definition exact_bytes (i : InstalledArtifact.t) (c : bytes) : Prop :=
  InstalledArtifact.storage_key i = lit "artifacts/" ++ Digest.as_str (InstalledArtifact.artifact_digest i) /\
  vlen c = InstalledArtifact.byte_size i /\ sha256 c = InstalledArtifact.artifact_digest i.

(** Every installed artifact has its bytes, durably, under its key. *)
Definition secured (f : Fs) (d : Db) : Prop :=
  forall k i e, installed_at d k i e -> exists c, holds f k c /\ exact_bytes i c.

Definition sound (f : Fs) (d : Db) : Prop := inv d /\ secured f d /\ anchored f.

Lemma installed_digest d k i e : installed_at d k i e -> k = Digest.as_str (InstalledArtifact.artifact_digest i) /\ hex_name k.
Proof.
  intros (row & _ & [Ht _] & _ & [_ Hv <- _]); unfold InstalledArtifact.validate in Hv; destruct (_ || _); [done |].
  destruct (bool_decide _) eqn:E; [| done]; apply bool_decide_eq_true in E; unfold artifact_key; rewrite E; split; [done |].
  destruct Ht as [_ Ht _]; by apply typed_hex.
Qed.


Lemma sound_kept (excluded : text -> Prop) f f' d :
  sound f d -> kept excluded f f' -> (forall k i e, installed_at d k i e -> ~ excluded k) -> sound f' d.
Proof.
  intros (Hd & Hs & Ha) [Hk1 Hk2] Hx; split_and!; [done | | auto]; intros k i e Hi; destruct (Hs k i e Hi) as (c & Hh & He); exists c; split; [| done].
  apply Hk1; eauto.
Qed.
Lemma sound_keeps f f' d : sound f d -> kept staging_name f f' -> sound f' d.
Proof. intros Hs Hk; apply (sound_kept staging_name f); try done; intros k i e Hi; apply hex_not_staging; by apply installed_digest in Hi as []. Qed.
Lemma sound_sync n f d : sound f d -> sound (snd (fsync n f)) d.
Proof. intros Hs; apply (sound_keeps f); [done | apply kept_fsync]. Qed.

(** Fewer installations, or one more with its bytes. *)
Lemma installed_inv d k row : inv d -> installed_artifacts d !! k = Some row -> exists i, installed_at d k i (in_epoch row).
Proof. intros Hd E; by destruct (inv_installed d Hd k row E) as [_ H]. Qed.

Lemma sound_rows f d d' :
  sound f d -> inv d' ->
  (forall k row, installed_artifacts d' !! k = Some row ->
     installed_artifacts d !! k = Some row \/ exists i e c, installed_at d' k i e /\ holds f k c /\ exact_bytes i c) ->
  sound f d'.
Proof.
  intros (Hd & Hs & Ha) Hd' Hr; split_and!; try done; intros k i e Hi; pose proof Hi as (row & Er & Hst & He & _).
  destruct (Hr k row Er) as [Eo|(i' & e' & c & Hi' & Hh & Hx)].
  - destruct (installed_inv d k row Hd Eo) as [i0 Hi0]; destruct (Hs k i0 _ Hi0) as (c & Hh & Hx); exists c; split; [done |].
    destruct Hi0 as (row0 & Er0 & Hst0 & _); rewrite Eo in Er0; injection Er0 as <-; by rewrite (stored_inj i i0 (in_record row)).
  - destruct (installed_at_fun _ _ _ _ _ _ Hi Hi') as [-> _]; eauto.
Qed.

(** ** Database operations *)

Lemma spec_sql {A} K (m : Sql A) P (Q : A -> Fs -> Db -> Prop) R C :
  tame m -> atomic m -> (forall f d, P f d -> C f d) -> (forall e f d, P f d -> R e f d) ->
  (forall f d a d', P f d -> pure m d = (Ok a, d') -> Q a f d') -> spec K P (sql m) Q R C.
Proof.
  intros Ht Ha HC HR HQ env w _ Hw; unfold sql; destruct (ends env (calls w)); [by apply HC |].
  specialize (Ha (sql_fails env (calls w)) (db w, O)); destruct (m _ _) as [[a|e|] [d n]] eqn:E; cbn in Ha |- *; subst; eauto.
  apply run_ok in E; eauto.
Qed.

Lemma atomic_put m i : atomic (put_installation m i).
Proof. unfold put_installation; cbv zeta; repeat (apply atomic_bind; [by readonly | intros]); apply atomic_transaction. Qed.
Lemma atomic_state id : atomic (artifact_removal_state id).
Proof. apply atomic_transaction. Qed.

(** ** Programs that keep the invariant *)

Definition safe {E A} (P : Fs -> Db -> Prop) (m : Io E A) (Q : A -> Fs -> Db -> Prop) : Prop :=
  spec (fun _ => True) (fun f d => sound f d /\ P f d) m (fun a f d => sound f d /\ Q a f d) (fun _ => sound) sound.

Section Rules.
Context {E : Type}.
Implicit Types P : Fs -> Db -> Prop.

Lemma safe_conseq {A} P P' (m : Io E A) (Q Q' : A -> Fs -> Db -> Prop) :
  safe P m Q -> (forall f d, P' f d -> P f d) -> (forall a f d, Q a f d -> Q' a f d) -> safe P' m Q'.
Proof. intros H HP HQ; eapply spec_weaken; [apply H | cbn; intros f d []; auto | cbn; intros a f d []; auto]. Qed.
Lemma safe_seq {A B} (m : Io E A) (g : A -> Io E B) P (Q : A -> Fs -> Db -> Prop) (Q' : B -> Fs -> Db -> Prop) :
  safe P m Q -> (forall a, safe (Q a) (g a) Q') -> safe P (m ≫= g) Q'.
Proof. intros Hm Hg; eapply spec_bind; [apply Hm | apply Hg]. Qed.
Lemma safe_map_error {F A} (g : F -> E) (m : Io F A) P (Q : A -> Fs -> Db -> Prop) : safe P m Q -> safe P (map_error g m) Q.
Proof. intros H; by apply spec_map_error. Qed.
Lemma safe_attempt {F A} (m : Io F A) P (Q : A -> Fs -> Db -> Prop) :
  safe P m Q -> safe P (attempt (F := E) m) (fun r f d => forall a, r = Ok a -> Q a f d).
Proof.
  intros H; eapply spec_weaken; [apply spec_attempt; apply H | by intros f d Hx |]; cbn; intros [a|e|] f d Hx; [| by split | done].
  destruct Hx; split; [done |]; by intros a' [= <-].
Qed.
Lemma safe_ret {A} (a : A) P (Q : A -> Fs -> Db -> Prop) : (forall f d, P f d -> Q a f d) -> safe (E := E) P (mret a) Q.
Proof. intros H; apply spec_ret; intros f d []; auto. Qed.
Lemma safe_raise {A} (e : E) P (Q : A -> Fs -> Db -> Prop) : safe P (raise e) Q.
Proof. apply spec_raise; by intros f d []. Qed.
Lemma safe_value {A} (r : Result E A) P (Q : A -> Fs -> Db -> Prop) : (forall a f d, r = Ok a -> P f d -> Q a f d) -> safe P (value r) Q.
Proof. intros H; apply spec_value; intros f d []; destruct r; auto. Qed.
Lemma safe_yields {A} (m : Io E A) (F : Fs -> A -> Prop) P : yields m F -> safe P m (fun a f d => P f d /\ F f a).
Proof.
  intros H; eapply spec_weaken; [apply (spec_yields _ m F (fun f d => sound f d /\ P f d) (fun _ => sound) sound H); [by intros e f d [] | by intros f d []] | by intros f d Hx |].
  by intros a f d [[] ?].
Qed.
Lemma safe_looks {A} (m : Io E A) P : looks m -> safe P m (fun _ => P).
Proof. intros H; eapply safe_conseq; [by apply (safe_yields m (fun _ _ => True)) | done |]; by intros a f d []. Qed.
Lemma safe_then {A B} (m : Io E A) (g : A -> Io E B) P (Q : B -> Fs -> Db -> Prop) :
  looks m -> (forall a, safe P (g a) Q) -> safe P (m ≫= g) Q.
Proof. intros Hm Hg; eapply safe_seq; [by apply safe_looks | done]. Qed.
Lemma safe_visit {A B} (g : B -> A -> Io E B) l P : forall b, (forall b x, x ∈ l -> safe P (g b x) (fun _ => P)) -> safe P (visit g b l) (fun _ => P).
Proof.
  induction l as [|x l IH]; intros b H; cbn [visit]; [by apply safe_ret |]; eapply safe_seq; [apply H; by left |].
  intros b'; apply IH; intros; apply H; by right.
Qed.

End Rules.

Lemma safe_call {A} (effect : Environment -> nat -> Fs -> IoResult A * Fs) (P : Fs -> Db -> Prop) (Q : A -> Fs -> Db -> Prop) :
  (forall env n f d, sound f d -> P f d ->
     sound (snd (effect env n f)) d /\ fst (effect env n f) <> Panic /\ forall a, fst (effect env n f) = Ok a -> Q a (snd (effect env n f)) d) ->
  safe P (call effect) Q.
Proof.
  intros H; apply spec_call.
  - by intros f d [].
  - by intros e f d [].
  - intros env n e f d []; by apply H.
  - intros env n f d [Hs Hp]; destruct (H env n f d Hs Hp) as (H1 & H2 & H3); destruct (effect env n f) as [[a|e|] f']; cbn in *; auto.
Qed.

Lemma safe_sql {A} (m : Sql A) (P : Fs -> Db -> Prop) (Q : A -> Fs -> Db -> Prop) :
  tame m -> atomic m -> (forall f d a d', sound f d -> P f d -> pure m d = (Ok a, d') -> sound f d' /\ Q a f d') -> safe P (sql m) Q.
Proof. intros Ht Ha H; apply spec_sql; try done; [by intros f d [] | by intros e f d [] |]; intros f d a d' []; by apply H. Qed.

Lemma tame_state id : tame (artifact_removal_state id).
Proof. unfold artifact_removal_state; tame. Qed.
Lemma readonly_state id : readonly (artifact_removal_state id).
Proof. unfold artifact_removal_state; readonly. Qed.

Lemma safe_state id P : safe P (sql (artifact_removal_state id)) (fun _ => P).
Proof.
  apply safe_sql; [apply tame_state | apply atomic_state |]; intros f d a d' Hs Hp H.
  by rewrite (readonly_ok _ _ _ _ (readonly_state id) H).
Qed.

(** Synchronization, permissions and removals of staged files. *)
Lemma safe_sync_all n (P : Fs -> Db -> Prop) (Q : unit -> Fs -> Db -> Prop) :
  (forall f d, P f d -> Q tt (snd (fsync n f)) d) -> safe P (sync_all n) Q.
Proof.
  intros H; apply safe_call; intros env k f d Hs Hp; split_and!; [by apply sound_sync | unfold fsync; by destruct (inodes f !! n) |].
  intros [] _; auto.
Qed.
Lemma safe_sync n (P : Fs -> Db -> Prop) (Q : unit -> Fs -> Db -> Prop) :
  (forall f d, P f d -> Q tt (snd (fsync n f)) d) -> safe P (sync n) Q.
Proof. intros H; by apply safe_map_error, safe_sync_all. Qed.

Lemma unlinkat_result t d name f : fst (unlinkat t d name f) <> Panic.
Proof.
  unfold unlinkat, lookup_name; destruct (is_directory f d); [| done]; cbn; destruct (entries_of f d !! name) as [n|]; [| done]; cbn.
  by destruct (is_directory f n).
Qed.

Lemma safe_remove_staged d name (P : Fs -> Db -> Prop) :
  staging_name name -> (forall t f db, P f db -> P (snd (unlinkat t d name f)) db) -> safe P (remove_file d name) (fun _ => P).
Proof.
  intros Hn HP; apply safe_map_error, safe_call; intros env k f db Hs Ha; split_and!.
  - apply (sound_keeps f); [done |]; by apply kept_unlink.
  - apply unlinkat_result.
  - intros u _; by apply HP.
Qed.

Lemma safe_remove_identity d name held (P : Fs -> Db -> Prop) :
  staging_name name -> (forall t f db, P f db -> P (snd (unlinkat t d name f)) db) ->
  safe P (remove_file_if_same_identity d name held) (fun _ => P).
Proof.
  intros Hn HP; unfold remove_file_if_same_identity; apply safe_then; [apply looks_io, (yields_looks _ _ (yields_fingerprint _)) |]; intros p.
  apply safe_then; [auto with io |]; intros o; apply safe_then; [auto with io |]; intros m.
  destruct (negb _); [apply safe_raise | by apply safe_remove_staged].
Qed.

Lemma anchor_unlink_staged name a : staging_name name -> forall t d f (db : Db), anchor f a -> anchor (snd (unlinkat t d name f)) a.
Proof. intros Hn t d f db; apply anchor_unlink; by apply staging_not_artifacts. Qed.

(** ** Opening the storage for an import *)

Lemma safe_chmod t m n (P : Fs -> Db -> Prop) f d :
  (forall f f' d, same_nodes f f' -> P f d -> P f' d) -> sound f d -> P f d ->
  sound (snd (fchmod t m n f)) d /\ fst (fchmod t m n f) <> Panic /\ P (snd (fchmod t m n f)) d.
Proof.
  intros HP Hs Hp; pose proof (same_chmod t m n f) as Hc; split_and!; [by apply (sound_keeps f), kept_same | | by apply (HP f)].
  unfold fchmod; by destruct (inodes f !! n).
Qed.

(** The root path leads to a durable directory. *)
Definition rooted (r : Z) (f : Fs) (_ : Db) : Prop := root f = Some r /\ root_synced f = true.

Lemma same_rooted r f f' d : same_nodes f f' -> rooted r f d -> rooted r f' d.
Proof. intros (_ & E1 & E2) []; split; congruence. Qed.

Lemma safe_ensure_root : safe (fun _ _ => True) ensure_root_directory (fun _ _ _ => True).
Proof.
  unfold ensure_root_directory; eapply safe_seq with (Q := fun _ _ _ => True).
  { eapply safe_conseq; [apply safe_attempt with (P := fun _ _ => True) (Q := fun _ _ _ => True), safe_call | by intros | by intros].
    intros env n f d Hs _; split_and!; [apply (sound_keeps f); [done | apply kept_create_root] | | done].
    unfold create_root; destruct (root f) as [k|]; [by destruct (is_directory f k) | done]. }
  intros created; eapply safe_seq with (Q := fun _ _ _ => True).
  { destruct created as [u|e|]; [by apply safe_ret | | by apply safe_value]; destruct (bool_decide _); [by apply safe_ret | apply safe_raise]. }
  intros u; apply safe_then; [apply looks_map_error; auto with io |]; intros m; destruct (_ || _); [apply safe_raise |].
  apply safe_map_error, safe_call; intros env n f d Hs _; destruct (root f) as [r|]; [| done].
  destruct (safe_chmod (now env n) private_directory r (fun _ _ => True) f d) as (H1 & H2 & _); try done.
Qed.

Lemma safe_sync_parent : safe (fun _ _ => True) sync_parent_directory (fun _ f _ => root_synced f = true).
Proof.
  unfold sync_parent_directory; apply safe_then; [apply looks_map_error; auto with io |]; intros direct; destruct (negb direct); [apply safe_raise |].
  apply safe_then; [apply looks_map_error; auto with io |]; intros u; apply safe_map_error, safe_call; intros env n f d Hs _; split_and!; try done.
  apply (sound_keeps f); [done | apply kept_sync_root].
Qed.

Lemma yields_open_existing : yields open_existing_directory (fun f r => root f = Some r).
Proof.
  unfold open_existing_directory; apply yields_then; [auto with io |]; intros u; eapply yields_bind; [apply yields_map_error, yields_open_path |].
  intros r; apply yields_then; [apply (yields_looks _ _ (yields_directory _ _)) |]; intros u'; by apply yields_ret.
Qed.

Lemma rooted_create t d name i f db r : rooted r f db -> rooted r (snd (create_at t d name i f)) db.
Proof. unfold create_at; destruct (negb _); [done |]; by destruct (entries_of f d !! name). Qed.
Lemma create_result t d name i f : fst (create_at t d name i f) <> Panic.
Proof. unfold create_at; destruct (negb _); [done |]; by destruct (entries_of f d !! name). Qed.
Lemma open_node_result directory write n f : open_node f directory write n <> Panic.
Proof. unfold open_node; destruct (node_at f n) as [[]|]; destruct directory, write; done. Qed.

(** A node is created in the root directory. *)
Lemma sound_create_root t r name i f d :
  bare (node i) -> rooted r f d -> sound f d -> sound (snd (create_at t r name i f)) d.
Proof. intros Hi [Hr _] Hs; apply (sound_keeps f); [done |]; apply kept_create; [done |]; intros _; by right. Qed.

Lemma safe_lock_file r name : safe (rooted r) (open_or_create_lock_file r name) (fun _ => rooted r).
Proof.
  unfold open_or_create_lock_file; apply safe_then; [auto with io |]; intros o; destruct (match o with Some _ => _ | None => _ end); [apply safe_raise |].
  eapply safe_seq with (Q := fun _ => rooted r).
  - apply safe_map_error, safe_call; intros env n f d Hs Hr; unfold open_or_create.
    destruct (entries_of f r !! name) as [k|]; [split_and!; [done | apply open_node_result | done] |].
    split_and!; [by apply sound_create_root | apply create_result | intros a _; by apply rooted_create].
  - intros file; apply safe_then; [apply (yields_looks _ _ (yields_regular _ _)) |]; intros u.
    apply safe_then; [apply looks_io, (yields_looks _ _ (yields_fingerprint _)) |]; intros p; by apply safe_ret.
Qed.

Lemma looks_require d name : looks (require_direct_directory_name d name).
Proof. unfold require_direct_directory_name; looks. Qed.

Lemma safe_child_directory r name :
  safe (rooted r) (ensure_child_directory r name) (fun n f d => rooted r f d /\ entries_of f r !! name = Some n).
Proof.
  unfold ensure_child_directory; eapply safe_seq with (Q := fun _ => rooted r).
  { unfold create_directory; eapply safe_seq with (Q := fun _ => rooted r).
    - eapply spec_weaken; [apply spec_attempt with (P := fun f d => sound f d /\ rooted r f d) (R' := fun _ f d => sound f d /\ rooted r f d) (Q := fun _ f d => sound f d /\ rooted r f d) | by intros |].
      + apply spec_call.
        * by intros f d [].
        * done.
        * intros env n e f d [Hs Hr]; unfold mkdirat; destruct (create_at (now env n) r name (new_directory (now env n)) f) as [x f'] eqn:Ec; cbn [snd].
          replace f' with (snd (create_at (now env n) r name (new_directory (now env n)) f)) by (by rewrite Ec).
          split; [by apply sound_create_root | by apply rooted_create].
        * intros env n f d [Hs Hr]; unfold mkdirat; pose proof (create_result (now env n) r name (new_directory (now env n)) f) as Hx.
          destruct (create_at (now env n) r name (new_directory (now env n)) f) as [x f'] eqn:Ec; cbn [fst] in Hx.
          assert (Hf : f' = snd (create_at (now env n) r name (new_directory (now env n)) f)) by (by rewrite Ec).
          destruct x as [k|e|]; cbn; [| done | done]; rewrite Hf; split; [by apply sound_create_root | by apply rooted_create].
      + intros [u|e|] f d Hx; [done .. |]; done.
    - intros created; destruct created as [u|e|]; [by apply safe_ret | | by apply safe_value].
      destruct (bool_decide _); [by apply safe_ret | apply safe_raise]. }
  intros u; apply safe_then; [apply looks_require |]; intros u1; eapply safe_seq; [apply safe_yields, yields_map_error, yields_open_directory |].
  intros n; apply safe_then; [apply (yields_looks _ _ (yields_directory _ _)) |]; intros u2.
  eapply safe_seq with (Q := fun _ f d => rooted r f d /\ entries_of f r !! name = Some n); [| intros u3; by apply safe_ret].
  apply safe_map_error, safe_call; intros env k f d Hs Hp.
  destruct (safe_chmod (now env k) private_directory n (fun f d => rooted r f d /\ entries_of f r !! name = Some n) f d) as (H1 & H2 & H3); try done.
  intros f1 f2 d1 Hsame []; split; [by apply (same_rooted r f1) | by rewrite (same_entries f1)].
Qed.

Lemma anchor_closed a : sync_closed (fun f _ => anchor f a).
Proof. intros n f d; apply fsync_anchor. Qed.

Lemma safe_recover d maximum a :
  safe (fun f _ => anchor f a) (recover_owned_staging d STAGING_PREFIX maximum) (fun _ f _ => anchor f a).
Proof.
  unfold recover_owned_staging; apply safe_then; [auto with io |]; intros limit.
  apply safe_then; [apply (yields_looks _ _ (yields_raw_entries _ _ _)) |]; intros entries; destruct (maximum <? _); [apply safe_raise |].
  cbv zeta; destruct (existsb _ _); [apply safe_raise |]; eapply safe_seq with (Q := fun _ f _ => anchor f a).
  - apply safe_visit; intros b x Hx; apply list_elem_of_In, filter_In in Hx as [_ Hx].
    apply safe_remove_staged; [done |]; intros t f db; by apply anchor_unlink_staged.
  - intros u; destruct (bool_decide _); [by apply safe_ret |]; apply safe_sync; intros f db; apply fsync_anchor.
Qed.

Lemma looks_storage_layout s : looks (validate_storage_layout s).
Proof.
  unfold validate_storage_layout; looks.
Qed.

Lemma looks_try_lock {E} (e : E) g : looks (try_lock e g).
Proof. unfold try_lock; looks. Qed.

Lemma safe_open_import limits : safe (fun _ _ => True) (open_import limits) (fun s f _ => anchor f (is_artifacts s)).
Proof.
  unfold open_import; destruct (negb _); [apply safe_raise |]; apply safe_then; [apply looks_map_error; auto with io |]; intros u1.
  eapply safe_seq; [apply safe_ensure_root |]; intros u2; eapply safe_seq; [apply safe_sync_parent |]; intros u3.
  eapply safe_seq; [apply safe_yields, yields_map_error, yields_open_existing |]; intros r.
  eapply safe_seq with (Q := fun _ => rooted r).
  { eapply safe_conseq; [apply safe_map_error, safe_lock_file | | by intros]; intros f d [H1 H2]; by split. }
  intros [lock p]; apply safe_then; [apply looks_try_lock |]; intros u4.
  eapply safe_seq with (Q := fun _ => rooted r).
  { eapply safe_conseq; [apply safe_map_error, safe_child_directory | by intros |]; by intros n f d []. }
  intros staging; eapply safe_seq; [apply safe_map_error, safe_child_directory |]; intros a.
  eapply safe_seq with (Q := fun _ f _ => anchor f a).
  { apply safe_map_error, safe_sync; intros f d [[Hr Hy] He]; destruct (fsync_root r f) as [E1 E2]; exists r; rewrite E1, E2.
    split_and!; try done; by apply fsync_makes_durable. }
  intros u5; eapply safe_seq; [apply safe_map_error, safe_recover |]; intros u6; cbv zeta.
  apply safe_then; [apply looks_storage_layout |]; intros u7; by apply safe_ret.
Qed.

(** ** The staged file *)

(** The directory is anchored and the staged bytes are not synchronized. *)
Definition staging (a file : Z) (f : Fs) (_ : Db) : Prop := anchor f a /\ exists c, node_at f file = Some (RegularFile c false).

Lemma create_node t d name i f n :
  fst (create_at t d name i f) = Ok n -> (forall e p, node i <> DirectoryNode e p) -> node_at (snd (create_at t d name i f)) n = Some (node i).
Proof.
  unfold create_at; destruct (is_directory f d) eqn:Hd; [| done]; cbn [negb]; destruct (entries_of f d !! name); [done |].
  intros [= <-] Hi; cbn [snd]; rewrite node_at_set_entry, decide_False; [by rewrite node_at_add, decide_True |].
  intros E; apply directory_some in Hd as (e & p & Hd); rewrite <- E, new_node_fresh in Hd; done.
Qed.

Lemma looks_random prefix : looks (random_staging_name prefix).
Proof. intros env w; unfold random_staging_name; done. Qed.
Lemma yields_random prefix : yields (random_staging_name prefix) (fun _ name => starts_with name prefix = true).
Proof.
  split; [apply looks_random |]; intros env w name w' H; unfold random_staging_name in H; destruct (random env (calls w)); [| done].
  injection H as <- _; apply starts_with_app.
Qed.

Lemma safe_create_attempts d a attempts :
  safe (fun f _ => anchor f a) (create_staging_file_with attempts d STAGING_PREFIX)
    (fun r f db => staging_name (fst r) /\ staging a (snd r) f db).
Proof.
  induction attempts as [|attempts IH]; cbn [create_staging_file_with]; [apply safe_raise |].
  eapply safe_seq; [apply safe_yields, yields_random |]; intros name.
  eapply safe_seq with (Q := fun r f db => anchor f a /\ staging_name name /\ forall n, r = Ok n -> staging a n f db).
  - eapply spec_weaken; [apply spec_attempt with (P := fun f db => sound f db /\ anchor f a /\ staging_name name)
      (Q := fun n f db => sound f db /\ staging_name name /\ staging a n f db) (R' := fun _ f db => sound f db /\ anchor f a /\ staging_name name) | by intros |].
    + apply spec_call; [by intros f db (? & ? & ?) | by intros e f db H | |].
      * intros env n e f db (Hs & Ha & Hn); split_and!; [| by apply anchor_create | done].
        apply (sound_keeps f); [done |]; apply kept_create; [done | by apply (anchor_may_hold f a)].
      * intros env n f db (Hs & Ha & Hn); pose proof (create_result (now env n) d name (new_file (now env n)) f) as Hx.
        pose proof (create_node (now env n) d name (new_file (now env n)) f) as Hc; unfold create_new.
        assert (Hs' : sound (snd (create_at (now env n) d name (new_file (now env n)) f)) db).
        { apply (sound_keeps f); [done |]; apply kept_create; [done | by apply (anchor_may_hold f a)]. }
        assert (Ha' := anchor_create (now env n) d name (new_file (now env n)) f a I Ha).
        destruct (create_at (now env n) d name (new_file (now env n)) f) as [[k|e|] f']; cbn in *; try done.
        split_and!; [done | done | split; [done |]; exists []; by apply Hc].
    + intros [n|e|] f db Hx; [| | done].
      * destruct Hx as (Hs & Hn & Hst); split_and!; try done; [by destruct Hst |]; by intros k [= <-].
      * destruct Hx as (Hs & Ha & Hn); by split_and!.
  - intros created; destruct created as [n|e|]; [| | apply safe_value; done].
    + apply safe_ret; intros f db (Ha & Hn & Hst); split; [done | by apply Hst].
    + destruct (bool_decide _); [| apply safe_raise]; eapply safe_conseq; [apply IH | | by intros]; by intros f db [].
Qed.

Lemma safe_create_staging d maximum a :
  safe (fun f _ => anchor f a) (create_staging_file d STAGING_PREFIX maximum CallerToken)
    (fun r f db => staging_name (fst r) /\ staging a (snd r) f db).
Proof.
  unfold create_staging_file; apply safe_then; [apply (yields_looks _ _ (yields_raw_entries _ _ _)) |]; intros entries.
  destruct (_ =? _); [apply safe_raise | apply safe_create_attempts].
Qed.

Lemma safe_drop {E} s : staging_name (sa_name s) -> safe (E := E) (fun _ _ => True) (drop_staged s) (fun _ _ _ => True).
Proof.
  intros Hn; unfold drop_staged; eapply safe_seq with (Q := fun _ _ _ => True).
  { eapply safe_conseq; [apply safe_attempt with (P := fun _ _ => True) (Q := fun _ _ _ => True); by apply safe_remove_identity | by intros | by intros]. }
  intros [u|e|]; [| by apply safe_ret | by apply safe_value].
  eapply safe_seq with (Q := fun _ _ _ => True); [| intros; by apply safe_ret].
  eapply safe_conseq; [apply safe_attempt with (P := fun _ _ => True) (Q := fun _ _ _ => True); by apply safe_sync | by intros | by intros].
Qed.

Lemma safe_cleanup s (P : Fs -> Db -> Prop) :
  staging_name (sa_name s) -> sync_closed P -> (forall t f db, P f db -> P (snd (unlinkat t (sa_directory s) (sa_name s) f)) db) ->
  safe P (cleanup s) (fun _ => P).
Proof.
  intros Hn Hc HP; unfold cleanup; eapply safe_seq; [by apply safe_attempt, (safe_remove_identity _ _ _ P) |].
  intros [u|e|]; [| | by apply safe_value].
  - apply safe_map_error, safe_sync; intros f db H; apply Hc; eauto.
  - eapply safe_seq with (Q := fun _ _ _ => True); [eapply safe_conseq; [by apply safe_drop | by intros | by intros] |]; intros; apply safe_raise.
Qed.

Lemma safe_or_drop {A} s (m : Import_ A) P (Q : A -> Fs -> Db -> Prop) :
  staging_name (sa_name s) -> safe P m Q -> safe P (or_drop s m) Q.
Proof.
  intros Hn Hm; unfold or_drop; eapply safe_seq; [by apply safe_attempt |]; intros [x|e|]; [| | by apply safe_value].
  - apply safe_ret; intros f d H; by apply H.
  - eapply safe_seq with (Q := fun _ _ _ => True); [eapply safe_conseq; [by apply safe_drop | by intros | by intros] |]; intros; apply safe_raise.
Qed.

(** ** Copying the source *)

Lemma append_result t n b f : fst (append t n b f) <> Panic.
Proof. unfold append; destruct (inodes f !! n) as [i|]; [| done]; by destruct (node i). Qed.

Lemma staging_append t n b a f db : staging a n f db -> staging a n (snd (append t n b f)) db.
Proof.
  intros [Ha [c Hc]]; split; [by apply (anchor_append _ _ _ _ c) |]; exists (c ++ b); by rewrite (node_at_append _ _ _ _ _ c false), decide_True.
Qed.

Lemma safe_write file b a : safe (staging a file) (write_all file b) (fun _ => staging a file).
Proof.
  apply safe_call; intros env n f db Hs Hst.
  assert (H : forall b', sound (snd (append (now env n) file b' f)) db /\ fst (append (now env n) file b' f) <> Panic /\
    forall u : unit, fst (append (now env n) file b' f) = Ok u -> staging a file (snd (append (now env n) file b' f)) db).
  { intros b'; split_and!; [| apply append_result | intros u _; by apply staging_append].
    destruct Hst as [_ [c Hc]]; apply (sound_keeps f); [done |]; by apply (kept_append _ _ _ _ _ c). }
  destruct (fails env n); apply H.
Qed.

Lemma looks_not_cancelled_import : looks import_not_cancelled.
Proof. apply looks_not_cancelled. Qed.
Lemma looks_read_source n : looks (read_source n).
Proof. apply looks_look. Qed.
#[local] Hint Resolve looks_not_cancelled_import looks_read_source looks_try_lock looks_storage_layout : io.

Lemma safe_copy file size progress a : (forall n, looks (progress n)) -> forall fuel hashed observed,
  safe (staging a file) (copy_loop fuel (Some file) size progress hashed observed) (fun _ => staging a file).
Proof.
  intros Hp fuel; induction fuel as [|fuel IH]; intros hashed observed; cbn [copy_loop]; [by apply safe_value |].
  apply safe_then; [auto with io |]; intros u; apply safe_then; [apply looks_map_error; auto with io |]; intros chunk.
  destruct (vlen chunk =? 0); [destruct (negb _); [apply safe_raise | by apply safe_value] |].
  apply safe_then; [auto with io |]; intros count; apply safe_then; [auto with io |]; intros observed'.
  destruct (size <? observed'); [apply safe_raise |]; eapply safe_seq; [apply safe_map_error, safe_write |]; intros u'.
  apply safe_then; [apply Hp |]; intros u''; apply IH.
Qed.

Lemma looks_copy size progress : (forall n, looks (progress n)) -> forall fuel hashed observed,
  looks (copy_loop fuel None size progress hashed observed).
Proof.
  intros Hp fuel; induction fuel as [|fuel IH]; intros hashed observed; cbn [copy_loop]; [apply looks_value |]; looks.
Qed.

Lemma looks_report_import {E} stage c t : looks (E := E) (report_import stage c t).
Proof. apply looks_report. Qed.
#[local] Hint Resolve looks_report_import : io.

Lemma safe_check_source file m a : safe (staging a file) (check_source (Some file) m) (fun _ => staging a file).
Proof.
  unfold check_source; eapply safe_seq with (Q := fun _ => staging a file).
  - unfold verify_source_bytes; cbv zeta; apply safe_then; [auto with io |]; intros u; apply safe_copy; auto with io.
  - intros observed; apply safe_then; [apply looks_map_error; auto with io |]; intros md; destruct (negb _); [apply safe_raise |].
    destruct (negb _); [apply safe_raise |]; apply safe_looks; auto with io.
Qed.
Lemma looks_check_source m : looks (check_source None m).
Proof.
  unfold check_source, verify_source_bytes; cbv zeta; looks; apply looks_copy; auto with io.
Qed.

(** ** Committing the staged file *)

Lemma linkat_result t d name d' name' f : fst (linkat t d name d' name' f) <> Panic.
Proof.
  unfold linkat, lookup_name; destruct (is_directory f d); [| done]; cbn; destruct (entries_of f d !! name) as [n|]; [| done]; cbn.
  destruct (is_directory f n); [done |]; destruct (negb _); [done |]; by destruct (entries_of f d' !! name').
Qed.

Lemma looks_recheck d name p share maximum token : looks (recheck_managed_file_with_share d name p share maximum token).
Proof. apply (yields_looks _ _ (yields_recheck _ _ _ _ _ _)). Qed.
Lemma looks_open_managed d name share maximum token : looks (open_managed_file_with_share d name share maximum token).
Proof. apply (yields_looks _ _ (yields_open_managed _ _ _ _ _)). Qed.
#[local] Hint Resolve looks_recheck looks_open_managed : io.

Lemma safe_commit_file s staged name total :
  safe (fun f _ => anchor f (is_artifacts s)) (commit_file s staged name total) (fun _ f _ => anchor f (is_artifacts s)).
Proof.
  unfold commit_file; apply safe_then; [auto with io |]; intros u1; apply safe_then; [auto with io |]; intros u2.
  apply safe_then; [unfold recheck_frozen_single_link; looks |]; intros u3.
  apply safe_then; [unfold exact_entry_capacity; looks |]; intros []; [apply safe_raise | | apply safe_raise].
  eapply safe_seq with (Q := fun _ f _ => anchor f (is_artifacts s)).
  { apply safe_map_error, safe_sync_all; intros f d; apply fsync_anchor. }
  intros u4; eapply safe_seq with (Q := fun r f _ => forall u, r = Ok u -> anchor f (is_artifacts s)).
  { eapply safe_conseq; [apply safe_attempt with (P := fun f _ => anchor f (is_artifacts s)) (Q := fun _ f _ => anchor f (is_artifacts s)); apply safe_call | by intros | intros r f d H; exact H].
    intros env n f d Hs Ha; split_and!; [| apply linkat_result | intros u _; by apply anchor_link].
    apply (sound_keeps f); [done |]; apply kept_link; by apply (anchor_may_hold f (is_artifacts s)). }
  intros [u|e|]; [| destruct (bool_decide _); apply safe_raise | by apply safe_value].
  apply safe_map_error, safe_sync; intros f d H; apply fsync_anchor; eauto.
Qed.

Lemma safe_commit_staged s staged name total :
  staging_name (sa_name staged) ->
  safe (fun f _ => anchor f (is_artifacts s)) (commit_staged s staged name total) (fun _ f _ => anchor f (is_artifacts s)).
Proof.
  intros Hn; unfold commit_staged; eapply safe_seq; [apply safe_attempt, safe_commit_file |]; intros commit.
  assert (Hclean : forall P, sync_closed P -> (forall t f db, P f db -> P (snd (unlinkat t (sa_directory staged) (sa_name staged) f)) db) ->
    safe P (attempt (F := ArtifactImportError.t) (cleanup staged)) (fun r f d => forall u, r = Ok u -> P f d)).
  { intros P Hc HP; by apply safe_attempt, safe_cleanup. }
  destruct commit as [u|e|].
  - eapply safe_seq.
    { eapply safe_conseq; [apply (Hclean (fun f _ => anchor f (is_artifacts s))) | cbn; intros f d H; by apply (H u) | intros r f d H; exact H].
      - apply anchor_closed.
      - intros t f db; by apply anchor_unlink_staged. }
    intros cleaned; apply safe_then; [auto with io |]; intros u'; apply safe_value; eauto.
  - eapply safe_seq; [eapply safe_conseq; [apply (Hclean (fun _ _ => True)); done | by intros | intros r f d H; exact H] |].
    intros cleaned; eapply safe_seq with (Q := fun _ _ _ => False); [by apply safe_value |]; intros; by apply safe_value.
  - eapply safe_seq; [eapply safe_conseq; [apply (Hclean (fun _ _ => True)); done | by intros | intros r f d H; exact H] |].
    intros cleaned; eapply safe_seq with (Q := fun _ _ _ => False); [by apply safe_value |]; intros; by apply safe_value.
Qed.

Lemma safe_place_bytes s m name :
  safe (fun f _ => anchor f (is_artifacts s)) (place_bytes s m name) (fun _ f _ => anchor f (is_artifacts s)).
Proof.
  unfold place_bytes; apply safe_then; [apply looks_map_error; auto with io |]; intros [mf|]; [apply safe_looks, looks_check_source |].
  eapply safe_seq; [apply safe_map_error, safe_create_staging |]; intros [tmp file]; cbn [fst snd]; cbv zeta.
  apply spec_weaken with (P := fun f d => staging_name tmp /\ (sound f d /\ staging (is_artifacts s) file f d))
    (Q := fun _ f d => sound f d /\ anchor f (is_artifacts s)); [| by intros f d (? & ? & ?) | by intros].
  apply spec_pure; intros Hn; eapply safe_seq with (Q := fun st f _ => sa_name st = tmp /\ anchor f (is_artifacts s)).
  - apply safe_or_drop; [done |]; eapply safe_seq; [apply safe_check_source |]; intros u; unfold freeze_single_link.
    apply safe_then; [apply looks_map_error; auto with io |]; intros p; destruct (negb _); [apply safe_raise |].
    apply safe_ret; intros f d [Ha _]; done.
  - intros staged; apply spec_weaken with (P := fun f d => sa_name staged = tmp /\ (sound f d /\ anchor f (is_artifacts s)))
      (Q := fun _ f d => sound f d /\ anchor f (is_artifacts s)); [| by intros f d (? & ? & ?) | by intros].
    apply spec_pure; intros <-; by apply safe_commit_staged.
Qed.

(** ** Registration *)

Lemma validate_manifest_ids m : ArtifactManifest.validate m = Ok tt -> ArtifactId.digest (ArtifactManifest.artifact_id m) = ArtifactManifest.artifact_digest m.
Proof.
  unfold ArtifactManifest.validate; destruct (negb _); [done |]; destruct (bool_decide _) eqn:E; [| done]; intros _.
  by apply bool_decide_eq_true in E.
Qed.

Lemma installed_from_typed m : manifest_typed m -> installed_typed (installed_from m).
Proof. intros []; by split. Qed.

(** The bytes a manifest describes are durable under their digest. *)
Definition durable_bytes (m : ArtifactManifest.t) (f : Fs) : Prop :=
  exists c, holds f (Digest.as_str (ArtifactManifest.artifact_digest m)) c /\ exact_bytes (installed_from m) c.

(** The installation a service writes after the bytes are durable. *)
Lemma safe_put m (P : Fs -> Db -> Prop) :
  manifest_typed m -> ArtifactManifest.validate m = Ok tt -> (forall f d, sound f d -> P f d -> durable_bytes m f) ->
  safe P (sql (put_installation m (installed_from m))) (fun _ _ _ => True).
Proof.
  intros Ht Hv HP; destruct tame_operations as (_ & H2 & _); apply safe_sql; [apply H2 | apply atomic_put |].
  intros f d w d' Hs Hp H; split; [| done]; pose proof Hs as [Hd _].
  apply put_installation_changes in H as (Heff & _ & Hi & Hrest); [| done | by apply installed_from_typed | done].
  apply (sound_rows f d d'); [done | by apply (changes_inv d), effect_changes |]; intros k row Er.
  destruct (decide (k = artifact_key (ArtifactManifest.artifact_id m))) as [->|Hne]; [right | left; by rewrite <- Hrest].
  destruct (HP f d Hs Hp) as (c & Hh & Hx); exists (installed_from m); eexists _, c; split; [apply Hi |]; split; [| done].
  unfold artifact_key; by rewrite validate_manifest_ids.
Qed.

(** The final verification. *)
Lemma safe_verify a name expectation token progress mode (P : Fs -> Db -> Prop) :
  sync_closed P -> (forall n, looks (progress n)) ->
  safe P (verify_exact_artifact_with a name expectation token progress mode)
    (fun v f d => P f d /\ verified_file mode f a name (ea_byte_size expectation) (ea_digest expectation) (vm_file v)).
Proof.
  intros Hc Hp; eapply spec_weaken; [apply spec_verify with (P := fun f d => sound f d /\ P f d) | by intros | by intros v f d [[] ?]].
  - intros n f d []; split; [by apply sound_sync | by apply Hc].
  - done.
  - by intros f d [].
  - by intros e f d [].
Qed.

Lemma verified_durable m f a file :
  anchor f a ->
  verified_file Synchronized f a (Digest.as_str (ArtifactManifest.artifact_digest m)) (ArtifactManifest.byte_size m)
    (ArtifactManifest.artifact_digest m) file -> durable_bytes m f.
Proof.
  intros Ha (He & (c & s & Ec & Hlen & Hsha) & Hd); destruct (Hd eq_refl) as [Hde [c' Hc']]; rewrite Ec in Hc'; injection Hc' as <- ->.
  exists c; split; [by exists a, file | done].
Qed.

Lemma value_import_valid s m : validate_import_request s m = Ok tt -> ArtifactManifest.validate m = Ok tt.
Proof.
  unfold validate_import_request; intros H; apply bind_ok in H as ([] & H & _); by apply map_err_ok in H.
Qed.

(** A check that does not depend on the state. *)
Lemma safe_check {E B} (r : Result E unit) (g : unit -> Io E B) P (Q : B -> Fs -> Db -> Prop) :
  (r = Ok tt -> safe P (g tt) Q) -> safe P (value r ≫= g) Q.
Proof.
  intros H; destruct r as [[]|e|].
  - eapply safe_seq with (Q := fun _ => P); [by apply safe_value |]; intros []; by apply H.
  - eapply safe_seq with (Q := fun _ _ _ => False); [by apply safe_value |]; intros u env w _ [_ []].
  - eapply safe_seq with (Q := fun _ _ _ => False); [by apply safe_value |]; intros u env w _ [_ []].
Qed.

Lemma looks_open_source : looks open_source.
Proof. unfold open_source; looks. Qed.

(** [import] with a service whose directory is anchored. *)
Lemma safe_import s request :
  manifest_typed (ir_manifest request) -> safe (fun f _ => anchor f (is_artifacts s)) (import s request) (fun _ _ _ => True).
Proof.
  intros Ht; unfold import; cbv zeta; apply safe_then; [auto with io |]; intros u1; apply safe_then; [auto with io |]; intros u2.
  apply safe_check; intros Hv; apply value_import_valid in Hv; eapply safe_seq; [apply safe_map_error, safe_state |]; intros [current removal].
  destruct (pending_removal current removal); [apply safe_raise |]; apply safe_then; [auto with io |]; intros u3.
  apply safe_then; [apply looks_open_source |]; intros md; destruct (negb _); [apply safe_raise |].
  eapply safe_seq; [apply safe_place_bytes |]; intros u4; apply safe_then; [auto with io |]; intros u5; apply safe_then; [auto with io |]; intros u6.
  eapply safe_seq; [apply safe_map_error, (safe_verify _ _ _ _ _ _ (fun f _ => anchor f (is_artifacts s))); [apply anchor_closed | auto with io] |].
  intros v; apply safe_then; [auto with io |]; intros u7; apply safe_then; [auto with io |]; intros u8.
  eapply safe_seq; [apply safe_map_error, safe_put; [done | done |] | intros st; by apply safe_ret].
  intros f d _ [Ha Hf]; by apply (verified_durable _ _ (is_artifacts s) (vm_file v)).
Qed.

(** [OfflineArtifactImportService]. *)
Lemma safe_import_artifact limits request :
  manifest_typed (ir_manifest request) -> safe (fun _ _ => True) (import_artifact limits request) (fun _ _ _ => True).
Proof. intros Ht; eapply safe_seq; [apply safe_open_import |]; intros s; by apply safe_import. Qed.

(** [ArtifactOrphanReconciliationService]. *)
Lemma looks_layout s : looks (validate_layout s).
Proof. apply (yields_looks _ _ (yields_layout s)). Qed.
Lemma looks_open_storage mode : looks (open_storage mode).
Proof.
  unfold open_storage, open_existing_directory, open_lock_file, open_child_directory, lock_storage; destruct mode; looks; auto using looks_layout, looks_require with io.
Qed.
#[local] Hint Resolve looks_layout looks_open_storage : io.

Lemma sync_closed_true : sync_closed (fun _ _ => True).
Proof. done. Qed.

Lemma value_reconciliation_valid m limits : validate_reconciliation m limits = Ok tt -> ArtifactManifest.validate m = Ok tt.
Proof. unfold validate_reconciliation; intros H; apply bind_ok in H as ([] & H & _); by apply map_err_ok in H. Qed.

Lemma safe_reconcile_artifact limits m :
  manifest_typed m -> safe (fun _ _ => True) (reconcile_artifact limits m) (fun _ _ _ => True).
Proof.
  intros Ht; unfold reconcile_artifact, open_reconciliation; eapply safe_seq with (Q := fun _ _ _ => True).
  { apply safe_looks; destruct (negb _); looks. }
  intros s; unfold reconcile; cbv zeta; apply safe_then; [apply looks_not_cancelled |]; intros u1.
  apply safe_check; intros Hv; apply value_reconciliation_valid in Hv; apply safe_then; [apply looks_map_error; auto with io |]; intros u2.
  eapply safe_seq; [apply safe_map_error, safe_state |]; intros [current removal].
  destruct (pending_removal current removal); [apply safe_raise |]; do 4 (apply safe_then; [apply looks_report || apply looks_not_cancelled |]; intros ?).
  eapply safe_seq; [apply safe_map_error, (safe_verify _ _ _ _ _ _ (fun _ _ => True)); [done | intros; apply looks_report] |]; intros v.
  eapply safe_seq; [apply safe_yields, yields_map_error, yields_layout |]; intros u5; apply safe_then; [apply looks_not_cancelled |]; intros u6.
  eapply safe_seq; [apply safe_map_error, safe_put; [done | done |] | intros st; by apply safe_ret].
  intros f d (_ & _ & Han) [[_ Hf] [Hr Ha]]; apply (verified_durable _ _ (es_artifacts (cs_storage s)) (vm_file v)); [| done].
  apply Han; [by exists (es_root (cs_storage s)) |]; destruct Hf as [He _]; intros E; by rewrite E, lookup_empty in He.
Qed.

(** ** Removal *)

Lemma change_rows d d' :
  change d d' -> (forall k row, installed_artifacts d' !! k = Some row -> installed_artifacts d !! k = Some row) \/
                 artifact_removals d' = artifact_removals d.
Proof. intros []; try (by right); left; cbn; intros k' row' Hk; [| done]; by apply lookup_delete_Some in Hk as []. Qed.

Lemma removing_row d k i e : inv d -> removal_at d k i e Prepared -> installed_artifacts d !! k = None.
Proof. intros Hd H; apply status_removing in H; [| done]; unfold status in H; by destruct (installed_artifacts d !! k). Qed.

Lemma prepare_rows s d w d' :
  inv d -> pure (prepare_artifact_removal s) d = (Ok w, d') ->
  inv d' /\ (forall k row, installed_artifacts d' !! k = Some row -> installed_artifacts d !! k = Some row) /\
  (w <> PreparationAlreadyCompleted -> installed_artifacts d' !! selection_key s = None).
Proof.
  intros Hd H; apply prepare_changes in H as (p & Hr & H); [| done]; destruct w.
  - destruct H as (Hc & -> & Hi); assert (Hd' : inv d') by (by apply (inv_change d)); pose proof (removing_row _ _ _ _ Hd' Hr) as Hn.
    split_and!; [done | | done]; destruct (change_rows d d' Hc) as [?|E]; [done |]; exfalso.
    destruct Hr as (row & Er & Hx); rewrite E in Er; destruct Hi as (irow & Ei & _).
    destruct (inv_installed d Hd _ _ Ei) as [Hf _]; rewrite Er in Hf; destruct Hf as [Hf _]; destruct Hx as (_ & _ & Hp & _); rewrite Hp in Hf; done.
  - destruct H as [-> ->]; split_and!; [done | done |]; intros _; by apply (removing_row d _ _ _ Hd Hr).
  - destruct H as [-> ->]; split_and!; done.
Qed.

Lemma safe_prepare s selection :
  safe (fun _ _ => True) (prepare_state s selection)
    (fun w _ d => w <> PreparationAlreadyCompleted -> installed_artifacts d !! selection_key selection = None).
Proof.
  unfold prepare_state; apply safe_then; [unfold exclusive_lifecycle_lock; looks |]; intros u; apply safe_map_error.
  destruct tame_operations as (_ & _ & _ & _ & _ & _ & H7 & _); apply safe_sql; [apply H7 | apply atomic_removal |].
  intros f d w d' Hs _ H; pose proof Hs as [Hd _]; apply prepare_rows in H as (Hd' & Hrows & Hn); [| done]; split; [| done].
  apply (sound_rows f d d'); [done | done |]; intros k row Er; left; by apply Hrows.
Qed.

Lemma selection_name selection :
  validate_removal_request selection = Ok tt ->
  Digest.as_str (InstalledArtifact.artifact_digest (StoredArtifactInstallation.installed selection)) = selection_key selection.
Proof.
  unfold validate_removal_request; intros H; apply bind_ok in H as ([] & H & _); apply map_err_ok in H.
  unfold InstalledArtifact.validate in H; destruct (_ || _); [done |]; destruct (bool_decide _) eqn:E; [| done].
  apply bool_decide_eq_true in E; unfold selection_key, artifact_key; by rewrite E.
Qed.

(** Unlinking the name of an artifact that is not installed. *)
Lemma safe_unlink d name : safe (fun _ db => installed_artifacts db !! name = None) (remove_file d name) (fun _ _ _ => True).
Proof.
  apply safe_map_error, safe_call; intros env n f db Hs Hn; split_and!; [| apply unlinkat_result | done].
  apply (sound_kept (fun x => x = name) f); [done | by apply kept_unlink |]; intros k i e (row & Er & _) ->; congruence.
Qed.

Lemma safe_recheck_remove v a name maximum :
  safe (fun _ db => installed_artifacts db !! name = None) (recheck_and_remove v a name maximum) (fun _ _ _ => True).
Proof.
  unfold recheck_and_remove; apply safe_then; [auto with io |]; intros p; destruct (_ || _); [apply safe_raise |].
  unfold remove_held_managed_file; apply safe_then; [auto with io |]; intros p1; destruct (_ || _); [apply safe_raise |].
  apply safe_then; [auto with io |]; intros o; apply safe_then; [auto with io |]; intros m; destruct (negb _); [apply safe_raise |].
  eapply safe_seq; [unfold remove_verified_file; do 2 (apply safe_then; [auto with io |]; intros ?); destruct (negb _); [apply safe_raise | apply safe_unlink] |].
  intros u; apply safe_then; [auto with io |]; intros [x|]; [apply safe_raise | by apply safe_ret].
Qed.

Lemma safe_complete selection : safe (fun _ _ => True) (sql (complete_artifact_removal selection)) (fun _ _ _ => True).
Proof.
  destruct tame_operations as (_ & _ & _ & _ & _ & _ & _ & H8 & _); apply safe_sql; [apply H8 | apply atomic_removal |].
  intros f d w d' Hs _ H; split; [| done]; pose proof Hs as [Hd _]; apply complete_changes in H as (_ & _ & H); [| done].
  destruct w; [destruct H as (Hc & Hi & _) | by subst].
  apply (sound_rows f d d'); [done | by apply (inv_change d) |]; intros k row; rewrite Hi; by left.
Qed.

Lemma safe_finish s selection v name :
  safe (fun _ db => installed_artifacts db !! name = None) (finish_prepared s name selection v) (fun _ _ _ => True).
Proof.
  unfold finish_prepared; cbv zeta; eapply safe_seq with (Q := fun _ _ _ => True).
  - apply safe_map_error; eapply safe_seq with (Q := fun _ _ _ => True).
    { destruct v as [v|]; [apply safe_map_error, safe_recheck_remove |].
      eapply safe_conseq; [apply safe_looks with (P := fun _ _ => True) | by intros | by intros].
      unfold confirm_managed_file_absent; looks. }
    intros u; eapply safe_seq with (Q := fun _ _ _ => True); [by apply safe_map_error, safe_sync |]; intros u1.
    apply safe_looks; looks; apply looks_layout.
  - intros u; apply safe_then; [unfold exclusive_lifecycle_lock; looks |]; intros u1.
    eapply safe_seq; [apply safe_map_error, safe_complete |]; intros; by apply safe_ret.
Qed.

Lemma safe_verify_removal s name selection token recovering :
  safe (fun _ _ => True) (verify_removal s name selection token recovering) (fun _ _ _ => True).
Proof.
  unfold verify_removal; cbv zeta; apply safe_then; [destruct recovering; looks; apply looks_report |]; intros u.
  eapply safe_seq with (Q := fun _ _ _ => True).
  { eapply safe_conseq; [apply safe_attempt, safe_verify with (P := fun _ _ => True); [done |] | by intros | by intros].
    intros n; destruct recovering; [apply looks_ret | apply looks_report]. }
  intros [v|e|]; [by apply safe_ret | | by apply safe_value]; destruct e; try apply safe_raise; destruct recovering; [by apply safe_ret | apply safe_raise].
Qed.

(** [ArtifactRemovalService]. *)
Lemma safe_remove s selection : safe (fun _ _ => True) (remove s selection) (fun _ _ _ => True).
Proof.
  unfold remove; cbv zeta; apply safe_check; intros Hv; apply selection_name in Hv.
  apply safe_then; [apply looks_map_error; auto with io |]; intros u1; eapply safe_seq; [apply safe_map_error, safe_state |]; intros [current removal].
  destruct (removal_in Completed selection removal); [by apply safe_ret |].
  destruct (_ <? _); [destruct (removal_in Prepared selection removal); apply safe_raise |]; destruct (_ && _); [apply safe_raise |].
  apply safe_then; [destruct (removal_in _ _ _); unfold not_cancelled, report_removal; looks |]; intros u2.
  eapply safe_seq; [apply safe_map_error, safe_verify_removal |]; intros v.
  apply safe_then.
  { destruct (removal_in _ _ _); unfold not_cancelled, report_removal, recheck_for_removal; looks. }
  intros u3; eapply safe_seq; [apply safe_prepare |]; intros w.
  assert (Hfin : forall r, safe (fun _ d => w <> PreparationAlreadyCompleted -> installed_artifacts d !! selection_key selection = None)
    match w with
    | PreparationAlreadyCompleted => mret {| rr_selection := selection; rr_disposition := AlreadyRemoved |}
    | _ => _ ← finish_prepared s (Digest.as_str (InstalledArtifact.artifact_digest (StoredArtifactInstallation.installed selection))) selection v; mret r
    end (fun _ _ _ => True)); [| apply Hfin].
  intros r; destruct w; [| | by apply safe_ret]; (eapply safe_seq; [| intros; by apply safe_ret]);
    (eapply safe_conseq; [rewrite Hv; apply safe_finish | | by intros]); intros f d H; by apply H.
Qed.

Lemma safe_remove_selection limits selection : safe (fun _ _ => True) (remove_selection limits selection) (fun _ _ _ => True).
Proof.
  unfold remove_selection, open_removal; eapply safe_seq with (Q := fun _ _ _ => True); [apply safe_looks; destruct (negb _); looks |].
  intros s; apply safe_remove.
Qed.
End Safety.

#[export] Hint Resolve looks_recheck looks_open_managed looks_layout looks_open_storage looks_require looks_try_lock : io.
