(* ===== verification/StorageTheorems.v ===== *)
(** * Histories of the artifact storage.

    The services run one after the other in any environments, other
    operations of the store run between them, and power may be lost at any
    time.  Every installed artifact keeps its exact bytes. *)

From S2P Require Import Prelude Text Document Claims Json Extractor Model ModelJson StoreDb ModelStore StoreMonad StoreInv StoreSteps StoreOps StoreTheorems.
From S2P Require Import FileSystem StorageIo ArtifactStorage ArtifactRemoval ArtifactImport ArtifactReconciliation StorageFacts StorageSpecs StorageVerify StorageSafety.

(** ** Operations of the store that leave installations alone *)

Definition frames {A} (m : Sql A) : Prop := forall fails s, installed_artifacts (fst (snd (m fails s))) = installed_artifacts (fst s).

Lemma frames_readonly {A} (m : Sql A) : readonly m -> frames m.
Proof. intros H fails s; by rewrite H. Qed.
Lemma frames_execute f :
  (forall d d' c, f d = Some (d', c) -> installed_artifacts d' = installed_artifacts d) -> frames (execute f).
Proof. intros H fails [d n]; unfold execute; destruct (fails n); [done |]; destruct (f d) as [[d' c]|] eqn:E; [by apply (H d d' c) | done]. Qed.
Lemma frames_bind {A B} (m : Sql A) (g : A -> Sql B) : frames m -> (forall a, frames (g a)) -> frames (m ≫= g).
Proof.
  intros Hm Hg fails s; unfold mbind, sql_bind; specialize (Hm fails s).
  destruct (m fails s) as [[a|e|] s']; cbn in *; [| done ..]; by rewrite Hg.
Qed.
Lemma frames_transaction {A} (body : Sql (Outcome A)) : frames body -> frames (transaction body).
Proof.
  intros Hb fails [d n]; unfold transaction; destruct (fails n); [done |]; specialize (Hb fails (d, S n)).
  destruct (body fails (d, S n)) as [[[]| |] [d' n']]; cbn in *; try done; by destruct (fails n').
Qed.

(** The rows of the other tables. *)
Lemma frames_rows :
  (forall k r, frames (execute (insert_manifest_row k r))) /\ (forall k r, frames (execute (insert_qualification_row k r))) /\
  (forall r, frames (execute (insert_invalidation_row r))) /\ (forall k r, frames (execute (insert_decision_row k r))) /\
  (forall k r, frames (execute (upsert_binding_row k r))) /\ (forall t, frames (execute (delete_binding_rows t))).
Proof.
  split_and!; intros; apply frames_execute; intros d d' c;
    unfold insert_manifest_row, insert_qualification_row, insert_invalidation_row, insert_decision_row, upsert_binding_row, delete_binding_rows;
    repeat (match goal with |- context [if ?b then _ else _] => destruct b end); try done; by intros [= <- _].
Qed.

Ltac frames :=
  cbv zeta;
  repeat first
    [ solve [apply frames_readonly; readonly]
    | apply frames_rows
    | apply frames_bind | apply frames_transaction
    | match goal with
      | |- frames (match ?x with _ => _ end) => destruct x
      | |- forall _, _ => intros
      end ].

Section Theorems.
Context {SHA : Sha256} {JSON : JsonCodec}.

(** What may be done to the store besides the services: everything but
    installing and removing. *)
Definition records_only (o : StoreOp.t) : Prop :=
  match o with
  | StoreOp.PutInstallation _ _ | StoreOp.PrepareRemoval _ | StoreOp.CompleteRemoval _ => False
  | _ => True
  end.

Lemma frames_run o : records_only o -> frames (StoreOp.run o).
Proof.
  destruct o; try done; intros _; cbn [StoreOp.run];
    unfold put_manifest, put_qualification, invalidate, activate, deactivate, insert_immutable, insert_decision; frames;
    apply frames_readonly, readonly_disposition.
Qed.

(** ** Histories *)

Definition with_state (w : World) (f : Fs) (d : Db) : World := {| fs := f; db := d; calls := calls w; reports := reports w |}.

(** One event: a service runs in some environment, another operation of the
    store runs, or power is lost. *)
Inductive event : World -> World -> Prop :=
| event_import limits request env w : manifest_typed (ir_manifest request) -> event w (snd (import_artifact limits request env w))
| event_remove limits selection env w : event w (snd (remove_selection limits selection env w))
| event_reconcile limits m env w : manifest_typed m -> event w (snd (reconcile_artifact limits m env w))
| event_records o fails w : StoreOp.typed o -> records_only o -> event w (with_state w (fs w) (fst (snd (StoreOp.run o fails (db w, O)))))
| event_power f w : survives (fs w) f -> event w (with_state w f (db w)).

(** Nothing waits to be synchronized. *)
Definition settled (f : Fs) : Prop := root_synced f = true /\ forall d, pending_of f d = [].

(** A history starts with an empty store. *)
Definition initial (w : World) : Prop := settled (fs w) /\ db w = empty_db.

Lemma settled_anchored f : settled f -> anchored f.
Proof.
  intros [Hr Hp] a (r & Hroot & Ha) _; apply entries_some in Ha as (e & p & E & Ha); exists r; split_and!; try done.
  exists e, p; split_and!; try done; intros v Hv; specialize (Hp r); rewrite (proj2 (entries_node _ _ _ _ E)) in Hp; subst; by apply elem_of_nil in Hv.
Qed.

Lemma initial_sound w : initial w -> sound (fs w) (db w).
Proof.
  intros [Hs ->]; split_and!; [apply inv_empty | | by apply settled_anchored]; intros k i e (row & E & _); cbn [installed_artifacts empty_db] in E; by rewrite lookup_empty in E.
Qed.

(** What a specification says of the end of a run. *)
Lemma safe_end {E A} (m : Io E A) (Q : A -> Fs -> Db -> Prop) env w :
  safe (fun _ _ => True) m Q -> sound (fs w) (db w) -> sound (fs (snd (m env w))) (db (snd (m env w))).
Proof. intros H Hs; specialize (H env w I (conj Hs I)); destruct (m env w) as [[] w']; cbn; [by destruct H | done ..]. Qed.

Lemma sound_power f f' d : sound f d -> survives f f' -> sound f' d.
Proof.
  intros (Hd & Hs & Ha) Hv; split_and!; [done | | by apply (survives_anchored f)].
  intros k i e Hi; destruct (Hs k i e Hi) as (c & Hh & Hx); exists c; split; [by apply (survives_holds f) | done].
Qed.

Lemma sound_event w w' : event w w' -> sound (fs w) (db w) -> sound (fs w') (db w').
Proof.
  intros [] Hs.
  - eapply safe_end, Hs; by apply safe_import_artifact.
  - eapply safe_end, Hs; apply safe_remove_selection.
  - eapply safe_end, Hs; by apply safe_reconcile_artifact.
  - cbn; pose proof Hs as [Hd _]; apply (sound_rows (fs w0) (db w0)); [done | |].
    + apply (steps_inv (db w0)); [done |]; apply rtc_once; by exists o, fails, O.
    + intros k row; pose proof (frames_run o H0 fails (db w0, O)) as E; cbn in E; rewrite E; by left.
  - by apply (sound_power (fs w0)).
Qed.

Lemma history_sound w w' : initial w -> rtc event w w' -> sound (fs w') (db w').
Proof.
  intros Hi H; assert (Hs : sound (fs w) (db w)) by (by apply initial_sound); clear Hi.
  induction H as [|w w1 w' He _ IH]; [done |]; apply IH; by apply (sound_event w).
Qed.

(** C28. An installed artifact is never without its bytes.  Whatever the
    services did, with whatever arguments, failures of calls with or without
    their effect, cancellations, ends of the process between any two calls
    and losses of power, every artifact the store says is installed has a
    file under its digest whose size and digest are the recorded ones, and
    that is so after one more loss of power. *)
Theorem installed_bytes_durable (w w' : World) (k : text) (i : InstalledArtifact.t) (e : Z) :
  initial w -> rtc event w w' -> installed_at (db w') k i e ->
  forall f, f = fs w' \/ survives (fs w') f ->
  exists r a n c, root f = Some r /\ entries_of f r !! lit "artifacts" = Some a /\
    entries_of f a !! Digest.as_str (InstalledArtifact.artifact_digest i) = Some n /\
    node_at f n = Some (RegularFile c true) /\ vlen c = InstalledArtifact.byte_size i /\ sha256 c = InstalledArtifact.artifact_digest i.
Proof.
  intros Hi Hr Hk f Hf; pose proof (history_sound w w' Hi Hr) as Hs.
  assert (Hs' : sound f (db w')) by (destruct Hf as [->|Hf]; [done | by apply (sound_power (fs w'))]).
  destruct Hs' as (_ & Hsec & _); destruct (Hsec k i e Hk) as (c & (a & n & Ha & Hn & Hc) & _ & Hlen & Hsha).
  apply anchor_at in Ha as (r & H1 & H2); apply durable_entry_some in Hn; apply installed_digest in Hk as [-> _].
  by exists r, a, n, c.
Qed.

End Theorems.
