(* ===== verification/StorageErrors.v ===== *)
(** * What is left after an error.

    An error of a service says what it left behind: nothing, or a removal
    that is prepared in the journal and waits for a retry. *)

From S2P Require Import Prelude Text Document Claims Json Extractor Model ModelJson StoreDb ModelStore StoreMonad StoreInv StoreSteps StoreOps StoreTheorems.
From S2P Require Import FileSystem StorageIo ArtifactStorage ArtifactRemoval ArtifactImport ArtifactReconciliation StorageFacts StorageSpecs StorageVerify StorageSafety.

(** Some nodes were synchronized, nothing else changed. *)
Definition only_synced (f f' : Fs) : Prop :=
  root f' = root f /\ root_synced f' = root_synced f /\ forall n, node_at f' n = node_at f n \/ node_at f' n = sync_node <$> node_at f n.

Lemma only_synced_refl f : only_synced f f.
Proof. split_and!; auto. Qed.
Lemma sync_node_twice v : sync_node (sync_node v) = sync_node v.
Proof. by destruct v. Qed.
Lemma only_synced_fsync f f' n : only_synced f f' -> only_synced f (snd (fsync n f')).
Proof.
  intros (H1 & H2 & H3); destruct (fsync_root n f') as [E1 E2]; split_and!; [congruence | congruence |]; intros m; rewrite node_at_fsync.
  destruct (decide (m = n)) as [->|]; [| done]; right; destruct (H3 n) as [-> | ->]; [done |]; destruct (node_at f n) as [v|]; [| done].
  cbn; by rewrite sync_node_twice.
Qed.

(** Programs that make no database operation. *)
Definition stays {E A} (m : Io E A) : Prop := forall env w, db (snd (m env w)) = db w.

Lemma stays_looks {E A} (m : Io E A) : looks m -> stays m.
Proof. intros H env w; by destruct (H env w). Qed.
Lemma stays_call {A} (effect : Environment -> nat -> Fs -> IoResult A * Fs) : stays (call effect).
Proof.
  intros env w; unfold call; destruct (ends env _); [done |]; destruct (effect env _ (fs w)) as [r f].
  by destruct (fails env _) as [[e []]|].
Qed.
Lemma stays_bind {E A B} (m : Io E A) (g : A -> Io E B) : stays m -> (forall a, stays (g a)) -> stays (m ≫= g).
Proof.
  intros Hm Hg env w; unfold mbind, io_bind; specialize (Hm env w); destruct (m env w) as [[a|e|] w']; cbn in *; [| done ..].
  by rewrite Hg.
Qed.
Lemma stays_map_error {E F A} (g : E -> F) (m : Io E A) : stays m -> stays (map_error g m).
Proof. intros H env w; unfold map_error; specialize (H env w); by destruct (m env w). Qed.
Lemma stays_attempt {E F A} (m : Io E A) : stays m -> stays (attempt (F := F) m).
Proof. intros H env w; unfold attempt; specialize (H env w); by destruct (m env w) as [[] w']. Qed.

Lemma spec_stays {E A} K (m : Io E A) (P : Db -> Prop) (R : E -> Fs -> Db -> Prop) (C : Fs -> Db -> Prop) :
  stays m -> (forall e f d, P d -> R e f d) -> (forall f d, P d -> C f d) -> spec K (fun _ => P) m (fun _ _ => P) R C.
Proof. intros Hm HR HC env w _ Hw; specialize (Hm env w); destruct (m env w) as [[a|e|] w']; cbn in Hm; rewrite Hm; auto. Qed.

Ltac stays :=
  cbv zeta;
  repeat first
    [ solve [apply stays_looks; eauto 2 with io nocore]
    | apply stays_call | apply stays_bind | apply stays_map_error | apply stays_attempt
    | match goal with
      | |- stays (match ?x with _ => _ end) => destruct x
      | |- forall _, _ => intros
      end ].

(** The errors that ask for a retry. *)
Definition asks_retry (e : ArtifactRemovalError.t) : Prop :=
  match e with ArtifactRemovalError.RecoveryRequired _ => True | _ => False end.

Section Errors.
Context {SHA : Sha256} {JSON : JsonCodec}.

(** The removal of a selection is in the journal, prepared. *)
Definition prepared_in (selection : StoredArtifactInstallation.t) (d : Db) : Prop :=
  inv d /\ removal_at d (selection_key selection) (StoredArtifactInstallation.installed selection) (selection_epoch selection) Prepared.

Section Removal.
Context (selection : StoredArtifactInstallation.t) (f0 : Fs) (d0 : Db) (Hinv : inv d0).

Definition untouched (f : Fs) (d : Db) : Prop := d = d0 /\ only_synced f0 f.
Definition left_behind (e : ArtifactRemovalError.t) (f : Fs) (d : Db) : Prop :=
  (asks_retry e -> prepared_in selection d) /\ (~ asks_retry e -> untouched f d).
Definition anything (_ : Fs) (_ : Db) : Prop := True.
Definition anyway (_ : Environment) : Prop := True.

Lemma untouched_closed : sync_closed untouched.
Proof. intros n f d []; split; [done | by apply only_synced_fsync]. Qed.

Lemma left_storage e f d : untouched f d -> left_behind (removal_storage_error e) f d.
Proof. intros H; split; [by destruct e | done]. Qed.
Lemma left_store e f d : untouched f d -> left_behind (removal_store_error e) f d.
Proof. intros H; split; [by destruct e | done]. Qed.
Lemma left_open e f d : untouched f d -> left_behind (removal_open_error e) f d.
Proof. intros H; split; [by destruct e | done]. Qed.
Lemma left_verify e f d : untouched f d -> left_behind (removal_verification_error e) f d.
Proof. intros H; split; [by destruct e as [[]| | | |] | done]. Qed.

(** Looking leaves nothing behind. *)
Lemma spec_untouched {A} (m : Removal A) : looks m -> (forall e f d, untouched f d -> left_behind e f d) -> spec anyway untouched m (fun _ => untouched) left_behind anything.
Proof. intros Hm HR; by apply spec_looks. Qed.

Lemma spec_layout s : spec anyway untouched (map_error removal_storage_error (validate_layout s)) (fun _ => untouched) left_behind anything.
Proof. apply spec_map_error, spec_looks; [apply looks_layout | intros; by apply left_storage | done]. Qed.

Lemma spec_not_cancelled : spec anyway untouched not_cancelled (fun _ => untouched) left_behind anything.
Proof.
  unfold not_cancelled, ensure_not_cancelled; eapply spec_bind with (Q := fun _ => untouched).
  - intros env w _ Hw; unfold is_cancelled; cbn; done.
  - intros []; [by apply spec_raise | by apply spec_ret].
Qed.
Lemma spec_report stage c t : spec anyway untouched (report_removal stage c t) (fun _ => untouched) left_behind anything.
Proof. intros env w _ Hw; done. Qed.

Lemma spec_state : spec anyway untouched
  (map_error removal_store_error (sql (artifact_removal_state (InstalledArtifact.artifact_id (StoredArtifactInstallation.installed selection)))))
  (fun r f d => untouched f d /\ (removal_in Prepared selection (snd r) = true -> prepared_in selection d)) left_behind anything.
Proof.
  apply spec_map_error, spec_sql; [apply tame_state | apply atomic_state | done | intros; by apply left_store |].
  intros f d [current removal] d' Hu H; pose proof (readonly_ok _ _ _ _ (readonly_state _) H) as ->; split; [done |].
  destruct Hu as [-> _]; unfold artifact_removal_state in H; apply transaction_ok in H as (o & d1 & H & Ho); [| tame].
  apply with_state_ok in H as (om & oi & orm & Hl & H); [| done | tame]; rewrite pure_ret in H; injection H as <- <-; destruct Ho as [Heq _]; injection Heq as -> ->.
  cbn [snd]; unfold removal_in; destruct orm as [[s' p]|]; [| done]; cbn; intros Hx; apply andb_true_iff in Hx as [Hx Hy].
  apply bool_decide_eq_true in Hx, Hy; subst s' p; destruct Hl as [_ _ Hl]; by split.
Qed.

(** After the preparation every error asks for a retry. *)
Lemma left_prepared r f d : prepared_in selection d -> left_behind (ArtifactRemovalError.RecoveryRequired r) f d.
Proof. intros H; split; [done | intros Hn; destruct Hn; done]. Qed.

Lemma stays_remove_verified v a name maximum : stays (recheck_and_remove v a name maximum).
Proof.
  unfold recheck_and_remove, remove_held_managed_file, remove_verified_file, remove_file, active; stays.
Qed.
Lemma stays_absent a name maximum : stays (confirm_managed_file_absent a name maximum).
Proof. apply stays_looks; unfold confirm_managed_file_absent; looks. Qed.

Lemma spec_finish s name v :
  spec anyway (fun _ => prepared_in selection) (finish_prepared s name selection v) (fun _ _ _ => True) left_behind anything.
Proof.
  unfold finish_prepared; cbv zeta; eapply spec_bind with (Q := fun _ _ => prepared_in selection).
  - apply spec_map_error, spec_stays; [| intros; by apply left_prepared | done].
    destruct v; unfold sync, sync_all, io; stays; auto using stays_remove_verified, stays_absent.
  - intros u; eapply spec_bind with (Q := fun _ _ => prepared_in selection).
    + apply spec_map_error, spec_looks; [unfold exclusive_lifecycle_lock; looks | intros; by apply left_prepared | done].
    + intros u1; eapply spec_bind with (Q := fun _ _ _ => True); [| intros; by apply spec_ret].
      destruct tame_operations as (_ & _ & _ & _ & _ & _ & _ & H8 & _).
      apply spec_map_error, spec_sql; [apply H8 | apply atomic_removal | done | intros; by apply left_prepared | done].
Qed.

Lemma spec_prepare s :
  spec anyway untouched (prepare_state s selection)
    (fun w _ d => w <> PreparationAlreadyCompleted -> prepared_in selection d) left_behind anything.
Proof.
  unfold prepare_state; eapply spec_bind with (Q := fun _ => untouched).
  { apply spec_map_error, spec_looks; [unfold exclusive_lifecycle_lock; looks | intros; by apply left_storage | done]. }
  intros u; destruct tame_operations as (_ & _ & _ & _ & _ & _ & H7 & _).
  apply spec_map_error, spec_sql; [apply H7 | apply atomic_removal | done | intros; by apply left_store |].
  intros f d w d' [-> _] H Hw; pose proof (proj1 (prepare_rows _ _ _ _ Hinv H)) as Hd'; apply prepare_changes in H as (p & Hr & H); [| done].
  destruct w; [destruct H as (_ & -> & _) | destruct H as [_ ->] | done]; by split.
Qed.

Lemma spec_verify_removal s name token recovering :
  (recovering = true -> prepared_in selection d0) ->
  spec anyway untouched
    (map_error (fun e => if recovering then map_prepared_error e else e) (verify_removal s name selection token recovering))
    (fun _ => untouched) left_behind anything.
Proof.
  intros Hrec; apply spec_map_error.
  assert (HR : forall e f d, untouched f d -> left_behind (if recovering then map_prepared_error (removal_verification_error e) else removal_verification_error e) f d).
  { intros e f d Hu; destruct recovering; [| by apply left_verify]; pose proof Hu as [-> _]; unfold map_prepared_error.
    destruct (removal_verification_error e); apply left_prepared; auto. }
  unfold verify_removal; cbv zeta; eapply spec_bind with (Q := fun _ => untouched).
  { destruct recovering; [by apply spec_ret |]; intros env w _ Hw; done. }
  intros u; eapply spec_bind with (Q := fun _ => untouched).
  { eapply spec_weaken; [apply spec_attempt with (P := untouched) (R' := fun _ => untouched); apply spec_verify; [apply untouched_closed | | done | done] | by intros |].
    - intros n; destruct recovering; [apply looks_ret | apply looks_report].
    - intros [v|e|] f d; [by intros [] | done | done]. }
  intros [v|e|]; [by apply spec_ret | | by apply spec_value]; destruct e as [b| | | |]; try (apply spec_raise; intros; by apply HR).
  destruct recovering; [by apply spec_ret |]; apply spec_raise; intros; by apply (HR Missing).
Qed.

Lemma spec_remove s : spec anyway untouched (remove s selection) (fun _ _ _ => True) left_behind anything.
Proof.
  unfold remove; cbv zeta; eapply spec_bind with (Q := fun _ => untouched).
  { apply spec_value; intros f d Hu; destruct (validate_removal_request selection) as [u|e|] eqn:E; [done | | done].
    split; [| done]; revert E; unfold validate_removal_request; destruct (InstalledArtifact.validate _); cbn; [| by intros [= <-] | done].
    destruct (_ =? _); [by intros [= <-] |]; destruct (negb _); [by intros [= <-] | done]. }
  intros u; eapply spec_bind; [apply spec_layout |]; intros u1; eapply spec_bind; [apply spec_state |]; intros [current removal]; cbn [snd].
  destruct (removal_in Completed selection removal); [by apply spec_ret |].
  set (recovering := removal_in Prepared selection removal).
  apply spec_weaken with (P := fun f d => (recovering = true -> prepared_in selection d0) /\ untouched f d) (Q := fun _ _ _ => True);
    [| intros f d [Hu Hp]; split; [destruct Hu as [<- _]; done | done] | done].
  apply spec_pure; intros Hrec; destruct (_ <? _).
  { destruct recovering; apply spec_raise; intros f d Hu; [apply left_prepared; destruct Hu as [-> _]; auto | split; [by intros [] | done]]. }
  destruct (_ && _); [apply spec_raise; intros f d Hu; split; [by intros [] | done] |]; eapply spec_bind with (Q := fun _ => untouched).
  { destruct recovering; [by apply spec_ret |]; do 2 (eapply spec_bind; [apply spec_not_cancelled || apply spec_report |]; intros ?); apply spec_not_cancelled. }
  intros u2; eapply spec_bind; [by apply spec_verify_removal |]; intros v; eapply spec_bind with (Q := fun _ => untouched).
  { destruct recovering; [by apply spec_ret |].
    do 3 (eapply spec_bind; [apply spec_not_cancelled || apply spec_report || apply spec_layout |]; intros ?).
    destruct v as [v|]; [| by apply spec_ret].
    apply spec_map_error, spec_looks; [unfold recheck_for_removal; looks; apply looks_recheck | intros; by apply left_storage | done]. }
  intros u3; eapply spec_bind; [apply spec_prepare |]; intros w; destruct w; [| | by apply spec_ret];
    (eapply spec_bind; [| intros; by apply spec_ret]); (eapply spec_weaken; [apply spec_finish | | by intros]); intros f d H; by apply H.
Qed.

Lemma spec_remove_selection limits : spec anyway untouched (remove_selection limits selection) (fun _ _ _ => True) left_behind anything.
Proof.
  unfold remove_selection, open_removal; eapply spec_bind with (Q := fun _ => untouched); [| intros s; apply spec_remove].
  destruct (negb _); [apply spec_raise; intros f d Hu; split; [by intros [] | done] |]; eapply spec_bind with (Q := fun _ => untouched); [| intros s; by apply spec_ret].
  apply spec_map_error, spec_looks; [apply looks_open_storage | intros; by apply left_open | done].
Qed.

End Removal.

(** C29. The error of a removal says what is left.  In every environment,
    when a removal returns an error that does not ask for a retry, it changed
    nothing: the database is the one it found and no entry and no byte of the
    file system changed; when it asks for a retry, the removal of exactly the
    selected installation is prepared in the journal. *)
Theorem removal_errors (limits : ArtifactRemovalLimits) (selection : StoredArtifactInstallation.t) (env : Environment)
    (w w' : World) (e : ArtifactRemovalError.t) :
  inv (db w) -> remove_selection limits selection env w = (Err e, w') ->
  match e with
  | ArtifactRemovalError.RecoveryRequired _ =>
      removal_at (db w') (selection_key selection) (StoredArtifactInstallation.installed selection) (selection_epoch selection) Prepared
  | _ =>
      db w' = db w /\ root (fs w') = root (fs w) /\
      forall n, node_at (fs w') n = node_at (fs w) n \/ node_at (fs w') n = sync_node <$> node_at (fs w) n
  end.
Proof.
  intros Hd H; pose proof (spec_remove_selection selection (fs w) (db w) Hd limits env w I (conj eq_refl (only_synced_refl (fs w)))) as Hs.
  rewrite H in Hs; destruct Hs as [H1 H2]; destruct e; try (destruct (H2 (fun x => x)) as (-> & -> & _ & ?); done).
  by destruct (H1 I).
Qed.

End Errors.
