(* ===== verification/StorageCalm.v ===== *)
(** * Operations on the storage when nothing fails.

    What the operations on pinned directories return in an environment in
    which no call fails, the process does not end and nobody cancels. *)

From S2P Require Import Prelude Text Document Claims Json Extractor Model ModelJson StoreDb ModelStore FileSystem StorageIo ArtifactStorage StorageFacts StorageSpecs.

(** On a file system with a property, the program returns a value about which
    something holds, and changes nothing. *)
Definition gives {E A} (G : Fs -> Prop) (m : Io E A) (F : Fs -> A -> Prop) : Prop :=
  forall env w, calm env -> G (fs w) -> exists a w', m env w = (Ok a, w') /\ same w w' /\ F (fs w) a.

Section Gives.
Context {E : Type}.
Implicit Types G : Fs -> Prop.

Lemma gives_weaken {A} G G' (m : Io E A) (F F' : Fs -> A -> Prop) :
  gives G m F -> (forall f, G' f -> G f) -> (forall f a, G' f -> F f a -> F' f a) -> gives G' m F'.
Proof. intros H HG HF env w Hc Hw; destruct (H env w Hc (HG _ Hw)) as (a & w' & H1 & H2 & H3); exists a, w'; split_and!; auto. Qed.
Lemma gives_pre {A} G G' (m : Io E A) (F : Fs -> A -> Prop) : gives G m F -> (forall f, G' f -> G f) -> gives G' m F.
Proof. intros H HG; by apply (gives_weaken G G' m F F). Qed.
Lemma gives_ret {A} (a : A) G (F : Fs -> A -> Prop) : (forall f, G f -> F f a) -> gives (E := E) G (mret a) F.
Proof. intros H env w _ Hw; exists a, w; split_and!; [done | done | auto]. Qed.
Lemma gives_value {A} (a : A) (r : Result E A) G (F : Fs -> A -> Prop) : r = Ok a -> (forall f, G f -> F f a) -> gives G (value r) F.
Proof. intros -> H env w _ Hw; exists a, w; split_and!; [done | done | auto]. Qed.
Lemma gives_bind {A B} (m : Io E A) (g : A -> Io E B) G (F : Fs -> A -> Prop) (F' : Fs -> B -> Prop) :
  gives G m F -> (forall a, gives (fun f => G f /\ F f a) (g a) F') -> gives G (m ≫= g) F'.
Proof.
  intros Hm Hg env w Hc Hw; destruct (Hm env w Hc Hw) as (a & w1 & E1 & [S1 S2] & Ha); unfold mbind, io_bind; rewrite E1.
  assert (Hw1 : G (fs w1) /\ F (fs w1) a) by (rewrite S1; done).
  destruct (Hg a env w1 Hc Hw1) as (b & w2 & E2 & [S3 S4] & Hb); exists b, w2; rewrite E2, <- S1; split_and!; [done | split; congruence | done].
Qed.
Lemma gives_map_error {F0 A} (g : F0 -> E) (m : Io F0 A) G (F : Fs -> A -> Prop) : gives G m F -> gives G (map_error g m) F.
Proof. intros H env w Hc Hw; destruct (H env w Hc Hw) as (a & w' & E1 & H1); exists a, w'; unfold map_error; by rewrite E1. Qed.
Lemma gives_attempt {F0 A} (m : Io F0 A) G (F : Fs -> A -> Prop) :
  gives G m F -> gives G (attempt (F := E) m) (fun f r => exists a, r = Ok a /\ F f a).
Proof. intros H env w Hc Hw; destruct (H env w Hc Hw) as (a & w' & E1 & S & Hf); exists (Ok a), w'; unfold attempt; rewrite E1; eauto. Qed.
Lemma gives_pure {A} (p : Prop) G (m : Io E A) (F : Fs -> A -> Prop) : (p -> gives G m F) -> gives (fun f => G f /\ p) m F.
Proof. intros H env w Hc [Hw Hp]; by apply (H Hp). Qed.
Lemma gives_token (e : E) token G : gives G (ensure_not_cancelled e token) (fun _ _ => True).
Proof.
  intros env w Hc Hw; exists tt; unfold ensure_not_cancelled, is_cancelled, mbind, io_bind; cbn.
  destruct token; rewrite ?calm_cancels by done; eexists; split_and!; done.
Qed.
Lemma gives_report r G : gives (E := E) G (report r) (fun _ _ => True).
Proof. intros env w Hc Hw; exists tt; eexists; split_and!; done. Qed.
Lemma gives_then {A B} (m : Io E A) (g : A -> Io E B) G (F : Fs -> A -> Prop) (F' : Fs -> B -> Prop) :
  gives G m F -> (forall a, gives G (g a) F') -> gives G (m ≫= g) F'.
Proof. intros Hm Hg; eapply gives_bind; [apply Hm |]; intros a; eapply gives_weaken; [apply Hg | by intros f [] | by intros]. Qed.

(** Together with what holds of the value in any environment. *)
Lemma gives_yields {A} (m : Io E A) G (F F' : Fs -> A -> Prop) : gives G m F -> yields m F' -> gives G m (fun f a => F f a /\ F' f a).
Proof. intros Hg [_ Hy] env w Hc Hw; destruct (Hg env w Hc Hw) as (a & w' & E1 & S & Hf); exists a, w'; split_and!; eauto. Qed.

End Gives.

Lemma gives_look {A} (effect : Environment -> nat -> Fs -> IoResult A) (G : Fs -> Prop) (F : Fs -> A -> Prop) :
  (forall env n f, calm env -> G f -> exists a, effect env n f = Ok a /\ F f a) -> gives G (look effect) F.
Proof.
  intros H env w Hc Hw; destruct (H env (calls w) (fs w) Hc Hw) as (a & Ea & Hf); unfold look, call.
  rewrite calm_ends, calm_fails, Ea by done; exists a; eexists; split_and!; done.
Qed.

(** A program of a total specification that only looks. *)
Lemma total_gives {E A} (m : Io E A) (P : Fs -> Db -> Prop) (G : Fs -> Prop) (F : Fs -> A -> Prop) :
  gives G m F -> (forall f d, P f d -> G f) -> total P m (fun a f d => P f d /\ F f a).
Proof.
  intros H HP env w Hc Hw; destruct (H env w Hc (HP _ _ Hw)) as (a & w' & -> & [S1 S2] & Hf); rewrite S1, S2; done.
Qed.

(** ** Nodes *)

Lemma type_inode t f n : is_type t f n -> exists i, inodes f !! n = Some i /\ node_type (node i) = t.
Proof. intros (v & E & Hv); unfold node_at in E; destruct (inodes f !! n) as [i|]; [| done]; injection E as <-; eauto. Qed.

Lemma gives_fingerprint n : gives (fun f => is_Some (inodes f !! n)) (MetadataFingerprint.from_file n) (fun f p => fingerprint_of f n p).
Proof.
  unfold MetadataFingerprint.from_file; eapply gives_bind with (F := fun f m => exists i, inodes f !! n = Some i /\ m = metadata_of f n i).
  - apply gives_look; intros env k f _ [i Hi]; unfold stat_node; rewrite Hi; eauto.
  - intros m; apply gives_ret; intros f [_ (i & Hi & ->)]; by exists i.
Qed.
Lemma gives_handle test t n opening :
  t <> TypeSymlink -> (forall m, test m = bool_decide (md_type m = t)) ->
  gives (fun f => is_type t f n) (validate_handle test n opening) (fun _ _ => True).
Proof.
  intros Hn Ht; unfold validate_handle; eapply gives_bind with (F := fun f m => md_type m = t).
  - apply gives_map_error, gives_look; intros env k f _ Hv; apply type_inode in Hv as (i & Hi & Hv); unfold stat_node; rewrite Hi; eauto.
  - intros m; apply gives_pre with (G := fun f => is_type t f n /\ md_type m = t); [| by intros f []].
    apply gives_pure; intros <-; rewrite Ht, bool_decide_eq_true_2 by done; unfold is_indirect; rewrite bool_decide_eq_false_2 by done.
    by apply gives_ret.
Qed.
Lemma gives_regular n opening : gives (fun f => is_type TypeFile f n) (validate_regular_file n opening) (fun _ _ => True).
Proof. by apply gives_handle. Qed.
Lemma gives_directory n opening : gives (fun f => is_type TypeDirectory f n) (validate_directory_handle n opening) (fun _ _ => True).
Proof. by apply gives_handle. Qed.
Lemma gives_io_fingerprint n t : gives (fun f => is_type t f n) (io (MetadataFingerprint.from_file n)) (fun f p => fingerprint_of f n p).
Proof. apply gives_map_error; eapply gives_weaken; [apply gives_fingerprint | | by intros]; intros f H; apply type_inode in H as (i & Hi & _); eauto. Qed.

(** ** Names *)

(** A name that leads to a node of a type. *)
Definition leads (t : FileType) (d : Z) (name : text) (n : Z) (f : Fs) : Prop := entries_of f d !! name = Some n /\ is_type t f n.

Lemma leads_lookup t d name n f : leads t d name n f -> lookup_name f d name = Ok n.
Proof.
  intros [H _]; pose proof (entries_some _ _ _ _ H) as (e & p & E & _); unfold lookup_name, is_directory; rewrite E; cbn; by rewrite H.
Qed.
Lemma leads_open_file write d name n f : leads TypeFile d name n f -> openat false write d name f = Ok n.
Proof.
  intros H; unfold openat; rewrite (leads_lookup _ _ _ _ _ H); cbn; destruct H as [_ (v & E & Hv)]; unfold open_node; rewrite E; by destruct v.
Qed.
Lemma leads_open_directory d name n f : leads TypeDirectory d name n f -> openat true false d name f = Ok n.
Proof.
  intros H; unfold openat; rewrite (leads_lookup _ _ _ _ _ H); cbn; destruct H as [_ (v & E & Hv)]; unfold open_node; rewrite E; by destruct v.
Qed.

Lemma gives_open_file d name n share : gives (leads TypeFile d name n) (open_file d name share) (fun _ m => m = n).
Proof. apply gives_look; intros env k f _ H; exists n; split; [by apply leads_open_file | done]. Qed.
Lemma gives_open_directory d name n : gives (leads TypeDirectory d name n) (open_directory d name) (fun _ m => m = n).
Proof. apply gives_look; intros env k f _ H; exists n; split; [by apply leads_open_directory | done]. Qed.

Lemma gives_child_file d name n : gives (leads TypeFile d name n) (child_file_fingerprint d name) (fun f p => fingerprint_of f n p).
Proof.
  unfold child_file_fingerprint; eapply gives_bind; [apply gives_map_error, gives_open_file |]; intros m; cbn beta; apply gives_pure; intros ->.
  eapply gives_then; [eapply gives_weaken; [apply gives_regular | by intros f [] | by intros] |]; intros u.
  eapply gives_weaken; [apply (gives_io_fingerprint n TypeFile) | by intros f [] | by intros].
Qed.
Lemma gives_child_directory d name n : gives (leads TypeDirectory d name n) (child_directory_fingerprint d name) (fun f p => fingerprint_of f n p).
Proof.
  unfold child_directory_fingerprint; eapply gives_bind; [apply gives_map_error, gives_open_directory |]; intros m; cbn beta; apply gives_pure; intros ->.
  eapply gives_then; [eapply gives_weaken; [apply gives_directory | by intros f [] | by intros] |]; intros u.
  eapply gives_weaken; [apply (gives_io_fingerprint n TypeDirectory) | by intros f [] | by intros].
Qed.
Lemma gives_directory_fingerprint d : gives (fun f => is_type TypeDirectory f d) (directory_fingerprint d) (fun f p => fingerprint_of f d p).
Proof.
  unfold directory_fingerprint; eapply gives_then; [apply gives_directory |]; intros u; apply gives_io_fingerprint.
Qed.
Lemma gives_open_path r : gives (fun f => root f = Some r /\ is_type TypeDirectory f r) open_directory_path (fun _ n => n = r).
Proof.
  apply gives_look; intros env k f _ [Hr (v & E & Hv)]; exists r; split; [| done]; unfold open_root; rewrite Hr; cbn; unfold open_node.
  rewrite E; by destruct v.
Qed.
Lemma gives_fingerprint_path r :
  gives (fun f => root f = Some r /\ is_type TypeDirectory f r) fingerprint_path (fun f p => fingerprint_of f r p).
Proof.
  unfold fingerprint_path; eapply gives_bind; [apply gives_map_error, gives_open_path |]; intros m; cbn beta; apply gives_pure; intros ->.
  eapply gives_then; [eapply gives_weaken; [apply gives_directory | by intros f [] | by intros] |]; intros u.
  eapply gives_weaken; [apply (gives_io_fingerprint r TypeDirectory) | by intros f [] | by intros].
Qed.

(** ** The layout *)

Record layout (r lk a : Z) (f : Fs) : Prop := {
  ly_root : root f = Some r;
  ly_root_directory : is_type TypeDirectory f r;
  ly_lock : leads TypeFile r LIFECYCLE_LOCK_FILE lk f;
  ly_artifacts : leads TypeDirectory r (lit "artifacts") a f
}.

Lemma gives_layout r lk a exclusive :
  gives (layout r lk a) (validate_layout {| es_root := r; es_artifacts := a; es_lock := lk; es_exclusive_lock := exclusive |}) (fun _ _ => True).
Proof.
  unfold validate_layout; cbn [es_root es_artifacts es_lock].
  eapply gives_bind; [eapply gives_weaken; [apply gives_directory_fingerprint | by intros f [] | intros f p _ H; exact H] |]; intros p.
  eapply gives_bind; [eapply gives_weaken; [apply (gives_fingerprint_path r) | by intros f [[]] | intros f q _ H; exact H] |]; intros q.
  apply gives_pre with (G := fun f => layout r lk a f /\ p = q); [| intros f [[Hl Hp] Hq]; split; [done | by eapply fingerprint_fun]].
  apply gives_pure; intros ->; rewrite bool_decide_eq_true_2 by done; cbn [negb].
  eapply gives_bind; [eapply gives_weaken; [apply (gives_child_file r LIFECYCLE_LOCK_FILE lk) | by intros f [] | intros f p _ H; exact H] |]; intros p1.
  eapply gives_bind; [eapply gives_weaken; [apply (gives_io_fingerprint lk TypeFile) | by intros f [[? ? [? ?]]] | intros f p _ H; exact H] |]; intros p2.
  apply gives_pre with (G := fun f => layout r lk a f /\ p1 = p2); [| intros f [[Hl Hp] Hq]; split; [done | by eapply fingerprint_fun]].
  apply gives_pure; intros ->; rewrite bool_decide_eq_true_2 by done; cbn [negb].
  eapply gives_bind; [eapply gives_weaken; [apply gives_directory_fingerprint | by intros f [? ? ? [? ?]] | intros f p _ H; exact H] |]; intros p3.
  eapply gives_bind; [eapply gives_weaken; [apply (gives_child_directory r (lit "artifacts") a) | by intros f [[]] | intros f p _ H; exact H] |]; intros p4.
  apply gives_pre with (G := fun f => layout r lk a f /\ p3 = p4); [| intros f [[Hl Hp] Hq]; split; [done | by eapply fingerprint_fun]].
  apply gives_pure; intros ->; rewrite bool_decide_eq_true_2 by done; by apply gives_ret.
Qed.

(** ** Entries *)

(** Every entry of a directory can be looked at, and there are not too many. *)
Record listable (d maximum : Z) (f : Fs) : Prop := {
  ls_directory : is_directory f d = true;
  ls_entries : forall name n, entries_of f d !! name = Some n -> exists i, inodes f !! n = Some i /\ node_len (node i) <= u64_max;
  ls_size : Z.of_nat (size (entries_of f d)) <= maximum
}.

Lemma node_len_nonneg v : 0 <= node_len v.
Proof. destruct v; cbn; [apply vlen_nonneg | lia ..]. Qed.
Lemma try_from_some maximum n : 0 <= n <= maximum -> try_from maximum n = Some n.
Proof. intros H; unfold try_from; by rewrite !(proj2 (Z.leb_le _ _)) by lia. Qed.

Lemma entry_stat d name f n i :
  is_directory f d = true -> entries_of f d !! name = Some n -> inodes f !! n = Some i -> statat d name f = Ok (metadata_of f n i).
Proof. intros Hd He Hi; unfold statat, lookup_name; rewrite Hd, He; cbn; unfold stat_node; by rewrite Hi. Qed.

Lemma gives_raw_entries d maximum token : gives (listable d maximum) (raw_entries d maximum token) (fun _ _ => True).
Proof.
  unfold raw_entries; eapply gives_bind with (F := fun f names => names = [lit "."; lit ".."] ++ map fst (map_to_list (entries_of f d))).
  { apply gives_map_error, gives_look; intros env k f _ [Hd _ _]; unfold read_dir; rewrite Hd; eauto. }
  intros names; match goal with |- gives _ (visit ?g _ _) _ => enough (H : forall result,
    gives (fun f => listable d maximum f /\ Forall (fun x => not_dot x = true -> is_Some (entries_of f d !! x)) names /\
                    vlen result + vlen (List.filter not_dot names) <= maximum) (visit g result names) (fun _ _ => True)) end.
  { eapply gives_pre; [apply H |]; intros f [Hl ->]; split_and!; [done | |].
    - apply Forall_app; split; [by repeat constructor |]; apply Forall_forall; intros x Hx _; apply list_elem_of_fmap in Hx as ([k v] & -> & Hx).
      apply elem_of_map_to_list in Hx; by exists v.
    - destruct Hl as [_ _ Hs]; change (List.filter not_dot ([lit "."; lit ".."] ++ ?l)) with (List.filter not_dot l).
      unfold vlen; rewrite length_nil; pose proof (filter_length_le not_dot (map fst (map_to_list (entries_of f d)))) as Hle.
      rewrite length_map, length_map_to_list in Hle; lia. }
  induction names as [|name names IH]; intros result; cbn [visit]; [by apply gives_ret |].
  eapply gives_bind with (F := fun _ r => vlen r = vlen result + vlen (List.filter not_dot [name])).
  - eapply gives_then; [apply gives_token |]; intros u; eapply gives_bind with (F := fun _ x => x = name); [apply gives_map_error, gives_look; eauto |].
    intros x; cbn beta; apply gives_pure; intros ->; cbn [List.filter]; destruct (existsb _ _) eqn:Ed.
    { unfold not_dot; rewrite Ed; cbn [negb]; apply gives_ret; intros; unfold vlen; rewrite length_nil; lia. }
    assert (Hn : not_dot name = true) by (unfold not_dot; by rewrite Ed); rewrite Hn.
    destruct (Z.eqb_spec (vlen result) maximum) as [He|He].
    { intros env w _ (_ & _ & Hle); rewrite vlen_cons in Hle.
      pose proof (vlen_nonneg (List.filter not_dot names)); lia. }
    eapply gives_bind with (F := fun _ m => 0 <= md_len m <= u64_max).
    { apply gives_map_error, gives_look; intros env k f _ ([Hd Hl _] & Hf & _); apply Forall_cons in Hf as [Hf _]; destruct (Hf Hn) as [n En].
      destruct (Hl name n En) as (i & Hi & Hb); exists (metadata_of f n i); split; [by apply entry_stat |]; split; [apply node_len_nonneg | done]. }
    intros m; cbn beta; apply gives_pure; intros Hm; rewrite try_from_some by done; eapply gives_bind with (F := fun _ _ => True); [by eapply gives_value |].
    intros sz; apply gives_ret; intros; unfold vlen; rewrite length_app; cbn; lia.
  - intros r; eapply gives_pre; [apply IH |]; cbn beta; intros f [(Hl & Hf & Hle) Hr]; apply Forall_cons in Hf as [_ Hf]; split_and!; [done | done |].
    change (name :: names) with ([name] ++ names) in Hle; rewrite List.filter_app, vlen_app in Hle; lia.
Qed.

(** Whether a name is there, and whether the directory is full. *)
Lemma yields_full d name maximum token :
  yields (has_exact_entry_name d name maximum token) (fun f r => snd r = true -> maximum <= Z.of_nat (size (entries_of f d))).
Proof.
  unfold has_exact_entry_name; eapply yields_bind; [apply yields_raw_entries |]; intros l; apply yields_ret; cbn [snd]; intros f Hl He.
  apply Z.eqb_eq in He; apply (f_equal length) in Hl; rewrite length_map in Hl; unfold vlen in He.
  pose proof (filter_length_le not_dot (map fst (map_to_list (entries_of f d)))) as Hle; rewrite length_map, length_map_to_list in Hle; lia.
Qed.
Lemma gives_exact_name d name maximum token :
  not_dot name = true ->
  gives (listable d maximum) (has_exact_entry_name d name maximum token)
    (fun f r => (fst r = true <-> is_Some (entries_of f d !! name)) /\ (snd r = true -> maximum <= Z.of_nat (size (entries_of f d)))).
Proof.
  intros Hd; eapply gives_weaken; [apply gives_yields; [apply gives_yields |] | by intros f H; exact H | intros f r _ [[_ H1] H2]; split; [exact H1 | exact H2]].
  - unfold has_exact_entry_name; eapply gives_then; [apply gives_raw_entries |]; intros l; by apply gives_ret with (F := fun _ _ => True).
  - by apply yields_exact_name.
  - apply yields_full.
Qed.

(** Looking at a name that is there, and at one that is not. *)
Lemma gives_attempt_look {E A} (effect : Environment -> nat -> Fs -> IoResult A) (G : Fs -> Prop) (F : Fs -> IoResult A -> Prop) :
  (forall env n f, G f -> effect env n f <> Panic /\ F f (effect env n f)) -> gives (E := E) G (attempt (look effect)) F.
Proof.
  intros H env w Hc Hw; destruct (H env (calls w) (fs w) Hw) as [Hp Hf]; unfold attempt, look, call.
  rewrite calm_ends, calm_fails by done; destruct (effect env (calls w) (fs w)) as [a|e|] eqn:Ee; [| | done];
    eexists; eexists; split_and!; try done; by rewrite <- Ee.
Qed.

(** A name of a file that can be measured. *)
Definition file_at (d : Z) (name : text) (n : Z) (f : Fs) : Prop :=
  is_directory f d = true /\ entries_of f d !! name = Some n /\ exists c s, node_at f n = Some (RegularFile c s) /\ vlen c <= u64_max.
Definition absent (d : Z) (name : text) (f : Fs) : Prop := is_directory f d = true /\ entries_of f d !! name = None.

Lemma file_at_leads d name n f : file_at d name n f -> leads TypeFile d name n f.
Proof. intros (_ & He & c & s & Hn & _); split; [done |]; by exists (RegularFile c s). Qed.

Lemma gives_inspect_file d name n :
  gives (file_at d name n) (inspect_entry d name) (fun f o => exists c s, node_at f n = Some (RegularFile c s) /\
    o = Some {| es_direct_regular_file := true; es_indirect := false; es_byte_size := vlen c |}).
Proof.
  unfold inspect_entry; eapply gives_bind with (F := fun f r => exists i c s, node i = RegularFile c s /\ node_at f n = Some (RegularFile c s) /\
    vlen c <= u64_max /\ r = Ok (metadata_of f n i)).
  { apply gives_attempt_look; intros env k f (Hd & He & c & s & Hn & Hb); unfold node_at in Hn; destruct (inodes f !! n) as [i|] eqn:Hi; [| done].
    injection Hn as Hn; rewrite (entry_stat d name f n i) by done; split; [done |]; exists i, c, s; unfold node_at; rewrite Hi; cbn; split_and!; congruence. }
  intros r env w Hc [Hw (i & c & s & H1 & H2 & H3 & ->)]; cbn [mbind]; unfold io_bind, value; cbn [md_len metadata_of]; rewrite H1.
  pose proof (vlen_nonneg c); cbn [node_len]; rewrite try_from_some by lia; cbn [ok_or]; eexists; eexists; split_and!; [done | done |].
  exists c, s; split; [done |]; unfold metadata_of; rewrite H1; done.
Qed.
Lemma gives_inspect_absent d name : gives (absent d name) (inspect_entry d name) (fun _ o => o = None).
Proof.
  unfold inspect_entry; eapply gives_bind with (F := fun f r => r = Err (Os ENOENT)).
  { apply gives_attempt_look; intros env k f [Hd He]; unfold statat, lookup_name; by rewrite Hd, He. }
  intros r; cbn beta; apply gives_pure; intros ->; rewrite bool_decide_eq_true_2 by done; by apply gives_ret.
Qed.

(** ** Managed files *)

Lemma gives_open_entry d name n share c :
  gives (fun f => file_at d name n f /\ exists s, node_at f n = Some (RegularFile c s))
    (open_managed_file_by_name_with_entry d name share {| es_direct_regular_file := true; es_indirect := false; es_byte_size := vlen c |})
    (fun _ o => is_Some o).
Proof.
  unfold open_managed_file_by_name_with_entry; cbn [es_direct_regular_file es_indirect es_byte_size orb negb].
  eapply gives_bind with (F := fun _ r => r = Ok n).
  { apply gives_attempt_look; intros env k f [H _]; by rewrite (leads_open_file _ d name n) by (by apply file_at_leads). }
  intros r; cbn beta; apply gives_pure; intros ->; eapply gives_then.
  { eapply gives_pre; [apply gives_regular |]; intros f [H _]; by apply file_at_leads in H as [_ ?]. }
  intros u; eapply gives_bind.
  { eapply gives_pre; [apply (gives_io_fingerprint n TypeFile) |]; intros f [H _]; by apply file_at_leads in H as [_ ?]. }
  intros p env w Hc [[Hw (s & Hs)] (i & Hi & ->)].
  assert (Hl : MetadataFingerprint.length (MetadataFingerprint.of_metadata (metadata_of (fs w) n i)) = vlen c).
  { unfold node_at in Hs; rewrite Hi in Hs; injection Hs as Hs; cbn; by rewrite Hs. }
  rewrite Hl, Z.eqb_refl; eexists; eexists; split_and!; [done | done | eauto].
Qed.

Lemma gives_open_present d name n share maximum token :
  not_dot name = true ->
  gives (fun f => listable d maximum f /\ file_at d name n f) (open_managed_file_with_share d name share maximum token)
    (fun f o => exists m, o = Some m /\ managed f d name m).
Proof.
  intros Hd; eapply gives_weaken with (G := fun f => listable d maximum f /\ file_at d name n f) (F := fun f o => is_Some o /\ forall m, o = Some m -> managed f d name m);
    [apply gives_yields; [| apply yields_open_managed] | by intros | intros f o _ [[m ->] H]; eauto].
  unfold open_managed_file_with_share; eapply gives_bind with (F := fun _ r => fst r = true).
  { eapply gives_weaken; [by apply gives_exact_name | by intros f [] |]; intros f r [_ (_ & He & _)] [H _]; apply H; eauto. }
  intros [has cap]; cbn [fst]; cbn beta; apply gives_pure; intros ->; cbn [negb].
  eapply gives_bind; [eapply gives_pre; [apply gives_inspect_file | by intros f [_ H]; exact H] |].
  intros o env w Hc [[_ Hw] (c & s & Hn & ->)]; apply (gives_open_entry d name n share c env w Hc); eauto.
Qed.

Lemma gives_open_absent d name share maximum token :
  not_dot name = true ->
  gives (fun f => listable d maximum f /\ absent d name f /\ Z.of_nat (size (entries_of f d)) < maximum)
    (open_managed_file_with_share d name share maximum token) (fun _ o => o = None).
Proof.
  intros Hd; unfold open_managed_file_with_share; eapply gives_bind with (F := fun _ r => r = (false, false)).
  { eapply gives_weaken; [by apply gives_exact_name | by intros f [] |]; intros f [has cap] (_ & [_ He] & Hlt) [H1 H2]; cbn [fst snd] in *.
    destruct has; [destruct (proj1 H1 eq_refl); congruence |]; destruct cap; [specialize (H2 eq_refl); lia | done]. }
  intros r; cbn beta; apply gives_pure; intros ->; cbn [negb].
  eapply gives_bind; [eapply gives_pre; [apply gives_inspect_absent | by intros f (_ & H & _); exact H] |].
  intros o; cbn beta; apply gives_pure; intros ->; by apply gives_ret.
Qed.

Lemma gives_by_name_absent d name share : gives (absent d name) (open_managed_file_by_name d name share) (fun _ o => o = None).
Proof.
  unfold open_managed_file_by_name; eapply gives_bind; [apply gives_inspect_absent |]; intros o; cbn beta; apply gives_pure; intros ->.
  by apply gives_ret.
Qed.

Lemma gives_recheck d name n p share maximum token :
  not_dot name = true ->
  gives (fun f => (listable d maximum f /\ file_at d name n f) /\ fingerprint_of f n p)
    (recheck_managed_file_with_share d name p share maximum token) (fun _ _ => True).
Proof.
  intros Hd; unfold recheck_managed_file_with_share; eapply gives_bind.
  { eapply gives_pre; [by apply gives_open_present | by intros f [H _]; exact H]. }
  intros o env w Hc [[[_ (_ & He & _)] Hp] (m & -> & (He' & _ & Hf & _))]; unfold mbind, io_bind, value; cbn [ok_or].
  assert (mf_file m = n) as Em by congruence; rewrite Em in Hf; rewrite bool_decide_eq_true_2 by (by eapply fingerprint_fun).
  eexists; eexists; split_and!; done.
Qed.

Lemma gives_absent d name maximum :
  not_dot name = true -> gives (fun f => listable d maximum f /\ absent d name f) (confirm_managed_file_absent d name maximum) (fun _ _ => True).
Proof.
  intros Hd; unfold confirm_managed_file_absent; eapply gives_bind with (F := fun _ r => fst r = false).
  { eapply gives_weaken; [by apply gives_exact_name | by intros f [] |]; intros f [[] cap] [_ [_ He]] [H1 _]; [| done].
    destruct (proj1 H1 eq_refl); congruence. }
  intros [has cap]; cbn [fst]; cbn beta; apply gives_pure; intros ->.
  eapply gives_bind; [eapply gives_pre; [apply gives_inspect_absent | by intros f [_ H]; exact H] |].
  intros o; cbn beta; apply gives_pure; intros ->; by apply gives_ret.
Qed.

(** ** Hashing *)

Section Exact.
Context {SHA : Sha256}.

Definition file_bytes (file : Z) (c : bytes) (f : Fs) : Prop := exists s, node_at f file = Some (RegularFile c s).

Lemma gives_read file position buffer c :
  0 < buffer -> 0 <= position ->
  gives (file_bytes file c) (read_file file position buffer)
    (fun _ b => b = take (length b) (drop (Z.to_nat position) c) /\ (b = [] -> vlen c <= position)).
Proof.
  intros Hb Hp; eapply gives_weaken with (F := fun f b => True /\ _); [apply gives_yields; [| by apply yields_read] | by intros f H; exact H |].
  - apply gives_look; intros env n f _ [s Hs]; rewrite Hs; unfold read_at; rewrite Hs; eauto.
  - intros f b [s Hs] [_ (c' & s' & Hn & H1 & H2)]; rewrite Hs in Hn; injection Hn as <- <-; split; auto.
Qed.

Lemma finish_hash_total {E} (e : E) b : finish_hash e b = Ok (sha256 b).
Proof. unfold finish_hash; change (sha256_hex b) with (Digest.as_str (sha256 b)); by rewrite sha256_canonical. Qed.

Lemma gives_hash_loop file token progress c :
  vlen c <= u64_max -> (forall n G, gives G (progress n) (fun _ _ => True)) ->
  forall fuel k, (k <= length c)%nat -> (length c - k < fuel)%nat ->
  gives (file_bytes file c) (hash_loop fuel file (vlen c) token progress (take k c) (Z.of_nat k)) (fun _ d => d = sha256 c).
Proof.
  intros Hb Hp fuel; induction fuel as [|fuel IH]; intros k Hk Hf; [lia |]; cbn [hash_loop].
  eapply gives_then; [apply gives_token |]; intros u; eapply gives_bind; [apply gives_map_error, gives_read; [done | lia] |].
  intros chunk; cbn beta; apply gives_pure; intros [Hc He]; rewrite Nat2Z.id in Hc; destruct (Z.eqb_spec (vlen chunk) 0) as [Hz|Hz].
  - assert (chunk = []) as -> by (destruct chunk; [done | unfold vlen in Hz; cbn in Hz; lia]); specialize (He eq_refl); unfold vlen in *.
    rewrite (proj2 (Z.eqb_eq _ _)) by lia; cbn [negb]; apply gives_value with (a := sha256 c); [| done].
    rewrite take_ge by lia; apply finish_hash_total.
  - pose proof (f_equal length Hc) as Hlen; rewrite length_take, length_drop in Hlen; unfold vlen in *.
    rewrite try_from_some by lia; eapply gives_bind with (F := fun _ n => n = Z.of_nat (length chunk)); [by eapply gives_value |].
    intros count; cbn beta; apply gives_pure; intros ->; unfold checked_add; rewrite (proj2 (Z.leb_le _ _)) by lia.
    eapply gives_bind with (F := fun _ n => n = Z.of_nat (k + length chunk)); [eapply gives_value; [done |]; intros; lia |].
    intros o; cbn beta; apply gives_pure; intros ->; rewrite (proj2 (Z.ltb_ge _ _)) by lia.
    eapply gives_then; [apply Hp |]; intros u1; eapply gives_then; [apply gives_token |]; intros u2.
    assert (take k c ++ chunk = take (k + length chunk) c) as -> by (rewrite <- take_take_drop; by rewrite <- Hc).
    apply IH; lia.
Qed.
Lemma gives_hash file token progress c :
  vlen c <= u64_max -> (forall n G, gives G (progress n) (fun _ _ => True)) ->
  gives (file_bytes file c) (hash_exact file (vlen c) token progress) (fun _ d => d = sha256 c).
Proof.
  intros Hb Hp; unfold hash_exact; apply (gives_hash_loop file token progress c Hb Hp _ 0%nat); [lia |]; unfold vlen; lia.
Qed.

End Exact.

(** ** Opening the storage *)

Lemma gives_lock G : gives G lock_storage (fun _ _ => True).
Proof. apply gives_map_error, gives_look; eauto. Qed.

Lemma leads_inspect_directory d name n :
  gives (leads TypeDirectory d name n) (require_direct_directory_name d name) (fun _ _ => True).
Proof.
  unfold require_direct_directory_name; eapply gives_bind with (F := fun f o => exists sz,
    o = Some {| es_direct_regular_file := false; es_indirect := false; es_byte_size := sz |}).
  - unfold inspect_entry; eapply gives_bind with (F := fun f r => exists i, node_type (node i) = TypeDirectory /\ r = Ok (metadata_of f n i)).
    + apply gives_attempt_look; intros env k f [He Ht]; apply type_inode in Ht as (i & Hi & Ht).
      assert (Hd : is_directory f d = true) by (apply entries_some in He as (e & p & E & _); unfold is_directory; by rewrite E).
      rewrite (entry_stat d name f n i) by done; eauto.
    + intros r env w Hc [_ (i & Ht & ->)]; unfold mbind, io_bind, value; unfold metadata_of; cbn [md_len md_type]; rewrite Ht.
      assert (node_len (node i) = 0) as -> by (destruct (node i); try done); eexists; eexists; split_and!; [done | done | eauto].
  - intros o env w Hc [_ (sz & ->)]; eexists; eexists; split_and!; done.
Qed.

Definition storage_in (mode : LifecycleLockMode) (r lk a : Z) : ExistingArtifactStorage :=
  {| es_root := r; es_artifacts := a; es_lock := lk; es_exclusive_lock := match mode with Shared => false | Exclusive => true end |}.
Definition storage_at (r lk a : Z) : ExistingArtifactStorage :=
  {| es_root := r; es_artifacts := a; es_lock := lk; es_exclusive_lock := true |}.

Lemma gives_open_in mode r lk a : gives (layout r lk a) (open_storage mode) (fun _ s => s = storage_in mode r lk a).
Proof.
  unfold open_storage, open_existing_directory, open_lock_file, open_child_directory.
  apply (gives_then _ _ _ (fun _ _ => True)); [apply gives_map_error, gives_look; eauto |]; intros u.
  apply (gives_bind _ _ _ (fun _ n => n = r)).
  { apply (gives_then _ _ _ (fun _ _ => True)); [apply gives_map_error, gives_look; eauto |]; intros u1; eapply gives_bind.
    - apply gives_map_error; eapply gives_pre; [apply (gives_open_path r) | by intros f []].
    - intros n; cbn beta; apply gives_pure; intros ->; eapply gives_then; [eapply gives_pre; [apply gives_directory | by intros f []] |].
      intros u2; by apply gives_ret. }
  intros n; cbn beta; apply gives_pure; intros ->; apply (gives_bind _ _ _ (fun _ x => fst x = lk)).
  { eapply gives_bind; [apply gives_map_error; eapply gives_pre; [apply (gives_open_file r LIFECYCLE_LOCK_FILE lk) | by intros f []] |].
    intros n; cbn beta; apply gives_pure; intros ->; eapply gives_then; [eapply gives_pre; [apply gives_regular | by intros f [? ? [] ?]] |].
    intros u1; eapply gives_then; [eapply gives_pre; [apply (gives_io_fingerprint lk TypeFile) | by intros f [? ? [] ?]] |].
    intros p; by apply gives_ret. }
  intros [lk' p]; cbn [fst]; cbn beta; apply gives_pure; intros ->; apply (gives_bind _ _ _ (fun _ x => x = match mode with Shared => false | Exclusive => true end)).
  { destruct mode; [eapply gives_then; [apply gives_lock |]; intros u1; by apply gives_ret |].
    apply (gives_then _ _ _ (fun _ _ => True)); [apply gives_map_error, gives_look; eauto |]; intros u1; eapply gives_then; [apply gives_lock |].
    intros u2; by apply gives_ret. }
  intros x; cbn beta; apply gives_pure; intros ->; apply (gives_bind _ _ _ (fun _ n => n = a)).
  { eapply gives_then; [eapply gives_pre; [apply (leads_inspect_directory r (lit "artifacts") a) | by intros f []] |]; intros u1.
    eapply gives_bind; [apply gives_map_error; eapply gives_pre; [apply (gives_open_directory r (lit "artifacts") a) | by intros f []] |].
    intros n; cbn beta; apply gives_pure; intros ->; eapply gives_then; [eapply gives_pre; [apply gives_directory | by intros f [? ? ? []]] |].
    intros u2; by apply gives_ret. }
  intros n; cbn beta; apply gives_pure; intros ->; cbv zeta; eapply gives_then; [apply gives_layout |]; intros u1; by apply gives_ret.
Qed.
Lemma gives_open_storage r lk a : gives (layout r lk a) (open_storage Exclusive) (fun _ s => s = storage_at r lk a).
Proof. apply gives_open_in. Qed.
