(* ===== verification/RemovalReady.v ===== *)
(** * The storage around one artifact.

    What removal relies on: the directories it reaches through durable
    entries, the file of the artifact under one name only, and other entries
    that can be listed.  Synchronization, the unlinking of that name and a
    loss of power leave this so. *)

From S2P Require Import Prelude Text Document FileSystem StorageIo ArtifactStorage StorageFacts StorageSpecs StorageVerify StorageSafety StorageCalm.

(** ** One link *)

Lemma sum_perm {A} (g : A -> Z) l l' : l ≡ₚ l' -> foldr (fun i t => g i + t) 0 l = foldr (fun i t => g i + t) 0 l'.
Proof. induction 1; cbn; lia. Qed.
Lemma sum_zero {A} (g : A -> Z) l : Forall (fun i => g i = 0) l -> foldr (fun i t => g i + t) 0 l = 0.
Proof. induction 1; cbn; lia. Qed.
Lemma filter_perm_length {A} (p : A -> bool) l l' : l ≡ₚ l' -> length (List.filter p l) = length (List.filter p l').
Proof. induction 1; cbn; repeat match goal with |- context [if ?b then _ else _] => destruct b end; cbn; lia. Qed.
Lemma filter_none {A} (p : A -> bool) l : Forall (fun i => p i = false) l -> List.filter p l = [].
Proof. induction 1 as [|i l Hi _ IH]; cbn; [done |]; by rewrite Hi. Qed.

Lemma link_count_one f a x n :
  entries_of f a !! x = Some n -> (forall d name, entries_of f d !! name = Some n -> d = a /\ name = x) -> link_count f n = 1.
Proof.
  intros He Hu; pose proof He as He'; apply entries_some in He' as (e & p & Ea & Hx).
  unfold node_at in Ea; destruct (inodes f !! a) as [ia|] eqn:Hia; [| done]; injection Ea as Ea.
  unfold link_count; rewrite <- (insert_id (inodes f) a ia Hia), <- insert_delete_eq.
  rewrite (sum_perm _ _ _ (map_to_list_insert (delete a (inodes f)) a ia (lookup_delete_eq _ _))); cbn [foldr snd].
  rewrite sum_zero.
  - unfold links_in; rewrite Ea, <- (insert_id e x n Hx), <- insert_delete_eq.
    rewrite (filter_perm_length _ _ _ (map_to_list_insert (delete x e) x n (lookup_delete_eq _ _))); cbn [List.filter snd].
    rewrite Z.eqb_refl; cbn [length]; rewrite filter_none; [done |]; apply Forall_forall; intros [k v] Hk; cbn [snd].
    apply elem_of_map_to_list, lookup_delete_Some in Hk as [Hne Hk]; apply Z.eqb_neq; intros ->.
    destruct (Hu a k) as [_ ?]; [| done]; unfold entries_of, node_at; rewrite Hia; cbn; by rewrite Ea.
  - apply Forall_forall; intros [d i] Hd; cbn [snd]; apply elem_of_map_to_list, lookup_delete_Some in Hd as [Hne Hd].
    unfold links_in; destruct (node i) as [|e' p'| |] eqn:Ei; try done; rewrite filter_none; [done |]; apply Forall_forall; intros [k v] Hk; cbn [snd].
    apply elem_of_map_to_list in Hk; apply Z.eqb_neq; intros ->; destruct (Hu d k) as [-> _]; [| done].
    unfold entries_of, node_at; rewrite Hd; cbn; by rewrite Ei.
Qed.

(** ** The state removal relies on *)

(** An entry leads to a node now or may do so after a loss of power. *)
Definition may_lead (f : Fs) (d : Z) (name : text) (n : Z) : Prop :=
  entries_of f d !! name = Some n \/ (name, Some n) ∈ pending_of f d.

(** A node that is the same after a loss of power and can be measured. *)
Definition measured (v : Node) : Prop := match v with RegularFile c s => s = true /\ vlen c <= u64_max | _ => True end.

Section Ready.
Context (r lk a n : Z) (x : text) (c : bytes) (maximum : Z).

Record ready (f : Fs) : Prop := {
  rd_root : root f = Some r;
  rd_synced : root_synced f = true;
  rd_lock : durable_entry f r LIFECYCLE_LOCK_FILE lk;
  rd_lock_file : is_type TypeFile f lk;
  rd_artifacts : durable_entry f r (lit "artifacts") a;
  rd_directory : is_directory f a = true;
  rd_pending : forall name v, (name, v) ∈ pending_of f a -> name = x;
  rd_name : forall m, may_lead f a x m -> m = n;
  rd_alias : forall d name, may_lead f d name n -> d = a /\ name = x;
  rd_file : may_lead f a x n -> node_at f n = Some (RegularFile c true);
  rd_others : forall name m, entries_of f a !! name = Some m -> exists v, node_at f m = Some v /\ measured v;
  rd_size : Z.of_nat (size (delete x (entries_of f a))) < maximum
}.

(** The name leads nowhere, now and after a loss of power. *)
Definition gone (f : Fs) : Prop := forall m, ~ may_lead f a x m.

Lemma gone_entry f : gone f -> entries_of f a !! x = None.
Proof. intros H; destruct (entries_of f a !! x) as [m|] eqn:E; [| done]; destruct (H m); by left. Qed.

(** ** Synchronization *)

Lemma pending_fsync m f d name v : (name, v) ∈ pending_of (snd (fsync m f)) d -> (name, v) ∈ pending_of f d.
Proof.
  unfold pending_of; rewrite node_at_fsync; destruct (decide (d = m)) as [->|]; [| done].
  destruct (node_at f m) as [[]|]; cbn; try done; intros H; by apply elem_of_nil in H.
Qed.
Lemma may_lead_fsync m f d name k : may_lead (snd (fsync m f)) d name k -> may_lead f d name k.
Proof. intros [H|H]; [left; by rewrite fsync_entries in H | right; by apply pending_fsync in H]. Qed.
Lemma directory_fsync m f d : is_directory (snd (fsync m f)) d = is_directory f d.
Proof. unfold is_directory; rewrite node_at_fsync; destruct (decide (d = m)) as [->|]; [| done]; by destruct (node_at f m) as [[]|]. Qed.

Lemma ready_fsync m f : ready f -> ready (snd (fsync m f)).
Proof.
  intros []; destruct (fsync_root m f) as [E1 E2]; split; rewrite ?E1, ?E2, ?directory_fsync; try done.
  - by apply fsync_durable.
  - by apply fsync_type.
  - by apply fsync_durable.
  - intros name v H; apply pending_fsync in H; eauto.
  - intros k H; apply may_lead_fsync in H; auto.
  - intros d name H; apply may_lead_fsync in H; auto.
  - intros H; apply fsync_file; apply may_lead_fsync in H; auto.
  - intros name k; rewrite fsync_entries; intros H; destruct (rd_others0 name k H) as (v & Hv & Hm); rewrite node_at_fsync.
    destruct (decide (k = m)) as [->|]; [| eauto]; rewrite Hv; cbn; exists (sync_node v); split; [done |]; destruct v; [| done ..]; by destruct Hm as [-> ?].
  - by rewrite fsync_entries.
Qed.
Lemma gone_fsync m f : gone f -> gone (snd (fsync m f)).
Proof. intros H k Hk; by apply may_lead_fsync, H in Hk. Qed.
Lemma fsync_gone f : is_directory f a = true -> entries_of f a !! x = None -> gone (snd (fsync a f)).
Proof.
  intros Hd He m [H|H]; [rewrite fsync_entries in H; congruence |]; revert H; unfold pending_of; rewrite node_at_fsync, decide_True by done.
  apply directory_some in Hd as (e & p & ->); cbn; intros H; by apply elem_of_nil in H.
Qed.

(** ** Unlinking the name *)

Context (Hx : hex_name x) (Hc : vlen c <= u64_max).

Lemma name_distinct : x <> LIFECYCLE_LOCK_FILE /\ x <> lit "artifacts".
Proof. destruct Hx as [_ H]; split; intros ->; done. Qed.

Lemma unlink_shape t f k :
  lookup_name f a x = Ok k -> is_directory f k = false ->
  unlinkat t a x f = (Ok tt, set_entry t (with_inodes f (alter (touch_inode t) k (inodes f))) a x None).
Proof. intros H1 H2; unfold unlinkat; by rewrite H1, H2. Qed.

Section Unlink.
Context (t : Time) (f : Fs) (k : Z) (Hf : ready f) (Hk : entries_of f a !! x = Some k).
Abbreviation f' := (set_entry t (with_inodes f (alter (touch_inode t) k (inodes f))) a x None).

Lemma unlink_entries d : entries_of f' d = if decide (d = a) then delete x (entries_of f a) else entries_of f d.
Proof.
  rewrite set_entry_entries; destruct (decide (d = a)) as [->|]; [| apply (same_entries f), same_touch].
  rewrite (same_entries f) by apply same_touch; unfold is_directory; rewrite node_at_touch; fold (is_directory f a); by rewrite (rd_directory f Hf).
Qed.
Lemma unlink_pending d name v : (name, v) ∈ pending_of f' d -> (name, v) ∈ pending_of f d \/ d = a /\ name = x /\ v = Some k.
Proof.
  unfold pending_of; rewrite node_at_set_entry; destruct (decide (d = a)) as [->|]; rewrite node_at_touch; [| by left].
  pose proof Hk as Hk'; apply entries_some in Hk' as (e & p & Ea & He); rewrite Ea; cbn; intros H; apply elem_of_cons in H as [H|H]; [| by left].
  right; split_and!; congruence.
Qed.
Lemma unlink_lead d name m : may_lead f' d name m -> may_lead f d name m.
Proof.
  intros [H|H].
  - left; rewrite unlink_entries in H; destruct (decide (d = a)) as [->|]; [by apply lookup_delete_Some in H as [_ ?] | done].
  - apply unlink_pending in H as [H|(-> & -> & [= ->])]; [by right | by left].
Qed.
Lemma unlink_node m v : m <> a -> node_at f m = Some v -> node_at f' m = Some v.
Proof. intros Hm H; by rewrite node_at_set_entry, decide_False, node_at_touch. Qed.
Lemma unlink_durable d name m : (d, name) <> (a, x) -> durable_entry f d name m -> durable_entry f' d name m.
Proof. intros Hne H; apply set_entry_durable; [| done]; apply (same_durable f); [apply same_touch | done]. Qed.
Lemma unlink_directory : is_directory f' a = true.
Proof.
  pose proof (rd_directory f Hf) as H; apply directory_some in H as (e & p & Ea); unfold is_directory.
  by rewrite node_at_set_entry, decide_True, node_at_touch, Ea by done.
Qed.

Lemma ready_unlinked : ready f'.
Proof.
  destruct name_distinct as [N1 N2]; pose proof Hf as []; split; try done.
  - apply unlink_durable; [congruence | done].
  - destruct rd_lock_file0 as (v & Hv & Ht); exists v; split; [| done]; apply unlink_node; [| done]; intros ->.
    apply directory_some in rd_directory0 as (e & p & Ea); rewrite Ea in Hv; injection Hv as <-; done.
  - apply unlink_durable; [congruence | done].
  - apply unlink_directory.
  - intros name v H; apply unlink_pending in H as [H|(_ & -> & _)]; eauto.
  - intros m H; apply unlink_lead in H; auto.
  - intros d name H; apply unlink_lead in H; auto.
  - intros H; apply unlink_lead in H; apply set_entry_file; rewrite node_at_touch; auto.
  - intros name m; rewrite unlink_entries, decide_True by done; intros H; apply lookup_delete_Some in H as [_ H].
    destruct (rd_others0 name m H) as (v & Hv & Hm); rewrite node_at_set_entry; destruct (decide (m = a)) as [->|]; rewrite node_at_touch; [| eauto].
    rewrite Hv; destruct v; cbn; eexists; split; try done.
  - rewrite unlink_entries, decide_True by done; by rewrite (delete_id (delete x _) x) by apply lookup_delete_eq.
Qed.
Lemma unlinked_entry : entries_of f' a !! x = None.
Proof. rewrite unlink_entries, decide_True by done; apply lookup_delete_eq. Qed.

End Unlink.

Lemma ready_unlink t f : ready f -> ready (snd (unlinkat t a x f)).
Proof.
  intros Hf; unfold unlinkat; destruct (lookup_name f a x) as [k| |] eqn:Ek; [| done ..]; destruct (is_directory f k); [done |].
  by apply ready_unlinked; [| apply lookup_name_ok].
Qed.

(** ** Loss of power *)

Lemma survives_lead f f' d name m : survives f f' -> may_lead f' d name m -> may_lead f d name m.
Proof.
  intros Hs [H|H].
  - apply entries_some in H as (e' & p' & E & He); destruct (sv_nodes _ _ Hs d _ E) as (v & Hv & Hn); inversion Hn as [| |e p e0 Hx'| |]; subst.
    destruct (Hx' name) as [E1|E1]; rewrite He in *.
    + left; unfold entries_of; by rewrite Hv.
    + right; unfold pending_of; by rewrite Hv.
  - exfalso; unfold pending_of in H; destruct (node_at f' d) as [[|e' p'| |]|] eqn:E; try (by apply elem_of_nil in H).
    rewrite (survives_directory_pending f f' Hs d e' p' E) in H; by apply elem_of_nil in H.
Qed.
Lemma survives_node f f' m v : survives f f' -> referenced f' m -> node_at f m = Some v -> exists v', node_at f' m = Some v' /\ node_survives v v'.
Proof.
  intros Hs Hr Hv; assert (Hi : is_Some (inodes f !! m)) by (unfold node_at in Hv; by destruct (inodes f !! m)).
  destruct (sv_referenced _ _ Hs m Hr Hi) as [i Ei]; exists (node i); assert (En : node_at f' m = Some (node i)) by (unfold node_at; by rewrite Ei).
  split; [done |]; destruct (sv_nodes _ _ Hs m _ En) as (v0 & Hv0 & Hn); congruence.
Qed.

Lemma ready_survives f f' : ready f -> survives f f' -> ready f'.
Proof.
  intros Hf Hs; pose proof Hf as []; destruct name_distinct as [N1 N2].
  assert (Hr : root f' = Some r) by (destruct (sv_root _ _ Hs) as [->|[? _]]; congruence).
  assert (Hl : durable_entry f' r LIFECYCLE_LOCK_FILE lk) by (apply (survives_entry f f' Hs); [by left | done]).
  assert (Ha : durable_entry f' r (lit "artifacts") a) by (apply (survives_entry f f' Hs); [by left | done]).
  assert (Hra : referenced f' a) by (right; exists r, (lit "artifacts"); by apply durable_entry_some).
  apply directory_some in rd_directory0 as (e & p & Ea).
  destruct (survives_node f f' a _ Hs Hra Ea) as (v' & Ea' & Hn); inversion Hn as [| |e0 p0 e' He'| |]; subst.
  destruct (entries_node _ _ _ _ Ea) as [Een Epe]; destruct (entries_node _ _ _ _ Ea') as [Een' Epe'].
  assert (Hsame : forall name, name <> x -> e' !! name = e !! name).
  { intros name Hne; destruct (He' name) as [?|H]; [done |]; destruct Hne; apply (rd_pending0 name (e' !! name)); by rewrite Epe. }
  split; try done.
  - apply (sv_root_synced _ _ Hs).
  - destruct rd_lock_file0 as (v & Hv & Ht); destruct (survives_node f f' lk v Hs) as (v' & Hv' & Hn'); [| done |].
    + right; exists r, LIFECYCLE_LOCK_FILE; by apply durable_entry_some.
    + exists v'; split; [done |]; by inversion Hn'; subst.
  - unfold is_directory; by rewrite Ea'.
  - intros name v H; rewrite Epe' in H; by apply elem_of_nil in H.
  - intros m H; apply (survives_lead f) in H; auto.
  - intros d name H; apply (survives_lead f) in H; auto.
  - intros H; pose proof H as H'; apply (survives_lead f) in H'; [| done]; specialize (rd_file0 H').
    destruct H as [H|H]; [| rewrite Epe' in H; by apply elem_of_nil in H].
    destruct (survives_node f f' n _ Hs (or_intror (ex_intro _ a (ex_intro _ x H))) rd_file0) as (v & -> & Hv); by inversion Hv.
  - intros name m H; assert (Hm : exists v, node_at f m = Some v /\ measured v).
    { destruct (decide (name = x)) as [->|Hne].
      - assert (Hlead : may_lead f a x m) by (apply (survives_lead f f' a x m Hs); by left); pose proof (rd_name0 m Hlead) as ->.
        specialize (rd_file0 Hlead); destruct Hlead as [Hlead|Hlead]; [by apply (rd_others0 x) |]; by exists (RegularFile c true).
      - apply (rd_others0 name); rewrite Een, <- Hsame, <- Een' by done; done. }
    destruct Hm as (v & Hv & Hm); destruct (survives_node f f' m v Hs) as (v' & Hv' & Hn'); [right; eauto | done |].
    exists v'; split; [done |]; inversion Hn'; subst; [done | by destruct Hm as [? _] | done ..].
  - rewrite Een', Een in *; assert (delete x e' = delete x e) as ->; [| done].
    apply map_eq; intros name; destruct (decide (name = x)) as [->|]; [by rewrite !lookup_delete_eq | rewrite !lookup_delete_ne by done; auto].
Qed.
Lemma gone_survives f f' : gone f -> survives f f' -> gone f'.
Proof. intros H Hs m Hm; by apply (survives_lead f) in Hm; [apply H in Hm |]. Qed.

(** ** What the operations find *)

Lemma ready_layout f : ready f -> layout r lk a f.
Proof.
  intros []; split; [done | | |].
  - destruct rd_lock0 as (e & p & E & _); by exists (DirectoryNode e p).
  - split; [by apply durable_entry_some | done].
  - split; [by apply durable_entry_some |]; apply directory_some in rd_directory0 as (e & p & E); by exists (DirectoryNode e p).
Qed.
Lemma size_delete_bound (e : gmap text Z) : (size e <= S (size (delete x e)))%nat.
Proof.
  destruct (e !! x) as [v|] eqn:E; [| rewrite delete_id by done; lia].
  rewrite <- (insert_id e x v E), <- insert_delete_eq, map_size_insert_None by apply lookup_delete_eq.
  by rewrite (delete_insert_id (delete x e) x v) by apply lookup_delete_eq.
Qed.
Lemma ready_listable f : ready f -> listable a maximum f.
Proof.
  intros []; split; [done | |].
  - intros name m H; destruct (rd_others0 name m H) as (v & Hv & Hm); unfold node_at in Hv; destruct (inodes f !! m) as [i|]; [| done].
    injection Hv as <-; exists i; split; [done |]; destruct (node i); [by destruct Hm | cbn; unfold u64_max; lia ..].
  - pose proof (size_delete_bound (entries_of f a)); lia.
Qed.
Lemma ready_absent f : ready f -> entries_of f a !! x = None -> absent a x f /\ Z.of_nat (size (entries_of f a)) < maximum.
Proof. intros [] H; split; [done |]; by rewrite delete_id in rd_size0. Qed.

(** The file is there. *)
Definition here (f : Fs) : Prop := ready f /\ entries_of f a !! x = Some n.

Lemma here_node f : here f -> node_at f n = Some (RegularFile c true).
Proof. intros [[] H]; apply rd_file0; by left. Qed.
Lemma here_file f : here f -> file_at a x n f.
Proof. intros H; pose proof (here_node f H); destruct H as [[] H]; split_and!; [done | done |]; by exists c, true. Qed.
Lemma here_bytes f : here f -> file_bytes n c f.
Proof. intros H; exists true; by apply here_node. Qed.
Lemma here_links f : here f -> link_count f n = 1.
Proof. intros [[] H]; apply (link_count_one f a x n H); intros d name Hd; apply rd_alias0; by left. Qed.
Lemma here_fsync m f : here f -> here (snd (fsync m f)).
Proof. intros [H1 H2]; split; [by apply ready_fsync | by rewrite fsync_entries]. Qed.

Lemma here_fingerprint f p :
  here f -> fingerprint_of f n p -> MetadataFingerprint.length p = vlen c /\ MetadataFingerprint.has_single_link p = true.
Proof.
  intros H (i & Hi & ->); pose proof (here_node f H) as Hn; unfold node_at in Hn; rewrite Hi in Hn; injection Hn as Hn; split; [cbn; by rewrite Hn |].
  unfold MetadataFingerprint.has_single_link; cbn; by rewrite here_links.
Qed.
(** Synchronizing the directory changes nothing about the file. *)
Lemma here_fingerprint_fsync f p : here f -> fingerprint_of f n p -> fingerprint_of (snd (fsync a f)) n p.
Proof.
  intros H (i & Hi & ->); assert (Hne : a <> n).
  { intros ->; pose proof (here_node f H) as Hn; destruct H as [[] _]; apply directory_some in rd_directory0 as (e & p & E); congruence. }
  pose proof (here_fsync a f H) as H'; exists i; split.
  - unfold fsync; destruct (inodes f !! a); [| done]; cbn; by rewrite lookup_insert_ne.
  - assert (Hd : device (snd (fsync a f)) = device f) by (unfold fsync; by destruct (inodes f !! a)).
    unfold metadata_of; by rewrite Hd, (here_links f H), (here_links _ H').
Qed.

End Ready.
