(* ===== verification/RemovalRetry.v ===== *)
(** * Removal is completed by a retry.

    However often the removal of an artifact failed, was cancelled or was
    interrupted, and whatever a loss of power left, one more attempt in which
    nothing fails removes the file and completes the removal. *)

From S2P Require Import Prelude Text Document Claims Json Extractor Model ModelJson StoreDb ModelStore StoreMonad StoreInv StoreSteps StoreOps StoreTheorems StoreRemoval.
From S2P Require Import FileSystem StorageIo ArtifactStorage ArtifactRemoval StorageFacts StorageSpecs StorageVerify StorageSafety StorageErrors StorageCalm RemovalReady.

(** ** Calm runs *)

(** A program fails with an error and changes nothing. *)
Definition throws {E A} (G : Fs -> Prop) (m : Io E A) (e : E) : Prop :=
  forall env w, calm env -> G (fs w) -> exists w', m env w = (Err e, w') /\ same w w'.

Lemma throws_bind {E A B} (m : Io E A) (g : A -> Io E B) G (F : Fs -> A -> Prop) e :
  gives G m F -> (forall a, throws (fun f => G f /\ F f a) (g a) e) -> throws G (m ≫= g) e.
Proof.
  intros Hm Hg env w Hc Hw; destruct (Hm env w Hc Hw) as (b & w1 & E1 & S1 & Hb); unfold mbind, io_bind; rewrite E1.
  destruct (Hg b env w1 Hc) as (w2 & E2 & S2); [by destruct S1 as [-> _] |]; exists w2; split; [done | by transitivity w1].
Qed.
Lemma gives_attempt_throws {E F A} (m : Io E A) G e : throws G m e -> gives G (attempt (F := F) m) (fun _ r => r = Err e).
Proof. intros H env w Hc Hw; destruct (H env w Hc Hw) as (w' & E1 & S1); exists (Err e), w'; unfold attempt; rewrite E1; done. Qed.

Lemma total_sql {A} (m : Sql A) (P : Fs -> Db -> Prop) (Q : A -> Fs -> Db -> Prop) :
  (forall f d, P f d -> exists x d', pure m d = (Ok x, d') /\ Q x f d') -> total P (sql m) Q.
Proof.
  intros H env w Hc Hw; unfold sql; rewrite calm_ends, calm_sql by done; destruct (H _ _ Hw) as (x & d' & E & Hq); unfold pure in E.
  destruct (m (fun _ => false) (db w, O)) as [r0 [d1 k1]]; cbn in E; injection E as -> ->; done.
Qed.
Lemma total_fsync n (P Q : Fs -> Db -> Prop) :
  (forall f d, P f d -> is_Some (inodes f !! n) /\ Q (snd (fsync n f)) d) -> total P (sync n) (fun _ => Q).
Proof.
  intros H; apply spec_map_error, total_call; intros env k f d _ Hp; destruct (H f d Hp) as [[i Hi] Hq]; exists tt; split; [| done].
  unfold fsync; by rewrite Hi.
Qed.

Section Retry.
Context {SHA : Sha256} {JSON : JsonCodec}.
Context (limits : ArtifactRemovalLimits) (s : StoredArtifactInstallation.t) (r lk a n : Z) (c : bytes).
Abbreviation installed := (StoredArtifactInstallation.installed s).
Abbreviation x := (Digest.as_str (InstalledArtifact.artifact_digest installed)).
Abbreviation key := (selection_key s).
Abbreviation maximum := (rl_maximum_storage_entries limits).
Context (Hlimits : valid_limits (rl_maximum_artifact_bytes limits) maximum = true)
  (Hsmall : InstalledArtifact.byte_size installed <= rl_maximum_artifact_bytes limits)
  (Hrequest : validate_removal_request s = Ok tt) (Hplain : plain_artifact installed)
  (Hlen : vlen c = InstalledArtifact.byte_size installed) (Hsha : sha256 c = InstalledArtifact.artifact_digest installed).

Abbreviation ready := (ready r lk a n x c maximum).
Abbreviation here := (here r lk a n x c maximum).

Lemma name_hex : hex_name x.
Proof. destruct Hplain as [[_ H _] _]; by apply typed_hex. Qed.
Lemma bytes_bound : vlen c <= u64_max.
Proof. rewrite Hlen; destruct Hplain as [[_ _ H] _]; unfold u64_typed in H; lia. Qed.
Lemma name_not_dot : not_dot x = true.
Proof. apply hex_not_dot, name_hex. Qed.
Hint Resolve name_hex bytes_bound name_not_dot : core.

(** ** The phases of a removal *)

Definition untaken (f : Fs) (d : Db) : Prop := installed_at d key installed (selection_epoch s) /\ unbound d s /\ durable_entry f a x n.
Definition prepared (d : Db) : Prop := removal_at d key installed (selection_epoch s) Prepared.
Definition completed (f : Fs) (d : Db) : Prop :=
  removal_at d key installed (selection_epoch s) Completed /\ installed_artifacts d !! key = None /\ gone a x f.

Definition within (phase : Fs -> Db -> Prop) (f : Fs) (d : Db) : Prop := inv d /\ ready f /\ phase f d.
Definition removing (f : Fs) (d : Db) : Prop := untaken f d \/ prepared d.
Definition stage : Fs -> Db -> Prop := within (fun f d => removing f d \/ completed f d).

Lemma prepared_absent d : inv d -> prepared d -> installed_artifacts d !! key = None.
Proof. intros Hd Hp; by apply (removing_row d _ _ _ Hd Hp). Qed.
Lemma removing_fsync m f d : removing f d -> removing (snd (fsync m f)) d.
Proof. intros [(H1 & H2 & H3)|H]; [left; split_and!; try done; by apply fsync_durable | by right]. Qed.
Lemma within_fsync (phase : Fs -> Db -> Prop) :
  (forall m f d, phase f d -> phase (snd (fsync m f)) d) -> sync_closed (within phase).
Proof. intros H m f d (H1 & H2 & H3); split_and!; [done | by apply ready_fsync | auto]. Qed.

(** A loss of power. *)
Lemma stage_survives f f' d : stage f d -> survives f f' -> stage f' d.
Proof.
  intros (H1 & H2 & H3) Hs; split_and!; [done | by apply (ready_survives _ _ _ _ _ _ _ name_hex bytes_bound f) |].
  destruct H3 as [[(A1 & A2 & A3)|H]|(A1 & A2 & A3)]; [left; left; split_and!; try done | by left; right | right; split_and!; [done | done | by apply (gone_survives _ _ f)]].
  apply (survives_entry f f' Hs); [| done]; right; exists r, (lit "artifacts"); apply durable_entry_some.
  apply (survives_entry f f' Hs); [left; destruct (sv_root _ _ Hs) as [->|[E _]]; [apply H2 | rewrite (rd_synced _ _ _ _ _ _ _ _ H2) in E; done] | apply H2].
Qed.

(** ** Every run stays within the phases *)

Definition keeps {E A} (P : Fs -> Db -> Prop) (m : Io E A) (Q : A -> Fs -> Db -> Prop) : Prop :=
  spec anyway P m Q (fun _ => stage) stage.

Lemma keeps_looks {E A} (m : Io E A) (P : Fs -> Db -> Prop) : looks m -> (forall f d, P f d -> stage f d) -> keeps P m (fun _ => P).
Proof. intros Hm HP; apply spec_looks; [done | by intros e f d; apply HP | done]. Qed.
Lemma keeps_then {E A B} (m : Io E A) (g : A -> Io E B) (P : Fs -> Db -> Prop) Q :
  looks m -> (forall f d, P f d -> stage f d) -> (forall b, keeps P (g b) Q) -> keeps P (m ≫= g) Q.
Proof. intros Hm HP Hg; eapply spec_bind; [by apply keeps_looks | done]. Qed.
Lemma keeps_raise {E A} (e : E) (P : Fs -> Db -> Prop) (Q : A -> Fs -> Db -> Prop) : (forall f d, P f d -> stage f d) -> keeps P (raise e) Q.
Proof. intros HP; apply spec_raise; auto. Qed.

Lemma stage_removing f d : within removing f d -> stage f d.
Proof. intros (H1 & H2 & H3); split_and!; [done | done | by left]. Qed.
Lemma stage_prepared f d : within (fun _ => prepared) f d -> stage f d.
Proof. intros (H1 & H2 & H3); split_and!; [done | done | by left; right]. Qed.
Lemma stage_completed f d : within completed f d -> stage f d.
Proof. intros (H1 & H2 & H3); split_and!; [done | done | by right]. Qed.
Hint Resolve stage_removing stage_prepared stage_completed : core.

(** The state that is read says which phase it is. *)
Lemma state_phase f d oi orm om :
  stage f d -> loaded d (InstalledArtifact.artifact_id installed) om oi orm ->
  if removal_in Completed s orm then within completed f d else within removing f d.
Proof.
  intros (Hd & Hf & Hp) Hl; destruct Hp as [Hp|Hp].
  - assert (removal_in Completed s orm = false) as ->; [| done]; destruct Hp as [(Hi & _)|Hr].
    + destruct orm as [[s' p]|]; [| done]; unfold removal_in; cbn; by rewrite bool_decide_eq_false_2 by (by apply (loaded_earlier s d Hd om oi _ Hl)).
    + rewrite (loaded_removal s d om oi orm Prepared Hl Hr); unfold removal_in; cbn; by rewrite andb_false_r.
  - pose proof Hp as [Hr _]; rewrite (loaded_removal s d om oi orm Completed Hl Hr); unfold removal_in; cbn; by rewrite !bool_decide_eq_true_2.
Qed.
Lemma keeps_state :
  keeps stage (map_error removal_store_error (sql (artifact_removal_state (InstalledArtifact.artifact_id installed))))
    (fun o f d => if removal_in Completed s (snd o) then within completed f d else within removing f d).
Proof.
  apply spec_map_error, spec_sql; [apply tame_state | apply atomic_state | done | done |].
  intros f d o d' Hs H; pose proof Hs as [Hd _]; destruct (state_total (InstalledArtifact.artifact_id installed) d Hd) as (om & oi & orm & Hl & E).
  rewrite E in H; injection H as <- <-; by apply (state_phase f d oi orm om).
Qed.

Lemma keeps_prepare sv :
  keeps (within removing) (prepare_state sv s) (fun w f d => w <> PreparationAlreadyCompleted /\ within (fun _ => prepared) f d).
Proof.
  unfold prepare_state; apply keeps_then; [unfold exclusive_lifecycle_lock; looks | auto |]; intros u.
  destruct tame_operations as (_ & _ & _ & _ & _ & _ & H7 & _).
  apply spec_map_error, spec_sql; [apply H7 | apply atomic_removal | auto | auto |].
  intros f d w d' (Hd & Hf & Hp) H; destruct (prepare_rows _ _ _ _ Hd H) as (Hd' & _ & _); apply prepare_changes in H as (p & Hr & H); [| done].
  destruct w; [destruct H as (_ & -> & _) | destruct H as [_ ->] | exfalso]; [done .. |]; destruct H as [-> ->].
  destruct Hp as [((row & Ei & _ & He & _) & _)|Hp]; [| by destruct (removal_at_fun _ _ _ _ _ _ _ _ Hr Hp) as (_ & _ & ?)].
  destruct (inv_installed d Hd _ _ Ei) as [Hx _]; destruct Hr as (rrow & Er & _ & Hre & _); rewrite Er in Hx; destruct Hx; lia.
Qed.

(** Unlinking and confirming the absence. *)
Definition unlinked (f : Fs) (d : Db) : Prop := within (fun _ => prepared) f d /\ entries_of f a !! x = None.

Lemma keeps_unlink : keeps (within (fun _ => prepared)) (remove_file a x) (fun _ => unlinked).
Proof.
  assert (Hu : forall t f d, within (fun _ => prepared) f d -> within (fun _ => prepared) (snd (unlinkat t a x f)) d).
  { intros t f d (H1 & H2 & H3); split_and!; [done | by apply ready_unlink | done]. }
  apply spec_map_error, spec_call; [auto | auto | intros; by apply stage_prepared, Hu |].
  intros env k f d Hp; specialize (Hu (now env k) f d Hp); destruct Hp as (_ & Hf & _).
  unfold unlinkat in *; destruct (lookup_name f a x) as [m| |] eqn:E; [| done | auto].
  destruct (is_directory f m); [done |]; split; [done |]; apply lookup_name_ok in E; by apply (unlinked_entry r lk a n x c maximum).
Qed.
Lemma keeps_recheck_remove v :
  keeps (within (fun _ => prepared)) (recheck_and_remove v a x maximum) (fun _ => unlinked).
Proof.
  unfold recheck_and_remove; apply keeps_then; [auto with io | auto |]; intros p; destruct (_ || _); [by apply keeps_raise; auto |].
  unfold remove_held_managed_file; apply keeps_then; [auto with io | auto |]; intros p1; destruct (_ || _); [by apply keeps_raise; auto |].
  apply keeps_then; [auto with io | auto |]; intros o; apply keeps_then; [auto with io | auto |]; intros m; destruct (negb _); [by apply keeps_raise; auto |].
  eapply spec_bind with (Q := fun _ => unlinked).
  - unfold remove_verified_file; do 2 (apply keeps_then; [auto with io | auto |]; intros ?); destruct (negb _); [by apply keeps_raise; auto | apply keeps_unlink].
  - intros u; apply keeps_then; [auto with io | by intros f d []; auto |]; intros [y|]; [apply keeps_raise; by intros f d []; auto | by apply spec_ret].
Qed.

Lemma keeps_complete :
  keeps (within (fun f d => prepared d /\ gone a x f)) (sql (complete_artifact_removal s)) (fun _ => within completed).
Proof.
  destruct tame_operations as (_ & _ & _ & _ & _ & _ & _ & H8 & _).
  assert (Hst : forall f d, within (fun f d => prepared d /\ gone a x f) f d -> stage f d) by (intros f d (H1 & H2 & H3 & _); split_and!; [done | done | by left; right]).
  apply spec_sql; [apply H8 | apply atomic_removal | auto | auto |].
  intros f d w d' (Hd & Hf & Hp & Hg) H; pose proof (prepared_absent d Hd Hp) as Hn; apply complete_changes in H as (_ & Hr & H); [| done].
  destruct w; [destruct H as (Hc & Hi & _) | subst d'; by destruct (removal_at_fun _ _ _ _ _ _ _ _ Hp Hr) as (_ & _ & ?)].
  split; [by apply (inv_change d) |]; split; [done |]; split_and!; [done | by rewrite Hi | done].
Qed.

Lemma keeps_finish sv v :
  es_artifacts (rs_storage sv) = a -> rs_limits sv = limits ->
  keeps (within (fun _ => prepared)) (finish_prepared sv x s v) (fun _ => within completed).
Proof.
  intros Ha Hl; unfold finish_prepared; cbv zeta; rewrite Ha, Hl.
  assert (Hst : forall f d, within (fun f d => prepared d /\ gone a x f) f d -> stage f d) by (intros f d (H1 & H2 & H3 & _); split_and!; [done | done | by left; right]).
  eapply spec_bind with (Q := fun _ => within (fun f d => prepared d /\ gone a x f)).
  - apply spec_map_error; eapply spec_bind with (Q := fun _ => unlinked).
    { destruct v as [v|]; [apply spec_map_error, keeps_recheck_remove |].
      eapply spec_weaken; [apply spec_yields; [by apply yields_absent | by intros e; apply stage_prepared | apply stage_prepared] | by intros f d H; exact H | by intros]. }
    intros u; eapply spec_bind with (Q := fun _ => within (fun f d => prepared d /\ gone a x f)).
    + apply spec_map_error, spec_map_error, spec_sync_all; [by intros f d [? _]; auto | by intros e f d [? _]; auto | |].
      * intros e f d [H _]; apply stage_prepared; by apply (within_fsync (fun _ => prepared)).
      * intros f d [(H1 & H2 & H3) H4]; split_and!; [done | by apply ready_fsync | done |]; apply fsync_gone; [apply H2 | done].
    + intros u1; apply keeps_looks; [looks | done].
  - intros u; apply keeps_then; [unfold exclusive_lifecycle_lock; looks | done |]; intros u1.
    eapply spec_bind; [apply spec_map_error, keeps_complete |]; intros w; by apply spec_ret.
Qed.

Lemma keeps_verify sv token recovering :
  keeps (within removing) (verify_removal sv x s token recovering) (fun _ => within removing).
Proof.
  unfold verify_removal; cbv zeta; apply keeps_then; [destruct recovering; looks; apply looks_report | auto |]; intros u.
  eapply spec_bind with (Q := fun _ => within removing).
  - eapply spec_weaken; [apply spec_attempt with (P := within removing) (R' := fun _ => within removing); apply spec_verify | by intros |].
    + apply within_fsync, removing_fsync.
    + intros k; destruct recovering; [apply looks_ret | apply looks_report].
    + auto.
    + done.
    + intros [v|e|] f d; [by intros [] | done | done].
  - intros [v|e|]; [by apply spec_ret | | by apply spec_value; auto]; destruct e; try (apply keeps_raise; auto); destruct recovering; [by apply spec_ret | apply keeps_raise; auto].
Qed.

Lemma keeps_remove sv :
  es_artifacts (rs_storage sv) = a -> rs_limits sv = limits ->
  keeps stage (remove sv s) (fun res f d => rr_selection res = s /\ within completed f d).
Proof.
  intros Ha Hl; unfold remove; cbv zeta; rewrite Hrequest; eapply spec_bind with (Q := fun _ => stage); [by apply spec_value |]; intros u.
  apply keeps_then; [apply looks_map_error; auto with io | done |]; intros u1; eapply spec_bind; [apply keeps_state |]; intros [current removal]; cbn [snd].
  destruct (removal_in Completed s removal); [by apply spec_ret |].
  destruct (_ <? _); [destruct (removal_in Prepared s removal); apply keeps_raise; auto |]; destruct (_ && _); [apply keeps_raise; auto |].
  apply keeps_then; [destruct (removal_in _ _ _); unfold not_cancelled, report_removal; looks | auto |]; intros u2.
  eapply spec_bind; [apply spec_map_error, keeps_verify |]; intros v.
  apply keeps_then; [destruct (removal_in _ _ _); unfold not_cancelled, report_removal, recheck_for_removal; looks | auto |]; intros u3.
  eapply spec_bind; [apply keeps_prepare |]; intros w; apply spec_pure; intros Hw.
  destruct w; [| | done]; (eapply spec_bind; [by apply keeps_finish |]; intros u4; by apply spec_ret).
Qed.

Lemma yields_open_storage mode : yields (open_storage mode) (fun f st =>
  root f = Some (es_root st) /\ entries_of f (es_root st) !! lit "artifacts" = Some (es_artifacts st)).
Proof.
  unfold open_storage; do 2 (apply yields_then; [unfold open_existing_directory; looks |]; intros ?).
  apply yields_then; [unfold open_lock_file; looks |]; intros [lk' p]; apply yields_then; [destruct mode; unfold lock_storage; looks |]; intros ex.
  apply yields_then; [unfold open_child_directory; looks |]; intros a'; cbv zeta.
  eapply yields_bind; [apply yields_layout |]; intros u; by apply yields_ret.
Qed.

Lemma keeps_remove_selection :
  keeps stage (remove_selection limits s) (fun res f d => rr_selection res = s /\ within completed f d).
Proof.
  unfold remove_selection, open_removal; rewrite Hlimits; cbn [negb].
  eapply spec_bind with (Q := fun sv f d => (es_artifacts (rs_storage sv) = a /\ rs_limits sv = limits) /\ stage f d).
  - eapply spec_bind; [apply spec_yields; [apply yields_map_error, yields_open_storage | done | done] |]; intros st.
    apply spec_ret; intros f d [Hs [Hr He]]; split; [| done]; split; [| done]; cbn; destruct Hs as (_ & Hf & _).
    pose proof (rd_root _ _ _ _ _ _ _ _ Hf) as Hr'; pose proof (durable_entry_some _ _ _ _ (rd_artifacts _ _ _ _ _ _ _ _ Hf)); congruence.
  - intros sv; apply spec_pure; intros [H1 H2]; by apply keeps_remove.
Qed.

(** ** A run in which nothing fails *)

Abbreviation expectation := {| ea_byte_size := InstalledArtifact.byte_size installed; ea_digest := InstalledArtifact.artifact_digest installed;
  ea_maximum_entries := maximum |}.

Lemma total_then {E A B} (m : Io E A) (g : A -> Io E B) (P : Fs -> Db -> Prop) (G : Fs -> Prop) (F : Fs -> A -> Prop) Q :
  gives G m F -> (forall f d, P f d -> G f) -> (forall b, total (fun f d => P f d /\ F f b) (g b) Q) -> total P (m ≫= g) Q.
Proof. intros Hm HP Hg; eapply spec_bind; [by apply (total_gives m P G F) | done]. Qed.
Lemma total_skip {E A B} (m : Io E A) (g : A -> Io E B) (P : Fs -> Db -> Prop) (G : Fs -> Prop) (F : Fs -> A -> Prop) Q :
  gives G m F -> (forall f d, P f d -> G f) -> (forall b, total P (g b) Q) -> total P (m ≫= g) Q.
Proof. intros Hm HP Hg; eapply total_then; [done | done |]; intros b; eapply spec_weaken; [apply Hg | by intros f d [] | done]. Qed.

Lemma here_listed f : here f -> listable a maximum f /\ file_at a x n f.
Proof. intros H; split; [by eapply ready_listable; destruct H | by apply (here_file r lk a n x c maximum bytes_bound)]. Qed.
Lemma here_inode f : here f -> is_Some (inodes f !! n) /\ is_Some (inodes f !! a).
Proof.
  intros H; split; [pose proof (here_node _ _ _ _ _ _ _ _ H) as Hn | pose proof (rd_directory _ _ _ _ _ _ _ _ (proj1 H)) as Hn; apply directory_some in Hn as (e & p & Hn)];
    unfold node_at in Hn; [destruct (inodes f !! n) | destruct (inodes f !! a)]; eauto; done.
Qed.

(** The file with a fingerprint that was taken of it. *)
Definition printed (D : Db -> Prop) (p : MetadataFingerprint.t) (f : Fs) (d : Db) : Prop := here f /\ D d /\ fingerprint_of f n p.

Lemma gives_file_print : gives here (io (MetadataFingerprint.from_file n)) (fun f q => fingerprint_of f n q).
Proof. apply gives_map_error; eapply gives_pre; [apply gives_fingerprint |]; intros f H; by apply here_inode in H as [? _]. Qed.

Lemma total_reprint {E A} (D : Db -> Prop) p (m : Io E MetadataFingerprint.t) (k : MetadataFingerprint.t -> Io E A) Q :
  gives here m (fun f q => fingerprint_of f n q) -> total (printed D p) (k p) Q -> total (printed D p) (m ≫= k) Q.
Proof.
  intros Hm H; eapply total_then; [apply Hm | by intros f d [] |].
  intros q; eapply spec_weaken with (P := fun f d => q = p /\ printed D p f d); [apply spec_pure; by intros -> | | by intros].
  intros f d [(H1 & H2 & H3) H4]; split; [by eapply fingerprint_fun | done].
Qed.
Lemma printed_links D p f d : printed D p f d -> MetadataFingerprint.has_single_link p = true /\ MetadataFingerprint.length p = vlen c.
Proof. intros (H1 & _ & H2); by destruct (here_fingerprint _ _ _ _ _ _ _ _ _ H1 H2). Qed.

Lemma total_verify D token progress :
  (forall k G, gives G (progress k) (fun _ _ => True)) ->
  total (fun f d => here f /\ D d) (verify_exact_artifact_with a x expectation token progress RemovalMode)
    (fun v f d => vm_file v = n /\ printed D (vm_fingerprint v) f d).
Proof.
  intros Hp; unfold verify_exact_artifact_with; cbn [ea_byte_size ea_digest ea_maximum_entries].
  eapply total_then; [apply gives_map_error, (gives_open_present a x n); auto | by intros f d [H _]; apply here_listed |]; intros o.
  eapply spec_bind with (Q := fun m f d => (mf_file m = n /\ mf_byte_size m = vlen c /\ MetadataFingerprint.has_single_link (mf_fingerprint m) = true) /\
    printed D (mf_fingerprint m) f d).
  { apply spec_value; intros f d [[Hh Hd] (m & -> & (He & Ht & Hf & Hb))]; cbn [ok_or]; pose proof Hh as [_ He'].
    assert (mf_file m = n) as Em by congruence; rewrite Em in Hf; assert (Hpr : printed D (mf_fingerprint m) f d) by done.
    destruct (printed_links _ _ _ _ Hpr); split; [split_and!; congruence | done]. }
  intros m; apply spec_pure; intros (Em & Eb & El); rewrite Eb, Hlen, Z.eqb_refl, El, Em; cbn [negb]; cbv zeta; rewrite <- Hlen.
  eapply total_then; [apply gives_attempt, (gives_hash n token progress c bytes_bound Hp) | intros f d [H _]; by apply (here_bytes _ _ _ _ _ _ _ _ H) |].
  intros o'; eapply spec_weaken with (P := fun f d => o' = Ok (sha256 c) /\ printed D (mf_fingerprint m) f d);
    [apply spec_pure; intros -> | by intros f d [? (d' & -> & ->)] | by intros v f d H; exact H].
  apply total_reprint; [apply gives_map_error, gives_file_print |]; rewrite bool_decide_eq_true_2, El by done; cbn [negb orb]; eapply spec_bind with (Q := fun d' f d => d' = sha256 c /\ printed D (mf_fingerprint m) f d).
  { by apply spec_value. }
  intros d'; apply spec_pure; intros ->; rewrite bool_decide_eq_true_2 by done; cbn [negb].
  eapply total_skip; [apply gives_ret with (G := fun _ => True) (F := fun _ _ => True); done | done |]; intros u.
  eapply total_skip; [apply gives_map_error, (gives_recheck a x n); auto | intros f d (H1 & _ & H2); split; [by apply here_listed | exact H2] |]; intros u1.
  eapply spec_bind with (Q := fun _ => printed D (mf_fingerprint m)).
  - apply spec_map_error, total_fsync; intros f d (H1 & H2 & H3); split; [by apply here_inode in H1 as [_ ?] |].
    split_and!; [by apply here_fsync | done | by apply (here_fingerprint_fsync r lk a n x c maximum)].
  - intros u2; by apply spec_ret.
Qed.

(** A fingerprint of the file says that it has one link. *)
Lemma total_single {E A} D p (m : Io E A) Q : (MetadataFingerprint.has_single_link p = true -> total (printed D p) m Q) -> total (printed D p) m Q.
Proof.
  intros H; eapply spec_weaken with (P := fun f d => MetadataFingerprint.has_single_link p = true /\ printed D p f d); [by apply spec_pure | | by intros].
  intros f d Hp; split; [by apply printed_links in Hp as [? _] | done].
Qed.

Lemma total_recheck D v :
  vm_file v = n -> total (printed D (vm_fingerprint v)) (recheck_for_removal v a x maximum) (fun _ => printed D (vm_fingerprint v)).
Proof.
  intros Hv; unfold recheck_for_removal; rewrite Hv; apply total_single; intros El; apply total_reprint; [apply gives_file_print |].
  rewrite bool_decide_eq_true_2, El by done; cbn [negb orb]; eapply spec_weaken;
    [eapply total_gives; [apply (gives_recheck a x n); auto |] | by intros f d H; exact H | by intros u f d [H _]].
  intros f d (H1 & _ & H2); split; [by apply here_listed | exact H2].
Qed.

(** The file is gone, the directory may not be synchronized. *)
Definition cleared (D : Db -> Prop) (f : Fs) (d : Db) : Prop := ready f /\ entries_of f a !! x = None /\ D d.

Lemma total_unlink D : total (fun f d => here f /\ D d) (remove_file a x) (fun _ => cleared D).
Proof.
  apply spec_map_error, total_call; intros env k f d _ [Hh Hd]; pose proof (here_node _ _ _ _ _ _ _ _ Hh) as Hn; pose proof Hh as [Hr He]; exists tt.
  rewrite (unlink_shape a x (now env k) f n); [| unfold lookup_name; by rewrite (rd_directory _ _ _ _ _ _ _ _ Hr), He | unfold is_directory; by rewrite Hn].
  split; [done |]; split_and!; [by apply (ready_unlinked r lk a n x c maximum name_hex) | by apply (unlinked_entry r lk a n x c maximum) | done].
Qed.
Lemma total_recheck_remove D v :
  vm_file v = n -> total (printed D (vm_fingerprint v)) (recheck_and_remove v a x maximum) (fun _ => cleared D).
Proof.
  intros Hv; unfold recheck_and_remove; rewrite Hv; apply total_single; intros El; apply total_reprint; [apply gives_file_print |].
  rewrite bool_decide_eq_true_2, El by done; cbn [negb orb]; unfold remove_held_managed_file; apply total_reprint; [apply gives_file_print |].
  rewrite bool_decide_eq_true_2, El by done; cbn [negb orb].
  eapply total_then; [apply (gives_open_present a x n); auto | by intros f d [H _]; apply here_listed |]; intros o.
  eapply spec_bind with (Q := fun m f d => mf_fingerprint m = vm_fingerprint v /\ printed D (vm_fingerprint v) f d).
  { apply spec_value; intros f d [Hp (m & -> & (He & _ & Hf & _))]; cbn [ok_or]; split; [| done]; destruct Hp as ([_ He'] & _ & Hf').
    assert (mf_file m = n) as Em by congruence; rewrite Em in Hf; by eapply fingerprint_fun. }
  intros m; apply spec_pure; intros ->; rewrite bool_decide_eq_true_2 by done; cbn [negb]; eapply spec_bind with (Q := fun _ => cleared D).
  - unfold remove_verified_file; apply total_reprint; [apply gives_file_print |]; apply total_reprint.
    { eapply gives_pre; [apply (gives_child_file a x n) |]; intros f H; apply file_at_leads, (here_file r lk a n x c maximum bytes_bound f H). }
    unfold MetadataFingerprint.same_identity; rewrite !Z.eqb_refl; cbn [andb negb].
    eapply spec_weaken; [apply total_unlink | by intros f d (H1 & H2 & _) | by intros].
  - intros u; eapply total_then; [apply (gives_by_name_absent a x) | intros f d (H1 & H2 & _); by apply (ready_absent r lk a n x c maximum) in H2 as [? _] |].
    intros o1; eapply spec_weaken with (P := fun f d => o1 = None /\ cleared D f d); [apply spec_pure; intros -> | by intros f d [] | by intros y f d H; exact H].
    by apply spec_ret.
Qed.

(** The end of a removal that was prepared. *)
Lemma cleared_layout D f d : cleared D f d -> layout r lk a f.
Proof. intros [H _]; by apply (ready_layout _ _ _ _ _ _ _ _ H). Qed.

Abbreviation service := {| rs_storage := storage_at r lk a; rs_limits := limits |}.
Abbreviation prepared_db := (fun d => inv d /\ prepared d).

Lemma total_finish (P : Fs -> Db -> Prop) v :
  total P match v with
          | Some v => map_error annotate_storage_error (recheck_and_remove v a x maximum)
          | None => confirm_managed_file_absent a x maximum
          end (fun _ => cleared prepared_db) ->
  total P (finish_prepared service x s v) (fun _ _ _ => True).
Proof.
  intros H; unfold finish_prepared; cbv zeta; cbn [rs_storage rs_limits storage_at es_artifacts]; eapply spec_bind with (Q := fun _ => cleared prepared_db).
  - apply spec_map_error; eapply spec_bind; [exact H |]; intros u; eapply spec_bind with (Q := fun _ => cleared prepared_db).
    + apply spec_map_error, total_fsync; intros f d (H1 & H2 & H3); split.
      * pose proof (rd_directory _ _ _ _ _ _ _ _ H1) as Hn; apply directory_some in Hn as (e & p & Hn); unfold node_at in Hn; by destruct (inodes f !! a).
      * split; [by apply ready_fsync | split; [by rewrite fsync_entries | exact H3]].
    + intros u1; eapply total_skip; [apply gives_map_error, gives_layout | apply cleared_layout |]; intros u2; by apply spec_ret.
  - intros u; eapply total_skip; [apply gives_ret with (G := fun _ => True) (F := fun _ _ => True); done | done |]; intros u1.
    eapply spec_bind with (Q := fun _ _ _ => True); [| intros; by apply spec_ret]; apply spec_map_error, total_sql.
    intros f d (_ & _ & Hd & Hp); destruct (complete_total s d Hd Hplain Hp (prepared_absent d Hd Hp)) as [d' E]; eauto.
Qed.

(** Verifying the file that is there, and finding that it is not. *)
Lemma gives_report_removal {E} stage' completed' total' G : gives (E := E) G (report_removal stage' completed' total') (fun _ _ => True).
Proof. apply gives_report. Qed.
Lemma gives_progress {E} (recovering : bool) stage' completed' total' G :
  gives (E := E) G (if recovering then mret tt else report_removal stage' completed' total') (fun _ _ => True).
Proof. destruct recovering; [by apply gives_ret | apply gives_report]. Qed.

Lemma total_verify_removal D token recovering :
  total (fun f d => here f /\ D d) (verify_removal service x s token recovering)
    (fun o f d => exists v, (o = Some v /\ vm_file v = n) /\ printed D (vm_fingerprint v) f d).
Proof.
  unfold verify_removal; cbv zeta; cbn [rs_storage rs_limits storage_at es_artifacts].
  eapply total_skip; [apply (gives_progress _ _ _ _ (fun _ => True)) | done |]; intros u.
  eapply spec_bind; [apply spec_attempt, total_verify; intros k G; apply gives_progress |]; intros [v|e|]; cbn beta match.
  - apply spec_ret; intros f d [H1 H2]; by exists v.
  - by intros env w _ [].
  - by intros env w _ [].
Qed.

Abbreviation missing := (fun f => listable a maximum f /\ absent a x f /\ Z.of_nat (size (entries_of f a)) < maximum).
Lemma gives_verify_missing token : gives missing (verify_removal service x s token true) (fun _ o => o = None).
Proof.
  unfold verify_removal; cbv zeta; cbn [rs_storage rs_limits storage_at es_artifacts].
  eapply gives_then; [apply (gives_progress true ArtifactRemovalStage.VerifyingInactiveBytes 0 0) |]; intros u.
  eapply gives_bind; [apply (gives_attempt_throws _ _ Missing) |].
  - unfold verify_exact_artifact_with; cbn [ea_maximum_entries]; eapply throws_bind; [apply gives_map_error, (gives_open_absent a x); auto |].
    intros o env w Hc [_ ->]; exists w; split; [done | done].
  - intros o; cbn beta; apply gives_pure; intros ->; by apply gives_ret.
Qed.

(** ** Each phase *)

Definition at_installed (f : Fs) (d : Db) : Prop := here f /\ inv d /\ installed_at d key installed (selection_epoch s) /\ unbound d s.
Definition at_prepared (f : Fs) (d : Db) : Prop := here f /\ inv d /\ prepared d.

Lemma total_prepare (D : Db -> Prop) (F : Fs -> Prop) :
  (forall d, D d -> exists w d', pure (prepare_artifact_removal s) d = (Ok w, d') /\ w <> PreparationAlreadyCompleted /\ inv d' /\ prepared d') ->
  total (fun f d => F f /\ D d) (prepare_state service s) (fun w f d => w <> PreparationAlreadyCompleted /\ F f /\ inv d /\ prepared d).
Proof.
  intros H; unfold prepare_state; eapply total_skip; [apply gives_ret with (G := fun _ => True) (F := fun _ _ => True); done | done |]; intros u.
  apply spec_map_error, total_sql; intros f d [Hf Hd]; destruct (H d Hd) as (w & d' & E & H1 & H2 & H3); exists w, d'; split; [exact E | by split_and!].
Qed.
Lemma prepare_installed d :
  inv d /\ installed_at d key installed (selection_epoch s) /\ unbound d s ->
  exists w d', pure (prepare_artifact_removal s) d = (Ok w, d') /\ w <> PreparationAlreadyCompleted /\ inv d' /\ prepared d'.
Proof.
  intros (Hd & Hi & Hu); destruct (prepare_total s d Hd Hplain Hi Hu) as [d' E]; exists PreparationPrepared, d'; split; [done |]; split; [done |].
  split; [by apply prepare_rows in E as [? _] |]; apply prepare_changes in E as (p & Hr & _ & -> & _); done.
Qed.
Lemma prepare_prepared d :
  inv d /\ prepared d -> exists w d', pure (prepare_artifact_removal s) d = (Ok w, d') /\ w <> PreparationAlreadyCompleted /\ inv d' /\ prepared d'.
Proof. intros [Hd Hp]; exists PreparationAlreadyPrepared, d; split; [by apply (prepare_again s d Hd Hp), prepared_absent | done]. Qed.

(** What the state says in each phase. *)
Lemma total_state (P : Fs -> Db -> Prop) (expected : option StoredArtifactInstallation.t -> option StoredArtifactRemoval.t -> Prop) :
  (forall f d om oi orm, P f d -> loaded d (InstalledArtifact.artifact_id installed) om oi orm -> expected oi orm) -> (forall f d, P f d -> inv d) ->
  total P (map_error removal_store_error (sql (artifact_removal_state (InstalledArtifact.artifact_id installed))))
    (fun o f d => expected (fst o) (snd o) /\ P f d).
Proof.
  intros H HP; apply spec_map_error, total_sql; intros f d Hp; destruct (state_total (InstalledArtifact.artifact_id installed) d (HP _ _ Hp)) as (om & oi & orm & Hl & E).
  exists (oi, orm), d; split; [done |]; cbn; split; eauto.
Qed.

Lemma size_allowed : (rl_maximum_artifact_bytes limits <? InstalledArtifact.byte_size installed) = false.
Proof. by apply Z.ltb_ge. Qed.

(** The beginning of [remove], the same in every phase. *)
Lemma total_remove (P : Fs -> Db -> Prop) (expected : option StoredArtifactInstallation.t -> option StoredArtifactRemoval.t -> Prop)
    (finish : bool) Q :
  (forall f d om oi orm, P f d -> loaded d (InstalledArtifact.artifact_id installed) om oi orm -> expected oi orm) ->
  (forall f d, P f d -> inv d /\ layout r lk a f) ->
  (forall current removal, expected current removal ->
    removal_in Completed s removal = false /\ removal_in Prepared s removal = finish /\ (finish = false -> current = Some s)) ->
  total P (verified ← map_error (fun e => if finish then map_prepared_error e else e)
             (verify_removal service x s (if finish then FreshToken else CallerToken) finish);
           _ ← (if finish then mret tt
                else
                  _ ← report_removal ArtifactRemovalStage.PreparingRemoval 0 (InstalledArtifact.byte_size installed);
                  _ ← not_cancelled;
                  _ ← map_error removal_storage_error (validate_layout (storage_at r lk a));
                  match verified with
                  | Some verified => map_error removal_storage_error (recheck_for_removal verified a x maximum)
                  | None => mret tt
                  end);
           prepared ← prepare_state service s;
           match prepared with
           | PreparationAlreadyCompleted => mret {| rr_selection := s; rr_disposition := AlreadyRemoved |}
           | _ =>
               _ ← finish_prepared service x s verified;
               mret {| rr_selection := s; rr_disposition := if finish then Recovered else Removed |}
           end) Q ->
  total P (remove service s) Q.
Proof.
  intros H1 H2 H3 Ht; unfold remove; cbv zeta; rewrite Hrequest; cbn [rs_storage rs_limits]; rewrite size_allowed.
  eapply spec_bind with (Q := fun _ => P); [by apply spec_value |]; intros u.
  eapply total_skip; [apply gives_map_error, gives_layout | by intros f d H; apply H2 in H as [_ H] |]; intros u1.
  eapply spec_bind; [apply (total_state P expected); [done |]; by intros f d H; apply H2 in H as [H _] |]; intros [current removal]; cbn [fst snd].
  apply spec_pure; intros Hx; destruct (H3 current removal Hx) as (-> & -> & Hcur).
  assert (negb finish && negb (bool_decide (current = Some s)) = false) as ->.
  { destruct finish; [done |]; by rewrite (Hcur eq_refl), bool_decide_eq_true_2. }
  eapply total_skip with (G := fun _ => True) (F := fun _ _ => True); [| done | intros u2; exact Ht].
  destruct finish; [by apply gives_ret |]; do 2 (eapply gives_then; [apply gives_token || apply gives_report |]; intros ?); apply gives_token.
Qed.

(** The end of [remove], once the removal is prepared. *)
Lemma total_rest (P : Fs -> Db -> Prop) (D : Db -> Prop) (F : Fs -> Prop) v finish :
  (forall d, D d -> exists w d', pure (prepare_artifact_removal s) d = (Ok w, d') /\ w <> PreparationAlreadyCompleted /\ inv d' /\ prepared d') ->
  (forall f d, P f d -> F f /\ D d) ->
  total (fun f d => F f /\ inv d /\ prepared d) (finish_prepared service x s v) (fun _ _ _ => True) ->
  total P (prepared ← prepare_state service s;
           match prepared with
           | PreparationAlreadyCompleted => mret {| rr_selection := s; rr_disposition := AlreadyRemoved |}
           | _ => _ ← finish_prepared service x s v; mret {| rr_selection := s; rr_disposition := finish |}
           end) (fun _ _ _ => True).
Proof.
  intros HD HP Hf; eapply spec_bind; [eapply spec_weaken; [apply (total_prepare D F HD) | exact HP | by intros w f d H; exact H] |]; intros w; apply spec_pure; intros Hw.
  destruct w; [| | done]; (eapply spec_bind; [exact Hf | intros; by apply spec_ret]).
Qed.

Abbreviation installed_db := (fun d => inv d /\ installed_at d key installed (selection_epoch s) /\ unbound d s).

Lemma total_installed : total at_installed (remove service s) (fun _ _ _ => True).
Proof.
  apply (total_remove _ (fun oi orm => oi = Some s /\ forall rm, orm = Some rm -> StoredArtifactRemoval.selection rm <> s) false).
  - intros f d om oi orm (_ & Hd & Hi & _) Hl; split; [by apply (loaded_installed s d om oi orm) |]; intros rm ->; by apply (loaded_earlier s d Hd om oi).
  - intros f d ([Hr _] & Hd & _); split; [done | by apply (ready_layout _ _ _ _ _ _ _ _ Hr)].
  - intros current removal [-> Hr]; split_and!; [| | done]; destruct removal as [rm|]; try done; unfold removal_in;
      by rewrite bool_decide_eq_false_2 by (by apply Hr).
  - eapply spec_bind; [apply spec_map_error, (total_verify_removal installed_db) |].
    intros o; apply spec_exists; intros v; apply spec_pure; intros [-> Hv]; eapply spec_bind with (Q := fun _ => printed installed_db (vm_fingerprint v)).
    + eapply total_skip; [apply gives_report_removal with (G := fun _ => True) | done |]; intros u; eapply total_skip; [apply gives_token with (G := fun _ => True) | done |].
      intros u1; eapply total_skip; [apply gives_map_error, gives_layout | intros f d ([Hr _] & _); by apply (ready_layout _ _ _ _ _ _ _ _ Hr) |]; intros u2.
      apply spec_map_error, (total_recheck installed_db v Hv).
    + intros u; eapply total_rest with (F := fun f => here f /\ fingerprint_of f n (vm_fingerprint v)); [apply prepare_installed | by intros f d (H1 & H2 & H3) |].
      apply total_finish, spec_map_error; eapply spec_weaken; [by apply (total_recheck_remove prepared_db) | by intros f d [[H1 H2] H3] | by intros].
Qed.

Lemma prepared_expected (P : Fs -> Db -> Prop) f d om oi orm :
  (P f d -> prepared d) -> P f d -> loaded d (InstalledArtifact.artifact_id installed) om oi orm -> orm = Some (StoredArtifactRemoval.mk s Prepared).
Proof. intros H Hp Hl; apply (loaded_removal s d om oi orm); [done | by apply H]. Qed.
Lemma prepared_recovering current (removal : option StoredArtifactRemoval.t) :
  removal = Some (StoredArtifactRemoval.mk s Prepared) ->
  removal_in Completed s removal = false /\ removal_in Prepared s removal = true /\ (true = false -> current = Some s).
Proof. intros ->; unfold removal_in; cbn; by rewrite !bool_decide_eq_true_2, andb_false_r by done. Qed.

Lemma total_prepared_here : total at_prepared (remove service s) (fun _ _ _ => True).
Proof.
  apply (total_remove _ (fun _ orm => orm = Some (StoredArtifactRemoval.mk s Prepared)) true).
  - intros f d om oi orm; apply prepared_expected; by intros (_ & _ & ?).
  - intros f d ([Hr _] & Hd & _); split; [done | by apply (ready_layout _ _ _ _ _ _ _ _ Hr)].
  - intros current removal; apply prepared_recovering.
  - eapply spec_bind; [apply spec_map_error, (total_verify_removal prepared_db) |].
    intros o; apply spec_exists; intros v; apply spec_pure; intros [-> Hv].
    eapply total_skip; [apply gives_ret with (G := fun _ => True) (F := fun _ _ => True); done | done |]; intros u.
    eapply total_rest with (F := fun f => here f /\ fingerprint_of f n (vm_fingerprint v)); [apply prepare_prepared | by intros f d (H1 & H2 & H3) |].
    apply total_finish, spec_map_error; eapply spec_weaken; [by apply (total_recheck_remove prepared_db) | by intros f d [[H1 H2] H3] | by intros].
Qed.

Lemma cleared_missing D f d : cleared D f d -> missing f.
Proof. intros (H1 & H2 & _); pose proof (ready_listable _ _ _ _ _ _ _ _ H1); by destruct (ready_absent _ _ _ _ _ _ _ _ H1 H2). Qed.

Lemma total_prepared_gone : total (cleared prepared_db) (remove service s) (fun _ _ _ => True).
Proof.
  apply (total_remove _ (fun _ orm => orm = Some (StoredArtifactRemoval.mk s Prepared)) true).
  - intros f d om oi orm; apply prepared_expected; by intros (_ & _ & _ & ?).
  - intros f d Hc; split; [by destruct Hc as (_ & _ & ? & _) | by apply (cleared_layout _ _ _ Hc)].
  - intros current removal; apply prepared_recovering.
  - eapply total_then; [apply gives_map_error, gives_verify_missing | by intros f d; apply cleared_missing |]; intros o.
    eapply spec_weaken with (P := fun f d => o = None /\ cleared prepared_db f d); [apply spec_pure; intros -> | by intros f d [] | by intros y f d H; exact H].
    eapply total_skip; [apply gives_ret with (G := fun _ => True) (F := fun _ _ => True); done | done |]; intros u.
    eapply total_rest with (F := fun f => ready f /\ entries_of f a !! x = None); [apply prepare_prepared | by intros f d (H1 & H2 & H3) |].
    apply total_finish; eapply spec_weaken; [eapply (total_gives _ (cleared prepared_db)); [apply (gives_absent a x); auto |] | | by intros u1 f d [? _]].
    + intros f d Hc; apply cleared_missing in Hc as (? & ? & _); done.
    + by intros f d [[H1 H2] H3].
Qed.

Lemma total_completed : total (within completed) (remove service s) (fun _ _ _ => True).
Proof.
  unfold remove; cbv zeta; rewrite Hrequest; cbn [rs_storage rs_limits]; eapply spec_bind with (Q := fun _ => within completed); [by apply spec_value |]; intros u.
  eapply total_skip; [apply gives_map_error, gives_layout | intros f d (_ & Hr & _); by apply (ready_layout _ _ _ _ _ _ _ _ Hr) |]; intros u1.
  eapply spec_bind; [apply (total_state _ (fun _ orm => orm = Some (StoredArtifactRemoval.mk s Completed))) |]; [| by intros f d [] |].
  - intros f d om oi orm (_ & _ & Hc & _) Hl; by apply (loaded_removal s d om oi orm).
  - intros [current removal]; cbn [fst snd]; apply spec_pure; intros ->; unfold removal_in; cbn; rewrite !bool_decide_eq_true_2 by done; by apply spec_ret.
Qed.

Lemma total_stage : total stage (remove service s) (fun _ _ _ => True).
Proof.
  intros env w Hc (Hd & Hr & Hp); destruct Hp as [[(Hi & Hu & He)|Hp]|Hp].
  - apply (total_installed env w Hc); split; [split; [done | by apply durable_entry_some] | done].
  - destruct (entries_of (fs w) a !! x) as [m|] eqn:E.
    + apply (total_prepared_here env w Hc); split; [| done]; split; [done |]; rewrite E; f_equal; apply (rd_name _ _ _ _ _ _ _ _ Hr); by left.
    + by apply (total_prepared_gone env w Hc).
  - by apply (total_completed env w Hc).
Qed.

Lemma total_remove_selection : total stage (remove_selection limits s) (fun _ _ _ => True).
Proof.
  unfold remove_selection, open_removal; rewrite Hlimits; cbn [negb]; eapply spec_bind with (Q := fun sv f d => sv = service /\ stage f d).
  - eapply total_then; [apply gives_map_error, gives_open_storage | intros f d (_ & Hr & _); by apply (ready_layout _ _ _ _ _ _ _ _ Hr) |].
    intros st; apply spec_ret; by intros f d [? ->].
  - intros sv; apply spec_pure; intros ->; apply total_stage.
Qed.

(** An attempt in any environment, or a loss of power. *)
Inductive attempted : World -> World -> Prop :=
| attempted_run env w : attempted w (snd (remove_selection limits s env w))
| attempted_power f w : survives (fs w) f ->
    attempted w {| fs := f; db := db w; calls := calls w; reports := reports w |}.

Lemma stage_attempted w w' : attempted w w' -> stage (fs w) (db w) -> stage (fs w') (db w').
Proof.
  intros [env w0|f w0 Hs] H; clear w w'; [| by apply (stage_survives (fs w0))]; pose proof (keeps_remove_selection env w0 I H) as Hk.
  destruct (remove_selection limits s env w0) as [[res|e|] w1]; [by apply stage_completed; destruct Hk | done ..].
Qed.
Lemma stage_attempts w w' : rtc attempted w w' -> stage (fs w) (db w) -> stage (fs w') (db w').
Proof. induction 1; [done |]; intros; eauto using stage_attempted. Qed.

(** One more attempt from any of these states. *)
Lemma attempt_completes w env :
  stage (fs w) (db w) -> calm env ->
  exists res w', remove_selection limits s env w = (Ok res, w') /\ rr_selection res = s /\ within completed (fs w') (db w').
Proof.
  intros Hs Hc; pose proof (total_remove_selection env w Hc Hs) as Ht; pose proof (keeps_remove_selection env w I Hs) as Hk.
  destruct (remove_selection limits s env w) as [[res|e|] w']; [| done ..]; by exists res, w'.
Qed.

End Retry.

Section Theorems.
Context {SHA : Sha256} {JSON : JsonCodec}.

Lemma selection_plain d s :
  installed_at d (selection_key s) (StoredArtifactInstallation.installed s) (selection_epoch s) -> validate_removal_request s = Ok tt ->
  plain_artifact (StoredArtifactInstallation.installed s).
Proof.
  intros (row & _ & [Ht _] & _) H; split; [done |]; unfold validate_removal_request in H; apply bind_ok in H as ([] & _ & H).
  destruct (_ =? _); [done |]; destruct (text_eqb _ _) eqn:E; [| done]; apply bool_decide_eq_true in E; rewrite E, slen_app.
  destruct Ht as [_ Hd _]; apply digest_text in Hd as [-> _]; vm_compute; done.
Qed.
Lemma status_removed d k i e : removal_at d k i e Completed -> installed_artifacts d !! k = None -> status d k = StoreTheorems.Removed e.
Proof. intros (row & E & _ & <- & Hp & _) Hn; unfold status; by rewrite Hn, E, Hp. Qed.

(** C30. A removal can always be finished.  Take an installed artifact that
    serves no task, whose verified file is durable in a storage whose layout
    is intact.  Try to remove it any number of times, with failures of calls,
    cancellations and ends of the process anywhere, and with losses of power
    between the attempts: the next attempt in which nothing fails returns
    success, the store says that this installation is removed, and the name
    of the file is gone, also after one more loss of power. *)
Theorem removal_recovers (limits : ArtifactRemovalLimits) (s : StoredArtifactInstallation.t) (r lk a n : Z) (c : bytes)
    (env : Environment) (w w' : World) :
  valid_limits (rl_maximum_artifact_bytes limits) (rl_maximum_storage_entries limits) = true ->
  InstalledArtifact.byte_size (StoredArtifactInstallation.installed s) <= rl_maximum_artifact_bytes limits ->
  validate_removal_request s = Ok tt ->
  inv (db w) -> installed_at (db w) (selection_key s) (StoredArtifactInstallation.installed s) (selection_epoch s) -> unbound (db w) s ->
  ready r lk a n (Digest.as_str (InstalledArtifact.artifact_digest (StoredArtifactInstallation.installed s))) c (rl_maximum_storage_entries limits) (fs w) ->
  durable_entry (fs w) a (Digest.as_str (InstalledArtifact.artifact_digest (StoredArtifactInstallation.installed s))) n ->
  vlen c = InstalledArtifact.byte_size (StoredArtifactInstallation.installed s) ->
  sha256 c = InstalledArtifact.artifact_digest (StoredArtifactInstallation.installed s) ->
  rtc (attempted limits s) w w' -> calm env ->
  exists res w'', remove_selection limits s env w' = (Ok res, w'') /\ rr_selection res = s /\
    status (db w'') (selection_key s) = StoreTheorems.Removed (selection_epoch s) /\
    forall f, f = fs w'' \/ survives (fs w'') f ->
      root f = Some r /\ entries_of f r !! lit "artifacts" = Some a /\
      entries_of f a !! Digest.as_str (InstalledArtifact.artifact_digest (StoredArtifactInstallation.installed s)) = None.
Proof.
  intros Hlimits Hsmall Hrequest Hd Hi Hu Hr He Hlen Hsha Hw Hc; pose proof (selection_plain _ _ Hi Hrequest) as Hplain.
  assert (Hs : stage limits s r lk a n c (fs w) (db w)) by (split; [done |]; split; [done | by left; left]).
  apply (stage_attempts limits s r lk a n c Hlimits Hrequest Hplain Hlen w w' Hw) in Hs.
  destruct (attempt_completes limits s r lk a n c Hlimits Hsmall Hrequest Hplain Hlen Hsha w' env Hs Hc) as (res & w'' & E & Hres & (Hd' & Hr' & Hx & Hn & Hg)).
  exists res, w''; split_and!; [done | done | by eapply status_removed |]; intros f Hf.
  assert (Hready : ready r lk a n (Digest.as_str (InstalledArtifact.artifact_digest (StoredArtifactInstallation.installed s))) c (rl_maximum_storage_entries limits) f).
  { destruct Hf as [->|Hf]; [done |]; apply (ready_survives _ _ _ _ _ _ _ (name_hex s Hplain) (bytes_bound s c Hplain Hlen) (fs w'')); done. }
  assert (Hgone : gone a (Digest.as_str (InstalledArtifact.artifact_digest (StoredArtifactInstallation.installed s))) f)
    by (destruct Hf as [->|Hf]; [done | by apply (gone_survives _ _ (fs w''))]).
  destruct Hready; split_and!; [done | by apply durable_entry_some | by apply gone_entry].
Qed.

End Theorems.
