(* ===== verification/InventorySpec.v ===== *)
(** * What an inventory of the storage reports.

    A report read off the file system and the records, and the proof that the
    service returns that report or none, in any environment. *)

From S2P Require Import Prelude Text Document Claims Json Extractor Model ModelJson StoreDb ModelStore StoreMonad StoreInv StoreSteps StoreOps StoreTheorems StoreInventory.
From S2P Require Import FileSystem StorageIo ArtifactStorage ArtifactRemoval ArtifactInventory StorageFacts StorageSpecs StorageVerify StorageSafety StorageTheorems.

(** ** The report, read directly *)

Section Reference.
Context {SHA : Sha256} {JSON : JsonCodec} (f : Fs) (a : Z) (limits : ArtifactInventoryLimits).

(** The names of the artifact directory in their order. *)
Definition text_le (x y : text) : bool := match str_cmp x y with Gt => false | _ => true end.
Definition artifact_names : list text := sort_by text_le (List.filter not_dot (map fst (map_to_list (entries_of f a)))).

(** The record keeps the artifact at the path its digest names. *)
Definition at_own_path (i : InstalledArtifact.t) : bool :=
  bool_decide (InstalledArtifact.storage_key i = lit "artifacts/" ++ Digest.as_str (InstalledArtifact.artifact_digest i)).

(** What is there of an artifact the store knows. *)
Definition registered_bytes (i : InstalledArtifact.t) : RegisteredArtifactBytes.t :=
  let name := Digest.as_str (InstalledArtifact.artifact_digest i) in
  if negb (at_own_path i) then RegisteredArtifactBytes.StateLayoutConflict
  else
    match (if not_dot name then entries_of f a !! name else None) with
    | None => RegisteredArtifactBytes.Missing
    | Some n =>
        match node_at f n with
        | Some (RegularFile c _) =>
            if negb (link_count f n =? 1) then RegisteredArtifactBytes.AliasedEntry
            else if negb (vlen c =? InstalledArtifact.byte_size i) then RegisteredArtifactBytes.SizeConflict (vlen c)
            else if vl_maximum_artifact_bytes limits <? vlen c then RegisteredArtifactBytes.TooLargeToVerify (vlen c)
            else if bool_decide (sha256 c = InstalledArtifact.artifact_digest i) then RegisteredArtifactBytes.Verified
            else RegisteredArtifactBytes.DigestConflict (sha256 c)
        | _ => RegisteredArtifactBytes.UnsafeEntry
        end
    end.

(** A state with a prepared removal, with an installation, or with neither. *)
Definition prepared_removal (st : StoredArtifactState) : option StoredArtifactInstallation.t :=
  match state_removal st with
  | Some value => if bool_decide (StoredArtifactRemoval.phase value = Prepared) then Some (StoredArtifactRemoval.selection value) else None
  | None => None
  end.
Definition pending_inspection (st : StoredArtifactState) : option PendingArtifactRemovalInspection :=
  s ← prepared_removal st;
  Some {| pi_selection := ArtifactInstallationKey.from_stored s; pi_bytes := registered_bytes (StoredArtifactInstallation.installed s) |}.
Definition registered_inspection (st : StoredArtifactState) : option RegisteredArtifactInspection :=
  match prepared_removal st with
  | Some _ => None
  | None =>
      s ← state_installed st;
      Some {| ri_manifest := state_manifest st; ri_installation := ArtifactInstallationKey.from_stored s;
              ri_active_bindings := state_bindings st; ri_bytes := registered_bytes (StoredArtifactInstallation.installed s) |}
  end.
Definition manifest_alone (st : StoredArtifactState) : option ArtifactManifest.t :=
  match prepared_removal st, state_installed st with None, None => Some (state_manifest st) | _, _ => None end.

(** The bytes that are hashed for a state. *)
Definition hashed_of (i : InstalledArtifact.t) : Z :=
  match registered_bytes i with
  | RegisteredArtifactBytes.Verified | RegisteredArtifactBytes.DigestConflict _ => InstalledArtifact.byte_size i
  | _ => 0
  end.
Definition state_hashed (st : StoredArtifactState) : Z :=
  match prepared_removal st, state_installed st with
  | Some s, _ | None, Some s => hashed_of (StoredArtifactInstallation.installed s)
  | None, None => 0
  end.

Context (states : list StoredArtifactState).

(** The manifest with a digest. *)
Definition manifest_with (digest : text) : option ArtifactManifest.t :=
  last (List.filter (fun m => text_eqb (Digest.as_str (ArtifactManifest.artifact_digest m)) digest) (map state_manifest states)).
Definition orphan_manifest (digest : text) (byte_size : Z) : OrphanManifestAssociation :=
  match manifest_with digest with
  | None => NoManifest
  | Some m => if ArtifactManifest.byte_size m =? byte_size then MatchingManifest m else ManifestSizeConflict m
  end.

(** The state accounts for the file of that name: its installation, or
    without one its prepared removal, is of the artifact with that digest,
    kept at its own path. *)
Definition accounts_for_name (name : text) (st : StoredArtifactState) : bool :=
  match match state_installed st with Some s => Some s | None => prepared_removal st end with
  | Some s =>
      at_own_path (StoredArtifactInstallation.installed s) &&
      bool_decide (Digest.as_str (InstalledArtifact.artifact_digest (StoredArtifactInstallation.installed s)) = name)
  | None => false
  end.

(** What a name of the directory is that no state holds. *)
Inductive Finding :=
| HeldName | UnexpectedName (k : Unexpected) | OversizedName (o : OversizedArtifactFile) | OrphanName (o : VerifiedArtifactOrphan)
| ConflictName (x : ContentAddressConflict).
Definition file_finding (name : text) (claimed : Digest.t) : Finding :=
  match n ← entries_of f a !! name; v ← node_at f n; Some (n, v) with
  | Some (_, SymbolicLink) => UnexpectedName IndirectEntry
  | Some (n, RegularFile c _) =>
      if vlen c =? 0 then UnexpectedName EmptyFile
      else if negb (link_count f n =? 1) then UnexpectedName AliasedFile
      else if vl_maximum_artifact_bytes limits <? vlen c
      then OversizedName {| of_claimed_artifact_id := ArtifactId.mk claimed; of_byte_size := vlen c |}
      else if bool_decide (sha256 c = claimed)
      then OrphanName {| vo_artifact_id := ArtifactId.mk claimed; vo_byte_size := vlen c; vo_manifest := orphan_manifest name (vlen c) |}
      else ConflictName {| cc_claimed_artifact_id := ArtifactId.mk claimed; cc_observed_digest := sha256 c; cc_byte_size := vlen c |}
  | _ => UnexpectedName NonRegularEntry
  end.
Definition finding (name : text) : Finding :=
  match Digest.from_sha256_hex name with
  | Ok claimed => if existsb (accounts_for_name name) states then HeldName else file_finding name claimed
  | _ => UnexpectedName MalformedName
  end.

Definition oversized_of (x : Finding) : option OversizedArtifactFile := match x with OversizedName o => Some o | _ => None end.
Definition orphan_of (x : Finding) : option VerifiedArtifactOrphan := match x with OrphanName o => Some o | _ => None end.
Definition conflict_of (x : Finding) : option ContentAddressConflict := match x with ConflictName o => Some o | _ => None end.
Definition finding_hashed (x : Finding) : Z :=
  match x with OrphanName o => vo_byte_size o | ConflictName o => cc_byte_size o | _ => 0 end.
#[local] Instance unexpected_eq_dec : EqDecision Unexpected.
Proof. solve_decision. Defined.
Definition is_unexpected (k : Unexpected) (x : Finding) : bool := match x with UnexpectedName k' => bool_decide (k' = k) | _ => false end.
Definition tally (k : Unexpected) (l : list Finding) : Z := vlen (List.filter (is_unexpected k) l).
Definition sum_of (l : list Z) : Z := foldr Z.add 0 l.
#[global] Arguments sum_of : simpl never.

(** The report on some of the states and some of the names. *)
Definition report_on (sts : list StoredArtifactState) (names : list text) : ArtifactInventoryReport :=
  let l := map finding names in {|
    ar_registered := omap registered_inspection sts;
    ar_pending_removals := omap pending_inspection sts;
    ar_manifest_only := omap manifest_alone sts;
    ar_verified_orphans := omap orphan_of l;
    ar_content_address_conflicts := omap conflict_of l;
    ar_oversized_files := omap oversized_of l;
    ar_unexpected_entries := {| uc_malformed_names := tally MalformedName l; uc_indirect_entries := tally IndirectEntry l;
      uc_non_regular_entries := tally NonRegularEntry l; uc_empty_files := tally EmptyFile l; uc_aliased_files := tally AliasedFile l |};
    ar_storage_entry_count := vlen names;
    ar_verified_bytes := sum_of (map state_hashed sts) + sum_of (map finding_hashed l) |}.

(** The report on everything. *)
Definition expected_report : ArtifactInventoryReport := report_on states artifact_names.

End Reference.

(** The names the code holds are the names the states account for. *)
Lemma held_exact states entries limits name :
  bool_decide (name ∈ ii_installed (new_input states entries limits)) = existsb (accounts_for_name name) states.
Proof.
  apply Bool.eq_iff_eq_true; rewrite bool_decide_eq_true, existsb_exists; unfold new_input; cbn [ii_installed].
  rewrite elem_of_list_to_set, list_elem_of_omap; setoid_rewrite list_elem_of_In.
  apply exist_proper; intros st; apply and_iff_compat_l.
  unfold accounts_for_name, held_digest, held_selection, prepared_removal; change canonical_key with at_own_path.
  destruct (match state_installed st with Some _ => _ | None => _ end) as [s|]; cbn [mbind option_bind]; [| done].
  destruct (at_own_path _); cbn [andb]; rewrite ?bool_decide_eq_true; [split; [by intros [= ->] | by intros ->] | done].
Qed.

(** ** Lists *)

Lemma sort_by_map {A B} (g : A -> B) (le : B -> B -> bool) l : map g (sort_by (fun x y => le (g x) (g y)) l) = sort_by le (map g l).
Proof.
  unfold sort_by; induction l as [|x l IH]; cbn; [done |]; rewrite <- IH.
  generalize (foldr (insert_by (fun x y => le (g x) (g y))) [] l) as k; intros k.
  induction k as [|y k IHk]; cbn; [done |]; destruct (le (g x) (g y)); cbn; [done | by rewrite IHk].
Qed.

(** A loop keeps what holds of the elements it has seen. *)
Lemma yields_visit {E A B} (g : B -> A -> Io E B) (I : Fs -> list A -> B -> Prop) l : forall seen b,
  (forall seen x b, yields (g b x) (fun f b' => I f seen b -> I f (seen ++ [x]) b')) ->
  yields (visit g b l) (fun f b' => I f seen b -> I f (seen ++ l) b').
Proof.
  induction l as [|x l IH]; intros seen b Hg; cbn [visit]; [apply yields_ret; intros f; by rewrite app_nil_r |].
  eapply yields_bind; [apply (Hg seen) |]; intros b'; eapply yields_weaken; [by apply (IH (seen ++ [x])) |]; cbn beta; intros f b'' H1 H2 H3.
  change (x :: l) with ([x] ++ l); rewrite app_assoc; auto.
Qed.

Lemma yields_both {E A} (m : Io E A) (F G : Fs -> A -> Prop) : yields m F -> yields m G -> yields m (fun f a => F f a /\ G f a).
Proof. intros [Hl HF] [_ HG]; split; [done |]; intros env w a w' H; split; eauto. Qed.

(** ** The frozen directory *)

(** An entry of the list of the directory, and one of the snapshot. *)
Definition raw_of (f : Fs) (d : Z) (e : RawDirectoryEntry) : Prop :=
  exists n i, entries_of f d !! re_name e = Some n /\ inodes f !! n = Some i /\
    re_direct_regular_file e = bool_decide (node_type (node i) = TypeFile) /\ re_indirect e = bool_decide (node_type (node i) = TypeSymlink) /\
    re_byte_size e = node_len (node i).
Definition frozen (f : Fs) (d : Z) (e : DirectoryEntrySnapshot) : Prop :=
  exists n i, entries_of f d !! ds_name e = Some n /\ inodes f !! n = Some i /\
    ds_direct_regular_file e = bool_decide (node_type (node i) = TypeFile) /\ ds_indirect e = bool_decide (node_type (node i) = TypeSymlink) /\
    ds_byte_size e = node_len (node i) /\
    ds_metadata e = if bool_decide (node_type (node i) = TypeFile) then Some (MetadataFingerprint.of_metadata (metadata_of f n i)) else None.

Lemma yields_statat d name :
  yields (look (fun _ _ f => statat d name f)) (fun f m => exists n i, entries_of f d !! name = Some n /\ inodes f !! n = Some i /\ m = metadata_of f n i).
Proof.
  apply yields_look; intros env k f m; unfold statat; destruct (lookup_name f d name) as [n| |] eqn:E; try done; cbn.
  apply lookup_name_ok in E; unfold stat_node; destruct (inodes f !! n) as [i|] eqn:Ei; [| done]; intros [= <-]; eauto.
Qed.

Lemma yields_raw_of d maximum token : yields (raw_entries d maximum token) (fun f l => Forall (raw_of f d) l).
Proof.
  unfold raw_entries; apply yields_then; [auto with io |]; intros names.
  eapply yields_weaken; [apply (yields_visit _ (fun f _ l => Forall (raw_of f d) l) names []) |].
  2: { cbn beta; intros f l H; apply H; constructor. }
  intros seen x l; apply yields_then; [auto with io |]; intros u; eapply yields_bind with (F := fun _ y => y = x); [found; congruence |]; intros y.
  destruct (existsb _ _); [by apply yields_ret |]; destruct (_ =? _); [apply yields_raise |].
  eapply yields_bind; [apply yields_map_error, yields_statat |]; intros m.
  eapply yields_bind with (F := fun _ s => s = md_len m).
  { apply yields_value; intros f s; unfold try_from; destruct (_ && _); cbn; congruence. }
  intros s; apply yields_ret; intros f -> (n & i & H1 & H2 & ->) _ Hl; apply Forall_app; split; [done |].
  constructor; [| done]; by exists n, i.
Qed.

Lemma yields_snapshot d maximum token :
  yields (snapshot d maximum token) (fun f l => map ds_name l = artifact_names f d /\ Forall (frozen f d) l).
Proof.
  unfold snapshot; eapply yields_bind; [apply yields_both; [apply yields_raw_entries | apply yields_raw_of] |].
  intros raw; eapply yields_bind.
  { apply (yields_visit _ (fun f seen l => Forall (raw_of f d) raw -> (forall x, x ∈ seen -> x ∈ raw) -> map ds_name l = map re_name seen /\ Forall (frozen f d) l) raw [] []).
    intros seen x l; apply yields_then; [auto with io |]; intros u.
    eapply yields_bind with (F := fun f m => raw_of f d x -> exists n i, entries_of f d !! re_name x = Some n /\ inodes f !! n = Some i /\
      m = if re_direct_regular_file x then Some (MetadataFingerprint.of_metadata (metadata_of f n i)) else None).
    - destruct (re_direct_regular_file x).
      + eapply yields_bind; [apply yields_map_error, yields_open_file |]; intros file; apply yields_then; [auto with io |]; intros u'.
        eapply yields_bind; [apply yields_map_error, yields_fingerprint |]; intros p; destruct (negb _); [apply yields_raise |].
        apply yields_ret; intros f (i & Ei & ->) Hn _; by exists file, i.
      + apply yields_ret; intros f (n & i & H1 & H2 & _); by exists n, i.
    - intros m; apply yields_ret; intros f Hm IH Hraw Hin.
      destruct IH as [E1 E2]; [done | intros y Hy; apply Hin; apply elem_of_app; by left |].
      assert (Hx : raw_of f d x) by (eapply Forall_forall; [done |]; apply Hin, elem_of_app; right; by apply list_elem_of_singleton).
      rewrite !map_app, E1; split; [done |]; apply Forall_app; split; [done |]; constructor; [| done].
      destruct (Hm Hx) as (n & i & H1 & H2 & ->); destruct Hx as (n' & i' & H1' & H2' & H3 & H4 & H5).
      rewrite H1 in H1'; injection H1' as <-; rewrite H2 in H2'; injection H2' as <-; exists n, i; cbn; by rewrite <- H3. }
  intros l; apply yields_ret; intros f H [Hn Hr]; destruct H as [E1 E2]; [by split | done | done |]; cbn [app] in E1.
  split; [| by rewrite sort_by_perm]; unfold artifact_names; rewrite <- Hn, <- E1.
  apply (sort_by_map ds_name text_le).
Qed.

Section Exact.
Context {SHA : Sha256} {JSON : JsonCodec}.

(** ** Hashing an entry *)

Lemma yields_count (n : Z) {E} (e : E) : yields (value (ok_or (try_from u64_max n) e)) (fun _ m => m = n).
Proof. apply yields_value; intros f m; unfold try_from; destruct (_ && _); cbn; congruence. Qed.
Lemma yields_sum (n k : Z) {E} (e : E) : yields (value (ok_or (checked_add u64_max n k) e)) (fun _ m => m = n + k).
Proof. apply yields_value; intros f m; unfold checked_add; destruct (_ <=? _); cbn; congruence. Qed.

Lemma read_prefix_more f file hashed observed chunk :
  read_prefix f file hashed observed ->
  (exists c s, node_at f file = Some (RegularFile c s) /\ chunk = take (length chunk) (drop (Z.to_nat observed) c)) ->
  read_prefix f file (hashed ++ chunk) (observed + vlen chunk).
Proof.
  intros (c & s & E & Hh & Ho) (c' & s' & E' & Hc); rewrite E in E'; injection E' as <- <-; exists c, s; split; [done |].
  split; [| unfold vlen in *; rewrite length_app; lia].
  unfold vlen in *; rewrite Z2Nat.inj_add, Nat2Z.id, <- take_take_drop by lia; by rewrite <- Hh, <- Hc.
Qed.

Lemma yields_hash_bytes file size token : forall fuel hashed observed,
  yields (hash_bytes_loop fuel file size token hashed observed) (fun f d =>
    read_prefix f file hashed observed -> exists c s, node_at f file = Some (RegularFile c s) /\ sha256 c = d).
Proof.
  intros fuel; induction fuel as [|fuel IH]; intros hashed observed; cbn [hash_bytes_loop]; destruct (Z.ltb_spec observed size) as [Hlt|Hge].
  1: by apply yields_value.
  2: { apply yields_then; [auto with io |]; intros u; eapply yields_bind; [apply yields_map_error, yields_read; lia |]; intros chunk.
    destruct (vlen chunk =? 0); [apply yields_raise |]; eapply yields_bind; [apply yields_count |]; intros n.
    eapply yields_bind; [apply yields_sum |]; intros o; eapply yields_weaken; [apply IH |]; cbn beta.
    intros f d H -> -> (c & s & E & Hc & _) Hp; apply H, read_prefix_more; eauto. }
  all: eapply yields_bind; [apply yields_map_error, yields_read; lia |]; intros chunk; destruct (negb _) eqn:Ec; [apply yields_raise |];
    apply yields_value; intros f d Hd (c & s & E & _ & Hend) (c' & s' & E' & Hh & Ho); rewrite E in E'; injection E' as <- <-;
    apply finish_hash_ok in Hd as ->; apply negb_false_iff, Z.eqb_eq in Ec; unfold vlen in *;
    assert (chunk = []) as -> by (destruct chunk; [done | cbn in Ec; lia]); specialize (Hend ltac:(lia) eq_refl);
    exists c, s; split; [done |]; f_equal; rewrite Hh; symmetry; apply take_ge; lia.
Qed.

Lemma yields_hash_entry d e token :
  yields (hash_entry d e token) (fun f x => exists n c s, entries_of f d !! ds_name e = Some n /\ node_at f n = Some (RegularFile c s) /\ sha256 c = x).
Proof.
  unfold hash_entry; eapply yields_bind; [apply yields_map_error, yields_open_file |]; intros file.
  eapply yields_bind; [apply yields_regular |]; intros u; apply yields_then; [auto with io |]; intros p; destruct (negb _); [apply yields_raise |].
  eapply yields_bind; [apply yields_hash_bytes |]; intros x; apply yields_then; [auto with io |]; intros q; destruct (negb _); [apply yields_raise |].
  apply yields_then; [auto with io |]; intros file'; apply yields_then; [auto with io |]; intros r; destruct (negb _); [apply yields_raise |].
  apply yields_ret; intros f H (v & Ev & Hv) Hn; destruct v as [c s| | |]; try done; destruct H as (c' & s' & H1 & H2); [by exists c, s |].
  by exists file, c', s'.
Qed.

Lemma set_verified_same b : set_verified (ib_verified_bytes b + 0) b = b.
Proof. destruct b; unfold set_verified; cbn; by rewrite Z.add_0_r. Qed.

(** The digest of an entry, and the bytes that count as verified. *)
Lemma yields_builder_hash input d e token b :
  yields (builder_hash input d e token b) (fun f r =>
    (exists n c s, entries_of f d !! ds_name e = Some n /\ node_at f n = Some (RegularFile c s) /\ fst r = sha256 c) /\
    snd r = set_verified (ib_verified_bytes b + ds_byte_size e) b /\
    ib_verified_bytes b + ds_byte_size e <= vl_maximum_total_verification_bytes (ii_limits input)).
Proof.
  unfold builder_hash; eapply yields_bind with (F := fun _ t => t = ib_verified_bytes b + ds_byte_size e /\
    t <= vl_maximum_total_verification_bytes (ii_limits input)).
  { apply yields_value; intros f t; unfold checked_add; destruct (_ <=? _); cbn [mbind option_bind ok_or]; [| done].
    destruct (Z.leb_spec (ib_verified_bytes b + ds_byte_size e) (vl_maximum_total_verification_bytes (ii_limits input))); cbn; [| done].
    by intros [= <-]. }
  intros t; eapply yields_bind; [apply yields_hash_entry |]; intros x; apply yields_ret; cbn [fst snd].
  intros f (n & c & s & H1 & H2 & <-) [-> H3]; split_and!; try done; by exists n, c, s.
Qed.

(** ** The states *)

(** The snapshot of the input. *)
Definition snapshot_of (f : Fs) (a : Z) (l : list DirectoryEntrySnapshot) : Prop :=
  map ds_name l = artifact_names f a /\ Forall (frozen f a) l.

Lemma names_in f a name : name ∈ artifact_names f a <-> not_dot name = true /\ is_Some (entries_of f a !! name).
Proof.
  unfold artifact_names; rewrite sort_by_perm, list_elem_of_In, filter_In, in_map_iff; split.
  - intros [([k n] & <- & Hin) Hd]; apply list_elem_of_In, elem_of_map_to_list in Hin; eauto.
  - intros [Hd [n Hn]]; split; [| done]; exists (name, n); split; [done |]; by apply list_elem_of_In, elem_of_map_to_list.
Qed.

Lemma find_entry f a l name :
  snapshot_of f a l ->
  match find_exact_entry l name with
  | Some e => ds_name e = name /\ frozen f a e /\ not_dot name = true
  | None => (if not_dot name then entries_of f a !! name else None) = None
  end.
Proof.
  intros [Hn Hf]; unfold find_exact_entry; destruct (List.find _ l) as [e|] eqn:E.
  - apply find_some in E as [Hin He]; apply bool_decide_eq_true in He as <-; split; [done |]; rewrite Forall_forall in Hf.
    split; [by apply Hf, list_elem_of_In |]; apply (names_in f a); rewrite <- Hn; apply list_elem_of_fmap_2; by apply list_elem_of_In.
  - destruct (not_dot name) eqn:Hd; [| done]; apply eq_None_not_Some; intros Hs.
    assert (Hin : name ∈ map ds_name l) by (rewrite Hn; by apply names_in); apply list_elem_of_fmap in Hin as (e & -> & Hin).
    apply list_elem_of_In, (find_none _ _ E), bool_decide_eq_false in Hin; done.
Qed.

(** What a frozen entry says of its node. *)
Lemma frozen_regular f a e :
  frozen f a e -> ds_indirect e = false -> ds_direct_regular_file e = true ->
  exists n c s, entries_of f a !! ds_name e = Some n /\ node_at f n = Some (RegularFile c s) /\ ds_byte_size e = vlen c /\
    entry_has_single_link e = (link_count f n =? 1).
Proof.
  intros (n & i & H1 & H2 & H3 & H4 & H5 & H6) _ Hr; rewrite Hr in H3; symmetry in H3; pose proof H3 as Ht; apply bool_decide_eq_true in Ht.
  rewrite H3 in H6; exists n; destruct (node i) as [c s| | |] eqn:En; try done; exists c, s; split_and!; [done | unfold node_at; by rewrite H2; cbn; rewrite En | done |].
  unfold entry_has_single_link; by rewrite H6.
Qed.
Lemma frozen_unsafe f a e :
  frozen f a e -> ds_indirect e || negb (ds_direct_regular_file e) = true ->
  exists n v, entries_of f a !! ds_name e = Some n /\ node_at f n = Some v /\ (forall c s, v <> RegularFile c s) /\
    (ds_indirect e = true <-> v = SymbolicLink).
Proof.
  intros (n & i & H1 & H2 & H3 & H4 & _) Hr; exists n, (node i); split_and!; [done | unfold node_at; by rewrite H2 | |].
  - intros c s E; rewrite H3, H4, E in Hr; done.
  - rewrite H4, bool_decide_eq_true; by destruct (node i).
Qed.

Lemma yields_classify input d i token b :
  yields (classify_registered input d i token b) (fun f r =>
    snapshot_of f d (ii_entries input) -> fst r = registered_bytes f d (ii_limits input) i /\
      snd r = set_verified (ib_verified_bytes b + hashed_of f d (ii_limits input) i) b /\
      (ib_verified_bytes b <= vl_maximum_total_verification_bytes (ii_limits input) ->
       ib_verified_bytes (snd r) <= vl_maximum_total_verification_bytes (ii_limits input))).
Proof.
  unfold classify_registered, hashed_of, registered_bytes; fold (canonical_key i); change (canonical_key i) with (at_own_path i).
  destruct (at_own_path i); cbn [negb]; [| apply yields_ret; intros f _; cbn; by rewrite set_verified_same].
  set (name := Digest.as_str (InstalledArtifact.artifact_digest i)).
  destruct (find_exact_entry (ii_entries input) name) as [e|] eqn:Ef.
  2: { apply yields_ret; intros f Hs; pose proof (find_entry f d _ name Hs) as H; rewrite Ef in H; rewrite H; cbn; by rewrite set_verified_same. }
  assert (He : forall f, snapshot_of f d (ii_entries input) -> ds_name e = name /\ frozen f d e /\ not_dot name = true).
  { intros f Hs; pose proof (find_entry f d _ name Hs) as H; by rewrite Ef in H. }
  destruct (_ || _) eqn:Eu.
  { apply yields_ret; intros f Hs; destruct (He f Hs) as (Hn & Hf & ->); destruct (frozen_unsafe f d e Hf Eu) as (n & v & H1 & H2 & H3 & _).
    rewrite Hn in H1; rewrite H1, H2; destruct v; [by destruct (H3 content synced) | cbn; by rewrite set_verified_same ..]. }
  apply orb_false_iff in Eu as [Ei Er]; apply negb_false_iff in Er.
  assert (Hr : forall f, snapshot_of f d (ii_entries input) -> exists n c s, not_dot name = true /\ ds_name e = name /\ entries_of f d !! name = Some n /\
    node_at f n = Some (RegularFile c s) /\ ds_byte_size e = vlen c /\ entry_has_single_link e = (link_count f n =? 1)).
  { intros f Hs; destruct (He f Hs) as (<- & Hf & Hd); destruct (frozen_regular f d e Hf Ei Er) as (n & c & s & H); by exists n, c, s. }
  destruct (entry_has_single_link e) eqn:El; cbn [negb].
  2: { apply yields_ret; intros f Hs; destruct (Hr f Hs) as (n & c & s & -> & _ & -> & -> & _ & <-); cbn; by rewrite set_verified_same. }
  destruct (Z.eqb_spec (ds_byte_size e) (InstalledArtifact.byte_size i)) as [Hsz|Hsz]; cbn [negb].
  2: { apply yields_ret; intros f Hs; destruct (Hr f Hs) as (n & c & s & -> & _ & -> & -> & <- & <-); cbn [negb fst snd].
    rewrite (proj2 (Z.eqb_neq _ _)) by done; cbn; by rewrite set_verified_same. }
  destruct (_ <? ds_byte_size e) eqn:Elim.
  { apply yields_ret; intros f Hs; destruct (Hr f Hs) as (n & c & s & -> & _ & -> & -> & <- & <-); cbn [negb fst snd].
    rewrite Hsz, Z.eqb_refl; rewrite Hsz in Elim; rewrite Elim; cbn; by rewrite set_verified_same. }
  eapply yields_bind; [apply yields_builder_hash |]; intros [x b']; apply yields_ret; cbn [fst snd].
  intros f ((n' & c' & s' & E1 & E2 & ->) & -> & Hb) Hs; destruct (Hr f Hs) as (n & c & s & -> & Hn & H1 & H2 & H3 & H4).
  rewrite Hn, H1 in E1; injection E1 as <-; rewrite H2 in E2; injection E2 as <- <-.
  rewrite H1, H2, <- H3, <- H4, Hsz, Z.eqb_refl; cbn [negb]; rewrite <- Hsz, Elim; by destruct (bool_decide _).
Qed.

(** The builder holds the report on the states and names it has seen. *)
Definition seen_so_far (f : Fs) (d : Z) (input : InventoryInput) (sts : list StoredArtifactState) (names : list text) (b : InventoryBuilder) : Prop :=
  ib_verified_bytes b <= vl_maximum_total_verification_bytes (ii_limits input) /\
  (vlen names <= u64_max -> finish b (vlen names) = report_on f d (ii_limits input) (ii_states input) sts names).

Lemma yields_complete stage b : yields (complete stage b) (fun _ b' => exists n, b' = set_completed n b).
Proof. unfold complete, report_inventory; apply yields_then; [auto with io |]; intros u; apply yields_ret; eauto. Qed.

Lemma omap_one {A B} (g : A -> option B) l x : omap g (l ++ [x]) = omap g l ++ match g x with Some y => [y] | None => [] end.
Proof. rewrite omap_app; cbn; by destruct (g x). Qed.
Lemma sum_one l x : sum_of (l ++ [x]) = sum_of l + x.
Proof. unfold sum_of; induction l as [|y l IH]; cbn; [lia |]; rewrite IH; lia. Qed.

(** One field of the report after the other. *)
Ltac report_fields H :=
  let g := constr:(H) in
  pose proof (f_equal ar_registered g); pose proof (f_equal ar_pending_removals g); pose proof (f_equal ar_manifest_only g);
  pose proof (f_equal ar_verified_orphans g); pose proof (f_equal ar_content_address_conflicts g); pose proof (f_equal ar_oversized_files g);
  pose proof (f_equal ar_unexpected_entries g); pose proof (f_equal ar_verified_bytes g);
  cbn [finish report_on ar_registered ar_pending_removals ar_manifest_only ar_verified_orphans ar_content_address_conflicts ar_oversized_files
       ar_unexpected_entries ar_verified_bytes] in *.

(** The report after one more state. *)
Ltac state_step Hb :=
  intros Hl; specialize (Hb Hl); report_fields Hb; unfold finish, report_on; cbn; rewrite !omap_one, map_app; cbn [map]; rewrite sum_one;
  unfold registered_inspection, pending_inspection, manifest_alone, state_hashed in *; cbn [map] in *;
  repeat match goal with E : prepared_removal _ = _ |- _ => rewrite E; clear E | E : state_installed _ = _ |- _ => rewrite E; clear E end;
  cbn; rewrite ?app_nil_r; f_equal; try done; try (by f_equal); lia.

Lemma yields_state input d token sts st b :
  yields (inspect_state input d token b st) (fun f b' =>
    snapshot_of f d (ii_entries input) -> seen_so_far f d input sts [] b -> seen_so_far f d input (sts ++ [st]) [] b').
Proof.
  unfold inspect_state; apply yields_then; [auto with io |]; intros u.
  destruct (match state_removal st with Some value => _ | None => None end) as [removal|] eqn:Er.
  - assert (Ep : prepared_removal st = Some (StoredArtifactRemoval.selection removal)).
    { unfold prepared_removal; destruct (state_removal st) as [v|]; [| done]; destruct (bool_decide _); [congruence | done]. }
    destruct (bool_decide _); [apply yields_raise |]; eapply yields_bind; [apply yields_classify |]; intros [x b1].
    eapply yields_weaken; [apply yields_complete |]; cbn beta; intros f b' [n ->] H Hs [Hv Hb].
    destruct (H Hs) as (E1 & E2 & Hm); cbn [fst snd] in E1, E2, Hm; split; [by apply Hm | subst x b1; state_step Hb].
  - assert (Ep : prepared_removal st = None).
    { unfold prepared_removal; destruct (state_removal st) as [v|]; [| done]; by destruct (bool_decide _). }
    destruct (state_installed st) as [s|] eqn:Es.
    + eapply yields_bind; [apply yields_classify |]; intros [x b1].
      eapply yields_weaken; [apply yields_complete |]; cbn beta; intros f b' [n ->] H Hs [Hv Hb].
      destruct (H Hs) as (E1 & E2 & Hm); cbn [fst snd] in E1, E2, Hm; split; [by apply Hm | subst x b1; state_step Hb].
    + eapply yields_weaken; [apply yields_complete |]; cbn beta; intros f b' [n ->] Hs [Hv Hb]; split; [done | state_step Hb].
Qed.

(** ** The names *)

Lemma manifests_lookup states entries limits digest : ii_manifests (new_input states entries limits) !! digest = manifest_with states digest.
Proof.
  unfold new_input, manifest_with; cbn; induction states as [|st sts IH] using rev_ind; [done |].
  rewrite foldl_app, map_app, List.filter_app; cbn; unfold text_eqb; case_bool_decide as E; [rewrite E, lookup_insert, decide_True by done; by rewrite last_snoc |].
  by rewrite lookup_insert_ne, app_nil_r.
Qed.

Lemma association states entries limits digest size :
  manifest_association (new_input states entries limits) digest size = orphan_manifest states digest size.
Proof. unfold manifest_association, orphan_manifest; by rewrite manifests_lookup. Qed.

(** What a finding adds to a builder. *)
Definition apply_finding (x : Finding) (b : InventoryBuilder) : InventoryBuilder :=
  match x with
  | HeldName => b
  | UnexpectedName k => count_unexpected k b
  | OversizedName o => push_oversized o b
  | OrphanName o => push_orphan o (set_verified (ib_verified_bytes b + vo_byte_size o) b)
  | ConflictName c => push_conflict c (set_verified (ib_verified_bytes b + cc_byte_size c) b)
  end.

Lemma tally_one k l x : tally k (l ++ [x]) = tally k l + if is_unexpected k x then 1 else 0.
Proof. unfold tally, vlen; rewrite List.filter_app, length_app; cbn; destruct (is_unexpected k x); cbn; lia. Qed.
Lemma tally_bound k l : 0 <= tally k l <= vlen l.
Proof. unfold tally, vlen; pose proof (List.filter_length_le (is_unexpected k) l); lia. Qed.

Lemma seen_finding f d limits states sts names name b :
  vlen (names ++ [name]) <= u64_max -> finish b (vlen names) = report_on f d limits states sts names ->
  finish (apply_finding (finding f d limits states name) b) (vlen (names ++ [name])) = report_on f d limits states sts (names ++ [name]).
Proof.
  intros Hl Hb; report_fields Hb; unfold report_on; rewrite !map_app; cbn [map]; rewrite !omap_one, !tally_one, sum_one.
  assert (Ht : forall k, saturating_add u64_max (tally k (map (finding f d limits states) names)) 1 = tally k (map (finding f d limits states) names) + 1).
  { intros k; pose proof (tally_bound k (map (finding f d limits states) names)); unfold saturating_add, vlen in *; rewrite length_map, length_app in *; cbn in Hl; lia. }
  destruct (finding f d limits states name) as [|k|o|o|o]; [| destruct k | ..]; unfold finish; cbn; f_equal; rewrite ?app_nil_r, ?Z.add_0_r; try done;
    try congruence; try lia; match goal with H : ib_unexpected_entries b = _ |- _ => rewrite H end; cbn; by rewrite ?Ht, ?Z.add_0_r.
Qed.

Lemma yields_name states entries limits d token e b :
  let input := new_input states entries limits in
  yields (inspect_entry_snapshot input d token b e) (fun f b' => frozen f d e ->
    (ib_verified_bytes b <= vl_maximum_total_verification_bytes limits -> ib_verified_bytes b' <= vl_maximum_total_verification_bytes limits) /\
    exists n, b' = set_completed n (apply_finding (finding f d limits states (ds_name e)) b)).
Proof.
  intros input; unfold inspect_entry_snapshot, finding; apply yields_then; [auto with io |]; intros u.
  destruct (Digest.from_sha256_hex (ds_name e)) as [claimed|err|] eqn:Ed;
    [| eapply yields_weaken; [apply yields_complete |]; cbn beta; intros f b' [n ->] _; split; [done | by exists n] ..].
  unfold input at 1; rewrite held_exact; destruct (existsb _ states).
  { apply yields_ret; intros f _; split; [done |]; exists (ib_completed_entries b); by destruct b. }
  eapply yields_bind with (F := fun f b1 => frozen f d e ->
    (ib_verified_bytes b <= vl_maximum_total_verification_bytes limits -> ib_verified_bytes b1 <= vl_maximum_total_verification_bytes limits) /\
    b1 = apply_finding (file_finding f d limits states (ds_name e) claimed) b).
  2: { intros b1; eapply yields_weaken; [apply yields_complete |]; cbn beta; intros f b' [n ->] H Hf; destruct (H Hf) as [H1 ->]; split; [done | by exists n]. }
  unfold file_finding; destruct (ds_indirect e) eqn:Ei.
  { apply yields_ret; intros f Hf; split; [done |]; destruct (frozen_unsafe f d e Hf) as (n & v & -> & Ev & _ & Hv); [by rewrite Ei |].
    cbn [mbind option_bind]; rewrite Ev; cbn; by rewrite (proj1 Hv Ei). }
  destruct (ds_direct_regular_file e) eqn:Er; cbn [negb].
  2: { apply yields_ret; intros f Hf; split; [done |]; destruct (frozen_unsafe f d e Hf) as (n & v & -> & Ev & Hc & Hv); [by rewrite Ei, Er |].
    cbn [mbind option_bind]; rewrite Ev; cbn.
    destruct v as [c s| | |]; [by destruct (Hc c s) | done | | done]; pose proof (proj2 Hv eq_refl); congruence. }
  assert (Hr : forall f, frozen f d e -> exists n c s, entries_of f d !! ds_name e = Some n /\ node_at f n = Some (RegularFile c s) /\
    ds_byte_size e = vlen c /\ entry_has_single_link e = (link_count f n =? 1)) by (intros f Hf; by apply frozen_regular).
  destruct (ds_byte_size e =? 0) eqn:Ez.
  { apply yields_ret; intros f Hf; destruct (Hr f Hf) as (n & c & s & -> & Ev & H3 & H4); cbn [mbind option_bind]; rewrite Ev; cbn [mbind option_bind]; rewrite <- H3, <- ?H4; by rewrite Ez. }
  destruct (entry_has_single_link e) eqn:El; cbn [negb].
  2: { apply yields_ret; intros f Hf; destruct (Hr f Hf) as (n & c & s & -> & Ev & H3 & H4); cbn [mbind option_bind]; rewrite Ev; cbn [mbind option_bind]; rewrite <- H3, <- ?H4; by rewrite Ez. }
  change (ii_limits input) with limits; destruct (_ <? ds_byte_size e) eqn:Elim.
  { apply yields_ret; intros f Hf; destruct (Hr f Hf) as (n & c & s & -> & Ev & H3 & H4); cbn [mbind option_bind]; rewrite Ev; cbn [mbind option_bind]; rewrite <- H3, <- ?H4; by rewrite Ez, Elim. }
  eapply yields_bind; [apply yields_builder_hash |]; intros [x b1]; apply yields_ret; cbn [fst snd].
  intros f ((n' & c' & s' & E1 & E2 & ->) & -> & Hb) Hf; destruct (Hr f Hf) as (n & c & s & H1 & H2 & H3 & H4).
  rewrite H1 in E1; injection E1 as <-; rewrite H2 in E2; injection E2 as <- <-.
  rewrite H1; cbn [mbind option_bind]; rewrite H2; cbn [mbind option_bind]; rewrite <- H3, <- H4, Ez, Elim; cbn [negb]; unfold input; rewrite association; by destruct (bool_decide _).
Qed.

Lemma yields_name_seen states entries limits d token names e b :
  let input := new_input states entries limits in
  yields (inspect_entry_snapshot input d token b e) (fun f b' =>
    frozen f d e -> seen_so_far f d input states names b -> seen_so_far f d input states (names ++ [ds_name e]) b').
Proof.
  intros input; eapply yields_weaken; [apply yields_name |]; cbn beta; intros f b' H He [H2 H3]; destruct (H He) as [H1 [n ->]].
  split; [by apply H1 |]; intros Hl; apply (seen_finding f d limits states states names (ds_name e) b Hl), H3.
  unfold vlen in *; rewrite length_app in Hl; lia.
Qed.

Lemma yields_uninstalled states entries limits d token b :
  let input := new_input states entries limits in
  yields (inspect_uninstalled input d token b) (fun f b' =>
    snapshot_of f d entries -> seen_so_far f d input states [] b -> seen_so_far f d input states (artifact_names f d) b').
Proof.
  intros input; unfold inspect_uninstalled; eapply yields_weaken.
  { apply (yields_visit _ (fun f seen b => Forall (frozen f d) seen -> seen_so_far f d input states (map ds_name seen) b) entries []).
    intros seen e b1; eapply yields_weaken; [apply (yields_name_seen _ _ _ _ _ (map ds_name seen)) |]; cbn beta; intros f b' H IH HF.
    apply Forall_app in HF as [HF He]; apply Forall_cons in He as [He _]; rewrite map_app; auto. }
  cbn beta; intros f b' H [Hn HF] Hs; rewrite <- Hn; by apply H.
Qed.

Lemma yields_registered states entries limits d token :
  let input := new_input states entries limits in
  yields (inspect_registered input d token new_builder) (fun f b' =>
    snapshot_of f d entries -> 0 <= vl_maximum_total_verification_bytes limits -> seen_so_far f d input states [] b').
Proof.
  intros input; unfold inspect_registered; eapply yields_weaken.
  { apply (yields_visit _ (fun f seen b => snapshot_of f d entries -> seen_so_far f d input seen [] b) states []).
    intros seen st b; eapply yields_weaken; [apply yields_state |]; cbn beta; intros f b' H IH Hs; apply H; auto. }
  cbn beta; intros f b' H Hs H0; apply H; [| done]; intros _; by split.
Qed.

(** ** The service *)

(** The report is the expected one, and no more was hashed than allowed. *)
Definition reported (limits : ArtifactInventoryLimits) (report : ArtifactInventoryReport) (f : Fs) (d : Db) : Prop :=
  valid_inventory_limits limits = true /\
  exists r a states, root f = Some r /\ entries_of f r !! lit "artifacts" = Some a /\
    pure (artifact_inventory (vl_maximum_state_entries limits)) d = (Ok states, d) /\
    report = expected_report f a limits states /\ ar_verified_bytes report <= vl_maximum_total_verification_bytes limits.

Lemma readonly_inventory maximum : readonly (artifact_inventory maximum).
Proof. unfold artifact_inventory, load_artifact_states, reject_without_manifest; readonly. Qed.

Lemma valid_limits limits :
  valid_inventory_limits limits = true -> 0 < vl_maximum_state_entries limits < i64_max /\ 0 < vl_maximum_total_verification_bytes limits.
Proof.
  unfold valid_inventory_limits; rewrite !andb_true_iff, !bool_decide_eq_true, !Z.ltb_lt; intros ((((((H1 & _) & _) & H2) & [v H3]) & _) & _).
  unfold checked_add in H3; destruct (vl_maximum_state_entries limits + 1 <=? usize_max); [| done]; cbn [mbind option_bind] in H3.
  unfold try_from in H3; destruct ((0 <=? vl_maximum_state_entries limits + 1) && (vl_maximum_state_entries limits + 1 <=? i64_max)) eqn:E; [| done].
  apply andb_true_iff in E as [_ E]; apply Z.leb_le in E; lia.
Qed.

Section Run.
Context (f0 : Fs) (d0 : Db).
Let here (f : Fs) (d : Db) : Prop := f = f0 /\ d = d0.

(** A specification of a program that changes nothing. *)
Definition still {E A} (p : Prop) (m : Io E A) (Q : A -> Prop) : Prop :=
  spec (fun _ => True) (fun f d => here f d /\ p) m (fun a f d => here f d /\ Q a) (fun _ => here) here.

Lemma still_yields {E A B} (p : Prop) (m : Io E A) (g : A -> Io E B) (F : Fs -> A -> Prop) (Q : B -> Prop) :
  yields m F -> (forall a, still (p /\ F f0 a) (g a) Q) -> still p (m ≫= g) Q.
Proof.
  intros Hm Hg; eapply spec_bind; [apply (spec_yields _ m F _ (fun _ => here) here Hm); [by intros e f d [] | by intros f d []] |].
  intros a; eapply spec_weaken; [apply (Hg a) | | done]; intros f d [[[-> ->] Hp] HF]; by split.
Qed.
Lemma still_looks {E A B} (p : Prop) (m : Io E A) (g : A -> Io E B) (Q : B -> Prop) :
  looks m -> (forall a, still p (g a) Q) -> still p (m ≫= g) Q.
Proof.
  intros Hm Hg; apply (still_yields p m g (fun _ _ => True)); [done |]; intros a; eapply spec_weaken; [apply (Hg a) | | done].
  intros f d [H [Hp _]]; by split.
Qed.
Lemma still_raise {E A} (p : Prop) (e : E) (Q : A -> Prop) : still p (raise e) Q.
Proof. apply spec_raise; by intros f d []. Qed.
Lemma still_states {B} (p : Prop) maximum g (k : list StoredArtifactState -> Storage B) (Q : B -> Prop) :
  (forall states, still (p /\ pure (artifact_inventory maximum) d0 = (Ok states, d0)) (k states) Q) ->
  still p (states ← map_error g (sql (artifact_inventory maximum)); k states) Q.
Proof.
  intros H; eapply spec_bind; [| intros states; apply H]; apply spec_map_error, spec_sql.
  - apply tame_inventory.
  - intros fails s; pose proof (readonly_inventory maximum fails s); by destruct (fst (artifact_inventory maximum fails s)).
  - by intros f d [].
  - by intros e f d [].
  - intros f d states d' [[-> ->] Hp] E; pose proof (readonly_ok _ _ _ _ (readonly_inventory maximum) E) as ->; by split_and!.
Qed.

Lemma still_inventory limits s token :
  valid_inventory_limits limits = true ->
  still True (inventory {| vs_storage := s; vs_limits := limits |} token) (fun report => reported limits report f0 d0).
Proof.
  intros Hvalid; assert (Hlim : 0 <= vl_maximum_total_verification_bytes limits) by (apply valid_limits in Hvalid; lia).
  unfold inventory, report_inventory; cbv zeta; cbn [vs_storage vs_limits].
  do 2 (apply still_looks; [auto with io |]; intros ?); eapply still_yields; [apply yields_layout |]; intros layout0.
  do 2 (apply still_looks; [auto with io |]; intros ?); apply still_states; intros states.
  do 3 (apply still_looks; [auto with io |]; intros ?); eapply still_yields; [apply yields_snapshot |]; intros entries.
  eapply still_yields; [apply yields_registered |]; intros b; eapply still_yields; [apply yields_uninstalled |]; intros b'.
  do 3 (apply still_looks; [auto with io |]; intros ?).
  apply still_looks; [apply (yields_looks _ _ (yields_snapshot _ _ _)) |]; intros entries'; destruct (negb _); [apply still_raise |].
  apply still_looks; [apply (yields_looks _ _ (yields_layout _)) |]; intros layout1; destruct (negb _); [apply still_raise |].
  apply still_states; intros states'; destruct (negb _); [apply still_raise |]; apply still_looks; [auto with io |]; intros u.
  eapply still_yields; [apply yields_value; intros f n Hn; exact Hn |]; intros n; apply spec_ret; intros f d [Hh H]; split; [done |].
  destruct H as (((((((_ & Hr & Ha) & Hst) & Hs) & Hb) & Hb') & _) & Hn); unfold try_from in Hn.
  destruct (_ && _) eqn:Ec; [| done]; cbn in Hn; injection Hn as <-; apply andb_true_iff in Ec as [_ Ec]; apply Z.leb_le in Ec.
  destruct (Hb' Hs (Hb Hs Hlim)) as [Hv Hfin].
  assert (El : vlen (artifact_names f0 (es_artifacts s)) = vlen entries) by (rewrite <- (proj1 Hs); unfold vlen; by rewrite length_map).
  split; [done |]; exists (es_root s), (es_artifacts s), states; split_and!; try done; rewrite <- El in *; apply Hfin; done.
Qed.

Lemma yields_open_inventory limits : yields (open_inventory limits) (fun _ s => vs_limits s = limits /\ valid_inventory_limits limits = true).
Proof.
  unfold open_inventory; destruct (valid_inventory_limits limits) eqn:Ev; [| apply yields_raise]; cbn [negb].
  apply yields_then; [apply looks_open_storage |]; intros s; apply yields_ret; intros f.
  done.
Qed.

Lemma still_inventory_storage limits token : still True (inventory_storage limits token) (fun report => reported limits report f0 d0).
Proof.
  unfold inventory_storage; eapply still_yields; [apply yields_open_inventory |]; intros [s limits']; cbn [vs_limits].
  intros env w _ (Hh & _ & -> & Hl); by apply still_inventory.
Qed.
End Run.

(** C31. An inventory tells the truth or nothing.  In any environment it
    changes neither the files nor the records, and the report it returns is
    the one that can be read off them directly: one inspection for every
    state of the store, with the verdict on the bytes under its digest, and
    one finding for every other name of the directory, in order and counted;
    and no more bytes were hashed than the caller allows. *)
Theorem inventory_reports_exactly (limits : ArtifactInventoryLimits) (token : Token) (env : Environment) (w : World) :
  same w (snd (inventory_storage limits token env w)) /\
  forall report w', inventory_storage limits token env w = (Ok report, w') -> reported limits report (fs w) (db w).
Proof.
  pose proof (still_inventory_storage (fs w) (db w) limits token env w I (conj (conj eq_refl eq_refl) I)) as H; cbn beta in H.
  destruct (inventory_storage limits token env w) as [[r|e|] w1]; split; try done; cbn [snd].
  - by destruct H as [[] _].
  - intros report w' [= <- <-]; by destruct H.
Qed.

(** ** After a history *)

(** What sound storage holds of an installed artifact. *)
Lemma sound_registered f d limits k i e r a :
  sound f d -> installed_at d k i e -> root f = Some r -> entries_of f r !! lit "artifacts" = Some a ->
  match registered_bytes f a limits i with
  | RegisteredArtifactBytes.Verified | RegisteredArtifactBytes.AliasedEntry => True
  | RegisteredArtifactBytes.TooLargeToVerify n => n = InstalledArtifact.byte_size i
  | _ => False
  end.
Proof.
  intros (_ & Hs & _) Hi Hr Ha; destruct (Hs k i e Hi) as (c & (a' & n & Ha' & Hn & Hc) & Hkey & Hlen & Hsha).
  assert (a' = a) as -> by (apply (artifacts_at_fun f); [by apply anchor_at | by exists r]).
  apply durable_entry_some in Hn; apply installed_digest in Hi as [-> Hx]; unfold registered_bytes.
  unfold at_own_path; rewrite (bool_decide_eq_true_2 _ Hkey); cbn [negb]; rewrite (hex_not_dot _ Hx), Hn, Hc; destruct (link_count f n =? 1); cbn [negb]; [| done]; rewrite Hlen, Z.eqb_refl; cbn [negb].
  destruct (_ <? _); [done |]; by rewrite bool_decide_eq_true_2.
Qed.

(** An inspection that found what an intact installation looks like. *)
Definition intact (bytes : RegisteredArtifactBytes.t) : Prop :=
  match bytes with
  | RegisteredArtifactBytes.Verified | RegisteredArtifactBytes.AliasedEntry | RegisteredArtifactBytes.TooLargeToVerify _ => True
  | _ => False
  end.

Lemma sound_intact f d limits k i e r a :
  sound f d -> installed_at d k i e -> root f = Some r -> entries_of f r !! lit "artifacts" = Some a -> intact (registered_bytes f a limits i).
Proof. intros Hs Hi Hr Ha; pose proof (sound_registered f d limits k i e r a Hs Hi Hr Ha); by destruct (registered_bytes f a limits i). Qed.

Lemma installed_inv_manifest d k i e : inv d -> installed_at d k i e -> is_Some (artifact_manifests d !! k).
Proof. intros Hd (row & Er & _ & _ & [_ _ _ (m & (mrow & Em & _) & _)]); by exists mrow. Qed.

(** The states of the store, one for each manifest. *)
Lemma state_of_row d states k row :
  Forall2 (entry_exact d) (rows_by_key (artifact_manifests d)) states -> artifact_manifests d !! k = Some row ->
  exists st, st ∈ states /\ state_at d k st.
Proof.
  intros HF E; apply rows_by_key_elem, list_elem_of_lookup in E as [j Hj]; destruct (Forall2_lookup_l _ _ _ _ _ HF Hj) as (st & Hst & H & _).
  exists st; split; [by apply list_elem_of_lookup; exists j | done].
Qed.
Lemma row_of_state d states st :
  Forall2 (entry_exact d) (rows_by_key (artifact_manifests d)) states -> st ∈ states -> exists k, state_at d k st.
Proof.
  intros HF Hin; apply list_elem_of_lookup in Hin as [j Hj]; destruct (Forall2_lookup_r _ _ _ _ _ HF Hj) as ([k row] & _ & H & _); eauto.
Qed.

(** An installed artifact has no prepared removal. *)
Lemma installed_not_prepared d k st i e :
  inv d -> state_at d k st -> installed_at d k i e ->
  prepared_removal st = None /\ exists s, state_installed st = Some s /\ StoredArtifactInstallation.installed s = i /\ Epoch.get (StoredArtifactInstallation.epoch s) = e.
Proof.
  intros Hd [_ Hi Hr] Hk; pose proof Hk as (row & Er & _); split.
  - unfold prepared_removal; destruct (state_removal st) as [v|]; [| done]; case_bool_decide as Ep; [| done]; rewrite Ep in Hr.
    apply removing_row in Hr; [congruence | done].
  - destruct (state_installed st) as [s|]; [| congruence]; exists s; by destruct (installed_at_fun d _ _ _ _ _ Hk Hi) as [-> ->].
Qed.

(** C32. After any history of imports, removals, reconciliations, changes of
    records, failures and losses of power, a report has an inspection for
    every installed artifact, with its generation, and no inspection of an
    installed artifact finds its bytes missing, of another size, of another
    digest, in an unsafe entry or in another place than recorded. *)
Theorem inventory_finds_intact (w w' : World) (limits : ArtifactInventoryLimits) (token : Token) (env : Environment) (report : ArtifactInventoryReport) (w'' : World) :
  initial w -> rtc event w w' -> inventory_storage limits token env w' = (Ok report, w'') ->
  (forall x, x ∈ ar_registered report -> intact (ri_bytes x)) /\
  forall k i e, installed_at (db w') k i e -> exists x, x ∈ ar_registered report /\
    ri_installation x = ArtifactInstallationKey.mk (InstalledArtifact.artifact_id i) e.
Proof.
  intros Hi He Hrun; pose proof (history_sound w w' Hi He) as Hs; pose proof Hs as [Hd _].
  pose proof (still_inventory_storage (fs w') (db w') limits token env w' I (conj (conj eq_refl eq_refl) I)) as H; rewrite Hrun in H.
  destruct H as (_ & Hv & r & a & states & Hr & Ha & Hst & -> & _); apply inventory_states in Hst; [| done | by apply valid_limits].
  split; cbn [ar_registered expected_report report_on].
  - intros x Hx; apply list_elem_of_omap in Hx as (st & Hin & Ex); destruct (row_of_state _ _ _ Hst Hin) as (k & Hk).
    unfold registered_inspection in Ex; destruct (prepared_removal st); [done |]; pose proof (sa_installed _ _ _ Hk) as Hsi.
    destruct (state_installed st) as [s|]; [| done]; cbn in Ex; injection Ex as <-; cbn [ri_bytes]; by eapply sound_intact.
  - intros k i e Hk; destruct (installed_inv_manifest (db w') k i e Hd Hk) as (row & Er).
    destruct (state_of_row _ _ _ _ Hst Er) as (st & Hin & Hat); destruct (installed_not_prepared _ _ _ _ _ Hd Hat Hk) as (Ep & s & Es & <- & <-).
    eexists; split; [apply list_elem_of_omap; exists st; split; [done |]; unfold registered_inspection; rewrite Ep, Es; done | done].
Qed.
End Exact.
