(* ===== verification/InventoryCalm.v ===== *)
(** * An inventory succeeds when nothing goes wrong.

    In an environment in which no call fails, the inventory of storage with
    its layout in place returns its report. *)

From S2P Require Import Prelude Text Document Claims Json Extractor Model ModelJson StoreDb ModelStore StoreMonad StoreInv StoreSteps StoreOps StoreTheorems StoreInventory.
From S2P Require Import FileSystem StorageIo ArtifactStorage ArtifactRemoval ArtifactInventory StorageFacts StorageSpecs StorageVerify StorageSafety StorageTheorems StorageCalm RemovalReady RemovalRetry InventorySpec.

(** ** Loops *)

Lemma gives_visit {E A B} (g : B -> A -> Io E B) (I : Fs -> list A -> list A -> B -> Prop) l : forall seen b,
  (forall seen x rest b, gives (fun f => I f seen (x :: rest) b) (g b x) (fun f b' => I f (seen ++ [x]) rest b')) ->
  gives (fun f => I f seen l b) (visit g b l) (fun f b' => I f (seen ++ l) [] b').
Proof.
  induction l as [|x l IH]; intros seen b Hg; cbn [visit]; [apply gives_ret; intros f; by rewrite app_nil_r |].
  eapply gives_bind; [apply Hg |]; intros b'; cbn beta; eapply gives_weaken; [by apply (IH (seen ++ [x]) b') | by intros f [] |].
  intros f b'' _; by rewrite <- app_assoc.
Qed.

(** What a program returns when it returns. *)
Lemma gives_also {E A} (G : Fs -> Prop) (m : Io E A) (F F' : Fs -> A -> Prop) :
  yields m F -> gives G m (fun _ _ => True) -> (forall f a, G f -> F f a -> F' f a) -> gives G m F'.
Proof. intros Hy Hg H; apply (gives_weaken G G m (fun f a => True /\ F f a)); [by apply gives_yields | done |]; intros f a Hf [_ Ha]; auto. Qed.

(** ** The layout does not change *)

Definition layout_of (s : ExistingArtifactStorage) (f : Fs) (l : ArtifactStorageLayoutFingerprint) : Prop :=
  fingerprint_of f (es_root s) (lf_root l) /\ (exists n, entries_of f (es_root s) !! LIFECYCLE_LOCK_FILE = Some n /\ fingerprint_of f n (lf_lock_path l)) /\
  fingerprint_of f (es_artifacts s) (lf_artifacts l).

Lemma yields_layout_of s : yields (validate_layout s) (fun f l => layout_of s f l).
Proof.
  unfold validate_layout; eapply yields_bind; [apply yields_directory_fingerprint |]; intros p.
  apply yields_then; [apply (yields_looks _ _ yields_fingerprint_path) |]; intros q; destruct (negb _); [apply yields_raise |].
  eapply yields_bind; [apply yields_child_file |]; intros lp.
  apply yields_then; [apply (yields_looks _ _ (yields_file_fingerprint _)) |]; intros lk; destruct (negb _); [apply yields_raise |].
  eapply yields_bind; [apply yields_directory_fingerprint |]; intros p1.
  apply yields_then; [apply (yields_looks _ _ (yields_child_directory _ _)) |]; intros p2; destruct (negb _); [apply yields_raise |].
  apply yields_ret; intros f H1 (n & H2 & _ & H3) H4; split_and!; cbn; eauto.
Qed.
Lemma layout_of_fun s f l l' : layout_of s f l -> layout_of s f l' -> l = l'.
Proof.
  destruct l, l'; intros (H1 & (n & H2 & H3) & H4) (K1 & (m & K2 & K3) & K4); cbn in *; rewrite H2 in K2; injection K2 as <-.
  f_equal; by eapply fingerprint_fun.
Qed.

Lemma frozen_fun f d e e' : frozen f d e -> frozen f d e' -> ds_name e = ds_name e' -> e = e'.
Proof.
  intros (n & i & H1 & H2 & H3 & H4 & H5 & H6) (n' & i' & K1 & K2 & K3 & K4 & K5 & K6) E; rewrite <- E, H1 in K1; injection K1 as <-.
  rewrite H2 in K2; injection K2 as <-; destruct e, e'; cbn in *; congruence.
Qed.
Lemma snapshot_fun f d l l' : snapshot_of f d l -> snapshot_of f d l' -> l = l'.
Proof.
  intros [H1 H2] [K1 K2]; rewrite <- K1 in H1; clear K1; revert l' H1 K2; induction l as [|e l IH]; intros [|e' l'] H1 K2; try done.
  cbn in H1; injection H1 as E1 E2; apply Forall_cons in H2 as [H2 H3], K2 as [K2 K3]; f_equal; [by apply (frozen_fun f d) | by apply IH].
Qed.

(** ** The snapshot *)

Lemma gives_snapshot d maximum token : gives (listable d maximum) (snapshot d maximum token) (fun _ _ => True).
Proof.
  unfold snapshot; eapply gives_bind; [apply gives_yields; [apply gives_raw_entries | apply yields_raw_of] |]; intros raw.
  apply (gives_then _ _ _ (fun _ _ => True)); [| intros l; by apply gives_ret].
  eapply gives_weaken; [apply (gives_visit _ (fun f _ rest _ => is_directory f d = true /\ Forall (raw_of f d) rest) raw [] []) | | done].
  2: { intros f [[Hd _ _] [_ HF]]; by split. }
  intros seen x rest l; eapply gives_then; [apply gives_token |]; intros u; apply (gives_bind _ _ _ (fun _ _ => True)).
  2: { intros m; apply gives_ret; intros f [[Hd HF] _]; split; [done |]; by apply Forall_cons in HF as [_ HF]. }
  destruct (re_direct_regular_file x) eqn:Er; [| by apply gives_ret].
  apply (gives_bind _ _ _ (fun f n => leads TypeFile d (re_name x) n f /\ exists i, inodes f !! n = Some i /\ re_byte_size x = node_len (node i))).
  { intros env w Hc (Hd & HF); apply Forall_cons in HF as [(n & i & H1 & H2 & H3 & H4 & H5) _]; rewrite Er in H3; symmetry in H3; apply bool_decide_eq_true in H3.
    assert (Hl : leads TypeFile d (re_name x) n (fs w)) by (split; [done |]; exists (node i); unfold node_at; by rewrite H2).
    destruct (gives_map_error map_active_error _ _ _ (gives_open_file d (re_name x) n ShareVerification) env w Hc Hl) as (m & w' & E & S & ->).
    exists n, w'; split_and!; [exact E | done | done | by exists i]. }
  intros n; cbn beta; eapply gives_then; [eapply gives_pre; [apply gives_regular | by intros f [_ [[_ H] _]]] |]; intros u1.
  eapply gives_bind; [eapply gives_pre; [apply (gives_io_fingerprint n TypeFile) | by intros f [_ [[_ H] _]]] |]; intros p.
  intros env w Hc [[_ [_ (i & Hi & Hs)]] (j & Hj & ->)]; rewrite Hi in Hj; injection Hj as <-; cbn [MetadataFingerprint.length MetadataFingerprint.of_metadata metadata_of md_len].
  rewrite Hs, Z.eqb_refl; eexists _, w; by split_and!.
Qed.

Section Exact.
Context {SHA : Sha256} {JSON : JsonCodec}.

(** ** Hashing *)

Lemma gives_hash_bytes file token c :
  vlen c <= u64_max ->
  forall fuel k, (k <= length c)%nat -> (length c - k <= fuel)%nat ->
  gives (file_bytes file c) (hash_bytes_loop fuel file (vlen c) token (take k c) (Z.of_nat k)) (fun _ d => d = sha256 c).
Proof.
  intros Hb fuel; induction fuel as [|fuel IH]; intros k Hk Hf; cbn [hash_bytes_loop]; destruct (Z.ltb_spec (Z.of_nat k) (vlen c)) as [Hlt|Hge];
    [unfold vlen in Hlt; lia | | |].
  2: { eapply gives_then; [apply gives_token |]; intros u; eapply gives_bind; [apply gives_map_error, gives_read; lia |].
    intros chunk; cbn beta; apply gives_pure; intros [Hc He]; rewrite Nat2Z.id in Hc; destruct (Z.eqb_spec (vlen chunk) 0) as [Hz|Hz].
    { assert (chunk = []) as -> by (destruct chunk; [done | unfold vlen in Hz; cbn in Hz; lia]); specialize (He eq_refl); lia. }
    pose proof (f_equal length Hc) as Hlen; rewrite length_take, length_drop in Hlen; unfold vlen in *.
    rewrite try_from_some by lia; eapply gives_bind with (F := fun _ n => n = Z.of_nat (length chunk)); [by eapply gives_value |].
    intros count; cbn beta; apply gives_pure; intros ->; unfold checked_add; rewrite (proj2 (Z.leb_le _ _)) by lia.
    eapply gives_bind with (F := fun _ n => n = Z.of_nat (k + length chunk)); [eapply gives_value; [done |]; intros; lia |].
    intros o; cbn beta; apply gives_pure; intros ->.
    assert (take k c ++ chunk = take (k + length chunk) c) as -> by (rewrite <- take_take_drop; by rewrite <- Hc).
    apply IH; lia. }
  all: unfold vlen in Hge; assert (k = length c) as -> by lia; eapply gives_bind; [apply gives_map_error, gives_read; lia |]; intros chunk; cbn beta;
    apply gives_pure; intros [Hc _]; rewrite Nat2Z.id, drop_all, take_nil in Hc; rewrite Hc; change (negb (vlen [] =? 0)) with false; cbv iota;
    apply gives_value with (a := sha256 c); [rewrite firstn_all; apply finish_hash_total | done].
Qed.

(** A frozen file is hashed. *)
Lemma gives_hash_entry d e token :
  ds_direct_regular_file e = true ->
  gives (fun f => frozen f d e /\ ds_byte_size e <= u64_max) (hash_entry d e token) (fun _ _ => True).
Proof.
  intros Er env w Hc [Hf Hu]; assert (Ei : ds_indirect e = false).
  { destruct Hf as (n & i & _ & _ & H3 & H4 & _); rewrite Er in H3; symmetry in H3; apply bool_decide_eq_true in H3; by rewrite H4, H3. }
  destruct (frozen_regular _ d e Hf Ei Er) as (n & c & s & Hn & Hc' & Hsz & _); revert env w Hc Hf Hn Hc'.
  enough (H : gives (fun f => frozen f d e /\ leads TypeFile d (ds_name e) n f /\ file_bytes n c f) (hash_entry d e token) (fun _ _ => True)).
  { intros env w Hc Hf Hn Hc'; apply H; [done |]; split_and!; [done | split; [done | by exists (RegularFile c s)] | by exists s]. }
  unfold hash_entry; eapply gives_bind; [apply gives_map_error; eapply gives_pre; [apply (gives_open_file d (ds_name e) n) | by intros f (_ & ? & _)] |].
  intros file; cbn beta; apply gives_pure; intros ->; eapply gives_then; [eapply gives_pre; [apply gives_regular | by intros f (_ & [_ ?] & _)] |]; intros u.
  eapply gives_bind; [eapply gives_pre; [apply (gives_io_fingerprint n TypeFile) | by intros f (_ & [_ ?] & _)] |]; intros p; cbn beta.
  assert (Hp : forall f, frozen f d e -> entries_of f d !! ds_name e = Some n -> fingerprint_of f n p -> Some p = ds_metadata e).
  { intros f (m & i & H1 & H2 & H3 & _ & _ & H6) Hm (j & Hj & ->); rewrite Hm in H1; injection H1 as <-; rewrite H2 in Hj; injection Hj as <-.
    by rewrite H6, <- H3, Er. }
  intros env w Hc [(Hf & [Hn Ht] & Hb) Hfp]; specialize (Hp (fs w) Hf Hn Hfp); rewrite (bool_decide_eq_true_2 _ Hp); cbn [negb]; revert env w Hc Hf Hn Ht Hb Hfp.
  enough (H : gives (fun f => leads TypeFile d (ds_name e) n f /\ file_bytes n c f /\ fingerprint_of f n p)
    (observed ← hash_exact_bytes n (ds_byte_size e) token; final_handle ← io (MetadataFingerprint.from_file n);
     if negb (bool_decide (final_handle = p)) then raise ArtifactInventoryError.ConcurrentModification
     else final_file ← active (open_file d (ds_name e) ShareVerification); final_entry ← io (MetadataFingerprint.from_file final_file);
          if negb (bool_decide (final_entry = p)) then raise ArtifactInventoryError.ConcurrentModification else mret observed) (fun _ _ => True)).
  { intros env w Hc Hf Hn Ht Hb Hfp; by apply H. }
  rewrite Hsz; unfold hash_exact_bytes; eapply gives_then.
  { eapply gives_pre; [apply (gives_hash_bytes n token c) with (k := 0%nat); [lia | lia | unfold vlen; lia] | by intros f (_ & ? & _)]. }
  intros x; eapply gives_bind; [eapply gives_pre; [apply (gives_io_fingerprint n TypeFile) | by intros f ([_ ?] & _)] |]; intros q.
  apply gives_pre with (G := fun f => (leads TypeFile d (ds_name e) n f /\ fingerprint_of f n p) /\ q = p);
    [| intros f ((H1 & _ & H3) & H4); split; [done | by eapply fingerprint_fun]].
  apply gives_pure; intros ->; rewrite bool_decide_eq_true_2 by done; cbn [negb].
  eapply gives_bind; [apply gives_map_error; eapply gives_pre; [apply (gives_open_file d (ds_name e) n) | by intros f [? _]] |].
  intros file; cbn beta; apply gives_pure; intros ->; eapply gives_bind; [eapply gives_pre; [apply (gives_io_fingerprint n TypeFile) | by intros f ([_ ?] & _)] |]; intros q.
  apply gives_pre with (G := fun f => True /\ q = p); [| intros f ((_ & H3) & H4); split; [done | by eapply fingerprint_fun]].
  apply gives_pure; intros ->; rewrite bool_decide_eq_true_2 by done; by apply gives_ret.
Qed.

(** ** The builder *)

Section Builder.
Context (input : InventoryInput) (d : Z) (token : Token).
Abbreviation total_limit := (vl_maximum_total_verification_bytes (ii_limits input)).
Context (Hlimit : total_limit <= u64_max).

Lemma gives_builder_hash e b :
  ds_direct_regular_file e = true -> 0 <= ib_verified_bytes b ->
  gives (fun f => frozen f d e /\ ib_verified_bytes b + ds_byte_size e <= total_limit) (builder_hash input d e token b) (fun _ _ => True).
Proof.
  intros Er H0 env w Hc [Hf Hle]; revert env w Hc Hf.
  enough (H : gives (fun f => frozen f d e) (builder_hash input d e token b) (fun _ _ => True)) by (intros env w Hc Hf; by apply H).
  unfold builder_hash, checked_add; rewrite (proj2 (Z.leb_le (ib_verified_bytes b + ds_byte_size e) u64_max)) by lia; cbn [mbind option_bind].
  rewrite (proj2 (Z.leb_le _ _) Hle); apply (gives_then _ _ _ (fun _ _ => True)); [by eapply gives_value |]; intros t.
  eapply gives_then; [eapply gives_pre; [by apply gives_hash_entry |]; intros f Hf; split; [done | lia] |]; intros x; by apply gives_ret.
Qed.

(** A program that needs no call. *)
Lemma gives_now {E A} (a : A) G : gives (E := E) G (mret a) (fun _ _ => True).
Proof. by apply gives_ret. Qed.

Lemma gives_classify i b :
  0 <= ib_verified_bytes b ->
  gives (fun f => snapshot_of f d (ii_entries input) /\ ib_verified_bytes b + hashed_of f d (ii_limits input) i <= total_limit)
    (classify_registered input d i token b) (fun _ _ => True).
Proof.
  intros H0 env w Hc [Hs Hle]; revert env w Hc Hs Hle; unfold classify_registered.
  set (name := Digest.as_str (InstalledArtifact.artifact_digest i)) in *; destruct (negb (text_eqb _ _)) eqn:Ek; [intros; by apply (gives_now _ (fun _ => True)) |].
  destruct (find_exact_entry (ii_entries input) name) as [e|] eqn:Ee; [| intros; by apply (gives_now _ (fun _ => True))].
  destruct (_ || _) eqn:Eu; [intros; by apply (gives_now _ (fun _ => True)) |]; apply orb_false_iff in Eu as [Ei Er]; apply negb_false_iff in Er.
  destruct (negb (entry_has_single_link e)) eqn:El; [intros; by apply (gives_now _ (fun _ => True)) |]; apply negb_false_iff in El.
  destruct (negb (_ =? _)) eqn:Ez; [intros; by apply (gives_now _ (fun _ => True)) |]; apply negb_false_iff, Z.eqb_eq in Ez.
  destruct (_ <? ds_byte_size e) eqn:Em; [intros; by apply (gives_now _ (fun _ => True)) |]; intros env w Hc Hs Hle.
  pose proof (find_entry (fs w) d _ name Hs) as H; rewrite Ee in H; destruct H as (Hn & Hf & Hd).
  apply (gives_then _ _ _ _ (fun _ _ => True) (gives_builder_hash e b Er H0)); [intros [x b']; apply gives_now | done |]; split; [done |].
  destruct (frozen_regular _ d e Hf Ei Er) as (n & c & s & H1 & H2 & H3 & H4); unfold hashed_of, registered_bytes in Hle; fold name in Hle.
  change (at_own_path i) with (canonical_key i) in Hle; unfold canonical_key in Hle; fold name in Hle; rewrite Ek, Hd in Hle; cbn [negb] in Hle; rewrite <- Hn, H1, H2, <- H3, <- H4, El, Ez, Z.eqb_refl in Hle.
  cbn [negb] in Hle; rewrite Ez in Em; rewrite Em in Hle; by destruct (bool_decide _); rewrite Ez.
Qed.

(** A state that is not installed and prepared for removal at once. *)
Definition consistent (st : StoredArtifactState) : Prop := is_Some (prepared_removal st) -> state_installed st = None.

Lemma gives_complete stage b G : gives G (complete stage b) (fun _ _ => True).
Proof. unfold complete, report_inventory; eapply gives_then; [apply gives_report |]; intros u; apply gives_now. Qed.

Lemma gives_state st b :
  consistent st -> 0 <= ib_verified_bytes b ->
  gives (fun f => snapshot_of f d (ii_entries input) /\ ib_verified_bytes b + state_hashed f d (ii_limits input) st <= total_limit)
    (inspect_state input d token b st) (fun _ _ => True).
Proof.
  intros Hcons H0; unfold inspect_state, state_hashed; eapply gives_then; [apply gives_token |]; intros u.
  unfold consistent, prepared_removal in *; destruct (state_removal st) as [v|]; [destruct (bool_decide _) |].
  - rewrite Hcons by done; rewrite bool_decide_eq_false_2 by (intros H; by apply is_Some_None in H).
    eapply gives_then; [by apply gives_classify |]; intros [x b']; apply gives_complete.
  - destruct (state_installed st) as [s|]; [| apply gives_complete].
    eapply gives_then; [by apply gives_classify |]; intros [x b']; apply gives_complete.
  - destruct (state_installed st) as [s|]; [| apply gives_complete].
    eapply gives_then; [by apply gives_classify |]; intros [x b']; apply gives_complete.
Qed.
End Builder.

(** ** Both loops *)

Lemma sum_app l k : sum_of (l ++ k) = sum_of l + sum_of k.
Proof. unfold sum_of; induction l as [|x l IH]; cbn; lia. Qed.
Lemma sum_nonneg l : Forall (Z.le 0) l -> 0 <= sum_of l.
Proof. unfold sum_of; induction 1; cbn; lia. Qed.
Lemma hashed_nonneg f d limits i : 0 <= hashed_of f d limits i.
Proof.
  unfold hashed_of; destruct (registered_bytes f d limits i) eqn:E; try lia; unfold registered_bytes in E;
    destruct (negb (at_own_path i)); try done; destruct (if not_dot _ then _ else _) as [n|]; try done;
    destruct (node_at f n) as [[c s| | |]|]; try done; destruct (negb (_ =? 1)); try done; destruct (Z.eqb_spec (vlen c) (InstalledArtifact.byte_size i)) as [<-|];
    try done; apply vlen_nonneg.
Qed.
Lemma state_hashed_nonneg f d limits st : 0 <= state_hashed f d limits st.
Proof. unfold state_hashed; destruct (prepared_removal st), (state_installed st); auto using hashed_nonneg; lia. Qed.
Lemma finding_nonneg f d limits states name : 0 <= finding_hashed (finding f d limits states name).
Proof.
  unfold finding; destruct (Digest.from_sha256_hex name); cbn; try lia; destruct (existsb _ states); cbn; [lia |]; unfold file_finding.
  destruct (_ ≫= _) as [[n [c s| | |]]|]; cbn; try lia; pose proof (vlen_nonneg c).
  destruct (vlen c =? 0); [done |]; destruct (negb _); [done |]; destruct (_ <? _); [done |]; by destruct (bool_decide _).
Qed.

Lemma sum_nonneg_map {A} (g : A -> Z) l : (forall y, 0 <= g y) -> 0 <= sum_of (map g l).
Proof. intros Hg; apply sum_nonneg, Forall_forall; intros z Hz; apply list_elem_of_fmap in Hz as (y & -> & _); apply Hg. Qed.

(** A part of a sum. *)
Lemma sum_part {A} (g : A -> Z) seen x rest : (forall y, 0 <= g y) -> 0 <= sum_of (map g seen) /\ sum_of (map g seen) + g x <= sum_of (map g (seen ++ x :: rest)).
Proof.
  intros Hg; pose proof (fun l => sum_nonneg_map g l Hg) as Hn; split; [done |]; change (x :: rest) with ([x] ++ rest); rewrite !map_app, !sum_app; specialize (Hn rest); unfold sum_of at 3; cbn; lia.
Qed.

Section Loops.
Context (states : list StoredArtifactState) (entries : list DirectoryEntrySnapshot) (limits : ArtifactInventoryLimits) (d : Z) (token : Token).
Abbreviation input := (new_input states entries limits).
Context (Hlimit : vl_maximum_total_verification_bytes limits <= u64_max).

Lemma gives_name e b :
  0 <= ib_verified_bytes b ->
  gives (fun f => frozen f d e /\ ib_verified_bytes b + finding_hashed (finding f d limits states (ds_name e)) <= vl_maximum_total_verification_bytes limits)
    (inspect_entry_snapshot input d token b e) (fun _ _ => True).
Proof.
  intros H0; unfold inspect_entry_snapshot, finding; eapply gives_then; [apply gives_token |]; intros u.
  destruct (Digest.from_sha256_hex (ds_name e)) as [claimed|err|]; [| apply gives_complete ..].
  rewrite held_exact; destruct (existsb _ states); [apply gives_now |].
  apply (gives_then _ _ _ (fun _ _ => True)); [| intros b'; apply gives_complete].
  destruct (ds_indirect e) eqn:Ei; [apply gives_now |]; destruct (ds_direct_regular_file e) eqn:Er; cbn [negb]; [| apply gives_now].
  destruct (ds_byte_size e =? 0) eqn:Ez; [apply gives_now |]; destruct (entry_has_single_link e) eqn:El; cbn [negb]; [| apply gives_now].
  change (ii_limits input) with limits; destruct (_ <? ds_byte_size e) eqn:Elim; [apply gives_now |].
  eapply gives_then; [eapply gives_pre; [by apply (gives_builder_hash input d token Hlimit e b) |] | intros [x b']; apply gives_now].
  cbn beta; intros f [Hf Hle]; split; [done |]; destruct (frozen_regular f d e Hf Ei Er) as (n & c & s & H1 & H2 & H3 & H4).
  unfold file_finding in Hle; rewrite H1 in Hle; cbn [mbind option_bind] in Hle; rewrite H2 in Hle; cbn [mbind option_bind] in Hle.
  rewrite <- H3, <- H4, Ez, El, Elim in Hle; cbn [negb] in Hle; by destruct (bool_decide _).
Qed.

Lemma seen_states f seen b : seen_so_far f d input seen [] b -> ib_verified_bytes b = sum_of (map (state_hashed f d limits) seen).
Proof. intros [_ H]; specialize (H ltac:(done)); apply (f_equal ar_verified_bytes) in H; cbn in H; rewrite H; unfold sum_of at 2; cbn; lia. Qed.

Lemma gives_registered :
  Forall consistent states ->
  gives (fun f => snapshot_of f d entries /\ sum_of (map (state_hashed f d limits) states) <= vl_maximum_total_verification_bytes limits)
    (inspect_registered input d token new_builder) (fun _ _ => True).
Proof.
  intros Hcons; unfold inspect_registered; change (ii_states input) with states; eapply gives_weaken.
  - apply (gives_visit _ (fun f seen rest b => (snapshot_of f d entries /\ sum_of (map (state_hashed f d limits) states) <= vl_maximum_total_verification_bytes limits) /\
      seen ++ rest = states /\ seen_so_far f d input seen [] b) states []).
    intros seen st rest b; eapply gives_also; [apply (yields_state input d token seen st b) | |].
    + intros env w Hc ([Hs Hle] & Hst & Hb); pose proof (seen_states _ _ _ Hb) as Hv; apply gives_state; try done.
      * rewrite Forall_forall in Hcons; apply Hcons; rewrite <- Hst; apply elem_of_app; right; by left.
      * rewrite Hv; by apply (sum_part (state_hashed (fs w) d limits) seen st rest), state_hashed_nonneg.
      * split; [done |]; rewrite Hv; change (ii_limits input) with limits; rewrite <- Hst in Hle.
        pose proof (sum_part (state_hashed (fs w) d limits) seen st rest (state_hashed_nonneg _ _ _)); lia.
    + intros f b' ([Hs Hle] & Hst & Hb) H; split_and!; try done; [by rewrite <- app_assoc | by apply H].
  - cbn beta; intros f [Hs Hle]; split_and!; try done; split; [| done]; cbn.
    pose proof (sum_nonneg_map (state_hashed f d limits) states (state_hashed_nonneg _ _ _)); lia.
  - done.
Qed.

Lemma seen_names f names b :
  vlen names <= u64_max -> seen_so_far f d input states names b ->
  ib_verified_bytes b = sum_of (map (state_hashed f d limits) states) + sum_of (map (fun n => finding_hashed (finding f d limits states n)) names).
Proof.
  intros Hl [_ H]; specialize (H Hl); apply (f_equal ar_verified_bytes) in H; cbn in H; by rewrite map_map in H.
Qed.

Lemma gives_uninstalled b :
  vlen entries <= u64_max ->
  gives (fun f => snapshot_of f d entries /\ seen_so_far f d input states [] b /\
      ar_verified_bytes (expected_report f d limits states) <= vl_maximum_total_verification_bytes limits)
    (inspect_uninstalled input d token b) (fun _ _ => True).
Proof.
  intros Hlen; unfold inspect_uninstalled; change (ii_entries input) with entries; eapply gives_weaken; [| | done].
  - apply (gives_visit _ (fun f seen rest b => (snapshot_of f d entries /\ ar_verified_bytes (expected_report f d limits states) <= vl_maximum_total_verification_bytes limits) /\
      seen ++ rest = entries /\ seen_so_far f d input states (map ds_name seen) b) entries []).
    intros seen e rest b1; eapply gives_also; [apply (yields_name_seen states entries limits d token (map ds_name seen) e b1) | |].
    + intros env w Hc ([[Hn HF] Hle] & Hst & Hb).
      assert (Hl : vlen (map ds_name seen) <= u64_max) by (rewrite <- Hst, vlen_app in Hlen; pose proof (vlen_nonneg (e :: rest)); unfold vlen in *; rewrite length_map; lia).
      pose proof (seen_names _ _ _ Hl Hb) as Hv; rewrite map_map in Hv; set (g := fun e => finding_hashed (finding (fs w) d limits states (ds_name e))) in *.
      destruct (sum_part g seen e rest (fun y => finding_nonneg _ _ _ _ _)) as [Hp1 Hp2].
      pose proof (sum_nonneg_map (state_hashed (fs w) d limits) states (state_hashed_nonneg _ _ _)) as Hp3.
      unfold expected_report, report_on in Hle; cbn [ar_verified_bytes] in Hle; rewrite <- Hn, <- Hst, !map_map in Hle.
      apply gives_name; [lia | done |]; rewrite <- Hst in HF; apply Forall_app in HF as [_ HF]; apply Forall_cons in HF as [He _]; split; [done |].
      change (finding_hashed _) with (g e); change (sum_of (map _ (seen ++ e :: rest))) with (sum_of (map g (seen ++ e :: rest))) in Hle; lia.
    + intros f b' ([[Hn HF] Hle] & Hst & Hb) H; split_and!; try done; [by rewrite <- app_assoc |]; rewrite map_app; apply H; [| done].
      rewrite <- Hst in HF; apply Forall_app in HF as [_ HF]; by apply Forall_cons in HF as [He _].
  - by intros f (H1 & H2 & H3).
Qed.
End Loops.

(** ** The service *)

Lemma states_consistent d states :
  inv d -> Forall2 (entry_exact d) (rows_by_key (artifact_manifests d)) states -> Forall consistent states.
Proof.
  intros Hd HF; apply Forall_forall; intros st Hst [s Hs]; destruct (row_of_state d states st HF Hst) as [k [_ Hi Hr]].
  unfold prepared_removal in Hs; destruct (state_removal st) as [v|]; [| done]; case_bool_decide as Ep; [| done]; rewrite Ep in Hr.
  apply removing_row in Hr; [| done]; destruct (state_installed st) as [x|]; [| done]; destruct Hi as (row & Er & _); congruence.
Qed.

Section Run.
Context (f0 : Fs) (d0 : Db).

Definition settles {E A} (p : Prop) (m : Io E A) (Q : A -> Prop) : Prop :=
  total (fun f d => (f = f0 /\ d = d0) /\ p) m (fun a f d => (f = f0 /\ d = d0) /\ Q a).

Lemma settles_bind {E A B} (p : Prop) (m : Io E A) (g : A -> Io E B) (G : Fs -> Prop) (F : Fs -> A -> Prop) (Q : B -> Prop) :
  gives G m F -> (p -> G f0) -> (forall a, settles (p /\ F f0 a) (g a) Q) -> settles p (m ≫= g) Q.
Proof.
  intros Hm Hp Hg; eapply spec_bind; [apply (total_gives m _ G F Hm) |]; [intros f d [[-> _] H]; auto |].
  intros a; eapply spec_weaken; [apply (Hg a) | | done]; intros f d [[[-> ->] H] HF]; by split.
Qed.
Lemma settles_skip {E A B} (p : Prop) (m : Io E A) (g : A -> Io E B) (Q : B -> Prop) :
  (forall G, gives G m (fun _ _ => True)) -> (forall a, settles p (g a) Q) -> settles p (m ≫= g) Q.
Proof.
  intros Hm Hg; apply (settles_bind p m g (fun _ => True) (fun _ _ => True)); [done | done |]; intros a.
  eapply spec_weaken; [apply (Hg a) | | done]; intros f d [H [Hp _]]; by split.
Qed.
Lemma settles_known {E A} (p : Prop) (m : Io E A) (Q : A -> Prop) : (p -> settles p m Q) -> settles p m Q.
Proof. intros H env w Hc [Hw Hp]; by apply (H Hp). Qed.
Lemma settles_states {B} (p : Prop) maximum g (k : list StoredArtifactState -> Storage B) states (Q : B -> Prop) :
  pure (artifact_inventory maximum) d0 = (Ok states, d0) -> settles p (k states) Q ->
  settles p (x ← map_error g (sql (artifact_inventory maximum)); k x) Q.
Proof.
  intros E H; eapply spec_bind with (Q := fun x f d => ((f = f0 /\ d = d0) /\ p) /\ x = states).
  - apply spec_map_error, total_sql; intros f d [[-> ->] Hp]; by exists states, d0.
  - intros x env w Hc [Hw ->]; by apply H.
Qed.

Context (limits : ArtifactInventoryLimits) (token : Token) (r lk a : Z) (states : list StoredArtifactState).
Context (Hvalid : valid_inventory_limits limits = true) (Hlimit : vl_maximum_total_verification_bytes limits <= u64_max).
Context (Hlayout : layout r lk a f0) (Hlist : listable a (vl_maximum_storage_entries limits) f0).
Context (Hstates : pure (artifact_inventory (vl_maximum_state_entries limits)) d0 = (Ok states, d0)) (Hcons : Forall consistent states).
Context (Hsum : ar_verified_bytes (expected_report f0 a limits states) <= vl_maximum_total_verification_bytes limits).

Lemma storage_limit : vl_maximum_storage_entries limits <= u64_max.
Proof.
  revert Hvalid; unfold valid_inventory_limits; rewrite !andb_true_iff, !bool_decide_eq_true; intros [_ [v H]]; unfold try_from in H.
  destruct (_ && _) eqn:E; [| done]; apply andb_true_iff in E as [_ E]; by apply Z.leb_le.
Qed.
Lemma names_count entries : snapshot_of f0 a entries -> vlen entries <= u64_max.
Proof.
  intros [Hn _]; pose proof storage_limit; destruct Hlist as [_ _ Hs]; apply (f_equal length) in Hn; rewrite length_map in Hn.
  unfold artifact_names in Hn; rewrite sort_by_perm in Hn; pose proof (List.filter_length_le not_dot (map fst (map_to_list (entries_of f0 a)))) as Hle.
  rewrite length_map, length_map_to_list in Hle; unfold vlen; lia.
Qed.
Lemma states_sum : sum_of (map (state_hashed f0 a limits) states) <= vl_maximum_total_verification_bytes limits.
Proof.
  unfold expected_report, report_on in Hsum; cbn [ar_verified_bytes] in Hsum; rewrite !map_map in Hsum.
  pose proof (sum_nonneg_map (fun n => finding_hashed (finding f0 a limits states n)) (artifact_names f0 a) (fun n => finding_nonneg _ _ _ _ _)); lia.
Qed.

Lemma settles_inventory : settles True (inventory {| vs_storage := storage_in Shared r lk a; vs_limits := limits |} token) (fun _ => True).
Proof.
  unfold inventory, report_inventory; cbv zeta; cbn [vs_storage vs_limits storage_in es_artifacts].
  assert (Hl : gives (layout r lk a) (validate_layout (storage_in Shared r lk a)) (fun f l => layout_of (storage_in Shared r lk a) f l)).
  { eapply gives_also; [apply yields_layout_of | apply gives_layout | done]. }
  assert (Hs : gives (listable a (vl_maximum_storage_entries limits)) (snapshot a (vl_maximum_storage_entries limits) token) (fun f l => snapshot_of f a l)).
  { eapply gives_also; [apply yields_snapshot | apply gives_snapshot | done]. }
  apply settles_skip; [intros; apply gives_token |]; intros _; apply settles_skip; [intros; apply gives_report |]; intros _.
  apply (settles_bind _ _ _ _ _ _ Hl); [done |]; intros l0.
  apply settles_skip; [intros; apply gives_token |]; intros _; apply settles_skip; [intros; apply gives_report |]; intros _.
  apply (settles_states _ _ _ _ states); [done |].
  apply settles_skip; [intros; apply gives_token |]; intros _; apply settles_skip; [intros; apply gives_report |]; intros _.
  apply settles_skip; [intros; apply gives_token |]; intros _; apply (settles_bind _ _ _ _ _ _ Hs); [done |]; intros entries.
  eapply settles_bind; [eapply gives_also; [apply yields_registered | apply gives_registered; [exact Hlimit | exact Hcons] | intros f b _ H; exact H] | |].
  { intros [_ He]; split; [exact He | apply states_sum]. }
  intros b; apply settles_known; intros ((Hl0 & He) & Hb).
  assert (Hlim0 : 0 <= vl_maximum_total_verification_bytes limits) by (pose proof (valid_limits limits Hvalid); lia).
  specialize (Hb He Hlim0); pose proof (names_count entries He) as Hn.
  eapply settles_bind; [by apply (gives_uninstalled states entries limits a token Hlimit b) | intros _; split_and!; [exact He | exact Hb | exact Hsum] |]; intros b'.
  apply settles_skip; [intros; apply gives_token |]; intros _; apply settles_skip; [intros; apply gives_report |]; intros _.
  apply settles_skip; [intros; apply gives_token |]; intros _; apply (settles_bind _ _ _ _ _ _ Hs); [done |]; intros entries'.
  apply settles_known; intros [_ He']; rewrite (snapshot_fun _ _ _ _ He' He), bool_decide_eq_true_2 by done; cbn [negb].
  apply (settles_bind _ _ _ _ _ _ Hl); [done |]; intros l1; apply settles_known; intros [_ Hl1].
  rewrite (layout_of_fun _ _ _ _ Hl1 (proj2 Hl0)), bool_decide_eq_true_2 by done; cbn [negb]; apply (settles_states _ _ _ _ states); [done |].
  rewrite bool_decide_eq_true_2 by done; cbn [negb]; apply settles_skip; [intros; apply gives_token |]; intros _.
  rewrite try_from_some by (pose proof (vlen_nonneg entries); lia); apply spec_ret; by intros f d [].
Qed.

Lemma settles_inventory_storage : settles True (inventory_storage limits token) (fun _ => True).
Proof.
  unfold inventory_storage, open_inventory; rewrite Hvalid; cbn [negb]; eapply settles_bind with (F := fun _ s => s = {| vs_storage := storage_in Shared r lk a; vs_limits := limits |}).
  - eapply gives_bind; [apply (gives_open_in Shared r lk a) |]; intros s; cbn beta; apply gives_pure; intros ->; by apply gives_ret.
  - done.
  - intros s; apply settles_known; intros [_ ->]; intros env w Hc [Hw _]; by apply settles_inventory.
Qed.
End Run.

(** C33. An inventory succeeds when nothing stands in its way.  On storage with
    its root, lock and artifact directory in place, with no more names,
    records and bytes to hash than the caller allows, in an environment in
    which no call fails and nobody cancels, the inventory returns the report
    that can be read off the files and the records, with one state for each
    manifest of the store. *)
Theorem inventory_succeeds (limits : ArtifactInventoryLimits) (token : Token) (env : Environment) (w : World) (r lk a : Z) :
  calm env -> inv (db w) -> valid_inventory_limits limits = true -> vl_maximum_total_verification_bytes limits <= u64_max ->
  layout r lk a (fs w) -> listable a (vl_maximum_storage_entries limits) (fs w) ->
  Z.of_nat (size (artifact_manifests (db w))) <= vl_maximum_state_entries limits ->
  exists states, pure (artifact_inventory (vl_maximum_state_entries limits)) (db w) = (Ok states, db w) /\
    Forall2 (entry_exact (db w)) (rows_by_key (artifact_manifests (db w))) states /\
    (ar_verified_bytes (expected_report (fs w) a limits states) <= vl_maximum_total_verification_bytes limits ->
     fst (inventory_storage limits token env w) = Ok (expected_report (fs w) a limits states)).
Proof.
  intros Hc Hd Hv Hmax Hlay Hlist Hsize; destruct (inventory_run (db w) Hd _ (proj1 (valid_limits limits Hv)) Hsize) as (states & Hst & HF).
  exists states; split; [done |]; split; [done |]; intros Hsum; pose proof (states_consistent _ _ Hd HF) as Hcons.
  pose proof (settles_inventory_storage (fs w) (db w) limits token r lk a states Hv Hmax Hlay Hlist Hst Hcons Hsum env w Hc (conj (conj eq_refl eq_refl) I)) as H.
  pose proof (still_inventory_storage (fs w) (db w) limits token env w I (conj (conj eq_refl eq_refl) I)) as H'.
  destruct (inventory_storage limits token env w) as [[report| |] w1]; try done; cbn [fst]; f_equal.
  destruct H' as (_ & _ & r' & a' & states' & Hr & Ha & Hst' & -> & _); destruct Hlay as [Hroot _ _ [Hart _]].
  rewrite Hroot in Hr; injection Hr as <-; rewrite Hart in Ha; injection Ha as <-; congruence.
Qed.
End Exact.
