(* ===== verification/CandidateCheck.v ===== *)
(** * Candidate checking end to end ([app/src/candidate_check.rs]).

    Parse the source, offer the caller's text as the one candidate, run the
    engine with the literal evaluator and the plain-text structure check,
    apply the edits, verify the result, and fall back to the original bytes. *)

From S2P Require Import Prelude Text Regex Float32 Document TextSafety Rewrite Claims Evidence.
From S2P Require Import TextAdapter Extract Protection Semantic Policy ClaimCompare SpanReport Engine EngineProps.
From S2P Require Import Json Model Inference Grounded.

Definition MAX_CANDIDATE_CHECK_BYTES : Z := MAX_PLAIN_TEXT_BYTES.

Record CandidateCheckRequest := {
  req_source : bytes;
  req_candidate : text;
  req_protected_terms : list text;
  req_layout : option LayoutConstraints;
  req_edit_level : option EditLevel
}.

(** [CandidateCheckRequest::new]. *)
Definition new_request (source : bytes) (candidate : text) (terms : list text) : CandidateCheckRequest := {|
  req_source := source; req_candidate := candidate; req_protected_terms := terms;
  req_layout := None; req_edit_level := None |}.

(** [with_layout] and [with_edit_level]. *)
Definition with_layout (r : CandidateCheckRequest) (layout : option LayoutConstraints) : CandidateCheckRequest := {|
  req_source := req_source r; req_candidate := req_candidate r; req_protected_terms := req_protected_terms r;
  req_layout := layout; req_edit_level := req_edit_level r |}.
Definition with_edit_level (r : CandidateCheckRequest) (level : option EditLevel) : CandidateCheckRequest := {|
  req_source := req_source r; req_candidate := req_candidate r; req_protected_terms := req_protected_terms r;
  req_layout := req_layout r; req_edit_level := level |}.

Record CandidateCheckResult := { output : bytes; record : RewriteRecord.t }.

(** The errors of the claim extraction service, which [AppError] wraps with
    those of the grounded strategy. *)
Inductive ClaimExtractionError :=
| ExtractionInvalidRequest | ManifestMismatch
| TextTooLarge (actual maximum : Z)
| ExtractionCancelled | ExtractionDeadline | ExtractionUnavailable
| ExtractionBackend (e : InferenceError) | InvalidPayload | PayloadMismatch
| InvalidEvidence (e : ClaimEvidenceError) | Comparison (e : ClaimComparisonError).

(** The error of every application service; the check below constructs the
    first three. *)
Inductive AppError :=
| CandidateTooLarge (actual maximum : Z)
| AppTextAdapter (e : TextAdapterError)
| AppEngine (e : EngineError)
| AppProtection (e : ProtectionError)
| Grounded (e : GroundedError)
| GroundedUnavailable
| GroundedSelectionMismatch
| GroundedRuntimeUnavailable
| GroundedRepository
| ClaimExtraction (e : ClaimExtractionError).

(** [strip_utf8_bom_prefix]. *)
Definition strip_utf8_bom_prefix (candidate : text) : text :=
  match strip_prefix [0xFEFF] candidate with Some rest => rest | None => candidate end.

Section Check.
Context {UT : UnicodeTables} {RE : RegexEngine} {AC : AhoCorasick} {SHA : Sha256} {LINT : EditorialLint}.

(** [PlainTextStructure::validate]. *)
Definition PlainTextStructure (parsed : ParsedTextDocument) : StructureValidator := fun u candidate =>
  if negb (replacement_preserves_text_safety (unit_text u) candidate) then StructureUnsafeText
  else if replacement_preserves_structure parsed candidate then Preserved
  else Changed.

(** [run_plain_text_transaction]. *)
Definition run_plain_text_transaction (parsed : ParsedTextDocument) (generator : CandidateGenerator)
    (options : RewriteOptions) (claim_shadow : option ClaimShadowObserver) (sched : Schedule)
  : Result AppError CandidateCheckResult :=
  let engine := {|
    Engine.generator := generator; semantic := LiteralSemanticEvaluator;
    structure := PlainTextStructure parsed; Engine.claim_shadow := claim_shadow |} in
  outcome ← map_err AppEngine (run engine sched (document parsed) options);
  proposed ← map_err AppTextAdapter (apply parsed (edits outcome));
  let verification := verify parsed proposed (edits outcome) in
  let '(output, status, reason, selected) :=
    if valid verification
    then (proposed, out_status outcome, out_reason outcome, selected_candidates outcome)
    else (original parsed, Abstained, Some ReassemblyVerification, []) in
  Ok {| output := output;
        record := RewriteRecord.new (DocumentIr.document_id (document parsed))
                    (DocumentIr.source_digest (document parsed)) (sha256 output) status reason selected
                    (assessments outcome) |}.

(** [check_with_claim_shadow]. *)
Definition check_with_claim_shadow (request : CandidateCheckRequest) (sched : Schedule)
    (claim_shadow : option ClaimShadowObserver) : Result AppError CandidateCheckResult :=
  let candidate := strip_utf8_bom_prefix (req_candidate request) in
  if MAX_CANDIDATE_CHECK_BYTES <? slen candidate
  then Err (CandidateTooLarge (slen candidate) MAX_CANDIDATE_CHECK_BYTES)
  else
    parsed ← map_err AppTextAdapter (parse (req_source request));
    let options := {|
      mode := Literal; atomicity := atomicity default_options;
      protected_terms := req_protected_terms request;
      minimum_semantic_confidence := minimum_semantic_confidence default_options;
      edit_level := req_edit_level request; layout := req_layout request |} in
    run_plain_text_transaction parsed (ProvidedCandidateGenerator [candidate]) options claim_shadow sched.

(** [check_with_cancellation]. *)
Definition check_with_cancellation (request : CandidateCheckRequest) (sched : Schedule)
  : Result AppError CandidateCheckResult :=
  check_with_claim_shadow request sched None.

(** [check]: a token nobody cancels. *)
Definition check (request : CandidateCheckRequest) : Result AppError CandidateCheckResult :=
  check_with_cancellation request (fun _ => false).

End Check.

(** ** What an edit keeps *)

(** The text is made of the surfaces, each in a place of its own, with
    other text between them. *)
Definition carries (surfaces : list text) (s : text) : Prop :=
  exists l tail, s = old_text l tail /\ map (fun h : hole => snd (fst h)) l ≡ₚ surfaces.

Section Faithful.
Context {UT : UnicodeTables} {RE : RegexEngine} {AC : AhoCorasick} {SHA : Sha256} {LINT : EditorialLint}.

Lemma accounts_carries (values : list ProtectedValue) (l : list hole) :
  accounts_for values l -> map (fun h : hole => snd (fst h)) l ≡ₚ map surface values.
Proof.
  intros (idx & Hf & Hnd & Hall).
  assert (Hl : map (fun h : hole => snd (fst h)) l = map (fun i => default [] (surface <$> values !! i)) idx).
  { clear Hnd Hall; induction Hf as [|h i l idx Hh Hf IH]; [done |]; cbn [map]; rewrite IH; f_equal.
    destruct Hh as (v & Hv & _ & Ho); rewrite Hv; exact Ho. }
  pose proof (all_indices _ _ _ Hf Hnd Hall) as Hidx.
  rewrite Hl, Hidx; clear; induction values as [|v values IH]; [done |]; cbn [length seq map].
  constructor; rewrite <- fmap_S_seq, map_map; exact IH.
Qed.

(** What every committed text kept of the body it replaces. *)
Record retained (bom : bool) (terms : list text) (limits : option LayoutConstraints) (body cand : text)
  : Prop := {
  kept_safety : text_safe body cand;
  kept_tokens : lexical_tokens body = lexical_tokens cand;
  kept_newlines : newline_signature body = newline_signature cand \/
    collision (skeleton bom cand) (skeleton bom body);
  kept_values : exists plan, build body terms = Ok plan /\ carries (map surface (values plan)) cand;
  kept_layout : forall o, layout o = limits -> layout_met body cand o
}.

(** What a committed raw candidate kept: its typed literals too. *)
Record faithful (bom : bool) (terms : list text) (limits : option LayoutConstraints) (body cand : text)
  : Prop := {
  kept_body : retained bom terms limits body cand;
  kept_literals : exists ss cs, selected_typed_spans body = Ok ss /\ selected_typed_spans cand = Ok cs /\
    typed_literals cand cs ≡ₚ typed_literals body ss
}.

(** The values of the plan are in the text, whichever way it came. *)
Lemma came_from_carries body terms plan c r :
  build body terms = Ok plan -> came_from plan c r -> carries (map surface (values plan)) r.
Proof.
  intros Hb; pose proof (build_ok _ _ _ Hb) as (Hok & _); unfold came_from; destruct (text_kind c).
  - intros Hr; apply restore_inv in Hr as (l & tail & _ & -> & Hacc).
    exists (map swap_hole l), tail; rewrite old_swap; split; [done | by apply accounts_carries].
  - intros (_ & m & Hm); apply mask_spec in Hm as (_ & _ & _ & _ & l & tail & -> & _ & Hacc); [| apply Hok].
    exists l, tail; split; [done | by apply accounts_carries].
Qed.

Lemma old_text_Forall (P : Z -> Prop) (l : list hole) tail :
  Forall P (old_text l tail) <-> Forall (fun h : hole => Forall P h.1.1 /\ Forall P h.1.2) l /\ Forall P tail.
Proof.
  induction l as [|[[p o] n] l IH]; [split; [split; [constructor | done] | intros [_ H]; exact H] |].
  cbn [old_text foldr]; rewrite !Forall_app, Forall_cons; cbn [fst snd]; rewrite IH; tauto.
Qed.

(** Restoring keeps a well-formed string well formed. *)
Lemma came_from_scalars body terms plan c r :
  build body terms = Ok plan -> scalars body -> scalars (cand_text c) -> came_from plan c r -> scalars r.
Proof.
  intros Hb Hbody Hc; pose proof (build_ok _ _ _ Hb) as (Hok & Hm & _); unfold came_from; destruct (text_kind c);
    [| intros [-> _]; done].
  intros Hr; apply restore_inv in Hr as (l & tail & Hold & -> & (idx & Hf & _ & _)).
  apply mask_spec in Hm as (_ & _ & _ & _ & lb & tb & -> & _ & (idb & Hfb & _ & Hall)); [| apply Hok].
  apply old_text_Forall in Hbody as [Hbody _]; rewrite Hold in Hc; apply old_text_Forall in Hc as [Hc Ht].
  rewrite <- old_swap; apply old_text_Forall; split; [| done]; rewrite Forall_map.
  apply Forall_forall; intros h Hh.
  destruct (Forall2_elem_l _ _ _ (swap_hole h) Hf) as (i & _ & v & Hv & _ & Hs); [apply list_elem_of_fmap; eauto |].
  rewrite Hs; pose proof (lookup_lt_Some _ _ _ Hv) as Hi; apply Hall, list_elem_of_lookup in Hi as [k Hk].
  destruct (Forall2_lookup_r _ _ _ _ _ Hfb Hk) as (hb & Hhb & v' & Hv' & _ & Hs').
  assert (v' = v) as -> by congruence.
  rewrite Forall_lookup in Hbody; specialize (Hbody _ _ Hhb); rewrite Hs' in Hbody.
  rewrite Forall_forall in Hc; specialize (Hc _ Hh); destruct h as [[p o] n]; cbn in *; tauto.
Qed.
End Faithful.

(** ** Lemmas: what a transaction commits *)

Section Transaction.
Context {UT : UnicodeTables} {RE : RegexEngine} {AC : AhoCorasick} {SHA : Sha256} {LINT : EditorialLint}.
Variables (bom : bool) (body : text) (generator : CandidateGenerator) (options : RewriteOptions).
Variables (shadow : option ClaimShadowObserver) (sched : Schedule).

Definition plain_engine : RewriteEngine := {|
  Engine.generator := generator; semantic := LiteralSemanticEvaluator;
  structure := PlainTextStructure (parsed_text bom body); Engine.claim_shadow := shadow |}.

(** The generator offers well-formed strings. *)
Hypothesis Hbody : scalars body.
Hypothesis Hoffers : forall request n n' cs, generate generator request sched n = (Ok cs, n') ->
  Forall (fun c => scalars (cand_text c)) cs.

(** A text restored from a candidate the generator offered for the body. *)
Definition proposed_for_body (r : text) : Prop := exists plan c request n n' cs,
  build body (protected_terms options) = Ok plan /\
  generate generator request sched n = (Ok cs, n') /\ c ∈ cs /\ came_from plan c r.

(** A replacement that differs from a safe source does not start with a mark. *)
Lemma safe_head r : text_safe body r -> r <> body -> head r <> Some 0xFEFF.
Proof.
  unfold text_safe; destruct (existsb hard body); [done |].
  intros [Hh _] _; destruct r as [|c r]; [done |]; intros [= ->]; done.
Qed.

Lemma structure_preserved u r :
  PlainTextStructure (parsed_text bom body) u r = Preserved ->
  text_safe (unit_text u) r /\ replacement_preserves_structure (parsed_text bom body) r = true.
Proof.
  unfold PlainTextStructure; destruct (replacement_preserves_text_safety _ r) eqn:E; [| done]; cbn [negb].
  destruct (replacement_preserves_structure _ r); [| done]; intros _; split; [by apply preserves_text_safety_spec | done].
Qed.

(** The literal evaluator passes only for literal mode. *)
Lemma accepted_literal u r : accepted plain_engine sched options u r -> mode options = Literal.
Proof.
  intros [_ _ _ (_ & _ & Hpass & _)]; cbn [plain_engine semantic LiteralSemanticEvaluator evaluate] in Hpass.
  unfold literal_evaluate in Hpass; destruct (bool_decide (mode options = Literal)) eqn:E; [| done].
  by apply bool_decide_eq_true in E.
Qed.

(** What the engine accepts here came from an offered candidate and kept the body. *)
Lemma accepted_retained u r :
  unit_text u = body -> accepted plain_engine sched options u r ->
  proposed_for_body r /\ scalars r /\ retained bom (protected_terms options) (layout options) body r /\
  replacement_preserves_structure (parsed_text bom body) r = true.
Proof.
  intros Hu [(plan & c & Hb & (n & n' & cs & Hg & Hc) & _ & _ & Hfrom) Hstr Hlay Hsem].
  rewrite Hu in *; apply structure_preserved in Hstr as [Hsafe Hst]; rewrite Hu in Hsafe.
  split_and!; [do 6 eexists; eauto | | | done].
  { apply Hoffers in Hg; rewrite Forall_forall in Hg; eapply came_from_scalars; eauto. }
  split; try done.
  - destruct Hsem as (_ & _ & Hpass & _); cbn [plain_engine semantic LiteralSemanticEvaluator evaluate] in Hpass.
    unfold literal_evaluate in Hpass; destruct (negb _); [done |]; rewrite Hu in Hpass.
    destruct (bool_decide (lexical_tokens body = lexical_tokens r)) eqn:E; [| done].
    apply bool_decide_eq_true in E; done.
  - unfold replacement_preserves_structure in Hst; apply bool_decide_eq_true in Hst.
    cbn [meta parsed_text metadata has_utf8_bom document DocumentIr.structure] in Hst.
    apply fingerprint_eq in Hst as [[Hs _] | Hcol]; [left; done | right; done].
  - exists plan; split; [done | eapply came_from_carries; eauto].
  - intros o Ho l Hl; apply Hlay; congruence.
Qed.

Lemma unchanged_status (none : bool) :
  (if negb (vlen (@nil AcceptedEdit) =? 0) then Rewritten
   else if none then UnchangedNoEligibleContent else UnchangedIdentical) <> Rewritten.
Proof. destruct none; done. Qed.

(** What a run that commits an edit established about its replacement. *)
Record committed (e : AcceptedEdit) (r : text) : Prop := {
  com_text : replacement e = r;
  com_new : r <> body;
  com_mode : mode options = Literal;
  com_proposed : proposed_for_body r;
  com_retained : retained bom (protected_terms options) (layout options) body r;
  com_applied : apply (parsed_text bom body) [e] = Ok (bom_bytes bom ++ as_bytes r);
  com_verified : vlen (bom_bytes bom ++ as_bytes r) <= MAX_PLAIN_TEXT_BYTES ->
    valid (verify (parsed_text bom body) (bom_bytes bom ++ as_bytes r) [e]) = true
}.

(** The outcome of a run on a parsed text, with what is committed. *)
Lemma transaction_outcome outcome :
  run plain_engine sched (document (parsed_text bom body)) options = Ok outcome ->
  (edits outcome = [] /\ out_status outcome <> Rewritten) \/
  (exists e r, edits outcome = [e] /\ out_status outcome = Rewritten /\ committed e r).
Proof.
  unfold run; intros H; apply bind_ok in H as ([o polls] & H & [= <-]).
  apply run_cases in H as [(Hst & _ & He & _) | (_ & (rs & Hrs & He) & _ & Hst & _)];
    [left; split; [done | rewrite Hst; done] |].
  cbn [document parsed_text DocumentIr.rewrite_units] in *.
  destruct (decide (body = [])) as [Enil | Enil].
  { rewrite Enil in Hrs; inversion Hrs; subst rs; rewrite Enil in He; cbn [parsed_units changed] in He; rewrite He in Hst.
    left; split; [done | rewrite Hst; apply unchanged_status]. }
  rewrite (parsed_units_some _ body Enil) in *.
  inversion Hrs as [| u r ? rs' Hacc Hnil Hu Hr]; subst; inversion Hnil; subst; clear Hrs Hnil.
  pose proof (accepted_literal _ _ Hacc) as Hmode.
  apply accepted_retained in Hacc as (Hprop & Hsc & Hf & Hpres); [| done].
  cbn [changed unit_text unit_id] in He; unfold text_eqb in He.
  destruct (bool_decide (r = body)) eqn:Eq; [cbn [app] in He; rewrite He in Hst; left; split; [done | rewrite Hst; apply unchanged_status] |].
  apply bool_decide_eq_false in Eq; cbn [app] in He; rewrite He in Hst; right; eexists _, r; rewrite He.
  split_and!; [reflexivity | done |]; split; try done.
  - by apply apply_parsed.
  - intros Hsize; match goal with |- valid (verify _ _ [?e]) = true => apply (verify_applied bom body e) end; try done.
    right; apply safe_head; [apply Hf | done].
Qed.

(** What a transaction returns. *)
Lemma transaction_result result :
  run_plain_text_transaction (parsed_text bom body) generator options shadow sched = Ok result ->
  RewriteRecord.source_digest (record result) = sha256 (bom_bytes bom ++ as_bytes body) /\
  RewriteRecord.output_digest (record result) = sha256 (output result) /\
  (RewriteRecord.status (record result) <> Rewritten -> output result = bom_bytes bom ++ as_bytes body) /\
  (RewriteRecord.status (record result) = Rewritten ->
   exists e r, output result = bom_bytes bom ++ as_bytes r /\ committed e r).
Proof.
  unfold run_plain_text_transaction; intros H; apply bind_ok in H as (outcome & Hrun & H); apply map_err_ok in Hrun.
  apply transaction_outcome in Hrun.
  apply bind_ok in H as (proposed & Hap & H); apply map_err_ok in Hap.
  destruct Hrun as [[He Hst] | (e & r & He & Hst & Hcom)]; rewrite He in *.
  - cbn [apply] in Hap; injection Hap as <-; cbn [verify] in H; rewrite bool_decide_eq_true_2 in H by done.
    cbn [valid] in H; injection H as <-; cbn; done.
  - rewrite (com_applied _ _ Hcom) in Hap; injection Hap as <-.
    destruct (valid (verify _ _ _)) eqn:Ev; injection H as <-;
      cbn [record output RewriteRecord.new RewriteRecord.source_digest RewriteRecord.output_digest RewriteRecord.status];
      rewrite ?Hst; split_and!; try done; eauto.
Qed.
End Transaction.

Section Provided.
Context {UT : UnicodeTables} {RE : RegexEngine} {AC : AhoCorasick} {SHA : Sha256} {LINT : EditorialLint}.
Variables (bom : bool) (body cand : text) (options : RewriteOptions) (sched : Schedule).

Lemma provided_offers request n n' cs :
  generate (ProvidedCandidateGenerator [cand]) request sched n = (Ok cs, n') ->
  exists u, cs = [{| cand_id := CandidateId.new u 0; cand_unit_id := u; cand_text := cand; text_kind := Raw; rank := default_rank |}].
Proof. cbn [ProvidedCandidateGenerator generate]; destruct (sched n); [done |]; intros [= <- _]; eexists; reflexivity. Qed.

Lemma provided_scalars request n n' cs :
  scalars cand -> generate (ProvidedCandidateGenerator [cand]) request sched n = (Ok cs, n') ->
  Forall (fun c => scalars (cand_text c)) cs.
Proof. intros Hc H; apply provided_offers in H as [u ->]; by repeat constructor. Qed.

(** The one text a check can commit is the supplied candidate, and it is faithful. *)
Lemma provided_committed e r :
  committed bom body (ProvidedCandidateGenerator [cand]) options sched e r ->
  r = cand /\ faithful bom (protected_terms options) (layout options) body cand.
Proof.
  intros [_ _ _ (plan & c & request & n & n' & cs & Hb & Hg & Hc & Hfrom) Hret _ _].
  apply provided_offers in Hg as [u ->]; apply list_elem_of_singleton in Hc as ->; destruct Hfrom as [-> [m Hm]].
  split; [done |]; split; [done | exact (literals_preserved _ _ _ _ _ Hb Hm)].
Qed.
End Provided.

(** ** Lemmas: errors of a run *)

Section Errors.
Context {UT : UnicodeTables} {RE : RegexEngine} {AC : AhoCorasick} {SHA : Sha256} {LINT : EditorialLint}.
Variables (engine : RewriteEngine) (sched : Schedule).

Lemma bind_err {E A B} (m : Result E A) (f : A -> Result E B) e :
  (m ≫= f) = Err e -> m = Err e \/ exists a, m = Ok a /\ f a = Err e.
Proof. destruct m as [a| |]; cbn; intros H; simplify_eq; eauto. Qed.

Lemma protection_details_no_err {E} source candidate terms e :
  @protection_details _ _ E source candidate terms <> Err e.
Proof.
  unfold protection_details, ok_opt.
  destruct (protected_occurrences source terms) as [ss| |]; [| done | done].
  destruct (protected_occurrences candidate terms) as [cs| |]; [| done | done].
  unfold diff_occurrences; cbv zeta.
  destruct (@match_sides_spec E (sides candidate cs) _ _ [] (sides source ss) (build_queues_ok _))
    as (m & us & -> & _); [intros s Hs; inversion Hs | done].
Qed.

Lemma assess_candidate_no_err u c plan options e : assess_candidate engine u c plan options <> Err e.
Proof.
  unfold assess_candidate; destruct (validate_candidate_metadata u c []) as [gates|]; [| done].
  destruct (match text_kind c with Masked => _ | Raw => _ end) as [m|pe|]; [destruct (restore plan m); done | | done].
  unfold reject_unprotected; intros H; apply bind_err in H as [H | (g & _ & H)]; [| done].
  destruct pe, (text_kind c); try done; apply bind_err in H as [H | (d & _ & H)]; [| done].
  by apply protection_details_no_err in H.
Qed.

Lemma candidate_loop_no_err u plan options st polls cs e :
  candidate_loop engine sched u plan options st polls cs <> Err e.
Proof.
  revert st polls; induction cs as [|c cs IH]; intros st polls; cbn [candidate_loop]; [done |].
  intros H; apply bind_err in H as [H | (ev & _ & H)]; [by apply assess_candidate_no_err in H |].
  destruct (sched polls); [done | by apply IH in H].
Qed.

(** The protection errors the engine answers with an abstention. *)
Definition abstains_on (pe : ProtectionError) : bool :=
  match pe with ReservedTokenInSource | AmbiguousSurfaceMapping => true | _ => false end.

(** A unit fails only when its protection cannot be planned or the generator fails. *)
Lemma evaluate_unit_err u options asm polls e :
  evaluate_unit engine sched u options asm polls = Err e ->
  (exists pe, e = ProtectionFailed pe /\ abstains_on pe = false /\
     build (unit_text u) (protected_terms options) = Err pe) \/
  (exists ge request n, ge <> GenCancelled /\ e = Generation ge /\ fst (generate (generator engine) request sched n) = Err ge).
Proof.
  unfold evaluate_unit; destruct (sched polls); [done |].
  destruct (build _ _) as [plan|pe|] eqn:Hb; [| destruct pe; intros H; simplify_eq; left; eauto | done].
  destruct (sched (S polls)); [done |].
  destruct (generate _ _ _ _) as [[cs|ge|] polls1] eqn:Hg; [| | done].
  2:{ destruct ge; [done |]; intros [= <-]; right; do 3 eexists; split_and!; [| reflexivity | rewrite Hg; reflexivity]; done. }
  destruct (sched polls1); [done |]; destruct (candidate_batch_reason _ _); [done |]; intros H; exfalso.
  apply bind_err in H as [H | ([[st b] n] & _ & H)]; [by apply candidate_loop_no_err in H |].
  destruct b; [done |]; destruct (max_by _ _); done.
Qed.

Lemma unit_loop_err options st polls units e :
  unit_loop engine sched options st polls units = Err e ->
  (exists u pe, u ∈ units /\ e = ProtectionFailed pe /\ abstains_on pe = false /\
     build (unit_text u) (protected_terms options) = Err pe) \/
  (exists ge request n, ge <> GenCancelled /\ e = Generation ge /\ fst (generate (generator engine) request sched n) = Err ge).
Proof.
  revert st polls; induction units as [|u units IH]; intros st polls; cbn [unit_loop]; [done |].
  intros H; apply bind_err in H as [H | ([[p|o] n] & _ & H)]; [| | done].
  - apply evaluate_unit_err in H as [(pe & ? & ? & ?) | ?]; [left; exists u, pe; split_and!; [left | done | done | done] | auto].
  - apply IH in H as [(u' & pe & Hu & ? & ? & ?) | ?]; [left; exists u', pe; split_and!; [right | | |]; done | auto].
Qed.

(** The errors of a run on a parsed text. *)
Lemma run_err bom body options e :
  run engine sched (document (parsed_text bom body)) options = Err e ->
  validate_rewrite_options options = Err e \/
  (exists pe, e = ProtectionFailed pe /\ abstains_on pe = false /\ body <> [] /\
     build body (protected_terms options) = Err pe) \/
  (exists ge request n, ge <> GenCancelled /\ e = Generation ge /\ fst (generate (generator engine) request sched n) = Err ge).
Proof.
  unfold run; intros Hrun; apply bind_err in Hrun as [Hrun | ([] & _ & Hrun)]; [| done].
  unfold run_counted in Hrun; apply bind_err in Hrun as [Hrun | (_ & _ & Hrun)]; [by left | right].
  apply bind_err in Hrun as [Hrun | (_ & _ & Hrun)]; [rewrite parsed_text_valid in Hrun; done |].
  destruct (negb _); [done |]; destruct (sched 0%nat); [done |]; destruct (_ =? 0); [done |].
  apply bind_err in Hrun as [Hrun | ([[st|o] n] & _ & Hrun)]; [| destruct (sched n); done | done].
  apply unit_loop_err in Hrun as [(u & pe & Hu & -> & Hpe & Hbuild) | Hg]; [left | by right].
  exists pe; cbn [document parsed_text DocumentIr.rewrite_units] in Hu; destruct body as [|c t]; [inversion Hu |].
  cbn [parsed_units] in Hu; apply list_elem_of_singleton in Hu as ->; done.
Qed.
End Errors.

(** ** Lemmas: an unchanged candidate *)

Lemma strip_mark candidate body :
  candidate = 0xFEFF :: body \/ (candidate = body /\ head body <> Some 0xFEFF) ->
  strip_utf8_bom_prefix candidate = body.
Proof.
  unfold strip_utf8_bom_prefix; intros [-> | [-> Hh]]; [done |].
  destruct body as [|c t]; [done |]; cbn [strip_prefix]; destruct (Z.eqb_spec 0xFEFF c) as [<- |]; [by destruct Hh | done].
Qed.

Section Identity.
Context {UT : UnicodeTables} {RE : RegexEngine} {AC : AhoCorasick} {SHA : Sha256} {LINT : EditorialLint}.
Variables (bom : bool) (body : text) (plan : ProtectionPlan) (options : RewriteOptions).
Variables (generator : CandidateGenerator) (offer : GeneratedCandidate).
Variables (shadow : option ClaimShadowObserver) (sched : Schedule).
Hypothesis Hne : body <> [].
Hypothesis Hplan : build body (protected_terms options) = Ok plan.
Hypothesis Hmode : mode options = Literal.
Hypothesis Hatomic : atomicity options = ADocument.
Hypothesis Hconfidence : minimum_semantic_confidence options = minimum_semantic_confidence default_options.
Hypothesis Hlayout : layout options = None.
Hypothesis Hactive : forall n, sched n = false.

(** The generator offers one candidate for the unit: the text itself, raw or
    masked. *)
Definition body_unit : RewriteUnitId.t := RewriteUnitId.new (DocumentId.from_digest (sha256 (bom_bytes bom ++ as_bytes body))) 0.
Hypothesis Hgenerate : forall request n, req_unit_id request = body_unit -> generate generator request sched n = (Ok [offer], S n).
Hypothesis Hunit : cand_unit_id offer = body_unit.
Hypothesis Hscoped : CandidateId.is_scoped_to (cand_id offer) body_unit = true.
Hypothesis Hcontract : candidate_contract_is_valid offer = true.
Hypothesis Htext : text_kind offer = Raw /\ cand_text offer = body \/
  text_kind offer = Masked /\ cand_text offer = masked_source plan.

Abbreviation engine := (plain_engine bom body generator shadow).

Lemma structure_self u : unit_text u = body -> PlainTextStructure (parsed_text bom body) u body = Preserved.
Proof.
  intros Hu; unfold PlainTextStructure; rewrite Hu.
  assert (replacement_preserves_text_safety body body = true) as ->.
  { apply preserves_text_safety_spec; unfold text_safe; destruct (existsb _ body) eqn:Eh; [done |]; split; [done | intros; lia]. }
  unfold replacement_preserves_structure; cbn [negb meta parsed_text metadata has_utf8_bom document DocumentIr.structure].
  rewrite bool_decide_eq_true_2; done.
Qed.

Lemma semantic_self u id :
  exists gate reason, semantic_gate engine id (unit_text u) (unit_text u) options = (gate, true, reason).
Proof.
  unfold semantic_gate; cbn [plain_engine semantic LiteralSemanticEvaluator evaluate evaluator_id]; rewrite Hmode.
  unfold literal_evaluate; rewrite (bool_decide_eq_true_2 (Literal = Literal)) by done; cbn [negb].
  rewrite (bool_decide_eq_true_2 (lexical_tokens _ = lexical_tokens _)) by done; cbv zeta.
  cbn [SemanticAssessment.confidence SemanticAssessment.status SemanticAssessment.evidence].
  rewrite Hconfidence; change (f32_le (minimum_semantic_confidence default_options) f32_one) with true.
  rewrite (bool_decide_eq_true_2 (Pass = Pass)) by done; cbn [andb negb].
  match goal with |- context [if ?b then invalid_semantic_gate else ?x] => change b with false end.
  match goal with |- context [if ?b then invalid_semantic_gate else ?x] => replace b with false by (vm_compute; reflexivity) end.
  eauto.
Qed.

Lemma assess_self u :
  unit_text u = body -> unit_id u = body_unit ->
  exists ev, assess_candidate engine u offer plan options = Ok ev /\
    CandidateAssessment.eligible (assessment ev) = true /\ restored (candidate ev) = body.
Proof.
  intros Hu Hid; destruct (build_ok _ _ _ Hplan) as (Hok & Hm & _).
  unfold assess_candidate, validate_candidate_metadata; rewrite bool_decide_eq_true_2, Hcontract by congruence; cbn [negb].
  assert (Hv : validate_masked plan (masked_source plan) = Ok tt).
  { unfold validate_masked; pose proof (mask_restore _ _ _ Hok Hm) as Hr; unfold restore in Hr.
    apply bind_ok in Hr as (ms & -> & _); done. }
  assert (Hmask : (match text_kind offer with
    | Masked => _ ← validate_masked plan (cand_text offer); Ok (cand_text offer)
    | Raw => mask_raw_candidate plan (cand_text offer) end) = Ok (masked_source plan)).
  { destruct (Htext) as [[-> ->] | [-> ->]]; [exact Hm | by rewrite Hv]. }
  rewrite Hmask, (mask_restore _ _ _ Hok Hm); eexists; split; [reflexivity |].
  unfold assess_restored; cbn [plain_engine structure]; rewrite (structure_self u Hu); cbn [retained_gate].
  rewrite (bool_decide_eq_true_2 (Preserved = Preserved)) by done; cbn [negb].
  unfold validate_layout_constraints; rewrite Hlayout; cbn [mbind option_bind].
  destruct (semantic_self u (unit_id u)) as (g & r & Hg); rewrite Hu in Hg |- *.
  change ({| Engine.generator := _; semantic := _; structure := _; Engine.claim_shadow := _ |}) with engine; rewrite Hg; done.
Qed.

Lemma batch_self : candidate_batch_reason body_unit [offer] = None.
Proof.
  unfold candidate_batch_reason; change (vlen [_]) with 1.
  cbn [candidate_count_reason]; unfold candidate_batch_identity_is_valid; cbn [batch_identity_loop].
  rewrite bool_decide_eq_true_2, Hscoped by exact Hunit; rewrite bool_decide_eq_true_2 by set_solver; reflexivity.
Qed.

Lemma evaluate_self u asm polls :
  unit_text u = body -> unit_id u = body_unit ->
  exists p n, evaluate_unit engine sched u options asm polls = Ok (inl p, n) /\ progress_replacement p = None.
Proof.
  intros Hu Hid; unfold evaluate_unit; rewrite !Hactive, Hu, Hplan.
  cbn [plain_engine Engine.generator]; rewrite Hgenerate by exact Hid.
  rewrite !Hactive, Hid, batch_self; cbn [candidate_loop].
  destruct (assess_self u Hu Hid) as (ev & Hev & Hel & Hr).
  change ({| Engine.generator := _; semantic := _; structure := _; Engine.claim_shadow := _ |}) with engine.
  rewrite Hev; cbn [mbind result_bind]; rewrite Hactive.
  cbn [mbind result_bind candidate_loop record_candidate eligible]; rewrite Hel; cbn [app max_by foldl].
  do 2 eexists; split; [reflexivity |]; cbn [progress_replacement]; rewrite Hr.
  unfold text_eqb; rewrite bool_decide_eq_true_2; done.
Qed.

(** A transaction on the unchanged text. *)
Lemma identity_transaction :
  exists result, run_plain_text_transaction (parsed_text bom body) generator options shadow sched = Ok result /\
    output result = bom_bytes bom ++ as_bytes body /\
    RewriteRecord.status (record result) = UnchangedIdentical /\ RewriteRecord.reason (record result) = None.
Proof.
  destruct (build_ok _ _ _ Hplan) as (_ & _ & _ & Hterms).
  unfold run_plain_text_transaction; cbv zeta.
  change ({| Engine.generator := _; semantic := _; structure := _; Engine.claim_shadow := _ |}) with engine.
  assert (Hrun : exists asm sel, run engine sched (document (parsed_text bom body)) options
    = Ok {| out_status := UnchangedIdentical; out_reason := None; edits := []; assessments := asm;
            selected_candidates := sel |}).
  { unfold run, run_counted, validate_rewrite_options; rewrite Hconfidence, Hterms, Hlayout, Hatomic.
    change (in_unit_interval (minimum_semantic_confidence default_options)) with true; cbn [negb mbind option_bind result_bind].
    rewrite parsed_text_valid; cbn [map_err mbind result_bind].
    rewrite (bool_decide_eq_true_2 (ADocument = ADocument)) by done; cbn [negb]; rewrite Hactive.
    cbn [document parsed_text DocumentIr.rewrite_units]; rewrite parsed_units_some by done.
    match goal with |- context [vlen [?u] =? 0] => change (vlen [u] =? 0) with false; set (unit := u) end.
    cbn [unit_loop]; destruct (evaluate_self unit [] 1 eq_refl eq_refl) as (p & n & Hev & Hrep); cbn [run_assessments].
    rewrite Hev; cbn [mbind result_bind]; rewrite Hrep, Hactive; cbn [run_edits run_assessments run_selected].
    do 2 eexists; reflexivity. }
  destruct Hrun as (asm & sel & ->); cbn [map_err mbind result_bind apply edits verify].
  rewrite bool_decide_eq_true_2 by done; cbn [valid out_status out_reason selected_candidates assessments].
  eexists; split; [reflexivity |]; done.
Qed.
End Identity.

Lemma provided_contract u body kind :
  slen body <= MAX_GENERATED_TEXT_BYTES ->
  candidate_contract_is_valid {| cand_id := CandidateId.new u 0; cand_unit_id := u; cand_text := body;
    text_kind := kind; rank := default_rank |} = true.
Proof.
  intros Hsize; unfold candidate_contract_is_valid; cbn [cand_id cand_unit_id cand_text rank].
  rewrite (proj2 (candidate_scope u u 0 ltac:(lia)) eq_refl), (proj2 (Z.leb_le _ _) Hsize); reflexivity.
Qed.

(** ** Theorems *)

Section CheckTheorems.
Context {UT : UnicodeTables} {RE : RegexEngine} {AC : AhoCorasick} {SHA : Sha256} {LINT : EditorialLint}.

Lemma strip_scalars s : scalars s -> scalars (strip_utf8_bom_prefix s).
Proof.
  unfold strip_utf8_bom_prefix; intros H; destruct (strip_prefix [0xFEFF] s) as [r|] eqn:E; [| done].
  destruct s as [|c s]; [done |]; cbn [strip_prefix] in E; destruct (_ =? _); [| done]; injection E as <-.
  inversion H; done.
Qed.

(** C1. End to end, the bytes that come out are safe.  A check that does not
    report a rewrite returns the source bytes exactly.  A check that reports
    a rewrite returns the source's byte order mark followed by exactly the
    supplied candidate, which differs from the body and kept its token
    sequence, its newline skeleton (unless SHA-256 collides on the two
    skeletons), its typed
    literals, every protected value in a place of its own, the text-safety
    policy and the layout limits.  The record names the digests of what went
    in and what came out. *)
Theorem check_output_safe (request : CandidateCheckRequest) (sched : Schedule)
    (shadow : option ClaimShadowObserver) (result : CandidateCheckResult) :
  Forall is_byte (req_source request) -> scalars (req_candidate request) ->
  check_with_claim_shadow request sched shadow = Ok result ->
  RewriteRecord.source_digest (record result) = sha256 (req_source request) /\
  RewriteRecord.output_digest (record result) = sha256 (output result) /\
  (RewriteRecord.status (record result) <> Rewritten -> output result = req_source request) /\
  (RewriteRecord.status (record result) = Rewritten ->
   exists bom body, req_source request = bom_bytes bom ++ as_bytes body /\
     output result = bom_bytes bom ++ as_bytes (strip_utf8_bom_prefix (req_candidate request)) /\
     strip_utf8_bom_prefix (req_candidate request) <> body /\
     faithful bom (req_protected_terms request) (req_layout request) body
       (strip_utf8_bom_prefix (req_candidate request))).
Proof.
  intros Hb Hc; unfold check_with_claim_shadow; destruct (_ <? _); [done |].
  intros H; apply bind_ok in H as (p & Hp & H); apply map_err_ok in Hp.
  apply parse_ok_iff in Hp as (_ & body & Hs & Hin & ->); [| done].
  apply strip_scalars in Hc.
  set (bom := starts_with _ _) in *; set (cand := strip_utf8_bom_prefix _) in *.
  apply transaction_result in H as (Hsrc & Hout & Hkeep & Hnew);
    [| done | intros request' n n' cs; by apply provided_scalars].
  rewrite <- Hin in Hsrc, Hkeep; split_and!; [done | done | done |]; intros Hst.
  destruct (Hnew Hst) as (e & r & Ho & Hcom); pose proof (com_new _ _ _ _ _ _ _ Hcom).
  apply provided_committed in Hcom as [-> Hf]; exists bom, body; done.
Qed.

(** The final verification never overrules the gates: applying the edits
    of a run always succeeds, and the result verifies unless it exceeds the
    size limit of the adapter. *)
Theorem check_reassembly (input : bytes) (p : ParsedTextDocument) (cand : text) (options : RewriteOptions)
    (sched : Schedule) (shadow : option ClaimShadowObserver) (outcome : EngineOutcome) :
  Forall is_byte input -> scalars cand -> parse input = Ok p ->
  run {| Engine.generator := ProvidedCandidateGenerator [cand]; semantic := LiteralSemanticEvaluator;
         structure := PlainTextStructure p; Engine.claim_shadow := shadow |}
    sched (document p) options = Ok outcome ->
  exists proposed, apply p (edits outcome) = Ok proposed /\
    (valid (verify p proposed (edits outcome)) = true \/ MAX_PLAIN_TEXT_BYTES < vlen proposed).
Proof.
  intros Hb Hc Hp Hrun; apply parse_ok_iff in Hp as (_ & body & Hs & Hin & ->); [| done].
  apply transaction_outcome in Hrun as [[He _] | (e & r & He & _ & Hcom)]; rewrite ?He;
    [| | done | intros request n n' cs; by apply provided_scalars].
  - eexists; split; [reflexivity | left]; cbn [verify]; rewrite bool_decide_eq_true_2 by done; done.
  - eexists; split; [apply (com_applied _ _ _ _ _ _ _ Hcom) |].
    destruct (Z.le_gt_cases (vlen (bom_bytes (starts_with input UTF8_BOM) ++ as_bytes r)) MAX_PLAIN_TEXT_BYTES);
      [left; by apply (com_verified _ _ _ _ _ _ _ Hcom) | right; lia].
Qed.

(** The cause of each refusal of a source, read off its bytes: over 16 MiB, a
    UTF-16 byte order mark, or not the UTF-8 encoding of any string. *)
Definition source_fault (source : bytes) (e : TextAdapterError) : Prop :=
  match e with
  | TextAdapter.InputTooLarge actual maximum => actual = vlen source /\ maximum = 16 * 1024 * 1024 /\ maximum < actual
  | UnsupportedUtf16 => exists rest, source = 0xFF :: 0xFE :: rest \/ source = 0xFE :: 0xFF :: rest
  | InvalidUtf8 _ => forall s, scalars s -> source <> as_bytes s
  | _ => False
  end.

Lemma parse_as_bytes s :
  scalars s -> Forall is_byte (as_bytes s) -> vlen (as_bytes s) <= MAX_PLAIN_TEXT_BYTES -> exists p, parse (as_bytes s) = Ok p.
Proof.
  intros Hs Hb Hl; destruct (starts_with (as_bytes s) UTF8_BOM) eqn:E.
  - destruct s as [|c s]; [done |]; pose proof E as Ec; apply starts_with_bom in Ec as [= ->]; [| done].
    exists (parsed_text true s); apply parse_ok_iff; [done |]; split; [done |]; rewrite E.
    apply Forall_cons in Hs as [_ Hs]; by exists s.
  - exists (parsed_text false s); apply parse_ok_iff; [done |]; split; [done |]; rewrite E; by exists s.
Qed.

Lemma parse_fault source e : Forall is_byte source -> parse source = Err e -> source_fault source e.
Proof.
  intros Hb H; pose proof H as Herr; unfold parse in H.
  destruct (Z.ltb_spec MAX_PLAIN_TEXT_BYTES (vlen source)); [by injection H as <- |].
  destruct (_ || _) eqn:E in H.
  { injection H as <-; apply orb_true_iff in E as [[r ->]%starts_with_spec | [r ->]%starts_with_spec]; exists r; auto. }
  fold (body_of source) in H; destruct (from_utf8 (body_of source)) as [s|n|] eqn:Hs.
  - apply parse_body in Hs as (_ & _ & Hok); [congruence | done | done].
  - cbn [map_err mbind result_bind] in H; injection H as <-; intros s Hsc ->.
    destruct (parse_as_bytes s Hsc Hb) as [p Hp]; [done | congruence].
  - done.
Qed.

Lemma budget_broken limits : ~ budget_contract limits -> exists constraints budget minimum maximum,
  limits = Some constraints /\ character_budget constraints = Some budget /\
  min_characters budget = Some minimum /\ max_characters budget = Some maximum /\ maximum < minimum.
Proof.
  unfold budget_contract; intros H; destruct limits as [l|]; [| exfalso; apply H; done].
  destruct (character_budget l) as [b|] eqn:Hb; [| exfalso; apply H; intros; simplify_eq].
  destruct (min_characters b) as [mn|] eqn:Hmn, (max_characters b) as [mx|] eqn:Hmx;
    try (exfalso; apply H; intros ? ? ? ? [= <-]; rewrite Hb; intros [= <-]; congruence).
  exists l, b, mn, mx; split_and!; try done; apply Z.nle_gt; intros Hle; apply H.
  intros ? ? ? ? [= <-]; rewrite Hb; intros [= <-]; rewrite Hmn, Hmx; intros [= <-] [= <-]; done.
Qed.

Lemma run_options engine sched doc options outcome :
  run engine sched doc options = Ok outcome -> validate_rewrite_options options = Ok tt.
Proof.
  unfold run, run_counted; destruct (validate_rewrite_options options) as [[]|e|]; done.
Qed.

(** A check by cases. *)
Lemma check_cases (request : CandidateCheckRequest) (sched : Schedule)
    (shadow : option ClaimShadowObserver) :
  Forall is_byte (req_source request) -> scalars (req_candidate request) ->
  match check_with_claim_shadow request sched shadow with
  | Ok _ =>
      slen (strip_utf8_bom_prefix (req_candidate request)) <= MAX_CANDIDATE_CHECK_BYTES /\
      vlen (req_source request) <= MAX_PLAIN_TEXT_BYTES /\
      (exists s, scalars s /\ req_source request = as_bytes s) /\
      terms_contract (req_protected_terms request) /\ budget_contract (req_layout request)
  | Err (CandidateTooLarge actual maximum) =>
      actual = slen (strip_utf8_bom_prefix (req_candidate request)) /\
      maximum = MAX_CANDIDATE_CHECK_BYTES /\ maximum < actual
  | Err (AppTextAdapter e) => parse (req_source request) = Err e /\ source_fault (req_source request) e
  | Err (AppEngine InvalidProtectedTerms) => ~ terms_contract (req_protected_terms request)
  | Err (AppEngine InvalidLayoutBudget) => exists limits budget minimum maximum,
      req_layout request = Some limits /\ character_budget limits = Some budget /\
      min_characters budget = Some minimum /\ max_characters budget = Some maximum /\ maximum < minimum
  | Err (AppEngine (ProtectionFailed e)) =>
      exists body, parse (req_source request) = Ok (parsed_text (starts_with (req_source request) UTF8_BOM) body) /\
        build body (req_protected_terms request) = Err e
  | Err _ | Panic => False
  end.
Proof.
  intros Hb Hc; unfold check_with_claim_shadow; set (cand := strip_utf8_bom_prefix _).
  destruct (Z.ltb_spec MAX_CANDIDATE_CHECK_BYTES (slen cand)); [done |].
  destruct (parse (req_source request)) as [p|e|] eqn:Hp; [| split; [done | by apply parse_fault] | by apply parse_no_panic in Hp].
  cbn [map_err mbind result_bind]; pose proof Hp as Hparse.
  apply parse_ok_iff in Hp as (Hsize & body & Hs & Hin & ->); [| done].
  set (bom := starts_with _ _) in *; unfold run_plain_text_transaction; cbv zeta.
  match goal with |- context [run ?e sched ?d ?o] => set (engine := e); set (options := o); set (doc := d) end.
  assert (Htot : run engine sched doc options <> Panic).
  { apply run_no_panic; intros request' n; cbn [engine Engine.generator ProvidedCandidateGenerator generate].
    destruct (sched n); done. }
  pose proof (validate_rewrite_options_cases options) as Hv.
  destruct (run engine sched doc options) as [outcome|e|] eqn:Hrun; [| | done]; cbn [map_err mbind result_bind].
  - rewrite (run_options engine sched doc options outcome Hrun) in Hv.
    assert (Hok : slen cand <= MAX_CANDIDATE_CHECK_BYTES /\ vlen (req_source request) <= MAX_PLAIN_TEXT_BYTES /\
      (exists s, scalars s /\ req_source request = as_bytes s) /\
      terms_contract (req_protected_terms request) /\ budget_contract (req_layout request)).
    { split_and!; [done | done | | apply Hv | apply Hv]; rewrite Hin; destruct bom; [exists (0xFEFF :: body) | by exists body].
      split; [by constructor | done]. }
    apply transaction_outcome in Hrun as [[-> _] | (e & r & -> & _ & Hcom)];
      [| rewrite (com_applied _ _ _ _ _ _ _ Hcom) | done | intros request' n n' cs; apply provided_scalars; by apply strip_scalars];
      cbn [apply map_err mbind result_bind];
      destruct (if valid _ then _ else _) as [[[? ?] ?] ?]; exact Hok.
  - apply run_err in Hrun as [Hrun | [(pe & -> & _ & _ & Hbuild) | (ge & req & n & Hge & -> & Hg)]].
    + rewrite Hrun in Hv; destruct e; try done; cbn [options protected_terms layout default_options] in Hv.
      by apply budget_broken in Hv.
    + exists body; done.
    + subst engine; cbn [Engine.generator ProvidedCandidateGenerator generate] in Hg; destruct (sched n); [| done].
      cbn [fst] in Hg; congruence.
Qed.

(** C10. A check always answers, and it answers with a result only for a
    request within its contract: a candidate within its limit, a source of at
    most 16 MiB that is the UTF-8 of some string, at most 32 distinct
    protected terms of 1 to 256 allowed bytes each and 2048 together, and a
    character budget whose minimum is not above its maximum.  Each refusal
    has its cause: a candidate over the limit; a source over the limit, with
    a UTF-16 mark or not UTF-8; protected terms that break that contract; a
    budget whose minimum is above its maximum; or a body whose protection
    cannot be planned.  No other engine error can surface and nothing
    panics. *)
Theorem check_errors (request : CandidateCheckRequest) (sched : Schedule)
    (shadow : option ClaimShadowObserver) :
  Forall is_byte (req_source request) -> scalars (req_candidate request) ->
  match check_with_claim_shadow request sched shadow with
  | Ok _ =>
      slen (strip_utf8_bom_prefix (req_candidate request)) <= MAX_CANDIDATE_CHECK_BYTES /\
      vlen (req_source request) <= MAX_PLAIN_TEXT_BYTES /\
      (exists s, scalars s /\ req_source request = as_bytes s) /\
      terms_contract (req_protected_terms request) /\ budget_contract (req_layout request)
  | Err (CandidateTooLarge actual maximum) =>
      actual = slen (strip_utf8_bom_prefix (req_candidate request)) /\
      maximum = MAX_CANDIDATE_CHECK_BYTES /\ maximum < actual
  | Err (AppTextAdapter e) => parse (req_source request) = Err e /\ source_fault (req_source request) e
  | Err (AppEngine InvalidProtectedTerms) => ~ terms_contract (req_protected_terms request)
  | Err (AppEngine InvalidLayoutBudget) => exists limits budget minimum maximum,
      req_layout request = Some limits /\ character_budget limits = Some budget /\
      min_characters budget = Some minimum /\ max_characters budget = Some maximum /\ maximum < minimum
  | Err (AppEngine (ProtectionFailed e)) =>
      exists body, parse (req_source request) = Ok (parsed_text (starts_with (req_source request) UTF8_BOM) body) /\
        build body (req_protected_terms request) = Err e
  | Err _ | Panic => False
  end.
Proof. apply check_cases. Qed.

End CheckTheorems.
