(* ===== verification/GroundedService.v ===== *)
(** * The grounded rewrite service ([app/src/grounded.rs]).

    Parse the source, mask its protected values, ask the strategy for
    candidates, optionally join the claim shadow, and run the plain-text
    transaction on what came back; and the selection of the generation
    artifact that the in-process conformance backend is bound to. *)

From S2P Require Import Prelude Text Regex Float32 Document TextSafety Rewrite Claims Evidence.
From S2P Require Import TextAdapter Extract Protection Semantic Policy ClaimCompare SpanReport Engine EngineProps.
From S2P Require Import Json Model Inference CandidateOutput Extractor Grounded CandidateCheck ClaimExtraction.

Record GroundedRewriteRequest := {
  gr_source : bytes;
  gr_protected_terms : list text;
  gr_mode : RewriteMode;
  gr_style_context : text;
  gr_claim_shadow : option ClaimShadowJoinBinding.t;
  gr_layout : option LayoutConstraints;
  gr_edit_level : option EditLevel
}.

(** [GroundedRewriteRequest::new]. *)
Definition new_grounded_request (source : bytes) (terms : list text) (mode : RewriteMode) (style_context : text)
  : GroundedRewriteRequest := {|
  gr_source := source; gr_protected_terms := terms; gr_mode := mode; gr_style_context := style_context;
  gr_claim_shadow := None; gr_layout := None; gr_edit_level := None |}.

(** [with_claim_shadow], [with_layout] and [with_edit_level]. *)
Definition with_claim_shadow_binding (r : GroundedRewriteRequest) (claim_shadow : option ClaimShadowJoinBinding.t)
  : GroundedRewriteRequest := {|
  gr_source := gr_source r; gr_protected_terms := gr_protected_terms r; gr_mode := gr_mode r;
  gr_style_context := gr_style_context r; gr_claim_shadow := claim_shadow; gr_layout := gr_layout r;
  gr_edit_level := gr_edit_level r |}.
Definition with_grounded_layout (r : GroundedRewriteRequest) (layout : option LayoutConstraints) : GroundedRewriteRequest := {|
  gr_source := gr_source r; gr_protected_terms := gr_protected_terms r; gr_mode := gr_mode r;
  gr_style_context := gr_style_context r; gr_claim_shadow := gr_claim_shadow r; gr_layout := layout;
  gr_edit_level := gr_edit_level r |}.
Definition with_grounded_edit_level (r : GroundedRewriteRequest) (level : option EditLevel) : GroundedRewriteRequest := {|
  gr_source := gr_source r; gr_protected_terms := gr_protected_terms r; gr_mode := gr_mode r;
  gr_style_context := gr_style_context r; gr_claim_shadow := gr_claim_shadow r; gr_layout := gr_layout r;
  gr_edit_level := level |}.

Record GroundedRewriteResult := { gr_output : bytes; gr_record : RewriteRecord.t }.

Definition CONFORMANCE_PROMPT_TEMPLATE : text := lit "Rewrite conservatively and preserve every sentinel.".
Definition GENERATION_PROVENANCE_SCHEMA_VERSION : Z := 1.

(** [map_protected_kind]. *)
Definition map_protected_kind (kind : ProtectedKind) : GroundedSentinelKind :=
  match kind with
  | DeclaredTerm => SentinelTerm
  | Url => SentinelUrl
  | Email => SentinelEmail
  | Number => SentinelNumber
  end.

(** [is_cancelled]. *)
Definition is_cancelled_error (error : GroundedError) : bool :=
  match error with
  | GroundedDiscovery e | GroundedGeneration e => bool_decide (error_kind e = KindCancelled)
  | _ => false
  end.

(** [map_trace]. *)
Definition map_trace (t : GroundedTrace) : GenerationProvenance := {|
  gp_schema_version := GENERATION_PROVENANCE_SCHEMA_VERSION;
  strategy_id := trace_strategy_id t;
  runtime_backend := RuntimeIdentity.backend (trace_runtime t);
  runtime_version := RuntimeIdentity.version (trace_runtime t);
  runtime_digest := RuntimeIdentity.digest (trace_runtime t);
  Evidence.artifact_id := ArtifactId.digest (trace_artifact_id t);
  Evidence.artifact_digest := trace_artifact_digest t;
  Evidence.prompt_template_digest := trace_prompt_template_digest t;
  Evidence.input_digest := trace_input_digest t;
  Evidence.output_schema_digest := trace_output_schema_digest t;
  Evidence.candidate_count := trace_candidate_count t;
  usage_input_tokens := input_tokens (trace_usage t);
  usage_output_tokens := output_tokens (trace_usage t);
  usage_generation_micros := generation_micros (trace_usage t) |}.

(** [with_trace]. *)
Definition with_trace (transaction : CandidateCheckResult) (t : option GroundedTrace) : GroundedRewriteResult := {|
  gr_output := output transaction;
  gr_record := match t with
               | Some t => RewriteRecord.with_generation (record transaction) (map_trace t)
               | None => record transaction
               end |}.

(** Awaits a future and goes on with its outcome, error or not. *)
Definition await_outcome {W E F A B} (m : Async W E A) (f : Result E A -> Async W F B) : Async W F B := fun w =>
  match m w with Some (r, w') => f r w' | None => None end.

Section Service.
Context {UT : UnicodeTables} {RE : RegexEngine} {AC : AhoCorasick} {SHA : Sha256} {LINT : EditorialLint}.
Context {JSON : JsonCodec} {W : Type} {OW : OperationWorld W}.

(** A transaction on prepared candidates.  It polls the shared token, whose
    answers the world holds. *)
Definition prepared_transaction (parsed : ParsedTextDocument) (candidates : list GeneratedCandidate)
    (options : RewriteOptions) (shadow : option ClaimShadowObserver) (t : option GroundedTrace) (sched : Schedule)
  : Result AppError GroundedRewriteResult :=
  transaction ← run_plain_text_transaction parsed (PreparedCandidateGenerator candidates) options shadow sched;
  Ok (with_trace transaction t).

(** [empty_transaction]. *)
Definition empty_transaction (parsed : ParsedTextDocument) (options : RewriteOptions)
  : Async W AppError GroundedRewriteResult := fun w =>
  Some (prepared_transaction parsed [] options None None (token_answers w), w).

(** [cancelled_transaction]: a token that has been cancelled. *)
Definition cancelled_transaction (parsed : ParsedTextDocument) (candidates : list GeneratedCandidate)
    (options : RewriteOptions) (t : option GroundedTrace) : Async W AppError GroundedRewriteResult :=
  immediate (prepared_transaction parsed candidates options None t (fun _ => true)).

(** The restored texts of the candidates that restore. *)
Definition restored_candidates (protection : ProtectionPlan) (candidates : list GeneratedCandidate) : list text :=
  omap (fun c => match restore protection (cand_text c) with Ok r => Some r | _ => None end) candidates.

(** [prepare_claim_shadow]. *)
Definition prepare_claim_shadow (backend : InferenceBackend W) (binding : option ClaimShadowJoinBinding.t)
    (unit_id : RewriteUnitId.t) (source : text) (protection : ProtectionPlan) (candidates : list GeneratedCandidate)
    (context : OperationContext) : Async W ClaimExtractionError (option (list PreparedClaimShadow)) :=
  match binding with
  | None => immediate (Ok None)
  | Some binding =>
      set ← prepare_for_candidates backend binding unit_id source [] (restored_candidates protection candidates) context;
      immediate (Ok (match set with [] => None | _ => Some set end))
  end.

(** The request for the strategy. *)
Definition strategy_request (request : GroundedRewriteRequest) (u : RewriteUnit) (protection : ProtectionPlan)
  : GroundedRequest.t := {|
  GroundedRequest.unit_id := unit_id u;
  GroundedRequest.masked_source := masked_source protection;
  GroundedRequest.sentinels :=
    map (fun v => {| sentinel_text := token v; sentinel_kind := map_protected_kind (value_kind v) |}) (values protection);
  GroundedRequest.mode := gr_mode request;
  GroundedRequest.style_context := gr_style_context request |}.

Definition rewrite_options (request : GroundedRewriteRequest) : RewriteOptions := {|
  mode := gr_mode request; atomicity := atomicity default_options;
  protected_terms := gr_protected_terms request;
  minimum_semantic_confidence := minimum_semantic_confidence default_options;
  edit_level := gr_edit_level request; layout := gr_layout request |}.

(** The rest of [rewrite] once candidates are there. *)
Definition finish_rewrite (backend : InferenceBackend W) (request : GroundedRewriteRequest) (context : OperationContext)
    (parsed : ParsedTextDocument) (u : RewriteUnit) (protection : ProtectionPlan) (generation : GroundedGenerationResult)
  : Async W AppError GroundedRewriteResult :=
  let options := rewrite_options request in
  await_outcome
    (prepare_claim_shadow backend (gr_claim_shadow request) (unit_id u) (unit_text u) protection
       (grounded_candidates generation) context)
    (fun shadow =>
       match shadow with
       | Panic => immediate Panic
       | Err ExtractionCancelled =>
           cancelled_transaction parsed (grounded_candidates generation) options (Some (trace generation))
       | Err error => immediate (Err (ClaimExtraction error))
       | Ok shadow => fun w =>
           Some (prepared_transaction parsed (grounded_candidates generation) options (observe_set <$> shadow)
                   (Some (trace generation)) (token_answers w), w)
       end).

(** [GroundedRewriteService::rewrite]. *)
Definition rewrite (strategy : GroundedStrategy) (backend : InferenceBackend W) (request : GroundedRewriteRequest)
    (context : OperationContext) : Async W AppError GroundedRewriteResult :=
  parsed ← immediate (map_err AppTextAdapter (parse (gr_source request)));
  let options := rewrite_options request in
  _ ← immediate (map_err AppEngine (validate_rewrite_options options));
  match DocumentIr.rewrite_units (document parsed) with
  | [] => empty_transaction parsed options
  | u :: _ =>
      match build (unit_text u) (protected_terms options) with
      | Panic => immediate Panic
      | Err (ReservedTokenInSource | AmbiguousSurfaceMapping) => empty_transaction parsed options
      | Err error => immediate (Err (AppProtection error))
      | Ok protection =>
          await_outcome (grounded_generate strategy (strategy_request request u protection) backend context)
            (fun generation =>
               match generation with
               | Panic => immediate Panic
               | Err error =>
                   if is_cancelled_error error then cancelled_transaction parsed [] options None
                   else immediate (Err (Grounded error))
               | Ok generation => finish_rewrite backend request context parsed u protection generation
               end)
      end
  end.

(** [block_ready]: one poll; a pending future is a panic. *)
Definition block_ready {E A} (m : Async W E A) : W -> Result E A * W := fun w =>
  match m w with Some (r, w') => (r, w') | None => (Panic, w) end.

End Service.

(** ** Selection of the generation artifact *)

Inductive ArtifactRepositoryErrorKind :=
| RepositoryInvalidInput | NotInitialized | InUse | RepositoryResourceLimit | NotFound | StaleSelection | ActiveArtifact
| Conflict | ConcurrentModification | CorruptState | IncompatibleState | RecoveryRequired | RepositoryCancelled | Operational.

(** A synchronous operation on the file system and the state database. *)
Definition Io (W E A : Type) : Type := W -> Result E A * W.

#[global] Instance io_ret {W E} : MRet (Io W E) := fun A a w => (Ok a, w).
#[global] Instance io_bind {W E} : MBind (Io W E) := fun A B f m w =>
  match m w with
  | (Ok a, w') => f a w'
  | (Err e, w') => (Err e, w')
  | (Panic, w') => (Panic, w')
  end.
Definition pure_io {W E A} (r : Result E A) : Io W E A := fun w => (r, w).
Definition io_map_err {W E F A} (f : E -> F) (m : Io W E A) : Io W F A := fun w =>
  let '(r, w') := m w in (map_err f r, w').

Definition io_outcome {W E F A B} (f : Result E A -> Result F B) (m : Io W E A) : Io W F B := fun w =>
  let '(r, w') := m w in (f r, w').

(** What the selection asks of an [ArtifactRepository]; each call reads the
    repository anew, errors by their kind. *)
Class ArtifactRepositoryPort (W Path Repository : Type) := {
  repository_new : Path -> Io W ArtifactRepositoryErrorKind Repository;
  active_generation_binding : Repository -> Io W ArtifactRepositoryErrorKind (option ActiveArtifactBinding.t);
  generation_qualification : Repository -> QualificationId.t -> Io W ArtifactRepositoryErrorKind QualificationRecord.t
}.

Record AttachedConformanceRewrite := {
  attached_strategy : GroundedStrategy;
  attached_backend : ConformanceInferenceBackend
}.

Section Selection.
Context {SHA : Sha256} {W Path Repository : Type} {AR : ArtifactRepositoryPort W Path Repository}.

(** [GroundedRewriteSelection::require_selected]. *)
Definition require_selected : Result AppError unit := Err GroundedUnavailable.

(** [GroundedRewriteSelection::validate_source]. *)
Definition validate_source (source : bytes) : Result AppError unit :=
  _ ← map_err AppTextAdapter (parse source); Ok tt.

(** The answer when nothing is selected. *)
Definition unselected {A} (requested : option ArtifactId.t) : Result AppError A :=
  match requested with Some _ => Err GroundedSelectionMismatch | None => Err GroundedUnavailable end.

(** What [select] makes of the repository's answer. *)
Definition chosen (requested : option ArtifactId.t)
    (answer : Result ArtifactRepositoryErrorKind (option ActiveArtifactBinding.t)) : Result AppError ActiveArtifactBinding.t :=
  match answer with
  | Panic => Panic
  | Err NotInitialized => unselected requested
  | Err _ => Err GroundedRepository
  | Ok (Some binding) =>
      match requested with
      | Some artifact_id =>
          if negb (bool_decide (artifact_id = ActiveArtifactBinding.artifact_id binding))
          then Err GroundedSelectionMismatch else Ok binding
      | None => Ok binding
      end
  | Ok None => unselected requested
  end.

(** [GroundedRewriteSelection::select]. *)
Definition select (data_directory : option Path) (requested : option ArtifactId.t) : Io W AppError ActiveArtifactBinding.t :=
  match data_directory with
  | None => pure_io (unselected requested)
  | Some data_directory =>
      repository ← io_map_err (fun _ => GroundedRepository) (repository_new data_directory);
      io_outcome (chosen requested) (active_generation_binding repository)
  end.

(** The policy of the conformance path. *)
Definition conformance_policy (binding : ActiveArtifactBinding.t) (q : QualificationRecord.t) : GroundedPolicy.t := {|
  GroundedPolicy.schema_version := GROUNDED_POLICY_SCHEMA_VERSION;
  GroundedPolicy.artifact_id := ActiveArtifactBinding.artifact_id binding;
  GroundedPolicy.artifact_digest := ActiveArtifactBinding.artifact_digest binding;
  GroundedPolicy.prompt_template := CONFORMANCE_PROMPT_TEMPLATE;
  GroundedPolicy.prompt_template_digest := sha256 (as_bytes CONFORMANCE_PROMPT_TEMPLATE);
  GroundedPolicy.output := candidate_output_contract;
  GroundedPolicy.candidate_count := 1;
  GroundedPolicy.source_byte_limit := QualificationRecord.source_byte_limit q;
  GroundedPolicy.input_byte_limit := Z.min u64_max (QualificationRecord.source_byte_limit q + 8192);
  GroundedPolicy.context_token_limit := QualificationRecord.context_token_limit q;
  GroundedPolicy.output_token_limit := 256;
  GroundedPolicy.candidate_byte_limit := QualificationRecord.source_byte_limit q;
  GroundedPolicy.sampling := {| SamplingParameters.temperature := f32_zero; SamplingParameters.top_p := f32_one;
                                SamplingParameters.seed := Some 1 |};
  GroundedPolicy.reasoning := Disabled |}.

(** What [require_ready] makes of a binding and its qualification. *)
Definition attach (binding : ActiveArtifactBinding.t) (q : QualificationRecord.t) : Result AppError AttachedConformanceRewrite :=
  if negb (text_eqb (RuntimeIdentity.backend (QualificationRecord.runtime q)) CONFORMANCE_BACKEND_ID)
  then Err GroundedRuntimeUnavailable
  else if negb (bool_decide (QualificationRecord.status q = Qualified))
     || negb (existsb (fun r => bool_decide (r = RoleGeneration)) (QualificationRecord.supported_roles q))
     || bool_decide (QualificationRecord.license_decision q = LicenseRejected)
  then Err GroundedUnavailable
  else
    strategy ← map_err Grounded (new_strategy (conformance_policy binding q));
    backend ← map_err (fun _ => GroundedRuntimeUnavailable)
                (bind (ActiveArtifactBinding.artifact_id binding) (ActiveArtifactBinding.artifact_digest binding)
                   (QualificationRecord.runtime q) None);
    Ok {| attached_strategy := strategy; attached_backend := backend |}.

(** [GroundedRewriteSelection::require_ready]; the repository is opened a
    second time for the qualification. *)
Definition require_ready (data_directory : option Path) (requested : option ArtifactId.t)
  : Io W AppError AttachedConformanceRewrite :=
  binding ← select data_directory requested;
  match data_directory with
  | None => pure_io (Err GroundedUnavailable)
  | Some data_directory =>
      repository ← io_map_err (fun _ => GroundedRepository) (repository_new data_directory);
      q ← io_map_err (fun _ => GroundedRepository)
            (generation_qualification repository (ActiveArtifactBinding.qualification_id binding));
      pure_io (attach binding q)
  end.

End Selection.

Section Attached.
Context {UT : UnicodeTables} {RE : RegexEngine} {AC : AhoCorasick} {SHA : Sha256} {LINT : EditorialLint}.
Context {JSON : JsonCodec} {W : Type} {OW : OperationWorld W}.

(** [AttachedConformanceRewrite::rewrite]. *)
Definition attached_rewrite (attached : AttachedConformanceRewrite) (request : GroundedRewriteRequest)
    (context : OperationContext) : W -> Result AppError GroundedRewriteResult * W :=
  block_ready (rewrite (attached_strategy attached) (conformance_backend (attached_backend attached)) request context).

End Attached.

(** ** Lemmas: futures of the service *)

Lemma steady_outcome {W E F A B} (m : Async W E A) (f : Result E A -> Async W F B) :
  steady m -> (forall r, r <> Panic -> steady (f r)) -> steady (await_outcome m f).
Proof.
  unfold steady, await_outcome; intros Hm Hf w w'; specialize (Hm w); destruct (m w) as [[r w1]|]; [| done].
  apply Hf; intros ->; by eapply Hm.
Qed.
Lemma ready_outcome {W E F A B} (m : Async W E A) (f : Result E A -> Async W F B) :
  ready m -> (forall r, ready (f r)) -> ready (await_outcome m f).
Proof. unfold ready, await_outcome; intros Hm Hf w; specialize (Hm w); destruct (m w) as [[r w1]|]; [apply Hf | done]. Qed.

Section Transactions.
Context {UT : UnicodeTables} {RE : RegexEngine} {AC : AhoCorasick} {SHA : Sha256} {LINT : EditorialLint}.
Variables (bom : bool) (body : text) (options : RewriteOptions).
Hypothesis Hbody : scalars body.

Lemma prepared_offers candidates request (sched : Schedule) n n' cs :
  generate (PreparedCandidateGenerator candidates) request sched n = (Ok cs, n') -> cs = candidates.
Proof. cbn [PreparedCandidateGenerator generate]; destruct (sched n); [done |]; by intros [= <- _]. Qed.

(** What a grounded transaction returns, with the masked texts it was offered. *)
Record safe_result (asked : RewriteMode) (terms : list text) (limits : option LayoutConstraints) (offers : text -> Prop)
    (result : GroundedRewriteResult) : Prop := {
  sr_source : RewriteRecord.source_digest (gr_record result) = sha256 (bom_bytes bom ++ as_bytes body);
  sr_output : RewriteRecord.output_digest (gr_record result) = sha256 (gr_output result);
  sr_kept : RewriteRecord.status (gr_record result) <> Rewritten -> gr_output result = bom_bytes bom ++ as_bytes body;
  sr_rewritten : RewriteRecord.status (gr_record result) = Rewritten ->
    asked = Literal /\
    exists plan masked r, build body terms = Ok plan /\ offers masked /\ substituted plan masked r /\
      gr_output result = bom_bytes bom ++ as_bytes r /\ r <> body /\ retained bom terms limits body r
}.

Lemma prepared_safe (offers : text -> Prop) candidates shadow t sched result :
  Forall (fun c => text_kind c = Masked /\ scalars (cand_text c) /\ offers (cand_text c)) candidates ->
  prepared_transaction (parsed_text bom body) candidates options shadow t sched = Ok result ->
  safe_result (mode options) (protected_terms options) (layout options) offers result.
Proof.
  intros Hc H; unfold prepared_transaction in H; apply bind_ok in H as (transaction & H & [= <-]).
  apply transaction_result in H as (Hs & Ho & Hkept & Hnew); [| done |].
  2:{ intros request n n' cs Hg; apply prepared_offers in Hg as ->; eapply Forall_impl; [exact Hc |]; intros c (_ & ? & _); done. }
  assert (Hst : RewriteRecord.status (gr_record (with_trace transaction t)) = RewriteRecord.status (record transaction))
    by (destruct t; done).
  split; rewrite ?Hst; [destruct t; done | destruct t; done | done |].
  intros Hr; destruct (Hnew Hr) as (e & r & Hout & [_ Hne Hm (plan & c & request & n & n' & cs & Hb & Hg & Hin & Hfrom) Hret _ _]).
  apply prepared_offers in Hg as ->; rewrite Forall_forall in Hc; destruct (Hc c Hin) as (Hk & _ & Hoff).
  unfold came_from in Hfrom; rewrite Hk in Hfrom; split; [done |]; exists plan, (cand_text c), r; split_and!; try done.
  apply restore_substituted; [| done]; apply build_ok in Hb as (Hok & _); apply Hok.
Qed.

(** With valid options and a plan, or a source the engine abstains on, a
    transaction answers. *)
Lemma prepared_total candidates shadow t sched :
  validate_rewrite_options options = Ok tt ->
  match build body (protected_terms options) with Ok _ => True | Err pe => body = [] \/ abstains_on pe = true | Panic => False end ->
  Forall (fun c => scalars (cand_text c)) candidates ->
  exists result, prepared_transaction (parsed_text bom body) candidates options shadow t sched = Ok result.
Proof.
  intros Hv Hb Hc; unfold prepared_transaction, run_plain_text_transaction; cbv zeta.
  match goal with |- context [run ?e sched ?d ?o] => set (engine := e) end.
  assert (Htot : run engine sched (document (parsed_text bom body)) options <> Panic).
  { apply run_no_panic; intros request n; cbn [engine Engine.generator PreparedCandidateGenerator generate]; by destruct (sched n). }
  destruct (run engine sched (document (parsed_text bom body)) options) as [outcome|e|] eqn:Hrun; [| exfalso | done].
  - cbn [map_err mbind result_bind]; apply transaction_outcome in Hrun as [[-> _] | (e & r & -> & _ & Hcom)];
      [| rewrite (com_applied _ _ _ _ _ _ _ Hcom) | done | intros request n n' cs Hg; apply prepared_offers in Hg as ->; done];
      cbn [apply map_err mbind result_bind]; destruct (if valid _ then _ else _) as [[[? ?] ?] ?]; eexists; reflexivity.
  - apply run_err in Hrun as [Hrun | [(pe & -> & Hpe & Hne & Hbuild) | (ge & request & n & Hge & -> & Hg)]]; [congruence | |].
    + rewrite Hbuild in Hb; destruct Hb as [? | Hb]; congruence.
    + subst engine; cbn [Engine.generator PreparedCandidateGenerator generate] in Hg; destruct (sched n); [| done].
      cbn [fst] in Hg; congruence.
Qed.
End Transactions.

Section ServiceLemmas.
Context {UT : UnicodeTables} {RE : RegexEngine} {AC : AhoCorasick} {SHA : Sha256} {LINT : EditorialLint}.
Context {JSON : JsonCodec} {W : Type} {OW : OperationWorld W}.
Variables (strategy : GroundedStrategy) (backend : InferenceBackend W) (context : OperationContext).

(** The backend answers with well-formed strings, as every [String] is. *)
Definition well_formed : Prop := forall request context w response w',
  generate_candidates backend request context w = Some (Ok response, w') ->
  Forall (fun c => scalars (gen_text c)) (GenerationResponse.candidates response).

(** A text the backend returned to some generation call. *)
Definition returned (masked : text) : Prop := exists request w response w',
  generate_candidates backend request context w = Some (Ok response, w') /\
  masked ∈ map gen_text (GenerationResponse.candidates response).

Lemma generated_candidates request w g w' :
  well_formed -> grounded_generate strategy request backend context w = Some (Ok g, w') ->
  Forall (fun c => text_kind c = Masked /\ scalars (cand_text c) /\ returned (cand_text c)) (grounded_candidates g).
Proof.
  intros Hwf H; apply grounded_generate_ok in H as (_ & _ & found & w1 & input & response & _ & _ & _ & _ & Hg & Ha).
  unfold accept_response in Ha; destruct (_ || _); [done |]; apply bind_ok in Ha as (_ & _ & [= <-]); cbn [grounded_candidates].
  rewrite Forall_map; pose proof (Hwf _ _ _ _ _ Hg) as Hs; rewrite Forall_forall in Hs |- *; intros c Hc.
  split_and!; [done | by apply Hs |]; do 4 eexists; split; [exact Hg | apply list_elem_of_fmap; eauto].
Qed.

Lemma options_no_panic o : validate_rewrite_options o <> Panic.
Proof. unfold validate_rewrite_options; by repeat case_match. Qed.

Lemma steady_grounded_generate request :
  steady_backend backend -> steady (grounded_generate strategy request backend context).
Proof.
  intros Hb; unfold grounded_generate.
  assert (Hp : forall p, GroundedPolicy.validate p <> Panic) by (intros p; unfold GroundedPolicy.validate; by repeat case_match).
  assert (Hr : forall r p, GroundedRequest.validate r p <> Panic) by (intros r p; unfold GroundedRequest.validate; by repeat case_match).
  assert (Hi : forall i, safe (fun _ => True) (map_err map_prompt_render_error (render_grounded_prompt_v1 i))).
  { intros i; apply map_err_safe; unfold render_grounded_prompt_v1; cbv zeta; steps_safe; [apply ok_or_safe | by case_match]. }
  assert (Hg : forall r e, @map_err _ GroundedError _ (fun _ => e) (GenerationRequest.validate r) <> Panic).
  { intros r e; unfold GenerationRequest.validate, OutputContract.validate; by repeat case_match. }
  assert (Ha : forall p r d i a, accept_response p r d i a <> Panic).
  { intros p r d i a; unfold accept_response, validate_candidates; by repeat case_match. }
  futures.
Qed.

Lemma steady_shadow binding u source plan candidates :
  steady_backend backend -> steady (prepare_claim_shadow backend binding u source plan candidates context).
Proof. intros Hb; unfold prepare_claim_shadow; destruct binding; futures; by apply steady_join. Qed.

(** What a rewrite can end with. *)
Inductive rewrite_outcome (request : GroundedRewriteRequest) : Result AppError GroundedRewriteResult -> Prop :=
| BadSource e : parse (gr_source request) = Err e -> rewrite_outcome request (Err (AppTextAdapter e))
| BadOptions e : validate_rewrite_options (rewrite_options request) = Err e -> rewrite_outcome request (Err (AppEngine e))
| Unplanned bom body pe :
    parse (gr_source request) = Ok (parsed_text bom body) -> build body (gr_protected_terms request) = Err pe ->
    abstains_on pe = false -> rewrite_outcome request (Err (AppProtection pe))
| GenerationFailed e : is_cancelled_error e = false -> rewrite_outcome request (Err (Grounded e))
| JoinFailed e : gr_claim_shadow request <> None -> e <> ExtractionCancelled -> rewrite_outcome request (Err (ClaimExtraction e))
| Panicked : ~ steady_backend backend -> rewrite_outcome request Panic
| Transacted body candidates shadow t sched :
    let bom := starts_with (gr_source request) UTF8_BOM in
    scalars body -> gr_source request = bom_bytes bom ++ as_bytes body ->
    validate_rewrite_options (rewrite_options request) = Ok tt ->
    match build body (gr_protected_terms request) with Ok _ => True | Err pe => body = [] \/ abstains_on pe = true | Panic => False end ->
    Forall (fun c => text_kind c = Masked /\ scalars (cand_text c) /\ returned (cand_text c)) candidates ->
    rewrite_outcome request
      (prepared_transaction (parsed_text bom body) candidates (rewrite_options request) shadow t sched).

Lemma finish_cases request body plan g w out w' :
  let bom := starts_with (gr_source request) UTF8_BOM in
  scalars body -> gr_source request = bom_bytes bom ++ as_bytes body ->
  validate_rewrite_options (rewrite_options request) = Ok tt -> build body (gr_protected_terms request) = Ok plan ->
  Forall (fun c => text_kind c = Masked /\ scalars (cand_text c) /\ returned (cand_text c)) (grounded_candidates g) ->
  forall u, finish_rewrite backend request context (parsed_text bom body) u plan g w = Some (out, w') ->
  rewrite_outcome request out.
Proof.
  intros bom Hs Hin Hv Hb Hc u; unfold finish_rewrite, await_outcome.
  assert (Htr : forall shadow t sched, rewrite_outcome request
    (prepared_transaction (parsed_text bom body) (grounded_candidates g) (rewrite_options request) shadow t sched)).
  { intros; apply Transacted; try done; by rewrite Hb. }
  destruct (prepare_claim_shadow _ _ _ _ _ _ _ w) as [[r w1]|] eqn:Hj; [| done].
  destruct r as [shadow|e|]; [intros [= <- _]; apply Htr | |].
  2:{ intros [= <- _]; apply Panicked; intros Hst; by eapply steady_shadow. }
  assert (gr_claim_shadow request <> None).
  { intros Hn; rewrite Hn in Hj; discriminate Hj. }
  destruct e; intros [= <- _]; try (by apply JoinFailed); apply Htr.
Qed.

Lemma rewrite_cases request w out w' :
  well_formed -> Forall is_byte (gr_source request) ->
  rewrite strategy backend request context w = Some (out, w') -> rewrite_outcome request out.
Proof.
  intros Hwf Hby; unfold rewrite; destruct (parse (gr_source request)) as [p|e|] eqn:Hp;
    [| by intros [= <- _]; apply BadSource | by apply parse_no_panic in Hp].
  rewrite (async_bind_step _ _ _ (Ok p) w) by done; pose proof Hp as Hparse.
  apply parse_ok_iff in Hp as (_ & body & Hs & Hin & ->); [| done]; set (bom := starts_with _ _) in *.
  destruct (validate_rewrite_options (rewrite_options request)) as [[]|e|] eqn:Hv;
    [| by intros [= <- _]; apply BadOptions | by apply options_no_panic in Hv].
  rewrite (async_bind_step _ _ _ (Ok tt) w) by done.
  cbn [document parsed_text DocumentIr.rewrite_units protected_terms rewrite_options].
  assert (Hempty : match build body (gr_protected_terms request) with Ok _ => True | Err pe => body = [] \/ abstains_on pe = true | Panic => False end ->
    empty_transaction (parsed_text bom body) (rewrite_options request) w = Some (out, w') -> rewrite_outcome request out).
  { intros Hb [= <- _]; apply Transacted; done. }
  destruct (decide (body = [])) as [-> | Hne].
  { cbn [parsed_units]; apply Hempty; pose proof (build_no_panic [] (gr_protected_terms request)).
    destruct (build [] _); auto. }
  rewrite parsed_units_some by done; cbn [unit_text].
  destruct (build body (gr_protected_terms request)) as [plan|pe|] eqn:Hb; [| | by apply build_no_panic in Hb].
  2:{ destruct pe; try (intros [= <- _]; by eapply Unplanned); apply Hempty; by right. }
  unfold await_outcome at 1; destruct (grounded_generate _ _ _ _ w) as [[[g|e|] w1]|] eqn:Hg; [| | | done].
  - apply generated_candidates in Hg; [| done]; eapply finish_cases; eauto.
  - destruct (is_cancelled_error e) eqn:He; intros [= <- _]; [| by apply GenerationFailed].
    apply Transacted; try done; by rewrite Hb.
  - intros [= <- _]; apply Panicked; intros Hst; by eapply steady_grounded_generate.
Qed.
End ServiceLemmas.

(** ** Theorems *)

Section ServiceTheorems.
Context {UT : UnicodeTables} {RE : RegexEngine} {AC : AhoCorasick} {SHA : Sha256} {LINT : EditorialLint}.
Context {JSON : JsonCodec} {W : Type} {OW : OperationWorld W}.
Variables (strategy : GroundedStrategy) (backend : InferenceBackend W) (context : OperationContext).

(** C2. Whatever a model returns, the bytes that come out are safe.  For
    every backend, a grounded rewrite that does not report a rewrite returns
    the source bytes exactly.  One that does was asked in literal mode and
    returns the byte order mark of the source followed by the text the
    backend returned with its placeholders filled in: that masked text has
    the placeholder of every protected value of the source at exactly one
    place and no other placeholder, and the output differs from it in
    nothing but that each placeholder is replaced by its value, so each
    protected value has a place of its own in the output (the backend's own
    text around those places may hold further copies).  The output kept the
    text-safety policy, the token sequence, the newline skeleton (unless
    SHA-256 collides) and the layout limits.  The record names the digests
    of both. *)
Theorem grounded_rewrite_safe (request : GroundedRewriteRequest) (w w' : W) (result : GroundedRewriteResult) :
  well_formed backend -> Forall is_byte (gr_source request) ->
  rewrite strategy backend request context w = Some (Ok result, w') ->
  exists bom body, gr_source request = bom_bytes bom ++ as_bytes body /\
    safe_result bom body (gr_mode request) (gr_protected_terms request) (gr_layout request) (returned backend context) result.
Proof.
  intros Hwf Hby H; apply rewrite_cases in H; [| done | done].
  inversion H as [ | | | | | | body candidates shadow t sched bom Hs Hin Hv Hb Hc Heq].
  exists bom, body; split; [done |]; eapply (prepared_safe bom body (rewrite_options request)); eauto.
Qed.

(** C8. Every refusal of a grounded rewrite has its cause, and cancellation
    is never one: a source the adapter refuses, options that break their
    contract, a body whose protection cannot be planned (a reserved token or
    an ambiguous surface is an abstention instead), a strategy failure that
    is not a cancellation, or a claim-shadow failure that is not one, and
    then only with a binding.  No engine, selection or repository error can
    surface, and nothing panics unless the backend does. *)
Theorem grounded_rewrite_errors (request : GroundedRewriteRequest) (w : W) :
  well_formed backend -> steady_backend backend -> Forall is_byte (gr_source request) ->
  match rewrite strategy backend request context w with
  | None | Some (Ok _, _) => True
  | Some (Err (AppTextAdapter e), _) => parse (gr_source request) = Err e
  | Some (Err (AppEngine e), _) => validate_rewrite_options (rewrite_options request) = Err e
  | Some (Err (AppProtection e), _) =>
      abstains_on e = false /\ exists bom body, parse (gr_source request) = Ok (parsed_text bom body) /\
        build body (gr_protected_terms request) = Err e
  | Some (Err (Grounded (GroundedDiscovery e | GroundedGeneration e)), _) => error_kind e <> KindCancelled
  | Some (Err (Grounded _), _) => True
  | Some (Err (ClaimExtraction e), _) => gr_claim_shadow request <> None /\ e <> ExtractionCancelled
  | Some (Err _, _) | Some (Panic, _) => False
  end.
Proof.
  intros Hwf Hst Hby; destruct (rewrite _ _ _ _ w) as [[out w1]|] eqn:H; [| done]; apply rewrite_cases in H; [| done | done].
  inversion H as [ | | bom body pe Hp Hb Ha | | | | body candidates shadow t sched bom Hs Hin Hv Hb Hc Heq]; subst; try done.
  - split; eauto.
  - unfold is_cancelled_error in *; by case_match; try case_bool_decide.
  - destruct (prepared_total bom body (rewrite_options request) Hs candidates shadow t sched) as [r ->]; try done.
    eapply Forall_impl; [exact Hc |]; intros c (_ & ? & _); done.
Qed.

(** A cancelled generation gives the original back: when the backend
    reports cancellation during discovery or generation, the rewrite
    succeeds with the source bytes and an abstention whose reason is the
    cancellation, without provenance. *)
Theorem grounded_cancellation (request : GroundedRewriteRequest) (body : text) (plan : ProtectionPlan) (w w' : W)
    (u : RewriteUnit) (e : GroundedError) :
  let bom := starts_with (gr_source request) UTF8_BOM in
  parse (gr_source request) = Ok (parsed_text bom body) ->
  DocumentIr.rewrite_units (document (parsed_text bom body)) = [u] ->
  validate_rewrite_options (rewrite_options request) = Ok tt ->
  build body (gr_protected_terms request) = Ok plan ->
  grounded_generate strategy (strategy_request request u plan) backend context w = Some (Err e, w') ->
  (exists ie, (e = GroundedDiscovery ie \/ e = GroundedGeneration ie) /\ error_kind ie = KindCancelled) ->
  exists result, rewrite strategy backend request context w = Some (Ok result, w') /\
    gr_output result = bom_bytes bom ++ as_bytes body /\
    RewriteRecord.status (gr_record result) = Abstained /\ RewriteRecord.reason (gr_record result) = Some Cancelled /\
    RewriteRecord.generation (gr_record result) = None.
Proof.
  intros bom Hp Hu Hv Hb Hg (ie & Hk & Hc); assert (He : is_cancelled_error e = true).
  { destruct Hk as [-> | ->]; by apply bool_decide_eq_true. }
  unfold rewrite; rewrite Hp, (async_bind_step _ _ _ (Ok (parsed_text bom body)) w) by done.
  rewrite Hv, (async_bind_step _ _ _ (Ok tt) w) by done; rewrite Hu.
  assert (Hut : unit_text u = body).
  { cbn [document parsed_text DocumentIr.rewrite_units] in Hu; destruct body; [done | injection Hu as <-; done]. }
  rewrite Hut; cbn [protected_terms rewrite_options]; rewrite Hb; unfold await_outcome; rewrite Hg, He.
  unfold cancelled_transaction, immediate, prepared_transaction, run_plain_text_transaction, run, run_counted; cbv zeta.
  rewrite Hv, parsed_text_valid; cbn [map_err mbind result_bind].
  change (negb (bool_decide (atomicity (rewrite_options request) = ADocument))) with false; cbn [map_err mbind result_bind edits abstained apply verify].
  rewrite bool_decide_eq_true_2 by done; eexists; split; [reflexivity |]; cbn; done.
Qed.

End ServiceTheorems.

(** ** The conformance path *)

Section Conformance.
Context {UT : UnicodeTables} {RE : RegexEngine} {AC : AhoCorasick} {SHA : Sha256} {LINT : EditorialLint}.
Context {JSON : JsonCodec} {W : Type} {OW : OperationWorld W}.

Lemma prepared_no_panic parsed candidates options shadow t sched :
  prepared_transaction parsed candidates options shadow t sched <> Panic.
Proof.
  unfold prepared_transaction, run_plain_text_transaction; cbv zeta.
  match goal with |- context [run ?e sched ?d ?o] => assert (Hrun : run e sched d o <> Panic); [| destruct (run e sched d o) as [outcome| |]; try done] end.
  { apply run_no_panic; intros request n; cbn [Engine.generator PreparedCandidateGenerator generate]; by destruct (sched n). }
  cbn [map_err mbind result_bind]; assert (Ha : apply parsed (edits outcome) <> Panic).
  { unfold apply; destruct (edits outcome) as [|e [|]]; try done; destruct (head _); cbn; [by case_match | done]. }
  destruct (apply parsed (edits outcome)); try done; cbn [map_err mbind result_bind].
  by destruct (if valid _ then _ else _) as [[[? ?] ?] ?].
Qed.

Lemma conformance_response_safe backend request : safe (fun _ => True) (conformance_response backend request).
Proof.
  unfold conformance_response; eapply (safe_bind (fun _ => True)).
  { apply map_err_safe; unfold GenerationRequest.validate, OutputContract.validate; by repeat case_match. }
  intros _ _; eapply (safe_bind (fun _ => True)); [apply ok_or_safe |]; intros bound _.
  repeat (case_match; [done |]); eapply (safe_bind (fun _ => True)).
  { unfold extract_masked_source; steps_safe; [apply ok_or_safe | by case_match]. }
  intros masked _; by case_match.
Qed.

Lemma steady_conformance b : steady_backend (conformance_backend (W:=W) b).
Proof.
  pose proof conformance_response_safe.
  split; intros; cbn [conformance_backend discover generate_candidates complete_structured]; unfold preflight; futures.
Qed.
Lemma ready_conformance b : ready_backend (conformance_backend (W:=W) b).
Proof. split; intros; cbn [conformance_backend discover generate_candidates complete_structured]; unfold preflight; futures. Qed.

Lemma steady_prepared parsed candidates options shadow t :
  steady (fun w : W => Some (prepared_transaction parsed candidates options shadow t (token_answers w), w)).
Proof. intros w w' [= H _]; by apply prepared_no_panic in H. Qed.

Lemma steady_rewrite strategy backend request context : steady_backend backend -> steady (rewrite (W:=W) strategy backend request context).
Proof.
  intros Hb; unfold rewrite; apply steady_bind; [apply steady_immediate | intros parsed].
  { pose proof (parse_no_panic (gr_source request)); by destruct (parse (gr_source request)). }
  apply steady_bind; [apply steady_immediate | intros []].
  { pose proof (options_no_panic (rewrite_options request)); by destruct (validate_rewrite_options _). }
  destruct (DocumentIr.rewrite_units (document parsed)) as [|u units]; [apply steady_prepared |].
  pose proof (build_no_panic (unit_text u) (protected_terms (rewrite_options request))) as Hp.
  assert (Hc : forall cs t, @steady W _ _ (cancelled_transaction parsed cs (rewrite_options request) t)).
  { intros; apply steady_immediate, prepared_no_panic. }
  destruct (build _ _) as [plan|pe|]; [| destruct pe; try (by apply steady_immediate); apply steady_prepared | done].
  apply steady_outcome; [by apply steady_grounded_generate |]; intros [g|e|] Hr; [| destruct (is_cancelled_error e); [apply Hc | by apply steady_immediate] | done].
  unfold finish_rewrite; apply steady_outcome; [by apply steady_shadow |].
  intros [shadow|e|] Hr'; [apply steady_prepared | destruct e; try (by apply steady_immediate); apply Hc | done].
Qed.

Lemma ready_rewrite strategy backend request context : ready_backend backend -> ready (rewrite (W:=W) strategy backend request context).
Proof.
  intros Hb; unfold rewrite; apply ready_bind; [done | intros parsed]; apply ready_bind; [done | intros []].
  destruct (DocumentIr.rewrite_units (document parsed)) as [|u units]; [done |].
  destruct (build _ _) as [plan|pe|]; [| by destruct pe | done].
  apply ready_outcome; [unfold grounded_generate; futures |]; intros [g|e|]; [| by destruct (is_cancelled_error e) | done].
  unfold finish_rewrite; apply ready_outcome; [unfold prepare_claim_shadow; destruct (gr_claim_shadow request); futures; by apply ready_join |].
  intros [shadow|e|]; [done | by destruct e | done].
Qed.

(** The conformance path never reaches the panic of [block_ready]: for
    every attached rewrite, request, token and clock, the first poll is
    ready, and its answer is a result or an error. *)
Theorem attached_rewrite_total (attached : AttachedConformanceRewrite) (request : GroundedRewriteRequest)
    (context : OperationContext) (w : W) :
  fst (attached_rewrite attached request context w) <> Panic.
Proof.
  unfold attached_rewrite, block_ready.
  pose proof (ready_rewrite (attached_strategy attached) _ request context (ready_conformance (attached_backend attached)) w) as Hr.
  pose proof (steady_rewrite (attached_strategy attached) _ request context (steady_conformance (attached_backend attached)) w) as Hs.
  destruct (rewrite _ _ _ _ w) as [[r w1]|]; [| done]; cbn [fst]; intros ->; by eapply Hs.
Qed.
End Conformance.

(** ** Lemmas: the strategy on the conformance backend *)

Lemma token_len k n : 0 <= n < 10000 -> slen (sentinel_token k n) <= MAX_SENTINEL_TOKEN_BYTES.
Proof.
  intros Hn; unfold sentinel_token, MAX_SENTINEL_TOKEN_BYTES; rewrite !slen_app.
  pose proof (slen_length (pad4 (to_string n))) as Hp; rewrite (pad4_length n Hn) in Hp.
  assert (slen (token_label k) <= 6) by (destruct k; vm_compute; discriminate).
  change (slen (lit "{{PROTECTED_")) with 12; change (slen (lit "_")) with 1; change (slen (lit "}}")) with 2; lia.
Qed.

(** The tokens of a plan are the ones the strategy expects. *)
Lemma plan_sentinels (vs : list ProtectedValue) (tokens : gset text) (n : Z) :
  0 <= n -> n + vlen vs < 10000 -> NoDup (map token vs) -> Forall (fun v => token v ∉ tokens) vs ->
  (forall i v, vs !! i = Some v -> token v = sentinel_token (value_kind v) (n + Z.of_nat i + 1)) ->
  sentinels_valid tokens n
    (map (fun v => {| sentinel_text := token v; sentinel_kind := map_protected_kind (value_kind v) |}) vs) = true.
Proof.
  revert tokens n; induction vs as [|v vs IH]; intros tokens n Hn Hl Hnd Hnew Htok; [done |].
  cbn [map sentinels_valid sentinel_text sentinel_kind]; rewrite vlen_cons in Hl; pose proof (vlen_nonneg vs).
  inversion Hnew; cbn in Hnd; apply NoDup_cons in Hnd as [Hv Hnd]; subst.
  rewrite bool_decide_eq_true_2 by done; rewrite IH; [| lia | lia | done | |].
  - rewrite !andb_true_r; unfold valid_token; cbn [sentinel_text sentinel_kind].
    pose proof (Htok 0%nat v eq_refl) as Ht; replace (n + Z.of_nat 0 + 1) with (n + 1) in Ht by lia.
    rewrite Ht, (proj2 (Z.leb_le _ _)) by (apply token_len; lia); unfold text_eqb; apply bool_decide_eq_true.
    unfold sentinel_token, token_label, map_protected_kind; by destruct (value_kind v).
  - rewrite Forall_forall in *; intros x Hx; apply not_elem_of_union; split; [| auto].
    rewrite elem_of_singleton; intros Heq; apply Hv; rewrite <- Heq; apply list_elem_of_fmap; eauto.
  - intros i x Hx; rewrite (Htok (S i) x Hx); f_equal; lia.
Qed.

Section Identity.
Context {UT : UnicodeTables} {RE : RegexEngine} {AC : AhoCorasick} {SHA : Sha256} {LINT : EditorialLint}.
Context {JSON : JsonCodec} {W : Type} {OW : OperationWorld W}.
Variables (binding : ActiveArtifactBinding.t) (q : QualificationRecord.t) (attached : AttachedConformanceRewrite).
Variables (request : GroundedRewriteRequest) (body : text) (plan : ProtectionPlan) (context : OperationContext).

Definition bound_policy : GroundedPolicy.t := conformance_policy binding q.

(** The request and its prompt are within the limits of the qualification. *)
Record within_limits : Prop := {
  wl_source : 0 <= QualificationRecord.source_byte_limit q <= u64_max;
  wl_masked : valid_multiline_text (masked_source plan) usize_max false = true;
  wl_masked_fits : slen (masked_source plan) <= QualificationRecord.source_byte_limit q;
  wl_generated : slen (masked_source plan) <= MAX_GENERATED_TEXT_BYTES;
  wl_style : valid_multiline_text (gr_style_context request) MAX_STYLE_CONTEXT_BYTES true = true;
  wl_prompt : forall u, slen CONFORMANCE_PROMPT_TEMPLATE + 1 + slen (json_print (prompt_envelope (prompt_input
      {| policy := bound_policy |} (strategy_request request u plan))))
    <= GroundedPolicy.input_byte_limit bound_policy
}.

(** The token is not cancelled and no deadline is set. *)
Record undisturbed : Prop := {
  ud_token : forall w : W, token_is_cancelled w = (false, w);
  ud_answers : forall (w : W) n, token_answers w n = false;
  ud_deadline : deadline context = None
}.

Hypothesis Hattach : attach binding q = Ok attached.
Hypothesis Hschema : OutputContract.validate candidate_output_contract = Ok tt.
Hypothesis Hbuild : build body (gr_protected_terms request) = Ok plan.
Hypothesis Hlimits : within_limits.
Hypothesis Hcalm : undisturbed.

Lemma attach_ok :
  attached_strategy attached = {| policy := bound_policy |} /\ GroundedPolicy.validate bound_policy = Ok tt /\
  text_eqb (RuntimeIdentity.backend (QualificationRecord.runtime q)) CONFORMANCE_BACKEND_ID = true /\
  ArtifactId.digest (ActiveArtifactBinding.artifact_id binding) = ActiveArtifactBinding.artifact_digest binding /\
  bind (ActiveArtifactBinding.artifact_id binding) (ActiveArtifactBinding.artifact_digest binding)
    (QualificationRecord.runtime q) None = Ok (attached_backend attached).
Proof.
  pose proof Hattach as H; unfold attach in H; destruct (text_eqb _ _) eqn:Et; [| done]; cbn [negb] in H.
  destruct (_ || _); [done |]; apply bind_ok in H as (s & Hs & H); apply bind_ok in H as (b & Hb & [= <-]).
  apply map_err_ok in Hs, Hb; unfold new_strategy in Hs; apply bind_ok in Hs as ([] & Hv & [= <-]).
  cbn [attached_strategy attached_backend]; split_and!; try done.
  unfold bind in Hb; rewrite Et in Hb; cbn [negb] in Hb.
  destruct (bool_decide _) eqn:E in Hb; [by apply bool_decide_eq_true in E | done].
Qed.

Lemma preflight_passes (w : W) : preflight context w = Some (Ok tt, w).
Proof.
  unfold preflight, mbind, async_bind, is_cancelled, is_expired; rewrite (ud_token Hcalm), (ud_deadline Hcalm); done.
Qed.

Lemma request_valid u : GroundedRequest.validate (strategy_request request u plan) bound_policy = Ok tt.
Proof.
  destruct Hlimits as [Hu Hm Hf Hg Hst _]; unfold GroundedRequest.validate, strategy_request.
  cbn [GroundedRequest.masked_source GroundedRequest.style_context GroundedRequest.sentinels].
  rewrite Hm, Hst; cbn [negb orb]; destruct (build_ok _ _ _ Hbuild) as ([Hnd _] & Hmask & _).
  apply mask_spec in Hmask as (_ & Hn & _); [| done]; unfold MAX_PROTECTED_OCCURRENCES in Hn.
  assert (Hlen : len_u64 (masked_source plan) = slen (masked_source plan)).
  { unfold len_u64; pose proof (slen_nonneg (masked_source plan)).
    assert (Ht : try_from u64_max (slen (masked_source plan)) = Some (slen (masked_source plan))) by (apply try_from_Some; lia).
    by rewrite Ht. }
  rewrite Hlen; change (GroundedPolicy.source_byte_limit bound_policy) with (QualificationRecord.source_byte_limit q).
  rewrite (proj2 (Z.ltb_ge _ _)) by lia; unfold vlen in *; rewrite length_map; unfold MAX_SENTINELS.
  rewrite (proj2 (Z.ltb_ge _ _)) by lia; cbn [orb].
  rewrite plan_sentinels; [done | lia | unfold vlen; lia | done | |].
  - apply Forall_forall; intros; set_solver.
  - intros i v Hv; rewrite (build_tokens _ _ _ _ _ Hbuild Hv); f_equal; lia.
Qed.

(** The one set of capabilities the backend is bound with. *)
Definition conformance_capabilities : InferenceCapabilities.t := {|
  InferenceCapabilities.roles := [RoleGeneration];
  InferenceCapabilities.admitted_output_contract_digests := [OutputContract.schema_digest candidate_output_contract];
  InferenceCapabilities.seed := true; InferenceCapabilities.disable_reasoning := true |}.

Lemma conformance_admits : InferenceCapabilities.admits_output conformance_capabilities candidate_output_contract = true.
Proof.
  unfold InferenceCapabilities.admits_output; change (is_ok (InferenceCapabilities.validate conformance_capabilities)) with true.
  cbn [andb conformance_capabilities InferenceCapabilities.admitted_output_contract_digests existsb].
  by rewrite bool_decide_eq_true_2.
Qed.

(** What the bound backend discovers. *)
Lemma bound_discovery :
  BackendDiscovery.runtime (discovery (attached_backend attached)) = QualificationRecord.runtime q /\
  BackendDiscovery.capabilities (discovery (attached_backend attached)) = conformance_capabilities /\
  exists entry, BackendDiscovery.inventory (discovery (attached_backend attached)) = [entry] /\
    InventoryEntry.artifact_id entry = ActiveArtifactBinding.artifact_id binding /\
    InventoryEntry.artifact_digest entry = ActiveArtifactBinding.artifact_digest binding.
Proof.
  destruct attach_ok as (_ & _ & Ht & Hd & Hb); unfold bind in Hb; rewrite Ht, (bool_decide_eq_true_2 _ Hd) in Hb; cbn [negb] in Hb.
  apply bind_ok in Hb as (id & _ & [= <-]); cbn; split_and!; try done; eexists; split_and!; reflexivity.
Qed.

Lemma bound_qualified : qualified bound_policy (discovery (attached_backend attached)) = true.
Proof.
  destruct bound_discovery as (_ & Hc & entry & Hi & Ha & Hd); unfold qualified; rewrite Hc, Hi; cbn [existsb].
  rewrite Ha, Hd; cbn [bound_policy conformance_policy GroundedPolicy.artifact_id GroundedPolicy.artifact_digest GroundedPolicy.output].
  rewrite (bool_decide_eq_true_2 (_ = ActiveArtifactBinding.artifact_id _)), (bool_decide_eq_true_2 (_ = ActiveArtifactBinding.artifact_digest _)) by done.
  cbn [conformance_capabilities InferenceCapabilities.roles existsb andb orb].
  rewrite (bool_decide_eq_true_2 (RoleGeneration = RoleGeneration)) by done.
  by rewrite conformance_admits.
Qed.

Lemma len_u64_small s : slen s <= u64_max -> len_u64 s = slen s.
Proof.
  intros Hs; unfold len_u64; pose proof (slen_nonneg s).
  assert (Ht : try_from u64_max (slen s) = Some (slen s)) by (apply try_from_Some; lia); by rewrite Ht.
Qed.

Lemma prompt_rendered u :
  exists input, render_grounded_prompt_v1 (prompt_input {| policy := bound_policy |} (strategy_request request u plan)) = Ok input /\
    slen input <= GroundedPolicy.input_byte_limit bound_policy /\
    extract_masked_source input = Ok (masked_source plan).
Proof.
  pose proof (wl_prompt Hlimits u) as Hp; pose proof (wl_source Hlimits) as Hs.
  assert (Hb : 0 <= GroundedPolicy.input_byte_limit bound_policy <= u64_max)
    by (cbn [bound_policy conformance_policy GroundedPolicy.input_byte_limit]; unfold u64_max in *; lia).
  eexists; split; [apply render_fits; [exact Hb | exact Hp] |]; split.
  - rewrite !slen_app; change (slen [10]) with 1; cbn [prompt_input render_template]; cbn [policy bound_policy conformance_policy GroundedPolicy.prompt_template] in *; lia.
  - rewrite (extract_rendered (prompt_input {| policy := bound_policy |} (strategy_request request u plan))); [done | | |].
    + cbn [prompt_input required_candidate_count policy bound_policy conformance_policy GroundedPolicy.candidate_count]; unfold u8_max; lia.
    + apply render_fits; [exact Hb | exact Hp].
    + cbn [prompt_input render_masked_source strategy_request GroundedRequest.masked_source].
      pose proof (wl_masked Hlimits) as Hm; intros E; rewrite E in Hm; done.
Qed.

Lemma to_send_valid u input :
  slen input <= GroundedPolicy.input_byte_limit bound_policy ->
  GenerationRequest.validate (inference_request bound_policy (strategy_request request u plan) input) = Ok tt.
Proof.
  intros Hi; destruct attach_ok as (_ & Hv & _ & Hd & _); unfold GroundedPolicy.validate in Hv.
  destruct (negb _) in Hv; [done |]; destruct (_ || _) eqn:E in Hv; [done |].
  rewrite !orb_false_iff in E; destruct E as (((((((((((((_ & _) & _) & Hc0) & Hc1) & H1) & H2) & H3) & H4) & H5) & _) & _) & _) & Hs).
  unfold GenerationRequest.validate, inference_request; cbn -[len_u64 OutputContract.validate candidate_output_contract valid_sampling].
  pose proof (wl_source Hlimits) as Hq; pose proof (wl_masked_fits Hlimits).
  cbn [bound_policy conformance_policy GroundedPolicy.source_byte_limit GroundedPolicy.input_byte_limit
    GroundedPolicy.context_token_limit GroundedPolicy.output_token_limit GroundedPolicy.candidate_byte_limit] in *.
  rewrite !len_u64_small by (unfold u64_max in *; lia); rewrite bool_decide_eq_true_2 by exact Hd; cbn [negb].
  rewrite (proj2 (Z.ltb_ge _ _)) by lia; rewrite H1, H2, H3, (proj2 (Z.ltb_ge _ _)) by lia; cbn [orb].
  change (valid_sampling _) with true; cbn [negb]; exact Hschema.
Qed.

(** What the bound backend answers. *)
Definition conformance_answer : GenerationResponse.t := {|
  GenerationResponse.runtime := QualificationRecord.runtime q;
  GenerationResponse.artifact_id := ActiveArtifactBinding.artifact_id binding;
  GenerationResponse.artifact_digest := ActiveArtifactBinding.artifact_digest binding;
  GenerationResponse.candidates := [{| ordinal := 0; gen_text := masked_source plan |}];
  GenerationResponse.usage := {| input_tokens := None; output_tokens := None; generation_micros := None |} |}.

Lemma conformance_answers u input :
  slen input <= GroundedPolicy.input_byte_limit bound_policy -> extract_masked_source input = Ok (masked_source plan) ->
  conformance_response (attached_backend attached) (inference_request bound_policy (strategy_request request u plan) input)
    = Ok conformance_answer.
Proof.
  intros Hlen Hex; destruct bound_discovery as (Hr & Hc & entry & Hi & Ha & Hg).
  unfold conformance_response; rewrite to_send_valid, Hi, Hr, Hc by done; cbn [map_err mbind result_bind head ok_or].
    rewrite Ha, Hg; cbn [inference_request GenerationRequest.artifact_id GenerationRequest.artifact_digest GenerationRequest.input
      GenerationRequest.output GenerationRequest.candidate_byte_limit bound_policy conformance_policy GroundedPolicy.artifact_id
      GroundedPolicy.artifact_digest GroundedPolicy.output GroundedPolicy.candidate_byte_limit].
    rewrite !bool_decide_eq_true_2 by done; cbn [negb orb].
    rewrite conformance_admits; cbn [negb]; rewrite Hex; cbn [mbind result_bind]; pose proof (wl_source Hlimits); pose proof (wl_masked_fits Hlimits).
    rewrite len_u64_small by lia; rewrite (proj2 (Z.ltb_ge _ _)) by lia; reflexivity.
Qed.

Lemma conformance_generates u (w : W) :
  exists g, grounded_generate (attached_strategy attached) (strategy_request request u plan)
      (conformance_backend (attached_backend attached)) context w = Some (Ok g, w) /\
    grounded_candidates g = [masked_candidate (unit_id u) {| ordinal := 0; gen_text := masked_source plan |}] /\
    trace_artifact_digest (trace g) = ActiveArtifactBinding.artifact_digest binding /\
    trace_runtime (trace g) = QualificationRecord.runtime q.
Proof.
  destruct attach_ok as (-> & Hv & _ & Hd & _); destruct bound_discovery as (Hr & Hc & entry & Hi & Ha & Hg).
  destruct (prompt_rendered u) as (input & Hin & Hlen & Hex); unfold grounded_generate; cbn [policy].
  rewrite (async_bind_step _ _ _ (Ok tt) w) by (unfold immediate; by rewrite Hv).
  rewrite (async_bind_step _ _ _ (Ok tt) w) by (unfold immediate; by rewrite request_valid).
  rewrite (async_bind_step _ _ _ (Ok (discovery (attached_backend attached))) w).
  2:{ unfold await_map_err; cbn [conformance_backend discover].
      by rewrite (async_bind_step _ _ _ (Ok tt) w) by apply preflight_passes. }
  rewrite bound_qualified; cbn [negb]; rewrite (async_bind_step _ _ _ (Ok input) w)
    by (unfold immediate; unfold prompt_input in Hin; cbn [policy] in Hin; by rewrite Hin).
  rewrite (async_bind_step _ _ _ (Ok tt) w) by (unfold immediate; by rewrite to_send_valid).
  rewrite (async_bind_step _ _ _ (Ok conformance_answer) w).
  2:{ unfold await_map_err; cbn [conformance_backend generate_candidates].
      rewrite (async_bind_step _ _ _ (Ok tt) w) by apply preflight_passes; unfold immediate; by rewrite conformance_answers. }
  unfold immediate, accept_response; cbn [conformance_answer GenerationResponse.runtime GenerationResponse.artifact_id GenerationResponse.artifact_digest
    GenerationResponse.candidates]; rewrite Hr.
  cbn [bound_policy conformance_policy GroundedPolicy.artifact_id GroundedPolicy.artifact_digest].
  rewrite !bool_decide_eq_true_2 by done; cbn [negb orb].
  unfold validate_candidates; cbn [GroundedPolicy.candidate_count GroundedPolicy.candidate_byte_limit conformance_policy bound_policy
    candidates_in_order ordinal gen_text]; change (vlen [_] =? 1) with true.
  pose proof (wl_source Hlimits); pose proof (wl_masked_fits Hlimits).
  rewrite len_u64_small by lia; rewrite (proj2 (Z.leb_le _ _)) by lia; cbn [negb orb andb Z.eqb mbind result_bind].
  eexists; split; [reflexivity |]; done.
Qed.

(** The conformance path is the identity.  When the qualification the
    repository recovered attaches, the texts are within its limits and the
    token is not cancelled, a literal rewrite without a layout or a claim
    binding runs through masking, prompting, the in-process backend,
    restoring and every gate, and returns exactly the source bytes as
    unchanged, with the provenance of the bound artifact and of the fake
    runtime.  The schema the backend admits is assumed to be an object the
    JSON reader accepts. *)
Theorem conformance_identity (w : W) :
  let bom := starts_with (gr_source request) UTF8_BOM in
  parse (gr_source request) = Ok (parsed_text bom body) -> Forall is_byte (gr_source request) -> body <> [] ->
  gr_mode request = Literal -> gr_layout request = None -> gr_claim_shadow request = None ->
  exists result, attached_rewrite attached request context w = (Ok result, w) /\
    gr_output result = gr_source request /\
    RewriteRecord.status (gr_record result) = UnchangedIdentical /\ RewriteRecord.reason (gr_record result) = None /\
    exists g, RewriteRecord.generation (gr_record result) = Some g /\
      Evidence.artifact_digest g = ActiveArtifactBinding.artifact_digest binding /\
      runtime_backend g = RuntimeIdentity.backend (QualificationRecord.runtime q).
Proof.
  intros bom Hp Hby Hne Hm Hl Hs; pose proof (build_ok _ _ _ Hbuild) as (_ & _ & _ & Hterms).
  assert (Hin : gr_source request = bom_bytes bom ++ as_bytes body).
  { apply parse_ok_iff in Hp as (_ & body' & _ & Hin & Heq); [| done].
    apply (f_equal original) in Heq; cbn [original parsed_text] in Heq; apply app_inv_head in Heq; rewrite Hin, Heq; done. }
  assert (Hv : validate_rewrite_options (rewrite_options request) = Ok tt).
  { unfold validate_rewrite_options; cbn [rewrite_options minimum_semantic_confidence protected_terms layout].
    rewrite Hterms, Hl; reflexivity. }
  unfold attached_rewrite, block_ready, rewrite; rewrite Hp, (async_bind_step _ _ _ (Ok (parsed_text bom body)) w) by done.
  rewrite Hv, (async_bind_step _ _ _ (Ok tt) w) by done.
  cbn [document parsed_text DocumentIr.rewrite_units protected_terms rewrite_options]; rewrite parsed_units_some by done.
  cbn [unit_text]; rewrite Hbuild; match goal with |- context [strategy_request request ?x plan] => set (u := x) end.
  destruct (conformance_generates u w) as (g & Hg & Hcs & Hd & Hrt); unfold await_outcome at 1; rewrite Hg.
  unfold finish_rewrite, await_outcome, prepare_claim_shadow; rewrite Hs; cbn [immediate]; rewrite Hcs.
  unfold prepared_transaction, masked_candidate; cbn [fmap option_fmap option_map ordinal gen_text].
  destruct (identity_transaction bom body plan (rewrite_options request)
    (PreparedCandidateGenerator [{| cand_id := CandidateId.new (unit_id u) 0; cand_unit_id := unit_id u;
       cand_text := masked_source plan; text_kind := Masked; rank := default_rank |}])
    {| cand_id := CandidateId.new (unit_id u) 0; cand_unit_id := unit_id u; cand_text := masked_source plan;
       text_kind := Masked; rank := default_rank |} None (token_answers w)) as (result & Hr & Ho & Hst & Hre); try done.
  - intros n; apply (ud_answers Hcalm).
  - intros r n _; cbn [PreparedCandidateGenerator generate]; by rewrite (ud_answers Hcalm).
  - by apply candidate_scope.
  - apply provided_contract, (wl_generated Hlimits).
  - by right.
  - unfold immediate; cbn beta iota; cbn [fmap option_fmap option_map].
    match goal with |- context [run_plain_text_transaction ?p ?m ?o ?s ?k] =>
      replace (run_plain_text_transaction p m o s k) with (@Ok AppError _ result) by (symmetry; exact Hr) end; cbn [mbind result_bind]; eexists; split; [reflexivity |]; rewrite Hin.
    cbn [gr_output gr_record with_trace]; split_and!; try done; eexists; split; [reflexivity |]; cbn; rewrite Hd, Hrt; done.
Qed.
End Identity.
