(* ===== verification/LintText.v ===== *)
(** * Text helpers and phrase detectors of the editorial lint
    ([engine/src/lint/residue.rs], [patterns.rs], [conclusion.rs],
    [density.rs], and the quotation marks of [rules.rs]).

    The functions take a text and a byte index, as the sources do, and slice
    it there; a slice off a character boundary is a panic.  The lemmas show
    what each detector returns at a boundary, so none of them panics. *)

From S2P Require Import Prelude Text Evidence.

(** Computations without an error value: they return or panic. *)
Abbreviation Total := (Result Empty_set).

(** The question mark on an [Option] inside such a computation. *)
Notation "x ←? y ; z" :=
  (y ≫= (fun o => match o with Some x => z | None => Ok None end))
  (at level 20, y at level 100, z at level 200, only parsing).

(** [&text[i..]], [&text[..i]] and [&text[i..j]]. *)
Definition text_from (s : text) (i : Z) : Total text := expect (get_from s i).
Definition text_to (s : text) (i : Z) : Total text := expect (get_to s i).
Definition text_range (s : text) (i j : Z) : Total text := expect (slice s i j).

(** ** The standard library on strings *)

(** [str::trim_start_matches] and [str::trim_end_matches] of a test. *)
Fixpoint trim_start_by (test : Z -> bool) (s : text) : text :=
  match s with c :: s' => if test c then trim_start_by test s' else s | [] => [] end.
Definition trim_end_by (test : Z -> bool) (s : text) : text := rev (trim_start_by test (rev s)).
Definition trim_start : text -> text := trim_start_by is_whitespace.
Definition trim_end : text -> text := trim_end_by is_whitespace.

(** [str::ends_with] of a string, and of one of several characters. *)
Definition ends_with (s suffix : text) : bool := starts_with (rev s) (rev suffix).
Definition ends_with_any (s : text) (cs : list Z) : bool :=
  match last s with Some c => existsb (Z.eqb c) cs | None => false end.

(** [str::find] of one of several characters: its byte offset. *)
Fixpoint find_any (cs : list Z) (s : text) : option Z :=
  match s with
  | [] => None
  | c :: s' =>
      if existsb (Z.eqb c) cs then Some 0
      else match find_any cs s' with Some i => Some (len_utf8 c + i) | None => None end
  end.

(** [str::split_whitespace]; [current] is the token read so far, reversed. *)
Fixpoint split_whitespace_from (current : text) (s : text) : list text :=
  match s with
  | [] => match current with [] => [] | _ => [rev current] end
  | c :: s' =>
      if is_whitespace c
      then match current with [] => [] | _ => [rev current] end ++ split_whitespace_from [] s'
      else split_whitespace_from (c :: current) s'
  end.
Definition split_whitespace (s : text) : list text := split_whitespace_from [] s.

(** [<[T]>::partition_point] on a slice that the test partitions. *)
Fixpoint partition_point {A} (test : A -> bool) (l : list A) : Z :=
  match l with x :: l' => if test x then 1 + partition_point test l' else 0 | [] => 0 end.

(** [Iterator::min] over the results of a partial function. *)
Definition min_opt (a b : option Z) : option Z :=
  match a, b with Some x, Some y => Some (Z.min x y) | Some x, None => Some x | None, o => o end.

(** [windows(4)]. *)
Fixpoint windows4 {A} (l : list A) : list (list A) :=
  match l with
  | a :: ((b :: c :: d :: _) as l') => [a; b; c; d] :: windows4 l'
  | _ => []
  end.

(** ** Quotation marks *)

(** A half-open range of byte offsets. *)
Record Range := { range_start : Z; range_end : Z }.

(** One step of the scan in [quoted_spans]: the spans found, the open ASCII
    mark and the open curly mark. *)
Definition quote_step (state : list Range * option Z * option Z) (item : Z * Z)
  : list Range * option Z * option Z :=
  let '(spans, in_ascii, in_curly) := state in
  let '(idx, ch) := item in
  if ch =? 34 then
    match in_ascii with
    | Some start => (spans ++ [{| range_start := start; range_end := idx + len_utf8 ch |}], None, in_curly)
    | None => (spans, Some idx, in_curly)
    end
  else if ch =? 0x201C then (spans, in_ascii, Some idx)
  else if ch =? 0x201D then
    match in_curly with
    | Some start => (spans ++ [{| range_start := start; range_end := idx + len_utf8 ch |}], in_ascii, None)
    | None => state
    end
  else state.

(** The ends are replaced by the running maximum. *)
Fixpoint extend_ends (maximum_end : Z) (spans : list Range) : list Range :=
  match spans with
  | [] => []
  | span :: spans' =>
      let maximum_end := Z.max maximum_end (range_end span) in
      {| range_start := range_start span; range_end := maximum_end |} :: extend_ends maximum_end spans'
  end.

(** [quoted_spans]. *)
Definition quoted_spans (s : text) : list Range :=
  let '(spans, _, _) := foldl quote_step ([], None, None) (char_indices s) in
  extend_ends 0 (sort_by (fun a b => range_start a <=? range_start b) spans).

(** [is_inside_quotes]. *)
Definition is_inside_quotes (i j : Z) (quotes : list Range) : Total bool :=
  let index := partition_point (fun span => range_start span <=? i) quotes in
  if 0 <? index then
    span ← expect (quotes !! Z.to_nat (index - 1));
    Ok (j <=? range_end span)
  else Ok false.

(** ** Matching ([residue.rs]) *)

(** [fold_char]. *)
Definition fold_char (c : Z) : Z :=
  if (c =? 0x2019) || (c =? 0x2018) || (c =? 96) || (c =? 0xB4) then 39 else to_ascii_lowercase c.

(** [match_folded]; [e] is the end reached so far. *)
Fixpoint match_folded (s : text) (e : Z) (pattern : text) : Total (option Z) :=
  match pattern with
  | [] => Ok (Some e)
  | expected :: pattern' =>
      rest ← text_from s e;
      match head rest with
      | None => Ok None
      | Some c => if fold_char c =? expected then match_folded s (e + len_utf8 c) pattern' else Ok None
      end
  end.

(** [next_char_len]. *)
Definition next_char_len (s : text) (index : Z) : Total Z :=
  rest ← text_from s index;
  Ok (match head rest with Some c => len_utf8 c | None => 1 end).

(** [char_limited_end]: the loop adds the widths of at most [limit] characters. *)
Definition char_limited_end (s : text) (from : Z) (limit : nat) : Total Z :=
  rest ← text_from s from;
  Ok (from + slen (take limit rest)).

(** [at_line_start]. *)
Definition at_line_start (s : text) (index : Z) : Total bool :=
  before ← text_to s index;
  let line_start := match rfind_char 10 before with Some position => position + 1 | None => 0 end in
  part ← text_range s line_start index;
  Ok (forallb is_whitespace part).

(** [overlaps]. *)
Definition overlaps (i j : Z) (covered : list (Z * Z)) : bool :=
  existsb (fun '(covered_start, covered_end) => (i <? covered_end) && (covered_start <? j)) covered.

(** ** Detectors *)

Section Detectors.
Context {UT : UnicodeTables}.

(** [Option::is_none_or] of not being alphanumeric. *)
Definition no_word (c : option Z) : bool :=
  match c with Some c => negb (is_alphanumeric c) | None => true end.

(** [word_bounded]. *)
Definition word_bounded (s : text) (i j : Z) : Total bool :=
  before ← text_to s i;
  after ← text_from s j;
  Ok (no_word (last before) && no_word (head after)).

(** [world_within]; the loop runs over the window with its own offsets. *)
Fixpoint world_loop (fuel : nat) (s : text) (from : Z) (window : text) (offset : Z) : Total (option Z) :=
  match fuel with
  | O => Ok None
  | S fuel' =>
      if offset <? slen window then
        found ← match_folded window offset (lit "world");
        bounded ← match found with
                  | Some e => word_bounded s (from + offset) (from + e)
                  | None => Ok false
                  end;
        match found, bounded with
        | Some e, true => Ok (Some (from + e))
        | _, _ =>
            step ← next_char_len window offset;
            world_loop fuel' s from window (offset + step)
        end
      else Ok None
  end.
Definition world_within (s : text) (from : Z) : Total (option Z) :=
  window_end ← char_limited_end s from 80;
  match slice s from window_end with
  | Some window => world_loop (length window) s from window 0
  | None => Ok None
  end.

(** The loops of [earliest_ending] and [earliest_word] ([patterns.rs]): the
    end of the first occurrence within the limit that passes [test]. *)
Fixpoint earliest (fuel : nat) (test : Z -> Z -> Total bool) (s : text) (limit index : Z) (phrase : text)
  : Total (option Z) :=
  match fuel with
  | O => Ok None
  | S fuel' =>
      if index <? limit then
        found ← match_folded s index phrase;
        passes ← match found with
                 | Some e => if e <=? limit then test index e else Ok false
                 | None => Ok false
                 end;
        match found, passes with
        | Some e, true => Ok (Some e)
        | _, _ =>
            step ← next_char_len s index;
            earliest fuel' test s limit (index + step) phrase
        end
      else Ok None
  end.

(** [earliest_ending]. *)
Definition earliest_ending (s : text) (from to_ : Z) (phrase : text) : Total (option Z) :=
  earliest (length s) (fun _ e => after ← text_from s e; Ok (no_word (head after)))
    s (Z.min to_ (slen s)) from phrase.

(** [earliest_word]. *)
Definition earliest_word (s : text) (from to_ : Z) (phrase : text) : Total (option Z) :=
  earliest (length s) (word_bounded s) s (Z.min to_ (slen s)) from phrase.

(** [iter().find_map(|opener| match_folded(text, index, opener))]. *)
Fixpoint first_opener (s : text) (index : Z) (openers : list text) : Total (option Z) :=
  match openers with
  | [] => Ok None
  | opener :: openers' =>
      found ← match_folded s index opener;
      match found with Some e => Ok (Some e) | None => first_opener s index openers' end
  end.

(** [iter().filter_map(find).min()]. *)
Fixpoint nearest (find : text -> Total (option Z)) (phrases : list text) : Total (option Z) :=
  match phrases with
  | [] => Ok None
  | phrase :: phrases' =>
      found ← find phrase;
      others ← nearest find phrases';
      Ok (min_opt found others)
  end.

(** The guard that the opener is a whole word. *)
Definition whole_opener (s : text) (index : Z) (opener_end : option Z) : Total (option Z) :=
  e ←? Ok opener_end;
  bounded ← word_bounded s index e;
  Ok (if bounded : bool then Some e else None).

Definition SCENE_CUES : list text := [lit "landscape"; lit "era"; lit "climate"].
Definition CONTRASTIVE_OPENERS : list text := [lit "not just"; lit "not merely"; lit "not only"].
Definition CONTRASTIVE_CLOSERS : list text := [lit "; it is"; lit ", but"; lit "; but"].
Definition QUESTION_OPENERS : list text := [lit "the result?"; lit "the answer?"; lit "the upshot?"].
Definition QUESTION_BUZZWORDS : list text := [lit "seamless"; lit "robust"; lit "intuitive"; lit "effortless"].
Definition CONCLUSION_OPENERS : list text := [lit "in conclusion"; lit "to conclude"; lit "in closing"].

(** [scene_at]. *)
Definition scene_at (s : text) (index : Z) : Total (option (Z * Z)) :=
  found ← match_folded s index (lit "in today's");
  opener_end ←? whole_opener s index found;
  window_end ← char_limited_end s opener_end 80;
  cue_end ←? nearest (earliest_word s opener_end window_end) SCENE_CUES;
  Ok (Some (index, cue_end)).

(** [contrastive_at]. *)
Definition contrastive_at (s : text) (index : Z) : Total (option (Z * Z)) :=
  found ← first_opener s index CONTRASTIVE_OPENERS;
  opener_end ←? whole_opener s index found;
  window_end ← char_limited_end s opener_end 80;
  closer_end ←? nearest (earliest_ending s opener_end window_end) CONTRASTIVE_CLOSERS;
  Ok (Some (index, closer_end)).

(** The letters [next_word_end] counts: [None] beyond twelve bytes. *)
Fixpoint word_letters (count : Z) (s : text) : option Z :=
  match s with
  | c :: s' =>
      if negb (is_ascii_alphabetic c) then Some count
      else
        let count := count + len_utf8 c in
        if 12 <? count then None else word_letters count s'
  | [] => Some count
  end.

(** [next_word_end]. *)
Definition next_word_end (s : text) (from : Z) : Total (option Z) :=
  match get_from s from with
  | None => Ok None
  | Some rest =>
      let skipped := slen rest - slen (trim_start rest) in
      let i := from + skipped in
      tail ← text_from s i;
      Ok (match word_letters 0 tail with
          | Some count => if in_range 2 12 count then Some (i + count) else None
          | None => None
          end)
  end.

(** [reader_at]. *)
Definition reader_at (s : text) (index : Z) : Total (option (Z * Z)) :=
  found ← first_opener s index [lit "whether you're"; lit "whether you are"];
  opener_end ←? whole_opener s index found;
  window_end ← char_limited_end s opener_end 90;
  or_just ←? earliest_word s opener_end window_end (lit "or just");
  next ←? next_word_end s or_just;
  Ok (Some (index, next)).

(** [question_at]. *)
Definition question_at (s : text) (index : Z) : Total (option (Z * Z)) :=
  found ← first_opener s index QUESTION_OPENERS;
  opener_end ←? whole_opener s index found;
  window_end ← char_limited_end s opener_end 60;
  buzzword ←? nearest (earliest_word s opener_end window_end) QUESTION_BUZZWORDS;
  Ok (Some (index, buzzword)).

(** [at_word_start]. *)
Definition at_word_start (s : text) (index : Z) : Total bool :=
  before ← text_to s index;
  Ok (no_word (last before)).

(** The loop of [short_token]: bytes and characters of the token. *)
Fixpoint token_chars (bytes_ count : Z) (s : text) : option (Z * Z) :=
  match s with
  | c :: s' =>
      if (count =? 0) && negb (is_ascii_alphabetic c) then None
      else if is_ascii_alphabetic c || (c =? 45) || (c =? 39) then
        if 24 <? count + 1 then None else token_chars (bytes_ + len_utf8 c) (count + 1) s'
      else Some (bytes_, count)
  | [] => Some (bytes_, count)
  end.

(** [short_token]. *)
Definition short_token (s : text) (i : Z) : option Z :=
  match get_from s i with
  | None => None
  | Some rest =>
      match token_chars 0 0 rest with
      | Some (bytes_, count) => if 3 <=? count then Some (i + bytes_) else None
      | None => None
      end
  end.

(** [comma_space]. *)
Definition comma_space (s : text) (index : Z) : option Z :=
  match get_from s index with
  | Some rest => if starts_with rest (lit ", ") then Some (index + 2) else None
  | None => None
  end.

(** [ends_item]. *)
Definition ends_item (s : text) (e : Z) : Total bool :=
  rest ← text_from s e;
  Ok (negb (match head (trim_start rest) with Some c => is_ascii_alphabetic c | None => false end)).

(** [tricolon_at]. *)
Definition tricolon_at (s : text) (index : Z) : Total (option (Z * Z)) :=
  word_start ← at_word_start s index;
  if negb word_start then Ok None
  else
    first_end ←? Ok (short_token s index);
    second_start ←? Ok (comma_space s first_end);
    second_end ←? Ok (short_token s second_start);
    third_start ←? Ok (comma_space s second_end);
    and_end ←? match_folded s third_start (lit "and ");
    third_end ←? Ok (short_token s and_end);
    last_item ← ends_item s third_end;
    Ok (if last_item : bool then Some (index, third_end) else None).

(** ** Conclusions ([conclusion.rs]) *)

Record ConclusionWord := { word_start : Z; word_end : Z; folded : text }.

(** [conclusion_words]; [current] is the word being read, reversed, and
    [index] the offset of the rest. *)
Fixpoint conclusion_words_from (index : Z) (current : text) (s : text) : list ConclusionWord :=
  let word := {| word_start := index - slen current; word_end := index;
                 folded := map to_ascii_lowercase (rev current) |} in
  match s with
  | [] => match current with [] => [] | _ => [word] end
  | c :: s' =>
      if is_alphanumeric c then conclusion_words_from (index + len_utf8 c) (c :: current) s'
      else match current with [] => [] | _ => [word] end ++ conclusion_words_from (index + len_utf8 c) [] s'
  end.
Definition conclusion_words (s : text) : list ConclusionWord := conclusion_words_from 0 [] s.

(** [at_sentence_start]. *)
Definition at_sentence_start (s : text) (index : Z) : Total bool :=
  prefix ← text_to s index;
  let before := trim_end_by (fun c => (c =? 32) || (c =? 9)) prefix in
  Ok ((vlen before =? 0) || ends_with_any before [46; 63; 33; 10; 13]).

(** [conclusion_at]. *)
Definition conclusion_at (s : text) (index : Z) : Total (option (Z * Z)) :=
  sentence ← at_sentence_start s index;
  if negb sentence then Ok None
  else
    found ← first_opener s index CONCLUSION_OPENERS;
    opener_end ←? whole_opener s index found;
    limited ← char_limited_end s index 160;
    part ← text_range s index limited;
    let sentence_end :=
      match find_any [46; 63; 33] part with Some relative => index + relative + 1 | None => limited end in
    Ok (Some (opener_end, sentence_end)).

(** [repeated_tail]. *)
Definition repeated_tail (words : list ConclusionWord) (opener_start opener_end sentence_end : Z) : option Z :=
  let tail := map folded
    (List.filter (fun w => (opener_end <=? word_start w) && (word_start w <? sentence_end)) words) in
  if vlen tail <? 4 then None
  else
    let earlier := map folded (List.filter (fun w => word_end w <=? opener_start) words) in
    let repeated := existsb (fun window => existsb (fun previous => bool_decide (previous = window))
                                             (windows4 earlier)) (windows4 tail) in
    if repeated then Some sentence_end else None.

(** ** Density ([density.rs]) *)

(** [count_words]. *)
Definition count_words (s : text) : Z :=
  vlen (List.filter (existsb is_alphanumeric) (split_whitespace s)).

End Detectors.

Definition SHORT_DOCUMENT_WORDS : Z := 1000.
Definition MARK_FLOOR : Z := 3.
Definition MARK_PER_THOUSAND : Z := 3.

(** [rate_met]. *)
Definition rate_met (unquoted words floor per_thousand : Z) : bool :=
  if unquoted <? floor then false
  else (words <? SHORT_DOCUMENT_WORDS) || (per_thousand <=? saturating_mul usize_max unquoted 1000 / words).

(** [is_density_emoji]. *)
Definition is_density_emoji (c : Z) : bool :=
  if in_range 0x1F3FB 0x1F3FF c then false
  else (c =? 0x2705) || in_range 0x1F300 0x1F5FF c || in_range 0x1F600 0x1F64F c
       || in_range 0x1F680 0x1F6FF c || in_range 0x1F900 0x1F9FF c || in_range 0x1FA70 0x1FAFF c.

(** The mark [scan_dashes] finds at the start of a text: its end. *)
Definition dash_end (rest : text) (index : Z) : option Z :=
  if starts_with rest [0x2014] then Some (index + len_utf8 0x2014)
  else if starts_with rest [0x2013] then Some (index + len_utf8 0x2013)
  else if starts_with rest (lit " -- ") then Some (index + 4)
  else None.

(** [scan_dashes]: the visitor threads a state and says whether to go on. *)
Fixpoint scan_dashes_from {S : Type} (fuel : nat) (s : text) (visit : S -> Z -> Z -> Total (S * bool))
    (index : Z) (state : S) : Total S :=
  match fuel with
  | O => Ok state
  | Datatypes.S fuel' =>
      if index <? slen s then
        rest ← text_from s index;
        match dash_end rest index with
        | Some e =>
            '(state, go_on) ← visit state index e;
            if go_on : bool then scan_dashes_from fuel' s visit e state else Ok state
        | None =>
            step ← next_char_len s index;
            scan_dashes_from fuel' s visit (index + step) state
        end
      else Ok state
  end.
Definition scan_dashes {S : Type} (s : text) (visit : S -> Z -> Z -> Total (S * bool)) (state : S) : Total S :=
  scan_dashes_from (length s) s visit 0 state.

(** [scan_emoji]. *)
Fixpoint scan_emoji_from {S : Type} (visit : S -> Z -> Z -> Total (S * bool)) (state : S)
    (items : list (Z * Z)) : Total S :=
  match items with
  | [] => Ok state
  | (index, c) :: items' =>
      if negb (is_density_emoji c) then scan_emoji_from visit state items'
      else
        '(state, go_on) ← visit state index (index + len_utf8 c);
        if go_on : bool then scan_emoji_from visit state items' else Ok state
  end.
Definition scan_emoji {S : Type} (s : text) (visit : S -> Z -> Z -> Total (S * bool)) (state : S) : Total S :=
  scan_emoji_from visit state (char_indices s).

(** ** Lemmas: slicing at boundaries *)

Lemma text_from_at p r : text_from (p ++ r) (slen p) = Ok r.
Proof. unfold text_from, get_from; by rewrite split_at_app. Qed.

Lemma text_to_at p r : text_to (p ++ r) (slen p) = Ok p.
Proof. unfold text_to, get_to; by rewrite split_at_app. Qed.

Lemma slice_at p m r : slice (p ++ m ++ r) (slen p) (slen p + slen m) = Some m.
Proof. apply slice_spec; exists p, r; split_and!; [done | done | lia]. Qed.

Lemma text_range_at p m r : text_range (p ++ m ++ r) (slen p) (slen p + slen m) = Ok m.
Proof. unfold text_range; by rewrite slice_at. Qed.

(** A computation without an error value that is safe returns. *)
Lemma safe_total {A} (P : A -> Prop) (m : Total A) : safe P m <-> exists a, m = Ok a /\ P a.
Proof. destruct m as [a|[]|]; cbn; split; try done; [eauto | by intros (? & [= ->] & ?) | by intros (? & ? & ?)]. Qed.

(** The ends a scan of [p ++ r] from [slen p] can reach, and the ones it can
    reach by a nonempty step. *)
Definition reach (p r : text) (e : Z) : Prop := exists m r', r = m ++ r' /\ e = slen p + slen m.
Definition reach1 (p r : text) (e : Z) : Prop := exists m r', r = m ++ r' /\ m <> [] /\ e = slen p + slen m.
Abbreviation opt P := (from_option P True).

Lemma reach_refl p r : reach p r (slen p).
Proof. exists [], r; split; [done | cbn; lia]. Qed.

Lemma reach_all p r : reach p r (slen (p ++ r)).
Proof. exists r, []; by rewrite app_nil_r, slen_app. Qed.

Lemma reach1_weaken p r e : reach1 p r e -> reach p r e.
Proof. intros (m & r' & ? & _ & ?); by exists m, r'. Qed.

Lemma reach_app p m r e : reach (p ++ m) r e -> reach p (m ++ r) e.
Proof. intros (m' & r' & -> & ->); exists (m ++ m'), r'; rewrite !slen_app, <- app_assoc; split; [done | lia]. Qed.

Lemma reach1_app p m r e : reach1 (p ++ m) r e -> reach1 p (m ++ r) e.
Proof.
  intros (m' & r' & -> & Hm & ->); exists (m ++ m'), r'; rewrite !slen_app, <- app_assoc.
  split_and!; [done | by destruct m | lia].
Qed.

Lemma reach1_step p m r e : m <> [] -> reach (p ++ m) r e -> reach1 p (m ++ r) e.
Proof.
  intros Hm (m' & r' & -> & ->); exists (m ++ m'), r'; rewrite !slen_app, <- app_assoc.
  split_and!; [done | by destruct m | lia].
Qed.

Lemma reach1_cons p c r e : reach1 (p ++ [c]) r e -> reach1 p (c :: r) e.
Proof. apply (reach1_app p [c]). Qed.

Lemma reach1_bounds p r e : reach1 p r e -> slen p < e <= slen (p ++ r).
Proof.
  intros (m & r' & -> & Hm & ->); rewrite !slen_app; pose proof (slen_pos m Hm); pose proof (slen_nonneg r'); lia.
Qed.

(** A boundary after the index splits the rest. *)
Lemma reach_split p r e : reach p r e -> exists m r', r = m ++ r' /\ p ++ r = (p ++ m) ++ r' /\ e = slen (p ++ m).
Proof. intros (m & r' & -> & ->); exists m, r'; rewrite slen_app, app_assoc; done. Qed.

#[export] Hint Resolve reach_refl reach_all reach1_weaken reach_app reach1_app reach1_step : retonr.

(** ** Lemmas: matching *)

Lemma fold_match_spec p r pattern :
  safe (opt (fun e => exists m r', r = m ++ r' /\ e = slen p + slen m /\ length m = length pattern))
    (match_folded (p ++ r) (slen p) pattern).
Proof.
  revert p r; induction pattern as [|x pattern IH]; intros p r; cbn [match_folded].
  { exists [], r; split_and!; [done | cbn; lia | done]. }
  rewrite text_from_at; cbn [mbind result_bind]; destruct r as [|c r]; cbn [head]; [done |].
  destruct (fold_char c =? x); [| done].
  replace (slen p + len_utf8 c) with (slen (p ++ [c])) by (rewrite slen_app; cbn; lia).
  replace (p ++ c :: r) with ((p ++ [c]) ++ r) by by rewrite <- app_assoc.
  eapply safe_weaken; [apply IH |]; intros [e|]; [| done]; intros (m & r' & -> & -> & Hl).
  exists (c :: m), r'; rewrite slen_app; cbn; split_and!; [done | lia | by rewrite Hl].
Qed.

Lemma match_folded_reach p r pattern :
  pattern <> [] -> safe (opt (reach1 p r)) (match_folded (p ++ r) (slen p) pattern).
Proof.
  intros Hp; eapply safe_weaken; [apply fold_match_spec |]; intros [e|]; [| done].
  intros (m & r' & -> & -> & Hl); exists m, r'; split_and!; try done; by destruct m, pattern.
Qed.

Lemma next_char_len_spec p c r : next_char_len (p ++ c :: r) (slen p) = Ok (len_utf8 c).
Proof. unfold next_char_len; by rewrite text_from_at. Qed.

Lemma next_index p c : slen p + len_utf8 c = slen (p ++ [c]).
Proof. rewrite slen_app; cbn; lia. Qed.

Lemma char_limited_end_spec p r limit : exists e, char_limited_end (p ++ r) (slen p) limit = Ok e /\
  reach p r e /\ (limit <> 0%nat -> r <> [] -> reach1 p r e).
Proof.
  unfold char_limited_end; rewrite text_from_at; eexists; split; [done |]; split.
  - exists (take limit r), (drop limit r); by rewrite take_drop.
  - intros Hl Hr; exists (take limit r), (drop limit r); rewrite take_drop.
    split_and!; [done | by destruct limit, r | done].
Qed.

Lemma rfind_char_boundary off c s i :
  rfind_char_from off c s = Some i -> exists a b, s = a ++ c :: b /\ c ∉ b /\ i = off + slen a.
Proof.
  revert off; induction s as [|d s IH]; intros off; cbn; [done |].
  destruct (rfind_char_from _ c s) eqn:E.
  - intros [= <-]; apply IH in E as (a & b & -> & Hb & ->); exists (d :: a), b; split_and!; [done | done | cbn; lia].
  - destruct (Z.eqb_spec d c) as [-> |]; [| done]; intros [= <-].
    exists [], s; split_and!; [done | by apply rfind_char_from_None in E | cbn; lia].
Qed.

Lemma at_line_start_safe p r : safe (fun _ => True) (at_line_start (p ++ r) (slen p)).
Proof.
  unfold at_line_start; rewrite text_to_at; cbn [mbind result_bind].
  unfold rfind_char; destruct (rfind_char_from 0 10 p) as [i|] eqn:E.
  - apply rfind_char_boundary in E as (a & b & -> & _ & ->).
    replace (0 + slen a + 1) with (slen (a ++ [10])) by (rewrite slen_app; reflexivity).
    replace ((a ++ 10 :: b) ++ r) with ((a ++ [10]) ++ b ++ r) by by rewrite <- !app_assoc.
    replace (slen (a ++ 10 :: b)) with (slen (a ++ [10]) + slen b) by (rewrite !slen_app; cbn; lia).
    by rewrite text_range_at.
  - pose proof (text_range_at [] p r : text_range (p ++ r) 0 (slen p) = Ok p) as H; by rewrite H.
Qed.

(** ** Lemmas: quotation marks *)

Lemma partition_point_bounds {A} (test : A -> bool) l : 0 <= partition_point test l <= vlen l.
Proof.
  induction l as [|x l IH]; cbn; [unfold vlen; cbn; lia |]; rewrite vlen_cons; destruct (test x); lia.
Qed.

Lemma is_inside_quotes_total i j quotes : exists b, is_inside_quotes i j quotes = Ok b.
Proof.
  unfold is_inside_quotes; set (n := partition_point _ _); pose proof (partition_point_bounds (fun span => range_start span <=? i) quotes).
  destruct (Z.ltb_spec 0 n); [| eauto].
  destruct (lookup_lt_is_Some_2 quotes (Z.to_nat (n - 1))) as [x Hx]; [unfold vlen in *; lia |].
  rewrite Hx; cbn; eauto.
Qed.

(** ** Lemmas: detectors *)

Section DetectorLemmas.
Context {UT : UnicodeTables}.

Lemma word_bounded_safe p m r : exists b, word_bounded (p ++ m ++ r) (slen p) (slen p + slen m) = Ok b.
Proof.
  unfold word_bounded; rewrite text_to_at, app_assoc, <- slen_app, text_from_at; cbn; eauto.
Qed.

Lemma word_bounded_reach p r e : reach p r e -> safe (fun _ => True) (word_bounded (p ++ r) (slen p) e).
Proof. intros (m & r' & -> & ->); destruct (word_bounded_safe p m r') as [b ->]; done. Qed.

Lemma world_loop_safe n s p0 p r post :
  s = p0 ++ (p ++ r) ++ post ->
  safe (opt (reach1 (p0 ++ p) (r ++ post))) (world_loop n s (slen p0) (p ++ r) (slen p)).
Proof.
  revert p r; induction n as [|n IH]; intros p r Hs; cbn [world_loop]; [done |].
  destruct (Z.ltb_spec (slen p) (slen (p ++ r))) as [Hlt|]; [| done].
  eapply safe_bind; [apply match_folded_reach; discriminate |]; intros o Ho.
  destruct r as [|c r]; [rewrite app_nil_r in Hlt; lia |].
  eapply safe_bind with (P := fun _ => True).
  { destruct o as [e|]; [| done]; destruct Ho as (m & r' & E & _ & ->); rewrite E in Hs.
    rewrite <- slen_app, Z.add_assoc, <- slen_app; subst s.
    replace (p0 ++ (p ++ m ++ r') ++ post) with ((p0 ++ p) ++ m ++ (r' ++ post)) by by rewrite <- !app_assoc.
    by destruct (word_bounded_safe (p0 ++ p) m (r' ++ post)) as [b ->]. }
  intros b _; destruct o as [e|], b; cbn.
  2-4: rewrite next_char_len_spec; cbn [mbind result_bind]; rewrite next_index;
    replace (p ++ c :: r) with ((p ++ [c]) ++ r) by (by rewrite <- app_assoc);
    (eapply safe_weaken; [apply IH; by rewrite Hs, <- !app_assoc |]);
    intros [e'|]; [| done]; intros He; apply (reach1_cons (p0 ++ p) c (r ++ post)); by rewrite <- app_assoc.
  destruct Ho as (m & r' & E & Hm & ->); exists m, (r' ++ post); rewrite slen_app, app_assoc, <- E.
  split_and!; [done | done | lia].
Qed.

Lemma world_within_safe p r : safe (opt (reach1 p r)) (world_within (p ++ r) (slen p)).
Proof.
  unfold world_within; destruct (char_limited_end_spec p r 80) as (e & -> & (m & r' & -> & ->) & _).
  cbn [mbind result_bind]; rewrite slice_at.
  pose proof (world_loop_safe (length m) (p ++ m ++ r') p [] m r' eq_refl) as H.
  cbn in H; by rewrite app_nil_r in H.
Qed.

(** A search within a window reaches past the index or finds nothing. *)
Lemma earliest_safe n test s limit p r phrase :
  s = p ++ r -> phrase <> [] -> limit <= slen s ->
  (forall p1 m r', s = p1 ++ m ++ r' -> safe (fun _ => True) (test (slen p1) (slen p1 + slen m))) ->
  safe (opt (reach1 p r)) (earliest n test s limit (slen p) phrase).
Proof.
  intros Hs Hp Hl Ht; revert p r Hs; induction n as [|n IH]; intros p r Hs; cbn [earliest]; [done |].
  destruct (Z.ltb_spec (slen p) limit) as [Hlt|]; [| done].
  destruct r as [|c r]; [rewrite Hs, app_nil_r in Hl; lia |].
  eapply safe_bind; [rewrite Hs; by apply match_folded_reach |]; intros o Ho.
  eapply safe_bind with (P := fun _ => True).
  { destruct o as [e|]; [| done]; destruct (e <=? limit); [| done].
    destruct Ho as (m & r' & E & _ & ->); apply (Ht p m r'); by rewrite Hs, E. }
  intros b _; destruct o as [e|], b; [exact Ho | ..];
    rewrite Hs, next_char_len_spec, <- Hs; cbn [mbind result_bind]; rewrite next_index;
    (eapply safe_weaken; [apply (IH (p ++ [c]) r); by rewrite Hs, <- app_assoc |]);
    intros [e'|]; [| done | | done | | done]; intros He; by apply reach1_cons.
Qed.

Lemma earliest_word_safe p r to_ phrase :
  phrase <> [] -> safe (opt (reach1 p r)) (earliest_word (p ++ r) (slen p) to_ phrase).
Proof.
  intros Hp; apply earliest_safe; [done | done | lia |].
  intros p1 m r' ->; by destruct (word_bounded_safe p1 m r') as [b ->].
Qed.

Lemma earliest_ending_safe p r to_ phrase :
  phrase <> [] -> safe (opt (reach1 p r)) (earliest_ending (p ++ r) (slen p) to_ phrase).
Proof.
  intros Hp; apply earliest_safe; [done | done | lia |].
  intros p1 m r' ->; rewrite <- slen_app, app_assoc, text_from_at; done.
Qed.

Lemma first_opener_safe p r openers :
  Forall (fun o => o <> []) openers -> safe (opt (reach1 p r)) (first_opener (p ++ r) (slen p) openers).
Proof.
  induction 1 as [|o l Ho _ IH]; cbn [first_opener]; [done |].
  eapply safe_bind; [by apply match_folded_reach |]; intros [e|]; cbn; auto.
Qed.

Lemma nearest_safe (P : Z -> Prop) find phrases :
  (forall phrase, phrase ∈ phrases -> safe (opt P) (find phrase)) -> safe (opt P) (nearest find phrases).
Proof.
  induction phrases as [|x l IH]; intros Hf; cbn [nearest]; [done |].
  eapply safe_bind; [apply Hf; left |]; intros a Ha.
  eapply safe_bind; [apply IH; intros y Hy; apply Hf; by right |]; intros b Hb.
  destruct a as [a|], b as [b|]; cbn in *; try done.
  destruct (Z.min_spec a b) as [[_ ->]|[_ ->]]; done.
Qed.

Lemma whole_opener_safe p r o :
  opt (reach1 p r) o -> safe (opt (reach1 p r)) (whole_opener (p ++ r) (slen p) o).
Proof.
  destruct o as [e|]; [| done]; intros He; cbn [whole_opener mbind result_bind].
  eapply safe_bind; [by apply word_bounded_reach, reach1_weaken |]; intros [|] _; done.
Qed.

(** What a detector promises: it starts at the index and ends further on. *)
Definition detected (p r : text) (found : Z * Z) : Prop := fst found = slen p /\ reach1 p r (snd found).
Definition detects (s : text) (detect : Z -> Total (option (Z * Z))) : Prop :=
  forall p r, s = p ++ r -> r <> [] -> safe (opt (detected p r)) (detect (slen p)).

Ltac nonempty_phrases := repeat (apply Forall_cons; split; [discriminate |]); apply Forall_nil_2.

(** The detectors that look for a cue in a window after an opener. *)
Lemma window_safe p r (opener : Total (option Z)) limit (search : Z -> Z -> Total (option Z)) :
  safe (opt (reach1 p r)) opener ->
  (forall m r' to_, r = m ++ r' -> safe (opt (reach1 (p ++ m) r')) (search (slen (p ++ m)) to_)) ->
  safe (opt (detected p r))
    (found ← opener;
     opener_end ←? whole_opener (p ++ r) (slen p) found;
     window_end ← char_limited_end (p ++ r) opener_end limit;
     cue ←? search opener_end window_end;
     Ok (Some (slen p, cue))).
Proof.
  intros Ho Hs; eapply safe_bind; [exact Ho |]; intros o Hr.
  eapply safe_bind; [by apply whole_opener_safe |]; intros [e|]; [| done]; intros He.
  apply reach1_weaken, reach_split in He as (m & r' & -> & Heq & ->).
  destruct (char_limited_end_spec (p ++ m) r' limit) as (w & Hw & _); rewrite Heq, Hw; cbn [mbind result_bind].
  eapply safe_bind; [by apply (Hs m r' w) |]; intros [c|]; [| done]; intros Hc.
  split; [done |]; cbn; by apply reach1_app.
Qed.

Lemma scene_at_detects s : detects s (scene_at s).
Proof.
  intros p r -> _; apply window_safe; [by apply match_folded_reach |].
  intros m r' to_ ->; rewrite app_assoc; apply nearest_safe; intros x Hx; apply earliest_word_safe.
  unfold SCENE_CUES in Hx; rewrite !elem_of_cons, elem_of_nil in Hx; intuition (subst; discriminate).
Qed.

Lemma contrastive_at_detects s : detects s (contrastive_at s).
Proof.
  intros p r -> _; apply window_safe; [apply first_opener_safe; nonempty_phrases |].
  intros m r' to_ ->; rewrite app_assoc; apply nearest_safe; intros x Hx; apply earliest_ending_safe.
  unfold CONTRASTIVE_CLOSERS in Hx; rewrite !elem_of_cons, elem_of_nil in Hx; intuition (subst; discriminate).
Qed.

Lemma question_at_detects s : detects s (question_at s).
Proof.
  intros p r -> _; apply window_safe; [apply first_opener_safe; nonempty_phrases |].
  intros m r' to_ ->; rewrite app_assoc; apply nearest_safe; intros x Hx; apply earliest_word_safe.
  unfold QUESTION_BUZZWORDS in Hx; rewrite !elem_of_cons, elem_of_nil in Hx; intuition (subst; discriminate).
Qed.

Lemma trim_start_by_suffix test s : exists w, s = w ++ trim_start_by test s.
Proof.
  induction s as [|c s IH]; cbn; [by exists [] |]; destruct (test c); [| by exists []].
  destruct IH as [w Hw]; exists (c :: w); cbn; by rewrite <- Hw.
Qed.

Lemma word_letters_spec k s n :
  word_letters k s = Some n -> exists m r', s = m ++ r' /\ n = k + slen m.
Proof.
  revert k; induction s as [|c s IH]; intros k; cbn.
  { intros [= <-]; exists [], []; split; [done | cbn; lia]. }
  destruct (negb _); [intros [= <-]; exists [], (c :: s); split; [done | cbn; lia] |].
  destruct (12 <? k + len_utf8 c); [done |]; intros H; apply IH in H as (m & r' & -> & ->).
  exists (c :: m), r'; split; [done | cbn; lia].
Qed.

Lemma next_word_end_safe p r : safe (opt (reach p r)) (next_word_end (p ++ r) (slen p)).
Proof.
  unfold next_word_end, get_from; rewrite split_at_app; cbv zeta.
  destruct (trim_start_by_suffix is_whitespace r) as [w Hw]; fold (trim_start r) in Hw.
  set (t := trim_start r) in *; rewrite Hw.
  replace (slen p + (slen (w ++ t) - slen t)) with (slen (p ++ w)) by (rewrite !slen_app; lia).
  rewrite app_assoc, text_from_at; cbn [mbind result_bind].
  destruct (word_letters 0 t) as [n|] eqn:E; [| done]; destruct (in_range 2 12 n); [| done].
  apply word_letters_spec in E as (m & r' & -> & ->); cbn [safe from_option].
  exists (w ++ m), r'; rewrite !slen_app, <- app_assoc; split; [done | lia].
Qed.

(** Walk to the next boundary a step has reached. *)
Ltac advance H :=
  let m := fresh "m" in let r := fresh "r" in let Hm := fresh "Hm" in
  destruct H as (m & r & -> & Hm & ->);
  match goal with
  | |- context [slen ?p + slen m] => rewrite <- (slen_app p m), (app_assoc p m r)
  end.

Lemma reader_at_detects s : detects s (reader_at s).
Proof.
  intros p r -> _; unfold reader_at.
  eapply safe_bind; [apply first_opener_safe; nonempty_phrases |]; intros o Hr.
  eapply safe_bind; [by apply whole_opener_safe |]; intros [e|]; [| done]; intros He.
  advance He.
  destruct (char_limited_end_spec (p ++ m) r0 90) as (w & -> & _); cbn [mbind result_bind].
  eapply safe_bind; [by apply earliest_word_safe |]; intros [j|]; [| done]; intros Hj.
  advance Hj.
  eapply safe_bind; [apply next_word_end_safe |]; intros [n|]; [| done]; intros Hn.
  split; [done |]; cbn [fst snd]; apply reach_app in Hn; by apply reach1_step.
Qed.

Lemma token_chars_spec b k s b' k' :
  token_chars b k s = Some (b', k') -> exists m r', s = m ++ r' /\ b' = b + slen m /\ k' = k + vlen m.
Proof.
  revert b k; induction s as [|c s IH]; intros b k; cbn [token_chars].
  { intros [= <- <-]; exists [], []; split_and!; [done | cbn; lia | unfold vlen; cbn; lia]. }
  destruct (_ && _); [done |]; destruct (_ || _).
  - destruct (24 <? k + 1); [done |]; intros H; apply IH in H as (m & r' & -> & -> & ->).
    exists (c :: m), r'; rewrite vlen_cons; split_and!; [done | cbn; lia | lia].
  - intros [= <- <-]; exists [], (c :: s); split_and!; [done | cbn; lia | unfold vlen; cbn; lia].
Qed.

Lemma short_token_reach p r e : short_token (p ++ r) (slen p) = Some e -> reach1 p r e.
Proof.
  unfold short_token, get_from; rewrite split_at_app.
  destruct (token_chars 0 0 r) as [[b k]|] eqn:E; [| done].
  apply token_chars_spec in E as (m & r' & -> & -> & ->); destruct (Z.leb_spec 3 (0 + vlen m)); [| done].
  intros [= <-]; exists m, r'; split_and!; [done | | lia]; intros ->; unfold vlen in *; cbn in *; lia.
Qed.

Lemma comma_space_reach p r e : comma_space (p ++ r) (slen p) = Some e -> reach1 p r e.
Proof.
  unfold comma_space, get_from; rewrite split_at_app.
  destruct (starts_with r (lit ", ")) eqn:E; [| done]; apply starts_with_spec in E as [r' ->].
  intros [= <-]; exists (lit ", "), r'; done.
Qed.

Lemma ends_item_safe p r : safe (fun _ => True) (ends_item (p ++ r) (slen p)).
Proof. unfold ends_item; by rewrite text_from_at. Qed.

Lemma tricolon_at_detects s : detects s (tricolon_at s).
Proof.
  intros p r -> _; unfold tricolon_at, at_word_start; rewrite text_to_at; cbn [mbind result_bind].
  destruct (negb _); [done |].
  destruct (short_token (p ++ r) (slen p)) as [e|] eqn:H; [| done]; apply short_token_reach in H; advance H.
  destruct (comma_space _ _) as [e|] eqn:H; [| done]; apply comma_space_reach in H; advance H.
  destruct (short_token _ _) as [e|] eqn:H; [| done]; apply short_token_reach in H; advance H.
  destruct (comma_space _ _) as [e|] eqn:H; [| done]; apply comma_space_reach in H; advance H.
  eapply safe_bind; [apply match_folded_reach; discriminate |]; intros [e|]; [| done]; intros H; advance H.
  destruct (short_token _ _) as [e|] eqn:H'; [| done]; apply short_token_reach in H'.
  destruct (reach_split _ _ _ (reach1_weaken _ _ _ H')) as (k & t & Hk & Heq & He); rewrite Heq, He.
  eapply safe_bind; [apply ends_item_safe |]; intros [|] _; [| done].
  split; [done |]; cbn [fst snd]; rewrite <- He; apply reach1_weaken in H'.
  apply reach1_step; [done |]; by repeat apply reach_app.
Qed.

Lemma find_any_spec cs s i :
  find_any cs s = Some i -> exists a c b, s = a ++ c :: b /\ i = slen a /\ c ∈ cs.
Proof.
  revert i; induction s as [|c s IH]; intros i; cbn; [done |].
  destruct (existsb (Z.eqb c) cs) eqn:E.
  - intros [= <-]; exists [], c, s; split_and!; try done.
    apply existsb_exists in E as (d & Hd & Heq); apply Z.eqb_eq in Heq as ->; by apply list_elem_of_In.
  - destruct (find_any cs s) as [k|]; [| done]; intros [= <-].
    destruct (IH k eq_refl) as (a & d & b & -> & -> & Hd); by exists (c :: a), d, b.
Qed.

Lemma conclusion_at_safe p r :
  r <> [] -> safe (opt (fun found => reach1 p r (snd found))) (conclusion_at (p ++ r) (slen p)).
Proof.
  intros Hr; unfold conclusion_at, at_sentence_start; rewrite text_to_at; cbn [mbind result_bind].
  destruct (negb _); [done |].
  eapply safe_bind; [apply first_opener_safe; nonempty_phrases |]; intros o Ho.
  eapply safe_bind; [by apply whole_opener_safe |]; intros [e|] _; [| done].
  destruct (char_limited_end_spec p r 160) as (l & -> & _ & Hl); cbn [mbind result_bind].
  destruct (Hl ltac:(done) Hr) as (m & r' & -> & Hm & ->); rewrite text_range_at; cbn [mbind result_bind safe from_option snd].
  destruct (find_any _ m) as [k|] eqn:E; [| by exists m, r'].
  apply find_any_spec in E as (a & c & b & -> & -> & Hc); exists (a ++ [c]), (b ++ r').
  assert (Hw : len_utf8 c = 1) by (rewrite !elem_of_cons, elem_of_nil in Hc; intuition (subst; done)).
  rewrite slen_app; cbn [slen]; rewrite <- !app_assoc; split_and!; [done | by destruct a | lia].
Qed.

End DetectorLemmas.

(** ** Lemmas: marks *)

(** A visitor run over a list of marks until it says stop. *)
Fixpoint visit_all {S : Type} (visit : S -> Z -> Z -> Total (S * bool)) (state : S) (marks : list (Z * Z)) : Total S :=
  match marks with
  | [] => Ok state
  | (i, j) :: marks' =>
      '(state, go_on) ← visit state i j;
      if go_on : bool then visit_all visit state marks' else Ok state
  end.

(** A nonempty piece of a text between two boundaries. *)
Definition piece (s : text) (mark : Z * Z) : Prop :=
  exists p m r, s = p ++ m ++ r /\ m <> [] /\ mark = (slen p, slen p + slen m).

Lemma starts_with_reach p r m : m <> [] -> starts_with r m = true -> reach1 p r (slen p + slen m).
Proof. intros Hm H; apply starts_with_spec in H as [r' ->]; by exists m, r'. Qed.

Lemma dash_end_spec p r e : dash_end r (slen p) = Some e -> reach1 p r e.
Proof.
  unfold dash_end; destruct (starts_with r [0x2014]) eqn:H1.
  { intros [= <-]; by apply (starts_with_reach p r [0x2014]). }
  destruct (starts_with r [0x2013]) eqn:H2.
  { intros [= <-]; by apply (starts_with_reach p r [0x2013]). }
  destruct (starts_with r (lit " -- ")) eqn:H3; [| done].
  intros [= <-]; by apply (starts_with_reach p r (lit " -- ")).
Qed.

(** A scan is a walk over a list of marks, whoever visits. *)
Definition walks {S : Type} (run : (S -> Z -> Z -> Total (S * bool)) -> S -> Total S) (marks : list (Z * Z)) : Prop :=
  forall visit state, run visit state = visit_all visit state marks.

Lemma scan_dashes_from_marks n s p r :
  s = p ++ r -> exists marks, Forall (piece s) marks /\ (length marks <= length r)%nat /\
    forall S, walks (fun visit => @scan_dashes_from S n s visit (slen p)) marks.
Proof.
  revert p r; induction n as [|n IH]; intros p r Hs.
  { exists []; split_and!; [apply Forall_nil_2 | cbn; lia | by intros S visit state]. }
  destruct (Z.ltb_spec (slen p) (slen s)) as [Hlt|Hge].
  2: { exists []; split_and!; [apply Forall_nil_2 | cbn; lia |].
       intros S visit state; cbn [scan_dashes_from]; by rewrite (proj2 (Z.ltb_ge _ _)). }
  destruct r as [|c r]; [rewrite Hs, app_nil_r in Hlt; lia |].
  assert (Hr : text_from s (slen p) = Ok (c :: r)) by by rewrite Hs, text_from_at.
  destruct (dash_end (c :: r) (slen p)) as [e|] eqn:He.
  - pose proof (dash_end_spec _ _ _ He) as (m & r' & E & Hm & Hem).
    destruct (IH (p ++ m) r') as (marks & Hf & Hl & Hv); [by rewrite Hs, E, app_assoc |].
    exists ((slen p, e) :: marks); split_and!.
    + apply Forall_cons; split; [| done]; exists p, m, r'; by rewrite Hs, E, Hem.
    + assert (length (c :: r) = length m + length r')%nat by by rewrite E, length_app.
      destruct m; [done |]; cbn in *; lia.
    + intros S visit state; cbn [scan_dashes_from visit_all].
      rewrite (proj2 (Z.ltb_lt _ _)), Hr by done; cbn [mbind result_bind]; rewrite He.
      rewrite Hem, <- slen_app; destruct (visit state _ _) as [[st [|]]|e'|]; cbn; try done; apply Hv.
  - destruct (IH (p ++ [c]) r) as (marks & Hf & Hl & Hv); [by rewrite Hs, <- app_assoc |].
    exists marks; split_and!; [done | cbn; lia |].
    intros S visit state; cbn [scan_dashes_from].
    rewrite (proj2 (Z.ltb_lt _ _)), Hr by done; cbn [mbind result_bind]; rewrite He.
    assert (next_char_len s (slen p) = Ok (len_utf8 c)) as -> by (rewrite Hs; apply next_char_len_spec).
    cbn [mbind result_bind]; rewrite next_index; apply Hv.
Qed.

Lemma scan_dashes_marks s : exists marks, Forall (piece s) marks /\ (length marks <= length s)%nat /\
  forall S, walks (@scan_dashes S s) marks.
Proof. apply (scan_dashes_from_marks (length s) s [] s eq_refl). Qed.

Lemma scan_emoji_from_marks s p r :
  s = p ++ r -> exists marks, Forall (piece s) marks /\ (length marks <= length r)%nat /\
    forall S, walks (fun visit state => @scan_emoji_from S visit state (char_indices_from (slen p) r)) marks.
Proof.
  revert p; induction r as [|c r IH]; intros p Hs.
  { exists []; split_and!; [apply Forall_nil_2 | done | by intros S visit state]. }
  destruct (IH (p ++ [c])) as (marks & Hf & Hl & Hv); [by rewrite Hs, <- app_assoc |].
  rewrite <- next_index in Hv; cbn [char_indices_from scan_emoji_from]; destruct (is_density_emoji c) eqn:Hc; cbn [negb].
  - exists ((slen p, slen p + len_utf8 c) :: marks); split_and!; [| cbn; lia |].
    + apply Forall_cons; split; [| done]; exists p, [c], r; split_and!; [done | done |]; cbn; do 2 f_equal; lia.
    + intros S visit state; cbn [char_indices_from scan_emoji_from visit_all]; rewrite ?Hc; cbn [negb].
      destruct (visit state _ _) as [[st [|]]|e|]; cbn; try done; apply Hv.
  - exists marks; split_and!; [done | cbn; lia |]; intros S visit state; cbn [char_indices_from scan_emoji_from]; rewrite ?Hc; apply Hv.
Qed.

Lemma scan_emoji_marks s : exists marks, Forall (piece s) marks /\ (length marks <= length s)%nat /\
  forall S, walks (@scan_emoji S s) marks.
Proof. apply (scan_emoji_from_marks s [] s eq_refl). Qed.
