(* ===== verification/Lint.v ===== *)
(** * The editorial lint ([types/src/lint.rs], [engine/src/lint]).

    Findings and their comparison, the bounded collector, the rule catalog
    and every rule of the catalog.  A rule is a command on the collector: it
    reads the findings made so far, appends its own and may refuse when the
    complete result cannot be held. *)

From S2P Require Import Prelude Text Evidence LintText.

(** ** Findings ([types/src/lint.rs]) *)

Record FindingSpan := { span_start : Z; span_end : Z; span_line : Z; span_column : Z }.

Module EditorialFinding.

Record t := mk {
  rule_id : text;
  evidence : text;
  occurrence : Z;
  message : text;
  span : option FindingSpan
}.

(** [EditorialFinding::new]. *)
Definition new (rule_id evidence : text) (occurrence : Z) (message : text) : t :=
  mk rule_id evidence occurrence message None.

(** The identity of a finding in a comparison. *)
Definition key (f : t) : text * text * Z := (rule_id f, evidence f, occurrence f).

End EditorialFinding.

Module EditorialComparison.

Record t := mk {
  source_findings : list EditorialFinding.t;
  candidate_findings : list EditorialFinding.t;
  resolved_findings : list EditorialFinding.t;
  introduced_findings : list EditorialFinding.t;
  retained_findings : list EditorialFinding.t
}.

(** [finding_counts]. *)
Definition finding_counts (findings : list EditorialFinding.t) : gmap (text * text * Z) Z :=
  tally (map EditorialFinding.key findings).

(** The loops of [compute]: the findings whose count could be consumed, and
    the ones whose count could not. *)
Fixpoint split_findings (remaining : gmap (text * text * Z) Z) (findings : list EditorialFinding.t)
  : list EditorialFinding.t * list EditorialFinding.t :=
  match findings with
  | [] => ([], [])
  | f :: findings' =>
      match consume remaining (EditorialFinding.key f) with
      | Some remaining' =>
          let '(kept, lost) := split_findings remaining' findings' in (f :: kept, lost)
      | None =>
          let '(kept, lost) := split_findings remaining findings' in (kept, f :: lost)
      end
  end.

(** [EditorialComparison::compute]. *)
Definition compute (source candidate : list EditorialFinding.t) : t :=
  let '(retained, resolved) := split_findings (finding_counts candidate) source in
  let '(_, introduced) := split_findings (finding_counts source) candidate in
  mk source candidate resolved introduced retained.

(** [has_introduced_defects] and [is_strict_improvement]. *)
Definition has_introduced_defects (c : t) : bool := negb (vlen (introduced_findings c) =? 0).
Definition is_strict_improvement (c : t) : bool :=
  negb (vlen (resolved_findings c) =? 0) && (vlen (introduced_findings c) =? 0).

End EditorialComparison.

(** ** The catalog ([rules.rs]) *)

Inductive RuleCatalog :=
| PrefabricatedSceneSetting | ContrastiveReframe | StackedTricolon | PromotionalPuffery
| OrnamentalAbstraction | ReaderSegmentation | PerformativeQuestionAnswer | EmptySignificance
| SummaryPileup | GenericPositiveClose | TransitionPileup | PerformativeCollaboration
| ConversationalResidue | ThroatClearing | CannedTransition | RepeatedConclusion
| VagueAttribution | RedundantQualifier | ExcessiveExclamation | ExcessiveDashDensity
| ExcessiveEmojiDensity.
#[global] Instance rule_catalog_eq_dec : EqDecision RuleCatalog.
Proof. solve_decision. Defined.

(** [RuleCatalog::id]. *)
Definition id_ (r : RuleCatalog) : text :=
  match r with
  | PrefabricatedSceneSetting => lit "prefabricated_scene_setting"
  | ContrastiveReframe => lit "contrastive_reframe"
  | StackedTricolon => lit "stacked_tricolon"
  | PromotionalPuffery => lit "promotional_puffery"
  | OrnamentalAbstraction => lit "ornamental_abstraction"
  | ReaderSegmentation => lit "reader_segmentation"
  | PerformativeQuestionAnswer => lit "performative_question_answer"
  | EmptySignificance => lit "empty_significance"
  | SummaryPileup => lit "summary_pileup"
  | GenericPositiveClose => lit "generic_positive_close"
  | TransitionPileup => lit "transition_pileup"
  | PerformativeCollaboration => lit "performative_collaboration"
  | ConversationalResidue => lit "conversational_residue"
  | ThroatClearing => lit "throat_clearing"
  | CannedTransition => lit "canned_transition"
  | RepeatedConclusion => lit "repeated_conclusion"
  | VagueAttribution => lit "vague_attribution"
  | RedundantQualifier => lit "redundant_qualifier"
  | ExcessiveExclamation => lit "excessive_exclamation"
  | ExcessiveDashDensity => lit "excessive_dash_density"
  | ExcessiveEmojiDensity => lit "excessive_emoji_density"
  end.

(** [RuleCatalog::ALL]. *)
Definition ALL : list RuleCatalog :=
  [PrefabricatedSceneSetting; ContrastiveReframe; StackedTricolon; PromotionalPuffery;
   OrnamentalAbstraction; ReaderSegmentation; PerformativeQuestionAnswer; EmptySignificance;
   SummaryPileup; GenericPositiveClose; TransitionPileup; PerformativeCollaboration;
   ConversationalResidue; ThroatClearing; CannedTransition; RepeatedConclusion;
   VagueAttribution; RedundantQualifier; ExcessiveExclamation; ExcessiveDashDensity;
   ExcessiveEmojiDensity].

(** ** The collector ([collector.rs]) *)

(** [LineIndex::new]: the offsets after each newline byte, after 0. *)
Fixpoint newline_starts (offset : Z) (bs : bytes) : list Z :=
  match bs with
  | [] => []
  | b :: bs' =>
      if b =? 10 then saturating_add usize_max offset 1 :: newline_starts (offset + 1) bs'
      else newline_starts (offset + 1) bs'
  end.
Definition line_index (s : text) : list Z := 0 :: newline_starts 0 (as_bytes s).

(** [LineIndex::point]. *)
Definition line_point (starts : list Z) (byte_index : Z) : option TextPoint.t :=
  let position := partition_point (fun start => start <=? byte_index) starts in
  line_index ← checked_sub position 1;
  line_start ← starts !! Z.to_nat line_index;
  column_offset ← checked_sub byte_index line_start;
  line0 ← try_from u32_max line_index;
  line ← checked_add u32_max line0 1;
  column0 ← try_from u32_max column_offset;
  column ← checked_add u32_max column0 1;
  Some (TextPoint.mk line column).

Record FindingCollector := {
  findings : list EditorialFinding.t;
  maximum : Z;
  exceeded : bool;
  lines : list Z
}.

(** [FindingCollector::new]. *)
Definition new_collector (s : text) (maximum : Z) : FindingCollector := {|
  findings := []; maximum := maximum; exceeded := false; lines := line_index s |}.

(** [FindingCollector::locate]. *)
Definition locate (col : FindingCollector) (s : text) (i j : Z) : option FindingSpan :=
  if (j <? i) || (slen s <? j) || negb (is_char_boundary s i) || negb (is_char_boundary s j) then None
  else
    point ← line_point (lines col) i;
    i32 ← try_from u32_max i;
    j32 ← try_from u32_max j;
    Some {| span_start := i32; span_end := j32;
            span_line := TextPoint.line point; span_column := TextPoint.column point |}.

(** [push] and [refuse]. *)
Definition push (col : FindingCollector) (f : EditorialFinding.t) : FindingCollector :=
  if maximum col <=? vlen (findings col)
  then {| findings := findings col; maximum := maximum col; exceeded := true; lines := lines col |}
  else {| findings := findings col ++ [f]; maximum := maximum col; exceeded := exceeded col; lines := lines col |}.
Definition refuse (col : FindingCollector) : FindingCollector := {|
  findings := findings col; maximum := maximum col; exceeded := true; lines := lines col |}.

(** [remaining]. *)
Definition remaining (col : FindingCollector) : Z := saturating_sub (maximum col) (vlen (findings col)).

Inductive FindingLimitExceeded := LimitExceeded.

(** [finish]. *)
Definition finish (col : FindingCollector) : Result FindingLimitExceeded (list EditorialFinding.t) :=
  if exceeded col then Err LimitExceeded else Ok (findings col).

(** [overlaps_rule] and [ranges_for]; a [u32] offset fits a [usize]. *)
Definition overlaps_rule (col : FindingCollector) (rule_id : text) (i j : Z) : bool :=
  existsb (fun f =>
    text_eqb (EditorialFinding.rule_id f) rule_id &&
    match EditorialFinding.span f with
    | Some span => (i <? span_end span) && (span_start span <? j)
    | None => false
    end) (findings col).
Definition ranges_for (col : FindingCollector) (rule_id : text) : list (Z * Z) :=
  omap (fun f => span ← EditorialFinding.span f; Some (span_start span, span_end span))
    (List.filter (fun f => text_eqb (EditorialFinding.rule_id f) rule_id) (findings col)).

(** ** Recording a finding ([rules.rs]) *)

(** [count_previous_occurrences]: the loop from [offset] on. *)
Fixpoint count_previous (fuel : nat) (s evidence : text) (match_start offset count : Z) : Total Z :=
  match fuel with
  | O => Ok count
  | S fuel' =>
      rest ← text_from s offset;
      match find_str evidence rest with
      | None => Ok count
      | Some pos =>
          let abs_pos := offset + pos in
          if match_start <=? abs_pos then Ok count
          else count_previous fuel' s evidence match_start (abs_pos + slen evidence)
                 (saturating_add u16_max count 1)
      end
  end.
Definition count_previous_occurrences (s evidence : text) (match_start : Z) : Total Z :=
  count_previous (S (length s)) s evidence match_start 0 0.

(** The finding [push_finding] records. *)
Definition spanned (col : FindingCollector) (s : text) (rule : RuleCatalog) (evidence : text)
    (match_start occurrence : Z) (message : text) : EditorialFinding.t :=
  let f := EditorialFinding.new (id_ rule) evidence occurrence message in
  EditorialFinding.mk (EditorialFinding.rule_id f) (EditorialFinding.evidence f)
    (EditorialFinding.occurrence f) (EditorialFinding.message f)
    (locate col s match_start (saturating_add usize_max match_start (slen evidence))).

(** [push_finding] and [add_finding]. *)
Definition push_finding (col : FindingCollector) (s : text) (rule : RuleCatalog) (evidence : text)
    (match_start occurrence : Z) (message : text) : FindingCollector :=
  push col (spanned col s rule evidence match_start occurrence message).
Definition add_finding (col : FindingCollector) (s : text) (rule : RuleCatalog) (evidence : text)
    (match_start : Z) (message : text) : Total FindingCollector :=
  occurrence ← count_previous_occurrences s evidence match_start;
  Ok (push_finding col s rule evidence match_start occurrence message).

Section Rules.
Context {UT : UnicodeTables}.

(** ** Loops over the text *)

(** The loop the scanning rules share: where [detect] finds a phrase and the
    collector accepts it, the phrase is recorded and the scan goes on after
    it; otherwise the scan moves by one character. *)
Fixpoint scan_loop (fuel : nat) (s : text) (detect : Z -> Total (option (Z * Z)))
    (accept : FindingCollector -> Z -> Z -> Total bool) (rule : RuleCatalog) (message : text)
    (index : Z) (col : FindingCollector) : Total FindingCollector :=
  match fuel with
  | O => Ok col
  | S fuel' =>
      if index <? slen s then
        found ← detect index;
        accepted ← match found with Some (i, j) => accept col i j | None => Ok false end;
        match found, accepted with
        | Some (i, j), true =>
            evidence ← text_range s i j;
            col ← add_finding col s rule evidence i message;
            scan_loop fuel' s detect accept rule message j col
        | _, _ =>
            step ← next_char_len s index;
            scan_loop fuel' s detect accept rule message (index + step) col
        end
      else Ok col
  end.

(** [accept]. *)
Definition accept (s : text) (quotes : list Range) (rule : RuleCatalog) (col : FindingCollector)
    (i j : Z) : Total bool :=
  bounded ← word_bounded s i j;
  if negb bounded then Ok false
  else
    quoted ← is_inside_quotes i j quotes;
    Ok (negb quoted && negb (overlaps_rule col (id_ rule) i j)).

(** A phrase detector from its end. *)
Definition phrase_at (s phrase : text) (index : Z) : Total (option (Z * Z)) :=
  e ←? match_folded s index phrase;
  Ok (Some (index, e)).

(** [emit_phrases]. *)
Definition emit_phrases (s : text) (quotes : list Range) (col : FindingCollector) (rule : RuleCatalog)
    (message : text) (phrases : list text) : Total FindingCollector :=
  try_fold (fun col phrase =>
    scan_loop (length s) s (phrase_at s phrase) (accept s quotes rule) rule message 0 col) col phrases.

(** [emit_windows]. *)
Definition emit_windows (s : text) (quotes : list Range) (col : FindingCollector) (rule : RuleCatalog)
    (message : text) (detect : text -> Z -> Total (option (Z * Z))) : Total FindingCollector :=
  scan_loop (length s) s (detect s) (accept s quotes rule) rule message 0 col.

(** The hits of [emit_density_windows]. *)
Fixpoint density_hits (fuel : nat) (s : text) (quotes : list Range) (col : FindingCollector)
    (rule : RuleCatalog) (detect : Z -> Total (option (Z * Z))) (index : Z) : Total (list (Z * Z)) :=
  match fuel with
  | O => Ok []
  | S fuel' =>
      if index <? slen s then
        found ← detect index;
        match found with
        | Some (i, j) =>
            accepted ← accept s quotes rule col i j;
            hits ← density_hits fuel' s quotes col rule detect j;
            Ok (if accepted : bool then (i, j) :: hits else hits)
        | None =>
            step ← next_char_len s index;
            density_hits fuel' s quotes col rule detect (index + step)
        end
      else Ok []
  end.

(** Its last loop, which stops once the collector is exceeded. *)
Fixpoint add_hits (s : text) (rule : RuleCatalog) (message : text) (col : FindingCollector)
    (hits : list (Z * Z)) : Total FindingCollector :=
  match hits with
  | [] => Ok col
  | (i, j) :: hits' =>
      evidence ← text_range s i j;
      col ← add_finding col s rule evidence i message;
      if exceeded col then Ok col else add_hits s rule message col hits'
  end.

(** [emit_density_windows]. *)
Definition emit_density_windows (s : text) (quotes : list Range) (col : FindingCollector)
    (rule : RuleCatalog) (message : text) (floor per_thousand : Z)
    (detect : text -> Z -> Total (option (Z * Z))) : Total FindingCollector :=
  hits ← density_hits (length s) s quotes col rule (detect s) 0;
  if negb (rate_met (vlen hits) (count_words s) floor per_thousand) then Ok col
  else add_hits s rule message col hits.

(** The exact phrase every family started from: its first occurrence. *)
Definition check_exact (s : text) (quotes : list Range) (col : FindingCollector) (rule : RuleCatalog)
    (pattern message : text) : Total FindingCollector :=
  match find_str pattern s with
  | None => Ok col
  | Some pos =>
      quoted ← is_inside_quotes pos (pos + slen pattern) quotes;
      if quoted : bool then Ok col else add_finding col s rule pattern pos message
  end.

(** ** Synthetic patterns ([slop_rules.rs] with the variants of [patterns.rs]) *)

Definition scene_variants s quotes col := emit_windows s quotes col PrefabricatedSceneSetting
  (lit "Prefabricated introductory scene-setting cliche") scene_at.
Definition check_prefabricated_scene_setting (s : text) (quotes : list Range) (col : FindingCollector) :=
  col ← check_exact s quotes col PrefabricatedSceneSetting
          (lit "In today's rapidly evolving digital landscape")
          (lit "Prefabricated introductory scene-setting cliche");
  scene_variants s quotes col.

Definition contrastive_variants s quotes col := emit_density_windows s quotes col ContrastiveReframe
  (lit "Artificial contrastive reframing") 1 2 contrastive_at.
Definition check_contrastive_reframe (s : text) (quotes : list Range) (col : FindingCollector) :=
  col ← check_exact s quotes col ContrastiveReframe
          (lit "not merely a formatting tool; it is a catalyst") (lit "Artificial contrastive reframing");
  contrastive_variants s quotes col.

Definition tricolon_variants s quotes col := emit_density_windows s quotes col StackedTricolon
  (lit "Stacked tricolons and parallel list accumulation") 2 2 tricolon_at.
Definition check_stacked_tricolon (s : text) (quotes : list Range) (col : FindingCollector) :=
  col ← check_exact s quotes col StackedTricolon
          (lit "fast, flexible, and future-ready. It informs, inspires, and empowers")
          (lit "Stacked tricolons and parallel list accumulation");
  tricolon_variants s quotes col.

Definition PUFFERY : list text :=
  [lit "truly groundbreaking"; lit "truly unparalleled"; lit "incredibly groundbreaking";
   lit "incredibly unparalleled"; lit "extremely groundbreaking"; lit "extremely unparalleled"].
Definition puffery_variants s quotes col := emit_phrases s quotes col PromotionalPuffery
  (lit "Promotional puffery and unsubstantiated superlatives") PUFFERY.
Definition check_promotional_puffery (s : text) (quotes : list Range) (col : FindingCollector) :=
  col ← check_exact s quotes col PromotionalPuffery
          (lit "groundbreaking, game-changing platform unlocks unparalleled productivity")
          (lit "Promotional puffery and unsubstantiated superlatives");
  puffery_variants s quotes col.

Definition ornamental_variants s quotes col := emit_phrases s quotes col OrnamentalAbstraction
  (lit "Ornamental metaphorical abstraction")
  [lit "nestled within"; lit "the fabric of"; lit "a vibrant tapestry"].
Definition check_ornamental_abstraction (s : text) (quotes : list Range) (col : FindingCollector) :=
  col ← check_exact s quotes col OrnamentalAbstraction
          (lit "delve into the rich tapestry of a multifaceted landscape")
          (lit "Ornamental metaphorical abstraction");
  ornamental_variants s quotes col.

Definition reader_variants s quotes col := emit_windows s quotes col ReaderSegmentation
  (lit "Formulaic reader segmentation cliche") reader_at.
Definition check_reader_segmentation (s : text) (quotes : list Range) (col : FindingCollector) :=
  col ← check_exact s quotes col ReaderSegmentation
          (lit "Whether you're a seasoned professional or just starting out")
          (lit "Formulaic reader segmentation cliche");
  reader_variants s quotes col.

Definition question_variants s quotes col := emit_windows s quotes col PerformativeQuestionAnswer
  (lit "Performative rhetorical question-and-answer pair") question_at.
Definition check_performative_question_answer (s : text) (quotes : list Range) (col : FindingCollector) :=
  col ← check_exact s quotes col PerformativeQuestionAnswer
          (lit "The result? A seamless, robust, and intuitive experience")
          (lit "Performative rhetorical question-and-answer pair");
  question_variants s quotes col.

Definition significance_variants s quotes col := emit_phrases s quotes col EmptySignificance
  (lit "Empty claim of historic significance")
  [lit "pivotal moment"; lit "significant milestone"; lit "marks a new era"; lit "historic turning point"].
Definition check_empty_significance (s : text) (quotes : list Range) (col : FindingCollector) :=
  col ← check_exact s quotes col EmptySignificance
          (lit "represents a pivotal step forward and marks a significant milestone")
          (lit "Empty claim of historic significance");
  significance_variants s quotes col.

(** The scan of one marker in the pile-up rules: [None] when the rule refuses
    because the matches so far already exceed what the collector can take. *)
Fixpoint pileup_marker (quotes : list Range) (col : FindingCollector) (marker : text) (occurrence : Z)
    (positions : list Z) (matches : list (Z * text * Z)) : Total (option (list (Z * text * Z))) :=
  match positions with
  | [] => Ok (Some matches)
  | abs_pos :: positions' =>
      quoted ← is_inside_quotes abs_pos (abs_pos + slen marker) quotes;
      if quoted : bool then pileup_marker quotes col marker (occurrence + 1) positions' matches
      else
        let matches := matches ++ [(abs_pos, marker, default u16_max (try_from u16_max occurrence))] in
        if (3 <=? vlen matches) && (remaining col <? vlen matches) then Ok None
        else pileup_marker quotes col marker (occurrence + 1) positions' matches
  end.
Fixpoint pileup_markers (s : text) (quotes : list Range) (col : FindingCollector) (markers : list text)
    (matches : list (Z * text * Z)) : Total (option (list (Z * text * Z))) :=
  match markers with
  | [] => Ok (Some matches)
  | marker :: markers' =>
      matches ←? pileup_marker quotes col marker 0 (match_indices s marker) matches;
      pileup_markers s quotes col markers' matches
  end.

(** The body [check_summary_pileup] and [check_transition_pileup] share. *)
Definition check_pileup (s : text) (quotes : list Range) (col : FindingCollector) (rule : RuleCatalog)
    (markers : list text) (message : text) : Total FindingCollector :=
  found ← pileup_markers s quotes col markers [];
  match found with
  | None => Ok (refuse col)
  | Some matches =>
      if 3 <=? vlen matches then
        let sorted := sort_by (fun a b => fst (fst a) <=? fst (fst b)) matches in
        Ok (foldl (fun col '(position, marker, occurrence) =>
              push_finding col s rule marker position occurrence message) col sorted)
      else Ok col
  end.

Definition check_summary_pileup (s : text) (quotes : list Range) (col : FindingCollector) :=
  check_pileup s quotes col SummaryPileup [lit "In summary"; lit "Ultimately"; lit "In conclusion"]
    (lit "Excessive density of summary markers").

Definition close_variants s quotes col := emit_phrases s quotes col GenericPositiveClose
  (lit "Ungrounded generic optimistic ending")
  [lit "the sky is the limit"; lit "the best is yet to come"; lit "possibilities are endless"].
Definition check_generic_positive_close (s : text) (quotes : list Range) (col : FindingCollector) :=
  col ← check_exact s quotes col GenericPositiveClose
          (lit "The possibilities are endless, and the future is bright")
          (lit "Ungrounded generic optimistic ending");
  close_variants s quotes col.

Definition check_transition_pileup (s : text) (quotes : list Range) (col : FindingCollector) :=
  check_pileup s quotes col TransitionPileup [lit "Moreover"; lit "Furthermore"; lit "Additionally"]
    (lit "Pile-up of sentence-initial transitional adverbs").

Definition collaboration_variants s quotes col := emit_phrases s quotes col PerformativeCollaboration
  (lit "Performative invitation to embark on a journey")
  [lit "join me on this journey"; lit "embark on this journey"].
Definition check_performative_collaboration (s : text) (quotes : list Range) (col : FindingCollector) :=
  col ← check_exact s quotes col PerformativeCollaboration
          (lit "Let's embark on this journey together and unlock the power")
          (lit "Performative invitation to embark on a journey");
  collaboration_variants s quotes col.

(** ** Residue ([residue.rs]) *)

Definition EXACT_SENTENCES : list text :=
  [lit "Certainly!"; lit "Let me know if you would like more detail."; lit "It is important to note that";
   lit "In today's rapidly evolving digital landscape";
   lit "groundbreaking, game-changing platform unlocks unparalleled productivity";
   lit "delve into the rich tapestry of a multifaceted landscape"].

Record FoldedPattern := {
  pattern : text;
  fp_rule : RuleCatalog;
  fp_message : text;
  at_start : bool;
  whole_word : bool
}.

(** [folded_patterns]. *)
Definition folded_patterns : list FoldedPattern :=
  let residue := lit "Conversational residue opening" in
  let closing := lit "Conversational residue closing" in
  let throat := lit "Non-substantive throat-clearing preamble" in
  let ornament := lit "Ornamental metaphorical abstraction" in
  let puffery := lit "Promotional puffery and unsubstantiated superlatives" in
  [ Build_FoldedPattern (lit "certainly") ConversationalResidue residue true true;
    Build_FoldedPattern (lit "sure") ConversationalResidue residue true true;
    Build_FoldedPattern (lit "great question") ConversationalResidue residue true true;
    Build_FoldedPattern (lit "i hope this helps") ConversationalResidue closing false false;
    Build_FoldedPattern (lit "let me know if") ConversationalResidue closing false false;
    Build_FoldedPattern (lit "here's a revised version") ConversationalResidue residue false false;
    Build_FoldedPattern (lit "here is a revised version") ConversationalResidue residue false false;
    Build_FoldedPattern (lit "as an ai language model") ConversationalResidue residue false false;
    Build_FoldedPattern (lit "it's important to note") ThroatClearing throat false false;
    Build_FoldedPattern (lit "it is important to note") ThroatClearing throat false false;
    Build_FoldedPattern (lit "delve") OrnamentalAbstraction ornament false true;
    Build_FoldedPattern (lit "rich tapestry") OrnamentalAbstraction ornament false false;
    Build_FoldedPattern (lit "game-changer") PromotionalPuffery puffery false true;
    Build_FoldedPattern (lit "game changer") PromotionalPuffery puffery false true ].

(** [accept_match]. *)
Definition accept_match (s : text) (quotes : list Range) (covered : list (Z * Z)) (i j : Z)
    (line_start whole : bool) : Total bool :=
  quoted ← is_inside_quotes i j quotes;
  if quoted || overlaps i j covered then Ok false
  else
    starts ← (if line_start then at_line_start s i else Ok true);
    if negb starts then Ok false
    else if whole then word_bounded s i j else Ok true.

(** [exact_covers]: the loop over one sentence, then over all. *)
Fixpoint exact_cover (fuel : nat) (s : text) (quotes : list Range) (sentence : text) (offset : Z)
  : Total (list (Z * Z)) :=
  match fuel with
  | O => Ok []
  | S fuel' =>
      rest ← text_from s offset;
      match find_str sentence rest with
      | None => Ok []
      | Some position =>
          let i := offset + position in
          let j := i + slen sentence in
          quoted ← is_inside_quotes i j quotes;
          covered ← exact_cover fuel' s quotes sentence j;
          Ok (if quoted : bool then covered else (i, j) :: covered)
      end
  end.
Definition exact_covers (s : text) (quotes : list Range) : Total (list (Z * Z)) :=
  try_fold (fun covered sentence =>
    more ← exact_cover (S (length s)) s quotes sentence 0;
    Ok (covered ++ more)) [] EXACT_SENTENCES.

(** [scan_pattern]. *)
Definition scan_pattern (s : text) (quotes : list Range) (covered : list (Z * Z)) (col : FindingCollector)
    (p : FoldedPattern) : Total FindingCollector :=
  scan_loop (length s) s (phrase_at s (pattern p))
    (fun _ i j => accept_match s quotes covered i j (at_start p) (whole_word p))
    (fp_rule p) (fp_message p) 0 col.

(** The phrase [scan_todays_world] looks for. *)
Definition todays_world_at (s : text) (index : Z) : Total (option (Z * Z)) :=
  phrase_end ←? match_folded s index (lit "in today's");
  world_end ←? world_within s phrase_end;
  Ok (Some (index, world_end)).

(** [scan_todays_world]. *)
Definition scan_todays_world (s : text) (quotes : list Range) (covered : list (Z * Z))
    (col : FindingCollector) : Total FindingCollector :=
  scan_loop (length s) s (todays_world_at s) (fun _ i j => accept_match s quotes covered i j false false)
    PrefabricatedSceneSetting (lit "Prefabricated introductory scene-setting cliche") 0 col.

Definition enabled (excluded : option RuleCatalog) (rule : RuleCatalog) : bool :=
  negb (bool_decide (excluded = Some rule)).

(** [check_folded_residue]. *)
Definition check_folded_residue (s : text) (quotes : list Range) (col : FindingCollector)
    (excluded : option RuleCatalog) : Total FindingCollector :=
  base ← exact_covers s quotes;
  col ← try_fold (fun col p =>
          if negb (enabled excluded (fp_rule p)) then Ok col
          else scan_pattern s quotes (base ++ ranges_for col (id_ (fp_rule p))) col p) col folded_patterns;
  if enabled excluded PrefabricatedSceneSetting
  then scan_todays_world s quotes (base ++ ranges_for col (id_ PrefabricatedSceneSetting)) col
  else Ok col.

(** ** Style ([style_rules.rs], [conclusion.rs], [density.rs]) *)

Definition check_conversational_residue (s : text) (quotes : list Range) (col : FindingCollector) :=
  col ← check_exact s quotes col ConversationalResidue (lit "Certainly!") (lit "Conversational residue opening");
  check_exact s quotes col ConversationalResidue (lit "Let me know if you would like more detail.")
    (lit "Conversational residue closing").

Definition throat_variants s quotes col := emit_phrases s quotes col ThroatClearing
  (lit "Non-substantive throat-clearing preamble")
  [lit "it should be noted that"; lit "it is worth noting that"; lit "it's worth noting that"].
Definition check_throat_clearing (s : text) (quotes : list Range) (col : FindingCollector) :=
  col ← check_exact s quotes col ThroatClearing (lit "It is important to note that")
          (lit "Non-substantive throat-clearing preamble");
  throat_variants s quotes col.

Definition canned_variants s quotes col := emit_phrases s quotes col CannedTransition
  (lit "Canned conversational transition") [lit "that being said"; lit "with that said"].
Definition check_canned_transition (s : text) (quotes : list Range) (col : FindingCollector) :=
  col ← check_exact s quotes col CannedTransition (lit "That said,") (lit "Canned conversational transition");
  canned_variants s quotes col.

(** The repeated conclusion at an index: the opener and the evidence end. *)
Definition repeated_conclusion_at (s : text) (words : list ConclusionWord) (index : Z)
  : Total (option (Z * Z)) :=
  found ←? conclusion_at s index;
  let '(opener_end, sentence_end) := found in
  evidence_end ←? Ok (repeated_tail words index opener_end sentence_end);
  Ok (Some (index, evidence_end)).

(** [repeated_conclusions]. *)
Definition repeated_conclusions (s : text) (quotes : list Range) (col : FindingCollector) : Total FindingCollector :=
  scan_loop (length s) s (repeated_conclusion_at s (conclusion_words s)) (accept s quotes RepeatedConclusion)
    RepeatedConclusion (lit "Verbatim repetition of an earlier statement as a conclusion") 0 col.
Definition check_repeated_conclusion (s : text) (quotes : list Range) (col : FindingCollector) :=
  repeated_conclusions s quotes col.

Definition attribution_variants s quotes col := emit_phrases s quotes col VagueAttribution
  (lit "Vague or unreferenced attribution formula")
  [lit "research shows"; lit "studies show"; lit "many believe"].
Definition check_vague_attribution (s : text) (quotes : list Range) (col : FindingCollector) :=
  col ← check_exact s quotes col VagueAttribution (lit "Experts agree")
          (lit "Vague or unreferenced attribution formula");
  attribution_variants s quotes col.

(** [is_definitional_context]. *)
Definition is_definitional_context (s : text) (i j : Z) : Total bool :=
  prefix ← text_to s i;
  suffix ← text_from s j;
  let before := trim_end prefix in
  let after := trim_start suffix in
  Ok ((ends_with before (lit "defines") || ends_with before (lit "define") || ends_with before (lit "defined"))
      && starts_with after (lit "as ")).

Definition qualifier_variants s quotes col := emit_phrases s quotes col RedundantQualifier
  (lit "Redundant modifying qualifier")
  [lit "close proximity"; lit "past history"; lit "advance planning"; lit "unexpected surprise";
   lit "added bonus"; lit "basic fundamentals"].
Definition check_redundant_qualifier (s : text) (quotes : list Range) (col : FindingCollector) :=
  col ← match find_str (lit "completely unanimous") s with
        | None => Ok col
        | Some pos =>
            let e := pos + slen (lit "completely unanimous") in
            quoted ← is_inside_quotes pos e quotes;
            if quoted : bool then Ok col
            else
              definitional ← is_definitional_context s pos e;
              if definitional : bool then Ok col
              else add_finding col s RedundantQualifier (lit "completely unanimous") pos
                     (lit "Redundant modifying qualifier")
        end;
  qualifier_variants s quotes col.

(** The loop of [repeated_findings]: the pending findings and their number. *)
Fixpoint repeated_loop (s : text) (quotes : list Range) (rule : RuleCatalog) (evidence : text) (minimum : Z)
    (message : text) (occurrence : Z) (positions : list Z) (pending : list EditorialFinding.t)
    (eligible : Z) (col : FindingCollector) : Total FindingCollector :=
  match positions with
  | [] => Ok col
  | i :: positions' =>
      quoted ← is_inside_quotes i (i + slen evidence) quotes;
      if quoted : bool
      then repeated_loop s quotes rule evidence minimum message (occurrence + 1) positions' pending eligible col
      else
        let eligible := eligible + 1 in
        let f := spanned col s rule evidence i (default u16_max (try_from u16_max occurrence)) message in
        if eligible <? minimum
        then repeated_loop s quotes rule evidence minimum message (occurrence + 1) positions' (pending ++ [f]) eligible col
        else
          let col := push (foldl push col pending) f in
          if exceeded col then Ok col
          else repeated_loop s quotes rule evidence minimum message (occurrence + 1) positions' [] eligible col
  end.
Definition repeated_findings (s : text) (quotes : list Range) (col : FindingCollector) (rule : RuleCatalog)
    (evidence : text) (minimum : Z) (message : text) : Total FindingCollector :=
  repeated_loop s quotes rule evidence minimum message 0 (match_indices s evidence) [] 0 col.
Definition check_excessive_exclamation (s : text) (quotes : list Range) (col : FindingCollector) :=
  repeated_findings s quotes col ExcessiveExclamation (lit "!!!") 1 (lit "Excessive exclamation punctuation").

(** [note_seen]. *)
Definition note_seen (seen : gmap text Z) (evidence : text) : gmap text Z * Z :=
  let occurrence := default 0 (seen !! evidence) in
  (<[evidence := saturating_add u16_max occurrence 1]> seen, occurrence).

(** The state of the short-document visitor of [emit_scanned]. *)
Record MarkState := {
  pending : list EditorialFinding.t;
  eligible_marks : Z;
  seen : gmap text Z;
  mark_findings : FindingCollector
}.

(** The short-document visitor. *)
Definition visit_short (s : text) (quotes : list Range) (rule : RuleCatalog) (message : text)
    (state : MarkState) (i j : Z) : Total (MarkState * bool) :=
  match slice s i j with
  | None => Ok (state, true)
  | Some evidence =>
      let '(seen', occurrence) := note_seen (seen state) evidence in
      let state := {| pending := pending state; eligible_marks := eligible_marks state; seen := seen';
                      mark_findings := mark_findings state |} in
      quoted ← is_inside_quotes i j quotes;
      if quoted : bool then Ok (state, true)
      else
        let eligible := eligible_marks state + 1 in
        let f := spanned (mark_findings state) s rule evidence i occurrence message in
        if eligible <? MARK_FLOOR then
          Ok ({| pending := pending state ++ [f]; eligible_marks := eligible; seen := seen';
                 mark_findings := mark_findings state |}, true)
        else
          let col := push (foldl push (mark_findings state) (pending state)) f in
          Ok ({| pending := []; eligible_marks := eligible; seen := seen'; mark_findings := col |},
              negb (exceeded col))
  end.

(** The counting visitor and the recording visitor of a long document. *)
Definition visit_count (quotes : list Range) (eligible i j : Z) : Total (Z * bool) :=
  quoted ← is_inside_quotes i j quotes;
  Ok (if quoted : bool then eligible else eligible + 1, true).
Definition visit_long (s : text) (quotes : list Range) (rule : RuleCatalog) (message : text)
    (state : gmap text Z * FindingCollector) (i j : Z) : Total (gmap text Z * FindingCollector * bool) :=
  let '(seen, col) := state in
  match slice s i j with
  | None => Ok (state, true)
  | Some evidence =>
      let '(seen, occurrence) := note_seen seen evidence in
      quoted ← is_inside_quotes i j quotes;
      if quoted : bool then Ok ((seen, col), true)
      else
        let col := push col (spanned col s rule evidence i occurrence message) in
        Ok ((seen, col), negb (exceeded col))
  end.

(** A scan of the marks of a text. *)
Definition Scan : Type := forall S : Type, text -> (S -> Z -> Z -> Total (S * bool)) -> S -> Total S.

(** [emit_scanned]. *)
Definition emit_scanned (s : text) (quotes : list Range) (col : FindingCollector) (rule : RuleCatalog)
    (message : text) (scan : Scan) : Total FindingCollector :=
  let words := count_words s in
  if words <? SHORT_DOCUMENT_WORDS then
    state ← scan MarkState s (visit_short s quotes rule message)
              {| pending := []; eligible_marks := 0; seen := ∅; mark_findings := col |};
    Ok (mark_findings state)
  else
    eligible ← scan Z s (visit_count quotes) 0;
    if negb (rate_met eligible words MARK_FLOOR MARK_PER_THOUSAND) then Ok col
    else
      '(_, col) ← scan (gmap text Z * FindingCollector)%type s (visit_long s quotes rule message) (∅, col);
      Ok col.
Definition dash_density (s : text) (quotes : list Range) (col : FindingCollector) :=
  emit_scanned s quotes col ExcessiveDashDensity (lit "Excessive dash density") (@scan_dashes).
Definition emoji_density (s : text) (quotes : list Range) (col : FindingCollector) :=
  emit_scanned s quotes col ExcessiveEmojiDensity (lit "Excessive emoji density") (@scan_emoji).
Definition check_excessive_dash_density (s : text) (quotes : list Range) (col : FindingCollector) :=
  dash_density s quotes col.
Definition check_excessive_emoji_density (s : text) (quotes : list Range) (col : FindingCollector) :=
  emoji_density s quotes col.

(** ** Running the catalog ([rules.rs], [mod.rs]) *)

(** [if enabled(excluded, rule) { check(...) }]. *)
Definition when_enabled (excluded : option RuleCatalog) (rule : RuleCatalog)
    (check : FindingCollector -> Total FindingCollector) (col : FindingCollector) : Total FindingCollector :=
  if enabled excluded rule then check col else Ok col.

(** [collect_slop]. *)
Definition collect_slop (s : text) (quotes : list Range) (col : FindingCollector)
    (excluded : option RuleCatalog) : Total FindingCollector :=
  col ← when_enabled excluded PrefabricatedSceneSetting (check_prefabricated_scene_setting s quotes) col;
  col ← when_enabled excluded ContrastiveReframe (check_contrastive_reframe s quotes) col;
  col ← when_enabled excluded StackedTricolon (check_stacked_tricolon s quotes) col;
  col ← when_enabled excluded PromotionalPuffery (check_promotional_puffery s quotes) col;
  col ← when_enabled excluded OrnamentalAbstraction (check_ornamental_abstraction s quotes) col;
  col ← when_enabled excluded ReaderSegmentation (check_reader_segmentation s quotes) col;
  col ← when_enabled excluded PerformativeQuestionAnswer (check_performative_question_answer s quotes) col;
  col ← when_enabled excluded EmptySignificance (check_empty_significance s quotes) col;
  col ← when_enabled excluded SummaryPileup (check_summary_pileup s quotes) col;
  col ← when_enabled excluded GenericPositiveClose (check_generic_positive_close s quotes) col;
  col ← when_enabled excluded TransitionPileup (check_transition_pileup s quotes) col;
  when_enabled excluded PerformativeCollaboration (check_performative_collaboration s quotes) col.

(** [collect_style]. *)
Definition collect_style (s : text) (quotes : list Range) (col : FindingCollector)
    (excluded : option RuleCatalog) : Total FindingCollector :=
  col ← when_enabled excluded ConversationalResidue (check_conversational_residue s quotes) col;
  col ← when_enabled excluded ThroatClearing (check_throat_clearing s quotes) col;
  col ← check_folded_residue s quotes col excluded;
  col ← when_enabled excluded CannedTransition (check_canned_transition s quotes) col;
  col ← when_enabled excluded RepeatedConclusion (check_repeated_conclusion s quotes) col;
  col ← when_enabled excluded VagueAttribution (check_vague_attribution s quotes) col;
  col ← when_enabled excluded RedundantQualifier (check_redundant_qualifier s quotes) col;
  col ← when_enabled excluded ExcessiveExclamation (check_excessive_exclamation s quotes) col;
  col ← when_enabled excluded ExcessiveDashDensity (check_excessive_dash_density s quotes) col;
  when_enabled excluded ExcessiveEmojiDensity (check_excessive_emoji_density s quotes) col.

(** [collect_rules]. *)
Definition collect_rules (s : text) (maximum : Z) (excluded : option RuleCatalog) : Total FindingCollector :=
  let quotes := quoted_spans s in
  col ← collect_slop s quotes (new_collector s maximum) excluded;
  collect_style s quotes col excluded.

(** [apply_all_rules] ([lint_text]), [apply_rules_except]
    ([lint_text_excluding]) and [apply_bounded_rules] ([lint_text_bounded]). *)
Definition lint_text (s : text) : Total (list EditorialFinding.t) :=
  col ← collect_rules s usize_max None;
  Ok (findings col).
Definition lint_text_excluding (s : text) (excluded : RuleCatalog) : Total (list EditorialFinding.t) :=
  col ← collect_rules s usize_max (Some excluded);
  Ok (findings col).
Definition lint_text_bounded (s : text) (maximum : Z)
  : Total (Result FindingLimitExceeded (list EditorialFinding.t)) :=
  col ← collect_rules s maximum None;
  Ok (finish col).

(** [compare_editorial_findings]. *)
Definition compare_editorial_findings (source candidate : text) : Total EditorialComparison.t :=
  source_findings ← lint_text source;
  candidate_findings ← lint_text candidate;
  Ok (EditorialComparison.compute source_findings candidate_findings).

End Rules.
