(* ===== verification/LintProps.v ===== *)
(** * What the editorial lint guarantees.

    Every rule is a command on the collector.  A command has an ideal: the
    findings it would add to a collector without a ceiling, as a function of
    the findings its own rule made before.  The bounded collector refines
    the ideal, and from the ideals of the catalog follow the theorems:
    nothing panics, every finding is located in the text and outside
    quotations, a ceiling either changes nothing or is refused, and leaving
    a rule out removes exactly its findings. *)

From S2P Require Import Prelude Text Evidence LintText Lint.

(** ** Lines and columns *)

Lemma newline_starts_app off a b :
  newline_starts off (a ++ b) = newline_starts off a ++ newline_starts (off + vlen a) b.
Proof.
  revert off; induction a as [|x a IH]; intros off; cbn; [f_equal; unfold vlen; cbn; lia |].
  rewrite vlen_cons, IH; replace (off + 1 + vlen a) with (off + (1 + vlen a)) by lia; by destruct (x =? 10).
Qed.

Lemma newline_starts_length off bs : vlen (newline_starts off bs) = vlen (List.filter (Z.eqb 10) bs).
Proof.
  revert off; induction bs as [|b bs IH]; intros off; cbn [newline_starts List.filter]; [done |].
  rewrite (Z.eqb_sym 10 b); destruct (b =? 10); rewrite ?vlen_cons, IH; done.
Qed.

Lemma newline_starts_bounds off bs x :
  x ∈ newline_starts off bs -> 0 <= off -> off + vlen bs <= usize_max -> off < x <= off + vlen bs.
Proof.
  revert off; induction bs as [|b bs IH]; intros off; cbn [newline_starts]; [by rewrite elem_of_nil |].
  rewrite vlen_cons; pose proof (vlen_nonneg bs); destruct (b =? 10); rewrite ?elem_of_cons.
  - intros [-> | Hx] H0 Hm; [unfold saturating_add; lia |]; apply IH in Hx; lia.
  - intros Hx H0 Hm; apply IH in Hx; lia.
Qed.

Lemma partition_point_app {A} (test : A -> bool) l k :
  (forall x, x ∈ l -> test x = true) -> (forall x, x ∈ k -> test x = false) -> partition_point test (l ++ k) = vlen l.
Proof.
  induction l as [|x l IH]; intros Hl Hk; cbn.
  - destruct k as [|y k]; [done |]; cbn; rewrite Hk by left; done.
  - rewrite Hl by left; rewrite IH, vlen_cons; [done | intros y Hy; apply Hl; by right | done].
Qed.

Lemma no_newline_byte c : c <> 10 -> List.filter (Z.eqb 10) (encode_char c) = [].
Proof.
  intros Hc; destruct (Z.ltb_spec c 128) as [H|H].
  - unfold encode_char; rewrite (proj2 (Z.ltb_lt c 128)) by lia; cbn [List.filter].
    by rewrite (proj2 (Z.eqb_neq 10 c)) by lia.
  - apply encode_char_high in H; induction H as [|b bs Hb _ IH]; cbn [List.filter]; [done |].
    by rewrite (proj2 (Z.eqb_neq 10 b)) by lia.
Qed.

Lemma newlines_zero s : 10 ∉ s -> newlines s = 0.
Proof.
  induction s as [|c s IH]; [done |]; rewrite not_elem_of_cons; intros [Hc Hs].
  change (c :: s) with ([c] ++ s); rewrite newlines_app, IH by done; unfold newlines, as_bytes; cbn [map concat].
  by rewrite app_nil_r, no_newline_byte by done.
Qed.

(** A prefix splits after its last newline. *)
Lemma last_line p : exists a b, p = a ++ b /\ 10 ∉ b /\ slen a = line_start p /\
  (a = [] \/ exists a', a = a' ++ [10]).
Proof.
  unfold line_start, rfind_char; destruct (rfind_char_from 0 10 p) as [i|] eqn:E; cbn.
  - apply rfind_char_boundary in E as (a & b & -> & Hb & ->); exists (a ++ [10]), b.
    rewrite <- app_assoc, slen_app; split_and!; [done | done | cbn; lia | eauto].
  - exists [], p; split_and!; [done | by apply rfind_char_from_None in E | done | auto].
Qed.

Lemma newline_starts_none off b : 10 ∉ b -> newline_starts off (as_bytes b) = [].
Proof.
  intros Hb; apply newlines_zero in Hb; unfold newlines in Hb; rewrite <- (newline_starts_length off) in Hb.
  destruct (newline_starts off (as_bytes b)); [done |]; rewrite vlen_cons in Hb; pose proof (vlen_nonneg l); lia.
Qed.

(** The entry of the line a prefix ends in. *)
Lemma line_index_last p :
  slen p <= usize_max -> (0 :: newline_starts 0 (as_bytes p)) !! Z.to_nat (newlines p) = Some (line_start p).
Proof.
  intros Hm; destruct (last_line p) as (a & b & -> & Hb & <- & Ha).
  rewrite newlines_app, (newlines_zero b Hb), Z.add_0_r, as_bytes_app, newline_starts_app.
  rewrite (newline_starts_none _ b Hb), app_nil_r.
  destruct Ha as [-> | [a' ->]]; [done |].
  rewrite slen_app in Hm; pose proof (slen_nonneg b).
  rewrite newlines_app, as_bytes_app, newline_starts_app, as_bytes_length.
  assert (Hn : newlines a' = vlen (newline_starts 0 (as_bytes a'))) by by rewrite newline_starts_length.
  change (newlines [10]) with 1; rewrite Hn, app_comm_cons, lookup_app_r by (unfold vlen; cbn; lia).
  replace (_ - _)%nat with 0%nat by (unfold vlen; cbn; lia); cbn -[saturating_add].
  rewrite slen_app in *; cbn in *; unfold saturating_add; f_equal; lia.
Qed.

(** The line index answers as [TextPoint::from_byte_index] does. *)
Lemma line_point_spec p r :
  slen (p ++ r) < u32_max ->
  line_point (line_index (p ++ r)) (slen p) = Some (TextPoint.mk (1 + newlines p) (1 + (slen p - line_start p))).
Proof.
  intros Hm; pose proof (slen_nonneg p); pose proof (slen_nonneg r); rewrite slen_app in Hm.
  assert (Hu : u32_max < usize_max) by done; pose proof (line_start_bounds p) as Hb.
  assert (Hpos : partition_point (fun start => start <=? slen p) (line_index (p ++ r)) = 1 + newlines p).
  { unfold line_index, newlines; rewrite as_bytes_app, newline_starts_app, as_bytes_length, app_comm_cons.
    rewrite partition_point_app, vlen_cons, newline_starts_length; [done | |].
    - intros x Hx; rewrite elem_of_cons in Hx; apply Z.leb_le; destruct Hx as [-> | Hx]; [lia |].
      apply newline_starts_bounds in Hx; rewrite ?as_bytes_length in *; lia.
    - intros x Hx; apply Z.leb_gt; apply newline_starts_bounds in Hx; rewrite ?as_bytes_length in *; lia. }
  assert (Hn : 0 <= newlines p <= slen p).
  { unfold newlines; split; [apply vlen_nonneg |]; rewrite <- as_bytes_length; unfold vlen.
    pose proof (filter_length_le (Z.eqb 10) (as_bytes p)); lia. }
  unfold line_point; rewrite Hpos.
  rewrite (proj2 (checked_sub_Some (1 + newlines p) 1 (newlines p))) by lia; cbn [mbind option_bind].
  assert (line_index (p ++ r) !! Z.to_nat (newlines p) = Some (line_start p)) as ->.
  { unfold line_index; rewrite as_bytes_app, newline_starts_app, app_comm_cons, lookup_app_l, line_index_last; [done | lia |].
    cbn [length]; pose proof (newline_starts_length 0 (as_bytes p)); unfold newlines, vlen in *; lia. }
  cbn [mbind option_bind]; rewrite (proj2 (checked_sub_Some (slen p) (line_start p) (slen p - line_start p))) by lia.
  cbn [mbind option_bind]; rewrite (proj2 (try_from_Some u32_max (newlines p) (newlines p))) by lia.
  cbn [mbind option_bind]; rewrite (proj2 (checked_add_Some u32_max (newlines p) 1 (1 + newlines p))) by lia.
  cbn [mbind option_bind]; rewrite (proj2 (try_from_Some u32_max (slen p - line_start p) _)) by (split; [done | lia]).
  cbn [mbind option_bind]; rewrite (proj2 (checked_add_Some u32_max (slen p - line_start p) 1 (1 + (slen p - line_start p)))) by lia.
  done.
Qed.

(** ** Findings in place *)

(** No promise about the findings of a command. *)
Abbreviation any := (fun _ _ => True).

Section Commands.
Context {UT : UnicodeTables} (s : text).

(** The finding a rule records for a piece of the text. *)
Definition finding_of (rule : RuleCatalog) (evidence : text) (i occurrence : Z) (message : text) : EditorialFinding.t :=
  spanned (new_collector s 0) s rule evidence i occurrence message.

Lemma spanned_lines col rule evidence i occurrence message :
  lines col = line_index s -> spanned col s rule evidence i occurrence message = finding_of rule evidence i occurrence message.
Proof. intros Hl; unfold finding_of, spanned, locate; by rewrite Hl. Qed.

(** What holds of every finding of a rule: it is the rule's, its evidence is
    a nonempty piece of the text outside quotations, and its span locates
    that piece. *)
Record finding_ok (rule : RuleCatalog) (f : EditorialFinding.t) : Prop := {
  fo_rule : EditorialFinding.rule_id f = id_ rule;
  fo_place : exists p q, s = p ++ EditorialFinding.evidence f ++ q /\
    EditorialFinding.evidence f <> [] /\
    is_inside_quotes (slen p) (slen p + slen (EditorialFinding.evidence f)) (quoted_spans s) = Ok false /\
    EditorialFinding.span f = locate (new_collector s 0) s (slen p)
      (saturating_add usize_max (slen p) (slen (EditorialFinding.evidence f)));
  fo_occurrence : 0 <= EditorialFinding.occurrence f <= u16_max
}.

Lemma finding_of_ok rule p m q occurrence message :
  s = p ++ m ++ q -> m <> [] -> is_inside_quotes (slen p) (slen p + slen m) (quoted_spans s) = Ok false ->
  0 <= occurrence <= u16_max -> finding_ok rule (finding_of rule m (slen p) occurrence message).
Proof. intros Hs Hm Hq Ho; split; [done | | done]; by exists p, q. Qed.

(** ** Commands and their ideals *)

Definition Command : Type := FindingCollector -> Total FindingCollector.

(** The findings of one rule. *)
Definition own (rule : RuleCatalog) (l : list EditorialFinding.t) : list EditorialFinding.t :=
  List.filter (fun f => text_eqb (EditorialFinding.rule_id f) (id_ rule)) l.

(** [c] adds exactly the findings [new] when they fit, and is exceeded when
    they do not; once exceeded it stays exceeded. *)
Definition adds (col col' : FindingCollector) (new : list EditorialFinding.t) : Prop :=
  lines col' = lines col /\ maximum col' = maximum col /\
  if exceeded col then exceeded col' = true
  else if vlen (findings col) + vlen new <=? maximum col
  then findings col' = findings col ++ new /\ exceeded col' = false
  else exceeded col' = true.

Definition wf (col : FindingCollector) : Prop :=
  lines col = line_index s /\ (exceeded col = false -> vlen (findings col) <= maximum col).

Definition implements (rule : RuleCatalog) (c : Command) (ideal : list EditorialFinding.t -> list EditorialFinding.t) : Prop :=
  forall col, wf col -> exists col', c col = Ok col' /\ adds col col' (ideal (own rule (findings col))).

(** A command with a well-formed ideal of at most [bound] findings; [Q]
    relates the rule's earlier findings to the new ones. *)
Definition behaves (rule : RuleCatalog) (bound : Z) (Q : list EditorialFinding.t -> list EditorialFinding.t -> Prop)
    (c : Command) : Prop :=
  exists ideal, implements rule c ideal /\
    forall before, Forall (finding_ok rule) (ideal before) /\ vlen (ideal before) <= bound /\ Q before (ideal before).

Lemma adds_wf col col' new : wf col -> adds col col' new -> wf col'.
Proof.
  intros [Hl Hm] (Hl' & Hx & H); split; [congruence |]; intros He; rewrite Hx.
  destruct (exceeded col); [congruence |].
  destruct (Z.leb_spec (vlen (findings col) + vlen new) (maximum col)); [| congruence].
  destruct H as [-> _]; rewrite vlen_app; lia.
Qed.

Lemma adds_nil col : wf col -> adds col col [].
Proof.
  intros [_ Hm]; split_and!; [done | done |]; destruct (exceeded col); [done |].
  change (vlen (@nil EditorialFinding.t)) with 0; rewrite Z.add_0_r, (proj2 (Z.leb_le _ _)) by auto.
  by rewrite app_nil_r.
Qed.

Lemma adds_trans a b c l k : adds a b l -> adds b c k -> adds a c (l ++ k).
Proof.
  intros (L1 & M1 & H1) (L2 & M2 & H2); split_and!; [congruence | congruence |].
  rewrite vlen_app; pose proof (vlen_nonneg k).
  destruct (exceeded a); [by rewrite H1 in H2 |].
  destruct (Z.leb_spec (vlen (findings a) + vlen l) (maximum a)).
  - destruct H1 as [F1 E1]; rewrite E1, F1, M1, vlen_app in H2; rewrite Z.add_assoc, app_assoc; done.
  - rewrite H1 in H2; by rewrite (proj2 (Z.leb_gt _ _)) by lia.
Qed.

Lemma adds_push col f : wf col -> adds col (push col f) [f].
Proof.
  intros [Hl Hm]; unfold push; change (vlen [f]) with 1.
  destruct (Z.leb_spec (maximum col) (vlen (findings col))); split_and!; try done; cbn; destruct (exceeded col); try done.
  - by rewrite (proj2 (Z.leb_gt _ _)) by (change (vlen [f]) with 1; lia).
  - by rewrite (proj2 (Z.leb_le _ _)) by (change (vlen [f]) with 1; lia).
Qed.

Lemma adds_push_all col fs : wf col -> adds col (foldl push col fs) fs.
Proof.
  revert col; induction fs as [|f fs IH]; intros col Hw; [by apply adds_nil |].
  change (f :: fs) with ([f] ++ fs); pose proof (adds_push col f Hw) as H; cbn [foldl app].
  eapply (adds_trans _ _ _ [f]); [exact H | apply IH; by eapply adds_wf].
Qed.

(** Commands that add to an exceeded collector leave it exceeded. *)
Lemma adds_exceeded col col' new : adds col col' new -> exceeded col = true -> exceeded col' = true.
Proof. intros (_ & _ & H) He; by rewrite He in H. Qed.

Lemma own_app rule l k : own rule (l ++ k) = own rule l ++ own rule k.
Proof. apply List.filter_app. Qed.

Lemma own_all rule l : Forall (finding_ok rule) l -> own rule l = l.
Proof.
  unfold own; induction 1 as [|f l Hf _ IH]; cbn [List.filter]; [done |].
  unfold text_eqb at 1; by rewrite (fo_rule _ _ Hf), bool_decide_eq_true_2, IH by done.
Qed.

Lemma id_inj r r' : id_ r = id_ r' -> r = r'.
Proof. destruct r, r'; intros H; try reflexivity; vm_compute in H; discriminate H. Qed.

Lemma own_none rule rule' l : rule <> rule' -> Forall (finding_ok rule') l -> own rule l = [].
Proof.
  intros Hne; unfold own; induction 1 as [|f l Hf _ IH]; cbn [List.filter]; [done |].
  unfold text_eqb at 1; rewrite (fo_rule _ _ Hf), bool_decide_eq_false_2; [done |].
  intros H; apply id_inj in H; congruence.
Qed.

(** The rules of the calculus: nothing, one after the other, a fixed list. *)
Lemma implements_id rule : implements rule (fun col => Ok col) (fun _ => []).
Proof. intros col Hw; exists col; split; [done | by apply adds_nil]. Qed.

Lemma implements_seq rule c1 c2 i1 i2 :
  implements rule c1 i1 -> implements rule c2 i2 -> (forall b, Forall (finding_ok rule) (i1 b)) ->
  implements rule (fun col => col ← c1 col; c2 col) (fun b => i1 b ++ i2 (b ++ i1 b)).
Proof.
  intros H1 H2 Hok col Hw; destruct (H1 col Hw) as (col1 & -> & A1); cbn [mbind result_bind].
  destruct (H2 col1 (adds_wf _ _ _ Hw A1)) as (col2 & -> & A2); exists col2; split; [done |].
  set (n1 := i1 (own rule (findings col))) in *.
  destruct A1 as (L1 & M1 & A1), A2 as (L2 & M2 & A2); split_and!; [congruence | congruence |].
  rewrite vlen_app; pose proof (vlen_nonneg (i2 (own rule (findings col) ++ n1))).
  destruct (exceeded col); [by rewrite A1 in A2 |].
  destruct (Z.leb_spec (vlen (findings col) + vlen n1) (maximum col)).
  - destruct A1 as [F1 E1]; rewrite E1, F1, M1, own_app, (own_all rule n1), vlen_app in A2 by apply Hok.
    by rewrite Z.add_assoc, app_assoc.
  - rewrite A1 in A2; by rewrite (proj2 (Z.leb_gt _ _)) by lia.
Qed.

Lemma behaves_id rule : behaves rule 0 any (fun col => Ok col).
Proof. exists (fun _ => []); split; [apply implements_id |]; intros _; split_and!; [apply Forall_nil_2 | done | done]. Qed.

Lemma behaves_weaken rule b b' Q Q' c :
  behaves rule b Q c -> b <= b' -> (forall x y, Q x y -> Q' x y) -> behaves rule b' Q' c.
Proof.
  intros (i & Hi & Hp) Hb HQ; exists i; split; [done |]; intros x; destruct (Hp x) as (? & ? & ?); split_and!; [done | lia | auto].
Qed.

Lemma behaves_seq rule b1 b2 Q1 Q2 c1 c2 :
  behaves rule b1 Q1 c1 -> behaves rule b2 Q2 c2 ->
  behaves rule (b1 + b2) (fun b n => exists n1 n2, n = n1 ++ n2 /\ Q1 b n1 /\ Q2 (b ++ n1) n2)
    (fun col => col ← c1 col; c2 col).
Proof.
  intros (i1 & H1 & P1) (i2 & H2 & P2); exists (fun b => i1 b ++ i2 (b ++ i1 b)); split.
  { apply implements_seq; [done | done |]; intros b; apply P1. }
  intros b; destruct (P1 b) as (F1 & V1 & R1), (P2 (b ++ i1 b)) as (F2 & V2 & R2).
  rewrite vlen_app; split_and!; [by apply Forall_app | lia | eauto 6].
Qed.

(** ** Recording at a place *)

Lemma count_previous_safe n p r evidence match_start count :
  evidence <> [] -> s = p ++ r -> 0 <= count <= u16_max ->
  safe (fun k => 0 <= k <= u16_max) (count_previous n s evidence match_start (slen p) count).
Proof.
  intros Hev; revert p r count; induction n as [|n IH]; intros p r count Hs Hc; cbn [count_previous]; [done |].
  rewrite Hs at 1; rewrite text_from_at; cbn [mbind result_bind].
  destruct (find_str evidence r) as [pos|] eqn:E; [| done].
  apply find_str_spec in E as (a & b & -> & <-); destruct (match_start <=? slen p + slen a); [done |].
  replace (slen p + slen a + slen evidence) with (slen (p ++ a ++ evidence)) by (rewrite !slen_app; lia).
  apply (IH (p ++ a ++ evidence) b); [by rewrite Hs, <- !app_assoc | unfold saturating_add; lia].
Qed.

(** Adding a finding for a piece of the text pushes one finding, the same for
    every collector. *)
Lemma add_finding_push rule p m q message :
  s = p ++ m ++ q -> m <> [] -> exists occurrence, 0 <= occurrence <= u16_max /\
    forall col, lines col = line_index s ->
      add_finding col s rule m (slen p) message = Ok (push col (finding_of rule m (slen p) occurrence message)).
Proof.
  intros Hs Hm; destruct (proj1 (safe_total _ _) (count_previous_safe (S (length s)) [] s m (slen p) 0 Hm eq_refl
    ltac:(done))) as (k & Hk & Hb); exists k; split; [done |]; intros col Hl.
  unfold add_finding, count_previous_occurrences; cbn [slen] in Hk; rewrite Hk; cbn [mbind result_bind].
  unfold push_finding; by rewrite spanned_lines.
Qed.

(** A command that adds a fixed list of findings. *)
Lemma behaves_const rule c new :
  Forall (finding_ok rule) new -> (forall col, wf col -> exists col', c col = Ok col' /\ adds col col' new) ->
  behaves rule (vlen new) any c.
Proof. intros Hf Hc; exists (fun _ => new); split; [intros col Hw; by apply Hc | intros _; split_and!; done]. Qed.

Lemma find_exact pattern_ pos :
  find_str pattern_ s = Some pos -> exists p q, s = p ++ pattern_ ++ q /\ pos = slen p.
Proof. intros H; apply find_str_spec in H as (p & q & ? & <-); eauto. Qed.

Lemma check_exact_behaves rule pattern_ message :
  pattern_ <> [] -> behaves rule 1 any (fun col => check_exact s (quoted_spans s) col rule pattern_ message).
Proof.
  intros Hp; unfold check_exact; destruct (find_str pattern_ s) as [pos|] eqn:E.
  2: { eapply behaves_weaken; [apply behaves_id | lia | done]. }
  apply find_exact in E as (p & q & Hs & ->).
  destruct (is_inside_quotes_total (slen p) (slen p + slen pattern_) (quoted_spans s)) as [[|] Hq];
    rewrite Hq; cbn [mbind result_bind].
  { eapply behaves_weaken; [apply behaves_id | lia | done]. }
  destruct (add_finding_push rule p pattern_ q message Hs Hp) as (k & Hk & Hadd).
  apply (behaves_const rule _ [finding_of rule pattern_ (slen p) k message]).
  - apply Forall_cons; split; [| apply Forall_nil_2]; by apply (finding_of_ok rule p pattern_ q).
  - intros col Hw; rewrite Hadd by apply Hw; eexists; split; [done | by apply adds_push].
Qed.

(** ** The scanning loop *)

(** The acceptance test is a function of the place and of the rule's own
    findings, and accepts nothing inside quotations. *)
Definition decides (rule : RuleCatalog) (accept : FindingCollector -> Z -> Z -> Total bool)
    (g : Z -> Z -> list EditorialFinding.t -> bool) : Prop :=
  forall p m q, s = p ++ m ++ q -> m <> [] ->
    (forall col, accept col (slen p) (slen p + slen m) = Ok (g (slen p) (slen p + slen m) (own rule (findings col)))) /\
    (forall before, g (slen p) (slen p + slen m) before = true ->
       is_inside_quotes (slen p) (slen p + slen m) (quoted_spans s) = Ok false).

(** A finding for a piece that meets the range [i, j). *)
Definition touches (f : EditorialFinding.t) (i j : Z) : Prop :=
  exists p m q, s = p ++ m ++ q /\ m <> [] /\ slen p < j /\ i < slen p + slen m /\
    EditorialFinding.span f = locate (new_collector s 0) s (slen p) (saturating_add usize_max (slen p) (slen m)).

(** Nothing that [detect] finds from [i0] on is passed over: a new finding
    meets it, or the test refused it at some point of the scan. *)
Definition scanned (i0 : Z) (detect : Z -> Total (option (Z * Z))) (g : Z -> Z -> list EditorialFinding.t -> bool)
    (before new : list EditorialFinding.t) : Prop :=
  forall p m q, s = p ++ m ++ q -> m <> [] -> i0 <= slen p ->
    detect (slen p) = Ok (Some (slen p, slen p + slen m)) ->
    (exists f, f ∈ new /\ touches f (slen p) (slen p + slen m)) \/
    (exists new1, new1 `prefix_of` new /\ g (slen p) (slen p + slen m) (before ++ new1) = false).

Lemma scanned_cons i0 i j detect g before f new :
  scanned j detect g (before ++ [f]) new ->
  (forall p m q, s = p ++ m ++ q -> m <> [] -> i0 <= slen p < j -> touches f (slen p) (slen p + slen m)) ->
  i0 <= i -> scanned i0 detect g before (f :: new).
Proof.
  intros Hn Hf Hi p m q Hs Hm H0 Hd; destruct (Z.lt_ge_cases (slen p) j) as [Hlt|Hge].
  { left; exists f; split; [left | by eapply Hf]. }
  destruct (Hn p m q Hs Hm Hge Hd) as [(f' & Hin & Ht) | (n1 & Hp & Hg)].
  - left; exists f'; split; [by right | done].
  - right; exists (f :: n1); split; [by apply prefix_cons | by rewrite cons_middle, app_assoc].
Qed.

Lemma scanned_end p detect g before : s = p -> scanned (slen p) detect g before [].
Proof.
  intros Hs p' m q Hs' Hm Hi _; exfalso; apply (f_equal slen) in Hs'; rewrite Hs, !slen_app in Hs'.
  pose proof (slen_pos m Hm); pose proof (slen_nonneg q); lia.
Qed.

(** A boundary after [p] in [p ++ c :: r] is at least one character later. *)
Lemma next_boundary p c r p' m q :
  p ++ c :: r = p' ++ m ++ q -> slen p <= slen p' -> slen p' <> slen p -> slen (p ++ [c]) <= slen p'.
Proof.
  intros H Hle Hne; destruct (app_slen_le _ _ _ _ H Hle) as (k & -> & E).
  destruct k as [|d k]; [rewrite app_nil_r in Hne; done |]; injection E as -> _.
  rewrite !slen_app; cbn; pose proof (slen_nonneg k); lia.
Qed.

Lemma scanned_step p c r detect g before new :
  s = p ++ c :: r -> scanned (slen (p ++ [c])) detect g before new ->
  (forall m q, c :: r = m ++ q -> m <> [] -> detect (slen p) = Ok (Some (slen p, slen p + slen m)) ->
     g (slen p) (slen p + slen m) before = false) ->
  scanned (slen p) detect g before new.
Proof.
  intros Hs Hn Hg p' m q Hs' Hm Hi Hd; destruct (decide (slen p' = slen p)) as [He|Hne].
  - right; exists []; split; [by exists new |]; rewrite app_nil_r, He.
    assert (p' = p /\ m ++ q = c :: r) as [-> E] by (apply app_slen_inj; congruence).
    by apply (Hg m q).
  - apply (Hn p' m q); try done; eapply next_boundary; [by rewrite <- Hs, Hs' | done | done].
Qed.

Lemma scan_loop_behaves {X : Type} n p r rule message detect
    (accept : X -> FindingCollector -> Z -> Z -> Total bool) (g : X -> Z -> Z -> list EditorialFinding.t -> bool) :
  s = p ++ r -> (length r <= n)%nat -> detects s detect -> (forall x, decides rule (accept x) (g x)) ->
  exists ideal : X -> list EditorialFinding.t -> list EditorialFinding.t, forall x,
    implements rule (scan_loop n s detect (accept x) rule message (slen p)) (ideal x) /\
    forall before, Forall (finding_ok rule) (ideal x before) /\ vlen (ideal x before) <= vlen r /\
      scanned (slen p) detect (g x) before (ideal x before).
Proof.
  intros Hs Hn Hdet Hdec; revert p r Hs Hn; induction n as [|n IH]; intros p r Hs Hn.
  { destruct r; [| cbn in Hn; lia]; rewrite app_nil_r in Hs; exists (fun _ _ => []); intros x; split.
    - apply implements_id.
    - intros b; split_and!; [apply Forall_nil_2 | done | by apply scanned_end]. }
  destruct r as [|c r].
  { rewrite app_nil_r in Hs; exists (fun _ _ => []); intros x; split.
    - intros col Hw; cbn [scan_loop]; rewrite Hs, Z.ltb_irrefl; by apply implements_id.
    - intros b; split_and!; [apply Forall_nil_2 | done | by apply scanned_end]. }
  assert (Hlt : (slen p <? slen s) = true).
  { apply Z.ltb_lt; rewrite Hs, slen_app; cbn; pose proof (len_utf8_bounds c); pose proof (slen_nonneg r); lia. }
  assert (Hnext : next_char_len s (slen p) = Ok (len_utf8 c)) by (rewrite Hs; apply next_char_len_spec).
  destruct (IH (p ++ [c]) r) as (i2 & H2); [by rewrite Hs, <- app_assoc | cbn in Hn; lia |].
  destruct (proj1 (safe_total _ _) (Hdet p (c :: r) Hs ltac:(done))) as ([[i j]|] & Hd & Ho); cbn [from_option] in Ho.
  2: { exists i2; intros x; destruct (H2 x) as [Hi Hp]; split.
    - intros col Hw; cbn [scan_loop]; rewrite Hlt, Hd; cbn [mbind result_bind]; rewrite Hnext; cbn [mbind result_bind].
      rewrite next_index; by apply Hi.
    - intros b; destruct (Hp b) as (F & V & S); rewrite vlen_cons; split_and!; [done | lia |].
      eapply scanned_step; [done | done |]; intros m q _ _ E; congruence. }
  destruct Ho as [Hi (m & r' & E & Hm & Hj)]; cbn [fst snd] in *; subst i j.
  assert (Hsm : s = p ++ m ++ r') by by rewrite Hs, E.
  destruct (IH (p ++ m) r') as (i1 & H1).
  { by rewrite Hsm, app_assoc. }
  { assert (length (c :: r) = length m + length r')%nat by by rewrite E, length_app.
    destruct m; [done |]; cbn in *; lia. }
  destruct (add_finding_push rule p m r' message Hsm Hm) as (k & Hk & Hadd).
  set (f := finding_of rule m (slen p) k message) in *.
  exists (fun x b => if g x (slen p) (slen p + slen m) b then f :: i1 x (b ++ [f]) else i2 x b); intros x.
  destruct (Hdec x p m r' Hsm Hm) as [Hacc Hquote]; destruct (H1 x) as [I1 P1], (H2 x) as [I2 P2]; split.
  - intros col Hw; cbn [scan_loop]; rewrite Hlt, Hd; cbn [mbind result_bind]; rewrite Hacc; cbn [mbind result_bind].
    destruct (g x _ _ (own rule (findings col))) eqn:Hg.
    + assert (text_range s (slen p) (slen p + slen m) = Ok m) as -> by (rewrite Hsm; apply text_range_at).
      cbn [mbind result_bind]; rewrite Hadd by apply Hw; cbn [mbind result_bind]; rewrite <- slen_app.
      assert (Hok : finding_ok rule f) by (apply (finding_of_ok rule p m r'); eauto).
      apply (implements_seq rule (fun col => Ok (push col f)) _ (fun _ => [f]) (i1 x)); [| done | | done].
      * intros col' Hw'; eexists; split; [done | by apply adds_push].
      * intros _; apply Forall_cons; split; [done | apply Forall_nil_2].
    + rewrite Hnext; cbn [mbind result_bind]; rewrite next_index; by apply I2.
  - intros b; destruct (g x _ _ b) eqn:Hg.
    + destruct (P1 (b ++ [f])) as (F & V & S); split_and!.
      * apply Forall_cons; split; [apply (finding_of_ok rule p m r'); eauto | done].
      * rewrite E, vlen_cons, vlen_app; assert (1 <= vlen m) by (destruct m; [done |]; rewrite vlen_cons; pose proof (vlen_nonneg m); lia); lia.
      * rewrite slen_app in S; eapply (scanned_cons _ (slen p)); [exact S | | lia].
        intros p' m' q' Hs' Hm' Hr; exists p, m, r'; pose proof (slen_pos m' Hm'); split_and!; [done | done | lia | lia | done].
    + destruct (P2 b) as (F & V & S); rewrite vlen_cons; split_and!; [done | lia |].
      eapply scanned_step; [done | done |]; intros m' q' E' Hm' Hd'.
      assert (slen m' = slen m) as -> by (rewrite Hd in Hd'; injection Hd' as Hd'; lia); done.
Qed.

(** ** Acceptance *)

Definition decided (m : Total bool) : bool := match m with Ok b => b | _ => false end.

(** A span of the list meets the range. *)
Definition covered (l : list EditorialFinding.t) (i j : Z) : bool :=
  existsb (fun f => match EditorialFinding.span f with
                    | Some span => (i <? span_end span) && (span_start span <? j)
                    | None => false
                    end) l.

Lemma overlaps_rule_covered col rule i j :
  overlaps_rule col (id_ rule) i j = covered (own rule (findings col)) i j.
Proof.
  unfold overlaps_rule, covered, own; induction (findings col) as [|f l IH]; [done |]; cbn [existsb List.filter].
  destruct (text_eqb _ _); cbn [existsb andb orb]; by rewrite IH.
Qed.

Lemma covered_app l k i j : covered (l ++ k) i j = covered l i j || covered k i j.
Proof. apply existsb_app. Qed.

(** Outside quotations and between words. *)
Definition open_place (i j : Z) : bool :=
  decided (word_bounded s i j) && negb (decided (is_inside_quotes i j (quoted_spans s))).

Lemma accept_decides rule :
  decides rule (accept s (quoted_spans s) rule) (fun i j b => open_place i j && negb (covered b i j)).
Proof.
  intros p m q Hs Hm; unfold accept, open_place.
  destruct (word_bounded_safe p m q) as [w Hw]; rewrite <- Hs in Hw; rewrite Hw; cbn [mbind result_bind decided].
  destruct (is_inside_quotes_total (slen p) (slen p + slen m) (quoted_spans s)) as [b Hb]; rewrite Hb; cbn [decided].
  destruct w, b; cbn; split; try done; intros col; by rewrite overlaps_rule_covered.
Qed.

Lemma accept_match_decides rule cover line_start whole :
  decides rule (fun _ i j => accept_match s (quoted_spans s) cover i j line_start whole)
    (fun i j _ => decided (accept_match s (quoted_spans s) cover i j line_start whole)).
Proof.
  intros p m q Hs Hm.
  assert (H : exists b, accept_match s (quoted_spans s) cover (slen p) (slen p + slen m) line_start whole = Ok b /\
    (b = true -> is_inside_quotes (slen p) (slen p + slen m) (quoted_spans s) = Ok false)).
  { unfold accept_match.
    destruct (is_inside_quotes_total (slen p) (slen p + slen m) (quoted_spans s)) as [b Hb]; rewrite Hb; cbn [mbind result_bind].
    destruct b; cbn [orb]; [by exists false |]; destruct (overlaps _ _ _); [by exists false |].
    assert (exists b, (if line_start then at_line_start s (slen p) else Ok true) = Ok b) as [b ->].
    { destruct line_start; [| eauto]; rewrite Hs.
      destruct (proj1 (safe_total _ _) (at_line_start_safe p (m ++ q))) as (b & -> & _); eauto. }
    cbn [mbind result_bind]; destruct b; cbn [negb]; [| eauto]; destruct whole; [| eauto].
    destruct (word_bounded_safe p m q) as [w Hw]; rewrite <- Hs in Hw; rewrite Hw; eauto. }
  destruct H as (b & Hb & Hq); rewrite Hb; cbn [decided]; split; [done | auto].
Qed.

Lemma phrase_at_detects phrase : phrase <> [] -> detects s (phrase_at s phrase).
Proof.
  intros Hp p r -> _; unfold phrase_at; eapply safe_bind; [by apply match_folded_reach |].
  intros [e|]; [| done]; intros He; split; done.
Qed.

Lemma emit_windows_behaves rule message detect :
  detects s (detect s) ->
  behaves rule (vlen s) (scanned 0 (detect s) (fun i j b => open_place i j && negb (covered b i j)))
    (fun col => emit_windows s (quoted_spans s) col rule message detect).
Proof.
  intros Hd; destruct (scan_loop_behaves (X := unit) (length s) [] s rule message (detect s)
    (fun _ => accept s (quoted_spans s) rule) (fun _ i j b => open_place i j && negb (covered b i j)))
    as (i & Hi); [done | lia | done | intros _; apply accept_decides |].
  exists (i tt); apply (Hi tt).
Qed.

(** Every occurrence of a phrase at an open place meets a finding of the list. *)
Definition phrase_covered (phrase : text) (l : list EditorialFinding.t) : Prop :=
  forall p m q, s = p ++ m ++ q -> m <> [] -> map fold_char m = phrase ->
    open_place (slen p) (slen p + slen m) = true -> covered l (slen p) (slen p + slen m) = true.

Lemma phrase_covered_app phrase l k : phrase_covered phrase l -> phrase_covered phrase (l ++ k).
Proof. intros H p m q Hs Hm Hf Ho; rewrite covered_app, (H p m q Hs Hm Hf Ho); done. Qed.

Lemma fold_match_complete p m q : match_folded (p ++ m ++ q) (slen p) (map fold_char m) = Ok (Some (slen p + slen m)).
Proof.
  revert p; induction m as [|c m IH]; intros p; cbn [match_folded map]; [cbn; by rewrite Z.add_0_r |].
  rewrite text_from_at; cbn [mbind result_bind app head]; rewrite Z.eqb_refl, next_index.
  pose proof (IH (p ++ [c])) as H; rewrite <- app_assoc in H; cbn [app] in H; rewrite H; cbn [slen].
  do 2 f_equal; rewrite slen_app; cbn; lia.
Qed.

(** The span of a located piece. *)
Lemma locate_piece p m q :
  s = p ++ m ++ q -> slen s < u32_max ->
  locate (new_collector s 0) s (slen p) (saturating_add usize_max (slen p) (slen m)) =
  Some {| span_start := slen p; span_end := slen p + slen m;
          span_line := 1 + newlines p; span_column := 1 + (slen p - line_start p) |}.
Proof.
  intros Hs Hl; pose proof (slen_nonneg p); pose proof (slen_nonneg m); pose proof (slen_nonneg q).
  assert (Hlen : slen s = slen p + slen m + slen q) by (rewrite Hs, !slen_app; lia).
  assert (Hu : u32_max < usize_max) by done.
  unfold saturating_add; rewrite Z.min_r by lia; unfold locate.
  rewrite (proj2 (Z.ltb_ge _ _)), (proj2 (Z.ltb_ge _ _)) by lia; cbn [orb].
  assert (is_char_boundary s (slen p) = true) as -> by (apply is_char_boundary_spec; eauto).
  assert (is_char_boundary s (slen p + slen m) = true) as ->.
  { apply is_char_boundary_spec; exists (p ++ m), q; by rewrite slen_app, <- app_assoc. }
  cbn [negb orb new_collector lines]; rewrite Hs at 1; rewrite line_point_spec by (by rewrite <- Hs).
  cbn [mbind option_bind]; rewrite (proj2 (try_from_Some u32_max (slen p) (slen p))) by lia.
  cbn [mbind option_bind]; by rewrite (proj2 (try_from_Some u32_max (slen p + slen m) _)) by (split; [done | lia]).
Qed.

Lemma touches_covered f l i j : slen s < u32_max -> f ∈ l -> touches f i j -> covered l i j = true.
Proof.
  intros Hl Hin (p & m & q & Hs & Hm & H1 & H2 & Hsp); rewrite (locate_piece p m q Hs Hl) in Hsp.
  apply existsb_exists; exists f; split; [by apply list_elem_of_In |]; rewrite Hsp; cbn.
  apply andb_true_iff; rewrite !Z.ltb_lt; lia.
Qed.

Lemma scanned_phrase phrase before new :
  slen s < u32_max ->
  scanned 0 (phrase_at s phrase) (fun i j b => open_place i j && negb (covered b i j)) before new ->
  phrase_covered phrase (before ++ new).
Proof.
  intros Hl Hsc p m q Hs Hm Hf Ho.
  destruct (Hsc p m q Hs Hm (slen_nonneg p)) as [(f & Hin & Ht) | (n1 & (n2 & ->) & Hg)].
  - unfold phrase_at; rewrite <- Hf, Hs, fold_match_complete; done.
  - eapply touches_covered; [done | | done]; apply elem_of_app; by right.
  - rewrite Ho in Hg; cbn in Hg; apply negb_false_iff in Hg; by rewrite app_assoc, covered_app, Hg.
Qed.

Lemma emit_phrases_behaves rule message phrases :
  Forall (fun x => x <> []) phrases -> 
  behaves rule (vlen phrases * vlen s)
    (fun before new => slen s < u32_max -> Forall (fun phrase => phrase_covered phrase (before ++ new)) phrases)
    (fun col => emit_phrases s (quoted_spans s) col rule message phrases).
Proof.
  unfold emit_phrases; induction 1 as [|x l Hx _ IH]; cbn [try_fold].
  { eapply behaves_weaken; [apply behaves_id | unfold vlen; cbn; lia |]; intros b n _ _; apply Forall_nil_2. }
  eapply behaves_weaken; [apply behaves_seq; [| exact IH] | |].
  - apply (emit_windows_behaves rule message (fun s => phrase_at s x)); by apply phrase_at_detects.
  - rewrite vlen_cons; lia.
  - intros b n (n1 & n2 & -> & Q1 & Q2) Hl; apply Forall_cons; split.
    + rewrite app_assoc; apply phrase_covered_app; by apply (scanned_phrase x).
    + rewrite app_assoc; by apply Q2.
Qed.

End Commands.
