(* ===== verification/LintRules.v ===== *)
(** * The rules of the editorial lint behave.

    For every command the catalog runs, its ideal: density windows, the
    pile-up rules, repeated punctuation, dash and emoji density, folded
    residue and repeated conclusions. *)

From S2P Require Import Prelude Text Evidence LintText Lint LintProps.

Section Rules.
Context {UT : UnicodeTables} (s : text).

Local Abbreviation quotes := (quoted_spans s).

(** ** Early stops *)

(** A command may stop once the collector is exceeded. *)
Lemma adds_stop col col' l k : adds col col' l -> exceeded col' = true -> adds col col' (l ++ k).
Proof.
  intros (L & M & H) He; split_and!; [done | done |]; destruct (exceeded col); [done |].
  rewrite vlen_app; pose proof (vlen_nonneg k).
  destruct (Z.leb_spec (vlen (findings col) + vlen l) (maximum col)); [destruct H; congruence |].
  by rewrite (proj2 (Z.leb_gt _ _)) by lia.
Qed.

Lemma adds_too_many col new :
  maximum col < vlen (findings col) + vlen new -> adds col (refuse col) new.
Proof.
  intros H; split_and!; [done | done |]; destruct (exceeded col); [done |]; by rewrite (proj2 (Z.leb_gt _ _)) by lia.
Qed.

(** ** Density windows *)

(** A place outside quotations. *)
Definition hit (ij : Z * Z) : Prop :=
  exists p m q, s = p ++ m ++ q /\ m <> [] /\ ij = (slen p, slen p + slen m) /\
    is_inside_quotes (slen p) (slen p + slen m) quotes = Ok false.

(** The finding recorded for a hit. *)
Definition hit_finding (rule : RuleCatalog) (message : text) (ij : Z * Z) : EditorialFinding.t :=
  let evidence := default [] (slice s (fst ij) (snd ij)) in
  let occurrence := match count_previous_occurrences s evidence (fst ij) with Ok k => k | _ => 0 end in
  finding_of s rule evidence (fst ij) occurrence message.

Lemma hit_spec rule message ij :
  hit ij -> finding_ok s rule (hit_finding rule message ij) /\
  exists evidence, text_range s (fst ij) (snd ij) = Ok evidence /\
    forall col, lines col = line_index s ->
      add_finding col s rule evidence (fst ij) message = Ok (push col (hit_finding rule message ij)).
Proof.
  intros (p & m & q & Hs & Hm & -> & Hq); cbn [fst snd]; unfold hit_finding; cbn [fst snd].
  assert (slice s (slen p) (slen p + slen m) = Some m) as Hsl by (rewrite Hs; apply slice_at).
  assert (text_range s (slen p) (slen p + slen m) = Ok m) as -> by (rewrite Hs; apply text_range_at).
  rewrite Hsl; cbn [default]; unfold add_finding.
  destruct (proj1 (safe_total _ _) (count_previous_safe s (S (length s)) [] s m (slen p) 0 Hm eq_refl
    ltac:(done))) as (k & Hk & Hb); unfold count_previous_occurrences; cbn [slen] in Hk.
  cbn [from_option id]; rewrite Hk; cbn [mbind result_bind].
  split; [by apply (finding_of_ok s rule p m q) |]; exists m; split; [done |].
  intros col Hl; rewrite Hk; cbn [mbind result_bind]; unfold push_finding; by rewrite spanned_lines.
Qed.

Lemma density_hits_spec n p r rule detect :
  s = p ++ r -> (length r <= n)%nat -> detects s detect -> exists H : list EditorialFinding.t -> list (Z * Z),
    (forall before, Forall hit (H before) /\ vlen (H before) <= vlen r) /\
    forall col, density_hits n s quotes col rule detect (slen p) = Ok (H (own rule (findings col))).
Proof.
  intros Hs Hn Hdet; revert p r Hs Hn; induction n as [|n IH]; intros p r Hs Hn.
  { exists (fun _ => []); split; [| done]; intros b; split; [apply Forall_nil_2 | apply vlen_nonneg]. }
  cbn [density_hits]; destruct r as [|c r].
  { rewrite app_nil_r in Hs; exists (fun _ => []); rewrite Hs, Z.ltb_irrefl; split; [| done].
    intros b; split; [apply Forall_nil_2 | apply vlen_nonneg]. }
  assert ((slen p <? slen s) = true) as ->.
  { apply Z.ltb_lt; rewrite Hs, slen_app; cbn; pose proof (len_utf8_bounds c); pose proof (slen_nonneg r); lia. }
  destruct (proj1 (safe_total _ _) (Hdet p (c :: r) Hs ltac:(done))) as ([[i j]|] & -> & Ho); cbn [from_option] in Ho;
    cbn [mbind result_bind].
  - destruct Ho as [Hi (m & r' & E & Hm & Hj)]; cbn [fst snd] in *; subst i j.
    assert (Hsm : s = p ++ m ++ r') by by rewrite Hs, E.
    destruct (IH (p ++ m) r') as (H & HH & Hr); [by rewrite Hsm, app_assoc | |].
    { assert (length (c :: r) = length m + length r')%nat by by rewrite E, length_app.
      destruct m; [done |]; cbn in *; lia. }
    destruct (accept_decides s rule p m r' Hsm Hm) as [Ha Hq].
    exists (fun b => if open_place s (slen p) (slen p + slen m) && negb (covered b (slen p) (slen p + slen m))
                     then (slen p, slen p + slen m) :: H b else H b); split.
    + intros b; destruct (HH b) as [Hf Hv]; rewrite E, vlen_app.
      assert (1 <= vlen m) by (destruct m; [done |]; rewrite vlen_cons; pose proof (vlen_nonneg m); lia).
      specialize (Hq b); destruct (_ && _); [| split; [done | lia]]; rewrite vlen_cons; split; [| lia].
      apply Forall_cons; split; [| done]; exists p, m, r'; auto.
    + intros col; rewrite Ha; cbn [mbind result_bind]; rewrite <- slen_app, Hr; cbn [mbind result_bind].
      by destruct (_ && _).
  - destruct (IH (p ++ [c]) r) as (H & HH & Hr); [by rewrite Hs, <- app_assoc | cbn in Hn; lia |].
    exists H; split.
    + intros b; destruct (HH b); rewrite vlen_cons; split; [done | lia].
    + assert (next_char_len s (slen p) = Ok (len_utf8 c)) as -> by (rewrite Hs; apply next_char_len_spec).
      cbn [mbind result_bind]; intros col; by rewrite next_index.
Qed.

Lemma add_hits_adds rule message hits col :
  Forall hit hits -> wf s col ->
  exists col', add_hits s rule message col hits = Ok col' /\ adds col col' (map (hit_finding rule message) hits).
Proof.
  intros Hh; revert col; induction Hh as [|[i j] hits Hi _ IH]; intros col Hw; cbn [add_hits map].
  { exists col; split; [done | by eapply adds_nil]. }
  destruct (hit_spec rule message _ Hi) as (Hok & m & Hr & Ha); cbn [fst snd] in *.
  rewrite Hr; cbn [mbind result_bind]; rewrite Ha by apply Hw; cbn [mbind result_bind].
  pose proof (adds_push s col (hit_finding rule message (i, j)) Hw) as Hp.
  destruct (exceeded (push _ _)) eqn:He; [eexists; split; [done |]; by apply (adds_stop _ _ [_]) |].
  destruct (IH _ (adds_wf s _ _ _ Hw Hp)) as (col' & -> & A); exists col'; split; [done |].
  by eapply (adds_trans _ _ _ [_]).
Qed.

Lemma emit_density_windows_behaves rule message floor per_thousand detect :
  detects s (detect s) ->
  behaves s rule (vlen s) any
    (fun col => emit_density_windows s quotes col rule message floor per_thousand detect).
Proof.
  intros Hd; destruct (density_hits_spec (length s) [] s rule (detect s) eq_refl (le_n _) Hd) as (H & HH & Hr).
  exists (fun b => if rate_met (vlen (H b)) (count_words s) floor per_thousand
                   then map (hit_finding rule message) (H b) else []); split.
  - intros col Hw; unfold emit_density_windows; cbn [slen] in Hr; rewrite Hr; cbn [mbind result_bind].
    destruct (rate_met _ _ _ _); cbn [negb].
    + apply add_hits_adds; [apply HH | done].
    + exists col; split; [done | by eapply adds_nil].
  - intros b; destruct (HH b) as [Hf Hv]; destruct (rate_met _ _ _ _).
    + split_and!; [| by unfold vlen in *; rewrite length_map | done].
      apply Forall_map; eapply Forall_impl; [exact Hf |]; intros ij Hh; by apply hit_spec.
    + split_and!; [apply Forall_nil_2 | apply vlen_nonneg | done].
Qed.

(** ** Successive occurrences *)

Lemma match_indices_from_length n pat off t : (length (match_indices_from n pat off t) <= n)%nat.
Proof.
  revert off t; induction n as [|n IH]; intros off t; cbn; [lia |]; destruct t; [cbn; lia |].
  destruct (strip_prefix _ _); cbn; [specialize (IH (off + slen pat) l) | specialize (IH (off + len_utf8 z) t)]; lia.
Qed.

Lemma match_indices_piece pat : Forall (fun i => exists p q, s = p ++ pat ++ q /\ i = slen p) (match_indices s pat).
Proof.
  apply Forall_forall; intros i Hi; apply match_indices_from_spec in Hi as (a & b & Hs & ->); by exists a, b.
Qed.

Lemma occurrence_bounds k : 0 <= k -> 0 <= default u16_max (try_from u16_max k) <= u16_max.
Proof.
  intros Hk; unfold try_from; rewrite (proj2 (Z.leb_le 0 k)) by lia.
  destruct (Z.leb_spec k u16_max); cbn; [lia | done].
Qed.

(** ** Pile-ups *)

Definition marker_ok (x : Z * text * Z) : Prop :=
  exists p q, s = p ++ snd (fst x) ++ q /\ snd (fst x) <> [] /\ fst (fst x) = slen p /\
    is_inside_quotes (slen p) (slen p + slen (snd (fst x))) quotes = Ok false /\ 0 <= snd x <= u16_max.

(** The rule's condition for refusing early. *)
Definition overfull (col : FindingCollector) (matches : list (Z * text * Z)) : bool :=
  (3 <=? vlen matches) && (remaining col <? vlen matches).

Lemma overfull_app col l k : overfull col l = true -> overfull col (l ++ k) = true.
Proof.
  unfold overfull; rewrite vlen_app, !andb_true_iff, !Z.leb_le, !Z.ltb_lt; pose proof (vlen_nonneg k); lia.
Qed.

Definition collected (col : FindingCollector) (matches : list (Z * text * Z)) : Total (option (list (Z * text * Z))) :=
  Ok (if overfull col matches then None else Some matches).

Lemma pileup_marker_spec marker positions occurrence :
  marker <> [] -> Forall (fun i => exists p q, s = p ++ marker ++ q /\ i = slen p) positions -> 0 <= occurrence ->
  exists new, Forall marker_ok new /\ vlen new <= vlen positions /\
    forall col matches, overfull col matches = false ->
      pileup_marker quotes col marker occurrence positions matches = collected col (matches ++ new).
Proof.
  intros Hm Hp; revert occurrence; induction Hp as [|i positions (p & q & Hs & ->) _ IH]; intros occurrence Ho.
  { exists []; split_and!; [apply Forall_nil_2 | done |]; intros col matches Hf.
    unfold collected; by rewrite app_nil_r, Hf. }
  destruct (IH (occurrence + 1)) as (new & Hn & Hv & Hr); [lia |]; rewrite vlen_cons; cbn [pileup_marker].
  destruct (is_inside_quotes_total (slen p) (slen p + slen marker) quotes) as [[|] Hq]; rewrite Hq; cbn [mbind result_bind].
  { exists new; split_and!; [done | lia | done]. }
  set (x := (slen p, marker, default u16_max (try_from u16_max occurrence))).
  exists (x :: new); rewrite vlen_cons; split_and!; [| lia |].
  { apply Forall_cons; split; [| done]; exists p, q; split_and!; try done; by apply occurrence_bounds. }
  intros col matches Hf; rewrite (cons_middle x matches new), (app_assoc matches [x] new).
  fold (overfull col (matches ++ [x])).
  destruct (overfull col (matches ++ [x])) eqn:E; [| by apply Hr].
  unfold collected; by rewrite overfull_app.
Qed.

Lemma pileup_markers_spec markers :
  Forall (fun marker => marker <> []) markers ->
  exists new, Forall marker_ok new /\ vlen new <= vlen markers * vlen s /\
    forall col matches, overfull col matches = false ->
      pileup_markers s quotes col markers matches = collected col (matches ++ new).
Proof.
  induction 1 as [|marker markers Hm _ (new & Hn & Hv & Hr)]; cbn [pileup_markers].
  { exists []; split_and!; [apply Forall_nil_2 | done |]; intros col matches Hf.
    unfold collected; by rewrite app_nil_r, Hf. }
  destruct (pileup_marker_spec marker (match_indices s marker) 0 Hm (match_indices_piece marker) ltac:(done))
    as (n1 & Hn1 & Hv1 & Hr1).
  exists (n1 ++ new); split_and!; [by apply Forall_app | |].
  { rewrite vlen_app, vlen_cons; pose proof (match_indices_from_length (length s) marker 0 s).
    unfold match_indices, vlen in *; lia. }
  intros col matches Hf; rewrite Hr1 by done; unfold collected at 1; rewrite app_assoc.
  destruct (overfull col (matches ++ n1)) eqn:E; cbn [mbind result_bind]; [| by apply Hr].
  unfold collected; by rewrite overfull_app.
Qed.

Lemma push_markers rule message l col :
  lines col = line_index s ->
  foldl (fun col '(position, marker, occurrence) => push_finding col s rule marker position occurrence message) col l =
  foldl push col (map (fun x => finding_of s rule (snd (fst x)) (fst (fst x)) (snd x) message) l).
Proof.
  revert col; induction l as [|[[i m] k] l IH]; intros col Hl; [done |]; cbn [foldl map fst snd].
  unfold push_finding at 2; rewrite spanned_lines by done; apply IH; unfold push; by destruct (_ <=? _).
Qed.

Lemma check_pileup_behaves rule markers message :
  Forall (fun marker => marker <> []) markers ->
  behaves s rule (vlen markers * vlen s) any (fun col => check_pileup s quotes col rule markers message).
Proof.
  intros Hm; destruct (pileup_markers_spec markers Hm) as (M & HM & Hv & Hr).
  set (sorted := sort_by (fun a b => fst (fst a) <=? fst (fst b)) M).
  set (new := map (fun x => finding_of s rule (snd (fst x)) (fst (fst x)) (snd x) message) sorted).
  assert (Hl : vlen new = vlen M) by (unfold new, sorted, vlen; by rewrite length_map, (Permutation_length (sort_by_perm _ M))).
  eapply (behaves_weaken _ _ (vlen (if 3 <=? vlen M then new else [])));
    [apply behaves_const | destruct (3 <=? _); [lia | change (vlen []) with 0; pose proof (vlen_nonneg M); lia] | done].
  - destruct (3 <=? _); [| apply Forall_nil_2]; apply Forall_map; unfold sorted; rewrite sort_by_perm.
    eapply Forall_impl; [exact HM |]; intros [[i m] k] (p & q & Hs & Hne & Hi & Hq & Hk); cbn [fst snd] in *; subst i.
    by apply (finding_of_ok s rule p m q).
  - intros col Hw; unfold check_pileup; rewrite Hr by done; unfold collected, overfull; cbn [app mbind result_bind].
    destruct (Z.leb_spec 3 (vlen M)) as [H3|H3]; cbn [andb].
    + destruct (Z.ltb_spec (remaining col) (vlen M)) as [Hx|Hx]; cbn [mbind result_bind].
      * eexists; split; [done |]; apply adds_too_many; unfold remaining, saturating_sub in Hx; lia.
      * rewrite (proj2 (Z.leb_le _ _)) by lia; eexists; split; [done |]; fold sorted.
        rewrite push_markers by apply Hw; by eapply adds_push_all.
    + rewrite (proj2 (Z.leb_gt _ _)) by lia; exists col; split; [done | by eapply adds_nil].
Qed.

(** ** Repeated punctuation *)

Lemma repeated_loop_spec rule evidence message positions occurrence :
  evidence <> [] -> Forall (fun i => exists p q, s = p ++ evidence ++ q /\ i = slen p) positions -> 0 <= occurrence ->
  exists new, Forall (finding_ok s rule) new /\ vlen new <= vlen positions /\
    forall col eligible, wf s col -> 0 <= eligible -> exists col',
      repeated_loop s quotes rule evidence 1 message occurrence positions [] eligible col = Ok col' /\ adds col col' new.
Proof.
  intros Hm Hp; revert occurrence; induction Hp as [|i positions (p & q & Hs & ->) _ IH]; intros occurrence Ho.
  { exists []; split_and!; [apply Forall_nil_2 | done |]; intros col e Hw _; exists col; split; [done | by eapply adds_nil]. }
  destruct (IH (occurrence + 1)) as (new & Hn & Hv & Hr); [lia |]; rewrite vlen_cons; cbn [repeated_loop].
  destruct (is_inside_quotes_total (slen p) (slen p + slen evidence) quotes) as [[|] Hq]; rewrite Hq; cbn [mbind result_bind].
  { exists new; split_and!; [done | lia | done]. }
  set (f := finding_of s rule evidence (slen p) (default u16_max (try_from u16_max occurrence)) message).
  exists (f :: new); rewrite vlen_cons; split_and!; [| lia |].
  { apply Forall_cons; split; [| done]; apply (finding_of_ok s rule p evidence q); try done; by apply occurrence_bounds. }
  intros col e Hw He; rewrite (proj2 (Z.ltb_ge (e + 1) 1)) by lia; cbn [foldl]; rewrite spanned_lines by apply Hw; fold f.
  pose proof (adds_push s col f Hw) as Ha.
  destruct (exceeded (push col f)) eqn:Hx; [eexists; split; [done | by apply (adds_stop _ _ [f])] |].
  destruct (Hr (push col f) (e + 1) (adds_wf s _ _ _ Hw Ha) ltac:(lia)) as (col' & Hc & Ha'); exists col'; split; [done |].
  by eapply (adds_trans _ _ _ [f]).
Qed.

Lemma repeated_findings_behaves rule evidence message :
  evidence <> [] ->
  behaves s rule (vlen s) any (fun col => repeated_findings s quotes col rule evidence 1 message).
Proof.
  intros Hm; destruct (repeated_loop_spec rule evidence message (match_indices s evidence) 0 Hm
    (match_indices_piece evidence) ltac:(done)) as (new & Hn & Hv & Hr).
  eapply behaves_weaken; [apply (behaves_const s rule _ new Hn) | | done].
  - intros col Hw; by apply Hr.
  - pose proof (match_indices_from_length (length s) evidence 0 s); unfold match_indices, vlen in *; lia.
Qed.

(** ** Dashes and emoji *)

(** The findings of the marks outside quotations, numbered per evidence. *)
Fixpoint mark_list (rule : RuleCatalog) (message : text) (seen : gmap text Z) (marks : list (Z * Z))
  : list EditorialFinding.t :=
  match marks with
  | [] => []
  | (i, j) :: marks' =>
      let evidence := default [] (slice s i j) in
      let '(seen', occurrence) := note_seen seen evidence in
      if decided (is_inside_quotes i j quotes) then mark_list rule message seen' marks'
      else finding_of s rule evidence i occurrence message :: mark_list rule message seen' marks'
  end.

Definition seen_ok (seen : gmap text Z) : Prop := map_Forall (fun _ k => 0 <= k <= u16_max) seen.

Lemma note_seen_ok seen evidence seen' k :
  seen_ok seen -> note_seen seen evidence = (seen', k) -> seen_ok seen' /\ 0 <= k <= u16_max.
Proof.
  intros Hs [= <- <-]; assert (Hk : 0 <= default 0 (seen !! evidence) <= u16_max).
  { destruct (seen !! evidence) as [k|] eqn:E; [by apply (Hs _ _ E) | done]. }
  split; [| done]; apply map_Forall_insert_2; [unfold saturating_add; lia | done].
Qed.

Lemma mark_list_ok rule message seen marks :
  Forall (piece s) marks -> seen_ok seen -> Forall (finding_ok s rule) (mark_list rule message seen marks).
Proof.
  intros Hp; revert seen; induction Hp as [|[i j] marks (p & m & q & Hs & Hm & [= -> ->]) _ IH]; intros seen Hseen;
    cbn [mark_list]; [apply Forall_nil_2 |].
  assert (slice s (slen p) (slen p + slen m) = Some m) as -> by (rewrite Hs; apply slice_at); cbn [default from_option].
  change (id m) with m; destruct (note_seen seen m) as [seen' k] eqn:E.
  apply (note_seen_ok _ _ _ _ Hseen) in E as [Hs' Hk].
  destruct (is_inside_quotes_total (slen p) (slen p + slen m) quotes) as [[|] Hq]; rewrite Hq; cbn [decided]; [by apply IH |].
  apply Forall_cons; split; [by apply (finding_of_ok s rule p m q) | by apply IH].
Qed.

Lemma mark_list_length rule message seen marks : vlen (mark_list rule message seen marks) <= vlen marks.
Proof.
  revert seen; induction marks as [|[i j] marks IH]; intros seen; cbn [mark_list]; [done |].
  destruct (note_seen _ _) as [seen' k]; specialize (IH seen'); destruct (decided _); rewrite ?vlen_cons; lia.
Qed.

Lemma visit_count_all rule message seen marks eligible :
  visit_all (visit_count quotes) eligible marks = Ok (eligible + vlen (mark_list rule message seen marks)).
Proof.
  revert seen eligible; induction marks as [|[i j] marks IH]; intros seen eligible; cbn [visit_all mark_list].
  { by rewrite Z.add_0_r. }
  destruct (is_inside_quotes_total i j quotes) as [b Hq]; rewrite Hq; cbn [decided].
  assert (visit_count quotes eligible i j = Ok (if b then eligible else eligible + 1, true)) as ->
    by (unfold visit_count; by rewrite Hq).
  cbn [mbind result_bind]; destruct (note_seen _ _) as [seen' k]; rewrite (IH seen'); f_equal.
  destruct b; [done |]; rewrite vlen_cons; lia.
Qed.

(** A mark as the visitors see it. *)
Lemma mark_slice p m q : s = p ++ m ++ q -> slice s (slen p) (slen p + slen m) = Some m.
Proof. intros ->; apply slice_at. Qed.

Lemma visit_long_at rule message p m q seen col :
  s = p ++ m ++ q -> lines col = line_index s ->
  visit_long s quotes rule message (seen, col) (slen p) (slen p + slen m) =
  let '(seen', k) := note_seen seen m in
  Ok (if decided (is_inside_quotes (slen p) (slen p + slen m) quotes) then ((seen', col), true)
      else let col' := push col (finding_of s rule m (slen p) k message) in ((seen', col'), negb (exceeded col'))).
Proof.
  intros Hs Hl; unfold visit_long; rewrite (mark_slice p m q Hs); destruct (note_seen seen m) as [seen' k].
  destruct (is_inside_quotes_total (slen p) (slen p + slen m) quotes) as [[|] Hq]; rewrite Hq; cbn; [done |].
  by rewrite spanned_lines.
Qed.

Lemma mark_list_cons rule message p m q seen marks :
  s = p ++ m ++ q -> mark_list rule message seen ((slen p, slen p + slen m) :: marks) =
  let '(seen', k) := note_seen seen m in
  if decided (is_inside_quotes (slen p) (slen p + slen m) quotes) then mark_list rule message seen' marks
  else finding_of s rule m (slen p) k message :: mark_list rule message seen' marks.
Proof. intros Hs; cbn [mark_list]; by rewrite (mark_slice p m q Hs). Qed.

Lemma visit_long_all rule message seen marks col :
  Forall (piece s) marks -> wf s col -> exists seen' col',
    visit_all (visit_long s quotes rule message) (seen, col) marks = Ok (seen', col') /\
    adds col col' (mark_list rule message seen marks).
Proof.
  intros Hp; revert seen col; induction Hp as [|[i j] marks (p & m & q & Hs & Hm & [= -> ->]) _ IH]; intros seen col Hw.
  { exists seen, col; split; [done | by eapply adds_nil]. }
  rewrite (mark_list_cons _ _ p m q) by done; cbn [visit_all]; rewrite (visit_long_at _ _ p m q) by (apply Hw || done).
  destruct (note_seen seen m) as [seen' k]; cbn [mbind result_bind]; destruct (decided _); [by apply IH |].
  set (f := finding_of s rule m (slen p) k message); cbn zeta.
  pose proof (adds_push s col f Hw) as Ha; destruct (exceeded (push col f)) eqn:Hx; cbn [negb].
  { exists seen', (push col f); split; [done | by apply (adds_stop _ _ [f])]. }
  destruct (IH seen' (push col f) (adds_wf s _ _ _ Hw Ha)) as (seen2 & col2 & -> & A2); exists seen2, col2; split; [done |].
  by eapply (adds_trans _ _ _ [f]).
Qed.

Lemma visit_short_at rule message p m q st :
  s = p ++ m ++ q -> lines (mark_findings st) = line_index s ->
  visit_short s quotes rule message st (slen p) (slen p + slen m) =
  let '(seen', k) := note_seen (seen st) m in
  let f := finding_of s rule m (slen p) k message in
  let col' := push (foldl push (mark_findings st) (pending st)) f in
  Ok (if decided (is_inside_quotes (slen p) (slen p + slen m) quotes)
      then (Build_MarkState (pending st) (eligible_marks st) seen' (mark_findings st), true)
      else if eligible_marks st + 1 <? MARK_FLOOR
      then (Build_MarkState (pending st ++ [f]) (eligible_marks st + 1) seen' (mark_findings st), true)
      else (Build_MarkState [] (eligible_marks st + 1) seen' col', negb (exceeded col'))).
Proof.
  intros Hs Hl; unfold visit_short; rewrite (mark_slice p m q Hs); destruct (note_seen (seen st) m) as [seen' k].
  destruct (is_inside_quotes_total (slen p) (slen p + slen m) quotes) as [[|] Hq]; rewrite Hq;
    cbn [mbind result_bind decided mark_findings pending eligible_marks]; [done |].
  rewrite spanned_lines by done; by destruct (_ <? _).
Qed.

(** Below the floor every mark counted waits. *)
Definition waiting (st : MarkState) : Prop :=
  0 <= eligible_marks st /\ (eligible_marks st < MARK_FLOOR -> vlen (pending st) = eligible_marks st).

Lemma visit_short_all rule message marks st :
  Forall (piece s) marks -> wf s (mark_findings st) -> waiting st ->
  let new := mark_list rule message (seen st) marks in
  exists st', visit_all (visit_short s quotes rule message) st marks = Ok st' /\
    adds (mark_findings st) (mark_findings st')
      (if eligible_marks st + vlen new <? MARK_FLOOR then [] else if vlen new =? 0 then [] else pending st ++ new).
Proof.
  intros Hp; revert st; induction Hp as [|[i j] marks (p & m & q & Hs & Hm & [= -> ->]) _ IH]; intros st Hw [He Hwait].
  { exists st; split; [done |]; destruct (_ <? _); by eapply adds_nil. }
  rewrite (mark_list_cons _ _ p m q) by done; cbn [visit_all]; rewrite (visit_short_at _ _ p m q) by (apply Hw || done).
  destruct (note_seen (seen st) m) as [seen' k]; cbn [mbind result_bind]; destruct (decided _).
  { apply (IH (Build_MarkState _ _ seen' _)); done. }
  set (f := finding_of s rule m (slen p) k message); cbn zeta; rewrite vlen_cons.
  set (new := mark_list rule message seen' marks); pose proof (vlen_nonneg new).
  rewrite (proj2 (Z.eqb_neq (1 + vlen new) 0)) by lia.
  destruct (Z.ltb_spec (eligible_marks st + 1) MARK_FLOOR) as [Hlt|Hge].
  - specialize (Hwait ltac:(lia)).
    destruct (IH (Build_MarkState (pending st ++ [f]) (eligible_marks st + 1) seen' (mark_findings st)))
      as (st' & -> & A); [done | |].
    { split; cbn [eligible_marks pending]; [lia |]; intros _; rewrite vlen_app, Hwait; done. }
    exists st'; split; [done |]; cbn [seen eligible_marks pending mark_findings] in A; fold new in A.
    rewrite <- Z.add_assoc in A; destruct (_ <? MARK_FLOOR) eqn:Hx; [done |]; apply Z.ltb_ge in Hx.
    rewrite (proj2 (Z.eqb_neq (vlen new) 0)), <- app_assoc in A by lia; done.
  - rewrite (proj2 (Z.ltb_ge _ _)) by lia.
    set (col' := push (foldl push (mark_findings st) (pending st)) f).
    assert (A1 : adds (mark_findings st) col' (pending st ++ [f])).
    { pose proof (adds_push_all s _ (pending st) Hw) as A; eapply adds_trans; [exact A |].
      apply (adds_push s); by eapply adds_wf. }
    rewrite (app_assoc (pending st) [f] new : pending st ++ f :: new = _).
    destruct (exceeded col') eqn:Hx; cbn [negb]; [eexists; split; [done |]; by apply adds_stop |].
    destruct (IH (Build_MarkState [] (eligible_marks st + 1) seen' col')) as (st' & -> & A);
      [by eapply adds_wf | split; cbn [eligible_marks pending]; lia |].
    exists st'; split; [done |]; cbn [seen eligible_marks pending mark_findings] in A; fold new in A.
    rewrite (proj2 (Z.ltb_ge _ _)) in A by lia; eapply adds_trans; [exact A1 |].
    destruct (Z.eqb_spec (vlen new) 0) as [H0|]; [| done]; by destruct new; [| rewrite vlen_cons in H0; pose proof (vlen_nonneg new); lia].
Qed.

Lemma emit_scanned_behaves rule message (scan : Scan) marks :
  Forall (piece s) marks -> (length marks <= length s)%nat -> (forall S, walks (scan S s) marks) ->
  behaves s rule (vlen s) any (fun col => emit_scanned s quotes col rule message scan).
Proof.
  intros Hp Hl Hwalk; set (new := mark_list rule message ∅ marks).
  assert (Hnew : Forall (finding_ok s rule) new) by (apply mark_list_ok; [done | apply map_Forall_empty]).
  assert (Hv : vlen new <= vlen s) by (pose proof (mark_list_length rule message ∅ marks); unfold new, vlen in *; lia).
  assert (Hconst : forall c, (forall col, wf s col -> exists col', c col = Ok col' /\ adds col col' new) \/
                             (forall col, wf s col -> exists col', c col = Ok col' /\ adds col col' []) ->
                   behaves s rule (vlen s) any c).
  { intros c [Hc|Hc]; (eapply behaves_weaken; [by eapply behaves_const; [| exact Hc] | | done]); [done |].
    apply vlen_nonneg. }
  apply Hconst; unfold emit_scanned; destruct (count_words s <? SHORT_DOCUMENT_WORDS).
  - assert (H : forall col, wf s col -> exists col', (state ← scan MarkState s (visit_short s quotes rule message)
        {| pending := []; eligible_marks := 0; seen := ∅; mark_findings := col |}; Ok (mark_findings state)) = Ok col' /\
        adds col col' (if vlen new <? MARK_FLOOR then [] else if vlen new =? 0 then [] else new)).
    { intros col Hw; rewrite Hwalk; destruct (visit_short_all rule message marks
        {| pending := []; eligible_marks := 0; seen := ∅; mark_findings := col |}) as (st & -> & A);
        [done | done | by split |]; eexists; split; [done | exact A]. }
    destruct (vlen new <? MARK_FLOOR); [by right |]; destruct (vlen new =? 0); [by right | by left].
  - destruct (rate_met (vlen new) (count_words s) MARK_FLOOR MARK_PER_THOUSAND) eqn:Hr; [left | right];
      intros col Hw; rewrite (Hwalk Z), (visit_count_all rule message ∅), Z.add_0_l; fold new; cbn [mbind result_bind];
      rewrite Hr; cbn [negb]; [| exists col; split; [done | by eapply adds_nil]].
    rewrite Hwalk; destruct (visit_long_all rule message ∅ marks col Hp Hw) as (seen' & col' & -> & A); by exists col'.
Qed.

(** ** Redundant qualifiers *)

Lemma is_definitional_context_total p m q : exists b, is_definitional_context (p ++ m ++ q) (slen p) (slen p + slen m) = Ok b.
Proof.
  unfold is_definitional_context; rewrite text_to_at; cbn [mbind result_bind].
  rewrite app_assoc, <- slen_app, text_from_at; eauto.
Qed.

Lemma definitional_behaves rule pattern_ message :
  pattern_ <> [] ->
  behaves s rule 1 any (fun col =>
    match find_str pattern_ s with
    | None => Ok col
    | Some pos =>
        let e := pos + slen pattern_ in
        quoted ← is_inside_quotes pos e quotes;
        if quoted : bool then Ok col
        else
          definitional ← is_definitional_context s pos e;
          if definitional : bool then Ok col else add_finding col s rule pattern_ pos message
    end).
Proof.
  intros Hp; pose proof (check_exact_behaves s rule pattern_ message Hp) as H; unfold check_exact in H.
  assert (Hid : behaves s rule 1 any (fun col => Ok col)) by (eapply behaves_weaken; [apply behaves_id | lia | done]).
  destruct (find_str pattern_ s) as [pos|] eqn:E; [| done]; apply find_exact in E as (p & q & Hs & ->); cbn zeta.
  destruct (is_inside_quotes (slen p) _ quotes) as [[|]| |]; cbn [mbind result_bind] in *; try done.
  destruct (is_definitional_context_total p pattern_ q) as [b Hb]; rewrite <- Hs in Hb; rewrite Hb; by destruct b.
Qed.

(** ** Folded residue and repeated conclusions *)

Lemma exact_cover_total n p r sentence : s = p ++ r -> safe (fun _ => True) (exact_cover n s quotes sentence (slen p)).
Proof.
  revert p r; induction n as [|n IH]; intros p r Hs; cbn [exact_cover]; [done |].
  rewrite Hs at 1; rewrite text_from_at; cbn [mbind result_bind].
  destruct (find_str sentence r) as [pos|] eqn:E; [| done]; apply find_str_spec in E as (a & b & -> & <-).
  destruct (is_inside_quotes_total (slen p + slen a) (slen p + slen a + slen sentence) quotes) as [qd Hq]; rewrite Hq; cbn [mbind result_bind].
  replace (slen p + slen a + slen sentence) with (slen (p ++ a ++ sentence)) by (rewrite !slen_app; lia).
  eapply safe_bind; [apply (IH _ b); by rewrite Hs, <- !app_assoc | done].
Qed.

Lemma exact_covers_total : exists base, exact_covers s quotes = Ok base.
Proof.
  destruct (proj1 (safe_total (fun _ => True) (exact_covers s quotes))) as (base & Hb & _); [| eauto].
  apply safe_try_fold; [done |]; intros b x _ _; eapply safe_bind; [apply (exact_cover_total _ [] s x eq_refl) | done].
Qed.

(** The ranges of a rule's own findings. *)
Definition ranges (l : list EditorialFinding.t) : list (Z * Z) :=
  omap (fun f => span ← EditorialFinding.span f; Some (span_start span, span_end span)) l.

Lemma covered_scan_behaves rule message detect base line_start whole :
  detects s detect ->
  behaves s rule (vlen s) any (fun col =>
    scan_loop (length s) s detect
      (fun _ i j => accept_match s quotes (base ++ ranges_for col (id_ rule)) i j line_start whole) rule message 0 col).
Proof.
  intros Hd; destruct (scan_loop_behaves s (X := list (Z * Z)) (length s) [] s rule message detect
    (fun cover _ i j => accept_match s quotes cover i j line_start whole)
    (fun cover i j _ => decided (accept_match s quotes cover i j line_start whole)))
    as (i & Hi); [done | lia | done | intros cover; apply accept_match_decides |].
  exists (fun b => i (base ++ ranges b) b); split.
  - intros col Hw; by apply (Hi (base ++ ranges (own rule (findings col)))).
  - intros b; destruct (Hi (base ++ ranges b)) as [_ H]; destruct (H b) as (F & V & _); done.
Qed.

Lemma todays_world_at_detects : detects s (todays_world_at s).
Proof.
  intros p r Hs _; rewrite Hs; unfold todays_world_at; eapply safe_bind; [apply match_folded_reach; discriminate |].
  intros [e|]; [| done]; intros (m & r' & -> & Hm & ->); rewrite app_assoc, <- slen_app.
  eapply safe_bind; [apply world_within_safe |]; intros [e|]; [| done]; intros He; split; [done |]; cbn [fst snd].
  apply reach1_step; [done |]; by apply reach1_weaken.
Qed.

Lemma repeated_conclusion_at_detects words : detects s (repeated_conclusion_at s words).
Proof.
  intros p r Hs Hr; rewrite Hs; unfold repeated_conclusion_at; eapply safe_bind; [by apply conclusion_at_safe |].
  intros [[o e]|]; [| done]; cbn [from_option snd opt]; intros He; unfold repeated_tail; cbn zeta.
  destruct (_ <? 4); [done |]; destruct (existsb _ _); [| done]; by split.
Qed.

End Rules.
