(* ===== verification/LintCatalog.v ===== *)
(** * The catalog of the editorial lint as one program.

    The rules in the order they run, the ideal result of the run, and the
    theorems about [lint_text] and its bounded and partial forms. *)

From S2P Require Import Prelude Text Evidence LintText Lint LintProps LintRules.

Section Catalog.
Context {UT : UnicodeTables} (s : text).

Local Abbreviation quotes := (quoted_spans s).

(** ** Families of rules *)

Definition limit : Z := 8 * (1 + vlen s).

(** The promise of the phrase rules. *)
Definition finds (phrases : list text) (before new : list EditorialFinding.t) : Prop :=
  slen s < u32_max -> Forall (fun phrase => phrase_covered s phrase (before ++ new)) phrases.

Lemma exact_then rule pattern_ message b Q c :
  pattern_ <> [] -> b <= 7 * (1 + vlen s) -> behaves s rule b Q c ->
  behaves s rule limit (fun before new => exists l n, new = l ++ n /\ Q (before ++ l) n)
    (fun col => col ← check_exact s quotes col rule pattern_ message; c col).
Proof.
  intros Hp Hb Hc; pose proof (vlen_nonneg s).
  eapply behaves_weaken; [apply behaves_seq; [by apply check_exact_behaves | exact Hc] | unfold limit; lia |].
  intros before new (l & n & -> & _ & HQ); by exists l, n.
Qed.

Lemma exact_then_any rule pattern_ message b c :
  pattern_ <> [] -> b <= 7 * (1 + vlen s) -> behaves s rule b any c ->
  behaves s rule limit any (fun col => col ← check_exact s quotes col rule pattern_ message; c col).
Proof. intros Hp Hb Hc; eapply behaves_weaken; [by eapply (exact_then _ _ _ _ any) | lia | done]. Qed.

Lemma exact_then_phrases rule pattern_ message message' phrases :
  pattern_ <> [] -> Forall (fun x => x <> []) phrases -> vlen phrases <= 7 ->
  behaves s rule limit (finds phrases)
    (fun col => col ← check_exact s quotes col rule pattern_ message; emit_phrases s quotes col rule message' phrases).
Proof.
  intros Hp Hf Hl; pose proof (vlen_nonneg s).
  eapply behaves_weaken; [eapply exact_then; [done | | by apply emit_phrases_behaves] | lia |].
  - nia.
  - intros before new (l & n & -> & HQ); unfold finds; by rewrite app_assoc.
Qed.

(** ** The program *)

Record Entry := {
  e_rule : RuleCatalog;
  e_promise : list EditorialFinding.t -> list EditorialFinding.t -> Prop;
  e_command : Command
}.

Definition entry_ok (e : Entry) : Prop := behaves s (e_rule e) limit (e_promise e) (e_command e).

(** The phrases each phrase rule promises to find. *)
Definition puffery := PUFFERY.
Definition ornament := [lit "nestled within"; lit "the fabric of"; lit "a vibrant tapestry"].
Definition significance :=
  [lit "pivotal moment"; lit "significant milestone"; lit "marks a new era"; lit "historic turning point"].
Definition closes := [lit "the sky is the limit"; lit "the best is yet to come"; lit "possibilities are endless"].
Definition collaboration := [lit "join me on this journey"; lit "embark on this journey"].
Definition throat :=
  [lit "it should be noted that"; lit "it is worth noting that"; lit "it's worth noting that"].
Definition canned := [lit "that being said"; lit "with that said"].
Definition attribution := [lit "research shows"; lit "studies show"; lit "many believe"].
Definition qualifiers :=
  [lit "close proximity"; lit "past history"; lit "advance planning"; lit "unexpected surprise";
   lit "added bonus"; lit "basic fundamentals"].

Definition slop_program : list Entry :=
  [ Build_Entry PrefabricatedSceneSetting any (check_prefabricated_scene_setting s quotes);
    Build_Entry ContrastiveReframe any (check_contrastive_reframe s quotes);
    Build_Entry StackedTricolon any (check_stacked_tricolon s quotes);
    Build_Entry PromotionalPuffery (finds puffery) (check_promotional_puffery s quotes);
    Build_Entry OrnamentalAbstraction (finds ornament) (check_ornamental_abstraction s quotes);
    Build_Entry ReaderSegmentation any (check_reader_segmentation s quotes);
    Build_Entry PerformativeQuestionAnswer any (check_performative_question_answer s quotes);
    Build_Entry EmptySignificance (finds significance) (check_empty_significance s quotes);
    Build_Entry SummaryPileup any (check_summary_pileup s quotes);
    Build_Entry GenericPositiveClose (finds closes) (check_generic_positive_close s quotes);
    Build_Entry TransitionPileup any (check_transition_pileup s quotes);
    Build_Entry PerformativeCollaboration (finds collaboration) (check_performative_collaboration s quotes) ].

Definition folded_entry (base : list (Z * Z)) (p : FoldedPattern) : Entry :=
  Build_Entry (fp_rule p) any
    (fun col => scan_pattern s quotes (base ++ ranges_for col (id_ (fp_rule p))) col p).

Definition style_tail (base : list (Z * Z)) : list Entry :=
  [ Build_Entry PrefabricatedSceneSetting any
      (fun col => scan_todays_world s quotes (base ++ ranges_for col (id_ PrefabricatedSceneSetting)) col);
    Build_Entry CannedTransition (finds canned) (check_canned_transition s quotes);
    Build_Entry RepeatedConclusion any (check_repeated_conclusion s quotes);
    Build_Entry VagueAttribution (finds attribution) (check_vague_attribution s quotes);
    Build_Entry RedundantQualifier (finds qualifiers) (check_redundant_qualifier s quotes);
    Build_Entry ExcessiveExclamation any (check_excessive_exclamation s quotes);
    Build_Entry ExcessiveDashDensity any (check_excessive_dash_density s quotes);
    Build_Entry ExcessiveEmojiDensity any (check_excessive_emoji_density s quotes) ].

Definition style_program (base : list (Z * Z)) : list Entry :=
  [ Build_Entry ConversationalResidue any (check_conversational_residue s quotes);
    Build_Entry ThroatClearing (finds throat) (check_throat_clearing s quotes) ] ++
  map (folded_entry base) folded_patterns ++ style_tail base.

Lemma window_ok rule message detect :
  detects s (detect s) ->
  behaves s rule (vlen s) any (fun col => emit_windows s quotes col rule message detect).
Proof. intros H; eapply behaves_weaken; [by apply emit_windows_behaves | lia | done]. Qed.

Ltac phrases := first [discriminate | repeat (apply Forall_cons; split; [discriminate |]); apply Forall_nil_2].

Lemma slop_ok : Forall entry_ok slop_program.
Proof.
  pose proof (vlen_nonneg s) as Hs; unfold slop_program; repeat (apply Forall_cons; split); try apply Forall_nil_2;
    unfold entry_ok; cbn [e_rule e_promise e_command].
  - eapply exact_then_any; [discriminate | | apply window_ok, scene_at_detects]; lia.
  - eapply exact_then_any; [discriminate | | apply emit_density_windows_behaves, contrastive_at_detects]; lia.
  - eapply exact_then_any; [discriminate | | apply emit_density_windows_behaves, tricolon_at_detects]; lia.
  - apply exact_then_phrases; [discriminate | phrases | done].
  - apply exact_then_phrases; [discriminate | phrases | done].
  - eapply exact_then_any; [discriminate | | apply window_ok, reader_at_detects]; lia.
  - eapply exact_then_any; [discriminate | | apply window_ok, question_at_detects]; lia.
  - apply exact_then_phrases; [discriminate | phrases | done].
  - eapply behaves_weaken; [apply check_pileup_behaves; phrases | | done]; unfold limit; change (vlen [_; _; _]) with 3; lia.
  - apply exact_then_phrases; [discriminate | phrases | done].
  - eapply behaves_weaken; [apply check_pileup_behaves; phrases | | done]; unfold limit; change (vlen [_; _; _]) with 3; lia.
  - apply exact_then_phrases; [discriminate | phrases | done].
Qed.

Lemma folded_ok base : Forall entry_ok (map (folded_entry base) folded_patterns).
Proof.
  apply Forall_map; assert (H : Forall (fun p => pattern p <> []) folded_patterns) by phrases.
  eapply Forall_impl; [exact H |]; intros p Hp; pose proof (vlen_nonneg s).
  eapply behaves_weaken; [apply covered_scan_behaves; by apply phrase_at_detects | unfold limit; lia | done].
Qed.

Lemma qualifier_ok : entry_ok (Build_Entry RedundantQualifier (finds qualifiers) (check_redundant_qualifier s quotes)).
Proof.
  pose proof (vlen_nonneg s); eapply behaves_weaken.
  - apply behaves_seq; [apply definitional_behaves; discriminate | apply emit_phrases_behaves; phrases].
  - unfold limit; change (vlen _) with 6 at 1; lia.
  - intros before new (l & n & -> & _ & HQ) Hl; rewrite app_assoc; by apply HQ.
Qed.

Lemma style_ok base : Forall entry_ok (style_program base).
Proof.
  pose proof (vlen_nonneg s) as Hs; unfold style_program; rewrite !Forall_app; split_and!; [| apply folded_ok |];
    repeat (apply Forall_cons; split); try apply Forall_nil_2; try apply qualifier_ok;
    unfold entry_ok; cbn [e_rule e_promise e_command].
  - eapply exact_then_any; [discriminate | | apply check_exact_behaves; discriminate]; lia.
  - apply exact_then_phrases; [discriminate | phrases | done].
  - eapply behaves_weaken; [apply covered_scan_behaves, todays_world_at_detects | unfold limit; lia | done].
  - apply exact_then_phrases; [discriminate | phrases | done].
  - eapply behaves_weaken; [apply (window_ok _ _ (fun t => repeated_conclusion_at t (conclusion_words t))),
      repeated_conclusion_at_detects | unfold limit; lia | done].
  - apply exact_then_phrases; [discriminate | phrases | done].
  - eapply behaves_weaken; [apply repeated_findings_behaves; discriminate | unfold limit; lia | done].
  - destruct (scan_dashes_marks s) as (marks & Hp & Hl & Hw).
    eapply behaves_weaken; [by apply (emit_scanned_behaves s _ _ (@scan_dashes) marks) | unfold limit; lia | done].
  - destruct (scan_emoji_marks s) as (marks & Hp & Hl & Hw).
    eapply behaves_weaken; [by apply (emit_scanned_behaves s _ _ (@scan_emoji) marks) | unfold limit; lia | done].
Qed.

(** ** Running the program *)

Definition run (excluded : option RuleCatalog) (program : list Entry) (col : FindingCollector) : Total FindingCollector :=
  try_fold (fun col e => when_enabled excluded (e_rule e) (e_command e) col) col program.

Lemma run_cons excluded e p col :
  run excluded (e :: p) col = (col ← when_enabled excluded (e_rule e) (e_command e) col; run excluded p col).
Proof. done. Qed.

Lemma run_app excluded p1 p2 col : run excluded (p1 ++ p2) col = (col ← run excluded p1 col; run excluded p2 col).
Proof.
  revert col; induction p1 as [|e p1 IH]; intros col; [done |]; unfold run; cbn [app try_fold].
  destruct (when_enabled _ _ _ _); cbn [mbind result_bind]; [apply IH | done | done].
Qed.

Lemma run_folded excluded base ps col :
  run excluded (map (folded_entry base) ps) col =
  try_fold (fun col p => if negb (enabled excluded (fp_rule p)) then Ok col
                         else scan_pattern s quotes (base ++ ranges_for col (id_ (fp_rule p))) col p) col ps.
Proof.
  revert col; induction ps as [|p ps IH]; intros col; [done |]; unfold run in *; cbn [map try_fold].
  assert (when_enabled excluded (e_rule (folded_entry base p)) (e_command (folded_entry base p)) col =
    if negb (enabled excluded (fp_rule p)) then Ok col
    else scan_pattern s quotes (base ++ ranges_for col (id_ (fp_rule p))) col p) as ->
    by (unfold when_enabled; cbn [folded_entry e_rule e_command]; by destruct (enabled _ _)).
  destruct (if negb _ then _ else _); cbn [mbind result_bind]; [apply IH | done | done].
Qed.

Ltac step_run := match goal with
  | |- (?m ≫= _) = (?m ≫= _) => destruct m; cbn [mbind result_bind]; try reflexivity
  | |- ?m = (?m ≫= _) => by destruct m
  end.

Lemma collect_slop_run excluded col : collect_slop s quotes col excluded = run excluded slop_program col.
Proof. unfold collect_slop, run, slop_program; cbn [try_fold e_rule e_command]; repeat step_run. Qed.

Lemma collect_style_run excluded base col :
  exact_covers s quotes = Ok base -> collect_style s quotes col excluded = run excluded (style_program base) col.
Proof.
  intros Hb; unfold style_program, collect_style, check_folded_residue; rewrite Hb; cbn [app mbind result_bind].
  rewrite run_cons; cbn [e_rule e_command].
  destruct (when_enabled _ ConversationalResidue _ _) as [col1| |]; cbn [mbind result_bind]; try reflexivity.
  rewrite run_cons; cbn [e_rule e_command].
  destruct (when_enabled _ ThroatClearing _ _) as [col2| |]; cbn [mbind result_bind]; try reflexivity.
  rewrite run_app, run_folded; destruct (try_fold _ _ _) as [col3| |]; cbn [mbind result_bind]; try reflexivity.
  unfold run, style_tail; cbn [try_fold e_rule e_command]; fold (when_enabled excluded PrefabricatedSceneSetting
    (fun col => scan_todays_world s quotes (base ++ ranges_for col (id_ PrefabricatedSceneSetting)) col) col3).
  repeat step_run.
Qed.

Lemma collect_rules_run excluded base maximum :
  exact_covers s quotes = Ok base ->
  collect_rules s maximum excluded = run excluded (slop_program ++ style_program base) (new_collector s maximum).
Proof.
  intros Hb; unfold collect_rules; rewrite run_app, collect_slop_run; destruct (run _ _ _); cbn; [| done | done].
  by apply collect_style_run.
Qed.

(** ** The ideal result *)

Abbreviation ideal_of := (list EditorialFinding.t -> list EditorialFinding.t).

Definition ideal_ok (ei : Entry * ideal_of) : Prop :=
  implements s (e_rule (fst ei)) (e_command (fst ei)) (snd ei) /\
  forall before, Forall (finding_ok s (e_rule (fst ei))) (snd ei before) /\
    vlen (snd ei before) <= limit /\ e_promise (fst ei) before (snd ei before).

Lemma ideals program : Forall entry_ok program -> exists l, map fst l = program /\ Forall ideal_ok l.
Proof.
  induction 1 as [|e program (i & Hi & Hp) _ (l & <- & Hl)]; [exists []; split; [done | apply Forall_nil_2] |].
  exists ((e, i) :: l); split; [done |]; apply Forall_cons; split; [by split | done].
Qed.

(** The findings a run adds to [fs] when nothing limits it. *)
Fixpoint news (excluded : option RuleCatalog) (l : list (Entry * ideal_of)) (fs : list EditorialFinding.t)
  : list EditorialFinding.t :=
  match l with
  | [] => []
  | (e, i) :: l' =>
      if enabled excluded (e_rule e)
      then let n := i (own (e_rule e) fs) in n ++ news excluded l' (fs ++ n)
      else news excluded l' fs
  end.

Lemma adds_then a b c l k k' :
  adds a b l -> adds b c k' -> (findings b = findings a ++ l -> k' = k) -> adds a c (l ++ k).
Proof.
  intros H1 H2 Hk; destruct (exceeded b) eqn:Hx.
  { apply adds_stop; [| by eapply adds_exceeded]; destruct H1 as (? & ? & H1), H2 as (? & ? & H2).
    split_and!; [congruence | congruence |]; rewrite Hx in H2; destruct (exceeded a); [done |].
    destruct (_ <=? _); [destruct H1; congruence | done]. }
  assert (k' = k) as <-; [| by eapply adds_trans].
  apply Hk; destruct H1 as (_ & _ & H1); destruct (exceeded a); [congruence |].
  destruct (_ <=? _); [by destruct H1 | congruence].
Qed.

Lemma run_adds excluded l col :
  Forall ideal_ok l -> wf s col ->
  exists col', run excluded (map fst l) col = Ok col' /\ adds col col' (news excluded l (findings col)).
Proof.
  intros Hl; revert col; induction Hl as [|[e i] l [Hi Hp] _ IH]; intros col Hw.
  { exists col; split; [done | by eapply adds_nil]. }
  cbn [map fst snd news] in *; rewrite run_cons.
  assert (when_enabled excluded (e_rule e) (e_command e) col =
    if enabled excluded (e_rule e) then e_command e col else Ok col) as -> by done.
  destruct (enabled excluded (e_rule e)); [| cbn [mbind result_bind]; by apply IH].
  destruct (Hi col Hw) as (col1 & -> & A1); cbn [mbind result_bind].
  destruct (IH col1 (adds_wf s _ _ _ Hw A1)) as (col2 & H2 & A2); exists col2; split; [exact H2 |].
  eapply adds_then; [exact A1 | exact A2 |]; by intros ->.
Qed.

Lemma news_ok excluded l fs :
  Forall ideal_ok l -> Forall (fun f => exists rule, finding_ok s rule f) (news excluded l fs).
Proof.
  intros Hl; revert fs; induction Hl as [|[e i] l [_ Hp] _ IH]; intros fs; cbn [news]; [apply Forall_nil_2 |].
  destruct (enabled _ _); [| apply IH]; apply Forall_app; split; [| apply IH].
  destruct (Hp (own (e_rule e) fs)) as (Hf & _); eapply Forall_impl; [exact Hf |]; cbn; eauto.
Qed.

Lemma news_length excluded l fs : Forall ideal_ok l -> vlen (news excluded l fs) <= vlen l * limit.
Proof.
  assert (0 <= limit) by (unfold limit; pose proof (vlen_nonneg s); lia).
  intros Hl; revert fs; induction Hl as [|[e i] l [_ Hp] _ IH]; intros fs; cbn [news]; [done |].
  rewrite vlen_cons; destruct (enabled _ _); [| specialize (IH fs); lia]; cbn zeta.
  destruct (Hp (own (e_rule e) fs)) as (_ & Hv & _); cbn [fst snd] in *.
  rewrite vlen_app; specialize (IH (fs ++ i (own (e_rule e) fs))); lia.
Qed.

(** The promise of a rule holds of its part of the result. *)
Lemma news_promise l fs e i :
  Forall ideal_ok l -> (e, i) ∈ l ->
  exists n1 n n2, news None l fs = n1 ++ n ++ n2 /\ e_promise e (own (e_rule e) (fs ++ n1)) n /\
    Forall (finding_ok s (e_rule e)) n.
Proof.
  intros Hl; revert fs; induction Hl as [|[e' i'] l [_ Hp] _ IH]; intros fs; [by rewrite elem_of_nil |].
  rewrite elem_of_cons; cbn [news fst snd] in *.
  unfold enabled; rewrite (bool_decide_eq_false_2 (None = Some _)) by done; cbn [negb].
  intros [[= <- <-] | Hin].
  - destruct (Hp (own (e_rule e) fs)) as (Hf & _ & Hq); eexists [], _, _; split; [reflexivity |]; by rewrite app_nil_r.
  - destruct (IH (fs ++ i' (own (e_rule e') fs)) Hin) as (n1 & n & n2 & -> & Hq & Hf).
    exists (i' (own (e_rule e') fs) ++ n1), n, n2; split; [by rewrite <- app_assoc |]; by rewrite app_assoc.
Qed.

(** ** Leaving a rule out *)

(** The findings of the other rules. *)
Definition without (rule : RuleCatalog) (l : list EditorialFinding.t) : list EditorialFinding.t :=
  List.filter (fun f => negb (text_eqb (EditorialFinding.rule_id f) (id_ rule))) l.

Lemma without_app rule l k : without rule (l ++ k) = without rule l ++ without rule k.
Proof. apply List.filter_app. Qed.

Lemma own_without rule rule' l : rule <> rule' -> own rule (without rule' l) = own rule l.
Proof.
  intros Hne; unfold own, without; induction l as [|f l IH]; [done |]; cbn [List.filter].
  unfold text_eqb in *; destruct (bool_decide (_ = id_ rule')) eqn:E; cbn [negb List.filter]; [| by rewrite IH].
  apply bool_decide_eq_true_1 in E; rewrite E, bool_decide_eq_false_2; [done |].
  intros H; apply Hne; symmetry; by apply id_inj.
Qed.

Lemma without_other rule rule' l : rule <> rule' -> Forall (finding_ok s rule) l -> without rule' l = l.
Proof.
  intros Hne; unfold without; induction 1 as [|f l Hf _ IH]; cbn [List.filter]; [done |].
  unfold text_eqb at 1; rewrite (fo_rule _ _ _ Hf), bool_decide_eq_false_2; cbn [negb]; [by rewrite IH |].
  intros H; apply id_inj in H; congruence.
Qed.

Lemma without_self rule l : Forall (finding_ok s rule) l -> without rule l = [].
Proof.
  unfold without; induction 1 as [|f l Hf _ IH]; cbn [List.filter]; [done |].
  unfold text_eqb at 1; by rewrite (fo_rule _ _ _ Hf), bool_decide_eq_true_2.
Qed.

Lemma news_without rule l fs :
  Forall ideal_ok l -> news (Some rule) l (without rule fs) = without rule (news None l fs).
Proof.
  intros Hl; revert fs; induction Hl as [|[e i] l [_ Hp] _ IH]; intros fs; [done |]; cbn [news].
  unfold enabled; rewrite (bool_decide_eq_false_2 (None = Some _)) by done; cbn [negb]; cbn zeta.
  rewrite without_app, <- IH, without_app; cbn [fst snd] in Hp.
  destruct (Hp (own (e_rule e) fs)) as (Hf & _).
  destruct (decide (e_rule e = rule)) as [<- | Hne].
  - rewrite bool_decide_eq_true_2, (without_self _ (i _)) by done; cbn [negb app]; by rewrite app_nil_r.
  - rewrite bool_decide_eq_false_2 by congruence; cbn [negb]; rewrite own_without, (without_other (e_rule e) _ (i _)) by done; done.
Qed.

(** ** The result of a run *)

(** One list of findings explains every run over the text. *)
Lemma collect_rules_spec : exists l,
  map fst l = slop_program ++ style_program (match exact_covers s quotes with Ok base => base | _ => [] end) /\
  Forall ideal_ok l /\
  forall maximum excluded, 0 <= maximum -> exists col,
    collect_rules s maximum excluded = Ok col /\ adds (new_collector s maximum) col (news excluded l []).
Proof.
  destruct (exact_covers_total s) as [base Hb].
  destruct (ideals (slop_program ++ style_program base)) as (l & Hm & Hl).
  { apply Forall_app; split; [apply slop_ok | apply style_ok]. }
  exists l; rewrite Hb; split_and!; [done | done |]; intros maximum excluded H0.
  rewrite (collect_rules_run excluded base maximum Hb), <- Hm; apply run_adds; [done |]; by split.
Qed.

Lemma adds_fits maximum col new :
  adds (new_collector s maximum) col new -> vlen new <= maximum -> findings col = new /\ exceeded col = false.
Proof. intros (_ & _ & H) Hv; cbn in H; by rewrite (proj2 (Z.leb_le _ _)) in H by (unfold vlen in *; cbn; lia). Qed.

Lemma adds_over maximum col new :
  adds (new_collector s maximum) col new -> maximum < vlen new -> exceeded col = true.
Proof. intros (_ & _ & H) Hv; cbn in H; by rewrite (proj2 (Z.leb_gt _ _)) in H by (unfold vlen in *; cbn; lia). Qed.

(** On a text whose offsets fit [u32] no complete result overflows [usize]. *)
Lemma lint_spec : slen s < u32_max -> exists l, Forall ideal_ok l /\
  map fst l = slop_program ++ style_program (match exact_covers s quotes with Ok base => base | _ => [] end) /\
  lint_text s = Ok (news None l []) /\
  (forall rule, lint_text_excluding s rule = Ok (news (Some rule) l [])) /\
  forall maximum, 0 <= maximum -> lint_text_bounded s maximum =
    Ok (if vlen (news None l []) <=? maximum then Ok (news None l []) else Err LimitExceeded).
Proof.
  intros Hs; destruct collect_rules_spec as (l & Hm & Hl & Hr); exists l.
  assert (Hmax : forall excluded, vlen (news excluded l []) <= usize_max).
  { intros excluded; pose proof (news_length excluded l [] Hl) as H.
    assert (vlen l = 36) as Hn by (unfold vlen; rewrite <- (length_map fst), Hm; done).
    assert (vlen s <= slen s) by (pose proof (slen_length s); unfold vlen; lia).
    unfold limit, u32_max, usize_max, u64_max in *; lia. }
  split_and!; [done | done | | |].
  - unfold lint_text; destruct (Hr usize_max None) as (col & -> & A); [done |]; cbn [mbind result_bind].
    by destruct (adds_fits _ _ _ A (Hmax None)) as [-> _].
  - intros rule; unfold lint_text_excluding; destruct (Hr usize_max (Some rule)) as (col & -> & A); [done |]; cbn [mbind result_bind].
    by destruct (adds_fits _ _ _ A (Hmax (Some rule))) as [-> _].
  - intros maximum H0; unfold lint_text_bounded; destruct (Hr maximum None H0) as (col & -> & A); cbn [mbind result_bind].
    unfold finish; destruct (Z.leb_spec (vlen (news None l [])) maximum) as [Hle|Hgt].
    + by destruct (adds_fits _ _ _ A Hle) as [-> ->].
    + by rewrite (adds_over _ _ _ A Hgt).
Qed.

End Catalog.
