(* ===== verification/LintTheorems.v ===== *)
(** * The editorial lint: its service and its theorems.

    [app/src/lint.rs] on top of the lint, and what the lint guarantees: it
    never panics and every finding is located in the text outside
    quotations, a ceiling changes nothing or refuses, a rule left out takes
    only its own findings away, no open occurrence of a catalogued phrase is
    missed, the lookup among the quotations agrees with its specification,
    and a comparison is the difference of two multisets. *)

From S2P Require Import Prelude Text Evidence Engine LintText Lint LintProps LintRules LintCatalog.

(** ** The service ([app/src/lint.rs]) *)

Module EditorialLintService.
Section Service.
Context {UT : UnicodeTables}.

(** [lint_bounded]. *)
Definition lint_bounded (s : text) (maximum : Z) : Total (Result FindingLimitExceeded (list EditorialFinding.t)) :=
  lint_text_bounded s maximum.

(** [compare_bounded]. *)
Definition compare_bounded (source candidate : text) (maximum : Z)
  : Total (Result FindingLimitExceeded EditorialComparison.t) :=
  source_result ← lint_text_bounded source maximum;
  match source_result with
  | Err e => Ok (Err e)
  | Panic => Panic
  | Ok source_findings =>
      candidate_result ← lint_text_bounded candidate (saturating_sub maximum (vlen source_findings));
      match candidate_result with
      | Err e => Ok (Err e)
      | Panic => Panic
      | Ok candidate_findings => Ok (Ok (EditorialComparison.compute source_findings candidate_findings))
      end
  end.

(** [lint] and [compare]. *)
Definition lint (s : text) : Total (list EditorialFinding.t) := lint_text s.
Definition compare (source candidate : text) : Total EditorialComparison.t := compare_editorial_findings source candidate.

End Service.
End EditorialLintService.

(** ** The engine's interface to the lint

    The engine ranks candidates by the number of findings
    ([lint::lint_text(text).len()]).  A text whose offsets fit [u32] always
    has a list of findings, as shown below, so the other case of the match
    stands for nothing the code can return there. *)

Section EngineInterface.
Context {UT : UnicodeTables}.

Definition finding_count (s : text) : Z := match lint_text s with Ok fs => vlen fs | _ => 0 end.

Lemma finding_count_nonneg s : 0 <= finding_count s.
Proof. unfold finding_count; destruct (lint_text s); [apply vlen_nonneg | done | done]. Qed.

Definition engine_lint : EditorialLint := {| lint_count := finding_count; lint_count_nonneg := finding_count_nonneg |}.

End EngineInterface.

(** ** Quotations *)

(** The pairs of marks [quoted_spans] finds, before it sorts them. *)
Definition quote_pairs (s : text) : list Range := fst (fst (foldl quote_step ([], None, None) (char_indices s))).

Definition encloses (i j : Z) (r : Range) : bool := (range_start r <=? i) && (j <=? range_end r).

Lemma char_indices_nonneg off s : 0 <= off -> Forall (fun x => 0 <= fst x) (char_indices_from off s).
Proof.
  revert off; induction s as [|c s IH]; intros off Ho; cbn; [apply Forall_nil_2 |].
  apply Forall_cons; split; [done | apply IH; pose proof (len_utf8_bounds c); lia].
Qed.

Lemma quote_step_nonneg spans a c x :
  Forall (fun r => 0 <= range_end r) spans -> 0 <= fst x ->
  Forall (fun r => 0 <= range_end r) (fst (fst (quote_step (spans, a, c) x))).
Proof.
  intros Hf Hx; destruct x as [i ch]; cbn [fst] in Hx; unfold quote_step; pose proof (len_utf8_bounds ch).
  destruct (ch =? 34); [destruct a |]; [| done |].
  { cbn [fst]; apply Forall_app; split; [done |]; apply Forall_cons; split; [cbn; lia | apply Forall_nil_2]. }
  destruct (ch =? 0x201C); [done |]; destruct (ch =? 0x201D); [| done]; destruct c; [| done].
  cbn [fst]; apply Forall_app; split; [done |]; apply Forall_cons; split; [cbn; lia | apply Forall_nil_2].
Qed.

Lemma quote_pairs_nonneg s : Forall (fun r => 0 <= range_end r) (quote_pairs s).
Proof.
  unfold quote_pairs, char_indices; pose proof (char_indices_nonneg 0 s ltac:(lia)) as H.
  assert (Hs : Forall (fun r => 0 <= range_end r) (fst (fst (@nil Range, @None Z, @None Z)))) by apply Forall_nil_2.
  revert Hs; generalize (@nil Range, @None Z, @None Z) as st; induction H as [|x l Hx _ IH]; intros [[spans a] c] Hs; [done |].
  cbn [foldl]; apply IH; by apply quote_step_nonneg.
Qed.

(** The largest end among the spans that start in time. *)
Lemma extend_ends_lookup m i l :
  StronglySorted (fun a b => (range_start a <=? range_start b) = true) l ->
  let index := partition_point (fun r => range_start r <=? i) (extend_ends m l) in
  if 0 <? index
  then exists r, extend_ends m l !! Z.to_nat (index - 1) = Some r /\
    forall j, (j <=? range_end r) = (j <=? m) || existsb (encloses i j) l
  else forall j, existsb (encloses i j) l = false.
Proof.
  revert m; induction l as [|r l IH]; intros m Hs; [done |]; inversion Hs as [|? ? Hs' Hr]; subst.
  cbn [extend_ends partition_point range_start existsb]; unfold encloses at 1 3.
  destruct (Z.leb_spec (range_start r) i) as [Hle|Hgt]; cbn [andb orb].
  - specialize (IH (Z.max m (range_end r)) Hs'); cbn zeta in *.
    set (k := partition_point _ (extend_ends (Z.max m (range_end r)) l)) in *.
    pose proof (partition_point_bounds (fun r => range_start r <=? i) (extend_ends (Z.max m (range_end r)) l)) as Hk; fold k in Hk.
    rewrite (proj2 (Z.ltb_lt 0 (1 + k))) by lia.
    assert (Hor : forall j, (j <=? Z.max m (range_end r)) = (j <=? m) || (j <=? range_end r)).
    { intros j; destruct (Z.leb_spec j (Z.max m (range_end r))), (Z.leb_spec j m), (Z.leb_spec j (range_end r)); cbn; try done; lia. }
    destruct (Z.ltb_spec 0 k) as [Hpos|Hz].
    + destruct IH as (q & Hq & Hj); exists q; replace (Z.to_nat (1 + k - 1)) with (S (Z.to_nat (k - 1))) by lia.
      split; [done |]; intros j; by rewrite Hj, Hor, orb_assoc.
    + eexists; replace (Z.to_nat (1 + k - 1)) with 0%nat by lia; split; [done |]; intros j; cbn [range_end].
      by rewrite IH, Hor, orb_false_r.
  - rewrite Z.ltb_irrefl; intros j; apply not_true_is_false; intros (x & Hx & He)%existsb_exists.
    rewrite Forall_forall in Hr; specialize (Hr x (proj2 (list_elem_of_In _ _) Hx)).
    unfold encloses in He; apply andb_true_iff in He as [He _]; apply Z.leb_le in He, Hr; lia.
Qed.

Lemma existsb_perm {A} (f : A -> bool) l k : l ≡ₚ k -> existsb f l = existsb f k.
Proof.
  induction 1; cbn; [done | congruence | | congruence].
  destruct (f y), (f x); done.
Qed.

Lemma extend_ends_low m l : m <= 0 -> Forall (fun r => 0 <= range_end r) l -> extend_ends m l = extend_ends 0 l.
Proof. intros Hm; destruct 1 as [|r l Hr _]; cbn [extend_ends]; [done |]; by replace (Z.max m (range_end r)) with (Z.max 0 (range_end r)) by lia. Qed.

Lemma is_inside_quotes_spec s i j :
  is_inside_quotes i j (quoted_spans s) = Ok (existsb (encloses i j) (quote_pairs s)).
Proof.
  unfold quoted_spans; pose proof (quote_pairs_nonneg s) as Hn; unfold quote_pairs in *.
  destruct (foldl quote_step _ _) as [[spans a] c]; cbn [fst] in *.
  set (sorted := sort_by (fun a b => range_start a <=? range_start b) spans).
  assert (Hp : sorted ≡ₚ spans) by apply sort_by_perm.
  assert (Hf : Forall (fun r => 0 <= range_end r) sorted) by by rewrite Hp.
  assert (Hs : StronglySorted (fun a b => (range_start a <=? range_start b) = true) sorted).
  { apply sort_by_sorted; [intros x y; rewrite !Z.leb_le; lia | intros x y z; rewrite !Z.leb_le; lia]. }
  pose proof (extend_ends_lookup (Z.min 0 (j - 1)) i sorted Hs) as H; cbn zeta in H.
  rewrite (extend_ends_low (Z.min 0 (j - 1))) in H by (lia || done).
  unfold is_inside_quotes; rewrite (existsb_perm _ _ _ (symmetry Hp)); destruct (0 <? _); [| by rewrite H].
  destruct H as (r & -> & Hj); cbn [expect mbind result_bind]; rewrite Hj, (proj2 (Z.leb_gt j _)) by lia; done.
Qed.

(** An even number of straight marks. *)
Definition paired (p : text) : bool := Nat.even (length (List.filter (Z.eqb 34) p)).

(** A quotation: two straight marks with none between them and an even number
    before them, or an opening and a closing curly mark with neither between
    them. *)
Definition quotation (s : text) (r : Range) : Prop :=
  exists p o m c q, s = p ++ o :: m ++ c :: q /\ range_start r = slen p /\ range_end r = slen (p ++ o :: m ++ [c]) /\
    ((o = 34 /\ c = 34 /\ 34 ∉ m /\ paired p = true) \/ (o = 0x201C /\ c = 0x201D /\ 0x201C ∉ m /\ 0x201D ∉ m)).

Lemma paired_app p q : paired (p ++ q) = Bool.eqb (paired p) (paired q).
Proof.
  unfold paired; rewrite List.filter_app, length_app, Nat.even_add; by destruct (Nat.even _), (Nat.even _).
Qed.
Lemma paired_none m : 34 ∉ m -> paired m = true.
Proof.
  unfold paired; induction m as [|c m IH]; [done |]; rewrite not_elem_of_cons; intros [Hc Hm]; cbn [List.filter].
  rewrite (proj2 (Z.eqb_neq 34 c)) by done; by apply IH.
Qed.
Lemma paired_odd a m : 34 ∉ m -> paired a = true -> paired (a ++ 34 :: m) = false.
Proof.
  intros Hm Ha; change (34 :: m) with ([34] ++ m); rewrite !paired_app, Ha, (paired_none m Hm); done.
Qed.

(** The last occurrence of a character is in one place. *)
Lemma last_occurrence {A} (x : A) a m a' m' : a ++ x :: m = a' ++ x :: m' -> x ∉ m -> x ∉ m' -> a = a' /\ m = m'.
Proof.
  revert a'; induction a as [|y a IH]; intros [|y' a']; cbn [app]; intros H Hm Hm'.
  - by injection H as ->.
  - exfalso; injection H as _ ->; set_solver.
  - exfalso; injection H as _ <-; set_solver.
  - injection H as -> H; by destruct (IH a' H Hm Hm') as [-> ->].
Qed.

(** A quotation of a longer text is one of the text, or ends with it. *)
Lemma quotation_snoc p x r :
  quotation (p ++ [x]) r <->
  quotation p r \/ exists a m, p = a ++ (if x =? 34 then 34 else 0x201C) :: m /\
    range_start r = slen a /\ range_end r = slen p + len_utf8 x /\
    ((x = 34 /\ 34 ∉ m /\ paired a = true) \/ (x = 0x201D /\ 0x201C ∉ m /\ 0x201D ∉ m)).
Proof.
  split.
  - intros (a & o & m & c & q & Hs & Hr1 & Hr2 & Hk); destruct q as [|y q _] using rev_ind.
    + right; rewrite app_comm_cons, app_assoc in Hs; apply app_inj_tail in Hs as [-> ->]; exists a, m.
      assert (He : range_end r = slen (a ++ o :: m) + len_utf8 c) by (rewrite Hr2, !slen_app; cbn; rewrite slen_app; cbn; lia).
      destruct Hk as [(-> & -> & Hm & Ha) | (-> & -> & Hm & Hm')]; split_and!; try done; auto.
    + left; assert (Hs' : p ++ [x] = (a ++ o :: m ++ c :: q) ++ [y]) by (rewrite Hs, <- !app_assoc; cbn; by rewrite <- app_assoc).
      apply app_inj_tail in Hs' as [-> ->]; by exists a, o, m, c, q.
  - intros [(a & o & m & c & q & -> & H) | (a & m & -> & Hr1 & Hr2 & Hk)].
    + exists a, o, m, c, (q ++ [x]); split; [by rewrite <- !app_assoc; cbn; rewrite <- app_assoc | done].
    + exists a, (if x =? 34 then 34 else 0x201C), m, x, []; split_and!; [by rewrite <- app_assoc | done | |].
      * rewrite Hr2, !slen_app; cbn [slen]; rewrite slen_app; cbn; lia.
      * destruct Hk as [(-> & ? & ?) | (-> & ? & ?)]; [left | right]; done.
Qed.

(** What the scan knows after the text [p]. *)
Record scan_state (p : text) (spans : list Range) (ascii curly : option Z) : Prop := {
  ss_spans : forall r, r ∈ spans <-> quotation p r;
  ss_ascii : match ascii with
    | None => paired p = true
    | Some i => exists a m, p = a ++ 34 :: m /\ 34 ∉ m /\ i = slen a /\ paired a = true
    end;
  ss_curly : match curly with
    | None => forall a m, p = a ++ 0x201C :: m -> 0x201C ∉ m -> 0x201D ∈ m
    | Some i => exists a m, p = a ++ 0x201C :: m /\ 0x201C ∉ m /\ 0x201D ∉ m /\ i = slen a
    end
}.

Lemma ascii_step p ascii x :
  x <> 34 -> match ascii with None => paired p = true | Some i => exists a m, p = a ++ 34 :: m /\ 34 ∉ m /\ i = slen a /\ paired a = true end ->
  match ascii with None => paired (p ++ [x]) = true | Some i => exists a m, p ++ [x] = a ++ 34 :: m /\ 34 ∉ m /\ i = slen a /\ paired a = true end.
Proof.
  intros Hx; destruct ascii as [i|].
  - intros (a & m & -> & Hm & -> & Ha); exists a, (m ++ [x]); rewrite <- app_assoc; split_and!; try done; set_solver.
  - intros Hp; rewrite paired_app, Hp, (paired_none [x]) by set_solver; done.
Qed.

Lemma curly_step p curly x :
  x <> 0x201C -> x <> 0x201D ->
  match curly with None => forall a m, p = a ++ 0x201C :: m -> 0x201C ∉ m -> 0x201D ∈ m
    | Some i => exists a m, p = a ++ 0x201C :: m /\ 0x201C ∉ m /\ 0x201D ∉ m /\ i = slen a end ->
  match curly with None => forall a m, p ++ [x] = a ++ 0x201C :: m -> 0x201C ∉ m -> 0x201D ∈ m
    | Some i => exists a m, p ++ [x] = a ++ 0x201C :: m /\ 0x201C ∉ m /\ 0x201D ∉ m /\ i = slen a end.
Proof.
  intros Hx Hx'; destruct curly as [i|].
  - intros (a & m & -> & Hm & Hm' & ->); exists a, (m ++ [x]); rewrite <- app_assoc; split_and!; try done; set_solver.
  - intros Hn a m Hp Hm; destruct m as [|y m _] using rev_ind; [apply app_inj_tail in Hp as [_ ?]; done |].
    rewrite app_comm_cons, app_assoc in Hp; apply app_inj_tail in Hp as [-> ->]; apply elem_of_app; left; apply (Hn a m); set_solver.
Qed.

Lemma quote_step_exact p spans ascii curly x :
  scan_state p spans ascii curly ->
  let '(spans', ascii', curly') := quote_step (spans, ascii, curly) (slen p, x) in scan_state (p ++ [x]) spans' ascii' curly'.
Proof.
  intros [Hs Ha Hc]; unfold quote_step; destruct (Z.eqb_spec x 34) as [-> |H1]; [destruct ascii as [i|] |].
  - destruct Ha as (a & m & -> & Hm & -> & Hpa); split.
    + intros r; rewrite elem_of_app, list_elem_of_singleton, Hs, quotation_snoc; apply or_iff_compat_l; split.
      * intros ->; exists a, m; cbn; split_and!; auto.
      * intros (a' & m' & E & Hr1 & Hr2 & [(_ & Hm' & _) | (? & _)]); [| done]; cbn in E.
        apply last_occurrence in E as [-> ->]; [| done | done]; destruct r; cbn in *; congruence.
    + rewrite paired_app, paired_odd by done; done.
    + by apply curly_step.
  - split.
    + intros r; rewrite Hs, quotation_snoc; split; [tauto |]; intros [? | (a & m & -> & _ & _ & [(_ & Hm & Hp) | (? & _)])]; [done | | done].
      cbn in Ha; by rewrite paired_odd in Ha.
    + exists p, []; split_and!; [done | apply not_elem_of_nil | done | done].
    + by apply curly_step.
  - assert (Hother : x <> 0x201D -> forall r, r ∈ spans <-> quotation (p ++ [x]) r).
    { intros H3 r; rewrite Hs, quotation_snoc; split; [tauto |]; intros [? | (a & m & _ & _ & _ & [(? & _) | (? & _)])]; done. }
    destruct (Z.eqb_spec x 0x201C) as [-> |H2].
    { split; [by apply Hother | by apply ascii_step |]; exists p, []; split_and!; try done; apply not_elem_of_nil. }
    destruct (Z.eqb_spec x 0x201D) as [-> |H3]; [| split; [by apply Hother | by apply ascii_step | by apply curly_step]].
    assert (Hnone : forall a m, p ++ [0x201D] = a ++ 0x201C :: m -> 0x201C ∉ m -> 0x201D ∈ m).
    { intros a m Hp _; destruct m as [|y m _] using rev_ind; [apply app_inj_tail in Hp as [_ ?]; done |].
      rewrite app_comm_cons, app_assoc in Hp; apply app_inj_tail in Hp as [_ <-]; set_solver. }
    destruct curly as [i|].
    + destruct Hc as (a & m & -> & Hm & Hm' & ->); split; [| by apply ascii_step | done].
      intros r; rewrite elem_of_app, list_elem_of_singleton, Hs, quotation_snoc; apply or_iff_compat_l; split.
      * intros ->; exists a, m; cbn; split_and!; auto.
      * intros (a' & m' & E & Hr1 & Hr2 & [(? & _) | (_ & Hn & _)]); [done |]; cbn in E.
        apply last_occurrence in E as [-> ->]; [| done | done]; destruct r; cbn in *; congruence.
    + split; [| by apply ascii_step | done]; intros r; rewrite Hs, quotation_snoc; split; [tauto |].
      intros [? | (a & m & E & _ & _ & [(? & _) | (_ & Hn & Hn')])]; [done | done |]; exfalso; apply Hn'; by apply (Hc a m).
Qed.

Lemma quote_scan_exact p q spans ascii curly :
  scan_state p spans ascii curly ->
  let '(spans', ascii', curly') := foldl quote_step (spans, ascii, curly) (char_indices_from (slen p) q) in
  scan_state (p ++ q) spans' ascii' curly'.
Proof.
  revert p spans ascii curly; induction q as [|x q IH]; intros p spans ascii curly H; cbn [char_indices_from foldl]; [by rewrite app_nil_r |].
  pose proof (quote_step_exact p spans ascii curly x H) as Hx; destruct (quote_step _ _) as [[spans' ascii'] curly'].
  rewrite next_index; change (x :: q) with ([x] ++ q); rewrite app_assoc; by apply IH.
Qed.

(** The scan finds the quotations of the text, all of them and no other. *)
Lemma quote_pairs_exact s r : r ∈ quote_pairs s <-> quotation s r.
Proof.
  pose proof (quote_scan_exact [] s [] None None) as H; cbn [app slen] in H; unfold quote_pairs, char_indices.
  destruct (foldl quote_step _ _) as [[spans ascii] curly]; apply H; split; [| done |].
  - intros r'; split; [by intros ?%elem_of_nil |]; intros (p & o & m & c & q & E & _); by destruct p.
  - intros a m E; by destruct a.
Qed.

(** No quotation of the text encloses the range. *)
Definition unquoted (s : text) (i j : Z) : Prop := forall r, quotation s r -> ~ (range_start r <= i /\ j <= range_end r).

Lemma unquoted_exact s i j : existsb (encloses i j) (quote_pairs s) = false <-> unquoted s i j.
Proof.
  unfold unquoted; split.
  - intros H r Hr [H1 H2]; apply quote_pairs_exact in Hr; apply not_true_iff_false in H; apply H, existsb_exists; exists r.
    split; [by apply list_elem_of_In | apply andb_true_iff; split; by apply Z.leb_le].
  - intros H; apply not_true_iff_false; intros (r & Hr & [H1%Z.leb_le H2%Z.leb_le]%andb_true_iff)%existsb_exists.
    apply (H r); [apply quote_pairs_exact; by apply list_elem_of_In | done].
Qed.

(** The lookup among the quotations is exact: one binary search over
    the sorted spans with their running maximum of ends answers whether some
    quotation of the text encloses the range. *)
Theorem quote_lookup_exact s i j :
  exists b, is_inside_quotes i j (quoted_spans s) = Ok b /\ (b = false <-> unquoted s i j).
Proof. eexists; split; [apply is_inside_quotes_spec | apply unquoted_exact]. Qed.

(** ** Findings *)

Section Theorems.
Context {UT : UnicodeTables}.

(** A finding in place: a rule of the catalog made it, its evidence is the
    nonempty piece of the text at its span, the line and column are those of
    the span's start, and no quotation encloses it. *)
Record located (s : text) (f : EditorialFinding.t) (p q : text) : Prop := {
  loc_rule : exists rule, rule ∈ ALL /\ EditorialFinding.rule_id f = id_ rule;
  loc_text : s = p ++ EditorialFinding.evidence f ++ q;
  loc_evidence : EditorialFinding.evidence f <> [];
  loc_span : EditorialFinding.span f = Some {|
    span_start := slen p; span_end := slen p + slen (EditorialFinding.evidence f);
    span_line := 1 + newlines p; span_column := 1 + (slen p - line_start p) |};
  loc_open : unquoted s (slen p) (slen p + slen (EditorialFinding.evidence f));
  loc_occurrence : 0 <= EditorialFinding.occurrence f <= u16_max
}.

Lemma all_rules rule : rule ∈ ALL.
Proof. destruct rule; vm_compute; repeat (first [left; fail | right]); left. Qed.

Lemma finding_located s rule f :
  slen s < u32_max -> finding_ok s rule f -> exists p q, located s f p q.
Proof.
  intros Hl [Hr (p & q & Hs & Hne & Hq & Hsp) Ho]; exists p, q; split; try done.
  - exists rule; split; [apply all_rules | done].
  - rewrite Hsp; by apply (locate_piece s p _ q).
  - rewrite is_inside_quotes_spec in Hq; injection Hq; apply unquoted_exact.
Qed.

(** C39. The lint is total and sound on every text whose offsets fit [u32]:
    it returns a list, without a panic, and every finding of the list names a
    rule of the catalog, quotes as its evidence the nonempty piece of the
    text at its span, carries the one-based line and byte column of the
    span's start, and is enclosed by no quotation (two straight marks paired
    from the start of the text, or an opening and a closing curly mark with
    neither between them). *)
Theorem lint_findings_sound s :
  slen s < u32_max ->
  exists fs, lint_text s = Ok fs /\ Forall (fun f => exists p q, located s f p q) fs.
Proof.
  intros Hl; destruct (lint_spec s Hl) as (l & Hok & _ & -> & _); eexists; split; [done |].
  eapply Forall_impl; [by apply news_ok |]; intros f [rule Hf]; by eapply finding_located.
Qed.

Lemma lint_bounded_spec s :
  slen s < u32_max -> exists fs, lint_text s = Ok fs /\
    forall maximum, 0 <= maximum ->
      lint_text_bounded s maximum = Ok (if vlen fs <=? maximum then Ok fs else Err LimitExceeded).
Proof. intros Hl; destruct (lint_spec s Hl) as (l & _ & _ & -> & _ & Hb); eauto. Qed.

(** A ceiling never yields a partial result: the bounded lint returns
    exactly the findings of the unbounded one when their number is at most
    the ceiling, and the limit error otherwise, although its rules stop
    early once the ceiling is passed. *)
Theorem lint_bounded_exact s maximum :
  slen s < u32_max -> 0 <= maximum ->
  exists fs, lint_text s = Ok fs /\
    EditorialLintService.lint_bounded s maximum = Ok (if vlen fs <=? maximum then Ok fs else Err LimitExceeded).
Proof. intros Hl H0; destruct (lint_bounded_spec s Hl) as (fs & Hf & Hb); exists fs; split; [done | by apply Hb]. Qed.

(** A bounded comparison has one combined ceiling: it is the unbounded
    comparison when the findings of both texts together fit the ceiling, and
    the limit error otherwise. *)
Theorem compare_bounded_exact source candidate maximum :
  slen source < u32_max -> slen candidate < u32_max -> 0 <= maximum ->
  exists fs gs, lint_text source = Ok fs /\ lint_text candidate = Ok gs /\
    EditorialLintService.compare source candidate = Ok (EditorialComparison.compute fs gs) /\
    EditorialLintService.compare_bounded source candidate maximum =
    Ok (if vlen fs + vlen gs <=? maximum then Ok (EditorialComparison.compute fs gs) else Err LimitExceeded).
Proof.
  intros Hs Hc H0; destruct (lint_bounded_spec source Hs) as (fs & Hf & Hfb), (lint_bounded_spec candidate Hc) as (gs & Hg & Hgb).
  exists fs, gs; split_and!; [done | done | |].
  { unfold EditorialLintService.compare, compare_editorial_findings; by rewrite Hf; cbn [mbind result_bind]; rewrite Hg. }
  unfold EditorialLintService.compare_bounded; rewrite Hfb by done; cbn [mbind result_bind].
  pose proof (vlen_nonneg gs); destruct (Z.leb_spec (vlen fs) maximum) as [Hle|Hgt].
  - rewrite Hgb by (unfold saturating_sub; lia); cbn [mbind result_bind]; unfold saturating_sub; rewrite Z.max_r by lia.
    destruct (Z.leb_spec (vlen gs) (maximum - vlen fs)), (Z.leb_spec (vlen fs + vlen gs) maximum); try done; lia.
  - by rewrite (proj2 (Z.leb_gt (vlen fs + vlen gs) maximum)) by lia.
Qed.

(** Leaving a rule out removes exactly that rule's findings: the lint
    without it returns the findings of the other rules, unchanged and in
    order. *)
Theorem lint_excluding_exact s rule :
  slen s < u32_max ->
  exists fs, lint_text s = Ok fs /\ lint_text_excluding s rule = Ok (without rule fs).
Proof.
  intros Hl; destruct (lint_spec s Hl) as (l & Hok & _ & -> & He & _); eexists; split; [done |].
  by rewrite He, <- (news_without s rule l [] Hok).
Qed.

(** The phrase lists that patterns.rs hands to [emit_phrases]. *)
Definition emitted_phrases : list (RuleCatalog * list text) :=
  [(PromotionalPuffery, puffery); (OrnamentalAbstraction, ornament); (EmptySignificance, significance);
   (GenericPositiveClose, closes); (PerformativeCollaboration, collaboration); (ThroatClearing, throat);
   (CannedTransition, canned); (VagueAttribution, attribution); (RedundantQualifier, qualifiers)].

(** A character written for a character of a phrase: the character itself,
    its capital when it is a letter from a to z, or for an apostrophe a
    curly quote, a backtick or an acute accent. *)
Definition written_for (c expected : Z) : Prop :=
  c = expected \/ (97 <= expected <= 122 /\ c = expected - 32) \/
  (expected = 39 /\ c ∈ [0x2019; 0x2018; 96; 0xB4]).

(** No letter or digit. *)
Definition word_edge (c : option Z) : Prop := match c with None => True | Some c => is_alphanumeric c = false end.

(** The characters of the phrases are lower case with straight apostrophes. *)
Definition plain_phrase_char (c : Z) : bool :=
  negb (in_range 65 90 c || existsb (Z.eqb c) [0x2019; 0x2018; 96; 0xB4]).

Lemma emitted_plain rule phrases phrase :
  (rule, phrases) ∈ emitted_phrases -> phrase ∈ phrases -> forallb plain_phrase_char phrase = true /\ phrase <> [].
Proof.
  assert (H : forallb (fun e : RuleCatalog * list text =>
    forallb (fun ph => forallb plain_phrase_char ph && negb (bool_decide (ph = []))) (snd e)) emitted_phrases = true) by (vm_compute; reflexivity).
  intros Hin Hp; rewrite forallb_forall in H; apply list_elem_of_In in Hin, Hp; specialize (H _ Hin); cbn [snd] in H.
  rewrite forallb_forall in H; specialize (H _ Hp); apply andb_true_iff in H as [H1 H2]; split; [done |].
  by apply negb_true_iff, bool_decide_eq_false in H2.
Qed.

Lemma written_folds c expected : plain_phrase_char expected = true -> written_for c expected -> fold_char c = expected.
Proof.
  unfold plain_phrase_char, written_for, fold_char, to_ascii_lowercase, is_ascii_uppercase; cbn [existsb]; intros Hp Hw.
  apply negb_true_iff in Hp; rewrite !orb_false_iff, !Z.eqb_neq in Hp; destruct Hp as (Hup & H1 & H2 & H3 & H4 & _).
  destruct Hw as [-> | [[Hr ->] | [-> Hin]]].
  - rewrite (proj2 (Z.eqb_neq expected 0x2019)), (proj2 (Z.eqb_neq expected 0x2018)), (proj2 (Z.eqb_neq expected 96)),
      (proj2 (Z.eqb_neq expected 0xB4)) by done; cbn [orb]; by rewrite Hup.
  - rewrite !(proj2 (Z.eqb_neq _ _)) by lia; cbn [orb]; unfold in_range.
    rewrite (proj2 (Z.leb_le 65 _)), (proj2 (Z.leb_le _ 90)) by lia; cbn [andb]; lia.
  - rewrite !elem_of_cons, elem_of_nil in Hin; destruct Hin as [-> | [-> | [-> | [-> | []]]]]; done.
Qed.

Lemma written_phrase m phrase :
  forallb plain_phrase_char phrase = true -> Forall2 written_for m phrase -> map fold_char m = phrase.
Proof.
  intros Hp H; induction H as [|c e m phrase Hc H IH]; [done |]; cbn [forallb map] in *; apply andb_true_iff in Hp as [He Hp].
  rewrite IH by done; f_equal; by apply written_folds.
Qed.

Lemma word_bounded_edges p m q :
  word_edge (last p) -> word_edge (head q) -> word_bounded (p ++ m ++ q) (slen p) (slen p + slen m) = Ok true.
Proof.
  intros Hp Hq; unfold word_bounded; rewrite text_to_at, app_assoc, <- slen_app, text_from_at; cbn [mbind result_bind].
  unfold no_word; destruct (last p), (head q); cbn [word_edge] in *; by rewrite ?Hp, ?Hq.
Qed.

Lemma catalog_entry s base rule phrases :
  (rule, phrases) ∈ emitted_phrases ->
  exists c, Build_Entry rule (finds s phrases) c ∈ slop_program s ++ style_program s base.
Proof.
  unfold emitted_phrases; rewrite !elem_of_cons, elem_of_nil; intros H.
  repeat destruct H as [[= -> ->] | H]; [.. | done]; eexists; rewrite elem_of_app; unfold slop_program, style_program;
    rewrite !elem_of_app; unfold style_tail; rewrite !elem_of_cons; auto 16.
Qed.

(** C40. None of the phrases that patterns.rs searches with [emit_phrases] is
    missed.  Wherever such a phrase stands in a text, with any of its letters
    a to z in either case and any spelling of its apostrophes, at the start
    or after a character that is no letter or digit, at the end or before
    one, and outside every quotation, a finding of the phrase's rule
    overlaps it.  (The phrases that slop_rules.rs and style_rules.rs compare
    exactly, by case, and the folded patterns of residue.rs are not among
    them.) *)
Theorem lint_phrases_complete s rule phrases phrase p m q :
  slen s < u32_max -> (rule, phrases) ∈ emitted_phrases -> phrase ∈ phrases ->
  s = p ++ m ++ q -> Forall2 written_for m phrase ->
  word_edge (last p) -> word_edge (head q) -> unquoted s (slen p) (slen p + slen m) ->
  exists fs f sp, lint_text s = Ok fs /\ f ∈ fs /\ EditorialFinding.rule_id f = id_ rule /\
    EditorialFinding.span f = Some sp /\ slen p < span_end sp /\ span_start sp < slen p + slen m.
Proof.
  intros Hl Hcat Hphrase Hs Hwritten Hbefore Hafter Hopen.
  destruct (emitted_plain _ _ _ Hcat Hphrase) as [Hplain Hnonempty].
  assert (Hin : map fold_char m ∈ phrases) by by rewrite (written_phrase _ _ Hplain Hwritten).
  assert (Hw : word_bounded s (slen p) (slen p + slen m) = Ok true) by (rewrite Hs; by apply word_bounded_edges).
  assert (Hq : is_inside_quotes (slen p) (slen p + slen m) (quoted_spans s) = Ok false).
  { rewrite is_inside_quotes_spec; f_equal; by apply unquoted_exact. }
  assert (Hne : m <> []) by (intros ->; by apply Forall2_nil_inv_l in Hwritten).
  destruct (lint_spec s Hl) as (l & Hok & Hm & -> & _).
  destruct (catalog_entry s (match exact_covers s (quoted_spans s) with Ok base => base | _ => [] end) rule phrases Hcat) as [c He].
  rewrite <- Hm in He; apply list_elem_of_fmap in He as ([e i] & He & Hei); cbn [fst] in He; subst e.
  destruct (news_promise s l [] _ _ Hok Hei) as (n1 & n & n2 & Hn & Hp & Hf); cbn [e_promise e_rule] in *.
  specialize (Hp Hl); rewrite Forall_forall in Hp; specialize (Hp _ Hin p m q Hs).
  assert (Hc : covered (own rule n1 ++ n) (slen p) (slen p + slen m) = true).
  { apply Hp; [done | done |]; unfold open_place; by rewrite Hw, Hq. }
  unfold covered in Hc; apply existsb_exists in Hc as (f & Hfin & Hsp); apply list_elem_of_In in Hfin.
  destruct (EditorialFinding.span f) as [sp|] eqn:Hspan; [| done].
  apply andb_true_iff in Hsp as [H1 H2]; apply Z.ltb_lt in H1, H2.
  eexists _, f, sp; split_and!; try done; rewrite elem_of_app in Hfin.
  - rewrite Hn, !elem_of_app; destruct Hfin as [Hfin|Hfin]; [left | tauto].
    apply list_elem_of_In in Hfin; unfold own in Hfin; apply filter_In in Hfin as [Hfin _]; by apply list_elem_of_In.
  - destruct Hfin as [Hfin|Hfin].
    + apply list_elem_of_In in Hfin; unfold own in Hfin; apply filter_In in Hfin as [_ Hr]; by apply bool_decide_eq_true_1 in Hr.
    + rewrite Forall_forall in Hf; by apply (fo_rule s rule f), Hf.
Qed.

End Theorems.

(** ** Comparison *)

Abbreviation keys := (map EditorialFinding.key).

Lemma split_findings_spec remaining fs kept lost :
  counts_ok remaining -> EditorialComparison.split_findings remaining fs = (kept, lost) ->
  kept `sublist_of` fs /\ lost `sublist_of` fs /\ kept ++ lost ≡ₚ fs /\
  forall k, occ k (keys kept) = Z.min (occ k (keys fs)) (count_of remaining k).
Proof.
  revert remaining kept lost; induction fs as [|f fs IH]; intros remaining kept lost Hok; cbn [EditorialComparison.split_findings].
  { intros [= <- <-]; split_and!; try done; intros k; cbn; pose proof (Hok k); lia. }
  pose proof (consume_spec remaining (EditorialFinding.key f) Hok) as Hc.
  destruct (consume remaining (EditorialFinding.key f)) as [remaining'|].
  - destruct Hc as (Hpos & Hok' & Hcount).
    destruct (EditorialComparison.split_findings remaining' fs) as [kept' lost'] eqn:E; intros [= <- <-].
    destruct (IH _ _ _ Hok' E) as (Hk & Hl & Hp & Hocc); split_and!; [by constructor | by constructor | cbn; by rewrite Hp |].
    intros k; cbn [map occ]; rewrite Hocc, Hcount; pose proof (Hok' k) as H; rewrite Hcount in H.
    destruct (decide (EditorialFinding.key f = k)) as [<- |]; lia.
  - destruct (EditorialComparison.split_findings remaining fs) as [kept' lost'] eqn:E; intros [= <- <-].
    destruct (IH _ _ _ Hok E) as (Hk & Hl & Hp & Hocc); split_and!; [by constructor | by constructor | by rewrite <- Permutation_middle, Hp |].
    intros k; cbn [map occ]; rewrite Hocc; pose proof (occ_nonneg k (keys fs)).
    destruct (decide (EditorialFinding.key f = k)) as [<- |]; lia.
Qed.

Lemma occ_keys k (l kept lost : list EditorialFinding.t) :
  kept ++ lost ≡ₚ l -> occ k (keys lost) = occ k (keys l) - occ k (keys kept).
Proof.
  intros Hp; assert (Hq : keys kept ++ keys lost ≡ₚ keys l) by by rewrite <- map_app, Hp.
  apply (perm_occ k) in Hq; rewrite occ_app in Hq; lia.
Qed.

Lemma is_empty_spec {A} (l : list A) : (vlen l =? 0) = bool_decide (l = []).
Proof.
  destruct l as [|x l]; [done |]; rewrite bool_decide_eq_false_2 by done; apply Z.eqb_neq.
  rewrite vlen_cons; pose proof (vlen_nonneg l); lia.
Qed.

Lemma no_occ (l : list EditorialFinding.t) : l = [] <-> forall k, occ k (keys l) <= 0.
Proof.
  split; [by intros -> |]; destruct l as [|f l]; [done |]; intros H; specialize (H (EditorialFinding.key f)); cbn in H.
  rewrite decide_True in H by done; pose proof (occ_nonneg (EditorialFinding.key f) (keys l)); lia.
Qed.

(** A comparison of two lists of findings is the difference of two
    multisets of keys (rule, evidence, occurrence): the source splits into
    what the candidate keeps and what it resolves, each in source order; of
    every key the smaller count is retained and each surplus is resolved or
    introduced.  The verdicts follow: no defect is introduced exactly when
    the candidate's findings are a sub-multiset of the source's, and the
    candidate is a strict improvement exactly when it is a proper one. *)
Theorem editorial_comparison_exact fs gs :
  let c := EditorialComparison.compute fs gs in
  EditorialComparison.source_findings c = fs /\ EditorialComparison.candidate_findings c = gs /\
  EditorialComparison.retained_findings c `sublist_of` fs /\ EditorialComparison.resolved_findings c `sublist_of` fs /\
  EditorialComparison.introduced_findings c `sublist_of` gs /\
  EditorialComparison.retained_findings c ++ EditorialComparison.resolved_findings c ≡ₚ fs /\
  (forall k, let a := occ k (keys fs) in let b := occ k (keys gs) in
     occ k (keys (EditorialComparison.retained_findings c)) = Z.min a b /\
     occ k (keys (EditorialComparison.resolved_findings c)) = Z.max 0 (a - b) /\
     occ k (keys (EditorialComparison.introduced_findings c)) = Z.max 0 (b - a)) /\
  (EditorialComparison.has_introduced_defects c = false <-> forall k, occ k (keys gs) <= occ k (keys fs)) /\
  (EditorialComparison.is_strict_improvement c = true <->
     (forall k, occ k (keys gs) <= occ k (keys fs)) /\ ~ (forall k, occ k (keys fs) <= occ k (keys gs))).
Proof.
  unfold EditorialComparison.compute.
  destruct (EditorialComparison.split_findings _ fs) as [retained resolved] eqn:E1.
  destruct (EditorialComparison.split_findings _ gs) as [kept introduced] eqn:E2.
  apply split_findings_spec in E1 as (S1 & S2 & P1 & O1); [| apply tally_ok].
  apply split_findings_spec in E2 as (_ & S3 & P2 & O2); [| apply tally_ok].
  unfold EditorialComparison.finding_counts, count_of in O1, O2; cbn zeta.
  assert (Hr : forall k, occ k (keys resolved) = Z.max 0 (occ k (keys fs) - occ k (keys gs))).
  { intros k; rewrite (occ_keys k fs retained resolved P1), O1, tally_default; lia. }
  assert (Hi : forall k, occ k (keys introduced) = Z.max 0 (occ k (keys gs) - occ k (keys fs))).
  { intros k; rewrite (occ_keys k gs kept introduced P2), O2, tally_default; lia. }
  assert (Hnone : introduced = [] <-> forall k, occ k (keys gs) <= occ k (keys fs)).
  { rewrite no_occ; split; intros H k; specialize (H k); rewrite ?Hi in *; lia. }
  assert (Hsome : resolved = [] <-> forall k, occ k (keys fs) <= occ k (keys gs)).
  { rewrite no_occ; split; intros H k; specialize (H k); rewrite ?Hr in *; lia. }
  unfold EditorialComparison.has_introduced_defects, EditorialComparison.is_strict_improvement.
  cbn [EditorialComparison.source_findings EditorialComparison.candidate_findings EditorialComparison.retained_findings
       EditorialComparison.resolved_findings EditorialComparison.introduced_findings].
  rewrite !is_empty_spec; split_and!; try done.
  - intros k; rewrite O1, tally_default, Hr, Hi; lia.
  - rewrite negb_false_iff, bool_decide_eq_true; done.
  - rewrite andb_true_iff, negb_true_iff, bool_decide_eq_false, bool_decide_eq_true, Hnone, Hsome; tauto.
Qed.
