(* ===== verification/DocumentReview.v ===== *)
(** * Document review ([app/src/document_review.rs], [document_review/contract.rs],
    [source_inspection.rs]).

    The review of a document without a model: inspect the complete inputs,
    check a supplied candidate, lint, and cut bounded previews.  The
    cancellation token is polled between the steps and once more before the
    result is returned. *)

From S2P Require Import Prelude Text Regex Document TextSafety Rewrite Evidence TextAdapter Extract Protection Policy Engine.
From S2P Require Import CandidateCheck LintText Lint LintTheorems.

(** ** Inspection ([source_inspection.rs]) *)

(** [inspect_plain_text]. *)
Definition inspect_plain_text `{Sha256} (source : bytes) : Result AppError PlainTextInventory :=
  map_err AppTextAdapter (inventory source).

(** ** The contract *)

Module DocumentReviewRequest.
Record t := {
  source : bytes;
  candidate : option bytes;
  protected_terms : list text
}.
End DocumentReviewRequest.

Inductive EditorialReview :=
| ReviewDocument (findings : list EditorialFinding.t)
| ReviewComparison (comparison : EditorialComparison.t).

Module DocumentReviewResult.
Record t := {
  source_preview : text;
  candidate_preview : option text;
  inspection : PlainTextInventory;
  candidate_inspection : option PlainTextInventory;
  check : option RewriteRecord.t;
  editorial : EditorialReview
}.
End DocumentReviewResult.

Module DocumentReviewError.
Inductive t :=
| CandidateRequired
| UnsupportedEncoding
| Cancelled
| FindingLimitExceeded
| Application (e : AppError).
End DocumentReviewError.

Definition MAX_DOCUMENT_REVIEW_FINDINGS : Z := 4096.
Definition MAX_DOCUMENT_REVIEW_PREVIEW_BYTES : Z := 65536.

(** ** Previews *)

Definition preview_marker : text := 10 :: lit "[Document preview truncated; validation used the complete input.]".

(** [while !text.is_char_boundary(end) { end -= 1; }].  The fuel is the first
    [end]: the decrement of zero, which would overflow, is a panic. *)
Fixpoint floor_char_boundary (fuel : nat) (s : text) (i : Z) : Result DocumentReviewError.t Z :=
  if is_char_boundary s i then Ok i
  else match fuel with O => Panic | S fuel' => floor_char_boundary fuel' s (i - 1) end.

(** [preview]. *)
Definition preview (s : text) : Result DocumentReviewError.t text :=
  if slen s <=? MAX_DOCUMENT_REVIEW_PREVIEW_BYTES then Ok s
  else
    let limit := saturating_sub MAX_DOCUMENT_REVIEW_PREVIEW_BYTES (slen preview_marker) in
    i ← floor_char_boundary (Z.to_nat limit) s limit;
    p ← expect (get_to s i);
    Ok (p ++ preview_marker).

(** ** The service *)

(** The answers of the token: [own] to the polls the review itself makes, in
    their order, and [during_check] to those the candidate check makes
    between the review's fifth and sixth. *)
Record ReviewSignal := { own : Schedule; during_check : Schedule }.

(** [ensure_active] with the answer to its poll. *)
Definition ensure_active (cancelled : bool) : Result DocumentReviewError.t unit :=
  if cancelled then Err DocumentReviewError.Cancelled else Ok tt.

(** A lint result, which cannot fail otherwise than by its ceiling. *)
Definition total {E A} (m : Total A) : Result E A :=
  match m with Ok a => Ok a | Err e => match e with end | Panic => Panic end.

Section Review.
Context {UT : UnicodeTables} {RE : RegexEngine} {AC : AhoCorasick} {SHA : Sha256}.
#[local] Existing Instance engine_lint.

(** [inspect]; its polls are those numbered [n] and [n + 1]. *)
Definition inspect (input : bytes) (signal : Schedule) (n : nat)
  : Result DocumentReviewError.t (text * PlainTextInventory) :=
  _ ← ensure_active (signal n);
  inventory ← map_err DocumentReviewError.Application (inspect_plain_text input);
  match encoding inventory with
  | Utf8 =>
      s ← map_err (fun _ => DocumentReviewError.UnsupportedEncoding) (from_utf8 input);
      _ ← ensure_active (signal (S n));
      Ok (s, inventory)
  | _ => Err DocumentReviewError.UnsupportedEncoding
  end.

(** The check and the lint of [review_with_post_lint], with the number of
    polls made before the one after the lint. *)
Definition check_and_lint (source : text) (candidate : option text) (terms : list text) (signal : ReviewSignal)
  : Result DocumentReviewError.t
      (option RewriteRecord.t * Result FindingLimitExceeded EditorialReview * nat) :=
  match candidate with
  | Some candidate =>
      result ← map_err DocumentReviewError.Application
        (check_with_cancellation (new_request (as_bytes source) candidate terms) (during_check signal));
      if bool_decide (RewriteRecord.reason (record result) = Some Cancelled)
      then Err DocumentReviewError.Cancelled
      else
        _ ← ensure_active (own signal 5%nat);
        editorial ← total (EditorialLintService.compare_bounded source candidate MAX_DOCUMENT_REVIEW_FINDINGS);
        Ok (Some (record result), c ← editorial; Ok (ReviewComparison c), 6%nat)
  | None =>
      editorial ← total (EditorialLintService.lint_bounded source MAX_DOCUMENT_REVIEW_FINDINGS);
      Ok (None, fs ← editorial; Ok (ReviewDocument fs), 3%nat)
  end.

(** [DocumentReviewService::review]: [review_with_post_lint] with nothing to
    do after the lint. *)
Definition review (request : DocumentReviewRequest.t) (signal : ReviewSignal)
  : Result DocumentReviewError.t DocumentReviewResult.t :=
  _ ← ensure_active (own signal 0%nat);
  if bool_decide (DocumentReviewRequest.candidate request = None)
     && negb (bool_decide (DocumentReviewRequest.protected_terms request = []))
  then Err DocumentReviewError.CandidateRequired
  else
    '(source, inspection) ← inspect (DocumentReviewRequest.source request) (own signal) 1%nat;
    candidate ← match DocumentReviewRequest.candidate request with
                | Some input => x ← inspect input (own signal) 3%nat; Ok (Some x)
                | None => Ok None
                end;
    '(check, editorial, n) ← check_and_lint source (fst <$> candidate)
        (DocumentReviewRequest.protected_terms request) signal;
    _ ← ensure_active (own signal n);
    editorial ← map_err (fun _ => DocumentReviewError.FindingLimitExceeded) editorial;
    source_preview ← preview source;
    candidate_preview ← match candidate with Some (s, _) => p ← preview s; Ok (Some p) | None => Ok None end;
    _ ← ensure_active (own signal (S n));
    Ok {| DocumentReviewResult.source_preview := source_preview;
          DocumentReviewResult.candidate_preview := candidate_preview;
          DocumentReviewResult.inspection := inspection;
          DocumentReviewResult.candidate_inspection := snd <$> candidate;
          DocumentReviewResult.check := check;
          DocumentReviewResult.editorial := editorial |}.

End Review.

(** ** Previews are bounded excerpts *)

(** What a preview shows: the whole text, or the longest beginning of it that
    fits in the limit with the marker. *)
Definition excerpt (s p : text) : Prop :=
  (slen s <= MAX_DOCUMENT_REVIEW_PREVIEW_BYTES /\ p = s) \/
  (MAX_DOCUMENT_REVIEW_PREVIEW_BYTES < slen s /\
   exists a b, s = a ++ b /\ p = a ++ preview_marker /\ slen p <= MAX_DOCUMENT_REVIEW_PREVIEW_BYTES /\
     forall a' b', s = a' ++ b' -> slen (a' ++ preview_marker) <= MAX_DOCUMENT_REVIEW_PREVIEW_BYTES ->
       slen a' <= slen a).

Lemma excerpt_fun s p q : excerpt s p -> excerpt s q -> p = q.
Proof.
  intros [[? ->] | (? & a & b & E & -> & Ha & Hmax)] [[? ->] | (? & a' & b' & E' & -> & Ha' & Hmax')]; try lia; [done |].
  pose proof (Hmax a' b' E' Ha'); pose proof (Hmax' a b E Ha).
  rewrite E in E'; apply app_slen_inj in E' as [-> _]; [done | lia].
Qed.

Lemma boundary_0 s : is_char_boundary s 0 = true.
Proof. apply is_char_boundary_spec; by exists [], s. Qed.

Lemma floor_spec fuel s i :
  0 <= i <= Z.of_nat fuel ->
  exists j, floor_char_boundary fuel s i = Ok j /\ 0 <= j <= i /\ is_char_boundary s j = true /\
    forall k, j < k <= i -> is_char_boundary s k = false.
Proof.
  revert i; induction fuel as [|fuel IH]; intros i Hi; cbn [floor_char_boundary].
  - replace i with 0 by lia; rewrite boundary_0; exists 0; split_and!; [done | lia | lia | apply boundary_0 | lia].
  - destruct (is_char_boundary s i) eqn:E; [exists i; split_and!; [done | lia | lia | done | lia] |].
    destruct (Z.eqb_spec i 0) as [-> |]; [by rewrite boundary_0 in E |].
    destruct (IH (i - 1)) as (j & Hj & Hb & Hbd & Hmax); [lia |].
    exists j; split_and!; [done | lia | lia | done |]; intros k Hk.
    destruct (Z.eqb_spec k i) as [-> |]; [done | apply Hmax; lia].
Qed.

Lemma preview_spec s : exists p, preview s = Ok p /\ excerpt s p.
Proof.
  unfold preview, excerpt; destruct (Z.leb_spec (slen s) MAX_DOCUMENT_REVIEW_PREVIEW_BYTES) as [|Hl]; [eauto |].
  assert (Hm : slen preview_marker = 66) by done; rewrite Hm; unfold saturating_sub.
  set (limit := Z.max 0 _); assert (El : limit = 65470) by done.
  destruct (floor_spec (Z.to_nat limit) s limit) as (j & -> & Hj & Hb & Hmax); [lia |].
  apply is_char_boundary_spec in Hb as (a & b & -> & Ha); cbn [mbind result_bind].
  unfold get_to; rewrite <- Ha, split_at_app; cbn; exists (a ++ preview_marker); split; [done |].
  right; split; [done |]; exists a, b; unfold MAX_DOCUMENT_REVIEW_PREVIEW_BYTES in *.
  split_and!; [done | done | rewrite slen_app, Hm; lia |]; intros a' b' E; rewrite slen_app, Hm; intros Hs.
  destruct (Z.le_gt_cases (slen a') j); [lia |]; specialize (Hmax (slen a') ltac:(lia)); rewrite E in Hmax.
  assert (is_char_boundary (a' ++ b') (slen a') = true) by (apply is_char_boundary_spec; eauto); congruence.
Qed.

(** ** Inspection *)

(** The body of an encoded text is the encoding of the text without its
    mark, so a text is found to be UTF-8 whether or not it has one. *)
Lemma as_bytes_split s :
  scalars s -> exists body, scalars body /\
    as_bytes s = bom_bytes (starts_with (as_bytes s) UTF8_BOM) ++ as_bytes body.
Proof.
  intros Hs; destruct (starts_with (as_bytes s) UTF8_BOM) eqn:E; [| by exists s].
  apply starts_with_bom in E; [| done]; destruct s as [|c s]; [done |]; cbn [head] in E; injection E as ->.
  inversion Hs; subst; by exists s.
Qed.

Lemma bom_bytes_text bom : exists m, scalars m /\ bom_bytes bom = as_bytes m.
Proof. destruct bom; [exists [0xFEFF] | exists []]; (split; [repeat constructor | done]). Qed.

Section Inspection.
Context {SHA : Sha256}.

(** What the inventory of an input says of it. *)
Record inspected (input : bytes) (inv : PlainTextInventory) : Prop := {
  insp_inventory : inventory input = Ok inv;
  insp_digest : inv_digest inv = sha256 input;
  insp_size : byte_size inv = vlen input
}.

Lemma inventory_cases (input : bytes) :
  Forall is_byte input ->
  (MAX_PLAIN_TEXT_BYTES < vlen input /\ inventory input = Err (InputTooLarge (vlen input) MAX_PLAIN_TEXT_BYTES)) \/
  (vlen input <= MAX_PLAIN_TEXT_BYTES /\ exists inv, inspected input inv /\
     ((encoding inv = Utf8 /\ exists s, scalars s /\ input = as_bytes s) \/
      (encoding inv <> Utf8 /\ forall s, scalars s -> input <> as_bytes s))).
Proof.
  intros Hb; destruct (Z.ltb_spec MAX_PLAIN_TEXT_BYTES (vlen input)) as [Hl | Hl];
    [left; split; [done |]; unfold inventory; by rewrite (proj2 (Z.ltb_lt _ _) Hl) | right; split; [done |]].
  assert (Hsize : default u64_max (try_from u64_max (vlen input)) = vlen input).
  { pose proof (vlen_nonneg input); unfold try_from, MAX_PLAIN_TEXT_BYTES, u64_max in *.
    rewrite (proj2 (Z.leb_le 0 _)), (proj2 (Z.leb_le _ 18446744073709551615)) by lia; done. }
  assert (H16 : forall s, scalars s -> input = as_bytes s ->
    starts_with input UTF16_LE_BOM || starts_with input UTF16_BE_BOM = false).
  { intros s Hs ->; exact (not_utf16 false s Hs). }
  destruct (starts_with input UTF16_LE_BOM) eqn:E1; [| destruct (starts_with input UTF16_BE_BOM) eqn:E2].
  1,2: eexists; split;
    [constructor; [unfold inventory; rewrite (proj2 (Z.ltb_ge _ _) Hl), ?E1, ?E2, Hsize; reflexivity | done | done] |];
    right; split; [done |]; intros s Hs Hin; by specialize (H16 s Hs Hin).
  destruct (from_utf8 (body_of input)) as [s | n |] eqn:Hd; [| | by apply from_utf8_loop_no_panic in Hd];
    (eexists; split;
       [constructor; [unfold inventory; rewrite (proj2 (Z.ltb_ge _ _) Hl), E1, E2, Hsize; fold (body_of input); rewrite Hd; reflexivity | done | done] |]).
  - left; split; [done |]; apply parse_body in Hd as (Hs & Hin & _); [| done | done].
    destruct (bom_bytes_text (starts_with input UTF8_BOM)) as (m & Hm & Em); rewrite Em in Hin.
    exists (m ++ s); split; [by apply Forall_app | by rewrite as_bytes_app].
  - right; split; [done |]; intros s Hs ->; destruct (as_bytes_split s Hs) as (body & Hbody & E).
    pose proof (body_split (as_bytes s)) as E'; rewrite E in E' at 1; apply app_inv_head in E'.
    by rewrite <- E', from_utf8_as_bytes in Hd.
Qed.

(** Inspection by cases: a decoded text, or the reason there is none. *)
Lemma inspect_cases (input : bytes) (signal : Schedule) (n : nat) :
  Forall is_byte input ->
  match inspect input signal n with
  | Ok (s, inv) =>
      signal n = false /\ signal (S n) = false /\ scalars s /\ input = as_bytes s /\
      vlen input <= MAX_PLAIN_TEXT_BYTES /\ inspected input inv
  | Err DocumentReviewError.Cancelled => signal n = true \/ signal (S n) = true
  | Err DocumentReviewError.UnsupportedEncoding => forall s, scalars s -> input <> as_bytes s
  | Err (DocumentReviewError.Application e) =>
      e = AppTextAdapter (InputTooLarge (vlen input) MAX_PLAIN_TEXT_BYTES) /\ MAX_PLAIN_TEXT_BYTES < vlen input
  | _ => False
  end.
Proof.
  intros Hb; unfold inspect, inspect_plain_text; destruct (signal n) eqn:En; cbn [ensure_active mbind result_bind]; [by left |].
  destruct (inventory_cases input Hb) as [[Hl ->] | (Hl & inv & Hi & Hcase)]; cbn [map_err mbind result_bind]; [done |].
  rewrite (insp_inventory _ _ Hi); cbn [map_err mbind result_bind].
  destruct Hcase as [(-> & s & Hs & Hin) | [Hne Hno]]; [| by destruct (encoding inv)].
  assert (from_utf8 input = Ok s) as -> by (rewrite Hin; by apply from_utf8_as_bytes); cbn [map_err mbind result_bind].
  destruct (signal (S n)) eqn:En'; cbn [ensure_active mbind result_bind]; [by right | done].
Qed.

End Inspection.

(** ** What a review returns *)

Section ReviewTheorems.
Context {UT : UnicodeTables} {RE : RegexEngine} {AC : AhoCorasick} {SHA : Sha256}.
#[local] Existing Instance engine_lint.

Implicit Types (request : DocumentReviewRequest.t) (signal : ReviewSignal) (result : DocumentReviewResult.t).

(** The inputs are bytes. *)
Definition byte_inputs request : Prop :=
  Forall is_byte (DocumentReviewRequest.source request) /\
  forall input, DocumentReviewRequest.candidate request = Some input -> Forall is_byte input.

(** The polls of a review that runs to its end. *)
Definition review_polls request : nat :=
  match DocumentReviewRequest.candidate request with Some _ => 8 | None => 5 end.

(** The check a review asks for. *)
Definition checked request signal (cand : text) : Result AppError CandidateCheckResult :=
  check_with_cancellation
    (new_request (DocumentReviewRequest.source request) cand (DocumentReviewRequest.protected_terms request))
    (during_check signal).

(** The evidence of a review without a candidate: the findings of the source. *)
Record reviewed_alone request (source : text) result : Prop := {
  alone_terms : DocumentReviewRequest.protected_terms request = [];
  alone_preview : DocumentReviewResult.candidate_preview result = None;
  alone_inspection : DocumentReviewResult.candidate_inspection result = None;
  alone_check : DocumentReviewResult.check result = None;
  alone_editorial : exists fs, lint_text source = Ok fs /\ vlen fs <= MAX_DOCUMENT_REVIEW_FINDINGS /\
    DocumentReviewResult.editorial result = ReviewDocument fs
}.

(** The evidence of a review with one: the record of the check, and the
    comparison of the findings of both texts. *)
Record reviewed_against request signal (source : text) (input : bytes) result (cand : text) : Prop := {
  against_scalars : scalars cand;
  against_bytes : input = as_bytes cand;
  against_size : vlen input <= MAX_PLAIN_TEXT_BYTES;
  against_preview : exists p, DocumentReviewResult.candidate_preview result = Some p /\ excerpt cand p;
  against_inspection : exists inv, DocumentReviewResult.candidate_inspection result = Some inv /\ inspected input inv;
  against_check : exists r, checked request signal cand = Ok r /\
    RewriteRecord.reason (record r) <> Some Cancelled /\ DocumentReviewResult.check result = Some (record r);
  against_editorial : exists fs gs, lint_text source = Ok fs /\ lint_text cand = Ok gs /\
    vlen fs + vlen gs <= MAX_DOCUMENT_REVIEW_FINDINGS /\
    DocumentReviewResult.editorial result = ReviewComparison (EditorialComparison.compute fs gs)
}.

(** The whole evidence, about the complete inputs. *)
Record reviewed request signal result (source : text) : Prop := {
  rev_scalars : scalars source;
  rev_bytes : DocumentReviewRequest.source request = as_bytes source;
  rev_size : vlen (DocumentReviewRequest.source request) <= MAX_PLAIN_TEXT_BYTES;
  rev_inspected : inspected (DocumentReviewRequest.source request) (DocumentReviewResult.inspection result);
  rev_preview : excerpt source (DocumentReviewResult.source_preview result);
  rev_active : forall i, (i < review_polls request)%nat -> own signal i = false;
  rev_evidence :
    match DocumentReviewRequest.candidate request with
    | None => reviewed_alone request source result
    | Some input => exists cand, reviewed_against request signal source input result cand
    end
}.

(** The cause of each error. *)
Definition review_cause request signal (e : DocumentReviewError.t) : Prop :=
  match e with
  | DocumentReviewError.CandidateRequired =>
      DocumentReviewRequest.candidate request = None /\ DocumentReviewRequest.protected_terms request <> []
  | DocumentReviewError.UnsupportedEncoding =>
      (forall s, scalars s -> DocumentReviewRequest.source request <> as_bytes s) \/
      (exists input, DocumentReviewRequest.candidate request = Some input /\ forall s, scalars s -> input <> as_bytes s)
  | DocumentReviewError.Cancelled =>
      (exists i, (i < review_polls request)%nat /\ own signal i = true) \/
      (exists cand r, DocumentReviewRequest.candidate request = Some (as_bytes cand) /\ scalars cand /\
         checked request signal cand = Ok r /\ RewriteRecord.reason (record r) = Some Cancelled)
  | DocumentReviewError.FindingLimitExceeded =>
      exists source fs, scalars source /\ DocumentReviewRequest.source request = as_bytes source /\ lint_text source = Ok fs /\
        match DocumentReviewRequest.candidate request with
        | None => MAX_DOCUMENT_REVIEW_FINDINGS < vlen fs
        | Some input => exists cand gs, scalars cand /\ input = as_bytes cand /\ lint_text cand = Ok gs /\
            MAX_DOCUMENT_REVIEW_FINDINGS < vlen fs + vlen gs
        end
  | DocumentReviewError.Application e =>
      (exists input, (input = DocumentReviewRequest.source request \/ DocumentReviewRequest.candidate request = Some input) /\
         MAX_PLAIN_TEXT_BYTES < vlen input /\ e = AppTextAdapter (InputTooLarge (vlen input) MAX_PLAIN_TEXT_BYTES)) \/
      (exists cand, DocumentReviewRequest.candidate request = Some (as_bytes cand) /\ scalars cand /\
         checked request signal cand = Err e)
  end.

(** After the source is inspected, by cases on the candidate. *)
Lemma text_fits (input : bytes) (s : text) :
  input = as_bytes s -> vlen input <= MAX_PLAIN_TEXT_BYTES -> slen s < u32_max.
Proof. intros ->; rewrite as_bytes_length; unfold MAX_PLAIN_TEXT_BYTES, u32_max; lia. Qed.

Lemma polls_below {P : nat -> Prop} (n : nat) : (forall i, (i < S n)%nat -> P i) <-> P n /\ forall i, (i < n)%nat -> P i.
Proof.
  split; [intros H; split; [| intros i Hi]; apply H; lia |].
  intros [Hn H] i Hi; destruct (decide (i = n)) as [-> |]; [done | apply H; lia].
Qed.

Ltac polls := cbn [review_polls]; repeat (apply polls_below; split; [assumption |]); intros ? ?; lia.

Lemma review_alone_cases request signal :
  byte_inputs request -> DocumentReviewRequest.candidate request = None -> own signal 0%nat = false ->
  match review request signal with
  | Ok result => exists source, reviewed request signal result source
  | Err e => review_cause request signal e
  | Panic => False
  end.
Proof.
  intros [Hb _] Hc H0; unfold review; rewrite Hc, H0; cbn [ensure_active mbind result_bind].
  rewrite bool_decide_eq_true_2 by done; cbn [andb].
  destruct (bool_decide_reflect (DocumentReviewRequest.protected_terms request = [])) as [Ht |]; cbn [negb]; [| done].
  assert (Hp : review_polls request = 5%nat) by (unfold review_polls; by rewrite Hc).
  pose proof (inspect_cases (DocumentReviewRequest.source request) (own signal) 1%nat Hb) as Hi.
  destruct (inspect _ _ _) as [[s inv] | e |] eqn:E; cbn [mbind result_bind]; [| | done].
  2: { destruct e; cbn; try done; [by left | | destruct Hi as [-> ?]; left; eauto].
       left; rewrite Hp; destruct Hi as [Hi | Hi]; [exists 1%nat | exists 2%nat]; (split; [lia | exact Hi]). }
  destruct Hi as (H1 & H2 & Hs & Hin & Hl & Hinv).
  destruct (lint_bounded_spec s (text_fits _ _ Hin Hl)) as (fs & Hfs & Hlint).
  cbn [check_and_lint fmap option_fmap option_map fst]; unfold EditorialLintService.lint_bounded.
  rewrite Hlint by done; cbn [total mbind result_bind].
  destruct (own signal 3%nat) eqn:H3; cbn [ensure_active mbind result_bind]; [left; rewrite Hp; exists 3%nat; split; [lia | done] |].
  destruct (Z.leb_spec (vlen fs) MAX_DOCUMENT_REVIEW_FINDINGS) as [Hm | Hm]; cbn [map_err mbind result_bind];
    [| exists s, fs; rewrite Hc; done].
  destruct (preview_spec s) as (p & -> & Hprev); cbn [mbind result_bind].
  destruct (own signal 4%nat) eqn:H4; cbn [ensure_active mbind result_bind]; [left; rewrite Hp; exists 4%nat; split; [lia | done] |].
  exists s; constructor; try done; [rewrite Hp; polls | rewrite Hc; constructor; try done; eauto].
Qed.

(** The check and the comparison, once both texts are inspected. *)
Lemma check_and_lint_cases request signal (source cand : text) (input : bytes) :
  byte_inputs request -> scalars source -> DocumentReviewRequest.source request = as_bytes source ->
  vlen (DocumentReviewRequest.source request) <= MAX_PLAIN_TEXT_BYTES ->
  DocumentReviewRequest.candidate request = Some input -> scalars cand -> input = as_bytes cand ->
  vlen input <= MAX_PLAIN_TEXT_BYTES ->
  match check_and_lint source (Some cand) (DocumentReviewRequest.protected_terms request) signal with
  | Ok (check, editorial, n) => n = 6%nat /\ own signal 5%nat = false /\
      exists r fs gs, checked request signal cand = Ok r /\ RewriteRecord.reason (record r) <> Some Cancelled /\
        check = Some (record r) /\ lint_text source = Ok fs /\ lint_text cand = Ok gs /\
        editorial = (if vlen fs + vlen gs <=? MAX_DOCUMENT_REVIEW_FINDINGS
                     then Ok (ReviewComparison (EditorialComparison.compute fs gs)) else Err LimitExceeded)
  | Err e => review_cause request signal e
  | Panic => False
  end.
Proof.
  intros [Hb _] Hs Hin Hl Hc Hcs Hcin Hcl; cbn [check_and_lint]; rewrite <- Hin; fold (checked request signal cand).
  pose proof (check_cases (new_request (DocumentReviewRequest.source request) cand
    (DocumentReviewRequest.protected_terms request)) (during_check signal) None Hb Hcs) as Hcheck.
  fold (check_with_cancellation (new_request (DocumentReviewRequest.source request) cand
    (DocumentReviewRequest.protected_terms request)) (during_check signal)) (checked request signal cand) in Hcheck.
  assert (Hcand : DocumentReviewRequest.candidate request = Some (as_bytes cand)) by congruence.
  destruct (checked request signal cand) as [r | e |] eqn:E; cbn [map_err mbind result_bind]; [| right; eauto | done].
  destruct (bool_decide_reflect (RewriteRecord.reason (record r) = Some Cancelled)); [right; exists cand, r; done |].
  destruct (own signal 5%nat) eqn:H5; cbn [ensure_active mbind result_bind];
    [left; exists 5%nat; unfold review_polls; rewrite Hc; split; [lia | done] |].
  destruct (compare_bounded_exact source cand MAX_DOCUMENT_REVIEW_FINDINGS) as (fs & gs & Hf & Hg & _ & ->);
    [by eapply text_fits | by eapply text_fits | done |]; cbn [total mbind result_bind].
  split_and!; [done | done |]; exists r, fs, gs; split_and!; try done; by destruct (_ <=? _).
Qed.

Lemma review_against_cases request signal (input : bytes) :
  byte_inputs request -> DocumentReviewRequest.candidate request = Some input -> own signal 0%nat = false ->
  match review request signal with
  | Ok result => exists source, reviewed request signal result source
  | Err e => review_cause request signal e
  | Panic => False
  end.
Proof.
  intros Hbs Hc H0; pose proof Hbs as [Hb Hbc]; unfold review; rewrite Hc, H0; cbn [ensure_active mbind result_bind].
  rewrite bool_decide_eq_false_2 by done; cbn [andb].
  assert (Hp : review_polls request = 8%nat) by (unfold review_polls; by rewrite Hc).
  assert (Hcancel : forall i, (i < 8)%nat -> own signal i = true -> review_cause request signal DocumentReviewError.Cancelled).
  { intros i Hi Ht; left; rewrite Hp; eauto. }
  pose proof (inspect_cases (DocumentReviewRequest.source request) (own signal) 1%nat Hb) as Hi.
  destruct (inspect _ _ _) as [[s inv] | e |] eqn:E; cbn [mbind result_bind]; [| | done].
  2: { destruct e; try done; [by left | destruct Hi; eapply Hcancel; [| done | | done]; lia | destruct Hi as [-> ?]; left; eauto]. }
  destruct Hi as (H1 & H2 & Hs & Hin & Hl & Hinv).
  pose proof (inspect_cases input (own signal) 3%nat (Hbc input Hc)) as Hi.
  destruct (inspect input _ _) as [[c cinv] | e |] eqn:E'; cbn [mbind result_bind]; [| | done].
  2: { destruct e; try done; [by right; eauto | destruct Hi; eapply Hcancel; [| done | | done]; lia | destruct Hi as [-> ?]; left; eauto 6]. }
  destruct Hi as (H3 & H4 & Hcs & Hcin & Hcl & Hcinv).
  pose proof (check_and_lint_cases request signal s c input Hbs Hs Hin Hl Hc Hcs Hcin Hcl) as Hch.
  cbn [fmap option_fmap option_map fst snd].
  destruct (check_and_lint _ _ _ _) as [[[check editorial] n] | e |]; cbn [mbind result_bind]; [| done | done].
  destruct Hch as (-> & H5 & r & fs & gs & Hr & Hreason & -> & Hf & Hg & ->).
  destruct (own signal 6%nat) eqn:H6; cbn [ensure_active mbind result_bind]; [by apply (Hcancel 6%nat); [lia |] |].
  destruct (Z.leb_spec (vlen fs + vlen gs) MAX_DOCUMENT_REVIEW_FINDINGS) as [Hm | Hm]; cbn [map_err mbind result_bind];
    [| exists s, fs; rewrite Hc; split_and!; try done; by exists c, gs].
  destruct (preview_spec s) as (p & -> & Hprev), (preview_spec c) as (q & -> & Hcprev); cbn [mbind result_bind].
  destruct (own signal 7%nat) eqn:H7; cbn [ensure_active mbind result_bind]; [by apply (Hcancel 7%nat); [lia |] |].
  exists s; constructor; try done; [rewrite Hp; polls | rewrite Hc; exists c; constructor; eauto 10].
Qed.

Lemma review_cases request signal :
  byte_inputs request ->
  match review request signal with
  | Ok result => exists source, reviewed request signal result source
  | Err e => review_cause request signal e
  | Panic => False
  end.
Proof.
  intros Hb; destruct (own signal 0%nat) eqn:H0.
  { unfold review; rewrite H0; cbn; left; exists 0%nat; split; [unfold review_polls; case_match; lia | done]. }
  destruct (DocumentReviewRequest.candidate request) eqn:Hc; [by eapply review_against_cases | by apply review_alone_cases].
Qed.

(** *** The evidence is determined by the request *)

Lemma same_text (input : bytes) a b : scalars a -> scalars b -> input = as_bytes a -> input = as_bytes b -> a = b.
Proof. intros Ha Hb -> E; by apply as_bytes_inj. Qed.

Lemma inspected_fun (input : bytes) i j : inspected input i -> inspected input j -> i = j.
Proof. intros [Hi _ _] [Hj _ _]; congruence. Qed.

Lemma result_eq r1 r2 :
  DocumentReviewResult.source_preview r1 = DocumentReviewResult.source_preview r2 ->
  DocumentReviewResult.candidate_preview r1 = DocumentReviewResult.candidate_preview r2 ->
  DocumentReviewResult.inspection r1 = DocumentReviewResult.inspection r2 ->
  DocumentReviewResult.candidate_inspection r1 = DocumentReviewResult.candidate_inspection r2 ->
  DocumentReviewResult.check r1 = DocumentReviewResult.check r2 ->
  DocumentReviewResult.editorial r1 = DocumentReviewResult.editorial r2 -> r1 = r2.
Proof. destruct r1, r2; cbn; congruence. Qed.

Lemma reviewed_fun request signal r1 r2 s1 s2 :
  reviewed request signal r1 s1 -> reviewed request signal r2 s2 -> r1 = r2.
Proof.
  intros [Hs1 Hb1 _ Hi1 Hp1 _ He1] [Hs2 Hb2 _ Hi2 Hp2 _ He2].
  rewrite (same_text _ _ _ Hs2 Hs1 Hb2 Hb1) in *; clear Hs2 Hb2.
  destruct (DocumentReviewRequest.candidate request) as [input|].
  - destruct He1 as (c1 & [Hc1 Hin1 _ (p1 & Ep1 & Hq1) (j1 & Ej1 & Hj1) (k1 & Ek1 & _ & Er1) (f1 & g1 & Ef1 & Eg1 & _ & El1)]).
    destruct He2 as (c2 & [Hc2 Hin2 _ (p2 & Ep2 & Hq2) (j2 & Ej2 & Hj2) (k2 & Ek2 & _ & Er2) (f2 & g2 & Ef2 & Eg2 & _ & El2)]).
    rewrite (same_text _ _ _ Hc2 Hc1 Hin2 Hin1) in *.
    apply result_eq; [by eapply excerpt_fun | | by eapply inspected_fun | | congruence | congruence].
    + rewrite Ep1, Ep2; f_equal; by eapply excerpt_fun.
    + rewrite Ej1, Ej2; f_equal; by eapply inspected_fun.
  - destruct He1 as [_ E1 E2 E3 (f1 & Ef1 & _ & El1)], He2 as [_ E1' E2' E3' (f2 & Ef2 & _ & El2)].
    apply result_eq; [by eapply excerpt_fun | congruence | by eapply inspected_fun | congruence | congruence | congruence].
Qed.

(** A cause of an error rules the evidence out. *)
Lemma cause_excludes request signal result source e :
  reviewed request signal result source -> review_cause request signal e -> False.
Proof.
  intros [Hs Hb Hl _ _ Hact He] Hcause; destruct e; cbn [review_cause] in Hcause.
  - destruct Hcause as [Hc Ht]; rewrite Hc in He; apply Ht, He.
  - destruct Hcause as [H | (input & Hc & H)]; [by apply (H source) |].
    rewrite Hc in He; destruct He as (c & [Hcs Hin _ _ _ _ _]); by apply (H c).
  - destruct Hcause as [(i & Hi & Ht) | (c & r & Hc & Hcs & Hr & Hreason)]; [by rewrite Hact in Ht |].
    rewrite Hc in He; destruct He as (c' & [Hcs' Hin _ _ _ (r' & Hr' & Hne & _) _]).
    apply as_bytes_inj in Hin as <-; [| done | done]; congruence.
  - destruct Hcause as (s' & fs & Hs' & Hb' & Hf & H); rewrite (same_text _ _ _ Hs' Hs Hb' Hb) in *.
    destruct (DocumentReviewRequest.candidate request) as [input|].
    + destruct H as (c & gs & Hcs & Hin & Hg & H), He as (c' & [Hcs' Hin' _ _ _ _ (fs' & gs' & Hf' & Hg' & Hle & _)]).
      rewrite (same_text _ _ _ Hcs' Hcs Hin' Hin) in *; rewrite Hf in Hf'; rewrite Hg in Hg'; simplify_eq; lia.
    + destruct He as [_ _ _ _ (fs' & Hf' & Hle & _)]; rewrite Hf in Hf'; simplify_eq; lia.
  - destruct Hcause as [(input & [-> | Hc] & Hlen & _) | (c & Hc & Hcs & Hr)]; [lia | |].
    + rewrite Hc in He; destruct He as (c & [_ _ ? _ _ _ _]); lia.
    + rewrite Hc in He; destruct He as (c' & [Hcs' Hin _ _ _ (r' & Hr' & _) _]).
      apply as_bytes_inj in Hin as <-; [| done | done]; congruence.
Qed.

(** C37. A review returns exactly the evidence about the complete inputs.  It
    succeeds if and only if both inputs are UTF-8 texts within the size
    limit, terms come with a candidate, the check gives a record that is not
    a cancellation, the findings of both texts together fit the limit and no
    poll of the token said cancelled; and then the digests and counts are
    those of the whole inputs, the findings those of the whole texts, the
    record that of the check, rejected candidates included, and each preview
    is the whole text or the longest beginning of it that fits with the
    marker. *)
Theorem review_exact request signal result :
  byte_inputs request ->
  review request signal = Ok result <-> exists source, reviewed request signal result source.
Proof.
  intros Hb; pose proof (review_cases request signal Hb) as H; split; [intros E; by rewrite E in H |].
  intros [s Hs]; destruct (review request signal) as [r | e |]; [| by destruct (cause_excludes _ _ _ _ _ Hs H) | done].
  destruct H as [s' Hs']; f_equal; by eapply reviewed_fun.
Qed.

(** A review always answers, and each error has its cause: terms without
    a candidate, an input that is no UTF-8 text, a poll that saw the
    cancellation (or a check that was cancelled), more findings than the
    limit, an input over the size limit, or an error of the check on these
    very inputs.  It never panics: not while decoding, linting or cutting a
    preview at a character boundary. *)
Theorem review_errors request signal :
  byte_inputs request ->
  match review request signal with
  | Ok _ => True
  | Err e => review_cause request signal e
  | Panic => False
  end.
Proof. intros Hb; pose proof (review_cases request signal Hb); by destruct (review request signal). Qed.

End ReviewTheorems.
