(* ===== verification/DocumentReviewOperation.v ===== *)
(** * Background document review ([app/src/document_review_operation.rs] with
    [contract.rs] and [worker.rs], [app/src/document_review_state.rs]).

    A handle, a worker thread and a supervisor thread share a mailbox behind
    a mutex, two flags and one cancellation token for each accepted request.
    The three run as interleaved steps, each with one access to what the
    others can change; accesses to data that no other thread can change in
    between (the mailbox under the mutex, the fields of the handle) are
    joined to the step next to them.  The methods that take [&mut self] never
    overlap with another method of the handle, so the handle is one thread.
    The condition variable is waited on with a timeout, so a waiting worker
    may always try to take the mutex again. *)

From S2P Require Import Prelude Text Policy Protection CandidateCheck DocumentReview.

(** ** The contract ([contract.rs]) *)

Abbreviation DocumentReviewOperationId := Z.

(** [DocumentReviewOperationRequest]: a request whose retained bytes are bounded. *)
Abbreviation DocumentReviewOperationRequest := DocumentReviewRequest.t.

Module DocumentReviewOperationError.
Inductive t :=
| WorkerUnavailable
| InputLimitExceeded
| Busy
| Stopped
| IdentifierExhausted
| Cancelled
| Review (e : DocumentReviewError.t).
End DocumentReviewOperationError.

(** [source_bytes] and [candidate_bytes]. *)
Definition source_bytes (r : DocumentReviewOperationRequest) : Z := vlen (DocumentReviewRequest.source r).
Definition candidate_bytes (r : DocumentReviewOperationRequest) : option Z :=
  vlen <$> DocumentReviewRequest.candidate r.

(** The [try_fold] with [checked_add] over the lengths of the terms. *)
Fixpoint add_term_bytes (count : Z) (terms : list text) : option Z :=
  match terms with
  | [] => Some count
  | term :: terms' => count' ← checked_add usize_max count (slen term); add_term_bytes count' terms'
  end.

(** [DocumentReviewOperationRequest::new]; shrinking the allocations keeps the values. *)
Definition operation_request (request : DocumentReviewRequest.t)
  : Result DocumentReviewOperationError.t DocumentReviewOperationRequest :=
  let terms := DocumentReviewRequest.protected_terms request in
  if (MAX_CANDIDATE_CHECK_BYTES <? vlen (DocumentReviewRequest.source request))
     || match DocumentReviewRequest.candidate request with
        | Some candidate => MAX_CANDIDATE_CHECK_BYTES <? vlen candidate
        | None => false
        end
     || (MAX_PROTECTED_TERMS <? vlen terms)
  then Err DocumentReviewOperationError.InputLimitExceeded
  else
    let retained_bytes :=
      bytes ← checked_add usize_max (vlen (DocumentReviewRequest.source request))
                (match DocumentReviewRequest.candidate request with Some c => vlen c | None => 0 end);
      add_term_bytes bytes terms in
    let ceiling :=
      bytes ← checked_mul usize_max MAX_CANDIDATE_CHECK_BYTES 2;
      checked_add usize_max bytes MAX_PROTECTED_TERM_TOTAL_BYTES in
    if match retained_bytes, ceiling with Some bytes, Some ceiling => ceiling <? bytes | _, _ => true end
       || existsb (fun term => MAX_PROTECTED_TERM_BYTES <? slen term) terms
       || match add_term_bytes 0 terms with Some count => MAX_PROTECTED_TERM_TOTAL_BYTES <? count | None => true end
    then Err DocumentReviewOperationError.InputLimitExceeded
    else Ok request.

Module Completion.
Record t := {
  operation_id : DocumentReviewOperationId;
  result : Result DocumentReviewOperationError.t DocumentReviewResult.t
}.
End Completion.

(** ** The shared state *)

(** A token is named after the operation it is created for. *)
Abbreviation Token := Z.

Module Job.
Record t := {
  id : DocumentReviewOperationId;
  request : DocumentReviewOperationRequest;
  cancellation : Token
}.
End Job.

Module Mailbox.
Record t := {
  latest : option DocumentReviewOperationId;
  pending : option Job.t;
  completed : option Completion.t
}.
Definition empty : t := {| latest := None; pending := None; completed := None |}.
End Mailbox.

Inductive Holder := ByHandle | ByWorker | BySupervisor.

(** [Shared], with the holder of the mutex, its poison flag and the tokens
    that have been cancelled. *)
Module Shared.
Record t := {
  mailbox : Mailbox.t;
  lock : option Holder;
  poisoned : bool;
  shutdown : bool;
  stopped : bool;
  cancelled : gset Token
}.

Definition acquire (h : Holder) (s : t) : t := {|
  mailbox := mailbox s; lock := Some h; poisoned := poisoned s; shutdown := shutdown s; stopped := stopped s;
  cancelled := cancelled s |}.
(** Write the mailbox back and drop the guard. *)
Definition release (m : Mailbox.t) (s : t) : t := {|
  mailbox := m; lock := None; poisoned := poisoned s; shutdown := shutdown s; stopped := stopped s;
  cancelled := cancelled s |}.
(** The guard is dropped by an unwinding thread. *)
Definition poison (s : t) : t := {|
  mailbox := mailbox s; lock := None; poisoned := true; shutdown := shutdown s; stopped := stopped s;
  cancelled := cancelled s |}.
Definition cancel (token : option Token) (s : t) : t := {|
  mailbox := mailbox s; lock := lock s; poisoned := poisoned s; shutdown := shutdown s; stopped := stopped s;
  cancelled := match token with Some t => {[t]} ∪ cancelled s | None => cancelled s end |}.
Definition set_shutdown (s : t) : t := {|
  mailbox := mailbox s; lock := lock s; poisoned := poisoned s; shutdown := true; stopped := stopped s;
  cancelled := cancelled s |}.
Definition set_stopped (s : t) : t := {|
  mailbox := mailbox s; lock := lock s; poisoned := poisoned s; shutdown := shutdown s; stopped := true;
  cancelled := cancelled s |}.

Definition is_cancelled (s : t) (token : Token) : bool := bool_decide (token ∈ cancelled s).

(** [Shared::default]. *)
Definition new : t := {|
  mailbox := Mailbox.empty; lock := None; poisoned := false; shutdown := false; stopped := false; cancelled := ∅ |}.
End Shared.

(** ** The threads *)

(** Where the owner of the handle stands. *)
Inductive HandlePc :=
| Between                                        (** no call in progress *)
| SubmitLocked (r : DocumentReviewOperationRequest) (id : DocumentReviewOperationId)
                                                 (** [submit] holds the mutex, about to load the flags *)
| SubmitAdmitted (r : DocumentReviewOperationRequest) (id : DocumentReviewOperationId)
                                                 (** about to cancel the preceding operation *)
| SubmitPublishing (r : DocumentReviewOperationRequest) (id : DocumentReviewOperationId)
                                                 (** about to fill the mailbox and release it *)
| PollLocked (id : DocumentReviewOperationId) (cancelled : bool)
                                                 (** [poll] holds the mutex and has read its token *)
| ShuttingDown.                                  (** [shutdown] has cancelled, about to set the flag *)

(** [DocumentReviewOperation] without its share of [Shared]. *)
Module Handle.
Record t := {
  sequence : Z;
  latest : option (DocumentReviewOperationId * Token);
  pc : HandlePc
}.
Definition new : t := {| sequence := 0; latest := None; pc := Between |}.
Definition at_pc (p : HandlePc) (h : t) : t := {| sequence := sequence h; latest := latest h; pc := p |}.
End Handle.

(** Where the worker stands in [run]. *)
Inductive WorkerPc :=
| NotSpawned
| Locking                                        (** the first [lock] of a round *)
| Holding                                        (** holds the mutex, at the head of the [while] *)
| Waiting                                        (** in [wait_timeout] *)
| Taking                                         (** holds the mutex, left the [while] *)
| Starting (job : Job.t)                         (** about to test the token of the job *)
| Running (job : Job.t)                          (** in [review] *)
| Finished (job : Job.t) (r : Result DocumentReviewOperationError.t DocumentReviewResult.t)
                                                 (** about to lock again *)
| Storing (job : Job.t) (r : Result DocumentReviewOperationError.t DocumentReviewResult.t)
                                                 (** holds the mutex, about to load [shutdown] *)
| Delivering (job : Job.t) (r : Result DocumentReviewOperationError.t DocumentReviewResult.t)
                                                 (** saw no shutdown, about to test the token *)
| Returned.

(** Where the supervisor stands in [start]. *)
Inductive SupervisorPc := Spawning | Joining | Cleaning | Clearing | Stopping | Supervised.

(** ** The critical sections *)

(** What [submit] puts in the mailbox. *)
Definition publish (id : DocumentReviewOperationId) (r : DocumentReviewOperationRequest) (token : Token) : Mailbox.t := {|
  Mailbox.latest := Some id;
  Mailbox.pending := Some {| Job.id := id; Job.request := r; Job.cancellation := token |};
  Mailbox.completed := None |}.

(** The critical section of [poll]: the mailbox after it and the completion. *)
Definition poll_mailbox (m : Mailbox.t) (id : DocumentReviewOperationId) (cancelled stopped : bool)
  : Mailbox.t * option Completion.t :=
  let '(pending, completion) :=
    if cancelled
    then (None, Some {| Completion.operation_id := id; Completion.result := Err DocumentReviewOperationError.Cancelled |})
    else (Mailbox.pending m,
          match Mailbox.completed m with
          | Some c => if Completion.operation_id c =? id then Some c
                      else if stopped
                      then Some {| Completion.operation_id := id; Completion.result := Err DocumentReviewOperationError.Stopped |}
                      else None
          | None => if stopped
                    then Some {| Completion.operation_id := id; Completion.result := Err DocumentReviewOperationError.Stopped |}
                    else None
          end) in
  ({| Mailbox.latest := match completion with Some _ => None | None => Mailbox.latest m end;
      Mailbox.pending := pending; Mailbox.completed := None |}, completion).

(** [mailbox.pending.take()]. *)
Definition take_pending (m : Mailbox.t) : Mailbox.t := {|
  Mailbox.latest := Mailbox.latest m; Mailbox.pending := None; Mailbox.completed := Mailbox.completed m |}.

(** The last block of [run]: keep the result if the token is not cancelled
    and the job is still the latest. *)
Definition deliver (m : Mailbox.t) (job : Job.t) (r : Result DocumentReviewOperationError.t DocumentReviewResult.t)
    (cancelled : bool) : Mailbox.t :=
  if negb cancelled && bool_decide (Mailbox.latest m = Some (Job.id job))
  then {| Mailbox.latest := Mailbox.latest m; Mailbox.pending := Mailbox.pending m;
          Mailbox.completed := Some {| Completion.operation_id := Job.id job; Completion.result := r |} |}
  else m.

(** The clean-up of the supervisor. *)
Definition clear (m : Mailbox.t) (shutdown : bool) : Mailbox.t := {|
  Mailbox.latest := Mailbox.latest m; Mailbox.pending := None;
  Mailbox.completed := if shutdown then None else Mailbox.completed m |}.

(** ** The steps *)

(** What a caller sees, and the two failures of threads nobody reports. *)
Inductive Event :=
| Submitted (r : DocumentReviewOperationRequest) (id : DocumentReviewOperationId)
| SubmissionFailed (r : DocumentReviewOperationRequest) (e : DocumentReviewOperationError.t)
| SubmissionPanicked (r : DocumentReviewOperationRequest)
| Polled (r : Result DocumentReviewOperationError.t (option Completion.t))
| CancelRequested
| ShutdownRequested
| WorkerLost.

(** A token nobody cancels. *)
Definition quiet : ReviewSignal := {| own := fun _ => false; during_check := fun _ => false |}.

Section Steps.
(** The service the worker runs. *)
Variable review : DocumentReviewRequest.t -> ReviewSignal -> Result DocumentReviewError.t DocumentReviewResult.t.

(** The handle: [submit], [poll], [cancel], [shutdown] and [mailbox]. *)
Inductive handle_step : Handle.t * Shared.t -> option Event -> Handle.t * Shared.t -> Prop :=
| SubmitExhausted h s r :
    Handle.pc h = Between -> checked_add u64_max (Handle.sequence h) 1 = None ->
    handle_step (h, s) (Some (SubmissionFailed r DocumentReviewOperationError.IdentifierExhausted)) (h, s)
| SubmitBusy h s r id :
    Handle.pc h = Between -> checked_add u64_max (Handle.sequence h) 1 = Some id -> Shared.lock s <> None ->
    handle_step (h, s) (Some (SubmissionFailed r DocumentReviewOperationError.Busy)) (h, s)
| SubmitPoisoned h s r id :
    Handle.pc h = Between -> checked_add u64_max (Handle.sequence h) 1 = Some id ->
    Shared.lock s = None -> Shared.poisoned s = true ->
    handle_step (h, s) (Some (SubmissionFailed r DocumentReviewOperationError.Stopped)) (h, s)
| SubmitLock h s r id :
    Handle.pc h = Between -> checked_add u64_max (Handle.sequence h) 1 = Some id ->
    Shared.lock s = None -> Shared.poisoned s = false ->
    handle_step (h, s) None (Handle.at_pc (SubmitLocked r id) h, Shared.acquire ByHandle s)
| SubmitRefused h s r id :
    Handle.pc h = SubmitLocked r id -> Shared.shutdown s || Shared.stopped s = true ->
    handle_step (h, s) (Some (SubmissionFailed r DocumentReviewOperationError.Stopped))
      (Handle.at_pc Between h, Shared.release (Shared.mailbox s) s)
| SubmitAdmit h s r id :
    Handle.pc h = SubmitLocked r id -> Shared.shutdown s || Shared.stopped s = false ->
    handle_step (h, s) None (Handle.at_pc (SubmitAdmitted r id) h, s)
| SubmitCancel h s r id :
    Handle.pc h = SubmitAdmitted r id ->
    handle_step (h, s) None (Handle.at_pc (SubmitPublishing r id) h, Shared.cancel (snd <$> Handle.latest h) s)
| SubmitPanics h s r id token :
    (** A waker panics after the flag is set. *)
    Handle.pc h = SubmitAdmitted r id -> snd <$> Handle.latest h = Some token ->
    handle_step (h, s) (Some (SubmissionPanicked r))
      (Handle.at_pc Between h, Shared.poison (Shared.cancel (Some token) s))
| SubmitPublish h s r id :
    Handle.pc h = SubmitPublishing r id ->
    handle_step (h, s) (Some (Submitted r id))
      ({| Handle.sequence := id; Handle.latest := Some (id, id); Handle.pc := Between |},
       Shared.release (publish id r id) s)
| PollIdle h s :
    Handle.pc h = Between -> Handle.latest h = None ->
    handle_step (h, s) (Some (Polled (Ok None))) (h, s)
| PollBusy h s x :
    Handle.pc h = Between -> Handle.latest h = Some x -> Shared.lock s <> None ->
    handle_step (h, s) (Some (Polled (Err DocumentReviewOperationError.Busy))) (h, s)
| PollPoisoned h s x :
    Handle.pc h = Between -> Handle.latest h = Some x -> Shared.lock s = None -> Shared.poisoned s = true ->
    handle_step (h, s) (Some (Polled (Err DocumentReviewOperationError.Stopped))) (h, s)
| PollLock h s id token :
    Handle.pc h = Between -> Handle.latest h = Some (id, token) -> Shared.lock s = None -> Shared.poisoned s = false ->
    handle_step (h, s) None (Handle.at_pc (PollLocked id (Shared.is_cancelled s token)) h, Shared.acquire ByHandle s)
| PollTake h s id cancelled m completion :
    Handle.pc h = PollLocked id cancelled ->
    poll_mailbox (Shared.mailbox s) id cancelled (Shared.stopped s) = (m, completion) ->
    handle_step (h, s) (Some (Polled (Ok completion)))
      ({| Handle.sequence := Handle.sequence h;
          Handle.latest := match completion with Some _ => None | None => Handle.latest h end;
          Handle.pc := Between |}, Shared.release m s)
| Cancel h s :
    Handle.pc h = Between ->
    handle_step (h, s) (Some CancelRequested) (h, Shared.cancel (snd <$> Handle.latest h) s)
| ShutdownCancel h s :
    Handle.pc h = Between ->
    handle_step (h, s) None (Handle.at_pc ShuttingDown h, Shared.cancel (snd <$> Handle.latest h) s)
| ShutdownStore h s :
    Handle.pc h = ShuttingDown ->
    handle_step (h, s) (Some ShutdownRequested) (Handle.at_pc Between h, Shared.set_shutdown s).

(** The worker: [run]. *)
Inductive worker_step : WorkerPc * Shared.t -> option Event -> WorkerPc * Shared.t -> Prop :=
| WorkerLock w s :
    w = Locking \/ w = Waiting -> Shared.lock s = None -> Shared.poisoned s = false ->
    worker_step (w, s) None (Holding, Shared.acquire ByWorker s)
| WorkerPoisoned w s :
    w = Locking \/ w = Waiting \/ (exists job r, w = Finished job r) -> Shared.lock s = None -> Shared.poisoned s = true ->
    worker_step (w, s) None (Returned, s)
| WorkerWait s :
    Mailbox.pending (Shared.mailbox s) = None -> Shared.shutdown s = false ->
    worker_step (Holding, s) None (Waiting, Shared.release (Shared.mailbox s) s)
| WorkerLeave s :
    Mailbox.pending (Shared.mailbox s) <> None \/ Shared.shutdown s = true ->
    worker_step (Holding, s) None (Taking, s)
| WorkerReturn s :
    Shared.shutdown s = true -> worker_step (Taking, s) None (Returned, Shared.release (Shared.mailbox s) s)
| WorkerTake s job :
    Shared.shutdown s = false -> Mailbox.pending (Shared.mailbox s) = Some job ->
    worker_step (Taking, s) None (Starting job, Shared.release (take_pending (Shared.mailbox s)) s)
| WorkerAgain s :
    Shared.shutdown s = false -> Mailbox.pending (Shared.mailbox s) = None ->
    worker_step (Taking, s) None (Locking, Shared.release (Shared.mailbox s) s)
| WorkerStart s job :
    worker_step (Starting job, s) None
      (if Shared.is_cancelled s (Job.cancellation job) then Locking else Running job, s)
| WorkerReview s job signal r :
    (** Polls of a token that has not been cancelled all say so. *)
    signal = quiet \/ Shared.is_cancelled s (Job.cancellation job) = true ->
    review (Job.request job) signal = r -> r <> Panic ->
    worker_step (Running job, s) None (Finished job (map_err DocumentReviewOperationError.Review r), s)
| WorkerPanic s job :
    worker_step (Running job, s) (Some WorkerLost) (Returned, s)
| WorkerRelock s job r :
    Shared.lock s = None -> Shared.poisoned s = false ->
    worker_step (Finished job r, s) None (Storing job r, Shared.acquire ByWorker s)
| WorkerDiscard s job r :
    Shared.shutdown s = true ->
    worker_step (Storing job r, s) None (Locking, Shared.release (Shared.mailbox s) s)
| WorkerKeep s job r :
    Shared.shutdown s = false -> worker_step (Storing job r, s) None (Delivering job r, s)
| WorkerDeliver s job r :
    worker_step (Delivering job r, s) None
      (Locking, Shared.release (deliver (Shared.mailbox s) job r (Shared.is_cancelled s (Job.cancellation job))) s).

(** The supervisor: the closure of [start]; it starts and joins the worker. *)
Inductive supervisor_step : SupervisorPc * WorkerPc * Shared.t -> option Event -> SupervisorPc * WorkerPc * Shared.t -> Prop :=
| SupervisorSpawn w s : supervisor_step (Spawning, w, s) None (Joining, Locking, s)
| SupervisorNoSpawn w s : supervisor_step (Spawning, w, s) (Some WorkerLost) (Cleaning, w, s)
| SupervisorJoin s : supervisor_step (Joining, Returned, s) None (Cleaning, Returned, s)
| SupervisorLock w s :
    Shared.lock s = None -> Shared.poisoned s = false ->
    supervisor_step (Cleaning, w, s) None (Clearing, w, Shared.acquire BySupervisor s)
| SupervisorPoisoned w s :
    Shared.lock s = None -> Shared.poisoned s = true -> supervisor_step (Cleaning, w, s) None (Stopping, w, s)
| SupervisorClear w s :
    supervisor_step (Clearing, w, s) None
      (Stopping, w, Shared.release (clear (Shared.mailbox s) (Shared.shutdown s)) s)
| SupervisorStop w s :
    supervisor_step (Stopping, w, s) None (Supervised, w, Shared.set_stopped s).

(** ** The system *)

Record System := { handle : Handle.t; worker : WorkerPc; supervisor : SupervisorPc; shared : Shared.t }.

(** What runs in the background. *)
Inductive background : System -> option Event -> System -> Prop :=
| StepWorker h w w' p s s' e :
    worker_step (w, s) e (w', s') ->
    background {| handle := h; worker := w; supervisor := p; shared := s |} e
      {| handle := h; worker := w'; supervisor := p; shared := s' |}
| StepSupervisor h w w' p p' s s' e :
    supervisor_step (p, w, s) e (p', w', s') ->
    background {| handle := h; worker := w; supervisor := p; shared := s |} e
      {| handle := h; worker := w'; supervisor := p'; shared := s' |}.

Inductive step : System -> option Event -> System -> Prop :=
| StepHandle h h' w p s s' e :
    handle_step (h, s) e (h', s') ->
    step {| handle := h; worker := w; supervisor := p; shared := s |} e
      {| handle := h'; worker := w; supervisor := p; shared := s' |}
| StepBackground sys sys' e : background sys e sys' -> step sys e sys'.

(** [DocumentReviewOperation::new] once the supervisor thread exists. *)
Definition started : System :=
  {| handle := Handle.new; worker := NotSpawned; supervisor := Spawning; shared := Shared.new |}.

(** [start]: the thread of the supervisor is created or nothing is. *)
Definition start (supervisor_spawned : bool) : Result DocumentReviewOperationError.t System :=
  if supervisor_spawned then Ok started else Err DocumentReviewOperationError.WorkerUnavailable.

Definition observe (e : option Event) : list Event := match e with Some e => [e] | None => [] end.

(** A run with the events it showed. *)
Inductive run : list Event -> System -> Prop :=
| RunStart : run [] started
| RunStep h sys e sys' : run h sys -> step sys e sys' -> run (h ++ observe e) sys'.

End Steps.
