(* ===== verification/ReviewOperationProps.v ===== *)
(** * Background document review: the promise to the caller.

    The interleaved system of [DocumentReviewOperation] refines a sequential
    object: one current request, answered at most once, with the result the
    review service gives when nobody cancels it, or with the cancellation the
    caller asked for, or with the loss of the worker. *)

From S2P Require Import Prelude Text Policy Protection CandidateCheck DocumentReview DocumentReviewOperation.

(** ** Admission of a request *)

(** The bytes of all terms together. *)
Definition term_bytes (terms : list text) : Z := foldr (fun term n => slen term + n) 0 terms.

Record admissible (r : DocumentReviewRequest.t) : Prop := {
  adm_source : vlen (DocumentReviewRequest.source r) <= MAX_CANDIDATE_CHECK_BYTES;
  adm_candidate : forall c, DocumentReviewRequest.candidate r = Some c -> vlen c <= MAX_CANDIDATE_CHECK_BYTES;
  adm_terms : vlen (DocumentReviewRequest.protected_terms r) <= MAX_PROTECTED_TERMS;
  adm_each : Forall (fun term => slen term <= MAX_PROTECTED_TERM_BYTES) (DocumentReviewRequest.protected_terms r);
  adm_total : term_bytes (DocumentReviewRequest.protected_terms r) <= MAX_PROTECTED_TERM_TOTAL_BYTES
}.

Lemma term_bytes_nonneg terms : 0 <= term_bytes terms.
Proof. unfold term_bytes; induction terms as [|t terms IH]; cbn [foldr]; [lia |]; pose proof (slen_nonneg t); lia. Qed.

Lemma add_term_bytes_spec terms n :
  0 <= n -> add_term_bytes n terms = if n + term_bytes terms <=? usize_max then Some (n + term_bytes terms)
                                     else match terms with [] => Some n | _ => None end.
Proof.
  revert n; induction terms as [|t terms IH]; intros n Hn; cbn [add_term_bytes term_bytes foldr].
  - replace (n + 0) with n by lia; by destruct (_ <=? _).
  - pose proof (slen_nonneg t); pose proof (term_bytes_nonneg terms); fold (term_bytes terms); unfold checked_add.
    destruct (Z.leb_spec (n + slen t) usize_max); cbn [mbind option_bind].
    + rewrite IH by lia; replace (n + slen t + term_bytes terms) with (n + (slen t + term_bytes terms)) by lia.
      destruct (Z.leb_spec (n + (slen t + term_bytes terms)) usize_max); [done |]; destruct terms; [cbn in *; lia | done].
    + destruct (Z.leb_spec (n + (slen t + term_bytes terms)) usize_max); [lia | done].
Qed.

(** Requests are admitted exactly within the limits of the service: the
    ceiling on the retained bytes and the overflow checks refuse nothing else,
    and an admitted request is handed on unchanged. *)
Theorem operation_request_exact (r : DocumentReviewRequest.t) :
  (admissible r /\ operation_request r = Ok r) \/
  (~ admissible r /\ operation_request r = Err DocumentReviewOperationError.InputLimitExceeded).
Proof.
  unfold operation_request; set (terms := DocumentReviewRequest.protected_terms r).
  destruct (_ || _ || _) eqn:E1.
  { right; split; [| done]; intros [H1 H2 H3 _ _]; apply orb_true_iff in E1 as [E1 | E1]; [apply orb_true_iff in E1 as [E1 | E1] |]; zbool; try lia.
    - destruct (DocumentReviewRequest.candidate r) as [c|]; [| done]; zbool; specialize (H2 c eq_refl); lia.
    - subst terms; lia. }
  apply orb_false_iff in E1 as [E1 E3]; apply orb_false_iff in E1 as [E1 E2]; zbool.
  assert (H2 : forall c, DocumentReviewRequest.candidate r = Some c -> vlen c <= MAX_CANDIDATE_CHECK_BYTES)
    by (intros c Hc; rewrite Hc in E2; zbool; lia).
  pose proof (term_bytes_nonneg terms) as Hn; pose proof (vlen_nonneg (DocumentReviewRequest.source r)) as Hs.
  set (cn := match DocumentReviewRequest.candidate r with Some c => vlen c | None => 0 end).
  assert (Hc : 0 <= cn <= MAX_CANDIDATE_CHECK_BYTES).
  { subst cn; destruct (DocumentReviewRequest.candidate r) as [c|]; [split; [apply vlen_nonneg | by apply H2] | done]. }
  assert (Hadd : checked_add usize_max (vlen (DocumentReviewRequest.source r)) cn = Some (vlen (DocumentReviewRequest.source r) + cn)).
  { unfold checked_add; rewrite (proj2 (Z.leb_le _ _)); [done |].
    unfold MAX_CANDIDATE_CHECK_BYTES, TextAdapter.MAX_PLAIN_TEXT_BYTES, usize_max, u64_max in *; lia. }
  rewrite Hadd; cbn [mbind option_bind]; rewrite !add_term_bytes_spec by lia.
  change (checked_mul usize_max MAX_CANDIDATE_CHECK_BYTES 2) with (Some 33554432); cbn [mbind option_bind].
  change (checked_add usize_max 33554432 MAX_PROTECTED_TERM_TOTAL_BYTES) with (Some 33556480).
  destruct (existsb _ terms) eqn:Ee.
  { right; split; [| by rewrite !orb_true_r]; intros [_ _ _ H _]; apply existsb_exists in Ee as (t & Ht & Hl); zbool.
    rewrite Forall_forall in H; specialize (H t ltac:(by apply list_elem_of_In)); lia. }
  assert (Hall : Forall (fun term => slen term <= MAX_PROTECTED_TERM_BYTES) terms).
  { apply Forall_forall; intros t Ht; apply list_elem_of_In in Ht; destruct (Z.leb_spec (slen t) MAX_PROTECTED_TERM_BYTES) as [|Hl]; [done |].
    assert (existsb (fun term => MAX_PROTECTED_TERM_BYTES <? slen term) terms = true) by (apply existsb_exists; exists t; split; [done | by apply Z.ltb_lt]).
    congruence. }
  rewrite orb_false_r; replace (0 + term_bytes terms) with (term_bytes terms) by lia.
  unfold MAX_CANDIDATE_CHECK_BYTES, TextAdapter.MAX_PLAIN_TEXT_BYTES, MAX_PROTECTED_TERM_TOTAL_BYTES in *.
  assert (Hadm : term_bytes terms <= 2 * 1024 -> admissible r) by (intros Ht; constructor; unfold MAX_PROTECTED_TERM_TOTAL_BYTES; done).
  destruct (Z.leb_spec (term_bytes terms) (2 * 1024)) as [Ht | Ht].
  - left; split; [auto |]; unfold usize_max, u64_max in *.
    rewrite (proj2 (Z.leb_le _ 18446744073709551615)), (proj2 (Z.leb_le (term_bytes terms) 18446744073709551615)) by lia.
    rewrite (proj2 (Z.ltb_ge 33556480 _)), (proj2 (Z.ltb_ge (2 * 1024) _)) by lia; done.
  - right; split; [intros [_ _ _ _ H]; unfold MAX_PROTECTED_TERM_TOTAL_BYTES in H; subst terms; lia |].
    assert (terms <> []) by (intros ->; cbn in Ht; lia).
    destruct (term_bytes terms <=? usize_max); [rewrite (proj2 (Z.ltb_lt (2 * 1024) _)) by lia; by rewrite orb_true_r |].
    destruct terms; [done |]; by rewrite orb_true_r.
Qed.

(** ** The promise *)

(** The current request with its identity and whether it was cancelled;
    [down] when no further work is promised, [closed] by a shutdown,
    [broken] by a panic that poisoned the mailbox. *)
Record Promise := {
  count : Z;
  current : option (DocumentReviewOperationId * DocumentReviewOperationRequest * bool);
  closed : bool;
  broken : bool;
  down : bool
}.

Definition promised : Promise := {| count := 0; current := None; closed := false; broken := false; down := false |}.

Definition cancel_current (c : option (DocumentReviewOperationId * DocumentReviewOperationRequest * bool)) :=
  match c with Some (id, r, _) => Some (id, r, true) | None => None end.

(** ** Where the threads stand *)

Definition handle_holds (pc : HandlePc) : bool :=
  match pc with Between | ShuttingDown => false | _ => true end.
Definition worker_holds (w : WorkerPc) : bool :=
  match w with Holding | Taking | Storing _ _ | Delivering _ _ => true | _ => false end.
Definition supervisor_holds (p : SupervisorPc) : bool :=
  match p with Clearing => true | _ => false end.

Definition worker_job (w : WorkerPc) : option Job.t :=
  match w with
  | Starting j | Running j | Finished j _ | Storing j _ | Delivering j _ => Some j
  | _ => None
  end.
Definition worker_result (w : WorkerPc) : option (Job.t * Result DocumentReviewOperationError.t DocumentReviewResult.t) :=
  match w with Finished j r | Storing j r | Delivering j r => Some (j, r) | _ => None end.

(** The token of the current operation is cancelled before the caller sees it. *)
Definition settled (pc : HandlePc) : bool :=
  match pc with SubmitPublishing _ _ | ShuttingDown => false | _ => true end.

Definition past_join (p : SupervisorPc) : bool :=
  match p with Spawning | Joining => false | _ => true end.

(** ** Automation *)

(** Open the simulation of a state whose parts are known. *)
Ltac open_sim H :=
  destruct H as [Hcount Hrange Htokens Hcurrent Hpc [Hlatest Hpending Hjob Hresult Hcompleted] [Hclosed Hbroken Hdown Hthreads] (Hlh & Hlw & Hls)];
  cbn [handle worker supervisor shared Shared.release Shared.acquire Shared.cancel Shared.poison Shared.set_shutdown Shared.set_stopped] in *.

Ltac parts := cbn [handle worker supervisor shared Handle.at_pc Handle.pc Handle.sequence Handle.latest
  Shared.release Shared.acquire Shared.cancel Shared.poison Shared.set_shutdown Shared.set_stopped
  Shared.mailbox Shared.lock Shared.poisoned Shared.shutdown Shared.stopped Shared.cancelled
  Mailbox.latest Mailbox.pending Mailbox.completed handle_holds worker_holds supervisor_holds settled past_join
  worker_job worker_result count current closed broken down fst snd fmap option_fmap option_map].

Section Refinement.
Variable review : DocumentReviewRequest.t -> ReviewSignal -> Result DocumentReviewError.t DocumentReviewResult.t.

(** The answer of the service to a request nobody cancels. *)
Definition answer (r : DocumentReviewOperationRequest) : Result DocumentReviewOperationError.t DocumentReviewResult.t :=
  map_err DocumentReviewOperationError.Review (review r quiet).

Inductive promise_step : Promise -> Event -> Promise -> Prop :=
| PromiseSubmitted p r :
    (** A request is accepted under the next identity and replaces the current one. *)
    closed p = false -> count p < u64_max ->
    promise_step p (Submitted r (count p + 1))
      {| count := count p + 1; current := Some (count p + 1, r, false); closed := closed p; broken := broken p; down := down p |}
| PromiseFailed p r e :
    (** A refused request changes nothing. *)
    e = DocumentReviewOperationError.Busy \/
    (e = DocumentReviewOperationError.IdentifierExhausted /\ count p = u64_max) \/
    (e = DocumentReviewOperationError.Stopped /\ down p = true) ->
    promise_step p (SubmissionFailed r e) p
| PromisePanicked p r :
    promise_step p (SubmissionPanicked r)
      {| count := count p; current := cancel_current (current p); closed := closed p; broken := true; down := true |}
| PromiseUnanswered p :
    (** Nothing to report: there is no request, or it is not cancelled and not done. *)
    (forall id r c, current p = Some (id, r, c) -> c = false) ->
    promise_step p (Polled (Ok None)) p
| PromiseUnavailable p e :
    e = DocumentReviewOperationError.Busy \/ (e = DocumentReviewOperationError.Stopped /\ broken p = true) ->
    promise_step p (Polled (Err e)) p
| PromiseAnswered p id r c result :
    (** The one answer to the current request. *)
    current p = Some (id, r, c) -> result <> Panic ->
    (c = true -> result = Err DocumentReviewOperationError.Cancelled) ->
    (c = false -> result = answer r \/ (result = Err DocumentReviewOperationError.Stopped /\ down p = true)) ->
    promise_step p (Polled (Ok (Some {| Completion.operation_id := id; Completion.result := result |})))
      {| count := count p; current := None; closed := closed p; broken := broken p; down := down p |}
| PromiseCancelled p :
    promise_step p CancelRequested
      {| count := count p; current := cancel_current (current p); closed := closed p; broken := broken p; down := down p |}
| PromiseClosed p :
    promise_step p ShutdownRequested
      {| count := count p; current := cancel_current (current p); closed := true; broken := broken p; down := true |}
| PromiseLost p :
    promise_step p WorkerLost
      {| count := count p; current := current p; closed := closed p; broken := broken p; down := true |}.

Inductive promise_run : list Event -> Promise -> Prop :=
| PromiseStart : promise_run [] promised
| PromiseStep h p e p' : promise_run h p -> promise_step p e p' -> promise_run (h ++ [e]) p'.

(** ** The simulation *)

(** A job is the current request, or an older one. *)
Definition job_ok (p : Promise) (j : Job.t) : Prop :=
  Job.cancellation j = Job.id j /\ Job.id j <= count p /\
  forall r c, current p = Some (Job.id j, r, c) -> Job.request j = r.

Definition lock_ok (sys : System) : Prop :=
  let l := Shared.lock (shared sys) in
  (l = Some ByHandle <-> handle_holds (Handle.pc (handle sys)) = true) /\
  (l = Some ByWorker <-> worker_holds (worker sys) = true) /\
  (l = Some BySupervisor <-> supervisor_holds (supervisor sys) = true).

Definition current_ok (p : Promise) (h : Handle.t) (s : Shared.t) : Prop :=
  match Handle.latest h, current p with
  | Some (id, token), Some (id', r, c) =>
      id' = id /\ token = id /\ id <= count p /\ (c = true -> id ∈ Shared.cancelled s) /\
      (settled (Handle.pc h) = true -> id ∈ Shared.cancelled s -> c = true)
  | None, None => True
  | _, _ => False
  end.

Definition pc_ok (p : Promise) (h : Handle.t) (s : Shared.t) : Prop :=
  match Handle.pc h with
  | SubmitLocked r id => id = count p + 1 /\ count p < u64_max
  | SubmitAdmitted r id => id = count p + 1 /\ count p < u64_max /\ closed p = false
  | SubmitPublishing r id => id = count p + 1 /\ count p < u64_max /\ closed p = false
  | PollLocked id c => exists r, current p = Some (id, r, c)
  | ShuttingDown => forall id token, Handle.latest h = Some (id, token) -> token ∈ Shared.cancelled s
  | Between => True
  end.

Record mailbox_ok (p : Promise) (h : Handle.t) (w : WorkerPc) (s : Shared.t) : Prop := {
  mb_latest : Mailbox.latest (Shared.mailbox s) = fst <$> Handle.latest h;
  mb_pending : forall j, Mailbox.pending (Shared.mailbox s) = Some j -> job_ok p j;
  mb_worker : forall j, worker_job w = Some j -> job_ok p j;
  mb_result : forall j r, worker_result w = Some (j, r) ->
    r <> Panic /\ (Job.id j ∈ Shared.cancelled s \/ r = answer (Job.request j));
  mb_completed : forall c, Mailbox.completed (Shared.mailbox s) = Some c ->
    exists r b, current p = Some (Completion.operation_id c, r, b) /\ Completion.result c = answer r /\
      Completion.result c <> Panic
}.

(** The supervisor joins the worker before it cleans up. *)
Definition threads_ok (sv : SupervisorPc) (w : WorkerPc) (stopped : bool) : Prop :=
  match sv with
  | Spawning => w = NotSpawned
  | Joining => w <> NotSpawned
  | Supervised => (w = Returned \/ w = NotSpawned) /\ stopped = true
  | _ => w = Returned \/ w = NotSpawned
  end.

Record flags_ok (p : Promise) (sys : System) : Prop := {
  fl_closed : Shared.shutdown (shared sys) = closed p;
  fl_broken : Shared.poisoned (shared sys) = broken p;
  fl_down : closed p = true \/ broken p = true \/ Shared.stopped (shared sys) = true \/ worker sys = Returned \/
    past_join (supervisor sys) = true -> down p = true;
  fl_threads : threads_ok (supervisor sys) (worker sys) (Shared.stopped (shared sys))
}.

Record sim (p : Promise) (sys : System) : Prop := {
  sim_count : Handle.sequence (handle sys) = count p;
  sim_range : 0 <= count p <= u64_max;
  sim_tokens : forall t, t ∈ Shared.cancelled (shared sys) -> t <= count p;
  sim_current : current_ok p (handle sys) (shared sys);
  sim_pc : pc_ok p (handle sys) (shared sys);
  sim_mailbox : mailbox_ok p (handle sys) (worker sys) (shared sys);
  sim_flags : flags_ok p sys;
  sim_lock : lock_ok sys
}.


(** What the caller sees of a step, as a step of the promise. *)
Definition promise_observe (p : Promise) (e : option Event) (p' : Promise) : Prop :=
  match e with Some e => promise_step p e p' | None => p' = p end.

(** The mutex has one holder. *)
Ltac locks := solve [intuition congruence].

(** A step that moves the handle and the mutex only. *)
Lemma sim_move p h h' w sv s s' :
  sim p {| handle := h; worker := w; supervisor := sv; shared := s |} ->
  Handle.sequence h' = Handle.sequence h -> Handle.latest h' = Handle.latest h ->
  Shared.mailbox s' = Shared.mailbox s -> Shared.poisoned s' = Shared.poisoned s ->
  Shared.shutdown s' = Shared.shutdown s -> Shared.stopped s' = Shared.stopped s ->
  Shared.cancelled s' = Shared.cancelled s ->
  settled (Handle.pc h) = true -> pc_ok p h' s' ->
  lock_ok {| handle := h'; worker := w; supervisor := sv; shared := s' |} ->
  sim p {| handle := h'; worker := w; supervisor := sv; shared := s' |}.
Proof.
  intros Hsim E1 E2 E3 E4 E5 E6 E7 Hset Hpc' Hlock; open_sim Hsim; unfold current_ok in *.
  constructor; cbn [handle worker supervisor shared]; rewrite ?E1, ?E7; try done.
  - unfold current_ok; rewrite E2, E7; repeat case_match; try done; naive_solver.
  - constructor; rewrite ?E2, ?E3, ?E7; done.
  - constructor; cbn [handle worker supervisor shared]; by rewrite ?E4, ?E5, ?E6.
Qed.

(** A step that cancels the current operation. *)
Lemma sim_cancel p p' h h' w sv s s' :
  sim p {| handle := h; worker := w; supervisor := sv; shared := s |} ->
  Handle.sequence h' = Handle.sequence h -> Handle.latest h' = Handle.latest h ->
  Shared.mailbox s' = Shared.mailbox s -> 
  Shared.cancelled s' = Shared.cancelled (Shared.cancel (snd <$> Handle.latest h) s) ->
  count p' = count p -> 
  (p' = p /\ settled (Handle.pc h') = false \/ current p' = cancel_current (current p)) ->
  pc_ok p' h' s' -> flags_ok p' {| handle := h'; worker := w; supervisor := sv; shared := s' |} ->
  lock_ok {| handle := h'; worker := w; supervisor := sv; shared := s' |} ->
  sim p' {| handle := h'; worker := w; supervisor := sv; shared := s' |}.
Proof.
  intros Hsim E1 E2 E3 E4 E5 Hcur Hpc' Hfl' Hlock; open_sim Hsim; unfold current_ok in *.
  assert (Hmono : forall t, t ∈ Shared.cancelled s -> t ∈ Shared.cancelled s').
  { intros t Ht; rewrite E4; parts; destruct (Handle.latest h) as [[]|]; cbn; set_solver. }
  assert (Hc : forall id r c, current p' = Some (id, r, c) -> exists b, current p = Some (id, r, b)).
  { intros id r c; destruct Hcur as [[-> _] | ->]; [eauto |]; destruct (current p) as [[[? ?] ?]|]; cbn; naive_solver. }
  assert (Hj : forall j, job_ok p j -> job_ok p' j).
  { intros j (Ha & Hb & Hr); split_and!; [done | lia |]; intros r c Hrc; apply Hc in Hrc as [b Hb']; eauto. }
  assert (Hc' : forall id r b, current p = Some (id, r, b) -> exists c, current p' = Some (id, r, c)).
  { intros id r b Hb; destruct Hcur as [[-> _] | ->]; [eauto |]; rewrite Hb; cbn; eauto. }
  constructor; cbn [handle worker supervisor shared]; try done; try lia.
  - intros t Ht; rewrite E4 in Ht; parts; rewrite E5; revert Ht; parts.
    destruct (Handle.latest h) as [[id token]|]; cbn; [| auto].
    destruct (current p) as [[[? ?] ?]|]; [| done]; destruct Hcurrent as (-> & -> & ? & _ & _); set_solver.
  - unfold current_ok; rewrite E2, E4, E5; parts; destruct (Handle.latest h) as [[id token]|], (current p) as [[[id' r'] c]|] eqn:Ep;
      try done; cbn [cancel_current] in Hcur; destruct Hcur as [[-> Hs] | ->]; rewrite ?Ep; try done; cbn [snd].
    + destruct Hcurrent as (-> & -> & ? & Hcc & _); split_and!; [done | done | done | set_solver |]; intros Hs'; congruence.
    + destruct Hcurrent as (-> & -> & ? & Hcc & _); split_and!; try done; set_solver.
  - constructor; rewrite ?E2, ?E3; [done | auto | auto | |].
    + intros j r Hr; destruct (Hresult j r Hr) as [? [|]]; auto.
    + intros c Hcm; destruct (Hcompleted c Hcm) as (r & b & Hb & Ha); destruct (Hc' _ _ _ Hb) as [b' Hb']; eauto.
Qed.


Lemma checked_next (n m : Z) : checked_add u64_max n 1 = Some m <-> m = n + 1 /\ n < u64_max.
Proof. unfold checked_add; case_match; zbool; naive_solver lia. Qed.

Lemma checked_last (n : Z) : n <= u64_max -> checked_add u64_max n 1 = None <-> n = u64_max.
Proof. unfold checked_add; case_match; zbool; naive_solver lia. Qed.

(** [submit], accepted: the request becomes the current one. *)
Lemma sim_publish p h w sv s r id :
  sim p {| handle := h; worker := w; supervisor := sv; shared := s |} -> Handle.pc h = SubmitPublishing r id ->
  exists p', promise_step p (Submitted r id) p' /\
    sim p' {| handle := {| Handle.sequence := id; Handle.latest := Some (id, id); Handle.pc := Between |};
              worker := w; supervisor := sv; shared := Shared.release (publish id r id) s |}.
Proof.
  intros Hsim Epc; open_sim Hsim; unfold pc_ok in Hpc; rewrite Epc in *; destruct Hpc as (-> & Hmax & Hopen).
  eexists; split; [by apply PromiseSubmitted |]; constructor; parts; try done; try lia.
  - intros t Ht; specialize (Htokens t Ht); lia.
  - unfold current_ok; parts; split_and!; [done | done | lia | done |]; intros _ Ht; specialize (Htokens _ Ht); lia.
  - assert (Hold : forall j, job_ok p j -> job_ok {| count := count p + 1; current := Some (count p + 1, r, false);
      closed := closed p; broken := broken p; down := down p |} j).
    { intros j (Ha & Hb & _); split_and!; cbn; [done | lia |]; intros r' c [= E]; lia. }
    constructor; parts; cbn [publish Mailbox.latest Mailbox.pending Mailbox.completed]; auto; [| done].
    intros j [= <-]; split_and!; cbn; [done | lia |]; by intros r' c [= <-].
  - rewrite ?Epc in *; unfold lock_ok; parts; cbn in Hlh; locks.
Qed.

(** [poll] under the mutex: the answer is what the promise allows. *)
Lemma sim_poll p h w sv s id cancelled m completion :
  sim p {| handle := h; worker := w; supervisor := sv; shared := s |} -> Handle.pc h = PollLocked id cancelled ->
  poll_mailbox (Shared.mailbox s) id cancelled (Shared.stopped s) = (m, completion) ->
  exists p', promise_step p (Polled (Ok completion)) p' /\
    sim p' {| handle := {| Handle.sequence := Handle.sequence h;
                           Handle.latest := match completion with Some _ => None | None => Handle.latest h end;
                           Handle.pc := Between |};
              worker := w; supervisor := sv; shared := Shared.release m s |}.
Proof.
  intros Hsim Epc Hpoll; pose proof Hsim as Hsim0; open_sim Hsim; unfold pc_ok in Hpc; rewrite Epc in *; destruct Hpc as [r Hcur].
  assert (Hl : lock_ok {| handle := {| Handle.sequence := Handle.sequence h;
    Handle.latest := match completion with Some _ => None | None => Handle.latest h end; Handle.pc := Between |};
    worker := w; supervisor := sv; shared := Shared.release m s |}) by (unfold lock_ok; parts; cbn in Hlh; locks).
  destruct completion as [c|].
  - assert (Hc : Completion.operation_id c = id /\ Completion.result c <> Panic /\
      (cancelled = true -> Completion.result c = Err DocumentReviewOperationError.Cancelled) /\
      (cancelled = false -> Completion.result c = answer r \/
         (Completion.result c = Err DocumentReviewOperationError.Stopped /\ down p = true))).
    { unfold poll_mailbox in Hpoll; destruct cancelled; [injection Hpoll as _ <-; cbn; split_and!; try done |]; split_and!.
      all: destruct (Mailbox.completed _) as [c'|] eqn:Ec; [destruct (Z.eqb_spec (Completion.operation_id c') id) as [Eid |] |];
        try (destruct (Shared.stopped s) eqn:Est); injection Hpoll as _ ?; subst; try done; try (intros _; right; split; [done | apply Hdown; auto]).
      all: destruct (Hcompleted c eq_refl) as (r' & b & Hr & Ha & Hnp); first [exact Hnp | intros _; left; congruence]. }
    destruct c as [cid cres]; cbn in Hc; destruct Hc as (-> & Hnp & Ht & Hf).
    eexists; split; [by eapply PromiseAnswered |].
    assert (Em : Mailbox.latest m = None /\ Mailbox.completed m = None /\
      (Mailbox.pending m = None \/ Mailbox.pending m = Mailbox.pending (Shared.mailbox s))).
    { unfold poll_mailbox in Hpoll; destruct cancelled; injection Hpoll as <- E; rewrite ?E; auto. }
    destruct Em as (E1 & E2 & E3); constructor; parts; try done.
    constructor; parts; rewrite ?E1, ?E2; try done.
    + intros j Hj; destruct E3 as [E3 | E3]; [congruence |]; rewrite E3 in Hj; destruct (Hpending j Hj) as (? & ? & _); done.
    + intros j Hj; destruct (Hjob j Hj) as (? & ? & _); done.
  - assert (cancelled = false) as -> by (unfold poll_mailbox in Hpoll; by destruct cancelled).
    exists p; split; [apply PromiseUnanswered; intros id' r' c'; rewrite Hcur; by intros [= _ _ <-] |].
    assert (Em : m = {| Mailbox.latest := Mailbox.latest (Shared.mailbox s); Mailbox.pending := Mailbox.pending (Shared.mailbox s);
      Mailbox.completed := None |}) by (unfold poll_mailbox in Hpoll; injection Hpoll as <- ->; done).
    subst m; constructor; parts; try done.
    unfold current_ok in *; parts; by rewrite Epc in *.
Qed.


(** A step of the handle that moves it and the mutex. *)
Ltac move_handle Hsim Epc :=
  eapply sim_move; [exact Hsim | done | done | done | done | done | done | done | by rewrite Epc | |
    open_sim Hsim; unfold lock_ok; parts; rewrite ?Epc in *; cbn [handle_holds] in *; locks].

Lemma handle_sim p h h' w sv s s' e :
  handle_step (h, s) e (h', s') ->
  sim p {| handle := h; worker := w; supervisor := sv; shared := s |} ->
  exists p', promise_observe p e p' /\ sim p' {| handle := h'; worker := w; supervisor := sv; shared := s' |}.
Proof.
  intros Hstep Hsim; pose proof (sim_range _ _ Hsim) as Hr; pose proof (sim_pc _ _ Hsim) as Hp; unfold pc_ok in Hp.
  pose proof (sim_count _ _ Hsim) as Hn; pose proof (sim_flags _ _ Hsim) as [Hf1 Hf2 Hf3 Hf4].
  cbn [handle worker supervisor shared] in *.
  inversion Hstep as [? ? r Epc Hs | ? ? r id Epc Hs Hl | ? ? r id Epc Hs Hl Hpo | ? ? r id Epc Hs Hl Hpo | ? ? r id Epc Hfl
    | ? ? r id Epc Hfl | ? ? r id Epc | ? ? r id token Epc Ht | ? ? r id Epc | ? ? Epc Hl | ? ? x Epc Hx Hl | ? ? x Epc Hx Hl Hpo
    | ? ? id token Epc Hx Hl Hpo | ? ? id c m completion Epc Hpoll | ? ? Epc | ? ? Epc | ? ? Epc]; subst; clear Hstep;
    rewrite Epc in Hp.
  - exists p; split; [| done]; apply PromiseFailed; right; left; split; [done |]; rewrite Hn in Hs; apply checked_last in Hs; [done | lia].
  - exists p; split; [| done]; apply PromiseFailed; by left.
  - exists p; split; [| done]; apply PromiseFailed; right; right; split; [done |]; apply Hf3; rewrite <- Hf2; auto.
  - rewrite Hn in Hs; apply checked_next in Hs; exists p; split; [done |]; move_handle Hsim Epc; unfold pc_ok; parts; tauto.
  - exists p; split.
    + apply PromiseFailed; right; right; split; [done |]; apply Hf3; apply orb_true_iff in Hfl as [Hfl | Hfl]; [left; congruence | auto].
    + move_handle Hsim Epc; done.
  - exists p; split; [done |]; apply orb_false_iff in Hfl as [Hfl _]; move_handle Hsim Epc; unfold pc_ok; parts; rewrite <- Hf1; tauto.
  - exists p; split; [done |]; eapply (sim_cancel p); [exact Hsim | done | done | done | done | done | by left | unfold pc_ok; by parts | |].
    + constructor; parts; done.
    + open_sim Hsim; unfold lock_ok; parts; rewrite ?Epc in *; cbn [handle_holds] in *; locks.
  - eexists; split; [apply PromisePanicked |]; eapply (sim_cancel p); [exact Hsim | done | done | done | by rewrite Ht | done | by right | done | |].
    + constructor; parts; try done.
    + open_sim Hsim; unfold lock_ok; parts; rewrite ?Epc in *; cbn [handle_holds] in *; locks.
  - by eapply sim_publish.
  - exists p; split; [| done]; apply PromiseUnanswered; intros id r c Hc; pose proof (sim_current _ _ Hsim) as Hcur.
    unfold current_ok in Hcur; cbn [handle shared] in Hcur; by rewrite Hl, Hc in Hcur.
  - exists p; split; [| done]; apply PromiseUnavailable; by left.
  - exists p; split; [| done]; apply PromiseUnavailable; right; split; [done | congruence].
  - exists p; split; [done |]; assert (Hc : exists r, current p = Some (id, r, Shared.is_cancelled s token)).
    { pose proof (sim_current _ _ Hsim) as Hcur; unfold current_ok in Hcur; cbn [handle shared] in Hcur; rewrite Hx, Epc in Hcur.
      destruct (current p) as [[[id' r] c]|]; [| done]; destruct Hcur as (-> & -> & _ & H1 & H2); exists r; repeat f_equal.
      unfold Shared.is_cancelled; destruct c; symmetry; [apply bool_decide_eq_true_2; auto |].
      apply bool_decide_eq_false_2; intros Hin; by specialize (H2 eq_refl Hin). }
    move_handle Hsim Epc; unfold pc_ok; parts; done.
  - by eapply sim_poll.
  - eexists; split; [apply PromiseCancelled |]; eapply (sim_cancel p); [exact Hsim | done | done | done | done | done | by right | unfold pc_ok; by rewrite Epc | |].
    + constructor; parts; done.
    + open_sim Hsim; unfold lock_ok; parts; rewrite ?Epc in *; cbn [handle_holds] in *; locks.
  - exists p; split; [done |]; eapply (sim_cancel p); [exact Hsim | done | done | done | done | done | by left | | |].
    + unfold pc_ok; parts; intros id token ->; parts; set_solver.
    + constructor; parts; done.
    + open_sim Hsim; unfold lock_ok; parts; rewrite ?Epc in *; cbn [handle_holds] in *; locks.
  - eexists; split; [apply PromiseClosed |]; eapply (sim_cancel p); [exact Hsim | done | done | done | | done | by right | done | |].
    + parts; destruct (Handle.latest h) as [[id token]|]; [| done]; parts; specialize (Hp id token eq_refl); set_solver.
    + constructor; parts; done.
    + open_sim Hsim; unfold lock_ok; parts; rewrite ?Epc in *; cbn [handle_holds] in *; locks.
Qed.


(** A background step changes neither the handle nor the tokens; what it has
    to keep is the mailbox, the flags and the mutex. *)
Lemma sim_background p p' h w w' sv sv' s s' :
  sim p {| handle := h; worker := w; supervisor := sv; shared := s |} ->
  count p' = count p -> current p' = current p -> closed p' = closed p ->
  Shared.cancelled s' = Shared.cancelled s ->
  mailbox_ok p h w' s' -> flags_ok p' {| handle := h; worker := w'; supervisor := sv'; shared := s' |} ->
  lock_ok {| handle := h; worker := w'; supervisor := sv'; shared := s' |} ->
  sim p' {| handle := h; worker := w'; supervisor := sv'; shared := s' |}.
Proof.
  intros Hsim E1 E2 E3 E4 [M1 M2 M3 M4 M5] Hfl Hlock; open_sim Hsim.
  assert (Hj : forall j, job_ok p j -> job_ok p' j) by (unfold job_ok; by rewrite E1, E2).
  constructor; cbn [handle worker supervisor shared]; rewrite ?E1, ?E4; try done.
  - unfold current_ok in *; by rewrite E1, E2, E4.
  - unfold pc_ok in *; by rewrite E1, E2, E3, E4.
  - constructor; auto; by rewrite E2.
Qed.

Ltac downs Hdown :=
  try (intros [Hx | [Hx | [Hx | [Hx | Hx]]]]; try discriminate Hx; apply Hdown;
    first [by auto | left; congruence | right; left; congruence]).

Lemma worker_sim p h w w' sv s s' e :
  worker_step review (w, s) e (w', s') ->
  sim p {| handle := h; worker := w; supervisor := sv; shared := s |} ->
  exists p', promise_observe p e p' /\ sim p' {| handle := h; worker := w'; supervisor := sv; shared := s' |}.
Proof.
  intros Hstep Hsim; pose proof Hsim as Hsim0; open_sim Hsim.
  inversion Hstep as [? ? Hw Hl Hpo | ? ? Hw Hl Hpo | ? Hm Hd | ? Hm | ? Hd | ? j Hd Hm | ? Hd Hm | ? j | ? j signal r Hsig Hr Hnp
    | ? j | ? j r Hl Hpo | ? j r Hd | ? j r Hd | ? j r]; subst; clear Hstep; cbn [worker_job worker_result worker_holds] in *.
  all: repeat match goal with |- context [if Shared.is_cancelled ?s ?t then Locking else _] => destruct (Shared.is_cancelled s t) eqn:Ec end.
  all: match goal with
    | |- exists _, promise_observe _ (Some WorkerLost) _ /\ _ => eexists; split; [apply PromiseLost |]
    | _ => exists p; split; [done |] end;
    (eapply sim_background; [exact Hsim0 | done | done | done | done | | |];
     [constructor; parts; try done | constructor; parts; try done; downs Hdown;
       try (first [clear - Hthreads Hw | clear - Hthreads]; destruct sv; naive_solver)
     | unfold lock_ok; parts; try locks]).
  - intros j' [= <-]; by apply Hpending.
  - intros j' r [= <- <-]; destruct (Hjob j eq_refl) as (Hid & _); split; [by destruct (review _ _) |].
    destruct Hsig as [-> | Hc]; [by right |]; left; rewrite <- Hid; by apply bool_decide_eq_true in Hc.
  - unfold deliver; by destruct (_ && _).
  - unfold deliver; by destruct (_ && _).
  - intros c; unfold deliver; destruct (negb _ && _) eqn:Ed; [| auto]; intros [= <-]; cbn [Completion.operation_id Completion.result].
    destruct (Hjob j eq_refl) as (Hid & _ & Hreq); rewrite Hid in Ed; unfold Shared.is_cancelled in Ed; zbool.
    destruct (Hresult j r eq_refl) as [Hnp [Hc | Er]]; [done |].
    rewrite Hlatest in *; unfold current_ok in Hcurrent.
    destruct (Handle.latest h) as [[id token]|], (current p) as [[[id' r'] b]|]; try done; cbn in *; simplify_eq.
    destruct Hcurrent as (-> & _); exists r', b; split_and!; [done | | done]; by rewrite (Hreq r' b eq_refl).
Qed.

Lemma supervisor_sim p h w w' sv sv' s s' e :
  supervisor_step (sv, w, s) e (sv', w', s') ->
  sim p {| handle := h; worker := w; supervisor := sv; shared := s |} ->
  exists p', promise_observe p e p' /\ sim p' {| handle := h; worker := w'; supervisor := sv'; shared := s' |}.
Proof.
  intros Hstep Hsim; pose proof Hsim as Hsim0; open_sim Hsim.
  inversion Hstep as [? ? | ? ? | ? | ? ? Hl Hpo | ? ? Hl Hpo | ? ? | ? ?]; subst; clear Hstep; cbn [worker_job worker_result worker_holds] in *.
  all: match goal with
    | |- exists _, promise_observe _ (Some WorkerLost) _ /\ _ => eexists; split; [apply PromiseLost |]
    | _ => exists p; split; [done |] end;
    (eapply sim_background; [exact Hsim0 | done | done | done | done | | |];
     [constructor; parts; try done | constructor; parts; try done; downs Hdown
     | unfold lock_ok; parts; try locks]).
  - rewrite Hthreads in *; locks.
  - by right.
  - by left.
  - intros c; unfold clear; parts; destruct (Shared.shutdown s); [done | auto].
Qed.

Lemma step_sim p sys sys' e :
  step review sys e sys' -> sim p sys -> exists p', promise_observe p e p' /\ sim p' sys'.
Proof.
  intros Hstep Hsim; inversion Hstep as [| ? ? ? Hb]; subst; [by eapply handle_sim |].
  inversion Hb; subst; [by eapply worker_sim | by eapply supervisor_sim].
Qed.

Lemma run_sim h sys : run review h sys -> exists p, promise_run h p /\ sim p sys.
Proof.
  induction 1 as [| h sys e sys' _ (p & Hrun & Hsim) Hstep].
  - exists promised; split; [constructor |]; constructor; try done.
    constructor; parts; try done; naive_solver.
  - destruct (step_sim p sys sys' e Hstep Hsim) as (p' & Hobs & Hsim'); exists p'; split; [| done].
    destruct e as [e|]; cbn in *; [by eapply PromiseStep | by subst; rewrite app_nil_r].
Qed.


(** C34. The background operation refines a sequential promise.  Whatever the
    interleaving of the handle, the worker and the supervisor, the events a
    caller sees are those of an object that holds at most one current
    request: a request is accepted under the next identity and replaces the
    current one, which is never answered any more; a refused request changes
    nothing and is refused only while the mailbox is busy, identities are
    exhausted or the operation is going down; the current request is answered
    at most once, with its own identity, and with the result the review
    service gives for exactly this request when nobody cancels it, or with the
    cancellation if the caller asked for it, or as stopped after the worker
    was lost or shut down. *)
Theorem operation_refines h sys : run review h sys -> exists p, promise_run h p.
Proof. intros (p & Hp & _)%run_sim; eauto. Qed.

End Refinement.
