(* ===== verification/ReviewOperationLive.v ===== *)
(** * Background document review: every accepted request is answered.

    Where the current request is while it waits for its answer, and a bound
    on the steps of the worker and the supervisor after which a poll of the
    handle has one. *)

From S2P Require Import Prelude Text Policy Protection CandidateCheck DocumentReview DocumentReviewOperation.
From S2P Require Import ReviewOperationProps.

Section Liveness.
Variable review : DocumentReviewRequest.t -> ReviewSignal -> Result DocumentReviewError.t DocumentReviewResult.t.

(** ** Every accepted request is answered *)

Lemma promise_closed h p id r c : promise_run review h p -> closed p = true -> current p = Some (id, r, c) -> c = true.
Proof.
  intros Hrun; revert id r c; induction Hrun as [| h p e p' _ IH Hstep]; [done |]; intros id r c.
  destruct Hstep; cbn; try congruence; eauto; try (intros _; destruct (current p) as [[[? ?] ?]|]; cbn; by intros [=]).
Qed.

(** Where the current request is, unless it was cancelled or the worker is gone. *)
Definition tracked (sys : System) : Prop :=
  forall id token, Handle.latest (handle sys) = Some (id, token) -> id ∉ Shared.cancelled (shared sys) ->
  Shared.poisoned (shared sys) = false ->
  (exists c, Mailbox.completed (Shared.mailbox (shared sys)) = Some c /\ Completion.operation_id c = id) \/
  (exists j, Mailbox.pending (Shared.mailbox (shared sys)) = Some j /\ Job.id j = id) \/
  (exists j, worker_job (worker sys) = Some j /\ Job.id j = id) \/
  worker sys = Returned \/ past_join (supervisor sys) = true.

Lemma tracked_handle p h h' w sv s s' e :
  handle_step (h, s) e (h', s') -> sim review p {| handle := h; worker := w; supervisor := sv; shared := s |} ->
  tracked {| handle := h; worker := w; supervisor := sv; shared := s |} ->
  tracked {| handle := h'; worker := w; supervisor := sv; shared := s' |}.
Proof.
  intros Hstep Hsim Htr; inversion Hstep; subst; clear Hstep; try exact Htr; unfold tracked in *; parts.
  all: cbn [handle worker supervisor shared] in Htr; try (intros id' token' Hl Hn Hpo; try rewrite Hl in Hn; apply (Htr id' token' Hl); [set_solver | done]).
  - intros id' token' [= <- <-] _ _; right; left; cbn; eauto.
  - intros id' token' Hl Hn Hpo; destruct completion as [|]; [done |].
    open_sim Hsim; unfold pc_ok in Hpc; match goal with H : Handle.pc h = _ |- _ => rewrite H in * end; destruct Hpc as [r Hcur].
    destruct (Htr id' token' Hl Hn Hpo) as [(c & Hc & Eid) | [(j & Hj & Eid) | Hrest]]; [| | auto].
    all: match goal with H : poll_mailbox _ _ _ _ = _ |- _ => unfold poll_mailbox in H; rewrite ?Hc in H end.
    + unfold current_ok in Hcurrent; rewrite Hl, Hcur in Hcurrent; destruct Hcurrent as (-> & _).
      destruct cancelled; [done |]; by rewrite Eid, Z.eqb_refl in *.
    + destruct cancelled; [done |]; simplify_eq; cbn [Mailbox.pending]; right; left; eauto.
Qed.

Lemma tracked_worker p h w w' sv s s' e :
  worker_step review (w, s) e (w', s') -> sim review p {| handle := h; worker := w; supervisor := sv; shared := s |} ->
  (closed p = true -> forall id r c, current p = Some (id, r, c) -> c = true) ->
  tracked {| handle := h; worker := w; supervisor := sv; shared := s |} ->
  tracked {| handle := h; worker := w'; supervisor := sv; shared := s' |}.
Proof.
  intros Hstep Hsim Hcl Htr id token Hl Hn Hpo; parts; cbn [handle worker supervisor shared] in *.
  assert (Hopen : Shared.shutdown s = true -> id ∈ Shared.cancelled s).
  { open_sim Hsim; rewrite Hclosed; intros Hc; unfold current_ok in Hcurrent; rewrite Hl in Hcurrent.
    destruct (current p) as [[[id' r] c]|] eqn:Ec; [| done]; destruct Hcurrent as (-> & -> & _ & Hin & _); apply Hin, (Hcl Hc _ _ _ eq_refl). }
  assert (Htoken : forall j, worker_job w = Some j -> Job.id j = id -> Job.cancellation j = id).
  { intros j Hj <-; by apply (mb_worker _ _ _ _ _ (sim_mailbox _ _ _ Hsim)). }
  assert (Hm : Mailbox.latest (Shared.mailbox s) = Some id).
  { pose proof (mb_latest _ _ _ _ _ (sim_mailbox _ _ _ Hsim)) as Hm; cbn [handle worker supervisor shared] in Hm; by rewrite Hm, Hl. }
  inversion Hstep; subst; clear Hstep; cbn [Shared.release Shared.acquire Shared.cancelled Shared.poisoned Shared.mailbox] in *;
    specialize (Htr id token Hl Hn Hpo); cbn [worker_job handle worker supervisor shared] in *;
    try (by auto); try (by destruct (Hn (Hopen ltac:(assumption))));
    destruct Htr as [Hc | [(j & Hj & Ej) | [(j & Hj & Ej) | [Hr | Hr]]]]; try discriminate Hr; try (by auto 6); simplify_eq;
    try (by right; left; eauto); try (by left; eauto); try (by right; right; left; eauto).
  - by match goal with H : _ = Locking \/ _ = Waiting |- _ => destruct H; subst end.
  - by match goal with H : _ = Locking \/ _ = Waiting |- _ => destruct H; subst end.
  - rewrite (Htoken j eq_refl eq_refl); unfold Shared.is_cancelled; rewrite bool_decide_eq_false_2 by done; eauto 6.
  - unfold deliver; destruct (_ && _) eqn:Ed; [left; zbool; simplify_eq; eexists; split; [done |]; cbn; congruence | by left].
  - unfold deliver; destruct (_ && _); right; left; eauto.
  - unfold deliver; rewrite (Htoken j eq_refl eq_refl), Hm; unfold Shared.is_cancelled.
    rewrite bool_decide_eq_false_2, bool_decide_eq_true_2 by done; left; by eexists.
Qed.

Lemma tracked_supervisor p h w w' sv sv' s s' e :
  supervisor_step (sv, w, s) e (sv', w', s') -> sim review p {| handle := h; worker := w; supervisor := sv; shared := s |} ->
  tracked {| handle := h; worker := w; supervisor := sv; shared := s |} ->
  tracked {| handle := h; worker := w'; supervisor := sv'; shared := s' |}.
Proof.
  intros Hstep Hsim Htr id token Hl Hn Hpo; pose proof (fl_threads _ _ (sim_flags _ _ _ Hsim)) as Hth.
  cbn [handle worker supervisor shared] in *; inversion Hstep; subst; cbn [past_join threads_ok] in *; auto 6.
  specialize (Htr id token Hl Hn Hpo); cbn in Htr; naive_solver.
Qed.

Lemma run_tracked h sys : run review h sys -> exists p, promise_run review h p /\ sim review p sys /\ tracked sys.
Proof.
  induction 1 as [| h sys e sys' Hrun (p & Hp & Hsim & Htr) Hstep].
  - destruct (run_sim review [] started (RunStart review)) as (p & Hp & Hsim); exists p; split_and!; [done | done |].
    intros id token; done.
  - assert (Htr' : tracked sys').
    { pose proof (promise_closed h p) as Hcl.
      inversion Hstep as [| ? ? ? Hb]; subst; [by eapply tracked_handle |].
      inversion Hb; subst; [eapply tracked_worker; eauto | by eapply tracked_supervisor]. }
    destruct (step_sim review p sys sys' e Hstep Hsim) as (p' & Hobs & Hsim'); exists p'; split_and!; [| done | done].
    destruct e as [e|]; cbn in *; [by eapply PromiseStep | by subst; rewrite app_nil_r].
Qed.

(** ** The bound *)

(** What a poll that is not interrupted returns. *)
Definition poll_now (sys : System) : Result DocumentReviewOperationError.t (option Completion.t) :=
  match Handle.latest (handle sys) with
  | None => Ok None
  | Some (id, token) =>
      match Shared.lock (shared sys) with
      | Some _ => Err DocumentReviewOperationError.Busy
      | None =>
          if Shared.poisoned (shared sys) then Err DocumentReviewOperationError.Stopped
          else Ok (snd (poll_mailbox (Shared.mailbox (shared sys)) id (Shared.is_cancelled (shared sys) token)
                          (Shared.stopped (shared sys))))
      end
  end.

(** The handle can show this event next, in one step or two. *)
Definition shows (sys : System) (e : Event) : Prop :=
  exists sys', step review sys (Some e) sys' \/ exists sys1, step review sys None sys1 /\ step review sys1 (Some e) sys'.

Lemma poll_now_shown sys : Handle.pc (handle sys) = Between -> shows sys (Polled (poll_now sys)).
Proof.
  destruct sys as [h w sv s]; cbn [handle]; intros Hpc; unfold poll_now; cbn [handle shared].
  destruct (Handle.latest h) as [[id token]|] eqn:Hl; [| eexists; left; constructor; by constructor].
  destruct (Shared.lock s) eqn:Hk; [eexists; left; constructor; econstructor; [done | done | by rewrite Hk] |].
  destruct (Shared.poisoned s) eqn:Hp; [eexists; left; constructor; by econstructor |].
  eexists; right; eexists; split; [constructor; by eapply PollLock |]; constructor; eapply PollTake; [done |].
  cbn [Shared.acquire Shared.mailbox Shared.stopped]; apply surjective_pairing.
Qed.

(** A poll that settles the current request. *)
Definition final (r : Result DocumentReviewOperationError.t (option Completion.t)) : bool :=
  match r with Ok (Some _) | Err DocumentReviewOperationError.Stopped => true | _ => false end.

(** Whatever the worker and the supervisor do, after at most [n] of their
    steps a poll is final; and until then they can do a step. *)
Inductive answered_within : nat -> System -> Prop :=
| AnsweredNow n sys : final (poll_now sys) = true -> answered_within n sys
| AnsweredLater n sys :
    (exists e sys', background review sys e sys') ->
    (forall e sys', background review sys e sys' -> answered_within n sys') ->
    answered_within (S n) sys.

Definition worker_rank (pending : bool) (w : WorkerPc) : nat :=
  match w with
  | NotSpawned => 20
  | Locking | Waiting => if pending then 11 else 0
  | Holding => if pending then 10 else 2
  | Taking => if pending then 9 else 1
  | Starting _ => if pending then 16 else 8
  | Running _ => if pending then 15 else 7
  | Finished _ _ => if pending then 14 else 6
  | Storing _ _ => if pending then 13 else 5
  | Delivering _ _ => if pending then 12 else 4
  | Returned => 0
  end.
Definition supervisor_rank (sv : SupervisorPc) : nat :=
  match sv with Spawning => 5 | Joining => 4 | Cleaning => 3 | Clearing => 2 | Stopping => 1 | Supervised => 0 end.
Definition rank (sys : System) : nat :=
  worker_rank (match Mailbox.pending (Shared.mailbox (shared sys)) with Some _ => true | None => false end) (worker sys)
  + supervisor_rank (supervisor sys).

Lemma rank_bound sys : (rank sys <= 25)%nat.
Proof. unfold rank; destruct (worker sys), (supervisor sys); cbn; repeat case_match; lia. Qed.

(** A worker without work has delivered the current request, or a poll is final. *)
Lemma idle_final p sys :
  sim review p sys -> tracked sys -> Handle.latest (handle sys) <> None -> Shared.lock (shared sys) = None ->
  worker sys = Locking \/ worker sys = Waiting -> Mailbox.pending (Shared.mailbox (shared sys)) = None ->
  final (poll_now sys) = true.
Proof.
  intros Hsim Htr Hl Hk Hw Hp; unfold poll_now; destruct (Handle.latest (handle sys)) as [[id token]|] eqn:El; [| done].
  rewrite Hk; destruct (Shared.poisoned _) eqn:Epo; [done |].
  pose proof (sim_current _ _ _ Hsim) as Hcur; unfold current_ok in Hcur; rewrite El in Hcur.
  destruct (current p) as [[[id' r] c]|]; [| done]; destruct Hcur as (-> & -> & _).
  unfold poll_mailbox, Shared.is_cancelled; destruct (bool_decide_reflect (id ∈ Shared.cancelled (shared sys))) as [|Hn]; [done |].
  pose proof (fl_threads _ _ (sim_flags _ _ _ Hsim)) as Hth.
  destruct (Htr id id El Hn Epo) as [(c' & -> & <-) | [(j & Hj & _) | [(j & Hj & _) | [Hr | Hr]]]]; [by rewrite Z.eqb_refl | congruence | | | ].
  - by destruct Hw as [Hw | Hw]; rewrite Hw in Hj.
  - by destruct Hw as [Hw | Hw]; rewrite Hw in Hr.
  - exfalso; unfold threads_ok in Hth; destruct (supervisor sys), Hw as [Hw | Hw]; rewrite Hw in Hth; naive_solver.
Qed.

(** A background step makes progress, or a poll was final before it. *)
Lemma worker_rank_step p h w w' sv s s' e :
  worker_step review (w, s) e (w', s') -> sim review p {| handle := h; worker := w; supervisor := sv; shared := s |} ->
  tracked {| handle := h; worker := w; supervisor := sv; shared := s |} -> Handle.latest h <> None ->
  final (poll_now {| handle := h; worker := w; supervisor := sv; shared := s |}) = true \/
  (rank {| handle := h; worker := w'; supervisor := sv; shared := s' |}
   < rank {| handle := h; worker := w; supervisor := sv; shared := s |})%nat.
Proof.
  intros Hstep Hsim Htr Hl; pose proof (idle_final _ _ Hsim Htr Hl) as Hidle; cbn [handle worker supervisor shared] in Hidle.
  inversion Hstep; subst; unfold rank; cbn [handle worker supervisor shared Shared.release Shared.acquire Shared.mailbox].
  2: left; unfold poll_now; cbn [handle shared]; destruct (Handle.latest h) as [[]|]; [| done];
    by match goal with H1 : Shared.lock _ = None, H2 : Shared.poisoned _ = true |- _ => rewrite H1, H2 end.
  all: try match goal with |- context [deliver ?m ?j ?r ?c] => assert (Mailbox.pending (deliver m j r c) = Mailbox.pending m) as ->
    by (unfold deliver; by destruct (_ && _)) end.
  all: destruct (Mailbox.pending (Shared.mailbox _)) eqn:Ep; cbn [take_pending Mailbox.pending]; try discriminate;
    try match goal with |- context [if Shared.is_cancelled ?s ?t then Locking else _] => destruct (Shared.is_cancelled s t) end;
    try (right; cbn [worker_rank]; lia).
  - right; match goal with H : _ \/ _ |- _ => destruct H; subst; cbn [worker_rank]; lia end.
  - left; apply Hidle; auto.
Qed.

Lemma supervisor_rank_step p h w w' sv sv' s s' e :
  supervisor_step (sv, w, s) e (sv', w', s') -> sim review p {| handle := h; worker := w; supervisor := sv; shared := s |} ->
  (rank {| handle := h; worker := w'; supervisor := sv'; shared := s' |}
   < rank {| handle := h; worker := w; supervisor := sv; shared := s |})%nat.
Proof.
  intros Hstep Hsim; pose proof (fl_threads _ _ (sim_flags _ _ _ Hsim)) as Hth; cbn [worker supervisor shared] in Hth.
  inversion Hstep; subst; unfold rank, threads_ok in *; cbn [worker supervisor shared Shared.release Shared.acquire Shared.set_stopped
    Shared.mailbox supervisor_rank clear Mailbox.pending]; try lia; subst.
  - cbn [worker_rank]; case_match; lia.
  - destruct Hth as [-> | ->]; cbn [worker_rank]; lia.
Qed.

Lemma worker_enabled w s :
  worker_holds w = true \/ Shared.lock s = None -> w <> NotSpawned -> w <> Returned ->
  exists e w' s', worker_step review (w, s) e (w', s').
Proof.
  intros Hk Hn Hr; destruct w as [| | | | | job | job | job r | job r | job r |]; try done; cbn in Hk.
  - destruct Hk as [|Hk]; [done |]; destruct (Shared.poisoned s) eqn:E; do 3 eexists; [eapply WorkerPoisoned | eapply WorkerLock]; eauto.
  - destruct (Mailbox.pending (Shared.mailbox s)) eqn:E; [do 3 eexists; apply WorkerLeave; left; congruence |].
    destruct (Shared.shutdown s) eqn:E'; do 3 eexists; [apply WorkerLeave; by right | by apply WorkerWait].
  - destruct Hk as [|Hk]; [done |]; destruct (Shared.poisoned s) eqn:E; do 3 eexists; [eapply WorkerPoisoned | eapply WorkerLock]; eauto.
  - destruct (Shared.shutdown s) eqn:E'; [do 3 eexists; by apply WorkerReturn |].
    destruct (Mailbox.pending (Shared.mailbox s)) eqn:E; do 3 eexists; [by eapply WorkerTake | by apply WorkerAgain].
  - do 3 eexists; apply WorkerStart.
  - destruct (review (Job.request job) quiet) eqn:E; do 3 eexists; [| | apply WorkerPanic];
      (eapply (WorkerReview _ _ _ quiet); [by left | reflexivity | rewrite E; discriminate]).
  - destruct Hk as [|Hk]; [done |]; destruct (Shared.poisoned s) eqn:E; do 3 eexists; [eapply WorkerPoisoned | by eapply WorkerRelock]; eauto.
  - destruct (Shared.shutdown s) eqn:E'; do 3 eexists; [by apply WorkerDiscard | by apply WorkerKeep].
  - do 3 eexists; apply WorkerDeliver.
Qed.

Lemma supervisor_enabled sv w s :
  supervisor_holds sv = true \/ Shared.lock s = None -> w = NotSpawned \/ w = Returned ->
  threads_ok sv w (Shared.stopped s) -> sv <> Supervised ->
  exists e sv' w' s', supervisor_step (sv, w, s) e (sv', w', s').
Proof.
  intros Hk Hw Hth Hn; destruct sv; try done; cbn in Hk, Hth.
  - do 4 eexists; apply SupervisorSpawn.
  - destruct Hw as [| ->]; [done |]; do 4 eexists; apply SupervisorJoin.
  - destruct Hk as [|Hk]; [done |]; destruct (Shared.poisoned s) eqn:E; do 4 eexists; [by apply SupervisorPoisoned | by apply SupervisorLock].
  - do 4 eexists; apply SupervisorClear.
  - do 4 eexists; apply SupervisorStop.
Qed.

Lemma stopped_final sys :
  Handle.latest (handle sys) <> None -> Shared.lock (shared sys) = None -> Shared.stopped (shared sys) = true ->
  final (poll_now sys) = true.
Proof.
  intros Hl Hk Hs; unfold poll_now; destruct (Handle.latest _) as [[id token]|]; [| done]; rewrite Hk, Hs.
  destruct (Shared.poisoned _); [done |]; unfold poll_mailbox; destruct (Shared.is_cancelled _ _); [done |].
  destruct (Mailbox.completed _) as [c|]; [by destruct (_ =? _) | done].
Qed.

(** Until a poll is final the background can do a step. *)
Lemma background_enabled p sys :
  sim review p sys -> Handle.pc (handle sys) = Between -> Handle.latest (handle sys) <> None ->
  final (poll_now sys) = true \/ exists e sys', background review sys e sys'.
Proof.
  intros Hsim Hpc Hl; pose proof (sim_lock _ _ _ Hsim) as (Hlh & Hlw & Hls).
  pose proof (fl_threads _ _ (sim_flags _ _ _ Hsim)) as Hth; pose proof (stopped_final sys Hl) as Hstop.
  destruct sys as [h w sv s]; cbn [handle worker supervisor shared] in *.
  assert (HW : (exists e w' s', worker_step review (w, s) e (w', s')) ->
    exists e sys', background review {| handle := h; worker := w; supervisor := sv; shared := s |} e sys').
  { intros (e & w' & s' & H); do 2 eexists; by apply StepWorker. }
  assert (HS : (exists e sv' w' s', supervisor_step (sv, w, s) e (sv', w', s')) ->
    exists e sys', background review {| handle := h; worker := w; supervisor := sv; shared := s |} e sys').
  { intros (e & sv' & w' & s' & H); do 2 eexists; by apply StepSupervisor. }
  destruct (Shared.lock s) as [[| |]|] eqn:Hk.
  - rewrite Hpc in Hlh; discriminate (proj1 Hlh eq_refl).
  - right; apply HW, worker_enabled; [left; tauto | |]; intros ->; discriminate (proj1 Hlw eq_refl).
  - right; destruct sv; try discriminate (proj1 Hls eq_refl); apply HS; do 4 eexists; apply SupervisorClear.
  - assert (Hw : (w = NotSpawned \/ w = Returned) \/ (w <> NotSpawned /\ w <> Returned)) by (clear; destruct w; auto).
    destruct Hw as [Hw | [? ?]]; [| right; apply HW, worker_enabled; auto].
    destruct sv; try (right; apply HS, supervisor_enabled; auto; done); left; apply Hstop; [done | apply Hth].
Qed.

Lemma answered_rank n h sys :
  run review h sys -> Handle.pc (handle sys) = Between -> Handle.latest (handle sys) <> None -> (rank sys <= n)%nat ->
  answered_within n sys.
Proof.
  revert h sys; induction n as [|n IH]; intros h sys Hrun Hpc Hl Hn;
    destruct (run_tracked h sys Hrun) as (p & _ & Hsim & Htr); destruct (final (poll_now sys)) eqn:Hf; try by apply AnsweredNow.
  all: destruct (background_enabled p sys Hsim Hpc Hl) as [| Hen]; [congruence |].
  all: assert (Hdec : forall e sys', background review sys e sys' -> (rank sys' < rank sys)%nat)
    by (intros e sys' Hb; inversion Hb; subst; [| by eapply supervisor_rank_step];
        edestruct worker_rank_step as [|]; [done | done | done | done | congruence | done]).
  - destruct Hen as (e & sys' & Hb); specialize (Hdec e sys' Hb); lia.
  - apply AnsweredLater; [done |]; intros e sys' Hb; specialize (Hdec e sys' Hb).
    eapply (IH (h ++ observe e)); [eapply RunStep; [done | by apply StepBackground] | | | lia]; by inversion Hb; subst.
Qed.

(** C35. Every accepted request is answered.  In every state a run can reach
    with a request that has not been answered and no call in progress, and
    however the worker and the supervisor proceed from there, a poll is final
    after at most twenty-five of their steps: it returns the completion, or
    reports the operation as stopped; before that they are never stuck.  A
    poll never waits: it can always show its result in at most two steps of
    its own.  In particular no request is lost when it is submitted while the
    worker is busy, waits, panics or is being cleaned up. *)
Theorem operation_answers h sys :
  run review h sys -> Handle.pc (handle sys) = Between ->
  shows sys (Polled (poll_now sys)) /\ (Handle.latest (handle sys) <> None -> answered_within 25 sys).
Proof.
  intros Hrun Hpc; split; [by apply poll_now_shown |]; intros Hl; eapply answered_rank; [done | done | done | apply rank_bound].
Qed.

End Liveness.
