(* ===== verification/DocumentReviewState.v ===== *)
(** * The state of a document review ([app/src/document_review_state.rs]).

    The reducer a presentation layer owns: it submits to one background
    operation, keeps the identity and the sizes of the latest accepted
    request, and settles it with the completion a poll returns.  The reducer
    runs together with the interleaved system of [DocumentReviewOperation],
    and its state is exactly a function of what was accepted and answered. *)

From S2P Require Import Prelude Text Policy Protection CandidateCheck DocumentReview DocumentReviewOperation.
From S2P Require Import ReviewOperationProps ReviewOperationLive.

Inductive DocumentReviewPhase := PhaseIdle | PhaseLoading | PhaseReady | PhaseCancelled | PhaseFailed.

Module InputDisclosure.
Record t := { source_bytes : Z; candidate_bytes : option Z }.
End InputDisclosure.

Inductive Outcome :=
| Idle
| Loading
| Ready (result : DocumentReviewResult.t)
| CancelledReview
| Failed (e : DocumentReviewOperationError.t).

(** [DocumentReviewState] without the operation it owns. *)
Module ReviewState.
Record t := {
  current : option DocumentReviewOperationId;
  disclosure : option InputDisclosure.t;
  cancellation_requested : bool;
  outcome : Outcome
}.

(** [with_operation]. *)
Definition new : t := {| current := None; disclosure := None; cancellation_requested := false; outcome := Idle |}.
Definition with_outcome (o : Outcome) (st : t) : t := {|
  current := current st; disclosure := disclosure st; cancellation_requested := cancellation_requested st; outcome := o |}.

Definition is_loading (st : t) : bool := match outcome st with Loading => true | _ => false end.

(** [phase], [result] and [error]. *)
Definition phase (st : t) : DocumentReviewPhase :=
  match outcome st with
  | Idle => PhaseIdle | Loading => PhaseLoading | Ready _ => PhaseReady
  | CancelledReview => PhaseCancelled | Failed _ => PhaseFailed
  end.
Definition result (st : t) : option DocumentReviewResult.t := match outcome st with Ready r => Some r | _ => None end.
Definition error (st : t) : option DocumentReviewOperationError.t := match outcome st with Failed e => Some e | _ => None end.

(** What [submit] discloses of a request. *)
Definition disclose (r : DocumentReviewOperationRequest) : InputDisclosure.t := {|
  InputDisclosure.source_bytes := source_bytes r; InputDisclosure.candidate_bytes := candidate_bytes r |}.

(** [submit] once the operation accepted the request. *)
Definition accept (r : DocumentReviewOperationRequest) (id : DocumentReviewOperationId) (st : t) : t := {|
  current := Some id; disclosure := Some (disclose r); cancellation_requested := false; outcome := Loading |}.

(** [cancel], when it signals the operation. *)
Definition request_cancellation (st : t) : t := {|
  current := current st; disclosure := disclosure st; cancellation_requested := true; outcome := outcome st |}.

(** [apply]: the state and whether the completion was accepted.  A completion
    holds a value the worker stored, which is no panic. *)
Definition apply (completion : Completion.t) (st : t) : t * bool :=
  if negb (is_loading st) || negb (bool_decide (current st = Some (Completion.operation_id completion)))
  then (st, false)
  else
    (with_outcome
       match Completion.result completion with
       | Ok result => Ready result
       | Err DocumentReviewOperationError.Cancelled
       | Err (DocumentReviewOperationError.Review DocumentReviewError.Cancelled) => CancelledReview
       | Err e => Failed e
       | Panic => Loading
       end st, true).

(** [poll] on the result of the operation's poll: the state, the result, and
    whether it cancels the operation. *)
Definition settle (r : Result DocumentReviewOperationError.t (option Completion.t)) (st : t)
  : t * Result DocumentReviewOperationError.t bool * bool :=
  match r with
  | Ok (Some completion) => let '(st', accepted) := apply completion st in (st', Ok accepted, false)
  | Ok None => (st, Ok false, false)
  | Err DocumentReviewOperationError.Busy => (st, Err DocumentReviewOperationError.Busy, false)
  | Err e =>
      if is_loading st then (with_outcome (Failed e) st, Ok true, true) else (st, Err e, false)
  | Panic => (st, Panic, false)
  end.
End ReviewState.

Section State.
Variable review : DocumentReviewRequest.t -> ReviewSignal -> Result DocumentReviewError.t DocumentReviewResult.t.

(** The reducer and the operation it owns: every event of the operation is
    the result of a call of the reducer. *)
Inductive state_step : System * ReviewState.t -> list Event -> System * ReviewState.t -> Prop :=
| StateSilent sys sys' st :
    step review sys None sys' -> state_step (sys, st) [] (sys', st)
| StateBackground sys sys' st e :
    background review sys (Some e) sys' -> state_step (sys, st) [e] (sys', st)
| StateSubmitted sys sys' st r id :
    step review sys (Some (Submitted r id)) sys' ->
    state_step (sys, st) [Submitted r id] (sys', ReviewState.accept r id st)
| StateRefused sys sys' st r e :
    step review sys (Some (SubmissionFailed r e)) sys' -> state_step (sys, st) [SubmissionFailed r e] (sys', st)
| StatePanicked sys sys' st r :
    step review sys (Some (SubmissionPanicked r)) sys' -> state_step (sys, st) [SubmissionPanicked r] (sys', st)
| StatePolled sys sys' st r st' x :
    step review sys (Some (Polled r)) sys' -> ReviewState.settle r st = (st', x, false) ->
    state_step (sys, st) [Polled r] (sys', st')
| StatePolledStopped sys sys1 sys' st r st' x :
    step review sys (Some (Polled r)) sys1 -> ReviewState.settle r st = (st', x, true) ->
    step review sys1 (Some CancelRequested) sys' ->
    state_step (sys, st) [Polled r; CancelRequested] (sys', st')
| StateCancel sys sys' st :
    ReviewState.is_loading st = true -> step review sys (Some CancelRequested) sys' ->
    state_step (sys, st) [CancelRequested] (sys', ReviewState.request_cancellation st)
| StateShutdown sys sys' st :
    step review sys (Some ShutdownRequested) sys' -> state_step (sys, st) [ShutdownRequested] (sys', st).

Inductive state_run : list Event -> System -> ReviewState.t -> Prop :=
| StateStart : state_run [] started ReviewState.new
| StateStep h sys st es sys' st' :
    state_run h sys st -> state_step (sys, st) es (sys', st') -> state_run (h ++ es) sys' st'.

(** The operation runs as it does under any caller. *)
Lemma state_run_run h sys st : state_run h sys st -> run review h sys.
Proof.
  induction 1 as [| h sys st es sys' st' _ IH Hstep]; [constructor |].
  assert (Hone : forall e, step review sys e sys' -> run review (h ++ observe e) sys') by (intros; by eapply RunStep).
  inversion Hstep; subst; try (by apply (Hone (Some _))); [by apply (Hone None) | by apply (Hone (Some _)), StepBackground |].
  match goal with |- run _ (_ ++ [?a; ?b]) _ => change [a; b] with (observe (Some a) ++ observe (Some b)) end.
  rewrite app_assoc; eapply RunStep; [by eapply RunStep | done].
Qed.

(** ** The latest accepted request *)

(** With its identity, and whether its cancellation was asked for. *)
Definition note (last : option (DocumentReviewOperationId * DocumentReviewOperationRequest * bool)) (e : Event) :=
  match e with
  | Submitted r id => Some (id, r, false)
  | CancelRequested | ShutdownRequested | SubmissionPanicked _ => cancel_current last
  | _ => last
  end.
Definition last_accepted (h : list Event) := foldl note None h.

Lemma last_accepted_snoc h e : last_accepted (h ++ [e]) = note (last_accepted h) e.
Proof. unfold last_accepted; by rewrite foldl_app. Qed.

Lemma promise_last h p : promise_run review h p -> current p = None \/ current p = last_accepted h.
Proof.
  induction 1 as [| h p e p' _ IH Hstep]; [by left |]; rewrite last_accepted_snoc.
  destruct Hstep; cbn [current note]; auto; destruct IH as [-> | ->]; auto.
Qed.

(** What each outcome says of the latest accepted request. *)
Definition outcome_ok (last : option (DocumentReviewOperationId * DocumentReviewOperationRequest * bool))
    (waiting : Prop) (o : Outcome) : Prop :=
  match o with
  | Idle => last = None
  | Loading => waiting
  | Ready result => exists id r c, last = Some (id, r, c) /\ review r quiet = Ok result
  | CancelledReview => exists id r c, last = Some (id, r, c) /\
      (c = true \/ review r quiet = Err DocumentReviewError.Cancelled)
  | Failed e => exists id r c, last = Some (id, r, c) /\
      (e = DocumentReviewOperationError.Stopped \/
       exists re, e = DocumentReviewOperationError.Review re /\ re <> DocumentReviewError.Cancelled /\ review r quiet = Err re)
  end.

Record state_ok (last : option (DocumentReviewOperationId * DocumentReviewOperationRequest * bool))
    (waiting : Prop) (st : ReviewState.t) : Prop := {
  ok_current : ReviewState.current st = (fun '(id, _, _) => id) <$> last;
  ok_disclosure : ReviewState.disclosure st = (fun '(_, r, _) => ReviewState.disclose r) <$> last;
  ok_outcome : outcome_ok last waiting (ReviewState.outcome st)
}.

(** An event that is no acceptance and no answer keeps the state right. *)
Lemma state_ok_cancel last (P Q : Prop) st :
  (P -> Q) -> state_ok last P st -> state_ok (cancel_current last) Q st.
Proof.
  intros HPQ [H1 H2 H3]; destruct last as [[[id r] c]|]; cbn [cancel_current] in *; constructor; try done.
  all: destruct (ReviewState.outcome st); cbn in *; try done; auto; naive_solver.
Qed.

(** The answer to the current request settles a loading review. *)
Lemma state_ok_apply p p' (last : option (DocumentReviewOperationId * DocumentReviewOperationRequest * bool)) c st (Q : Prop) :
  promise_step review p (Polled (Ok (Some c))) p' -> current p = last ->
  state_ok last (current p <> None) st -> state_ok last Q (fst (ReviewState.apply c st)).
Proof.
  intros Hstep Hl [H1 H2 H3]; inversion Hstep as [| | | | | ? id r b result Hcur Hnp Ht Hf | | |]; subst.
  rewrite Hcur in *; unfold ReviewState.apply, ReviewState.is_loading; cbn [Completion.operation_id Completion.result] in *.
  destruct (ReviewState.outcome st) eqn:Eo; cbn [negb orb fst]; try (constructor; [done | done | by rewrite Eo]).
  cbn in H1; rewrite bool_decide_eq_true_2 by done; cbn [negb orb fst]; constructor; [done | done |]; cbn [ReviewState.with_outcome ReviewState.outcome].
  destruct b; [specialize (Ht eq_refl); subst; cbn; eauto 8 |].
  destruct (Hf eq_refl) as [E | [E _]]; subst; [| cbn; eauto 8]; unfold answer in *.
  destruct (review r quiet) as [x | [] |] eqn:Er; cbn; try done; eauto 12.
Qed.

Lemma sim_waiting p sys : sim review p sys -> current p <> None <-> Handle.latest (handle sys) <> None.
Proof.
  intros Hsim; pose proof (sim_current _ _ _ Hsim) as Hc; unfold current_ok in Hc.
  destruct (Handle.latest _) as [[? ?]|], (current p) as [[[? ?] ?]|]; naive_solver.
Qed.

(** A poll settles the review with what the operation returned. *)
Lemma state_ok_settle p p' h r st st' x cancels :
  promise_run review h p -> promise_step review p (Polled r) p' -> ReviewState.settle r st = (st', x, cancels) ->
  state_ok (last_accepted h) (current p <> None) st ->
  state_ok (last_accepted h) (current p' <> None) st'.
Proof.
  intros Hrun Hstep Hs Hok; destruct r as [[c|] | e |]; cbn in Hs.
  - assert (Hc : current p = last_accepted h).
    { destruct (promise_last h p Hrun) as [E |]; [| done]; inversion Hstep; congruence. }
    destruct (ReviewState.apply c st) eqn:E; simplify_eq.
    pose proof (state_ok_apply p p' _ c st (current p' <> None) Hstep Hc Hok) as H; by rewrite E in H.
  - simplify_eq; inversion Hstep; subst; done.
  - assert (p' = p) as -> by (by inversion Hstep).
    assert (Hcase : e = DocumentReviewOperationError.Busy \/ e = DocumentReviewOperationError.Stopped)
      by (inversion Hstep; naive_solver).
    destruct Hcase as [-> | ->]; cbn in Hs; [by simplify_eq |]; unfold ReviewState.is_loading in Hs.
    destruct (ReviewState.outcome st) eqn:Eo; simplify_eq; try done.
    destruct Hok as [H1 H2 H3]; rewrite Eo in H3; cbn in H3; constructor; try done; cbn.
    destruct (promise_last h p Hrun) as [E | E]; [congruence |]; rewrite <- E in *.
    destruct (current p) as [[[id r] c]|]; [| done]; eauto 8.
  - inversion Hstep.
Qed.

Lemma promise_run_step h sys p e sys' :
  step review sys (Some e) sys' -> promise_run review h p -> sim review p sys ->
  exists p', promise_step review p e p' /\ promise_run review (h ++ [e]) p' /\ sim review p' sys'.
Proof.
  intros Hstep Hrun Hsim; destruct (step_sim review p sys sys' _ Hstep Hsim) as (p' & Hobs & Hsim').
  exists p'; split_and!; [done | by eapply PromiseStep | done].
Qed.

Lemma state_run_ok h sys st :
  state_run h sys st -> exists p, promise_run review h p /\ sim review p sys /\
    state_ok (last_accepted h) (current p <> None) st.
Proof.
  induction 1 as [| h sys st es sys' st' _ (p & Hrun & Hsim & Hok) Hstep].
  { destruct (run_sim review [] started (RunStart review)) as (p & Hp & Hsim); exists p; split_and!; [done | done |]; by constructor. }
  inversion Hstep as [? ? ? Hs | ? ? ? e Hs | ? ? ? r id Hs | ? ? ? r e Hs | ? ? ? r Hs | ? ? ? r ? x Hs Hset
    | ? sys1 ? ? r ? x Hs Hset Hs' | ? ? ? Hload Hs | ? ? ? Hs]; subst; clear Hstep.
  - destruct (step_sim review p sys sys' _ Hs Hsim) as (p' & -> & Hsim'); rewrite app_nil_r; eauto.
  - assert (e = WorkerLost) as -> by (inversion Hs; subst; by match goal with H : worker_step _ _ _ _ |- _ => inversion H
      | H : supervisor_step _ _ _ |- _ => inversion H end).
    apply StepBackground in Hs; destruct (promise_run_step h _ p _ _ Hs Hrun Hsim) as (p' & Hp & Hrun' & Hsim').
    exists p'; rewrite last_accepted_snoc; split_and!; [done | done |]; inversion Hp; subst; done.
  - destruct (promise_run_step h _ p _ _ Hs Hrun Hsim) as (p' & Hp & Hrun' & Hsim'); exists p'.
    rewrite last_accepted_snoc; split_and!; [done | done |]; inversion Hp; subst; by constructor.
  - destruct (promise_run_step h _ p _ _ Hs Hrun Hsim) as (p' & Hp & Hrun' & Hsim'); exists p'.
    rewrite last_accepted_snoc; split_and!; [done | done |]; by inversion Hp; subst.
  - destruct (promise_run_step h _ p _ _ Hs Hrun Hsim) as (p' & Hp & Hrun' & Hsim'); exists p'.
    rewrite last_accepted_snoc; split_and!; [done | done |]; inversion Hp; subst; cbn [note current].
    eapply state_ok_cancel; [| exact Hok]; by destruct (current p) as [[[? ?] ?]|].
  - destruct (promise_run_step h _ p _ _ Hs Hrun Hsim) as (p' & Hp & Hrun' & Hsim'); exists p'.
    rewrite last_accepted_snoc; split_and!; [done | done |]; cbn [note]; by eapply state_ok_settle.
  - destruct (promise_run_step h _ p _ _ Hs Hrun Hsim) as (p1 & Hp & Hrun1 & Hsim1).
    destruct (promise_run_step _ _ p1 _ _ Hs' Hrun1 Hsim1) as (p' & Hp' & Hrun' & Hsim'); exists p'.
    rewrite <- app_assoc in Hrun'; split_and!; [done | done |].
    change [Polled r; CancelRequested] with ([Polled r] ++ [CancelRequested]); rewrite app_assoc, !last_accepted_snoc; cbn [note].
    inversion Hp'; subst; eapply state_ok_cancel; [| eapply state_ok_settle; done]; cbn [current].
    by destruct (current p1) as [[[? ?] ?]|].
  - destruct (promise_run_step h _ p _ _ Hs Hrun Hsim) as (p' & Hp & Hrun' & Hsim'); exists p'.
    rewrite last_accepted_snoc; split_and!; [done | done |]; inversion Hp; subst; cbn [note current].
    assert (Hok' : state_ok (last_accepted h) (current p <> None) (ReviewState.request_cancellation st)) by (by destruct Hok; constructor).
    eapply state_ok_cancel; [| exact Hok']; by destruct (current p) as [[[? ?] ?]|].
  - destruct (promise_run_step h _ p _ _ Hs Hrun Hsim) as (p' & Hp & Hrun' & Hsim'); exists p'.
    rewrite last_accepted_snoc; split_and!; [done | done |]; inversion Hp; subst; cbn [note current].
    eapply state_ok_cancel; [| exact Hok]; by destruct (current p) as [[[? ?] ?]|].
Qed.

(** C36. The review state always describes the latest accepted request.  In
    every run of the reducer with its operation, the identity and the
    disclosed sizes are those of the last request that was accepted; it shows
    a result only if the review service returns exactly this result for that
    request, a cancellation only if it was asked for after the acceptance (or
    the service itself reports one), a failure only for the error of the
    service on that request or a stopped operation; while it is loading, the
    operation still holds the request, so a later poll settles it. *)
Theorem review_state_exact h sys st :
  state_run h sys st ->
  ReviewState.current st = (fun '(id, _, _) => id) <$> last_accepted h /\
  ReviewState.disclosure st = (fun '(_, r, _) => ReviewState.disclose r) <$> last_accepted h /\
  outcome_ok (last_accepted h) (last_accepted h <> None /\ Handle.latest (handle sys) <> None) (ReviewState.outcome st).
Proof.
  intros (p & Hrun & Hsim & [H1 H2 H3])%state_run_ok; split_and!; [done | done |].
  destruct (ReviewState.outcome st); cbn in *; try done; split; [| by eapply sim_waiting].
  destruct (promise_last h p Hrun); congruence.
Qed.

End State.
