(* ===== verification/Profile.v ===== *)
(** * Style profiles ([types/src/profile.rs]).

    Three profiles a caller may supply: the voice of a person, the
    constraints of a brand and the brief of one document, with the rules each
    must meet before it is used. *)

From S2P Require Import Prelude Text Float32 Document Rewrite Extract Protection Policy LintText.

Definition PERSONAL_VOICE_PROFILE_SCHEMA_VERSION : Z := 1.
Definition BRAND_CONSTRAINT_PROFILE_SCHEMA_VERSION : Z := 1.
Definition EDITORIAL_BRIEF_SCHEMA_VERSION : Z := 1.
Definition MAX_PROFILE_ID_CHARS : Z := 64.
Definition MAX_PROFILE_ENTRIES : Z := 256.

Inductive ProfileValidationError :=
| ProfileUnsupportedSchema (version : Z) | EmptyId | IdTooLong (length : Z) | TooManyEntries (count : Z)
| EmptyTerm | InvalidLayout.

(** [str::trim]. *)
Definition trim (s : text) : text := trim_end (trim_start s).
Definition is_blank_term (s : text) : bool := slen (trim s) =? 0.

(** [validate_profile_id]. *)
Definition validate_profile_id (id : text) : Result ProfileValidationError unit :=
  if is_blank_term id then Err EmptyId
  else if MAX_PROFILE_ID_CHARS <? slen id then Err (IdTooLong (slen id))
  else Ok tt.

(** [validate_layout]. *)
Definition validate_layout (l : LayoutConstraints) : Result ProfileValidationError unit :=
  if match character_budget l with
     | Some budget =>
         match min_characters budget, max_characters budget with
         | Some minimum, Some maximum => maximum <? minimum
         | _, _ => false
         end
     | None => false
     end
  then Err InvalidLayout
  else if match line_budget l with
          | Some budget => match max_lines budget with Some maximum => maximum =? 0 | None => false end
          | None => false
          end
  then Err InvalidLayout
  else Ok tt.

(** The loops that refuse a blank entry. *)
Definition validate_terms (terms : list text) : Result ProfileValidationError unit :=
  try_for_each (fun term => if is_blank_term term then Err EmptyTerm else Ok tt) terms.

Module VocabularyPreference.

Record t := mk { preferred : text; avoided : text }.

(** [VocabularyPreference::validate]. *)
Definition validate (p : t) : Result ProfileValidationError unit :=
  if is_blank_term (preferred p) || is_blank_term (avoided p) then Err EmptyTerm else Ok tt.

End VocabularyPreference.

Inductive FormalityLevel := Casual | FormalityBalanced | Formal.
Inductive DirectnessLevel := Concise | DirectnessBalanced | Elaborate.

Module PersonalVoiceProfile.

Record t := mk {
  schema_version : Z;
  id : text;
  formality : option FormalityLevel;
  directness : option DirectnessLevel;
  target_sentence_words : option Z;
  allow_contractions : bool;
  vocabulary_preferences : list VocabularyPreference.t
}.

(** [PersonalVoiceProfile::validate]. *)
Definition validate (p : t) : Result ProfileValidationError unit :=
  if negb (schema_version p =? PERSONAL_VOICE_PROFILE_SCHEMA_VERSION)
  then Err (ProfileUnsupportedSchema (schema_version p))
  else
    _ ← validate_profile_id (id p);
    if MAX_PROFILE_ENTRIES <? vlen (vocabulary_preferences p)
    then Err (TooManyEntries (vlen (vocabulary_preferences p)))
    else try_for_each VocabularyPreference.validate (vocabulary_preferences p).

End PersonalVoiceProfile.

Module CopyRules.

Record t := mk {
  headline_max_words : option Z;
  cta_begins_with_verb : bool;
  avoid_periods_in_bullets : bool;
  sentence_case_headings : bool
}.

(** [CopyRules::default] and [CopyRules::is_default]. *)
Definition default : t := mk None false false false.
Definition is_default (r : t) : bool :=
  match headline_max_words r with None => true | Some _ => false end
  && negb (cta_begins_with_verb r) && negb (avoid_periods_in_bullets r) && negb (sentence_case_headings r).

End CopyRules.

Module BrandConstraintProfile.

Record t := mk {
  schema_version : Z;
  id : text;
  protected_terms : list text;
  term_substitutions : list VocabularyPreference.t;
  prohibited_terms : list text;
  layout : option LayoutConstraints;
  copy_rules : CopyRules.t
}.

(** [BrandConstraintProfile::validate]. *)
Definition validate (p : t) : Result ProfileValidationError unit :=
  if negb (schema_version p =? BRAND_CONSTRAINT_PROFILE_SCHEMA_VERSION)
  then Err (ProfileUnsupportedSchema (schema_version p))
  else
    _ ← validate_profile_id (id p);
    let total_entries := vlen (protected_terms p) + vlen (term_substitutions p) + vlen (prohibited_terms p) in
    if MAX_PROFILE_ENTRIES <? total_entries then Err (TooManyEntries total_entries)
    else
      _ ← validate_terms (protected_terms p);
      _ ← try_for_each VocabularyPreference.validate (term_substitutions p);
      _ ← validate_terms (prohibited_terms p);
      match layout p with Some l => validate_layout l | None => Ok tt end.

End BrandConstraintProfile.

Module EditorialBrief.

Record t := mk {
  schema_version : Z;
  id : text;
  edit_level : EditLevel;
  audience : option text;
  protected_claims : list text;
  protected_terms : list text;
  layout : option LayoutConstraints
}.

(** [EditorialBrief::validate]. *)
Definition validate (b : t) : Result ProfileValidationError unit :=
  if negb (schema_version b =? EDITORIAL_BRIEF_SCHEMA_VERSION)
  then Err (ProfileUnsupportedSchema (schema_version b))
  else
    _ ← validate_profile_id (id b);
    let total_entries := vlen (protected_claims b) + vlen (protected_terms b) in
    if MAX_PROFILE_ENTRIES <? total_entries then Err (TooManyEntries total_entries)
    else
      _ ← validate_terms (protected_claims b);
      _ ← validate_terms (protected_terms b);
      match layout b with Some l => validate_layout l | None => Ok tt end.

End EditorialBrief.

(** ** Lemmas *)

Lemma trim_start_nil s : trim_start s = [] <-> Forall (fun c => is_whitespace c = true) s.
Proof.
  unfold trim_start; induction s as [|c s IH]; [done |]; cbn [trim_start_by]; rewrite Forall_cons.
  destruct (is_whitespace c); [rewrite IH; tauto |]; split; [done | intros [? _]; done].
Qed.

Lemma in_rev_elem {A} (x : A) l : x ∈ l <-> x ∈ rev l.
Proof. rewrite !list_elem_of_In; apply in_rev. Qed.

(** A term is blank exactly when it has no character but white space. *)
Lemma blank_term_iff s : is_blank_term s = true <-> Forall (fun c => is_whitespace c = true) s.
Proof.
  unfold is_blank_term, trim, trim_end, trim_end_by; rewrite Z.eqb_eq.
  assert (H : slen (rev (trim_start_by is_whitespace (rev (trim_start s)))) = 0 <-> trim_start (rev (trim_start s)) = []).
  { split; [| by intros E; unfold trim_start at 1 in E; rewrite E].
    intros E; apply slen_nil_inv, (f_equal (@rev Z)) in E; by rewrite rev_involutive in E. }
  rewrite H, trim_start_nil, <- (trim_start_nil s); split; [| by intros ->].
  rewrite Forall_forall; setoid_rewrite <- in_rev_elem; intros Hall.
  destruct (trim_start s) as [|c r] eqn:E; [done |]; exfalso.
  assert (Hc : is_whitespace c = true) by (apply Hall; left).
  clear - E Hc; unfold trim_start in E; induction s as [|d s IH]; [done |]; cbn [trim_start_by] in E.
  destruct (is_whitespace d) eqn:Ed; [by apply IH |]; congruence.
Qed.

(** What a layout must meet. *)
Definition layout_consistent (l : LayoutConstraints) : Prop :=
  (forall budget minimum maximum, character_budget l = Some budget -> min_characters budget = Some minimum ->
     max_characters budget = Some maximum -> minimum <= maximum) /\
  (forall budget, line_budget l = Some budget -> max_lines budget <> Some 0).

Lemma validate_layout_ok l : validate_layout l = Ok tt <-> layout_consistent l.
Proof.
  unfold validate_layout, layout_consistent; split.
  - intros H; split; [intros b m n Hb Hm Hn | intros b Hb].
    + rewrite Hb, Hm, Hn in H; destruct (Z.ltb_spec n m); [done | lia].
    + destruct (match character_budget l with Some _ => _ | None => _ end); [done |]; rewrite Hb in H.
      intros E; by rewrite E in H.
  - intros [Hc Hl]; destruct (character_budget l) as [b|].
    + specialize (Hc b); destruct (min_characters b) as [m|], (max_characters b) as [n|];
        try rewrite (proj2 (Z.ltb_ge n m)) by (by apply Hc); destruct (line_budget l) as [lb|]; try done;
        specialize (Hl lb eq_refl); destruct (max_lines lb) as [k|]; try done; by rewrite (proj2 (Z.eqb_neq k 0)) by congruence.
    + destruct (line_budget l) as [lb|]; [| done]; specialize (Hl lb eq_refl); destruct (max_lines lb) as [k|]; [| done].
      by rewrite (proj2 (Z.eqb_neq k 0)) by congruence.
Qed.

Lemma validate_terms_ok terms : validate_terms terms = Ok tt <-> Forall (fun t => is_blank_term t = false) terms.
Proof.
  unfold validate_terms; rewrite try_for_each_ok; apply Forall_iff; intros t; by destruct (is_blank_term t).
Qed.

Lemma preferences_ok l :
  try_for_each VocabularyPreference.validate l = Ok tt <->
  Forall (fun p => is_blank_term (VocabularyPreference.preferred p) = false /\
                   is_blank_term (VocabularyPreference.avoided p) = false) l.
Proof.
  rewrite try_for_each_ok; apply Forall_iff; intros p; unfold VocabularyPreference.validate.
  destruct (is_blank_term _), (is_blank_term _); cbn; naive_solver.
Qed.

(** An identifier that passes. *)
Definition id_ok (id : text) : Prop := is_blank_term id = false /\ slen id <= MAX_PROFILE_ID_CHARS.

Lemma validate_profile_id_ok id : validate_profile_id id = Ok tt <-> id_ok id.
Proof.
  unfold validate_profile_id, id_ok; destruct (is_blank_term id); [naive_solver |].
  destruct (Z.ltb_spec MAX_PROFILE_ID_CHARS (slen id)) as [Hl|Hl]; split; [done | intros [_ ?]; lia | by intros _ | done].
Qed.

Lemma optional_layout_ok (o : option LayoutConstraints) :
  match o with Some l => validate_layout l | None => Ok tt end = Ok tt <-> from_option layout_consistent True o.
Proof. destruct o; cbn; [apply validate_layout_ok | done]. Qed.

Lemma then_ok {E} (m : Result E unit) (k : Result E unit) : (_ ← m; k) = Ok tt <-> m = Ok tt /\ k = Ok tt.
Proof. destruct m as [[]| |]; cbn; naive_solver. Qed.

Lemma brand_profile_ok p :
  BrandConstraintProfile.validate p = Ok tt <->
  BrandConstraintProfile.schema_version p = BRAND_CONSTRAINT_PROFILE_SCHEMA_VERSION /\
  id_ok (BrandConstraintProfile.id p) /\
  vlen (BrandConstraintProfile.protected_terms p) + vlen (BrandConstraintProfile.term_substitutions p)
    + vlen (BrandConstraintProfile.prohibited_terms p) <= MAX_PROFILE_ENTRIES /\
  Forall (fun t => is_blank_term t = false) (BrandConstraintProfile.protected_terms p) /\
  Forall (fun q => is_blank_term (VocabularyPreference.preferred q) = false /\
                   is_blank_term (VocabularyPreference.avoided q) = false) (BrandConstraintProfile.term_substitutions p) /\
  Forall (fun t => is_blank_term t = false) (BrandConstraintProfile.prohibited_terms p) /\
  from_option layout_consistent True (BrandConstraintProfile.layout p).
Proof.
  unfold BrandConstraintProfile.validate; destruct (Z.eqb_spec (BrandConstraintProfile.schema_version p) BRAND_CONSTRAINT_PROFILE_SCHEMA_VERSION) as [Hv|Hv];
    cbn [negb]; [| naive_solver]; rewrite then_ok, validate_profile_id_ok; cbv zeta.
  match goal with |- context [MAX_PROFILE_ENTRIES <? ?n] => destruct (Z.ltb_spec MAX_PROFILE_ENTRIES n) as [Hn|Hn] end.
  - split; [by intros [_ ?] |]; intros (_ & _ & ? & _); lia.
  - rewrite !then_ok, !validate_terms_ok, preferences_ok, optional_layout_ok; naive_solver.
Qed.

(** A brand profile passes validation exactly when its version is the
    current one, its identifier is not blank and at most 64 bytes, it has at
    most 256 entries over its three lists, no entry is blank and its layout
    is consistent; and a layout that passed here is never the reason the
    engine refuses its options. *)
Theorem brand_profile_exact (p : BrandConstraintProfile.t) (options : RewriteOptions) :
  (BrandConstraintProfile.validate p = Ok tt <->
   BrandConstraintProfile.schema_version p = BRAND_CONSTRAINT_PROFILE_SCHEMA_VERSION /\
   id_ok (BrandConstraintProfile.id p) /\
   vlen (BrandConstraintProfile.protected_terms p) + vlen (BrandConstraintProfile.term_substitutions p)
     + vlen (BrandConstraintProfile.prohibited_terms p) <= MAX_PROFILE_ENTRIES /\
   Forall (fun t => is_blank_term t = false) (BrandConstraintProfile.protected_terms p) /\
   Forall (fun q => is_blank_term (VocabularyPreference.preferred q) = false /\
                    is_blank_term (VocabularyPreference.avoided q) = false) (BrandConstraintProfile.term_substitutions p) /\
   Forall (fun t => is_blank_term t = false) (BrandConstraintProfile.prohibited_terms p) /\
   from_option layout_consistent True (BrandConstraintProfile.layout p)) /\
  (BrandConstraintProfile.validate p = Ok tt -> layout options = BrandConstraintProfile.layout p ->
   validate_rewrite_options options <> Err InvalidLayoutBudget).
Proof.
  split; [apply brand_profile_ok |]; rewrite brand_profile_ok; intros (_ & _ & _ & _ & _ & _ & Hl) Ho.
  unfold validate_rewrite_options; destruct (negb _); [done |]; destruct (negb _); [done |]; rewrite Ho.
  destruct (BrandConstraintProfile.layout p) as [l|]; cbn in Hl |- *; [| done]; destruct Hl as [Hl _].
  destruct (character_budget l) as [b|]; [| done]; specialize (Hl b).
  destruct (min_characters b) as [m|], (max_characters b) as [n|]; try done.
  by rewrite (proj2 (Z.ltb_ge n m)) by (by apply Hl).
Qed.

(** The identifier limit is named in characters and applied to bytes. *)
Lemma profile_id_counts_bytes :
  let id := replicate 33 0xE9 in
  scalars id /\ vlen id <= MAX_PROFILE_ID_CHARS /\ validate_profile_id id = Err (IdTooLong 66).
Proof. split_and!; [by repeat constructor | done | done]. Qed.
