(* ===== verification/Witnesses.v ===== *)
(** * Concrete instances of the theorems.

    The interfaces are instantiated with functions one can compute with: the
    ASCII tables, the reference regex engine and automaton, a small digest
    function and the editorial lint itself.  Each lemma evaluates the
    definitions on one input, so the hypotheses of the theorem it applies
    hold there. *)

From S2P Require Import Prelude Text Regex Float32 Document TextSafety Rewrite Claims Evidence.
From S2P Require Import TextAdapter Extract Protection Semantic Policy ClaimCompare SpanReport.
From S2P Require Import Cancellation Engine EngineProps CandidateCheck LintText Lint LintTheorems.

#[local] Existing Instance ascii_tables.
#[local] Existing Instance reference_regex.
#[local] Existing Instance reference_aho_corasick.
#[local] Existing Instance toy_sha256.

#[local] Existing Instance engine_lint.

Definition get {E A} (d : A) (m : Result E A) : A := match m with Ok a => a | _ => d end.

Lemma bytes_ok (l : bytes) : forallb (in_range 0 255) l = true -> Forall is_byte l.
Proof.
  rewrite forallb_forall, Forall_forall; intros H b Hb; apply list_elem_of_In, H, in_range_true in Hb.
  unfold is_byte; lia.
Qed.
Lemma scalars_ok (s : text) : forallb is_scalar s = true -> scalars s.
Proof. rewrite forallb_forall, Forall_forall; intros H b Hb; apply H, list_elem_of_In; done. Qed.

(** ** The demonstration document *)

Definition demo_body : text := lit "Pay 3 EUR".
Definition demo_text : text := lit "Pay 3 EUR.".
Definition demo_terms : list text := [lit "EUR"].
Definition demo_source : bytes := Eval vm_compute in as_bytes demo_body.
Definition demo_request : CandidateCheckRequest := new_request demo_source demo_text demo_terms.

(** A signal raised at the hundredth poll. *)
Definition late : Schedule := fun n => (100 <=? n)%nat.
Lemma late_monotone : monotone late.
Proof. intros i j Hij; unfold late; rewrite !Nat.leb_le; lia. Qed.

Definition demo_parsed : ParsedTextDocument := parsed_text false demo_body.
Definition demo_options : RewriteOptions := {|
  mode := Literal; atomicity := ADocument; protected_terms := demo_terms;
  minimum_semantic_confidence := 0x3F733333; edit_level := None; layout := None |}.
Definition demo_engine : RewriteEngine := {|
  generator := ProvidedCandidateGenerator [demo_text]; semantic := LiteralSemanticEvaluator;
  structure := PlainTextStructure demo_parsed; claim_shadow := None |}.
Definition demo_plan : ProtectionPlan :=
  get {| masked_source := []; values := []; plan_typed_counts := ∅ |} (build demo_body demo_terms).
Definition demo_outcome : EngineOutcome * nat :=
  get (abstained NoCandidate [], 0%nat) (run_counted demo_engine late (document demo_parsed) demo_options).

Lemma demo_run : run_counted demo_engine late (document demo_parsed) demo_options = Ok demo_outcome.
Proof. vm_compute; reflexivity. Defined.
Lemma demo_ran : run demo_engine late (document demo_parsed) demo_options = Ok (fst demo_outcome).
Proof. unfold run; rewrite demo_run; generalize demo_outcome; intros []; reflexivity. Defined.
Lemma demo_build : build demo_body demo_terms = Ok demo_plan.
Proof. vm_compute; reflexivity. Defined.
Lemma demo_parse : parse demo_source = Ok demo_parsed.
Proof. vm_compute; reflexivity. Defined.

Lemma check_output_safe_witness :
  exists result, check_with_claim_shadow demo_request late None = Ok result /\
    RewriteRecord.status (record result) = Rewritten /\
    exists bom body, req_source demo_request = bom_bytes bom ++ as_bytes body /\
      output result = bom_bytes bom ++ as_bytes demo_text /\ demo_text <> body /\
      faithful bom demo_terms None body demo_text.
Proof.
  pose (r := get {| output := []; record := RewriteRecord.new (DocumentIr.document_id (document demo_parsed))
    (sha256 []) (sha256 []) Failed None [] [] |} (check_with_claim_shadow demo_request late None)).
  assert (H : check_with_claim_shadow demo_request late None = Ok r) by (vm_compute; reflexivity).
  exists r; split; [exact H |]; split; [vm_compute; reflexivity |].
  apply (check_output_safe demo_request late None r); [apply bytes_ok; vm_compute; reflexivity |
    apply scalars_ok; vm_compute; reflexivity | exact H | vm_compute; reflexivity].
Defined.

Lemma engine_all_or_nothing_witness :
  out_status (fst demo_outcome) = Rewritten /\
  exists rs, Forall2 (accepted demo_engine late demo_options) (DocumentIr.rewrite_units (document demo_parsed)) rs /\
    edits (fst demo_outcome) = changed (DocumentIr.rewrite_units (document demo_parsed)) rs.
Proof.
  split; [vm_compute; reflexivity |].
  destruct (engine_all_or_nothing demo_engine late (document demo_parsed) demo_options (fst demo_outcome))
    as [(H & _) | (_ & _ & _ & H)]; [| vm_compute in H; discriminate H | exact H].
  exact demo_ran.
Defined.

Lemma protection_roundtrip_witness : restore demo_plan (masked_source demo_plan) = Ok demo_body.
Proof. apply (protection_roundtrip demo_body demo_text [] demo_terms demo_plan demo_build). Defined.

Lemma engine_cancellation_witness :
  out_status (fst demo_outcome) <> Abstained /\ forall i, (i < snd demo_outcome)%nat -> late i = false.
Proof.
  assert (Hs : out_status (fst demo_outcome) <> Abstained) by (vm_compute; discriminate).
  split; [exact Hs |].
  apply (engine_cancellation demo_engine late (document demo_parsed) demo_options (fst demo_outcome) (snd demo_outcome));
    [exact late_monotone | | rewrite demo_run; apply f_equal, surjective_pairing | exact Hs].
  intros request sched n; cbn [demo_engine generator ProvidedCandidateGenerator generate].
  destruct (sched n); cbn; lia.
Defined.

Lemma literal_applicable (s r : text) (m : RewriteMode) :
  SemanticAssessment.status (evaluate LiteralSemanticEvaluator s r m) <> NotApplicable.
Proof. cbn; unfold literal_evaluate; destruct (negb _); [done |]; destruct (bool_decide _); done. Qed.

Lemma engine_records_valid_witness :
  Forall (fun a => CandidateAssessment.validate a = Ok tt) (assessments (fst demo_outcome)) /\
  vlen (assessments (fst demo_outcome)) = 1.
Proof.
  split; [| vm_compute; reflexivity].
  apply (engine_records_valid demo_engine late (document demo_parsed) demo_options); [exact literal_applicable |].
  exact demo_ran.
Defined.

(** A request with an inverted character budget, and one that is in order. *)
Definition budget_request (minimum maximum : Z) : CandidateCheckRequest := {|
  req_source := demo_source; req_candidate := demo_text; req_protected_terms := demo_terms;
  req_layout := Some {| character_budget := Some {| min_characters := Some minimum; max_characters := Some maximum;
      max_expansion_percent := None |}; line_budget := None |};
  req_edit_level := None |}.

Lemma check_errors_witness :
  check_with_claim_shadow (budget_request 9 8) late None = Err (AppEngine InvalidLayoutBudget) /\
  (exists limits budget minimum maximum, req_layout (budget_request 9 8) = Some limits /\
    character_budget limits = Some budget /\ min_characters budget = Some minimum /\
    max_characters budget = Some maximum /\ maximum < minimum) /\
  is_ok (check_with_claim_shadow (budget_request 8 9) late None) = true /\ terms_contract demo_terms.
Proof.
  assert (H : check_with_claim_shadow (budget_request 9 8) late None = Err (AppEngine InvalidLayoutBudget))
    by (vm_compute; reflexivity).
  assert (Hok : is_ok (check_with_claim_shadow (budget_request 8 9) late None) = true) by (vm_compute; reflexivity).
  assert (Hb : Forall is_byte demo_source) by (apply bytes_ok; vm_compute; reflexivity).
  assert (Hc : scalars demo_text) by (apply scalars_ok; vm_compute; reflexivity).
  split; [exact H | split; [| split; [exact Hok |]]].
  - pose proof (check_errors (budget_request 9 8) late None Hb Hc) as He; rewrite H in He; exact He.
  - pose proof (check_errors (budget_request 8 9) late None Hb Hc) as He.
    destruct (check_with_claim_shadow (budget_request 8 9) late None); [exact (proj1 (proj2 (proj2 (proj2 He)))) | discriminate | discriminate].
Defined.

Definition never : Schedule := fun _ => false.


Lemma check_reassembly_witness :
  exists proposed, apply demo_parsed (edits (fst demo_outcome)) = Ok proposed /\ proposed = as_bytes demo_text.
Proof.
  destruct (check_reassembly demo_source demo_parsed demo_text demo_options late None (fst demo_outcome))
    as (p & H & _); [apply bytes_ok; vm_compute; reflexivity | apply scalars_ok; vm_compute; reflexivity |
      exact demo_parse | exact demo_ran |].
  exists p; split; [exact H |]; vm_compute in H; injection H as <-; vm_compute; reflexivity.
Defined.

Lemma engine_total_witness : run demo_engine late (document demo_parsed) demo_options <> Panic.
Proof.
  apply (engine_total demo_engine late (document demo_parsed) demo_options); intros request n.
  cbn [demo_engine generator ProvidedCandidateGenerator generate]; destruct (late n); discriminate.
Defined.

(** ** Rejections *)

Definition demo_unit : RewriteUnit :=
  default {| unit_id := RewriteUnitId.mk []; source_span := SourceSpan.mk 0 0; unit_text := [] |}
    (head (DocumentIr.rewrite_units (document demo_parsed))).
Definition bad_candidates : list GeneratedCandidate :=
  provided_candidates (unit_id demo_unit) 0 [lit "Paid 3 EUR"; lit "Pay 4 EUR"].
Definition rejected : UnitState * bool * nat :=
  get ({| eligible := []; unit_reason := None; unit_assessments := [] |}, false, 0%nat)
    (candidate_loop demo_engine late demo_unit demo_plan demo_options
       {| eligible := []; unit_reason := None; unit_assessments := [] |} 0 bad_candidates).

Lemma rejection_reason_most_severe_witness :
  unit_reason (fst (fst rejected)) = Some ProtectedValueChanged /\
  exists evs r, unit_reason (fst (fst rejected)) = Some r /\
    Exists (fun ev => eval_reason ev = Some r) evs /\
    Forall (fun ev => forall r', eval_reason ev = Some r' -> reason_priority r <= reason_priority r') evs.
Proof.
  split; [vm_compute; reflexivity |].
  destruct (rejection_reason_most_severe demo_engine late demo_unit demo_plan demo_options bad_candidates []
    (fst (fst rejected)) 0 (snd rejected)) as (evs & r & _ & H);
    [vm_compute; discriminate | vm_compute; reflexivity | vm_compute; reflexivity |].
  exists evs, r; exact H.
Defined.

(** ** Claims *)

Definition demo_digest (n : Z) : Digest.t := sha256 [n].
Definition demo_claim (id relation : Z) (p : ClaimPolarity) : ClaimEvidence.t :=
  get (ClaimEvidence.mk (demo_digest id) None (demo_digest relation) None p Asserted 0 false [] 0)
    (ClaimEvidence.new (demo_digest id) None (demo_digest relation) None p Asserted 0 false
       [SourceSpan.mk 0 3] f32_one).
Definition empty_set : ClaimEvidenceSet.t :=
  ClaimEvidenceSet.mk 0 [] [] (demo_digest 0) StatusFailed 0 (unit_id demo_unit) (demo_digest 0) 0 (demo_digest 0) [].
Definition demo_set (claims : list ClaimEvidence.t) : Result ClaimEvidenceError ClaimEvidenceSet.t :=
  ClaimEvidenceSet.new (lit "demo") (lit "1") (demo_digest 9) Complete 500000 (unit_id demo_unit) demo_body claims.
Definition source_set : ClaimEvidenceSet.t :=
  get empty_set (demo_set [demo_claim 1 5 Affirmed; demo_claim 2 6 Affirmed]).
Definition candidate_set : ClaimEvidenceSet.t :=
  get empty_set (demo_set [demo_claim 3 5 Negated; demo_claim 4 7 Affirmed]).

Lemma claim_compare_exact_witness :
  exists e, compare source_set candidate_set = Ok e /\
    ClaimComparisonEvidence.counts e = reference_counts source_set candidate_set /\
    ClaimComparisonCounts.polarity_conflicts (ClaimComparisonEvidence.counts e) = 1 /\
    ClaimComparisonCounts.missing_claims (ClaimComparisonEvidence.counts e) = 1 /\
    ClaimComparisonCounts.novel_claims (ClaimComparisonEvidence.counts e) = 1.
Proof.
  rewrite (claim_compare_exact source_set candidate_set);
    [| split; vm_compute; discriminate | split; vm_compute; discriminate].
  eexists; split; [vm_compute; reflexivity |]; vm_compute; repeat split.
Defined.

Lemma evidence_set_canonical_witness :
  demo_set [demo_claim 1 5 Affirmed; demo_claim 2 6 Affirmed]
  = demo_set [demo_claim 2 6 Affirmed; demo_claim 1 5 Affirmed].
Proof.
  assert (H : demo_set [demo_claim 1 5 Affirmed; demo_claim 2 6 Affirmed] = Ok source_set) by (vm_compute; reflexivity).
  rewrite H; symmetry.
  apply (evidence_set_canonical (lit "demo") (lit "1") (demo_digest 9) Complete 500000 (unit_id demo_unit) demo_body
    [demo_claim 1 5 Affirmed; demo_claim 2 6 Affirmed]); [apply perm_swap | exact H].
Defined.

Lemma ascii_ok (s : text) : forallb (in_range 0 127) s = true -> is_ascii_text s.
Proof.
  unfold is_ascii_text; rewrite forallb_forall, Forall_forall; intros H c Hc.
  apply list_elem_of_In, H, in_range_true in Hc; lia.
Qed.

Lemma in_range_u64 (v : Z) : in_range 0 (2 ^ 64 - 1) v = true -> is_u64 v.
Proof. rewrite in_range_true; unfold is_u64; lia. Qed.

(** The bounds of the canonical digest input, as a test one can evaluate. *)
Definition digest_okb (d : Digest.t) : bool :=
  forallb (in_range 0 127) (Digest.as_str d) && (vlen (Digest.as_str d) =? 64).
Definition claim_typedb (c : ClaimEvidence.t) : bool :=
  digest_okb (ClaimEvidence.claim_id c) && from_option digest_okb true (ClaimEvidence.subject_id c) &&
  digest_okb (ClaimEvidence.predicate_id c) && from_option digest_okb true (ClaimEvidence.object_id c) &&
  in_range 0 (2 ^ 16 - 1) (ClaimEvidence.condition_count c) &&
  in_range 0 (2 ^ 32 - 1) (ClaimEvidence.confidence_ppm c) &&
  (vlen (ClaimEvidence.evidence_spans c) <? 2 ^ 64) &&
  forallb (fun s => in_range 0 (2 ^ 64 - 1) (SourceSpan.start s) && in_range 0 (2 ^ 64 - 1) (SourceSpan.end_ s))
    (ClaimEvidence.evidence_spans c).

Lemma digest_okb_ok (d : Digest.t) : digest_okb d = true -> digest_ok d.
Proof. unfold digest_okb; rewrite andb_true_iff, Z.eqb_eq; intros [H1 H2]; split; [apply ascii_ok | ]; assumption. Qed.

Lemma digest_okb_opt (d : option Digest.t) : from_option digest_okb true d = true -> from_option digest_ok True d.
Proof. destruct d; [apply digest_okb_ok | easy]. Qed.

Lemma claim_typedb_ok (c : ClaimEvidence.t) : claim_typedb c = true -> claim_typed c.
Proof.
  unfold claim_typedb; rewrite !andb_true_iff, !in_range_true, Z.ltb_lt.
  intros (((((((H1 & H2) & H3) & H4) & H5) & H6) & H7) & H8).
  split; auto using digest_okb_ok, digest_okb_opt; [lia | lia |].
  rewrite forallb_forall in H8; apply Forall_forall; intros s Hs; apply list_elem_of_In, H8 in Hs.
  rewrite andb_true_iff, !in_range_true in Hs; unfold span_typed, is_u64; lia.
Qed.

Lemma claims_typedb_ok (l : list ClaimEvidence.t) : forallb claim_typedb l = true -> Forall claim_typed l.
Proof.
  rewrite forallb_forall, Forall_forall; intros H c Hc; apply claim_typedb_ok, H, list_elem_of_In, Hc.
Qed.

(** Two orders of the same claims: equal digests, equal canonical lists. *)
Lemma evidence_digest_binds_witness :
  exists s1 s2, demo_set [demo_claim 1 5 Affirmed; demo_claim 2 6 Negated] = Ok s1 /\
    demo_set [demo_claim 2 6 Negated; demo_claim 1 5 Affirmed] = Ok s2 /\
    (ClaimEvidenceSet.claims s1 = ClaimEvidenceSet.claims s2 \/ collision (set_bytes s1) (set_bytes s2)).
Proof.
  pose (c1 := [demo_claim 1 5 Affirmed; demo_claim 2 6 Negated]).
  pose (c2 := [demo_claim 2 6 Negated; demo_claim 1 5 Affirmed]).
  assert (H1 : demo_set c1 = Ok (get empty_set (demo_set c1))) by (vm_compute; reflexivity).
  assert (H2 : demo_set c2 = Ok (get empty_set (demo_set c2))) by (vm_compute; reflexivity).
  exists (get empty_set (demo_set c1)), (get empty_set (demo_set c2)); split; [exact H1 |]; split; [exact H2 |].
  assert (Hm : digest_ok (demo_digest 9)) by (apply digest_okb_ok; vm_compute; reflexivity).
  assert (Hu : unit_ok (unit_id demo_unit)) by (split; [apply ascii_ok |]; vm_compute; reflexivity).
  assert (Hn : is_u64 (slen demo_body)) by (apply in_range_u64; vm_compute; reflexivity).
  assert (Hc1 : Forall claim_typed c1) by (apply claims_typedb_ok; vm_compute; reflexivity).
  assert (Hc2 : Forall claim_typed c2) by (apply claims_typedb_ok; vm_compute; reflexivity).
  assert (He : ClaimEvidenceSet.evidence_digest (get empty_set (demo_set c1))
               = ClaimEvidenceSet.evidence_digest (get empty_set (demo_set c2))) by (vm_compute; reflexivity).
  destruct (evidence_digest_binds _ _ _ _ _ _ _ _ _ _ _ _ _ _ _ _ _ _ H1 H2 Hm Hm ltac:(lia) ltac:(lia)
    Hu Hu Hn Hn Hc1 Hc2 He) as [(_ & _ & _ & _ & _ & _ & Hc & _) | Hc]; [left; exact Hc | right; exact Hc].
Defined.

(** ** The cancellation token *)

Definition token0 : State := {|
  cancelled := false; waiters := []; locked := None; poisoned := false; woken := [];
  threads := <[1 := CancelStart]> (<[2 := PollStart 7]> ∅) |}.
Definition token1 : State := set_thread token0 2 (PollLock 7).
Definition token2 : State := set_lock (set_thread token1 2 (PollRecheck 7)) (Some 2).
Definition token3 : State := set_thread token2 2 (PollPush 7).
Definition token4 : State := push_waker token3 2 7.
Definition token5 : State := swap_flag token4 1.
Definition token6 : State := set_lock (set_thread token5 1 CancelDrain) (Some 1).
Definition token7 : State := drain_waiters token6 1.

Lemma token0_fresh : fresh token0.
Proof.
  split_and!; try reflexivity; intros t th; cbn [token0 threads].
  rewrite !lookup_insert, lookup_empty; repeat case_decide; intros Ht; [| | discriminate];
    injection Ht as <-; eauto.
Qed.

Lemma token6_reachable : reachable token6.
Proof.
  apply (ReachStep token5); [| exact (StepCancelLock token5 1 eq_refl eq_refl eq_refl)].
  apply (ReachStep token4); [| exact (StepSwap token4 1 eq_refl)].
  apply (ReachStep token3); [| exact (StepPollPush token3 2 7 eq_refl)].
  apply (ReachStep token2); [| exact (StepPollRecheck token2 2 7 eq_refl)].
  apply (ReachStep token1); [| exact (StepPollLock token1 2 7 eq_refl eq_refl eq_refl)].
  apply (ReachStep token0); [| exact (StepPollCheck token0 2 7 eq_refl)].
  apply ReachFresh, token0_fresh.
Qed.

Lemma cancel_no_lost_wakeup_witness : 7 ∈ woken token7.
Proof.
  apply (cancel_no_lost_wakeup token7 2 7);
    [apply (ReachStep token6); [exact token6_reachable | exact (StepDrain token6 1 eq_refl)]
    | reflexivity | reflexivity | | reflexivity].
  intros d; unfold token7, token6, token5, token4, token3, token2, token1, token0.
  cbn [drain_waiters set_lock set_thread swap_flag push_waker threads cancelled].
  rewrite !lookup_insert, lookup_empty; repeat case_decide; split; discriminate.
Defined.

Lemma cancel_signal_sound_witness : cancelled token6 = true /\ cancelled token7 = true.
Proof.
  split; [reflexivity |].
  apply (cancel_signal_sound token6 token7 token6_reachable); [exact (StepDrain token6 1 eq_refl) | reflexivity].
Defined.

Lemma cancel_no_deadlock_witness :
  can_step token6 1 \/ exists holder, holder <> 1 /\ locked token6 = Some holder /\ can_step token6 holder.
Proof. exact (cancel_no_deadlock token6 1 CancelDrain token6_reachable eq_refl). Defined.

(** ** The text adapter *)

Definition demo_edit : AcceptedEdit := {| edit_unit_id := unit_id demo_unit; replacement := demo_text |}.

Lemma apply_reparses_witness :
  exists q, parse (as_bytes demo_text) = Ok q /\
    concat (map unit_text (DocumentIr.rewrite_units (document q))) = demo_text /\
    valid (verify demo_parsed (as_bytes demo_text) [demo_edit]) = true.
Proof.
  destruct (apply_reparses demo_source (as_bytes demo_text) demo_parsed demo_edit)
    as (q & Hq & _ & Hu & Hv); [apply bytes_ok; vm_compute; reflexivity | exact demo_parse | vm_compute; reflexivity |
      apply scalars_ok; vm_compute; reflexivity | right; vm_compute; discriminate | vm_compute; discriminate |].
  exists q; split; [exact Hq |]; split; [exact Hu |]; rewrite Hv; vm_compute; reflexivity.
Defined.

Lemma parse_lossless_witness : apply demo_parsed [] = Ok demo_source /\ valid (verify demo_parsed demo_source []) = true.
Proof.
  apply (parse_lossless demo_source demo_parsed); [apply bytes_ok; vm_compute; reflexivity | exact demo_parse].
Defined.

Lemma parse_total_witness :
  parse [0xC3] = Err (InvalidUtf8 0) /\ [0xC3] <> as_bytes [0xE9] /\ [0xC3] <> UTF8_BOM ++ as_bytes [0xE9].
Proof.
  split; [vm_compute; reflexivity |].
  pose proof (parse_total [0xC3]) as H; apply H;
    [apply bytes_ok; vm_compute; reflexivity | apply scalars_ok; vm_compute; reflexivity].
Defined.

Definition marked_text : text := lit "a" ++ [0x200B; 0x200B] ++ lit "b" ++ [0xE0041; 0x202E].

Lemma locate_invisible_spec_witness :
  exists report, locate_invisible marked_text true = Ok report /\
    vlen (locations report) = 3 /\ vlen (decoded_tags report) = 1 /\ locations_truncated report = false.
Proof.
  eexists; split; [apply (locate_invisible_spec marked_text true); vm_compute; reflexivity |].
  vm_compute; repeat split.
Defined.

Lemma control_class_coverage_witness :
  is_hard_unsafe_text_character 0x2065 || is_retained_invisible_character 0x2065 = true /\ control_class 0x2065 = None.
Proof. split; [apply (control_class_coverage 0x2065); [lia | right; reflexivity] | reflexivity]. Defined.

(** ** Extraction and reports *)

Definition span_of (a b : Z) : MatchSpan := {| start := a; end_ := b; kind := Number |}.
Definition demo_spans : list MatchSpan := [span_of 4 7; span_of 0 2; span_of 1 5].

Lemma select_non_overlapping_maximal_witness :
  exists selected, select_non_overlapping demo_spans = Ok selected /\
    StronglySorted (fun a b => end_ a <= start b) selected /\ vlen selected = 2.
Proof.
  eexists; split; [vm_compute; reflexivity |]; split; [| reflexivity].
  eapply (select_non_overlapping_maximal demo_spans); [| vm_compute; reflexivity].
  repeat (apply Forall_cons; split); try apply Forall_nil_2; unfold proper; cbn; lia.
Defined.

Definition demo_changed : text := lit "Pay 4 EUR now".
Definition demo_occurrences (s : text) : list MatchSpan := get [] (protected_occurrences s demo_terms).

Lemma protection_report_exact_witness :
  exists report, @protection_details _ _ EngineError demo_body demo_changed demo_terms = Ok report /\
    valid_report report /\ report <> None.
Proof.
  destruct (protection_report_exact (E := EngineError) demo_body demo_changed demo_terms
    (demo_occurrences demo_body) (demo_occurrences demo_changed)) as (r & H1 & H2 & _);
    [vm_compute; reflexivity | vm_compute; reflexivity | vm_compute; reflexivity
    | vm_compute; reflexivity | vm_compute; reflexivity |].
  exists r; split; [exact H1 |]; split; [exact H2 |].
  vm_compute in H1; injection H1 as <-; discriminate.
Defined.

Lemma change_reports_exact_witness :
  valid_report (literal_token_details demo_body demo_changed) /\ literal_token_details demo_body demo_changed <> None.
Proof.
  split; [| vm_compute; discriminate].
  apply (change_reports_exact demo_body demo_changed); vm_compute; reflexivity.
Defined.

Lemma select_best_canonical_witness :
  NoDup (map cand_id bad_candidates) /\ select_best (rev bad_candidates) = select_best bad_candidates /\
  is_Some (select_best bad_candidates).
Proof.
  assert (H : NoDup (map cand_id bad_candidates)).
  { apply (bool_decide_unpack (NoDup (map cand_id bad_candidates))); vm_compute; exact I. }
  destruct (select_best_canonical bad_candidates (rev bad_candidates) H (Permutation_rev _)) as (H1 & _ & H2).
  split; [exact H |]; split; [exact H1 |]; apply H2; vm_compute; discriminate.
Defined.

Lemma text_point_order_witness :
  exists p q, TextPoint.from_byte_index demo_body 1 = Some p /\ TextPoint.from_byte_index demo_body 4 = Some q /\
    (TextPoint.line p < TextPoint.line q \/
     (TextPoint.line p = TextPoint.line q /\ TextPoint.column p < TextPoint.column q)).
Proof.
  do 2 eexists; split; [vm_compute; reflexivity |]; split; [vm_compute; reflexivity |].
  apply (text_point_order demo_body 1 4); [vm_compute; reflexivity | vm_compute; reflexivity | lia].
Defined.

(** ** Text safety *)

(** A run moved with its base is kept; the same mark after another base is new. *)
Lemma text_safety_policy_witness :
  let run := (Some 97, [0xFE0F]) in let source := [97; 0xFE0F; 98] in let moved := [98; 97; 0xFE0F] in
  (run_count run moved <= run_count run source)%nat /\
  run_count (Some 98, [0xFE0F]) [97; 98; 0xFE0F] = 1%nat /\
  replacement_preserves_text_safety [97; 0xFE0F; 98] [97; 98; 0xFE0F] <> true.
Proof.
  intros run source moved; split_and!; [| vm_compute; reflexivity |].
  - apply (text_safety_policy [97; 0xFE0F; 98] [98; 97; 0xFE0F]); vm_compute; reflexivity.
  - intros H; apply (text_safety_policy [97; 0xFE0F; 98] [97; 98; 0xFE0F]) in H as [_ H].
    specialize (H (Some 98, [0xFE0F])); vm_compute in H; lia.
Defined.

Lemma text_safety_preorder_witness : replacement_preserves_text_safety (demo_body ++ [0xFE0F]) demo_text = true.
Proof.
  apply (text_safety_preorder (demo_body ++ [0xFE0F]) demo_body demo_text); vm_compute; reflexivity.
Defined.

Lemma text_safety_fault_located_witness :
  first_text_safety_fault demo_body (demo_body ++ [0x202E]) = Some (HardIntroduced 9) /\
  exists p c t, demo_body ++ [0x202E] = p ++ c :: t /\ slen p = 9 /\ is_hard_unsafe_text_character c = true.
Proof.
  split; [vm_compute; reflexivity |].
  apply (text_safety_fault_located demo_body (demo_body ++ [0x202E]) (HardIntroduced 9)); vm_compute; reflexivity.
Defined.

Lemma text_safety_drop_marks_witness : replacement_preserves_text_safety (demo_body ++ [0xFE0F]) demo_body = true.
Proof. apply (text_safety_drop_marks (demo_body ++ [0xFE0F])); vm_compute; reflexivity. Defined.

(** ** An evaluator that calls a candidate not applicable *)

Definition shrug : SemanticEvaluator := {|
  evaluator_id := lit "shrug";
  evaluate := fun _ _ _ => SemanticAssessment.mk NotApplicable None [bare_evidence UnsupportedMode] |}.
Definition shrug_engine : RewriteEngine := {|
  generator := ProvidedCandidateGenerator [demo_text]; semantic := shrug;
  structure := PlainTextStructure demo_parsed; claim_shadow := None |}.

(** An evaluator that answers [NotApplicable], as its own contract allows,
    makes the engine return an assessment that breaks the evidence contract:
    it is ineligible although all its hard gates allow it.  So the condition
    on the evaluator under which the engine's records are valid is needed. *)
Lemma not_applicable_inconsistent :
  SemanticAssessment.validate (evaluate shrug [] [] Literal) = Ok tt /\
  exists outcome, run shrug_engine late (document demo_parsed) demo_options = Ok outcome /\
    map CandidateAssessment.validate (assessments outcome) = [Err InconsistentEligibility].
Proof.
  split; [vm_compute; reflexivity |].
  eexists; split; [vm_compute; reflexivity |]; vm_compute; reflexivity.
Qed.

(** ** The editorial lint *)

Definition lint_demo : text := lit "This is a pivotal moment. Certainly! It is close proximity.".

Lemma lint_findings_sound_witness :
  exists fs, lint_text lint_demo = Ok fs /\ Forall (fun f => exists p q, located lint_demo f p q) fs.
Proof. apply lint_findings_sound; reflexivity. Defined.

Lemma lint_bounded_exact_witness :
  exists fs, lint_text lint_demo = Ok fs /\
    EditorialLintService.lint_bounded lint_demo 1 = Ok (if vlen fs <=? 1 then Ok fs else Err LimitExceeded).
Proof. apply lint_bounded_exact; [reflexivity | discriminate]. Defined.

Lemma compare_bounded_exact_witness :
  exists fs gs, lint_text lint_demo = Ok fs /\ lint_text demo_text = Ok gs /\
    EditorialLintService.compare lint_demo demo_text = Ok (EditorialComparison.compute fs gs) /\
    EditorialLintService.compare_bounded lint_demo demo_text 2 =
    Ok (if vlen fs + vlen gs <=? 2 then Ok (EditorialComparison.compute fs gs) else Err LimitExceeded).
Proof. apply compare_bounded_exact; [reflexivity | reflexivity | discriminate]. Defined.

Lemma lint_excluding_exact_witness :
  exists fs, lint_text lint_demo = Ok fs /\
    lint_text_excluding lint_demo EmptySignificance = Ok (LintCatalog.without EmptySignificance fs).
Proof. apply lint_excluding_exact; reflexivity. Defined.

(** A phrase in mixed case at the start of the text. *)
Definition lint_caps : text := lit "PIVOTAL Moment, quiet.".

Lemma lint_phrases_complete_witness :
  exists fs f sp, lint_text lint_caps = Ok fs /\ f ∈ fs /\ EditorialFinding.rule_id f = id_ EmptySignificance /\
    EditorialFinding.span f = Some sp /\ 0 < span_end sp /\ span_start sp < slen (lit "PIVOTAL Moment").
Proof.
  apply (lint_phrases_complete lint_caps EmptySignificance LintCatalog.significance (lit "pivotal moment") []
    (lit "PIVOTAL Moment") (lit ", quiet.")); try reflexivity.
  - do 2 right; left.
  - left.
  - repeat match goal with |- context [lit ?x] => let l := eval vm_compute in (lit x) in change (lit x) with l end.
    repeat (apply Forall2_cons_2; [first [left; reflexivity | right; left; split; [lia | reflexivity]] |]); apply Forall2_nil_2.
  - apply unquoted_exact; vm_compute; reflexivity.
Defined.
