(* ===== verification/InferenceWitnesses.v ===== *)
(** * Concrete instances of the theorems about models, requests and backends.

    The JSON codec is the reference printer and reader, the world of the
    futures is one that is never cancelled, and the backends are small
    functions one can run. *)

From S2P Require Import Prelude Text Regex Float32 Document TextSafety Rewrite Claims Evidence.
From S2P Require Import TextAdapter Extract Protection Semantic Policy ClaimCompare SpanReport Engine EngineProps.
From S2P Require Import Json JsonRef Model Inference CandidateOutput Extractor Grounded CandidateCheck ClaimExtraction.
From S2P Require Import GroundedService LintText Lint LintTheorems Witnesses.

#[local] Existing Instance ascii_tables.
#[local] Existing Instance reference_regex.
#[local] Existing Instance reference_aho_corasick.
#[local] Existing Instance toy_sha256.
#[local] Existing Instance engine_lint.
#[local] Existing Instance reference_json.

(** A world in which nothing is cancelled and the clock stands still. *)
#[local] Instance calm_world : OperationWorld unit := {
  token_is_cancelled := fun w => (false, w);
  token_answers := fun _ _ => false;
  instant_now := fun w => (0, w)
}.

Definition no_deadline : OperationContext := {| deadline := None |}.

(** ** Qualification and activation *)

Definition demo_artifact : ArtifactId.t := ArtifactId.from_digest (demo_digest 1).
Definition demo_runtime : RuntimeIdentity.t := {|
  RuntimeIdentity.backend := lit "fake"; RuntimeIdentity.version := lit "1.0.0"; RuntimeIdentity.digest := Some (demo_digest 2) |}.
Definition demo_qualification : QualificationRecord.t := {|
  QualificationRecord.schema_version := QUALIFICATION_SCHEMA_VERSION;
  QualificationRecord.artifact_id := demo_artifact;
  QualificationRecord.artifact_digest := demo_digest 1;
  QualificationRecord.runtime := demo_runtime;
  QualificationRecord.operating_system := lit "test";
  QualificationRecord.hardware_tier := {| tier_id := lit "test"; memory_mib := 8192; accelerator := lit "none" |};
  QualificationRecord.supported_roles := [RoleGeneration];
  QualificationRecord.source_byte_limit := 4096;
  QualificationRecord.context_token_limit := 8192;
  QualificationRecord.prompt_template_digest := demo_digest 3;
  QualificationRecord.request_policy_digest := demo_digest 4;
  QualificationRecord.threshold_policy_digest := demo_digest 5;
  QualificationRecord.license_decision := LocalUseOnly;
  QualificationRecord.status := Qualified |}.

Lemma string_okb (s : text) : forallb is_scalar s && (slen s <? 2 ^ 64) = true -> string_ok s.
Proof. rewrite andb_true_iff, Z.ltb_lt; intros [H1 H2]; split; [by apply scalars_ok | done]. Qed.
Lemma u32_okb (v : Z) : in_range 0 (2 ^ 32 - 1) v = true -> is_u32 v.
Proof. rewrite in_range_true; unfold is_u32; lia. Qed.

(** Each field at its type, by evaluation. *)
Ltac typed := first
  [ apply digest_okb_ok; vm_compute; reflexivity | apply digest_okb_opt; vm_compute; reflexivity
  | apply string_okb; vm_compute; reflexivity | apply u32_okb; vm_compute; reflexivity
  | apply in_range_u64; vm_compute; reflexivity | vm_compute; reflexivity ].

Lemma demo_qualification_ok : record_ok demo_qualification.
Proof. split; typed. Qed.

Lemma qualification_id_binds_witness :
  exists id, QualificationRecord.qualification_id demo_qualification = Ok id /\
    QualificationRecord.validate demo_qualification = Ok tt.
Proof.
  pose (id := {| QualificationId.digest := sha256 (QualificationRecord.material demo_qualification) |}).
  assert (H : QualificationRecord.qualification_id demo_qualification = Ok id) by (vm_compute; reflexivity).
  exists id; split; [exact H |].
  exact (proj1 (qualification_id_binds demo_qualification demo_qualification id demo_qualification_ok demo_qualification_ok H H)).
Defined.

Definition demo_installed : InstalledArtifact.t := {|
  InstalledArtifact.artifact_id := demo_artifact; InstalledArtifact.artifact_digest := demo_digest 1;
  InstalledArtifact.byte_size := 10; InstalledArtifact.storage_key := lit "sha256/a" |}.
Definition demo_binding : ActiveArtifactBinding.t := {|
  ActiveArtifactBinding.role := RoleGeneration;
  ActiveArtifactBinding.artifact_id := demo_artifact;
  ActiveArtifactBinding.qualification_id := {| QualificationId.digest := sha256 (QualificationRecord.material demo_qualification) |};
  ActiveArtifactBinding.artifact_digest := demo_digest 1 |}.

Lemma activation_exact_witness :
  activate demo_installed demo_qualification [] RoleGeneration = Ok demo_binding /\ fit demo_installed demo_qualification RoleGeneration.
Proof.
  assert (H : activate demo_installed demo_qualification [] RoleGeneration = Ok demo_binding) by (vm_compute; reflexivity).
  split; [exact H |].
  exact (proj1 (proj1 (proj1 (activation_exact demo_installed demo_qualification [] RoleGeneration demo_binding
    ltac:(cbn; lia) ltac:(cbn; lia))) H)).
Defined.

(** ** Requests and candidate envelopes *)

Definition demo_sampling : SamplingParameters.t := {|
  SamplingParameters.temperature := f32_zero; SamplingParameters.top_p := f32_one; SamplingParameters.seed := Some 1 |}.
Definition demo_generation : GenerationRequest.t := {|
  GenerationRequest.schema_version := GENERATION_REQUEST_SCHEMA_VERSION;
  GenerationRequest.artifact_id := demo_artifact; GenerationRequest.artifact_digest := demo_digest 1;
  GenerationRequest.input := lit "prompt"; GenerationRequest.output := candidate_output_contract;
  GenerationRequest.candidate_count := 1; GenerationRequest.source_byte_count := 6;
  GenerationRequest.source_byte_limit := 64; GenerationRequest.input_byte_limit := 64;
  GenerationRequest.context_token_limit := 128; GenerationRequest.output_token_limit := 64;
  GenerationRequest.candidate_byte_limit := 64; GenerationRequest.sampling := demo_sampling;
  GenerationRequest.reasoning := Disabled |}.

Definition envelope_policy : CandidateOutputPolicy.t :=
  get {| CandidateOutputPolicy.expected_count := 0; CandidateOutputPolicy.maximum_candidate_bytes := 0;
         CandidateOutputPolicy.maximum_aggregate_candidate_bytes := 0; CandidateOutputPolicy.maximum_envelope_bytes := 0 |}
    (CandidateOutputPolicy.new 2 8 10).
Definition envelope_texts : list text := [lit "one"; [34; 10; 0xE9]].
Definition envelope_bytes : bytes := as_bytes (json_print (envelope_json envelope_texts)).

Lemma envelope_policy_ok : CandidateOutputPolicy.new 2 8 10 = Ok envelope_policy.
Proof. vm_compute; reflexivity. Defined.

Definition demo_structured : StructuredCompletionRequest.t := structured_of demo_generation envelope_policy.

Lemma request_binding_exact_witness :
  demo_generation = demo_generation \/ collision (GenerationRequest.material demo_generation) (GenerationRequest.material demo_generation).
Proof.
  assert (Hs : sampling_ok demo_sampling) by (split; [vm_compute; split; congruence .. | typed]).
  assert (Ho : contract_ok candidate_output_contract) by (split; typed).
  assert (Hg : generation_request_ok demo_generation) by (split; first [exact Hs | exact Ho | typed]).
  assert (Hc : structured_request_ok demo_structured) by (split; first [exact Hs | exact Ho | typed]).
  exact (proj1 (request_binding_exact demo_generation demo_generation demo_structured demo_structured Hg Hg Hc Hc) eq_refl).
Defined.

Lemma candidate_output_exact_witness :
  exists input texts, from_utf8 envelope_bytes = Ok input /\
    json_events input = (flatten (envelope_json texts), true) /\ conforms envelope_policy texts.
Proof.
  assert (H : parse_candidate_output envelope_bytes envelope_policy = Ok (numbered 0 envelope_texts)) by (vm_compute; reflexivity).
  destruct (proj1 (candidate_output_exact 2 8 10 envelope_policy envelope_bytes _ ltac:(lia) ltac:(lia) ltac:(lia)
    envelope_policy_ok) H) as (input & texts & _ & Hu & He & Hc & _); eauto.
Defined.

Lemma candidate_envelope_roundtrip_witness :
  parse_candidate_output envelope_bytes envelope_policy = Ok (numbered 0 envelope_texts).
Proof.
  apply (candidate_envelope_roundtrip 2 8 10 envelope_policy envelope_texts ltac:(lia) ltac:(lia) ltac:(lia) envelope_policy_ok).
  - repeat constructor; apply scalars_ok; vm_compute; reflexivity.
  - split; [vm_compute; reflexivity | repeat constructor; vm_compute; congruence | vm_compute; congruence].
Defined.

(** ** The prompt *)

Definition demo_prompt : GroundedPromptRenderInputV1 := {|
  render_template := lit "Rewrite"; render_masked_source := lit "a" ++ [10; 34] ++ lit "b";
  protected_sentinels := [{| sentinel_text := lit "{{PROTECTED_TERM_0001}}"; sentinel_kind := SentinelTerm |}];
  rewrite_mode := Literal; render_style_context := []; required_candidate_count := 1; maximum_input_bytes := 4096 |}.

Lemma prompt_boundary_exact_witness :
  exists s payload, render_grounded_prompt_v1 demo_prompt = Ok s /\
    rsplit_once s [10] = Some (lit "Rewrite", payload) /\ from_str payload = Some (prompt_envelope demo_prompt).
Proof.
  pose (s := get [] (render_grounded_prompt_v1 demo_prompt)).
  assert (H : render_grounded_prompt_v1 demo_prompt = Ok s) by (vm_compute; reflexivity).
  assert (Hc : 0 <= required_candidate_count demo_prompt <= u8_max) by (vm_compute; split; congruence).
  destruct (prompt_boundary_exact demo_prompt demo_prompt s Hc Hc H H) as [(payload & Hs & Hf) _].
  exists s, payload; split; [exact H |]; split; [exact Hs | exact Hf].
Defined.

(** ** Claim extraction *)

Definition demo_manifest : ExtractorManifest.t := {|
  ExtractorManifest.schema_version := EXTRACTOR_MANIFEST_SCHEMA_VERSION;
  ExtractorManifest.extractor_id := lit "demo"; ExtractorManifest.extractor_version := lit "1";
  ExtractorManifest.subject_digest := demo_digest 1;
  ExtractorManifest.prompt_digest := sha256 (as_bytes CLAIM_PAIR_PROMPT_TEMPLATE);
  ExtractorManifest.claim_output_contract_digest := OutputContract.schema_digest claim_output_contract;
  ExtractorManifest.claim_operation_contract_digest := sha256 (as_bytes CLAIM_PAIR_OPERATION_ID);
  ExtractorManifest.confidence_policy_digest := demo_digest 6; ExtractorManifest.language_policy_digest := demo_digest 7 |}.
Definition demo_join : ClaimShadowJoinBinding.t := {|
  ClaimShadowJoinBinding.manifest := demo_manifest; ClaimShadowJoinBinding.artifact_id := demo_artifact;
  ClaimShadowJoinBinding.artifact_digest := demo_digest 1; ClaimShadowJoinBinding.minimum_confidence_ppm := 500000;
  ClaimShadowJoinBinding.source_byte_limit := 4096; ClaimShadowJoinBinding.input_byte_limit := 8192;
  ClaimShadowJoinBinding.context_token_limit := 8192; ClaimShadowJoinBinding.output_token_limit := 512;
  ClaimShadowJoinBinding.output_byte_limit := 8192; ClaimShadowJoinBinding.sampling := demo_sampling |}.

Definition no_usage : UsageObservation := {| input_tokens := None; output_tokens := None; generation_micros := None |}.
Definition claim_json : Json := JObject [
  (lit "claim_id", encode_digest (demo_digest 8)); (lit "predicate_id", encode_digest (demo_digest 9));
  (lit "polarity", JAtom (AString (lit "affirmed"))); (lit "modality", JAtom (AString (lit "asserted")));
  (lit "condition_count", JAtom (AUint 0)); (lit "attributed", JAtom (ABool false));
  (lit "evidence_spans", JArray [JObject [(lit "start", JAtom (AUint 0)); (lit "end", JAtom (AUint 3))]]);
  (lit "confidence_ppm", JAtom (AUint 900000))].

(** A backend that reports one claim about whatever text the prompt ends with,
    and offers one candidate. *)
Definition claim_answer (request : StructuredCompletionRequest.t) : StructuredCompletionResponse.t :=
  let subject := match rsplit_once (StructuredCompletionRequest.input request) (lit "---" ++ [10]) with
                 | Some (_, t) => t | None => [] end in {|
  StructuredCompletionResponse.runtime := demo_runtime;
  StructuredCompletionResponse.artifact_id := StructuredCompletionRequest.artifact_id request;
  StructuredCompletionResponse.artifact_digest := StructuredCompletionRequest.artifact_digest request;
  StructuredCompletionResponse.request_binding_digest := demo_digest 0;
  StructuredCompletionResponse.output_json := json_print (JObject [
    (lit "status", JAtom (AString (lit "complete")));
    (lit "unit_id", JAtom (AString (RewriteUnitId.as_str (unit_id demo_unit))));
    (lit "text_digest", encode_digest (sha256 (as_bytes subject))); (lit "claims", JArray [claim_json])]);
  StructuredCompletionResponse.usage := no_usage;
  StructuredCompletionResponse.finish := FinishComplete |}.
Definition demo_discovery : BackendDiscovery.t := {|
  BackendDiscovery.backend_id := get {| BackendId.as_str := [] |} (BackendId.new (lit "demo"));
  BackendDiscovery.runtime := demo_runtime;
  BackendDiscovery.capabilities := {|
    InferenceCapabilities.roles := [RoleGeneration; ClaimExtractionRole];
    InferenceCapabilities.admitted_output_contract_digests :=
      sort_by (fun a b => negb (str_lt (Digest.as_str b) (Digest.as_str a)))
        [OutputContract.schema_digest candidate_output_contract; OutputContract.schema_digest claim_output_contract];
    InferenceCapabilities.seed := true; InferenceCapabilities.disable_reasoning := true |};
  BackendDiscovery.inventory := [{| InventoryEntry.reference := lit "demo"; InventoryEntry.artifact_id := demo_artifact;
    InventoryEntry.artifact_digest := demo_digest 1; InventoryEntry.byte_size := None |}] |}.
Definition masked_answer : text := masked_source demo_plan ++ lit ".".
Definition demo_backend : InferenceBackend unit := {|
  discover := fun _ => immediate (Ok demo_discovery);
  generate_candidates := fun _ _ => immediate (Ok {|
    GenerationResponse.runtime := demo_runtime; GenerationResponse.artifact_id := demo_artifact;
    GenerationResponse.artifact_digest := demo_digest 1;
    GenerationResponse.candidates := [{| ordinal := 0; gen_text := masked_answer |}];
    GenerationResponse.usage := no_usage |});
  complete_structured := fun request _ => immediate (Ok (claim_answer request)) |}.

Definition demo_extraction : ClaimExtractionRequest.t :=
  ClaimShadowJoinBinding.extraction_request demo_join (unit_id demo_unit) demo_body demo_text.
Definition empty_pair : ClaimExtractionPair := {| pair_source := empty_set; pair_candidate := empty_set; pair_comparison := None |}.
Definition extracted : ClaimExtractionPair :=
  match extract demo_backend demo_extraction no_deadline tt with Some (Ok p, _) => p | _ => empty_pair end.

Lemma claim_extraction_sound_witness :
  extract demo_backend demo_extraction no_deadline tt = Some (Ok extracted, tt) /\ pair_for demo_backend no_deadline demo_extraction extracted /\
  is_Some (pair_comparison extracted).
Proof.
  assert (H : extract demo_backend demo_extraction no_deadline tt = Some (Ok extracted, tt)) by (vm_compute; reflexivity).
  split; [exact H |]; split; [exact (proj2 (claim_extraction_sound demo_backend no_deadline demo_extraction tt tt extracted H)) |].
  vm_compute; eauto.
Defined.

Definition joined : list PreparedClaimShadow :=
  match prepare_for_candidates demo_backend demo_join (unit_id demo_unit) demo_body [] [demo_text] no_deadline tt with
  | Some (Ok l, _) => l | _ => [] end.

Lemma shadow_join_sound_witness :
  length joined = 1%nat /\ Forall (shadow_for (unit_id demo_unit) demo_body [demo_text]) joined.
Proof.
  assert (H : prepare_for_candidates demo_backend demo_join (unit_id demo_unit) demo_body [] [demo_text] no_deadline tt
    = Some (Ok joined, tt)) by (vm_compute; reflexivity).
  split; [vm_compute; reflexivity |].
  exact (proj1 (shadow_join_sound demo_backend no_deadline demo_join (unit_id demo_unit) demo_body [demo_text] tt tt (Ok joined) H)).
Defined.

(** ** The grounded rewrite *)

Definition demo_attached : AttachedConformanceRewrite :=
  get {| attached_strategy := {| policy := conformance_policy demo_binding demo_qualification |};
         attached_backend := {| discovery := demo_discovery |} |} (attach demo_binding demo_qualification).
Definition demo_strategy : GroundedStrategy := attached_strategy demo_attached.
Definition grounded_request : GroundedRewriteRequest := {|
  gr_source := demo_source; gr_protected_terms := demo_terms; gr_mode := Literal; gr_style_context := [];
  gr_claim_shadow := Some demo_join; gr_layout := None; gr_edit_level := None |}.
Definition no_result : GroundedRewriteResult := {| gr_output := [];
  gr_record := RewriteRecord.new (DocumentIr.document_id (document demo_parsed)) (sha256 []) (sha256 []) Failed None [] [] |}.
Definition grounded_result : GroundedRewriteResult :=
  match rewrite demo_strategy demo_backend grounded_request no_deadline tt with Some (Ok r, _) => r | _ => no_result end.

Lemma demo_well_formed : well_formed demo_backend.
Proof.
  intros request context w response w'; cbn [demo_backend generate_candidates]; unfold immediate; intros H; injection H as <- _.
  repeat constructor; apply scalars_ok; vm_compute; reflexivity.
Qed.

Lemma demo_steady : steady_backend demo_backend.
Proof. split; intros; apply steady_immediate; discriminate. Qed.

Lemma grounded_rewrite_safe_witness :
  RewriteRecord.status (gr_record grounded_result) = Rewritten /\
  exists bom body, demo_source = bom_bytes bom ++ as_bytes body /\
    safe_result bom body Literal demo_terms None (returned demo_backend no_deadline) grounded_result.
Proof.
  assert (H : rewrite demo_strategy demo_backend grounded_request no_deadline tt = Some (Ok grounded_result, tt)) by (vm_compute; reflexivity).
  split; [vm_compute; reflexivity |].
  exact (grounded_rewrite_safe demo_strategy demo_backend no_deadline grounded_request tt tt grounded_result demo_well_formed
    (bytes_ok demo_source ltac:(vm_compute; reflexivity)) H).
Defined.

(** A backend that is down. *)
Definition failing_backend : InferenceBackend unit := {|
  discover := fun _ => immediate (Err (inference_error KindPermanent (lit "down")));
  generate_candidates := generate_candidates demo_backend; complete_structured := complete_structured demo_backend |}.

Lemma failing_steady : steady_backend failing_backend.
Proof. split; intros; apply steady_immediate; discriminate. Qed.

Lemma grounded_rewrite_errors_witness :
  rewrite demo_strategy failing_backend grounded_request no_deadline tt
    = Some (Err (Grounded (GroundedDiscovery (inference_error KindPermanent (lit "down")))), tt) /\
  error_kind (inference_error KindPermanent (lit "down")) <> KindCancelled.
Proof.
  assert (H : rewrite demo_strategy failing_backend grounded_request no_deadline tt
    = Some (Err (Grounded (GroundedDiscovery (inference_error KindPermanent (lit "down")))), tt)) by (vm_compute; reflexivity).
  split; [exact H |].
  pose proof (grounded_rewrite_errors demo_strategy failing_backend no_deadline grounded_request tt demo_well_formed failing_steady
    (bytes_ok demo_source ltac:(vm_compute; reflexivity))) as Ht; rewrite H in Ht; exact Ht.
Defined.

(** A backend that reports cancellation. *)
Definition cancelling_backend : InferenceBackend unit := {|
  discover := fun _ => immediate (Err (inference_error KindCancelled (lit "cancelled")));
  generate_candidates := generate_candidates demo_backend; complete_structured := complete_structured demo_backend |}.

Lemma grounded_cancellation_witness :
  exists result, rewrite demo_strategy cancelling_backend grounded_request no_deadline tt = Some (Ok result, tt) /\
    RewriteRecord.status (gr_record result) = Abstained /\ RewriteRecord.reason (gr_record result) = Some Cancelled.
Proof.
  destruct (grounded_cancellation demo_strategy cancelling_backend no_deadline grounded_request demo_body demo_plan tt tt
    demo_unit (GroundedDiscovery (inference_error KindCancelled (lit "cancelled")))) as (r & Hr & _ & Hs & Hc & _);
    try (vm_compute; reflexivity); [eexists; split; [left |]; reflexivity |]; exists r; auto.
Defined.

Definition literal_request : GroundedRewriteRequest := new_grounded_request demo_source demo_terms Literal [].

Lemma conformance_identity_witness :
  exists result, attached_rewrite demo_attached literal_request no_deadline tt = (Ok result, tt) /\ gr_output result = demo_source.
Proof.
  assert (Hl : within_limits demo_binding demo_qualification literal_request demo_plan).
  { split; try (vm_compute; split; congruence); try (vm_compute; congruence); intros u; vm_compute; congruence. }
  assert (Hu : undisturbed (W := unit) no_deadline) by (split; reflexivity).
  assert (Ha : attach demo_binding demo_qualification = Ok demo_attached) by (vm_compute; reflexivity).
  assert (Hs : OutputContract.validate candidate_output_contract = Ok tt) by (vm_compute; reflexivity).
  destruct (conformance_identity demo_binding demo_qualification demo_attached literal_request demo_body demo_plan no_deadline
    Ha Hs demo_build Hl Hu tt) as (r & Hr & Ho & _);
    try (vm_compute; reflexivity); [apply bytes_ok; vm_compute; reflexivity | discriminate |].
  exists r; auto.
Defined.
