(* ===== verification/StoreWitnesses.v ===== *)
(** * Concrete histories of the model store.

    An artifact is registered, installed, qualified and activated, then
    deactivated, removed, installed again and its record invalidated, with the
    reference JSON codec; the theorems about histories are applied to it. *)

From S2P Require Import Prelude Text Document Claims Json JsonRef Extractor Model ModelJson StoreDb ModelStore StoreMonad StoreInv.
From S2P Require Import StoreSteps StoreOps StoreTheorems StoreInventory Witnesses InferenceWitnesses.

#[local] Existing Instance toy_sha256.
#[local] Existing Instance reference_json.

Definition demo_manifest : ArtifactManifest.t := {|
  ArtifactManifest.schema_version := ARTIFACT_MANIFEST_SCHEMA_VERSION;
  ArtifactManifest.artifact_id := demo_artifact;
  ArtifactManifest.source := {| origin := lit "local"; revision := lit "1" |};
  ArtifactManifest.artifact_digest := demo_digest 1;
  ArtifactManifest.byte_size := 10;
  ArtifactManifest.format := lit "gguf";
  ArtifactManifest.family := lit "demo";
  ArtifactManifest.architecture := None;
  ArtifactManifest.quantization := Some (lit "q4");
  ArtifactManifest.tokenizer := Some {| tokenizer_family := lit "bpe"; tokenizer_digest := demo_digest 2 |};
  ArtifactManifest.licenses := [{| license_component := lit "weights"; license_identifier := lit "MIT"; license_text_digest := demo_digest 3 |}];
  ArtifactManifest.declared_capabilities :=
    {| declared_roles := [RoleGeneration]; declared_languages := [lit "en"]; declared_context_tokens := Some 8192 |} |}.

Definition demo_qualification_id : QualificationId.t :=
  {| QualificationId.digest := sha256 (QualificationRecord.material demo_qualification) |}.
Definition demo_invalidation : QualificationInvalidation.t := {|
  QualificationInvalidation.qualification_id := demo_qualification_id; QualificationInvalidation.reason_code := lit "superseded" |}.
Definition demo_selection (e : Z) : StoredArtifactInstallation.t := StoredArtifactInstallation.mk demo_installed (Epoch.mk e).

(** No call fails. *)
Definition calm : nat -> bool := fun _ => false.
Definition after (o : StoreOp.t) (d : Db) : Db := fst (snd (StoreOp.run o calm (d, O))).

Definition installed_db : Db := after (StoreOp.PutInstallation demo_manifest demo_installed) empty_db.
Definition qualified_db : Db := after (StoreOp.PutQualification demo_qualification) installed_db.
Definition active_db : Db :=
  after (StoreOp.Activate (ActivationId.mk (demo_digest 7)) RoleGeneration demo_installed demo_qualification_id) qualified_db.
Definition inactive_db : Db := after (StoreOp.Deactivate (ActivationId.mk (demo_digest 8)) RoleGeneration) active_db.
Definition prepared_db : Db := after (StoreOp.PrepareRemoval (demo_selection 1)) inactive_db.
Definition completed_db : Db := after (StoreOp.CompleteRemoval (demo_selection 1)) prepared_db.
Definition reinstalled_db : Db := after (StoreOp.PutInstallation demo_manifest demo_installed) completed_db.

Example demo_history :
  status active_db (artifact_key demo_artifact) = Installed 1 /\
  status prepared_db (artifact_key demo_artifact) = Removing 1 /\
  status completed_db (artifact_key demo_artifact) = Removed 1 /\
  status reinstalled_db (artifact_key demo_artifact) = Installed 2.
Proof. vm_compute; done. Qed.

(** The records are values of their types. *)
Lemma demo_manifest_typed : manifest_typed demo_manifest.
Proof.
  split; [split; vm_compute; done | vm_compute; reflexivity | vm_compute; reflexivity | split; vm_compute; done
    | vm_compute; reflexivity | | split; split; vm_compute; done].
  apply Forall_cons; split; [vm_compute; reflexivity | constructor].
Qed.
Lemma demo_installed_typed : installed_typed demo_installed.
Proof. split; [vm_compute; reflexivity .. | split; vm_compute; done]. Qed.
Lemma demo_qualification_typed : qualification_typed demo_qualification.
Proof. split; try (vm_compute; reflexivity); split; vm_compute; done. Qed.

Lemma after_step o d : StoreOp.typed o -> store_step d (after o d).
Proof. intros Ht; by exists o, calm, O. Qed.

Lemma reach d d' : reachable d -> store_step d d' -> reachable d'.
Proof. intros H Hs; by eapply rtc_r. Qed.

Lemma inactive_reachable : reachable inactive_db.
Proof.
  repeat (eapply reach; [| apply after_step]); [constructor | split; [apply demo_manifest_typed | apply demo_installed_typed]
    | apply demo_qualification_typed | done | done].
Qed.
Lemma qualified_reachable : reachable qualified_db.
Proof.
  repeat (eapply reach; [| apply after_step]); [constructor | split; [apply demo_manifest_typed | apply demo_installed_typed]
    | apply demo_qualification_typed].
Qed.
Lemma active_reachable : reachable active_db.
Proof. eapply reach; [apply qualified_reachable |]; by apply after_step. Qed.

Lemma store_invariant_witness : reachable active_db /\ inv active_db.
Proof. split; [apply active_reachable | apply (store_invariant active_db active_reachable)]. Defined.

(** The fourth call of the installation fails: nothing is written. *)
Lemma store_atomic_witness :
  fst (snd (StoreOp.run (StoreOp.PutInstallation demo_manifest demo_installed) (Nat.eqb 4) (empty_db, O))) = empty_db.
Proof.
  destruct (StoreOp.run (StoreOp.PutInstallation demo_manifest demo_installed) (Nat.eqb 4) (empty_db, O)) as [r s] eqn:E.
  assert (H : r = Err StoreError.Database) by (apply (f_equal fst) in E; cbn [fst] in E; rewrite <- E; vm_compute; reflexivity).
  rewrite H in E; exact (store_atomic (StoreOp.PutInstallation demo_manifest demo_installed) (Nat.eqb 4) empty_db O StoreError.Database s E).
Defined.

Lemma lifecycle_refinement_witness :
  life_step (status inactive_db (artifact_key demo_artifact)) (status prepared_db (artifact_key demo_artifact)).
Proof.
  assert (Hs : store_step inactive_db prepared_db) by (by apply after_step).
  destruct (proj1 (lifecycle_refinement inactive_db prepared_db (artifact_key demo_artifact) inactive_reachable Hs)) as [E|E].
  - exfalso; revert E; vm_compute; done.
  - exact E.
Defined.

Lemma run_eta {A} (p : StoreResult A * (Db * nat)) a : fst p = Ok a -> p = (Ok a, (fst (snd p), snd (snd p))).
Proof. destruct p as [r [d n]]; cbn; by intros ->. Qed.

(** The steps of the second half of the history. *)
Lemma prepare_run : exists n,
  prepare_artifact_removal (demo_selection 1) calm (inactive_db, O) = (Ok PreparationPrepared, (prepared_db, n)).
Proof.
  exists 8%nat; vm_cast_no_check (@eq_refl (StoreResult RemovalPreparationDisposition * (Db * nat))
    (Ok PreparationPrepared, (prepared_db, 8%nat))).
Qed.
Lemma completed_step : store_step prepared_db completed_db.
Proof. exact (after_step (StoreOp.CompleteRemoval (demo_selection 1)) prepared_db I). Qed.
Lemma reinstalled_step : store_step completed_db reinstalled_db.
Proof.
  exact (after_step (StoreOp.PutInstallation demo_manifest demo_installed) completed_db (conj demo_manifest_typed demo_installed_typed)).
Qed.

Lemma stale_removal_inert_witness :
  fst (snd (prepare_artifact_removal (demo_selection 1) calm (reinstalled_db, O))) = reinstalled_db.
Proof.
  destruct prepare_run as [n H].
  exact (proj1 (stale_removal_inert (demo_selection 1) calm inactive_db prepared_db reinstalled_db O n
    inactive_reachable H (rtc_l _ _ _ _ completed_step (rtc_once _ _ reinstalled_step)) calm O)).
Defined.

Lemma invalidation_final_witness :
  let d := after (StoreOp.Invalidate demo_invalidation) active_db in
  activate (ActivationId.mk (demo_digest 9)) RoleGeneration demo_installed demo_qualification_id calm (d, O) <> (Ok demo_binding, (d, O)).
Proof.
  pose (r := invalidate demo_invalidation calm (active_db, O)).
  assert (H : invalidate demo_invalidation calm (active_db, O) = (Ok tt, (fst (snd r), snd (snd r)))).
  { apply (run_eta r); vm_compute; reflexivity. }
  assert (Ht : invalidation_typed demo_invalidation) by (vm_compute; reflexivity).
  exact (proj2 (invalidation_final demo_invalidation calm active_db (fst (snd r)) (fst (snd r)) O (snd (snd r)) active_reachable Ht H
    (rtc_refl _ _)) (ActivationId.mk (demo_digest 9)) RoleGeneration demo_installed calm O demo_binding (fst (snd r), O)).
Defined.

Lemma recovery_total_witness :
  exists bs n, recover_active_bindings (fun _ => true) calm (active_db, O) = (Ok bs, (active_db, n)).
Proof.
  destruct (recovery_total active_db (fun _ => true) O active_reachable (fun _ _ _ _ => eq_refl)) as (bs & n & H & _).
  exists bs, n; exact H.
Defined.

Lemma inventory_exact_witness :
  exists sts n, artifact_inventory 16 calm (active_db, O) = (Ok sts, (active_db, n)) /\
    Forall2 (entry_exact active_db) (rows_by_key (artifact_manifests active_db)) sts.
Proof.
  assert (Hm : 0 < 16 < i64_max) by (vm_compute; done).
  assert (Hs : Z.of_nat (size (artifact_manifests active_db)) <= 16) by (vm_compute; done).
  exact (proj1 (inventory_exact active_db 16 O active_reachable Hm) Hs).
Defined.
