(* ===== verification/ReviewWitnesses.v ===== *)
(** * Document review: concrete instances of its theorems.

    One review is evaluated; and one request goes through the background
    operation and its reducer step by step, from the submission to the
    completion a poll returns. *)

From S2P Require Import Prelude Text Regex Document TextSafety Rewrite Evidence TextAdapter Policy Engine CandidateCheck.
From S2P Require Import LintText Lint LintTheorems DocumentReview DocumentReviewOperation ReviewOperationProps ReviewOperationLive.
From S2P Require Import DocumentReviewState Witnesses.

#[local] Existing Instance ascii_tables.
#[local] Existing Instance reference_regex.
#[local] Existing Instance reference_aho_corasick.
#[local] Existing Instance toy_sha256.
#[local] Existing Instance engine_lint.

(** ** The service *)

Definition review_demo : DocumentReviewRequest.t := {|
  DocumentReviewRequest.source := demo_source;
  DocumentReviewRequest.candidate := Some (as_bytes demo_text);
  DocumentReviewRequest.protected_terms := demo_terms |}.

Lemma review_demo_bytes : byte_inputs review_demo.
Proof. split; [apply bytes_ok; reflexivity |]; intros input [= <-]; apply bytes_ok; reflexivity. Qed.

Lemma review_demo_ok : exists result, review review_demo quiet = Ok result.
Proof. eexists; vm_compute; reflexivity. Qed.

(** The candidate is reviewed, and the evidence is about both texts. *)
Lemma review_exact_witness :
  byte_inputs review_demo /\
  exists result, review review_demo quiet = Ok result /\ exists source, reviewed review_demo quiet result source.
Proof.
  split; [exact review_demo_bytes |]; destruct review_demo_ok as [result H]; exists result; split; [exact H |].
  apply review_exact; [exact review_demo_bytes | exact H].
Defined.

(** Terms without a candidate are refused, for that reason. *)
Definition review_bare : DocumentReviewRequest.t := {|
  DocumentReviewRequest.source := demo_source;
  DocumentReviewRequest.candidate := None;
  DocumentReviewRequest.protected_terms := demo_terms |}.

Lemma review_errors_witness :
  review review_bare quiet = Err DocumentReviewError.CandidateRequired /\
  review_cause review_bare quiet DocumentReviewError.CandidateRequired.
Proof.
  assert (H : review review_bare quiet = Err DocumentReviewError.CandidateRequired) by (vm_compute; reflexivity).
  split; [exact H |].
  assert (Hb : byte_inputs review_bare) by (split; [apply bytes_ok; reflexivity | discriminate]).
  pose proof (review_errors review_bare quiet Hb) as C; rewrite H in C; exact C.
Defined.

(** ** The operation *)

Section Demo.
Variable service : DocumentReviewRequest.t -> ReviewSignal -> Result DocumentReviewError.t DocumentReviewResult.t.
Hypothesis answers : service review_demo quiet <> Panic.

Definition demo_completion : Completion.t := {|
  Completion.operation_id := 1; Completion.result := answer service review_demo |}.

Definition free (m : Mailbox.t) : Shared.t := {|
  Shared.mailbox := m; Shared.lock := None; Shared.poisoned := false; Shared.shutdown := false; Shared.stopped := false;
  Shared.cancelled := ∅ |}.

(** After the submission, and after the poll. *)
Definition demo_submitted : System := {|
  handle := {| Handle.sequence := 1; Handle.latest := Some (1, 1); Handle.pc := Between |};
  worker := NotSpawned; supervisor := Spawning; shared := free (publish 1 review_demo 1) |}.
Definition demo_answered : System := {|
  handle := {| Handle.sequence := 1; Handle.latest := None; Handle.pc := Between |};
  worker := Locking; supervisor := Joining; shared := free Mailbox.empty |}.

Definition demo_loading : ReviewState.t := ReviewState.accept review_demo 1 ReviewState.new.

Lemma run_silent h sys sys' st :
  state_run service h sys st -> step service sys None sys' -> state_run service h sys' st.
Proof. intros Hr Hs; rewrite <- (app_nil_r h); eapply StateStep; [exact Hr | by apply StateSilent]. Qed.

Lemma demo_accepted : state_run service [Submitted review_demo 1] demo_submitted demo_loading.
Proof.
  pose proof (StateStart service) as H.
  eapply run_silent in H; [| apply StepHandle; by apply (SubmitLock _ _ review_demo 1)].
  eapply run_silent in H; [| apply StepHandle; by eapply SubmitAdmit].
  eapply run_silent in H; [| apply StepHandle; by eapply SubmitCancel].
  eapply (StateStep service []); [exact H |]; apply StateSubmitted, StepHandle; by apply SubmitPublish.
Qed.

Lemma demo_polled :
  state_run service [Submitted review_demo 1; Polled (Ok (Some demo_completion))] demo_answered
    (fst (ReviewState.apply demo_completion demo_loading)).
Proof.
  pose proof demo_accepted as H.
  eapply run_silent in H; [| apply StepBackground, StepSupervisor; apply SupervisorSpawn].
  eapply run_silent in H; [| apply StepBackground, StepWorker; apply WorkerLock; [by left | reflexivity | reflexivity]].
  eapply run_silent in H; [| apply StepBackground, StepWorker; apply WorkerLeave; by left].
  eapply run_silent in H; [| apply StepBackground, StepWorker; eapply WorkerTake; reflexivity].
  eapply run_silent in H; [| apply StepBackground, StepWorker; apply WorkerStart].
  eapply run_silent in H; [| apply StepBackground, StepWorker; eapply (WorkerReview _ _ _ quiet); [by left | reflexivity |]].
  2: exact answers.
  eapply run_silent in H; [| apply StepBackground, StepWorker; by apply WorkerRelock].
  eapply run_silent in H; [| apply StepBackground, StepWorker; by apply WorkerKeep].
  eapply run_silent in H; [| apply StepBackground, StepWorker; apply WorkerDeliver].
  eapply run_silent in H; [| apply StepHandle; by apply (PollLock _ _ 1 1)].
  eapply (StateStep service [Submitted review_demo 1]); [exact H |].
  eapply StatePolled; [apply StepHandle; by eapply PollTake | reflexivity].
Qed.

End Demo.

Lemma review_demo_answers : review review_demo quiet <> Panic.
Proof. destruct review_demo_ok as [r Hr]; rewrite Hr; discriminate. Qed.

Lemma operation_refines_witness :
  run review [Submitted review_demo 1; Polled (Ok (Some (demo_completion review)))] demo_answered /\
  exists p, promise_run review [Submitted review_demo 1; Polled (Ok (Some (demo_completion review)))] p.
Proof.
  assert (H : run review [Submitted review_demo 1; Polled (Ok (Some (demo_completion review)))] demo_answered)
    by exact (state_run_run review _ _ _ (demo_polled review review_demo_answers)).
  split; [exact H | apply (operation_refines review _ _ H)].
Defined.

Lemma operation_answers_witness :
  run review [Submitted review_demo 1] demo_submitted /\
  shows review demo_submitted (Polled (Ok None)) /\ answered_within review 25 demo_submitted.
Proof.
  assert (H : run review [Submitted review_demo 1] demo_submitted) by exact (state_run_run review _ _ _ (demo_accepted review)).
  destruct (operation_answers review _ _ H eq_refl) as [Hs Ha]; split; [exact H | split; [exact Hs | apply Ha; discriminate]].
Defined.

Lemma review_state_exact_witness :
  state_run review [Submitted review_demo 1; Polled (Ok (Some (demo_completion review)))] demo_answered
    (fst (ReviewState.apply (demo_completion review) demo_loading)) /\
  ReviewState.current (fst (ReviewState.apply (demo_completion review) demo_loading)) = Some 1 /\
  outcome_ok review (Some (1, review_demo, false)) (Some (1, review_demo, false) <> None /\ Handle.latest (handle demo_answered) <> None)
    (ReviewState.outcome (fst (ReviewState.apply (demo_completion review) demo_loading))).
Proof.
  split; [exact (demo_polled review review_demo_answers) |]; destruct (review_state_exact review _ _ _ (demo_polled review review_demo_answers)) as (H1 & _ & H3).
  split; [exact H1 | exact H3].
Defined.
