(* ===== verification/StorageWitnesses.v ===== *)
(** * Concrete runs of the artifact services.

    A small artifact is imported into empty storage and removed again, with
    the reference JSON codec; the theorems about histories and errors are
    applied to these runs. *)

From S2P Require Import Prelude Text Document Claims Json JsonRef Extractor Model ModelJson StoreDb ModelStore StoreMonad StoreInv.
From S2P Require Import StoreOps StoreTheorems FileSystem StorageIo ArtifactStorage ArtifactRemoval ArtifactImport ArtifactReconciliation StorageFacts StorageSpecs StorageSafety StorageTheorems StorageErrors StorageCalm RemovalReady StoreRemoval RemovalRetry.
From S2P Require Import StoreInventory ArtifactInventory InventorySpec InventoryCalm.
From S2P Require Import InferenceWitnesses.

#[local] Existing Instance toy_sha256.
#[local] Existing Instance reference_json.

Definition demo_bytes : bytes := [1; 2; 3; 4; 5].
Definition file_manifest : ArtifactManifest.t := {|
  ArtifactManifest.schema_version := ARTIFACT_MANIFEST_SCHEMA_VERSION;
  ArtifactManifest.artifact_id := ArtifactId.mk (sha256 demo_bytes);
  ArtifactManifest.source := {| origin := lit "local"; revision := lit "1" |};
  ArtifactManifest.artifact_digest := sha256 demo_bytes;
  ArtifactManifest.byte_size := 5;
  ArtifactManifest.format := lit "gguf";
  ArtifactManifest.family := lit "demo";
  ArtifactManifest.architecture := None;
  ArtifactManifest.quantization := Some (lit "q4");
  ArtifactManifest.tokenizer := Some {| tokenizer_family := lit "bpe"; tokenizer_digest := sha256 [2] |};
  ArtifactManifest.licenses := [{| license_component := lit "weights"; license_identifier := lit "MIT"; license_text_digest := sha256 [3] |}];
  ArtifactManifest.declared_capabilities :=
    {| declared_roles := [RoleGeneration]; declared_languages := [lit "en"]; declared_context_tokens := Some 8192 |} |}.

Lemma file_manifest_typed : manifest_typed file_manifest.
Proof.
  split; [split; vm_compute; done | vm_compute; reflexivity | vm_compute; reflexivity | split; vm_compute; done
    | vm_compute; reflexivity | | split; split; vm_compute; done].
  apply Forall_cons; split; [vm_compute; reflexivity | constructor].
Qed.

(** A disk on which the root does not exist yet. *)
Definition empty_world : World :=
  {| fs := {| inodes := ∅; device := 1; root := None; root_synced := true |}; db := empty_db; calls := 0; reports := [] |}.
Definition source_file : Metadata :=
  {| md_type := TypeFile; md_len := 5; md_dev := 1; md_ino := 1; md_mode := 0; md_mtime := (0, 0); md_ctime := (0, 0); md_nlink := 1 |}.
(** Reads of the source are short, clocks tick, and the calls [fail] fails are answered with its errors. *)
Definition demo_environment (fail : nat -> option (IoError * bool)) : Environment := {|
  ends := fun _ => false; fails := fail; sql_fails := fun _ _ => false; cancels := fun _ => false;
  now := fun n => (Z.of_nat n, 0); short := fun _ => 3; random := fun n => Some (repeat (Z.of_nat n) 16);
  source_metadata := fun _ => Ok source_file; source_read := fun _ p => Ok (drop (Z.to_nat p) demo_bytes);
  parent_direct := fun _ => true |}.
Definition quiet : nat -> option (IoError * bool) := fun _ => None.

Definition demo_import_limits : ArtifactImportLimits := {| il_maximum_artifact_bytes := 100; il_maximum_storage_entries := 10 |}.
Definition demo_removal_limits : ArtifactRemovalLimits := {| rl_maximum_artifact_bytes := 100; rl_maximum_storage_entries := 10 |}.
Definition imported_world : World :=
  snd (import_artifact demo_import_limits {| ir_manifest := file_manifest |} (demo_environment quiet) empty_world).
Definition file_selection : StoredArtifactInstallation.t := StoredArtifactInstallation.mk (installed_from file_manifest) (Epoch.mk 1).

Lemma empty_world_initial : initial empty_world.
Proof. split; [split; [done |] | done]; intros d; vm_compute; done. Qed.
Lemma imported_reached : rtc event empty_world imported_world.
Proof. apply rtc_once, event_import, file_manifest_typed. Qed.
Lemma imported_inv : inv (db imported_world).
Proof. apply (history_sound empty_world imported_world empty_world_initial imported_reached). Qed.

(** The import installed the artifact, in the first epoch. *)
Lemma imported_row : in_epoch <$> installed_artifacts (db imported_world) !! selection_key file_selection = Some 1.
Proof. vm_compute; reflexivity. Qed.
Lemma imported_installed : exists i, installed_at (db imported_world) (selection_key file_selection) i 1.
Proof.
  pose proof imported_row as H; destruct (installed_artifacts _ !! _) as [row|] eqn:E; [| done]; injection H as <-.
  by apply (inv_installed _ imported_inv) in E as [_ E].
Qed.

(** Power is lost after everything reached the disk. *)
Definition flushed (f : Fs) : Fs := {|
  inodes := (fun v => {| node := sync_node (node v); mode := mode v; modified := modified v; changed := changed v |}) <$> inodes f;
  device := device f; root := root f; root_synced := true |}.
Lemma flushed_survives f : survives f (flushed f).
Proof.
  split; [by left | done | |].
  - intros n v'; unfold node_at; cbn; rewrite lookup_fmap; destruct (inodes f !! n) as [i|]; [| done]; intros [= <-].
    exists (node i); split; [done |]; destruct (node i) as [c []| | |]; constructor; by left.
  - intros n _ [v Hv]; cbn; rewrite lookup_fmap, Hv; eauto.
Qed.

Lemma installed_bytes_durable_witness : exists i f,
  installed_at (db imported_world) (selection_key file_selection) i 1 /\ survives (fs imported_world) f /\
  exists r a n c, root f = Some r /\ entries_of f r !! lit "artifacts" = Some a /\
    entries_of f a !! Digest.as_str (InstalledArtifact.artifact_digest i) = Some n /\
    node_at f n = Some (RegularFile c true) /\ vlen c = InstalledArtifact.byte_size i /\ sha256 c = InstalledArtifact.artifact_digest i.
Proof.
  destruct imported_installed as [i Hi]; exists i, (flushed (fs imported_world)); split; [done |]; split; [apply flushed_survives |].
  apply (installed_bytes_durable empty_world imported_world (selection_key file_selection) i 1);
    [apply empty_world_initial | apply imported_reached | done | right; apply flushed_survives].
Defined.

(** A call after the preparation fails, although it had its effect. *)
Definition interrupted : Environment := demo_environment (fun n => if (n =? 310)%nat then Some (Os 5, true) else None).
Definition interrupted_world : World := snd (remove_selection demo_removal_limits file_selection interrupted imported_world).

Lemma interrupted_error : fst (remove_selection demo_removal_limits file_selection interrupted imported_world) =
  Err (ArtifactRemovalError.RecoveryRequired (ArtifactRemovalError.RecoveryStorageIo (Custom OtherKind))).
Proof. vm_compute; reflexivity. Qed.

Lemma removal_errors_witness :
  removal_at (db interrupted_world) (selection_key file_selection) (installed_from file_manifest) 1 Prepared.
Proof.
  apply (removal_errors demo_removal_limits file_selection interrupted imported_world interrupted_world
    (ArtifactRemovalError.RecoveryRequired (ArtifactRemovalError.RecoveryStorageIo (Custom OtherKind)))); [apply imported_inv |].
  by rewrite (surjective_pairing (remove_selection _ _ _ _)), interrupted_error.
Defined.

(** ** A removal that is interrupted and retried *)

Lemma file_installed_typed : installed_typed (installed_from file_manifest).
Proof. split; vm_compute; done. Qed.
Lemma row_installed d k e i row :
  inv d -> in_epoch <$> installed_artifacts d !! k = Some e -> in_record <$> installed_artifacts d !! k = Some row ->
  encode_record i = Ok row -> installed_typed i -> installed_at d k i e.
Proof.
  intros Hd He Hr Hx Ht; destruct (installed_artifacts d !! k) as [r|] eqn:E; [| done]; injection He as <-; injection Hr as <-.
  destruct (inv_installed d Hd k r E) as (_ & j & Hj); pose proof Hj as (r' & E' & Hs & _); rewrite E in E'; injection E' as <-.
  by rewrite <- (stored_inj j i (in_record r)).
Qed.
Definition file_row : text := match encode_record (installed_from file_manifest) with Ok row => row | _ => [] end.
Lemma file_row_encodes : encode_record (installed_from file_manifest) = Ok file_row.
Proof. vm_compute; reflexivity. Qed.
Lemma imported_record :
  in_record <$> installed_artifacts (db imported_world) !! selection_key file_selection = Some file_row.
Proof. vm_compute; reflexivity. Qed.
Lemma imported_selection :
  installed_at (db imported_world) (selection_key file_selection) (installed_from file_manifest) 1.
Proof.
  exact (row_installed (db imported_world) (selection_key file_selection) 1 (installed_from file_manifest) file_row imported_inv imported_row
    imported_record file_row_encodes file_installed_typed).
Qed.
Lemma no_bindings_unbound d t : active_bindings d = ∅ -> unbound d t.
Proof. intros Hb k b (row & E & _); by rewrite Hb, lookup_empty in E. Qed.
Lemma imported_unbound : unbound (db imported_world) file_selection.
Proof.
  apply no_bindings_unbound; vm_compute; reflexivity.
Qed.

(** The numbers of the directory, the lock, the artifact directory and the file. *)
Definition check_leads (a n : Z) (x : text) (i : Z * Inode) : bool :=
  match node (snd i) with
  | DirectoryNode e p =>
      forallb (fun y => negb (snd y =? n) || ((fst i =? a) && text_eqb (fst y) x)) (map_to_list e) && bool_decide (p = [])
  | _ => true
  end.
Lemma check_leads_sound a n x f d name :
  forallb (check_leads a n x) (map_to_list (inodes f)) = true -> may_lead f d name n -> d = a /\ name = x.
Proof.
  intros H Hl; rewrite forallb_forall in H; unfold may_lead, entries_of, pending_of, node_at in Hl.
  destruct (inodes f !! d) as [i|] eqn:Ei; cbn in Hl; [| destruct Hl as [Hl|Hl]; [by rewrite lookup_empty in Hl | by apply elem_of_nil in Hl]].
  specialize (H (d, i)); cbn in H; unfold check_leads in H; cbn in H.
  assert (Hin : In (d, i) (map_to_list (inodes f))) by (by apply list_elem_of_In, elem_of_map_to_list); specialize (H Hin).
  destruct (node i) as [|e p| |]; try (destruct Hl as [Hl|Hl]; [by rewrite lookup_empty in Hl | by apply elem_of_nil in Hl]).
  apply andb_true_iff in H as [H Hp]; apply bool_decide_eq_true in Hp as ->; destruct Hl as [Hl|Hl]; [| by apply elem_of_nil in Hl].
  rewrite forallb_forall in H; specialize (H (name, n)); cbn in H; rewrite Z.eqb_refl in H; cbn in H.
  assert (Hn : In (name, n) (map_to_list e)) by (by apply list_elem_of_In, elem_of_map_to_list); specialize (H Hn).
  apply andb_true_iff in H as [H1 H2]; apply Z.eqb_eq in H1; by apply bool_decide_eq_true in H2.
Qed.

(** Everything [ready] asks for, as a computation. *)
Definition check_ready (r lk a n : Z) (x : text) (c : bytes) (maximum : Z) (f : Fs) : bool :=
  bool_decide (root f = Some r) && root_synced f
  && bool_decide (entries_of f r !! LIFECYCLE_LOCK_FILE = Some lk) && bool_decide (pending_of f r = [])
  && match node_at f lk with Some (RegularFile _ _) => true | _ => false end
  && bool_decide (entries_of f r !! lit "artifacts" = Some a)
  && is_directory f a && bool_decide (pending_of f a = [])
  && bool_decide (entries_of f a = {[ x := n ]})
  && match node_at f n with Some (RegularFile c' true) => bool_decide (c' = c) | _ => false end
  && forallb (check_leads a n x) (map_to_list (inodes f)) && (0 <? maximum) && (vlen c <=? u64_max).

Lemma check_durable f d name n : entries_of f d !! name = Some n -> pending_of f d = [] -> durable_entry f d name n.
Proof.
  intros H Hp; apply entries_some in H as (e & p & E & H); exists e, p; split_and!; [done | done |]; intros v Hv.
  rewrite (proj2 (entries_node _ _ _ _ E)) in Hp; subst p; by apply elem_of_nil in Hv.
Qed.
Lemma check_ready_sound r lk a n x c maximum f :
  check_ready r lk a n x c maximum f = true -> ready r lk a n x c maximum f /\ durable_entry f a x n.
Proof.
  unfold check_ready; intros H; repeat (apply andb_true_iff in H as [H ?]); repeat match goal with K : bool_decide _ = true |- _ => apply bool_decide_eq_true in K end.
  destruct (node_at f n) as [[c' []| | |]|] eqn:En; try done; repeat match goal with K : bool_decide _ = true |- _ => apply bool_decide_eq_true in K end; subst c'.
  assert (Hx : entries_of f a !! x = Some n) by (rewrite H4; apply lookup_singleton_eq).
  assert (Hd : durable_entry f a x n) by (by apply check_durable).
  split; [| done]; split; try done.
  - by apply check_durable.
  - destruct (node_at f lk) as [[]|] eqn:El; try done; by eexists.
  - by apply check_durable.
  - intros name v Hv; rewrite H5 in Hv; by apply elem_of_nil in Hv.
  - intros m [Hm|Hm]; [congruence | rewrite H5 in Hm; by apply elem_of_nil in Hm].
  - intros d name; by apply check_leads_sound.
  - intros name m Hm; rewrite H4 in Hm; apply lookup_singleton_Some in Hm as [<- <-]; eexists; split; [done |]; split; [done | by apply Z.leb_le].
  - rewrite H4, delete_singleton_eq, map_size_empty; by apply Z.ltb_lt.
Qed.
Lemma imported_ready :
  ready 0 1 3 4 (Digest.as_str (sha256 demo_bytes)) demo_bytes 10 (fs imported_world) /\
  durable_entry (fs imported_world) 3 (Digest.as_str (sha256 demo_bytes)) 4.
Proof. apply check_ready_sound; vm_compute; reflexivity. Qed.

(** The removal was interrupted and power was lost. *)
Definition recovered_world : World :=
  {| fs := flushed (fs interrupted_world); db := db interrupted_world; calls := calls interrupted_world; reports := reports interrupted_world |}.
Lemma recovered_attempted : rtc (attempted demo_removal_limits file_selection) imported_world recovered_world.
Proof.
  apply (rtc_l _ _ interrupted_world); [apply attempted_run |]; apply rtc_once, attempted_power, flushed_survives.
Qed.
Lemma quiet_calm : calm (demo_environment quiet).
Proof. split; cbn; eauto. Qed.

Lemma removal_recovers_witness : exists res w,
  remove_selection demo_removal_limits file_selection (demo_environment quiet) recovered_world = (Ok res, w) /\
  rr_selection res = file_selection /\ status (db w) (selection_key file_selection) = StoreTheorems.Removed 1 /\
  entries_of (fs w) 3 !! Digest.as_str (sha256 demo_bytes) = None.
Proof.
  destruct (removal_recovers demo_removal_limits file_selection 0 1 3 4 demo_bytes (demo_environment quiet) imported_world recovered_world)
    as (res & w & H1 & H2 & H3 & H4); [vm_compute; reflexivity | vm_compute; done | vm_compute; reflexivity | apply imported_inv | apply imported_selection
    | apply imported_unbound | apply imported_ready | apply imported_ready | vm_compute; reflexivity | reflexivity | apply recovered_attempted | apply quiet_calm |].
  exists res, w; split; [exact H1 |]; split; [exact H2 |]; split; [exact H3 |]; apply (H4 (fs w)); by left.
Defined.

(** ** The inventory after the import *)

Definition demo_inventory_limits : ArtifactInventoryLimits := {|
  vl_maximum_state_entries := 10; vl_maximum_storage_entries := 10; vl_maximum_artifact_bytes := 100; vl_maximum_total_verification_bytes := 1000 |}.
Definition demo_report : ArtifactInventoryReport :=
  match fst (inventory_storage demo_inventory_limits CallerToken (demo_environment quiet) imported_world) with
  | Ok report => report
  | _ => finish new_builder 0
  end.
Lemma run_pair {A B} (p : A * B) (x : A) : fst p = x -> p = (x, snd p).
Proof. by destruct p; intros <-. Qed.
Lemma demo_inventory_runs : fst (inventory_storage demo_inventory_limits CallerToken (demo_environment quiet) imported_world) = Ok demo_report.
Proof. vm_compute; reflexivity. Qed.
Lemma demo_verified : map ri_bytes (ar_registered demo_report) = [RegisteredArtifactBytes.Verified] /\ ar_verified_bytes demo_report = 5.
Proof. vm_compute; done. Qed.

Lemma inventory_reports_exactly_witness : ar_verified_bytes demo_report = 5 /\ reported demo_inventory_limits demo_report (fs imported_world) (db imported_world).
Proof.
  split; [apply demo_verified |].
  apply (proj2 (inventory_reports_exactly demo_inventory_limits CallerToken (demo_environment quiet) imported_world) demo_report
    (snd (inventory_storage demo_inventory_limits CallerToken (demo_environment quiet) imported_world))).
  exact (run_pair _ _ demo_inventory_runs).
Defined.

Lemma inventory_finds_intact_witness : exists x, x ∈ ar_registered demo_report /\
  ri_installation x = ArtifactInstallationKey.mk (InstalledArtifact.artifact_id (installed_from file_manifest)) 1 /\ intact (ri_bytes x).
Proof.
  destruct (inventory_finds_intact empty_world imported_world demo_inventory_limits CallerToken (demo_environment quiet) demo_report
    (snd (inventory_storage demo_inventory_limits CallerToken (demo_environment quiet) imported_world))) as [H1 H2].
  - apply empty_world_initial.
  - apply imported_reached.
  - exact (run_pair _ _ demo_inventory_runs).
  - destruct (H2 _ _ _ imported_selection) as (x & Hx & Ex); exists x; split; [exact Hx |]; split; [exact Ex | exact (H1 x Hx)].
Defined.

Definition demo_states : list StoredArtifactState :=
  match fst (pure (artifact_inventory 10) (db imported_world)) with Ok states => states | _ => [] end.
Lemma demo_states_read : fst (pure (artifact_inventory 10) (db imported_world)) = Ok demo_states.
Proof. vm_compute; reflexivity. Qed.
Lemma demo_states_hashed : (ar_verified_bytes (expected_report (fs imported_world) 3 demo_inventory_limits demo_states) <=? 1000) = true.
Proof. vm_compute; reflexivity. Qed.
Lemma read_states {A B} (p : StoreResult A * B) (x y : A) (b : B) : fst p = Ok x -> p = (Ok y, b) -> y = x.
Proof. intros H ->; cbn in H; congruence. Qed.
Lemma imported_manifests : bool_decide (Z.of_nat (size (artifact_manifests (db imported_world))) <= 10) = true.
Proof. vm_compute; reflexivity. Qed.

Lemma inventory_succeeds_witness :
  fst (inventory_storage demo_inventory_limits CallerToken (demo_environment quiet) imported_world) =
    Ok (expected_report (fs imported_world) 3 demo_inventory_limits demo_states).
Proof.
  destruct (inventory_succeeds demo_inventory_limits CallerToken (demo_environment quiet) imported_world 0 1 3) as (states & H0 & H1 & H2).
  - apply quiet_calm.
  - apply imported_inv.
  - vm_compute; reflexivity.
  - vm_compute; done.
  - exact (ready_layout _ _ _ _ _ _ _ _ (proj1 imported_ready)).
  - exact (ready_listable _ _ _ _ _ _ _ _ (proj1 imported_ready)).
  - exact (proj1 (bool_decide_eq_true _) imported_manifests).
  - pose proof (read_states _ _ _ _ demo_states_read H0) as E; rewrite E in H2; apply H2; exact (proj1 (Z.leb_le _ _) demo_states_hashed).
Defined.
